(* ===== verification/_CoqProject ===== *)
-Q . S2P
Prelude.v
BitOps.v
MemOps.v
Utils.v
Ringbuf.v
Hashmap.v
Spinlock.v
Rcu.v
Event.v
Workq.v
Blkio.v
Ieee.v
IeeeExact.v
FpuLib.v
FpuLibProps.v
Timer.v
State.v
Snapshot.v
Fdt.v
Boot.v
CsrDefs.v
Tlb.v
Hart.v
Machine.v
Intc.v
Plic.v
Aclint.v
Aplic.v
Chardev.v
Uart.v
Pci.v
Nvme.v
Csr.v
Mmu.v
MmuProps.v
Base.v
Atomics.v
Priv.v
Compressed.v
RiscvFpu.v
Interp.v
IsaSpec.v
BaseProps.v
CompressedProps.v
AtomicsProps.v
FpuProps.v
FpuArith.v
PrivProps.v
InterpProps.v
