(* ===== verification/Prelude.v ===== *)
(** * Verification of RVVM, a RISC-V virtual machine

    RVVM emulates RV32 and RV64 machines.  A hart ([src/src/cpu]) fetches instructions
    through a software TLB and a page-table walk, interprets them, takes traps and
    interrupts, and accesses RAM or memory-mapped devices.  Interrupt controllers and a
    serial port ([src/src/devices]) drive the interrupt lines of the harts.  Utilities
    ([src/src/util]) provide bit operations, memory accessors, ring buffers, a hash map,
    timers, files, image loading, and the locks, events, queues and RCU its threads meet at;
    [src/src/core] holds the state of harts and machines, interrupt lines, block devices,
    snapshots and device trees.

    ** Files

    Utilities:
    - [Prelude]: fixed-width integers, updates of arrays, tactics, hint databases and the
      lemmas on bits, lists and options the other files share.
    - [BitOps] (util/bit_ops.h), [MemOps] (util/mem_ops.h), [Utils] (util/utils.c),
      [Ringbuf] (util/ringbuf.c), [Hashmap] (util/hashmap.c, hashmap.h), [Timer]
      (util/rvtimer.c), [Blkio] (util/blk_io.c): files over the calls of a POSIX host.
    - [Spinlock] (util/spinlock.c, spinlock.h), [Rcu] (util/rcu_lib.c, rcu_lib.h), [Event] and
      [Workq] (util/threading.c): each is a transition system of any number of threads, one
      step per atomic operation.

    Machine, storage and device tree:
    - [State] (core/rvvm.h): the records of hart, CSR file, TLB, AIA register files, RAM, and
      the class [Env] of what a hart calls outside of itself.
    - [Snapshot] (core/rvvm_blk.c, core/rvvm_snapshot.c).
    - [Fdt] (core/rvvm_fdt.c): device trees in a store of nodes, and their serialization.
    - [Boot] (util/elf_load.c and the reset of core/rvvm.c): ELF and raw images read from the files
      of [Blkio], and where the device tree is passed.
    - [Machine] (core/rvvm.c): machines in a store with the global lock, the list of running
      machines and the event loop; calls of the interface are a monad in which a call can
      fail to return.
    - [Intc] (core/rvvm_irq.c): the harts of a machine as controllers see them, and the
      allocation of interrupt lines.

    The hart:
    - [CsrDefs] (cpu/riscv_csr.h) and [Csr] (cpu/riscv_csr.c): the CSR file.
    - [Tlb], [Mmu], [MmuProps] (cpu/riscv_mmu.c, riscv_mmu.h): translation and memory access.
    - [Hart] (cpu/riscv_hart.c): traps, delegation, interrupt dispatch, AIA register files.
    - [Base], [BaseProps] (cpu/riscv_base.h, riscv_common.h) with the reference semantics
      [IsaSpec]; [Compressed], [CompressedProps] (cpu/riscv_compressed.h and the loads and
      stores of riscv_fpu.h); [Atomics], [AtomicsProps] (cpu/riscv_atomics.h,
      util/atomics.h); [Priv], [PrivProps] (cpu/riscv_priv.c).
    - Floating point: [Ieee] has the arithmetic of IEEE 754 on bit patterns, as the host does
      it, and [IeeeExact] what it computes exactly; [FpuLib], [FpuLibProps] (util/fpu_lib.h,
      fpu_lib.c) are the library over the host; [RiscvFpu], [FpuProps], [FpuArith]
      (cpu/riscv_fpu.h, riscv_fpu.c) the instructions.
    - [Interp], [InterpProps] (cpu/riscv_interpreter.h, riscv_cpu.c, riscv_hart.c): the
      dispatch loop and the hart thread as a transition system.

    Devices:
    - [Plic] (devices/riscv-plic.c), [Aclint] (devices/riscv-aclint.c, riscv-imsic.c),
      [Aplic] (devices/riscv-aplic.c).
    - [Chardev] (devices/chardev.h, chardev_term.c), [Uart] (devices/uart16550_core.c,
      ns16550a.c).
    - [Pci] (devices/pci-bus.c): configuration space, base address registers, INTx, MSI and
      MSI-X, slots, plugging and unplugging, over the interface of [Machine].
    - [Nvme] (devices/nvme.c): an NVMe controller over a function of [Pci] and a block device
      of [Snapshot].

    ** How code is translated

    A C function is a definition of the same name.  Unsigned integers are elements of [Z] in
    the range of their width, and every wrap-around or sign conversion of the source is
    written out ([u32], [s64], ...).  A function that changes an object takes and returns its
    record; arrays are functions on indices, and an access outside of an array is [None] where
    the code can reach one.  A [switch] is a chain of comparisons in the order of the source.
    The build that is modelled is a little-endian 64-bit host with GCC or Clang, the
    interpreter without JIT, RV32 and RV64, floating point with SSE2 on x86-64, and no vector
    extension.  Where the preprocessor
    selects between a builtin and a fallback, the fallback has the suffix [_portable].
    Execution is sequential: one hart runs, and what other threads do to it happens between
    its instructions or while it sleeps.  An atomic operation of the host is its effect.  The
    exception are [Spinlock], [Rcu], [Event] and [Workq], where threads interleave: a function
    is a step from one atomic operation to the next, all operations happen in one total order,
    weak compare-and-swaps may fail and futexes may return early.

    Code outside of the model is an argument with laws: [Env]/[EnvOk] (attached devices,
    debugger, sleeping), [Tty]/[TtyOk] (descriptors of the
    host), [BlkImage]/[BlkImageOk] (image formats), [Posix]/[PosixOk] (files of the host),
    [Platform]/[PlatformOk] (callbacks of devices and what a hart thread does), [Workers]
    (which tasks the thread pool takes, and the order it runs them in).  [Chardev], [IrqSink]/[IrqLevel]
    and [Fpu]/[FpuOk] are interfaces between modelled components: the interpreter is proved
    against [Fpu], which [RiscvFpu] implements and [FpuProps] proves it does; the serial port is proved against them, the
    terminal is a [Chardev], and the PLIC is proved to be an [IrqLevel].  Each class with laws
    has a concrete instance in the witnesses.

    ** What the theorems show

    - Instructions: every integer instruction word has the effect of the reference semantics,
      compressed instructions are their expansions, AMO, SC and compare-and-swap implement
      their extensions; the exceptions are stated ([BaseProps], [CompressedProps],
      [AtomicsProps]).
    - Floating point: arithmetic instructions write the correctly rounded result and raise
      exactly its flags, the rounding mode of the host follows [frm], conversions truncate and
      saturate; minimum and maximum, and the use of MXCSR, do what is expected of them; the
      inputs where the code departs from the architecture are stated ([FpuArith], [FpuLib],
      [FpuLibProps]).
    - Privilege: trap entry, interrupt dispatch and trap returns follow the privileged
      architecture and change nothing else (among several interrupts the highest number is
      taken, which is the order of the architecture for some sets only), a return undoes a
      trap, CSR accesses are guarded; on a hart with a legal SXL, supervisor accesses and
      SYSTEM instructions below M mode do not reach machine-level state ([Hart], [Csr],
      [PrivProps]).
    - Memory: the walks refine the translation algorithm, with its checks for reserved
      encodings where none is met, the TLB stays coherent, cached and uncached loads agree,
      loads return what was stored, the slow path terminates ([MmuProps], [Tlb]).
    - The thread: all reachable states of a hart are well formed ([InterpProps]).
    - Interrupts: claims return the right source, no interrupt is lost under a driver that
      keeps to some rules, with the register writes outside of them that do lose one; domains of the APLIC are isolated; timer and
      software interrupt registers drive the line of their hart; allocation of lines is sound
      ([Plic], [Aplic], [Aclint], [Intc]).
    - Serial port: the level of its line, and that bytes pass in order between the driver and
      the host ([Uart], through [Chardev] and [Ringbuf]).
    - PCI: message-signalled interrupts refine the model of the specification, regions can be
      sized and placed, unplugging takes away the regions of a device and nothing else
      ([Pci]).  NVMe: reads and writes move the bytes of the pages a command lists, when
      those are in RAM; a doorbell takes every command once, in order, and returns, and the
      workers that I/O commands are handed to come to an end ([Nvme]).
    - Data structures: the ring buffer is a bounded queue, the hash map is a finite map,
      snapshots restore what was saved, also for the serial port; a serialized device tree is
      read back by a reader of the format; numbers survive printing ([Ringbuf], [Hashmap],
      [Snapshot], [Uart], [Fdt], [Utils]).
    - Threads: the lock excludes and forgets no sleeper, a grace period outlives the readers
      that could have seen the old pointer, no wake-up of an event is lost, and the queue runs
      every task once ([Spinlock], [Rcu], [Event], [Workq]).
    - The machine: calls return, if devices are attached and removed while it stands still, and keep the lists of machines, threads and devices
      consistent; devices get disjoint places and reach only RAM; the calls that do not do
      what they mean to are stated ([Machine]).  Loading an image stays in its buffer and puts
      segments where they belong; files keep what is written to them ([Boot], [Blkio]).

    ** Bounds

    Loops over bits, registers, privilege levels and page-table levels have as many steps as
    there are bits, registers or levels.  Retries of a failed compare-and-swap need one
    iteration, since nothing interferes in between.  An access that spans two pages recurses
    once, which is a theorem.  A claim of the PLIC takes one round, proved by returning
    [Some].  Rebalancing of the hash map has a fuel above the sum of all displacements, proved
    to suffice; insertion and resizing call each other, with a depth of two as long as fewer
    than 256 keys are stored, and otherwise up to a depth that is an argument.  The search for
    a section of a snapshot is bounded by the size of the device, as each iteration moves the
    head.  Traversals of a device tree have the depth of the tree as fuel: the theorem asks for
    any fuel with which the tree can be read off the store.  The dispatch loop and the thread run for a number of steps that is an argument,
    and the invariants hold for every number.  The number of wakeups of WFI is a field of
    [Env].  Transfers of files have a fuel of one per byte and per interrupted call, and the
    search for a free place for a device one per region, both proved to suffice.  A list of NVMe pages takes two iterations per page, a transfer one per
    byte at most and a queue one per entry, proved to suffice.  The
    workers of the controller run as many tasks as are waiting, and no more are needed.  The
    tickets of the work queue are 32-bit numbers compared by their difference: its theorem
    holds for any number of wrap-arounds, as long as no thread keeps a ticket it has loaded
    while 2^31 - 512 more are taken.  Locks are for fewer than 2^30 threads, events for fewer
    than 2^32, nested sections of a reader for fewer than 2^16, as their counters have it.

    ** Not modelled

    The JIT compiler ([src/src/rvjit]), whose output is machine code of four hosts; floating
    point on hosts other than x86-64; the KVM backend, userland
    emulation, isolation, native threads, windows, sockets and audio of the host; opening of
    files; USB, network, input and other storage and PCI devices, clocks and bus controllers; creation
    and freeing of machines and the construction of device trees by devices; the debugger
    stub; the opening and probing of image formats; the snapshot callbacks of devices other
    than the serial port.  Reorderings of memory operations that the fences of the code
    exclude are not modelled: the threads of the transition systems see one order. *)

From Stdlib Require Export ZArith Lia.
From stdpp Require Export base tactics numbers sets list functions.
#[global] Open Scope Z_scope.

(** ** Fixed-width integers

    A C unsigned integer of width [w] is a [Z] in [0, 2^w); a signed one is a [Z]
    in [-2^(w-1), 2^(w-1)).  Every conversion and every wrap-around of the source
    is written out with [wrap] (conversion to the unsigned type of that width) or
    [signed] (conversion to the two's-complement signed type). *)

Definition wrap (w x : Z) : Z := x mod 2 ^ w.

Definition signed (w x : Z) : Z := (x + 2 ^ (w - 1)) mod 2 ^ w - 2 ^ (w - 1).

Declare Scope cint_scope.
Delimit Scope cint_scope with C.
Abbreviation u8 := (wrap 8).
Abbreviation u16 := (wrap 16).
Abbreviation u32 := (wrap 32).
Abbreviation u64 := (wrap 64).
Abbreviation u128 := (wrap 128).
Abbreviation s8 := (signed 8).
Abbreviation s16 := (signed 16).
Abbreviation s32 := (signed 32).
Abbreviation s64 := (signed 64).
Notation "a .<< b" := (Z.shiftl a b) (at level 51, left associativity) : cint_scope.
Notation "a .>> b" := (Z.shiftr a b) (at level 51, left associativity) : cint_scope.
Notation "a .& b" := (Z.land a b) (at level 52, left associativity) : cint_scope.
Notation "a .^ b" := (Z.lxor a b) (at level 53, left associativity) : cint_scope.
Notation "a .| b" := (Z.lor a b) (at level 54, left associativity) : cint_scope.
#[global] Open Scope cint_scope.

(** C truth value of an integer expression. *)
Definition nz (x : Z) : bool := negb (x =? 0).

(** [unsigned_range w x]: [x] is a value of the unsigned type of width [w]. *)
Definition urange (w x : Z) : Prop := 0 <= x < 2 ^ w.
Definition srange (w x : Z) : Prop := - 2 ^ (w - 1) <= x < 2 ^ (w - 1).

Create HintDb rv.
Create Rewrite HintDb zbits.

(** ** Automation *)

(** Solve linear goals with division and modulo by constants. *)
Ltac dlia := Z.to_euclidean_division_equations; lia.

(** Case analysis on the innermost boolean comparison of the goal. *)
Ltac case_bool :=
  match goal with
  | |- context [?a =? ?b] => destruct (Z.eqb_spec a b)
  | |- context [?a <? ?b] => destruct (Z.ltb_spec a b)
  | |- context [?a <=? ?b] => destruct (Z.leb_spec a b)
  end.

(** Same, on a hypothesis. *)
Ltac case_bool_in H :=
  match type of H with
  | context [?a =? ?b] => destruct (Z.eqb_spec a b)
  | context [?a <? ?b] => destruct (Z.ltb_spec a b)
  | context [?a <=? ?b] => destruct (Z.leb_spec a b)
  end.

(** Succeeds when the term mentions no hypothesis of the context. *)
Ltac closed_term t :=
  assert_succeeds (assert (t = t)
    by (clear; lazymatch goal with _ : _ |- _ => fail | _ => reflexivity end)).

(** Decide a closed comparison of numerals inside the goal. *)
Ltac eval_closed_bool t :=
  closed_term t;
  let r := eval vm_compute in t in
  match r with
  | true => change t with true
  | false => change t with false
  end; cbv iota.

Ltac eval_cmp :=
  repeat match goal with
  | |- context [?a =? ?b] => eval_closed_bool (a =? b)
  | |- context [?a <? ?b] => eval_closed_bool (a <? b)
  | |- context [?a <=? ?b] => eval_closed_bool (a <=? b)
  end.

(** ** Powers of two *)

Lemma pow2_pos w : 0 <= w -> 0 < 2 ^ w.
Proof. intros. apply Z.pow_pos_nonneg; lia. Qed.

Lemma pow2_split w : 0 < w -> 2 ^ w = 2 * 2 ^ (w - 1).
Proof. intros. rewrite <- Z.pow_succ_r by lia. f_equal. lia. Qed.

#[export] Hint Resolve pow2_pos : rv.

(** ** Lemmas on [wrap] *)

Lemma wrap_range w x : 0 <= w -> urange w (wrap w x).
Proof. intros. apply Z.mod_pos_bound. auto with rv. Qed.

Lemma wrap_small w x : urange w x -> wrap w x = x.
Proof. apply Z.mod_small. Qed.

Lemma wrap_wrap w x : 0 <= w -> wrap w (wrap w x) = wrap w x.
Proof. intros. apply wrap_small, wrap_range; lia. Qed.

Lemma wrap_wrap_le w v x : 0 <= w <= v -> wrap w (wrap v x) = wrap w x.
Proof.
  intros. unfold wrap. replace v with (w + (v - w)) by lia.
  rewrite Z.pow_add_r, Z.rem_mul_r by lia.
  rewrite Z.mul_comm, Z_mod_plus_full. apply Z.mod_mod. lia.
Qed.

Lemma wrap_wrap_ge w v x : 0 <= v <= w -> wrap w (wrap v x) = wrap v x.
Proof.
  intros. apply wrap_small. destruct (wrap_range v x) as [? ?]; [lia|].
  split; [lia|]. eapply Z.lt_le_trans; [eassumption|]. apply Z.pow_le_mono_r; lia.
Qed.

Lemma wrap_add_l w x y : wrap w (wrap w x + y) = wrap w (x + y).
Proof. apply Zplus_mod_idemp_l. Qed.
Lemma wrap_add_r w x y : wrap w (x + wrap w y) = wrap w (x + y).
Proof. apply Zplus_mod_idemp_r. Qed.
Lemma wrap_sub_l w x y : wrap w (wrap w x - y) = wrap w (x - y).
Proof. apply Zminus_mod_idemp_l. Qed.
Lemma wrap_sub_r w x y : wrap w (x - wrap w y) = wrap w (x - y).
Proof. apply Zminus_mod_idemp_r. Qed.
Lemma wrap_mul_l w x y : wrap w (wrap w x * y) = wrap w (x * y).
Proof. apply Zmult_mod_idemp_l. Qed.
Lemma wrap_mul_r w x y : wrap w (x * wrap w y) = wrap w (x * y).
Proof. apply Zmult_mod_idemp_r. Qed.

Lemma wrap_land w x : 0 <= w -> wrap w x = Z.land x (Z.ones w).
Proof. intros. symmetry. by apply Z.land_ones. Qed.

Lemma wrap_0 w : wrap w 0 = 0.
Proof. apply Zmod_0_l. Qed.

(** Adding a multiple of the modulus does not change the wrapped value. *)
Lemma wrap_add_mul w x k : wrap w (x + k * 2 ^ w) = wrap w x.
Proof. apply Z_mod_plus_full. Qed.

(** ** Lemmas on [signed] *)

Lemma signed_range w x : 0 < w -> srange w (signed w x).
Proof.
  intros. unfold srange, signed.
  pose proof (Z.mod_pos_bound (x + 2 ^ (w - 1)) (2 ^ w)).
  pose proof (pow2_pos w). rewrite (pow2_split w) in * by lia. lia.
Qed.

Lemma signed_small w x : 0 < w -> srange w x -> signed w x = x.
Proof.
  unfold srange, signed. intros. rewrite Z.mod_small; [lia|].
  rewrite (pow2_split w) by lia. lia.
Qed.

Lemma wrap_signed w x : 0 < w -> wrap w (signed w x) = wrap w x.
Proof.
  intros. unfold wrap, signed. rewrite Zminus_mod_idemp_l. f_equal. lia.
Qed.

Lemma signed_wrap w x : signed w (wrap w x) = signed w x.
Proof. unfold wrap, signed. by rewrite Zplus_mod_idemp_l. Qed.

Lemma signed_wrap_le w v x : 0 < w <= v -> signed w (wrap v x) = signed w x.
Proof.
  intros. rewrite <- (signed_wrap w (wrap v x)), wrap_wrap_le by lia. apply signed_wrap.
Qed.

Lemma signed_eq_iff w x y : 0 < w -> signed w x = signed w y <-> wrap w x = wrap w y.
Proof.
  intros. split; intros E.
  - by rewrite <- (wrap_signed w x), E, wrap_signed by lia.
  - by rewrite <- (signed_wrap w x), E, signed_wrap.
Qed.

(** The usual case form of two's complement. *)
Lemma signed_cases w x : 0 < w -> urange w x ->
  signed w x = if x <? 2 ^ (w - 1) then x else x - 2 ^ w.
Proof.
  unfold urange, signed. intros Hw Hx. rewrite (pow2_split w) in * by lia.
  case_bool; [rewrite Z.mod_small; lia|].
  rewrite <- (Z_mod_plus_full _ (-1)), Z.mod_small; lia.
Qed.

#[export] Hint Resolve wrap_range signed_range : rv.

(** ** Bit-level reasoning *)

Lemma testbit_wrap w x i : 0 <= w -> Z.testbit (wrap w x) i = (i <? w) && Z.testbit x i.
Proof.
  intros. destruct (Z.ltb_spec i w); cbn.
  - destruct (Z.leb_spec 0 i); [|by rewrite !Z.testbit_neg_r by lia].
    apply Z.mod_pow2_bits_low; lia.
  - apply Z.mod_pow2_bits_high; lia.
Qed.

Lemma testbit_shiftl x n i : 0 <= i -> Z.testbit (Z.shiftl x n) i = Z.testbit x (i - n).
Proof. apply Z.shiftl_spec. Qed.

Lemma testbit_shiftr x n i : 0 <= i -> Z.testbit (Z.shiftr x n) i = Z.testbit x (i + n).
Proof. apply Z.shiftr_spec. Qed.

Lemma testbit_ones n i : 0 <= n -> 0 <= i -> Z.testbit (Z.ones n) i = (i <? n).
Proof.
  intros. destruct (Z.ltb_spec i n).
  - apply Z.ones_spec_low; lia.
  - apply Z.ones_spec_high; lia.
Qed.

Lemma testbit_pow2 n i : 0 <= n -> Z.testbit (2 ^ n) i = (i =? n).
Proof.
  intros. destruct (Z.eqb_spec i n) as [->|].
  - by apply Z.pow2_bits_true.
  - apply Z.pow2_bits_false; lia.
Qed.

(** Bits of a two's-complement reading: the sign bit is repeated. *)
Lemma testbit_signed w x i : 0 < w -> 0 <= i ->
  Z.testbit (signed w x) i = Z.testbit x (Z.min i (w - 1)).
Proof.
  intros Hw Hi.
  assert (E : forall j, j < w -> Z.testbit (signed w x) j = Z.testbit x j).
  { intros j Hj. destruct (Z.ltb_spec j 0); [by rewrite !Z.testbit_neg_r|].
    rewrite <- (Z.mod_pow2_bits_low (signed w x) w j), <- (Z.mod_pow2_bits_low x w j) by lia.
    change (Z.testbit (wrap w (signed w x)) j = Z.testbit (wrap w x) j).
    by rewrite wrap_signed. }
  destruct (Z.ltb_spec i w).
  { rewrite Z.min_l by lia. apply E; lia. }
  rewrite Z.min_r, <- E by lia.
  destruct (signed_range w x Hw) as [L U]. set (y := signed w x) in *. clearbody y.
  assert (Hd : forall k, w - 1 <= k -> Z.testbit y k = (y <? 0)).
  { intros k Hk. assert (Hle : 2 ^ (w - 1) <= 2 ^ k) by (apply Z.pow_le_mono_r; lia).
    rewrite Z.testbit_odd, Z.shiftr_div_pow2 by lia.
    destruct (Z.ltb_spec y 0).
    - replace (y / 2 ^ k) with (-1); [done|].
      apply Z.div_unique with (r := y + 2 ^ k); lia.
    - rewrite Z.div_small by lia. done. }
  rewrite !Hd by lia. done.
Qed.

#[export] Hint Rewrite Z.land_spec Z.lor_spec Z.lxor_spec Z.ldiff_spec Z.testbit_0_l : zbits.
#[export] Hint Rewrite Z.lnot_spec testbit_wrap testbit_shiftl testbit_shiftr testbit_ones
  testbit_pow2 testbit_signed using lia : zbits.

(** A value below [2^n] has no bits from [n] on. *)
Lemma testbit_above n x i : urange n x -> n <= i -> Z.testbit x i = false.
Proof.
  intros [? ?] ?. destruct (Z.ltb_spec n 0).
  - rewrite Z.pow_neg_r in * by lia. lia.
  - rewrite <- (Z.mod_small x (2 ^ n)) by lia. apply Z.mod_pow2_bits_high; lia.
Qed.

(** Two [n]-bit values with the same bits below [n] are equal. *)
Lemma bits_inj_lt n x y : urange n x -> urange n y ->
  (forall i, 0 <= i < n -> Z.testbit x i = Z.testbit y i) -> x = y.
Proof.
  intros Hx Hy H. apply Z.bits_inj'. intros i Hi.
  destruct (Z.ltb_spec i n); [by apply H|].
  by rewrite (testbit_above n x), (testbit_above n y).
Qed.

(** Characterisation of [urange] by bits. *)
Lemma urange_bits n x : 0 <= n -> 0 <= x ->
  (forall i, n <= i -> Z.testbit x i = false) -> urange n x.
Proof.
  intros Hn Hx H. rewrite <- (wrap_small n x) at 1; [by apply wrap_range|].
  enough (wrap n x = x) as <- by by apply wrap_range.
  apply Z.bits_inj'. intros i Hi. rewrite testbit_wrap by lia.
  destruct (Z.ltb_spec i n); [done|]. by rewrite H.
Qed.

Lemma urange_land_l n x y : 0 <= n -> urange n x -> urange n (Z.land x y).
Proof.
  intros Hn Hx. apply urange_bits; [done| |].
  - apply Z.land_nonneg. left. apply Hx.
  - intros i Hi. by rewrite Z.land_spec, (testbit_above n x).
Qed.

Lemma urange_land_r n x y : 0 <= n -> urange n y -> urange n (Z.land x y).
Proof. rewrite Z.land_comm. apply urange_land_l. Qed.

Lemma urange_lor n x y : 0 <= n -> urange n x -> urange n y -> urange n (Z.lor x y).
Proof.
  intros Hn Hx Hy. apply urange_bits; [done| |].
  - apply Z.lor_nonneg. split; [apply Hx|apply Hy].
  - intros i Hi. by rewrite Z.lor_spec, (testbit_above n x), (testbit_above n y).
Qed.

Lemma urange_lxor n x y : 0 <= n -> urange n x -> urange n y -> urange n (Z.lxor x y).
Proof.
  intros Hn Hx Hy. apply urange_bits; [done| |].
  - apply Z.lxor_nonneg. split; intros _; [apply Hy|apply Hx].
  - intros i Hi. by rewrite Z.lxor_spec, (testbit_above n x), (testbit_above n y).
Qed.

Lemma urange_shiftr n x k : 0 <= k -> urange n x -> urange n (Z.shiftr x k).
Proof.
  unfold urange. intros Hk [? ?]. rewrite Z.shiftr_div_pow2 by done.
  pose proof (pow2_pos k Hk). split; [apply Z.div_pos; lia|].
  apply Z.div_lt_upper_bound; [lia|]. nia.
Qed.

Lemma urange_mono n m x : n <= m -> urange n x -> urange m x.
Proof.
  intros ? [? ?]. split; [done|]. destruct (Z.ltb_spec n 0).
  - rewrite Z.pow_neg_r in * by lia. lia.
  - eapply Z.lt_le_trans; [eassumption|]. apply Z.pow_le_mono_r; lia.
Qed.

#[export] Hint Resolve urange_land_l urange_lor urange_lxor urange_shiftr : rv.

(** Disjoint bit sets: bitwise or is addition. *)
Lemma lor_add x y : Z.land x y = 0 -> Z.lor x y = x + y.
Proof. intros H. rewrite <- Z.lxor_lor by done. symmetry. by apply Z.add_nocarry_lxor. Qed.

(** Concatenation of a low part below [2^n] and a shifted high part. *)
Lemma lor_shiftl_add n x y : 0 <= n -> urange n x -> Z.lor x (Z.shiftl y n) = x + y * 2 ^ n.
Proof.
  intros Hn Hx. rewrite <- Z.shiftl_mul_pow2 by done. apply lor_add.
  apply Z.bits_inj'. intros i Hi. autorewrite with zbits.
  destruct (Z.ltb_spec i n).
  - by rewrite (Z.testbit_neg_r y), andb_false_r by lia.
  - by rewrite (testbit_above n x).
Qed.

(** A contiguous mask selects a field. *)
Lemma land_field x p n : 0 <= p -> 0 <= n ->
  Z.land x (Z.shiftl (Z.ones n) p) = Z.shiftl (wrap n (Z.shiftr x p)) p.
Proof.
  intros. apply Z.bits_inj'. intros i Hi. autorewrite with zbits.
  destruct (Z.leb_spec p i).
  - rewrite testbit_ones, testbit_shiftr by lia.
    replace (i - p + p) with i by lia. by rewrite andb_comm.
  - by rewrite !(Z.testbit_neg_r _ (i - p)), !andb_false_r by lia.
Qed.

(** Enumerate the indices below a numeral bound. *)
Lemma forall_below_succ (P : Z -> Prop) n : 0 <= n ->
  P n -> (forall i, 0 <= i < n -> P i) -> forall i, 0 <= i < n + 1 -> P i.
Proof. intros ? ? H i ?. destruct (Z.eq_dec i n) as [->|]; [done|]. apply H. lia. Qed.

Lemma forall_below_list (P : Z -> Prop) n :
  Forall P (seqZ 0 n) -> forall i, 0 <= i < n -> P i.
Proof. intros H i Hi. rewrite Forall_forall in H.
  apply H, list_elem_of_In, elem_of_seqZ. lia. Qed.

(** A decidable property of all the values below a bound, by computation. *)
Lemma forallb_below (f : Z -> bool) n :
  forallb f (seqZ 0 n) = true -> forall i, 0 <= i < n -> f i = true.
Proof.
  intros H i Hi. rewrite forallb_forall in H. apply H.
  apply list_elem_of_In, elem_of_seqZ. lia.
Qed.

(** ** Functions that distribute over bitwise or

    Bit permutations and mask-and-shift networks commute with [Z.lor]; such a
    function is determined by its values on the powers of two, which can be checked
    by computation. *)

Class OrHom (f : Z -> Z) : Prop := {
  orhom_lor : forall x y, f (Z.lor x y) = Z.lor (f x) (f y);
  orhom_0 : f 0 = 0
}.

#[export] Instance orhom_id : OrHom (fun x => x).
Proof. by split. Qed.

#[export] Instance orhom_land_r f c : OrHom f -> OrHom (fun x => Z.land (f x) c).
Proof.
  intros [H H0]. split; [|by rewrite H0]. intros. by rewrite H, Z.land_lor_distr_l.
Qed.

#[export] Instance orhom_lor_fg f g : OrHom f -> OrHom g -> OrHom (fun x => Z.lor (f x) (g x)).
Proof.
  intros [H H0] [G G0]. split; [|by rewrite H0, G0]. intros. rewrite H, G.
  apply Z.bits_inj'. intros i _. autorewrite with zbits.
  by destruct (Z.testbit (f x) i), (Z.testbit (f y) i), (Z.testbit (g x) i).
Qed.

#[export] Instance orhom_shiftr f n : OrHom f -> OrHom (fun x => Z.shiftr (f x) n).
Proof.
  intros [H H0]. split; [|by rewrite H0, Z.shiftr_0_l]. intros. by rewrite H, Z.shiftr_lor.
Qed.

#[export] Instance orhom_shiftl f n : OrHom f -> OrHom (fun x => Z.shiftl (f x) n).
Proof.
  intros [H H0]. split; [|by rewrite H0, Z.shiftl_0_l]. intros. by rewrite H, Z.shiftl_lor.
Qed.

Lemma orhom_wrap_aux w x y : 0 <= w -> wrap w (Z.lor x y) = Z.lor (wrap w x) (wrap w y).
Proof. intros. by rewrite !wrap_land, Z.land_lor_distr_l. Qed.

#[export] Instance orhom_wrap8 f : OrHom f -> OrHom (fun x => u8 (f x)).
Proof. intros [H H0]. split; [|by rewrite H0]. intros. by rewrite H, orhom_wrap_aux. Qed.
#[export] Instance orhom_wrap16 f : OrHom f -> OrHom (fun x => u16 (f x)).
Proof. intros [H H0]. split; [|by rewrite H0]. intros. by rewrite H, orhom_wrap_aux. Qed.
#[export] Instance orhom_wrap32 f : OrHom f -> OrHom (fun x => u32 (f x)).
Proof. intros [H H0]. split; [|by rewrite H0]. intros. by rewrite H, orhom_wrap_aux. Qed.
#[export] Instance orhom_wrap64 f : OrHom f -> OrHom (fun x => u64 (f x)).
Proof. intros [H H0]. split; [|by rewrite H0]. intros. by rewrite H, orhom_wrap_aux. Qed.

(** Split off the top bit of an [n+1]-bit value. *)
Lemma top_bit_split n x : 0 <= n -> urange (n + 1) x ->
  x = Z.lor (wrap n x) (if Z.testbit x n then 2 ^ n else 0).
Proof.
  intros Hn Hx. apply Z.bits_inj'. intros i Hi. rewrite Z.lor_spec, testbit_wrap by lia.
  destruct (Z.ltb_spec i n); cbn.
  - destruct (Z.testbit x n); [|by rewrite Z.testbit_0_l, orb_false_r].
    rewrite testbit_pow2 by lia. destruct (Z.eqb_spec i n); [lia|]. by rewrite orb_false_r.
  - destruct (Z.eq_dec i n) as [->|].
    + destruct (Z.testbit x n); [|by rewrite Z.testbit_0_l]. rewrite testbit_pow2 by lia. lia.
    + rewrite (testbit_above (n + 1) x) by (try done; lia).
      destruct (Z.testbit x n); [|by rewrite Z.testbit_0_l]. rewrite testbit_pow2 by lia. lia.
Qed.

(** Induction on the bits of a bounded value, highest bit last. *)
Lemma bits_ind (P : Z -> Prop) n : 0 <= n ->
  P 0 ->
  (forall k, 0 <= k < n -> forall x, urange k x -> P x -> P (Z.lor x (2 ^ k))) ->
  forall x, urange n x -> P x.
Proof.
  intros Hn H0. pattern n. revert n Hn. apply natlike_ind.
  - intros _ x [? ?]. by replace x with 0 by lia.
  - intros n Hn IH HS x Hx. unfold Z.succ in *.
    rewrite (top_bit_split n x) by done.
    assert (P (wrap n x)).
    { apply IH; [|by apply wrap_range]. intros k Hk. apply HS. lia. }
    destruct (Z.testbit x n); [|by rewrite Z.lor_0_r].
    apply HS; [lia|by apply wrap_range|done].
Qed.

(** Two or-homomorphisms that agree on the powers of two agree on [n]-bit values. *)
Lemma orhom_ext f g n `{!OrHom f} `{!OrHom g} : 0 <= n ->
  (forall i, 0 <= i < n -> f (2 ^ i) = g (2 ^ i)) ->
  forall x, urange n x -> f x = g x.
Proof.
  intros Hn H. apply bits_ind; [done| |].
  - by rewrite !orhom_0.
  - intros k Hk x Hx IH. by rewrite !orhom_lor, IH, H.
Qed.

(** The reference bit permutation: output bit [i] (of [n]) is input bit [p i]. *)
Definition bit_perm (n : Z) (p : Z -> Z) (x : Z) : Z :=
  foldr (fun i acc => Z.lor (if Z.testbit x (p i) then 2 ^ i else 0) acc) 0 (seqZ 0 n).

Lemma testbit_bit_perm_list l p x j : Forall (fun i => 0 <= i) l ->
  Z.testbit (foldr (fun i acc => Z.lor (if Z.testbit x (p i) then 2 ^ i else 0) acc) 0 l) j
  = bool_decide (j ∈ l) && Z.testbit x (p j).
Proof.
  induction l as [|i l IH]; intros Hl; cbn [foldr].
  { rewrite Z.testbit_0_l. by rewrite bool_decide_eq_false_2 by set_solver. }
  apply Forall_cons_iff in Hl as [Hi Hl]. rewrite Z.lor_spec, IH by done.
  destruct (decide (j = i)) as [->|Hne].
  - rewrite (bool_decide_eq_true_2 (i ∈ i :: l)) by set_solver.
    destruct (Z.testbit x (p i)); [|by rewrite Z.testbit_0_l, andb_false_r].
    by rewrite Z.pow2_bits_true.
  - replace (bool_decide (j ∈ i :: l)) with (bool_decide (j ∈ l))
      by (apply bool_decide_ext; set_solver).
    destruct (Z.testbit x (p i)); [|by rewrite Z.testbit_0_l].
    by rewrite Z.pow2_bits_false.
Qed.

Lemma testbit_bit_perm n p x i : 0 <= i < n ->
  Z.testbit (bit_perm n p x) i = Z.testbit x (p i).
Proof.
  intros. unfold bit_perm. rewrite testbit_bit_perm_list.
  - rewrite bool_decide_eq_true_2; [done|]. apply elem_of_seqZ. lia.
  - apply Forall_forall. intros j Hj.
    apply list_elem_of_In, elem_of_seqZ in Hj. lia.
Qed.

#[export] Instance orhom_bit_perm n p : OrHom (bit_perm n p).
Proof.
  unfold bit_perm. split.
  - intros x y. induction (seqZ 0 n) as [|i l IH]; [done|]. cbn [foldr].
    rewrite IH, Z.lor_spec. apply Z.bits_inj'. intros j _.
    destruct (Z.testbit x (p i)), (Z.testbit y (p i)); cbn [orb];
      rewrite ?Z.lor_spec, ?Z.testbit_0_l;
      repeat match goal with |- context [Z.testbit ?a j] => destruct (Z.testbit a j) end; done.
  - induction (seqZ 0 n) as [|i l IH]; [done|]. cbn [foldr].
    by rewrite IH, Z.testbit_0_l.
Qed.

(** A mask-and-shift network is the bit permutation [p] as soon as it is so on the
    powers of two (checked by evaluation). *)
Lemma orhom_is_perm f n p `{!OrHom f} : 0 <= n ->
  forallb (fun i => f (2 ^ i) =? bit_perm n p (2 ^ i)) (seqZ 0 n) = true ->
  forall x, urange n x -> forall i, 0 <= i < n -> Z.testbit (f x) i = Z.testbit x (p i).
Proof.
  intros Hn H x Hx i Hi. rewrite <- (testbit_bit_perm n p) by done.
  f_equal. apply (orhom_ext f (bit_perm n p) n Hn); [|done].
  intros j Hj. apply Z.eqb_eq. by apply (forallb_below _ _ H).
Qed.

(** ** Array updates

    A C array is a total function of its index; an assignment is stdpp's function
    update [<[i := v]> f]. *)
Lemma fupd_eq {A} (f : Z -> A) i v : (<[i := v]> f) i = v.
Proof. apply fn_lookup_insert. Qed.
Lemma fupd_ne {A} (f : Z -> A) i j v : i ≠ j -> (<[i := v]> f) j = f j.
Proof. apply fn_lookup_insert_ne. Qed.
Lemma fupd_dec {A} (f : Z -> A) i j v : (<[i := v]> f) j = if i =? j then v else f j.
Proof.
  destruct (Z.eqb_spec i j) as [->|]; [apply fupd_eq|by apply fupd_ne].
Qed.

(** ** Little-endian byte strings *)

Fixpoint le_combine (l : list Z) : Z :=
  match l with
  | [] => 0
  | b :: l => b + 256 * le_combine l
  end.

Fixpoint le_split (n : nat) (v : Z) : list Z :=
  match n with
  | O => []
  | S n => v mod 256 :: le_split n (v / 256)
  end.

Abbreviation bytes := (Forall (urange 8)).

Lemma length_le_split n v : length (le_split n v) = n.
Proof. revert v. induction n; intros; cbn; auto. Qed.

Lemma le_split_bytes n v : bytes (le_split n v).
Proof. revert v. induction n; intros; cbn; constructor; auto. apply Z.mod_pos_bound. lia. Qed.

Lemma pow2_byte_succ n : 2 ^ (8 * Z.of_nat (S n)) = 256 * 2 ^ (8 * Z.of_nat n).
Proof.
  replace (8 * Z.of_nat (S n)) with (8 + 8 * Z.of_nat n) by lia.
  rewrite Z.pow_add_r by lia. done.
Qed.

Lemma le_combine_range l : bytes l -> urange (8 * Z.of_nat (length l)) (le_combine l).
Proof.
  unfold urange. induction 1 as [|b l [? ?] ? IH]; [cbn; lia|].
  cbn [length le_combine]. rewrite pow2_byte_succ. change (2 ^ 8) with 256 in *. lia.
Qed.

(** Round trip: writing then reading an integer truncates it to the width written. *)
Lemma le_combine_split n v : le_combine (le_split n v) = wrap (8 * Z.of_nat n) v.
Proof.
  unfold wrap. revert v. induction n as [|n IH]; intros v.
  { cbn. by rewrite Z.mod_1_r. }
  cbn [le_split le_combine]. rewrite IH, pow2_byte_succ, Z.rem_mul_r by lia. lia.
Qed.

Lemma le_split_combine l : bytes l -> le_split (length l) (le_combine l) = l.
Proof.
  unfold urange. induction 1 as [|b l ? ? IH]; [done|].
  cbn [length le_combine le_split]. change (2 ^ 8) with 256 in *.
  rewrite (Z.mul_comm 256), Z_mod_plus_full, Z_div_plus_full, Z.mod_small,
    Z.div_small, Z.add_0_l, IH by lia. done.
Qed.

Lemma le_split_wrap n v : le_split n (wrap (8 * Z.of_nat n) v) = le_split n v.
Proof.
  rewrite <- le_combine_split. rewrite <- (length_le_split n v) at 1.
  apply le_split_combine, le_split_bytes.
Qed.

Lemma testbit_le_cons b l i : urange 8 b -> 0 <= i ->
  Z.testbit (b + 256 * l) i = if i <? 8 then Z.testbit b i else Z.testbit l (i - 8).
Proof.
  intros Hb Hi. replace (b + 256 * l) with (b + l * 2 ^ 8) by (change (2 ^ 8) with 256; lia).
  rewrite <- lor_shiftl_add by (done || lia). autorewrite with zbits.
  case_bool.
  - by rewrite (Z.testbit_neg_r l), orb_false_r by lia.
  - by rewrite (testbit_above 8 b).
Qed.

(** A bitwise operation on byte strings of the same length works byte by byte. *)
Lemma le_combine_bitwise (op : Z -> Z -> Z) (f : bool -> bool -> bool) l m :
  f false false = false ->
  (forall x y i, Z.testbit (op x y) i = f (Z.testbit x i) (Z.testbit y i)) ->
  (forall x y, urange 8 x -> urange 8 y -> urange 8 (op x y)) ->
  bytes l -> bytes m -> length l = length m ->
  op (le_combine l) (le_combine m) = le_combine (zip_with op l m).
Proof.
  intros F0 Hop Hr Hl. revert m. induction Hl as [|b l Hb Hl IH]; intros [|c m] Hm Hlen;
    try done.
  - cbn. apply Z.bits_inj'. intros i _. by rewrite Hop, Z.testbit_0_l.
  - apply Forall_cons_iff in Hm as [Hc Hm]. cbn in Hlen. cbn [le_combine zip_with].
    rewrite <- IH by (done || lia). apply Z.bits_inj'. intros i Hi.
    rewrite Hop, !testbit_le_cons, !Hop by auto. by case_bool.
Qed.

(** ** Macros of src/util/utils.h *)

Definition EVAL_MIN (a b : Z) : Z := if a <? b then a else b.
Definition EVAL_MAX (a b : Z) : Z := if b <? a then a else b.

Lemma eval_min u v : EVAL_MIN u v = Z.min u v.
Proof. unfold EVAL_MIN. case_bool; lia. Qed.
Lemma eval_max u v : EVAL_MAX u v = Z.max u v.
Proof. unfold EVAL_MAX. case_bool; lia. Qed.

(** The elements of an updated list. *)
Lemma insert_cases {A} (l : list A) i x y k z : l !! i = Some x -> <[i := y]> l !! k = Some z ->
  (k = i /\ z = y) \/ (k <> i /\ l !! k = Some z).
Proof.
  intros Hi Hz. destruct (decide (k = i)) as [->|Hne].
  - rewrite list_lookup_insert_eq in Hz by (eapply lookup_lt_Some; eauto). left. split; congruence.
  - rewrite list_lookup_insert_ne in Hz by congruence. auto.
Qed.
