(* ===== verification/BitOps.v ===== *)
(** * Bit operations (src/util/bit_ops.h)

    Every function of the header, with the width of each intermediate value written
    out.  Where the header selects an implementation by the preprocessor, the
    definition of the same name follows the branch of a 64-bit GCC or Clang host
    (compiler builtins, 128-bit products), and the portable [#else] branch is the
    definition with the suffix [_portable].

    - Section [Definitions]: the translation.
    - [clmul_ref], [bit_perm] and the [builtin_*] functions are the reference
      definitions the theorems compare against.
    - Theorems: field extraction and replacement, rotations, count-leading/trailing
      zeros (the de Bruijn tables agree with the builtins), bit permutations, or-combine,
      carry-less products, high halves of products; two facts show that
      [bit_next_pow2] and the portable [mulh]/[mulhsu] are not what they claim to be. *)

From S2P Require Import Prelude.

(** ** Compiler builtins *)

(** [__builtin_clz] of a nonzero value of width [w]. *)
Definition builtin_clz (w val : Z) : Z := w - 1 - Z.log2 val.

(** Trailing zeros of a positive number, [__builtin_ctz]. *)
Fixpoint pos_ctz (p : positive) : Z :=
  match p with
  | xO q => 1 + pos_ctz q
  | _ => 0
  end.

Definition builtin_ctz (val : Z) : Z :=
  match val with
  | Zpos p => pos_ctz p
  | _ => 0
  end.

(** [__builtin_popcount]. *)
Fixpoint pos_popcount (p : positive) : Z :=
  match p with
  | xO q => pos_popcount q
  | xI q => 1 + pos_popcount q
  | xH => 1
  end.

Definition builtin_popcount (val : Z) : Z :=
  match val with
  | Zpos p => pos_popcount p
  | _ => 0
  end.

(** [__builtin_bswap32/64]: reverse the [n] bytes of a value. *)
Definition builtin_bswap (n : nat) (val : Z) : Z := le_combine (rev (le_split n val)).

(** ** Masks and bit fields *)

(** Generate bitmask of given bitcount *)
Definition bit_mask (count : Z) : Z :=
  if count <? 64 then u64 (1 .<< count) - 1 else u64 (Z.lnot 0).

Definition bit_ext_u32 (val pos bits : Z) : Z :=
  u32 (val .<< (32 - bits - pos)) .>> (32 - bits).

Definition bit_ext_i32 (val pos bits : Z) : Z :=
  s32 (u32 (val .<< (32 - bits - pos))) .>> (32 - bits).

Definition bit_ext_u64 (val pos bits : Z) : Z :=
  u64 (val .<< (64 - bits - pos)) .>> (64 - bits).

Definition bit_ext_i64 (val pos bits : Z) : Z :=
  s64 (u64 (val .<< (64 - bits - pos))) .>> (64 - bits).

Definition bit_replace32 (val pos bits field : Z) : Z :=
  u32 ((val .& u64 (Z.lnot (u64 (bit_mask bits .<< pos)))) .|
       u64 ((field .& bit_mask bits) .<< pos)).

Definition bit_replace64 (val pos bits field : Z) : Z :=
  (val .& u64 (Z.lnot (u64 (bit_mask bits .<< pos)))) .|
  u64 ((field .& bit_mask bits) .<< pos).

Definition sign_extend (val bits : Z) : Z := bit_ext_i64 val 0 bits.
Definition bit_cut (val pos bits : Z) : Z := bit_ext_u64 val pos bits.
Definition bit_replace (val pos bits field : Z) : Z := bit_replace64 val pos bits field.

(** ** Safe bit checks *)

Definition bit_set32 (pos : Z) : Z := u32 (1 .<< (pos .& 0x1F)).
Definition bit_set64 (pos : Z) : Z := u64 (1 .<< (pos .& 0x3F)).
Definition bit_check32 (val pos : Z) : bool := nz ((val .>> (pos .& 0x1F)) .& 0x01).
Definition bit_check64 (val pos : Z) : bool := nz ((val .>> (pos .& 0x3F)) .& 0x01).

(** ** Rotations *)

Definition bit_rotl32 (val bits : Z) : Z :=
  u32 (val .<< (bits .& 0x1F)) .| (val .>> (u32 (32 - bits) .& 0x1F)).
Definition bit_rotl64 (val bits : Z) : Z :=
  u64 (val .<< (bits .& 0x3F)) .| (val .>> (u32 (64 - bits) .& 0x3F)).
Definition bit_rotr32 (val bits : Z) : Z :=
  (val .>> (bits .& 0x1F)) .| u32 (val .<< (u32 (32 - bits) .& 0x1F)).
Definition bit_rotr64 (val bits : Z) : Z :=
  (val .>> (bits .& 0x3F)) .| u64 (val .<< (u32 (64 - bits) .& 0x3F)).

(** ** Leading and trailing zeros *)

Definition bit_clz32 (val : Z) : Z := if nz val then builtin_clz 32 val else 32.
Definition bit_clz64 (val : Z) : Z := if nz val then builtin_clz 64 val else 64.
Definition bit_ctz32 (val : Z) : Z := if nz val then builtin_ctz val else 32.
Definition bit_ctz64 (val : Z) : Z := if nz val then builtin_ctz val else 64.

(** [static const uint8_t lut[32]] of [bit_clz32] and of [bit_ctz32]. *)
Definition clz32_lut : list Z :=
  [0; 31; 4; 30; 3; 18; 8; 29; 2; 10; 12; 17; 7; 15; 28; 24;
   1; 5; 19; 9; 11; 13; 16; 25; 6; 20; 14; 26; 21; 27; 22; 23].
Definition ctz32_lut : list Z :=
  [0; 1; 28; 2; 29; 14; 24; 3; 30; 22; 20; 15; 25; 17; 4; 8;
   31; 27; 13; 23; 21; 19; 16; 7; 26; 12; 18; 6; 11; 5; 10; 9].

(** The shift cascade that spreads the highest set bit downwards. *)
Definition smear32 (val : Z) : Z :=
  let val := val .| (val .>> 1) in
  let val := val .| (val .>> 2) in
  let val := val .| (val .>> 4) in
  let val := val .| (val .>> 8) in
  val .| (val .>> 16).

Definition bit_clz32_portable (val : Z) : Z :=
  if nz val then
    nth (Z.to_nat (u32 (u32 (smear32 val + 1) * 0x077CB531) .>> 27)) clz32_lut 0
  else 32.

Definition bit_clz64_portable (val : Z) : Z :=
  if nz val then
    (if nz (val .>> 32) then bit_clz32_portable (val .>> 32)
     else 32 + bit_clz32_portable (u32 val))
  else 64.

Definition bit_ctz32_portable (val : Z) : Z :=
  if nz val then
    nth (Z.to_nat (u32 ((val .& u32 (- val)) * 0x077CB531) .>> 27)) ctz32_lut 0
  else 32.

Definition bit_ctz64_portable (val : Z) : Z :=
  if nz val then
    let tmp := Z.b2z (negb (nz (u32 val))) .<< 5 in
    bit_ctz32_portable (u32 (val .>> tmp)) + tmp
  else 64.

(** Most significant set bit position *)
Definition bit_bsr32 (val : Z) : Z := if nz val then 31 .^ builtin_clz 32 val else 32.
Definition bit_bsr64 (val : Z) : Z := if nz val then 63 .^ builtin_clz 64 val else 64.

(** Normalize the value to nearest next power of two: fast path, then the 64-bit
    builtin branch. *)
Definition bit_next_pow2 (val : Z) : Z :=
  if negb (nz (val .& u64 (val - 1))) then val
  else u64 (1 .<< bit_bsr64 val).

Definition smear64 (val : Z) : Z :=
  let val := smear32 val in
  val .| (val .>> 32).

(** The bit-twiddling branch of the same function. *)
Definition bit_next_pow2_portable (val : Z) : Z :=
  if negb (nz (val .& u64 (val - 1))) then val
  else u64 (smear64 (u64 (val - 1)) + 1).

(** ** Population count *)

Definition bit_popcnt32 (val : Z) : Z := builtin_popcount val.
Definition bit_popcnt64 (val : Z) : Z := builtin_popcount val.

(** ** Byte and bit shuffles *)

Definition bit_orc_b (val : Z) : Z :=
  let bytes_hi := 0x8080808080808080 in
  let bytes_lo := 0x0101010101010101 in
  let val := ((u64 ((val .| bytes_hi) - bytes_lo)) .| val) .& bytes_hi in
  let val := val .>> 7 in
  u64 (u64 (val .<< 8) - val).

Definition bit_brev8 (val : Z) : Z :=
  let val := ((val .>> 1) .& 0x5555555555555555) .| u64 ((val .& 0x5555555555555555) .<< 1) in
  let val := ((val .>> 2) .& 0x3333333333333333) .| u64 ((val .& 0x3333333333333333) .<< 2) in
  ((val .>> 4) .& 0x0F0F0F0F0F0F0F0F) .| u64 ((val .& 0x0F0F0F0F0F0F0F0F) .<< 4).

Definition bit_interlace16 (val : Z) : Z :=
  let val := u16 val in
  let val := (val .| u32 (val .<< 8)) .& 0x00FF00FF in
  let val := (val .| u32 (val .<< 4)) .& 0x0F0F0F0F in
  let val := (val .| u32 (val .<< 2)) .& 0x33333333 in
  (val .| u32 (val .<< 1)) .& 0x55555555.

Definition bit_deinterlace16 (val : Z) : Z :=
  let val := val .& 0x55555555 in
  let val := (val .| (val .>> 1)) .& 0x33333333 in
  let val := (val .| (val .>> 2)) .& 0x0F0F0F0F in
  let val := (val .| (val .>> 4)) .& 0x00FF00FF in
  u16 (val .| (val .>> 8)).

Definition bit_zip32 (val : Z) : Z :=
  bit_interlace16 val .| u32 (bit_interlace16 (val .>> 16) .<< 1).

Definition bit_unzip32 (val : Z) : Z :=
  bit_deinterlace16 val .| u32 (bit_deinterlace16 (val .>> 1) .<< 16).

Definition byteswap_uint32 (val : Z) : Z := builtin_bswap 4 val.
Definition byteswap_uint64 (val : Z) : Z := builtin_bswap 8 val.

Definition byteswap_uint32_portable (val : Z) : Z :=
  let val := ((val .>> 8) .& 0x00FF00FF) .| u32 ((val .& 0x00FF00FF) .<< 8) in
  (val .>> 16) .| u32 (val .<< 16).

Definition byteswap_uint64_portable (val : Z) : Z :=
  let val := ((val .>> 8) .& 0x00FF00FF00FF00FF) .| u64 ((val .& 0x00FF00FF00FF00FF) .<< 8) in
  let val := ((val .>> 16) .& 0x0000FFFF0000FFFF) .| u64 ((val .& 0x0000FFFF0000FFFF) .<< 16) in
  (val .>> 32) .| u64 (val .<< 32).

(** ** Carry-less multiplication

    The do-while loops, with fuel: [a] is shifted out after at most [w] iterations,
    and [b] is shifted out after at most [w] iterations. *)

Fixpoint clmul_loop (w : Z) (fuel : nat) (a b ret : Z) : Z :=
  match fuel with
  | O => ret
  | S fuel =>
      let ret := if nz (b .& 1) then ret .^ a else ret in
      let b := b .>> 1 in
      let a := wrap w (a .<< 1) in
      if nz a then clmul_loop w fuel a b ret else ret
  end.

Fixpoint clmulh_loop (fuel : nat) (a b i ret : Z) : Z :=
  match fuel with
  | O => ret
  | S fuel =>
      let b := b .>> 1 in
      let ret := if nz (b .& 1) then ret .^ (a .>> i) else ret in
      let i := u32 (i - 1) in
      if nz b then clmulh_loop fuel a b i ret else ret
  end.

Fixpoint clmulr_loop (fuel : nat) (a b i ret : Z) : Z :=
  match fuel with
  | O => ret
  | S fuel =>
      let ret := if nz (b .& 1) then ret .^ (a .>> i) else ret in
      let b := b .>> 1 in
      let i := u32 (i - 1) in
      if nz b then clmulr_loop fuel a b i ret else ret
  end.

Definition bit_clmul32 (a b : Z) : Z := clmul_loop 32 32 a b 0.
Definition bit_clmul64 (a b : Z) : Z := clmul_loop 64 64 a b 0.
Definition bit_clmulh32 (a b : Z) : Z := clmulh_loop 32 a b 31 0.
Definition bit_clmulh64 (a b : Z) : Z := clmulh_loop 64 a b 63 0.
Definition bit_clmulr32 (a b : Z) : Z := clmulr_loop 32 a b 31 0.
Definition bit_clmulr64 (a b : Z) : Z := clmulr_loop 64 a b 63 0.

(** ** High halves of 64x64-bit products

    Signed parameters are signed values, unsigned ones unsigned values. *)

Definition mulh_uint64 (a b : Z) : Z := u64 (signed 128 (a * b) .>> 64).

Definition mulhu_uint64 (a b : Z) : Z := u64 (u128 (a * b) .>> 64).

Definition mulhsu_uint64 (a b : Z) : Z :=
  u64 (mulhu_uint64 (u64 a) b - (if 0 <=? a then 0 else b)).

Definition mulh_uint64_portable (a b : Z) : Z :=
  let lo_lo := u64 (u32 a * u32 b) in
  let hi_lo := u64 (u64 (a .>> 32) * u32 b) in
  let lo_hi := u64 (u32 a * u64 (b .>> 32)) in
  let hi_hi := u64 ((a .>> 32) * (b .>> 32)) in
  let cross := u64 (u64 (s64 lo_lo .>> 32) + u32 hi_lo + lo_hi) in
  u64 (u64 (s64 hi_lo .>> 32) + (cross .>> 32) + hi_hi).

Definition mulhu_uint64_portable (a b : Z) : Z :=
  let lo_lo := u64 (u32 a * u32 b) in
  let hi_lo := u64 ((a .>> 32) * u32 b) in
  let lo_hi := u64 (u32 a * (b .>> 32)) in
  let hi_hi := u64 ((a .>> 32) * (b .>> 32)) in
  let cross := u64 ((lo_lo .>> 32) + u32 hi_lo + lo_hi) in
  u64 ((hi_lo .>> 32) + (cross .>> 32) + hi_hi).

Definition mulhsu_uint64_portable (a b : Z) : Z :=
  let lo_lo := u64 (u32 a * u32 b) in
  let hi_lo := u64 (u64 (a .>> 32) * u32 b) in
  let lo_hi := u64 (u32 a * (b .>> 32)) in
  let hi_hi := u64 (u64 (a .>> 32) * (b .>> 32)) in
  let cross := u64 (u64 (s64 lo_lo .>> 32) + u32 hi_lo + lo_hi) in
  u64 (u64 (s64 hi_lo .>> 32) + (cross .>> 32) + hi_hi).

(** ** Field extraction *)

Lemma bit_ext_u_gen w val pos bits : 0 <= pos -> 0 < bits -> pos + bits <= w ->
  wrap w (val .<< (w - bits - pos)) .>> (w - bits) = wrap bits (val .>> pos).
Proof.
  intros. apply Z.bits_inj'. intros i Hi. autorewrite with zbits.
  replace (i + (w - bits) - (w - bits - pos)) with (i + pos) by lia.
  by replace (i + (w - bits) <? w) with (i <? bits) by lia.
Qed.

Lemma bit_ext_i_gen w val pos bits : 0 <= pos -> 0 < bits -> pos + bits <= w ->
  signed w (wrap w (val .<< (w - bits - pos))) .>> (w - bits) = signed bits (val .>> pos).
Proof.
  intros. apply Z.bits_inj'. intros i Hi. rewrite signed_wrap. autorewrite with zbits.
  f_equal. lia.
Qed.

Lemma bit_ext_u32_eq val pos bits : 0 <= pos -> 0 < bits -> pos + bits <= 32 ->
  bit_ext_u32 val pos bits = wrap bits (val .>> pos).
Proof. apply bit_ext_u_gen. Qed.

Lemma bit_ext_u64_eq val pos bits : 0 <= pos -> 0 < bits -> pos + bits <= 64 ->
  bit_ext_u64 val pos bits = wrap bits (val .>> pos).
Proof. apply bit_ext_u_gen. Qed.

Lemma bit_ext_i32_eq val pos bits : 0 <= pos -> 0 < bits -> pos + bits <= 32 ->
  bit_ext_i32 val pos bits = signed bits (val .>> pos).
Proof. apply bit_ext_i_gen. Qed.

Lemma bit_ext_i64_eq val pos bits : 0 <= pos -> 0 < bits -> pos + bits <= 64 ->
  bit_ext_i64 val pos bits = signed bits (val .>> pos).
Proof. apply bit_ext_i_gen. Qed.

Lemma bit_cut_eq val pos bits : 0 <= pos -> 0 < bits -> pos + bits <= 64 ->
  bit_cut val pos bits = wrap bits (val .>> pos).
Proof. apply bit_ext_u64_eq. Qed.

Lemma sign_extend_eq val bits : 0 < bits <= 64 -> sign_extend val bits = signed bits val.
Proof. intros. unfold sign_extend. rewrite bit_ext_i64_eq by lia. by rewrite Z.shiftr_0_r. Qed.

Lemma bit_ext_u32_div val pos bits : 0 <= pos -> 0 < bits -> pos + bits <= 32 ->
  bit_ext_u32 val pos bits = (val / 2 ^ pos) mod 2 ^ bits.
Proof. intros. by rewrite bit_ext_u32_eq, Z.shiftr_div_pow2 by lia. Qed.

Lemma bit_ext_u32_range val pos bits : 0 <= pos -> 0 < bits -> pos + bits <= 32 ->
  urange bits (bit_ext_u32 val pos bits).
Proof. intros. rewrite bit_ext_u32_eq by lia. apply wrap_range. lia. Qed.

(** ** Field replacement *)

Lemma bit_mask_ones count : 0 <= count <= 64 -> bit_mask count = Z.ones count.
Proof.
  intros. unfold bit_mask. case_bool; [|by replace count with 64 by lia].
  rewrite Z.shiftl_1_l, Z.ones_equiv, wrap_small; [done|].
  split; [lia|]. apply Z.pow_lt_mono_r; lia.
Qed.

Lemma testbit_bit_replace64 val pos bits field i :
  urange 64 val -> 0 <= pos -> 0 <= bits -> pos + bits <= 64 -> 0 <= i ->
  Z.testbit (bit_replace64 val pos bits field) i =
  if (pos <=? i) && (i <? pos + bits) then Z.testbit field (i - pos) else Z.testbit val i.
Proof.
  intros Hv ? ? ? Hi. unfold bit_replace64. rewrite bit_mask_ones by lia.
  autorewrite with zbits.
  destruct (Z.ltb_spec i 64).
  2:{ rewrite (testbit_above 64 val) by (done || lia). cbn.
      destruct (Z.leb_spec pos i), (Z.ltb_spec i (pos + bits)); cbn; done || lia. }
  destruct (Z.leb_spec pos i); cbn.
  - rewrite testbit_ones by lia.
    replace (i - pos <? bits) with (i <? pos + bits) by lia.
    case_bool; cbn; by rewrite ?andb_false_r, ?andb_true_r, ?orb_false_r.
  - rewrite !(Z.testbit_neg_r _ (i - pos)) by lia. cbn. by rewrite andb_true_r, orb_false_r.
Qed.

Lemma urange_bit_replace64 val pos bits field :
  urange 64 val -> urange 64 (bit_replace64 val pos bits field).
Proof.
  intros. unfold bit_replace64. apply urange_lor; [lia| |apply wrap_range; lia].
  apply urange_land_l; [lia|done].
Qed.

#[export] Hint Resolve urange_bit_replace64 : rv.

Lemma bit_cut_replace_same val pos bits field :
  urange 64 val -> 0 <= pos -> 0 < bits -> pos + bits <= 64 ->
  bit_cut (bit_replace val pos bits field) pos bits = wrap bits field.
Proof.
  intros. rewrite bit_cut_eq by lia. apply Z.bits_inj'. intros i Hi. autorewrite with zbits.
  case_bool; [|done]. cbn. unfold bit_replace. rewrite testbit_bit_replace64 by (done || lia).
  replace ((pos <=? i + pos) && (i + pos <? pos + bits)) with true by lia.
  f_equal. lia.
Qed.

Lemma bit_cut_replace_other val pos bits field pos' bits' :
  urange 64 val -> 0 <= pos -> 0 < bits -> pos + bits <= 64 ->
  0 <= pos' -> 0 < bits' -> pos' + bits' <= 64 ->
  pos' + bits' <= pos \/ pos + bits <= pos' ->
  bit_cut (bit_replace val pos bits field) pos' bits' = bit_cut val pos' bits'.
Proof.
  intros. rewrite !bit_cut_eq by lia. apply Z.bits_inj'. intros i Hi. autorewrite with zbits.
  case_bool; [|done]. cbn. unfold bit_replace. rewrite testbit_bit_replace64 by (done || lia).
  by replace ((pos <=? i + pos') && (i + pos' <? pos + bits)) with false by lia.
Qed.

(** ** Rotations *)

Lemma land_mod x n : 0 <= n -> x .& Z.ones n = x mod 2 ^ n.
Proof. intros. by apply Z.land_ones. Qed.

Lemma rot_amount w n bits : 0 <= n <= 32 ->
  w = 2 ^ n -> u32 (w - bits) .& Z.ones n = (- bits) mod w.
Proof.
  intros ? ->. rewrite land_mod by lia.
  change ((wrap 32 (2 ^ n - bits)) mod 2 ^ n) with (wrap n (wrap 32 (2 ^ n - bits))).
  rewrite wrap_wrap_le by lia. unfold wrap.
  rewrite <- (Z_mod_plus_full (- bits) 1). f_equal. lia.
Qed.

(** A right rotation moves bit [(i + bits) mod w] to bit [i]. *)
Lemma rotr_gen w n val bits i : 0 <= n <= 32 -> w = 2 ^ n ->
  urange w val -> 0 <= i < w ->
  Z.testbit ((val .>> (bits .& Z.ones n)) .| wrap w (val .<< (u32 (w - bits) .& Z.ones n))) i
  = Z.testbit val ((i + bits) mod w).
Proof.
  intros Hn Hw Hv Hi. rewrite (rot_amount w n) by done. rewrite land_mod by lia.
  rewrite <- Hw. pose proof (Z.mod_pos_bound bits w) as Hb. pose proof (Z.mod_pos_bound (- bits) w).
  autorewrite with zbits. rewrite <- Zplus_mod_idemp_r.
  replace (i <? w) with true by lia. cbn [andb].
  destruct (Z.eq_dec (bits mod w) 0) as [E|E].
  - rewrite E, Z_mod_zero_opp_full by done. rewrite Z.add_0_r, Z.sub_0_r, Z.mod_small by lia.
    by destruct (Z.testbit val i).
  - rewrite Z_mod_nz_opp_full by done. set (b := bits mod w) in *. clearbody b.
    destruct (Z.ltb_spec (i + b) w).
    + rewrite Z.mod_small by lia. rewrite (Z.testbit_neg_r val (i - _)) by lia.
      by rewrite orb_false_r.
    + rewrite (testbit_above w val (i + b)) by (done || lia). cbn.
      f_equal. symmetry. rewrite <- (Z_mod_plus_full _ (-1)), Z.mod_small by lia. lia.
Qed.

Lemma testbit_bit_rotr32 val bits i : urange 32 val -> 0 <= i < 32 ->
  Z.testbit (bit_rotr32 val bits) i = Z.testbit val ((i + bits) mod 32).
Proof. by apply (rotr_gen 32 5). Qed.

Lemma testbit_bit_rotr64 val bits i : urange 64 val -> 0 <= i < 64 ->
  Z.testbit (bit_rotr64 val bits) i = Z.testbit val ((i + bits) mod 64).
Proof. by apply (rotr_gen 64 6). Qed.

Lemma bit_rotl32_rotr32 val bits : bit_rotl32 val bits = bit_rotr32 val (- bits).
Proof.
  unfold bit_rotl32, bit_rotr32. rewrite Z.lor_comm. f_equal; f_equal.
  - change 0x1F with (Z.ones 5). rewrite (rot_amount 32 5), land_mod by lia. done.
  - f_equal. change 0x1F with (Z.ones 5). rewrite (rot_amount 32 5), land_mod by lia.
    by rewrite Z.opp_involutive.
Qed.

Lemma bit_rotl64_rotr64 val bits : bit_rotl64 val bits = bit_rotr64 val (- bits).
Proof.
  unfold bit_rotl64, bit_rotr64. rewrite Z.lor_comm. f_equal; f_equal.
  - change 0x3F with (Z.ones 6). rewrite (rot_amount 64 6), land_mod by lia. done.
  - f_equal. change 0x3F with (Z.ones 6). rewrite (rot_amount 64 6), land_mod by lia.
    by rewrite Z.opp_involutive.
Qed.

(** ** Leading and trailing zeros *)

Lemma nz_true x : x ≠ 0 -> nz x = true.
Proof. unfold nz. intros. by case_bool. Qed.

Lemma nz_spec x : nz x = true <-> x ≠ 0.
Proof. unfold nz. case_bool; naive_solver. Qed.

Lemma nz_false x : nz x = false <-> x = 0.
Proof. unfold nz. case_bool; naive_solver. Qed.

Lemma log2_range w x : 0 < x -> urange w x -> 0 <= Z.log2 x < w.
Proof.
  intros ? [? ?]. split; [apply Z.log2_nonneg|]. by apply Z.log2_lt_pow2.
Qed.

#[export] Instance orhom_smear32 : OrHom smear32.
Proof. unfold smear32. apply _. Qed.

#[export] Instance orhom_smear64 : OrHom smear64.
Proof. unfold smear64. apply orhom_lor_fg; [apply _|]. apply orhom_shiftr, orhom_smear32. Qed.

Lemma smear_pow2_check :
  forallb (fun i => smear64 (2 ^ i) =? Z.ones (i + 1)) (seqZ 0 64) = true /\
  forallb (fun i => smear32 (2 ^ i) =? Z.ones (i + 1)) (seqZ 0 32) = true.
Proof. split; vm_compute; reflexivity. Qed.

Lemma lor_ones_le k n : 0 <= k <= n -> Z.lor (Z.ones k) (Z.ones n) = Z.ones n.
Proof.
  intros. apply Z.bits_inj'. intros i Hi. autorewrite with zbits.
  destruct (Z.ltb_spec i k), (Z.ltb_spec i n); done || lia.
Qed.

(** The log of a value with top bit [k]. *)
Lemma log2_lor_pow2 k x : 0 <= k -> urange k x -> Z.log2 (Z.lor x (2 ^ k)) = k.
Proof.
  intros Hk [? ?]. rewrite Z.log2_lor, Z.log2_pow2 by (lia || apply Z.pow_nonneg; lia).
  destruct (Z.eq_dec x 0) as [->|]; [cbn; lia|].
  assert (Z.log2 x < k) by (apply Z.log2_lt_pow2; lia). lia.
Qed.

(** Spreading the top bit fills every position below it. *)
Lemma smear_gen f n `{!OrHom f} : 0 <= n ->
  forallb (fun i => f (2 ^ i) =? Z.ones (i + 1)) (seqZ 0 n) = true ->
  forall x, urange n x -> x = 0 \/ f x = Z.ones (Z.log2 x + 1).
Proof.
  intros Hn Hc. apply bits_ind; [done|by left|].
  intros k Hk x Hx IH. right. rewrite log2_lor_pow2 by (done || lia).
  rewrite orhom_lor.
  pose proof (forallb_below _ _ Hc k Hk) as E%Z.eqb_eq. rewrite E.
  destruct IH as [->| ->]; [by rewrite orhom_0, Z.lor_0_l|].
  apply lor_ones_le. pose proof (Z.log2_nonneg x).
  destruct (Z.eq_dec x 0) as [->|]; [cbn; lia|].
  pose proof (log2_range k x). destruct Hx. unfold urange in *. lia.
Qed.

Lemma clz32_lut_check :
  forallb (fun k => nth (Z.to_nat (u32 (u32 (Z.ones (k + 1) + 1) * 0x077CB531) .>> 27)) clz32_lut 0
                    =? 31 - k) (seqZ 0 32) = true.
Proof. vm_compute. reflexivity. Qed.

(** The de Bruijn table lookup of the portable branch counts leading zeros. *)
Lemma bit_clz32_portable_eq val : urange 32 val -> bit_clz32_portable val = bit_clz32 val.
Proof.
  intros Hv. unfold bit_clz32_portable, bit_clz32. destruct (nz val) eqn:Hz; [|done].
  apply nz_spec in Hz. destruct (smear_gen smear32 32 ltac:(lia) (proj2 smear_pow2_check) val Hv)
    as [?|E]; [done|].
  rewrite E. unfold builtin_clz.
  pose proof (forallb_below _ _ clz32_lut_check (Z.log2 val)) as H.
  rewrite Z.eqb_eq in H. rewrite H; [lia|]. apply log2_range; [destruct Hv; lia|done].
Qed.

Lemma bit_clz64_portable_eq val : urange 64 val -> bit_clz64_portable val = bit_clz64 val.
Proof.
  intros Hv. unfold bit_clz64_portable, bit_clz64. destruct (nz val) eqn:Hz; [|done].
  apply nz_spec in Hz.
  assert (Hs : urange 32 (val .>> 32)).
  { unfold urange in *. rewrite Z.shiftr_div_pow2 by lia. change (2 ^ 64) with (2 ^ 32 * 2 ^ 32) in Hv.
    split; [apply Z.div_pos; lia|]. apply Z.div_lt_upper_bound; lia. }
  destruct (nz (val .>> 32)) eqn:Hh.
  - rewrite bit_clz32_portable_eq by done. unfold bit_clz32. rewrite Hh.
    apply nz_spec in Hh. unfold builtin_clz. rewrite Z.log2_shiftr by (destruct Hv; lia).
    assert (32 <= Z.log2 val).
    { destruct (Z.ltb_spec (Z.log2 val) 32); [|lia]. exfalso. apply Hh.
      apply Z.shiftr_eq_0; [destruct Hv|]; lia. }
    lia.
  - apply nz_false in Hh.
    assert (Hlt : urange 32 val).
    { destruct Hv. apply Z.shiftr_eq_0_iff in Hh as [?|[? ?]]; [lia|].
      split; [lia|]. apply Z.log2_lt_pow2; lia. }
    rewrite wrap_small, bit_clz32_portable_eq by done. unfold bit_clz32. rewrite nz_true by done.
    unfold builtin_clz. lia.
Qed.

(** Isolating the lowest set bit: [x & -x]. *)
Lemma pos_ctz_nonneg p : 0 <= pos_ctz p.
Proof. induction p; cbn [pos_ctz]; lia. Qed.

Lemma land_opp_pos p : Zpos p .& - Zpos p = 2 ^ pos_ctz p.
Proof.
  induction p as [p IH|p IH|]; cbn [pos_ctz].
  - apply Z.bits_inj'. intros i Hi. rewrite Z.land_spec, Z.bits_opp by done.
    replace (Z.pred (Z.pos p~1)) with (2 * Z.pos p) by lia.
    replace (Z.pos p~1) with (2 * Z.pos p + 1) by lia.
    change (2 ^ 0) with 1.
    destruct (Z.eq_dec i 0) as [->|]; [by rewrite Z.testbit_odd_0, Z.testbit_even_0|].
    replace i with (Z.succ (i - 1)) by lia.
    rewrite Z.testbit_odd_succ, Z.testbit_even_succ by lia.
    replace (Z.testbit 1 (Z.succ (i - 1))) with false.
    + by destruct (Z.testbit _ _).
    + symmetry. apply (Z.pow2_bits_false 0). lia.
  - replace (Z.pos p~0) with (2 * Z.pos p) by lia.
    replace (- (2 * Z.pos p)) with (2 * (- Z.pos p)) by lia.
    rewrite Z.pow_add_r, <- IH by (apply pos_ctz_nonneg || lia).
    change (2 ^ 1) with 2.
    apply Z.bits_inj'. intros i Hi. rewrite Z.land_spec.
    destruct (Z.eq_dec i 0) as [->|]; [by rewrite !Z.testbit_even_0|].
    replace i with (Z.succ (i - 1)) by lia.
    by rewrite !Z.testbit_even_succ, Z.land_spec by lia.
  - done.
Qed.

Lemma pow2_ctz_le p : 2 ^ pos_ctz p <= Zpos p.
Proof.
  induction p as [p IH|p IH|]; cbn [pos_ctz]; [cbn; lia| |done].
  rewrite Z.pow_add_r by (apply pos_ctz_nonneg || lia). lia.
Qed.

Lemma pos_ctz_lt p n : Zpos p < 2 ^ n -> pos_ctz p < n.
Proof.
  intros H. pose proof (pow2_ctz_le p).
  apply (Z.pow_lt_mono_r_iff 2); [lia| |lia].
  destruct (Z.ltb_spec n 0); [rewrite Z.pow_neg_r in H by lia|]; lia.
Qed.

Lemma ctz32_lut_check :
  forallb (fun k => nth (Z.to_nat (u32 (2 ^ k * 0x077CB531) .>> 27)) ctz32_lut 0 =? k)
    (seqZ 0 32) = true.
Proof. vm_compute. reflexivity. Qed.

Lemma land_wrap_opp w x : 0 <= w -> urange w x -> x .& wrap w (- x) = x .& - x.
Proof.
  intros. apply Z.bits_inj'. intros i Hi. autorewrite with zbits.
  case_bool; [done|]. by rewrite (testbit_above w x).
Qed.

Lemma bit_ctz32_portable_eq val : urange 32 val -> bit_ctz32_portable val = bit_ctz32 val.
Proof.
  intros Hv. unfold bit_ctz32_portable, bit_ctz32. destruct (nz val) eqn:Hz; [|done].
  apply nz_spec in Hz. rewrite land_wrap_opp by (done || lia). destruct Hv.
  destruct val as [|p|]; [done| |lia]. cbn [builtin_ctz]. rewrite land_opp_pos.
  pose proof (forallb_below _ _ ctz32_lut_check (pos_ctz p)) as E. rewrite Z.eqb_eq in E.
  apply E. split; [apply pos_ctz_nonneg|]. by apply pos_ctz_lt.
Qed.

(** [builtin_ctz] is the index of the lowest set bit. *)
Lemma ctz_spec p : Z.testbit (Zpos p) (pos_ctz p) = true /\
  forall i, 0 <= i < pos_ctz p -> Z.testbit (Zpos p) i = false.
Proof.
  induction p as [p IH|p [IH1 IH2]|]; cbn [pos_ctz]; [split; [done|lia]| |split; [done|lia]].
  replace (Z.pos p~0) with (2 * Z.pos p) by lia. pose proof (pos_ctz_nonneg p). split.
  - replace (1 + pos_ctz p) with (Z.succ (pos_ctz p)) by lia. by rewrite Z.testbit_even_succ.
  - intros i Hi. destruct (Z.eq_dec i 0) as [->|]; [apply Z.testbit_even_0|].
    replace i with (Z.succ (i - 1)) by lia. rewrite Z.testbit_even_succ by lia. apply IH2. lia.
Qed.

Lemma ctz_unique x k : 0 < x -> 0 <= k -> Z.testbit x k = true ->
  (forall i, 0 <= i < k -> Z.testbit x i = false) -> builtin_ctz x = k.
Proof.
  intros Hx Hk H1 H2. destruct x as [|p|]; try lia. cbn.
  destruct (ctz_spec p) as [C1 C2]. pose proof (pos_ctz_nonneg p).
  destruct (Z.lt_trichotomy (pos_ctz p) k) as [?|[?|?]]; [|done|].
  - rewrite H2 in C1 by lia. done.
  - rewrite C2 in H1 by lia. done.
Qed.

Lemma builtin_ctz_spec x : 0 < x -> 0 <= builtin_ctz x /\ Z.testbit x (builtin_ctz x) = true /\
  forall i, 0 <= i < builtin_ctz x -> Z.testbit x i = false.
Proof.
  intros. destruct x as [|p|]; try lia. split; [apply pos_ctz_nonneg|apply ctz_spec].
Qed.

Lemma bit_ctz64_portable_eq val : urange 64 val -> bit_ctz64_portable val = bit_ctz64 val.
Proof.
  intros Hv. unfold bit_ctz64_portable, bit_ctz64. destruct (nz val) eqn:Hz; [|done].
  apply nz_spec in Hz. assert (0 < val) by (destruct Hv; lia).
  pose proof (wrap_range 32 val) as Hr.
  destruct (nz (u32 val)) eqn:Hl; cbn [negb Z.b2z].
  - rewrite Z.shiftl_0_l, Z.shiftr_0_r, Z.add_0_r, bit_ctz32_portable_eq by (apply wrap_range; lia).
    unfold bit_ctz32. rewrite Hl. apply nz_spec in Hl. symmetry.
    destruct (builtin_ctz_spec (u32 val)) as (B0 & B1 & B2); [destruct Hr; lia|].
    rewrite testbit_wrap in B1 by lia. apply andb_true_iff in B1 as [B1 B1'].
    apply ctz_unique; [done..|]. intros i Hi. specialize (B2 i Hi).
    rewrite testbit_wrap in B2 by lia. by replace (i <? 32) with true in B2 by lia.
  - change (1 .<< 5) with 32. apply nz_false in Hl.
    assert (L : forall i, 0 <= i < 32 -> Z.testbit val i = false).
    { intros i Hi. assert (E : Z.testbit (u32 val) i = false) by (rewrite Hl; apply Z.testbit_0_l).
      rewrite testbit_wrap in E by lia. by replace (i <? 32) with true in E by lia. }
    assert (Hs : urange 32 (val .>> 32)).
    { unfold urange in *. rewrite Z.shiftr_div_pow2 by lia. change (2 ^ 64) with (2 ^ 32 * 2 ^ 32) in Hv.
      split; [apply Z.div_pos; lia|]. apply Z.div_lt_upper_bound; lia. }
    assert (Hn : val .>> 32 ≠ 0).
    { intros E. apply Hz. apply Z.bits_inj'. intros i Hi. rewrite Z.testbit_0_l.
      destruct (Z.ltb_spec i 32); [by apply L|].
      replace i with (i - 32 + 32) by lia. rewrite <- testbit_shiftr, E by lia. apply Z.testbit_0_l. }
    rewrite wrap_small, bit_ctz32_portable_eq by done. unfold bit_ctz32. rewrite nz_true by done.
    destruct (builtin_ctz_spec (val .>> 32)) as (B0 & B1 & B2); [destruct Hs; lia|].
    rewrite testbit_shiftr in B1 by lia. symmetry. apply ctz_unique; [done|lia|done|].
    intros i Hi. destruct (Z.ltb_spec i 32); [apply L; lia|].
    specialize (B2 (i - 32) ltac:(lia)). rewrite testbit_shiftr in B2 by lia.
    by replace (i - 32 + 32) with i in B2 by lia.
Qed.

(** ** Bit permutations *)

#[export] Instance orhom_brev8 : OrHom bit_brev8.
Proof. unfold bit_brev8. apply _. Qed.
#[export] Instance orhom_interlace16 : OrHom bit_interlace16.
Proof. unfold bit_interlace16. apply _. Qed.
#[export] Instance orhom_deinterlace16 : OrHom bit_deinterlace16.
Proof. unfold bit_deinterlace16. apply _. Qed.

Lemma orhom_comp f g : OrHom f -> OrHom g -> OrHom (fun x => f (g x)).
Proof. intros [F F0] [G G0]. split; [|by rewrite G0]. intros. by rewrite G, F. Qed.

#[export] Instance orhom_zip32 : OrHom bit_zip32.
Proof.
  unfold bit_zip32. apply orhom_lor_fg; [apply _|]. apply orhom_wrap32, orhom_shiftl.
  apply (orhom_comp bit_interlace16 (fun x => x .>> 16)); apply _.
Qed.
#[export] Instance orhom_unzip32 : OrHom bit_unzip32.
Proof.
  unfold bit_unzip32. apply orhom_lor_fg; [apply _|]. apply orhom_wrap32, orhom_shiftl.
  apply (orhom_comp bit_deinterlace16 (fun x => x .>> 1)); apply _.
Qed.
#[export] Instance orhom_bswap32 : OrHom byteswap_uint32_portable.
Proof. unfold byteswap_uint32_portable. apply _. Qed.
#[export] Instance orhom_bswap64 : OrHom byteswap_uint64_portable.
Proof. unfold byteswap_uint64_portable. apply _. Qed.

Lemma testbit_bit_brev8 val i : urange 64 val -> 0 <= i < 64 ->
  Z.testbit (bit_brev8 val) i = Z.testbit val (8 * (i / 8) + (7 - i mod 8)).
Proof.
  intros. apply (orhom_is_perm bit_brev8 64 (fun i => 8 * (i / 8) + (7 - i mod 8)));
    [lia|vm_compute; reflexivity|done..].
Qed.

(** Zip interleaves the halves: even output bits come from the lower half. *)
Definition zip_perm (i : Z) : Z := if Z.even i then i / 2 else i / 2 + 16.
(** Unzip gathers the even bits in the lower half, the odd ones in the upper half. *)
Definition unzip_perm (i : Z) : Z := if i <? 16 then 2 * i else 2 * (i - 16) + 1.

Lemma testbit_bit_zip32 val i : urange 32 val -> 0 <= i < 32 ->
  Z.testbit (bit_zip32 val) i = Z.testbit val (zip_perm i).
Proof.
  intros. apply (orhom_is_perm bit_zip32 32 zip_perm); [lia|vm_compute; reflexivity|done..].
Qed.

Lemma testbit_bit_unzip32 val i : urange 32 val -> 0 <= i < 32 ->
  Z.testbit (bit_unzip32 val) i = Z.testbit val (unzip_perm i).
Proof.
  intros. apply (orhom_is_perm bit_unzip32 32 unzip_perm); [lia|vm_compute; reflexivity|done..].
Qed.

Lemma bit_unzip_zip32 val : urange 32 val -> bit_unzip32 (bit_zip32 val) = val.
Proof.
  pose proof (orhom_comp bit_unzip32 bit_zip32 _ _).
  apply (orhom_ext (fun x => bit_unzip32 (bit_zip32 x)) (fun x => x) 32); [lia|].
  intros i Hi. apply Z.eqb_eq. revert i Hi. apply forallb_below. vm_compute. reflexivity.
Qed.

Lemma bit_zip_unzip32 val : urange 32 val -> bit_zip32 (bit_unzip32 val) = val.
Proof.
  pose proof (orhom_comp bit_zip32 bit_unzip32 _ _).
  apply (orhom_ext (fun x => bit_zip32 (bit_unzip32 x)) (fun x => x) 32); [lia|].
  intros i Hi. apply Z.eqb_eq. revert i Hi. apply forallb_below. vm_compute. reflexivity.
Qed.

(** Byte [i] of a byte-swapped value is byte [n - 1 - i] of the value. *)
Lemma testbit_byteswap32 val i : urange 32 val -> 0 <= i < 32 ->
  Z.testbit (byteswap_uint32_portable val) i = Z.testbit val (8 * (3 - i / 8) + i mod 8).
Proof.
  intros. apply (orhom_is_perm byteswap_uint32_portable 32 (fun i => 8 * (3 - i / 8) + i mod 8));
    [lia|vm_compute; reflexivity|done..].
Qed.

Lemma testbit_byteswap64 val i : urange 64 val -> 0 <= i < 64 ->
  Z.testbit (byteswap_uint64_portable val) i = Z.testbit val (8 * (7 - i / 8) + i mod 8).
Proof.
  intros. apply (orhom_is_perm byteswap_uint64_portable 64 (fun i => 8 * (7 - i / 8) + i mod 8));
    [lia|vm_compute; reflexivity|done..].
Qed.

Lemma orhom_mod w : 0 <= w -> OrHom (fun x => x mod 2 ^ w).
Proof.
  intros. split; [|apply Zmod_0_l]. intros. by apply (orhom_wrap_aux w).
Qed.

Lemma le_split_lor n x y : le_split n (Z.lor x y) = zip_with Z.lor (le_split n x) (le_split n y).
Proof.
  revert x y. induction n as [|n IH]; intros x y; [done|]. cbn [le_split zip_with]. f_equal.
  - apply (orhom_lor (OrHom := orhom_mod 8 ltac:(lia))).
  - rewrite <- IH. f_equal. change 256 with (2 ^ 8). by rewrite <- !Z.shiftr_div_pow2, Z.shiftr_lor by lia.
Qed.

Lemma le_split_0 n : le_split n 0 = replicate n 0.
Proof. induction n; cbn; f_equal; auto. Qed.

Lemma rev_zip_with {A B C} (f : A -> B -> C) l m : length l = length m ->
  rev (zip_with f l m) = zip_with f (rev l) (rev m).
Proof.
  revert m. induction l as [|a l IH]; intros [|b m] Hl; try done.
  cbn in Hl. cbn [zip_with rev]. rewrite IH by lia.
  rewrite zip_with_app by (rewrite !length_rev; lia). done.
Qed.

#[export] Instance orhom_builtin_bswap n : OrHom (builtin_bswap n).
Proof.
  unfold builtin_bswap. split.
  - intros. rewrite le_split_lor, rev_zip_with by (rewrite !length_le_split; done).
    symmetry. apply (le_combine_bitwise Z.lor orb).
    + done.
    + apply Z.lor_spec.
    + intros. by apply urange_lor.
    + apply Forall_rev, le_split_bytes.
    + apply Forall_rev, le_split_bytes.
    + by rewrite !length_rev, !length_le_split.
  - rewrite le_split_0. replace (rev (replicate n 0)) with (replicate n 0).
    + induction n; cbn [replicate le_combine]; lia.
    + apply replicate_as_elem_of. split.
      * by rewrite length_rev, length_replicate.
      * intros x Hx. rewrite list_elem_of_In, <- in_rev, <- list_elem_of_In in Hx.
        by apply elem_of_replicate_inv in Hx.
Qed.

(** The portable byte swaps agree with the builtins. *)
Lemma byteswap_uint32_portable_eq val : urange 32 val ->
  byteswap_uint32_portable val = byteswap_uint32 val.
Proof.
  apply (orhom_ext _ (builtin_bswap 4) 32); [lia|].
  intros i Hi. apply Z.eqb_eq. revert i Hi. apply forallb_below. vm_compute. reflexivity.
Qed.

Lemma byteswap_uint64_portable_eq val : urange 64 val ->
  byteswap_uint64_portable val = byteswap_uint64 val.
Proof.
  apply (orhom_ext _ (builtin_bswap 8) 64); [lia|].
  intros i Hi. apply Z.eqb_eq. revert i Hi. apply forallb_below. vm_compute. reflexivity.
Qed.

(** ** Or-combine *)

Definition orc_byte (b : Z) : Z := if nz b then 0xFF else 0.

Lemma orc_byte_check :
  forallb (fun b => ((((b .| 0x80) - 1) .| b) .& 0x80 =? (if nz b then 0x80 else 0)) &&
                    (0x80 <=? b .| 0x80) && (b .| 0x80 <? 256)) (seqZ 0 256) = true.
Proof. vm_compute. reflexivity. Qed.

Lemma orc_byte_facts b : urange 8 b ->
  (((b .| 0x80) - 1) .| b) .& 0x80 = (if nz b then 0x80 else 0) /\
  0x80 <= b .| 0x80 < 256.
Proof.
  intros Hb.
  pose proof (forallb_below _ _ orc_byte_check b Hb) as H.
  apply andb_true_iff in H as [[H1%Z.eqb_eq H2]%andb_true_iff H3]. split; [done|lia].
Qed.

Lemma le_combine_map_sub (f : Z -> Z) (k : Z) l :
  le_combine (map f l) - le_combine (map (fun _ => k) l) = le_combine (map (fun b => f b - k) l).
Proof. induction l as [|b l IH]; cbn [map le_combine]; lia. Qed.

Lemma zip_with_map_same {A B C D} (op : B -> C -> D) (f : A -> B) (g : A -> C) l :
  zip_with op (map f l) (map g l) = map (fun b => op (f b) (g b)) l.
Proof. induction l; cbn; f_equal; auto. Qed.

Lemma le_combine_lor_map (f g : Z -> Z) l :
  bytes (map f l) -> bytes (map g l) ->
  le_combine (map f l) .| le_combine (map g l) = le_combine (map (fun b => f b .| g b) l).
Proof.
  intros. rewrite (le_combine_bitwise Z.lor orb); [by rewrite zip_with_map_same|done| | |done..|].
  - apply Z.lor_spec.
  - intros. by apply urange_lor.
  - by rewrite !length_map.
Qed.

Lemma le_combine_land_map (f g : Z -> Z) l :
  bytes (map f l) -> bytes (map g l) ->
  le_combine (map f l) .& le_combine (map g l) = le_combine (map (fun b => f b .& g b) l).
Proof.
  intros. rewrite (le_combine_bitwise Z.land andb); [by rewrite zip_with_map_same|done| | |done..|].
  - apply Z.land_spec.
  - intros. by apply urange_land_l.
  - by rewrite !length_map.
Qed.

Lemma bytes_map (f : Z -> Z) l : bytes l -> (forall b, urange 8 b -> urange 8 (f b)) -> bytes (map f l).
Proof. intros Hl Hf. induction Hl; cbn; constructor; auto. Qed.

(** The masked intermediate value: [0x80] in every nonzero byte. *)
Lemma orc_b_mid l : bytes l -> length l = 8%nat ->
  ((u64 ((le_combine l .| 0x8080808080808080) - 0x0101010101010101)) .| le_combine l)
    .& 0x8080808080808080
  = le_combine (map (fun b => if nz b then 0x80 else 0) l).
Proof.
  intros Hl Hn.
  assert (Ehi : 0x8080808080808080 = le_combine (map (fun _ => 0x80) l)).
  { do 8 (destruct l as [|? l]; [done|]). destruct l; [reflexivity|done]. }
  assert (Elo : 0x0101010101010101 = le_combine (map (fun _ => 1) l)).
  { do 8 (destruct l as [|? l]; [done|]). destruct l; [reflexivity|done]. }
  rewrite Ehi, Elo. rewrite <- (map_id l) at 1.
  assert (Hc : forall k, urange 8 k -> bytes (map (fun _ => k) l)) by (intros; by apply bytes_map).
  assert (Hid : bytes (map (fun b => b) l)) by by apply bytes_map.
  rewrite le_combine_lor_map, le_combine_map_sub by (done || (apply Hc; by split)).
  assert (Hs : bytes (map (fun b => (b .| 0x80) - 1) l)).
  { apply bytes_map; [done|]. intros b Hb. destruct (orc_byte_facts b Hb) as [_ ?].
    unfold urange. change (2 ^ 8) with 256. lia. }
  rewrite wrap_small.
  2:{ apply le_combine_range in Hs. by rewrite length_map, Hn in Hs. }
  rewrite <- (map_id l) at 2.
  rewrite le_combine_lor_map by done.
  rewrite le_combine_land_map.
  - f_equal. clear -Hl. induction Hl as [|b l Hb Hl IH]; [done|]. cbn [map].
    f_equal; [apply (orc_byte_facts b Hb)|done].
  - apply bytes_map; [done|]. intros b Hb. destruct (orc_byte_facts b Hb) as [_ ?].
    apply urange_lor; [lia| |done]. unfold urange. change (2 ^ 8) with 256. lia.
  - apply Hc. by split.
Qed.

Lemma bit_orc_b_bytes l : bytes l -> length l = 8%nat ->
  bit_orc_b (le_combine l) = le_combine (map orc_byte l).
Proof.
  intros Hl Hn. unfold bit_orc_b. rewrite orc_b_mid by done. clear Hl.
  do 8 (destruct l as [|? l]; [done|]). destruct l; [|done]. clear Hn.
  cbn [map le_combine]. unfold orc_byte, wrap. rewrite Z.shiftr_div_pow2, Z.shiftl_mul_pow2 by lia.
  change (2 ^ 7) with 128. change (2 ^ 8) with 256. change (2 ^ 64) with 18446744073709551616.
  repeat match goal with |- context [nz ?x] => destruct (nz x) end; reflexivity.
Qed.

(** ** Carry-less products *)

(** Reference: the exclusive or of the copies of [a] shifted by the set bits of [b]
    below [n]. *)
Fixpoint clmul_ref (n : nat) (a b : Z) : Z :=
  match n with
  | O => 0
  | S n => clmul_ref n a b .^ (if Z.testbit b (Z.of_nat n) then a .<< Z.of_nat n else 0)
  end.

Lemma nz_land_1 b : nz (b .& 1) = Z.testbit b 0.
Proof.
  change 1 with (Z.ones 1). rewrite Z.land_ones by lia. rewrite Z.testbit_odd, Z.shiftr_0_r.
  change (2 ^ 1) with 2. rewrite Zmod_odd. by destruct (Z.odd b).
Qed.

Lemma clmul_ref_low n a b :
  clmul_ref (S n) a b = (if Z.testbit b 0 then a else 0) .^ clmul_ref n (a .<< 1) (b .>> 1).
Proof.
  induction n as [|n IH].
  - cbn. rewrite Z.shiftl_0_r, Z.lxor_0_r. done.
  - change (clmul_ref (S (S n)) a b) with
      (clmul_ref (S n) a b .^ (if Z.testbit b (Z.of_nat (S n)) then a .<< Z.of_nat (S n) else 0)).
    rewrite IH. cbn [clmul_ref]. rewrite Z.lxor_assoc. f_equal. f_equal.
    rewrite testbit_shiftr, Z.shiftl_shiftl by lia.
    replace (Z.of_nat n + 1) with (Z.of_nat (S n)) by lia.
    by replace (1 + Z.of_nat n) with (Z.of_nat (S n)) by lia.
Qed.

Lemma clmul_ref_0_l n b : clmul_ref n 0 b = 0.
Proof. induction n as [|n IH]; [done|]. cbn [clmul_ref]. rewrite IH, Z.shiftl_0_l. by destruct (Z.testbit _ _). Qed.

Lemma clmul_ref_0_r n a : clmul_ref n a 0 = 0.
Proof. induction n as [|n IH]; [done|]. cbn [clmul_ref]. by rewrite IH, Z.testbit_0_l. Qed.

Lemma clmul_ref_shift n a b : clmul_ref n (a .<< 1) b = clmul_ref n a b .<< 1.
Proof.
  induction n as [|n IH]; [done|]. cbn [clmul_ref]. rewrite IH, Z.shiftl_lxor. f_equal.
  destruct (Z.testbit _ _); [|by rewrite Z.shiftl_0_l].
  rewrite !Z.shiftl_shiftl by lia. f_equal. lia.
Qed.

Lemma wrap_lxor w x y : 0 <= w -> wrap w (x .^ y) = wrap w x .^ wrap w y.
Proof.
  intros. apply Z.bits_inj'. intros i Hi. autorewrite with zbits. by case_bool.
Qed.

Lemma wrap_shiftl w x n : 0 <= w -> 0 <= n -> wrap w (wrap w x .<< n) = wrap w (x .<< n).
Proof.
  intros. rewrite !Z.shiftl_mul_pow2 by done. apply wrap_mul_l.
Qed.

Lemma wrap_clmul_ref w n a b : 0 <= w ->
  wrap w (clmul_ref n (wrap w a) b) = wrap w (clmul_ref n a b).
Proof.
  intros. induction n as [|n IH]; [done|]. cbn [clmul_ref]. rewrite !wrap_lxor, IH by done.
  f_equal. destruct (Z.testbit _ _); [|done]. apply wrap_shiftl; lia.
Qed.

Lemma clmul_loop_eq w fuel a b ret : 0 <= w -> urange w a ->
  clmul_loop w fuel a b ret = ret .^ wrap w (clmul_ref fuel a b).
Proof.
  intros Hw. revert a b ret. induction fuel as [|fuel IH]; intros a b ret Ha.
  - cbn. by rewrite wrap_0, Z.lxor_0_r.
  - rewrite clmul_ref_low. cbn [clmul_loop]. rewrite nz_land_1, wrap_lxor by done.
    rewrite <- (wrap_clmul_ref w fuel (a .<< 1)) by done.
    assert (E : wrap w (if Z.testbit b 0 then a else 0) = if Z.testbit b 0 then a else 0).
    { apply wrap_small. destruct (Z.testbit b 0); [done|]. pose proof (pow2_pos w). split; lia. }
    rewrite E, <- Z.lxor_assoc.
    replace (if Z.testbit b 0 then ret .^ a else ret) with (ret .^ (if Z.testbit b 0 then a else 0))
      by (destruct (Z.testbit b 0); by rewrite ?Z.lxor_0_r).
    destruct (nz _) eqn:Hz.
    + rewrite IH by by apply wrap_range. done.
    + apply nz_false in Hz. by rewrite Hz, clmul_ref_0_l, wrap_0, Z.lxor_0_r.
Qed.

Lemma shiftr_shiftl_1 x i : 0 < i -> (x .<< 1) .>> i = x .>> (i - 1).
Proof.
  intros. apply Z.bits_inj'. intros j Hj. autorewrite with zbits. f_equal. lia.
Qed.

Lemma clmulr_loop_eq fuel a b i ret : Z.of_nat fuel <= i + 1 < 2 ^ 32 ->
  clmulr_loop fuel a b i ret = ret .^ (clmul_ref fuel a b .>> i).
Proof.
  revert b i ret. induction fuel as [|fuel IH]; intros b i ret Hi.
  - cbn. by rewrite Z.shiftr_0_l, Z.lxor_0_r.
  - rewrite clmul_ref_low, Z.shiftr_lxor, <- Z.lxor_assoc. cbn [clmulr_loop]. rewrite nz_land_1.
    replace (if Z.testbit b 0 then ret .^ (a .>> i) else ret)
      with (ret .^ ((if Z.testbit b 0 then a else 0) .>> i))
      by (destruct (Z.testbit b 0); by rewrite ?Z.shiftr_0_l, ?Z.lxor_0_r).
    destruct (nz (b .>> 1)) eqn:Hz.
    + destruct fuel as [|fuel]; [cbn; by rewrite Z.shiftr_0_l, Z.lxor_0_r|].
      rewrite IH by (rewrite wrap_small by (split; lia); lia).
      rewrite wrap_small by (split; lia). f_equal.
      by rewrite clmul_ref_shift, shiftr_shiftl_1 by lia.
    + apply nz_false in Hz. by rewrite Hz, clmul_ref_0_r, Z.shiftr_0_l, Z.lxor_0_r.
Qed.

Lemma clmulh_loop_eq fuel a b i ret : Z.of_nat fuel <= i + 1 < 2 ^ 32 ->
  clmulh_loop fuel a b i ret = ret .^ (clmul_ref fuel a (b .>> 1) .>> i).
Proof.
  revert b i ret. induction fuel as [|fuel IH]; intros b i ret Hi.
  - cbn. by rewrite Z.shiftr_0_l, Z.lxor_0_r.
  - rewrite clmul_ref_low, Z.shiftr_lxor, <- Z.lxor_assoc. cbn [clmulh_loop]. rewrite nz_land_1.
    replace (if Z.testbit (b .>> 1) 0 then ret .^ (a .>> i) else ret)
      with (ret .^ ((if Z.testbit (b .>> 1) 0 then a else 0) .>> i))
      by (destruct (Z.testbit (b .>> 1) 0); by rewrite ?Z.shiftr_0_l, ?Z.lxor_0_r).
    destruct (nz (b .>> 1)) eqn:Hz.
    + destruct fuel as [|fuel]; [cbn; by rewrite Z.shiftr_0_l, Z.lxor_0_r|].
      rewrite IH by (rewrite wrap_small by (split; lia); lia).
      rewrite wrap_small by (split; lia). f_equal.
      by rewrite clmul_ref_shift, shiftr_shiftl_1 by lia.
    + apply nz_false in Hz. by rewrite Hz, !Z.shiftr_0_l, clmul_ref_0_r, !Z.shiftr_0_l, !Z.lxor_0_r.
Qed.

(** The high half through the halved multiplier. *)
Lemma clmul_ref_high n a b : urange (Z.of_nat (S n)) a -> urange (Z.of_nat (S n)) b ->
  clmul_ref (S n) a (b .>> 1) .>> Z.of_nat n = clmul_ref (S n) a b .>> Z.of_nat (S n).
Proof.
  intros Ha Hb. rewrite (clmul_ref_low n a b), clmul_ref_shift, Z.shiftr_lxor.
  replace (_ .>> Z.of_nat (S n)) with 0.
  - rewrite Z.lxor_0_l, shiftr_shiftl_1 by lia. replace (Z.of_nat (S n) - 1) with (Z.of_nat n) by lia.
    cbn [clmul_ref]. rewrite testbit_shiftr by lia.
    rewrite (testbit_above (Z.of_nat (S n)) b) by (done || lia). by rewrite Z.lxor_0_r.
  - symmetry. destruct (Z.testbit b 0); [|apply Z.shiftr_0_l].
    rewrite Z.shiftr_div_pow2 by lia. by apply Z.div_small.
Qed.

Lemma bit_clmul32_eq a b : urange 32 a -> bit_clmul32 a b = u32 (clmul_ref 32 a b).
Proof. intros. unfold bit_clmul32. by rewrite clmul_loop_eq. Qed.
Lemma bit_clmul64_eq a b : urange 64 a -> bit_clmul64 a b = u64 (clmul_ref 64 a b).
Proof. intros. unfold bit_clmul64. by rewrite clmul_loop_eq. Qed.
Lemma bit_clmulr32_eq a b : bit_clmulr32 a b = clmul_ref 32 a b .>> 31.
Proof. unfold bit_clmulr32. by rewrite clmulr_loop_eq. Qed.
Lemma bit_clmulr64_eq a b : bit_clmulr64 a b = clmul_ref 64 a b .>> 63.
Proof. unfold bit_clmulr64. by rewrite clmulr_loop_eq. Qed.
Lemma bit_clmulh32_eq a b : urange 32 a -> urange 32 b -> bit_clmulh32 a b = clmul_ref 32 a b .>> 32.
Proof. intros. unfold bit_clmulh32. rewrite clmulh_loop_eq by done. by apply (clmul_ref_high 31). Qed.
Lemma bit_clmulh64_eq a b : urange 64 a -> urange 64 b -> bit_clmulh64 a b = clmul_ref 64 a b .>> 64.
Proof. intros. unfold bit_clmulh64. rewrite clmulh_loop_eq by done. by apply (clmul_ref_high 63). Qed.

(** ** High halves of products *)

Lemma mulh_uint64_eq a b : srange 64 a -> srange 64 b -> mulh_uint64 a b = u64 ((a * b) / 2 ^ 64).
Proof.
  unfold srange. cbn [Z.sub Z.opp Z.add Z.pos_sub Pos.pred_double]. intros Ha Hb.
  unfold mulh_uint64. rewrite signed_small, Z.shiftr_div_pow2 by (lia || (unfold srange; nia)). done.
Qed.

Lemma mulhu_uint64_eq a b : urange 64 a -> urange 64 b -> mulhu_uint64 a b = (a * b) / 2 ^ 64.
Proof.
  unfold urange. intros Ha Hb. unfold mulhu_uint64.
  rewrite (wrap_small 128), Z.shiftr_div_pow2 by (lia || (split; nia)).
  apply wrap_small. split; [apply Z.div_pos; nia|]. apply Z.div_lt_upper_bound; nia.
Qed.

Lemma mulhsu_uint64_eq a b : srange 64 a -> urange 64 b ->
  mulhsu_uint64 a b = u64 ((a * b) / 2 ^ 64).
Proof.
  intros Ha Hb. unfold mulhsu_uint64. rewrite mulhu_uint64_eq by (try apply wrap_range; done || lia).
  unfold srange in Ha. cbn [Z.sub Z.opp Z.add Z.pos_sub Pos.pred_double] in Ha.
  destruct (Z.leb_spec 0 a).
  - rewrite Z.sub_0_r, (wrap_small 64 a) by (split; lia). done.
  - f_equal. replace (u64 a) with (a + 2 ^ 64).
    + replace ((a + 2 ^ 64) * b) with (a * b + b * 2 ^ 64) by ring.
      rewrite Z_div_plus_full by lia. lia.
    + unfold wrap. rewrite <- (Z_mod_plus_full a 1), Z.mod_small by lia. lia.
Qed.

(** The four-product schoolbook algorithm is exact for unsigned operands. *)
Lemma mulhu_uint64_portable_eq a b : urange 64 a -> urange 64 b ->
  mulhu_uint64_portable a b = mulhu_uint64 a b.
Proof.
  intros Ha Hb. rewrite mulhu_uint64_eq by done. unfold mulhu_uint64_portable.
  rewrite !Z.shiftr_div_pow2 by lia. unfold wrap, urange in *.
  change (2 ^ 64) with (2 ^ 32 * 2 ^ 32) in *. set (M := 2 ^ 32) in *.
  assert (HM : 0 < M) by done.
  pose proof (Z.div_mod a M). pose proof (Z.mod_pos_bound a M HM).
  pose proof (Z.div_mod b M). pose proof (Z.mod_pos_bound b M HM).
  assert (0 <= a / M < M) by (split; [apply Z.div_pos; lia|apply Z.div_lt_upper_bound; lia]).
  assert (0 <= b / M < M) by (split; [apply Z.div_pos; lia|apply Z.div_lt_upper_bound; lia]).
  replace (a * b) with (a mod M * (b mod M) + M * (a / M * (b mod M) + a mod M * (b / M))
                        + M * M * (a / M * (b / M))) by nia.
  set (al := a mod M) in *. set (ah := a / M) in *. set (bl := b mod M) in *. set (bh := b / M) in *.
  clearbody al ah bl bh.
  assert (B : forall x y, 0 <= x < M -> 0 <= y < M -> 0 <= x * y <= (M - 1) * (M - 1)) by nia.
  pose proof (B al bl). pose proof (B ah bl). pose proof (B al bh). pose proof (B ah bh). clear B.
  set (p := al * bl) in *. set (q := ah * bl) in *. set (r := al * bh) in *. set (s := ah * bh) in *.
  clearbody p q r s. subst M. change (2 ^ 32) with 4294967296 in *.
  rewrite !(Z.mod_small _ (4294967296 * 4294967296)) by dlia. dlia.
Qed.

(** The same scheme with sign-extended halves is not a signed product: [1 * -1]. *)
Lemma mulh_uint64_portable_wrong :
  mulh_uint64_portable 1 (-1) = 0xFFFFFFFF /\ mulh_uint64 1 (-1) = 0xFFFFFFFFFFFFFFFF.
Proof. by vm_compute. Qed.

Lemma mulhsu_uint64_portable_wrong :
  mulhsu_uint64_portable 0xFFFFFFFF 0xFFFFFFFF = 0xFFFFFFFF /\ mulhsu_uint64 0xFFFFFFFF 0xFFFFFFFF = 0.
Proof. by vm_compute. Qed.
