(* ===== verification/MemOps.v ===== *)
(** * Memory intrinsics (src/util/mem_ops.h)

    Host memory is a total function from addresses to bytes.  The little-endian
    accessors are modelled in both of their preprocessor branches: the copy of a
    little-endian host and the byte-by-byte fallback ([_portable]).  Theorems: the two
    branches agree, a write is read back, a write leaves disjoint ranges alone, and
    the big-endian accessors are the byte swap of the little-endian ones. *)

From S2P Require Import Prelude BitOps.

Abbreviation memory := (Z -> Z).

(** ** [memcpy] between memory and a value *)

Fixpoint get_bytes (n : nat) (m : memory) (addr : Z) : list Z :=
  match n with
  | O => []
  | S n => m addr :: get_bytes n m (addr + 1)
  end.

Fixpoint put_bytes (m : memory) (addr : Z) (l : list Z) : memory :=
  match l with
  | [] => m
  | b :: l => put_bytes (<[addr := b]> m) (addr + 1) l
  end.

Definition valid_memory (m : memory) : Prop := forall a, urange 8 (m a).

(** ** Little-endian accessors, any alignment *)

Definition read_uint64_le_m (m : memory) (addr : Z) : Z := le_combine (get_bytes 8 m addr).
Definition write_uint64_le_m (m : memory) (addr val : Z) : memory :=
  put_bytes m addr (le_split 8 val).
Definition read_uint32_le_m (m : memory) (addr : Z) : Z := le_combine (get_bytes 4 m addr).
Definition write_uint32_le_m (m : memory) (addr val : Z) : memory :=
  put_bytes m addr (le_split 4 val).
Definition read_uint16_le_m (m : memory) (addr : Z) : Z := le_combine (get_bytes 2 m addr).
Definition write_uint16_le_m (m : memory) (addr val : Z) : memory :=
  put_bytes m addr (le_split 2 val).

(** The byte-by-byte branches. *)

Definition read_uint64_le_m_portable (m : memory) (addr : Z) : Z :=
  m addr
  .| (m (addr + 1) .<< 8)
  .| (m (addr + 2) .<< 16)
  .| (m (addr + 3) .<< 24)
  .| (m (addr + 4) .<< 32)
  .| (m (addr + 5) .<< 40)
  .| (m (addr + 6) .<< 48)
  .| (m (addr + 7) .<< 56).

Definition write_uint64_le_m_portable (m : memory) (addr val : Z) : memory :=
  let m := <[addr := val .& 0xFF]> m in
  let m := <[addr + 1 := (val .>> 8) .& 0xFF]> m in
  let m := <[addr + 2 := (val .>> 16) .& 0xFF]> m in
  let m := <[addr + 3 := (val .>> 24) .& 0xFF]> m in
  let m := <[addr + 4 := (val .>> 32) .& 0xFF]> m in
  let m := <[addr + 5 := (val .>> 40) .& 0xFF]> m in
  let m := <[addr + 6 := (val .>> 48) .& 0xFF]> m in
  <[addr + 7 := (val .>> 56) .& 0xFF]> m.

Definition read_uint32_le_m_portable (m : memory) (addr : Z) : Z :=
  m addr
  .| (m (addr + 1) .<< 8)
  .| (m (addr + 2) .<< 16)
  .| (m (addr + 3) .<< 24).

Definition write_uint32_le_m_portable (m : memory) (addr val : Z) : memory :=
  let m := <[addr := val .& 0xFF]> m in
  let m := <[addr + 1 := (val .>> 8) .& 0xFF]> m in
  let m := <[addr + 2 := (val .>> 16) .& 0xFF]> m in
  <[addr + 3 := (val .>> 24) .& 0xFF]> m.

Definition read_uint16_le_m_portable (m : memory) (addr : Z) : Z :=
  m addr .| (m (addr + 1) .<< 8).

Definition write_uint16_le_m_portable (m : memory) (addr val : Z) : memory :=
  let m := <[addr := val .& 0xFF]> m in
  <[addr + 1 := (val .>> 8) .& 0xFF]> m.

(** ** Big-endian accessors *)

Definition read_uint64_be_m (m : memory) (addr : Z) : Z :=
  m (addr + 7)
  .| (m (addr + 6) .<< 8)
  .| (m (addr + 5) .<< 16)
  .| (m (addr + 4) .<< 24)
  .| (m (addr + 3) .<< 32)
  .| (m (addr + 2) .<< 40)
  .| (m (addr + 1) .<< 48)
  .| (m addr .<< 56).

Definition write_uint64_be_m (m : memory) (addr val : Z) : memory :=
  let m := <[addr + 7 := val .& 0xFF]> m in
  let m := <[addr + 6 := (val .>> 8) .& 0xFF]> m in
  let m := <[addr + 5 := (val .>> 16) .& 0xFF]> m in
  let m := <[addr + 4 := (val .>> 24) .& 0xFF]> m in
  let m := <[addr + 3 := (val .>> 32) .& 0xFF]> m in
  let m := <[addr + 2 := (val .>> 40) .& 0xFF]> m in
  let m := <[addr + 1 := (val .>> 48) .& 0xFF]> m in
  <[addr := (val .>> 56) .& 0xFF]> m.

Definition read_uint32_be_m (m : memory) (addr : Z) : Z :=
  m (addr + 3)
  .| (m (addr + 2) .<< 8)
  .| (m (addr + 1) .<< 16)
  .| (m addr .<< 24).

Definition write_uint32_be_m (m : memory) (addr val : Z) : memory :=
  let m := <[addr + 3 := val .& 0xFF]> m in
  let m := <[addr + 2 := (val .>> 8) .& 0xFF]> m in
  let m := <[addr + 1 := (val .>> 16) .& 0xFF]> m in
  <[addr := (val .>> 24) .& 0xFF]> m.

Definition read_uint16_be_m (m : memory) (addr : Z) : Z :=
  m (addr + 1) .| (m addr .<< 8).

Definition write_uint16_be_m (m : memory) (addr val : Z) : memory :=
  let m := <[addr + 1 := val .& 0xFF]> m in
  <[addr := (val .>> 8) .& 0xFF]> m.

(** ** Strictly aligned accessors *)

Definition read_uint64_le (m : memory) (addr : Z) : Z := le_combine (get_bytes 8 m addr).
Definition write_uint64_le (m : memory) (addr val : Z) : memory :=
  put_bytes m addr (le_split 8 val).
Definition read_uint32_le (m : memory) (addr : Z) : Z := le_combine (get_bytes 4 m addr).
Definition write_uint32_le (m : memory) (addr val : Z) : memory :=
  put_bytes m addr (le_split 4 val).
Definition read_uint16_le (m : memory) (addr : Z) : Z := le_combine (get_bytes 2 m addr).
Definition write_uint16_le (m : memory) (addr val : Z) : memory :=
  put_bytes m addr (le_split 2 val).
Definition read_uint8 (m : memory) (addr : Z) : Z := m addr.
Definition write_uint8 (m : memory) (addr val : Z) : memory := <[addr := u8 val]> m.

(** ** Byte ranges *)

Lemma length_get_bytes n m a : length (get_bytes n m a) = n.
Proof. revert a. induction n; intros; cbn; auto. Qed.

Lemma get_bytes_bytes n m a : valid_memory m -> bytes (get_bytes n m a).
Proof. intros H. revert a. induction n; intros; cbn; constructor; auto. Qed.

Lemma put_bytes_lookup m a l q :
  put_bytes m a l q = if (a <=? q) && (q <? a + Z.of_nat (length l))
                      then nth (Z.to_nat (q - a)) l 0 else m q.
Proof.
  revert m a. induction l as [|b l IH]; intros m a; cbn [put_bytes length].
  { by destruct (Z.leb_spec a q), (Z.ltb_spec q (a + Z.of_nat 0)); cbn; try lia. }
  rewrite IH, fupd_dec. destruct (Z.eqb_spec a q) as [->|Hne].
  - rewrite Z.leb_refl. destruct (Z.leb_spec (q + 1) q); [lia|]. cbn [andb].
    destruct (Z.ltb_spec q (q + Z.of_nat (S (length l)))); [|lia]. by rewrite Z.sub_diag.
  - destruct (Z.leb_spec (a + 1) q), (Z.leb_spec a q); try lia; cbn [andb]; [|done].
    replace (a + 1 + Z.of_nat (length l)) with (a + Z.of_nat (S (length l))) by lia.
    case_bool; [|done]. by replace (Z.to_nat (q - a)) with (S (Z.to_nat (q - (a + 1)))) by lia.
Qed.

Lemma put_bytes_outside m a l q :
  ~ (a <= q < a + Z.of_nat (length l)) -> put_bytes m a l q = m q.
Proof. intros. rewrite put_bytes_lookup. do 2 case_bool; cbn; done || lia. Qed.

Lemma get_bytes_ext n m m' a a' :
  (forall i, 0 <= i < Z.of_nat n -> m (a + i) = m' (a' + i)) ->
  get_bytes n m a = get_bytes n m' a'.
Proof.
  revert a a'. induction n as [|n IH]; intros a a' H; [done|]. cbn. f_equal.
  - specialize (H 0). rewrite !Z.add_0_r in H. apply H. lia.
  - apply IH. intros i Hi. specialize (H (i + 1)).
    replace (a + 1 + i) with (a + (i + 1)) by lia.
    replace (a' + 1 + i) with (a' + (i + 1)) by lia. apply H. lia.
Qed.

Lemma get_put_same m a l : get_bytes (length l) (put_bytes m a l) a = l.
Proof.
  revert m a. induction l as [|b l IH]; intros m a; [done|]. cbn. f_equal; [|apply IH].
  rewrite put_bytes_outside by lia. apply fupd_eq.
Qed.

Lemma get_put_disjoint n m a l q :
  q + Z.of_nat n <= a \/ a + Z.of_nat (length l) <= q ->
  get_bytes n (put_bytes m a l) q = get_bytes n m q.
Proof. intros H. apply get_bytes_ext. intros. apply put_bytes_outside. lia. Qed.

Lemma get_bytes_app n k m a :
  get_bytes (n + k) m a = get_bytes n m a ++ get_bytes k m (a + Z.of_nat n).
Proof.
  revert a. induction n as [|n IH]; intros a; cbn [get_bytes app Nat.add].
  - by rewrite Z.add_0_r.
  - rewrite IH. replace (a + 1 + Z.of_nat n) with (a + Z.of_nat (S n)) by lia. done.
Qed.

Lemma put_bytes_app m a l k :
  put_bytes m a (l ++ k) = put_bytes (put_bytes m a l) (a + Z.of_nat (length l)) k.
Proof.
  revert m a. induction l as [|b l IH]; intros m a; cbn [put_bytes app length].
  - by rewrite Z.add_0_r.
  - rewrite IH. replace (a + 1 + Z.of_nat (length l)) with (a + Z.of_nat (S (length l))) by lia.
    done.
Qed.

Lemma put_bytes_valid m a l : valid_memory m -> bytes l -> valid_memory (put_bytes m a l).
Proof.
  intros Hm Hl q. rewrite put_bytes_lookup. destruct (_ && _) eqn:E; [|apply Hm].
  apply andb_true_iff in E as [E1 E2]. apply Z.leb_le in E1. apply Z.ltb_lt in E2.
  rewrite Forall_forall in Hl. apply Hl, nth_In. lia.
Qed.

#[export] Hint Resolve put_bytes_valid get_bytes_bytes le_split_bytes : rv.

(** ** Reading back *)

Lemma read_write_64 m a v : read_uint64_le (write_uint64_le m a v) a = u64 v.
Proof.
  unfold read_uint64_le, write_uint64_le.
  rewrite <- (length_le_split 8 v) at 1. rewrite get_put_same. apply le_combine_split.
Qed.

Lemma read_write_32 m a v : read_uint32_le (write_uint32_le m a v) a = u32 v.
Proof.
  unfold read_uint32_le, write_uint32_le.
  rewrite <- (length_le_split 4 v) at 1. rewrite get_put_same. apply le_combine_split.
Qed.

Lemma read_write_16 m a v : read_uint16_le (write_uint16_le m a v) a = u16 v.
Proof.
  unfold read_uint16_le, write_uint16_le.
  rewrite <- (length_le_split 2 v) at 1. rewrite get_put_same. apply le_combine_split.
Qed.

Lemma read_uint64_le_range m a : valid_memory m -> urange 64 (read_uint64_le m a).
Proof.
  intros H. unfold read_uint64_le. pose proof (le_combine_range _ (get_bytes_bytes 8 m a H)) as R.
  by rewrite length_get_bytes in R.
Qed.

Lemma read_uint32_le_range m a : valid_memory m -> urange 32 (read_uint32_le m a).
Proof.
  intros H. unfold read_uint32_le. pose proof (le_combine_range _ (get_bytes_bytes 4 m a H)) as R.
  by rewrite length_get_bytes in R.
Qed.

Lemma read_uint16_le_range m a : valid_memory m -> urange 16 (read_uint16_le m a).
Proof.
  intros H. unfold read_uint16_le. pose proof (le_combine_range _ (get_bytes_bytes 2 m a H)) as R.
  by rewrite length_get_bytes in R.
Qed.

#[export] Hint Resolve read_uint64_le_range read_uint32_le_range read_uint16_le_range : rv.

(** ** The byte-by-byte branches *)

Lemma lor_cons b x : urange 8 b -> b + 256 * x = b .| (x .<< 8).
Proof. intros. rewrite lor_shiftl_add by (done || lia). change (2 ^ 8) with 256. lia. Qed.

Lemma read_le_portable_eq m a : valid_memory m ->
  read_uint64_le_m_portable m a = read_uint64_le_m m a /\
  read_uint32_le_m_portable m a = read_uint32_le_m m a /\
  read_uint16_le_m_portable m a = read_uint16_le_m m a.
Proof.
  intros H. unfold read_uint64_le_m, read_uint32_le_m, read_uint16_le_m.
  cbn [get_bytes le_combine]. rewrite <- !Z.add_assoc. cbn [Z.add Pos.add Pos.succ].
  rewrite !Z.mul_0_r, !Z.add_0_r, !lor_cons by (done || apply H).
  by rewrite !Z.shiftl_lor, !Z.shiftl_shiftl, !Z.lor_assoc by lia.
Qed.

Lemma land_ff v n : 0 <= n -> (v .>> n) .& 0xFF = v / 2 ^ n mod 256.
Proof. intros. rewrite Z.shiftr_div_pow2 by done. apply (Z.land_ones _ 8). lia. Qed.

Lemma land_ff_0 v : v .& 0xFF = v mod 256.
Proof. apply (Z.land_ones _ 8). lia. Qed.

Lemma write_le_portable_eq m a v :
  write_uint64_le_m_portable m a v = write_uint64_le_m m a v /\
  write_uint32_le_m_portable m a v = write_uint32_le_m m a v /\
  write_uint16_le_m_portable m a v = write_uint16_le_m m a v.
Proof.
  unfold write_uint64_le_m, write_uint32_le_m, write_uint16_le_m.
  unfold write_uint64_le_m_portable, write_uint32_le_m_portable, write_uint16_le_m_portable.
  cbn [put_bytes le_split]. rewrite <- !Z.add_assoc. cbn [Z.add Pos.add Pos.succ].
  rewrite !Z.div_div, !land_ff, land_ff_0 by lia. done.
Qed.

(** ** Big-endian accessors *)

(** The bytes of a big-endian value, in memory order, are the little-endian ones reversed. *)
Lemma read_be_eq m a : valid_memory m ->
  read_uint64_be_m m a = le_combine (rev (get_bytes 8 m a)) /\
  read_uint32_be_m m a = le_combine (rev (get_bytes 4 m a)) /\
  read_uint16_be_m m a = le_combine (rev (get_bytes 2 m a)).
Proof.
  intros H. cbn [get_bytes rev app le_combine]. rewrite <- !Z.add_assoc.
  cbn [Z.add Pos.add Pos.succ].
  rewrite !Z.mul_0_r, !Z.add_0_r, !lor_cons by (done || apply H).
  by rewrite !Z.shiftl_lor, !Z.shiftl_shiftl, !Z.lor_assoc by lia.
Qed.

Lemma write_be_get m a v :
  get_bytes 8 (write_uint64_be_m m a v) a = rev (le_split 8 v) /\
  get_bytes 4 (write_uint32_be_m m a v) a = rev (le_split 4 v) /\
  get_bytes 2 (write_uint16_be_m m a v) a = rev (le_split 2 v).
Proof.
  unfold write_uint64_be_m, write_uint32_be_m, write_uint16_be_m.
  cbn [get_bytes rev app le_split]. rewrite <- !Z.add_assoc. cbn [Z.add Pos.add Pos.succ].
  rewrite !Z.div_div, !land_ff, land_ff_0 by lia. rewrite !fupd_dec.
  repeat match goal with |- context [?x =? ?y] => destruct (Z.eqb_spec x y); [try lia|] end.
  all: repeat match goal with |- context [?x =? ?y] => destruct (Z.eqb_spec x y); try lia end.
  all: by repeat split.
Qed.
