(* ===== verification/Utils.v ===== *)
(** * Strings and numbers (src/util/utils.c)

    C strings are lists of characters without the terminating NUL.  A character buffer a
    function writes to is its size, [None] for a null pointer, and the string it holds
    afterwards.  Theorem: a number that is printed, in any base the code supports, is read
    back. *)

From S2P Require Import Prelude.

Local Abbreviation zlen l := (Z.of_nat (length l)).

(** [str\[i\]], the NUL at the end included. *)
Definition char_at (str : list Z) (i : nat) : Z := default 0 (str !! i).

Definition digit_symbol (val : Z) : Z :=
  if val <? 10 then 48 + val
  else if val <? 36 then 97 + val - 10
  else 63.

Definition digit_value (digit : Z) : Z :=
  if (48 <=? digit) && (digit <=? 57) then digit - 48
  else if (65 <=? digit) && (digit <=? 90) then digit - 65 + 10
  else if (97 <=? digit) && (digit <=? 122) then digit - 97 + 10
  else 0xFFFFFFFF.

(** The [do ... while (val)] loop: characters from the lowest digit on, none if they do not
    fit.  A 64-bit number has at most 64 digits. *)
Fixpoint uint_digits (fuel : nat) (size : option Z) (str : list Z) (val base : Z) : list Z :=
  match fuel with
  | O => str
  | S fuel =>
      if match size with Some size => size <=? zlen str + 1 | None => false end then []
      else
        let str := str ++ [digit_symbol (val mod base)] in
        let val := val / base in
        if nz val then uint_digits fuel size str val base else str
  end.

(** The loop that reverses the string: [n] iterations from [i] on. *)
Fixpoint reverse_loop (n i : nat) (str : list Z) : list Z :=
  match n with
  | O => str
  | S n =>
      let tmp := char_at str i in
      let str := <[i := char_at str (length str - i - 1)]> str in
      let str := <[(length str - i - 1)%nat := tmp]> str in
      reverse_loop n (S i) str
  end.

(** The string and its length. *)
Definition uint_to_str_base (size : option Z) (val base : Z) : list Z * Z :=
  let str := if (2 <=? base) && (base <=? 36) then uint_digits 64 size [] val base else [] in
  (reverse_loop (length str / 2) 0 str, zlen str).

(** The loop over digits from [size] on; it stops at the NUL. *)
Fixpoint str_to_uint_loop (fuel : nat) (str : list Z) (val : Z) (size : nat) (base : Z) : Z * nat :=
  match fuel with
  | O => (val, size)
  | S fuel =>
      if digit_value (char_at str size) <? base then
        str_to_uint_loop fuel str (u64 (u64 (val * base) + digit_value (char_at str size))) (S size) base
      else (val, size)
  end.

(** The number and the length that was read. *)
Definition str_to_uint_base (str : list Z) (base : Z) : Z * Z :=
  let '(base, size) :=
    if base =? 0 then
      if char_at str 0 =? 48 then
        let c := char_at str 1 in
        if (c =? 111) || (c =? 79) then (8, 2%nat)
        else if (c =? 120) || (c =? 88) then (16, 2%nat)
        else if (c =? 98) || (c =? 66) then (2, 2%nat)
        else (8, O)
      else (10, O)
    else (base, O) in
  if (2 <=? base) && (base <=? 36) then
    let '(val, size') := str_to_uint_loop (S (length str)) str 0 size base in
    (val, if (size <? size')%nat then Z.of_nat size' else 0)
  else (0, 0).

Definition int_to_str_base (size : option Z) (val base : Z) : list Z * Z :=
  let sign := if val <? 0 then 1 else 0 in
  let usize := option_map (fun size => if nz size then size - sign else 0) size in
  let '(ustr, len) := uint_to_str_base usize (u64 (if nz sign then - val else val)) base in
  let str :=
    if nz sign then match usize with Some usize => if nz usize then 45 :: ustr else [] | None => ustr end
    else ustr in
  (str, len + sign).

Definition str_to_int_base (str : list Z) (base : Z) : Z * Z :=
  let neg := char_at str 0 =? 45 in
  let '(val, len) := str_to_uint_base (if neg then drop 1 str else str) base in
  (s64 (if neg then u64 (- val) else val), if neg && nz len then len + 1 else len).

Definition int_to_str_dec (size : option Z) (val : Z) : list Z * Z := int_to_str_base size val 10.
Definition str_to_int_dec (str : list Z) : Z := fst (str_to_int_base str 0).

(** Strings below may hold a NUL, which ends them. *)
Fixpoint rvvm_strlen (string : list Z) : Z :=
  match string with
  | [] => 0
  | c :: string => if nz c then 1 + rvvm_strlen string else 0
  end.

Fixpoint rvvm_strnlen (string : list Z) (size : nat) : Z :=
  match string, size with
  | c :: string, S size => if nz c then 1 + rvvm_strnlen string size else 0
  | _, _ => 0
  end.

Fixpoint rvvm_strcmp (s1 s2 : list Z) : bool :=
  match s1 with
  | [] => hd 0 s2 =? 0
  | c :: s1 => if nz c && (c =? hd 0 s2) then rvvm_strcmp s1 (tl s2) else c =? hd 0 s2
  end.

(** The inner loop of [rvvm_strfind], whether the pattern ends before a difference. *)
Fixpoint strfind_at (tmp pat : list Z) : bool :=
  match tmp with
  | [] => hd 0 pat =? 0
  | c :: tmp => if nz c && (c =? hd 0 pat) then strfind_at tmp (tl pat) else hd 0 pat =? 0
  end.

(** The position of the match. *)
Fixpoint rvvm_strfind (string pattern : list Z) : option nat :=
  match string with
  | [] => None
  | c :: string' =>
      if nz c then if strfind_at string pattern then Some O else S <$> rvvm_strfind string' pattern
      else None
  end.

(** The characters written to [dst], the NUL included, and the length. *)
Fixpoint strlcpy_loop (src : list Z) (size : Z) : list Z :=
  match src with
  | [] => []
  | c :: src => if (1 <? size) && nz c then c :: strlcpy_loop src (size - 1) else []
  end.

Definition rvvm_strlcpy (src : list Z) (size : Z) : list Z * Z :=
  let str := strlcpy_loop src size in (if nz size then str ++ [0] else str, zlen str).

Definition align_size_up (x align : Z) : Z := u64 (x + (align - 1)) .& u64 (Z.lnot (align - 1)).
Definition align_size_down (x align : Z) : Z := x .& u64 (Z.lnot (align - 1)).

(** ** Strings *)

(** A string without NUL. *)
Definition cstring (s : list Z) : Prop := Forall (fun c => 1 <= c < 256) s.

Lemma rvvm_strlen_eq s : Forall (fun c => c <> 0) s -> rvvm_strlen s = zlen s.
Proof. induction 1 as [|c s Hc _ IH]; [done|]. cbn [rvvm_strlen]. unfold nz. destruct (Z.eqb_spec c 0); [done|]. cbn. lia. Qed.

Lemma rvvm_strcmp_refl name : Forall (fun c => c <> 0) name -> rvvm_strcmp name name = true.
Proof.
  induction 1 as [|c l Hc _ IH]; [done|]. cbn [rvvm_strcmp hd tl]. rewrite Z.eqb_refl. unfold nz. by destruct (Z.eqb_spec c 0).
Qed.

(** On strings without NUL, comparison is equality. *)
Lemma rvvm_strcmp_eq s : forall t, Forall (fun c => c <> 0) s -> Forall (fun c => c <> 0) t -> rvvm_strcmp s t = true <-> s = t.
Proof.
  induction s as [|c s IH]; intros t Hs Ht.
  - destruct Ht as [|d t Hd Ht]; cbn; [done|]. destruct (Z.eqb_spec d 0); done.
  - apply Forall_cons_1 in Hs as [Hc Hs]. cbn [rvvm_strcmp]. unfold nz. destruct (Z.eqb_spec c 0); [done|]. cbn [negb andb].
    destruct Ht as [|d t Hd Ht]; cbn [hd tl].
    + destruct (Z.eqb_spec c 0); done.
    + destruct (Z.eqb_spec c d) as [->|Hn]; [|split; [done|by intros [= ]]]. rewrite IH by done. split; [by intros ->|by intros [= ]].
Qed.

(** Copying without a limit. *)
Lemma rvvm_strlcpy_eq s : Forall (fun c => c <> 0) s -> zlen s < 2 ^ 63 -> rvvm_strlcpy s (2 ^ 64 - 1) = (s ++ [0], zlen s).
Proof.
  intros Hs Hl. unfold rvvm_strlcpy. change (nz (2 ^ 64 - 1)) with true. cbn iota.
  assert (forall n, zlen s < n -> strlcpy_loop s n = s) as Hc; [|by rewrite Hc by lia].
  clear Hl. induction Hs as [|c s Hc _ IH]; intros n Hn; [done|]. cbn [strlcpy_loop length] in *. unfold nz.
  destruct (Z.ltb_spec 1 n); [|lia]. destruct (Z.eqb_spec c 0); [done|]. cbn. rewrite IH by lia. done.
Qed.

Lemma align_up_4 x : 0 <= x -> x + 3 < 2 ^ 64 -> align_size_up x 4 = (x + 3) / 4 * 4.
Proof.
  intros H0 H1. unfold align_size_up. change (u64 (Z.lnot (4 - 1))) with (Z.shiftl (Z.ones 62) 2). change (4 - 1) with 3.
  rewrite (wrap_small 64 (x + 3)) by (unfold urange; lia).
  apply Z.bits_inj'. intros i Hi. rewrite Z.land_spec, testbit_shiftl by done.
  change ((x + 3) / 4 * 4) with ((x + 3) / 2 ^ 2 * 2 ^ 2). rewrite <- Z.shiftr_div_pow2, <- Z.shiftl_mul_pow2 by lia.
  rewrite testbit_shiftl by done. destruct (decide (i < 2)).
  { rewrite (Z.testbit_neg_r _ (i - 2)), (Z.testbit_neg_r (Z.shiftr _ _)) by lia. apply andb_false_r. }
  rewrite testbit_shiftr, testbit_ones by lia. replace (i - 2 + 2) with i by lia.
  destruct (Z.ltb_spec (i - 2) 62); [apply andb_true_r|]. rewrite andb_false_r. symmetry.
  apply (testbit_above 64); [unfold urange; lia|lia].
Qed.

(** ** Reversal *)

Lemma reverse_loop_lookup n : forall i str j, (2 * (i + n) <= length str)%nat ->
  reverse_loop n i str !! j =
    if decide ((i <= j < i + n) \/ (length str - i - n <= j < length str - i))%nat then str !! (length str - j - 1)%nat else str !! j.
Proof.
  induction n as [|n IH]; intros i str j Hl; cbn [reverse_loop].
  { rewrite decide_False by lia. done. }
  rewrite IH; rewrite !length_insert; [|lia].
  destruct (lookup_lt_is_Some_2 str i) as [a Ha]; [lia|]. destruct (lookup_lt_is_Some_2 str (length str - i - 1)) as [b Hb]; [lia|].
  unfold char_at. rewrite Ha, Hb. cbn [default from_option id].
  assert (forall k, (k < length str)%nat -> <[(length str - i - 1)%nat:=a]> (<[i:=b]> str) !! k =
    if decide (k = length str - i - 1)%nat then Some a else if decide (k = i) then Some b else str !! k) as Hk.
  { intros k Hk. destruct (decide _) as [->|]; [apply list_lookup_insert_eq; rewrite length_insert; lia|].
    rewrite list_lookup_insert_ne by done. destruct (decide _) as [->|]; [by apply list_lookup_insert_eq|by apply list_lookup_insert_ne]. }
  destruct (decide (j < length str)%nat) as [Hj|Hj].
  - destruct (decide _) as [Hd|Hd]; destruct (decide ((i <= j < i + S n) \/ _)%nat) as [Hd'|Hd']; try lia; rewrite Hk by lia.
    + rewrite !decide_False by lia. done.
    + destruct (decide (j = _)) as [->|]; [rewrite <- Ha; f_equal; lia|]. destruct (decide (j = i)) as [->|]; [by rewrite <- Hb; f_equal; lia|lia].
    + rewrite !decide_False by lia. done.
  - rewrite !decide_False by lia. rewrite !lookup_ge_None_2; rewrite ?length_insert; try lia. done.
Qed.

Lemma reverse_loop_rev str : reverse_loop (length str / 2) 0 str = rev str.
Proof.
  apply list_eq. intros j. pose proof (Nat.div_mod (length str) 2 ltac:(lia)). pose proof (Nat.mod_upper_bound (length str) 2 ltac:(lia)).
  rewrite reverse_loop_lookup by lia. rewrite rev_alt. change (rev_append str []) with (reverse str). destruct (decide (j < length str)%nat).
  - rewrite reverse_lookup by done. destruct (decide _); f_equal; lia.
  - rewrite decide_False by lia. rewrite !lookup_ge_None_2; rewrite ?length_reverse; [done|lia|lia].
Qed.

(** ** Digits *)

(** The value of digits from the lowest one on. *)
Definition value (base : Z) (ds : list Z) : Z := foldr (fun d acc => d + base * acc) 0 ds.

Lemma digit_value_symbol d : 0 <= d < 36 -> digit_value (digit_symbol d) = d.
Proof.
  intros Hd. unfold digit_value, digit_symbol. destruct (Z.ltb_spec d 10).
  - destruct (Z.leb_spec 48 (48 + d)); [|lia]. destruct (Z.leb_spec (48 + d) 57); [|lia]. cbn. lia.
  - destruct (Z.ltb_spec d 36); [|lia]. destruct (Z.leb_spec (97 + d - 10) 57); [lia|]. rewrite andb_false_r.
    destruct (Z.leb_spec (97 + d - 10) 90); [lia|]. rewrite andb_false_r.
    destruct (Z.leb_spec 97 (97 + d - 10)); [|lia]. destruct (Z.leb_spec (97 + d - 10) 122); [|lia]. cbn. lia.
Qed.

Lemma digit_symbol_range d : 0 <= d < 36 -> 48 <= digit_symbol d < 123.
Proof. intros Hd. unfold digit_symbol. repeat case_bool; lia. Qed.

(** The digits of a number: none when they do not fit, otherwise those with its value and no
    leading zero. *)
Lemma uint_digits_spec base size : 2 <= base <= 36 -> forall fuel str v, 0 <= v < 2 ^ Z.of_nat fuel -> (0 < fuel)%nat ->
  (exists ds, uint_digits fuel size str v base = str ++ map digit_symbol ds /\ ds <> [] /\ Forall (fun d => 0 <= d < base) ds /\
    value base ds = v /\ (v <> 0 -> hd 0 (rev ds) <> 0) /\ (v = 0 -> ds = [0])) \/
  (uint_digits fuel size str v base = [] /\ exists n, size = Some n /\ n <= zlen str + Z.of_nat fuel).
Proof.
  intros Hb. induction fuel as [|fuel IH]; intros str v Hv Hf; [lia|]. cbn [uint_digits].
  destruct (match size with Some s => s <=? zlen str + 1 | None => false end) eqn:Es.
  { right. split; [done|]. destruct size as [s|]; [|done]. apply Z.leb_le in Es. exists s. split; [done|lia]. }
  pose proof (Z.mod_pos_bound v base ltac:(lia)) as Hm. pose proof (Z.div_mod v base ltac:(lia)) as Hd.
  pose proof (Z.div_pos v base ltac:(lia) ltac:(lia)) as Hq.
  unfold nz. destruct (Z.eqb_spec (v / base) 0) as [E0|E0]; cbn [negb].
  - left. exists [v mod base]. cbn. rewrite E0 in Hd. split_and!; [done|done|by constructor|lia|lia|]. intros ->. by rewrite Z.mod_0_l by lia.
  - assert (v / base < 2 ^ Z.of_nat fuel) as Hlt.
    { apply Z.div_lt_upper_bound; [lia|]. rewrite Nat2Z.inj_succ, Z.pow_succ_r in Hv by lia. nia. }
    destruct fuel as [|fuel]; [cbn in Hlt; lia|].
    destruct (IH (str ++ [digit_symbol (v mod base)]) (v / base)) as [(ds & -> & Hne & Hds & Hval & Hl & _)|(-> & n & Hn & Hle)]; [lia|lia| |].
    + left. exists (v mod base :: ds). rewrite <- app_assoc. split_and!; [done|done|by constructor| | |].
      * cbn [value foldr]. fold (value base ds). lia.
      * intros _. cbn [rev]. destruct (rev ds) as [|d l] eqn:Er; [by apply (f_equal (@rev Z)) in Er; rewrite rev_involutive in Er|]. by apply Hl.
      * intros ->. by rewrite Z.div_0_l in E0 by lia.
    + right. split; [done|]. exists n. split; [done|]. rewrite length_app in Hle. cbn [length] in Hle. lia.
Qed.

Lemma char_at_app pre c rest : char_at (pre ++ c :: rest) (length pre) = c.
Proof. unfold char_at. by rewrite list_lookup_middle. Qed.

Lemma digit_value_nul : digit_value 0 = 0xFFFFFFFF.
Proof. reflexivity. Qed.

(** Reading digits, the highest first. *)
Lemma str_to_uint_loop_spec base : 2 <= base <= 36 -> forall ds pre x fuel, Forall (fun d => 0 <= d < base) ds -> (length ds < fuel)%nat ->
  str_to_uint_loop fuel (pre ++ map digit_symbol ds) (u64 x) (length pre) base =
    (u64 (foldl (fun acc d => acc * base + d) x ds), (length pre + length ds)%nat).
Proof.
  intros Hb. induction ds as [|d ds IH]; intros pre x fuel Hds Hf; (destruct fuel as [|fuel]; [lia|]); cbn [str_to_uint_loop map].
  - rewrite app_nil_r. unfold char_at. rewrite lookup_ge_None_2 by lia. cbn [default from_option id]. rewrite digit_value_nul.
    destruct (Z.ltb_spec 0xFFFFFFFF base); [lia|]. cbn. f_equal. lia.
  - apply Forall_cons_1 in Hds as [Hd Hds]. cbn [length] in *. rewrite char_at_app, digit_value_symbol by lia.
    destruct (Z.ltb_spec d base); [|lia]. rewrite wrap_mul_l, wrap_add_l.
    specialize (IH (pre ++ [digit_symbol d]) (x * base + d) fuel Hds ltac:(lia)).
    rewrite length_app, <- app_assoc in IH. cbn [length app] in IH. rewrite Nat.add_1_r in IH. rewrite IH. cbn [foldl]. f_equal. lia.
Qed.

Lemma value_foldl base ds : foldl (fun acc d => acc * base + d) 0 (rev ds) = value base ds.
Proof. induction ds as [|d ds IH]; [done|]. cbn [rev value foldr]. rewrite foldl_app, IH. cbn. fold (value base ds). lia. Qed.

(** A printed number: its digits from the highest one on, or nothing when the buffer is too
    small. *)
Lemma uint_to_str_base_spec base size v : 2 <= base <= 36 -> urange 64 v ->
  (exists l, uint_to_str_base size v base = (map digit_symbol l, zlen l) /\ l <> [] /\ Forall (fun d => 0 <= d < base) l /\
    foldl (fun acc d => acc * base + d) 0 l = v /\ (v <> 0 -> hd 0 l <> 0) /\ (v = 0 -> l = [0])) \/
  (uint_to_str_base size v base = ([], 0) /\ exists n, size = Some n /\ n <= 64).
Proof.
  intros Hb Hv. unfold uint_to_str_base. destruct (Z.leb_spec 2 base); [|lia]. destruct (Z.leb_spec base 36); [|lia]. cbn [andb].
  rewrite reverse_loop_rev. destruct (uint_digits_spec base size Hb 64 [] v Hv ltac:(lia)) as [(ds & -> & Hne & Hds & Hval & Hl & Hz0)|(-> & n & Hn)].
  - left. exists (rev ds). cbn [app]. rewrite map_rev, length_map, length_rev. split_and!; [done| | |by rewrite value_foldl|done|by intros E; rewrite (Hz0 E)].
    + intros E. apply (f_equal (@rev Z)) in E. by rewrite rev_involutive in E.
    + by apply Forall_rev.
  - right. split; [done|]. by exists n.
Qed.

Lemma str_to_uint_digits base l : 2 <= base <= 36 -> l <> [] -> Forall (fun d => 0 <= d < base) l ->
  urange 64 (foldl (fun acc d => acc * base + d) 0 l) ->
  str_to_uint_base (map digit_symbol l) base = (foldl (fun acc d => acc * base + d) 0 l, zlen l).
Proof.
  intros Hb Hne Hl Hr. unfold str_to_uint_base. destruct (Z.eqb_spec base 0); [lia|].
  destruct (Z.leb_spec 2 base); [|lia]. destruct (Z.leb_spec base 36); [|lia]. cbn [andb].
  pose proof (str_to_uint_loop_spec base Hb l [] 0 (S (length (map digit_symbol l))) Hl) as E.
  rewrite length_map in *. cbn [app length] in E. change (u64 0) with 0 in E. rewrite E by lia. cbn [Nat.add].
  rewrite (wrap_small 64) by done. destruct l; [done|]. done.
Qed.

(** Numbers survive printing.  Whatever number is printed, in any base from 2 to 36, the
    string is empty when it does not fit into the buffer and is read back as that number
    otherwise; a buffer of 65 characters is enough for every number. *)
Theorem uint_str_roundtrip size v base : 2 <= base <= 36 -> urange 64 v ->
  let '(str, len) := uint_to_str_base (Some size) v base in
  len = zlen str /\ cstring str /\ (str = [] \/ str_to_uint_base str base = (v, len)) /\ (65 <= size -> str <> []).
Proof.
  intros Hb Hv. destruct (uint_to_str_base_spec base (Some size) v Hb Hv) as [(l & -> & Hne & Hl & Hval & _)|(-> & n & [= ->] & Hn)].
  - rewrite length_map. split_and!; [done| |right|by destruct l].
    + apply Forall_map. refine (Forall_impl _ _ Hl). intros d Hd. pose proof (digit_symbol_range d ltac:(lia)). cbn. lia.
    + rewrite str_to_uint_digits; rewrite ?Hval; done.
  - split_and!; [done|constructor|by left|lia].
Qed.

(** Decimal numbers with a sign are read back without naming the base: a leading zero, which
    would make them octal, is printed for zero only. *)
Lemma int_dec_roundtrip size v : 66 <= size -> - 2 ^ 63 < v < 2 ^ 63 -> str_to_int_dec (fst (int_to_str_dec (Some size) v)) = v.
Proof.
  intros Hs Hv. unfold int_to_str_dec, int_to_str_base, str_to_int_dec, str_to_int_base. cbn [option_map].
  set (sign := if v <? 0 then 1 else 0). set (a := Z.abs v).
  assert (u64 (if nz sign then - v else v) = a) as ->.
  { unfold sign, a. destruct (Z.ltb_spec v 0); cbn [nz negb Z.eqb]; rewrite wrap_small; unfold urange; lia. }
  assert (nz size = true) as -> by (unfold nz; destruct (Z.eqb_spec size 0); [lia|done]).
  assert (0 <= sign <= 1) by (unfold sign; case_bool; lia).
  destruct (uint_to_str_base_spec 10 (Some (size - sign)) a) as [(l & -> & Hne & Hl & Hval & Hz & Hz0)|(_ & n & [= <-] & Hn)]; [lia|unfold urange, a; lia| |lia].
  assert (nz (size - sign) = true) as -> by (unfold nz; destruct (Z.eqb_spec (size - sign) 0); [lia|done]).
  assert (fst (str_to_uint_base (map digit_symbol l) 0) = a /\ char_at (map digit_symbol l) 0 <> 45) as [Hr Hc].
  { destruct l as [|d l]; [done|]. apply Forall_cons_1 in Hl as Hd. destruct Hd as [Hd _]. cbn [hd] in Hz.
    pose proof (digit_symbol_range d ltac:(lia)). split; [|cbn; lia].
    unfold str_to_uint_base. rewrite Z.eqb_refl. change (char_at (map digit_symbol (d :: l)) 0) with (digit_symbol d).
    destruct (Z.eqb_spec (digit_symbol d) 48) as [E|E].
    - assert (a = 0) as Ha.
      { destruct (decide (a = 0)); [done|]. unfold digit_symbol in E. destruct (Z.ltb_spec d 10); [lia|]. destruct (Z.ltb_spec d 36); lia. }
      injection (Hz0 Ha) as -> ->. by rewrite Ha.
    - change (fst (str_to_uint_base (map digit_symbol (d :: l)) 10) = a).
      rewrite str_to_uint_digits; rewrite ?Hval; [done|lia|done|done|unfold urange, a; lia]. }
  unfold sign, a in *. destruct (Z.ltb_spec v 0) as [Hn|Hn]; cbn [nz negb Z.eqb fst].
  - change (char_at (45 :: map digit_symbol l) 0) with 45. rewrite Z.eqb_refl. change (drop 1 (45 :: map digit_symbol l)) with (map digit_symbol l).
    destruct (str_to_uint_base (map digit_symbol l) 0) as [val len]. cbn [fst] in *. subst val.
    rewrite signed_wrap, signed_small; [lia|lia|unfold srange; lia].
  - destruct (Z.eqb_spec (char_at (map digit_symbol l) 0) 45); [done|].
    destruct (str_to_uint_base (map digit_symbol l) 0) as [val len]. cbn [fst] in *. subst val.
    rewrite signed_small; [lia|lia|unfold srange; lia].
Qed.
