(* ===== verification/Ringbuf.v ===== *)
(** * FIFO ring buffer (src/util/ringbuf.c, ringbuf.h)

    The buffer is a memory, its size and two counters: [start], where the next byte is
    written, and [consumed], the number of bytes held.  The read position is computed from
    both.  The theorem relates every operation to a bounded queue of bytes. *)

From S2P Require Import Prelude BitOps MemOps.

Record ringbuf := mk_ringbuf { rb_data : memory; rb_size : Z; rb_start : Z; rb_consumed : Z }.

Definition ringbuf_create (size : Z) : ringbuf := mk_ringbuf (fun _ => 0) size 0 0.
Definition ringbuf_destroy (rb : ringbuf) : ringbuf := mk_ringbuf rb.(rb_data) 0 0 0.

Definition ringbuf_space (rb : ringbuf) : Z := u64 (rb.(rb_size) - rb.(rb_consumed)).
Definition ringbuf_avail (rb : ringbuf) : Z := rb.(rb_consumed).

Definition ringbuf_skip (rb : ringbuf) (len : Z) : ringbuf * Z :=
  let skip := EVAL_MIN len rb.(rb_consumed) in
  (mk_ringbuf rb.(rb_data) rb.(rb_size) rb.(rb_start) (u64 (rb.(rb_consumed) - skip)), skip).

Definition ringbuf_get_read_start (rb : ringbuf) : Z :=
  if rb.(rb_start) <? rb.(rb_consumed) then u64 (u64 (rb.(rb_size) - rb.(rb_consumed)) + rb.(rb_start))
  else u64 (rb.(rb_start) - rb.(rb_consumed)).

(** The result and the bytes copied to [data]. *)
Definition ringbuf_peek (rb : ringbuf) (len : Z) : Z * list Z :=
  let start := ringbuf_get_read_start rb in
  let ret := EVAL_MIN rb.(rb_consumed) len in
  let lhalf_len := EVAL_MIN (u64 (rb.(rb_size) - start)) ret in
  let lhalf := get_bytes (Z.to_nat lhalf_len) rb.(rb_data) start in
  if lhalf_len <? ret then
    let rhalf_len := u64 (ret - lhalf_len) in
    (ret, lhalf ++ get_bytes (Z.to_nat rhalf_len) rb.(rb_data) 0)
  else (ret, lhalf).

Definition ringbuf_read (rb : ringbuf) (len : Z) : ringbuf * (Z * list Z) :=
  let '(ret, data) := ringbuf_peek rb len in
  (fst (ringbuf_skip rb ret), (ret, data)).

(** [data] and its length. *)
Definition ringbuf_write (rb : ringbuf) (data : list Z) : ringbuf * Z :=
  let len := Z.of_nat (length data) in
  let ret := EVAL_MIN (u64 (rb.(rb_size) - rb.(rb_consumed))) len in
  let lhalf_len := EVAL_MIN (u64 (rb.(rb_size) - rb.(rb_start))) ret in
  let mem := put_bytes rb.(rb_data) rb.(rb_start) (take (Z.to_nat lhalf_len) data) in
  let '(mem, start) :=
    if lhalf_len <? ret then
      let rhalf_len := u64 (ret - lhalf_len) in
      (put_bytes mem 0 (take (Z.to_nat rhalf_len) (drop (Z.to_nat lhalf_len) data)), rhalf_len)
    else (mem, u64 (rb.(rb_start) + ret)) in
  (mk_ringbuf mem rb.(rb_size) start (u64 (rb.(rb_consumed) + ret)), ret).

(** [None]: [data] is not written. *)
Definition ringbuf_get (rb : ringbuf) (len : Z) : ringbuf * (bool * option (list Z)) :=
  if len <=? ringbuf_avail rb then
    let '(rb, (_, data)) := ringbuf_read rb len in (rb, (true, Some data))
  else (rb, (false, None)).

Definition ringbuf_put (rb : ringbuf) (data : list Z) : ringbuf * bool :=
  if Z.of_nat (length data) <=? ringbuf_space rb then (fst (ringbuf_write rb data), true)
  else (rb, false).

Definition ringbuf_put_u8 (rb : ringbuf) (x : Z) : ringbuf * bool := ringbuf_put rb (le_split 1 x).
Definition ringbuf_put_u16 (rb : ringbuf) (x : Z) : ringbuf * bool := ringbuf_put rb (le_split 2 x).
Definition ringbuf_put_u32 (rb : ringbuf) (x : Z) : ringbuf * bool := ringbuf_put rb (le_split 4 x).
Definition ringbuf_put_u64 (rb : ringbuf) (x : Z) : ringbuf * bool := ringbuf_put rb (le_split 8 x).
Definition ringbuf_get_int (n : nat) (rb : ringbuf) : ringbuf * option Z :=
  let '(rb, (_, data)) := ringbuf_get rb (Z.of_nat n) in (rb, le_combine <$> data).
Definition ringbuf_get_u8 : ringbuf -> ringbuf * option Z := ringbuf_get_int 1.
Definition ringbuf_get_u16 : ringbuf -> ringbuf * option Z := ringbuf_get_int 2.
Definition ringbuf_get_u32 : ringbuf -> ringbuf * option Z := ringbuf_get_int 4.
Definition ringbuf_get_u64 : ringbuf -> ringbuf * option Z := ringbuf_get_int 8.

(** ** Specification: a bounded queue *)

Inductive rb_cmd :=
| CWrite (data : list Z) | CPut (data : list Z)
| CRead (len : Z) | CPeek (len : Z) | CSkip (len : Z) | CGet (len : Z)
| CSpace | CAvail.

(** What a command returns: a number and the bytes it delivers. *)
Definition rb_exec (c : rb_cmd) (rb : ringbuf) : ringbuf * (Z * option (list Z)) :=
  match c with
  | CWrite data => let '(rb, n) := ringbuf_write rb data in (rb, (n, None))
  | CPut data => let '(rb, ok) := ringbuf_put rb data in (rb, (Z.b2z ok, None))
  | CRead len => let '(rb, (n, data)) := ringbuf_read rb len in (rb, (n, Some data))
  | CPeek len => let '(n, data) := ringbuf_peek rb len in (rb, (n, Some data))
  | CSkip len => let '(rb, n) := ringbuf_skip rb len in (rb, (n, None))
  | CGet len => let '(rb, (ok, data)) := ringbuf_get rb len in (rb, (Z.b2z ok, data))
  | CSpace => (rb, (ringbuf_space rb, None))
  | CAvail => (rb, (ringbuf_avail rb, None))
  end.

Fixpoint rb_run (cs : list rb_cmd) (rb : ringbuf) : list (Z * option (list Z)) :=
  match cs with
  | [] => []
  | c :: cs => let '(rb, r) := rb_exec c rb in r :: rb_run cs rb
  end.

(** The same commands on a list of bytes with capacity [cap]. *)
Definition q_exec (cap : Z) (c : rb_cmd) (q : list Z) : list Z * (Z * option (list Z)) :=
  let used := Z.of_nat (length q) in
  let front len := take (Z.to_nat len) q in
  let rest len := drop (Z.to_nat len) q in
  match c with
  | CWrite data => let n := Z.min (cap - used) (Z.of_nat (length data)) in (q ++ take (Z.to_nat n) data, (n, None))
  | CPut data => if Z.of_nat (length data) <=? cap - used then (q ++ data, (1, None)) else (q, (0, None))
  | CRead len => (rest len, (Z.min used len, Some (front len)))
  | CPeek len => (q, (Z.min used len, Some (front len)))
  | CSkip len => (rest len, (Z.min used len, None))
  | CGet len => if len <=? used then (rest len, (1, Some (front len))) else (q, (0, None))
  | CSpace => (q, (cap - used, None))
  | CAvail => (q, (used, None))
  end.

Fixpoint q_run (cap : Z) (cs : list rb_cmd) (q : list Z) : list (Z * option (list Z)) :=
  match cs with
  | [] => []
  | c :: cs => let '(q, r) := q_exec cap c q in r :: q_run cap cs q
  end.

(** Lengths are values of [size_t]. *)
Definition cmd_ok (c : rb_cmd) : Prop :=
  match c with
  | CWrite data | CPut data => Z.of_nat (length data) < 2 ^ 64
  | CRead len | CPeek len | CSkip len | CGet len => urange 64 len
  | CSpace | CAvail => True
  end.

(** ** Invariant and contents *)

Record rb_wf (rb : ringbuf) : Prop := mk_rb_wf {
  rb_wf_size : 0 < rb.(rb_size) < 2 ^ 63;
  rb_wf_start : 0 <= rb.(rb_start) <= rb.(rb_size);
  rb_wf_consumed : 0 <= rb.(rb_consumed) <= rb.(rb_size)
}.

(** The bytes held, oldest first: [consumed] bytes that end before [start], around the end. *)
Definition rb_contents (rb : ringbuf) : list Z :=
  get_bytes (Z.to_nat rb.(rb_consumed)) (fun i => rb.(rb_data) (i mod rb.(rb_size)))
    (rb.(rb_start) - rb.(rb_consumed)).

(** ** Lemmas *)

Lemma mod_once a s : 0 <= a < 2 * s -> a mod s = if a <? s then a else a - s.
Proof.
  intros. destruct (Z.ltb_spec a s); [apply Z.mod_small; lia|].
  symmetry. apply (Z.mod_unique _ _ 1); lia.
Qed.

Lemma get_bytes_take n k m a : (n <= k)%nat -> take n (get_bytes k m a) = get_bytes n m a.
Proof.
  intros. replace k with (n + (k - n))%nat by lia. rewrite get_bytes_app, take_app_length'; [done|].
  by rewrite length_get_bytes.
Qed.

Lemma get_bytes_drop n k m a : drop n (get_bytes k m a) = get_bytes (k - n) m (a + Z.of_nat n).
Proof.
  destruct (Nat.le_gt_cases n k).
  - replace k with (n + (k - n))%nat at 1 by lia. rewrite get_bytes_app, drop_app_length'; [done|].
    by rewrite length_get_bytes.
  - rewrite drop_ge by (rewrite length_get_bytes; lia). by replace (k - n)%nat with 0%nat by lia.
Qed.

Section Ring.
Variable rb : ringbuf.
Hypothesis Hwf : rb_wf rb.

Local Abbreviation size := rb.(rb_size).
Local Abbreviation start := rb.(rb_start).
Local Abbreviation used := rb.(rb_consumed).
Local Abbreviation ring := (fun i => rb.(rb_data) (i mod rb.(rb_size))).

Lemma length_contents : Z.of_nat (length (rb_contents rb)) = used.
Proof. destruct Hwf. unfold rb_contents. rewrite length_get_bytes. lia. Qed.

Lemma space_eq : ringbuf_space rb = size - used.
Proof. destruct Hwf. apply wrap_small. unfold urange. lia. Qed.

Lemma read_start_eq : ringbuf_get_read_start rb = if start <? used then size - used + start else start - used.
Proof.
  destruct Hwf. unfold ringbuf_get_read_start. rewrite (wrap_small 64 (size - used)) by (unfold urange; lia).
  destruct (Z.ltb_spec start used); apply wrap_small; unfold urange; lia.
Qed.

(** Reading around the end of the buffer is two copies. *)
Lemma ring_split p n : 0 <= p <= size -> 0 <= n <= size ->
  get_bytes (Z.to_nat n) ring p =
  get_bytes (Z.to_nat (Z.min (size - p) n)) rb.(rb_data) p ++
  get_bytes (Z.to_nat (n - Z.min (size - p) n)) rb.(rb_data) 0.
Proof using.
  intros Hp Hn. replace (Z.to_nat n) with (Z.to_nat (Z.min (size - p) n) + Z.to_nat (n - Z.min (size - p) n))%nat by lia.
  rewrite get_bytes_app. f_equal; apply get_bytes_ext; intros i Hi; f_equal; rewrite mod_once by lia;
    case_bool; lia.
Qed.

Lemma ring_shift p n : get_bytes n ring (p + size) = get_bytes n ring p.
Proof.
  destruct Hwf. apply get_bytes_ext. intros i Hi. f_equal.
  replace (p + size + i) with (p + i + 1 * size) by lia. apply Z_mod_plus_full.
Qed.

Lemma ring_read_start n : get_bytes n ring (start - used) = get_bytes n ring (ringbuf_get_read_start rb).
Proof.
  rewrite read_start_eq. destruct (Z.ltb_spec start used); [|done].
  rewrite <- ring_shift. f_equal. lia.
Qed.

Lemma peek_eq len : 0 <= len -> ringbuf_peek rb len =
  (Z.min used len, take (Z.to_nat len) (rb_contents rb)).
Proof.
  intros Hl. destruct Hwf. assert (0 <= ringbuf_get_read_start rb <= size) as Hrs.
  { rewrite read_start_eq. case_bool; lia. }
  assert (take (Z.to_nat len) (rb_contents rb) = get_bytes (Z.to_nat (Z.min used len)) ring (ringbuf_get_read_start rb)) as ->.
  { unfold rb_contents. rewrite <- ring_read_start. destruct (Z.le_ge_cases used len).
    - rewrite take_ge by (rewrite length_get_bytes; lia). by rewrite Z.min_l by lia.
    - by rewrite Z.min_r, get_bytes_take by lia. }
  unfold ringbuf_peek. rewrite !eval_min. generalize dependent (ringbuf_get_read_start rb). intros p Hp.
  rewrite (wrap_small 64 (size - p)) by (unfold urange; lia). rewrite ring_split by lia.
  destruct (Z.ltb_spec (Z.min (size - p) (Z.min used len)) (Z.min used len)).
  - rewrite wrap_small by (unfold urange; lia). done.
  - replace (Z.min used len - _) with 0 by lia. by rewrite app_nil_r.
Qed.

Lemma skip_eq len : 0 <= len ->
  let '(rb', n) := ringbuf_skip rb len in
  n = Z.min used len /\ rb_wf rb' /\ rb'.(rb_size) = size /\ rb_contents rb' = drop (Z.to_nat len) (rb_contents rb).
Proof.
  intros Hl. destruct Hwf. unfold ringbuf_skip. rewrite eval_min, wrap_small by (unfold urange; lia).
  split_and!; [lia|constructor; cbn; lia|done|]. unfold rb_contents. cbn. rewrite get_bytes_drop.
  destruct (Z.le_ge_cases used len).
  - rewrite Z.min_r by lia. by replace (Z.to_nat used - Z.to_nat len)%nat with 0%nat by lia; replace (used - used) with 0 by lia.
  - rewrite Z.min_l by lia. f_equal; lia.
Qed.

(** The memory and the new [start] after copying [l] behind [start], around the end. *)
Definition ring_put (l : list Z) : memory :=
  let k := Z.to_nat (Z.min (size - start) (Z.of_nat (length l))) in
  put_bytes (put_bytes rb.(rb_data) start (take k l)) 0 (drop k l).

Lemma ring_put_new l i : Z.of_nat (length l) <= size -> 0 <= i < Z.of_nat (length l) ->
  ring_put l ((start + i) mod size) = nth (Z.to_nat i) l 0.
Proof.
  intros Hl Hi. destruct Hwf. unfold ring_put. rewrite mod_once by lia.
  rewrite !put_bytes_lookup, List.length_skipn, List.length_firstn, nth_firstn, nth_skipn.
  destruct (Z.ltb_spec (start + i) size).
  - destruct (Z.leb_spec 0 (start + i)); [|lia].
    destruct (Z.ltb_spec (start + i) (0 + Z.of_nat (length l - Z.to_nat (Z.min (size - start) (Z.of_nat (length l)))))); [lia|].
    cbn [andb]. destruct (Z.leb_spec start (start + i)), (Z.ltb_spec (start + i) (start + Z.of_nat (Z.to_nat (Z.min (size - start) (Z.of_nat (length l))) `min` length l))); try lia.
    cbn [andb]. replace (start + i - start) with i by lia. destruct (Nat.ltb_spec (Z.to_nat i) (Z.to_nat (Z.min (size - start) (Z.of_nat (length l))))); [done|lia].
  - destruct (Z.leb_spec 0 (start + i - size)); [|lia].
    destruct (Z.ltb_spec (start + i - size) (0 + Z.of_nat (length l - Z.to_nat (Z.min (size - start) (Z.of_nat (length l)))))); [|lia].
    cbn [andb]. f_equal. lia.
Qed.

Lemma ring_put_old l i : 0 <= i -> Z.of_nat (length l) + i <= size -> 0 < i ->
  ring_put l ((start - i) mod size) = rb.(rb_data) ((start - i) mod size).
Proof.
  intros Hi Hl Hp. destruct Hwf. assert ((start - i) mod size = if start - i <? 0 then start - i + size else start - i) as ->.
  { rewrite <- (Z_mod_plus_full (start - i) 1 size). destruct (Z.ltb_spec (start - i) 0).
    - rewrite mod_once by lia. case_bool; lia.
    - rewrite mod_once by lia. case_bool; lia. }
  unfold ring_put. rewrite !put_bytes_outside; [done|..]; rewrite ?List.length_skipn, ?List.length_firstn; case_bool; lia.
Qed.

Lemma get_bytes_nth n m a l : length l = n -> (forall i, 0 <= i < Z.of_nat n -> m (a + i) = nth (Z.to_nat i) l 0) ->
  get_bytes n m a = l.
Proof using.
  revert n a. induction l as [|b l IH]; intros n a <- Hm; [done|]. cbn [length get_bytes]. f_equal.
  - rewrite <- (Z.add_0_r a). rewrite Hm by (cbn; lia). done.
  - apply IH; [done|]. intros i Hi. replace (a + 1 + i) with (a + (i + 1)) by lia. rewrite Hm by (cbn; lia).
    replace (Z.to_nat (i + 1)) with (S (Z.to_nat i)) by lia. done.
Qed.

Lemma write_eq data : Z.of_nat (length data) < 2 ^ 64 ->
  let ret := Z.min (size - used) (Z.of_nat (length data)) in
  let '(rb', n) := ringbuf_write rb data in
  n = ret /\ rb_wf rb' /\ rb'.(rb_size) = size /\
  rb_contents rb' = rb_contents rb ++ take (Z.to_nat ret) data.
Proof.
  intros Hd. destruct Hwf. cbv zeta. set (l := take (Z.to_nat (Z.min (size - used) (Z.of_nat (length data)))) data).
  assert (Z.of_nat (length l) = Z.min (size - used) (Z.of_nat (length data))) as Hlen.
  { unfold l. rewrite length_take. lia. }
  assert (exists st, 0 <= st <= size /\ (start + Z.of_nat (length l) - st = 0 \/ start + Z.of_nat (length l) - st = size) /\
    ringbuf_write rb data = (mk_ringbuf (ring_put l) size st (used + Z.of_nat (length l)), Z.of_nat (length l))) as (st & Hst & Hmod & ->).
  { unfold ringbuf_write. rewrite !eval_min, !(wrap_small 64 (size - _)) by (unfold urange; lia). rewrite <- Hlen.
    rewrite (wrap_small 64 (used + _)) by (unfold urange; lia). unfold ring_put.
    set (k := Z.min (size - start) (Z.of_nat (length l))). assert (k = Z.min (size - start) (Z.of_nat (length l))) as Hk by done.
    assert (take (Z.to_nat k) data = take (Z.to_nat k) l) as -> by (unfold l; rewrite take_take; f_equal; lia).
    destruct (Z.ltb_spec k (Z.of_nat (length l))).
    - rewrite (wrap_small 64 (_ - k)) by (unfold urange; lia). exists (Z.of_nat (length l) - k).
      split; [lia|split; [lia|]]. do 3 f_equal. unfold l. rewrite skipn_firstn_comm. f_equal. fold l. lia.
    - rewrite (wrap_small 64) by (unfold urange; lia). exists (start + Z.of_nat (length l)).
      split; [lia|split; [lia|]]. by rewrite drop_ge by lia. }
  split_and!; [lia|constructor; cbn; lia|done|]. unfold rb_contents. cbn.
  replace (Z.to_nat (used + Z.of_nat (length l))) with (Z.to_nat used + length l)%nat by lia.
  assert (forall z, (st - (used + Z.of_nat (length l)) + z) mod size = (start - used + z) mod size) as Hz.
  { intros z. destruct Hmod.
    - f_equal. lia.
    - rewrite <- (Z_mod_plus_full (st - _ + z) 1). f_equal. lia. }
  rewrite get_bytes_app. f_equal.
  - apply get_bytes_ext. intros i Hi. rewrite Hz. replace (start - used + i) with (start - (used - i)) by lia.
    apply ring_put_old; lia.
  - apply get_bytes_nth; [done|]. intros i Hi. rewrite <- ring_put_new by lia. rewrite <- Z.add_assoc, Hz. do 2 f_equal. lia.
Qed.

End Ring.

(** ** Refinement *)

Lemma rb_exec_refines c rb : rb_wf rb -> cmd_ok c ->
  let '(rb', r) := rb_exec c rb in
  rb_wf rb' /\ rb'.(rb_size) = rb.(rb_size) /\ (rb_contents rb', r) = q_exec rb.(rb_size) c (rb_contents rb).
Proof.
  intros Hwf Hc. pose proof (length_contents rb Hwf) as Hlen.
  destruct c as [data|data|len|len|len|len| |]; cbn [rb_exec q_exec cmd_ok] in *; unfold urange in Hc; rewrite ?Hlen.
  - pose proof (write_eq rb Hwf data Hc) as Hw. cbv zeta in Hw.
    destruct (ringbuf_write rb data) as [rb' n]. destruct Hw as (-> & ? & ? & ->). done.
  - pose proof (write_eq rb Hwf data Hc) as Hw. cbv zeta in Hw. unfold ringbuf_put. rewrite space_eq by done.
    destruct (Z.leb_spec (Z.of_nat (length data)) (rb_size rb - rb_consumed rb)); [|done].
    destruct (ringbuf_write rb data) as [rb' n]. destruct Hw as (_ & ? & ? & E). cbn [fst Z.b2z].
    split_and!; [done..|]. rewrite E. by rewrite take_ge by lia.
  - unfold ringbuf_read. rewrite peek_eq by (done || lia).
    pose proof (skip_eq rb Hwf (Z.min (rb_consumed rb) len) ltac:(destruct Hwf; lia)) as Hs.
    destruct (ringbuf_skip rb _) as [rb' n]. destruct Hs as (_ & ? & ? & E). cbn [fst]. split_and!; [done..|].
    rewrite E. f_equal. destruct (Z.le_ge_cases (rb_consumed rb) len).
    + rewrite !drop_ge by lia. done.
    + f_equal. lia.
  - rewrite peek_eq by (done || lia). done.
  - pose proof (skip_eq rb Hwf len ltac:(lia)) as Hs. destruct (ringbuf_skip rb len) as [rb' n].
    destruct Hs as (-> & ? & ? & ->). done.
  - unfold ringbuf_get, ringbuf_avail. destruct (Z.leb_spec len (rb_consumed rb)); [|done].
    unfold ringbuf_read. rewrite peek_eq by (done || lia).
    pose proof (skip_eq rb Hwf (Z.min (rb_consumed rb) len) ltac:(lia)) as Hs.
    destruct (ringbuf_skip rb _) as [rb' n]. destruct Hs as (_ & ? & ? & E). cbn [fst Z.b2z]. split_and!; [done..|].
    rewrite E. by rewrite Z.min_r by lia.
  - rewrite space_eq by done. done.
  - done.
Qed.

(** The buffer after a sequence of operations, and the queue after the same ones. *)
Definition rb_after (cs : list rb_cmd) (rb : ringbuf) : ringbuf := fold_left (fun rb c => fst (rb_exec c rb)) cs rb.
Definition q_after (size : Z) (cs : list rb_cmd) (q : list Z) : list Z := fold_left (fun q c => fst (q_exec size c q)) cs q.

Lemma rb_run_refines cs rb : rb_wf rb -> Forall cmd_ok cs ->
  rb_run cs rb = q_run rb.(rb_size) cs (rb_contents rb) /\ rb_wf (rb_after cs rb) /\
  (rb_after cs rb).(rb_size) = rb.(rb_size) /\ rb_contents (rb_after cs rb) = q_after rb.(rb_size) cs (rb_contents rb).
Proof.
  intros Hwf Hc. revert rb Hwf. induction Hc as [|c cs Hc _ IH]; intros rb Hwf; [done|]. cbn [rb_run q_run].
  unfold rb_after, q_after. cbn [fold_left]. fold (rb_after cs (fst (rb_exec c rb))).
  pose proof (rb_exec_refines c rb Hwf Hc) as Hr. destruct (rb_exec c rb) as [rb' r]. destruct Hr as (Hwf' & Es & E).
  rewrite <- E. cbn [fst]. destruct (IH rb' Hwf') as (-> & Hw & Hs & Hcs). rewrite Hs, Es in *. by split_and!.
Qed.

(** C30: the ring buffer is a bounded FIFO queue.  Any sequence of writes, puts, reads, peeks,
    skips, gets and size queries on a new buffer of [size] bytes returns exactly what it
    returns on a list of bytes of that capacity: data comes out in the order it went in,
    partial operations move as much as fits, all-or-nothing operations fail without effect.
    Afterwards the positions are inside of the buffer, which has the size it was created with
    and holds the bytes that are in the list. *)
Theorem ringbuf_refines_queue size cs : 0 < size < 2 ^ 63 -> Forall cmd_ok cs ->
  rb_run cs (ringbuf_create size) = q_run size cs [] /\ rb_wf (rb_after cs (ringbuf_create size)) /\
  (rb_after cs (ringbuf_create size)).(rb_size) = size /\ rb_contents (rb_after cs (ringbuf_create size)) = q_after size cs [].
Proof. intros Hs Hc. apply (rb_run_refines cs (ringbuf_create size)); [constructor; cbn; lia|done]. Qed.

(** A buffer of four bytes that wraps around. *)
Lemma ringbuf_refines_queue_witness :
  rb_run [CPut [1; 2; 3]; CRead 2; CWrite [4; 5; 6; 7]; CPut [8]; CGet 4; CAvail] (ringbuf_create 4) =
    [(1, None); (2, Some [1; 2]); (3, None); (0, None); (1, Some [3; 4; 5; 6]); (0, None)].
Proof.
  refine (proj1 (ringbuf_refines_queue 4 [CPut [1; 2; 3]; CRead 2; CWrite [4; 5; 6; 7]; CPut [8]; CGet 4; CAvail] _ _)).
  - split; reflexivity.
  - repeat constructor; discriminate.
Defined.

(** Round trip of an integer through the buffer. *)
Lemma ringbuf_u32_roundtrip rb x : rb_wf rb -> rb_contents rb = [] -> 4 <= rb.(rb_size) -> urange 32 x ->
  snd (ringbuf_get_u32 (fst (ringbuf_put_u32 rb x))) = Some x.
Proof.
  intros Hwf He Hs Hx. pose proof (rb_exec_refines (CPut (le_split 4 x)) rb Hwf) as Hp.
  cbn [rb_exec cmd_ok q_exec] in Hp. rewrite He, length_le_split in Hp. cbn [length] in Hp.
  unfold ringbuf_put_u32. destruct (ringbuf_put rb (le_split 4 x)) as [rb1 ok].
  destruct Hp as (Hwf1 & Es & E); [done|]. destruct (Z.leb_spec (Z.of_nat 4) (rb_size rb - Z.of_nat 0)); [|lia].
  apply (f_equal fst) in E. cbn [fst app] in *. unfold ringbuf_get_u32, ringbuf_get_int.
  pose proof (rb_exec_refines (CGet (Z.of_nat 4)) rb1 Hwf1) as Hg. cbn [rb_exec cmd_ok q_exec] in Hg.
  rewrite E, length_le_split in Hg. destruct (ringbuf_get rb1 (Z.of_nat 4)) as [rb2 [ok2 d]].
  destruct Hg as (_ & _ & Eg); [done|]. destruct (Z.leb_spec (Z.of_nat 4) (Z.of_nat 4)); [|lia].
  apply (f_equal (fun p => snd (snd p))) in Eg. cbn [snd] in Eg. rewrite Eg. cbn [fmap option_fmap option_map snd]. f_equal.
  rewrite (take_ge (le_split 4 x)) by (rewrite length_le_split; lia). rewrite le_combine_split. by apply wrap_small.
Qed.
