(* ===== verification/Hashmap.v ===== *)
(** * Open-addressing hash map (src/util/hashmap.c, hashmap.h)

    A table of cells with linear probing: a key is at most 255 cells behind its home cell,
    with no empty cell in between.  Erasing closes the gap by moving later cells back, the
    table shrinks when it is mostly empty and grows when 256 probes find no place.  Theorem:
    the map is a finite map, and as long as it holds fewer than 256 keys no operation fails. *)

From stdpp Require Import gmap.
From S2P Require Import Prelude BitOps.

Definition HASHMAP_MAX_PROBES : nat := 256.

Record hashmap_cell := mk_cell { cell_key : Z; cell_val : Z }.

(** [hm_data] is [None] for a null pointer; a value 0 is the null pointer of an empty cell. *)
Record hashmap := mk_hashmap { hm_data : option (Z -> hashmap_cell); hm_mask : Z; hm_count : Z }.

Definition hashmap_hash (k : Z) : Z :=
  let k := k .^ u64 (k .<< 21) in
  let k := k .^ (k .>> 17) in
  let k := k .^ (k .>> 35) in
  k .^ (k .>> 51).

Definition hashmap_init : hashmap := mk_hashmap None 0 0.
Definition hashmap_free (map : hashmap) : hashmap := mk_hashmap None 0 0.
Definition hashmap_size (map : hashmap) : Z := map.(hm_count).
Definition hashmap_capacity (map : hashmap) : Z := u64 (map.(hm_mask) + 1).

Definition home (mask key : Z) : Z := hashmap_hash key .& mask.
Definition set_val (data : Z -> hashmap_cell) (index val : Z) : Z -> hashmap_cell :=
  <[index := mk_cell (data index).(cell_key) val]> data.

(** [hashmap_rebalance_internal] after its first assignment: [index] is the gap, and one step
    is one iteration of the inner loop, with what the outer loop does when it is left. *)
Fixpoint rebalance_loop (fuel : nat) (data : Z -> hashmap_cell) (mask index j : Z) : option (Z -> hashmap_cell) :=
  match fuel with
  | O => None
  | S fuel =>
      let j := u64 (j + 1) .& mask in
      if (data j).(cell_val) =? 0 then Some data
      else
        let k := home mask (data j).(cell_key) in
        if (if index <=? j then (index <? k) && (k <=? j) else (index <? k) || (k <=? j))
        then rebalance_loop fuel data mask index j
        else
          let data := <[index := data j]> data in
          rebalance_loop fuel (set_val data j 0) mask j j
  end.

(** At most one round per unit of displacement. *)
Definition rebalance_fuel (mask : Z) : nat := Z.to_nat ((mask + 1) * ((mask + 1) * (mask + 1) + 1)).

Definition hashmap_rebalance_internal (data : Z -> hashmap_cell) (mask index : Z) : option (Z -> hashmap_cell) :=
  rebalance_loop (rebalance_fuel mask) (set_val data index 0) mask index index.

(** Where the probe loop ends. *)
Inductive probe := PEmpty (index : Z) | PMatch (index : Z) | PFull.

Fixpoint hashmap_probe (fuel : nat) (data : Z -> hashmap_cell) (mask hash key i : Z) : probe :=
  match fuel with
  | O => PFull
  | S fuel =>
      let index := u64 (hash + i) .& mask in
      if (data index).(cell_val) =? 0 then PEmpty index
      else if (data index).(cell_key) =? key then PMatch index
      else hashmap_probe fuel data mask hash key (i + 1)
  end.

Fixpoint hashmap_get_loop (fuel : nat) (data : Z -> hashmap_cell) (mask hash key i : Z) : Z :=
  match fuel with
  | O => 0
  | S fuel =>
      let index := u64 (hash + i) .& mask in
      if ((data index).(cell_key) =? key) || ((data index).(cell_val) =? 0) then (data index).(cell_val)
      else hashmap_get_loop fuel data mask hash key (i + 1)
  end.

Definition hashmap_get_internal (map : hashmap) (hash key : Z) : Z :=
  match map.(hm_data) with
  | Some data => hashmap_get_loop HASHMAP_MAX_PROBES data map.(hm_mask) hash key 0
  | None => 0
  end.

Definition hashmap_get_ptr (map : hashmap) (key : Z) : Z :=
  let hash := hashmap_hash key in
  match map.(hm_data) with
  | Some data =>
      let index := hash .& map.(hm_mask) in
      if (data index).(cell_key) =? key then (data index).(cell_val)
      else if negb ((data index).(cell_val) =? 0) then hashmap_get_internal map hash key
      else 0
  | None => 0
  end.

(** ** Insertion and erasure

    Growing inserts into a new table, which may have to grow itself.  [put] is the recursive
    call of [hashmap_put_ptr]; [None] is the abort on a failed allocation of more than
    [max_cells] cells (or fuel that ran out). *)

Section Put.
Variable max_cells : Z.

Definition hashmap_resize (put : hashmap -> Z -> Z -> option hashmap) (map : hashmap) (size : Z) : option hashmap :=
  let size := bit_next_pow2 (EVAL_MAX size 16) in
  if size <=? max_cells then
    let tmp := mk_hashmap (Some (fun _ => mk_cell 0 0)) (u64 (size - 1)) 0 in
    match map.(hm_data) with
    | Some data =>
        fold_left (fun tmp i => tmp ← tmp; if (data i).(cell_val) =? 0 then Some tmp else put tmp (data i).(cell_key) (data i).(cell_val))
          (seqZ 0 (map.(hm_mask) + 1)) (Some tmp)
    | None => Some tmp
    end
  else None.

Definition hashmap_put_internal (put : hashmap -> Z -> Z -> option hashmap) (map : hashmap) (hash key val : Z) : option hashmap :=
  let grow := map ← hashmap_resize put map (u64 (hashmap_capacity map .<< 1)); put map key val in
  match map.(hm_data) with
  | Some data =>
      match hashmap_probe HASHMAP_MAX_PROBES data map.(hm_mask) hash key 0 with
      | PEmpty index =>
          if negb (val =? 0) then Some (mk_hashmap (Some (<[index := mk_cell key val]> data)) map.(hm_mask) (u64 (map.(hm_count) + 1)))
          else Some map
      | PMatch index =>
          let data := set_val data index val in
          if val =? 0 then
            let map := mk_hashmap (Some data) map.(hm_mask) (u64 (map.(hm_count) - 1)) in
            if map.(hm_count) =? 0 then Some (hashmap_free map)
            else if map.(hm_count) <? hashmap_capacity map .>> 2 then hashmap_resize put map (hashmap_capacity map .>> 1)
            else
              data ← hashmap_rebalance_internal data map.(hm_mask) index;
              Some (mk_hashmap (Some data) map.(hm_mask) map.(hm_count))
          else Some (mk_hashmap (Some data) map.(hm_mask) map.(hm_count))
      | PFull => grow
      end
  | None => grow
  end.

Definition hashmap_put_body (put : hashmap -> Z -> Z -> option hashmap) (map : hashmap) (key val : Z) : option hashmap :=
  let hash := hashmap_hash key in
  match map.(hm_data) with
  | Some data =>
      let index := hash .& map.(hm_mask) in
      if (data index).(cell_val) =? 0 then
        if negb (val =? 0) then Some (mk_hashmap (Some (<[index := mk_cell key val]> data)) map.(hm_mask) (u64 (map.(hm_count) + 1)))
        else Some map
      else if ((data index).(cell_key) =? key) && negb (val =? 0) then
        Some (mk_hashmap (Some (set_val data index val)) map.(hm_mask) map.(hm_count))
      else hashmap_put_internal put map hash key val
  | None => hashmap_put_internal put map hash key val
  end.

(** [fuel] bounds how often tables under construction have to grow. *)
Fixpoint hashmap_put_ptr (fuel : nat) : hashmap -> Z -> Z -> option hashmap :=
  match fuel with
  | O => fun _ _ _ => None
  | S fuel => hashmap_put_body (hashmap_put_ptr fuel)
  end.

Definition hashmap_erase (fuel : nat) (map : hashmap) (key : Z) : option hashmap := hashmap_put_ptr fuel map key 0.

End Put.

(** ** Sums *)

Fixpoint sumZ (f : Z -> Z) (m : nat) : Z := match m with O => 0 | S m => sumZ f m + f (Z.of_nat m) end.

Lemma sumZ_ext f h m : (forall p, 0 <= p < Z.of_nat m -> f p = h p) -> sumZ f m = sumZ h m.
Proof. induction m as [|m IH]; intros E; [done|]. cbn [sumZ]. rewrite IH, E by (intros; apply E || lia; lia). done. Qed.

Lemma sumZ_bound f m b : (forall p, 0 <= f p <= b) -> 0 <= sumZ f m <= Z.of_nat m * b.
Proof. intros Hf. induction m as [|m IH]; [cbn; lia|]. cbn [sumZ]. pose proof (Hf (Z.of_nat m)). lia. Qed.

Lemma sumZ_upd f m p v : 0 <= p < Z.of_nat m -> sumZ (<[p := v]> f) m = sumZ f m - f p + v.
Proof.
  induction m as [|m IH]; intros Hp; [lia|]. cbn [sumZ]. destruct (Z.eq_dec p (Z.of_nat m)) as [->|].
  - rewrite fupd_eq. rewrite (sumZ_ext _ f); [lia|]. intros q Hq. apply fupd_ne. lia.
  - rewrite IH, fupd_ne by lia. lia.
Qed.

(** ** Tables *)

Section Table.
Variable n : Z.
Hypothesis Hn : 0 <= n <= 60.

Local Abbreviation N := (2 ^ n).
Local Abbreviation mask := (2 ^ n - 1).

Lemma N_pos : 0 < N.
Proof. apply Z.pow_pos_nonneg; lia. Qed.

(** The cell [i] steps behind the home of a key. *)
Definition slot (key i : Z) : Z := (hashmap_hash key + i) mod N.

Lemma land_mask x : u64 x .& mask = x mod N.
Proof.
  replace mask with (Z.ones n) by (rewrite Z.ones_equiv; lia). rewrite Z.land_ones by lia. apply (wrap_wrap_le n 64). lia.
Qed.

Lemma home_slot key : home mask key = slot key 0.
Proof.
  unfold home, slot. replace mask with (Z.ones n) by (rewrite Z.ones_equiv; lia). by rewrite Z.land_ones, Z.add_0_r by lia.
Qed.

Lemma slot_range key i : 0 <= slot key i < N.
Proof. apply Z.mod_pos_bound, N_pos. Qed.

Lemma slot_inj key i j : 0 <= i < N -> 0 <= j < N -> slot key i = slot key j -> i = j.
Proof.
  intros Hi Hj E. unfold slot in E. pose proof N_pos.
  assert ((i - j) mod N = 0) as Hz.
  { replace (i - j) with ((hashmap_hash key + i) - (hashmap_hash key + j)) by lia. rewrite Zminus_mod, E, Z.sub_diag. apply Z.mod_0_l. lia. }
  apply Z.mod_divide in Hz as [q Hq]; [|lia].
  assert (q = 0) as ->; [|lia]. clear E. generalize dependent (2 ^ n). intros m Hi Hj Hm Hq. nia.
Qed.

Lemma slot_wrap key i : slot key (i + N) = slot key i.
Proof. unfold slot. replace (hashmap_hash key + (i + N)) with (hashmap_hash key + i + 1 * N) by lia. apply Z_mod_plus_full. Qed.

(** How far a cell is behind the home of a key. *)
Lemma slot_dist key p : 0 <= p < N -> p = slot key ((p - hashmap_hash key) mod N).
Proof.
  intros Hp. unfold slot. pose proof N_pos. rewrite Zplus_mod_idemp_r.
  replace (hashmap_hash key + (p - hashmap_hash key)) with p by lia. symmetry. by apply Z.mod_small.
Qed.

(** What the cells of a table represent. *)
Record rep (data : Z -> hashmap_cell) (g : gmap Z Z) : Prop := mk_rep {
  rep_cell : forall p, 0 <= p < N -> (data p).(cell_val) <> 0 -> g !! (data p).(cell_key) = Some (data p).(cell_val);
  rep_found : forall k v, g !! k = Some v -> v <> 0 /\ exists d, 0 <= d < 256 /\ d < N /\
    data (slot k d) = mk_cell k v /\ forall i, 0 <= i < d -> (data (slot k i)).(cell_val) <> 0;
  rep_uniq : forall p q, 0 <= p < N -> 0 <= q < N -> (data p).(cell_val) <> 0 -> (data q).(cell_val) <> 0 ->
    (data p).(cell_key) = (data q).(cell_key) -> p = q
}.

(** ** Probing *)

(** Cells [i] to [j] behind home are taken by other keys. *)
Definition others (data : Z -> hashmap_cell) (key i j : Z) : Prop :=
  forall x, i <= x < j -> (data (slot key x)).(cell_val) <> 0 /\ (data (slot key x)).(cell_key) <> key.

Lemma probe_spec data key fuel : forall i,
  match hashmap_probe fuel data mask (hashmap_hash key) key i with
  | PEmpty p => exists j, i <= j < i + Z.of_nat fuel /\ p = slot key j /\ (data p).(cell_val) = 0 /\ others data key i j
  | PMatch p => exists j, i <= j < i + Z.of_nat fuel /\ p = slot key j /\ (data p).(cell_val) <> 0 /\ (data p).(cell_key) = key /\ others data key i j
  | PFull => others data key i (i + Z.of_nat fuel)
  end.
Proof.
  induction fuel as [|fuel IH]; intros i; cbn [hashmap_probe]; [intros x Hx; lia|].
  rewrite land_mask. fold (slot key i). destruct (Z.eqb_spec (data (slot key i)).(cell_val) 0) as [Ev|Ev].
  { exists i. split_and!; [lia|lia|done|done|intros x Hx; lia]. }
  destruct (Z.eqb_spec (data (slot key i)).(cell_key) key) as [Ek|Ek].
  { exists i. split_and!; [lia|lia|done|done|done|intros x Hx; lia]. }
  assert (forall j, others data key (i + 1) j -> others data key i j) as Hs.
  { intros j Ho x Hx. destruct (Z.eq_dec x i) as [->|]; [done|]. apply Ho. lia. }
  specialize (IH (i + 1)). destruct (hashmap_probe fuel data mask (hashmap_hash key) key (i + 1)).
  - destruct IH as (j & Hj & ? & ? & Ho). exists j. split_and!; [lia|lia|done|done|by apply Hs].
  - destruct IH as (j & Hj & ? & ? & ? & Ho). exists j. split_and!; [lia|lia|done|done|done|by apply Hs].
  - replace (i + Z.of_nat (S fuel)) with (i + 1 + Z.of_nat fuel) by lia. by apply Hs.
Qed.

Lemma get_loop_probe data key fuel : forall i,
  hashmap_get_loop fuel data mask (hashmap_hash key) key i =
  match hashmap_probe fuel data mask (hashmap_hash key) key i with
  | PMatch p => (data p).(cell_val)
  | _ => 0
  end.
Proof.
  induction fuel as [|fuel IH]; intros i; cbn [hashmap_probe hashmap_get_loop]; [done|].
  set (p := u64 _ .& _). destruct (Z.eqb_spec (data p).(cell_val) 0) as [->|]; [by rewrite orb_true_r|].
  rewrite orb_false_r. destruct (_ =? key); [done|apply IH].
Qed.

Section Rep.
Variable data : Z -> hashmap_cell.
Variable g : gmap Z Z.
Hypothesis Hrep : rep data g.

(** Keys that are not found while probing are not in the map. *)
Lemma absent_empty key j : 0 <= j -> others data key 0 j -> (data (slot key j)).(cell_val) = 0 -> g !! key = None.
Proof.
  intros Hj Ho He. destruct (g !! key) as [v|] eqn:E; [|done]. exfalso.
  destruct (rep_found _ _ Hrep _ _ E) as (Hv & d & Hd & _ & Hc & Hch).
  destruct (Z.lt_trichotomy d j) as [Hlt|[->|Hgt]].
  - destruct (Ho d ltac:(lia)) as [_ Hk]. by rewrite Hc in Hk.
  - by rewrite Hc in He.
  - by apply (Hch j ltac:(lia)).
Qed.

Lemma absent_full key : others data key 0 256 -> g !! key = None.
Proof.
  intros Ho. destruct (g !! key) as [v|] eqn:E; [|done]. exfalso.
  destruct (rep_found _ _ Hrep _ _ E) as (Hv & d & Hd & _ & Hc & _). destruct (Ho d ltac:(lia)) as [_ Hk]. by rewrite Hc in Hk.
Qed.

(** Lookup. *)
Lemma probe_lookup key :
  match hashmap_probe HASHMAP_MAX_PROBES data mask (hashmap_hash key) key 0 with
  | PMatch p => g !! key = Some (data p).(cell_val)
  | _ => g !! key = None
  end.
Proof.
  pose proof (probe_spec data key HASHMAP_MAX_PROBES 0) as Hp. destruct (hashmap_probe _ _ _ _ _ _).
  - destruct Hp as (j & Hj & -> & He & Ho). apply (absent_empty key j); [lia|done|done].
  - destruct Hp as (j & Hj & -> & Hv & Hk & Ho). pose proof (rep_cell _ _ Hrep _ (slot_range key j) Hv) as E. by rewrite Hk in E.
  - by apply absent_full.
Qed.

(** ** Insertion and update *)

(** The first empty cell is within one round. *)
Lemma first_empty key j : 0 <= j -> others data key 0 j -> (data (slot key j)).(cell_val) = 0 -> j < N.
Proof.
  intros Hj Ho He. pose proof N_pos. destruct (Z.lt_ge_cases j N); [done|]. destruct (Ho (j - N) ltac:(lia)) as [Hv _].
  rewrite <- slot_wrap in Hv. by replace (j - N + N) with j in Hv by lia.
Qed.

Lemma insert_rep key val j : 0 <= j < 256 -> others data key 0 j -> (data (slot key j)).(cell_val) = 0 -> val <> 0 ->
  rep (<[slot key j := mk_cell key val]> data) (<[key := val]> g).
Proof.
  intros Hj Ho He Hv. pose proof (absent_empty key j ltac:(lia) Ho He) as Hnone. pose proof (first_empty key j ltac:(lia) Ho He) as HjN.
  assert (forall p, 0 <= p < N -> (data p).(cell_val) <> 0 -> (data p).(cell_key) <> key) as Hnk.
  { intros p Hp Hvp <-. by rewrite (rep_cell _ _ Hrep p Hp Hvp) in Hnone. }
  split.
  - intros p Hp. rewrite fupd_dec. destruct (Z.eqb_spec (slot key j) p) as [<-|]; cbn [cell_val cell_key].
    + intros _. apply lookup_insert_eq.
    + intros Hvp. rewrite lookup_insert_ne; [by apply Hrep|]. intros ->. by apply (Hnk p Hp Hvp).
  - intros k v. destruct (Z.eq_dec k key) as [->|Hne].
    + rewrite lookup_insert_eq. intros [= <-]. split; [done|]. exists j. split_and!; try lia.
      * apply fupd_eq.
      * intros i Hi. rewrite fupd_ne; [apply Ho; lia|]. intros E. apply slot_inj in E; lia.
    + rewrite lookup_insert_ne by done. intros E. destruct (rep_found _ _ Hrep k v E) as (Hv0 & d & Hd & HdN & Hc & Hch).
      split; [done|]. exists d. split_and!; try lia.
      * rewrite fupd_ne; [done|]. intros Ep. rewrite Ep, Hc in He. done.
      * intros i Hi. rewrite fupd_dec. destruct (Z.eqb_spec (slot key j) (slot k i)); [done|by apply Hch].
  - intros p q Hp Hq. rewrite !fupd_dec.
    destruct (Z.eqb_spec (slot key j) p) as [<-|], (Z.eqb_spec (slot key j) q) as [<-|]; cbn [cell_val cell_key]; intros H1 H2 E.
    + done.
    + by destruct (Hnk q Hq H2).
    + by destruct (Hnk p Hp H1).
    + by apply (rep_uniq _ _ Hrep).
Qed.

Lemma update_rep key val p : 0 <= p < N -> (data p).(cell_val) <> 0 -> (data p).(cell_key) = key -> val <> 0 ->
  rep (set_val data p val) (<[key := val]> g).
Proof.
  intros Hp Hvp Hk Hv. unfold set_val. rewrite Hk.
  assert (forall q, 0 <= q < N -> (data q).(cell_val) <> 0 -> q <> p -> (data q).(cell_key) <> key) as Hnk.
  { intros q Hq Hvq Hne E. apply Hne, (rep_uniq _ _ Hrep); congruence. }
  assert (forall q, (cell_val (<[p := mk_cell key val]> data q) <> 0 <-> (data q).(cell_val) <> 0)) as Hval.
  { intros q. rewrite fupd_dec. destruct (Z.eqb_spec p q) as [<-|]; done. }
  assert (forall q, cell_key (<[p := mk_cell key val]> data q) = (data q).(cell_key)) as Hkey.
  { intros q. rewrite fupd_dec. destruct (Z.eqb_spec p q) as [<-|]; done. }
  split.
  - intros q Hq Hvq. apply Hval in Hvq. rewrite Hkey, fupd_dec. destruct (Z.eqb_spec p q) as [<-|]; cbn [cell_val].
    + rewrite Hk. apply lookup_insert_eq.
    + rewrite lookup_insert_ne; [by apply Hrep|]. intros E. by apply (Hnk q).
  - intros k v. destruct (Z.eq_dec k key) as [->|Hne].
    + rewrite lookup_insert_eq. intros [= <-]. split; [done|].
      destruct (rep_found _ _ Hrep key (data p).(cell_val)) as (_ & d & Hd & HdN & Hc & Hch).
      { rewrite <- Hk. by apply Hrep. }
      exists d. split_and!; try lia.
      * assert (p = slot key d) as <-; [|apply fupd_eq]. apply (rep_uniq _ _ Hrep); try done; [apply slot_range|by rewrite Hc|by rewrite Hc].
      * intros i Hi. by apply Hval, Hch.
    + rewrite lookup_insert_ne by done. intros E. destruct (rep_found _ _ Hrep k v E) as (Hv0 & d & Hd & HdN & Hc & Hch).
      split; [done|]. exists d. split_and!; try lia.
      * rewrite fupd_ne; [done|]. intros Ep. rewrite Ep, Hc in Hk. done.
      * intros i Hi. by apply Hval, Hch.
  - intros q r Hq Hr H1 H2 E. apply Hval in H1, H2. rewrite !Hkey in E. by apply (rep_uniq _ _ Hrep).
Qed.

End Rep.

(** ** Erasure *)

(** A table with a gap at [hole], which may interrupt the cells before a key. *)
Record gapped (hole : Z) (data : Z -> hashmap_cell) (g : gmap Z Z) : Prop := mk_gapped {
  gap_range : 0 <= hole < N;
  gap_empty : (data hole).(cell_val) = 0;
  gap_cell : forall p, 0 <= p < N -> (data p).(cell_val) <> 0 -> g !! (data p).(cell_key) = Some (data p).(cell_val);
  gap_found : forall k v, g !! k = Some v -> v <> 0 /\ exists d, 0 <= d < 256 /\ d < N /\
    data (slot k d) = mk_cell k v /\ forall i, 0 <= i < d -> (data (slot k i)).(cell_val) <> 0 \/ slot k i = hole;
  gap_uniq : forall p q, 0 <= p < N -> 0 <= q < N -> (data p).(cell_val) <> 0 -> (data q).(cell_val) <> 0 ->
    (data p).(cell_key) = (data q).(cell_key) -> p = q
}.

Lemma erase_gapped data g key p : rep data g -> 0 <= p < N -> (data p).(cell_val) <> 0 -> (data p).(cell_key) = key ->
  gapped p (set_val data p 0) (delete key g).
Proof.
  intros Hrep Hp Hvp Hk. unfold set_val.
  assert (forall q, 0 <= q < N -> cell_val (<[p := mk_cell (data p).(cell_key) 0]> data q) <> 0 ->
    q <> p /\ <[p := mk_cell (data p).(cell_key) 0]> data q = data q /\ (data q).(cell_val) <> 0 /\ (data q).(cell_key) <> key) as Hq.
  { intros q Hq. rewrite fupd_dec. destruct (Z.eqb_spec p q) as [<-|Hne]; [done|]. intros Hv. split_and!; [done|done|done|].
    intros E. apply Hne, (rep_uniq _ _ Hrep); congruence. }
  split.
  - done.
  - by rewrite fupd_eq.
  - intros q Hqr Hvq. destruct (Hq q Hqr Hvq) as (_ & -> & Hv & Hne). rewrite lookup_delete_ne by done. by apply Hrep.
  - intros k v. rewrite lookup_delete_Some. intros [Hne E]. destruct (rep_found _ _ Hrep k v E) as (Hv & d & Hd & HdN & Hc & Hch).
    split; [done|]. exists d. split_and!; try lia.
    + rewrite fupd_ne; [done|]. intros ->. rewrite Hc in Hk. done.
    + intros i Hi. rewrite fupd_dec. destruct (Z.eqb_spec p (slot k i)) as [->|]; [by right|left; by apply Hch].
  - intros q r Hqr Hrr H1 H2. destruct (Hq q Hqr H1) as (_ & -> & ? & _), (Hq r Hrr H2) as (_ & -> & ? & _). by apply (rep_uniq _ _ Hrep).
Qed.

(** Distance from the gap, around the end. *)
Definition rel (hole x : Z) : Z := (x - hole) mod N.

Lemma rel_range hole x : 0 <= rel hole x < N.
Proof. apply Z.mod_pos_bound, N_pos. Qed.

Lemma rel_cases hole x : 0 <= hole < N -> 0 <= x < N -> rel hole x = if hole <=? x then x - hole else x - hole + N.
Proof.
  intros Hh Hx. unfold rel. destruct (Z.leb_spec hole x); [apply Z.mod_small; lia|].
  symmetry. apply (Z.mod_unique _ _ (-1)); lia.
Qed.

(** The condition of the inner loop: the home of cell [j] is behind the gap. *)
Lemma between_rel hole j k : 0 <= hole < N -> 0 <= j < N -> 0 <= k < N -> hole <> j ->
  (if hole <=? j then (hole <? k) && (k <=? j) else (hole <? k) || (k <=? j)) = (1 <=? rel hole k) && (rel hole k <=? rel hole j).
Proof.
  intros Hh Hj Hk Hne. rewrite !rel_cases by done.
  destruct (Z.leb_spec hole j), (Z.ltb_spec hole k), (Z.leb_spec k j), (Z.leb_spec hole k); cbn [andb orb];
    repeat case_bool; lia || done.
Qed.

Lemma rel_slot hole k i : hole = slot k i -> 0 <= i < N -> rel hole (slot k 0) = (if i =? 0 then 0 else N - i).
Proof.
  intros -> Hi. unfold rel, slot. pose proof N_pos. rewrite Zminus_mod_idemp_l, Zminus_mod_idemp_r.
  replace (hashmap_hash k + 0 - (hashmap_hash k + i)) with (- i) by lia. destruct (Z.eqb_spec i 0) as [->|]; [by rewrite Z.mod_0_l by lia|].
  symmetry. apply (Z.mod_unique _ _ (-1)); lia.
Qed.

(** The cells between the gap and [j] are taken by keys at home behind the gap. *)
Definition scanned (hole : Z) (data : Z -> hashmap_cell) (j : Z) : Prop :=
  forall p, 0 <= p < N -> 1 <= rel hole p <= rel hole j ->
    (data p).(cell_val) <> 0 /\ 1 <= rel hole (slot (data p).(cell_key) 0) <= rel hole p.

Lemma rel_succ hole j : 0 <= hole < N -> 0 <= j < N ->
  ((j + 1) mod N = hole /\ rel hole j = N - 1) \/ rel hole ((j + 1) mod N) = rel hole j + 1.
Proof.
  intros Hh Hj. pose proof N_pos. pose proof (rel_range hole j) as Hr. unfold rel in *.
  destruct (Z.eq_dec ((j - hole) mod N) (N - 1)) as [E|].
  - left. split; [|done]. pose proof (Z.div_mod (j - hole) N ltac:(lia)) as Hd. rewrite E in Hd.
    replace (j + 1) with (hole + ((j - hole) / N + 1) * N) by lia. rewrite Z_mod_plus_full. by apply Z.mod_small.
  - right. rewrite Zminus_mod_idemp_l. replace (j + 1 - hole) with (j - hole + 1) by lia.
    rewrite <- Zplus_mod_idemp_l. apply Z.mod_small. lia.
Qed.

(** Nothing is behind the gap: it is closed. *)
Lemma gap_closed hole data g j : gapped hole data g -> 0 <= j < N -> scanned hole data j ->
  (data ((j + 1) mod N)).(cell_val) = 0 -> rep data g.
Proof.
  intros Hg Hj Hs He. pose proof (gap_range _ _ _ Hg) as Hh. pose proof N_pos.
  split; [apply Hg| |apply Hg]. intros k v E. destruct (gap_found _ _ _ Hg k v E) as (Hv & d & Hd & HdN & Hc & Hch).
  split; [done|]. exists d. split_and!; try lia; [done|]. intros i Hi.
  destruct (Hch i Hi) as [|Eh]; [done|]. exfalso.
  assert (forall x, 0 <= i + x < N -> rel hole (slot k (i + x)) = x mod N) as Hrel.
  { intros x Hx. rewrite <- Eh. unfold rel, slot. rewrite Zminus_mod_idemp_l, Zminus_mod_idemp_r. f_equal. lia. }
  destruct (Z.le_gt_cases (d - i) (rel hole j)) as [Hle|Hgt].
  - destruct (Hs (slot k d) (slot_range _ _)) as [_ Hhome].
    { replace d with (i + (d - i)) by lia. rewrite Hrel by lia. rewrite Z.mod_small by lia. lia. }
    rewrite Hc in Hhome. cbn [cell_key] in Hhome. rewrite (rel_slot hole k i) in Hhome by (done || lia).
    replace (slot k d) with (slot k (i + (d - i))) in Hhome by (f_equal; lia). rewrite Hrel, Z.mod_small in Hhome by lia.
    destruct (Z.eqb_spec i 0); lia.
  - pose proof (rel_range hole j) as Hrj.
    assert ((j + 1) mod N = slot k (i + (rel hole j + 1))) as Ej.
    { unfold slot in *. pose proof (Z.div_mod (j - hole) N ltac:(lia)) as D1. fold (rel hole j) in D1.
      pose proof (Z.div_mod (hashmap_hash k + i) N ltac:(lia)) as D2. rewrite Eh in D2.
      replace (hashmap_hash k + (i + (rel hole j + 1))) with (j + 1 + ((hashmap_hash k + i) / N - (j - hole) / N) * N) by lia.
      by rewrite Z_mod_plus_full. }
    rewrite Ej in He. destruct (Z.eq_dec (i + (rel hole j + 1)) d) as [Ed|].
    + rewrite Ed, Hc in He. done.
    + destruct (Hch (i + (rel hole j + 1)) ltac:(lia)) as [|E2]; [done|]. assert (slot k (i + (rel hole j + 1)) = slot k i) as E3 by congruence.
      apply slot_inj in E3; lia.
Qed.

(** The cell [j] is moved into the gap, which moves to [j]. *)
Lemma gap_moves hole data g j : gapped hole data g -> 0 <= j < N -> hole <> j -> (data j).(cell_val) <> 0 ->
  let k := slot (data j).(cell_key) 0 in
  (1 <=? rel hole k) && (rel hole k <=? rel hole j) = false ->
  gapped j (set_val (<[hole := data j]> data) j 0) g /\
  (hole - hashmap_hash (data j).(cell_key)) mod N < (j - hashmap_hash (data j).(cell_key)) mod N.
Proof.
  intros Hg Hj Hne Hv k0 Hcond. pose proof (gap_range _ _ _ Hg) as Hh. pose proof (gap_empty _ _ _ Hg) as Hemp. pose proof N_pos as HN.
  set (k := (data j).(cell_key)) in *. set (v := (data j).(cell_val)) in *.
  assert (data j = mk_cell k v) as Edj by (unfold k, v; by destruct (data j)).
  set (i0 := (hole - hashmap_hash k) mod N). set (d0 := (j - hashmap_hash k) mod N).
  assert (hole = slot k i0) as Ehole by (by apply slot_dist). assert (j = slot k d0) as Ejs by (by apply slot_dist).
  assert (0 <= i0 < N /\ 0 <= d0 < N) as [Ri Rd] by (split; apply Z.mod_pos_bound, HN).
  assert (i0 < d0) as Hlt.
  { assert (i0 <> d0) by congruence. apply andb_false_iff in Hcond. unfold k0 in Hcond. rewrite (rel_slot hole k i0 Ehole Ri) in Hcond.
    assert (rel hole j = (d0 - i0) mod N) as Er.
    { unfold rel. rewrite Ehole, Ejs. unfold slot. rewrite Zminus_mod_idemp_l, Zminus_mod_idemp_r. f_equal. lia. }
    destruct (Z.lt_ge_cases i0 d0); [done|]. assert ((d0 - i0) mod N = d0 - i0 + N) as Em by (symmetry; apply (Z.mod_unique _ _ (-1)); lia).
    rewrite Er, Em in Hcond. destruct (Z.eqb_spec i0 0); destruct Hcond as [Hc|Hc]; apply Z.leb_gt in Hc; lia. }
  split; [|done]. unfold set_val. rewrite fupd_ne by done. fold k.
  set (data' := <[j := mk_cell k 0]> (<[hole := data j]> data)).
  assert (data' j = mk_cell k 0) as D1 by apply fupd_eq.
  assert (data' hole = data j) as D2 by (unfold data'; rewrite fupd_ne by done; apply fupd_eq).
  assert (forall p, p <> j -> p <> hole -> data' p = data p) as D3 by (intros p H1 H2; unfold data'; by rewrite !fupd_ne by done).
  (* where the contents of a cell came from *)
  assert (forall p, 0 <= p < N -> (data' p).(cell_val) <> 0 -> exists q, 0 <= q < N /\ data' p = data q /\ (p = hole /\ q = j \/ p <> hole /\ p <> j /\ q = p)) as Dfrom.
  { intros p Hp Hvp. destruct (Z.eq_dec p j) as [->|]; [by rewrite D1 in Hvp|]. destruct (Z.eq_dec p hole) as [->|].
    - exists j. split_and!; [lia|lia|done|lia].
    - exists p. split_and!; [lia|lia|by apply D3|lia]. }
  split.
  - done.
  - by rewrite D1.
  - intros p Hp Hvp. destruct (Dfrom p Hp Hvp) as (q & Hq & E & _). rewrite E in Hvp |- *. by apply Hg.
  - intros k' v' E. destruct (gap_found _ _ _ Hg k' v' E) as (Hv' & d & Hd & HdN & Hc & Hch). split; [done|].
    assert (forall i, 0 <= i < d -> slot k' i <> hole -> (data' (slot k' i)).(cell_val) <> 0 \/ slot k' i = j) as Hch'.
    { intros i Hi Hnh. destruct (Z.eq_dec (slot k' i) j); [by right|left]. rewrite D3 by done. by destruct (Hch i Hi). }
    destruct (Z.eq_dec (slot k' d) j) as [Ep|Ep].
    + assert (k' = k /\ v' = v) as [-> ->] by (rewrite Ep, Edj in Hc; by injection Hc as <- <-).
      assert (d = d0) as -> by (apply (slot_inj k); [lia|lia|congruence]).
      exists i0. split_and!; try lia; [congruence|]. intros i Hi. destruct (Hch' i ltac:(lia)) as [|E2]; [|by left|exfalso].
      * intros E2. rewrite Ehole in E2. apply slot_inj in E2; lia.
      * rewrite Ejs in E2. apply slot_inj in E2; lia.
    + exists d. split_and!; try lia.
      * rewrite D3; [done|done|]. intros E2. rewrite E2 in Hc. by rewrite Hc in Hemp.
      * intros i Hi. destruct (Z.eq_dec (slot k' i) hole) as [E2|]; [|by apply Hch']. left. rewrite E2, D2. done.
  - intros p q Hp Hq H1 H2. destruct (Dfrom p Hp H1) as (p' & Hp' & Ep & Cp), (Dfrom q Hq H2) as (q' & Hq' & Eq & Cq).
    rewrite Ep in H1 |- *. rewrite Eq in H2 |- *. intros E. pose proof (gap_uniq _ _ _ Hg p' q' Hp' Hq' H1 H2 E). lia.
Qed.

(** The displacements of all cells, which a move makes smaller. *)
Definition cost (data : Z -> hashmap_cell) (p : Z) : Z :=
  if (data p).(cell_val) =? 0 then 0 else (p - hashmap_hash (data p).(cell_key)) mod N.

Lemma cost_range data p : 0 <= cost data p < N.
Proof. unfold cost. pose proof N_pos. case_match; [lia|]. by apply Z.mod_pos_bound. Qed.

Definition displacement (data : Z -> hashmap_cell) : Z := sumZ (cost data) (Z.to_nat N).

Lemma displacement_bound data : 0 <= displacement data <= N * N.
Proof.
  pose proof N_pos. unfold displacement. replace (N * N) with (Z.of_nat (Z.to_nat N) * N) by lia.
  apply sumZ_bound. intros p. pose proof (cost_range data p). lia.
Qed.

Lemma displacement_moves hole data g j : gapped hole data g -> 0 <= j < N -> hole <> j -> (data j).(cell_val) <> 0 ->
  displacement (set_val (<[hole := data j]> data) j 0) =
  displacement data - (j - hashmap_hash (data j).(cell_key)) mod N + (hole - hashmap_hash (data j).(cell_key)) mod N.
Proof.
  intros Hg Hj Hne Hv. pose proof (gap_range _ _ _ Hg) as Hh. pose proof (gap_empty _ _ _ Hg) as Hemp. unfold displacement.
  transitivity (sumZ (<[j := 0]> (<[hole := (hole - hashmap_hash (data j).(cell_key)) mod N]> (cost data))) (Z.to_nat N)).
  - apply sumZ_ext. intros p Hp. unfold set_val, cost. rewrite !fupd_dec. destruct (Z.eqb_spec j p) as [<-|]; [done|].
    destruct (Z.eqb_spec hole p) as [<-|]; [|done]. by destruct (Z.eqb_spec (data j).(cell_val) 0).
  - rewrite !sumZ_upd by lia. rewrite fupd_ne by done. unfold cost at 2 3. rewrite Hemp.
    destruct (Z.eqb_spec (data j).(cell_val) 0); [done|]. cbn [Z.eqb]. lia.
Qed.

(** Closing the gap ends, and the table represents the map again. *)
Lemma rebalance_rep g fuel : forall data hole j, gapped hole data g -> 0 <= j < N -> scanned hole data j ->
  displacement data * N + (N - rel hole j) <= Z.of_nat fuel ->
  exists data', rebalance_loop fuel data mask hole j = Some data' /\ rep data' g.
Proof.
  induction fuel as [|fuel IH]; intros data hole j Hg Hj Hs Hf; pose proof N_pos as HN; pose proof (rel_range hole j) as Hrj;
    pose proof (displacement_bound data) as Hdb; [nia|]. pose proof (gap_range _ _ _ Hg) as Hh.
  cbn [rebalance_loop]. rewrite land_mask. set (j' := (j + 1) mod N).
  assert (0 <= j' < N) as Hj' by (by apply Z.mod_pos_bound).
  destruct (Z.eqb_spec (data j').(cell_val) 0) as [He|He]; [exists data; split; [done|by apply (gap_closed hole data g j)]|].
  assert (hole <> j') as Hne by (intros <-; by rewrite (gap_empty _ _ _ Hg) in He).
  destruct (rel_succ hole j Hh Hj) as [[E _]|Hsucc]; [done|]. fold j' in Hsucc.
  rewrite home_slot, between_rel by (done || apply slot_range).
  destruct ((1 <=? rel hole (slot (cell_key (data j')) 0)) && _) eqn:Hcond.
  - apply IH; [done|done| |lia]. intros p Hp Hr. destruct (Z.le_gt_cases (rel hole p) (rel hole j)); [apply Hs; [done|lia]|].
    assert (p = j') as ->.
    { assert (rel hole p = rel hole j') as E by lia. rewrite !rel_cases in E by done. revert E. repeat case_bool; lia. }
    split; [done|]. apply andb_true_iff in Hcond as [H1 H2]. lia.
  - destruct (gap_moves hole data g j' Hg Hj' Hne He Hcond) as [Hg' Hlt].
    pose proof (displacement_moves hole data g j' Hg Hj' Hne He) as Hdm.
    assert (rel j' j' = 0) as Er by (unfold rel; rewrite Z.sub_diag; apply Z.mod_0_l; lia).
    apply IH; [done|done| |].
    + intros p Hp Hr. lia.
    + rewrite Er, Hdm. pose proof (displacement_bound data). nia.
Qed.

Lemma gapped_ext hole data data' g : (forall q, data q = data' q) -> gapped hole data g -> gapped hole data' g.
Proof.
  intros E [H1 H2 H3 H4 H5]. split; [done|by rewrite <- E|intros p; rewrite <- E; apply H3| |intros p q; rewrite <- !E; apply H5].
  intros k v Hk. destruct (H4 k v Hk) as (Hv & d & Hd & HdN & Hc & Hch). split; [done|]. exists d. rewrite <- E.
  split_and!; try done; try lia. intros i Hi. rewrite <- E. by apply Hch.
Qed.

Lemma rebalance_internal_rep data g key p : rep data g -> 0 <= p < N -> (data p).(cell_val) <> 0 -> (data p).(cell_key) = key ->
  exists data', hashmap_rebalance_internal (set_val data p 0) mask p = Some data' /\ rep data' (delete key g).
Proof.
  intros Hrep Hp Hv Hk. pose proof (erase_gapped data g key p Hrep Hp Hv Hk) as Hg. pose proof N_pos.
  unfold hashmap_rebalance_internal, rebalance_fuel.
  assert (gapped p (set_val (set_val data p 0) p 0) (delete key g)) as Hg2.
  { eapply gapped_ext; [|done]. intros q. unfold set_val. rewrite fupd_eq, !fupd_dec. by destruct (p =? q). }
  apply rebalance_rep; [done|done| |].
  - intros q Hq Hr. assert (rel p p = 0) by (unfold rel; rewrite Z.sub_diag; apply Z.mod_0_l; lia). lia.
  - pose proof (displacement_bound (set_val (set_val data p 0) p 0)). pose proof (rel_range p p). replace (mask + 1) with N by lia. nia.
Qed.

(** ** Counting *)

Lemma keys_bound data g ps : rep data g -> NoDup ps -> (forall p, p ∈ ps -> 0 <= p < N /\ (data p).(cell_val) <> 0) -> (length ps <= size g)%nat.
Proof.
  intros Hrep Hnd Hps. set (keys := (fun p => (data p).(cell_key)) <$> ps).
  assert (NoDup keys) as Hk.
  { apply NoDup_fmap_2_strong; [|done]. intros x y Hx Hy E. destruct (Hps x Hx), (Hps y Hy). by apply (rep_uniq _ _ Hrep). }
  rewrite <- (length_fmap (fun p => (data p).(cell_key)) ps). fold keys. rewrite <- (size_list_to_set (C := gset Z) keys) by done.
  rewrite <- (size_dom (D := gset Z)). apply subseteq_size. intros k. rewrite elem_of_list_to_set, elem_of_dom.
  unfold keys. rewrite list_elem_of_fmap. intros (p & -> & Hp). destruct (Hps p Hp). eexists. by apply (rep_cell _ _ Hrep).
Qed.

Lemma size_list_to_set_le (l : list Z) : (size (list_to_set l : gset Z) <= length l)%nat.
Proof.
  induction l as [|x l IH]; [done|]. cbn [list_to_set length]. rewrite size_union_alt, size_singleton.
  assert (size ((list_to_set l : gset Z) ∖ {[x]}) <= size (list_to_set l : gset Z))%nat by (apply subseteq_size; set_solver). lia.
Qed.

Lemma size_bound data g : rep data g -> Z.of_nat (size g) <= N.
Proof.
  intros Hrep. pose proof N_pos. rewrite <- (size_dom (D := gset Z)).
  assert (dom g ⊆ (list_to_set ((fun p => (data p).(cell_key)) <$> seqZ 0 N) : gset Z)) as Hsub.
  { intros k. rewrite elem_of_dom, elem_of_list_to_set, list_elem_of_fmap. intros [v E].
    destruct (rep_found _ _ Hrep k v E) as (_ & d & _ & _ & Hc & _). exists (slot k d). rewrite Hc. split; [done|].
    apply elem_of_seqZ. pose proof (slot_range k d). lia. }
  apply subseteq_size in Hsub. pose proof (size_list_to_set_le ((fun p => (data p).(cell_key)) <$> seqZ 0 N)) as Hle.
  rewrite length_fmap, length_seqZ in Hle. lia.
Qed.

(** A table with fewer keys than cells and probes has a place for every key. *)
Lemma probe_not_full data g key : rep data g -> Z.of_nat (size g) < Z.min 256 N ->
  hashmap_probe HASHMAP_MAX_PROBES data mask (hashmap_hash key) key 0 <> PFull.
Proof.
  intros Hrep Hsz E. pose proof (probe_spec data key HASHMAP_MAX_PROBES 0) as Hp. rewrite E in Hp. pose proof N_pos.
  assert (length (slot key <$> seqZ 0 (Z.min 256 N)) <= size g)%nat as Hle.
  { apply (keys_bound data g); [done| |].
    - apply NoDup_fmap_2_strong; [|apply NoDup_seqZ]. intros x y Hx Hy. apply elem_of_seqZ in Hx, Hy. apply slot_inj; lia.
    - intros p Hpp. apply list_elem_of_fmap in Hpp as (x & -> & Hx). apply elem_of_seqZ in Hx. split; [apply slot_range|].
      apply Hp. unfold HASHMAP_MAX_PROBES. lia. }
  rewrite length_fmap, length_seqZ in Hle. lia.
Qed.

(** Collecting all cells gives back the map. *)
Definition entries (data : Z -> hashmap_cell) (l : list Z) (acc : gmap Z Z) : gmap Z Z :=
  fold_left (fun acc p => if (data p).(cell_val) =? 0 then acc else <[(data p).(cell_key) := (data p).(cell_val)]> acc) l acc.

(** The cells hold exactly the entries of the map, wherever they are. *)
Record cells_of (data : Z -> hashmap_cell) (g : gmap Z Z) : Prop := mk_cells_of {
  co_cell : forall p, 0 <= p < N -> (data p).(cell_val) <> 0 -> g !! (data p).(cell_key) = Some (data p).(cell_val);
  co_found : forall k v, g !! k = Some v -> v <> 0 /\ exists p, 0 <= p < N /\ data p = mk_cell k v
}.

Lemma rep_cells data g : rep data g -> cells_of data g.
Proof.
  intros Hr. split; [apply Hr|]. intros k v E. destruct (rep_found _ _ Hr k v E) as (Hv & d & _ & _ & Hc & _).
  split; [done|]. exists (slot k d). split; [apply slot_range|done].
Qed.

Lemma gapped_cells hole data g : gapped hole data g -> cells_of data g.
Proof.
  intros Hr. split; [apply Hr|]. intros k v E. destruct (gap_found _ _ _ Hr k v E) as (Hv & d & _ & _ & Hc & _).
  split; [done|]. exists (slot k d). split; [apply slot_range|done].
Qed.

Lemma entries_sub data g l : cells_of data g -> (forall p, p ∈ l -> 0 <= p < N) -> forall acc, acc ⊆ g ->
  entries data l acc ⊆ g /\ acc ⊆ entries data l acc /\
  forall p, p ∈ l -> (data p).(cell_val) <> 0 -> is_Some (entries data l acc !! (data p).(cell_key)).
Proof.
  intros Hrep Hl. induction l as [|p l IH]; intros acc Hacc; cbn [entries fold_left].
  { split_and!; [done|done|]. intros p Hp. by apply not_elem_of_nil in Hp. }
  set (acc' := if (data p).(cell_val) =? 0 then acc else _).
  assert (acc' ⊆ g /\ acc ⊆ acc' /\ ((data p).(cell_val) <> 0 -> is_Some (acc' !! (data p).(cell_key)))) as (H1 & H2 & H3).
  { unfold acc'. destruct (Z.eqb_spec (data p).(cell_val) 0) as [|Hv]; [done|].
    pose proof (co_cell _ _ Hrep p (Hl p ltac:(constructor)) Hv) as E. split_and!.
    - by apply insert_subseteq_l.
    - apply map_subseteq_spec. intros k v Hk. destruct (Z.eq_dec k (data p).(cell_key)) as [->|].
      + rewrite lookup_insert_eq. pose proof (lookup_weaken _ _ _ _ Hk Hacc). congruence.
      + by rewrite lookup_insert_ne.
    - intros _. rewrite lookup_insert_eq. by eexists. }
  destruct (IH ltac:(intros q Hq; apply Hl; by constructor) acc' H1) as (I1 & I2 & I3). split_and!; [done|by transitivity acc'|].
  intros q Hq Hv. apply elem_of_cons in Hq as [->|Hq]; [|by apply I3]. destruct (H3 Hv) as [v E]. exists v. by apply (lookup_weaken _ _ _ _ E).
Qed.

Lemma entries_all data g : cells_of data g -> entries data (seqZ 0 N) ∅ = g.
Proof.
  intros Hrep. destruct (entries_sub data g (seqZ 0 N) Hrep) with (acc := ∅ : gmap Z Z) as (H1 & _ & H3).
  - intros p Hp. apply elem_of_seqZ in Hp. lia.
  - apply map_empty_subseteq.
  - apply map_eq. intros k. apply option_eq. intros v. split; [intros E; by apply (lookup_weaken _ _ _ _ E)|].
    intros E. destruct (co_found _ _ Hrep k v E) as (Hv & p & Hp & Hc).
    destruct (H3 p) as [v' E']; [apply elem_of_seqZ; lia|by rewrite Hc|]. rewrite Hc in E'. cbn [cell_key] in E'.
    pose proof (lookup_weaken _ _ _ _ E' H1). congruence.
Qed.

End Table.

(** ** Maps *)

Definition upd (k v : Z) (g : gmap Z Z) : gmap Z Z := if v =? 0 then delete k g else <[k := v]> g.

Lemma next_pow2_pow n : 0 <= n <= 63 -> bit_next_pow2 (2 ^ n) = 2 ^ n.
Proof.
  intros Hn. assert (0 < 2 ^ n <= 2 ^ 63) by (split; [apply Z.pow_pos_nonneg|apply Z.pow_le_mono_r]; lia).
  unfold bit_next_pow2. rewrite (wrap_small 64) by (unfold urange; lia).
  replace (2 ^ n - 1) with (Z.ones n) by (rewrite Z.ones_equiv; lia). by rewrite Z.land_ones, Z.mod_same by lia.
Qed.

Lemma resize_size s : 0 <= s <= 59 -> bit_next_pow2 (EVAL_MAX (2 ^ s) 16) = 2 ^ Z.max s 4.
Proof.
  intros Hs. rewrite eval_max. destruct (Z.le_gt_cases s 4).
  - assert (2 ^ s <= 2 ^ 4) by (apply Z.pow_le_mono_r; lia). rewrite !Z.max_r by lia. apply (next_pow2_pow 4). lia.
  - assert (2 ^ 4 <= 2 ^ s) by (apply Z.pow_le_mono_r; lia). rewrite !Z.max_l by lia. apply next_pow2_pow. lia.
Qed.

Section Map.
Variable max_cells : Z.
Hypothesis Hmax : 16 <= max_cells <= 2 ^ 58.

(** A map with a table of [2 ^ n] cells, and any map. *)
Definition hm_at (n : Z) (m : hashmap) (g : gmap Z Z) : Prop :=
  4 <= n <= 58 /\ 2 ^ n <= max_cells /\ m.(hm_mask) = 2 ^ n - 1 /\ m.(hm_count) = Z.of_nat (size g) /\
  exists data, m.(hm_data) = Some data /\ rep n data g.

Definition hm_rep (m : hashmap) (g : gmap Z Z) : Prop :=
  (m = hashmap_init /\ g = ∅) \/ exists n, hm_at n m g.

Lemma hm_at_intro n data g : 4 <= n <= 58 -> 2 ^ n <= max_cells -> rep n data g ->
  hm_at n (mk_hashmap (Some data) (2 ^ n - 1) (Z.of_nat (size g))) g.
Proof. intros. split_and!; [lia|lia|done|done|done|by exists data]. Qed.

Lemma table_size n : 4 <= n <= 58 -> 16 <= 2 ^ n <= 2 ^ 58.
Proof. intros. change 16 with (2 ^ 4). split; apply Z.pow_le_mono_r; lia. Qed.

Lemma empty_rep n : rep n (fun _ => mk_cell 0 0) ∅.
Proof. split; done. Qed.

(** The first probe is the home cell, which the inlined fast paths look at. *)
Lemma probe_home n data k : 0 <= n <= 60 ->
  hashmap_probe HASHMAP_MAX_PROBES data (2 ^ n - 1) (hashmap_hash k) k 0 =
  let index := hashmap_hash k .& (2 ^ n - 1) in
  if (data index).(cell_val) =? 0 then PEmpty index
  else if (data index).(cell_key) =? k then PMatch index
  else hashmap_probe 255 data (2 ^ n - 1) (hashmap_hash k) k 1.
Proof.
  intros Hn. change HASHMAP_MAX_PROBES with (S 255). generalize 255%nat. intros f. cbn [hashmap_probe].
  assert (u64 (hashmap_hash k + 0) .& (2 ^ n - 1) = hashmap_hash k .& (2 ^ n - 1)) as ->; [|done].
  rewrite land_mask, Z.add_0_r by done. replace (2 ^ n - 1) with (Z.ones n) by (rewrite Z.ones_equiv; lia). by rewrite Z.land_ones by lia.
Qed.

Lemma get_spec m g k : hm_rep m g -> hashmap_get_ptr m k = default 0 (g !! k).
Proof.
  intros [[-> ->]|(n & Hn & _ & Em & _ & data & Ed & Hrep)]; [done|]. unfold hashmap_get_ptr, hashmap_get_internal. rewrite Ed, Em.
  pose proof (probe_lookup n ltac:(lia) data g Hrep k) as Hl. rewrite get_loop_probe. rewrite probe_home in Hl |- * by lia. cbv zeta in *.
  set (p := hashmap_hash k .& (2 ^ n - 1)) in *. destruct (Z.eqb_spec (data p).(cell_val) 0) as [Ev|Ev].
  { rewrite Hl, Ev. cbn. by case_match. }
  cbn [negb]. destruct (Z.eqb_spec (data p).(cell_key) k) as [Ek|Ek]; [by rewrite Hl|].
  destruct (hashmap_probe 255 _ _ _ _ _); by rewrite Hl.
Qed.

(** The fast path of insertion does what the general path would. *)
Lemma put_body_internal put n m g k v : hm_at n m g ->
  hashmap_put_body max_cells put m k v = hashmap_put_internal max_cells put m (hashmap_hash k) k v.
Proof.
  intros (Hn & _ & Em & _ & data & Ed & Hrep). unfold hashmap_put_body, hashmap_put_internal. rewrite Ed, Em, probe_home by lia. cbv zeta.
  set (p := hashmap_hash k .& (2 ^ n - 1)). destruct (Z.eqb_spec (data p).(cell_val) 0) as [Ev|Ev]; [done|].
  destruct (Z.eqb_spec (data p).(cell_key) k) as [Ek|Ek]; [|done]. cbn [andb].
  by destruct (Z.eqb_spec v 0).
Qed.

(** Copying into a new table. *)
Definition copy_cells (put : hashmap -> Z -> Z -> option hashmap) (data : Z -> hashmap_cell) (l : list Z) (tmp : option hashmap) : option hashmap :=
  fold_left (fun tmp i => tmp ← tmp; if (data i).(cell_val) =? 0 then Some tmp else put tmp (data i).(cell_key) (data i).(cell_val)) l tmp.

Lemma copy_cells_none put data l : copy_cells put data l None = None.
Proof. induction l as [|i l IH]; [done|exact IH]. Qed.

Lemma resize_spec put m s : 0 <= s <= 59 ->
  exists tmp, (2 ^ Z.max s 4 <= max_cells -> hm_at (Z.max s 4) tmp ∅) /\
  hashmap_resize max_cells put m (2 ^ s) =
  if 2 ^ Z.max s 4 <=? max_cells then
    match m.(hm_data) with Some data => copy_cells put data (seqZ 0 (m.(hm_mask) + 1)) (Some tmp) | None => Some tmp end
  else None.
Proof.
  intros Hs. unfold hashmap_resize. rewrite resize_size by done.
  assert (0 < 2 ^ Z.max s 4 <= 2 ^ 59) by (split; [apply Z.pow_pos_nonneg|apply Z.pow_le_mono_r]; lia).
  rewrite (wrap_small 64) by (unfold urange; lia). eexists. split; [|done].
  intros Hle. assert (Z.max s 4 <= 58) by (apply (Z.pow_le_mono_r_iff 2); lia).
  split_and!; [lia|lia|done|done|by rewrite map_size_empty|]. eexists. split; [done|apply empty_rep].
Qed.

(** A map whose cells are those of [g], as they are when it is about to be resized. *)
Definition hm_cells (m : hashmap) (g : gmap Z Z) : Prop :=
  (m.(hm_data) = None /\ g = ∅) \/
  exists n data, 0 <= n <= 58 /\ m.(hm_mask) = 2 ^ n - 1 /\ m.(hm_data) = Some data /\ cells_of n data g.

Lemma at_cells n m g : hm_at n m g -> hm_cells m g.
Proof.
  intros (Hn & _ & Em & _ & data & Ed & Hrep). right. exists n, data. split_and!; [lia|lia|done|done|]. apply rep_cells; [lia|done].
Qed.

(** What is promised of the recursive calls: if they return, they update the map. *)
Definition put_ok (put : hashmap -> Z -> Z -> option hashmap) : Prop :=
  forall m g k v m', hm_rep m g -> put m k v = Some m' -> hm_rep m' (upd k v g).

Lemma copy_cells_ok put data l tmp g m' : put_ok put -> hm_rep tmp g -> copy_cells put data l (Some tmp) = Some m' ->
  hm_rep m' (entries data l g).
Proof.
  intros Hput. revert tmp g. induction l as [|i l IH]; intros tmp g Ht Hc; [by injection Hc as <-|].
  cbn [copy_cells fold_left mbind option_bind] in Hc. cbn [entries fold_left].
  destruct (Z.eqb_spec (data i).(cell_val) 0) as [Ev|Ev]; [by apply (IH tmp g)|].
  destruct (put tmp (cell_key (data i)) (cell_val (data i))) as [tmp'|] eqn:E; [|change (copy_cells put data l None = Some m') in Hc; by rewrite copy_cells_none in Hc].
  apply (IH tmp' (<[cell_key (data i) := cell_val (data i)]> g)); [|done]. pose proof (Hput _ _ _ _ _ Ht E) as Hu. unfold upd in Hu. by destruct (Z.eqb_spec (data i).(cell_val) 0).
Qed.

Lemma resize_ok put m g s m' : put_ok put -> hm_cells m g -> 0 <= s <= 59 ->
  hashmap_resize max_cells put m (2 ^ s) = Some m' -> hm_rep m' g.
Proof.
  intros Hput Hm Hs. destruct (resize_spec put m s Hs) as (tmp & Htmp & ->).
  destruct (Z.leb_spec (2 ^ Z.max s 4) max_cells) as [Hle|]; [|done].
  assert (hm_rep tmp ∅) as Ht by (right; eauto). destruct Hm as [[-> ->]|(n & data & Hn & Em & Ed & Hco)].
  { intros [= <-]. done. }
  rewrite Ed, Em. replace (2 ^ n - 1 + 1) with (2 ^ n) by lia. intros Hc. pose proof (copy_cells_ok _ _ _ _ _ _ Hput Ht Hc) as Hr.
  by rewrite (entries_all n data g Hco) in Hr.
Qed.

Lemma capacity_at n m g : hm_at n m g -> hashmap_capacity m = 2 ^ n.
Proof.
  intros (Hn & _ & Em & _). unfold hashmap_capacity. rewrite Em. pose proof (table_size n Hn).
  rewrite wrap_small by (unfold urange; lia). lia.
Qed.

Lemma grow_size n m g : hm_at n m g -> u64 (hashmap_capacity m .<< 1) = 2 ^ (n + 1).
Proof.
  intros Hm. rewrite (capacity_at n m g Hm). destruct Hm as (Hn & _). pose proof (table_size n Hn).
  rewrite Z.shiftl_mul_pow2, Z.pow_add_r by lia. change (2 ^ 1) with 2. apply wrap_small. unfold urange. lia.
Qed.

Lemma shrink_size n m g : hm_at n m g -> hashmap_capacity m .>> 1 = 2 ^ (n - 1) /\ hashmap_capacity m .>> 2 = 2 ^ (n - 2).
Proof.
  intros Hm. rewrite (capacity_at n m g Hm). destruct Hm as (Hn & _). rewrite !Z.shiftr_div_pow2 by lia.
  rewrite <- !Z.pow_sub_r by lia. done.
Qed.

(** The three ways a probe ends, on the map. *)
Lemma probe_at n m g k : hm_at n m g -> exists data, m.(hm_data) = Some data /\ rep n data g /\
  match hashmap_probe HASHMAP_MAX_PROBES data m.(hm_mask) (hashmap_hash k) k 0 with
  | PEmpty p => g !! k = None /\ forall v, v <> 0 -> rep n (<[p := mk_cell k v]> data) (<[k := v]> g)
  | PMatch p => is_Some (g !! k) /\ 0 <= p < 2 ^ n /\ (data p).(cell_val) <> 0 /\ (data p).(cell_key) = k /\
      forall v, v <> 0 -> rep n (set_val data p v) (<[k := v]> g)
  | PFull => g !! k = None /\ Z.min 256 (2 ^ n) <= Z.of_nat (size g)
  end.
Proof.
  intros (Hn & _ & Em & _ & data & Ed & Hrep). exists data. split; [done|]. split; [done|]. rewrite Em.
  pose proof (probe_lookup n ltac:(lia) data g Hrep k) as Hl. pose proof (probe_spec n ltac:(lia) data k HASHMAP_MAX_PROBES 0) as Hp.
  pose proof (probe_not_full n ltac:(lia) data g k Hrep) as Hf.
  destruct (hashmap_probe _ _ _ _ _ _).
  - destruct Hp as (j & Hj & -> & He & Ho). split; [done|]. intros v Hv. unfold HASHMAP_MAX_PROBES in Hj.
    apply insert_rep; try done; lia.
  - destruct Hp as (j & Hj & -> & Hv & Hk & Ho). pose proof (slot_range n ltac:(lia) k j). split; [by eexists|]. split_and!; [lia|lia|done|done|].
    intros v Hv0. apply update_rep; done || lia.
  - split; [done|]. destruct (Z.le_gt_cases (Z.min 256 (2 ^ n)) (Z.of_nat (size g))); [done|]. by destruct Hf.
Qed.

Lemma upd_same k g : g !! k = None -> upd k 0 g = g.
Proof. intros E. unfold upd. cbn [Z.eqb]. by apply delete_id. Qed.

Lemma upd_put k v g : v <> 0 -> upd k v g = <[k := v]> g.
Proof. intros Hv. unfold upd. by destruct (Z.eqb_spec v 0). Qed.

Lemma count_small n m g : hm_at n m g -> 0 <= Z.of_nat (size g) <= 2 ^ 58.
Proof.
  intros (Hn & _ & _ & _ & data & _ & Hrep). pose proof (size_bound n ltac:(lia) data g Hrep). pose proof (table_size n Hn). lia.
Qed.

(** Insertion, update and erasure on a table, given what growing and shrinking do. *)
Section Cases.
Variables (n : Z) (m : hashmap) (g : gmap Z Z) (k : Z).
Hypothesis Hm : hm_at n m g.

Lemma at_data data : m.(hm_data) = Some data -> m = mk_hashmap (Some data) (2 ^ n - 1) (Z.of_nat (size g)).
Proof. destruct Hm as (_ & _ & Em & Ec & _), m. cbn in *. congruence. Qed.

Lemma put_new data p v : m.(hm_data) = Some data -> v <> 0 -> g !! k = None -> rep n (<[p := mk_cell k v]> data) (<[k := v]> g) ->
  hm_at n (mk_hashmap (Some (<[p := mk_cell k v]> data)) m.(hm_mask) (u64 (m.(hm_count) + 1))) (<[k := v]> g).
Proof.
  intros Ed Hv Hk Hr. pose proof (count_small _ _ _ Hm). destruct Hm as (Hn & Hle & Em & Ec & _). split_and!; try lia; try done.
  - cbn [hm_count]. rewrite Ec, wrap_small by (unfold urange; lia). rewrite map_size_insert_None by done. lia.
  - by eexists.
Qed.

Lemma put_old data p v : is_Some (g !! k) -> rep n (set_val data p v) (<[k := v]> g) ->
  hm_at n (mk_hashmap (Some (set_val data p v)) m.(hm_mask) m.(hm_count)) (<[k := v]> g).
Proof.
  intros [v0 Hk] Hr. destruct Hm as (Hn & Hle & Em & Ec & _). split_and!; try lia; try done.
  - cbn [hm_count]. rewrite Ec. by rewrite map_size_insert_Some by (by eexists).
  - by eexists.
Qed.

Lemma erase_size : is_Some (g !! k) -> u64 (m.(hm_count) - 1) = Z.of_nat (size (delete k g)).
Proof.
  intros [v0 Hk]. pose proof (count_small _ _ _ Hm). destruct Hm as (Hn & Hle & Em & Ec & _). rewrite Ec.
  rewrite map_size_delete_Some by (by eexists). assert (size g <> 0)%nat by (intros E; apply map_size_empty_inv in E; by rewrite E in Hk).
  rewrite wrap_small by (unfold urange; lia). lia.
Qed.

End Cases.

Lemma put_body_ok put : put_ok put -> put_ok (hashmap_put_body max_cells put).
Proof.
  intros Hput m g k v m' [[-> ->]|(n & Hm)].
  - unfold hashmap_put_body, hashmap_put_internal. cbn [hashmap_init hm_data].
    change (u64 (hashmap_capacity hashmap_init .<< 1)) with (2 ^ 1). intros E.
    destruct (hashmap_resize max_cells put hashmap_init (2 ^ 1)) as [m1|] eqn:Er; [|done]. cbn in E.
    apply (Hput m1 ∅); [|done]. apply (resize_ok put hashmap_init ∅ 1); [done|by left|lia|done].
  - rewrite (put_body_internal put n m g) by done. unfold hashmap_put_internal.
    destruct (probe_at n m g k Hm) as (data & Ed & Hrep & Hp). rewrite Ed. cbv zeta.
    destruct (hashmap_probe _ _ _ _ _ _) as [p|p|].
    + destruct Hp as [Hk Hr]. destruct (Z.eqb_spec v 0) as [->|Hv]; cbn [negb]; intros [= <-].
      * rewrite upd_same by done. right. by exists n.
      * rewrite upd_put by done. right. exists n. by apply put_new; auto.
    + destruct Hp as (Hk & Hp & Hvp & Hkp & Hr). destruct (Z.eqb_spec v 0) as [->|Hv].
      2:{ intros [= <-]. rewrite upd_put by done. right. exists n. apply put_old; auto. }
      cbn [hm_count]. rewrite (erase_size n m g k Hm Hk). unfold upd. cbn [Z.eqb].
      pose proof (erase_gapped n data g k p Hrep Hp Hvp Hkp) as Hgap. destruct Hm as (Hn & Hle & Em & Ec & Hd).
      set (m1 := mk_hashmap (Some (set_val data p 0)) m.(hm_mask) (Z.of_nat (size (delete k g)))).
      assert (hashmap_capacity m1 = 2 ^ n) as Ecap by (apply (capacity_at n m g); by split_and!; [lia|lia|..]).
      destruct (Z.eqb_spec (Z.of_nat (size (delete k g))) 0) as [Ez|Ez].
      { intros [= <-]. left. split; [done|]. apply map_size_empty_inv. lia. }
      rewrite Ecap. destruct (_ <? 2 ^ n .>> 2).
      * rewrite Z.shiftr_div_pow2, <- Z.pow_sub_r by lia. intros E. apply (resize_ok put m1 (delete k g) (n - 1)); [done| |lia|done].
        right. exists n, (set_val data p 0). split_and!; [lia|lia|done|done|]. by apply (gapped_cells n ltac:(lia) p).
      * destruct (rebalance_internal_rep n ltac:(lia) data g k p Hrep Hp Hvp Hkp) as (data' & Er & Hr'). cbn [hm_mask m1].
        rewrite Em, Er. cbn. intros [= <-]. right. exists n. by apply hm_at_intro.
    + destruct Hp as [Hk _]. rewrite (grow_size n m g Hm). intros E.
      destruct (hashmap_resize max_cells put m (2 ^ (n + 1))) as [m1|] eqn:Er; [|done]. cbn in E.
      apply (Hput m1 g); [|done]. pose proof Hm as (Hn & _). apply (resize_ok put m g (n + 1)); [done| |lia|done].
      by apply (at_cells n).
Qed.

Lemma put_ptr_ok fuel : put_ok (hashmap_put_ptr max_cells fuel).
Proof. induction fuel as [|fuel IH]; [done|]. cbn [hashmap_put_ptr]. by apply put_body_ok. Qed.

(** ** Small maps never fail *)

(** With fewer keys than cells and probes, nothing has to grow. *)
Lemma put_fits put n m g k v : hm_at n m g -> Z.of_nat (size g) < Z.min 256 (2 ^ n) -> v <> 0 ->
  exists m', hashmap_put_body max_cells put m k v = Some m' /\ hm_at n m' (<[k := v]> g).
Proof.
  intros Hm Hs Hv. rewrite (put_body_internal put n m g) by done. unfold hashmap_put_internal.
  destruct (probe_at n m g k Hm) as (data & Ed & Hrep & Hp). rewrite Ed. cbv zeta. apply Z.eqb_neq in Hv as Ev. rewrite Ev.
  destruct (hashmap_probe _ _ _ _ _ _) as [p|p|].
  - destruct Hp as [Hk Hr]. eexists. split; [done|]. apply put_new; auto.
  - destruct Hp as (Hk & _ & _ & _ & Hr). eexists. split; [done|]. apply put_old; auto.
  - lia.
Qed.

Lemma copy_cells_total n data g l : forall tmp acc, (forall p, p ∈ l -> 0 <= p < 2 ^ n) -> cells_of n data g -> acc ⊆ g ->
  forall n', hm_at n' tmp acc -> Z.of_nat (size g) < Z.min 256 (2 ^ n') ->
  exists m', copy_cells (hashmap_put_ptr max_cells 1) data l (Some tmp) = Some m' /\ hm_at n' m' (entries data l acc).
Proof.
  induction l as [|i l IH]; intros tmp acc Hl Hco Hsub n' Ht Hs; [by exists tmp|].
  cbn [copy_cells fold_left mbind option_bind entries].
  destruct (Z.eqb_spec (data i).(cell_val) 0) as [Ev|Ev].
  { apply IH; auto. intros p Hp. apply Hl. by constructor. }
  pose proof (map_subseteq_size acc g Hsub) as Hsz.
  destruct (put_fits (hashmap_put_ptr max_cells 0) n' tmp acc (data i).(cell_key) (data i).(cell_val)) as (tmp' & E & Ht'); [done|lia|done|].
  change (hashmap_put_ptr max_cells 1 tmp (data i).(cell_key) (data i).(cell_val) = Some tmp') in E. rewrite E. apply IH; auto; [intros p Hp; apply Hl; by constructor|].
  apply insert_subseteq_l; [|done]. apply Hco; [apply Hl; constructor|done].
Qed.

Lemma resize_total m g s : hm_cells m g -> 0 <= s <= 58 -> 2 ^ Z.max s 4 <= max_cells -> Z.of_nat (size g) < Z.min 256 (2 ^ Z.max s 4) ->
  exists m', hashmap_resize max_cells (hashmap_put_ptr max_cells 1) m (2 ^ s) = Some m' /\ hm_at (Z.max s 4) m' g.
Proof.
  intros Hm Hs Hle Hsz. destruct (resize_spec (hashmap_put_ptr max_cells 1) m s ltac:(lia)) as (tmp & Htmp & ->).
  destruct (Z.leb_spec (2 ^ Z.max s 4) max_cells) as [_|]; [|lia]. specialize (Htmp Hle).
  destruct Hm as [[-> ->]|(n & data & Hn & Em & Ed & Hco)]; [by exists tmp|]. rewrite Ed, Em. replace (2 ^ n - 1 + 1) with (2 ^ n) by lia.
  destruct (copy_cells_total n data g (seqZ 0 (2 ^ n)) tmp ∅) with (n' := Z.max s 4) as (m' & E & Hm'); try done.
  - intros p Hp. apply elem_of_seqZ in Hp. lia.
  - apply map_empty_subseteq.
  - exists m'. split; [done|]. by rewrite (entries_all n data g Hco) in Hm'.
Qed.

(** A map with room takes any insertion or erasure of an absent key. *)
Lemma put_room put n m g k v : hm_at n m g -> Z.of_nat (size g) < Z.min 256 (2 ^ n) -> v <> 0 \/ g !! k = None ->
  exists m', hashmap_put_body max_cells put m k v = Some m' .
Proof.
  intros Hm Hs Hv. destruct (Z.eq_dec v 0) as [->|Hv0]; [|destruct (put_fits put n m g k v Hm Hs Hv0) as (m' & ? & _); by exists m'].
  destruct Hv as [|Hk]; [done|]. rewrite (put_body_internal put n m g) by done. unfold hashmap_put_internal.
  destruct (probe_at n m g k Hm) as (data & Ed & Hrep & Hp). rewrite Ed. cbv zeta.
  destruct (hashmap_probe _ _ _ _ _ _) as [p|p|]; [by exists m| |lia]. destruct Hp as ([v0 Hk0] & _). congruence.
Qed.

Lemma put_total m g k v : 256 <= max_cells -> hm_rep m g -> (size g <= 255)%nat -> exists m', hashmap_put_ptr max_cells 2 m k v = Some m'.
Proof.
  intros Hmx Hm Hs. change (hashmap_put_ptr max_cells 2) with (hashmap_put_body max_cells (hashmap_put_ptr max_cells 1)).
  assert (forall m1 g1 s, hm_cells m1 g1 -> 0 <= s <= 58 -> 2 ^ Z.max s 4 <= max_cells -> Z.of_nat (size g1) < Z.min 256 (2 ^ Z.max s 4) ->
    v <> 0 \/ g1 !! k = None ->
    exists m', (m2 ← hashmap_resize max_cells (hashmap_put_ptr max_cells 1) m1 (2 ^ s); hashmap_put_ptr max_cells 1 m2 k v) = Some m') as Hgrow.
  { intros m1 g1 s H1 H2 H3 H4 H5. destruct (resize_total m1 g1 s H1 H2 H3 H4) as (m2 & -> & Hm2). cbn. by eapply put_room. }
  destruct Hm as [[-> ->]|(n & Hm)].
  - unfold hashmap_put_body, hashmap_put_internal. cbn [hashmap_init hm_data].
    change (u64 (hashmap_capacity hashmap_init .<< 1)) with (2 ^ 1). apply (Hgrow hashmap_init ∅ 1); [by left|lia|change (2 ^ Z.max 1 4) with 16; lia|by vm_compute|by right].
  - rewrite (put_body_internal _ n m g) by done. unfold hashmap_put_internal.
    destruct (probe_at n m g k Hm) as (data & Ed & Hrep & Hp). rewrite Ed. cbv zeta.
    destruct (hashmap_probe _ _ _ _ _ _) as [p|p|].
    + case_match; by eexists.
    + destruct Hp as (Hk & Hp & Hvp & Hkp & Hr). destruct (Z.eqb_spec v 0) as [->|Hv]; [|by eexists].
      cbn [hm_count]. rewrite (erase_size n m g k Hm Hk). pose proof (erase_gapped n data g k p Hrep Hp Hvp Hkp) as Hgap.
      set (m1 := mk_hashmap (Some (set_val data p 0)) m.(hm_mask) (Z.of_nat (size (delete k g)))).
      assert (hashmap_capacity m1 = 2 ^ n) as Ecap by (by apply (capacity_at n m g)). destruct Hm as (Hn & Hle & Em & Ec & Hd).
      case_match; [by eexists|]. rewrite Ecap. rewrite !Z.shiftr_div_pow2, <- !Z.pow_sub_r by lia.
      destruct (Z.ltb_spec (Z.of_nat (size (delete k g))) (2 ^ (n - 2))) as [Hlt|].
      * pose proof (map_subseteq_size (delete k g) g (delete_subseteq g k)).
        assert (2 ^ (n - 2) <= 2 ^ Z.max (n - 1) 4 <= 2 ^ n) by (split; apply Z.pow_le_mono_r; lia).
        destruct (resize_total m1 (delete k g) (n - 1)) as (m' & -> & _); [|lia|lia|lia|by eexists].
        right. exists n, (set_val data p 0). split_and!; [lia|lia|done|done|]. by apply (gapped_cells n ltac:(lia) p).
      * destruct (rebalance_internal_rep n ltac:(lia) data g k p Hrep Hp Hvp Hkp) as (data' & Er & Hr'). cbn [hm_mask m1].
        rewrite Em, Er. by eexists.
    + destruct Hp as [Hk Hfull]. rewrite (grow_size n m g Hm). pose proof Hm as (Hn & _).
      assert (2 ^ n <= 2 ^ 7) as H7.
      { apply Z.pow_le_mono_r; [lia|]. destruct (Z.le_gt_cases n 7); [done|]. assert (2 ^ 8 <= 2 ^ n) by (apply Z.pow_le_mono_r; lia). lia. }
      assert (n <= 7) by (apply (Z.pow_le_mono_r_iff 2); lia).
      assert (Z.of_nat (size g) <= 2 ^ n) by (destruct Hm as (_ & _ & _ & _ & d & _ & Hrd); by apply (size_bound n ltac:(lia) d g)).
      assert (2 ^ (n + 1) = 2 * 2 ^ n) by (rewrite Z.pow_add_r by lia; lia).
      apply (Hgrow m g (n + 1)); [by apply (at_cells n)|lia|rewrite Z.max_l by lia; lia|rewrite Z.max_l by lia; lia|by right].
Qed.

End Map.

(** ** Refinement *)

Inductive hm_cmd := HPut (key val : Z) | HErase (key : Z) | HGet (key : Z) | HSize.

(** The results of a sequence of commands; [None]: one of them did not return. *)
Fixpoint hm_run (max_cells : Z) (fuel : nat) (cs : list hm_cmd) (m : hashmap) : option (list Z) :=
  match cs with
  | [] => Some []
  | HPut k v :: cs => m ← hashmap_put_ptr max_cells fuel m k v; hm_run max_cells fuel cs m
  | HErase k :: cs => m ← hashmap_erase max_cells fuel m k; hm_run max_cells fuel cs m
  | HGet k :: cs => rs ← hm_run max_cells fuel cs m; Some (hashmap_get_ptr m k :: rs)
  | HSize :: cs => rs ← hm_run max_cells fuel cs m; Some (hashmap_size m :: rs)
  end.

(** The same commands on a finite map; storing the null pointer erases. *)
Fixpoint map_run (cs : list hm_cmd) (g : gmap Z Z) : list Z :=
  match cs with
  | [] => []
  | HPut k v :: cs => map_run cs (upd k v g)
  | HErase k :: cs => map_run cs (delete k g)
  | HGet k :: cs => default 0 (g !! k) :: map_run cs g
  | HSize :: cs => Z.of_nat (size g) :: map_run cs g
  end.

(** The map holds at most [b] keys before every command. *)
Fixpoint map_small (b : nat) (cs : list hm_cmd) (g : gmap Z Z) : Prop :=
  (size g <= b)%nat /\
  match cs with
  | [] => True
  | HPut k v :: cs => map_small b cs (upd k v g)
  | HErase k :: cs => map_small b cs (delete k g)
  | HGet _ :: cs | HSize :: cs => map_small b cs g
  end.

Lemma hm_size_spec max_cells m g : hm_rep max_cells m g -> hashmap_size m = Z.of_nat (size g).
Proof. intros [[-> ->]|(n & _ & _ & _ & Ec & _)]; [by rewrite map_size_empty|done]. Qed.

Lemma hm_run_refines max_cells fuel cs : 16 <= max_cells <= 2 ^ 58 -> forall m g rs, hm_rep max_cells m g ->
  hm_run max_cells fuel cs m = Some rs -> rs = map_run cs g.
Proof.
  intros Hmx. induction cs as [|c cs IH]; intros m g rs Hm Hr; [by injection Hr as <-|].
  destruct c as [k v|k|k|]; cbn [hm_run map_run] in *.
  - destruct (hashmap_put_ptr max_cells fuel m k v) as [m1|] eqn:E; [|done]. cbn in Hr. apply (IH m1); [|done]. by eapply put_ptr_ok.
  - unfold hashmap_erase in Hr. destruct (hashmap_put_ptr max_cells fuel m k 0) as [m1|] eqn:E; [|done]. cbn in Hr.
    apply (IH m1); [|done]. change (delete k g) with (upd k 0 g). by eapply put_ptr_ok.
  - destruct (hm_run max_cells fuel cs m) as [rs1|] eqn:E; [|done]. cbn in Hr. injection Hr as <-. f_equal; [by eapply get_spec|by apply (IH m)].
  - destruct (hm_run max_cells fuel cs m) as [rs1|] eqn:E; [|done]. cbn in Hr. injection Hr as <-.
    f_equal; [by eapply hm_size_spec|by apply (IH m)].
Qed.

Lemma hm_run_total max_cells cs : 256 <= max_cells <= 2 ^ 58 -> forall m g, hm_rep max_cells m g -> map_small 255 cs g ->
  is_Some (hm_run max_cells 2 cs m).
Proof.
  intros Hmx. assert (16 <= max_cells <= 2 ^ 58) as Hmx' by lia. induction cs as [|c cs IH]; intros m g Hm [Hs Hsm]; [by eexists|].
  destruct c as [k v|k|k|]; cbn [hm_run].
  - destruct (put_total max_cells Hmx' m g k v) as (m1 & E); [lia|done|done|]. rewrite E. cbn. apply (IH m1 (upd k v g)); [|done]. by eapply put_ptr_ok.
  - unfold hashmap_erase. destruct (put_total max_cells Hmx' m g k 0) as (m1 & E); [lia|done|done|]. rewrite E. cbn.
    apply (IH m1 (delete k g)); [|done]. change (delete k g) with (upd k 0 g). by eapply put_ptr_ok.
  - destruct (IH m g Hm Hsm) as [rs ->]. by eexists.
  - destruct (IH m g Hm Hsm) as [rs ->]. by eexists.
Qed.

(** C32: the hash map is a finite map.  Whatever sequence of insertions, erasures, lookups and
    size queries returns, it returns what it returns on a finite map from keys to values: no
    entry is lost or changed when cells are moved to close a gap, when the table grows or when
    it shrinks.  While fewer than 256 keys are stored every operation returns, growing at most
    once. *)
Theorem hashmap_refines_map max_cells fuel cs : 256 <= max_cells <= 2 ^ 58 ->
  (forall rs, hm_run max_cells fuel cs hashmap_init = Some rs -> rs = map_run cs ∅) /\
  (map_small 255 cs ∅ -> hm_run max_cells 2 cs hashmap_init = Some (map_run cs ∅)).
Proof.
  intros Hmx. assert (16 <= max_cells <= 2 ^ 58) as Hmx' by lia. assert (hm_rep max_cells hashmap_init ∅) as Hi by by left. split.
  - intros rs. by apply hm_run_refines.
  - intros Hs. destruct (hm_run_total max_cells cs Hmx hashmap_init ∅ Hi Hs) as [rs E]. rewrite E. f_equal. by eapply hm_run_refines.
Qed.

(** Keys 0, 16 and 32 share their home cell in a table of 16 cells; erasing the middle one
    closes the gap. *)
Definition demo_cmds : list hm_cmd :=
  [HPut 0 1; HPut 16 2; HPut 32 3; HPut 1 4; HPut 2 5; HErase 16; HGet 0; HGet 16; HGet 32; HGet 1; HSize].

Lemma hashmap_refines_map_witness :
  map_small 255 demo_cmds ∅ /\ hm_run 256 2 demo_cmds hashmap_init = Some [1; 0; 3; 4; 4].
Proof.
  assert (map_small 255 demo_cmds ∅) as Hs by (cbn; repeat split; vm_compute; repeat constructor).
  split; [exact Hs|]. rewrite (proj2 (hashmap_refines_map 256 2 demo_cmds ltac:(split; discriminate)) Hs). vm_compute. reflexivity.
Defined.
