(* ===== verification/Spinlock.v ===== *)
(** * Reader/writer lock (src/util/spinlock.h, spinlock.c)

    Threads interleave at the granularity of atomic operations: the state of a thread says
    which atomic operation it performs next, with the values it holds, and a step performs the
    operation and the local computation up to the next one.  Weak compare-and-swap may fail
    without reason, a futex sleeps only when the word has the expected value, wakes any one of
    the sleepers and may return early.  Theorems, for any number of threads and any
    interleaving: a writer excludes everyone else and no use is reported as a locking issue;
    no sleeping thread is forgotten, and when the lock is free some thread gets it. *)

From stdpp Require Import relations.
From S2P Require Import Prelude BitOps.

Definition SPINLOCK_USER_RETRIES : nat := 40.
Definition SPINLOCK_QUIESCENT : Z := 0x00000000.
Definition SPINLOCK_HAS_WRITER : Z := 0x00000001.
Definition SPINLOCK_HAS_READERS : Z := 0x7FFFFFFE.
Definition SPINLOCK_HAS_WAITERS : Z := 0x80000000.

(** Where a thread is.  [w] tells writers from readers, [slow] whether the caller waits,
    [loop] whether the claim is made from the waiting loop. *)
Inductive lstate :=
| Idle
| HoldW
| HoldR
| TryLock                             (** [spin_try_lock]: compare-and-swap *)
| Lock                                (** [spin_lock]: compare-and-swap *)
| ReadLoad (slow : bool)              (** [spin_try_read_lock]: load *)
| ReadCas (slow : bool) (prev : Z)
| User (w : bool) (i : nat)           (** [spin_lock_try_wait_user]: load *)
| Claim (w loop : bool)               (** [spin_try_claim_lock]: compare-and-swap, or load for readers *)
| ClaimCas (loop : bool) (prev : Z)
| Loop (w : bool)                     (** [spin_lock_wait_internal]: load *)
| Mark (w : bool) (flag : Z)
| Futex (w : bool) (flag : Z)
| Sleep (w : bool)
| ClearWaiters                        (** [spin_read_lock_wake] *)
| Wake                                (** futex wake *)
| Crash.

Definition spin_flag_has_writer (flag : Z) : bool := nz (flag .& SPINLOCK_HAS_WRITER).
Definition spin_flag_has_readers (flag : Z) : bool := nz (flag .& SPINLOCK_HAS_READERS).
Definition spin_flag_has_waiters (flag : Z) : bool := nz (flag .& SPINLOCK_HAS_WAITERS).

Definition spin_lock_possibly_available (flag : Z) (writer : bool) : bool :=
  if writer then negb (nz flag)
  else negb (nz (flag .& (SPINLOCK_HAS_WRITER .| SPINLOCK_HAS_WAITERS))).

(** [atomic_cas_uint32]; [fail] is the failure of a weak one. *)
Definition cas (fail : bool) (flag exp val : Z) : Z * bool := if negb fail && (flag =? exp) then (val, true) else (flag, false).

(** ** Operations, one atomic step each *)

Definition spin_try_lock_internal (flag : Z) : Z * lstate :=
  let '(flag, ok) := cas false flag 0x00 0x01 in (flag, if ok then HoldW else Idle).

Definition spin_lock_internal (fail : bool) (flag : Z) : Z * lstate :=
  let '(flag, ok) := cas fail flag 0x00 0x01 in (flag, if ok then HoldW else User true 0).

(** The check of [spin_try_read_lock] with the value just read. *)
Definition read_check (slow : bool) (prev : Z) : lstate :=
  if nz (prev .& 0x80000001) then if slow then User false 0 else Idle else ReadCas slow prev.

Definition spin_try_read_lock (fail slow : bool) (flag prev : Z) : Z * lstate :=
  let '(flag, ok) := cas fail flag prev (u32 (prev + 0x02)) in (flag, if ok then HoldR else read_check slow flag).

Definition spin_lock_wake (prev : Z) : lstate :=
  if spin_flag_has_readers prev then Crash
  else if negb (spin_flag_has_writer prev) then Crash
  else if spin_flag_has_waiters prev then Wake
  else Idle.

Definition spin_unlock (flag : Z) : Z * lstate := (0x00, if flag =? 0x01 then Idle else spin_lock_wake flag).
Definition spin_unlock_busy_loop (flag : Z) : Z * lstate := (0x00, Idle).

Definition spin_read_lock_wake (prev : Z) : lstate :=
  if spin_flag_has_writer prev then Crash
  else if negb (spin_flag_has_readers prev) then Crash
  else if spin_flag_has_waiters prev then ClearWaiters
  else Idle.

Definition spin_read_unlock (flag : Z) : Z * lstate :=
  (u32 (flag - 0x02), if s32 flag <? 0x02 then spin_read_lock_wake flag else Idle).

Definition waiters (loop : bool) : Z := if loop then SPINLOCK_HAS_WAITERS else 0.

(** The reader's check of [spin_try_claim_lock]. *)
Definition claim_check (loop : bool) (prev : Z) : lstate :=
  if spin_lock_possibly_available prev false then ClaimCas loop prev else Loop false.

Definition spin_try_claim_lock (flag : Z) (writer loop : bool) : Z * lstate :=
  if writer then
    let '(flag, ok) := cas false flag SPINLOCK_QUIESCENT (SPINLOCK_HAS_WRITER .| waiters loop) in
    (flag, if ok then HoldW else Loop true)
  else (flag, claim_check loop flag).

Definition spin_try_claim_read (fail loop : bool) (flag prev : Z) : Z * lstate :=
  let '(flag, ok) := cas fail flag prev (u32 (prev + 2) .| waiters loop) in
  (flag, if ok then HoldR else claim_check loop flag).

Definition spin_lock_try_wait_user (flag : Z) (writer : bool) (i : nat) : lstate :=
  if spin_lock_possibly_available flag writer then Claim writer false
  else if (S i <? SPINLOCK_USER_RETRIES)%nat then User writer (S i)
  else Loop writer.

(** [busy] is [SPINLOCK_WAIT_BUSY_LOOP]. *)
Definition spin_lock_wait_internal (busy : bool) (flag : Z) (writer : bool) : lstate :=
  if spin_lock_possibly_available flag writer then Claim writer true
  else if busy then Loop writer
  else if negb (spin_flag_has_waiters flag) then Mark writer flag
  else Futex writer flag.

Definition mark_waiter (flag : Z) (writer : bool) (old : Z) : Z * lstate :=
  let '(flag, ok) := cas false flag old (old .| SPINLOCK_HAS_WAITERS) in
  (flag, if ok then Futex writer (old .| SPINLOCK_HAS_WAITERS) else Loop writer).

Definition futex_wait (flag : Z) (writer : bool) (val : Z) : lstate := if flag =? val then Sleep writer else Loop writer.

(** The steps a thread performs on its own inside of the lock code. *)
Definition lstep (busy fail : bool) (flag : Z) (s : lstate) : option (Z * lstate) :=
  match s with
  | TryLock => Some (spin_try_lock_internal flag)
  | Lock => Some (spin_lock_internal fail flag)
  | ReadLoad slow => Some (flag, read_check slow flag)
  | ReadCas slow prev => Some (spin_try_read_lock fail slow flag prev)
  | User w i => Some (flag, spin_lock_try_wait_user flag w i)
  | Claim w loop => Some (spin_try_claim_lock flag w loop)
  | ClaimCas loop prev => Some (spin_try_claim_read fail loop flag prev)
  | Loop w => Some (flag, spin_lock_wait_internal busy flag w)
  | Mark w old => Some (mark_waiter flag w old)
  | Futex w val => Some (flag, futex_wait flag w val)
  | ClearWaiters => Some (flag .& u32 (Z.lnot 0x80000000), Wake)
  | Idle | HoldW | HoldR | Sleep _ | Wake | Crash => None
  end.

(** ** Threads *)

Record system := mk_system { flag : Z; threads : list lstate }.

Definition upd_thread (sys : system) (t : nat) (f : Z) (s : lstate) : system := mk_system f (<[t := s]> sys.(threads)).

(** The operation a thread starts. *)
Definition entry (s : lstate) : Prop := s = TryLock \/ s = Lock \/ s = ReadLoad false \/ s = ReadLoad true.

Definition sleeping (s : lstate) : bool := match s with Sleep _ => true | _ => false end.

Inductive sstep (busy : bool) (sys : system) : system -> Prop :=
| step_call t s : sys.(threads) !! t = Some Idle -> entry s -> sstep busy sys (upd_thread sys t sys.(flag) s)
| step_unlock t f s : sys.(threads) !! t = Some HoldW -> spin_unlock sys.(flag) = (f, s) -> sstep busy sys (upd_thread sys t f s)
| step_unlock_busy t f s : busy = true -> sys.(threads) !! t = Some HoldW -> spin_unlock_busy_loop sys.(flag) = (f, s) ->
    sstep busy sys (upd_thread sys t f s)
| step_read_unlock t f s : sys.(threads) !! t = Some HoldR -> spin_read_unlock sys.(flag) = (f, s) -> sstep busy sys (upd_thread sys t f s)
| step_local t fail s f s' : sys.(threads) !! t = Some s -> lstep busy fail sys.(flag) s = Some (f, s') -> sstep busy sys (upd_thread sys t f s')
| step_wake t u w : sys.(threads) !! t = Some Wake -> sys.(threads) !! u = Some (Sleep w) ->
    sstep busy sys (mk_system sys.(flag) (<[u := Loop w]> (<[t := Idle]> sys.(threads))))
| step_wake_none t : sys.(threads) !! t = Some Wake -> Forall (fun s => sleeping s = false) sys.(threads) ->
    sstep busy sys (upd_thread sys t sys.(flag) Idle)
| step_timeout t w : sys.(threads) !! t = Some (Sleep w) -> sstep busy sys (upd_thread sys t sys.(flag) (Loop w)).

(** [spin_init]: nobody is inside. *)
Definition spin_init (n : nat) : system := mk_system 0 (repeat Idle n).

Inductive lock_reachable (busy : bool) (n : nat) : system -> Prop :=
| reach_init : lock_reachable busy n (spin_init n)
| reach_step sys sys' : lock_reachable busy n sys -> sstep busy sys sys' -> lock_reachable busy n sys'.

(** ** The lock word *)

(** Everything but the bit of the waiters. *)
Definition low (f : Z) : Z := f mod 2 ^ 31.

Lemma low_split f : urange 32 f -> (f = low f /\ f < 2 ^ 31) \/ (f = low f + 2 ^ 31 /\ 2 ^ 31 <= f).
Proof. unfold urange, low. intros H. dlia. Qed.

Lemma low_range f : 0 <= low f < 2 ^ 31.
Proof. apply Z.mod_pos_bound. lia. Qed.

Lemma land_field_div x p n : 0 <= p -> 0 <= n -> Z.land x (Z.shiftl (Z.ones n) p) = x / 2 ^ p mod 2 ^ n * 2 ^ p.
Proof. intros Hp Hn. rewrite land_field by done. unfold wrap. by rewrite Z.shiftl_mul_pow2, Z.shiftr_div_pow2 by done. Qed.

Lemma land_waiters f : urange 32 f -> f .& SPINLOCK_HAS_WAITERS = if 2 ^ 31 <=? f then 2 ^ 31 else 0.
Proof.
  intros H. change SPINLOCK_HAS_WAITERS with (Z.ones 1 .<< 31). rewrite land_field_div by lia. unfold urange in H. destruct (Z.leb_spec (2 ^ 31) f); dlia.
Qed.

Lemma land_writer f : f .& SPINLOCK_HAS_WRITER = f mod 2.
Proof. change SPINLOCK_HAS_WRITER with (Z.ones 1). by rewrite Z.land_ones by lia. Qed.

Lemma has_waiters_eq f : urange 32 f -> spin_flag_has_waiters f = (2 ^ 31 <=? f).
Proof. intros H. unfold spin_flag_has_waiters. rewrite land_waiters by done. by destruct (2 ^ 31 <=? f). Qed.

Lemma has_writer_eq f : spin_flag_has_writer f = nz (low f mod 2).
Proof. unfold spin_flag_has_writer, low. rewrite land_writer. f_equal. dlia. Qed.

Lemma has_readers_eq f : spin_flag_has_readers f = nz (low f / 2).
Proof.
  unfold spin_flag_has_readers, low. change SPINLOCK_HAS_READERS with (Z.ones 30 .<< 1). rewrite land_field_div by lia.
  change (2 ^ 31) with (2 * 2 ^ 30). rewrite Z.rem_mul_r by lia. change (2 ^ 1) with 2. pose proof (Z.mod_pos_bound f 2 ltac:(lia)).
  replace ((f mod 2 + 2 * (f / 2 mod 2 ^ 30)) / 2) with (f / 2 mod 2 ^ 30) by dlia. unfold nz. f_equal.
  destruct (Z.eqb_spec (f / 2 mod 2 ^ 30 * 2) 0), (Z.eqb_spec (f / 2 mod 2 ^ 30) 0); (done || lia).
Qed.

(** A writer or waiters. *)
Lemma land_busy f : urange 32 f -> nz (f .& 0x80000001) = nz (low f mod 2) || (2 ^ 31 <=? f).
Proof.
  intros H. change 0x80000001 with (SPINLOCK_HAS_WRITER .| SPINLOCK_HAS_WAITERS). rewrite Z.land_lor_distr_r, land_waiters, land_writer by done.
  unfold low, nz. assert (f mod 2 ^ 31 mod 2 = f mod 2) as -> by dlia. pose proof (Z.mod_pos_bound f 2 ltac:(lia)).
  assert (f mod 2 = 0 \/ f mod 2 = 1) as [->| ->] by lia; by destruct (2 ^ 31 <=? f).
Qed.

Lemma lor_waiters f : urange 32 f -> f .| SPINLOCK_HAS_WAITERS = low f + 2 ^ 31.
Proof.
  intros H. pose proof (Z.add_lor_land f SPINLOCK_HAS_WAITERS) as E. rewrite land_waiters in E by done. unfold SPINLOCK_HAS_WAITERS in *.
  destruct (low_split f H) as [[E1 H1]|[E1 H1]]; destruct (Z.leb_spec (2 ^ 31) f); lia.
Qed.

Lemma land_not_waiters f : f .& u32 (Z.lnot 0x80000000) = low f.
Proof. change (u32 (Z.lnot 0x80000000)) with (Z.ones 31). by rewrite Z.land_ones by lia. Qed.

Lemma available_eq f w : urange 32 f -> spin_lock_possibly_available f w = if w then f =? 0 else negb (nz (low f mod 2) || (2 ^ 31 <=? f)).
Proof.
  intros H. unfold spin_lock_possibly_available. destruct w; [unfold nz; by rewrite negb_involutive|].
  change (SPINLOCK_HAS_WRITER .| SPINLOCK_HAS_WAITERS) with 0x80000001. by rewrite land_busy.
Qed.

(** ** Invariant *)

(** What a thread contributes to the word. *)
Definition weight (s : lstate) : Z := match s with HoldW => 1 | HoldR => 2 | _ => 0 end.
Definition weights (l : list lstate) : Z := foldr (fun s acc => weight s + acc) 0 l.

(** A thread that will claim the lock with the bit of the waiters set, or wake someone. *)
Definition awake (s : lstate) : bool :=
  match s with
  | Wake | ClearWaiters | Loop _ | Mark _ _ | Futex _ _ | Claim _ true | ClaimCas true _ => true
  | _ => false
  end.

(** The values a thread holds. *)
Definition local_ok (busy : bool) (s : lstate) : Prop :=
  match s with
  | Crash => False
  | Sleep _ => busy = false
  | Mark _ f => busy = false /\ urange 32 f /\ f < 2 ^ 31 /\ low f <> 0
  | Futex _ f => busy = false /\ urange 32 f /\ 2 ^ 31 <= f
  | ReadCas _ f | ClaimCas _ f => urange 32 f /\ f < 2 ^ 31 /\ low f mod 2 = 0
  | _ => True
  end.

Record inv (busy : bool) (sys : system) : Prop := mk_inv {
  i_range : urange 32 sys.(flag);
  i_sum : low sys.(flag) = weights sys.(threads);
  i_writer : HoldW ∈ sys.(threads) -> low sys.(flag) = 1;
  i_count : Z.of_nat (length sys.(threads)) < 2 ^ 30;
  i_local : Forall (local_ok busy) sys.(threads);
  i_waiters : 2 ^ 31 <= sys.(flag) -> low sys.(flag) = 0 -> ClearWaiters ∈ sys.(threads);
  i_sleep : (exists w, Sleep w ∈ sys.(threads)) -> 2 ^ 31 <= sys.(flag) \/ exists s, s ∈ sys.(threads) /\ awake s = true
}.

Lemma weights_insert l : forall t s s', l !! t = Some s -> weights (<[t := s']> l) = weights l - weight s + weight s'.
Proof.
  induction l as [|x l IH]; intros t s s' H; [done|]. destruct t as [|t]; cbn in H.
  - injection H as ->. cbn. lia.
  - cbn [weights foldr insert list_insert]. fold (weights l). change (foldr _ 0 (<[t:=s']> l)) with (weights (<[t:=s']> l)). rewrite (IH _ _ _ H). lia.
Qed.

Lemma weights_bounds l : 0 <= weights l <= 2 * Z.of_nat (length l).
Proof. induction l as [|s l IH]; [done|]. cbn [weights foldr length]. fold (weights l). destruct s; cbn [weight]; lia. Qed.

Lemma weights_member l t s : l !! t = Some s -> weight s <= weights l.
Proof.
  intros H. pose proof (weights_insert l t s Idle H) as E. pose proof (weights_bounds (<[t := Idle]> l)). cbn [weight] in E. lia.
Qed.

(** Two holders. *)
Lemma weights_two l t u s r : l !! t = Some s -> l !! u = Some r -> t <> u -> weight s + weight r <= weights l.
Proof.
  intros Ht Hu Hn. pose proof (weights_insert l t s Idle Ht) as E. assert (<[t := Idle]> l !! u = Some r) as Hu' by by rewrite list_lookup_insert_ne.
  apply weights_member in Hu'. cbn [weight] in E. lia.
Qed.

(** Without a writer the sum is even. *)
Lemma weights_even l : HoldW ∉ l -> weights l mod 2 = 0.
Proof.
  induction l as [|s l IH]; intros H; [done|]. apply not_elem_of_cons in H as [Hs Hl]. specialize (IH Hl). cbn [weights foldr]. fold (weights l).
  destruct s; cbn [weight]; try done; dlia.
Qed.

Lemma elem_of_insert_inv {A} (l : list A) t x y : x ∈ <[t := y]> l -> x = y \/ exists u, u <> t /\ l !! u = Some x.
Proof.
  intros [u Hu]%list_elem_of_lookup. apply list_lookup_insert_Some in Hu as [(-> & -> & _)|[Hn Hu]]; [by left|]. right. by exists u.
Qed.

(** One thread moves. *)
Lemma inv_upd busy sys t s f' s' : inv busy sys -> sys.(threads) !! t = Some s -> local_ok busy s' -> urange 32 f' ->
  low f' = low sys.(flag) - weight s + weight s' ->
  (s' = HoldW -> low f' = 1) -> (low f' = low sys.(flag) \/ forall u, u <> t -> sys.(threads) !! u <> Some HoldW) ->
  (2 ^ 31 <= f' -> low f' = 0 -> s' = ClearWaiters \/ 2 ^ 31 <= sys.(flag) /\ low sys.(flag) = 0 /\ s <> ClearWaiters) ->
  (sleeping s' = true -> 2 ^ 31 <= f') ->
  (2 ^ 31 <= f' \/ awake s' = true \/ sys.(flag) < 2 ^ 31 /\ awake s = false \/
   (exists u r, u <> t /\ sys.(threads) !! u = Some r /\ awake r = true) \/ Forall (fun s => sleeping s = false) sys.(threads)) ->
  inv busy (upd_thread sys t f' s').
Proof.
  intros [Ir Is Iw Ic Il Ia Ip] Ht Hl Hr Hs Hw Ho Hcw Hsl Haw.
  assert (forall u r, u <> t -> sys.(threads) !! u = Some r -> r ∈ <[t := s']> sys.(threads)) as Hin.
  { intros u r Hn Hu. apply (list_elem_of_lookup_2 _ u). by rewrite list_lookup_insert_ne. }
  assert (s' ∈ <[t := s']> sys.(threads)) as Hin'.
  { apply (list_elem_of_lookup_2 _ t). apply list_lookup_insert_eq. by eapply lookup_lt_Some. }
  split; cbn [flag threads upd_thread].
  - done.
  - rewrite (weights_insert _ _ _ _ Ht). lia.
  - intros H. apply elem_of_insert_inv in H as [H|(u & Hn & Hu)]; [by apply Hw|]. destruct Ho as [Ho|Ho]; [|by apply Ho in Hu].
    rewrite Ho. apply Iw. by apply (list_elem_of_lookup_2 _ u).
  - by rewrite length_insert.
  - by apply Forall_insert.
  - intros H1 H2. destruct (Hcw H1 H2) as [->|(H3 & H4 & H5)]; [done|]. pose proof (Ia H3 H4) as [u Hu]%list_elem_of_lookup.
    apply (Hin u); [|done]. intros ->. congruence.
  - intros [w [H|(u & Hn & Hu)]%elem_of_insert_inv]; [left; apply Hsl; by rewrite <- H|].
    destruct Haw as [H|[H|[[H1 H2]|[(v & r & Hv & Hr' & H)|H]]]]; [by left|right; by exists s'| |right; exists r; eauto|].
    + destruct Ip as [H|(r & Hr' & H)]; [exists w; by apply (list_elem_of_lookup_2 _ u)|lia|]. right. exists r. split; [|done].
      apply list_elem_of_lookup in Hr' as [v Hv]. apply (Hin v); [|done]. intros ->. congruence.
    + apply (Forall_lookup_1 _ _ _ _ H) in Hu. done.
Qed.

Lemma inv_no_writer busy sys : inv busy sys -> low sys.(flag) <> 1 -> HoldW ∉ sys.(threads).
Proof. intros I H Hw. by apply H, (i_writer _ _ I). Qed.

(** A thread that holds nothing goes on without changing the word. *)
Lemma inv_move busy sys t s s' : inv busy sys -> sys.(threads) !! t = Some s -> weight s = 0 -> weight s' = 0 -> local_ok busy s' ->
  s <> ClearWaiters -> sleeping s' = false -> awake s' = true \/ awake s = false -> inv busy (upd_thread sys t sys.(flag) s').
Proof.
  intros I Ht Hs Hs' Hl Hc Hsl Ha. apply (inv_upd busy sys t s); try done; [apply I|lia|by intros ->|by left|auto|by rewrite Hsl|].
  pose proof (low_split _ (i_range _ _ I)). destruct Ha as [Ha|Ha]; [auto|]. destruct (decide (sys.(flag) < 2 ^ 31)); [auto|left; lia].
Qed.

(** A thread takes the free lock as a writer. *)
Lemma inv_acquire_w busy sys t s f' : inv busy sys -> sys.(threads) !! t = Some s -> weight s = 0 -> s <> ClearWaiters -> sys.(flag) = 0 ->
  urange 32 f' -> low f' = 1 -> 2 ^ 31 <= f' \/ awake s = false -> inv busy (upd_thread sys t f' HoldW).
Proof.
  intros I Ht Hs Hc H0 Hr Hlow Ha. assert (low sys.(flag) = 0) as E by by rewrite H0.
  apply (inv_upd busy sys t s); try done; [cbn; lia| |lia|].
  - right. intros u _ Hu. apply (inv_no_writer _ _ I); [lia|]. by apply (list_elem_of_lookup_2 _ u).
  - destruct Ha as [Ha|Ha]; [by left|]. right; right; left. split; [lia|done].
Qed.

Lemma reader_room busy sys t s : inv busy sys -> sys.(threads) !! t = Some s -> weight s = 0 -> sys.(flag) < 2 ^ 31 -> sys.(flag) + 2 < 2 ^ 31.
Proof.
  intros I Ht Hs H31. pose proof (low_split _ (i_range _ _ I)) as Hlow. pose proof (weights_insert _ t s HoldR Ht) as E.
  pose proof (weights_bounds (<[t := HoldR]> sys.(threads))) as Hb. rewrite length_insert in Hb.
  pose proof (i_count _ _ I). rewrite (i_sum _ _ I) in Hlow. cbn [weight] in E. lia.
Qed.

(** A thread joins the readers. *)
Lemma inv_acquire_r busy sys t s f' : inv busy sys -> sys.(threads) !! t = Some s -> weight s = 0 -> s <> ClearWaiters ->
  sys.(flag) < 2 ^ 31 -> low sys.(flag) mod 2 = 0 -> f' = sys.(flag) + 2 \/ f' = sys.(flag) + 2 + 2 ^ 31 -> 2 ^ 31 <= f' \/ awake s = false ->
  inv busy (upd_thread sys t f' HoldR).
Proof.
  intros I Ht Hs Hc H31 Heven Hf' Ha. pose proof (low_split _ (i_range _ _ I)) as Hlow. pose proof (i_range _ _ I) as Hr0. unfold urange in Hr0.
  pose proof (reader_room busy sys t s I Ht Hs H31) as Hlt.
  assert (low f' = low sys.(flag) + 2 /\ urange 32 f') as [El Hr].
  { unfold low, urange. destruct Hf' as [->| ->]; split; try dlia. }
  apply (inv_upd busy sys t s); try done; [cbn [weight]; lia| |pose proof (low_range sys.(flag)); lia|].
  - right. intros u _ Hu. apply (inv_no_writer _ _ I); [intros E; rewrite E in Heven; done|]. by apply (list_elem_of_lookup_2 _ u).
  - destruct Ha as [Ha|Ha]; [by left|]. right; right; left. done.
Qed.

Lemma read_check_ok busy slow f : urange 32 f -> local_ok busy (read_check slow f) /\ weight (read_check slow f) = 0 /\ sleeping (read_check slow f) = false.
Proof.
  intros Hr. unfold read_check. rewrite land_busy by done. unfold nz. destruct (Z.eqb_spec (low f mod 2) 0); cbn [negb orb]; [|by destruct slow].
  destruct (Z.leb_spec (2 ^ 31) f); [by destruct slow|]. cbn. done.
Qed.

Lemma claim_check_ok busy loop f : urange 32 f -> let s := claim_check loop f in
  local_ok busy s /\ weight s = 0 /\ sleeping s = false /\ (loop = true -> awake s = true).
Proof.
  intros Hr. unfold claim_check. rewrite available_eq by done. unfold nz. destruct (Z.eqb_spec (low f mod 2) 0); cbn [negb orb]; [|done].
  destruct (Z.leb_spec (2 ^ 31) f); [done|]. cbn. by destruct loop.
Qed.

Lemma cas_cases fail f e v : (cas fail f e v = (v, true) /\ f = e) \/ cas fail f e v = (f, false).
Proof. unfold cas. destruct fail; [by right|]. destruct (Z.eqb_spec f e); [by left|by right]. Qed.

(** The lock word after a claim from the loop and from outside. *)
Lemma claim_word f loop : urange 32 f -> f < 2 ^ 31 -> f .| waiters loop = f + (if loop then 2 ^ 31 else 0).
Proof.
  intros Hr H. destruct loop; cbn [waiters]; [|by rewrite Z.lor_0_r, Z.add_0_r]. rewrite lor_waiters by done.
  destruct (low_split f Hr) as [[E _]|[_ E]]; lia.
Qed.

(** The entry points and the spinning in user space. *)
Lemma entry_inv busy fail sys t s f s' : inv busy sys -> sys.(threads) !! t = Some s ->
  match s with TryLock | Lock | ReadLoad _ | ReadCas _ _ | User _ _ => True | _ => False end ->
  lstep busy fail sys.(flag) s = Some (f, s') -> inv busy (upd_thread sys t f s').
Proof.
  intros I Ht Hk Hst. pose proof (i_range _ _ I) as Hr. pose proof (Forall_lookup_1 _ _ _ _ (i_local _ _ I) Ht) as Hl.
  destruct s; try done; cbn [lstep] in Hst; cbn [local_ok] in Hl.
  - unfold spin_try_lock_internal in Hst. destruct (cas_cases false sys.(flag) 0 1) as [[E Ef]|E]; rewrite E in Hst; injection Hst as <- <-.
    + by apply (inv_acquire_w busy sys t TryLock); auto.
    + apply (inv_move busy sys t TryLock); auto; done.
  - unfold spin_lock_internal in Hst. destruct (cas_cases fail sys.(flag) 0 1) as [[E Ef]|E]; rewrite E in Hst; injection Hst as <- <-.
    + by apply (inv_acquire_w busy sys t Lock); auto.
    + apply (inv_move busy sys t Lock); auto; done.
  - injection Hst as <- <-. destruct (read_check_ok busy slow sys.(flag) Hr) as (H1 & H2 & H3). apply (inv_move busy sys t (ReadLoad slow)); auto; done.
  - unfold spin_try_read_lock in Hst. destruct Hl as (Hp & Hp31 & Hpe).
    destruct (cas_cases fail sys.(flag) prev (u32 (prev + 2))) as [[E Ef]|E]; rewrite E in Hst; injection Hst as <- <-.
    + subst prev. apply (inv_acquire_r busy sys t (ReadCas slow sys.(flag))); auto. left. apply wrap_small. unfold urange in *. lia.
    + destruct (read_check_ok busy slow sys.(flag) Hr) as (H1 & H2 & H3). apply (inv_move busy sys t (ReadCas slow prev)); auto; done.
  - injection Hst as <- <-. unfold spin_lock_try_wait_user.
    destruct (spin_lock_possibly_available _ _); [|destruct (S i <? SPINLOCK_USER_RETRIES)%nat]; apply (inv_move busy sys t (User w i)); auto; done.
Qed.

(** Claiming the lock. *)
Lemma claim_inv busy sys t f s' w loop : inv busy sys -> sys.(threads) !! t = Some (Claim w loop) ->
  spin_try_claim_lock sys.(flag) w loop = (f, s') -> inv busy (upd_thread sys t f s').
Proof.
  intros I Ht Hst. pose proof (i_range _ _ I) as Hr. unfold spin_try_claim_lock in Hst. destruct w.
  - destruct (cas_cases false sys.(flag) SPINLOCK_QUIESCENT (SPINLOCK_HAS_WRITER .| waiters loop)) as [[E Ef]|E]; rewrite E in Hst; injection Hst as <- <-.
    + unfold SPINLOCK_HAS_WRITER. rewrite claim_word by (unfold urange; lia).
      apply (inv_acquire_w busy sys t (Claim true loop)); auto; destruct loop; auto; try reflexivity; try (unfold urange; lia); left; lia.
    + apply (inv_move busy sys t (Claim true loop)); auto; done.
  - injection Hst as <- <-. destruct (claim_check_ok busy loop sys.(flag) Hr) as (H1 & H2 & H3 & H4).
    apply (inv_move busy sys t (Claim false loop)); auto. destruct loop; auto.
Qed.

Lemma claim_read_inv busy fail sys t f s' loop prev : inv busy sys -> sys.(threads) !! t = Some (ClaimCas loop prev) ->
  spin_try_claim_read fail loop sys.(flag) prev = (f, s') -> inv busy (upd_thread sys t f s').
Proof.
  intros I Ht Hst. pose proof (i_range _ _ I) as Hr. destruct (Forall_lookup_1 _ _ _ _ (i_local _ _ I) Ht) as (Hp & Hp31 & Hpe).
  unfold spin_try_claim_read in Hst.
  destruct (cas_cases fail sys.(flag) prev (u32 (prev + 2) .| waiters loop)) as [[E Ef]|E]; rewrite E in Hst; injection Hst as <- <-.
  - subst prev. pose proof (reader_room busy sys t _ I Ht eq_refl Hp31). unfold urange in Hr. rewrite (wrap_small 32) by (unfold urange; lia).
    rewrite claim_word by (unfold urange; lia). apply (inv_acquire_r busy sys t (ClaimCas loop sys.(flag))); auto; destruct loop; auto; lia.
  - destruct (claim_check_ok busy loop sys.(flag) Hr) as (H1 & H2 & H3 & H4). apply (inv_move busy sys t (ClaimCas loop prev)); auto. destruct loop; auto.
Qed.

(** The waiting loop. *)
Lemma loop_inv busy sys t w : inv busy sys -> sys.(threads) !! t = Some (Loop w) ->
  inv busy (upd_thread sys t sys.(flag) (spin_lock_wait_internal busy sys.(flag) w)).
Proof.
  intros I Ht. pose proof (i_range _ _ I) as Hr. unfold spin_lock_wait_internal. rewrite available_eq, has_waiters_eq by done.
  pose proof (low_split _ Hr) as Hls. apply (inv_move busy sys t (Loop w)); auto.
  all: destruct w, busy; unfold nz; destruct (Z.leb_spec (2 ^ 31) sys.(flag)), (Z.eqb_spec sys.(flag) 0), (Z.eqb_spec (low sys.(flag) mod 2) 0); cbn; auto; try lia.
  all: split_and!; try done; try lia. intros E. rewrite E in *. done.
Qed.

Lemma mark_inv busy sys t w old f s' : inv busy sys -> sys.(threads) !! t = Some (Mark w old) ->
  mark_waiter sys.(flag) w old = (f, s') -> inv busy (upd_thread sys t f s').
Proof.
  intros I Ht Hst. pose proof (i_range _ _ I) as Hr. destruct (Forall_lookup_1 _ _ _ _ (i_local _ _ I) Ht) as (Hb & Hro & Ho & Hlo).
  unfold mark_waiter in Hst. destruct (cas_cases false sys.(flag) old (old .| SPINLOCK_HAS_WAITERS)) as [[E Ef]|E]; rewrite E in Hst; injection Hst as <- <-.
  - subst old. rewrite lor_waiters by done. pose proof (low_range sys.(flag)).
    assert (low (low sys.(flag) + 2 ^ 31) = low sys.(flag)) as El by (unfold low; dlia).
    apply (inv_upd busy sys t (Mark w sys.(flag))); try done; cbn [weight local_ok sleeping awake]; auto; rewrite ?El; unfold urange; try lia; auto. split_and!; (done || lia).
  - apply (inv_move busy sys t (Mark w old)); auto; done.
Qed.

Lemma futex_inv busy sys t w val : inv busy sys -> sys.(threads) !! t = Some (Futex w val) ->
  inv busy (upd_thread sys t sys.(flag) (futex_wait sys.(flag) w val)).
Proof.
  intros I Ht. destruct (Forall_lookup_1 _ _ _ _ (i_local _ _ I) Ht) as (Hb & Hrv & Hv). unfold futex_wait.
  destruct (Z.eqb_spec sys.(flag) val) as [E|_].
  - apply (inv_upd busy sys t (Futex w val)); try done; cbn [weight]; auto; try lia; try apply I; try (left; lia).
  - apply (inv_move busy sys t (Futex w val)); auto; done.
Qed.

Lemma clear_inv busy sys t : inv busy sys -> sys.(threads) !! t = Some ClearWaiters -> inv busy (upd_thread sys t (low sys.(flag)) Wake).
Proof.
  intros I Ht. pose proof (low_range sys.(flag)). assert (low (low sys.(flag)) = low sys.(flag)) as El by (unfold low; dlia).
  apply (inv_upd busy sys t ClearWaiters); try done; cbn [weight]; rewrite ?El; auto; unfold urange; lia.
Qed.

Lemma lstep_inv busy fail sys t s f s' : inv busy sys -> sys.(threads) !! t = Some s -> lstep busy fail sys.(flag) s = Some (f, s') ->
  inv busy (upd_thread sys t f s').
Proof.
  intros I Ht Hst. destruct s; try done; try (by apply (entry_inv busy fail sys t _ f s' I Ht)); cbn [lstep] in Hst; injection Hst as Hst.
  - by apply (claim_inv busy sys t f s' w loop).
  - by apply (claim_read_inv busy fail sys t f s' loop prev).
  - subst. by apply loop_inv.
  - by apply (mark_inv busy sys t w flag0).
  - subst. by apply futex_inv.
  - subst. rewrite land_not_waiters. by apply clear_inv.
Qed.

(** A writer is alone. *)
Lemma writer_alone busy sys t : inv busy sys -> sys.(threads) !! t = Some HoldW ->
  low sys.(flag) = 1 /\ forall u, u <> t -> sys.(threads) !! u <> Some HoldW /\ sys.(threads) !! u <> Some HoldR.
Proof.
  intros I Ht. assert (low sys.(flag) = 1) as E by (apply (i_writer _ _ I); by apply (list_elem_of_lookup_2 _ t)). split; [done|].
  intros u Hn. split; intros Hu; pose proof (weights_two _ t u _ _ Ht Hu ltac:(done)) as Hw; rewrite <- (i_sum _ _ I), E in Hw; cbn [weight] in Hw; lia.
Qed.

Lemma spin_lock_wake_eq f : urange 32 f -> low f = 1 -> (f =? 1) = false -> spin_lock_wake f = Wake /\ 2 ^ 31 <= f.
Proof.
  intros Hr E Hn. unfold spin_lock_wake. rewrite has_readers_eq, has_writer_eq, has_waiters_eq, E by done. cbn.
  destruct (Z.eqb_spec f 1); [done|]. destruct (low_split f Hr) as [[Ef _]|[Ef H31]]; [lia|]. by destruct (Z.leb_spec (2 ^ 31) f); [|lia].
Qed.

Lemma unlock_inv busy sys t f s : inv busy sys -> sys.(threads) !! t = Some HoldW -> spin_unlock sys.(flag) = (f, s) -> inv busy (upd_thread sys t f s).
Proof.
  intros I Ht [= <- <-]. destruct (writer_alone busy sys t I Ht) as [E Ho]. pose proof (i_range _ _ I) as Hr.
  assert (exists s', (if sys.(flag) =? 1 then Idle else spin_lock_wake sys.(flag)) = s' /\ (s' = Idle /\ sys.(flag) < 2 ^ 31 \/ s' = Wake)) as (s' & -> & Hs').
  { destruct (Z.eqb_spec sys.(flag) 1) as [E1|Hn]; [exists Idle; split; [done|left; split; [done|lia]]|]. exists Wake. split; [|by right].
    apply spin_lock_wake_eq; [done|done|]. by apply Z.eqb_neq. }
  assert (weight s' = 0 /\ local_ok busy s' /\ s' <> HoldW /\ sleeping s' = false) as (Hw & Hl & Hnw & Hsl) by (destruct Hs' as [[-> _]| ->]; done).
  apply (inv_upd busy sys t HoldW); rewrite ?E, ?Hw; try done; [right; apply Ho|by rewrite Hsl|].
  destruct Hs' as [[-> H]| ->]; auto.
Qed.

Lemma unlock_busy_inv sys t : inv true sys -> sys.(threads) !! t = Some HoldW -> inv true (upd_thread sys t 0 Idle).
Proof.
  intros I Ht. destruct (writer_alone true sys t I Ht) as [E Ho]. apply (inv_upd true sys t HoldW); rewrite ?E; try done; [right; apply Ho|].
  right; right; right; right. refine (Forall_impl _ _ (i_local _ _ I)). intros s Hs. by destruct s.
Qed.

Lemma read_unlock_inv busy sys t f s : inv busy sys -> sys.(threads) !! t = Some HoldR -> spin_read_unlock sys.(flag) = (f, s) ->
  inv busy (upd_thread sys t f s).
Proof.
  intros I Ht [= <- <-]. pose proof (i_range _ _ I) as Hr. pose proof (weights_member _ _ _ Ht) as Hm. rewrite <- (i_sum _ _ I) in Hm. cbn [weight] in Hm.
  assert (HoldW ∉ sys.(threads)) as Hnw by (apply (inv_no_writer _ _ I); lia).
  assert (low sys.(flag) mod 2 = 0) as He by (rewrite (i_sum _ _ I); by apply weights_even). pose proof (low_split _ Hr) as Hls. unfold urange in Hr.
  assert (low (sys.(flag) - 2) = low sys.(flag) - 2) as El by (unfold low in *; dlia). rewrite (wrap_small 32) by (unfold urange; lia).
  set (s' := if s32 sys.(flag) <? 2 then _ else _).
  assert (s' = Idle /\ sys.(flag) < 2 ^ 31 \/ s' = ClearWaiters /\ 2 ^ 31 <= sys.(flag)) as Hs'.
  { unfold s', spin_read_lock_wake. rewrite has_writer_eq, has_readers_eq, has_waiters_eq by (unfold urange; lia). rewrite He. cbn [nz negb Z.eqb].
    assert (nz (low sys.(flag) / 2) = true) as -> by (unfold nz; destruct (Z.eqb_spec (low sys.(flag) / 2) 0); [dlia|done]). cbn [negb].
    destruct (Z.leb_spec (2 ^ 31) sys.(flag)).
    - assert (s32 sys.(flag) < 2) by (unfold signed; dlia). right. by destruct (Z.ltb_spec (s32 sys.(flag)) 2); [|lia].
    - left. split; [|done]. by destruct (s32 sys.(flag) <? 2). }
  assert (weight s' = 0 /\ local_ok busy s' /\ s' <> HoldW /\ sleeping s' = false) as (Hw & Hl & Hnh & Hsl) by (destruct Hs' as [[-> _]|[-> _]]; done).
  apply (inv_upd busy sys t HoldR); rewrite ?Hw; try done; [unfold urange; lia|cbn [weight]; lia| | |by rewrite Hsl|].
  - right. intros u _ Hu. apply Hnw. by apply (list_elem_of_lookup_2 _ u).
  - intros H1 H2. destruct Hs' as [[_ H3]|[-> _]]; [lia|by left].
  - destruct Hs' as [[-> H3]|[-> _]]; auto.
Qed.

Lemma wake_inv busy sys t u w : inv busy sys -> sys.(threads) !! t = Some Wake -> sys.(threads) !! u = Some (Sleep w) ->
  inv busy (mk_system sys.(flag) (<[u := Loop w]> (<[t := Idle]> sys.(threads)))).
Proof.
  intros I Ht Hu. assert (t <> u) as Hn by (intros ->; congruence).
  assert (inv busy (upd_thread sys u sys.(flag) (Loop w))) as I1 by (apply (inv_move busy sys u (Sleep w)); auto; done).
  rewrite list_insert_insert_ne by done.
  apply (inv_upd busy (upd_thread sys u sys.(flag) (Loop w)) t Wake sys.(flag) Idle I1); cbn [upd_thread flag threads]; try done; auto; try apply I.
  - by rewrite list_lookup_insert_ne.
  - cbn [weight]. lia.
  - right; right; right; left. exists u, (Loop w). split_and!; [done| |done]. apply list_lookup_insert_eq. by eapply lookup_lt_Some.
Qed.

Lemma sstep_inv busy sys sys' : inv busy sys -> sstep busy sys sys' -> inv busy sys'.
Proof.
  intros I H. destruct H as [t s Ht He|t f s Ht E|t f s Hb Ht E|t f s Ht E|t fail s f s' Ht E|t u w Ht Hu|t Ht Hf|t w Ht].
  - apply (inv_move busy sys t Idle); try done; destruct He as [->|[->|[->| ->]]]; auto; done.
  - by apply (unlock_inv busy).
  - subst busy. injection E as <- <-. by apply unlock_busy_inv.
  - by apply read_unlock_inv.
  - by apply (lstep_inv busy fail sys t s).
  - by apply (wake_inv busy _ t u).
  - apply (inv_upd busy sys t Wake); try done; auto; [apply I|cbn [weight]; lia].
  - apply (inv_move busy sys t (Sleep w)); auto; done.
Qed.

Lemma init_inv busy n : Z.of_nat n < 2 ^ 30 -> inv busy (spin_init n).
Proof.
  intros Hn. split; cbn [spin_init flag threads]; [done| | | | |done|].
  - assert (weights (repeat Idle n) = 0) as -> by (clear; induction n; [done|]; cbn [repeat weights foldr]; fold (weights (repeat Idle n)); rewrite IHn; done). done.
  - intros H%list_elem_of_In%repeat_spec. done.
  - by rewrite repeat_length.
  - apply Forall_forall. intros s H%repeat_spec. by subst.
  - intros [w H%list_elem_of_In%repeat_spec]. done.
Qed.

Lemma reachable_inv busy n sys : Z.of_nat n < 2 ^ 30 -> lock_reachable busy n sys -> inv busy sys.
Proof. intros Hn. induction 1 as [|sys sys' _ IH H]; [by apply init_inv|by apply (sstep_inv busy sys)]. Qed.

(** C9: mutual exclusion.  However the threads interleave, with fewer than 2^30 of them, while
    a thread holds the lock as a writer no other thread holds it, neither as a writer nor as a
    reader; and no release is ever reported as a mismatch. *)
Theorem spinlock_exclusion busy n sys : Z.of_nat n < 2 ^ 30 -> lock_reachable busy n sys ->
  (forall t u, sys.(threads) !! t = Some HoldW -> u <> t -> sys.(threads) !! u <> Some HoldW /\ sys.(threads) !! u <> Some HoldR) /\
  Crash ∉ sys.(threads).
Proof.
  intros Hn Hr. pose proof (reachable_inv busy n sys Hn Hr) as I. split.
  - intros t u Ht Hu. by apply (writer_alone busy sys t I Ht).
  - intros [t Ht]%list_elem_of_lookup. by apply (Forall_lookup_1 _ _ _ _ (i_local _ _ I)) in Ht.
Qed.

(** ** Progress *)

(** Steps of threads that are inside of the lock code: no new calls, no timeouts. *)
Inductive istep (sys : system) : system -> Prop :=
| istep_local t s f s' : sys.(threads) !! t = Some s -> lstep false false sys.(flag) s = Some (f, s') -> istep sys (upd_thread sys t f s')
| istep_wake t u w : sys.(threads) !! t = Some Wake -> sys.(threads) !! u = Some (Sleep w) ->
    istep sys (mk_system sys.(flag) (<[u := Loop w]> (<[t := Idle]> sys.(threads)))).

Definition holds_lock (s : lstate) : Prop := s = HoldW \/ s = HoldR.

(** Some thread gets the lock in a schedule of at most [n] steps. *)
Definition acquires (n : nat) (sys : system) : Prop :=
  exists sys' u s, bsteps istep n sys sys' /\ sys'.(threads) !! u = Some s /\ holds_lock s.

Lemma acquires_step n sys sys' : istep sys sys' -> acquires n sys' -> acquires (S n) sys.
Proof. intros H (sys2 & u & s & Hs & Hu & Hh). exists sys2, u, s. split; [by eapply bsteps_l|done]. Qed.

Lemma acquires_local n sys t s f s' : sys.(threads) !! t = Some s -> lstep false false sys.(flag) s = Some (f, s') ->
  (upd_thread sys t f s').(threads) !! t = Some s' /\ (acquires n (upd_thread sys t f s') -> acquires (S n) sys).
Proof.
  intros Ht E. split; [apply list_lookup_insert_eq; by eapply lookup_lt_Some|]. apply acquires_step. by apply (istep_local sys t s).
Qed.

Lemma acquires_now n sys t s : sys.(threads) !! t = Some s -> holds_lock s -> acquires n sys.
Proof. intros Ht Hs. exists sys, t, s. split; [apply bsteps_refl|done]. Qed.

(** Goes on with the step of the thread [t]. *)
Ltac local_step Ht :=
  lazymatch type of Ht with
  | threads ?sys !! ?t = Some ?s =>
      lazymatch goal with
      | |- acquires (S ?n) _ =>
          let H := fresh in
          destruct (acquires_local n sys t s _ _ Ht eq_refl) as [H ?Hgo]; apply Hgo; clear Hgo Ht; rename H into Ht
      end
  end.

Lemma claim_acquires sys t w : sys.(flag) = 0 -> sys.(threads) !! t = Some (Claim w true) -> acquires 2 sys.
Proof.
  intros H0 Ht. destruct sys as [f l]. cbn in H0. subst f. destruct w; local_step Ht.
  - by apply (acquires_now _ _ t HoldW); [|left].
  - local_step Ht. by apply (acquires_now _ _ t HoldR); [|right].
Qed.

Lemma loop_acquires sys t w : sys.(flag) = 0 -> sys.(threads) !! t = Some (Loop w) -> acquires 3 sys.
Proof.
  intros H0 Ht. destruct sys as [f l]. cbn in H0. subst f. local_step Ht.
  apply (claim_acquires _ t w); [done|]. by destruct w.
Qed.

Lemma wake_acquires sys t u w : sys.(flag) = 0 -> sys.(threads) !! t = Some Wake -> sys.(threads) !! u = Some (Sleep w) -> acquires 4 sys.
Proof.
  intros H0 Ht Hu. eapply acquires_step; [by apply (istep_wake _ t u w)|]. apply (loop_acquires _ u w); [done|].
  apply list_lookup_insert_eq. rewrite length_insert. by eapply lookup_lt_Some.
Qed.

Lemma acquires_weaken n m sys : (n <= m)%nat -> acquires n sys -> acquires m sys.
Proof. intros H (sys' & u & s & Hs & Hu). exists sys', u, s. split; [by apply (bsteps_weaken n)|done]. Qed.

(** With a free lock, a thread that is awake gets it or wakes one that does. *)
Lemma awake_acquires sys t s u w : inv false sys -> sys.(flag) = 0 -> sys.(threads) !! t = Some s -> awake s = true ->
  sys.(threads) !! u = Some (Sleep w) -> acquires 5 sys.
Proof.
  intros I H0 Ht Ha Hu. pose proof (Forall_lookup_1 _ _ _ _ (i_local _ _ I) Ht) as Hl. destruct s as [| | | | | | | |w' []|[] prev|w'|w' f|w' f| | | |]; try done.
  - apply (acquires_weaken 2); [lia|]. by apply (claim_acquires _ t w').
  - destruct (cas_cases false 0 prev (u32 (prev + 2) .| waiters true)) as [[E _]|E].
    + destruct (acquires_local 4 sys t _ (u32 (prev + 2) .| waiters true) HoldR Ht) as [Ht' Hgo].
      { cbn [lstep]. unfold spin_try_claim_read. by rewrite H0, E. }
      apply Hgo. by apply (acquires_now _ _ t HoldR); [|right].
    + destruct (acquires_local 4 sys t _ 0 (ClaimCas true 0) Ht) as [Ht' Hgo].
      { cbn [lstep]. unfold spin_try_claim_read. by rewrite H0, E. }
      apply Hgo. destruct (acquires_local 3 _ t _ _ _ Ht' eq_refl) as [Ht2 Hgo2]. apply Hgo2. by apply (acquires_now _ _ t HoldR); [|right].
  - apply (acquires_weaken 3); [lia|]. by apply (loop_acquires _ t w').
  - destruct (acquires_local 4 sys t _ 0 (Loop w') Ht) as [Ht' Hgo].
    { cbn [lstep]. unfold mark_waiter, cas. rewrite H0. by destruct (Z.eqb_spec 0 f) as [<-|_]; [destruct Hl as (_ & _ & _ & Hl)|]. }
    apply Hgo, (acquires_weaken 3); [lia|]. by apply (loop_acquires _ t w').
  - destruct (acquires_local 4 sys t _ 0 (Loop w') Ht) as [Ht' Hgo].
    { cbn [lstep]. unfold futex_wait. rewrite H0. destruct (Z.eqb_spec 0 f) as [<-|_]; [destruct Hl as (_ & _ & Hl); lia|done]. }
    apply Hgo, (acquires_weaken 3); [lia|]. by apply (loop_acquires _ t w').
  - destruct (acquires_local 4 sys t _ _ _ Ht eq_refl) as [Ht' Hgo]. apply Hgo. clear Hgo. rewrite H0 in *.
    apply (wake_acquires _ t u w); [done|done|]. cbn [upd_thread threads]. rewrite list_lookup_insert_ne; [done|]. intros ->. congruence.
  - apply (acquires_weaken 4); [lia|]. by apply (wake_acquires _ t u w).
Qed.

(** C17: no thread is forgotten.  In every state the threads can reach, if a thread sleeps until
    it gets the lock and nobody holds the lock, then the threads that are already inside of
    the lock code can get one of them the lock: there is a schedule of at most six of their
    steps, without a failure of a compare-and-swap that finds the expected value, with no
    timeout, no new caller and no other help. *)
Theorem spinlock_progress n sys u w : Z.of_nat n < 2 ^ 30 -> lock_reachable false n sys -> sys.(threads) !! u = Some (Sleep w) ->
  (forall t s, sys.(threads) !! t = Some s -> ~ holds_lock s) -> acquires 6 sys.
Proof.
  intros Hn Hr Hu Hfree. pose proof (reachable_inv false n sys Hn Hr) as I.
  assert (low sys.(flag) = 0) as El.
  { rewrite (i_sum _ _ I). assert (Forall (fun s => weight s = 0) sys.(threads)) as Hw.
    { apply Forall_lookup. intros t s Ht. specialize (Hfree t s Ht). destruct s; try done; exfalso; apply Hfree; [by left|by right]. }
    clear -Hw. induction Hw as [|s l Hs _ IH]; [done|]. cbn [weights foldr]. fold (weights l). lia. }
  destruct (low_split _ (i_range _ _ I)) as [[E H31]|[E H31]].
  - assert (sys.(flag) = 0) as H0 by lia. destruct (i_sleep _ _ I) as [H|(s & Hs & Ha)]; [exists w; by apply (list_elem_of_lookup_2 _ u)|lia|].
    apply list_elem_of_lookup in Hs as [t Ht]. apply (acquires_weaken 5); [lia|]. by apply (awake_acquires sys t s u w).
  - pose proof (i_waiters _ _ I H31 El) as [t Ht]%list_elem_of_lookup.
    destruct (acquires_local 5 sys t _ _ _ Ht eq_refl) as [Ht' Hgo]. apply Hgo. clear Hgo. rewrite land_not_waiters, El in *.
    apply (acquires_weaken 4); [lia|]. apply (wake_acquires _ t u w); [done|done|]. cbn [upd_thread threads].
    rewrite list_lookup_insert_ne; [done|]. intros ->. congruence.
Qed.

(** ** Examples *)

(** Executions of a schedule: which thread calls, releases or goes on. *)
Inductive move := MLock (t : nat) | MUnlock (t : nat) | MGo (t : nat).

Definition exec_move (m : move) (sys : system) : option system :=
  match m with
  | MLock t => match sys.(threads) !! t with Some Idle => Some (upd_thread sys t sys.(flag) Lock) | _ => None end
  | MUnlock t =>
      match sys.(threads) !! t with
      | Some HoldW => Some (upd_thread sys t (fst (spin_unlock sys.(flag))) (snd (spin_unlock sys.(flag))))
      | _ => None
      end
  | MGo t => s ← sys.(threads) !! t; '(f, s') ← lstep false false sys.(flag) s; Some (upd_thread sys t f s')
  end.

Fixpoint lock_run (l : list move) (sys : system) : option system :=
  match l with [] => Some sys | m :: l => sys ← exec_move m sys; lock_run l sys end.

Lemma exec_reachable n l : forall sys sys', lock_reachable false n sys -> lock_run l sys = Some sys' -> lock_reachable false n sys'.
Proof.
  induction l as [|m l IH]; intros sys sys' Hr E; [by injection E as <-|]. cbn [lock_run] in E.
  destruct (exec_move m sys) as [sys1|] eqn:Em; [|done]. apply (IH sys1); [|done]. apply (reach_step _ _ sys); [done|].
  destruct m as [t|t|t]; cbn [exec_move] in Em; destruct (threads sys !! t) as [s|] eqn:Ht; try done.
  - destruct s; try done. injection Em as <-. apply step_call; [done|]. right. by left.
  - destruct s; try done. injection Em as <-. by apply step_unlock.
  - cbn [mbind option_bind] in Em. destruct (lstep false false (flag sys) s) as [[f s']|] eqn:E1; [|done]. injection Em as <-.
    by apply (step_local false sys t false s).
Qed.

(** Thread 0 holds the lock while thread 1 spins, marks itself as a waiter and sleeps; then
    thread 0 has released the lock and is about to wake it. *)
Definition lock_schedule : list move := [MLock 0; MGo 0; MLock 1] ++ repeat (MGo 1) 44 ++ [MUnlock 0].

Lemma spinlock_exclusion_witness : exists sys, lock_run [MLock 0; MGo 0; MLock 1; MGo 1] (spin_init 2) = Some sys /\
  sys.(threads) !! 0%nat = Some HoldW /\ sys.(threads) !! 1%nat <> Some HoldW.
Proof.
  destruct (lock_run [MLock 0; MGo 0; MLock 1; MGo 1] (spin_init 2)) as [sys|] eqn:E; [|discriminate E]. exists sys. split; [reflexivity|].
  pose proof (exec_reachable 2 _ _ _ (reach_init false 2) E) as Hr. assert (sys.(threads) !! 0%nat = Some HoldW) as H0 by (injection E as <-; reflexivity).
  split; [exact H0|]. destruct (spinlock_exclusion false 2 sys eq_refl Hr) as [He _]. apply (He 0%nat 1%nat H0). discriminate.
Defined.

Lemma spinlock_progress_witness :
  lock_run lock_schedule (spin_init 2) = Some (mk_system 0 [Wake; Sleep true]) /\ acquires 6 (mk_system 0 [Wake; Sleep true]).
Proof.
  assert (lock_run lock_schedule (spin_init 2) = Some (mk_system 0 [Wake; Sleep true])) as E by (vm_compute; reflexivity). split; [exact E|].
  pose proof (exec_reachable 2 _ _ _ (reach_init false 2) E) as Hr. apply (spinlock_progress 2 _ 1 true eq_refl Hr); [reflexivity|].
  intros [|[|t]] s [= <-] [H|H]; discriminate H.
Defined.
