(* ===== verification/Rcu.v ===== *)
(** * Read-copy-update (src/util/rcu_lib.c, rcu_lib.h)

    Readers, writers and the registration of readers interleave at the granularity of atomic
    operations.  Readers publish the generation they entered in; a writer that has replaced a
    pointer flips the generation twice and after each flip waits until no registered reader is
    inside of the other generation.  The global lock is taken and released as one step, which
    is what the lock provides, and memory is sequentially consistent, which is what the
    barriers on both sides are for.  Theorem: when [rcu_synchronize] returns, no reader has the
    replaced pointer any more, so freeing it is safe; one flip would not be enough. *)

From S2P Require Import Prelude BitOps.

Definition RCU_INTERNAL_STATE_GEN : Z := 0x80000000.
Definition RCU_INTERNAL_STATE_READERS (state : Z) : Z := u16 state.

(** ** Readers *)

(** [RGot gen]: the generation is loaded but not yet published; [RReg]: between the two halves
    of [rcu_register_thread]. *)
Inductive rpc := ROut | RReg | RGot (gen : Z) | RIn | RCrash.

(** The state word of the thread, where it is, and the pointers it has from the current
    section. *)
Record reader := mk_reader { r_self : Z; r_pc : rpc; r_held : list nat }.

(** First step of [rcu_read_lock]: a nested section counts up, another one loads the generation. *)
Definition rcu_read_lock (gen : Z) (r : reader) : reader :=
  if negb (nz (RCU_INTERNAL_STATE_READERS r.(r_self))) then mk_reader r.(r_self) (RGot gen) r.(r_held)
  else mk_reader (u32 (r.(r_self) + 1)) RIn r.(r_held).

(** Second step: the store of the generation. *)
Definition rcu_publish (gen : Z) (r : reader) : reader := mk_reader gen RIn r.(r_held).

Definition rcu_dereference (ptr : nat) (r : reader) : reader := mk_reader r.(r_self) r.(r_pc) (ptr :: r.(r_held)).

(** Whether the call is reported as mismatched. *)
Definition rcu_internal_wake_writer (state : Z) : bool := negb (nz (RCU_INTERNAL_STATE_READERS state)).

(** [waiting] is what the load of [rcu_internal_writer_waiting] returns. *)
Definition rcu_read_unlock (waiting : bool) (r : reader) : reader :=
  let state := r.(r_self) in
  let self := u32 (state - 1) in
  if waiting && rcu_internal_wake_writer state then mk_reader self RCrash []
  else if nz (RCU_INTERNAL_STATE_READERS self) then mk_reader self RIn r.(r_held)
  else mk_reader self ROut [].

(** ** Writers *)

(** [second] tells the two generations of [rcu_synchronize] apart, [j] is the next reader. *)
Inductive wstate :=
| WIdle
| WSwapped (p : nat)
| WFlip (p : nat) (second : bool)
| WLoad (p : nat) (second : bool)
| WScan (p : nat) (second : bool) (gen : Z) (j : nat)
| WUnlock (p : nat)
| WDone (p : nat).

(** A reader inside of the previous generation. *)
Definition rcu_must_wait (state gen : Z) : bool :=
  nz (RCU_INTERNAL_STATE_READERS state) && nz ((state .^ gen) .& RCU_INTERNAL_STATE_GEN).

Record rcu := mk_rcu {
  rc_gen : Z;
  rc_ptr : nat;
  rc_next : nat;
  rc_freed : list nat;
  rc_lock : bool;
  rc_registered : list nat;
  rc_readers : list reader;
  rc_writers : list wstate
}.

(** One step of a writer between the replacement of a pointer and its release, which is
    [rcu_next_generation] twice under the lock.  [None]: it waits for the lock. *)
Definition rcu_synchronize (s : rcu) (w : wstate) : option (rcu * wstate) :=
  let with_lock l := mk_rcu s.(rc_gen) s.(rc_ptr) s.(rc_next) s.(rc_freed) l s.(rc_registered) s.(rc_readers) s.(rc_writers) in
  match w with
  | WSwapped p => if s.(rc_lock) then None else Some (with_lock true, WFlip p false)
  | WFlip p second =>
      Some (mk_rcu (s.(rc_gen) .^ RCU_INTERNAL_STATE_GEN) s.(rc_ptr) s.(rc_next) s.(rc_freed) s.(rc_lock) s.(rc_registered) s.(rc_readers) s.(rc_writers),
            WLoad p second)
  | WLoad p second => Some (s, WScan p second s.(rc_gen) 0)
  | WScan p second gen j =>
      match s.(rc_registered) !! j with
      | Some i =>
          match s.(rc_readers) !! i with
          | Some r => Some (s, if rcu_must_wait r.(r_self) gen then WLoad p second else WScan p second gen (S j))
          | None => None
          end
      | None => Some (s, if second then WUnlock p else WFlip p true)
      end
  | WUnlock p => Some (with_lock false, WDone p)
  | WIdle | WDone _ => None
  end.

(** ** Threads *)

Definition set_reader (s : rcu) (i : nat) (r : reader) : rcu :=
  mk_rcu s.(rc_gen) s.(rc_ptr) s.(rc_next) s.(rc_freed) s.(rc_lock) s.(rc_registered) (<[i := r]> s.(rc_readers)) s.(rc_writers).
Definition set_writer (s : rcu) (i : nat) (w : wstate) : rcu :=
  mk_rcu s.(rc_gen) s.(rc_ptr) s.(rc_next) s.(rc_freed) s.(rc_lock) s.(rc_registered) s.(rc_readers) (<[i := w]> s.(rc_writers)).
Definition set_registered (s : rcu) (l : list nat) : rcu :=
  mk_rcu s.(rc_gen) s.(rc_ptr) s.(rc_next) s.(rc_freed) s.(rc_lock) l s.(rc_readers) s.(rc_writers).

Fixpoint erase_reader (i : nat) (l : list nat) : list nat :=
  match l with
  | [] => []
  | j :: l' => if decide (j = i) then l' else j :: erase_reader i l'
  end.

(** The list is searched from its end. *)
Definition rcu_deregister_thread (i : nat) (l : list nat) : list nat := reverse (erase_reader i (reverse l)).

(** What [rcu_register_thread] does after it has deregistered the thread. *)
Definition rcu_register_thread (i : nat) (l : list nat) : list nat := l ++ [i].

(** [rcu_swap_pointer] with a new object. *)
Definition rcu_swap_pointer (s : rcu) : rcu * nat :=
  (mk_rcu s.(rc_gen) s.(rc_next) (S s.(rc_next)) s.(rc_freed) s.(rc_lock) s.(rc_registered) s.(rc_readers) s.(rc_writers), s.(rc_ptr)).

Definition rcu_free (s : rcu) (p : nat) : rcu :=
  mk_rcu s.(rc_gen) s.(rc_ptr) s.(rc_next) (p :: s.(rc_freed)) s.(rc_lock) s.(rc_registered) s.(rc_readers) s.(rc_writers).

(** Readers are registered, as the interface asks for, and nest less than 65536 deep, which is
    what the counter holds.  Registration happens outside of sections, under the lock. *)
Inductive rcu_step (s : rcu) : rcu -> Prop :=
| rcu_enter i r : s.(rc_readers) !! i = Some r -> (r.(r_pc) = ROut \/ r.(r_pc) = RIn) -> i ∈ s.(rc_registered) ->
    RCU_INTERNAL_STATE_READERS r.(r_self) < 65535 -> rcu_step s (set_reader s i (rcu_read_lock s.(rc_gen) r))
| rcu_entered i r gen : s.(rc_readers) !! i = Some r -> r.(r_pc) = RGot gen -> rcu_step s (set_reader s i (rcu_publish gen r))
| rcu_deref i r : s.(rc_readers) !! i = Some r -> r.(r_pc) = RIn -> rcu_step s (set_reader s i (rcu_dereference s.(rc_ptr) r))
| rcu_exit i r waiting : s.(rc_readers) !! i = Some r -> r.(r_pc) = RIn -> rcu_step s (set_reader s i (rcu_read_unlock waiting r))
| rcu_deregister i r pc : s.(rc_readers) !! i = Some r -> r.(r_pc) = ROut -> s.(rc_lock) = false -> (pc = ROut \/ pc = RReg) ->
    rcu_step s (set_reader (set_registered s (rcu_deregister_thread i s.(rc_registered))) i (mk_reader r.(r_self) pc r.(r_held)))
| rcu_register i r : s.(rc_readers) !! i = Some r -> r.(r_pc) = RReg -> s.(rc_lock) = false ->
    rcu_step s (set_reader (set_registered s (rcu_register_thread i s.(rc_registered))) i (mk_reader r.(r_self) ROut r.(r_held)))
| rcu_replace i s' p : s.(rc_writers) !! i = Some WIdle -> rcu_swap_pointer s = (s', p) -> rcu_step s (set_writer s' i (WSwapped p))
| rcu_sync i w s' w' : s.(rc_writers) !! i = Some w -> rcu_synchronize s w = Some (s', w') -> rcu_step s (set_writer s' i w')
| rcu_release i p : s.(rc_writers) !! i = Some (WDone p) -> rcu_step s (set_writer (rcu_free s p) i WIdle).

Definition rcu_init (readers writers : nat) : rcu :=
  mk_rcu 1 0 1 [] false [] (repeat (mk_reader 0 ROut []) readers) (repeat WIdle writers).

Inductive rcu_reachable (readers writers : nat) : rcu -> Prop :=
| rcu_reach_init : rcu_reachable readers writers (rcu_init readers writers)
| rcu_reach_step s s' : rcu_reachable readers writers s -> rcu_step s s' -> rcu_reachable readers writers s'.

(** ** Invariant *)

Definition gen_bit (state : Z) : bool := Z.testbit state 31.

(** What a reader knows of itself: its counter says whether it is inside, it is registered when
    it is, and it has pointers only then. *)
Definition reader_ok (s : rcu) (i : nat) (r : reader) : Prop :=
  urange 32 r.(r_self) /\
  (forall p, p ∈ r.(r_held) -> (p < s.(rc_next))%nat /\ p ∉ s.(rc_freed)) /\
  match r.(r_pc) with
  | ROut | RReg => RCU_INTERNAL_STATE_READERS r.(r_self) = 0 /\ r.(r_held) = []
  | RGot g => RCU_INTERNAL_STATE_READERS r.(r_self) = 0 /\ r.(r_held) = [] /\ i ∈ s.(rc_registered) /\ (g = 1 \/ g = 0x80000001)
  | RIn => RCU_INTERNAL_STATE_READERS r.(r_self) <> 0 /\ i ∈ s.(rc_registered)
  | RCrash => False
  end.

(** A reader that has [p] has entered in generation [g]. *)
Definition holds_in (p : nat) (g : bool) (r : reader) : Prop := p ∈ r.(r_held) -> gen_bit r.(r_self) = g.

Definition writer_ptr (w : wstate) : option nat :=
  match w with
  | WIdle => None
  | WSwapped p | WFlip p _ | WLoad p _ | WScan p _ _ _ | WUnlock p | WDone p => Some p
  end.

Definition locked (w : wstate) : bool :=
  match w with WFlip _ _ | WLoad _ _ | WScan _ _ _ _ | WUnlock _ => true | _ => false end.

(** The readers whose registration is before position [j], and all of them. *)
Definition all_readers (s : rcu) (P : reader -> Prop) : Prop := forall i r, s.(rc_readers) !! i = Some r -> P r.
Definition rcu_scanned (s : rcu) (j : nat) (P : reader -> Prop) : Prop :=
  forall k i r, (k < j)%nat -> s.(rc_registered) !! k = Some i -> s.(rc_readers) !! i = Some r -> P r.

(** What the writer has established so far. *)
Definition writer_ok (s : rcu) (w : wstate) : Prop :=
  (forall p, writer_ptr w = Some p -> (p < s.(rc_next))%nat /\ p <> s.(rc_ptr)) /\
  match w with
  | WFlip p true => all_readers s (holds_in p (gen_bit s.(rc_gen)))
  | WLoad p true => all_readers s (holds_in p (negb (gen_bit s.(rc_gen))))
  | WScan p false g j => g = s.(rc_gen) /\ rcu_scanned s j (holds_in p (gen_bit g))
  | WScan p true g j => g = s.(rc_gen) /\ all_readers s (holds_in p (negb (gen_bit g))) /\ rcu_scanned s j (fun r => p ∉ r.(r_held))
  | WUnlock p | WDone p => all_readers s (fun r => p ∉ r.(r_held))
  | _ => True
  end.

Record rcu_inv (s : rcu) : Prop := {
  ri_gen : s.(rc_gen) = 1 \/ s.(rc_gen) = 0x80000001;
  ri_ptr : (s.(rc_ptr) < s.(rc_next))%nat;
  ri_freed : forall p, p ∈ s.(rc_freed) -> (p < s.(rc_next))%nat /\ p <> s.(rc_ptr);
  ri_readers : forall i r, s.(rc_readers) !! i = Some r -> reader_ok s i r;
  ri_writers : forall i w, s.(rc_writers) !! i = Some w -> writer_ok s w;
  ri_lock : s.(rc_lock) = false -> forall i w, s.(rc_writers) !! i = Some w -> locked w = false;
  ri_excl : forall i j w w', s.(rc_writers) !! i = Some w -> s.(rc_writers) !! j = Some w' ->
    locked w = true -> locked w' = true -> i = j
}.

(** ** Readers preserve it *)

Lemma holds_in_mono s r r' p g : p <> s.(rc_ptr) ->
  (forall q, q ∈ r'.(r_held) -> (q ∈ r.(r_held) /\ gen_bit r'.(r_self) = gen_bit r.(r_self)) \/ q = s.(rc_ptr)) ->
  holds_in p g r -> holds_in p g r'.
Proof. intros Hp Hq H Hin. destruct (Hq p Hin) as [[H1 H2]|H1]; [rewrite H2; auto|congruence]. Qed.

Lemma not_held_mono s r r' p : p <> s.(rc_ptr) ->
  (forall q, q ∈ r'.(r_held) -> (q ∈ r.(r_held) /\ gen_bit r'.(r_self) = gen_bit r.(r_self)) \/ q = s.(rc_ptr)) ->
  p ∉ r.(r_held) -> p ∉ r'.(r_held).
Proof. intros Hp Hq H Hin. destruct (Hq p Hin) as [[H1 H2]|H1]; [auto|congruence]. Qed.

(** A reader may drop pointers, or take the current one, as long as it keeps its generation. *)
Lemma reader_step s i r r' l : rcu_inv s -> s.(rc_readers) !! i = Some r ->
  (l = s.(rc_registered) \/ s.(rc_lock) = false) -> (forall j, j <> i -> j ∈ s.(rc_registered) -> j ∈ l) ->
  reader_ok (set_registered s l) i r' ->
  (forall q, q ∈ r'.(r_held) -> (q ∈ r.(r_held) /\ gen_bit r'.(r_self) = gen_bit r.(r_self)) \/ q = s.(rc_ptr)) ->
  rcu_inv (set_reader (set_registered s l) i r').
Proof.
  intros HI Hi Hl Hk Hok Hq.
  assert (Hlook : forall k x, (set_reader (set_registered s l) i r').(rc_readers) !! k = Some x ->
            (k = i /\ x = r') \/ (k <> i /\ s.(rc_readers) !! k = Some x)).
  { simpl. intros k x. apply (insert_cases _ _ _ _ _ _ Hi). }
  assert (Hall : forall (P : reader -> Prop), (P r -> P r') -> all_readers s P -> all_readers (set_reader (set_registered s l) i r') P).
  { intros P HP Ha k x [[-> ->]|[_ Hx]]%Hlook; [apply HP|]; eapply Ha; eauto. }
  assert (Hsc : forall j (P : reader -> Prop), l = s.(rc_registered) -> (P r -> P r') -> rcu_scanned s j P ->
            rcu_scanned (set_reader (set_registered s l) i r') j P).
  { intros j P -> HP Ha k m x Hkj Hm [[-> ->]|[_ Hx]]%Hlook; [apply HP|]; eapply Ha; eauto. }
  destruct HI as [Hg Hp Hf Hr Hw Hlk Hex]. split; try assumption.
  - intros k x [[-> ->]|[Hne Hx]]%Hlook; [exact Hok|].
    destruct (Hr k x Hx) as (Hu & Hh & Hc). split_and!; [exact Hu|exact Hh|].
    destruct (r_pc x); simpl; naive_solver.
  - intros k w Hkw. destruct (Hw k w Hkw) as [Hwp Hwo]. split; [exact Hwp|].
    assert (Hl' : locked w = true -> l = s.(rc_registered)).
    { intros Hlw. destruct Hl as [Hl|Hl]; [exact Hl|]. rewrite (Hlk Hl k w Hkw) in Hlw. discriminate. }
    destruct w as [|p|p sec|p sec|p sec g j|p|p]; try exact I.
    all: destruct (Hwp p eq_refl) as [_ Hne]; try (destruct sec; try exact I).
    all: simpl; repeat match goal with |- _ /\ _ => split end.
    all: try (apply Hall; [|exact Hwo || apply Hwo]); try (apply Hsc; [apply Hl'; reflexivity| |apply Hwo]).
    all: try apply (not_held_mono s r r' _ Hne Hq); try apply (holds_in_mono s r r' _ _ Hne Hq).
    all: apply Hwo.
Qed.

Lemma gen_bit_leb x : urange 32 x -> gen_bit x = (0x80000000 <=? x).
Proof.
  intros Hx. unfold gen_bit. rewrite Z.testbit_eqb by lia. unfold urange in Hx. change (2 ^ 31) with 2147483648.
  case_bool; case_bool; dlia.
Qed.

(** The count of readers moves without touching the generation. *)
Lemma count_up x : urange 32 x -> RCU_INTERNAL_STATE_READERS x < 65535 ->
  urange 32 (u32 (x + 1)) /\ RCU_INTERNAL_STATE_READERS (u32 (x + 1)) = RCU_INTERNAL_STATE_READERS x + 1 /\ gen_bit (u32 (x + 1)) = gen_bit x.
Proof.
  intros Hx H. unfold RCU_INTERNAL_STATE_READERS, u16, u32, wrap in *. unfold urange in *.
  assert (Hm : (x + 1) mod 2 ^ 32 = x + 1) by dlia. rewrite Hm. split_and!; [dlia..|].
  rewrite !gen_bit_leb by (unfold urange; dlia). case_bool; case_bool; dlia.
Qed.

Lemma count_down x : urange 32 x -> RCU_INTERNAL_STATE_READERS x <> 0 ->
  urange 32 (u32 (x - 1)) /\ RCU_INTERNAL_STATE_READERS (u32 (x - 1)) = RCU_INTERNAL_STATE_READERS x - 1 /\ gen_bit (u32 (x - 1)) = gen_bit x.
Proof.
  intros Hx H. unfold RCU_INTERNAL_STATE_READERS, u16, u32, wrap in *. unfold urange in *.
  assert (Hm : (x - 1) mod 2 ^ 32 = x - 1) by dlia. rewrite Hm. split_and!; [dlia..|].
  rewrite !gen_bit_leb by (unfold urange; dlia). case_bool; case_bool; dlia.
Qed.

Lemma nz_readers x : nz (RCU_INTERNAL_STATE_READERS x) = negb (RCU_INTERNAL_STATE_READERS x =? 0).
Proof. reflexivity. Qed.

Lemma read_lock_inv s i r : rcu_inv s -> s.(rc_readers) !! i = Some r -> (r.(r_pc) = ROut \/ r.(r_pc) = RIn) ->
  i ∈ s.(rc_registered) -> RCU_INTERNAL_STATE_READERS r.(r_self) < 65535 ->
  rcu_inv (set_reader s i (rcu_read_lock s.(rc_gen) r)).
Proof.
  intros HI Hi Hpc Hreg Hn. pose proof (ri_readers s HI i r Hi) as (Hu & Hh & Hc).
  apply (reader_step s i r _ s.(rc_registered)); auto.
  - unfold rcu_read_lock. rewrite nz_readers. destruct (Z.eqb_spec (RCU_INTERNAL_STATE_READERS r.(r_self)) 0) as [He|He]; simpl.
    + split_and!; [exact Hu|exact Hh|]. simpl. destruct Hpc as [Hpc|Hpc]; rewrite Hpc in Hc; [|destruct Hc; contradiction].
      destruct Hc as [_ Hc]. split_and!; auto. apply (ri_gen s HI).
    + destruct (count_up _ Hu Hn) as (H1 & H2 & _). split_and!; [exact H1|exact Hh|]. simpl. rewrite H2. split; [|exact Hreg].
      unfold RCU_INTERNAL_STATE_READERS, u16, wrap in *. dlia.
  - intros q Hq. left. unfold rcu_read_lock in *. rewrite nz_readers in *.
    destruct (Z.eqb_spec (RCU_INTERNAL_STATE_READERS r.(r_self)) 0) as [He|He]; simpl in *; [auto|].
    split; [exact Hq|]. apply (count_up _ Hu Hn).
Qed.

Lemma publish_inv s i r g : rcu_inv s -> s.(rc_readers) !! i = Some r -> r.(r_pc) = RGot g -> rcu_inv (set_reader s i (rcu_publish g r)).
Proof.
  intros HI Hi Hpc. pose proof (ri_readers s HI i r Hi) as (Hu & Hh & Hc). rewrite Hpc in Hc. destruct Hc as (Hz & He & Hreg & Hg).
  apply (reader_step s i r _ s.(rc_registered)); auto.
  - split_and!; simpl; [|exact Hh|split; [|exact Hreg]]; destruct Hg as [-> | ->]; vm_compute; intuition discriminate.
  - intros q Hq. simpl in Hq. rewrite He in Hq. inversion Hq.
Qed.

Lemma deref_inv s i r : rcu_inv s -> s.(rc_readers) !! i = Some r -> r.(r_pc) = RIn -> rcu_inv (set_reader s i (rcu_dereference s.(rc_ptr) r)).
Proof.
  intros HI Hi Hpc. pose proof (ri_readers s HI i r Hi) as (Hu & Hh & Hc).
  apply (reader_step s i r _ s.(rc_registered)); auto.
  - split_and!; simpl; [exact Hu| |rewrite Hpc in *; exact Hc]. intros p [-> |Hp]%elem_of_cons; [|auto].
    split; [apply (ri_ptr s HI)|]. intros Hf. destruct (ri_freed s HI _ Hf) as [_ Hf']. congruence.
  - simpl. intros q [-> |Hq]%elem_of_cons; auto.
Qed.

(** A matched unlock is never reported. *)
Lemma rcu_unlock_inv s i r waiting : rcu_inv s -> s.(rc_readers) !! i = Some r -> r.(r_pc) = RIn -> rcu_inv (set_reader s i (rcu_read_unlock waiting r)).
Proof.
  intros HI Hi Hpc. pose proof (ri_readers s HI i r Hi) as (Hu & Hh & Hc). rewrite Hpc in Hc. destruct Hc as [Hn Hreg].
  destruct (count_down _ Hu Hn) as (H1 & H2 & H3).
  assert (Hun : rcu_read_unlock waiting r = if nz (RCU_INTERNAL_STATE_READERS (u32 (r.(r_self) - 1)))
            then mk_reader (u32 (r.(r_self) - 1)) RIn r.(r_held) else mk_reader (u32 (r.(r_self) - 1)) ROut []).
  { unfold rcu_read_unlock, rcu_internal_wake_writer. rewrite (nz_readers r.(r_self)). apply Z.eqb_neq in Hn. rewrite Hn.
    simpl. rewrite andb_false_r. reflexivity. }
  rewrite Hun, nz_readers. apply (reader_step s i r _ s.(rc_registered)); auto.
  all: destruct (Z.eqb_spec (RCU_INTERNAL_STATE_READERS (u32 (r.(r_self) - 1))) 0) as [He|He]; simpl.
  - split_and!; simpl; auto. intros p Hp. inversion Hp.
  - split_and!; simpl; auto.
  - intros q Hq. inversion Hq.
  - auto.
Qed.

Lemma erase_reader_elem i j l : j <> i -> j ∈ l -> j ∈ erase_reader i l.
Proof. intros Hne. induction l as [|k l IH]; simpl; [auto|]. intros H. destruct (decide (k = i)); set_solver. Qed.

Lemma deregister_inv s i r pc : rcu_inv s -> s.(rc_readers) !! i = Some r -> r.(r_pc) = ROut -> s.(rc_lock) = false -> (pc = ROut \/ pc = RReg) ->
  rcu_inv (set_reader (set_registered s (rcu_deregister_thread i s.(rc_registered))) i (mk_reader r.(r_self) pc r.(r_held))).
Proof.
  intros HI Hi Hpc Hl Hpc'. pose proof (ri_readers s HI i r Hi) as (Hu & Hh & Hc). rewrite Hpc in Hc.
  apply (reader_step s i r); auto.
  - intros j Hj Hin. unfold rcu_deregister_thread. apply elem_of_reverse, erase_reader_elem, elem_of_reverse; auto.
  - split_and!; simpl; auto. destruct Hpc' as [-> | ->]; exact Hc.
Qed.

Lemma register_inv s i r : rcu_inv s -> s.(rc_readers) !! i = Some r -> r.(r_pc) = RReg -> s.(rc_lock) = false ->
  rcu_inv (set_reader (set_registered s (rcu_register_thread i s.(rc_registered))) i (mk_reader r.(r_self) ROut r.(r_held))).
Proof.
  intros HI Hi Hpc Hl. pose proof (ri_readers s HI i r Hi) as (Hu & Hh & Hc). rewrite Hpc in Hc.
  apply (reader_step s i r); auto.
  - intros j Hj Hin. unfold rcu_register_thread. set_solver.
  - split_and!; simpl; auto.
Qed.

(** ** Writers preserve it *)

(** A writer that moves on, the rest of the system unchanged but for the lock. *)
Lemma writer_step s i w w' l : rcu_inv s -> s.(rc_writers) !! i = Some w ->
  writer_ok s w' ->
  (locked w' = true -> l = true) -> (locked w = false -> locked w' = true -> s.(rc_lock) = false) ->
  (l = false -> s.(rc_lock) = false \/ locked w = true) ->
  rcu_inv (mk_rcu s.(rc_gen) s.(rc_ptr) s.(rc_next) s.(rc_freed) l s.(rc_registered) s.(rc_readers) (<[i := w']> s.(rc_writers))).
Proof.
  intros HI Hi Hok Hlock Hfree Hrel.
  assert (Hlook : forall k x, <[i := w']> s.(rc_writers) !! k = Some x -> (k = i /\ x = w') \/ (k <> i /\ s.(rc_writers) !! k = Some x)).
  { simpl. intros k x. apply (insert_cases _ _ _ _ _ _ Hi). }
  destruct HI as [Hg Hp Hf Hr Hw Hlk Hex]. split; try assumption; simpl.
  - intros k x [[-> ->]|[_ Hx]]%Hlook; [exact Hok|apply (Hw _ _ Hx)].
  - intros -> k x [[-> ->]|[Hne Hx]]%Hlook.
    + destruct (locked w') eqn:E; [discriminate (Hlock eq_refl)|reflexivity].
    + destruct (Hrel eq_refl) as [Hs|Hs]; [eauto|].
      destruct (locked x) eqn:E; [|reflexivity]. destruct Hne. eauto.
  - intros a b x y [[-> ->]|[Hna Hx]]%Hlook [[-> ->]|[Hnb Hy]]%Hlook Ha Hb; [reflexivity| | |eauto].
    + destruct (locked w) eqn:E; [eauto|]. rewrite (Hlk (Hfree eq_refl Ha) _ _ Hy) in Hb. discriminate.
    + destruct (locked w) eqn:E; [eauto|]. rewrite (Hlk (Hfree eq_refl Hb) _ _ Hx) in Ha. discriminate.
Qed.

(** With the lock taken, a reader that is let through is outside or in the writer's generation. *)
Lemma must_wait_false st g : urange 32 st -> urange 32 g -> rcu_must_wait st g = false ->
  RCU_INTERNAL_STATE_READERS st = 0 \/ gen_bit st = gen_bit g.
Proof.
  intros Hs Hg. unfold rcu_must_wait. rewrite nz_readers. destruct (Z.eqb_spec (RCU_INTERNAL_STATE_READERS st) 0) as [|_]; [auto|].
  simpl. unfold nz. rewrite negb_false_iff, Z.eqb_eq. intros H. right. unfold gen_bit.
  apply (f_equal (fun x => Z.testbit x 31)) in H. rewrite Z.land_spec, Z.lxor_spec, Z.bits_0 in H.
  change (Z.testbit RCU_INTERNAL_STATE_GEN 31) with true in H. destruct (Z.testbit st 31), (Z.testbit g 31); auto; discriminate.
Qed.

(** Only readers inside hold pointers, and they are registered. *)
Lemma held_inside s i r p : rcu_inv s -> s.(rc_readers) !! i = Some r -> p ∈ r.(r_held) ->
  RCU_INTERNAL_STATE_READERS r.(r_self) <> 0 /\ i ∈ s.(rc_registered).
Proof.
  intros HI Hi Hp. destruct (ri_readers s HI i r Hi) as (_ & _ & Hc).
  destruct (r_pc r); try contradiction; try (exact Hc); exfalso; destruct Hc as [_ Hc]; [| |destruct Hc as [Hc _]]; rewrite Hc in Hp; inversion Hp.
Qed.

Lemma scanned_all s j (P : reader -> Prop) : rcu_inv s -> s.(rc_registered) !! j = None ->
  rcu_scanned s j P -> (forall r, r.(r_held) = [] -> P r) -> all_readers s P.
Proof.
  intros HI Hj Hs He i r Hi. destruct (r_held r) as [|p l] eqn:E; [auto|].
  destruct (held_inside s i r p HI Hi) as [_ [k Hk]%list_elem_of_lookup]; [rewrite E; left|].
  apply (Hs k i r); auto. apply lookup_ge_None in Hj. apply lookup_lt_Some in Hk. lia.
Qed.

Lemma gen_flip g : g = 1 \/ g = 0x80000001 -> (g .^ RCU_INTERNAL_STATE_GEN = 1 \/ g .^ RCU_INTERNAL_STATE_GEN = 0x80000001) /\
  gen_bit (g .^ RCU_INTERNAL_STATE_GEN) = negb (gen_bit g).
Proof. intros [-> | ->]; vm_compute; auto. Qed.

Lemma scan_inv s i p sec g j w' : rcu_inv s -> s.(rc_writers) !! i = Some (WScan p sec g j) ->
  rcu_synchronize s (WScan p sec g j) = Some (s, w') -> writer_ok s w' /\ locked w' = true.
Proof.
  intros HI Hi Hstep. destruct (ri_writers s HI i _ Hi) as [Hp Hok].
  assert (Hg32 : urange 32 s.(rc_gen)) by (destruct (ri_gen s HI) as [-> | ->]; split; reflexivity || discriminate).
  simpl in Hstep. destruct (s.(rc_registered) !! j) as [k|] eqn:Hj.
  - destruct (s.(rc_readers) !! k) as [r|] eqn:Hk; [|discriminate]. injection Hstep as <-.
    pose proof (ri_readers s HI k r Hk) as (Hu & _ & _).
    destruct (rcu_must_wait r.(r_self) g) eqn:Hw; (split; [|reflexivity]); split; [exact Hp| |exact Hp|].
    { destruct sec; [|exact I]. destruct Hok as (-> & Ha & _). exact Ha. }
    assert (Hr : p ∈ r.(r_held) -> gen_bit r.(r_self) = gen_bit g).
    { intros Hin. destruct (held_inside s k r p HI Hk Hin) as [Hn _]. 
      assert (g = s.(rc_gen)) as -> by (destruct sec; apply Hok).
      destruct (must_wait_false _ _ Hu Hg32 Hw); [contradiction|auto]. }
    assert (Hsc : forall P : reader -> Prop, rcu_scanned s j P -> P r -> rcu_scanned s (S j) P).
    { intros P Hs HP a b x Hlt Ha Hb. destruct (decide (a = j)) as [->|Hne]; [congruence|]. apply (Hs a b x); auto; lia. }
    destruct sec.
    + destruct Hok as (-> & Ha & Hs). split_and!; auto. apply Hsc; [exact Hs|]. intros Hin.
      specialize (Hr Hin). rewrite (Ha k r Hk Hin) in Hr. destruct (gen_bit (rc_gen s)); discriminate.
    + destruct Hok as (-> & Hs). split; auto.
  - injection Hstep as <-. split; [|destruct sec; reflexivity]. destruct sec.
    + destruct Hok as (_ & _ & Hs). split; [exact Hp|]. apply (scanned_all s j); auto. intros r ->. apply not_elem_of_nil.
    + destruct Hok as (-> & Hs). split; [exact Hp|]. apply (scanned_all s j); auto. intros r Hr Hin. rewrite Hr in Hin. inversion Hin.
Qed.

Lemma flip_inv s i p sec : rcu_inv s -> s.(rc_writers) !! i = Some (WFlip p sec) ->
  rcu_inv (mk_rcu (s.(rc_gen) .^ RCU_INTERNAL_STATE_GEN) s.(rc_ptr) s.(rc_next) s.(rc_freed) s.(rc_lock) s.(rc_registered) s.(rc_readers) (<[i := WLoad p sec]> s.(rc_writers))).
Proof.
  intros HI Hi. destruct (ri_writers s HI i _ Hi) as [Hp Hok]. destruct (gen_flip _ (ri_gen s HI)) as [Hg Hb].
  destruct HI as [_ Hptr Hf Hr Hw Hlk Hex].
  assert (Hlook : forall k x, <[i := WLoad p sec]> s.(rc_writers) !! k = Some x -> (k = i /\ x = WLoad p sec) \/ (k <> i /\ s.(rc_writers) !! k = Some x)).
  { simpl. intros k x. apply (insert_cases _ _ _ _ _ _ Hi). }
  split; simpl; try assumption.
  - intros k x [[-> ->]|[Hne Hx]]%Hlook.
    + split; [exact Hp|]. destruct sec; [|exact I]. simpl. rewrite Hb, negb_involutive. exact Hok.
    + assert (Hl : locked x = false) by (destruct (locked x) eqn:E; [destruct Hne; eauto|reflexivity]).
      destruct (Hw _ _ Hx) as [H1 H2]. split; [exact H1|]. destruct x; try discriminate; auto.
  - intros Hl k x [[-> ->]|[Hne Hx]]%Hlook; [discriminate (Hlk Hl _ _ Hi)|eauto].
  - intros a b x y [[-> ->]|[Hna Hx]]%Hlook [[-> ->]|[Hnb Hy]]%Hlook Ha Hb'; eauto.
Qed.

Lemma sync_inv s i w s' w' : rcu_inv s -> s.(rc_writers) !! i = Some w -> rcu_synchronize s w = Some (s', w') -> rcu_inv (set_writer s' i w').
Proof.
  intros HI Hi Hstep. pose proof (ri_writers s HI i _ Hi) as [Hp Hok].
  assert (Hlk : locked w = true -> s.(rc_lock) = true).
  { intros Hl. destruct (rc_lock s) eqn:E; [reflexivity|]. rewrite (ri_lock s HI E i w Hi) in Hl. discriminate. }
  destruct w as [|p|p sec|p sec|p sec g j|p|p]; try discriminate Hstep.
  - simpl in Hstep. destruct (rc_lock s) eqn:E; [discriminate|]. injection Hstep as <- <-.
    apply (writer_step s i (WSwapped p)); auto. split; [exact Hp|exact I].
  - injection Hstep as <- <-. exact (flip_inv s i p sec HI Hi).
  - injection Hstep as <- <-. apply (writer_step s i (WLoad p sec)); auto; try (intros ?; discriminate || auto).
    split; [exact Hp|]. destruct sec; split_and!; auto; intros ? ? ? Hlt; lia.
  - assert (s' = s) as ->.
    { simpl in Hstep. destruct (s.(rc_registered) !! j) as [k|]; [destruct (s.(rc_readers) !! k) as [r|]; [|discriminate]|]; congruence. }
    destruct (scan_inv s i p sec g j w' HI Hi Hstep) as [H1 H2]. apply (writer_step s i (WScan p sec g j)); auto. intros; discriminate.
  - injection Hstep as <- <-. apply (writer_step s i (WUnlock p)); auto; try discriminate. split; [exact Hp|exact Hok].
Qed.

Lemma replace_inv s i : rcu_inv s -> s.(rc_writers) !! i = Some WIdle ->
  rcu_inv (set_writer (fst (rcu_swap_pointer s)) i (WSwapped (snd (rcu_swap_pointer s)))).
Proof.
  intros HI Hi.
  assert (HI' : rcu_inv (fst (rcu_swap_pointer s))).
  { destruct HI as [Hg Hp Hf Hr Hw Hlk Hex]. split; simpl; try assumption; try lia.
    - intros p Hp'. destruct (Hf p Hp'). lia.
    - intros k r Hk. destruct (Hr k r Hk) as (H1 & H2 & H3). split_and!; [exact H1| |exact H3].
      intros p Hp'. destruct (H2 p Hp'). simpl. split; [lia|assumption].
    - intros k w Hk. destruct (Hw k w Hk) as [H1 H2]. split; [|exact H2].
      intros p Hp'. destruct (H1 p Hp'). simpl. lia. }
  apply (writer_step (fst (rcu_swap_pointer s)) i WIdle); auto; try discriminate.
  split; [|exact I]. intros p [= <-]. simpl. pose proof (ri_ptr s HI). lia.
Qed.

Lemma release_inv s i p : rcu_inv s -> s.(rc_writers) !! i = Some (WDone p) -> rcu_inv (set_writer (rcu_free s p) i WIdle).
Proof.
  intros HI Hi. destruct (ri_writers s HI i _ Hi) as [Hp Hok].
  assert (HI' : rcu_inv (rcu_free s p)).
  { destruct HI as [Hg Hptr Hf Hr Hw Hlk Hex]. split; simpl; try assumption.
    - intros q [-> |Hq]%elem_of_cons; [apply Hp; reflexivity|auto].
    - intros k r Hk. destruct (Hr k r Hk) as (H1 & H2 & H3). split_and!; [exact H1| |exact H3].
      intros q Hq. destruct (H2 q Hq) as [H4 H5]. split; [exact H4|]. simpl.
      intros [-> |Hin]%elem_of_cons; [exact (Hok k r Hk Hq)|contradiction]. }
  apply (writer_step (rcu_free s p) i (WDone p)); auto; try discriminate. split; [discriminate|exact I].
Qed.

Lemma rcu_init_inv n m : rcu_inv (rcu_init n m).
Proof.
  assert (Hw : forall i w, repeat WIdle m !! i = Some w -> w = WIdle).
  { intros i w Hw. apply list_elem_of_lookup_2, list_elem_of_In, repeat_spec in Hw. exact Hw. }
  split; simpl; auto; try lia.
  - intros p Hp. inversion Hp.
  - intros i r Hr. apply list_elem_of_lookup_2, list_elem_of_In, repeat_spec in Hr. subst r.
    split_and!; simpl; auto; [split; lia|]. intros p Hp. inversion Hp.
  - intros i w ->%Hw. split; [discriminate|exact I].
  - intros _ i w ->%Hw. reflexivity.
  - intros i j w w' ->%Hw _ ?. discriminate.
Qed.

Lemma rcu_step_inv s s' : rcu_inv s -> rcu_step s s' -> rcu_inv s'.
Proof.
  intros HI [i r Hi Hpc Hreg Hn|i r g Hi Hpc|i r Hi Hpc|i r waiting Hi Hpc|i r pc Hi Hpc Hl Hpc'|i r Hi Hpc Hl|i t p Hi Ht|i w t w' Hi Ht|i p Hi].
  - apply read_lock_inv; auto.
  - apply publish_inv; auto.
  - apply deref_inv; auto.
  - apply rcu_unlock_inv; auto.
  - apply deregister_inv; auto.
  - apply register_inv; auto.
  - injection Ht as <- <-. apply (replace_inv s i HI Hi).
  - eapply sync_inv; eauto.
  - apply release_inv; auto.
Qed.

Lemma rcu_reachable_inv n m s : rcu_reachable n m s -> rcu_inv s.
Proof. induction 1; [apply rcu_init_inv|eapply rcu_step_inv; eauto]. Qed.

(** C10: Grace period: for any number of readers and writers and any interleaving, no reader has a
    pointer that was freed after [rcu_synchronize] returned, nor one whose writer has returned
    from [rcu_synchronize] and is about to free it; and no matched unlock is reported. *)
Theorem rcu_grace_period n m s i r : rcu_reachable n m s -> s.(rc_readers) !! i = Some r ->
  (forall p, p ∈ r.(r_held) -> p ∉ s.(rc_freed)) /\
  (forall j p, s.(rc_writers) !! j = Some (WDone p) -> p ∉ r.(r_held)) /\
  r.(r_pc) <> RCrash.
Proof.
  intros HI%rcu_reachable_inv Hi. destruct (ri_readers s HI i r Hi) as (_ & Hh & Hc). split_and!.
  - intros p Hp. apply (Hh p Hp).
  - intros j p Hj. destruct (ri_writers s HI j _ Hj) as [_ Hok]. apply (Hok i r Hi).
  - intros E. rewrite E in Hc. exact Hc.
Qed.

(** ** Runs *)

(** One choice of a scheduler for the system above. *)
Inductive choice := CEnter (i : nat) | CEntered (i : nat) | CDeref (i : nat) | CExit (i : nat) | CReg (i : nat) | CReplace (i : nat) | CSync (i : nat) | CFree (i : nat).

Definition rcu_run1 (s : rcu) (c : choice) : option rcu :=
  match c with
  | CEnter i => r ← s.(rc_readers) !! i;
      match r.(r_pc) with
      | ROut | RIn => if bool_decide (i ∈ s.(rc_registered)) && (RCU_INTERNAL_STATE_READERS r.(r_self) <? 65535)
                      then Some (set_reader s i (rcu_read_lock s.(rc_gen) r)) else None
      | _ => None
      end
  | CEntered i => r ← s.(rc_readers) !! i;
      match r.(r_pc) with RGot gen => Some (set_reader s i (rcu_publish gen r)) | _ => None end
  | CDeref i => r ← s.(rc_readers) !! i;
      match r.(r_pc) with RIn => Some (set_reader s i (rcu_dereference s.(rc_ptr) r)) | _ => None end
  | CExit i => r ← s.(rc_readers) !! i;
      match r.(r_pc) with RIn => Some (set_reader s i (rcu_read_unlock false r)) | _ => None end
  | CReg i => r ← s.(rc_readers) !! i;
      match r.(r_pc), s.(rc_lock) with
      | ROut, false => Some (set_reader (set_registered s (rcu_deregister_thread i s.(rc_registered))) i (mk_reader r.(r_self) RReg r.(r_held)))
      | RReg, false => Some (set_reader (set_registered s (rcu_register_thread i s.(rc_registered))) i (mk_reader r.(r_self) ROut r.(r_held)))
      | _, _ => None
      end
  | CReplace i => w ← s.(rc_writers) !! i;
      match w with WIdle => Some (set_writer (fst (rcu_swap_pointer s)) i (WSwapped (snd (rcu_swap_pointer s)))) | _ => None end
  | CSync i => w ← s.(rc_writers) !! i; '(s', w') ← rcu_synchronize s w; Some (set_writer s' i w')
  | CFree i => w ← s.(rc_writers) !! i; match w with WDone p => Some (set_writer (rcu_free s p) i WIdle) | _ => None end
  end.

Definition rcu_run (s : rcu) (l : list choice) : option rcu := foldl (fun o c => s ← o; rcu_run1 s c) (Some s) l.

Lemma rcu_run1_step s c s' : rcu_run1 s c = Some s' -> rcu_step s s'.
Proof.
  destruct c as [i|i|i|i|i|i|i|i]; simpl.
  1-5: destruct (s.(rc_readers) !! i) as [r|] eqn:Hi; [|discriminate]; simpl; destruct (r_pc r) eqn:Hpc; try discriminate.
  - destruct (bool_decide_reflect (i ∈ s.(rc_registered))); [|discriminate]. destruct (Z.ltb_spec (RCU_INTERNAL_STATE_READERS (r_self r)) 65535); [|discriminate].
    intros [= <-]. eapply rcu_enter; eauto.
  - destruct (bool_decide_reflect (i ∈ s.(rc_registered))); [|discriminate]. destruct (Z.ltb_spec (RCU_INTERNAL_STATE_READERS (r_self r)) 65535); [|discriminate].
    intros [= <-]. eapply rcu_enter; eauto.
  - intros [= <-]. eapply rcu_entered; eauto.
  - intros [= <-]. eapply rcu_deref; eauto.
  - intros [= <-]. eapply rcu_exit; eauto.
  - destruct (rc_lock s) eqn:Hl; [discriminate|]. intros [= <-]. eapply rcu_deregister; eauto.
  - destruct (rc_lock s) eqn:Hl; [discriminate|]. intros [= <-]. eapply rcu_register; eauto.
  - destruct (s.(rc_writers) !! i) as [[]|] eqn:Hi; try discriminate. intros [= <-]. eapply rcu_replace; eauto.
  - destruct (s.(rc_writers) !! i) as [w|] eqn:Hi; [|discriminate]. simpl.
    destruct (rcu_synchronize s w) as [[t w']|] eqn:Ht; [|discriminate]. intros [= <-]. eapply rcu_sync; eauto.
  - destruct (s.(rc_writers) !! i) as [[]|] eqn:Hi; try discriminate. intros [= <-]. eapply rcu_release; eauto.
Qed.

Lemma rcu_run_reachable n m s l s' : rcu_reachable n m s -> rcu_run s l = Some s' -> rcu_reachable n m s'.
Proof.
  unfold rcu_run. revert s. induction l as [|c l IH]; intros s Hs; simpl; [congruence|].
  destruct (rcu_run1 s c) as [t|] eqn:E.
  - apply IH. eapply rcu_reach_step; [exact Hs|]. eapply rcu_run1_step; eauto.
  - replace (foldl _ None l) with (@None rcu) by (clear; induction l; auto). discriminate.
Qed.

(** The witness: a reader has the pointer while a writer waits for it, leaves, and another one
    enters; then the pointer is freed. *)
Definition grace_run : list choice :=
  [CReg 0; CReg 0; CReg 1; CReg 1; CEnter 0; CEntered 0; CDeref 0; CEnter 0; CReplace 0; CSync 0; CSync 0; CSync 0; CSync 0; CSync 0; CSync 0;
   CExit 0; CExit 0] ++ repeat (CSync 0) 5 ++ [CEnter 1; CEntered 1; CDeref 1] ++ repeat (CSync 0) 5 ++ [CFree 0].

Lemma rcu_grace_period_witness : exists s r, rcu_run (rcu_init 2 1) grace_run = Some s /\ s.(rc_freed) = [0%nat] /\
  s.(rc_readers) !! 1%nat = Some r /\ r.(r_held) = [1%nat] /\ 1%nat ∉ s.(rc_freed).
Proof.
  destruct (rcu_run (rcu_init 2 1) grace_run) as [s|] eqn:E; [|vm_compute in E; discriminate].
  pose proof (rcu_run_reachable 2 1 _ _ _ (rcu_reach_init 2 1) E) as Hr.
  assert (exists r, s.(rc_readers) !! 1%nat = Some r /\ r.(r_held) = [1%nat] /\ s.(rc_freed) = [0%nat]) as (r & H1 & H2 & H3).
  { vm_compute in E. injection E as <-. eexists. split_and!; reflexivity. }
  exists s, r. split_and!; auto. apply (rcu_grace_period 2 1 s 1 r Hr H1). rewrite H2. left.
Defined.

(** A reader may publish a generation of long ago: with a single flip its section would be
    missed.  Here the writer has been through the first generation, and the reader has the
    pointer that the writer has replaced. *)
Definition stale_run : list choice :=
  [CReg 0; CReg 0; CReplace 0; CSync 0; CSync 0; CEnter 0] ++ repeat (CSync 0) 8 ++ [CEntered 0; CDeref 0; CReplace 1] ++ repeat (CSync 1) 5.

Theorem rcu_one_generation_is_not_enough : exists s r p,
  rcu_reachable 1 2 s /\ s.(rc_writers) !! 1%nat = Some (WFlip p true) /\ s.(rc_readers) !! 0%nat = Some r /\ p ∈ r.(r_held).
Proof.
  destruct (rcu_run (rcu_init 1 2) stale_run) as [s|] eqn:E; [|vm_compute in E; discriminate].
  pose proof (rcu_run_reachable 1 2 _ _ _ (rcu_reach_init 1 2) E) as Hr. vm_compute in E. injection E as <-.
  eexists _, _, 1%nat. split_and!; [exact Hr|reflexivity..|left].
Qed.

(** ** A writer that runs while the readers are outside returns *)

Section solo.
Context (s : rcu) (i : nat) (p : nat).
Hypothesis Hi : is_Some (s.(rc_writers) !! i).
Hypothesis Hout : forall k, k ∈ s.(rc_registered) -> exists r, s.(rc_readers) !! k = Some r /\ RCU_INTERNAL_STATE_READERS r.(r_self) = 0.

Definition solo_at (g : Z) (l : bool) (w : wstate) : rcu :=
  mk_rcu g s.(rc_ptr) s.(rc_next) s.(rc_freed) l s.(rc_registered) s.(rc_readers) (<[i := w]> s.(rc_writers)).

Lemma run_sync g l w s' w' : rcu_synchronize (solo_at g l w) w = Some (s', w') ->
  rcu_run1 (solo_at g l w) (CSync i) = Some (set_writer s' i w').
Proof.
  intros H. unfold rcu_run1. simpl. rewrite list_lookup_insert_eq by (destruct Hi as [x Hx]; eapply lookup_lt_Some; eauto).
  simpl. rewrite H. reflexivity.
Qed.

Lemma set_solo g l w w' : set_writer (solo_at g l w) i w' = solo_at g l w'.
Proof. unfold set_writer, solo_at. simpl. rewrite list_insert_insert_eq. reflexivity. Qed.

Lemma rcu_run_app t l1 l2 : rcu_run t (l1 ++ l2) = (u ← rcu_run t l1; rcu_run u l2).
Proof.
  unfold rcu_run. rewrite foldl_app. destruct (foldl _ (Some t) l1); [reflexivity|]. simpl. induction l2; auto.
Qed.

Lemma rcu_run_cons t c l : rcu_run t (c :: l) = (u ← rcu_run1 t c; rcu_run u l).
Proof. apply (rcu_run_app t [c] l). Qed.

Lemma scan_solo sec g k : forall j, (j + k)%nat = length s.(rc_registered) ->
  rcu_run (solo_at g true (WScan p sec g j)) (repeat (CSync i) (S k)) = Some (solo_at g true (if sec then WUnlock p else WFlip p true)).
Proof.
  induction k as [|k IH]; intros j Hj; simpl repeat; rewrite rcu_run_cons.
  - rewrite (run_sync _ _ _ (solo_at g true (WScan p sec g j)) (if sec then WUnlock p else WFlip p true)).
    + simpl. rewrite set_solo. reflexivity.
    + simpl. rewrite (lookup_ge_None_2 s.(rc_registered) j) by lia. reflexivity.
  - destruct (lookup_lt_is_Some_2 s.(rc_registered) j ltac:(lia)) as [m Hm].
    destruct (Hout m (list_elem_of_lookup_2 _ _ _ Hm)) as (r & Hr & Hz).
    rewrite (run_sync _ _ _ (solo_at g true (WScan p sec g j)) (WScan p sec g (S j))).
    + simpl. rewrite set_solo. apply (IH (S j)). lia.
    + simpl. rewrite Hm, Hr. unfold rcu_must_wait. rewrite Hz. reflexivity.
Qed.

(** From the flip to the end of one generation. *)
Lemma generation_solo sec g : rcu_run (solo_at g true (WFlip p sec)) (repeat (CSync i) (3 + length s.(rc_registered))) =
  Some (solo_at (g .^ RCU_INTERNAL_STATE_GEN) true (if sec then WUnlock p else WFlip p true)).
Proof.
  change (3 + length s.(rc_registered))%nat with (S (S (S (length s.(rc_registered))))). set (n := S (length _)). simpl repeat.
  rewrite rcu_run_cons. erewrite run_sync by reflexivity. unfold set_writer. simpl. rewrite list_insert_insert_eq.
  fold (solo_at (g .^ RCU_INTERNAL_STATE_GEN) true (WLoad p sec)).
  rewrite rcu_run_cons. erewrite run_sync by reflexivity. simpl. rewrite set_solo. apply scan_solo. reflexivity.
Qed.

(** [rcu_synchronize] returns after each reader has been looked at twice. *)
Theorem rcu_synchronize_returns : s.(rc_writers) !! i = Some (WSwapped p) -> s.(rc_lock) = false ->
  rcu_run s (repeat (CSync i) (8 + 2 * length s.(rc_registered))) = Some (set_writer s i (WDone p)).
Proof.
  intros Hw Hl.
  replace (8 + 2 * length s.(rc_registered))%nat with (1 + ((3 + length s.(rc_registered)) + ((3 + length s.(rc_registered)) + 1)))%nat by lia.
  assert (Hs : rcu_run s (repeat (CSync i) 1) = Some (solo_at s.(rc_gen) true (WFlip p false))).
  { unfold rcu_run. simpl. rewrite Hw. simpl. rewrite Hl. reflexivity. }
  rewrite !repeat_app, rcu_run_app, Hs. cbn [mbind option_bind].
  rewrite rcu_run_app, generation_solo. cbn [mbind option_bind]. rewrite rcu_run_app, generation_solo. cbn [mbind option_bind repeat].
  rewrite rcu_run_cons. erewrite run_sync by reflexivity. unfold set_writer. simpl. rewrite list_insert_insert_eq.
  rewrite Z.lxor_assoc, Z.lxor_nilpotent, Z.lxor_0_r, Hl. reflexivity.
Qed.
End solo.
