(* ===== verification/Event.v ===== *)
(** * Events (src/util/threading.c)

    An event is a flag that one waiter consumes and a count of the threads that are about to
    wait; it is the condition variable of the library as well.  Threads interleave at every
    atomic operation, the futex compares and sleeps in one step, sleepers may wake up for no
    reason or because of their timeout, and memory is sequentially consistent.  Theorem: no
    wake-up is lost. *)

From S2P Require Import Prelude BitOps.

(** Where a thread is in [rvvm_event_wait] and [rvvm_event_wake].  [event_update_flag] is a load
    and, if the flag differs, a swap.  [woken] is the result so far; [wait] is a call that has a
    timeout. *)
Inductive estate :=
| EIdle
| WFirst (wait : bool) | WFirstSwap (wait : bool) | WEnter | WSecond | WSecondSwap | WFutex | WAsleep
| WThird (woken : bool) | WThirdSwap (woken : bool) | WLeave (woken : bool)
| KLoad | KSwap | KWaiters | KWake
| EReturn (result : bool).

Record event := mk_event { ev_flag : Z; ev_waiters : Z; ev_threads : list estate }.

Definition rvvm_event_init (n : nat) : event := mk_event 0 0 (repeat EIdle n).

(** Steps that a thread takes alone: the flag, the count and the thread afterwards. *)
Definition rvvm_event_wait (flag waiters : Z) (e : estate) : option (Z * Z * estate) :=
  let first wait := if wait : bool then WEnter else EReturn false in
  match e with
  | WFirst wait => Some (flag, waiters, if flag =? 0 then first wait else WFirstSwap wait)
  | WFirstSwap wait => Some (0, waiters, if flag =? 0 then first wait else EReturn true)
  | WEnter => Some (flag, u32 (waiters + 1), WSecond)
  | WSecond => Some (flag, waiters, if flag =? 0 then WFutex else WSecondSwap)
  | WSecondSwap => Some (0, waiters, if flag =? 0 then WFutex else WLeave false)
  | WFutex => Some (flag, waiters, if flag =? 0 then WAsleep else WThird true)
  | WThird woken => Some (flag, waiters, if flag =? 0 then WLeave woken else WThirdSwap woken)
  | WThirdSwap woken => Some (0, waiters, WLeave (negb (flag =? 0) || woken))
  | WLeave woken => Some (flag, u32 (waiters - 1), EReturn woken)
  | _ => None
  end.

(** [KWake] is the call of the futex, which is a step of two threads when there is a sleeper. *)
Definition rvvm_event_wake (flag waiters : Z) (e : estate) : option (Z * estate) :=
  match e with
  | KLoad => Some (flag, if flag =? 1 then EReturn false else KSwap)
  | KSwap => Some (1, if flag =? 1 then EReturn false else KWaiters)
  | KWaiters => Some (flag, if nz waiters then KWake else EReturn true)
  | _ => None
  end.

Definition upd_event (s : event) (flag waiters : Z) (i : nat) (e : estate) : event := mk_event flag waiters (<[i := e]> s.(ev_threads)).

Inductive ev_step (s : event) : event -> Prop :=
| ev_call i wait : s.(ev_threads) !! i = Some EIdle -> ev_step s (upd_event s s.(ev_flag) s.(ev_waiters) i (WFirst wait))
| ev_signal i : s.(ev_threads) !! i = Some EIdle -> ev_step s (upd_event s s.(ev_flag) s.(ev_waiters) i KLoad)
| ev_return i r : s.(ev_threads) !! i = Some (EReturn r) -> ev_step s (upd_event s s.(ev_flag) s.(ev_waiters) i EIdle)
| ev_wait i e f w e' : s.(ev_threads) !! i = Some e -> rvvm_event_wait s.(ev_flag) s.(ev_waiters) e = Some (f, w, e') -> ev_step s (upd_event s f w i e')
| ev_wake i e f e' : s.(ev_threads) !! i = Some e -> rvvm_event_wake s.(ev_flag) s.(ev_waiters) e = Some (f, e') -> ev_step s (upd_event s f s.(ev_waiters) i e')
| ev_futex_wake i j : s.(ev_threads) !! i = Some KWake -> s.(ev_threads) !! j = Some WAsleep ->
    ev_step s (mk_event s.(ev_flag) s.(ev_waiters) (<[j := WThird true]> (<[i := EReturn true]> s.(ev_threads))))
| ev_futex_none i : s.(ev_threads) !! i = Some KWake -> (forall j, s.(ev_threads) !! j <> Some WAsleep) ->
    ev_step s (upd_event s s.(ev_flag) s.(ev_waiters) i (EReturn true))
| ev_timeout i woken : s.(ev_threads) !! i = Some WAsleep -> ev_step s (upd_event s s.(ev_flag) s.(ev_waiters) i (WThird woken)).

Inductive ev_reachable (n : nat) : event -> Prop :=
| ev_reach_init : ev_reachable n (rvvm_event_init n)
| ev_reach_step s s' : ev_reachable n s -> ev_step s s' -> ev_reachable n s'.

(** ** Invariant *)

(** A thread that is counted. *)
Definition counted (e : estate) : Z :=
  match e with WSecond | WSecondSwap | WFutex | WAsleep | WThird _ | WThirdSwap _ | WLeave _ => 1 | _ => 0 end.
Definition counts (l : list estate) : Z := foldr (fun e n => counted e + n) 0 l.

(** A thread that will take the flag back, or wake somebody who does. *)
Definition active (e : estate) : bool := match e with KWaiters | KWake | WThird _ | WThirdSwap _ => true | _ => false end.

Record ev_inv (s : event) : Prop := {
  vi_flag : s.(ev_flag) = 0 \/ s.(ev_flag) = 1;
  vi_waiters : s.(ev_waiters) = counts s.(ev_threads);
  vi_bound : Z.of_nat (length s.(ev_threads)) < 2 ^ 32;
  vi_awake : s.(ev_flag) = 1 -> (exists i, s.(ev_threads) !! i = Some WAsleep) -> exists j e, s.(ev_threads) !! j = Some e /\ active e = true
}.

Lemma counts_insert l : forall i e e', l !! i = Some e -> counts (<[i := e']> l) = counts l - counted e + counted e'.
Proof.
  induction l as [|x l IH]; intros [|i] e e' Hi; try discriminate; simpl in *; [injection Hi as ->; lia|]. rewrite (IH i e e' Hi). lia.
Qed.

Lemma counted_range e : 0 <= counted e <= 1.
Proof. destruct e; simpl; lia. Qed.

Lemma counts_bounds l : 0 <= counts l <= Z.of_nat (length l).
Proof. induction l as [|x l IH]; simpl; [lia|]. pose proof (counted_range x). lia. Qed.

Lemma counts_member l i e : l !! i = Some e -> counted e <= counts l.
Proof.
  revert i. induction l as [|x l IH]; intros [|i] Hi; try discriminate; simpl in *.
  - injection Hi as ->. pose proof (counts_bounds l). lia.
  - specialize (IH i Hi). pose proof (counted_range x). lia.
Qed.

Definition someone (l : list estate) (P : estate -> Prop) : Prop := exists i e, l !! i = Some e /\ P e.

Lemma someone_insert l i e e' (P : estate -> Prop) : l !! i = Some e -> (P e -> P e') -> someone l P -> someone (<[i := e']> l) P.
Proof.
  intros Hi Hp (k & x & Hk & Hx). destruct (decide (k = i)) as [->|Hne].
  - exists i, e'. rewrite list_lookup_insert_eq by (eapply lookup_lt_Some; eauto). split; [reflexivity|]. apply Hp. congruence.
  - exists k, x. rewrite list_lookup_insert_ne by congruence. auto.
Qed.

Lemma someone_here l i e e' (P : estate -> Prop) : l !! i = Some e -> P e' -> someone (<[i := e']> l) P.
Proof. intros Hi Hp. exists i, e'. rewrite list_lookup_insert_eq by (eapply lookup_lt_Some; eauto). auto. Qed.

(** A step of one thread. *)
Lemma upd_inv s i e f w e' : ev_inv s -> s.(ev_threads) !! i = Some e -> (f = 0 \/ f = 1) -> w = s.(ev_waiters) - counted e + counted e' ->
  (f = 1 -> active e' = true \/ (s.(ev_flag) = 1 /\ active e = false /\ e' <> WAsleep)) -> ev_inv (upd_event s f w i e').
Proof.
  intros [H1 H2 H3 H4] Hi Hf Hw Hact. split; simpl; auto.
  - rewrite (counts_insert _ i e e' Hi), Hw, H2. reflexivity.
  - rewrite length_insert. exact H3.
  - intros E [k Hk]. destruct (Hact E) as [Ha|(Hfl & Ha & Hne)]; [apply (someone_here _ _ e); auto|].
    apply (insert_cases _ _ _ _ _ _ Hi) in Hk as [[_ Hk]|[_ Hk]]; [congruence|].
    apply (someone_insert _ i e); [exact Hi|congruence|]. apply (H4 Hfl). eauto.
Qed.

Lemma wait_inv s i e f w e' : ev_inv s -> s.(ev_threads) !! i = Some e -> rvvm_event_wait s.(ev_flag) s.(ev_waiters) e = Some (f, w, e') -> ev_inv (upd_event s f w i e').
Proof.
  intros HI Hi Hs. pose proof (vi_waiters s HI) as Hw. pose proof (counts_bounds s.(ev_threads)) as Hb. pose proof (counts_member _ _ _ Hi) as Hm.
  pose proof (vi_bound s HI) as Hl. pose proof (vi_flag s HI) as Hf.
  assert (Hup : counted e = 0 -> counts s.(ev_threads) + 1 <= Z.of_nat (length s.(ev_threads))).
  { intros Hc. pose proof (counts_insert _ i e WSecond Hi) as E. pose proof (counts_bounds (<[i := WSecond]> s.(ev_threads))) as Hb'.
    rewrite length_insert in Hb'. simpl in E. lia. }
  destruct e; try discriminate Hs; simpl in *; injection Hs as <- <- <-; apply (upd_inv s i _ _ _ _ HI Hi); auto.
  all: try (destruct Hf as [E|E]; rewrite E; simpl; auto; try (destruct wait; simpl; lia); lia).
  all: try (rewrite (wrap_small 32) by (unfold urange; lia); simpl; lia).
  all: intros E; try discriminate; try rewrite E in *; simpl; auto.
  all: right; split_and!; auto; discriminate.
Qed.

Lemma wake_step_inv s i e f e' : ev_inv s -> s.(ev_threads) !! i = Some e -> rvvm_event_wake s.(ev_flag) s.(ev_waiters) e = Some (f, e') ->
  ev_inv (upd_event s f s.(ev_waiters) i e').
Proof.
  intros HI Hi Hs. pose proof (vi_flag s HI) as Hf. destruct e; try discriminate Hs; simpl in *; injection Hs as <- <-.
  - apply (upd_inv s i KLoad _ _ _ HI Hi); auto; destruct Hf as [E|E]; rewrite E; simpl; try lia. all: try (right; split_and!; auto; discriminate).
  - apply (upd_inv s i KSwap _ _ _ HI Hi); auto; destruct Hf as [E|E]; rewrite E; simpl; try lia; auto.
  - unfold nz. destruct (Z.eqb_spec s.(ev_waiters) 0) as [E|E]; cbn [negb].
    + destruct HI as [H1 H2 H3 H4]. split; simpl; auto.
      * rewrite (counts_insert _ i KWaiters _ Hi). simpl. lia.
      * rewrite length_insert. exact H3.
      * intros _ [k Hk]. apply (insert_cases _ _ _ _ _ _ Hi) in Hk as [[_ Hk]|[_ Hk]]; [discriminate|].
        pose proof (counts_member _ _ _ Hk) as Hm. simpl in Hm. lia.
    + apply (upd_inv s i KWaiters _ _ _ HI Hi); auto. simpl. lia.
Qed.

Lemma ev_step_inv s s' : ev_inv s -> ev_step s s' -> ev_inv s'.
Proof.
  intros HI [i wait Hi|i Hi|i r Hi|i e f w e' Hi Hs|i e f e' Hi Hs|i j Hi Hj|i Hi Hno|i woken Hi].
  - apply (upd_inv s i EIdle _ _ _ HI Hi); [apply HI|simpl; lia|]. intros E. right. split_and!; auto; discriminate.
  - apply (upd_inv s i EIdle _ _ _ HI Hi); [apply HI|simpl; lia|]. intros E. right. split_and!; auto; discriminate.
  - apply (upd_inv s i (EReturn r) _ _ _ HI Hi); [apply HI|simpl; lia|]. intros E. right. split_and!; auto; discriminate.
  - eapply wait_inv; eauto.
  - eapply wake_step_inv; eauto.
  - assert (Hij : i <> j) by congruence.
    assert (Hj' : <[i := EReturn true]> s.(ev_threads) !! j = Some WAsleep) by (rewrite list_lookup_insert_ne by congruence; exact Hj).
    destruct HI as [H1 H2 H3 H4]. split; simpl; auto.
    + rewrite (counts_insert _ j WAsleep _ Hj'), (counts_insert _ i KWake _ Hi). simpl. lia.
    + rewrite !length_insert. exact H3.
    + intros _ _. apply (someone_here _ j WAsleep); auto.
  - destruct HI as [H1 H2 H3 H4]. split; simpl; auto.
    + rewrite (counts_insert _ i KWake _ Hi). simpl. lia.
    + rewrite length_insert. exact H3.
    + intros _ [k Hk]. apply (insert_cases _ _ _ _ _ _ Hi) in Hk as [[_ Hk]|[_ Hk]]; [discriminate|]. destruct (Hno k Hk).
  - apply (upd_inv s i WAsleep _ _ _ HI Hi); [apply HI|simpl; lia|]. auto.
Qed.

Lemma ev_init_inv n : Z.of_nat n < 2 ^ 32 -> ev_inv (rvvm_event_init n).
Proof.
  intros Hn. split; simpl; auto; try discriminate.
  - induction n as [|n IH]; simpl; [reflexivity|]. rewrite <- IH by lia. reflexivity.
  - rewrite repeat_length. exact Hn.
Qed.

Lemma ev_reachable_inv n s : Z.of_nat n < 2 ^ 32 -> ev_reachable n s -> ev_inv s.
Proof. intros Hn. induction 1; [apply ev_init_inv; exact Hn|eapply ev_step_inv; eauto]. Qed.

(** C34: No lost wake-up: while the event is signalled and a thread sleeps on it, another thread is on
    its way to consume the signal or to wake a sleeper; in particular, when no thread is running
    inside of the functions, nobody sleeps on a signalled event.  The count of waiters is exact. *)
Theorem event_no_lost_wakeup n s : Z.of_nat n < 2 ^ 32 -> ev_reachable n s ->
  s.(ev_waiters) = counts s.(ev_threads) /\
  (s.(ev_flag) = 1 -> forall i, s.(ev_threads) !! i = Some WAsleep ->
    exists j e, s.(ev_threads) !! j = Some e /\ active e = true) /\
  (Forall (fun e => e = EIdle \/ e = WAsleep) s.(ev_threads) -> s.(ev_flag) = 1 -> Forall (fun e => e = EIdle) s.(ev_threads)).
Proof.
  intros Hn Hr. pose proof (ev_reachable_inv n s Hn Hr) as [H1 H2 H3 H4]. split_and!; [exact H2|eauto|].
  intros Hq Hf. rewrite Forall_forall in Hq. apply Forall_forall. intros e He. destruct (Hq e He) as [-> | ->]; [reflexivity|]. exfalso.
  apply list_elem_of_In, list_elem_of_lookup in He. destruct (H4 Hf He) as (j & x & Hj & Hx).
  apply list_elem_of_lookup_2, list_elem_of_In, Hq in Hj. destruct Hj as [-> | ->]; discriminate.
Qed.

(** ** Runs *)

Inductive echoice := ECall (i : nat) (wait : bool) | ESignal (i : nat) | EGo (i : nat) | EFutex (i j : nat).

Definition ev_run1 (s : event) (c : echoice) : option event :=
  match c with
  | ECall i wait => match s.(ev_threads) !! i with Some EIdle => Some (upd_event s s.(ev_flag) s.(ev_waiters) i (WFirst wait)) | _ => None end
  | ESignal i => match s.(ev_threads) !! i with Some EIdle => Some (upd_event s s.(ev_flag) s.(ev_waiters) i KLoad) | _ => None end
  | EGo i =>
      e ← s.(ev_threads) !! i;
      match rvvm_event_wait s.(ev_flag) s.(ev_waiters) e with
      | Some (f, w, e') => Some (upd_event s f w i e')
      | None => '(f, e') ← rvvm_event_wake s.(ev_flag) s.(ev_waiters) e; Some (upd_event s f s.(ev_waiters) i e')
      end
  | EFutex i j =>
      match s.(ev_threads) !! i, s.(ev_threads) !! j with
      | Some KWake, Some WAsleep => Some (mk_event s.(ev_flag) s.(ev_waiters) (<[j := WThird true]> (<[i := EReturn true]> s.(ev_threads))))
      | _, _ => None
      end
  end.

Fixpoint ev_run (s : event) (l : list echoice) : option event := match l with [] => Some s | c :: l => s' ← ev_run1 s c; ev_run s' l end.

Lemma ev_run1_step s c s' : ev_run1 s c = Some s' -> ev_step s s'.
Proof.
  destruct c as [i wait|i|i|i j]; simpl.
  - destruct (s.(ev_threads) !! i) as [[]|] eqn:Hi; try discriminate. intros [= <-]. apply ev_call. exact Hi.
  - destruct (s.(ev_threads) !! i) as [[]|] eqn:Hi; try discriminate. intros [= <-]. apply ev_signal. exact Hi.
  - destruct (s.(ev_threads) !! i) as [e|] eqn:Hi; [|discriminate]. simpl.
    destruct (rvvm_event_wait s.(ev_flag) s.(ev_waiters) e) as [[[f w] e']|] eqn:E; [intros [= <-]; eapply ev_wait; eauto|].
    destruct (rvvm_event_wake s.(ev_flag) s.(ev_waiters) e) as [[f e']|] eqn:E2; [|discriminate]. intros [= <-]. eapply ev_wake; eauto.
  - destruct (s.(ev_threads) !! i) as [[]|] eqn:Hi; try discriminate. destruct (s.(ev_threads) !! j) as [[]|] eqn:Hj; try discriminate.
    intros [= <-]. apply ev_futex_wake; assumption.
Qed.

Lemma ev_run_reachable n l : forall s s', ev_reachable n s -> ev_run s l = Some s' -> ev_reachable n s'.
Proof.
  induction l as [|c l IH]; intros s s' Hr; simpl; [congruence|]. destruct (ev_run1 s c) as [t|] eqn:E; [|discriminate]. simpl.
  apply IH. eapply ev_reach_step; [exact Hr|]. apply ev_run1_step with c. exact E.
Qed.

(** A waiter goes to sleep and is signalled. *)
Lemma event_no_lost_wakeup_witness : exists s, ev_run (rvvm_event_init 2) [ECall 0 true; EGo 0; EGo 0; EGo 0; EGo 0; ESignal 1; EGo 1; EGo 1] = Some s /\
  s.(ev_threads) = [WAsleep; KWaiters] /\ exists j e, s.(ev_threads) !! j = Some e /\ active e = true.
Proof.
  destruct (ev_run (rvvm_event_init 2) [ECall 0 true; EGo 0; EGo 0; EGo 0; EGo 0; ESignal 1; EGo 1; EGo 1]) as [s|] eqn:E; [|vm_compute in E; discriminate].
  pose proof (ev_run_reachable 2 _ _ _ (ev_reach_init 2) E) as Hr. exists s.
  assert (Hs : s.(ev_flag) = 1 /\ s.(ev_threads) = [WAsleep; KWaiters]) by (vm_compute in E; injection E as <-; auto). destruct Hs as [Hf Ht].
  split_and!; [reflexivity|exact Ht|]. apply (event_no_lost_wakeup 2 s ltac:(lia) Hr) with (i := O); [exact Hf|rewrite Ht; reflexivity].
Defined.

(** A signal that arrives between the first look at the flag and the second is consumed, but the
    waiter returns as if it had timed out. *)
Lemma event_wait_misses_signal : exists s, ev_reachable 2 s /\ s.(ev_flag) = 0 /\ s.(ev_threads) = [EReturn false; EReturn true].
Proof.
  assert (E : ev_run (rvvm_event_init 2) [ECall 0 true; EGo 0; ESignal 1; EGo 1; EGo 1; EGo 1; EGo 0; EGo 0; EGo 0; EGo 0]
              = Some (mk_event 0 0 [EReturn false; EReturn true])) by (vm_compute; reflexivity).
  eexists. split; [exact (ev_run_reachable 2 _ _ _ (ev_reach_init 2) E)|]. auto.
Qed.
