(* ===== verification/Workq.v ===== *)
(** * The work queue of the thread pool (src/util/threading.c)

    A bounded queue for any number of producers and consumers: a ticket is taken from [head] or
    [tail] by compare-and-swap, and the sequence number of the slot tells whose turn it is.
    Threads interleave at every atomic operation and memory is sequentially consistent.
    Theorem: every task that was submitted is run at most once, by one thread, as it was
    submitted, and when all threads are done and the queue is drained none is missing.

    Tickets and sequence numbers are 32-bit words that wrap around.  The model numbers them all:
    a word of the code is the low 32 bits of the number in the model, and the model looks at no
    more of it ([submit_erased], [perform_erased]).  What the theorem asks of the schedule is
    that no thread sits on a ticket it has loaded while 2^31 - 512 more are taken. *)

From S2P Require Import Prelude BitOps.

Definition WORKQUEUE_SIZE : Z := 256.
Definition WORKQUEUE_MASK : Z := 255.

(** A slot; a task is a function with its arguments and flags. *)
Record task_item := mk_item { ti_seq : Z; ti_task : nat }.

(** Where a thread is, with the number of the ticket that was loaded from [head] or [tail].
    [QRun] carries the ticket only for the statement of the theorem. *)
Inductive qstate :=
| QIdle
| SSeq (t : nat) (head : Z) | SCas (t : nat) (head : Z) | SReload (t : nat) | SFill (t : nat) (head : Z) | SPublish (t : nat) (head : Z)
| PSeq (tail : Z) | PCas (tail : Z) | PReload | PRead (tail : Z) | PRelease (tail : Z) (t : nat) | QRun (tail : Z) (t : nat).

(** [q_submitted] and [q_ran] record the tasks by ticket and the tickets that were run. *)
Record wq := mk_wq {
  q_slots : Z -> task_item;
  q_head : Z;
  q_tail : Z;
  q_threads : list qstate;
  q_submitted : list nat;
  q_ran : list Z
}.

Definition workqueue_init (threads : nat) : wq := mk_wq (fun i => mk_item i 0) 0 0 (repeat QIdle threads) [] [].

Definition slot_of (ticket : Z) : Z := u32 ticket .& WORKQUEUE_MASK.
Definition seq_at (s : wq) (ticket : Z) : Z := (s.(q_slots) (slot_of ticket)).(ti_seq).
Definition task_at (s : wq) (ticket : Z) : nat := (s.(q_slots) (slot_of ticket)).(ti_task).

Definition set_thread (s : wq) (i : nat) (q : qstate) : wq :=
  mk_wq s.(q_slots) s.(q_head) s.(q_tail) (<[i := q]> s.(q_threads)) s.(q_submitted) s.(q_ran).
Definition set_slot (s : wq) (ticket : Z) (x : task_item) : wq :=
  mk_wq (<[slot_of ticket := x]> s.(q_slots)) s.(q_head) s.(q_tail) s.(q_threads) s.(q_submitted) s.(q_ran).

(** One step of a thread that is inside of [workqueue_submit] or [workqueue_try_perform]; [spurious]
    tells whether a weak compare-and-swap fails for no reason. *)
Definition workqueue_submit (s : wq) (q : qstate) (spurious : bool) : option (wq * qstate) :=
  match q with
  | SReload t => Some (s, SSeq t s.(q_head))
  | SSeq t head =>
      let diff := s32 (u32 (seq_at s head) - u32 head) in
      Some (s, if diff =? 0 then SCas t head else if diff <? 0 then QIdle else SReload t)
  | SCas t head =>
      if (u32 s.(q_head) =? u32 head) && negb spurious
      then Some (mk_wq s.(q_slots) (s.(q_head) + 1) s.(q_tail) s.(q_threads) (s.(q_submitted) ++ [t]) s.(q_ran), SFill t s.(q_head))
      else Some (s, SSeq t head)
  | SFill t head => Some (set_slot s head (mk_item (seq_at s head) t), SPublish t head)
  | SPublish t head => Some (set_slot s head (mk_item (head + 1) (task_at s head)), QIdle)
  | _ => None
  end.

Definition workqueue_try_perform (s : wq) (q : qstate) (spurious : bool) : option (wq * qstate) :=
  match q with
  | PReload => Some (s, PSeq s.(q_tail))
  | PSeq tail =>
      let diff := s32 (u32 (seq_at s tail) - u32 (tail + 1)) in
      Some (s, if diff =? 0 then PCas tail else if diff <? 0 then QIdle else PReload)
  | PCas tail =>
      if (u32 s.(q_tail) =? u32 tail) && negb spurious
      then Some (mk_wq s.(q_slots) s.(q_head) (s.(q_tail) + 1) s.(q_threads) s.(q_submitted) s.(q_ran), PRead s.(q_tail))
      else Some (s, PSeq tail)
  | PRead tail => Some (s, PRelease tail (task_at s tail))
  | PRelease tail t => Some (set_slot s tail (mk_item (tail + WORKQUEUE_MASK + 1) (task_at s tail)), QRun tail t)
  | QRun tail t => Some (mk_wq s.(q_slots) s.(q_head) s.(q_tail) s.(q_threads) s.(q_submitted) (s.(q_ran) ++ [tail]), QIdle)
  | _ => None
  end.

(** What the code has of a state: words of 32 bits. *)
Definition erase_state (q : qstate) : qstate :=
  match q with
  | SSeq t h => SSeq t (u32 h) | SCas t h => SCas t (u32 h) | SFill t h => SFill t (u32 h) | SPublish t h => SPublish t (u32 h)
  | PSeq h => PSeq (u32 h) | PCas h => PCas (u32 h) | PRead h => PRead (u32 h) | PRelease h t => PRelease (u32 h) t | QRun h t => QRun (u32 h) t
  | QIdle | SReload _ | PReload => q
  end.

Record erased (s e : wq) : Prop := {
  er_slots : forall i, (e.(q_slots) i).(ti_task) = (s.(q_slots) i).(ti_task) /\ u32 (e.(q_slots) i).(ti_seq) = u32 (s.(q_slots) i).(ti_seq);
  er_head : u32 e.(q_head) = u32 s.(q_head);
  er_tail : u32 e.(q_tail) = u32 s.(q_tail)
}.

Inductive wq_step (s : wq) : wq -> Prop :=
| wq_submit i t : s.(q_threads) !! i = Some QIdle -> wq_step s (set_thread s i (SReload t))
| wq_perform i : s.(q_threads) !! i = Some QIdle -> wq_step s (set_thread s i PReload)
| wq_submitting i q spurious s' q' : s.(q_threads) !! i = Some q -> workqueue_submit s q spurious = Some (s', q') -> wq_step s (set_thread s' i q')
| wq_performing i q spurious s' q' : s.(q_threads) !! i = Some q -> workqueue_try_perform s q spurious = Some (s', q') -> wq_step s (set_thread s' i q').

(** No thread has a ticket that is [wq_lag] or more behind. *)
Definition wq_lag : Z := 2 ^ 31 - 512.

Definition in_time (s : wq) (q : qstate) : Prop :=
  match q with
  | SSeq _ h | SCas _ h => s.(q_head) - h < wq_lag
  | PSeq h | PCas h => s.(q_tail) - h < wq_lag
  | _ => True
  end.

Definition wq_timely (s : wq) : Prop := Forall (in_time s) s.(q_threads).

Inductive wq_reachable (n : nat) : wq -> Prop :=
| wq_reach_init : wq_reachable n (workqueue_init n)
| wq_reach_step s s' : wq_reachable n s -> wq_timely s -> wq_step s s' -> wq_reachable n s'.

(** ** Invariant *)

(** Whose ticket a thread has, and in which role. *)
Definition produces (q : qstate) (p : Z) : Prop := match q with SFill _ h | SPublish _ h => h = p | _ => False end.
Definition consumes (q : qstate) (p : Z) : Prop := match q with PRead h | PRelease h _ => h = p | _ => False end.
Definition takes (q : qstate) (p : Z) : Prop := match q with PRead h | PRelease h _ | QRun h _ => h = p | _ => False end.

Definition submitted_at (s : wq) (p : Z) : option nat := s.(q_submitted) !! Z.to_nat p.

Definition thread_ok (s : wq) (q : qstate) : Prop :=
  match q with
  | QIdle | SReload _ | PReload => True
  | SSeq _ h => 0 <= h <= s.(q_head)
  | SCas _ h => 0 <= h <= s.(q_head) /\ (s.(q_head) = h -> seq_at s h = h)
  | SFill t h => s.(q_tail) <= h < s.(q_head) /\ seq_at s h = h /\ submitted_at s h = Some t
  | SPublish t h => s.(q_tail) <= h < s.(q_head) /\ seq_at s h = h /\ submitted_at s h = Some t /\ task_at s h = t
  | PSeq h => 0 <= h <= s.(q_tail)
  | PCas h => 0 <= h <= s.(q_tail) /\ (s.(q_tail) = h -> seq_at s h = h + 1 /\ h < s.(q_head))
  | PRead h => 0 <= h /\ s.(q_head) - 256 <= h < s.(q_tail) /\ seq_at s h = h + 1 /\ submitted_at s h = Some (task_at s h)
  | PRelease h t => 0 <= h /\ s.(q_head) - 256 <= h < s.(q_tail) /\ seq_at s h = h + 1 /\ submitted_at s h = Some t
  | QRun h t => 0 <= h < s.(q_tail) /\ submitted_at s h = Some t
  end.

Record wq_inv (s : wq) : Prop := {
  qi_range : 0 <= s.(q_tail) <= s.(q_head) /\ s.(q_head) <= s.(q_tail) + 256;
  qi_length : Z.of_nat (length s.(q_submitted)) = s.(q_head);
  qi_full : forall p, s.(q_tail) <= p < s.(q_head) ->
    (seq_at s p = p + 1 /\ submitted_at s p = Some (task_at s p)) \/ (seq_at s p = p /\ exists i q, s.(q_threads) !! i = Some q /\ produces q p);
  qi_free : forall p, 0 <= p -> s.(q_head) - 256 <= p < s.(q_tail) ->
    seq_at s p = p + 256 \/ (seq_at s p = p + 1 /\ exists i q, s.(q_threads) !! i = Some q /\ consumes q p);
  qi_fresh : forall p, s.(q_head) <= p < 256 -> seq_at s p = p;
  qi_threads : forall i q, s.(q_threads) !! i = Some q -> thread_ok s q;
  qi_producers : forall i j q q' p, s.(q_threads) !! i = Some q -> s.(q_threads) !! j = Some q' -> produces q p -> produces q' p -> i = j;
  qi_takers : forall i j q q' p, s.(q_threads) !! i = Some q -> s.(q_threads) !! j = Some q' -> takes q p -> takes q' p -> i = j;
  qi_ran : NoDup s.(q_ran) /\ forall p, p ∈ s.(q_ran) -> 0 <= p < s.(q_tail) /\ forall i q, s.(q_threads) !! i = Some q -> ~ takes q p;
  qi_all : forall p, 0 <= p < s.(q_tail) -> p ∈ s.(q_ran) \/ exists i q, s.(q_threads) !! i = Some q /\ takes q p
}.

(** ** Slots *)

Lemma slot_of_mod p : slot_of p = p mod 256.
Proof. unfold slot_of, WORKQUEUE_MASK, wrap. change 255 with (Z.ones 8). rewrite Z.land_ones by lia. change (2 ^ 8) with 256. dlia. Qed.

(** Tickets that are less than a lap apart have different slots. *)
Lemma slot_of_inj p p' : slot_of p = slot_of p' -> p - 256 < p' < p + 256 -> p = p'.
Proof. rewrite !slot_of_mod. intros H Hr. dlia. Qed.

Lemma seq_at_set s h x p : seq_at (set_slot s h x) p = if slot_of h =? slot_of p then x.(ti_seq) else seq_at s p.
Proof. unfold seq_at, set_slot. simpl. rewrite fupd_dec. destruct (_ =? _); reflexivity. Qed.

Lemma task_at_set s h x p : task_at (set_slot s h x) p = if slot_of h =? slot_of p then x.(ti_task) else task_at s p.
Proof. unfold task_at, set_slot. simpl. rewrite fupd_dec. destruct (_ =? _); reflexivity. Qed.

(** ** Words of 32 bits

    States with the same words take steps to states with the same words. *)

Lemma u32_add x y c : u32 x = u32 y -> u32 (x + c) = u32 (y + c).
Proof. unfold wrap. intros E. rewrite (Z.add_mod x), (Z.add_mod y), E by lia. reflexivity. Qed.

Section erasure.
Context (s e : wq) (He : erased s e).

Lemma erased_seq h h' : u32 h = u32 h' -> u32 (seq_at e h') = u32 (seq_at s h) /\ task_at e h' = task_at s h.
Proof using He. intros E. unfold seq_at, task_at, slot_of. rewrite E. destruct (er_slots _ _ He (u32 h' .& WORKQUEUE_MASK)). auto. Qed.

Lemma erased_set h h' x x' : u32 h = u32 h' -> ti_task x' = ti_task x -> u32 (ti_seq x') = u32 (ti_seq x) -> erased (set_slot s h x) (set_slot e h' x').
Proof using He.
  intros E Ht Hs. destruct He as [H1 H2 H3]. split; simpl; auto. intros i. unfold slot_of. rewrite E, !fupd_dec. destruct (_ =? _); auto.
Qed.

Lemma submit_erased q q' sp s1 q1 : erase_state q = erase_state q' -> workqueue_submit s q sp = Some (s1, q1) ->
  exists e1 q1', workqueue_submit e q' sp = Some (e1, q1') /\ erased s1 e1 /\ erase_state q1 = erase_state q1'.
Proof using He.
  pose proof (er_head _ _ He) as Hh.
  destruct q, q'; try discriminate; cbn [erase_state workqueue_submit]; intros [=]; intros [= <- <-] || idtac.
  all: subst; try match goal with E : u32 ?a = u32 ?b |- _ => pose proof (proj1 (erased_seq a b E)) as Hq; pose proof (proj2 (erased_seq a b E)) as Ht end.
  all: rewrite ?Hq, ?Ht, ?Hh.
  - match goal with E : u32 _ = u32 _ |- _ => rewrite E end. eexists _, _. split; [reflexivity|]. split; [exact He|].
    destruct (_ =? 0); [cbn; congruence|]. by destruct (_ <? 0).
  - match goal with E : u32 ?a = u32 _ |- context [u32 ?a] => rewrite E end. destruct (_ && _); intros [= <- <-]; eexists _, _; (split; [reflexivity|]).
    + split; [|cbn; congruence]. destruct He. split; simpl; auto. by apply u32_add.
    + split; [exact He|cbn; congruence].
  - eexists _, _. split; [reflexivity|]. split; [exact He|cbn; congruence].
  - eexists _, _. split; [reflexivity|]. split; [by apply erased_set|cbn; congruence].
  - eexists _, _. split; [reflexivity|]. split; [|reflexivity]. apply erased_set; simpl; auto. symmetry. by apply u32_add.
Qed.

Lemma perform_erased q q' sp s1 q1 : erase_state q = erase_state q' -> workqueue_try_perform s q sp = Some (s1, q1) ->
  exists e1 q1', workqueue_try_perform e q' sp = Some (e1, q1') /\ erased s1 e1 /\ erase_state q1 = erase_state q1'.
Proof using He.
  pose proof (er_tail _ _ He) as Hh.
  destruct q, q'; try discriminate; cbn [erase_state workqueue_try_perform]; intros [=]; intros [= <- <-] || idtac.
  all: subst; try match goal with E : u32 ?a = u32 ?b |- _ => pose proof (proj1 (erased_seq a b E)) as Hq; pose proof (proj2 (erased_seq a b E)) as Ht; pose proof (u32_add a b 1 E) as Hs end.
  all: rewrite ?Hq, ?Ht, ?Hh.
  - rewrite Hs. eexists _, _. split; [reflexivity|]. split; [exact He|].
    destruct (_ =? 0); [cbn; congruence|]. by destruct (_ <? 0).
  - match goal with E : u32 ?a = u32 _ |- context [u32 ?a] => rewrite E end. destruct (_ && _); intros [= <- <-]; eexists _, _; (split; [reflexivity|]).
    + split; [|cbn; congruence]. destruct He. split; simpl; auto. by apply u32_add.
    + split; [exact He|cbn; congruence].
  - eexists _, _. split; [reflexivity|]. split; [exact He|cbn; congruence].
  - eexists _, _. split; [reflexivity|]. split; [exact He|cbn; congruence].
  - eexists _, _. split; [reflexivity|]. split; [|cbn; congruence]. apply erased_set; simpl; auto. symmetry. by do 2 apply u32_add.
  - eexists _, _. split; [reflexivity|]. split; [|reflexivity]. destruct He. by split.
Qed.

End erasure.

(** ** Threads that move on their own *)

Section moves.
Context (s : wq) (i : nat) (q : qstate).
Hypothesis HI : wq_inv s.
Hypothesis Hi : s.(q_threads) !! i = Some q.

Lemma thread_cases q' k x : <[i := q']> s.(q_threads) !! k = Some x -> (k = i /\ x = q') \/ (k <> i /\ s.(q_threads) !! k = Some x).
Proof. apply (insert_cases _ _ _ _ _ _ Hi). Qed.

Lemma thread_exists q' (P : qstate -> Prop) : (P q -> P q') -> (exists k x, s.(q_threads) !! k = Some x /\ P x) ->
  exists k x, <[i := q']> s.(q_threads) !! k = Some x /\ P x.
Proof.
  intros Hq (k & x & Hk & Hx). destruct (decide (k = i)) as [->|Hne].
  - exists i, q'. rewrite list_lookup_insert_eq by (eapply lookup_lt_Some; eauto). split; [reflexivity|]. apply Hq. congruence.
  - exists k, x. rewrite list_lookup_insert_ne by congruence. auto.
Qed.

Lemma threads_unique q' (P : qstate -> Z -> Prop) :
  (forall a b x y p, s.(q_threads) !! a = Some x -> s.(q_threads) !! b = Some y -> P x p -> P y p -> a = b) ->
  (forall p, P q' p -> P q p \/ forall k x, k <> i -> s.(q_threads) !! k = Some x -> ~ P x p) ->
  forall a b x y p, <[i := q']> s.(q_threads) !! a = Some x -> <[i := q']> s.(q_threads) !! b = Some y -> P x p -> P y p -> a = b.
Proof.
  intros Hu Hq' a b x y p [[-> ->]|[Hna Hx]]%thread_cases [[-> ->]|[Hnb Hy]]%thread_cases Hpx Hpy; [reflexivity| | |eauto].
  - destruct (Hq' p Hpx) as [Hq|Hno]; [eauto|]. destruct (Hno b y Hnb Hy Hpy).
  - destruct (Hq' p Hpy) as [Hq|Hno]; [eauto|]. destruct (Hno a x Hna Hx Hpx).
Qed.

(** A step that changes nothing but the thread, which keeps its ticket. *)
Lemma thread_move q' : thread_ok s q' -> (forall p, produces q' p <-> produces q p) -> (forall p, consumes q' p <-> consumes q p) ->
  (forall p, takes q' p <-> takes q p) -> wq_inv (set_thread s i q').
Proof.
  intros Hok Hpr Hco Hta. destruct HI as [H1 H2 H3 H4 H5 H6 H7 H8 [H9a H9b] H10]. split; simpl; auto.
  - intros p Hp. destruct (H3 p Hp) as [H|[Hs He]]; [auto|]. right. split; [exact Hs|]. apply thread_exists; [apply Hpr|exact He].
  - intros p Hp Hr. destruct (H4 p Hp Hr) as [H|[Hs He]]; [auto|]. right. split; [exact Hs|]. apply thread_exists; [apply Hco|exact He].
  - intros k x [[-> ->]|[_ Hx]]%thread_cases; [exact Hok|exact (H6 k x Hx)].
  - apply threads_unique; [exact H7|]. intros p Hp. left. apply Hpr. exact Hp.
  - apply threads_unique; [exact H8|]. intros p Hp. left. apply Hta. exact Hp.
  - split; [exact H9a|]. intros p Hp. destruct (H9b p Hp) as [Hr Hno]. split; [exact Hr|].
    intros k x [[-> ->]|[_ Hx]]%thread_cases; [rewrite Hta|]; eauto.
  - intros p Hp. destruct (H10 p Hp) as [H|He]; [auto|]. right. apply thread_exists; [apply Hta|exact He].
Qed.

(** Two tickets of one slot, less than a lap apart, are the same. *)
Ltac same_slot E := apply Z.eqb_eq in E; apply slot_of_inj in E; [|lia].

Lemma seq_same p p' : slot_of p = slot_of p' -> seq_at s p = seq_at s p'.
Proof. intros E. unfold seq_at. rewrite E. reflexivity. Qed.

(** *** Taking a ticket to submit *)
Lemma claim_head t h : q = SCas t h -> s.(q_head) = h ->
  wq_inv (set_thread (mk_wq s.(q_slots) (h + 1) s.(q_tail) s.(q_threads) (s.(q_submitted) ++ [t]) s.(q_ran)) i (SFill t h)).
Proof.
  intros Hq Hh. pose proof (qi_threads s HI i q Hi) as Hok. rewrite Hq in Hok. destruct Hok as [Hh0 Hseq]. specialize (Hseq Hh).
  destruct HI as [H1 H2 H3 H4 H5 H6 H7 H8 [H9a H9b] H10]. rewrite Hh in *.
  assert (Hroom : h < s.(q_tail) + 256).
  { destruct (Z.lt_ge_cases h (s.(q_tail) + 256)); [assumption|].
    assert (E : slot_of (h - 256) = slot_of h) by (rewrite !slot_of_mod; dlia). pose proof (seq_same _ _ E).
    destruct (H3 (h - 256) ltac:(lia)) as [[? _]|[? _]]; lia. }
  assert (Hsub : forall p x, submitted_at s p = Some x -> (s.(q_submitted) ++ [t]) !! Z.to_nat p = Some x).
  { intros p x Hx. apply lookup_app_l_Some. exact Hx. }
  assert (Hnew : (s.(q_submitted) ++ [t]) !! Z.to_nat h = Some t).
  { rewrite lookup_app_r by lia. replace (Z.to_nat h - length s.(q_submitted))%nat with O by lia. reflexivity. }
  split; simpl; auto; try lia.
  - rewrite length_app. simpl. lia.
  - intros p Hp. destruct (decide (p = h)) as [->|Hne].
    + right. split; [exact Hseq|]. exists i, (SFill t h). rewrite list_lookup_insert_eq by (eapply lookup_lt_Some; eauto). simpl. auto.
    + destruct (H3 p ltac:(lia)) as [[Ha Hb]|[Ha Hb]]; [left; split; [exact Ha|]; apply Hsub; exact Hb|].
      right. split; [exact Ha|]. eapply thread_exists; [|exact Hb]. rewrite Hq. simpl. tauto.
  - intros p Hp Hr. destruct (H4 p Hp ltac:(lia)) as [Ha|[Ha Hb]]; [auto|]. right. split; [exact Ha|]. eapply thread_exists; [|exact Hb]. rewrite Hq. simpl. tauto.
  - intros p Hp. apply H5. lia.
  - intros k x [[-> ->]|[_ Hx]]%thread_cases; [simpl; auto with lia|]. specialize (H6 k x Hx).
    destruct x as [|t' h'|t' h'|t'|t' h'|t' h'|h'|h'| |h'|h' t'|h' t']; simpl in *; auto; try lia.
    + split; [lia|]. split; [apply H6|]. apply Hsub. apply H6.
    + destruct H6 as (Ha & Hb & Hc & Hd). split_and!; [lia..|exact Hb|exact (Hsub _ _ Hc)|exact Hd].
    + destruct H6 as [Ha Hb]. split; [exact Ha|]. intros E. destruct (Hb E). split; [assumption|lia].
    + destruct H6 as (Ha & Hb & Hc & Hd). split_and!; [exact Ha| |lia|exact Hc|exact (Hsub _ _ Hd)]. destruct (decide (h' = h - 256)) as [->|]; [|lia].
      assert (E : slot_of (h - 256) = slot_of h) by (rewrite !slot_of_mod; dlia). pose proof (seq_same _ _ E). lia.
    + destruct H6 as (Ha & Hb & Hc & Hd). split_and!; [exact Ha| |lia|exact Hc|exact (Hsub _ _ Hd)]. destruct (decide (h' = h - 256)) as [->|]; [|lia].
      assert (E : slot_of (h - 256) = slot_of h) by (rewrite !slot_of_mod; dlia). pose proof (seq_same _ _ E). lia.
    + destruct H6 as [Ha Hb]. split; [exact Ha|]. apply Hsub. exact Hb.
  - apply (threads_unique _ _ H7). intros p Hp. simpl in Hp. subst p. right. intros k x _ Hx Hpx. specialize (H6 k x Hx).
    destruct x; simpl in Hpx; try contradiction; subst; simpl in H6; lia.
  - apply (threads_unique _ _ H8). simpl. tauto.
  - split; [exact H9a|]. intros p Hp. destruct (H9b p Hp) as [Ha Hb]. split; [exact Ha|].
    intros k x [[-> ->]|[_ Hx]]%thread_cases; [simpl; tauto|eauto].
  - intros p Hp. destruct (H10 p Hp) as [Ha|Ha]; [auto|]. right. eapply thread_exists; [|exact Ha]. rewrite Hq. simpl. tauto.
Qed.

(** *** Storing the task *)
Lemma fill_slot t h : q = SFill t h -> wq_inv (set_thread (set_slot s h (mk_item (seq_at s h) t)) i (SPublish t h)).
Proof.
  intros Hq. pose proof (qi_threads s HI i q Hi) as Hok. rewrite Hq in Hok. destruct Hok as (Hr & Hseq & Hsub).
  set (s' := set_thread _ i _).
  assert (Hs : forall p, seq_at s' p = seq_at s p).
  { intros p. unfold s'. change (seq_at (set_slot s h (mk_item (seq_at s h) t)) p = seq_at s p). rewrite seq_at_set.
    destruct (Z.eqb_spec (slot_of h) (slot_of p)) as [E|]; [|reflexivity]. simpl. apply seq_same. exact E. }
  assert (Ht : forall p, seq_at s p <> h -> task_at s' p = task_at s p).
  { intros p Hp. unfold s'. change (task_at (set_slot s h (mk_item (seq_at s h) t)) p = task_at s p). rewrite task_at_set.
    destruct (Z.eqb_spec (slot_of h) (slot_of p)) as [E|]; [|reflexivity]. rewrite <- (seq_same _ _ E) in Hp. contradiction. }
  assert (Hth : task_at s' h = t).
  { unfold s'. change (task_at (set_slot s h (mk_item (seq_at s h) t)) h = t). rewrite task_at_set, Z.eqb_refl. reflexivity. }
  assert (Hpar : forall p, seq_at s p = p + 1 -> task_at s' p = task_at s p).
  { intros p Hp. unfold s'. change (task_at (set_slot s h (mk_item (seq_at s h) t)) p = task_at s p). rewrite task_at_set.
    destruct (Z.eqb_spec (slot_of h) (slot_of p)) as [E|]; [|reflexivity]. pose proof (seq_same _ _ E). rewrite !slot_of_mod in E. exfalso. dlia. }
  destruct HI as [H1 H2 H3 H4 H5 H6 H7 H8 [H9a H9b] H10]. split; auto.
  - intros p Hp. rewrite Hs. destruct (H3 p Hp) as [[Ha Hb]|[Ha Hb]].
    + left. split; [exact Ha|]. rewrite Hpar by exact Ha. exact Hb.
    + right. split; [exact Ha|]. eapply thread_exists; [|exact Hb]. rewrite Hq. auto.
  - intros p Hp Hrp. rewrite Hs. destruct (H4 p Hp Hrp) as [Ha|[Ha Hb]]; [auto|]. right. split; [exact Ha|]. eapply thread_exists; [|exact Hb]. rewrite Hq. auto.
  - intros p Hp. rewrite Hs. auto.
  - intros k x [[-> ->]|[Hne Hx]]%thread_cases; [simpl; rewrite Hs; split_and!; auto; apply Hr|]. specialize (H6 k x Hx).
    destruct x as [|t' h'|t' h'|t'|t' h'|t' h'|h'|h'| |h'|h' t'|h' t']; cbn [thread_ok] in *; rewrite ?Hs; auto.
    + destruct H6 as (Ha & Hb & Hc & Hd). split_and!; auto; try apply Ha. rewrite Ht; [exact Hd|]. intros E.
      apply Hne. apply (H7 k i (SPublish t' h') q h Hx Hi); [simpl; congruence|rewrite Hq; reflexivity].
    + destruct H6 as (Ha & Hb & Hc & Hd). split_and!; auto; try apply Hb. rewrite Hpar by exact Hc. exact Hd.
  - apply (threads_unique _ _ H7). intros p Hp. left. rewrite Hq. exact Hp.
  - apply (threads_unique _ _ H8). simpl. tauto.
  - split; [exact H9a|]. intros p Hp. destruct (H9b p Hp) as [Ha Hb]. split; [exact Ha|].
    intros k x [[-> ->]|[_ Hx]]%thread_cases; [simpl; tauto|eauto].
  - intros p Hp. destruct (H10 p Hp) as [Ha|Ha]; [auto|]. right. eapply thread_exists; [|exact Ha]. rewrite Hq. simpl. tauto.
Qed.

(** *** Making it visible *)
Lemma publish_slot t h : q = SPublish t h -> wq_inv (set_thread (set_slot s h (mk_item (h + 1) (task_at s h))) i QIdle).
Proof.
  intros Hq. pose proof (qi_threads s HI i q Hi) as Hok. rewrite Hq in Hok. destruct Hok as (Hr & Hseq & Hsub & Htask).
  set (s' := set_thread _ i _).
  assert (Hs : forall p, seq_at s' p = if slot_of h =? slot_of p then h + 1 else seq_at s p) by (intros p; apply seq_at_set).
  assert (Hsne : forall p, seq_at s p <> h -> seq_at s' p = seq_at s p).
  { intros p Hp. rewrite Hs. destruct (Z.eqb_spec (slot_of h) (slot_of p)) as [E|]; [|reflexivity]. rewrite <- (seq_same _ _ E) in Hp. contradiction. }
  assert (Ht : forall p, task_at s' p = task_at s p).
  { intros p. unfold s'. change (task_at (set_slot s h (mk_item (h + 1) (task_at s h))) p = task_at s p). rewrite task_at_set.
    destruct (Z.eqb_spec (slot_of h) (slot_of p)) as [E|]; [|reflexivity]. simpl. unfold task_at. rewrite E. reflexivity. }
  assert (Hodd : forall p, seq_at s p = p + 1 -> seq_at s' p = p + 1).
  { intros p Hp. rewrite Hs. destruct (Z.eqb_spec (slot_of h) (slot_of p)) as [E|]; [|exact Hp]. pose proof (seq_same _ _ E). rewrite !slot_of_mod in E. exfalso. dlia. }
  destruct HI as [H1 H2 H3 H4 H5 H6 H7 H8 [H9a H9b] H10]. split; auto.
  - intros p Hp. rewrite Ht. destruct (decide (p = h)) as [->|Hne].
    + left. rewrite Hs, Z.eqb_refl. split; [reflexivity|]. rewrite Htask. exact Hsub.
    + destruct (H3 p Hp) as [[Ha Hb]|[Ha Hb]]; [left; split; [apply Hodd; exact Ha|exact Hb]|].
      right. split; [rewrite Hsne by lia; exact Ha|]. destruct Hb as (k & x & Hk & Hx). destruct (decide (k = i)) as [->|Hki].
      * assert (x = q) by congruence. subst x. rewrite Hq in Hx. simpl in Hx. congruence.
      * exists k, x. simpl. rewrite list_lookup_insert_ne by congruence. auto.
  - intros p Hp Hrp. simpl in Hrp. destruct (H4 p Hp Hrp) as [Ha|[Ha Hb]].
    + left. rewrite Hs. destruct (slot_of h =? slot_of p) eqn:E; [|exact Ha]. same_slot E. lia.
    + right. split; [apply Hodd; exact Ha|]. eapply thread_exists; [|exact Hb]. rewrite Hq. auto.
  - intros p Hp. simpl in Hp. rewrite Hs. destruct (slot_of h =? slot_of p) eqn:E; [|auto]. same_slot E. lia.
  - intros k x [[-> ->]|[Hne Hx]]%thread_cases; [exact I|]. specialize (H6 k x Hx).
    destruct x as [|t' h'|t' h'|t'|t' h'|t' h'|h'|h'| |h'|h' t'|h' t']; cbn [thread_ok] in *; rewrite ?Ht; auto.
    + destruct H6 as [Ha Hb]. split; [exact Ha|]. intros E. simpl in E. rewrite Hsne; [auto|]. rewrite (Hb E). lia.
    + destruct H6 as (Ha & Hb & Hc). split_and!; auto; try apply Ha. rewrite Hsne; [exact Hb|]. intros E. apply Hne.
      apply (H7 k i (SFill t' h') q h Hx Hi); [simpl; congruence|rewrite Hq; reflexivity].
    + destruct H6 as (Ha & Hb & Hc & Hd). split_and!; auto; try apply Ha. rewrite Hsne; [exact Hb|]. intros E. apply Hne.
      apply (H7 k i (SPublish t' h') q h Hx Hi); [simpl; congruence|rewrite Hq; reflexivity].
    + destruct H6 as [Ha Hb]. split; [exact Ha|]. intros E. simpl in E. destruct (Hb E) as [Hc Hd]. split; [apply Hodd; exact Hc|exact Hd].
    + destruct H6 as (Ha & Hb & Hc & Hd). split_and!; auto; apply Hb.
    + destruct H6 as (Ha & Hb & Hc & Hd). split_and!; auto; apply Hb.
  - apply (threads_unique _ _ H7). simpl. tauto.
  - apply (threads_unique _ _ H8). simpl. tauto.
  - split; [exact H9a|]. intros p Hp. destruct (H9b p Hp) as [Ha Hb]. split; [exact Ha|].
    intros k x [[-> ->]|[_ Hx]]%thread_cases; [simpl; tauto|eauto].
  - intros p Hp. destruct (H10 p Hp) as [Ha|Ha]; [auto|]. right. eapply thread_exists; [|exact Ha]. rewrite Hq. simpl. tauto.
Qed.

(** *** Taking a ticket to perform *)
Lemma claim_tail h : q = PCas h -> s.(q_tail) = h ->
  wq_inv (set_thread (mk_wq s.(q_slots) s.(q_head) (h + 1) s.(q_threads) s.(q_submitted) s.(q_ran)) i (PRead h)).
Proof.
  intros Hq Hh. pose proof (qi_threads s HI i q Hi) as Hok. rewrite Hq in Hok. destruct Hok as [Hh0 Hseq]. destruct (Hseq Hh) as [Hs Hlt].
  destruct HI as [H1 H2 H3 H4 H5 H6 H7 H8 [H9a H9b] H10]. rewrite Hh in *.
  assert (Hsub : submitted_at s h = Some (task_at s h)) by (destruct (H3 h ltac:(lia)) as [[_ ?]|[? _]]; [assumption|lia]).
  assert (Hlook : <[i := PRead h]> s.(q_threads) !! i = Some (PRead h)) by (apply list_lookup_insert_eq; eapply lookup_lt_Some; eauto).
  split; simpl; auto; try lia.
  - intros p Hp. destruct (H3 p ltac:(lia)) as [Ha|[Ha Hb]]; [left; exact Ha|]. right. split; [exact Ha|]. eapply thread_exists; [|exact Hb]. rewrite Hq. simpl. tauto.
  - intros p Hp Hr. destruct (decide (p = h)) as [->|Hne]; [right; split; [exact Hs|]; exists i, (PRead h); simpl; auto|].
    destruct (H4 p Hp ltac:(lia)) as [Ha|[Ha Hb]]; [left; exact Ha|]. right. split; [exact Ha|]. eapply thread_exists; [|exact Hb]. rewrite Hq. simpl. tauto.
  - intros k x [[-> ->]|[_ Hx]]%thread_cases; [cbn [thread_ok]; simpl; split_and!; auto; lia|]. specialize (H6 k x Hx).
    destruct x as [|t' h'|t' h'|t'|t' h'|t' h'|h'|h'| |h'|h' t'|h' t']; cbn [thread_ok] in *; simpl in *; auto; try lia.
    + destruct H6 as (Ha & Hb & Hc). assert (h' <> h) by (intros ->; change (seq_at s h = h) in Hb; lia). split_and!; auto; lia.
    + destruct H6 as (Ha & Hb & Hc & Hd). assert (h' <> h) by (intros ->; change (seq_at s h = h) in Hb; lia). split_and!; auto; lia.
    + destruct H6 as (Ha & Hb & Hc & Hd). split_and!; auto; lia.
    + destruct H6 as (Ha & Hb & Hc & Hd). split_and!; auto; lia.
    + destruct H6 as (Ha & Hb). split_and!; auto; lia.
  - apply (threads_unique _ _ H7). simpl. tauto.
  - apply (threads_unique _ _ H8). intros p Hp. simpl in Hp. subst p. right. intros k x _ Hx Hpx. specialize (H6 k x Hx).
    destruct x; simpl in Hpx; try contradiction; subst; simpl in H6; lia.
  - split; [exact H9a|]. intros p Hp. destruct (H9b p Hp) as [Ha Hb]. split; [lia|].
    intros k x [[-> ->]|[_ Hx]]%thread_cases; [simpl; lia|eauto].
  - intros p Hp. destruct (decide (p = h)) as [->|Hne]; [right; exists i, (PRead h); simpl; auto|].
    destruct (H10 p ltac:(lia)) as [Ha|Ha]; [auto|]. right. eapply thread_exists; [|exact Ha]. rewrite Hq. simpl. tauto.
Qed.

(** *** Giving the slot back *)
Lemma release_slot h t : q = PRelease h t ->
  wq_inv (set_thread (set_slot s h (mk_item (h + WORKQUEUE_MASK + 1) (task_at s h))) i (QRun h t)).
Proof.
  intros Hq. pose proof (qi_threads s HI i q Hi) as Hok. rewrite Hq in Hok. destruct Hok as (Hr0 & Hr & Hseq & Hsub).
  pose proof (qi_range s HI) as H1.
  replace (h + WORKQUEUE_MASK + 1) with (h + 256) by (unfold WORKQUEUE_MASK; lia).
  set (s' := set_thread _ i _).
  assert (Hs : forall p, seq_at s' p = if slot_of h =? slot_of p then h + 256 else seq_at s p) by (intros p; apply seq_at_set).
  assert (Hfar : forall p, h - 256 < p < h + 256 -> p <> h -> seq_at s' p = seq_at s p).
  { intros p Hp Hne. rewrite Hs. destruct (slot_of h =? slot_of p) eqn:E; [|reflexivity]. same_slot E. lia. }
  assert (Ht : forall p, task_at s' p = task_at s p).
  { intros p. unfold s'. change (task_at (set_slot s h (mk_item (h + 256) (task_at s h))) p = task_at s p). rewrite task_at_set.
    destruct (Z.eqb_spec (slot_of h) (slot_of p)) as [E|]; [|reflexivity]. simpl. unfold task_at. rewrite E. reflexivity. }
  destruct HI as [_ H2 H3 H4 H5 H6 H7 H8 [H9a H9b] H10]. split; auto.
  - intros p Hp. simpl in Hp. rewrite Ht, Hfar by lia. destruct (H3 p Hp) as [Ha|[Ha Hb]]; [auto|]. right. split; [exact Ha|]. eapply thread_exists; [|exact Hb]. rewrite Hq. auto.
  - intros p Hp Hrp. simpl in Hrp. destruct (decide (p = h)) as [->|Hne]; [left; rewrite Hs, Z.eqb_refl; reflexivity|].
    rewrite Hfar by lia. destruct (H4 p Hp Hrp) as [Ha|[Ha Hb]]; [auto|]. right. split; [exact Ha|].
    destruct Hb as (k & x & Hk & Hx). destruct (decide (k = i)) as [->|Hki].
    + assert (x = q) by congruence. subst x. rewrite Hq in Hx. simpl in Hx. congruence.
    + exists k, x. simpl. rewrite list_lookup_insert_ne by congruence. auto.
  - intros p Hp. simpl in Hp. rewrite Hfar by lia. auto.
  - intros k x [[-> ->]|[Hne Hx]]%thread_cases; [cbn [thread_ok]; simpl; split; [lia|exact Hsub]|]. pose proof (H8 k i x q h Hx Hi) as Huni. specialize (H6 k x Hx).
    rewrite Hq in Huni.
    destruct x as [|t' h'|t' h'|t'|t' h'|t' h'|h'|h'| |h'|h' t'|h' t']; cbn [thread_ok] in *; rewrite ?Ht; simpl in *; auto.
    + destruct H6 as [Ha Hb]. split; [exact Ha|]. intros E. specialize (Hb E). rewrite Hs. destruct (slot_of h =? slot_of h') eqn:Es; [|exact Hb].
      apply Z.eqb_eq in Es. rewrite !slot_of_mod in Es. dlia.
    + destruct H6 as (Ha & Hb & Hc). rewrite Hfar by lia. auto.
    + destruct H6 as (Ha & Hb & Hc & Hd). rewrite Hfar by lia. auto.
    + destruct H6 as [Ha Hb]. split; [exact Ha|]. intros E. specialize (Hb E). rewrite Hfar by lia. exact Hb.
    + assert (h' <> h) by (intros ->; apply Hne; auto). rewrite Hfar by lia. exact H6.
    + assert (h' <> h) by (intros ->; apply Hne; auto). rewrite Hfar by lia. exact H6.
  - apply (threads_unique _ _ H7). simpl. tauto.
  - apply (threads_unique _ _ H8). intros p Hp. left. rewrite Hq. exact Hp.
  - split; [exact H9a|]. intros p Hp. destruct (H9b p Hp) as [Ha Hb]. split; [exact Ha|].
    intros k x [[-> ->]|[_ Hx]]%thread_cases; [|eauto]. specialize (Hb i q Hi). rewrite Hq in Hb. exact Hb.
  - intros p Hp. destruct (H10 p Hp) as [Ha|Ha]; [auto|]. right. eapply thread_exists; [|exact Ha]. rewrite Hq. auto.
Qed.

(** *** Running the task *)
Lemma run_task h t : q = QRun h t -> wq_inv (set_thread (mk_wq s.(q_slots) s.(q_head) s.(q_tail) s.(q_threads) s.(q_submitted) (s.(q_ran) ++ [h])) i QIdle).
Proof.
  intros Hq. pose proof (qi_threads s HI i q Hi) as Hok. rewrite Hq in Hok. destruct Hok as (Hr & Hsub).
  destruct HI as [H1 H2 H3 H4 H5 H6 H7 H8 [H9a H9b] H10].
  assert (Hnew : h ∉ s.(q_ran)) by (intros Hin; destruct (H9b h Hin) as [_ Hno]; apply (Hno i q Hi); rewrite Hq; reflexivity).
  split; simpl; auto.
  - intros p Hp. destruct (H3 p Hp) as [Ha|[Ha Hb]]; [left; exact Ha|]. right. split; [exact Ha|]. eapply thread_exists; [|exact Hb]. rewrite Hq. simpl. tauto.
  - intros p Hp Hrp. destruct (H4 p Hp Hrp) as [Ha|[Ha Hb]]; [left; exact Ha|]. right. split; [exact Ha|]. eapply thread_exists; [|exact Hb]. rewrite Hq. simpl. tauto.
  - intros k x [[-> ->]|[Hne Hx]]%thread_cases; [exact I|]. exact (H6 k x Hx).
  - apply (threads_unique _ _ H7). simpl. tauto.
  - apply (threads_unique _ _ H8). simpl. tauto.
  - split.
    + apply list.NoDup_app. split_and!; [exact H9a| |apply list.NoDup_singleton]. intros p Hp ->%list_elem_of_singleton. contradiction.
    + intros p [Hp| ->%list_elem_of_singleton]%elem_of_app.
      * destruct (H9b p Hp) as [Ha Hb]. split; [exact Ha|]. intros k x [[-> ->]|[_ Hx]]%thread_cases; [simpl; tauto|eauto].
      * split; [lia|]. intros k x [[-> ->]|[Hne Hx]]%thread_cases; [simpl; tauto|]. intros Htx. apply Hne. apply (H8 k i x q h Hx Hi Htx). rewrite Hq. reflexivity.
  - intros p Hp. destruct (H10 p Hp) as [Ha|(k & x & Hk & Hx)]; [left; apply elem_of_app; auto|]. destruct (decide (k = i)) as [->|Hne].
    + assert (x = q) by congruence. subst x. rewrite Hq in Hx. simpl in Hx. subst p. left. apply elem_of_app. right. apply list_elem_of_singleton. reflexivity.
    + right. exists k, x. rewrite list_lookup_insert_ne by congruence. auto.
Qed.
End moves.

(** ** All steps *)

(** The sequence number at [head]: free for it, or of the ticket a lap earlier. *)
Lemma seq_at_head s : wq_inv s -> s.(q_head) - 256 <= seq_at s s.(q_head) <= s.(q_head).
Proof.
  intros [H1 H2 H3 H4 H5 _ _ _ _ _]. destruct (Z.lt_ge_cases s.(q_head) 256) as [Hlt|Hge]; [rewrite H5 by lia; lia|].
  assert (E : seq_at s (s.(q_head) - 256) = seq_at s s.(q_head)) by (unfold seq_at; f_equal; f_equal; rewrite !slot_of_mod; dlia).
  rewrite <- E. destruct (Z.lt_ge_cases (s.(q_head) - 256) s.(q_tail)).
  - destruct (H4 (s.(q_head) - 256) ltac:(lia) ltac:(lia)) as [->|[-> _]]; lia.
  - destruct (H3 (s.(q_head) - 256) ltac:(lia)) as [[-> _]|[-> _]]; lia.
Qed.

(** The sequence number of any slot, against a ticket that was once taken from the counters. *)
Lemma seq_at_window s p : wq_inv s -> s.(q_head) - 256 <= p < s.(q_head) -> 0 <= p -> p <= seq_at s p <= p + 256 /\ (p < s.(q_tail) -> p + 1 <= seq_at s p).
Proof.
  intros HI Hp H0. destruct (Z.lt_ge_cases p s.(q_tail)).
  - destruct (qi_free s HI p ltac:(lia) ltac:(lia)) as [->|[-> _]]; lia.
  - destruct (qi_full s HI p ltac:(lia)) as [[-> _]|[-> _]]; lia.
Qed.

Lemma seq_at_bounds s h : wq_inv s -> 0 <= h <= s.(q_head) ->
  h - 256 <= seq_at s h <= s.(q_head) + 256 /\ (h < s.(q_head) -> h <= seq_at s h) /\ (h < s.(q_tail) -> h + 1 <= seq_at s h).
Proof.
  intros HI Hh. pose proof (qi_range s HI). destruct (Z.eq_dec h s.(q_head)) as [->|Hne]; [pose proof (seq_at_head s HI); lia|].
  set (p := s.(q_head) - 1 - (s.(q_head) - 1 - h) mod 256).
  assert (E : slot_of p = slot_of h) by (unfold p; rewrite !slot_of_mod; dlia).
  assert (h <= p /\ s.(q_head) - 256 <= p < s.(q_head)) as Hp by (unfold p; dlia).
  assert (seq_at s h = seq_at s p) as -> by (unfold seq_at; by rewrite E).
  destruct (seq_at_window s p HI ltac:(lia) ltac:(lia)). assert (p = h \/ h + 256 <= p) by (rewrite !slot_of_mod in E; dlia). lia.
Qed.

(** The difference the code computes, for numbers that are less than half of the words apart. *)
Lemma s32_diff a b : - 2 ^ 31 <= a - b < 2 ^ 31 -> s32 (u32 a - u32 b) = a - b.
Proof.
  intros Hx. rewrite <- (signed_wrap 32 (u32 a - u32 b)). replace (u32 (u32 a - u32 b)) with (u32 (a - b)) by (unfold wrap; apply Zminus_mod).
  rewrite signed_wrap. apply signed_small; [lia|]. unfold srange. lia.
Qed.

Lemma u32_inj a b : - 2 ^ 32 < a - b < 2 ^ 32 -> u32 a = u32 b -> a = b.
Proof. unfold wrap. intros. dlia. Qed.

Lemma diff_zero a b : - 2 ^ 32 < a - b < 2 ^ 32 -> s32 (u32 a - u32 b) = 0 -> a = b.
Proof.
  intros Hr H0. apply u32_inj; [exact Hr|]. pose proof (wrap_range 32 a ltac:(lia)). pose proof (wrap_range 32 b ltac:(lia)).
  assert (u32 (u32 a - u32 b) = 0) as E by (rewrite <- (wrap_signed 32), H0 by lia; reflexivity). unfold urange, wrap in *. dlia.
Qed.

Lemma timely_lookup s i q : wq_timely s -> s.(q_threads) !! i = Some q -> in_time s q.
Proof. intros Ht Hi. exact (proj1 (Forall_lookup _ _) Ht i q Hi). Qed.

Lemma submit_step_inv s i q spurious s' q' : wq_inv s -> wq_timely s -> s.(q_threads) !! i = Some q ->
  workqueue_submit s q spurious = Some (s', q') -> wq_inv (set_thread s' i q').
Proof.
  intros HI Htm Hi Hstep. pose proof (qi_threads s HI i q Hi) as Hok. pose proof (timely_lookup s i q Htm Hi) as Hin. pose proof (qi_range s HI) as Hrg.
  destruct q as [|t h|t h|t|t h|t h|h|h| |h|h t|h t]; try discriminate Hstep; cbn [workqueue_submit] in Hstep.
  - injection Hstep as <- <-. apply (thread_move s i _ HI Hi); try (destruct (_ =? _); [|destruct (_ <? _)]; simpl; tauto).
    destruct (Z.eqb_spec (s32 (u32 (seq_at s h) - u32 h)) 0) as [E|E]; [|destruct (_ <? _); exact I].
    simpl in *. split; [exact Hok|]. intros <-. pose proof (seq_at_head s HI). apply diff_zero in E; lia.
  - destruct (Z.eqb_spec (u32 s.(q_head)) (u32 h)) as [E|E]; [destruct spurious|]; cbn [andb negb] in Hstep; injection Hstep as <- <-.
    + apply (thread_move s i _ HI Hi); simpl in *; tauto.
    + simpl in Hok, Hin. unfold wq_lag in Hin. apply u32_inj in E; [|lia]. subst h. by apply (claim_head s i (SCas t (q_head s))).
    + apply (thread_move s i _ HI Hi); simpl in *; tauto.
  - injection Hstep as <- <-. apply (thread_move s i _ HI Hi); simpl; try tauto. lia.
  - injection Hstep as <- <-. apply (fill_slot s i (SFill t h)); auto.
  - injection Hstep as <- <-. apply (publish_slot s i (SPublish t h)) with (t := t); auto.
Qed.

Lemma perform_step_inv s i q spurious s' q' : wq_inv s -> wq_timely s -> s.(q_threads) !! i = Some q ->
  workqueue_try_perform s q spurious = Some (s', q') -> wq_inv (set_thread s' i q').
Proof.
  intros HI Htm Hi Hstep. pose proof (qi_threads s HI i q Hi) as Hok. pose proof (timely_lookup s i q Htm Hi) as Hin. pose proof (qi_range s HI) as Hrg.
  destruct q as [|t h|t h|t|t h|t h|h|h| |h|h t|h t]; try discriminate Hstep; cbn [workqueue_try_perform] in Hstep.
  - injection Hstep as <- <-. apply (thread_move s i _ HI Hi); try (destruct (_ =? _); [|destruct (_ <? _)]; simpl; tauto).
    simpl in Hok. destruct (Z.eqb_spec (s32 (u32 (seq_at s h) - u32 (h + 1))) 0) as [E|E]; [|destruct (_ <? _); exact I].
    simpl. split; [exact Hok|]. intros <-. destruct (Z.lt_ge_cases s.(q_tail) s.(q_head)) as [Hlt|Hge].
    + destruct (qi_full s HI s.(q_tail) ltac:(lia)) as [[Hs _]|[Hs _]]; rewrite Hs in *; [lia|]. apply diff_zero in E; lia.
    + pose proof (seq_at_head s HI) as Hsh. replace s.(q_head) with s.(q_tail) in Hsh by lia. apply diff_zero in E; lia.
  - destruct (Z.eqb_spec (u32 s.(q_tail)) (u32 h)) as [E|E]; [destruct spurious|]; cbn [andb negb] in Hstep; injection Hstep as <- <-.
    + apply (thread_move s i _ HI Hi); simpl in *; tauto.
    + simpl in Hok, Hin. unfold wq_lag in Hin. apply u32_inj in E; [|lia]. subst h. by apply (claim_tail s i (PCas (q_tail s))).
    + apply (thread_move s i _ HI Hi); simpl in *; tauto.
  - injection Hstep as <- <-. apply (thread_move s i _ HI Hi); simpl; try tauto. lia.
  - injection Hstep as <- <-. apply (thread_move s i _ HI Hi); simpl in *; tauto.
  - injection Hstep as <- <-. apply (release_slot s i (PRelease h t)); auto.
  - injection Hstep as <- <-. apply (run_task s i (QRun h t)) with (t := t); auto.
Qed.

Lemma wq_init_inv n : wq_inv (workqueue_init n).
Proof.
  assert (Hth : forall i q, repeat QIdle n !! i = Some q -> q = QIdle).
  { intros i q Hq. apply list_elem_of_lookup_2, list_elem_of_In, repeat_spec in Hq. exact Hq. }
  split; simpl; auto; try (intros; lia).
  - intros p Hp. unfold seq_at. simpl. rewrite slot_of_mod. dlia.
  - intros i q ->%Hth. exact I.
  - intros i j q q' p ->%Hth. simpl. tauto.
  - intros i j q q' p ->%Hth. simpl. tauto.
  - split; [constructor|]. intros p Hp. inversion Hp.
Qed.

Lemma wq_reachable_inv n s : wq_reachable n s -> wq_inv s.
Proof.
  induction 1 as [|s s' Hr IH Ht Hstep]; [apply wq_init_inv|].
  destruct Hstep as [i t Hi|i Hi|i q spurious s1 q' Hi Hs|i q spurious s1 q' Hi Hs].
  - apply (thread_move s i _ IH Hi); simpl; tauto.
  - apply (thread_move s i _ IH Hi); simpl; tauto.
  - eapply submit_step_inv; eauto.
  - eapply perform_step_inv; eauto.
Qed.

(** A producer that finds the slot of its ticket behind finds all of them taken: by tasks that
    wait, or by a consumer that has not taken its task out. *)
Lemma gives_up_full s i t h : wq_inv s -> wq_timely s -> s.(q_threads) !! i = Some (SSeq t h) ->
  s32 (u32 (seq_at s h) - u32 h) < 0 ->
  h = s.(q_head) /\ (s.(q_head) = s.(q_tail) + WORKQUEUE_SIZE \/ exists k q, s.(q_threads) !! k = Some q /\ consumes q (h - WORKQUEUE_SIZE)).
Proof.
  intros HI Htm Hi Hd. pose proof (qi_threads s HI i _ Hi) as Hok. pose proof (timely_lookup s i _ Htm Hi) as Hin. simpl in Hok, Hin.
  unfold wq_lag in Hin. pose proof (seq_at_bounds s h HI ltac:(lia)) as Hb. rewrite s32_diff in Hd by lia.
  assert (h = s.(q_head)) as -> by lia. split; [reflexivity|]. unfold WORKQUEUE_SIZE. pose proof (qi_range s HI).
  assert (256 <= s.(q_head)).
  { destruct (Z.lt_ge_cases s.(q_head) 256); [|lia]. rewrite (qi_fresh s HI) in Hd by lia. lia. }
  destruct (Z.lt_ge_cases (s.(q_head) - 256) s.(q_tail)) as [Hlt|]; [right|left; lia].
  assert (E : seq_at s (s.(q_head) - 256) = seq_at s s.(q_head)) by (unfold seq_at; f_equal; f_equal; rewrite !slot_of_mod; dlia).
  destruct (qi_free s HI (s.(q_head) - 256) ltac:(lia) ltac:(lia)) as [Hs|[_ He]]; [lia|exact He].
Qed.

(** A consumer that does finds the queue empty, or the first task still being stored. *)
Lemma gives_up_empty s i h : wq_inv s -> wq_timely s -> s.(q_threads) !! i = Some (PSeq h) ->
  s32 (u32 (seq_at s h) - u32 (h + 1)) < 0 ->
  h = s.(q_tail) /\ (s.(q_head) = s.(q_tail) \/ exists k q, s.(q_threads) !! k = Some q /\ produces q h).
Proof.
  intros HI Htm Hi Hd. pose proof (qi_threads s HI i _ Hi) as Hok. pose proof (timely_lookup s i _ Htm Hi) as Hin. simpl in Hok, Hin.
  unfold wq_lag in Hin. pose proof (qi_range s HI). pose proof (seq_at_bounds s h HI ltac:(lia)) as Hb. rewrite s32_diff in Hd by lia.
  assert (h = s.(q_tail)) as ->.
  { destruct (Z.lt_ge_cases h s.(q_tail)) as [Hlt|]; [|lia]. destruct Hb as (_ & _ & Hb). specialize (Hb ltac:(lia)). lia. }
  split; [reflexivity|]. destruct (Z.lt_ge_cases s.(q_tail) s.(q_head)); [right|left; lia].
  destruct (qi_full s HI s.(q_tail) ltac:(lia)) as [[Hs _]|[_ He]]; [lia|exact He].
Qed.


(** ** A run *)

Inductive qchoice := CSubmit (i : nat) (t : nat) | CPerform (i : nat) | CStep (i : nat) (spurious : bool).

Definition wq_run1 (s : wq) (c : qchoice) : option wq :=
  match c with
  | CSubmit i t => match s.(q_threads) !! i with Some QIdle => Some (set_thread s i (SReload t)) | _ => None end
  | CPerform i => match s.(q_threads) !! i with Some QIdle => Some (set_thread s i PReload) | _ => None end
  | CStep i spurious =>
      q ← s.(q_threads) !! i;
      match workqueue_submit s q spurious with
      | Some (s', q') => Some (set_thread s' i q')
      | None => '(s', q') ← workqueue_try_perform s q spurious; Some (set_thread s' i q')
      end
  end.

Definition in_timeb (s : wq) (q : qstate) : bool :=
  match q with
  | SSeq _ h | SCas _ h => s.(q_head) - h <? wq_lag
  | PSeq h | PCas h => s.(q_tail) - h <? wq_lag
  | _ => true
  end.

Fixpoint wq_run (s : wq) (l : list qchoice) : option wq :=
  match l with [] => Some s | c :: l => if forallb (in_timeb s) s.(q_threads) then s' ← wq_run1 s c; wq_run s' l else None end.

Lemma timely_check s : forallb (in_timeb s) s.(q_threads) = true -> wq_timely s.
Proof.
  rewrite forallb_forall. intros Hf. apply Forall_forall. intros q Hq. specialize (Hf q Hq).
  destruct q; simpl in *; (exact I || lia).
Qed.

Lemma wq_run1_step s c s' : wq_run1 s c = Some s' -> wq_step s s'.
Proof.
  destruct c as [i t|i|i spurious]; simpl.
  - destruct (s.(q_threads) !! i) as [[]|] eqn:Hi; try discriminate. intros [= <-]. apply wq_submit. exact Hi.
  - destruct (s.(q_threads) !! i) as [[]|] eqn:Hi; try discriminate. intros [= <-]. apply wq_perform. exact Hi.
  - destruct (s.(q_threads) !! i) as [q|] eqn:Hi; [|discriminate]. simpl. destruct (workqueue_submit s q spurious) as [[s1 q1]|] eqn:E.
    + intros [= <-]. eapply wq_submitting; eauto.
    + destruct (workqueue_try_perform s q spurious) as [[s1 q1]|] eqn:E2; [|discriminate]. intros [= <-]. eapply wq_performing; eauto.
Qed.

Lemma wq_run_reachable n l : forall s s', wq_reachable n s -> wq_run s l = Some s' -> wq_reachable n s'.
Proof.
  induction l as [|c l IH]; intros s s' Hr; simpl; [congruence|]. destruct (forallb _ _) eqn:Et; [|discriminate].
  destruct (wq_run1 s c) as [t|] eqn:E; [|discriminate]. simpl.
  apply IH. eapply wq_reach_step; [exact Hr|apply timely_check; exact Et|]. apply wq_run1_step with c. exact E.
Qed.

(** Two producers race for the first slot and two consumers for the first task. *)
Definition demo_schedule : list qchoice :=
  [CSubmit 0 7; CSubmit 1 8] ++ concat (repeat [CStep 0 false; CStep 1 false] 3) ++ [CStep 0 false; CStep 1 false; CStep 1 false; CStep 0 false] ++ repeat (CStep 1 false) 6 ++
  [CPerform 0; CPerform 1] ++ concat (repeat [CStep 0 false; CStep 1 false] 5) ++ repeat (CStep 0 false) 1 ++ repeat (CStep 1 false) 7.

