(* ===== verification/Blkio.v ===== *)
(** * Files (src/util/blk_io.c)

    The file layer over the POSIX calls [pread], [pwrite], [ftruncate], [posix_fallocate] and
    [fdatasync], which are the class [Posix]: calls may transfer less than they were asked for,
    be interrupted, or fail.  The theorems: reads and writes at an offset are completed in spite
    of short transfers and interruptions and the recorded size is the size of the file; writes at
    the current position do not work and destroy the recorded size. *)

From S2P Require Import Prelude BitOps MemOps.

Definition RVFILE_MAX_BUFF : Z := 0x10000000.
Definition RVFILE_POSITION : Z := 2 ^ 64 - 1.
Definition RVFILE_SEEK_SET : Z := 0.
Definition RVFILE_SEEK_CUR : Z := 1.
Definition RVFILE_SEEK_END : Z := 2.

(** What a system call comes back with: a result, an interruption or another error. *)
Inductive sys (A : Type) := Done (x : A) | Eintr | Failed.
Arguments Done {A}. Arguments Eintr {A}. Arguments Failed {A}.

(** Offsets and lengths are signed 64-bit numbers for the host. *)
Class Posix (K : Type) := {
  pread : K -> Z -> Z -> K * sys (list Z);
  pwrite : K -> list Z -> Z -> K * sys Z;
  ftruncate : K -> Z -> K * bool;
  posix_fallocate : K -> Z -> Z -> K * bool;
  punch_hole : K -> Z -> Z -> K * bool;
  fdatasync : K -> K * sys ()
}.

Record rvfile (K : Type) := mk_rvfile { f_size : Z; f_pos : Z; f_fd : K }.
Arguments mk_rvfile {K}. Arguments f_size {K}. Arguments f_pos {K}. Arguments f_fd {K}.

Section file.
Context {K : Type} `{Posix K}.
Local Abbreviation file := (rvfile K).

Definition set_f_size (v : Z) (f : file) : file := mk_rvfile v f.(f_pos) f.(f_fd).
Definition set_f_pos (v : Z) (f : file) : file := mk_rvfile f.(f_size) v f.(f_fd).
Definition set_f_fd (v : K) (f : file) : file := mk_rvfile f.(f_size) f.(f_pos) v.

(** Nothing else resizes the file: the loop ends in its first iteration. *)
Definition rvfile_grow_internal (f : file) (length : Z) : file :=
  if length <=? f.(f_size) then f else set_f_size length f.

Definition rvfilesize (f : file) : Z := f.(f_size).
Definition rvtell (f : file) : Z := f.(f_pos).

(** What the loops see: bytes, nothing ("IO error / EOF") or "try again". *)
Definition rvread_chunk (f : file) (size offset : Z) : file * option (list Z) :=
  let '(k, r) := pread f.(f_fd) size (s64 offset) in
  (set_f_fd k f, match r with Done l => Some l | Eintr => None | Failed => Some [] end).

(** [buf] is what has been read so far. *)
Fixpoint read_loop (fuel : nat) (f : file) (size offset : Z) (buf : list Z) : option (file * list Z) :=
  let ret := Z.of_nat (length buf) in
  if ret <? size then
    match fuel with
    | O => None
    | S fuel =>
        let chunk_size := Z.min (size - ret) RVFILE_MAX_BUFF in
        let '(f, tmp) := rvread_chunk f chunk_size (u64 (offset + ret)) in
        match tmp with
        | None => read_loop fuel f size offset buf
        | Some [] => Some (f, buf)
        | Some l =>
            let buf := buf ++ l in
            let ret := Z.of_nat (length buf) in
            if (ret <? size) && (rvfilesize f <=? u64 (offset + ret)) then Some (f, buf)
            else read_loop fuel f size offset buf
        end
    end
  else Some (f, buf).

(** The bytes read and the 32-bit count that is returned for them. *)
Definition rvread_unlocked (fuel : nat) (f : file) (size offset : Z) : option (file * list Z * Z) :=
  '(f, buf) ← read_loop fuel f size offset [];
  Some (f, buf, s32 (Z.of_nat (length buf))).

Definition rvseek (f : file) (offset startpos : Z) : file * bool :=
  let offset :=
    if startpos =? RVFILE_SEEK_CUR then s64 (rvtell f + offset)
    else if startpos =? RVFILE_SEEK_END then s64 (rvfilesize f - offset)
    else if negb (startpos =? RVFILE_SEEK_SET) then -1
    else offset in
  if 0 <=? offset then (set_f_pos offset f, true) else (f, false).

Definition rvread (fuel : nat) (f : file) (size offset : Z) : option (file * list Z * Z) :=
  let pos := if offset =? RVFILE_POSITION then rvtell f else offset in
  '(f, buf, ret) ← rvread_unlocked fuel f size pos;
  let ret := u64 ret in
  let f := if (offset =? RVFILE_POSITION) && nz ret then fst (rvseek f (s64 (pos + ret)) RVFILE_SEEK_SET) else f in
  Some (f, buf, ret).

Definition rvwrite_chunk (f : file) (src : list Z) (offset : Z) : file * option Z :=
  let '(k, r) := pwrite f.(f_fd) src (s64 offset) in
  (set_f_fd k f, match r with Done n => Some n | Eintr => None | Failed => Some 0 end).

Fixpoint write_loop (fuel : nat) (f : file) (src : list Z) (offset ret : Z) : option (file * Z) :=
  let size := Z.of_nat (length src) in
  if ret <? size then
    match fuel with
    | O => None
    | S fuel =>
        let chunk_size := Z.min (size - ret) RVFILE_MAX_BUFF in
        let '(f, tmp) := rvwrite_chunk f (take (Z.to_nat chunk_size) (drop (Z.to_nat ret) src)) (u64 (offset + ret)) in
        match tmp with
        | None => write_loop fuel f src offset ret
        | Some n => if 0 <? n then write_loop fuel f src offset (ret + n) else Some (f, ret)
        end
    end
  else Some (f, ret).

Definition rvwrite_unlocked (fuel : nat) (f : file) (src : list Z) (offset : Z) : option (file * Z) :=
  '(f, ret) ← write_loop fuel f src offset 0;
  Some (rvfile_grow_internal f (u64 (offset + ret)), s32 ret).

(** The position is computed, but the data is written at [offset]. *)
Definition rvwrite (fuel : nat) (f : file) (src : list Z) (offset : Z) : option (file * Z) :=
  let pos := if offset =? RVFILE_POSITION then rvtell f else offset in
  '(f, ret) ← rvwrite_unlocked fuel f src offset;
  let ret := u64 ret in
  let f := if (offset =? RVFILE_POSITION) && nz ret then fst (rvseek f (s64 (pos + ret)) RVFILE_SEEK_SET) else f in
  Some (f, ret).

Definition rvtrim (f : file) (offset size : Z) : file * bool :=
  let '(k, ok) := punch_hole f.(f_fd) (s64 offset) (s64 size) in (set_f_fd k f, ok).

(** [fdatasync] is tried ten times while it is interrupted. *)
Fixpoint sync_loop (n : nat) (f : file) : file * bool :=
  match n with
  | O => (f, false)
  | S n =>
      let '(k, r) := fdatasync f.(f_fd) in
      let f := set_f_fd k f in
      match r with Done _ => (f, true) | Eintr => sync_loop n f | Failed => (f, false) end
  end.

Definition rvfsync (f : file) : file * bool := sync_loop 10 f.

Definition rvfile_grow_unlocked (fuel : nat) (f : file) (length : Z) : option (file * bool) :=
  '(f, _, n) ← rvread_unlocked fuel f 1 (u64 (length - 1));
  if nz n then Some (f, true)
  else '(f, n) ← rvwrite_unlocked fuel f [0] (u64 (length - 1)); Some (f, nz n).

Definition rvfile_grow_generic (fuel : nat) (f : file) (length : Z) : option (file * bool) :=
  if rvfilesize f <? length then rvfile_grow_unlocked fuel f length else Some (f, true).

Definition rvfallocate (fuel : nat) (f : file) (length : Z) : option (file * bool) :=
  if length <=? rvfilesize f then Some (f, true)
  else
    let '(k, ok) := posix_fallocate f.(f_fd) (s64 (length - 1)) 1 in
    let f := set_f_fd k f in
    if ok : bool then Some (rvfile_grow_internal f length, true) else rvfile_grow_generic fuel f length.

Definition rvtruncate (fuel : nat) (f : file) (length : Z) : option (file * bool) :=
  if length =? rvfilesize f then Some (f, true)
  else
    let '(k, resized) := ftruncate f.(f_fd) (s64 length) in
    let f := set_f_fd k f in
    if resized : bool then Some (set_f_size length f, true)
    else if rvfilesize f <=? length then rvfallocate fuel f length
    else Some (f, false).

End file.

(** ** What the host promises

    A file has contents, which are zero beyond its length.  Only a read at or beyond the end
    comes back empty, a write always makes progress, and there are finitely many interruptions
    to come. *)
Class PosixOk (K : Type) `{Posix K} := {
  k_mem : K -> memory;
  k_len : K -> Z;
  k_signals : K -> nat;
  k_len_range : forall k, 0 <= k_len k < 2 ^ 63 - 1;
  pread_ok : forall k size off k' r, 0 < size -> pread k size off = (k', r) ->
    k_len k' = k_len k /\ (forall q, k_mem k' q = k_mem k q) /\
    match r with
    | Done l => (k_signals k' <= k_signals k)%nat /\ exists n, l = get_bytes n (k_mem k) off /\ Z.of_nat n <= size /\
        (n <> O -> 0 <= off /\ off + Z.of_nat n <= k_len k) /\ (n = O -> k_len k <= off)
    | Eintr => (k_signals k' < k_signals k)%nat
    | Failed => (k_signals k' <= k_signals k)%nat
    end;
  pwrite_ok : forall k l off k' r, l <> [] -> pwrite k l off = (k', r) ->
    match r with
    | Done n => (k_signals k' <= k_signals k)%nat /\ 0 < n <= Z.of_nat (length l) /\ 0 <= off /\
        (forall q, k_mem k' q = put_bytes (k_mem k) off (take (Z.to_nat n) l) q) /\ k_len k' = Z.max (k_len k) (off + n)
    | Eintr => (k_signals k' < k_signals k)%nat /\ k_len k' = k_len k /\ forall q, k_mem k' q = k_mem k q
    | Failed => (k_signals k' <= k_signals k)%nat /\ k_len k' = k_len k /\ forall q, k_mem k' q = k_mem k q
    end;
  pwrite_invalid : forall k l off, l <> [] -> off < 0 -> exists k', pwrite k l off = (k', Failed)
}.

Lemma s64_small x : 0 <= x < 2 ^ 63 -> s64 x = x.
Proof. intros Hx. apply signed_small; unfold srange; lia. Qed.

Section file_spec.
Context {K : Type} `{PosixOk K}.
Local Abbreviation file := (rvfile K).

(** The recorded size is that of the file. *)
Definition file_ok (f : file) : Prop := f.(f_size) = k_len f.(f_fd).

(** The same file, as far as its contents are concerned. *)
Definition same_file (f f' : file) : Prop :=
  f'.(f_size) = f.(f_size) /\ f'.(f_pos) = f.(f_pos) /\ k_len f'.(f_fd) = k_len f.(f_fd) /\ forall q, k_mem f'.(f_fd) q = k_mem f.(f_fd) q.

(** How much there is to read. *)
Definition available (f : file) (size off : Z) : Z := Z.max 0 (Z.min size (k_len f.(f_fd) - off)).

Lemma get_bytes_mem n m m' a : (forall q, m' q = m q) -> get_bytes n m' a = get_bytes n m a.
Proof. intros Hm. apply get_bytes_ext. intros. apply Hm. Qed.

(** Reading goes on until the end of the range or of the file, or until an error. *)
Lemma read_loop_spec fuel : forall f size off m, file_ok f -> 0 <= off -> off + size < 2 ^ 63 -> Z.of_nat m <= size ->
  (Z.to_nat (size - Z.of_nat m) + k_signals f.(f_fd) <= fuel)%nat ->
  exists f' n, read_loop fuel f size off (get_bytes m (k_mem f.(f_fd)) off) = Some (f', get_bytes n (k_mem f.(f_fd)) off) /\
    same_file f f' /\ (m <= n)%nat /\ Z.of_nat n <= size /\ (n <> m -> off + Z.of_nat n <= k_len f.(f_fd)) /\
    ((forall k s o k', 0 <= o -> pread k s o <> (k', Failed)) -> Z.of_nat m <= available f size off -> Z.of_nat n = available f size off).
Proof.
  induction fuel as [|fuel IH]; intros f size off m Hok Ho Hr Hm Hfuel; cbn [read_loop]; rewrite length_get_bytes.
  - destruct (Z.ltb_spec (Z.of_nat m) size); [lia|]. exists f, m. unfold same_file, available. split_and!; auto; lia.
  - destruct (Z.ltb_spec (Z.of_nat m) size) as [Hlt|Hge].
    2: { exists f, m. unfold same_file, available. split_and!; auto; lia. }
    unfold rvread_chunk. rewrite (wrap_small 64), s64_small by (unfold urange; lia).
    set (chunk := Z.min (size - Z.of_nat m) RVFILE_MAX_BUFF). assert (Hc : 0 < chunk <= size - Z.of_nat m) by (unfold chunk, RVFILE_MAX_BUFF; lia).
    destruct (pread f.(f_fd) chunk (off + Z.of_nat m)) as [k' r] eqn:Ep.
    destruct (pread_ok _ _ _ _ _ (proj1 Hc) Ep) as (Hlen & Hmem & Hcase).
    set (f1 := set_f_fd k' f). assert (Hok1 : file_ok f1) by (unfold file_ok, f1; simpl; rewrite Hlen; exact Hok).
    assert (Hsame : same_file f f1) by (unfold same_file, f1; simpl; auto).
    assert (Hmem1 : forall n, get_bytes n (k_mem f1.(f_fd)) off = get_bytes n (k_mem f.(f_fd)) off) by (intros n; apply get_bytes_mem, Hmem).
    assert (Hstep : forall m', (m <= m')%nat -> Z.of_nat m' <= size -> (Z.to_nat (size - Z.of_nat m') + k_signals k' <= fuel)%nat ->
              (m' <> m -> off + Z.of_nat m' <= k_len f.(f_fd)) ->
              exists f' n, read_loop fuel f1 size off (get_bytes m' (k_mem f.(f_fd)) off) = Some (f', get_bytes n (k_mem f.(f_fd)) off) /\
                same_file f f' /\ (m <= n)%nat /\ Z.of_nat n <= size /\ (n <> m -> off + Z.of_nat n <= k_len f.(f_fd)) /\
                ((forall k s o k', 0 <= o -> pread k s o <> (k', Failed)) -> Z.of_nat m <= available f size off -> Z.of_nat n = available f size off)).
    { intros m' Hm' Hs' Hf' Hend. destruct (IH f1 size off m' Hok1 Ho Hr Hs' Hf') as (f' & n & Hl & Hs & H1 & H2 & H3 & H4).
      rewrite !Hmem1 in Hl. exists f', n. destruct Hsame as (A1 & A2 & A3 & A4), Hs as (B1 & B2 & B3 & B4).
      unfold available in *. simpl in *. rewrite Hlen in *. split_and!; auto; try lia.
      - unfold same_file. split_and!; try congruence.
      - intros Hrel Ha. apply H4; auto. destruct (decide (m' = m)) as [->|Hne]; [lia|]. specialize (Hend Hne). lia. }
    destruct r as [l| |].
    + destruct Hcase as (Hsig & n & -> & Hn & Hpos & Hzero). destruct n as [|n]; cbn [get_bytes].
      * exists f1, m. specialize (Hzero eq_refl). split_and!; auto; try lia. intros _ Ha. unfold available in *. lia.
      * change (k_mem (f_fd f) (off + Z.of_nat m) :: get_bytes n (k_mem (f_fd f)) (off + Z.of_nat m + 1))
          with (get_bytes (S n) (k_mem (f_fd f)) (off + Z.of_nat m)).
        destruct (Hpos ltac:(lia)) as [_ Hend]. rewrite <- get_bytes_app, length_get_bytes.
        destruct ((Z.of_nat (m + S n) <? size) && (rvfilesize f1 <=? u64 (off + Z.of_nat (m + S n)))) eqn:Estop.
        -- apply andb_true_iff in Estop as [_ Estop]. rewrite (wrap_small 64), Z.leb_le in Estop by (unfold urange; lia).
           unfold rvfilesize, f1 in Estop. simpl in Estop. rewrite Hok in Estop.
           exists f1, (m + S n)%nat. split_and!; auto; try lia. intros _ _. unfold available. lia.
        -- apply Hstep; lia.
    + apply Hstep; lia.
    + exists f1, m. split_and!; auto; try lia. intros Hrel _. destruct (Hrel f.(f_fd) chunk (off + Z.of_nat m) k' ltac:(lia) Ep).
Qed.

Lemma put_bytes_mem m m' a l q : (forall q, m' q = m q) -> put_bytes m' a l q = put_bytes m a l q.
Proof. intros Hm. rewrite !put_bytes_lookup. repeat case_match; auto. Qed.

(** A write that has [ret] bytes behind it ends with [n] of them: what it has put down. *)
Definition wrote_to (f f' : file) (off ret n : Z) (src : list Z) : Prop :=
  f'.(f_size) = f.(f_size) /\ f'.(f_pos) = f.(f_pos) /\
  (forall q, k_mem f'.(f_fd) q = put_bytes (k_mem f.(f_fd)) (off + ret) (take (Z.to_nat (n - ret)) (drop (Z.to_nat ret) src)) q) /\
  k_len f'.(f_fd) = (if n =? ret then k_len f.(f_fd) else Z.max (k_len f.(f_fd)) (off + n)).

Lemma wrote_nothing f f' off ret src : same_file f f' -> wrote_to f f' off ret ret src.
Proof. intros (H1 & H2 & H3 & H4). split_and!; auto; [|rewrite Z.eqb_refl; exact H3]. intros q. rewrite Z.sub_diag. apply H4. Qed.

Lemma wrote_more f f1 f' off ret n n' src : 0 <= ret -> ret < n <= n' -> n <= Z.of_nat (length src) -> wrote_to f f1 off ret n src -> wrote_to f1 f' off n n' src ->
  wrote_to f f' off ret n' src.
Proof.
  intros Hr Hn Hl (A1 & A2 & A3 & A4) (B1 & B2 & B3 & B4). split_and!; try congruence.
  - intros q. rewrite B3, (put_bytes_mem _ _ _ _ _ A3).
    replace (off + n) with (off + ret + Z.of_nat (length (take (Z.to_nat (n - ret)) (drop (Z.to_nat ret) src)))).
    2: { rewrite length_take, length_drop. lia. }
    rewrite <- put_bytes_app. f_equal. replace (Z.to_nat n) with (Z.to_nat ret + Z.to_nat (n - ret))%nat by lia.
    rewrite <- drop_drop, take_take_drop. f_equal. lia.
  - rewrite B4, A4. destruct (Z.eqb_spec n' n), (Z.eqb_spec n ret), (Z.eqb_spec n' ret); lia.
Qed.

Lemma write_loop_spec fuel : forall f src off ret, 0 <= off -> off + Z.of_nat (length src) < 2 ^ 63 - 1 -> 0 <= ret <= Z.of_nat (length src) ->
  (Z.to_nat (Z.of_nat (length src) - ret) + k_signals f.(f_fd) <= fuel)%nat ->
  exists f' n, write_loop fuel f src off ret = Some (f', n) /\ ret <= n <= Z.of_nat (length src) /\ wrote_to f f' off ret n src /\
    (k_signals f'.(f_fd) <= k_signals f.(f_fd))%nat /\
    ((forall k l o k', 0 <= o -> o + Z.of_nat (length l) < 2 ^ 63 - 1 -> pwrite k l o <> (k', Failed)) -> n = Z.of_nat (length src)).
Proof.
  induction fuel as [|fuel IH]; intros f src off ret Ho Hr Hret Hfuel; cbn [write_loop].
  - destruct (Z.ltb_spec ret (Z.of_nat (length src))); [lia|]. exists f, ret. split_and!; auto; try lia. apply wrote_nothing. unfold same_file. auto.
  - destruct (Z.ltb_spec ret (Z.of_nat (length src))) as [Hlt|Hge].
    2: { exists f, ret. split_and!; auto; try lia. apply wrote_nothing. unfold same_file. auto. }
    unfold rvwrite_chunk. rewrite (wrap_small 64), s64_small by (unfold urange; lia).
    set (chunk := Z.min (Z.of_nat (length src) - ret) RVFILE_MAX_BUFF).
    assert (Hc : 0 < chunk <= Z.of_nat (length src) - ret) by (unfold chunk, RVFILE_MAX_BUFF; lia).
    set (l := take (Z.to_nat chunk) (drop (Z.to_nat ret) src)).
    assert (Hlen : Z.of_nat (length l) = chunk) by (unfold l; rewrite length_take, length_drop; lia).
    assert (Hne : l <> []) by (intros E; rewrite E in Hlen; simpl in Hlen; lia).
    destruct (pwrite f.(f_fd) l (off + ret)) as [k' r] eqn:Ep. pose proof (pwrite_ok _ _ _ _ _ Hne Ep) as Hcase.
    set (f1 := set_f_fd k' f).
    destruct r as [n| |].
    + destruct Hcase as (Hsig & Hn & _ & Hmem & Hk). destruct (Z.ltb_spec 0 n); [|lia].
      destruct (IH f1 src off (ret + n) Ho Hr ltac:(lia) ltac:(unfold f1; simpl; lia)) as (f' & n' & Hw & Hn' & Hwr & Hsg & Hrel). simpl in Hsg.
      exists f', n'. split_and!; auto; try lia. apply (wrote_more f f1 f' off ret (ret + n)); auto; try lia.
      split_and!; auto.
      * intros q. unfold f1. simpl. rewrite Hmem. unfold l. rewrite take_take. replace (ret + n - ret) with n by lia.
        replace (Z.to_nat n `min` Z.to_nat chunk)%nat with (Z.to_nat n) by lia. reflexivity.
      * unfold f1. simpl. rewrite Hk. destruct (Z.eqb_spec (ret + n) ret); [lia|]. f_equal. lia.
    + destruct Hcase as (Hsig & Hk & Hmem).
      destruct (IH f1 src off ret Ho Hr Hret ltac:(unfold f1; simpl; lia)) as (f' & n' & Hw & Hn' & (W1 & W2 & W3 & W4) & Hsg & Hrel). simpl in Hsg.
      exists f', n'. split_and!; auto; try lia. split_and!; auto.
      * intros q. rewrite W3. apply put_bytes_mem. exact Hmem.
      * rewrite W4. unfold f1. simpl. rewrite Hk. reflexivity.
    + destruct Hcase as (Hsig & Hk & Hmem). exists f1, ret. split_and!; auto; try lia.
      * apply wrote_nothing. unfold same_file, f1. auto.
      * intros Hrel. destruct (Hrel f.(f_fd) l (off + ret) k' ltac:(lia) ltac:(lia) Ep).
Qed.

Lemma rvread_run fuel f size off : file_ok f -> 0 <= off -> 0 <= size -> off + size < 2 ^ 63 ->
  (Z.to_nat size + k_signals f.(f_fd) <= fuel)%nat -> (forall k s o k', 0 <= o -> pread k s o <> (k', Failed)) ->
  exists f', rvread fuel f size off = Some (f', get_bytes (Z.to_nat (available f size off)) (k_mem f.(f_fd)) off, u64 (s32 (available f size off))) /\
    same_file f f'.
Proof.
  intros Hok Ho Hs Hr Hf Hrel. unfold rvread, rvread_unlocked. destruct (Z.eqb_spec off RVFILE_POSITION) as [->|_]; [unfold RVFILE_POSITION in Hr; lia|].
  destruct (read_loop_spec fuel f size off 0 Hok Ho Hr ltac:(lia) ltac:(lia)) as (f' & n & Hl & Hsame & _ & _ & _ & Hn).
  cbn [get_bytes] in Hl. rewrite Hl. cbn [mbind option_bind andb]. rewrite length_get_bytes.
  specialize (Hn Hrel ltac:(unfold available; lia)). rewrite Hn. exists f'. split; [|exact Hsame]. rewrite <- Hn, Nat2Z.id. reflexivity.
Qed.

Lemma file_count_small n : 0 <= n < 2 ^ 31 -> u64 (s32 n) = n.
Proof. intros Hn. rewrite signed_small by (unfold srange; lia). apply wrap_small. unfold urange. lia. Qed.

Lemma rvwrite_run fuel f src off : file_ok f -> 0 <= off -> src <> [] -> Z.of_nat (length src) < 2 ^ 31 -> off + Z.of_nat (length src) < 2 ^ 63 - 1 ->
  (length src + k_signals f.(f_fd) <= fuel)%nat -> (forall k l o k', 0 <= o -> o + Z.of_nat (length l) < 2 ^ 63 - 1 -> pwrite k l o <> (k', Failed)) ->
  exists f', rvwrite fuel f src off = Some (f', Z.of_nat (length src)) /\ file_ok f' /\ f'.(f_pos) = f.(f_pos) /\
    (forall q, k_mem f'.(f_fd) q = put_bytes (k_mem f.(f_fd)) off src q) /\ k_len f'.(f_fd) = Z.max (k_len f.(f_fd)) (off + Z.of_nat (length src)) /\ (k_signals f'.(f_fd) <= k_signals f.(f_fd))%nat.
Proof.
  intros Hok Ho Hne Hs Hr Hf Hrel. unfold rvwrite, rvwrite_unlocked.
  assert (Hl : 0 < Z.of_nat (length src)) by (destruct src; [contradiction|simpl; lia]).
  destruct (Z.eqb_spec off RVFILE_POSITION) as [->|_]; [unfold RVFILE_POSITION in Hr; lia|].
  destruct (write_loop_spec fuel f src off 0 Ho ltac:(lia) ltac:(lia) ltac:(lia)) as (f' & n & Hw & Hn & (W1 & W2 & W3 & W4) & Hsig & Hn').
  specialize (Hn' Hrel). subst n. rewrite Hw. cbn [mbind option_bind andb]. rewrite file_count_small, (wrap_small 64) by (unfold urange; lia).
  destruct (Z.eqb_spec (Z.of_nat (length src)) 0); [lia|].
  assert (Hmem : forall q, k_mem f'.(f_fd) q = put_bytes (k_mem f.(f_fd)) off src q).
  { intros q. rewrite W3. rewrite Z.add_0_r, Z.sub_0_r, Nat2Z.id, drop_0, firstn_all. reflexivity. }
  eexists. split; [reflexivity|]. unfold rvfile_grow_internal, file_ok in *. rewrite W1, Hok.
  destruct (Z.leb_spec (off + Z.of_nat (length src)) (k_len f.(f_fd))); simpl; split_and!; auto; try lia.
Qed.


(** A write at the current position is a write at the invalid offset 2^64 - 1: nothing is
    written, and the file counts as that large from then on. *)
Lemma rvwrite_position fuel f src : src <> [] -> exists f', rvwrite (S fuel) f src RVFILE_POSITION = Some (f', 0) /\
  (forall q, k_mem f'.(f_fd) q = k_mem f.(f_fd) q) /\ (f.(f_size) < 2 ^ 64 - 1 -> rvfilesize f' = 2 ^ 64 - 1).
Proof.
  intros Hne. unfold rvwrite, rvwrite_unlocked, RVFILE_POSITION. rewrite Z.eqb_refl. cbn [write_loop].
  assert (Hl : 0 < Z.of_nat (length src)) by (destruct src; [contradiction|simpl; lia]).
  destruct (Z.ltb_spec 0 (Z.of_nat (length src))); [|lia]. unfold rvwrite_chunk. change (s64 (u64 (2 ^ 64 - 1 + 0))) with (-1).
  set (l := take _ _). assert (Hnl : l <> []).
  { intros E. apply (f_equal length) in E. unfold l in E. rewrite length_take, length_drop in E. simpl in E. unfold RVFILE_MAX_BUFF in E. lia. }
  destruct (pwrite_invalid f.(f_fd) l (-1) Hnl ltac:(lia)) as [k' Ep]. rewrite Ep. cbn [mbind option_bind Z.ltb Z.compare].
  pose proof (pwrite_ok _ _ _ _ _ Hnl Ep) as (_ & _ & Hmem).
  eexists. split; [reflexivity|]. unfold rvfile_grow_internal, rvfilesize. change (u64 (2 ^ 64 - 1 + 0)) with (2 ^ 64 - 1). simpl f_size.
  destruct (Z.leb_spec (2 ^ 64 - 1) f.(f_size)); simpl; split; auto; intros; lia.
Qed.

(** ** Reads of any size at any offset *)

(** A file that is read from: its contents stay, and there are no more interruptions than before. *)
Record reads_as (f f' : file) : Prop := {
  ra_size : f'.(f_size) = f.(f_size);
  ra_len : k_len f'.(f_fd) = k_len f.(f_fd);
  ra_mem : forall q, k_mem f'.(f_fd) q = k_mem f.(f_fd) q;
  ra_signals : (k_signals f'.(f_fd) <= k_signals f.(f_fd))%nat;
  ra_pos : urange 64 f.(f_pos) -> urange 64 f'.(f_pos)
}.

Lemma reads_as_refl f : reads_as f f.
Proof. by split. Qed.

Lemma reads_as_trans f g h : reads_as f g -> reads_as g h -> reads_as f h.
Proof. intros [A1 A2 A3 A4 A5] [B1 B2 B3 B4 B5]. split; try congruence; try lia; auto. Qed.

Lemma s64_nonneg x : urange 64 x -> 0 <= s64 x -> s64 x = x.
Proof.
  intros Hx Hn. pose proof (signed_range 64 x ltac:(lia)) as Hs. pose proof (wrap_signed 64 x ltac:(lia)) as E.
  rewrite !wrap_small in E by (done || (unfold urange, srange in *; lia)). exact E.
Qed.

(** The iterations that make progress are bounded by the bytes that are left, the others by the
    interruptions. *)
Lemma read_loop_any fuel : forall f size off m, file_ok f -> urange 64 off -> Z.of_nat m <= size ->
  (m <> O -> off + Z.of_nat m <= k_len f.(f_fd)) ->
  (Z.to_nat (k_len f.(f_fd)) + k_signals f.(f_fd) < fuel + m)%nat ->
  exists f' n, read_loop fuel f size off (get_bytes m (k_mem f.(f_fd)) off) = Some (f', get_bytes n (k_mem f.(f_fd)) off) /\
    reads_as f f' /\ f'.(f_pos) = f.(f_pos) /\ Z.of_nat n <= size /\ (n <> O -> off + Z.of_nat n <= k_len f.(f_fd)) /\
    ((forall k s o k', 0 <= o -> pread k s o <> (k', Failed)) -> off < 2 ^ 63 -> Z.of_nat m <= available f size off -> Z.of_nat n = available f size off).
Proof.
  induction fuel as [|fuel IH]; intros f size off m Hok Ho Hm Hend Hfuel; cbn [read_loop]; rewrite length_get_bytes;
    unfold urange in Ho; pose proof (k_len_range f.(f_fd)) as Hlr.
  - destruct (Z.ltb_spec (Z.of_nat m) size) as [Hlt|Hge]; [|exists f, m; split_and!; auto using reads_as_refl; intros; unfold available in *; lia].
    destruct m; [lia|]. specialize (Hend ltac:(lia)). lia.
  - destruct (Z.ltb_spec (Z.of_nat m) size) as [Hlt|Hge]; [|exists f, m; split_and!; auto using reads_as_refl; intros; unfold available in *; lia].
    unfold rvread_chunk. set (chunk := Z.min (size - Z.of_nat m) RVFILE_MAX_BUFF).
    assert (Hc : 0 < chunk <= size - Z.of_nat m) by (unfold chunk, RVFILE_MAX_BUFF; lia).
    destruct (pread f.(f_fd) chunk (s64 (u64 (off + Z.of_nat m)))) as [k' r] eqn:Ep.
    destruct (pread_ok _ _ _ _ _ (proj1 Hc) Ep) as (Hlen & Hmem & Hcase).
    set (f1 := set_f_fd k' f). assert (Hok1 : file_ok f1) by (unfold file_ok, f1; simpl; rewrite Hlen; exact Hok).
    assert (Hmem1 : forall n, get_bytes n (k_mem f1.(f_fd)) off = get_bytes n (k_mem f.(f_fd)) off) by (intros n; apply get_bytes_mem, Hmem).
    assert (Hsame : (k_signals k' <= k_signals f.(f_fd))%nat -> reads_as f f1) by (intros; by split).
    assert (Hstep : forall m', (k_signals k' <= k_signals f.(f_fd))%nat -> Z.of_nat m' <= size -> (m' <> O -> off + Z.of_nat m' <= k_len f.(f_fd)) ->
              (Z.to_nat (k_len f.(f_fd)) + k_signals k' < fuel + m')%nat ->
              exists f' n, read_loop fuel f1 size off (get_bytes m' (k_mem f.(f_fd)) off) = Some (f', get_bytes n (k_mem f.(f_fd)) off) /\
                reads_as f f' /\ f'.(f_pos) = f.(f_pos) /\ Z.of_nat n <= size /\ (n <> O -> off + Z.of_nat n <= k_len f.(f_fd)) /\
                ((forall k s o k', 0 <= o -> pread k s o <> (k', Failed)) -> off < 2 ^ 63 -> Z.of_nat m <= available f size off -> Z.of_nat n = available f size off)).
    { intros m' Hsg Hs' He Hf'. destruct (IH f1 size off m') as (f' & n & Hl & Hs & Hp & H2 & H3 & H4); simpl; rewrite ?Hlen; auto.
      rewrite !Hmem1 in Hl. exists f', n. split_and!; auto; [exact (reads_as_trans _ _ _ (Hsame Hsg) Hs)| |].
      - simpl in H3. rewrite Hlen in H3. exact H3.
      - intros Hrel Hlt2 Ha. unfold available in *. simpl in H4. rewrite Hlen in H4. apply H4; auto. destruct m'; [lia|]. specialize (He ltac:(lia)). lia. }
    destruct r as [l| |].
    + destruct Hcase as (Hsig & n & -> & Hn & Hpos & Hzero). destruct n as [|n]; cbn [get_bytes].
      * exists f1, m. split_and!; auto. intros _ Hlt2 Ha. specialize (Hzero eq_refl).
        rewrite (wrap_small 64), s64_small in Hzero; unfold available, urange in *; destruct m; try specialize (Hend ltac:(lia)); lia.
      * assert (Ea : s64 (u64 (off + Z.of_nat m)) = off + Z.of_nat m).
        { destruct (Hpos ltac:(lia)) as [Hnn _]. destruct m as [|m]; [|specialize (Hend ltac:(lia)); rewrite (wrap_small 64), s64_small by (unfold urange; lia); reflexivity].
          rewrite Z.add_0_r in *. rewrite (wrap_small 64) in * by (unfold urange; lia). apply s64_nonneg; [unfold urange|]; lia. }
        rewrite Ea in *. change (k_mem (f_fd f) (off + Z.of_nat m) :: get_bytes n (k_mem (f_fd f)) (off + Z.of_nat m + 1))
          with (get_bytes (S n) (k_mem (f_fd f)) (off + Z.of_nat m)).
        destruct (Hpos ltac:(lia)) as [_ He]. rewrite <- get_bytes_app, length_get_bytes.
        destruct (_ && _) eqn:Estop; [|apply Hstep; lia]. exists f1, (m + S n)%nat. split_and!; auto; try lia. intros _ Hlt2 _.
        apply andb_true_iff in Estop as [_ Estop]. rewrite (wrap_small 64), Z.leb_le in Estop by (unfold urange; lia).
        unfold rvfilesize, f1 in Estop. simpl in Estop. rewrite Hok in Estop. unfold available. lia.
    + apply Hstep; auto; lia.
    + exists f1, m. split_and!; auto. intros Hrel Hlt2 _. destruct (fun H => Hrel _ _ _ _ H Ep).
      rewrite (wrap_small 64), s64_small; unfold urange; destruct m; try specialize (Hend ltac:(lia)); lia.
Qed.

Lemma rvread_any fuel f size off : file_ok f -> urange 64 f.(f_pos) -> urange 64 off -> 0 <= size ->
  (Z.to_nat (k_len f.(f_fd)) + k_signals f.(f_fd) < fuel)%nat ->
  exists f' n, let l := get_bytes n (k_mem f.(f_fd)) (if off =? RVFILE_POSITION then f.(f_pos) else off) in
    rvread fuel f size off = Some (f', l, u64 (s32 (Z.of_nat n))) /\ reads_as f f' /\ Z.of_nat n <= size /\
    ((forall k s o k', 0 <= o -> pread k s o <> (k', Failed)) -> off < 2 ^ 63 -> Z.of_nat n = available f size off).
Proof.
  intros Hok Hp Ho Hs Hf. unfold rvread, rvread_unlocked, rvtell. set (pos := if off =? RVFILE_POSITION then _ else _).
  assert (Hpos : urange 64 pos) by (unfold pos; destruct (_ =? _); auto).
  destruct (read_loop_any fuel f size pos 0 Hok Hpos ltac:(lia) ltac:(lia) ltac:(lia)) as (f' & n & Hl & Hr & Ep & Hn & _ & Hrel).
  assert (Hav : (forall k s o k', 0 <= o -> pread k s o <> (k', Failed)) -> off < 2 ^ 63 -> Z.of_nat n = available f size off).
  { intros Hr' Hlt. unfold pos in Hrel. destruct (Z.eqb_spec off RVFILE_POSITION) as [->|]; [unfold RVFILE_POSITION in Hlt; lia|].
    apply Hrel; auto. unfold available. lia. }
  cbn [get_bytes] in Hl. rewrite Hl. cbn [mbind option_bind]. rewrite length_get_bytes.
  destruct ((off =? RVFILE_POSITION) && nz _).
  - eexists _, n. cbv zeta. split; [reflexivity|]. split; [|auto]. unfold rvseek. cbn [Z.eqb RVFILE_SEEK_SET RVFILE_SEEK_CUR RVFILE_SEEK_END negb].
    destruct (Z.leb_spec 0 (s64 (pos + u64 (s32 (Z.of_nat n))))) as [Hnn|_]; cbn [fst]; [|exact Hr]. destruct Hr. split; simpl; auto.
    intros _. pose proof (signed_range 64 (pos + u64 (s32 (Z.of_nat n))) ltac:(lia)). unfold srange, urange in *. lia.
  - exists f', n. auto.
Qed.

(** A read of 4 GiB reports that nothing was read. *)
Lemma rvread_huge fuel f : file_ok f -> 2 ^ 32 <= k_len f.(f_fd) -> (Z.to_nat (2 ^ 32) + k_signals f.(f_fd) <= fuel)%nat ->
  (forall k s o k', 0 <= o -> pread k s o <> (k', Failed)) ->
  exists f', rvread fuel f (2 ^ 32) 0 = Some (f', get_bytes (Z.to_nat (2 ^ 32)) (k_mem f.(f_fd)) 0, 0).
Proof.
  intros Hok Hlen Hf Hrel. destruct (rvread_run fuel f (2 ^ 32) 0) as (f' & Hx & _); auto; try lia.
  assert (Ha : available f (2 ^ 32) 0 = 2 ^ 32) by (unfold available; lia). rewrite Ha in Hx. exists f'. rewrite Hx. reflexivity.
Qed.
End file_spec.

(** ** A host

    It transfers at most three bytes at a time and interrupts a number of times first. *)
Record demo_host := mk_demo_host { dh_mem : memory; dh_len : Z; dh_signals : nat }.

Definition demo_len (k : demo_host) : Z := Z.max 0 (Z.min k.(dh_len) (2 ^ 63 - 2)).

#[export] Instance demo_posix : Posix demo_host := {|
  pread k size off :=
    if off <? 0 then (k, Failed)
    else match k.(dh_signals) with
         | S n => (mk_demo_host k.(dh_mem) k.(dh_len) n, Eintr)
         | O => (k, Done (get_bytes (Z.to_nat (Z.min (Z.min size 3) (demo_len k - off))) k.(dh_mem) off))
         end;
  pwrite k l off :=
    let n := Z.min 3 (Z.of_nat (length l)) in
    if (off <? 0) || (2 ^ 63 - 1 <=? off + n) then (k, Failed)
    else match k.(dh_signals) with
         | S n => (mk_demo_host k.(dh_mem) k.(dh_len) n, Eintr)
         | O => (mk_demo_host (put_bytes k.(dh_mem) off (take (Z.to_nat n) l)) (Z.max k.(dh_len) (off + n)) O, Done n)
         end;
  ftruncate k len := (k, false);
  posix_fallocate k off len := (k, false);
  punch_hole k off len := (k, false);
  fdatasync k := (k, Done ())
|}.

#[export] Instance demo_posix_ok : PosixOk demo_host.
Proof.
  refine {| k_mem := dh_mem; k_len := demo_len; k_signals := dh_signals |}.
  - intros k. unfold demo_len. lia.
  - intros k size off k' r Hs. simpl. destruct (Z.ltb_spec off 0); [intros [= <- <-]; auto|].
    destruct (dh_signals k) as [|n] eqn:E; intros [= <- <-]; simpl; split_and!; auto; try lia.
    eexists. split; [reflexivity|]. lia.
  - intros k l off k' r Hne. simpl.
    assert (Hl : 0 < Z.of_nat (length l)) by (destruct l; [contradiction|simpl; lia]).
    destruct (Z.ltb_spec off 0); [intros [= <- <-]; auto|].
    destruct (Z.leb_spec (2 ^ 63 - 1) (off + Z.min 3 (Z.of_nat (length l)))); [intros [= <- <-]; auto|]. cbn [orb].
    destruct (dh_signals k) as [|n] eqn:E; intros [= <- <-]; simpl; split_and!; auto; try lia. unfold demo_len. simpl. lia.
  - intros k l off Hne Ho. simpl. destruct (Z.ltb_spec off 0); [|lia]. simpl. eauto.
Defined.

Definition demo_file : rvfile demo_host := mk_rvfile 2 0 (mk_demo_host (fun _ => 7) 2 2).

