(* ===== verification/Ieee.v ===== *)
(** * Floating-point arithmetic of the host

    The meaning of C's [float] and [double] on the modelled host, which are the binary32 and
    binary64 formats of IEEE 754 as SSE2 computes them: results are rounded once in the
    current rounding mode, underflow is detected after rounding, and a NaN operand is passed
    on with its quiet bit set.  Numbers are bit patterns.  The magnitudes of a format are
    numbered by their patterns without the sign ([code]), and every finite magnitude is an
    integer in units of the smallest one ([val]), so an exact result is a ratio of integers
    and rounding chooses between two neighbouring codes. *)
From S2P Require Import Prelude BitOps.

(** Flags and rounding modes are numbered as in util/fpu_lib.h, which has the encoding of
    the RISC-V [fcsr]. *)
Definition FPU_LIB_FLAG_NX : Z := 0x01.
Definition FPU_LIB_FLAG_UF : Z := 0x02.
Definition FPU_LIB_FLAG_OF : Z := 0x04.
Definition FPU_LIB_FLAG_DZ : Z := 0x08.
Definition FPU_LIB_FLAG_NV : Z := 0x10.
Definition FPU_LIB_FLAGS_ALL : Z := 0x1F.
Definition FPU_LIB_ROUND_NE : Z := 0x00.
Definition FPU_LIB_ROUND_TZ : Z := 0x01.
Definition FPU_LIB_ROUND_DN : Z := 0x02.
Definition FPU_LIB_ROUND_UP : Z := 0x03.
Definition FPU_LIB_ROUND_MM : Z := 0x04.

(** ** Formats *)

(** Widths of the fraction and of the exponent. *)
Record fmt := mk_fmt { mb : Z; eb : Z }.
Definition F32 : fmt := mk_fmt 23 8.
Definition F64 : fmt := mk_fmt 52 11.

Definition fmt_ok (F : fmt) : Prop := 1 < F.(mb) /\ 1 < F.(eb).

Lemma F32_ok : fmt_ok F32. Proof. split; reflexivity. Qed.
Lemma F64_ok : fmt_ok F64. Proof. split; reflexivity. Qed.

Section format.
Context (F : fmt).

Definition bias : Z := 2 ^ (F.(eb) - 1) - 1.

(** The smallest magnitude is [2 ^ (- min_exp)]. *)
Definition min_exp : Z := bias + F.(mb) - 1.

Definition inf_code : Z := (2 ^ F.(eb) - 1) * 2 ^ F.(mb).
Definition sign_bit : Z := 2 ^ (F.(mb) + F.(eb)).
Definition code (u : Z) : Z := u mod sign_bit.
Definition sgn (u : Z) : bool := Z.testbit u (F.(mb) + F.(eb)).
Definition with_sign (s : bool) (c : Z) : Z := (if s then sign_bit else 0) + c.

(** The magnitude of a code; it continues above the codes of finite numbers, as if the
    exponent had no bound. *)
Definition val (c : Z) : Z := let k := Z.max 0 (c / 2 ^ F.(mb) - 1) in (c - k * 2 ^ F.(mb)) * 2 ^ k.

(** The largest code whose magnitude is at most [q]. *)
Definition tcode (q : Z) : Z := let k := Z.max 0 (Z.log2 q - F.(mb)) in k * 2 ^ F.(mb) + q / 2 ^ k.

Definition is_nan (u : Z) : bool := inf_code <? code u.
Definition is_inf (u : Z) : bool := code u =? inf_code.
Definition is_snan (u : Z) : bool := is_nan u && negb (Z.testbit u (F.(mb) - 1)).
Definition finite (u : Z) : bool := code u <? inf_code.

(** The number in units, for finite patterns. *)
Definition sval (u : Z) : Z := if sgn u then - val (code u) else val (code u).

(** ** Rounding *)

(** Where the exact magnitude lies between a code and the next one. *)
Inductive loc := Exact | Below | Tie | Above.
#[global] Instance loc_eq_dec : EqDecision loc.
Proof. solve_decision. Defined.

Definition inc (mode : Z) (s : bool) (c : Z) (l : loc) : bool :=
  if mode =? FPU_LIB_ROUND_TZ then false
  else if mode =? FPU_LIB_ROUND_DN then s && bool_decide (l <> Exact)
  else if mode =? FPU_LIB_ROUND_UP then negb s && bool_decide (l <> Exact)
  else if mode =? FPU_LIB_ROUND_MM then match l with Tie | Above => true | _ => false end
  else match l with Tie => Z.odd c | Above => true | _ => false end.

(** Whether an overflow gives infinity; otherwise it gives the largest finite number. *)
Definition overflow_inf (mode : Z) (s : bool) : bool :=
  if mode =? FPU_LIB_ROUND_TZ then false else if mode =? FPU_LIB_ROUND_DN then s else if mode =? FPU_LIB_ROUND_UP then negb s else true.

(** The result would be below the smallest normal number even if the exponent had no bound;
    [high] tells that the exact magnitude is at least that number less a quarter of a unit. *)
Definition tiny (mode : Z) (c : Z) (l : loc) (high : bool) (away : bool) : bool :=
  if c <? 2 ^ F.(mb) - 1 then true
  else if c =? 2 ^ F.(mb) - 1 then
    negb (if (mode =? FPU_LIB_ROUND_TZ) || (mode =? FPU_LIB_ROUND_DN) || (mode =? FPU_LIB_ROUND_UP) then away && bool_decide (l = Above) else high)
  else false.

Definition round_code (mode : Z) (s : bool) (c : Z) (l : loc) (high : bool) : Z * Z :=
  if inf_code <=? c then (if overflow_inf mode s then inf_code else inf_code - 1, FPU_LIB_FLAG_OF .| FPU_LIB_FLAG_NX)
  else
    let r := if inc mode s c l then c + 1 else c in
    if r =? inf_code then (inf_code, FPU_LIB_FLAG_OF .| FPU_LIB_FLAG_NX)
    else (r, match l with Exact => 0 | _ => if tiny mode c l high (inc mode s c l) then FPU_LIB_FLAG_UF .| FPU_LIB_FLAG_NX else FPU_LIB_FLAG_NX end).

(** Where [n / d] lies above the code [c]. *)
Definition locate (n d c : Z) : loc :=
  if n =? d * val c then Exact else match 2 * n ?= d * (val c + val (c + 1)) with Lt => Below | Eq => Tie | Gt => Above end.

(** The magnitude [n / d] rounded to the pattern of a number of sign [s]; and the flags. *)
Definition round_rat (mode : Z) (s : bool) (n d : Z) : Z * Z :=
  let c := tcode (n / d) in
  let '(r, fl) := round_code mode s c (locate n d c) (d * (4 * 2 ^ F.(mb) - 1) <=? 4 * n) in
  (with_sign s r, fl).

(** The same for the square root of [n]. *)
Definition locate_sqrt (n c : Z) : loc :=
  if n =? val c * val c then Exact
  else match 4 * n ?= (val c + val (c + 1)) * (val c + val (c + 1)) with Lt => Below | Eq => Tie | Gt => Above end.

Definition round_sqrt (mode : Z) (n : Z) : Z * Z :=
  let c := tcode (Z.sqrt n) in round_code mode false c (locate_sqrt n c) false.

(** ** Operations *)

Definition quiet (u : Z) : Z := u .| 2 ^ (F.(mb) - 1).
Definition default_nan : Z := with_sign true (inf_code + 2 ^ (F.(mb) - 1)).

Definition nan_flags (a b : Z) : Z := if is_snan a || is_snan b then FPU_LIB_FLAG_NV else 0.
Definition nan2 (a b : Z) : Z * Z := (quiet (if is_nan a then a else b), nan_flags a b).

(** A sum of numbers in units; the sign of a zero comes from the operands. *)
Definition round_sum (mode : Z) (sa sb : bool) (x : Z) : Z * Z :=
  if x =? 0 then (with_sign (if Bool.eqb sa sb then sa else mode =? FPU_LIB_ROUND_DN) 0, 0)
  else round_rat mode (x <? 0) (Z.abs x) 1.

Definition fneg (u : Z) : Z := u .^ sign_bit.

Definition fadd (mode a b : Z) : Z * Z :=
  if is_nan a || is_nan b then nan2 a b
  else if is_inf a then if is_inf b && negb (Bool.eqb (sgn a) (sgn b)) then (default_nan, FPU_LIB_FLAG_NV) else (a, 0)
  else if is_inf b then (b, 0)
  else round_sum mode (sgn a) (sgn b) (sval a + sval b).

Definition fsub (mode a b : Z) : Z * Z := if is_nan a || is_nan b then nan2 a b else fadd mode a (fneg b).

Definition fmul (mode a b : Z) : Z * Z :=
  let s := xorb (sgn a) (sgn b) in
  if is_nan a || is_nan b then nan2 a b
  else if is_inf a || is_inf b then
    if (code a =? 0) || (code b =? 0) then (default_nan, FPU_LIB_FLAG_NV) else (with_sign s inf_code, 0)
  else round_rat mode s (val (code a) * val (code b)) (2 ^ min_exp).

Definition fdiv (mode a b : Z) : Z * Z :=
  let s := xorb (sgn a) (sgn b) in
  if is_nan a || is_nan b then nan2 a b
  else if is_inf a then if is_inf b then (default_nan, FPU_LIB_FLAG_NV) else (with_sign s inf_code, 0)
  else if is_inf b then (with_sign s 0, 0)
  else if code b =? 0 then if code a =? 0 then (default_nan, FPU_LIB_FLAG_NV) else (with_sign s inf_code, FPU_LIB_FLAG_DZ)
  else round_rat mode s (val (code a) * 2 ^ min_exp) (val (code b)).

(** [a * b + c], rounded once: the reference for the fused operation, which the code computes
    by other means. *)
Definition ffma (mode a b c : Z) : Z * Z :=
  let s := xorb (sgn a) (sgn b) in
  let nv := if is_snan a || is_snan b || is_snan c || ((is_inf a || is_inf b) && ((code a =? 0) || (code b =? 0))) then FPU_LIB_FLAG_NV else 0 in
  if is_nan a || is_nan b || is_nan c || nz nv then (default_nan, nv)
  else if is_inf a || is_inf b then
    if is_inf c && negb (Bool.eqb s (sgn c)) then (default_nan, FPU_LIB_FLAG_NV) else (with_sign s inf_code, 0)
  else if is_inf c then (c, 0)
  else
    let x := sval a * sval b + sval c * 2 ^ min_exp in
    if x =? 0 then (with_sign (if Bool.eqb s (sgn c) then s else mode =? FPU_LIB_ROUND_DN) 0, 0)
    else round_rat mode (x <? 0) (Z.abs x) (2 ^ min_exp).

(** For operands that are not negative. *)
Definition fsqrt (mode a : Z) : Z * Z :=
  if is_nan a then nan2 a a else if is_inf a then (a, 0) else round_sqrt mode (val (code a) * 2 ^ min_exp).

Definition of_int (mode i : Z) : Z * Z := if i =? 0 then (0, 0) else round_rat mode (i <? 0) (Z.abs i * 2 ^ min_exp) 1.

(** Conversion to an integer that the type of the result has: the fraction is dropped. *)
Definition to_int (u : Z) : Z * Z :=
  let i := val (code u) / 2 ^ min_exp in
  ((if sgn u then - i else i), if val (code u) =? i * 2 ^ min_exp then 0 else FPU_LIB_FLAG_NX).

(** ** Comparisons *)

(** Position on the extended line; zeroes are equal.  Infinity is the code after the largest
    finite number. *)
Definition pos (u : Z) : Z := if sgn u then - code u else code u.

Definition flt (a b : Z) : bool := negb (is_nan a || is_nan b) && (pos a <? pos b).
Definition fle (a b : Z) : bool := negb (is_nan a || is_nan b) && (pos a <=? pos b).
Definition feq (a b : Z) : bool := negb (is_nan a || is_nan b) && (pos a =? pos b).

(** Ordered comparisons signal on every NaN, [==] and the quiet ones on signaling NaNs. *)
Definition sig_flags (a b : Z) : Z := if is_nan a || is_nan b then FPU_LIB_FLAG_NV else 0.

End format.

(** Conversion between the formats. *)
Definition convert (F G : fmt) (mode u : Z) : Z * Z :=
  let s := sgn F u in
  if is_nan F u then
    let p := code F u - inf_code F in
    (with_sign G s (quiet G (inf_code G + (if F.(mb) <? G.(mb) then p * 2 ^ (G.(mb) - F.(mb)) else p / 2 ^ (F.(mb) - G.(mb))))),
     if is_snan F u then FPU_LIB_FLAG_NV else 0)
  else if is_inf F u then (with_sign G s (inf_code G), 0)
  else if code F u =? 0 then (with_sign G s 0, 0)
  else round_rat G mode s (val F (code F u) * 2 ^ Z.max 0 (min_exp G - min_exp F)) (2 ^ Z.max 0 (min_exp F - min_exp G)).

Create HintDb fp.

(** ** Codes and magnitudes *)

Section lemmas.
Context (F : fmt) (HF : fmt_ok F).

Local Abbreviation B := (2 ^ F.(mb)).

Lemma B_pos : 2 < B.
Proof using HF. destruct HF as [H _]. pose proof (Z.pow_le_mono_r 2 2 F.(mb)). lia. Qed.

Lemma val_small c : 0 <= c < 2 * B -> val F c = c.
Proof using HF.
  intros Hc. pose proof B_pos. unfold val. assert (c / B < 2) by (apply Z.div_lt_upper_bound; lia).
  rewrite Z.max_l by lia. lia.
Qed.

Lemma div_binade k m : B <= m < 2 * B -> (k * B + m) / B = k + 1.
Proof using HF. intros Hm. pose proof B_pos. replace (k * B + m) with ((k + 1) * B + (m - B)) by lia. rewrite Z.div_add_l, Z.div_small by lia. lia. Qed.

Lemma val_binade k m : 0 <= k -> B <= m < 2 * B -> val F (k * B + m) = m * 2 ^ k.
Proof using HF.
  intros Hk Hm. unfold val. rewrite div_binade, Z.max_r by lia. replace (k + 1 - 1) with k by lia. f_equal. lia.
Qed.

(** Every code is a subnormal one or has a binade. *)
Lemma code_cases c : 0 <= c -> 0 <= c < 2 * B \/ exists k m, 0 < k /\ B <= m < 2 * B /\ c = k * B + m.
Proof using HF.
  intros Hc. pose proof B_pos. destruct (Z.lt_ge_cases c (2 * B)); [lia|right]. exists (c / B - 1), (c mod B + B).
  pose proof (Z.div_mod c B). pose proof (Z.mod_pos_bound c B). assert (2 <= c / B) by (apply Z.div_le_lower_bound; lia). lia.
Qed.

Definition ulp (c : Z) : Z := 2 ^ Z.max 0 (c / 2 ^ F.(mb) - 1).

Lemma ulp_pos c : 0 < ulp c.
Proof. unfold ulp. apply Z.pow_pos_nonneg; lia. Qed.

Lemma val_succ c : 0 <= c -> val F (c + 1) = val F c + ulp c.
Proof using HF.
  intros Hc. pose proof B_pos. unfold ulp. destruct (code_cases c Hc) as [Hs|(k & m & Hk & Hm & ->)].
  - assert (c / B < 2) by (apply Z.div_lt_upper_bound; lia). rewrite Z.max_l by lia.
    destruct (Z.eq_dec c (2 * B - 1)) as [->|].
    + replace (2 * B - 1 + 1) with (1 * B + B) by lia. rewrite val_binade, val_small by lia. lia.
    + rewrite !val_small by lia. lia.
  - rewrite div_binade, Z.max_r, val_binade by lia. destruct (Z.eq_dec m (2 * B - 1)) as [->|].
    + replace (k * B + (2 * B - 1) + 1) with ((k + 1) * B + B) by lia. rewrite val_binade, Z.pow_add_r by lia.
      replace (k + 1 - 1) with k by lia. ring.
    + rewrite <- Z.add_assoc, val_binade by lia. replace (k + 1 - 1) with k by lia. ring.
Qed.

Lemma val_lt c c' : 0 <= c < c' -> val F c < val F c'.
Proof using HF.
  intros [Hc Hl]. replace c' with (c + (c' - c)) by lia. assert (Hd : 0 < c' - c) by lia. revert Hd. generalize (c' - c).
  intros d Hd. replace d with (Z.succ (d - 1)) by lia. assert (Hd' : 0 <= d - 1) by lia. revert Hd'. generalize (d - 1). clear d Hd Hl c'.
  apply natlike_ind.
  - rewrite val_succ by lia. pose proof (ulp_pos c). lia.
  - intros d Hd IH. replace (c + Z.succ (Z.succ d)) with (c + Z.succ d + 1) by lia. rewrite val_succ by lia. pose proof (ulp_pos (c + Z.succ d)). lia.
Qed.

Lemma val_le c c' : 0 <= c <= c' -> val F c <= val F c'.
Proof using HF. intros H. destruct (Z.eq_dec c c') as [->|]; [lia|]. pose proof (val_lt c c'). lia. Qed.

Lemma val_inj c c' : 0 <= c -> 0 <= c' -> val F c = val F c' -> c = c'.
Proof using HF. intros H H' E. destruct (Z.lt_trichotomy c c') as [L|[L|L]]; [|done|]; [pose proof (val_lt c c')|pose proof (val_lt c' c)]; lia. Qed.

Lemma val_0 : val F 0 = 0.
Proof using HF. pose proof B_pos. apply val_small. lia. Qed.

Lemma val_nonneg c : 0 <= c -> 0 <= val F c.
Proof using HF. intros H. rewrite <- val_0. apply val_le. lia. Qed.

Lemma tcode_spec q : 0 <= q -> 0 <= tcode F q /\ val F (tcode F q) <= q < val F (tcode F q + 1).
Proof using HF.
  intros Hq. pose proof B_pos as HB. destruct HF as [Hmb _]. unfold tcode. set (k := Z.max 0 (Z.log2 q - F.(mb))).
  assert (Hk : 0 <= k) by lia. pose proof (Z.pow_pos_nonneg 2 k).
  assert (Hm : 0 <= q / 2 ^ k < 2 * B /\ (0 < k -> B <= q / 2 ^ k)).
  { split.
    - split; [apply Z.div_pos; lia|]. apply Z.div_lt_upper_bound; [lia|]. destruct (Z.eq_dec q 0) as [->|]; [lia|].
      pose proof (Z.log2_spec q ltac:(lia)) as [_ Hl]. eapply Z.lt_le_trans; [exact Hl|].
      replace (2 ^ k * (2 * B)) with (2 ^ (k + (1 + F.(mb)))) by (rewrite !Z.pow_add_r by lia; reflexivity). apply Z.pow_le_mono_r; lia.
    - intros Hk'. apply Z.div_le_lower_bound; [lia|]. assert (0 < q) by (destruct (Z.eq_dec q 0) as [->|]; [simpl in k; lia|lia]).
      pose proof (Z.log2_spec q ltac:(lia)) as [Hl _]. rewrite <- Z.pow_add_r by lia. replace (k + F.(mb)) with (Z.log2 q) by lia. exact Hl. }
  destruct Hm as [Hm Hm']. split; [lia|]. rewrite val_succ by lia. unfold ulp.
  pose proof (Z.div_mod q (2 ^ k)). pose proof (Z.mod_pos_bound q (2 ^ k)).
  destruct (Z.eq_dec k 0) as [E|].
  - rewrite E, Z.pow_0_r, Z.div_1_r in *. replace (0 * B + q) with q by lia. rewrite val_small by lia.
    assert (q / B < 2) by (apply Z.div_lt_upper_bound; lia). rewrite Z.max_l; lia.
  - specialize (Hm' ltac:(lia)). rewrite val_binade, div_binade, Z.max_r by lia. replace (k + 1 - 1) with k by lia. lia.
Qed.

Lemma tcode_unique q c : 0 <= c -> val F c <= q < val F (c + 1) -> tcode F q = c.
Proof using HF.
  intros Hc Hq. assert (0 <= q) by (pose proof (val_nonneg c); lia). destruct (tcode_spec q) as (Ht & Hl & Hu); [lia|].
  destruct (Z.lt_trichotomy (tcode F q) c) as [L|[L|L]]; [|done|].
  - pose proof (val_le (tcode F q + 1) c). lia.
  - pose proof (val_le (c + 1) (tcode F q)). lia.
Qed.

Lemma tcode_val c : 0 <= c -> tcode F (val F c) = c.
Proof using HF. intros H. apply tcode_unique; [done|]. rewrite val_succ by done. pose proof (ulp_pos c). lia. Qed.

(** The code below a ratio. *)
Lemma tcode_rat n d : 0 <= n -> 0 < d -> let c := tcode F (n / d) in 0 <= c /\ d * val F c <= n < d * val F (c + 1).
Proof using HF.
  intros Hn Hd c. destruct (tcode_spec (n / d)) as (Hc & Hl & Hu); [apply Z.div_pos; lia|]. fold c in Hc, Hl, Hu.
  split; [done|]. pose proof (Z.div_mod n d). pose proof (Z.mod_pos_bound n d). nia.
Qed.

Lemma tcode_rat_unique n d c : 0 < d -> 0 <= c -> d * val F c <= n < d * val F (c + 1) -> tcode F (n / d) = c.
Proof using HF.
  intros Hd Hc Hn. apply tcode_unique; [done|]. split; [apply Z.div_le_lower_bound; lia|]. apply Z.div_lt_upper_bound; lia.
Qed.

(** A magnitude of the format is not changed. *)
Lemma round_rat_exact mode s n d c : 0 < d -> 0 <= c < inf_code F -> n = d * val F c -> round_rat F mode s n d = (with_sign F s c, 0).
Proof using HF.
  intros Hd Hc ->. unfold round_rat. rewrite (tcode_rat_unique _ d c) by (rewrite ?val_succ by lia; pose proof (ulp_pos c); nia).
  unfold locate. rewrite Z.eqb_refl. unfold round_code. destruct (Z.leb_spec (inf_code F) c); [lia|].
  assert (E : inc mode s c Exact = false) by (unfold inc; rewrite bool_decide_eq_false_2 by (intros H'; apply H'; reflexivity); rewrite !andb_false_r; repeat case_match; reflexivity).
  rewrite E. destruct (Z.eqb_spec c (inf_code F)); [lia|reflexivity].
Qed.

(** ** Ranges *)

Lemma sign_split : sign_bit F = inf_code F + B.
Proof using HF. destruct HF. unfold sign_bit, inf_code. rewrite Z.pow_add_r by lia. ring. Qed.

Lemma inf_pos : B <= inf_code F.
Proof using HF.
  pose proof B_pos. destruct HF. unfold inf_code. pose proof (Z.pow_le_mono_r 2 1 F.(eb)). nia.
Qed.

Lemma sign_double : 2 ^ (1 + F.(eb) + F.(mb)) = 2 * sign_bit F.
Proof using HF. destruct HF. unfold sign_bit. rewrite <- Z.pow_succ_r by lia. f_equal. lia. Qed.

Lemma code_range u : 0 <= code F u < sign_bit F.
Proof using HF. pose proof inf_pos. pose proof B_pos. pose proof sign_split. apply Z.mod_pos_bound. lia. Qed.

Lemma with_sign_range s c : 0 <= c < sign_bit F -> urange (1 + F.(eb) + F.(mb)) (with_sign F s c).
Proof using HF. intros H. unfold urange. rewrite sign_double. unfold with_sign. destruct s; lia. Qed.

Lemma code_with_sign s c : 0 <= c < sign_bit F -> code F (with_sign F s c) = c.
Proof using HF.
  intros H. unfold code, with_sign. destruct s; [|apply Z.mod_small; lia].
  replace (sign_bit F + c) with (c + 1 * sign_bit F) by lia. rewrite Z.mod_add by lia. apply Z.mod_small. lia.
Qed.

Lemma sgn_range u : urange (1 + F.(eb) + F.(mb)) u -> sgn F u = (sign_bit F <=? u).
Proof using HF.
  intros H. destruct HF. unfold sgn, sign_bit. unfold urange in H. rewrite sign_double in H. unfold sign_bit in H.
  rewrite Z.testbit_eqb by lia. pose proof (Z.pow_pos_nonneg 2 (F.(mb) + F.(eb))). destruct (Z.leb_spec (2 ^ (F.(mb) + F.(eb))) u).
  - replace (u / 2 ^ (F.(mb) + F.(eb))) with 1; [reflexivity|]. apply (Z.div_unique u _ 1 (u - 2 ^ (F.(mb) + F.(eb)))); lia.
  - rewrite Z.div_small by lia. reflexivity.
Qed.

Lemma sgn_with_sign s c : 0 <= c < sign_bit F -> sgn F (with_sign F s c) = s.
Proof using HF.
  intros H. rewrite sgn_range by (apply with_sign_range; lia). unfold with_sign. destruct s; case_bool; (reflexivity || lia).
Qed.

(** A pattern is its sign and its code. *)
Lemma pattern_split u : urange (1 + F.(eb) + F.(mb)) u -> u = with_sign F (sgn F u) (code F u).
Proof using HF.
  intros H. rewrite sgn_range by done. unfold urange in H. rewrite sign_double in H. unfold with_sign, code. case_bool.
  - replace u with (u - sign_bit F + 1 * sign_bit F) at 2 by lia. rewrite Z.mod_add, Z.mod_small by lia. lia.
  - rewrite Z.mod_small by lia. lia.
Qed.

Lemma flags_range (b : bool) x y : urange 5 x -> urange 5 y -> urange 5 (if b then x else y).
Proof. by destruct b. Qed.

Definition result_ok (r : Z * Z) : Prop := urange (1 + F.(eb) + F.(mb)) (fst r) /\ urange 5 (snd r).

Lemma round_code_range mode s c l h : 0 <= c -> 0 <= fst (round_code F mode s c l h) <= inf_code F /\ urange 5 (snd (round_code F mode s c l h)).
Proof using HF.
  intros Hc. pose proof inf_pos. pose proof B_pos. unfold round_code. destruct (Z.leb_spec (inf_code F) c); simpl.
  - split; [destruct (overflow_inf mode s); lia|by vm_compute].
  - destruct (Z.eqb_spec (if inc mode s c l then c + 1 else c) (inf_code F)); simpl; (split; [destruct (inc mode s c l); lia|]); [by vm_compute|].
    destruct l; try (apply flags_range); by vm_compute.
Qed.

Lemma below_sign c : 0 <= c <= inf_code F -> 0 <= c < sign_bit F.
Proof using HF. intros H. pose proof sign_split. pose proof B_pos. lia. Qed.

Lemma round_rat_ok mode s n d : 0 <= n -> 0 < d -> result_ok (round_rat F mode s n d).
Proof using HF.
  intros Hn Hd. unfold round_rat. destruct (tcode_rat n d Hn Hd) as [Hc _]. cbv zeta.
  destruct (round_code F mode s (tcode F (n / d)) _ _) as [r fl] eqn:E.
  pose proof (round_code_range mode s (tcode F (n / d)) (locate F n d (tcode F (n / d))) (d * (4 * B - 1) <=? 4 * n) Hc) as Hr.
  rewrite E in Hr. destruct Hr as [Hr Hf]. split; [|exact Hf]. apply with_sign_range, below_sign, Hr.
Qed.

Lemma round_sqrt_ok mode n : 0 <= n -> result_ok (round_sqrt F mode n).
Proof using HF.
  intros Hn. unfold round_sqrt. destruct (tcode_spec (Z.sqrt n) (Z.sqrt_nonneg n)) as [Hc _].
  destruct (round_code_range mode false (tcode F (Z.sqrt n)) (locate_sqrt F n (tcode F (Z.sqrt n))) false Hc) as [Hr Hf].
  split; [|exact Hf]. pose proof sign_split. pose proof inf_pos. pose proof B_pos. unfold urange. rewrite sign_double. lia.
Qed.

Lemma quiet_range u : urange (1 + F.(eb) + F.(mb)) u -> urange (1 + F.(eb) + F.(mb)) (quiet F u).
Proof using HF.
  intros H. destruct HF. apply urange_lor; [lia|exact H|]. split; [pose proof (Z.pow_pos_nonneg 2 (F.(mb) - 1)); lia|]. apply Z.pow_lt_mono_r; lia.
Qed.

Lemma zero_range s : urange (1 + F.(eb) + F.(mb)) (with_sign F s 0).
Proof using HF. apply with_sign_range, below_sign. pose proof inf_pos. pose proof B_pos. lia. Qed.
Lemma inf_range s : urange (1 + F.(eb) + F.(mb)) (with_sign F s (inf_code F)).
Proof using HF. apply with_sign_range, below_sign. pose proof inf_pos. pose proof B_pos. lia. Qed.

Lemma quiet_bit : 0 < 2 ^ (F.(mb) - 1) < B.
Proof using HF. destruct HF. split; [apply Z.pow_pos_nonneg; lia|apply Z.pow_lt_mono_r; lia]. Qed.

Lemma default_nan_range : urange (1 + F.(eb) + F.(mb)) (default_nan F).
Proof using HF.
  apply with_sign_range. pose proof quiet_bit. pose proof inf_pos. pose proof sign_split. lia.
Qed.

Lemma nan_flags_range a b : urange 5 (nan_flags F a b).
Proof. apply flags_range; by vm_compute. Qed.

Lemma nan2_ok a b : urange (1 + F.(eb) + F.(mb)) a -> urange (1 + F.(eb) + F.(mb)) b -> result_ok (nan2 F a b).
Proof using HF. intros. split; [apply quiet_range; by destruct (is_nan F a)|apply nan_flags_range]. Qed.

Lemma round_sum_ok mode sa sb x : result_ok (round_sum F mode sa sb x).
Proof using HF.
  unfold round_sum. destruct (Z.eqb_spec x 0); [split; [apply zero_range|by vm_compute]|]. apply round_rat_ok; lia.
Qed.

Lemma fneg_range u : urange (1 + F.(eb) + F.(mb)) u -> urange (1 + F.(eb) + F.(mb)) (fneg F u).
Proof using HF.
  intros H. destruct HF. apply urange_lxor; [lia|exact H|]. unfold urange. rewrite sign_double.
  pose proof inf_pos. pose proof B_pos. pose proof sign_split. lia.
Qed.

Lemma unit_pos : 0 <= min_exp F.
Proof using HF. destruct HF. unfold min_exp, bias. pose proof (Z.pow_pos_nonneg 2 (F.(eb) - 1)). lia. Qed.

Lemma pow_unit : 0 < 2 ^ min_exp F.
Proof using HF. apply Z.pow_pos_nonneg; [lia|apply unit_pos]. Qed.

Lemma val_code_nonneg u : 0 <= val F (code F u).
Proof using HF. apply val_nonneg, code_range. Qed.

End lemmas.

#[export] Hint Resolve F32_ok F64_ok : fp.

(** ** Results are patterns of their format *)

Section results.
Context (F : fmt) (HF : fmt_ok F).

Local Abbreviation pat := (urange (1 + F.(eb) + F.(mb))).

Ltac result_leaf :=
  first [ by apply nan2_ok | by apply round_sum_ok | split; [first [by apply default_nan_range|by apply inf_range|by apply zero_range|done]|by vm_compute] ].

Lemma fadd_ok mode a b : pat a -> pat b -> result_ok F (fadd F mode a b).
Proof using HF. intros. unfold fadd. repeat case_match; result_leaf. Qed.

Lemma fsub_ok mode a b : pat a -> pat b -> result_ok F (fsub F mode a b).
Proof using HF. intros. unfold fsub. case_match; [result_leaf|]. apply fadd_ok; [done|]. by apply fneg_range. Qed.

Lemma fmul_ok mode a b : pat a -> pat b -> result_ok F (fmul F mode a b).
Proof using HF.
  intros. unfold fmul. pose proof (val_code_nonneg F HF a). pose proof (val_code_nonneg F HF b). pose proof (pow_unit F HF).
  repeat case_match; try result_leaf. apply round_rat_ok; [done|nia|lia].
Qed.

Lemma val_pos_code u : code F u <> 0 -> 0 < val F (code F u).
Proof using HF. intros H. pose proof (code_range F HF u). rewrite <- (val_0 F HF). apply val_lt; [done|lia]. Qed.

Lemma fdiv_ok mode a b : pat a -> pat b -> result_ok F (fdiv F mode a b).
Proof using HF.
  intros. unfold fdiv. pose proof (val_code_nonneg F HF a). pose proof (val_pos_code b). pose proof (pow_unit F HF).
  destruct (Z.eqb_spec (code F b) 0); repeat case_match; try result_leaf. apply round_rat_ok; [done|nia|auto].
Qed.

Lemma fsqrt_ok mode a : pat a -> result_ok F (fsqrt F mode a).
Proof using HF.
  intros. unfold fsqrt. pose proof (val_code_nonneg F HF a). pose proof (pow_unit F HF).
  repeat case_match; try result_leaf. apply round_sqrt_ok; [done|nia].
Qed.

Lemma of_int_ok mode i : result_ok F (of_int F mode i).
Proof using HF.
  unfold of_int. pose proof (pow_unit F HF). destruct (Z.eqb_spec i 0).
  - split; [exact (zero_range F HF false)|by vm_compute].
  - apply round_rat_ok; [done|nia|lia].
Qed.

Lemma convert_ok G mode u : fmt_ok G -> urange (1 + G.(eb) + G.(mb)) u -> result_ok F (convert G F mode u).
Proof using HF.
  intros HG Hu. unfold convert. pose proof (Z.pow_pos_nonneg 2 (Z.max 0 (min_exp G - min_exp F))) as Hp.
  pose proof (Z.pow_pos_nonneg 2 (Z.max 0 (min_exp F - min_exp G))) as Hq. pose proof (val_code_nonneg G HG u).
  destruct (is_nan G u) eqn:En.
  - split; [|apply flags_range; by vm_compute]. simpl. apply with_sign_range; [done|].
    set (p := if _ : bool then _ else _). assert (Hp' : 0 <= p < 2 ^ F.(mb)).
    { unfold is_nan in En. apply Z.ltb_lt in En. pose proof (code_range G HG u). pose proof (sign_split G HG).
      assert (Hx : 0 <= code G u - inf_code G < 2 ^ G.(mb)) by lia. destruct HF, HG. unfold p. case_bool.
      - replace (2 ^ F.(mb)) with (2 ^ G.(mb) * 2 ^ (F.(mb) - G.(mb))) by (rewrite <- Z.pow_add_r by lia; f_equal; lia).
        pose proof (Z.pow_pos_nonneg 2 (F.(mb) - G.(mb))). nia.
      - split; [apply Z.div_pos; [lia|apply Z.pow_pos_nonneg; lia]|]. apply Z.div_lt_upper_bound; [apply Z.pow_pos_nonneg; lia|].
        rewrite <- Z.pow_add_r by lia. replace (G.(mb) - F.(mb) + F.(mb)) with G.(mb) by lia. lia. }
    destruct HF. unfold quiet. change (0 <= inf_code F + p .| 2 ^ (F.(mb) - 1) < sign_bit F) with (urange (F.(mb) + F.(eb)) (inf_code F + p .| 2 ^ (F.(mb) - 1))).
    apply urange_lor; [lia| |].
    + unfold urange. change (2 ^ (F.(mb) + F.(eb))) with (sign_bit F). rewrite (sign_split F HF). pose proof (inf_pos F HF). pose proof (B_pos F HF). lia.
    + split; [pose proof (Z.pow_pos_nonneg 2 (F.(mb) - 1)); lia|]. apply Z.pow_lt_mono_r; lia.
  - repeat case_match; try (split; [first [by apply inf_range|by apply zero_range]|by vm_compute]). apply round_rat_ok; [done|nia|lia].
Qed.

End results.
