(* ===== verification/IeeeExact.v ===== *)
(** * Exact operations of the host

    When the host computes without rounding: sums and products whose exact result the format
    has, and widening conversions.  Also the two facts by which rounding to nearest does not
    depend on how ties are broken: a square root is never halfway between two numbers, and a
    quotient is not unless it is subnormal. *)
From S2P Require Import Prelude BitOps Ieee.

Section exact.
Context (F : fmt) (HF : fmt_ok F).

Local Abbreviation B := (2 ^ F.(mb)).
Local Abbreviation pat := (urange (1 + F.(eb) + F.(mb))).

(** The format has a number of this size. *)
Definition rep (z : Z) : Prop := exists c, 0 <= c < inf_code F /\ Z.abs z = val F c.

(** The pattern of a finite number, and the number. *)
Definition fis (u z : Z) : Prop := pat u /\ code F u < inf_code F /\ sval F u = z.

Lemma rep_scaled m k : 0 <= k -> Z.abs m < 2 * B -> Z.abs m * 2 ^ k < val F (inf_code F) -> rep (m * 2 ^ k).
Proof using HF.
  intros Hk Hm Hv. pose proof (Z.pow_pos_nonneg 2 k). set (v := Z.abs m * 2 ^ k) in *. assert (Hv0 : 0 <= v) by (unfold v; nia).
  assert (Ha : Z.abs (m * 2 ^ k) = v) by (unfold v; rewrite Z.abs_mul; f_equal; lia).
  destruct (tcode_spec F HF v Hv0) as (Hc & Hl & Hu). exists (tcode F v). rewrite Ha. split.
  - split; [done|]. destruct (Z.lt_ge_cases (tcode F v) (inf_code F)) as [|Hge]; [done|].
    pose proof (val_le F HF (inf_code F) (tcode F v)). pose proof (inf_pos F HF). pose proof (B_pos F HF). lia.
  - rewrite (val_succ F HF) in Hu by done. pose proof (B_pos F HF) as HB.
    destruct (code_cases F HF (tcode F v) Hc) as [Hs|(e & s & He & Hs & Ec)].
    + rewrite (val_small F HF) in * by done. unfold ulp in Hu. assert (tcode F v / B < 2) by (apply Z.div_lt_upper_bound; lia).
      rewrite Z.max_l, Z.pow_0_r in Hu by lia. lia.
    + rewrite Ec in *. rewrite (val_binade F HF) in * by lia. unfold ulp in Hu. rewrite (div_binade F HF) in Hu by lia.
      replace (Z.max 0 (e + 1 - 1)) with e in Hu by lia. pose proof (Z.pow_pos_nonneg 2 e).
      destruct (Z.le_gt_cases e k) as [Hek|Hek].
      * assert (Ev : v = Z.abs m * 2 ^ (k - e) * 2 ^ e) by (unfold v; rewrite <- Z.mul_assoc, <- Z.pow_add_r by lia; do 2 f_equal; lia).
        rewrite Ev in *. f_equal. apply Z.le_antisymm; apply Z.lt_succ_r, (Z.mul_lt_mono_pos_r (2 ^ e)); lia.
      * exfalso. replace e with (k + 1 + (e - k - 1)) in Hl by lia. rewrite !Z.pow_add_r in Hl by lia.
        pose proof (Z.pow_pos_nonneg 2 (e - k - 1)). assert (s * 2 <= Z.abs m); [|lia].
        apply (Z.mul_le_mono_pos_r _ _ (2 ^ k)); [lia|]. unfold v in Hl. nia.
Qed.

Lemma fis_with_sign s c : 0 <= c < inf_code F -> fis (with_sign F s c) (if s then - val F c else val F c).
Proof using HF.
  intros Hc. pose proof (sign_split F HF). pose proof (B_pos F HF). split; [apply with_sign_range; [done|lia]|].
  unfold sval. rewrite code_with_sign, sgn_with_sign by (done || lia). split; [lia|done].
Qed.

(** A rounded sum of integers: exact if the format has it, and zero only if it is. *)
Lemma round_sum_exact mode sa sb x : rep x -> fis (fst (round_sum F mode sa sb x)) x.
Proof using HF.
  intros (c & Hc & Ex). unfold round_sum. pose proof (inf_pos F HF). pose proof (B_pos F HF). destruct (Z.eqb_spec x 0) as [->|Hx]; simpl.
  - destruct (fis_with_sign (if Bool.eqb sa sb then sa else mode =? FPU_LIB_ROUND_DN) 0) as (? & ? & Hv); [lia|]. rewrite (val_0 F HF) in Hv.
    split; [done|]. split; [done|]. destruct (if _ : bool then _ else _); simpl in Hv; lia.
  - rewrite (round_rat_exact F HF mode _ _ 1 c) by lia. pose proof (fis_with_sign (x <? 0) c Hc) as Hf. simpl.
    replace x with (if x <? 0 then - val F c else val F c) at 2; [done|]. case_bool; lia.
Qed.

Lemma fis_not_nan u z : fis u z -> is_nan F u = false /\ is_inf F u = false.
Proof using HF. intros (_ & Hc & _). unfold is_nan, is_inf. split; case_bool; lia. Qed.

(** Negation flips the sign. *)
Lemma fneg_split u : pat u -> fneg F u = with_sign F (negb (sgn F u)) (code F u).
Proof using HF.
  intros Hu. pose proof (fneg_range F HF u Hu) as Hn. rewrite (pattern_split F HF (fneg F u) Hn). destruct HF.
  f_equal; unfold sgn, code, fneg, sign_bit.
  - rewrite Z.lxor_spec, Z.pow2_bits_true by lia. by destruct (Z.testbit u _).
  - apply Z.bits_inj'. intros i Hi. destruct (Z.lt_ge_cases i (F.(mb) + F.(eb))).
    + rewrite !Z.mod_pow2_bits_low, Z.lxor_spec, Z.pow2_bits_false by lia. by destruct (Z.testbit u i).
    + by rewrite !Z.mod_pow2_bits_high by lia.
Qed.

Lemma fneg_fis u x : fis u x -> fis (fneg F u) (- x).
Proof using HF.
  intros (Hp & Hc & <-). rewrite fneg_split by done. pose proof (code_range F HF u).
  pose proof (fis_with_sign (negb (sgn F u)) (code F u)) as Hf. unfold sval. destruct (sgn F u); simpl in *; rewrite ?Z.opp_involutive; apply Hf; lia.
Qed.

Lemma fadd_finite mode a b x y : fis a x -> fis b y -> fadd F mode a b = round_sum F mode (sgn F a) (sgn F b) (x + y).
Proof using HF.
  intros Ha Hb. destruct (fis_not_nan a x Ha) as [Na Ia], (fis_not_nan b y Hb) as [Nb Ib]. unfold fadd. rewrite Na, Nb, Ia, Ib.
  destruct Ha as (_ & _ & ->), Hb as (_ & _ & ->). done.
Qed.

Lemma fadd_exact mode a b x y : fis a x -> fis b y -> rep (x + y) -> fis (fst (fadd F mode a b)) (x + y).
Proof using HF. intros Ha Hb Hr. rewrite (fadd_finite mode a b x y) by done. by apply round_sum_exact. Qed.

Lemma fsub_finite mode a b x y : fis a x -> fis b y -> exists sa sb, fsub F mode a b = round_sum F mode sa sb (x - y).
Proof using HF.
  intros Ha Hb. destruct (fis_not_nan a x Ha) as [Na Ia], (fis_not_nan b y Hb) as [Nb Ib]. unfold fsub. rewrite Na, Nb. cbn [orb].
  rewrite (fadd_finite mode a (fneg F b) x (- y)) by (done || by apply fneg_fis). eauto.
Qed.

Lemma fsub_exact mode a b x y : fis a x -> fis b y -> rep (x - y) -> fis (fst (fsub F mode a b)) (x - y).
Proof using HF. intros Ha Hb Hr. destruct (fsub_finite mode a b x y Ha Hb) as (sa & sb & ->). by apply round_sum_exact. Qed.

Lemma round_code_pos mode s c l h : 0 < c -> 0 < fst (round_code F mode s c l h).
Proof using HF.
  intros Hc. pose proof (inf_pos F HF). pose proof (B_pos F HF). unfold round_code. repeat case_match; simpl; lia.
Qed.

(** There is no underflow to zero in a sum. *)
Lemma round_sum_zero mode sa sb x : code F (fst (round_sum F mode sa sb x)) = 0 <-> x = 0.
Proof using HF.
  pose proof (inf_pos F HF). pose proof (B_pos F HF) as HB. pose proof (sign_split F HF). unfold round_sum. destruct (Z.eqb_spec x 0) as [->|Hx]; simpl.
  - rewrite code_with_sign by (done || lia). done.
  - split; [|done]. intros E. exfalso. unfold round_rat in E. rewrite Z.div_1_r in E. destruct (tcode_spec F HF (Z.abs x)) as (Hc & _ & Hu); [lia|].
    assert (Ht : 0 < tcode F (Z.abs x)).
    { destruct (Z.eq_dec (tcode F (Z.abs x)) 0) as [E0|]; [|lia]. rewrite E0, Z.add_0_l, (val_small F HF) in Hu by lia. lia. }
    pose proof (round_code_pos mode (x <? 0) _ (locate F (Z.abs x) 1 (tcode F (Z.abs x))) (1 * (4 * B - 1) <=? 4 * Z.abs x) Ht) as Hp.
    pose proof (round_code_range F HF mode (x <? 0) _ (locate F (Z.abs x) 1 (tcode F (Z.abs x))) (1 * (4 * B - 1) <=? 4 * Z.abs x) Hc) as [Hr _].
    destruct (round_code F mode _ _ _ _) as [r fl]. simpl in *. rewrite code_with_sign in E by (done || lia). lia.
Qed.

Lemma fmul_exact mode a b x y z : fis a x -> fis b y -> rep z -> x * y = z * 2 ^ min_exp F ->
  fis (fst (fmul F mode a b)) z.
Proof using HF.
  intros Ha Hb (c & Hc & Ez) E. destruct (fis_not_nan a x Ha) as [Na Ia], (fis_not_nan b y Hb) as [Nb Ib]. unfold fmul. rewrite Na, Nb, Ia, Ib. cbn [orb].
  destruct Ha as (_ & _ & <-), Hb as (_ & _ & <-). pose proof (pow_unit F HF). pose proof (val_code_nonneg F HF a). pose proof (val_code_nonneg F HF b).
  rewrite (round_rat_exact F HF mode _ _ _ c); [|lia|done|].
  - simpl. pose proof (fis_with_sign (xorb (sgn F a) (sgn F b)) c Hc) as Hf. unfold sval in E.
    replace z with (if xorb (sgn F a) (sgn F b) then - val F c else val F c); [done|].
    pose proof (val_nonneg F HF c). destruct (sgn F a), (sgn F b); simpl; nia.
  - rewrite <- Ez. unfold sval in E. destruct (sgn F a), (sgn F b); nia.
Qed.

End exact.

(** Widening: every number of the narrow format is in the wide one. *)
Lemma convert_exact F G mode u x : fmt_ok F -> fmt_ok G -> min_exp F <= min_exp G -> fis F u x -> rep G (x * 2 ^ (min_exp G - min_exp F)) ->
  fis G (fst (convert F G mode u)) (x * 2 ^ (min_exp G - min_exp F)).
Proof.
  intros HF HG Hle Hu (c & Hc & Ec). destruct (fis_not_nan F HF u x Hu) as [Nu Iu]. destruct Hu as (Hp & Hcu & <-). unfold convert. rewrite Nu, Iu.
  pose proof (Z.pow_pos_nonneg 2 (min_exp G - min_exp F)). pose proof (val_code_nonneg F HF u).
  destruct (Z.eqb_spec (code F u) 0) as [E0|Hn].
  - simpl. unfold sval. rewrite E0, (val_0 F HF). destruct (fis_with_sign G HG (sgn F u) 0) as (? & ? & Hv); [pose proof (inf_pos G HG); pose proof (B_pos G HG); lia|].
    rewrite (val_0 G HG) in Hv. split; [done|]. split; [done|]. destruct (sgn F u); simpl in *; lia.
  - rewrite Z.max_r, (Z.max_l 0 (min_exp F - min_exp G)), Z.pow_0_r by lia. rewrite (round_rat_exact G HG mode _ _ 1 c); [|lia|done|].
    + simpl. pose proof (fis_with_sign G HG (sgn F u) c Hc) as Hf. replace (sval F u * _) with (if sgn F u then - val G c else val G c); [done|].
      rewrite <- Ec. unfold sval. destruct (sgn F u); nia.
    + rewrite <- Ec. unfold sval. destruct (sgn F u); nia.
Qed.

(** ** Ties *)

Section ties.
Context (F : fmt) (HF : fmt_ok F).

Local Abbreviation B := (2 ^ F.(mb)).
Local Abbreviation NE := FPU_LIB_ROUND_NE.
Local Abbreviation MM := FPU_LIB_ROUND_MM.

(** The two ways of rounding to nearest agree, except that a tie between an even code and the
    next one goes to the even code or to the next; the flags agree always. *)
Lemma nearest_no_tie s c l h : l <> Tie -> round_code F NE s c l h = round_code F MM s c l h.
Proof. by destruct l. Qed.

Lemma even_max : Z.even (inf_code F) = true.
Proof using HF.
  destruct HF. unfold inf_code. rewrite Z.even_mul. replace F.(mb) with (Z.succ (F.(mb) - 1)) by lia. rewrite Z.pow_succ_r, (Z.even_mul 2) by lia.
  by rewrite orb_true_r.
Qed.

Lemma nearest_tie s c h : 0 <= c < inf_code F ->
  round_code F MM s c Tie h = (c + 1, snd (round_code F NE s c Tie h)) /\ fst (round_code F NE s c Tie h) = if Z.odd c then c + 1 else c.
Proof using HF.
  intros Hc. unfold round_code. destruct (Z.leb_spec (inf_code F) c); [lia|]. cbn.
  destruct (Z.odd c) eqn:Ho; destruct (Z.eqb_spec (c + 1) (inf_code F)) as [E|E]; try destruct (Z.eqb_spec c (inf_code F)); try lia; try done.
  - cbn. by rewrite E.
  - exfalso. pose proof even_max as He. rewrite <- E, Z.even_add, <- Z.negb_odd, Ho in He. done.
Qed.

(** A magnitude is a significand and a power of two; the middle above a normal one has an odd
    significand of one more bit. *)
Lemma val_split c : 0 <= c -> exists m k, 0 <= k /\ 0 <= m < 2 * B /\ val F c = m * 2 ^ k.
Proof using HF.
  intros Hc. destruct (code_cases F HF c Hc) as [H|(k & m & Hk & Hm & ->)].
  - exists c, 0. rewrite (val_small F HF) by done. lia.
  - exists m, k. rewrite (val_binade F HF) by lia. lia.
Qed.

Lemma middle_split c : B <= c -> exists m k, 0 <= k /\ B <= m /\ val F c + val F (c + 1) = (2 * m + 1) * 2 ^ k.
Proof using HF.
  intros Hc. pose proof (B_pos F HF). rewrite (val_succ F HF) by lia. unfold ulp. destruct (code_cases F HF c) as [H'|(k & m & Hk & Hm & ->)]; [lia| |].
  - exists c, 0. assert (c / B < 2) by (apply Z.div_lt_upper_bound; lia). rewrite (val_small F HF), Z.max_l by lia. lia.
  - exists m, k. rewrite (val_binade F HF), (div_binade F HF) by lia. replace (Z.max 0 (k + 1 - 1)) with k by lia. lia.
Qed.

Lemma odd_divides o x n : 0 <= n -> Z.odd o = true -> (o | x * 2 ^ n) -> (o | x).
Proof.
  intros Hn Ho. revert x. pattern n. apply natlike_ind; [intros x; by rewrite Z.mul_1_r| |done]. clear n Hn. intros n Hn IH x D.
  rewrite Z.pow_succ_r in D by done. apply IH. destruct D as [t Ht]. exists (t / 2).
  assert (He : Z.even t = true). { assert (Z.even (t * o) = true) as Ht' by (by rewrite <- Ht, Z.mul_shuffle3, Z.even_mul). rewrite Z.even_mul, <- (Z.negb_odd o), Ho, orb_false_r in Ht'. done. }
  apply Z.even_spec in He as [q ->]. rewrite (Z.mul_comm 2 q), Z.div_mul by lia. lia.
Qed.

Lemma odd_middle m : Z.odd (2 * m + 1) = true.
Proof. rewrite Z.add_comm, Z.odd_add_mul_2. done. Qed.

Lemma sqrt_no_tie v : 2 * F.(mb) <= min_exp F -> 0 <= v -> let n := val F v * 2 ^ min_exp F in locate_sqrt F n (tcode F (Z.sqrt n)) <> Tie.
Proof using HF.
  intros HE Hv n. pose proof (B_pos F HF) as HB. destruct HF as [Hmb _]. pose proof (pow_unit F HF) as HU. pose proof (val_nonneg F HF v Hv) as Hv0.
  destruct (Z.eq_dec (val F v) 0) as [E0|Hn].
  { unfold n. rewrite E0, Z.mul_0_l. change (Z.sqrt 0) with 0. rewrite (tcode_unique F HF 0 0) by (rewrite ?(val_small F HF) by lia; lia).
    unfold locate_sqrt. rewrite (val_0 F HF). done. }
  destruct (tcode_spec F HF (Z.sqrt n)) as (Hc & Hl & Hu); [apply Z.sqrt_nonneg|]. set (c := tcode F (Z.sqrt n)) in *.
  assert (Hnorm : B <= c).
  { destruct (Z.lt_ge_cases c B) as [L|]; [exfalso|done]. rewrite (val_small F HF) in Hu by lia.
    assert (B <= Z.sqrt n); [|lia]. rewrite <- (Z.sqrt_square B) by lia. apply Z.sqrt_le_mono. unfold n.
    rewrite <- Z.pow_add_r by lia. pose proof (Z.pow_le_mono_r 2 (F.(mb) + F.(mb)) (min_exp F)). nia. }
  unfold locate_sqrt. destruct (n =? _); [done|]. destruct (_ ?= _) eqn:E; try done. exfalso. apply Z.compare_eq_iff in E.
  destruct (middle_split c Hnorm) as (m & k & Hk & Hm & Em), (val_split v Hv) as (mu & ku & Hku & Hmu & Ev). rewrite Em in E. unfold n in E. rewrite Ev in *.
  assert (D : ((2 * m + 1) * (2 * m + 1) | mu)).
  { apply (odd_divides _ _ (ku + min_exp F + 2)); [pose proof (unit_pos F HF); lia|by rewrite Z.odd_mul, odd_middle|].
    exists (2 ^ k * 2 ^ k). rewrite !Z.pow_add_r by (pose proof (unit_pos F HF); lia). lia. }
  apply Z.divide_pos_le in D; [nia|]. pose proof (Z.pow_pos_nonneg 2 ku). nia.
Qed.

Lemma div_no_tie v w : 0 <= v -> 0 < w -> let n := val F v * 2 ^ min_exp F in let c := tcode F (n / val F w) in
  B <= c -> locate F n (val F w) c <> Tie.
Proof using HF.
  intros Hv Hw n c Hc. unfold locate. destruct (n =? _); [done|]. destruct (_ ?= _) eqn:E; try done. exfalso. apply Z.compare_eq_iff in E.
  destruct (middle_split c Hc) as (m & k & Hk & Hm & Em), (val_split v Hv) as (mv & kv & Hkv & Hmv & Ev), (val_split w) as (mw & kw & Hkw & Hmw & Ew); [lia|].
  rewrite Em in E. unfold n in E. rewrite Ev, Ew in E. pose proof (unit_pos F HF). pose proof (val_lt F HF 0 w). rewrite (val_0 F HF), Ew in *.
  pose proof (Z.pow_pos_nonneg 2 kw). pose proof (Z.pow_pos_nonneg 2 kv). pose proof (pow_unit F HF). pose proof (Z.pow_pos_nonneg 2 k).
  assert (D : (2 * m + 1 | mv)).
  { apply (odd_divides _ _ (kv + min_exp F + 1)); [lia|apply odd_middle|]. exists (mw * 2 ^ kw * 2 ^ k). rewrite !Z.pow_add_r by lia. lia. }
  apply Z.divide_pos_le in D; [lia|]. nia.
Qed.

(** Rounding to nearest with ties away, from the result with ties to even and a test whether
    the exact result lies halfway between it and the next number. *)
Lemma nearest_fixup s n d : 0 <= n -> 0 < d ->
  exists r fl, round_rat F NE s n d = (with_sign F s r, fl) /\ 0 <= r <= inf_code F /\
    round_rat F MM s n d = (with_sign F s (if (r <? inf_code F) && (2 * n =? d * (val F r + val F (r + 1))) then r + 1 else r), fl) /\
    (r = inf_code F - 1 -> 2 * n <> d * (val F r + val F (r + 1))).
Proof using HF.
  intros Hn Hd. destruct (tcode_rat F HF n d Hn Hd) as (Hc & Hl & Hu). unfold round_rat. cbv zeta. set (c := tcode F (n / d)) in *.
  set (h := d * (4 * B - 1) <=? 4 * n). pose proof (round_code_range F HF NE s c (locate F n d c) h Hc) as [Hr _].
  destruct (round_code F NE s c (locate F n d c) h) as [r fl] eqn:E. simpl in Hr. exists r, fl. split; [done|]. split; [done|].
  assert (Hup : forall r, c < r -> 2 * n <> d * (val F r + val F (r + 1))).
  { intros r' Hr' E'. pose proof (val_le F HF (c + 1) r'). pose proof (val_lt F HF (c + 1) (r' + 1)). nia. }
  assert (Hcase : inf_code F <= c \/ c < inf_code F) by lia. destruct Hcase as [Hge|Hlt].
  { unfold round_code in E |- *. destruct (Z.leb_spec (inf_code F) c); [|lia]. cbn in E |- *. simplify_eq. rewrite Z.ltb_irrefl. cbn [andb]. split; [done|lia]. }
  destruct (decide (locate F n d c = Tie)) as [T|T].
  - rewrite T in *. destruct (nearest_tie s c h) as [Em En]; [lia|]. rewrite Em. rewrite E in En |- *. cbn [fst snd] in *.
    assert (Ht : 2 * n = d * (val F c + val F (c + 1))).
    { unfold locate in T. destruct (n =? _); [done|]. destruct (_ ?= _) eqn:C; try done. by apply Z.compare_eq_iff in C. }
    destruct (Z.odd c) eqn:Ho; subst r.
    + split; [|intros _; apply Hup; lia]. destruct (Z.eqb_spec (2 * n) (d * (val F (c + 1) + val F (c + 1 + 1)))); [|by rewrite andb_false_r]. exfalso. by apply (Hup (c + 1)); [lia|].
    + rewrite (proj2 (Z.eqb_eq _ _) Ht), (proj2 (Z.ltb_lt _ _) Hlt). cbn [andb]. split; [done|]. intros Ec. exfalso.
      pose proof even_max as He. replace (inf_code F) with (c + 1) in He by lia. rewrite Z.even_add, <- Z.negb_odd, Ho in He. done.
  - rewrite <- nearest_no_tie, E by done.
    assert (Hne : 2 * n <> d * (val F r + val F (r + 1))).
    { assert (Hrc : r = c \/ c < r). { unfold round_code in E. repeat case_match; simplify_eq; lia. } destruct Hrc as [->|]; [|by apply Hup].
      intros Ht. apply T. unfold locate. destruct (Z.eqb_spec n (d * val F c)) as [En|]; [|by rewrite Ht, Z.compare_refl].
      pose proof (val_lt F HF c (c + 1)). nia. }
    rewrite (proj2 (Z.eqb_neq _ _) Hne), andb_false_r. done.
Qed.

End ties.

(** ** NaNs *)

Section nan.
Context (F : fmt) (HF : fmt_ok F).

(** No operation of the host returns a signaling NaN. *)
Lemma code_lor u v : 0 <= v < sign_bit F -> code F (u .| v) = code F u .| v.
Proof using HF.
  intros Hv. destruct HF. assert (Hw : 0 <= F.(mb) + F.(eb)) by lia. unfold code, sign_bit in *. rewrite <- !Z.land_ones, Z.land_lor_distr_l by done. f_equal.
  rewrite Z.land_ones by done. by apply Z.mod_small.
Qed.

Lemma lor_ge_l a b : 0 <= a -> 0 <= b -> a <= a .| b.
Proof.
  intros Ha Hb. replace (a .| b) with (a .| Z.ldiff b a).
  - rewrite lor_add by (apply Z.bits_inj'; intros i Hi; rewrite Z.land_spec, Z.ldiff_spec, Z.bits_0; by destruct (Z.testbit a i), (Z.testbit b i)).
    assert (0 <= Z.ldiff b a) by (apply Z.ldiff_nonneg; lia). lia.
  - apply Z.bits_inj'. intros i Hi. rewrite !Z.lor_spec, Z.ldiff_spec. by destruct (Z.testbit a i), (Z.testbit b i).
Qed.

Lemma quiet_is_nan u : is_nan F u = true -> is_nan F (quiet F u) = true /\ is_snan F (quiet F u) = false.
Proof using HF.
  unfold is_nan, is_snan, quiet. intros Hu. pose proof (quiet_bit F HF) as Hq. pose proof (code_range F HF u). pose proof (sign_split F HF). pose proof (inf_pos F HF).
  pose proof (lor_ge_l (code F u) (2 ^ (F.(mb) - 1))). destruct HF as [Hm _]. rewrite Z.lor_spec, Z.pow2_bits_true, orb_true_r, andb_false_r by lia.
  split; [|done]. rewrite code_lor by lia. lia.
Qed.

Lemma nan2_nan a b : is_nan F a || is_nan F b = true -> is_nan F (fst (nan2 F a b)) = true /\ is_snan F (fst (nan2 F a b)) = false.
Proof using HF. intros H. apply quiet_is_nan. destruct (is_nan F a) eqn:E; [done|]. by rewrite ?E in *. Qed.

Lemma number_not_snan s c : 0 <= c <= inf_code F -> is_snan F (with_sign F s c) = false.
Proof using HF. intros Hc. unfold is_snan, is_nan. rewrite code_with_sign by (done || by apply below_sign). case_bool; [lia|done]. Qed.

Lemma default_not_snan : is_snan F (default_nan F) = false.
Proof using HF.
  unfold is_snan, default_nan. pose proof (quiet_bit F HF). pose proof (inf_pos F HF) as Hi. pose proof (sign_split F HF) as Hs. destruct HF as [Hm He].
  assert (E : with_sign F true (inf_code F + 2 ^ (F.(mb) - 1)) = with_sign F true (inf_code F) .| 2 ^ (F.(mb) - 1)).
  { rewrite lor_add; [unfold with_sign; lia|]. unfold with_sign, sign_bit, inf_code. rewrite (Z.add_comm F.(mb)), Z.pow_add_r, <- Z.mul_add_distr_r by lia.
    apply Z.bits_inj'. intros i Hi'. rewrite Z.land_spec, Z.bits_0. destruct (Z.lt_ge_cases i F.(mb)); [by rewrite Z.mul_pow2_bits_low by lia|].
    rewrite Z.pow2_bits_false by lia. apply andb_false_r. }
  rewrite E, Z.lor_spec, Z.pow2_bits_true, orb_true_r by lia. apply andb_false_r.
Qed.

Lemma round_rat_not_snan mode s n d : 0 <= n -> 0 < d -> is_snan F (fst (round_rat F mode s n d)) = false.
Proof using HF.
  intros Hn Hd. unfold round_rat. destruct (tcode_rat F HF n d Hn Hd) as [Hc _]. cbv zeta.
  pose proof (round_code_range F HF mode s (tcode F (n / d)) (locate F n d (tcode F (n / d))) (d * (4 * 2 ^ F.(mb) - 1) <=? 4 * n) Hc) as [Hr _].
  destruct (round_code F mode s _ _ _) as [r fl]. by apply number_not_snan.
Qed.

End nan.
