(* ===== verification/FpuLib.v ===== *)
(** * Floating-point library (src/util/fpu_lib.h, fpu_lib.c)

    The library over the floating-point unit of the host, in the configuration of an x86-64
    build with a current GCC or Clang: SSE2 control of the environment, correct conversions,
    comparisons and [copysign] of the compiler, and fused multiplication in software.  The
    functions for [float] and [double] differ in the format only and are instances of one
    definition; functions that raise flags or depend on the rounding mode are computations
    in the monad [fpu] over the environment. *)
From S2P Require Import Prelude BitOps Ieee.

(** ** Environment *)

Record fenv := mk_fenv { fe_exc : Z; fe_rm : Z }.

Definition fpu (A : Type) : Type := fenv -> A * fenv.
Definition fret {A} (x : A) : fpu A := fun fe => (x, fe).
Definition fbind {A B} (c : fpu A) (k : A -> fpu B) : fpu B := fun fe => let '(x, fe) := c fe in k x fe.
Declare Scope fpu_scope.
Delimit Scope fpu_scope with fpu.
Notation "'do' x := c 'in' k" := (fbind c (fun x => k)) (at level 10, x pattern, c at level 100, k at level 200) : fpu_scope.
Notation "c ;; k" := (fbind c (fun _ => k)) (at level 100, k at level 200, right associativity) : fpu_scope.
Local Open Scope fpu_scope.

(** The status bits of MXCSR, and its rounding control. *)
Definition fpu_x86_sw_to_exceptions (sw : Z) : Z :=
  (if nz (sw .& 0x01) then FPU_LIB_FLAG_NV else 0) .| (if nz (sw .& 0x04) then FPU_LIB_FLAG_DZ else 0) .|
  (if nz (sw .& 0x08) then FPU_LIB_FLAG_OF else 0) .| (if nz (sw .& 0x10) then FPU_LIB_FLAG_UF else 0) .|
  (if nz (sw .& 0x20) then FPU_LIB_FLAG_NX else 0).

Definition fpu_exceptions_to_x86_sw (exceptions : Z) : Z :=
  (if nz (exceptions .& FPU_LIB_FLAG_NV) then 0x01 else 0) .| (if nz (exceptions .& FPU_LIB_FLAG_DZ) then 0x04 else 0) .|
  (if nz (exceptions .& FPU_LIB_FLAG_OF) then 0x08 else 0) .| (if nz (exceptions .& FPU_LIB_FLAG_UF) then 0x10 else 0) .|
  (if nz (exceptions .& FPU_LIB_FLAG_NX) then 0x20 else 0).

(** MXCSR afterwards, and the result. *)
Definition fpu_pump_exceptions_internal (sw set_exceptions clr_exceptions : Z) : Z * Z :=
  let nsw := (sw .& u32 (Z.lnot 0x8040)) .| 0x1F80 in
  let nsw := if nz set_exceptions then nsw .| fpu_exceptions_to_x86_sw set_exceptions else nsw in
  let nsw := if nz clr_exceptions then nsw .& u32 (Z.lnot (fpu_exceptions_to_x86_sw clr_exceptions)) else nsw in
  (if nsw =? sw then sw else nsw, fpu_x86_sw_to_exceptions sw).

Definition mxcsr_mode (cw : Z) : Z :=
  let rc := cw .& 0x6000 in
  if rc =? 0x2000 then FPU_LIB_ROUND_DN else if rc =? 0x4000 then FPU_LIB_ROUND_UP else if rc =? 0x6000 then FPU_LIB_ROUND_TZ else FPU_LIB_ROUND_NE.

Definition fpu_pump_rounding_mode_internal (cw mode : Z) : Z * Z :=
  let ncw := (cw .& u32 (Z.lnot 0x8040)) .| 0x1F80 in
  let cw' :=
    if mode <=? FPU_LIB_ROUND_MM then
      (ncw .& u32 (Z.lnot 0x6000)) .|
      (if mode =? FPU_LIB_ROUND_DN then 0x2000 else if mode =? FPU_LIB_ROUND_UP then 0x4000 else if mode =? FPU_LIB_ROUND_TZ then 0x6000 else 0)
    else cw in
  (cw', mxcsr_mode cw).

(** The same on the flags and the mode alone, which is what MXCSR stands for. *)
Definition host_mode (mode old : Z) : Z :=
  if mode <=? FPU_LIB_ROUND_MM then if mode =? FPU_LIB_ROUND_MM then FPU_LIB_ROUND_NE else mode else old.

Definition get_exceptions : fpu Z := fun fe => (fe.(fe_exc), fe).
Definition set_exceptions (new_exceptions : Z) : fpu () := fun fe => ((), mk_fenv (new_exceptions .& FPU_LIB_FLAGS_ALL) fe.(fe_rm)).
Definition raise_exceptions (exceptions : Z) : fpu () := fun fe => ((), mk_fenv (fe.(fe_exc) .| (exceptions .& FPU_LIB_FLAGS_ALL)) fe.(fe_rm)).
Definition get_rounding_mode : fpu Z := fun fe => (fe.(fe_rm), fe).
Definition set_rounding_mode (mode : Z) : fpu () := fun fe => ((), mk_fenv fe.(fe_exc) (host_mode mode fe.(fe_rm))).

Definition fpu_raise_invalid : fpu () := raise_exceptions FPU_LIB_FLAG_NV.
Definition fpu_raise_inexact : fpu () := raise_exceptions FPU_LIB_FLAG_NX.

(** An operation of the host, which adds its flags to the environment. *)
Definition host_op {A} (op : Z -> A * Z) : fpu A := fun fe => let '(r, fl) := op fe.(fe_rm) in (r, mk_fenv (fe.(fe_exc) .| fl) fe.(fe_rm)).

(** ** Tests on patterns *)

Definition FPU_LIB_FP32_CANONICAL_NAN : Z := 0x7FC00000.
Definition FPU_LIB_FP64_CANONICAL_NAN : Z := 0x7FF8000000000000.

Section Pattern.
Context (F : fmt).

Local Abbreviation w := (1 + F.(eb) + F.(mb)).
Local Abbreviation shl1 u := (wrap (1 + F.(eb) + F.(mb)) (u .<< 1)).

Definition canonical_nan : Z := inf_code F + 2 ^ (F.(mb) - 1).

Definition fpu_is_finite (f : Z) : bool := shl1 f <? shl1 (inf_code F).
Definition fpu_is_positive (f : Z) : bool := f <=? inf_code F.
Definition fpu_is_negative (f : Z) : bool := signed w f <=? signed w (sign_bit F + inf_code F).
Definition fpu_is_nan_soft (f : Z) : bool := shl1 (inf_code F) <? shl1 f.
Definition fpu_is_snan_soft (f : Z) : bool := wrap w (shl1 f - (shl1 (inf_code F) + 1)) <? shl1 (2 ^ (F.(mb) - 1)) - 1.
Definition fpu_is_zero_soft (f : Z) : bool := negb (nz (f .& (sign_bit F - 1))).
Definition fpu_is_inf_soft (f : Z) : bool := (f .& (sign_bit F - 1)) =? inf_code F.

Definition fpu_fma_invalid_soft (a b c : Z) : bool :=
  let inf_zero := (fpu_is_inf_soft a && fpu_is_zero_soft b) || (fpu_is_inf_soft b && fpu_is_zero_soft a) in
  let product_inf := (fpu_is_inf_soft a && negb (fpu_is_zero_soft b) && negb (fpu_is_nan_soft b)) ||
                     (fpu_is_inf_soft b && negb (fpu_is_zero_soft a) && negb (fpu_is_nan_soft a)) in
  let opposite_inf_add := product_inf && fpu_is_inf_soft c && nz ((a .^ b .^ c) .& sign_bit F) in
  fpu_is_snan_soft a || fpu_is_snan_soft b || fpu_is_snan_soft c || inf_zero || opposite_inf_add.

Definition fpu_exponent (f : Z) : Z := ((f .>> F.(mb)) .& (2 ^ F.(eb) - 1)) - bias F.

Definition fpu_is_fractional (f : Z) : bool :=
  if nz (shl1 f) then
    let e := fpu_exponent f in
    if e <? 0 then true else if e <? F.(mb) then nz (f .& ((2 ^ F.(mb) - 1) .>> e)) else false
  else false.

(** ** Arithmetic *)

Definition fpu_is_nan (f : Z) : fpu bool := host_op (fun _ => (negb (feq F f f), nan_flags F f f)).

Definition fpu_neg (f : Z) : Z := fneg F f.
Definition copysign (a b : Z) : Z := with_sign F (sgn F b) (code F a).
Definition fpu_fsgnj (a b : Z) : Z := copysign a b.
Definition fpu_fsgnj_portable (a b : Z) : Z := a .^ ((a .^ b) .& sign_bit F).
Definition fpu_fsgnjn (a b : Z) : Z := copysign a (fpu_neg b).
Definition fpu_fsgnjn_portable (a b : Z) : Z := a .^ (wrap w (Z.lnot (a .^ b)) .& sign_bit F).
Definition fpu_fsgnjx (a b : Z) : Z := a .^ (b .& sign_bit F).

Definition fpu_add (a b : Z) : fpu Z := host_op (fun m => fadd F m a b).
Definition fpu_sub (a b : Z) : fpu Z := host_op (fun m => fsub F m a b).
Definition fpu_mul (a b : Z) : fpu Z := host_op (fun m => fmul F m a b).
Definition fpu_div (a b : Z) : fpu Z := host_op (fun m => fdiv F m a b).

(** The error of a sum and of a product; [mask] cuts a factor in two. *)
Definition fpu_add_error (sum a b : Z) : fpu Z :=
  do i := fpu_sub sum a in do x := fpu_sub b i in do y := fpu_sub sum i in do z := fpu_sub a y in fpu_add x z.

Definition fpu_mul_error (mask mul a b : Z) : fpu Z :=
  let ha := a .& wrap w (Z.lnot mask) in
  let hb := b .& wrap w (Z.lnot mask) in
  do la := fpu_sub a ha in
  do lb := fpu_sub b hb in
  do p := fpu_mul ha hb in do p := fpu_sub p mul in
  do q := fpu_mul ha lb in do p := fpu_add p q in
  do q := fpu_mul la hb in do p := fpu_add p q in
  do q := fpu_mul la lb in fpu_add p q.

Definition fpu_odd_round (val err : Z) : Z :=
  if nz err && negb (nz (val .& 1)) then if nz (err .>> (w - 1)) then wrap w (val - 1) else wrap w (val + 1) else val.

(** What follows the computation of a fused product: the invalid flag is decided separately. *)
Definition fma_flags (invalid : bool) (old_exceptions : Z) : fpu () :=
  do exceptions := get_exceptions in
  if invalid then fpu_raise_invalid
  else if nz (exceptions .& u32 (Z.lnot old_exceptions) .& FPU_LIB_FLAG_NV)
  then set_exceptions ((exceptions .& u32 (Z.lnot FPU_LIB_FLAG_NV)) .| (old_exceptions .& FPU_LIB_FLAG_NV))
  else fret ().

Definition fpu_sqrt (f : Z) : fpu Z :=
  if fpu_is_positive f then host_op (fun m => fsqrt F m f)
  else if fpu_is_negative f && nz (shl1 f) then fpu_raise_invalid ;; fret canonical_nan
  else fret f.

Definition fpu_of_int (i : Z) : fpu Z := host_op (fun m => of_int F m i).
Definition fpu_to_int (f : Z) : fpu Z := host_op (fun _ => to_int F f).

(** ** Comparisons *)

Definition fpu_is_flt_sig (a b : Z) : fpu bool := host_op (fun _ => (flt F a b, sig_flags F a b)).
Definition fpu_is_fle_sig (a b : Z) : fpu bool := host_op (fun _ => (fle F a b, sig_flags F a b)).
Definition fpu_is_equal_quiet (a b : Z) : fpu bool := host_op (fun _ => (feq F a b, nan_flags F a b)).
Definition fpu_is_flt_quiet (a b : Z) : fpu bool := host_op (fun _ => (flt F a b, nan_flags F a b)).
Definition fpu_is_fle_quiet (a b : Z) : fpu bool := host_op (fun _ => (fle F a b, nan_flags F a b)).

Definition fpu_min (a b : Z) : fpu Z :=
  do ab := fpu_is_flt_quiet a b in
  if ab : bool then fret a else
  do ba := fpu_is_flt_quiet b a in
  if ba : bool then fret b
  else if fpu_is_negative b then fret b else
  do na := fpu_is_nan a in
  if negb na then fret a else
  do nb := fpu_is_nan b in
  if negb nb then fret b else fret canonical_nan.

Definition fpu_max (a b : Z) : fpu Z :=
  do ab := fpu_is_flt_quiet a b in
  if ab : bool then fret b else
  do ba := fpu_is_flt_quiet b a in
  if ba : bool then fret a
  else if fpu_is_positive b then fret b else
  do na := fpu_is_nan a in
  if negb na then fret a else
  do nb := fpu_is_nan b in
  if negb nb then fret b else fret canonical_nan.

(** ** Classification *)

Definition FPU_CLASS_POS_ZERO : Z := 0x04.
Definition FPU_CLASS_POS_SUBNORMAL : Z := 0x05.
Definition FPU_CLASS_POS_NORMAL : Z := 0x06.
Definition FPU_CLASS_POS_INF : Z := 0x07.
Definition FPU_CLASS_NAN_SIG : Z := 0x08.
Definition FPU_CLASS_NAN_QUIET : Z := 0x09.

Definition fpu_fclass (s : Z) : Z :=
  let u := shl1 s in
  let exp := u .>> (F.(mb) + 1) in
  let sign ret := if nz (s .>> (w - 1)) then ret .^ FPU_CLASS_POS_INF else ret in
  if negb (nz u) then sign FPU_CLASS_POS_ZERO
  else if negb (nz exp) then sign FPU_CLASS_POS_SUBNORMAL
  else if exp <? 2 ^ F.(eb) - 1 then sign FPU_CLASS_POS_NORMAL
  else if negb (nz (wrap w (s .<< (F.(eb) + 1)))) then sign FPU_CLASS_POS_INF
  else if nz (s .& 2 ^ (F.(mb) - 1)) then FPU_CLASS_NAN_QUIET else FPU_CLASS_NAN_SIG.

(** ** Rounding to integers *)

(** Afterwards only to be converted to an integer. *)
Definition fpu_round_internal (f mode : Z) : fpu Z :=
  if negb (fpu_is_fractional f) then fret f
  else
    do exc := get_exceptions in
    let s := f .& sign_bit F in
    do rm := get_rounding_mode in
    let mode := if FPU_LIB_ROUND_UP <? mode then rm else mode in
    do r := (if (mode =? FPU_LIB_ROUND_NE) || (mode =? FPU_LIB_ROUND_MM) then fpu_add f (((bias F - 1) .<< F.(mb)) .| s)
             else if mode =? FPU_LIB_ROUND_DN then if nz s then fpu_sub f (bias F .<< F.(mb)) else fret f
             else if mode =? FPU_LIB_ROUND_UP then if negb (nz s) then fpu_add f (bias F .<< F.(mb)) else fret f
             else fret f) in
    set_exceptions exc ;; fret r.

(** [to] converts to the integer type, [back] from it. *)
Definition fpu_round_to (to back : Z -> fpu Z) (f mode : Z) : fpu Z :=
  if fpu_is_zero_soft f then fret 0
  else
    do rounded := (if negb (mode =? FPU_LIB_ROUND_TZ) then fpu_round_internal f mode else fret f) in
    do ret := to rounded in
    do e := get_exceptions in
    (if negb (nz (e .& FPU_LIB_FLAG_NV)) then do b := back ret in if negb (f =? b) then fpu_raise_inexact else fret () else fret ()) ;;
    fret ret.

(** Conversion of a number that fits; a number that does not saturates. *)
Definition fpu_fcvt_to (fits : Z -> bool) (ty : Z -> Z) (low high : Z) (f : Z) : fpu Z :=
  if fits f then do i := fpu_to_int f in fret (ty i)
  else fpu_raise_invalid ;; fret (if fpu_is_negative f then low else high).

(** The same with a check for an inexact conversion. *)
Definition fpu_fcvt_to_checked (fits : Z -> bool) (ty : Z -> Z) (low high : Z) (f : Z) : fpu Z :=
  if fits f then
    do i := fpu_to_int f in
    let ret := ty i in
    (if fpu_is_zero_soft f then fret () else do b := fpu_of_int ret in if negb (f =? b) then fpu_raise_inexact else fret ()) ;;
    fret ret
  else fpu_raise_invalid ;; fret (if fpu_is_negative f then low else high).

End Pattern.

(** ** The functions of both formats *)

Definition fpu_nan_unbox_f32 (d : Z) : Z := if 0xFFFFFFFF00000000 <=? d then u32 d else FPU_LIB_FP32_CANONICAL_NAN.

Definition fpu_is_finite32 := fpu_is_finite F32.
Definition fpu_is_finite64 := fpu_is_finite F64.
Definition fpu_is_positive32 := fpu_is_positive F32.
Definition fpu_is_positive64 := fpu_is_positive F64.
Definition fpu_is_negative32 := fpu_is_negative F32.
Definition fpu_is_negative64 := fpu_is_negative F64.
Definition fpu_is_nan32_soft := fpu_is_nan_soft F32.
Definition fpu_is_nan64_soft := fpu_is_nan_soft F64.
Definition fpu_is_snan32_soft := fpu_is_snan_soft F32.
Definition fpu_is_snan64_soft := fpu_is_snan_soft F64.
Definition fpu_is_zero32_soft := fpu_is_zero_soft F32.
Definition fpu_is_zero64_soft := fpu_is_zero_soft F64.
Definition fpu_is_inf32_soft := fpu_is_inf_soft F32.
Definition fpu_is_inf64_soft := fpu_is_inf_soft F64.
Definition fpu_fma32_invalid_soft := fpu_fma_invalid_soft F32.
Definition fpu_fma64_invalid_soft := fpu_fma_invalid_soft F64.
Definition fpu_exponent32 := fpu_exponent F32.
Definition fpu_exponent64 := fpu_exponent F64.
Definition fpu_is_fractional32 := fpu_is_fractional F32.
Definition fpu_is_fractional64 := fpu_is_fractional F64.
Definition fpu_add_error32 := fpu_add_error F32.
Definition fpu_add_error64 := fpu_add_error F64.
Definition fpu_mul_error32 := fpu_mul_error F32 0x7FF.
Definition fpu_mul_error64 := fpu_mul_error F64 0x7FFFFFF.
Definition fpu_odd_round32 := fpu_odd_round F32.
Definition fpu_odd_round64 := fpu_odd_round F64.
Definition fpu_is_nan32 := fpu_is_nan F32.
Definition fpu_is_nan64 := fpu_is_nan F64.
Definition fpu_neg32 := fpu_neg F32.
Definition fpu_neg64 := fpu_neg F64.
Definition fpu_fsgnj32 := fpu_fsgnj F32.
Definition fpu_fsgnj64 := fpu_fsgnj F64.
Definition fpu_fsgnjn32 := fpu_fsgnjn F32.
Definition fpu_fsgnjn64 := fpu_fsgnjn F64.
Definition fpu_fsgnjx32 := fpu_fsgnjx F32.
Definition fpu_fsgnjx64 := fpu_fsgnjx F64.
Definition fpu_add32 := fpu_add F32.
Definition fpu_add64 := fpu_add F64.
Definition fpu_sub32 := fpu_sub F32.
Definition fpu_sub64 := fpu_sub F64.
Definition fpu_mul32 := fpu_mul F32.
Definition fpu_mul64 := fpu_mul F64.
Definition fpu_div32 := fpu_div F32.
Definition fpu_div64 := fpu_div F64.
Definition fpu_sqrt32 := fpu_sqrt F32.
Definition fpu_sqrt64 := fpu_sqrt F64.
Definition fpu_is_flt32_sig := fpu_is_flt_sig F32.
Definition fpu_is_flt64_sig := fpu_is_flt_sig F64.
Definition fpu_is_fle32_sig := fpu_is_fle_sig F32.
Definition fpu_is_fle64_sig := fpu_is_fle_sig F64.
Definition fpu_is_equal32_quiet := fpu_is_equal_quiet F32.
Definition fpu_is_equal64_quiet := fpu_is_equal_quiet F64.
Definition fpu_is_flt32_quiet := fpu_is_flt_quiet F32.
Definition fpu_is_flt64_quiet := fpu_is_flt_quiet F64.
Definition fpu_is_fle32_quiet := fpu_is_fle_quiet F32.
Definition fpu_is_fle64_quiet := fpu_is_fle_quiet F64.
Definition fpu_min32 := fpu_min F32.
Definition fpu_min64 := fpu_min F64.
Definition fpu_max32 := fpu_max F32.
Definition fpu_max64 := fpu_max F64.
Definition fpu_fclass32 := fpu_fclass F32.
Definition fpu_fclass64 := fpu_fclass F64.
Definition fpu_round_f32_internal := fpu_round_internal F32.
Definition fpu_round_f64_internal := fpu_round_internal F64.

Definition fpu_fcvt_f32_to_f64 (f : Z) : fpu Z := host_op (fun m => convert F32 F64 m f).
Definition fpu_fcvt_f64_to_f32 (d : Z) : fpu Z := host_op (fun m => convert F64 F32 m d).

Definition fpu_fma32 (a b c : Z) : fpu Z :=
  do old_exceptions := get_exceptions in
  let invalid := fpu_fma32_invalid_soft a b c in
  do a' := fpu_fcvt_f32_to_f64 a in
  do b' := fpu_fcvt_f32_to_f64 b in
  do mul := fpu_mul64 a' b' in
  do add := fpu_fcvt_f32_to_f64 c in
  do sum := fpu_add64 mul add in
  do err := fpu_add_error64 sum mul add in
  do ret := fpu_fcvt_f64_to_f32 (fpu_odd_round64 sum err) in
  fma_flags invalid old_exceptions ;; fret ret.

Definition fpu_fma64 (a b c : Z) : fpu Z :=
  do old_exceptions := get_exceptions in
  let invalid := fpu_fma64_invalid_soft a b c in
  do mul := fpu_mul64 a b in
  do e_m := fpu_mul_error64 mul a b in
  do sum := fpu_add64 mul c in
  do e_s := fpu_add_error64 sum mul c in
  do e_f := fpu_add64 e_m e_s in
  do e := fpu_add_error64 e_f e_s e_m in
  do ret := fpu_add64 sum (fpu_odd_round64 e_f e) in
  fma_flags invalid old_exceptions ;; fret ret.

(** Integers are converted as the type they have. *)
Definition fpu_fcvt_u32_to_f32 (u : Z) : fpu Z := fpu_of_int F32 u.
Definition fpu_fcvt_u32_to_f64 (u : Z) : fpu Z := fpu_of_int F64 u.
Definition fpu_fcvt_i32_to_f32 (i : Z) : fpu Z := fpu_of_int F32 i.
Definition fpu_fcvt_i32_to_f64 (i : Z) : fpu Z := fpu_of_int F64 i.
Definition fpu_fcvt_u64_to_f32 (u : Z) : fpu Z := fpu_of_int F32 u.
Definition fpu_fcvt_u64_to_f64 (u : Z) : fpu Z := fpu_of_int F64 u.
Definition fpu_fcvt_i64_to_f32 (i : Z) : fpu Z := fpu_of_int F32 i.
Definition fpu_fcvt_i64_to_f64 (i : Z) : fpu Z := fpu_of_int F64 i.

(** The exponent loop counts the shifts until nothing is left. *)
Fixpoint count_shifts (fuel : nat) (tmp exp : Z) : Z :=
  match fuel with
  | O => exp
  | S fuel => let tmp := tmp .>> 1 in if nz tmp then count_shifts fuel tmp (exp + 1) else exp
  end.

(** Whether the magnitude is incremented. *)
Definition round_increment (rm : Z) (sign : bool) (sig rem half : Z) : bool :=
  if rm =? FPU_LIB_ROUND_NE then (half <? rem) || ((rem =? half) && nz (sig .& 1))
  else if rm =? FPU_LIB_ROUND_TZ then false
  else if rm =? FPU_LIB_ROUND_DN then sign && nz rem
  else if rm =? FPU_LIB_ROUND_UP then negb sign && nz rem
  else if rm =? FPU_LIB_ROUND_MM then half <=? rem
  else false.

Definition fpu_round_i64_to_f64 (i rm : Z) : fpu Z :=
  let sign := i <? 0 in
  let mag := if sign then u64 (0 - u64 i) else u64 i in
  if mag =? 0 then fret 0
  else
    do host_rm := get_rounding_mode in
    let rm := if FPU_LIB_ROUND_MM <? rm then host_rm else rm in
    let exp := count_shifts 64 mag 0 in
    do res := (if exp <=? 52 then fret (exp, mag .<< (52 - exp))
               else
                 let shift := exp - 52 in
                 let rem := mag .& ((1 .<< shift) - 1) in
                 let half := 1 .<< (shift - 1) in
                 let sig := mag .>> shift in
                 (if nz rem then fpu_raise_inexact else fret ()) ;;
                 fret (if round_increment rm sign sig rem half then
                         let sig := sig + 1 in if sig =? 1 .<< 53 then (exp + 1, sig .>> 1) else (exp, sig)
                       else (exp, sig))) in
    let '(exp, sig) := res in
    fret ((if sign then sign_bit F64 else 0) .| ((exp + 0x3FF) .<< 52) .| (sig .& (2 ^ 52 - 1))).

Definition fpu_f32_fits_u32 (f : Z) : bool := (f <? 0x4F800000) || (s32 f <? s32 0xBF800000).
Definition fpu_f64_fits_u32 (d : Z) : bool := (d <? 0x41F0000000000000) || (s64 d <? s64 0xBFF0000000000000).
Definition fpu_f32_fits_i32 (f : Z) : bool := u32 (f .<< 1) <? 0x9E000000.
Definition fpu_f64_fits_i32 (d : Z) : bool := u64 (d .<< 1) <? 0x83C0000000000000.
Definition fpu_f32_fits_u64 (f : Z) : bool := (f <? 0x5F800000) || (s32 f <? s32 0xBF800000).
Definition fpu_f64_fits_u64 (d : Z) : bool := (d <? 0x43F0000000000000) || (s64 d <? s64 0xBFF0000000000000).
Definition fpu_f32_fits_i64 (f : Z) : bool := u32 (f .<< 1) <? 0xBE000000.
Definition fpu_f64_fits_i64 (d : Z) : bool := u64 (d .<< 1) <? 0x87C0000000000000.

Definition fpu_fcvt_f32_to_u32 := fpu_fcvt_to F32 fpu_f32_fits_u32 u32 0 0xFFFFFFFF.
Definition fpu_fcvt_f64_to_u32 := fpu_fcvt_to F64 fpu_f64_fits_u32 u32 0 0xFFFFFFFF.
Definition fpu_fcvt_f32_to_i32 := fpu_fcvt_to F32 fpu_f32_fits_i32 s32 (- 0x80000000) 0x7FFFFFFF.
Definition fpu_fcvt_f64_to_i32 := fpu_fcvt_to F64 fpu_f64_fits_i32 s32 (- 0x80000000) 0x7FFFFFFF.
Definition fpu_fcvt_f32_to_u64 := fpu_fcvt_to F32 fpu_f32_fits_u64 u64 0 0xFFFFFFFFFFFFFFFF.
Definition fpu_fcvt_f64_to_u64 := fpu_fcvt_to F64 fpu_f64_fits_u64 u64 0 0xFFFFFFFFFFFFFFFF.
Definition fpu_fcvt_f32_to_i64 := fpu_fcvt_to_checked F32 fpu_f32_fits_i64 s64 (- 0x8000000000000000) 0x7FFFFFFFFFFFFFFF.
Definition fpu_fcvt_f64_to_i64 := fpu_fcvt_to_checked F64 fpu_f64_fits_i64 s64 (- 0x8000000000000000) 0x7FFFFFFFFFFFFFFF.

Definition fpu_round_f32_to_u32 := fpu_round_to F32 fpu_fcvt_f32_to_u32 fpu_fcvt_u32_to_f32.
Definition fpu_round_f64_to_u32 := fpu_round_to F64 fpu_fcvt_f64_to_u32 fpu_fcvt_u32_to_f64.
Definition fpu_round_f32_to_i32 := fpu_round_to F32 fpu_fcvt_f32_to_i32 fpu_fcvt_i32_to_f32.
Definition fpu_round_f64_to_i32 := fpu_round_to F64 fpu_fcvt_f64_to_i32 fpu_fcvt_i32_to_f64.
Definition fpu_round_f32_to_u64 := fpu_round_to F32 fpu_fcvt_f32_to_u64 fpu_fcvt_u64_to_f32.
Definition fpu_round_f64_to_u64 := fpu_round_to F64 fpu_fcvt_f64_to_u64 fpu_fcvt_u64_to_f64.
Definition fpu_round_f32_to_i64 := fpu_round_to F32 fpu_fcvt_f32_to_i64 fpu_fcvt_i64_to_f32.
Definition fpu_round_f64_to_i64 := fpu_round_to F64 fpu_fcvt_f64_to_i64 fpu_fcvt_i64_to_f64.

(** ** Computations keep the environment well formed

    [fok c P]: from flags of five bits, [c] returns a value with [P] and leaves such flags. *)

Definition pat (F : fmt) : Z -> Prop := urange (1 + F.(eb) + F.(mb)).

Definition fok {A} (c : fpu A) (P : A -> Prop) : Prop :=
  forall fe, urange 5 fe.(fe_exc) -> P (fst (c fe)) /\ urange 5 (snd (c fe)).(fe_exc).

Lemma fok_ret {A} (x : A) (P : A -> Prop) : P x -> fok (fret x) P.
Proof. by intros H fe Hf. Qed.

Lemma fok_bind {A B} (c : fpu A) (k : A -> fpu B) (P : A -> Prop) (Q : B -> Prop) :
  fok c P -> (forall x, P x -> fok (k x) Q) -> fok (fbind c k) Q.
Proof. intros Hc Hk fe Hf. unfold fbind. destruct (Hc fe Hf) as [HP He]. destruct (c fe) as [x fe']. by apply Hk. Qed.

Lemma fok_host {A} (op : Z -> A * Z) (P : A -> Prop) : (forall m, P (fst (op m)) /\ urange 5 (snd (op m))) -> fok (host_op op) P.
Proof. intros H fe Hf. unfold host_op. destruct (H fe.(fe_rm)) as [HP He]. destruct (op fe.(fe_rm)) as [r fl]. split; [done|]. by apply urange_lor. Qed.

Lemma fok_weaken {A} (c : fpu A) (P Q : A -> Prop) : fok c P -> (forall x, P x -> Q x) -> fok c Q.
Proof. intros H HPQ fe Hf. destruct (H fe Hf). auto. Qed.

Lemma flags_mask e : urange 5 (e .& FPU_LIB_FLAGS_ALL).
Proof. apply urange_land_r; [lia|by vm_compute]. Qed.

Lemma fok_get_exceptions : fok get_exceptions (urange 5).
Proof. by intros fe Hf. Qed.
Lemma fok_set_exceptions e : fok (set_exceptions e) (fun _ => True).
Proof. intros fe Hf. split; [done|]. apply flags_mask. Qed.
Lemma fok_raise e : fok (raise_exceptions e) (fun _ => True).
Proof. intros fe Hf. split; [done|]. simpl. apply urange_lor; [lia|done|apply flags_mask]. Qed.
Lemma fok_get_rounding_mode : fok get_rounding_mode (fun _ => True).
Proof. by intros fe Hf. Qed.
Lemma fok_set_rounding_mode m : fok (set_rounding_mode m) (fun _ => True).
Proof. by intros fe Hf. Qed.

#[export] Hint Resolve fok_get_exceptions fok_set_exceptions fok_raise fok_get_rounding_mode fok_set_rounding_mode : fp.

(** Goes through a computation: every step has its lemma in the database. *)
Ltac fok_lit := solve [split; vm_compute; [discriminate|reflexivity]].
Ltac fok_step :=
  lazymatch goal with
  | |- fok (fbind _ _) _ => eapply fok_bind; [|intros]
  | |- fok (fret _) _ => apply fok_ret
  | |- fok (if ?b then _ else _) _ => destruct b
  | |- fok (let '(_, _) := ?p in _) _ => destruct p
  | |- fok _ _ => eauto with fp
  end.

Section fok.
Context (F : fmt) (HF : fmt_ok F).

Lemma fok_add a b : pat F a -> pat F b -> fok (fpu_add F a b) (pat F).
Proof using HF. intros. apply fok_host. intros m. by apply fadd_ok. Qed.
Lemma fok_sub a b : pat F a -> pat F b -> fok (fpu_sub F a b) (pat F).
Proof using HF. intros. apply fok_host. intros m. by apply fsub_ok. Qed.
Lemma fok_mul a b : pat F a -> pat F b -> fok (fpu_mul F a b) (pat F).
Proof using HF. intros. apply fok_host. intros m. by apply fmul_ok. Qed.
Lemma fok_div a b : pat F a -> pat F b -> fok (fpu_div F a b) (pat F).
Proof using HF. intros. apply fok_host. intros m. by apply fdiv_ok. Qed.
Lemma fok_of_int i : fok (fpu_of_int F i) (pat F).
Proof using HF. intros. apply fok_host. intros m. by apply of_int_ok. Qed.
Lemma fok_to_int f : fok (fpu_to_int F f) (fun _ => True).
Proof. intros. apply fok_host. intros m. split; [done|]. simpl. apply flags_range; by vm_compute. Qed.
Lemma fok_is_nan f : fok (fpu_is_nan F f) (fun _ => True).
Proof. intros. apply fok_host. intros m. split; [done|]. apply nan_flags_range. Qed.

Lemma sig_flags_range a b : urange 5 (sig_flags F a b).
Proof. apply flags_range; by vm_compute. Qed.

Lemma fok_flt_sig a b : fok (fpu_is_flt_sig F a b) (fun _ => True).
Proof. apply fok_host. intros m. split; [done|]. apply sig_flags_range. Qed.
Lemma fok_fle_sig a b : fok (fpu_is_fle_sig F a b) (fun _ => True).
Proof. apply fok_host. intros m. split; [done|]. apply sig_flags_range. Qed.
Lemma fok_equal_quiet a b : fok (fpu_is_equal_quiet F a b) (fun _ => True).
Proof. apply fok_host. intros m. split; [done|]. apply nan_flags_range. Qed.
Lemma fok_flt_quiet a b : fok (fpu_is_flt_quiet F a b) (fun _ => True).
Proof. apply fok_host. intros m. split; [done|]. apply nan_flags_range. Qed.
Lemma fok_fle_quiet a b : fok (fpu_is_fle_quiet F a b) (fun _ => True).
Proof. apply fok_host. intros m. split; [done|]. apply nan_flags_range. Qed.

Lemma canonical_pat : pat F (canonical_nan F).
Proof using HF.
  unfold pat, canonical_nan. pose proof (quiet_bit F HF). pose proof (inf_pos F HF). pose proof (sign_split F HF).
  unfold urange. rewrite (sign_double F HF). lia.
Qed.

End fok.

#[export] Hint Resolve fok_add fok_sub fok_mul fok_div fok_of_int fok_to_int fok_is_nan fok_flt_sig fok_fle_sig fok_equal_quiet fok_flt_quiet
  fok_fle_quiet canonical_pat : fp.

Section fok_more.
Context (F : fmt) (HF : fmt_ok F).

Lemma fok_add_error s a b : pat F s -> pat F a -> pat F b -> fok (fpu_add_error F s a b) (pat F).
Proof using HF. intros. unfold fpu_add_error. repeat fok_step. Qed.

Lemma width_nonneg : 0 <= 1 + F.(eb) + F.(mb).
Proof using HF. destruct HF. lia. Qed.

Lemma pat_wrap x : pat F (wrap (1 + F.(eb) + F.(mb)) x).
Proof using HF. apply wrap_range, width_nonneg. Qed.

Lemma pat_mask a m : pat F a -> pat F (a .& m).
Proof using HF. intros. apply urange_land_l; [apply width_nonneg|done]. Qed.

Lemma fok_mul_error m p a b : pat F p -> pat F a -> pat F b -> fok (fpu_mul_error F m p a b) (pat F).
Proof using HF.
  intros Hp Ha Hb. unfold fpu_mul_error. pose proof (pat_mask a (wrap (1 + F.(eb) + F.(mb)) (Z.lnot m)) Ha).
  pose proof (pat_mask b (wrap (1 + F.(eb) + F.(mb)) (Z.lnot m)) Hb). repeat fok_step.
Qed.

Lemma odd_round_pat v e : pat F v -> pat F (fpu_odd_round F v e).
Proof using HF. intros. unfold fpu_odd_round. repeat case_match; auto using pat_wrap. Qed.

Lemma fok_fma_flags i e : fok (fma_flags i e) (fun _ => True).
Proof. unfold fma_flags. repeat fok_step. done. Qed.

Lemma fneg_pat f : pat F f -> pat F (fpu_neg F f).
Proof using HF. by apply fneg_range. Qed.

Lemma fok_sqrt f : pat F f -> fok (fpu_sqrt F f) (pat F).
Proof using HF.
  intros. unfold fpu_sqrt. repeat fok_step; auto with fp. apply fok_host. intros m. by apply fsqrt_ok.
Qed.

Lemma fok_min a b : pat F a -> pat F b -> fok (fpu_min F a b) (pat F).
Proof using HF. intros. unfold fpu_min. repeat fok_step; auto with fp. Qed.
Lemma fok_max a b : pat F a -> pat F b -> fok (fpu_max F a b) (pat F).
Proof using HF. intros. unfold fpu_max. repeat fok_step; auto with fp. Qed.

Lemma one_half_pat s : pat F s -> pat F (((bias F - 1) .<< F.(mb)) .| s) /\ pat F (bias F .<< F.(mb)).
Proof using HF.
  intros Hs. pose proof width_nonneg. destruct HF as [H1 H2]. assert (Hb : 0 < bias F < 2 ^ F.(eb)).
  { unfold bias. pose proof (Z.pow_le_mono_r 2 1 (F.(eb) - 1)). pose proof (Z.pow_lt_mono_r 2 (F.(eb) - 1) F.(eb)). lia. }
  assert (Hsh : forall x, 0 <= x < 2 ^ F.(eb) -> pat F (x .<< F.(mb))).
  { intros x Hx. unfold pat, urange. rewrite Z.shiftl_mul_pow2, (sign_double F HF) by lia. unfold sign_bit.
    rewrite Z.pow_add_r by lia. pose proof (Z.pow_pos_nonneg 2 F.(mb)). nia. }
  split; [|apply Hsh; lia]. apply urange_lor; [done| |done]. apply Hsh. lia.
Qed.

Lemma fok_round_internal f mode : pat F f -> fok (fpu_round_internal F f mode) (pat F).
Proof using HF.
  intros Hf. unfold fpu_round_internal. destruct (one_half_pat (f .& sign_bit F)) as [Hh Ho]; [by apply pat_mask|].
  repeat fok_step; auto with fp.
Qed.

Lemma fok_round_to to back f mode (P : Z -> Prop) : pat F f -> P 0 -> (forall x, pat F x -> fok (to x) P) -> (forall x, P x -> fok (back x) (pat F)) ->
  fok (fpu_round_to F to back f mode) P.
Proof using HF.
  intros Hf H0 Hto Hback. unfold fpu_round_to. destruct (fpu_is_zero_soft F f); [by apply fok_ret|].
  eapply fok_bind with (P := pat F); [destruct (negb _); [by apply fok_round_internal|by apply fok_ret]|]. intros r Hr.
  eapply fok_bind; [by apply Hto|]. intros i Hi. repeat fok_step; done.
Qed.

Lemma fok_fcvt_to fits ty low high f (P : Z -> Prop) : (forall x, P (ty x)) -> P low -> P high -> fok (fpu_fcvt_to F fits ty low high f) P.
Proof using HF. intros. unfold fpu_fcvt_to. repeat fok_step; auto. by case_match. Qed.
Lemma fok_fcvt_to_checked fits ty low high f (P : Z -> Prop) : (forall x, P (ty x)) -> P low -> P high -> fok (fpu_fcvt_to_checked F fits ty low high f) P.
Proof using HF. intros. unfold fpu_fcvt_to_checked. repeat fok_step; auto. by case_match. Qed.

End fok_more.

#[export] Hint Resolve fok_add_error fok_mul_error odd_round_pat fok_fma_flags fneg_pat fok_sqrt fok_min fok_max fok_round_internal : fp.

Lemma fok_f32_to_f64 f : pat F32 f -> fok (fpu_fcvt_f32_to_f64 f) (pat F64).
Proof. intros. apply fok_host. intros m. apply (convert_ok F64 F64_ok F32); [apply F32_ok|done]. Qed.
Lemma fok_f64_to_f32 d : pat F64 d -> fok (fpu_fcvt_f64_to_f32 d) (pat F32).
Proof. intros. apply fok_host. intros m. apply (convert_ok F32 F32_ok F64); [apply F64_ok|done]. Qed.
#[export] Hint Resolve fok_f32_to_f64 fok_f64_to_f32 : fp.

#[export] Hint Unfold fpu_add32 fpu_add64 fpu_sub32 fpu_sub64 fpu_mul32 fpu_mul64 fpu_div32 fpu_div64 fpu_add_error32 fpu_add_error64
  fpu_mul_error32 fpu_mul_error64 fpu_odd_round32 fpu_odd_round64 fpu_neg32 fpu_neg64 fpu_sqrt32 fpu_sqrt64 fpu_min32 fpu_min64 fpu_max32 fpu_max64 : fp.

Lemma fok_fma32 a b c : pat F32 a -> pat F32 b -> pat F32 c -> fok (fpu_fma32 a b c) (pat F32).
Proof.
  intros. unfold fpu_fma32, fpu_mul64, fpu_add64, fpu_add_error64, fpu_odd_round64. repeat fok_step; auto with fp.
Qed.
Lemma fok_fma64 a b c : pat F64 a -> pat F64 b -> pat F64 c -> fok (fpu_fma64 a b c) (pat F64).
Proof.
  intros. unfold fpu_fma64, fpu_mul64, fpu_add64, fpu_mul_error64, fpu_add_error64, fpu_odd_round64. repeat fok_step; auto with fp.
Qed.
#[export] Hint Resolve fok_fma32 fok_fma64 : fp.

Lemma count_shifts_log2 fuel : forall tmp exp, 0 < tmp < 2 ^ Z.of_nat fuel -> count_shifts fuel tmp exp = exp + Z.log2 tmp.
Proof.
  induction fuel as [|fuel IH]; intros tmp exp Ht; [simpl in Ht; lia|]. cbn [count_shifts].
  rewrite Nat2Z.inj_succ, Z.pow_succ_r in Ht by lia. rewrite Z.shiftr_div_pow2 by lia. change (2 ^ 1) with 2. unfold nz.
  destruct (Z.eqb_spec (tmp / 2) 0) as [E|E]; cbn [negb].
  - assert (tmp = 1) as -> by dlia. simpl. lia.
  - rewrite IH by dlia. replace (Z.log2 tmp) with (Z.succ (Z.log2 (tmp / 2))); [lia|]. destruct (Z.lt_ge_cases tmp 2); [dlia|].
    assert (0 < tmp / 2) by dlia. pose proof (Z.log2_spec (tmp / 2) ltac:(lia)) as [Hl Hu]. pose proof (Z.log2_nonneg (tmp / 2)).
    symmetry. apply Z.log2_unique; [lia|]. rewrite !(Z.pow_succ_r 2) in * by lia. dlia.
Qed.

(** ** Integers to doubles *)

Lemma assemble64 s e m : 0 <= e < 2 ^ 11 -> 0 <= m < 2 ^ 52 ->
  (if s : bool then sign_bit F64 else 0) .| (e .<< 52) .| m = with_sign F64 s (e * 2 ^ 52 + m).
Proof.
  intros He Hm. rewrite <- Z.lor_assoc, (Z.lor_comm (e .<< 52)), lor_shiftl_add by (lia || done). unfold with_sign.
  destruct s; [|rewrite Z.lor_0_l; lia]. change (sign_bit F64) with (1 .<< 63) at 1. rewrite Z.lor_comm, lor_shiftl_add by (unfold urange; lia).
  change (sign_bit F64) with (1 * 2 ^ 63). lia.
Qed.

Lemma fraction64 g : 2 ^ 52 <= g < 2 * 2 ^ 52 -> g .& (2 ^ 52 - 1) = g - 2 ^ 52.
Proof.
  intros Hg. change (2 ^ 52 - 1) with (Z.ones 52). rewrite Z.land_ones by lia. replace g with (g - 2 ^ 52 + 1 * 2 ^ 52) at 1 by lia.
  rewrite Z.mod_add, Z.mod_small; lia.
Qed.

(** The magnitude of an integer that has its leading bit at [52 + sh]. *)
Section of_int.
Context (mag : Z) (Hmag : 0 < mag < 2 ^ 64).

Local Abbreviation exp := (Z.log2 mag).

Lemma exp_range : 0 <= exp < 64 /\ 2 ^ exp <= mag < 2 * 2 ^ exp.
Proof using Hmag.
  pose proof (Z.log2_spec mag ltac:(lia)) as [H1 H2]. rewrite Z.pow_succ_r in H2 by apply Z.log2_nonneg. split; [|lia].
  split; [apply Z.log2_nonneg|]. apply Z.log2_lt_pow2; lia.
Qed.

Lemma unit64 : min_exp F64 = 1074. Proof. reflexivity. Qed.

Lemma of_int_small mode s : exp <= 52 ->
  round_rat F64 mode s (mag * 2 ^ min_exp F64) 1 = (with_sign F64 s ((exp + 1022) * 2 ^ 52 + mag * 2 ^ (52 - exp)), 0).
Proof using Hmag.
  intros He. destruct exp_range as [[H0 _] [Hl Hu]]. set (m := mag * 2 ^ (52 - exp)).
  assert (Hm : 2 ^ 52 <= m < 2 * 2 ^ 52).
  { replace (2 ^ 52) with (2 ^ exp * 2 ^ (52 - exp)) by (rewrite <- Z.pow_add_r by lia; f_equal; lia). unfold m. pose proof (Z.pow_pos_nonneg 2 (52 - exp)). nia. }
  apply (round_rat_exact F64 F64_ok); [lia| |].
  - change (inf_code F64) with (2047 * 2 ^ 52). lia.
  - change 52 with F64.(mb). rewrite (val_binade F64 F64_ok) by (simpl; lia). unfold m. rewrite Z.mul_1_l, <- Z.mul_assoc, <- Z.pow_add_r by lia. do 2 f_equal. rewrite unit64. lia.
Qed.

Context (sh : Z) (Hsh : 0 < sh) (Hexp : exp = 52 + sh).

Local Abbreviation sig := (mag / 2 ^ sh).
Local Abbreviation rem := (mag mod 2 ^ sh).
Local Abbreviation c := ((exp + 1022) * 2 ^ 52 + mag / 2 ^ sh).

Lemma pow_sh : 0 < 2 ^ sh /\ 2 ^ sh = 2 * 2 ^ (sh - 1) /\ 0 < 2 ^ (sh - 1).
Proof using Hsh.
  split_and!; [apply Z.pow_pos_nonneg; lia| |apply Z.pow_pos_nonneg; lia]. rewrite <- Z.pow_succ_r by lia. f_equal. lia.
Qed.

Lemma sig_range : 2 ^ 52 <= sig < 2 * 2 ^ 52.
Proof using Hmag Hsh Hexp.
  destruct exp_range as [_ Hm]. destruct pow_sh as [Hp _]. rewrite Hexp, Z.pow_add_r in Hm by lia.
  split; [apply Z.div_le_lower_bound; lia|apply Z.div_lt_upper_bound; lia].
Qed.

Lemma val_big : val F64 c = sig * 2 ^ sh * 2 ^ min_exp F64 /\ val F64 (c + 1) = val F64 c + 2 ^ sh * 2 ^ min_exp F64.
Proof using Hmag Hsh Hexp.
  pose proof sig_range as Hs. destruct exp_range as [[H0 _] _]. rewrite (val_succ F64 F64_ok) by lia. unfold ulp. change 52 with F64.(mb).
  rewrite (val_binade F64 F64_ok), (div_binade F64 F64_ok) by (simpl; lia). rewrite Z.max_r, <- Z.mul_assoc, <- Z.pow_add_r by (rewrite ?unit64; lia).
  split; [|f_equal]; do 2 (f_equal; try reflexivity); rewrite unit64, Hexp; lia.
Qed.

Definition big_loc : loc := if rem =? 0 then Exact else match 2 * rem ?= 2 ^ sh with Lt => Below | Eq => Tie | Gt => Above end.

Lemma of_int_big mode s : round_rat F64 mode s (mag * 2 ^ min_exp F64) 1 =
  (with_sign F64 s (if inc mode s c big_loc then c + 1 else c), if rem =? 0 then 0 else FPU_LIB_FLAG_NX).
Proof using Hmag Hsh Hexp.
  pose proof sig_range as Hs. destruct exp_range as [He _]. destruct pow_sh as (Hp & Hp' & _). destruct val_big as [Hv Hv'].
  pose proof (Z.div_mod mag (2 ^ sh) ltac:(lia)) as Hd. pose proof (Z.mod_pos_bound mag (2 ^ sh) Hp) as Hr.
  assert (Hu : 0 < 2 ^ min_exp F64) by (rewrite unit64; lia). set (U := 2 ^ min_exp F64) in *. unfold round_rat.
  rewrite (tcode_rat_unique F64 F64_ok _ 1 c) by (rewrite ?Hv', ?Hv; nia).
  assert (Hl : locate F64 (mag * U) 1 c = big_loc).
  { unfold locate, big_loc. rewrite Hv', Hv. replace (1 * (sig * 2 ^ sh * U)) with (mag * U - rem * U) by nia.
    replace (1 * (sig * 2 ^ sh * U + (sig * 2 ^ sh * U + 2 ^ sh * U))) with (2 * (mag * U) - (2 * rem - 2 ^ sh) * U) by nia.
    destruct (Z.eqb_spec (mag * U) (mag * U - rem * U)); destruct (Z.eqb_spec rem 0); try nia; [reflexivity|].
    destruct (Z.compare_spec (2 * rem) (2 ^ sh)); destruct (Z.compare_spec (2 * (mag * U)) (2 * (mag * U) - (2 * rem - 2 ^ sh) * U)); (reflexivity || nia). }
  rewrite Hl. unfold round_code. change (inf_code F64) with (2047 * 2 ^ 52). destruct (Z.leb_spec (2047 * 2 ^ 52) c); [lia|].
  destruct (Z.eqb_spec (if inc mode s c big_loc then c + 1 else c) (2047 * 2 ^ 52)); [destruct (inc mode s c big_loc); lia|]. f_equal.
  unfold big_loc, tiny. change (2 ^ F64.(mb)) with (2 ^ 52). destruct (rem =? 0); [reflexivity|].
  destruct (Z.ltb_spec c (2 ^ 52 - 1)); [lia|]. destruct (Z.eqb_spec c (2 ^ 52 - 1)); [lia|]. by destruct (2 * rem ?= 2 ^ sh).
Qed.

Lemma increment_inc rm s : 0 <= rm <= 4 -> round_increment rm s sig rem (2 ^ (sh - 1)) = inc rm s c big_loc.
Proof using Hmag Hsh Hexp.
  intros Hrm. destruct pow_sh as (Hp & Hp' & Hp''). pose proof (Z.mod_pos_bound mag (2 ^ sh) Hp) as Hr.
  assert (Hodd : nz (sig .& 1) = Z.odd c).
  { unfold nz. change 1 with (Z.ones 1). rewrite Z.land_ones by lia. change (2 ^ 1) with 2. rewrite Zmod_odd, Z.add_comm.
    change ((exp + 1022) * 2 ^ 52) with ((exp + 1022) * (2 * 2 ^ 51)). rewrite Z.odd_add, !Z.odd_mul. simpl (Z.odd 2).
    rewrite andb_false_l, andb_false_r, xorb_false_r. by destruct (Z.odd sig). }
  unfold round_increment, inc. rewrite Hodd. generalize (Z.odd c). intros o. unfold big_loc, nz. clear Hodd. revert Hr. generalize (mag mod 2 ^ sh). intros r Hr. rewrite Hp' in *.
  assert (rm = 0 \/ rm = 1 \/ rm = 2 \/ rm = 3 \/ rm = 4) as [-> | [-> | [-> | [-> | ->]]]] by lia; simpl;
    destruct (Z.eqb_spec r 0); repeat case_bool; destruct (Z.compare_spec (2 * r) (2 * 2 ^ (sh - 1))); try lia; destruct s; reflexivity.
Qed.

Lemma big_bits rm s : 0 <= rm <= 4 ->
  (let '(e, g) := if round_increment rm s sig rem (2 ^ (sh - 1)) then let g := sig + 1 in if g =? 1 .<< 53 then (exp + 1, g .>> 1) else (exp, g) else (exp, sig) in
   (if s then sign_bit F64 else 0) .| ((e + 0x3FF) .<< 52) .| (g .& (2 ^ 52 - 1))) =
  with_sign F64 s (if inc rm s c big_loc then c + 1 else c).
Proof using Hmag Hsh Hexp.
  intros Hrm. pose proof sig_range as Hs. destruct exp_range as [He _]. rewrite (increment_inc rm s Hrm).
  destruct (inc rm s c big_loc); [|cbv beta iota zeta; rewrite fraction64, assemble64 by lia; f_equal; lia].
  change (1 .<< 53) with (2 * 2 ^ 52). cbv zeta. destruct (Z.eqb_spec (sig + 1) (2 * 2 ^ 52)) as [E|]; cbv beta iota.
  - rewrite E. change ((2 * 2 ^ 52) .>> 1) with (2 ^ 52). rewrite fraction64, assemble64 by lia. f_equal. lia.
  - rewrite fraction64, assemble64 by lia. f_equal. lia.
Qed.
End of_int.

(** The magnitude of a signed integer. *)
Lemma magnitude i : srange 64 i -> i <> 0 -> (if i <? 0 then u64 (0 - u64 i) else u64 i) = Z.abs i /\ 0 < Z.abs i < 2 ^ 64.
Proof.
  intros Hi H0. unfold srange in Hi. split; [|lia]. unfold wrap. destruct (Z.ltb_spec i 0).
  - rewrite Zminus_mod_idemp_r, Z.mod_small; lia.
  - rewrite Z.mod_small; lia.
Qed.

(** C29: The conversion of a signed 64-bit integer to a double, which the library computes on
    integers, is the correctly rounded one in each of the five rounding modes, with its flag. *)
Theorem fpu_round_i64_to_f64_correct i rm fe : srange 64 i -> 0 <= (if 4 <? rm then fe.(fe_rm) else rm) <= 4 -> 0 <= rm ->
  fpu_round_i64_to_f64 i rm fe = host_op (fun _ => of_int F64 (if 4 <? rm then fe.(fe_rm) else rm) i) fe.
Proof.
  intros Hi Hm Hrm. unfold fpu_round_i64_to_f64, of_int. change FPU_LIB_ROUND_MM with 4. destruct fe as [exc hrm]. simpl in Hm. set (mode := if 4 <? rm then hrm else rm) in *.
  destruct (Z.eqb_spec i 0) as [->|Hn]; [unfold host_op; simpl; by rewrite Z.lor_0_r|].
  destruct (magnitude i Hi Hn) as [Hmag Hr]. rewrite Hmag. set (mag := Z.abs i) in *. destruct (Z.eqb_spec mag 0); [lia|].
  unfold fbind, get_rounding_mode, host_op. cbn [fe_rm fe_exc]. fold mode. rewrite (count_shifts_log2 64) by (simpl; lia). rewrite Z.add_0_l.
  destruct (exp_range mag Hr) as [He Hl]. destruct (Z.leb_spec (Z.log2 mag) 52).
  - rewrite of_int_small by done. unfold fret. rewrite Z.lor_0_r. f_equal. rewrite (Z.shiftl_mul_pow2 mag) by lia.
    set (m := mag * 2 ^ (52 - Z.log2 mag)). assert (Hmm : 2 ^ 52 <= m < 2 * 2 ^ 52).
    { replace (2 ^ 52) with (2 ^ Z.log2 mag * 2 ^ (52 - Z.log2 mag)) by (rewrite <- Z.pow_add_r by lia; f_equal; lia). unfold m. pose proof (Z.pow_pos_nonneg 2 (52 - Z.log2 mag)). nia. }
    rewrite fraction64, assemble64 by lia. f_equal. lia.
  - set (sh := Z.log2 mag - 52). assert (Hexp : Z.log2 mag = 52 + sh) by lia. assert (Hsh : 0 < sh) by lia.
    rewrite (of_int_big mag Hr sh Hsh Hexp), <- (big_bits mag Hr sh Hsh Hexp mode (i <? 0) Hm).
    rewrite (Z.shiftl_mul_pow2 1 sh), Z.mul_1_l, (Z.shiftl_mul_pow2 1 (sh - 1)), Z.mul_1_l, Z.shiftr_div_pow2 by lia.
    replace (2 ^ sh - 1) with (Z.ones sh) by (rewrite Z.ones_equiv; lia). rewrite Z.land_ones by lia. unfold nz.
    destruct (Z.eqb_spec (mag mod 2 ^ sh) 0); cbn [negb]; unfold fpu_raise_inexact, raise_exceptions, fret; cbn [fe_exc fe_rm fst snd];
      rewrite ?Z.lor_0_r; repeat case_match; simplify_eq; reflexivity.
Qed.

(** 2^53 + 1 lies between two doubles; it is rounded to the even one, or away from zero. *)
Lemma fpu_round_i64_to_f64_correct_witness :
  fpu_round_i64_to_f64 (-9007199254740993) 0 (mk_fenv 0 0) = (0xC340000000000000, mk_fenv FPU_LIB_FLAG_NX 0) /\
  fpu_round_i64_to_f64 (-9007199254740993) 4 (mk_fenv 0 0) = (0xC340000000000001, mk_fenv FPU_LIB_FLAG_NX 0).
Proof.
  split; (rewrite fpu_round_i64_to_f64_correct; [vm_compute; reflexivity|split; vm_compute; (discriminate || reflexivity)|simpl; lia|lia]).
Defined.

Lemma fok_round_i64 i rm : fok (fpu_round_i64_to_f64 i rm) (pat F64).
Proof.
  unfold fpu_round_i64_to_f64. set (mag := if i <? 0 then _ else _). assert (Hm : 0 <= mag < 2 ^ 64) by (unfold mag; case_match; apply (wrap_range 64); lia).
  destruct (Z.eqb_spec mag 0); [apply fok_ret; fok_lit|]. eapply fok_bind; [apply fok_get_rounding_mode|]. intros hrm _. cbv zeta.
  rewrite (count_shifts_log2 64) by (simpl; lia). destruct (exp_range mag ltac:(lia)) as [He _]. rewrite Z.add_0_l.
  eapply fok_bind with (P := fun p => 0 <= fst p <= 64).
  - repeat fok_step; simpl; try lia. repeat case_match; simpl; lia.
  - intros [e g] Hp. simpl in Hp. apply fok_ret. assert (0 <= g .& (2 ^ 52 - 1) < 2 ^ 52) by (apply (urange_land_r 52); [lia|fok_lit]).
    rewrite assemble64 by lia. apply (with_sign_range F64 F64_ok). change (sign_bit F64) with (2 ^ 11 * 2 ^ 52). lia.
Qed.

Lemma class_range F s : 0 <= fpu_fclass F s <= 9.
Proof. unfold fpu_fclass. repeat case_match; vm_compute; split; discriminate. Qed.

Lemma copysign_pat F a b : fmt_ok F -> pat F (copysign F a b).
Proof. intros HF. apply with_sign_range; [done|]. by apply code_range. Qed.

Lemma fsgnjx_pat F a b : fmt_ok F -> pat F a -> pat F (fpu_fsgnjx F a b).
Proof.
  intros HF Ha. pose proof (width_nonneg F HF). apply urange_lxor; [done|done|]. apply urange_land_r; [done|].
  unfold urange. rewrite (sign_double F HF). pose proof (inf_pos F HF). pose proof (B_pos F HF). pose proof (sign_split F HF). lia.
Qed.

Lemma unbox_pat d : pat F64 d -> pat F32 (fpu_nan_unbox_f32 d).
Proof. intros. unfold fpu_nan_unbox_f32. case_match; [apply (wrap_range 32); lia|fok_lit]. Qed.

#[export] Hint Resolve fok_round_i64 copysign_pat fsgnjx_pat unbox_pat : fp.
