(* ===== verification/FpuLibProps.v ===== *)
(** * Floating-point library: theorems

    What the functions of the library promise: minimum and maximum and the classes of numbers
    by the order of the patterns, truncation to every integer type with saturation and flags,
    and the flags and the mode of the host behind its control register. *)
From S2P Require Import Prelude BitOps Ieee IeeeExact FpuLib.
Local Open Scope fpu_scope.

(** ** Running a computation *)

Lemma bind_host {A B} (op : Z -> A * Z) (k : A -> fpu B) e m :
  fbind (host_op op) k (mk_fenv e m) = k (fst (op m)) (mk_fenv (e .| snd (op m)) m).
Proof. unfold fbind, host_op. simpl. by destruct (op m). Qed.

Lemma shl1_code F u : fmt_ok F -> pat F u -> wrap (1 + F.(eb) + F.(mb)) (u .<< 1) = 2 * code F u.
Proof.
  intros HF Hu. rewrite (pattern_split F HF u Hu) at 1. pose proof (code_range F HF u). unfold wrap. rewrite sign_double by done.
  rewrite Z.shiftl_mul_pow2 by lia. unfold with_sign. change (2 ^ 1) with 2. destruct (sgn F u).
  - replace ((sign_bit F + code F u) * 2) with (2 * code F u + 1 * (2 * sign_bit F)) by lia. rewrite Z.mod_add, Z.mod_small by lia. done.
  - rewrite Z.mod_small by lia. lia.
Qed.

Lemma is_finite_code F u : fmt_ok F -> pat F u -> fpu_is_finite F u = (code F u <? inf_code F).
Proof.
  intros HF Hu. pose proof (inf_pos F HF). pose proof (B_pos F HF). pose proof (sign_split F HF).
  assert (Hi : pat F (inf_code F)). { unfold pat, urange. rewrite sign_double by done. lia. }
  unfold fpu_is_finite. rewrite !shl1_code by done. unfold code at 2. rewrite (Z.mod_small (inf_code F)) by lia.
  destruct (Z.ltb_spec (code F u) (inf_code F)); case_bool; lia.
Qed.

(** The sign of a pattern as the code tests it. *)
Lemma signed_pattern F u : fmt_ok F -> pat F u -> signed (1 + F.(eb) + F.(mb)) u = if sgn F u then code F u - sign_bit F else code F u.
Proof.
  intros HF Hu. pose proof (pattern_split F HF u Hu) as E. pose proof (code_range F HF u). pose proof (sign_double F HF) as Hd.
  assert (Hw : 2 ^ (1 + F.(eb) + F.(mb) - 1) = sign_bit F) by (unfold sign_bit; f_equal; lia).
  destruct HF. rewrite signed_cases by (done || lia). rewrite Hw, Hd. unfold with_sign in E. destruct (sgn F u); case_bool; lia.
Qed.

Lemma sign_pos F u : fmt_ok F -> pat F u -> fpu_is_positive F u = negb (sgn F u) && negb (is_nan F u) /\
  fpu_is_negative F u = sgn F u && negb (is_nan F u).
Proof.
  intros HF Hu. pose proof (pattern_split F HF u Hu) as E. pose proof (code_range F HF u). pose proof (sign_split F HF). pose proof (B_pos F HF). pose proof (inf_pos F HF).
  unfold fpu_is_positive, fpu_is_negative, is_nan. change (sign_bit F + inf_code F) with (with_sign F true (inf_code F)).
  rewrite !signed_pattern, code_with_sign, sgn_with_sign by (done || lia || by apply inf_range). unfold with_sign in E.
  destruct (sgn F u); split; repeat case_bool; cbn; (done || lia).
Qed.

(** ** Minimum and maximum *)

Section select.
Context (F : fmt) (HF : fmt_ok F).

(** The order of the numbers in which the negative zero comes before the positive one. *)
Definition key (u : Z) : Z := if sgn F u then - code F u - 1 else code F u.

Definition select_spec (max : bool) (a b : Z) : Z :=
  if is_nan F a then if is_nan F b then canonical_nan F else b
  else if is_nan F b then a
  else if if max then key a <? key b else key b <? key a then b else a.

Lemma key_inj a b : pat F a -> pat F b -> key a = key b -> a = b.
Proof using HF.
  intros Ha Hb E. pose proof (code_range F HF a). pose proof (code_range F HF b). unfold key in E.
  rewrite (pattern_split F HF a Ha), (pattern_split F HF b Hb). destruct (sgn F a), (sgn F b); unfold with_sign; lia.
Qed.

(** Equal positions are equal patterns or two zeroes. *)
Lemma pos_key a b : pos F a < pos F b -> key a < key b.
Proof using HF. pose proof (code_range F HF a). pose proof (code_range F HF b). unfold pos, key. destruct (sgn F a), (sgn F b); lia. Qed.
Lemma pos_eq_key a b : pos F a = pos F b -> sgn F a = sgn F b -> key a = key b.
Proof. unfold pos, key. intros E S. rewrite S in *. destruct (sgn F b); lia. Qed.
Lemma pos_eq_sign a b : pos F a = pos F b -> sgn F a = true -> sgn F b = false -> key a < key b.
Proof using HF. pose proof (code_range F HF a). pose proof (code_range F HF b). unfold pos, key. intros E -> ->. rewrite ?E in *. lia. Qed.

(** The flags of several comparisons of the same operands are the flags of one. *)
Definition nan_bits (a b x : Z) : Prop := x = 0 \/ (x = FPU_LIB_FLAG_NV /\ is_snan F a || is_snan F b = true).
Lemma nan_flags_absorb a b e x : nan_bits a b x -> e .| nan_flags F a b .| x = e .| nan_flags F a b.
Proof.
  intros [->|[-> Hs]]; [by rewrite Z.lor_0_r|]. unfold nan_flags. rewrite Hs, <- Z.lor_assoc. f_equal.
Qed.
Lemma nan_flags_bits a b : nan_bits a b (nan_flags F a b) /\ nan_bits a b (nan_flags F b a) /\ nan_bits a b (nan_flags F a a) /\ nan_bits a b (nan_flags F b b).
Proof. unfold nan_bits, nan_flags. destruct (is_snan F a), (is_snan F b); cbn; auto 10. Qed.

Lemma is_nan_eq a : negb (feq F a a) = is_nan F a.
Proof. unfold feq. rewrite orb_diag, Z.eqb_refl, andb_true_r. apply negb_involutive. Qed.
End select.

(** C28: minimum and maximum select by the order of the numbers, in which -0 comes before +0;
    a NaN gives the other operand, two NaNs the canonical NaN; the invalid flag is raised
    exactly for signaling NaNs and the rounding mode does not matter. *)
Theorem fpu_minmax_spec F a b e m : fmt_ok F -> pat F a -> pat F b ->
  fpu_min F a b (mk_fenv e m) = (select_spec F false a b, mk_fenv (e .| nan_flags F a b) m) /\
  fpu_max F a b (mk_fenv e m) = (select_spec F true a b, mk_fenv (e .| nan_flags F a b) m).
Proof.
  intros HF Ha Hb. destruct (sign_pos F b HF Hb) as [Ep En]. destruct (nan_flags_bits F a b) as (N1 & N2 & N3 & N4).
  unfold fpu_min, fpu_max, fpu_is_flt_quiet, fpu_is_nan, select_spec. rewrite Ep, En, !is_nan_eq, !bind_host. cbn [fst snd]. unfold flt.
  pose proof (pos_key F HF a b) as K1. pose proof (pos_key F HF b a) as K2. pose proof (pos_eq_key F a b) as K3.
  pose proof (pos_eq_sign F HF a b) as K4. pose proof (pos_eq_sign F HF b a) as K5. pose proof (key_inj F HF a b Ha Hb) as KI. clear Ep En.
  destruct (is_nan F a) eqn:Na, (is_nan F b) eqn:Nb; [| | |destruct (Z.lt_trichotomy (pos F a) (pos F b)) as [L|[L|L]]].
  all: destruct (sgn F a), (sgn F b); cbn [negb orb andb].
  all: repeat match goal with |- context [pos ?G ?x <? pos ?G ?y] => destruct (Z.ltb_spec (pos G x) (pos G y)); try lia end.
  all: do 3 (rewrite ?bind_host; cbn [fst snd negb]); unfold fret; rewrite ?(nan_flags_absorb F a b) by done.
  all: repeat match goal with |- context [key ?G ?x <? key ?G ?y] => destruct (Z.ltb_spec (key G x) (key G y)); try lia end.
  all: try done. all: by rewrite KI by auto.
Qed.

Lemma fpu_minmax_spec_witness :
  fpu_min F32 0x80000000 0 (mk_fenv 0 0) = (0x80000000, mk_fenv 0 0) /\ fpu_max F32 0x7F800001 0x3F800000 (mk_fenv 0 0) = (0x3F800000, mk_fenv FPU_LIB_FLAG_NV 0).
Proof.
  split.
  - exact (proj1 (fpu_minmax_spec F32 0x80000000 0 0 0 F32_ok ltac:(done) ltac:(done))).
  - exact (proj2 (fpu_minmax_spec F32 0x7F800001 0x3F800000 0 0 F32_ok ltac:(done) ltac:(done))).
Defined.

(** ** Truncation to integers *)

Section truncate.
Context (F : fmt) (HF : fmt_ok F).

Local Abbreviation U := (2 ^ min_exp F).

(** The integer part; an infinity is beyond every integer type. *)
Definition trunc (u : Z) : Z := if sgn F u then - (val F (code F u) / U) else val F (code F u) / U.

(** The value and the flags of a conversion to the integers from [lo] to [hi]. *)
Definition convert_spec (lo hi u : Z) : Z * Z :=
  if is_nan F u then (hi, FPU_LIB_FLAG_NV)
  else if trunc u <? lo then (lo, FPU_LIB_FLAG_NV)
  else if hi <? trunc u then (hi, FPU_LIB_FLAG_NV)
  else (trunc u, if val F (code F u) =? Z.abs (trunc u) * U then 0 else FPU_LIB_FLAG_NX).

Lemma below_code c k q : 0 <= c -> 0 <= k -> val F k = q * U -> (c < k <-> val F c / U < q).
Proof using HF.
  intros Hc Hk Ek. pose proof (pow_unit F HF). split.
  - intros L. apply Z.div_lt_upper_bound; [lia|]. pose proof (val_lt F HF c k). lia.
  - intros L. destruct (Z.lt_ge_cases c k) as [|G]; [done|exfalso]. pose proof (val_le F HF k c).
    assert (q <= val F c / U) by (apply Z.div_le_lower_bound; lia). lia.
Qed.

Lemma to_int_eq u : to_int F u = (trunc u, if val F (code F u) =? Z.abs (trunc u) * U then 0 else FPU_LIB_FLAG_NX).
Proof using HF.
  pose proof (val_code_nonneg F HF u) as Hv. pose proof (pow_unit F HF). assert (Hq : 0 <= val F (code F u) / U) by (apply Z.div_pos; lia).
  unfold to_int, trunc. cbv zeta. f_equal. replace (Z.abs _) with (val F (code F u) / U); [done|]. destruct (sgn F u); lia.
Qed.

(** An integral number is what the integer is converted back to. *)
Lemma of_int_back m u : pat F u -> code F u < inf_code F -> code F u <> 0 -> val F (code F u) = Z.abs (trunc u) * U -> of_int F m (trunc u) = (u, 0).
Proof using HF.
  intros Hu Hf Hn E. pose proof (val_pos_code F HF u Hn) as Hp. pose proof (pow_unit F HF). assert (Ht : trunc u <> 0) by nia.
  assert (Hq : 0 <= val F (code F u) / U) by (apply Z.div_pos; lia). pose proof (code_range F HF u).
  unfold of_int. destruct (Z.eqb_spec (trunc u) 0); [done|]. rewrite (round_rat_exact F HF m _ _ 1 (code F u)) by lia. f_equal.
  rewrite (pattern_split F HF u Hu) at 3. f_equal. unfold trunc in *. destruct (sgn F u); case_bool; lia || done.
Qed.

(** A number with a fraction is small enough for its integer part to be exact. *)
Lemma fraction_small u : val F (code F u) <> Z.abs (trunc u) * U -> Z.abs (trunc u) < 2 * 2 ^ F.(mb).
Proof using HF.
  intros Hx. pose proof (val_code_nonneg F HF u) as Hv. pose proof (pow_unit F HF) as HU. pose proof (B_pos F HF). pose proof (unit_pos F HF).
  destruct (val_split F HF (code F u)) as (m & k & Hk & Hm & Ev); [apply (code_range F HF)|].
  assert (Ha : Z.abs (trunc u) = val F (code F u) / U). { assert (0 <= val F (code F u) / U) by (apply Z.div_pos; lia). unfold trunc. destruct (sgn F u); lia. }
  rewrite Ha in *. destruct (Z.lt_ge_cases k (min_exp F)) as [L|L].
  - apply Z.div_lt_upper_bound; [lia|]. rewrite Ev. pose proof (Z.pow_lt_mono_r 2 k (min_exp F)). nia.
  - exfalso. apply Hx. replace k with (k - min_exp F + min_exp F) in Ev by lia. rewrite Z.pow_add_r, Z.mul_assoc in Ev by lia. rewrite Ev, Z.div_mul by lia. done.
Qed.

Lemma of_int_flags m i : Z.abs i < 2 * 2 ^ F.(mb) -> Z.abs i * U < val F (inf_code F) -> snd (of_int F m i) = 0.
Proof using HF.
  intros Hi Hb. unfold of_int. destruct (i =? 0); [done|]. destruct (rep_scaled F HF i (min_exp F)) as (c & Hc & E); [apply (unit_pos F HF)|done|done|].
  rewrite (round_rat_exact F HF m _ _ 1 c); [done|lia|done|]. rewrite Z.abs_mul, (Z.abs_eq U) in E by (pose proof (pow_unit F HF); lia). lia.
Qed.

Lemma is_zero_code u : fpu_is_zero_soft F u = (code F u =? 0).
Proof using HF.
  unfold fpu_is_zero_soft. destruct HF. replace (u .& (sign_bit F - 1)) with (code F u).
  - unfold nz. by rewrite negb_involutive.
  - unfold code, sign_bit. rewrite <- Z.land_ones by lia. f_equal. rewrite Z.ones_equiv. lia.
Qed.

(** [cl] and [ch] are the codes of the first magnitudes out of range on either side. *)
Context (fits : Z -> bool) (ty : Z -> Z) (lo hi cl ch : Z).
Context (Hcl : 0 <= cl < inf_code F) (Hch : 0 <= ch < inf_code F) (Hlo : lo <= 0) (Hhi : 0 < hi).
Context (Vh : val F ch = (hi + 1) * U) (Vl : val F cl = Z.max 1 (- lo) * U).
Context (Hfits : forall u, pat F u -> fits u = (code F u <? if sgn F u then cl else ch)).
Context (Hty : forall i, lo <= i <= hi -> ty i = i).

(** Numbers that the test lets pass are in range; the others are not, except that the test
    of a signed type does not let the lowest value pass. *)
Lemma fits_range u : pat F u -> (lo = 0 \/ trunc u <> lo) ->
  fits u = negb (is_nan F u) && (lo <=? trunc u) && (trunc u <=? hi).
Proof using HF Hcl Hch Hlo Hhi Vh Vl Hfits.
  intros Hu Hx. rewrite Hfits by done. pose proof (code_range F HF u) as Hc. pose proof (below_code (code F u) cl _ ltac:(lia) ltac:(lia) Vl) as Bl.
  pose proof (below_code (code F u) ch _ ltac:(lia) ltac:(lia) Vh) as Bh. pose proof (val_code_nonneg F HF u) as Hv. pose proof (pow_unit F HF).
  assert (Hq : 0 <= val F (code F u) / U) by (apply Z.div_pos; lia). unfold trunc, is_nan in *.
  destruct (sgn F u); destruct (Z.ltb_spec (inf_code F) (code F u)); cbn [negb andb]; case_bool; try lia.
Qed.

Lemma trunc_bound u : pat F u -> fits u = true -> lo <= trunc u <= hi.
Proof using HF Hcl Hch Hlo Hhi Vh Vl Hfits.
  intros Hu. rewrite Hfits by done. pose proof (code_range F HF u) as Hc. pose proof (below_code (code F u) cl _ ltac:(lia) ltac:(lia) Vl) as Bl.
  pose proof (below_code (code F u) ch _ ltac:(lia) ltac:(lia) Vh) as Bh. pose proof (val_code_nonneg F HF u) as Hv. pose proof (pow_unit F HF).
  assert (Hq : 0 <= val F (code F u) / U) by (apply Z.div_pos; lia). unfold trunc. destruct (sgn F u); intros L; lia.
Qed.


Lemma fits_finite u : pat F u -> fits u = true -> code F u < inf_code F.
Proof using All. intros Hu. rewrite Hfits by done. destruct (sgn F u); lia. Qed.

(** The comparison with the number converted back finds what the conversion has flagged. *)
Lemma back_check u e m : pat F u -> code F u <> 0 -> fits u = true ->
  let fl := if val F (code F u) =? Z.abs (trunc u) * U then 0 else FPU_LIB_FLAG_NX in
  (do b := fpu_of_int F (trunc u) in if negb (u =? b) then fpu_raise_inexact else fret ()) (mk_fenv (e .| fl) m) = ((), mk_fenv (e .| fl) m).
Proof using All.
  intros Hu Hn Hf fl. pose proof (fits_finite u Hu Hf) as Hfin. unfold fpu_of_int. rewrite bind_host. unfold fl. destruct (Z.eqb_spec (val F (code F u)) (Z.abs (trunc u) * U)) as [E|E].
  - rewrite (of_int_back m u) by done. cbn [fst snd]. rewrite Z.eqb_refl, !Z.lor_0_r. done.
  - rewrite of_int_flags; [|by apply fraction_small|].
    + rewrite Z.lor_0_r. destruct (negb _); [|done]. unfold fpu_raise_inexact, raise_exceptions. cbn [fe_exc fe_rm]. rewrite <- Z.lor_assoc. done.
    + pose proof (val_lt F HF (code F u) (inf_code F)) as Hv. pose proof (code_range F HF u). pose proof (pow_unit F HF). pose proof (val_code_nonneg F HF u) as Hv0.
      assert (Ha : Z.abs (trunc u) = val F (code F u) / U). { assert (0 <= val F (code F u) / U) by (apply Z.div_pos; lia). unfold trunc. destruct (sgn F u); lia. }
      rewrite Ha. pose proof (Z.mul_div_le (val F (code F u)) U). lia.
Qed.

Lemma nv_set e : nz ((e .| FPU_LIB_FLAG_NV) .& FPU_LIB_FLAG_NV) = true.
Proof.
  apply nz_true. intros E. assert (T : Z.testbit ((e .| FPU_LIB_FLAG_NV) .& FPU_LIB_FLAG_NV) 4 = true) by (rewrite Z.land_spec, Z.lor_spec; apply orb_true_r || (cbn; by rewrite orb_true_r)).
  by rewrite E in T.
Qed.

Definition truncates (cvt : Z -> Z -> fpu Z) : Prop := forall u e m, pat F u -> (lo = 0 \/ trunc u <> lo) ->
  cvt u FPU_LIB_ROUND_TZ (mk_fenv e m) = (fst (convert_spec lo hi u), mk_fenv (e .| snd (convert_spec lo hi u)) m).

(** Truncation with saturation, and the comparison that finds inexact results. *)
Lemma round_to_truncates (to : Z -> fpu Z) :
  (forall u e m, pat F u -> code F u <> 0 -> to u (mk_fenv e m) =
    if fits u then (trunc u, mk_fenv (e .| if val F (code F u) =? Z.abs (trunc u) * U then 0 else FPU_LIB_FLAG_NX) m)
    else ((if sgn F u && negb (is_nan F u) then lo else hi), mk_fenv (e .| FPU_LIB_FLAG_NV) m)) ->
  truncates (fpu_round_to F to (fpu_of_int F)).
Proof using All.
  intros Hto u e m Hu Hx. unfold fpu_round_to. rewrite is_zero_code. unfold convert_spec. pose proof (pow_unit F HF) as HU. pose proof (inf_pos F HF). pose proof (B_pos F HF).
  destruct (Z.eqb_spec (code F u) 0) as [E0|Hn].
  { assert (Et : trunc u = 0) by (unfold trunc; rewrite E0, (val_0 F HF), Z.div_0_l by lia; by destruct (sgn F u)).
    unfold is_nan. rewrite Et, E0, (val_0 F HF). destruct (Z.ltb_spec (inf_code F) 0); [lia|]. destruct (Z.ltb_spec 0 lo); [lia|]. destruct (Z.ltb_spec hi 0); [lia|].
    cbn [fst snd]. change (0 =? Z.abs 0 * U) with true. cbv iota. by rewrite Z.lor_0_r. }
  change (negb (FPU_LIB_ROUND_TZ =? FPU_LIB_ROUND_TZ)) with false. cbv iota. pose proof (fits_range u Hu Hx) as Hr. pose proof (Hto u e m Hu Hn) as Ht.
  unfold fbind at 1. unfold fret at 1. unfold fbind at 1. rewrite Ht. destruct (fits u) eqn:Hf.
  - symmetry in Hr. apply andb_true_iff in Hr as [Hr H3]. apply andb_true_iff in Hr as [H1 H2]. apply negb_true_iff in H1. rewrite H1.
    destruct (Z.ltb_spec (trunc u) lo); [lia|]. destruct (Z.ltb_spec hi (trunc u)); [lia|]. cbn [fst snd]. unfold fbind at 1, get_exceptions. cbn [fe_exc].
    destruct (negb _); unfold fbind at 1; [by rewrite (back_check u e m Hu Hn Hf)|done].
  - unfold fbind at 1, get_exceptions. cbn [fe_exc]. rewrite nv_set. cbn [negb]. unfold fbind, fret.
    assert (Hq : 0 <= val F (code F u) / U) by (apply Z.div_pos; [apply (val_code_nonneg F HF)|lia]). unfold trunc in *.
    destruct (is_nan F u); cbn [negb andb] in *; [by rewrite andb_false_r|]. rewrite andb_true_r. destruct (sgn F u).
    + destruct (Z.ltb_spec (- (val F (code F u) / U)) lo); [done|lia].
    + destruct (Z.ltb_spec (val F (code F u) / U) lo); [lia|]. destruct (Z.ltb_spec hi (val F (code F u) / U)); [done|lia].
Qed.

Lemma not_fits_run u e m : pat F u -> (fpu_raise_invalid ;; fret (if fpu_is_negative F u then lo else hi)) (mk_fenv e m) =
  ((if sgn F u && negb (is_nan F u) then lo else hi), mk_fenv (e .| FPU_LIB_FLAG_NV) m).
Proof using All. intros Hu. destruct (sign_pos F u HF Hu) as [_ ->]. done. Qed.

Lemma fcvt_truncates : truncates (fpu_round_to F (fpu_fcvt_to F fits ty lo hi) (fpu_of_int F)).
Proof using All.
  apply round_to_truncates. intros u e m Hu Hn. unfold fpu_fcvt_to. destruct (fits u) eqn:Hf; [|by apply not_fits_run].
  unfold fpu_to_int. rewrite bind_host, to_int_eq by done. cbn [fst snd]. unfold fret. by rewrite Hty by (by apply trunc_bound).
Qed.

Lemma fcvt_checked_truncates : truncates (fpu_round_to F (fpu_fcvt_to_checked F fits ty lo hi) (fpu_of_int F)).
Proof using All.
  apply round_to_truncates. intros u e m Hu Hn. unfold fpu_fcvt_to_checked. destruct (fits u) eqn:Hf; [|by apply not_fits_run].
  unfold fpu_to_int. rewrite bind_host, to_int_eq by done. cbn [fst snd]. rewrite Hty by (by apply trunc_bound). rewrite is_zero_code. destruct (Z.eqb_spec (code F u) 0); [done|].
  unfold fbind at 1. by rewrite back_check.
Qed.
End truncate.

(** The tests of the code, by magnitude and sign. *)
Lemma fits_signed F u t : fmt_ok F -> pat F u -> (wrap (1 + F.(eb) + F.(mb)) (u .<< 1) <? 2 * t) = (code F u <? if sgn F u then t else t).
Proof. intros HF Hu. rewrite shl1_code by done. destruct (sgn F u); case_bool; case_bool; lia. Qed.

Lemma fits_unsigned F u one t : fmt_ok F -> pat F u -> 0 <= t < sign_bit F -> 0 <= one < sign_bit F ->
  (u <? t) || (signed (1 + F.(eb) + F.(mb)) u <? signed (1 + F.(eb) + F.(mb)) (sign_bit F + one)) = (code F u <? if sgn F u then one else t).
Proof.
  intros HF Hu Ht Ho. pose proof (code_range F HF u). pose proof (pattern_split F HF u Hu) as E. change (sign_bit F + one) with (with_sign F true one).
  rewrite !signed_pattern by (done || by apply with_sign_range). rewrite code_with_sign, sgn_with_sign by done. unfold with_sign in E.
  destruct (sgn F u); repeat case_bool; cbn; (done || lia).
Qed.

Definition fp_conversions : list (fmt * (Z -> Z -> fpu Z) * Z * Z) :=
  [(F32, fpu_round_f32_to_i32, - 2 ^ 31, 2 ^ 31 - 1); (F32, fpu_round_f32_to_u32, 0, 2 ^ 32 - 1);
   (F32, fpu_round_f32_to_i64, - 2 ^ 63, 2 ^ 63 - 1); (F32, fpu_round_f32_to_u64, 0, 2 ^ 64 - 1);
   (F64, fpu_round_f64_to_i32, - 2 ^ 31, 2 ^ 31 - 1); (F64, fpu_round_f64_to_u32, 0, 2 ^ 32 - 1);
   (F64, fpu_round_f64_to_i64, - 2 ^ 63, 2 ^ 63 - 1); (F64, fpu_round_f64_to_u64, 0, 2 ^ 64 - 1)].

Ltac conversion lem HF cl ch := apply (lem _ HF _ _ _ _ cl ch); [by vm_compute..| |]; [intros u Hu|intros i Hi].

(** C27: Truncating conversions (FCVT with the mode RTZ) of both formats to all four integer
    types, for every operand: the integer part where the type has it, otherwise the nearest
    value of the type, and the largest for a NaN; the invalid flag exactly for values out of
    range and NaNs, the inexact flag exactly where a fraction is dropped.  The exception is
    an operand whose integer part is the lowest value of a signed type. *)
Theorem fpu_convert_truncates : Forall (fun '(F, cvt, lo, hi) => truncates F lo hi cvt) fp_conversions.
Proof.
  repeat apply Forall_cons_2; [..|by apply Forall_nil_2].
  - conversion fcvt_truncates F32_ok 0x4F000000 0x4F000000; [exact (fits_signed F32 u 0x4F000000 F32_ok Hu)|apply (signed_small 32); unfold srange; lia].
  - conversion fcvt_truncates F32_ok 0x3F800000 0x4F800000; [exact (fits_unsigned F32 u 0x3F800000 0x4F800000 F32_ok Hu ltac:(done) ltac:(done))|apply (wrap_small 32); unfold urange; lia].
  - conversion fcvt_checked_truncates F32_ok 0x5F000000 0x5F000000; [exact (fits_signed F32 u 0x5F000000 F32_ok Hu)|apply (signed_small 64); unfold srange; lia].
  - conversion fcvt_truncates F32_ok 0x3F800000 0x5F800000; [exact (fits_unsigned F32 u 0x3F800000 0x5F800000 F32_ok Hu ltac:(done) ltac:(done))|apply (wrap_small 64); unfold urange; lia].
  - conversion fcvt_truncates F64_ok 0x41E0000000000000 0x41E0000000000000; [exact (fits_signed F64 u 0x41E0000000000000 F64_ok Hu)|apply (signed_small 32); unfold srange; lia].
  - conversion fcvt_truncates F64_ok 0x3FF0000000000000 0x41F0000000000000; [exact (fits_unsigned F64 u 0x3FF0000000000000 0x41F0000000000000 F64_ok Hu ltac:(done) ltac:(done))|apply (wrap_small 32); unfold urange; lia].
  - conversion fcvt_checked_truncates F64_ok 0x43E0000000000000 0x43E0000000000000; [exact (fits_signed F64 u 0x43E0000000000000 F64_ok Hu)|apply (signed_small 64); unfold srange; lia].
  - conversion fcvt_truncates F64_ok 0x3FF0000000000000 0x43F0000000000000; [exact (fits_unsigned F64 u 0x3FF0000000000000 0x43F0000000000000 F64_ok Hu ltac:(done) ltac:(done))|apply (wrap_small 64); unfold urange; lia].
Qed.

(** ** The environment behind MXCSR *)

(** The flags and the mode that a value of the register stands for. *)
Definition fenv_of (sw : Z) : fenv := mk_fenv (fpu_x86_sw_to_exceptions sw) (mxcsr_mode sw).

Definition bits_flags (nv dz of_ uf nx : bool) : Z :=
  (if nv then 16 else 0) .| (if dz then 8 else 0) .| (if of_ then 4 else 0) .| (if uf then 2 else 0) .| (if nx then 1 else 0).

Lemma nz_pow2 x k : 0 <= k < 32 -> nz (x .& 2 ^ k) = Z.testbit x k.
Proof.
  intros Hk. rewrite Z.land_comm. replace (2 ^ k .& x) with (if Z.testbit x k then 2 ^ k else 0).
  - destruct (Z.testbit x k); [|done]. apply nz_true. pose proof (Z.pow_pos_nonneg 2 k). lia.
  - apply Z.bits_inj'. intros i Hi. rewrite Z.land_spec, Z.pow2_bits_eqb by lia. destruct (Z.eqb_spec k i) as [->|Hne].
    + destruct (Z.testbit x i); [by rewrite Z.pow2_bits_true|by rewrite Z.bits_0].
    + destruct (Z.testbit x k); [rewrite Z.pow2_bits_false by lia|rewrite Z.bits_0]; done.
Qed.

Lemma sw_flags sw : fpu_x86_sw_to_exceptions sw = bits_flags (Z.testbit sw 0) (Z.testbit sw 2) (Z.testbit sw 3) (Z.testbit sw 4) (Z.testbit sw 5).
Proof.
  unfold fpu_x86_sw_to_exceptions. change (sw .& 0x01) with (sw .& 2 ^ 0). change (sw .& 0x04) with (sw .& 2 ^ 2). change (sw .& 0x08) with (sw .& 2 ^ 3).
  change (sw .& 0x10) with (sw .& 2 ^ 4). change (sw .& 0x20) with (sw .& 2 ^ 5). by rewrite !nz_pow2 by lia.
Qed.

(** The bits of MXCSR for a set of flags. *)
Lemma flags_sw e i : 0 <= i < 32 -> Z.testbit (fpu_exceptions_to_x86_sw e) i =
  if i =? 0 then Z.testbit e 4 else if i =? 2 then Z.testbit e 3 else if i =? 3 then Z.testbit e 2 else if i =? 4 then Z.testbit e 1 else if i =? 5 then Z.testbit e 0 else false.
Proof.
  intros Hi. unfold fpu_exceptions_to_x86_sw. change FPU_LIB_FLAG_NV with (2 ^ 4). change FPU_LIB_FLAG_DZ with (2 ^ 3). change FPU_LIB_FLAG_OF with (2 ^ 2).
  change FPU_LIB_FLAG_UF with (2 ^ 1). change FPU_LIB_FLAG_NX with (2 ^ 0). rewrite !nz_pow2 by lia.
  assert (Hc : exists n : nat, i = Z.of_nat n /\ (n < 32)%nat) by (exists (Z.to_nat i); lia). destruct Hc as (n & -> & Hn).
  do 32 (destruct n as [|n]; [by destruct (Z.testbit e 0), (Z.testbit e 1), (Z.testbit e 2), (Z.testbit e 3), (Z.testbit e 4)|]). lia.
Qed.

Lemma flags_bits e : e .& FPU_LIB_FLAGS_ALL = bits_flags (Z.testbit e 4) (Z.testbit e 3) (Z.testbit e 2) (Z.testbit e 1) (Z.testbit e 0).
Proof.
  apply (bits_inj_lt 5); [apply flags_mask|unfold bits_flags; by repeat case_match|]. intros i Hi. rewrite Z.land_spec.
  assert (Hc : i = 0 \/ i = 1 \/ i = 2 \/ i = 3 \/ i = 4) by lia.
  destruct Hc as [->|[->|[->|[->| ->]]]]; unfold bits_flags; destruct (Z.testbit e 0), (Z.testbit e 1), (Z.testbit e 2), (Z.testbit e 3), (Z.testbit e 4); done.
Qed.

Lemma mode_bits cw : mxcsr_mode cw =
  if Z.testbit cw 13 then if Z.testbit cw 14 then FPU_LIB_ROUND_TZ else FPU_LIB_ROUND_DN else if Z.testbit cw 14 then FPU_LIB_ROUND_UP else FPU_LIB_ROUND_NE.
Proof.
  unfold mxcsr_mode. cbv zeta. replace (cw .& 0x6000) with ((if Z.testbit cw 13 then 0x2000 else 0) + (if Z.testbit cw 14 then 0x4000 else 0)).
  - by destruct (Z.testbit cw 13), (Z.testbit cw 14).
  - apply Z.bits_inj'. intros i Hi. rewrite Z.land_spec. destruct (Z.eqb_spec i 13) as [->|H13]; [by destruct (Z.testbit cw 13), (Z.testbit cw 14)|].
    destruct (Z.eqb_spec i 14) as [->|H14]; [by destruct (Z.testbit cw 13), (Z.testbit cw 14)|].
    change 0x6000 with (2 ^ 13 .| 2 ^ 14). change 0x2000 with (2 ^ 13). change 0x4000 with (2 ^ 14). rewrite Z.lor_spec, !Z.pow2_bits_false, andb_false_r by lia.
    destruct (Z.testbit cw 13), (Z.testbit cw 14); rewrite ?Z.add_0_r, ?Z.add_0_l, ?Z.bits_0, ?Z.pow2_bits_false by lia; try done.
    rewrite <- lor_add by done. by rewrite Z.lor_spec, !Z.pow2_bits_false by lia.
Qed.

(** Bits of the register after an update of its flags, where the update can reach them. *)
Lemma pump_bits sw s c i : 0 <= i < 32 -> i <> 6 -> i <> 15 -> (i < 7 \/ 12 < i) ->
  Z.testbit (fst (fpu_pump_exceptions_internal sw s c)) i =
  (Z.testbit sw i || Z.testbit (fpu_exceptions_to_x86_sw s) i) && negb (Z.testbit (fpu_exceptions_to_x86_sw c) i).
Proof.
  intros Hi H6 H15 Hr. unfold fpu_pump_exceptions_internal. cbv zeta. cbn [fst]. set (x := if nz c then _ else _).
  replace (if x =? sw then sw else x) with x by (destruct (Z.eqb_spec x sw) as [E|]; [exact E|reflexivity]).
  assert (Hb : Z.testbit ((sw .& u32 (Z.lnot 0x8040)) .| 0x1F80) i = Z.testbit sw i).
  { assert (E1 : Z.testbit 0x8040 i = false).
    { change 0x8040 with (2 ^ 15 .| 2 ^ 6). rewrite Z.lor_spec, !Z.pow2_bits_false by lia. done. }
    assert (E2 : Z.testbit 0x1F80 i = false).
    { change 0x1F80 with (63 .<< 7). rewrite testbit_shiftl by lia. destruct (Z.leb_spec 7 i); cbn [andb]; [|by rewrite ?Z.testbit_neg_r by lia]. apply (testbit_above 6); [done|lia]. }
    rewrite Z.lor_spec, Z.land_spec, testbit_wrap, Z.lnot_spec, E1, E2 by lia. replace (i <? 32) with true by lia. by rewrite andb_true_r, orb_false_r. }
  assert (Hs : nz s = false -> Z.testbit (fpu_exceptions_to_x86_sw s) i = false).
  { intros E. apply nz_false in E. rewrite E. by rewrite flags_sw, !Z.bits_0 by lia; repeat case_match. }
  assert (Hc : nz c = false -> Z.testbit (fpu_exceptions_to_x86_sw c) i = false).
  { intros E. apply nz_false in E. rewrite E. by rewrite flags_sw, !Z.bits_0 by lia; repeat case_match. }
  unfold x. clear x. revert Hb. generalize ((sw .& u32 (Z.lnot 0x8040)) .| 0x1F80). intros y Hb. assert (Hl : (i <? 32) = true) by lia.
  destruct (nz c), (nz s); rewrite ?Z.land_spec, ?testbit_wrap, ?Z.lnot_spec, ?Z.lor_spec, ?Hb, ?Hl by lia;
    rewrite ?Hs, ?Hc, ?orb_false_r, ?andb_true_r by done; done.
Qed.

Lemma bits_flags_lor a0 a1 a2 a3 a4 b0 b1 b2 b3 b4 :
  bits_flags a0 a1 a2 a3 a4 .| bits_flags b0 b1 b2 b3 b4 = bits_flags (a0 || b0) (a1 || b1) (a2 || b2) (a3 || b3) (a4 || b4).
Proof. destruct a0, a1, a2, a3, a4, b0, b1, b2, b3, b4; reflexivity. Qed.

Definition mode_rc (mode : Z) : Z :=
  if mode =? FPU_LIB_ROUND_DN then 0x2000 else if mode =? FPU_LIB_ROUND_UP then 0x4000 else if mode =? FPU_LIB_ROUND_TZ then 0x6000 else 0.

Lemma pump_mode_bits cw mode i : mode <= 4 -> i ∈ [0; 2; 3; 4; 5; 13; 14] ->
  Z.testbit (fst (fpu_pump_rounding_mode_internal cw mode)) i = if i <? 13 then Z.testbit cw i else Z.testbit (mode_rc mode) i.
Proof.
  intros Hm Hi. unfold fpu_pump_rounding_mode_internal. cbv zeta. cbn [fst]. change FPU_LIB_ROUND_MM with 4. destruct (Z.leb_spec mode 4); [|lia]. fold (mode_rc mode).
  assert (Hrc : mode_rc mode = 0 \/ mode_rc mode = 0x2000 \/ mode_rc mode = 0x4000 \/ mode_rc mode = 0x6000) by (unfold mode_rc; repeat case_match; auto).
  assert (Hc : i = 0 \/ i = 2 \/ i = 3 \/ i = 4 \/ i = 5 \/ i = 13 \/ i = 14) by set_solver. clear Hi.
  rewrite Z.lor_spec, Z.land_spec, Z.lor_spec, Z.land_spec.
  destruct Hrc as [->|[->|[->| ->]]], Hc as [->|[->|[->|[->|[->|[->| ->]]]]]]; cbn -[Z.testbit Z.land Z.lnot]; by destruct (Z.testbit cw _).
Qed.

(** The functions that read and write the status and control register of the host
    implement the environment of flags and rounding mode that the library is written against:
    reading, setting and raising flags and setting the mode act on what the register stands
    for as on the abstract environment, and do not disturb each other. *)
Theorem mxcsr_refines sw e mode : urange 32 e -> 0 <= mode ->
  snd (fpu_pump_exceptions_internal sw 0 0) = fst (get_exceptions (fenv_of sw)) /\
  fenv_of (fst (fpu_pump_exceptions_internal sw 0 0)) = fenv_of sw /\
  fenv_of (fst (fpu_pump_exceptions_internal sw e (u32 (Z.lnot e)))) = snd (set_exceptions e (fenv_of sw)) /\
  fenv_of (fst (fpu_pump_exceptions_internal sw e 0)) = snd (raise_exceptions e (fenv_of sw)) /\
  snd (fpu_pump_rounding_mode_internal sw mode) = fst (get_rounding_mode (fenv_of sw)) /\
  fenv_of (fst (fpu_pump_rounding_mode_internal sw mode)) = snd (set_rounding_mode mode (fenv_of sw)).
Proof.
  intros He Hm. unfold fenv_of, set_exceptions, raise_exceptions, set_rounding_mode. cbn [fst snd fe_exc fe_rm get_exceptions get_rounding_mode].
  rewrite !sw_flags, !mode_bits, !flags_bits, !pump_bits, !flags_sw by lia. cbn [Z.eqb Pos.eqb].
  rewrite !testbit_wrap, !Z.lnot_spec, !Z.bits_0 by lia. cbn [Z.ltb Z.compare Pos.compare Pos.compare_cont andb negb].
  rewrite !orb_false_r, !andb_true_r, !negb_involutive, bits_flags_lor. split_and!.
  - by rewrite <- sw_flags.
  - done.
  - f_equal. by destruct (Z.testbit e 4), (Z.testbit e 3), (Z.testbit e 2), (Z.testbit e 1), (Z.testbit e 0), (Z.testbit sw 0), (Z.testbit sw 2), (Z.testbit sw 3), (Z.testbit sw 4), (Z.testbit sw 5).
  - done.
  - by rewrite <- mode_bits.
  - destruct (Z.leb_spec mode 4) as [L|L].
    + rewrite !pump_mode_bits by (done || set_solver). cbn [Z.ltb Z.compare Pos.compare Pos.compare_cont]. f_equal. unfold host_mode, FPU_LIB_ROUND_MM.
      destruct (Z.leb_spec mode 4); [|lia]. assert (Hc : mode = 0 \/ mode = 1 \/ mode = 2 \/ mode = 3 \/ mode = 4) by lia. by destruct Hc as [->|[->|[->|[->| ->]]]].
    + unfold fpu_pump_rounding_mode_internal, host_mode, FPU_LIB_ROUND_MM. destruct (Z.leb_spec mode 4); [lia|]. done.
Qed.

Lemma mxcsr_refines_witness : fenv_of (fst (fpu_pump_exceptions_internal 0x7FA1 FPU_LIB_FLAG_DZ (u32 (Z.lnot FPU_LIB_FLAG_DZ)))) = mk_fenv FPU_LIB_FLAG_DZ FPU_LIB_ROUND_TZ.
Proof. exact (proj1 (proj2 (proj2 (mxcsr_refines 0x7FA1 FPU_LIB_FLAG_DZ 0 ltac:(done) ltac:(done))))). Defined.
