(* ===== verification/Timer.v ===== *)
(** * Timers (src/util/rvtimer.c, rvtimer.h)

    Frequency conversion in both of its branches, and timers over a clock of the host, whose
    reading at the frequency of the timer is an argument of the operations that read it. *)

From S2P Require Import Prelude BitOps.

(** With 128-bit integers. *)
Definition rvtimer_convert_freq_slow (clk src_freq dst_freq : Z) : Z :=
  let clk_div := clk / src_freq in
  let clk_rem := u64 (clk - u64 (clk_div * src_freq)) in
  u64 (u64 (clk_div * dst_freq) + u64 (clk_rem * dst_freq) / src_freq).

Definition rvtimer_convert_freq (clk src_freq dst_freq : Z) : Z :=
  let mul128 := u128 (clk * dst_freq) in
  if negb (nz (mul128 .>> 64)) then u64 mul128 / src_freq
  else rvtimer_convert_freq_slow clk src_freq dst_freq.

(** Without them. *)
Definition rvtimer_convert_freq_portable (clk src_freq dst_freq : Z) : Z :=
  if negb (nz (clk .>> 32)) && negb (nz (src_freq .>> 32)) && negb (nz (dst_freq .>> 32)) then
    let tmp := u64 (clk * dst_freq) in
    if negb (nz (tmp .>> 32)) then u32 tmp / u32 src_freq
    else tmp / u32 src_freq
  else rvtimer_convert_freq_slow clk src_freq dst_freq.

Record rvtimer := mk_rvtimer { timer_begin : Z; timer_freq : Z }.

(** [now] is [rvtimer_clocksource(timer->freq)]. *)
Definition rvtimer_rebase (timer : rvtimer) (now time : Z) : rvtimer :=
  mk_rvtimer (u64 (now - time)) timer.(timer_freq).
Definition rvtimer_init (freq now : Z) : rvtimer := rvtimer_rebase (mk_rvtimer 0 freq) now 0.
Definition rvtimer_get (timer : rvtimer) (now : Z) : Z := u64 (now - timer.(timer_begin)).

Record rvtimecmp := mk_rvtimecmp { cmp_timecmp : Z; cmp_timer : rvtimer }.

Definition rvtimecmp_set (cmp : rvtimecmp) (timecmp : Z) : rvtimecmp := mk_rvtimecmp timecmp cmp.(cmp_timer).
Definition rvtimecmp_init (timer : rvtimer) : rvtimecmp := rvtimecmp_set (mk_rvtimecmp 0 timer) (u64 (-1)).
Definition rvtimecmp_pending (cmp : rvtimecmp) (now : Z) : bool :=
  cmp.(cmp_timecmp) <=? rvtimer_get cmp.(cmp_timer) now.
(** On the readings of the timer and of the comparator. *)
Definition rvtimecmp_delay (timer timecmp : Z) : Z := if timer <? timecmp then timecmp - timer else 0.
Definition rvtimecmp_delay_ns (cmp : rvtimecmp) (now : Z) : Z :=
  rvtimer_convert_freq (rvtimecmp_delay (rvtimer_get cmp.(cmp_timer) now) cmp.(cmp_timecmp)) cmp.(cmp_timer).(timer_freq) 1000000000.

(** ** Conversion *)

Lemma convert_slow_exact clk src dst : 0 <= clk < 2 ^ 64 -> 0 < src < 2 ^ 64 -> 0 <= dst -> (src - 1) * dst < 2 ^ 64 ->
  rvtimer_convert_freq_slow clk src dst = u64 (clk * dst / src).
Proof.
  intros Hc Hs Hd Ho. unfold rvtimer_convert_freq_slow.
  assert (0 <= clk / src * src <= clk) as Hq.
  { pose proof (Z.mul_div_le clk src ltac:(lia)). pose proof (Z.div_pos clk src ltac:(lia) ltac:(lia)). nia. }
  rewrite (wrap_small 64 (clk / src * src)) by (unfold urange; lia).
  assert (clk - clk / src * src = clk mod src) as -> by (rewrite Z.mod_eq by lia; lia).
  pose proof (Z.mod_pos_bound clk src ltac:(lia)) as Hr.
  rewrite (wrap_small 64 (clk mod src)) by (unfold urange; lia).
  rewrite (wrap_small 64 (clk mod src * dst)) by (unfold urange; nia). rewrite wrap_add_l. f_equal.
  rewrite (Z.div_mod clk src) at 3 by lia.
  replace ((src * (clk / src) + clk mod src) * dst) with (clk mod src * dst + clk / src * dst * src) by lia.
  rewrite Z.div_add by lia. lia.
Qed.

Lemma shiftr_zero v n : 0 <= v -> 0 <= n -> negb (nz (v .>> n)) = (v <? 2 ^ n).
Proof.
  intros. unfold nz. rewrite negb_involutive, Z.shiftr_div_pow2 by done. pose proof (pow2_pos n ltac:(done)).
  destruct (Z.ltb_spec v (2 ^ n)).
  - by rewrite Z.div_small by lia.
  - apply Z.eqb_neq. pose proof (Z.div_le_mono (2 ^ n) v (2 ^ n) ltac:(lia) ltac:(lia)) as Hl.
    rewrite Z.div_same in Hl by lia. lia.
Qed.

(** frequency conversion is exact.  Whenever a remainder of the source frequency can be
    multiplied by the target frequency in 64 bits, both branches of the conversion return
    [clk * dst / src] modulo 2^64, although the product itself may not fit; in particular the
    two branches agree. *)
Theorem convert_freq_exact clk src dst : urange 64 clk -> 0 < src < 2 ^ 64 -> urange 64 dst -> (src - 1) * dst < 2 ^ 64 ->
  rvtimer_convert_freq clk src dst = u64 (clk * dst / src) /\
  rvtimer_convert_freq_portable clk src dst = u64 (clk * dst / src).
Proof.
  unfold urange. intros Hc Hs Hd Ho. split.
  - unfold rvtimer_convert_freq. rewrite (wrap_small 128) by (unfold urange; nia). rewrite shiftr_zero by nia.
    destruct (Z.ltb_spec (clk * dst) (2 ^ 64)); [|apply convert_slow_exact; lia].
    rewrite (wrap_small 64) by (unfold urange; nia). symmetry. apply wrap_small.
    split; [apply Z.div_pos; nia|]. apply Z.div_lt_upper_bound; nia.
  - unfold rvtimer_convert_freq_portable. rewrite !shiftr_zero by lia.
    destruct (Z.ltb_spec clk (2 ^ 32)); [|apply convert_slow_exact; lia].
    destruct (Z.ltb_spec src (2 ^ 32)); [|apply convert_slow_exact; lia].
    destruct (Z.ltb_spec dst (2 ^ 32)); [|apply convert_slow_exact; lia].
    cbn [andb]. rewrite (wrap_small 32 src), (wrap_small 64 (clk * dst)) by (unfold urange; nia).
    rewrite shiftr_zero by nia. rewrite (wrap_small 64).
    + destruct (Z.ltb_spec (clk * dst) (2 ^ 32)); [|done]. by rewrite wrap_small by (unfold urange; nia).
    + split; [apply Z.div_pos; nia|]. apply Z.div_lt_upper_bound; nia.
Qed.

(** Ten minutes and a tick of a 10 MHz clock in nanoseconds, and a conversion whose product
    does not fit in 64 bits. *)
Lemma convert_freq_exact_witness :
  rvtimer_convert_freq 6000000001 10000000 1000000000 = 600000000100 /\
  rvtimer_convert_freq_portable 60000000000000 10000000 1000000000 = 6000000000000000.
Proof.
  split.
  - refine (proj1 (convert_freq_exact 6000000001 10000000 1000000000 _ _ _ _)); by vm_compute.
  - refine (proj2 (convert_freq_exact 60000000000000 10000000 1000000000 _ _ _ _)); by vm_compute.
Defined.

(** A rebased timer counts from the time it was set to. *)
Lemma rvtimer_rebase_get timer now time later : urange 64 time ->
  rvtimer_get (rvtimer_rebase timer now time) later = u64 (time + (later - now)).
Proof. intros. unfold rvtimer_get, rvtimer_rebase. cbn. rewrite wrap_sub_r. f_equal. lia. Qed.

(** The comparator fires exactly when there is nothing left to wait for. *)
Lemma rvtimecmp_delay_zero cmp now :
  rvtimecmp_pending cmp now = (rvtimecmp_delay (rvtimer_get cmp.(cmp_timer) now) cmp.(cmp_timecmp) =? 0).
Proof.
  unfold rvtimecmp_pending, rvtimecmp_delay.
  destruct (Z.ltb_spec (rvtimer_get (cmp_timer cmp) now) (cmp_timecmp cmp)), (Z.leb_spec (cmp_timecmp cmp) (rvtimer_get (cmp_timer cmp) now)); try lia.
Qed.
