(* ===== verification/State.v ===== *)
(** * Machine state (src/core/rvvm.h, include/rvvm/rvvm.h)

    The records of the hart, its CSR file, its software TLB, its AIA register files
    and the RAM region, with one update function per field; the MMIO device
    description; the class [Env] of everything the CPU core calls that is outside of
    it.  Arrays are total functions on indices; [vm->machine] and the host resources the
    hart reaches (memory, floating-point environment, entropy, clock) are fields of
    the hart record, since the model follows one hart. *)

From S2P Require Import Prelude BitOps MemOps.

(** ** Constants *)

Definition RVVM_TLB_SIZE : Z := 256.
Definition RVVM_TLB_MASK : Z := 255.
Definition RISCV_REG_ZERO : Z := 0.
Definition RISCV_REG_X1 : Z := 1.
Definition RISCV_REG_X2 : Z := 2.
Definition RISCV_REG_PC : Z := 32.

Definition RISCV_PRIV_USER : Z := 0.
Definition RISCV_PRIV_SUPERVISOR : Z := 1.
Definition RISCV_PRIV_HYPERVISOR : Z := 2.
Definition RISCV_PRIV_MACHINE : Z := 3.

Definition RISCV_INTERRUPT_SSOFTWARE : Z := 0x1.
Definition RISCV_INTERRUPT_MSOFTWARE : Z := 0x3.
Definition RISCV_INTERRUPT_STIMER : Z := 0x5.
Definition RISCV_INTERRUPT_MTIMER : Z := 0x7.
Definition RISCV_INTERRUPT_SEXTERNAL : Z := 0x9.
Definition RISCV_INTERRUPT_MEXTERNAL : Z := 0xB.

Definition RISCV_TRAP_INSN_MISALIGN : Z := 0x0.
Definition RISCV_TRAP_INSN_FETCH : Z := 0x1.
Definition RISCV_TRAP_ILL_INSN : Z := 0x2.
Definition RISCV_TRAP_BREAKPOINT : Z := 0x3.
Definition RISCV_TRAP_LOAD_MISALIGN : Z := 0x4.
Definition RISCV_TRAP_LOAD_FAULT : Z := 0x5.
Definition RISCV_TRAP_STORE_MISALIGN : Z := 0x6.
Definition RISCV_TRAP_STORE_FAULT : Z := 0x7.
Definition RISCV_TRAP_ECALL_UMODE : Z := 0x8.
Definition RISCV_TRAP_INSN_PAGEFAULT : Z := 0xC.
Definition RISCV_TRAP_LOAD_PAGEFAULT : Z := 0xD.
Definition RISCV_TRAP_STORE_PAGEFAULT : Z := 0xF.

Definition RVVM_AIA_IRQ_LIMIT : Z := 256.
Definition RVVM_AIA_ARR_LEN : Z := 8.

(** ** Records *)

(** An entry of the software TLB, [rvvm_tlb_entry_t]: a host pointer with the virtual
    address subtracted, and the virtual page number cached for each access. *)
Record tlb_entry := mk_tlb_entry {
  tlb_ptr : Z;
  tlb_r : Z;
  tlb_w : Z;
  tlb_e : Z
}.

Definition set_tlb_ptr (v : Z) (t : tlb_entry) : tlb_entry :=
  mk_tlb_entry v t.(tlb_r) t.(tlb_w) t.(tlb_e).
Definition set_tlb_r (v : Z) (t : tlb_entry) : tlb_entry :=
  mk_tlb_entry t.(tlb_ptr) v t.(tlb_w) t.(tlb_e).
Definition set_tlb_w (v : Z) (t : tlb_entry) : tlb_entry :=
  mk_tlb_entry t.(tlb_ptr) t.(tlb_r) v t.(tlb_e).
Definition set_tlb_e (v : Z) (t : tlb_entry) : tlb_entry :=
  mk_tlb_entry t.(tlb_ptr) t.(tlb_r) t.(tlb_w) v.

(** The physical RAM region, [rvvm_ram_t]. *)
Record ram := mk_ram {
  ram_addr : Z;
  ram_size : Z;
  ram_data : Z
}.

(** The AIA register file of one privilege level, [rvvm_aia_regfile_t]. *)
Record aia_regfile := mk_aia {
  eidelivery : Z;
  eithreshold : Z;
  eip : Z -> Z;
  eie : Z -> Z
}.

Definition set_eidelivery (v : Z) (a : aia_regfile) : aia_regfile :=
  mk_aia v a.(eithreshold) a.(eip) a.(eie).
Definition set_eithreshold (v : Z) (a : aia_regfile) : aia_regfile :=
  mk_aia a.(eidelivery) v a.(eip) a.(eie).
Definition set_eip (v : Z -> Z) (a : aia_regfile) : aia_regfile :=
  mk_aia a.(eidelivery) a.(eithreshold) v a.(eie).
Definition set_eie (v : Z -> Z) (a : aia_regfile) : aia_regfile :=
  mk_aia a.(eidelivery) a.(eithreshold) a.(eip) v.

(** The [csr] member of [rvvm_hart_t]; arrays are indexed by privilege level. *)
Record csr_file := mk_csr {
  csr_status : Z;
  csr_ie : Z;
  csr_ip : Z;
  csr_isa : Z;
  csr_edeleg : Z -> Z;
  csr_ideleg : Z -> Z;
  csr_tvec : Z -> Z;
  csr_scratch : Z -> Z;
  csr_epc : Z -> Z;
  csr_cause : Z -> Z;
  csr_tval : Z -> Z;
  csr_iselect : Z -> Z;
  csr_counteren : Z -> Z;
  csr_envcfg : Z -> Z;
  csr_mseccfg : Z;
  csr_fcsr : Z;
  csr_vcsr : Z;
  csr_vtype : Z;
  csr_hartid : Z
}.

Definition set_csr_status (v : Z) (c : csr_file) : csr_file :=
  mk_csr v c.(csr_ie) c.(csr_ip) c.(csr_isa) c.(csr_edeleg) c.(csr_ideleg) c.(csr_tvec)
    c.(csr_scratch) c.(csr_epc) c.(csr_cause) c.(csr_tval) c.(csr_iselect) c.(csr_counteren)
    c.(csr_envcfg) c.(csr_mseccfg) c.(csr_fcsr) c.(csr_vcsr) c.(csr_vtype) c.(csr_hartid).
Definition set_csr_ie (v : Z) (c : csr_file) : csr_file :=
  mk_csr c.(csr_status) v c.(csr_ip) c.(csr_isa) c.(csr_edeleg) c.(csr_ideleg)
    c.(csr_tvec) c.(csr_scratch) c.(csr_epc) c.(csr_cause) c.(csr_tval) c.(csr_iselect)
    c.(csr_counteren) c.(csr_envcfg) c.(csr_mseccfg) c.(csr_fcsr) c.(csr_vcsr) c.(csr_vtype)
    c.(csr_hartid).
Definition set_csr_ip (v : Z) (c : csr_file) : csr_file :=
  mk_csr c.(csr_status) c.(csr_ie) v c.(csr_isa) c.(csr_edeleg) c.(csr_ideleg)
    c.(csr_tvec) c.(csr_scratch) c.(csr_epc) c.(csr_cause) c.(csr_tval) c.(csr_iselect)
    c.(csr_counteren) c.(csr_envcfg) c.(csr_mseccfg) c.(csr_fcsr) c.(csr_vcsr) c.(csr_vtype)
    c.(csr_hartid).
Definition set_csr_isa (v : Z) (c : csr_file) : csr_file :=
  mk_csr c.(csr_status) c.(csr_ie) c.(csr_ip) v c.(csr_edeleg) c.(csr_ideleg) c.(csr_tvec)
    c.(csr_scratch) c.(csr_epc) c.(csr_cause) c.(csr_tval) c.(csr_iselect) c.(csr_counteren)
    c.(csr_envcfg) c.(csr_mseccfg) c.(csr_fcsr) c.(csr_vcsr) c.(csr_vtype) c.(csr_hartid).
Definition set_csr_edeleg (v : Z -> Z) (c : csr_file) : csr_file :=
  mk_csr c.(csr_status) c.(csr_ie) c.(csr_ip) c.(csr_isa) v c.(csr_ideleg) c.(csr_tvec)
    c.(csr_scratch) c.(csr_epc) c.(csr_cause) c.(csr_tval) c.(csr_iselect) c.(csr_counteren)
    c.(csr_envcfg) c.(csr_mseccfg) c.(csr_fcsr) c.(csr_vcsr) c.(csr_vtype) c.(csr_hartid).
Definition set_csr_ideleg (v : Z -> Z) (c : csr_file) : csr_file :=
  mk_csr c.(csr_status) c.(csr_ie) c.(csr_ip) c.(csr_isa) c.(csr_edeleg) v c.(csr_tvec)
    c.(csr_scratch) c.(csr_epc) c.(csr_cause) c.(csr_tval) c.(csr_iselect) c.(csr_counteren)
    c.(csr_envcfg) c.(csr_mseccfg) c.(csr_fcsr) c.(csr_vcsr) c.(csr_vtype) c.(csr_hartid).
Definition set_csr_tvec (v : Z -> Z) (c : csr_file) : csr_file :=
  mk_csr c.(csr_status) c.(csr_ie) c.(csr_ip) c.(csr_isa) c.(csr_edeleg) c.(csr_ideleg) v
    c.(csr_scratch) c.(csr_epc) c.(csr_cause) c.(csr_tval) c.(csr_iselect) c.(csr_counteren)
    c.(csr_envcfg) c.(csr_mseccfg) c.(csr_fcsr) c.(csr_vcsr) c.(csr_vtype) c.(csr_hartid).
Definition set_csr_scratch (v : Z -> Z) (c : csr_file) : csr_file :=
  mk_csr c.(csr_status) c.(csr_ie) c.(csr_ip) c.(csr_isa) c.(csr_edeleg) c.(csr_ideleg)
    c.(csr_tvec) v c.(csr_epc) c.(csr_cause) c.(csr_tval) c.(csr_iselect) c.(csr_counteren)
    c.(csr_envcfg) c.(csr_mseccfg) c.(csr_fcsr) c.(csr_vcsr) c.(csr_vtype) c.(csr_hartid).
Definition set_csr_epc (v : Z -> Z) (c : csr_file) : csr_file :=
  mk_csr c.(csr_status) c.(csr_ie) c.(csr_ip) c.(csr_isa) c.(csr_edeleg) c.(csr_ideleg)
    c.(csr_tvec) c.(csr_scratch) v c.(csr_cause) c.(csr_tval) c.(csr_iselect)
    c.(csr_counteren) c.(csr_envcfg) c.(csr_mseccfg) c.(csr_fcsr) c.(csr_vcsr) c.(csr_vtype)
    c.(csr_hartid).
Definition set_csr_cause (v : Z -> Z) (c : csr_file) : csr_file :=
  mk_csr c.(csr_status) c.(csr_ie) c.(csr_ip) c.(csr_isa) c.(csr_edeleg) c.(csr_ideleg)
    c.(csr_tvec) c.(csr_scratch) c.(csr_epc) v c.(csr_tval) c.(csr_iselect)
    c.(csr_counteren) c.(csr_envcfg) c.(csr_mseccfg) c.(csr_fcsr) c.(csr_vcsr) c.(csr_vtype)
    c.(csr_hartid).
Definition set_csr_tval (v : Z -> Z) (c : csr_file) : csr_file :=
  mk_csr c.(csr_status) c.(csr_ie) c.(csr_ip) c.(csr_isa) c.(csr_edeleg) c.(csr_ideleg)
    c.(csr_tvec) c.(csr_scratch) c.(csr_epc) c.(csr_cause) v c.(csr_iselect)
    c.(csr_counteren) c.(csr_envcfg) c.(csr_mseccfg) c.(csr_fcsr) c.(csr_vcsr) c.(csr_vtype)
    c.(csr_hartid).
Definition set_csr_iselect (v : Z -> Z) (c : csr_file) : csr_file :=
  mk_csr c.(csr_status) c.(csr_ie) c.(csr_ip) c.(csr_isa) c.(csr_edeleg) c.(csr_ideleg)
    c.(csr_tvec) c.(csr_scratch) c.(csr_epc) c.(csr_cause) c.(csr_tval) v c.(csr_counteren)
    c.(csr_envcfg) c.(csr_mseccfg) c.(csr_fcsr) c.(csr_vcsr) c.(csr_vtype) c.(csr_hartid).
Definition set_csr_counteren (v : Z -> Z) (c : csr_file) : csr_file :=
  mk_csr c.(csr_status) c.(csr_ie) c.(csr_ip) c.(csr_isa) c.(csr_edeleg) c.(csr_ideleg)
    c.(csr_tvec) c.(csr_scratch) c.(csr_epc) c.(csr_cause) c.(csr_tval) c.(csr_iselect) v
    c.(csr_envcfg) c.(csr_mseccfg) c.(csr_fcsr) c.(csr_vcsr) c.(csr_vtype) c.(csr_hartid).
Definition set_csr_envcfg (v : Z -> Z) (c : csr_file) : csr_file :=
  mk_csr c.(csr_status) c.(csr_ie) c.(csr_ip) c.(csr_isa) c.(csr_edeleg) c.(csr_ideleg)
    c.(csr_tvec) c.(csr_scratch) c.(csr_epc) c.(csr_cause) c.(csr_tval) c.(csr_iselect)
    c.(csr_counteren) v c.(csr_mseccfg) c.(csr_fcsr) c.(csr_vcsr) c.(csr_vtype)
    c.(csr_hartid).
Definition set_csr_mseccfg (v : Z) (c : csr_file) : csr_file :=
  mk_csr c.(csr_status) c.(csr_ie) c.(csr_ip) c.(csr_isa) c.(csr_edeleg) c.(csr_ideleg)
    c.(csr_tvec) c.(csr_scratch) c.(csr_epc) c.(csr_cause) c.(csr_tval) c.(csr_iselect)
    c.(csr_counteren) c.(csr_envcfg) v c.(csr_fcsr) c.(csr_vcsr) c.(csr_vtype)
    c.(csr_hartid).
Definition set_csr_fcsr (v : Z) (c : csr_file) : csr_file :=
  mk_csr c.(csr_status) c.(csr_ie) c.(csr_ip) c.(csr_isa) c.(csr_edeleg) c.(csr_ideleg)
    c.(csr_tvec) c.(csr_scratch) c.(csr_epc) c.(csr_cause) c.(csr_tval) c.(csr_iselect)
    c.(csr_counteren) c.(csr_envcfg) c.(csr_mseccfg) v c.(csr_vcsr) c.(csr_vtype)
    c.(csr_hartid).
Definition set_csr_vcsr (v : Z) (c : csr_file) : csr_file :=
  mk_csr c.(csr_status) c.(csr_ie) c.(csr_ip) c.(csr_isa) c.(csr_edeleg) c.(csr_ideleg)
    c.(csr_tvec) c.(csr_scratch) c.(csr_epc) c.(csr_cause) c.(csr_tval) c.(csr_iselect)
    c.(csr_counteren) c.(csr_envcfg) c.(csr_mseccfg) c.(csr_fcsr) v c.(csr_vtype)
    c.(csr_hartid).
Definition set_csr_vtype (v : Z) (c : csr_file) : csr_file :=
  mk_csr c.(csr_status) c.(csr_ie) c.(csr_ip) c.(csr_isa) c.(csr_edeleg) c.(csr_ideleg)
    c.(csr_tvec) c.(csr_scratch) c.(csr_epc) c.(csr_cause) c.(csr_tval) c.(csr_iselect)
    c.(csr_counteren) c.(csr_envcfg) c.(csr_mseccfg) c.(csr_fcsr) c.(csr_vcsr) v
    c.(csr_hartid).
Definition set_csr_hartid (v : Z) (c : csr_file) : csr_file :=
  mk_csr c.(csr_status) c.(csr_ie) c.(csr_ip) c.(csr_isa) c.(csr_edeleg) c.(csr_ideleg)
    c.(csr_tvec) c.(csr_scratch) c.(csr_epc) c.(csr_cause) c.(csr_tval) c.(csr_iselect)
    c.(csr_counteren) c.(csr_envcfg) c.(csr_mseccfg) c.(csr_fcsr) c.(csr_vcsr) c.(csr_vtype)
    v.

(** The hart structure [rvvm_hart_t], followed by what the hart reaches through
    [vm->machine] and the host. *)
Record hart := mk_hart {
  running : bool;
  registers : Z -> Z;
  fpu_registers : Z -> Z;
  tlb : Z -> tlb_entry;
  mem : ram;
  root_page_table : Z;
  mmu_mode : Z;
  priv_mode : Z;
  rv64 : bool;
  trap : bool;
  trap_pc : Z;
  userland : bool;
  lrsc : bool;
  lrsc_addr : Z;
  lrsc_cas : Z;
  csr : csr_file;
  aia : option (bool -> aia_regfile);
  mtimecmp : Z;
  stimecmp : Z;
  pending_irqs : Z;
  pending_events : Z;
  preempt_ms : Z;
  wfi_waiters : Z;  (* threads sleeping on [vm->wfi_cond] *)
  wfi_wake : bool;  (* [vm->wfi_cond] was woken *)
  machine_rv64 : bool;  (* [vm->machine->rv64] *)
  machine_timer : Z;  (* [rvtimer_get(&vm->machine->timer)] *)
  machine_gdbstub : bool;  (* [vm->machine->gdbstub] is present *)
  fenv_exceptions : Z;  (* host floating-point exception flags *)
  fenv_rounding : Z;  (* host rounding mode *)
  entropy : nat -> Z;  (* 16-bit values the host generator will produce *)
  host : Z -> Z;  (* host memory, a byte per address *)
  fatal : bool  (* [rvvm_fatal] was called *)
}.

Definition set_running (v : bool) (vm : hart) : hart :=
  mk_hart v vm.(registers) vm.(fpu_registers) vm.(tlb) vm.(mem) vm.(root_page_table)
    vm.(mmu_mode) vm.(priv_mode) vm.(rv64) vm.(trap) vm.(trap_pc) vm.(userland) vm.(lrsc)
    vm.(lrsc_addr) vm.(lrsc_cas) vm.(csr) vm.(aia) vm.(mtimecmp) vm.(stimecmp)
    vm.(pending_irqs) vm.(pending_events) vm.(preempt_ms) vm.(wfi_waiters) vm.(wfi_wake)
    vm.(machine_rv64) vm.(machine_timer) vm.(machine_gdbstub) vm.(fenv_exceptions)
    vm.(fenv_rounding) vm.(entropy) vm.(host) vm.(fatal).
Definition set_registers (v : Z -> Z) (vm : hart) : hart :=
  mk_hart vm.(running) v vm.(fpu_registers) vm.(tlb) vm.(mem) vm.(root_page_table)
    vm.(mmu_mode) vm.(priv_mode) vm.(rv64) vm.(trap) vm.(trap_pc) vm.(userland) vm.(lrsc)
    vm.(lrsc_addr) vm.(lrsc_cas) vm.(csr) vm.(aia) vm.(mtimecmp) vm.(stimecmp)
    vm.(pending_irqs) vm.(pending_events) vm.(preempt_ms) vm.(wfi_waiters) vm.(wfi_wake)
    vm.(machine_rv64) vm.(machine_timer) vm.(machine_gdbstub) vm.(fenv_exceptions)
    vm.(fenv_rounding) vm.(entropy) vm.(host) vm.(fatal).
Definition set_fpu_registers (v : Z -> Z) (vm : hart) : hart :=
  mk_hart vm.(running) vm.(registers) v vm.(tlb) vm.(mem) vm.(root_page_table)
    vm.(mmu_mode) vm.(priv_mode) vm.(rv64) vm.(trap) vm.(trap_pc) vm.(userland) vm.(lrsc)
    vm.(lrsc_addr) vm.(lrsc_cas) vm.(csr) vm.(aia) vm.(mtimecmp) vm.(stimecmp)
    vm.(pending_irqs) vm.(pending_events) vm.(preempt_ms) vm.(wfi_waiters) vm.(wfi_wake)
    vm.(machine_rv64) vm.(machine_timer) vm.(machine_gdbstub) vm.(fenv_exceptions)
    vm.(fenv_rounding) vm.(entropy) vm.(host) vm.(fatal).
Definition set_tlb (v : Z -> tlb_entry) (vm : hart) : hart :=
  mk_hart vm.(running) vm.(registers) vm.(fpu_registers) v vm.(mem) vm.(root_page_table)
    vm.(mmu_mode) vm.(priv_mode) vm.(rv64) vm.(trap) vm.(trap_pc) vm.(userland) vm.(lrsc)
    vm.(lrsc_addr) vm.(lrsc_cas) vm.(csr) vm.(aia) vm.(mtimecmp) vm.(stimecmp)
    vm.(pending_irqs) vm.(pending_events) vm.(preempt_ms) vm.(wfi_waiters) vm.(wfi_wake)
    vm.(machine_rv64) vm.(machine_timer) vm.(machine_gdbstub) vm.(fenv_exceptions)
    vm.(fenv_rounding) vm.(entropy) vm.(host) vm.(fatal).
Definition set_mem (v : ram) (vm : hart) : hart :=
  mk_hart vm.(running) vm.(registers) vm.(fpu_registers) vm.(tlb) v vm.(root_page_table)
    vm.(mmu_mode) vm.(priv_mode) vm.(rv64) vm.(trap) vm.(trap_pc) vm.(userland) vm.(lrsc)
    vm.(lrsc_addr) vm.(lrsc_cas) vm.(csr) vm.(aia) vm.(mtimecmp) vm.(stimecmp)
    vm.(pending_irqs) vm.(pending_events) vm.(preempt_ms) vm.(wfi_waiters) vm.(wfi_wake)
    vm.(machine_rv64) vm.(machine_timer) vm.(machine_gdbstub) vm.(fenv_exceptions)
    vm.(fenv_rounding) vm.(entropy) vm.(host) vm.(fatal).
Definition set_root_page_table (v : Z) (vm : hart) : hart :=
  mk_hart vm.(running) vm.(registers) vm.(fpu_registers) vm.(tlb) vm.(mem) v vm.(mmu_mode)
    vm.(priv_mode) vm.(rv64) vm.(trap) vm.(trap_pc) vm.(userland) vm.(lrsc) vm.(lrsc_addr)
    vm.(lrsc_cas) vm.(csr) vm.(aia) vm.(mtimecmp) vm.(stimecmp) vm.(pending_irqs)
    vm.(pending_events) vm.(preempt_ms) vm.(wfi_waiters) vm.(wfi_wake) vm.(machine_rv64)
    vm.(machine_timer) vm.(machine_gdbstub) vm.(fenv_exceptions) vm.(fenv_rounding)
    vm.(entropy) vm.(host) vm.(fatal).
Definition set_mmu_mode (v : Z) (vm : hart) : hart :=
  mk_hart vm.(running) vm.(registers) vm.(fpu_registers) vm.(tlb) vm.(mem)
    vm.(root_page_table) v vm.(priv_mode) vm.(rv64) vm.(trap) vm.(trap_pc) vm.(userland)
    vm.(lrsc) vm.(lrsc_addr) vm.(lrsc_cas) vm.(csr) vm.(aia) vm.(mtimecmp) vm.(stimecmp)
    vm.(pending_irqs) vm.(pending_events) vm.(preempt_ms) vm.(wfi_waiters) vm.(wfi_wake)
    vm.(machine_rv64) vm.(machine_timer) vm.(machine_gdbstub) vm.(fenv_exceptions)
    vm.(fenv_rounding) vm.(entropy) vm.(host) vm.(fatal).
Definition set_priv_mode (v : Z) (vm : hart) : hart :=
  mk_hart vm.(running) vm.(registers) vm.(fpu_registers) vm.(tlb) vm.(mem)
    vm.(root_page_table) vm.(mmu_mode) v vm.(rv64) vm.(trap) vm.(trap_pc) vm.(userland)
    vm.(lrsc) vm.(lrsc_addr) vm.(lrsc_cas) vm.(csr) vm.(aia) vm.(mtimecmp) vm.(stimecmp)
    vm.(pending_irqs) vm.(pending_events) vm.(preempt_ms) vm.(wfi_waiters) vm.(wfi_wake)
    vm.(machine_rv64) vm.(machine_timer) vm.(machine_gdbstub) vm.(fenv_exceptions)
    vm.(fenv_rounding) vm.(entropy) vm.(host) vm.(fatal).
Definition set_rv64 (v : bool) (vm : hart) : hart :=
  mk_hart vm.(running) vm.(registers) vm.(fpu_registers) vm.(tlb) vm.(mem)
    vm.(root_page_table) vm.(mmu_mode) vm.(priv_mode) v vm.(trap) vm.(trap_pc) vm.(userland)
    vm.(lrsc) vm.(lrsc_addr) vm.(lrsc_cas) vm.(csr) vm.(aia) vm.(mtimecmp) vm.(stimecmp)
    vm.(pending_irqs) vm.(pending_events) vm.(preempt_ms) vm.(wfi_waiters) vm.(wfi_wake)
    vm.(machine_rv64) vm.(machine_timer) vm.(machine_gdbstub) vm.(fenv_exceptions)
    vm.(fenv_rounding) vm.(entropy) vm.(host) vm.(fatal).
Definition set_trap (v : bool) (vm : hart) : hart :=
  mk_hart vm.(running) vm.(registers) vm.(fpu_registers) vm.(tlb) vm.(mem)
    vm.(root_page_table) vm.(mmu_mode) vm.(priv_mode) vm.(rv64) v vm.(trap_pc) vm.(userland)
    vm.(lrsc) vm.(lrsc_addr) vm.(lrsc_cas) vm.(csr) vm.(aia) vm.(mtimecmp) vm.(stimecmp)
    vm.(pending_irqs) vm.(pending_events) vm.(preempt_ms) vm.(wfi_waiters) vm.(wfi_wake)
    vm.(machine_rv64) vm.(machine_timer) vm.(machine_gdbstub) vm.(fenv_exceptions)
    vm.(fenv_rounding) vm.(entropy) vm.(host) vm.(fatal).
Definition set_trap_pc (v : Z) (vm : hart) : hart :=
  mk_hart vm.(running) vm.(registers) vm.(fpu_registers) vm.(tlb) vm.(mem)
    vm.(root_page_table) vm.(mmu_mode) vm.(priv_mode) vm.(rv64) vm.(trap) v vm.(userland)
    vm.(lrsc) vm.(lrsc_addr) vm.(lrsc_cas) vm.(csr) vm.(aia) vm.(mtimecmp) vm.(stimecmp)
    vm.(pending_irqs) vm.(pending_events) vm.(preempt_ms) vm.(wfi_waiters) vm.(wfi_wake)
    vm.(machine_rv64) vm.(machine_timer) vm.(machine_gdbstub) vm.(fenv_exceptions)
    vm.(fenv_rounding) vm.(entropy) vm.(host) vm.(fatal).
Definition set_userland (v : bool) (vm : hart) : hart :=
  mk_hart vm.(running) vm.(registers) vm.(fpu_registers) vm.(tlb) vm.(mem)
    vm.(root_page_table) vm.(mmu_mode) vm.(priv_mode) vm.(rv64) vm.(trap) vm.(trap_pc) v
    vm.(lrsc) vm.(lrsc_addr) vm.(lrsc_cas) vm.(csr) vm.(aia) vm.(mtimecmp) vm.(stimecmp)
    vm.(pending_irqs) vm.(pending_events) vm.(preempt_ms) vm.(wfi_waiters) vm.(wfi_wake)
    vm.(machine_rv64) vm.(machine_timer) vm.(machine_gdbstub) vm.(fenv_exceptions)
    vm.(fenv_rounding) vm.(entropy) vm.(host) vm.(fatal).
Definition set_lrsc (v : bool) (vm : hart) : hart :=
  mk_hart vm.(running) vm.(registers) vm.(fpu_registers) vm.(tlb) vm.(mem)
    vm.(root_page_table) vm.(mmu_mode) vm.(priv_mode) vm.(rv64) vm.(trap) vm.(trap_pc)
    vm.(userland) v vm.(lrsc_addr) vm.(lrsc_cas) vm.(csr) vm.(aia) vm.(mtimecmp)
    vm.(stimecmp) vm.(pending_irqs) vm.(pending_events) vm.(preempt_ms) vm.(wfi_waiters)
    vm.(wfi_wake) vm.(machine_rv64) vm.(machine_timer) vm.(machine_gdbstub)
    vm.(fenv_exceptions) vm.(fenv_rounding) vm.(entropy) vm.(host) vm.(fatal).
Definition set_lrsc_addr (v : Z) (vm : hart) : hart :=
  mk_hart vm.(running) vm.(registers) vm.(fpu_registers) vm.(tlb) vm.(mem)
    vm.(root_page_table) vm.(mmu_mode) vm.(priv_mode) vm.(rv64) vm.(trap) vm.(trap_pc)
    vm.(userland) vm.(lrsc) v vm.(lrsc_cas) vm.(csr) vm.(aia) vm.(mtimecmp) vm.(stimecmp)
    vm.(pending_irqs) vm.(pending_events) vm.(preempt_ms) vm.(wfi_waiters) vm.(wfi_wake)
    vm.(machine_rv64) vm.(machine_timer) vm.(machine_gdbstub) vm.(fenv_exceptions)
    vm.(fenv_rounding) vm.(entropy) vm.(host) vm.(fatal).
Definition set_lrsc_cas (v : Z) (vm : hart) : hart :=
  mk_hart vm.(running) vm.(registers) vm.(fpu_registers) vm.(tlb) vm.(mem)
    vm.(root_page_table) vm.(mmu_mode) vm.(priv_mode) vm.(rv64) vm.(trap) vm.(trap_pc)
    vm.(userland) vm.(lrsc) vm.(lrsc_addr) v vm.(csr) vm.(aia) vm.(mtimecmp) vm.(stimecmp)
    vm.(pending_irqs) vm.(pending_events) vm.(preempt_ms) vm.(wfi_waiters) vm.(wfi_wake)
    vm.(machine_rv64) vm.(machine_timer) vm.(machine_gdbstub) vm.(fenv_exceptions)
    vm.(fenv_rounding) vm.(entropy) vm.(host) vm.(fatal).
Definition set_csr (v : csr_file) (vm : hart) : hart :=
  mk_hart vm.(running) vm.(registers) vm.(fpu_registers) vm.(tlb) vm.(mem)
    vm.(root_page_table) vm.(mmu_mode) vm.(priv_mode) vm.(rv64) vm.(trap) vm.(trap_pc)
    vm.(userland) vm.(lrsc) vm.(lrsc_addr) vm.(lrsc_cas) v vm.(aia) vm.(mtimecmp)
    vm.(stimecmp) vm.(pending_irqs) vm.(pending_events) vm.(preempt_ms) vm.(wfi_waiters)
    vm.(wfi_wake) vm.(machine_rv64) vm.(machine_timer) vm.(machine_gdbstub)
    vm.(fenv_exceptions) vm.(fenv_rounding) vm.(entropy) vm.(host) vm.(fatal).
Definition set_aia (v : option (bool -> aia_regfile)) (vm : hart) : hart :=
  mk_hart vm.(running) vm.(registers) vm.(fpu_registers) vm.(tlb) vm.(mem)
    vm.(root_page_table) vm.(mmu_mode) vm.(priv_mode) vm.(rv64) vm.(trap) vm.(trap_pc)
    vm.(userland) vm.(lrsc) vm.(lrsc_addr) vm.(lrsc_cas) vm.(csr) v vm.(mtimecmp)
    vm.(stimecmp) vm.(pending_irqs) vm.(pending_events) vm.(preempt_ms) vm.(wfi_waiters)
    vm.(wfi_wake) vm.(machine_rv64) vm.(machine_timer) vm.(machine_gdbstub)
    vm.(fenv_exceptions) vm.(fenv_rounding) vm.(entropy) vm.(host) vm.(fatal).
Definition set_mtimecmp (v : Z) (vm : hart) : hart :=
  mk_hart vm.(running) vm.(registers) vm.(fpu_registers) vm.(tlb) vm.(mem)
    vm.(root_page_table) vm.(mmu_mode) vm.(priv_mode) vm.(rv64) vm.(trap) vm.(trap_pc)
    vm.(userland) vm.(lrsc) vm.(lrsc_addr) vm.(lrsc_cas) vm.(csr) vm.(aia) v vm.(stimecmp)
    vm.(pending_irqs) vm.(pending_events) vm.(preempt_ms) vm.(wfi_waiters) vm.(wfi_wake)
    vm.(machine_rv64) vm.(machine_timer) vm.(machine_gdbstub) vm.(fenv_exceptions)
    vm.(fenv_rounding) vm.(entropy) vm.(host) vm.(fatal).
Definition set_stimecmp (v : Z) (vm : hart) : hart :=
  mk_hart vm.(running) vm.(registers) vm.(fpu_registers) vm.(tlb) vm.(mem)
    vm.(root_page_table) vm.(mmu_mode) vm.(priv_mode) vm.(rv64) vm.(trap) vm.(trap_pc)
    vm.(userland) vm.(lrsc) vm.(lrsc_addr) vm.(lrsc_cas) vm.(csr) vm.(aia) vm.(mtimecmp) v
    vm.(pending_irqs) vm.(pending_events) vm.(preempt_ms) vm.(wfi_waiters) vm.(wfi_wake)
    vm.(machine_rv64) vm.(machine_timer) vm.(machine_gdbstub) vm.(fenv_exceptions)
    vm.(fenv_rounding) vm.(entropy) vm.(host) vm.(fatal).
Definition set_pending_irqs (v : Z) (vm : hart) : hart :=
  mk_hart vm.(running) vm.(registers) vm.(fpu_registers) vm.(tlb) vm.(mem)
    vm.(root_page_table) vm.(mmu_mode) vm.(priv_mode) vm.(rv64) vm.(trap) vm.(trap_pc)
    vm.(userland) vm.(lrsc) vm.(lrsc_addr) vm.(lrsc_cas) vm.(csr) vm.(aia) vm.(mtimecmp)
    vm.(stimecmp) v vm.(pending_events) vm.(preempt_ms) vm.(wfi_waiters) vm.(wfi_wake)
    vm.(machine_rv64) vm.(machine_timer) vm.(machine_gdbstub) vm.(fenv_exceptions)
    vm.(fenv_rounding) vm.(entropy) vm.(host) vm.(fatal).
Definition set_pending_events (v : Z) (vm : hart) : hart :=
  mk_hart vm.(running) vm.(registers) vm.(fpu_registers) vm.(tlb) vm.(mem)
    vm.(root_page_table) vm.(mmu_mode) vm.(priv_mode) vm.(rv64) vm.(trap) vm.(trap_pc)
    vm.(userland) vm.(lrsc) vm.(lrsc_addr) vm.(lrsc_cas) vm.(csr) vm.(aia) vm.(mtimecmp)
    vm.(stimecmp) vm.(pending_irqs) v vm.(preempt_ms) vm.(wfi_waiters) vm.(wfi_wake)
    vm.(machine_rv64) vm.(machine_timer) vm.(machine_gdbstub) vm.(fenv_exceptions)
    vm.(fenv_rounding) vm.(entropy) vm.(host) vm.(fatal).
Definition set_preempt_ms (v : Z) (vm : hart) : hart :=
  mk_hart vm.(running) vm.(registers) vm.(fpu_registers) vm.(tlb) vm.(mem)
    vm.(root_page_table) vm.(mmu_mode) vm.(priv_mode) vm.(rv64) vm.(trap) vm.(trap_pc)
    vm.(userland) vm.(lrsc) vm.(lrsc_addr) vm.(lrsc_cas) vm.(csr) vm.(aia) vm.(mtimecmp)
    vm.(stimecmp) vm.(pending_irqs) vm.(pending_events) v vm.(wfi_waiters) vm.(wfi_wake)
    vm.(machine_rv64) vm.(machine_timer) vm.(machine_gdbstub) vm.(fenv_exceptions)
    vm.(fenv_rounding) vm.(entropy) vm.(host) vm.(fatal).
Definition set_wfi_waiters (v : Z) (vm : hart) : hart :=
  mk_hart vm.(running) vm.(registers) vm.(fpu_registers) vm.(tlb) vm.(mem)
    vm.(root_page_table) vm.(mmu_mode) vm.(priv_mode) vm.(rv64) vm.(trap) vm.(trap_pc)
    vm.(userland) vm.(lrsc) vm.(lrsc_addr) vm.(lrsc_cas) vm.(csr) vm.(aia) vm.(mtimecmp)
    vm.(stimecmp) vm.(pending_irqs) vm.(pending_events) vm.(preempt_ms) v vm.(wfi_wake)
    vm.(machine_rv64) vm.(machine_timer) vm.(machine_gdbstub) vm.(fenv_exceptions)
    vm.(fenv_rounding) vm.(entropy) vm.(host) vm.(fatal).
Definition set_wfi_wake (v : bool) (vm : hart) : hart :=
  mk_hart vm.(running) vm.(registers) vm.(fpu_registers) vm.(tlb) vm.(mem)
    vm.(root_page_table) vm.(mmu_mode) vm.(priv_mode) vm.(rv64) vm.(trap) vm.(trap_pc)
    vm.(userland) vm.(lrsc) vm.(lrsc_addr) vm.(lrsc_cas) vm.(csr) vm.(aia) vm.(mtimecmp)
    vm.(stimecmp) vm.(pending_irqs) vm.(pending_events) vm.(preempt_ms) vm.(wfi_waiters) v
    vm.(machine_rv64) vm.(machine_timer) vm.(machine_gdbstub) vm.(fenv_exceptions)
    vm.(fenv_rounding) vm.(entropy) vm.(host) vm.(fatal).
Definition set_machine_rv64 (v : bool) (vm : hart) : hart :=
  mk_hart vm.(running) vm.(registers) vm.(fpu_registers) vm.(tlb) vm.(mem)
    vm.(root_page_table) vm.(mmu_mode) vm.(priv_mode) vm.(rv64) vm.(trap) vm.(trap_pc)
    vm.(userland) vm.(lrsc) vm.(lrsc_addr) vm.(lrsc_cas) vm.(csr) vm.(aia) vm.(mtimecmp)
    vm.(stimecmp) vm.(pending_irqs) vm.(pending_events) vm.(preempt_ms) vm.(wfi_waiters)
    vm.(wfi_wake) v vm.(machine_timer) vm.(machine_gdbstub) vm.(fenv_exceptions)
    vm.(fenv_rounding) vm.(entropy) vm.(host) vm.(fatal).
Definition set_machine_timer (v : Z) (vm : hart) : hart :=
  mk_hart vm.(running) vm.(registers) vm.(fpu_registers) vm.(tlb) vm.(mem)
    vm.(root_page_table) vm.(mmu_mode) vm.(priv_mode) vm.(rv64) vm.(trap) vm.(trap_pc)
    vm.(userland) vm.(lrsc) vm.(lrsc_addr) vm.(lrsc_cas) vm.(csr) vm.(aia) vm.(mtimecmp)
    vm.(stimecmp) vm.(pending_irqs) vm.(pending_events) vm.(preempt_ms) vm.(wfi_waiters)
    vm.(wfi_wake) vm.(machine_rv64) v vm.(machine_gdbstub) vm.(fenv_exceptions)
    vm.(fenv_rounding) vm.(entropy) vm.(host) vm.(fatal).
Definition set_machine_gdbstub (v : bool) (vm : hart) : hart :=
  mk_hart vm.(running) vm.(registers) vm.(fpu_registers) vm.(tlb) vm.(mem)
    vm.(root_page_table) vm.(mmu_mode) vm.(priv_mode) vm.(rv64) vm.(trap) vm.(trap_pc)
    vm.(userland) vm.(lrsc) vm.(lrsc_addr) vm.(lrsc_cas) vm.(csr) vm.(aia) vm.(mtimecmp)
    vm.(stimecmp) vm.(pending_irqs) vm.(pending_events) vm.(preempt_ms) vm.(wfi_waiters)
    vm.(wfi_wake) vm.(machine_rv64) vm.(machine_timer) v vm.(fenv_exceptions)
    vm.(fenv_rounding) vm.(entropy) vm.(host) vm.(fatal).
Definition set_fenv_exceptions (v : Z) (vm : hart) : hart :=
  mk_hart vm.(running) vm.(registers) vm.(fpu_registers) vm.(tlb) vm.(mem)
    vm.(root_page_table) vm.(mmu_mode) vm.(priv_mode) vm.(rv64) vm.(trap) vm.(trap_pc)
    vm.(userland) vm.(lrsc) vm.(lrsc_addr) vm.(lrsc_cas) vm.(csr) vm.(aia) vm.(mtimecmp)
    vm.(stimecmp) vm.(pending_irqs) vm.(pending_events) vm.(preempt_ms) vm.(wfi_waiters)
    vm.(wfi_wake) vm.(machine_rv64) vm.(machine_timer) vm.(machine_gdbstub) v
    vm.(fenv_rounding) vm.(entropy) vm.(host) vm.(fatal).
Definition set_fenv_rounding (v : Z) (vm : hart) : hart :=
  mk_hart vm.(running) vm.(registers) vm.(fpu_registers) vm.(tlb) vm.(mem)
    vm.(root_page_table) vm.(mmu_mode) vm.(priv_mode) vm.(rv64) vm.(trap) vm.(trap_pc)
    vm.(userland) vm.(lrsc) vm.(lrsc_addr) vm.(lrsc_cas) vm.(csr) vm.(aia) vm.(mtimecmp)
    vm.(stimecmp) vm.(pending_irqs) vm.(pending_events) vm.(preempt_ms) vm.(wfi_waiters)
    vm.(wfi_wake) vm.(machine_rv64) vm.(machine_timer) vm.(machine_gdbstub)
    vm.(fenv_exceptions) v vm.(entropy) vm.(host) vm.(fatal).
Definition set_entropy (v : nat -> Z) (vm : hart) : hart :=
  mk_hart vm.(running) vm.(registers) vm.(fpu_registers) vm.(tlb) vm.(mem)
    vm.(root_page_table) vm.(mmu_mode) vm.(priv_mode) vm.(rv64) vm.(trap) vm.(trap_pc)
    vm.(userland) vm.(lrsc) vm.(lrsc_addr) vm.(lrsc_cas) vm.(csr) vm.(aia) vm.(mtimecmp)
    vm.(stimecmp) vm.(pending_irqs) vm.(pending_events) vm.(preempt_ms) vm.(wfi_waiters)
    vm.(wfi_wake) vm.(machine_rv64) vm.(machine_timer) vm.(machine_gdbstub)
    vm.(fenv_exceptions) vm.(fenv_rounding) v vm.(host) vm.(fatal).
Definition set_host (v : Z -> Z) (vm : hart) : hart :=
  mk_hart vm.(running) vm.(registers) vm.(fpu_registers) vm.(tlb) vm.(mem)
    vm.(root_page_table) vm.(mmu_mode) vm.(priv_mode) vm.(rv64) vm.(trap) vm.(trap_pc)
    vm.(userland) vm.(lrsc) vm.(lrsc_addr) vm.(lrsc_cas) vm.(csr) vm.(aia) vm.(mtimecmp)
    vm.(stimecmp) vm.(pending_irqs) vm.(pending_events) vm.(preempt_ms) vm.(wfi_waiters)
    vm.(wfi_wake) vm.(machine_rv64) vm.(machine_timer) vm.(machine_gdbstub)
    vm.(fenv_exceptions) vm.(fenv_rounding) vm.(entropy) v vm.(fatal).
Definition set_fatal (v : bool) (vm : hart) : hart :=
  mk_hart vm.(running) vm.(registers) vm.(fpu_registers) vm.(tlb) vm.(mem)
    vm.(root_page_table) vm.(mmu_mode) vm.(priv_mode) vm.(rv64) vm.(trap) vm.(trap_pc)
    vm.(userland) vm.(lrsc) vm.(lrsc_addr) vm.(lrsc_cas) vm.(csr) vm.(aia) vm.(mtimecmp)
    vm.(stimecmp) vm.(pending_irqs) vm.(pending_events) vm.(preempt_ms) vm.(wfi_waiters)
    vm.(wfi_wake) vm.(machine_rv64) vm.(machine_timer) vm.(machine_gdbstub)
    vm.(fenv_exceptions) vm.(fenv_rounding) vm.(entropy) vm.(host) v.

(** ** Shorthands for nested updates *)

Definition upd_csr (f : csr_file -> csr_file) (vm : hart) : hart := set_csr (f vm.(csr)) vm.

(** [vm->registers\[r\] = v] and [vm->csr.status = v]. *)
Definition set_reg (r v : Z) (vm : hart) : hart :=
  set_registers (<[r := v]> vm.(registers)) vm.
Definition set_status (v : Z) (vm : hart) : hart := upd_csr (set_csr_status v) vm.

Definition status (vm : hart) : Z := vm.(csr).(csr_status).
Definition reg (vm : hart) (r : Z) : Z := vm.(registers) r.
Definition pc (vm : hart) : Z := vm.(registers) RISCV_REG_PC.

(** C complement at 64 and 32 bits. *)
Definition not64 (x : Z) : Z := u64 (Z.lnot x).
Definition not32 (x : Z) : Z := u32 (Z.lnot x).

(** [rvvm_fatal]: aborts the process. *)
Definition rvvm_fatal (vm : hart) : hart := set_fatal true vm.

(** ** MMIO devices and the environment

    A handler receives the region offset, the operation size and the contents of the
    data buffer; it returns the new machine state, the new buffer contents and its
    result.  Device private data live in host memory. *)

Definition mmio_handler := hart -> Z -> Z -> list Z -> hart * list Z * bool.

Record mmio_dev := mk_mmio_dev {
  dev_addr : Z;
  dev_size : Z;
  dev_mapping : Z;  (* host pointer, 0 when NULL *)
  dev_read : option mmio_handler;
  dev_write : option mmio_handler;
  dev_min_op_size : Z;
  dev_max_op_size : Z
}.

(** What the CPU core calls outside of itself: the attached devices, the debugger stub,
    the command line, the version string, and what the other threads do to the hart while
    it sleeps on its condition variable (for at most a number of nanoseconds), with a
    bound on how often they wake it up. *)
Class Env := {
  mmio_devs : list mmio_dev;
  gdbstub_halt : hart -> hart * bool;
  has_arg_sv57 : bool;
  rvvm_mimpid : Z;
  condvar_wait_ns : hart -> Z -> hart;
  (** [RVVM_OPT_TIME_FREQ], the frequency of the machine timer. *)
  machine_time_freq : Z;
  wfi_wakeups : nat
}.

(** The XLEN the interpreter is compiled for ([RISCV32] or [RISCV64] templates). *)
Inductive xlen := RV32 | RV64.

#[export] Instance xlen_eq_dec : EqDecision xlen.
Proof. solve_decision. Defined.

Definition XLEN (x : xlen) : Z := match x with RV32 => 32 | RV64 => 64 end.

(** An environment with no devices and no debugger, where a sleeping hart is asked to return
    to its dispatch loop. *)
Definition demo_env : Env :=
  {| mmio_devs := []; gdbstub_halt := fun vm => (vm, false); has_arg_sv57 := false;
     rvvm_mimpid := 0; condvar_wait_ns := fun vm _ => set_running false vm; machine_time_freq := 10000000; wfi_wakeups := 1 |}.
