(* ===== verification/Snapshot.v ===== *)
(** * Block devices and snapshots (src/core/rvvm_blk.c, rvvm_snapshot.c)

    A block device reads and writes an image, whose format is the class [BlkImage], at an
    offset or at a head that moves.  A snapshot is a chain of named sections on a block
    device: a header with the position of the next section, the name, and the fields of a
    device as little-endian integers.  Theorem: sections are read back as they were written,
    if they are read in the order they were written and another section follows them. *)

From S2P Require Import Prelude BitOps MemOps Utils State.

(** ** Block devices *)

Definition RVVM_BLK_READ : Z := 0x01.
Definition RVVM_BLK_WRITE : Z := 0x02.
Definition RVVM_BLK_GROW : Z := 0x80.
Definition RVVM_BLK_SEEK_SET : Z := 0x00.
Definition RVVM_BLK_SEEK_CUR : Z := 0x01.
Definition RVVM_BLK_SEEK_END : Z := 0x02.

(** The callbacks of an image format: [img_read size off], [img_write bytes off] and the
    number of bytes written, [img_set_size], [img_trim off size]. *)
Class BlkImage (F : Type) := {
  img_read : F -> Z -> Z -> list Z;
  img_write : F -> list Z -> Z -> F * Z;
  img_set_size : F -> Z -> F * bool;
  img_trim : F -> Z -> Z -> F * bool
}.

(** An image that works: it has contents, reading returns them, writing changes them. *)
Class BlkImageOk (F : Type) `{BlkImage F} := {
  img_bytes : F -> memory;
  img_read_ok : forall f size off, img_read f size off = get_bytes (Z.to_nat size) (img_bytes f) off;
  img_write_ok : forall f l off, snd (img_write f l off) = Z.of_nat (length l) /\
    forall q, img_bytes (fst (img_write f l off)) q = put_bytes (img_bytes f) off l q
}.

Record rvvm_blk_dev (F : Type) := mk_blk { bd_data : F; bd_size : Z; bd_head : Z; bd_opts : Z }.
Arguments mk_blk {F}. Arguments bd_data {F}. Arguments bd_size {F}. Arguments bd_head {F}. Arguments bd_opts {F}.

Section Blk.
Context {F : Type} `{BlkImage F}.
Local Abbreviation blk_dev := (rvvm_blk_dev F).

Definition set_bd_data (v : F) (b : blk_dev) : blk_dev := mk_blk v b.(bd_size) b.(bd_head) b.(bd_opts).
Definition set_bd_size (v : Z) (b : blk_dev) : blk_dev := mk_blk b.(bd_data) v b.(bd_head) b.(bd_opts).
Definition set_bd_head (v : Z) (b : blk_dev) : blk_dev := mk_blk b.(bd_data) b.(bd_size) v b.(bd_opts).

Definition rvvm_blk_set_size (b : blk_dev) (size : Z) : blk_dev * bool :=
  if nz (b.(bd_opts) .& RVVM_BLK_WRITE) then
    let '(f, ok) := img_set_size b.(bd_data) size in
    let b := set_bd_data f b in
    if ok : bool then (set_bd_size size b, true) else (b, false)
  else (b, false).

(** The bytes read. *)
Definition rvvm_blk_read (b : blk_dev) (size off : Z) : list Z :=
  if nz (b.(bd_opts) .& RVVM_BLK_READ) then
    if off <? b.(bd_size) then
      let remain := b.(bd_size) - off in
      let size := if remain <? size then remain else size in
      img_read b.(bd_data) size off
    else []
  else [].

(** Nothing else writes: the loop ends in its first iteration. *)
Definition rvvm_blk_grow_size (b : blk_dev) (old_size size : Z) : blk_dev :=
  if size <=? old_size then b else set_bd_size size b.

(** The device and the number of bytes written. *)
Definition rvvm_blk_write (b : blk_dev) (src : list Z) (off : Z) : blk_dev * Z :=
  let size := Z.of_nat (length src) in
  let put l := let '(f, n) := img_write b.(bd_data) l off in (set_bd_data f b, n) in
  let grow :=
    if nz (b.(bd_opts) .& RVVM_BLK_GROW) && (off <? u64 (off + size)) then
      let '(b', ret) := put src in (rvvm_blk_grow_size b' b.(bd_size) (u64 (off + ret)), ret)
    else (b, 0) in
  if nz (b.(bd_opts) .& RVVM_BLK_WRITE) then
    if off <? b.(bd_size) then
      let remain := b.(bd_size) - off in
      if size <=? remain then put src
      else if negb (nz (b.(bd_opts) .& RVVM_BLK_GROW)) then put (take (Z.to_nat remain) src)
      else grow
    else grow
  else (b, 0).

Definition rvvm_blk_trim (b : blk_dev) (off size : Z) : blk_dev * bool :=
  if nz (b.(bd_opts) .& RVVM_BLK_WRITE) then
    if (off <? b.(bd_size)) && (size <=? b.(bd_size) - off) then
      let '(f, ok) := img_trim b.(bd_data) off size in (set_bd_data f b, ok)
    else (b, false)
  else (b, false).

Definition rvvm_blk_tell_head (b : blk_dev) : Z := b.(bd_head).

Definition rvvm_blk_seek_head (b : blk_dev) (off whence : Z) : blk_dev * bool :=
  let off :=
    if whence =? RVVM_BLK_SEEK_CUR then s64 (rvvm_blk_tell_head b + off)
    else if whence =? RVVM_BLK_SEEK_END then s64 (b.(bd_size) + off)
    else if negb (whence =? RVVM_BLK_SEEK_SET) then -1
    else off in
  if 0 <=? off then (set_bd_head off b, true) else (b, false).

Definition rvvm_blk_write_head (b : blk_dev) (src : list Z) : blk_dev * Z :=
  let '(b, ret) := rvvm_blk_write b src (rvvm_blk_tell_head b) in
  (if nz ret then fst (rvvm_blk_seek_head b ret RVVM_BLK_SEEK_CUR) else b, ret).

Definition rvvm_blk_read_head (b : blk_dev) (size : Z) : blk_dev * list Z :=
  let l := rvvm_blk_read b size (rvvm_blk_tell_head b) in
  let ret := Z.of_nat (length l) in
  (if nz ret then fst (rvvm_blk_seek_head b ret RVVM_BLK_SEEK_CUR) else b, l).

End Blk.

(** ** Snapshots *)

Definition SNAP_MAGIC : list Z :=
  [0x7F; 0x72; 0x76; 0x76; 0x6D; 0x2D; 0x73; 0x6E; 0x61; 0x70; 0x73; 0x68; 0x6F; 0x74; 0x30; 0xFF].

Record rvvm_snapshot (F : Type) := mk_snap { sn_blk : rvvm_blk_dev F; sn_off : Z; sn_out : bool; sn_err : bool }.
Arguments mk_snap {F}. Arguments sn_blk {F}. Arguments sn_off {F}. Arguments sn_out {F}. Arguments sn_err {F}.

Section Snap.
Context {F : Type} `{BlkImage F}.
Local Abbreviation snapshot := (rvvm_snapshot F).

Definition set_sn_blk (v : rvvm_blk_dev F) (s : snapshot) : snapshot := mk_snap v s.(sn_off) s.(sn_out) s.(sn_err).
Definition set_sn_off (v : Z) (s : snapshot) : snapshot := mk_snap s.(sn_blk) v s.(sn_out) s.(sn_err).
Definition set_sn_err (v : bool) (s : snapshot) : snapshot := mk_snap s.(sn_blk) s.(sn_off) s.(sn_out) v.

Definition rvvm_snapshot_open (blk : rvvm_blk_dev F) (write : bool) : snapshot := mk_snap blk 0 write false.
Definition rvvm_snapshot_close (s : snapshot) : bool := negb s.(sn_err).
Definition rvvm_snapshot_writing (s : snapshot) : bool := s.(sn_out).

Definition snap_header (next : Z) : list Z := SNAP_MAGIC ++ le_split 8 next.

Definition rvvm_snapshot_section_next (s : snapshot) : snapshot * bool :=
  if s.(sn_out) then
    let prev := s.(sn_off) in
    let s := set_sn_off (rvvm_blk_tell_head s.(sn_blk)) s in
    let '(blk, n) := rvvm_blk_write s.(sn_blk) (snap_header s.(sn_off)) prev in
    let s := set_sn_blk blk s in
    if n =? 24 then
      let '(blk, n) := rvvm_blk_write_head s.(sn_blk) (snap_header 0) in
      let s := set_sn_blk blk s in
      if n =? 24 then (s, true) else (set_sn_err true s, false)
    else (set_sn_err true s, false)
  else
    let '(blk, tmp) := rvvm_blk_read_head s.(sn_blk) 24 in
    let s := set_sn_blk blk s in
    if (Z.of_nat (length tmp) =? 24) && bool_decide (take 16 tmp = SNAP_MAGIC) then
      (set_sn_off (le_combine (drop 16 tmp)) s, true)
    else (set_sn_err true s, false).

(** The data afterwards is the third component; a short read leaves the rest as it was. *)
Definition rvvm_snapshot_data (s : snapshot) (data : list Z) : snapshot * bool * list Z :=
  let size := Z.of_nat (length data) in
  if negb s.(sn_err) then
    if s.(sn_out) then
      let '(blk, n) := rvvm_blk_write_head s.(sn_blk) data in
      (set_sn_blk blk s, n =? size, data)
    else if s.(sn_off) <? u64 (rvvm_blk_tell_head s.(sn_blk) + size) then (s, false, data)
    else
      let '(blk, l) := rvvm_blk_read_head s.(sn_blk) size in
      (set_sn_blk blk s, Z.of_nat (length l) =? size, l ++ drop (length l) data)
  else (s, false, data).

(** An aligned variable of [size] bytes with value [v]; the value afterwards. *)
Definition rvvm_snapshot_host (s : snapshot) (size : nat) (v : Z) : snapshot * bool * Z :=
  if (size =? 1)%nat || (size =? 2)%nat || (size =? 4)%nat || (size =? 8)%nat then
    let '(s, ok, tmp) := rvvm_snapshot_data s (le_split size v) in
    if negb ok then (s, false, if (size =? 1)%nat then le_combine tmp else v)
    else if negb s.(sn_out) then (s, true, le_combine tmp)
    else (s, true, v)
  else (s, false, v).

(** The loop over sections until one has the name; an iteration that does not end the loop
    moves the head, so [fuel] is the size of the device. *)
Fixpoint section_loop (fuel : nat) (s : snapshot) (buf name : list Z) : snapshot * bool :=
  match fuel with
  | O => (s, false)
  | S fuel =>
      let '(s, ok) := rvvm_snapshot_section_next s in
      if ok : bool then
        let '(s, ok, buf) := rvvm_snapshot_data s buf in
        if ok : bool then
          if negb s.(sn_out) && negb (rvvm_strcmp buf name) then section_loop fuel s buf name else (s, true)
        else (s, false)
      else (s, false)
  end.

(** [buf] is the part of the buffer that is written or read. *)
Definition rvvm_snapshot_section (s : snapshot) (name : list Z) : snapshot * bool :=
  if negb s.(sn_err) then
    let len := Nat.min (length name) 255 in
    let buf := if s.(sn_out) then take len name else repeat 0 len in
    section_loop (S (Z.to_nat s.(sn_blk).(bd_size))) s buf name
  else (s, false).

(** A [suspend] callback: a section and its fields, each with size and value; the values
    afterwards.  The results of the calls are ignored, as the callbacks do. *)
Fixpoint suspend_fields (s : snapshot) (fields : list (nat * Z)) : snapshot * list (nat * Z) :=
  match fields with
  | [] => (s, [])
  | (size, v) :: fields =>
      let '(s, _, v') := rvvm_snapshot_host s size v in
      let '(s, fields) := suspend_fields s fields in
      (s, (size, v') :: fields)
  end.

Definition suspend_section (s : snapshot) (name : list Z) (fields : list (nat * Z)) : snapshot * list (nat * Z) :=
  let '(s, _) := rvvm_snapshot_section s name in suspend_fields s fields.

Fixpoint suspend_all (s : snapshot) (secs : list (list Z * list (nat * Z))) : snapshot * list (list Z * list (nat * Z)) :=
  match secs with
  | [] => (s, [])
  | (name, fields) :: secs =>
      let '(s, fields) := suspend_section s name fields in
      let '(s, secs) := suspend_all s secs in
      (s, (name, fields) :: secs)
  end.

End Snap.

(** ** Contents of a device *)

Section Holds.
Context {F : Type} `{BlkImageOk F}.
Local Abbreviation blk_dev := (rvvm_blk_dev F).
Local Abbreviation zlen l := (Z.of_nat (length l)).

(** A device that may be read, written and extended, and holds exactly [l]. *)
Record holds (b : blk_dev) (l : list Z) : Prop := mk_holds {
  hd_opts : b.(bd_opts) = 0x83;
  hd_size : b.(bd_size) = zlen l;
  hd_bytes : get_bytes (length l) (img_bytes b.(bd_data)) 0 = l
}.

Lemma get_bytes_slice m (a c d : list Z) : get_bytes (length (a ++ c ++ d)) m 0 = a ++ c ++ d -> get_bytes (length c) m (zlen a) = c.
Proof.
  rewrite !length_app, !get_bytes_app, Z.add_0_l. intros E.
  apply app_inj_1 in E as [_ E]; [|by rewrite length_get_bytes]. apply app_inj_1 in E as [E _]; [done|by rewrite length_get_bytes].
Qed.

(** Changing the middle. *)
Lemma put_bytes_slice m m' (a c d src : list Z) : get_bytes (length (a ++ c ++ d)) m 0 = a ++ c ++ d -> length src = length c ->
  (forall q, m' q = put_bytes m (zlen a) src q) -> get_bytes (length (a ++ src ++ d)) m' 0 = a ++ src ++ d.
Proof.
  intros E Hl Hm. rewrite !length_app, !get_bytes_app, Z.add_0_l, Hl in *.
  apply app_inj_1 in E as [Ea E]; [|by rewrite length_get_bytes]. apply app_inj_1 in E as [_ Ed]; [|by rewrite length_get_bytes].
  f_equal; [|f_equal].
  - transitivity (get_bytes (length a) m 0); [|done]. apply get_bytes_ext. intros i Hi. rewrite Hm. apply put_bytes_outside. lia.
  - rewrite <- Hl. transitivity (get_bytes (length src) (put_bytes m (zlen a) src) (zlen a)); [|apply get_put_same].
    apply get_bytes_ext. intros i Hi. apply Hm.
  - rewrite <- Ed. rewrite length_get_bytes. apply get_bytes_ext. intros i Hi. rewrite Hm. apply put_bytes_outside. lia.
Qed.

Lemma write_middle b a c d src : holds b (a ++ c ++ d) -> length src = length c -> src <> [] ->
  let '(b', n) := rvvm_blk_write b src (zlen a) in
  n = zlen src /\ holds b' (a ++ src ++ d) /\ b'.(bd_head) = b.(bd_head).
Proof.
  intros [Ho Hs Hb] Hl Hne. unfold rvvm_blk_write. rewrite Ho, Hs. rewrite !length_app in *.
  assert (0 < length src)%nat by (destruct src; [done|cbn; lia]).
  change (nz (0x83 .& RVVM_BLK_WRITE)) with true. destruct (Z.ltb_spec (zlen a) (Z.of_nat (length a + (length c + length d)))); [|lia].
  destruct (Z.leb_spec (zlen src) (Z.of_nat (length a + (length c + length d)) - zlen a)); [|lia].
  destruct (img_write_ok b.(bd_data) src (zlen a)) as [Hn Hq]. destruct (img_write (bd_data b) src (zlen a)) as [f n]. cbn [fst snd] in *.
  split_and!; [done| |done]. split; [done| |].
  - cbn [bd_size set_bd_data]. rewrite Hs, !length_app. lia.
  - cbn [bd_data set_bd_data]. rewrite <- !length_app in Hb. by apply (put_bytes_slice (img_bytes b.(bd_data)) _ a c d src).
Qed.

Lemma write_end b l src : holds b l -> src <> [] -> zlen l + zlen src < 2 ^ 63 ->
  let '(b', n) := rvvm_blk_write b src (zlen l) in
  n = zlen src /\ holds b' (l ++ src) /\ b'.(bd_head) = b.(bd_head).
Proof.
  intros [Ho Hs Hb] Hne Hlim. unfold rvvm_blk_write. rewrite Ho, Hs.
  assert (0 < length src)%nat by (destruct src; [done|cbn; lia]).
  change (nz (0x83 .& RVVM_BLK_WRITE)) with true. change (nz (0x83 .& RVVM_BLK_GROW)) with true.
  destruct (Z.ltb_spec (zlen l) (zlen l)); [lia|]. rewrite (wrap_small 64) by (unfold urange; lia).
  destruct (Z.ltb_spec (zlen l) (zlen l + zlen src)); [|lia]. cbn [andb].
  destruct (img_write_ok b.(bd_data) src (zlen l)) as [Hn Hq]. destruct (img_write (bd_data b) src (zlen l)) as [f n]. cbn [fst snd] in *. subst n.
  rewrite (wrap_small 64) by (unfold urange; lia). unfold rvvm_blk_grow_size. destruct (Z.leb_spec (zlen l + zlen src) (zlen l)); [lia|].
  split_and!; [done| |done]. split; [done| |].
  - cbn [bd_size set_bd_size]. rewrite length_app. lia.
  - cbn [bd_data set_bd_size set_bd_data]. rewrite length_app, get_bytes_app, Z.add_0_l. f_equal.
    + transitivity (get_bytes (length l) (img_bytes (bd_data b)) 0); [|done]. apply get_bytes_ext. intros i Hi. rewrite Hq. apply put_bytes_outside. lia.
    + transitivity (get_bytes (length src) (put_bytes (img_bytes (bd_data b)) (zlen l) src) (zlen l)); [|apply get_put_same]. apply get_bytes_ext. intros i Hi. apply Hq.
Qed.

Lemma seek_cur (b : blk_dev) n : 0 <= n -> 0 <= b.(bd_head) -> b.(bd_head) + n < 2 ^ 63 ->
  fst (rvvm_blk_seek_head b n RVVM_BLK_SEEK_CUR) = set_bd_head (b.(bd_head) + n) b.
Proof.
  intros Hn Hh Hl. unfold rvvm_blk_seek_head, rvvm_blk_tell_head. cbn [Z.eqb RVVM_BLK_SEEK_CUR Pos.eqb].
  rewrite signed_small by (unfold srange; lia). by destruct (Z.leb_spec 0 (b.(bd_head) + n)); [|lia].
Qed.

Lemma write_head_end b l src : holds b l -> b.(bd_head) = zlen l -> src <> [] -> zlen l + zlen src < 2 ^ 63 ->
  let '(b', n) := rvvm_blk_write_head b src in n = zlen src /\ holds b' (l ++ src) /\ b'.(bd_head) = zlen (l ++ src).
Proof.
  intros Hb Hh Hne Hlim. unfold rvvm_blk_write_head, rvvm_blk_tell_head. rewrite Hh.
  pose proof (write_end b l src Hb Hne Hlim) as Hw. destruct (rvvm_blk_write b src (zlen l)) as [b' n]. destruct Hw as (-> & Hb' & Hh').
  assert (0 < length src)%nat by (destruct src; [done|cbn; lia]). unfold nz. destruct (Z.eqb_spec (zlen src) 0); [lia|]. cbn [negb].
  rewrite seek_cur by lia. split_and!; [done|by destruct Hb'|]. cbn [bd_head set_bd_head]. rewrite length_app. lia.
Qed.

(** Reading at the head. *)
Lemma read_head b a c d : holds b (a ++ c ++ d) -> b.(bd_head) = zlen a -> zlen (a ++ c ++ d) < 2 ^ 63 ->
  let '(b', l) := rvvm_blk_read_head b (zlen c) in l = c /\ holds b' (a ++ c ++ d) /\ b'.(bd_head) = zlen (a ++ c).
Proof.
  intros Hb Hh Hlim. destruct Hb as [Ho Hs Hb]. unfold rvvm_blk_read_head, rvvm_blk_tell_head, rvvm_blk_read. rewrite Ho, Hs, Hh.
  change (nz (0x83 .& RVVM_BLK_READ)) with true.
  assert (length (a ++ c ++ d) = length a + (length c + length d))%nat as El by (by rewrite !length_app).
  destruct (Z.ltb_spec (zlen a) (zlen (a ++ c ++ d))).
  - destruct (Z.ltb_spec (zlen (a ++ c ++ d) - zlen a) (zlen c)); [lia|]. rewrite img_read_ok, Nat2Z.id, (get_bytes_slice _ a c d) by done.
    split; [done|]. unfold nz. destruct (Z.eqb_spec (zlen c) 0); cbn [negb].
    + split; [done|]. rewrite Hh, length_app. lia.
    + rewrite seek_cur by lia. split; [by split|]. cbn [bd_head set_bd_head]. rewrite Hh, length_app. lia.
  - assert (length c = 0)%nat as E0 by lia. destruct c; [|done]. cbn. split; [done|]. split; [by split|]. by rewrite app_nil_r.
Qed.

End Holds.

(** ** Layout *)

(** The bytes of finished sections, from position [pos] on, and of fields. *)
Fixpoint enc (pos : Z) (secs : list (list Z * list Z)) : list Z :=
  match secs with
  | [] => []
  | (name, body) :: secs =>
      let next := pos + 24 + Z.of_nat (length name) + Z.of_nat (length body) in
      snap_header next ++ name ++ body ++ enc next secs
  end.

Definition field_bytes (fields : list (nat * Z)) : list Z := concat (map (fun '(size, v) => le_split size v) fields).

Definition field_ok (f : nat * Z) : Prop :=
  (fst f = 1 \/ fst f = 2 \/ fst f = 4 \/ fst f = 8)%nat /\ urange (8 * Z.of_nat (fst f)) (snd f).

(** Names as the devices use them. *)
Definition name_ok (name : list Z) : Prop := name <> [] /\ (length name <= 255)%nat /\ Forall (fun c => c <> 0) name.
Definition sec_ok (sec : list Z * list (nat * Z)) : Prop := name_ok (fst sec) /\ Forall field_ok (snd sec).

Definition sec_bytes (sec : list Z * list (nat * Z)) : list Z * list Z := (fst sec, field_bytes (snd sec)).

Lemma length_header next : length (snap_header next) = 24%nat.
Proof. unfold snap_header. by rewrite length_app, length_le_split. Qed.

Lemma enc_snoc secs name body : forall pos,
  enc pos (secs ++ [(name, body)]) =
  enc pos secs ++ snap_header (pos + Z.of_nat (length (enc pos secs)) + 24 + Z.of_nat (length name) + Z.of_nat (length body)) ++ name ++ body.
Proof.
  induction secs as [|[n b] secs IH]; intros pos; cbn [app enc].
  - rewrite app_nil_r. cbn [length]. do 2 f_equal. lia.
  - rewrite IH, <- !app_assoc. do 4 f_equal. rewrite !length_app, length_header. f_equal. f_equal. lia.
Qed.

Section RoundTrip.
Context {F : Type} `{BlkImageOk F}.
Local Abbreviation snapshot := (rvvm_snapshot F).
Local Abbreviation zlen l := (Z.of_nat (length l)).

(** A snapshot being written: finished sections and the current one. *)
Record writing (secs : list (list Z * list Z)) (name body : list Z) (s : snapshot) : Prop := mk_writing {
  wr_out : s.(sn_out) = true;
  wr_err : s.(sn_err) = false;
  wr_off : s.(sn_off) = zlen (enc 0 secs);
  wr_holds : holds s.(sn_blk) (enc 0 secs ++ snap_header 0 ++ name ++ body);
  wr_head : s.(sn_blk).(bd_head) = zlen (enc 0 secs ++ snap_header 0 ++ name ++ body)
}.

Lemma write_data secs name body s data : writing secs name body s -> data <> [] ->
  zlen (enc 0 secs ++ snap_header 0 ++ name ++ body) + zlen data < 2 ^ 63 ->
  let '(s', ok, data') := rvvm_snapshot_data s data in
  ok = true /\ data' = data /\ s'.(sn_out) = true /\ s'.(sn_err) = false /\ s'.(sn_off) = s.(sn_off) /\
  holds s'.(sn_blk) (enc 0 secs ++ snap_header 0 ++ name ++ body ++ data) /\
  s'.(sn_blk).(bd_head) = zlen (enc 0 secs ++ snap_header 0 ++ name ++ body ++ data).
Proof.
  intros [Ho He Hoff Hh Hhd] Hne Hlim. unfold rvvm_snapshot_data. rewrite He, Ho. cbn [negb].
  pose proof (write_head_end _ _ data Hh Hhd Hne Hlim) as Hw. destruct (rvvm_blk_write_head (sn_blk s) data) as [b n].
  destruct Hw as (-> & Hb & Hbh). rewrite <- !app_assoc in Hb, Hbh. cbn [sn_out sn_err sn_off sn_blk set_sn_blk].
  split_and!; try done. apply Z.eqb_refl.
Qed.

Lemma write_fields secs name fields : forall body s, writing secs name body s -> Forall field_ok fields ->
  zlen (enc 0 secs ++ snap_header 0 ++ name ++ body) + zlen (field_bytes fields) < 2 ^ 63 ->
  writing secs name (body ++ field_bytes fields) (fst (suspend_fields s fields)).
Proof.
  induction fields as [|[size v] fields IH]; intros body s Hw Hf Hlim; [by rewrite app_nil_r|].
  inversion_clear Hf as [|? ? [Hsz Hv] Hf']. cbn [fst snd] in *. cbn [suspend_fields]. unfold rvvm_snapshot_host.
  assert ((size =? 1) || (size =? 2) || (size =? 4) || (size =? 8) = true)%nat as ->.
  { destruct Hsz as [->|[->|[->| ->]]]; done. }
  change (field_bytes ((size, v) :: fields)) with (le_split size v ++ field_bytes fields) in *. rewrite (length_app (le_split size v)), length_le_split in Hlim.
  assert (le_split size v <> []) as Hne by (destruct Hsz as [->|[->|[->| ->]]]; done).
  pose proof (write_data secs name body s (le_split size v) Hw Hne) as Hd. rewrite length_le_split in Hd.
  destruct (rvvm_snapshot_data s (le_split size v)) as [[s1 ok] d]. destruct Hd as (-> & -> & Ho & He & Hoff & Hh & Hhd); [lia|].
  cbn [negb]. rewrite Ho. cbn [negb].
  assert (writing secs name (body ++ le_split size v) s1) as Hw1 by (split; try done; rewrite Hoff; apply Hw).
  specialize (IH (body ++ le_split size v) s1 Hw1 Hf'). destruct (suspend_fields s1 fields) as [s2 fs]. cbn [fst] in *.
  rewrite app_assoc. apply IH. rewrite !length_app, length_le_split in *. lia.
Qed.

(** Where the next section starts: after the current one, or at the beginning. *)
Definition next_at (secs : list (list Z * list Z)) (s : snapshot) : Prop :=
  (exists secs0 name body, secs = secs0 ++ [(name, body)] /\ writing secs0 name body s) \/
  (secs = [] /\ s.(sn_out) = true /\ s.(sn_err) = false /\ s.(sn_off) = 0 /\ holds s.(sn_blk) [] /\ s.(sn_blk).(bd_head) = 0).

Lemma le_combine_header next : urange 64 next -> take 16 (snap_header next) = SNAP_MAGIC /\ le_combine (drop 16 (snap_header next)) = next.
Proof.
  intros Hn. unfold snap_header. change 16%nat with (length SNAP_MAGIC). rewrite take_app_length, drop_app_length. split; [done|].
  rewrite le_combine_split. by apply (wrap_small 64).
Qed.

(** Starting a section. *)
Lemma write_section_next secs s : next_at secs s -> zlen (enc 0 secs) + 24 < 2 ^ 63 ->
  let '(s', ok) := rvvm_snapshot_section_next s in ok = true /\ writing secs [] [] s'.
Proof.
  intros Hs Hlim. unfold rvvm_snapshot_section_next, rvvm_blk_tell_head.
  destruct Hs as [(secs0 & name & body & -> & Hw)|(-> & Ho & He & Hoff & Hh & Hhd)].
  - destruct Hw as [Ho He Hoff Hh Hhd]. rewrite Ho, Hoff. cbn [sn_off sn_blk set_sn_off].
    assert ((sn_blk s).(bd_head) = zlen (enc 0 (secs0 ++ [(name, body)]))) as Etot.
    { rewrite Hhd, enc_snoc, !length_app, !length_header. done. }
    pose proof (write_middle (sn_blk s) (enc 0 secs0) (snap_header 0) (name ++ body) (snap_header (sn_blk s).(bd_head)) Hh) as Hw.
    destruct (rvvm_blk_write (sn_blk s) _ _) as [b1 n1]. destruct Hw as (-> & Hb1 & Hh1); [by rewrite !length_header|done|].
    rewrite length_header. cbn [Z.eqb Z.of_nat Pos.of_succ_nat Pos.succ Pos.eqb sn_blk set_sn_blk].
    assert (enc 0 secs0 ++ snap_header (sn_blk s).(bd_head) ++ name ++ body = enc 0 (secs0 ++ [(name, body)])) as Eenc.
    { rewrite enc_snoc. do 3 f_equal. rewrite Hhd, !length_app, length_header. lia. }
    rewrite Eenc in Hb1.
    pose proof (write_head_end b1 _ (snap_header 0) Hb1 ltac:(congruence) ltac:(done)) as Hw2. rewrite length_header in Hw2.
    destruct (rvvm_blk_write_head b1 (snap_header 0)) as [b2 n2]. destruct Hw2 as (-> & Hb2 & Hh2); [lia|].
    cbn [Z.eqb Z.of_nat Pos.of_succ_nat Pos.succ Pos.eqb]. split; [done|]. split; cbn [sn_out sn_err sn_off sn_blk set_sn_blk set_sn_off]; try done.
    all: by rewrite app_nil_r.
  - rewrite Ho, Hoff. cbn [sn_off sn_blk set_sn_off]. rewrite Hhd.
    pose proof (write_end (sn_blk s) [] (snap_header 0) Hh ltac:(done)) as Hw. rewrite length_header in Hw. cbn [length] in Hw.
    destruct (rvvm_blk_write (sn_blk s) _ _) as [b1 n1]. destruct Hw as (-> & Hb1 & Hh1); [lia|].
    cbn [Z.eqb Z.of_nat Pos.of_succ_nat Pos.succ Pos.eqb sn_blk set_sn_blk].
    unfold rvvm_blk_write_head, rvvm_blk_tell_head. rewrite Hh1, Hhd.
    pose proof (write_middle b1 [] (snap_header 0) [] (snap_header 0)) as Hw2. cbn [app length] in Hw2. rewrite app_nil_r in Hw2.
    specialize (Hw2 Hb1 eq_refl ltac:(done)). destruct (rvvm_blk_write b1 _ _) as [b2 n2]. destruct Hw2 as (-> & Hb2 & Hh2).
    rewrite length_header. change (nz (Z.of_nat 24)) with true. cbn match. rewrite seek_cur by (rewrite ?Hh2, ?Hh1, ?Hhd; lia).
    cbn [Z.eqb Z.of_nat Pos.of_succ_nat Pos.succ Pos.eqb]. split; [done|]. split; cbn [sn_out sn_err sn_off sn_blk set_sn_blk set_sn_off enc app length]; try done.
    + rewrite app_nil_r. by destruct Hb2.
    + cbn [bd_head set_bd_head]. rewrite Hh2, Hh1, Hhd, app_nil_r, length_header. done.
Qed.

Lemma write_section secs s name : next_at secs s -> name_ok name -> zlen (enc 0 secs) + 24 + zlen name < 2 ^ 63 ->
  let '(s', ok) := rvvm_snapshot_section s name in ok = true /\ writing secs name [] s'.
Proof.
  intros Hs (Hne & Hlen & _) Hlim. unfold rvvm_snapshot_section.
  assert (s.(sn_err) = false /\ s.(sn_out) = true) as [-> ->] by (destruct Hs as [(? & ? & ? & _ & [])|(_ & ? & ? & _)]; done).
  cbn [negb]. rewrite Nat.min_l by done. rewrite take_ge by done. cbn [section_loop].
  pose proof (write_section_next secs s Hs ltac:(lia)) as Hn. destruct (rvvm_snapshot_section_next s) as [s1 ok1]. destruct Hn as [-> Hw].
  pose proof (write_data secs [] [] s1 name Hw Hne) as Hd. destruct (rvvm_snapshot_data s1 name) as [[s2 ok2] d].
  destruct Hd as (-> & -> & Ho & He & Hoff & Hh & Hhd); [rewrite !length_app, length_header; cbn [length]; lia|].
  rewrite Ho. cbn [negb andb]. split; [done|]. split; try done; [by rewrite Hoff; apply Hw| |]; by rewrite app_nil_r.
Qed.

Lemma write_all secs : forall done s, next_at done s -> Forall sec_ok secs ->
  zlen (enc 0 (done ++ map sec_bytes secs)) < 2 ^ 63 -> secs <> [] ->
  exists secs0 name body, done ++ map sec_bytes secs = secs0 ++ [(name, body)] /\ writing secs0 name body (fst (suspend_all s secs)).
Proof.
  induction secs as [|[name fields] secs IH]; intros dn s Hs Hok Hlim Hne; [done|]. inversion_clear Hok as [|? ? [Hname Hf] Hok'].
  cbn [fst snd] in *. cbn [suspend_all]. unfold suspend_section.
  assert (zlen (enc 0 dn) + 24 + zlen name + zlen (field_bytes fields) < 2 ^ 63) as Hl1.
  { cbn [map] in Hlim. unfold sec_bytes in Hlim at 1. cbn [fst snd] in Hlim.
    assert (forall a b p, zlen (enc p a) <= zlen (enc p (a ++ b))) as Hmono.
    { induction a as [|[n b] a IHa]; intros b' p; cbn [app enc]; [cbn [length]; lia|]. rewrite !length_app. specialize (IHa b' (p + 24 + zlen n + zlen b)). lia. }
    specialize (Hmono (dn ++ [(name, field_bytes fields)]) (map sec_bytes secs) 0). rewrite <- app_assoc in Hmono. cbn [app] in Hmono.
    rewrite enc_snoc, !length_app, length_header in Hmono. lia. }
  pose proof (write_section dn s name Hs Hname ltac:(lia)) as Hw. destruct (rvvm_snapshot_section s name) as [s1 ok]. destruct Hw as [-> Hw].
  pose proof (write_fields dn name fields [] s1 Hw Hf) as Hw2. rewrite app_nil_r, !length_app, length_header in Hw2. specialize (Hw2 ltac:(lia)).
  destruct (suspend_fields s1 fields) as [s2 fs]. cbn [fst app] in Hw2.
  destruct secs as [|sec secs].
  - exists dn, name, (field_bytes fields). split; [done|]. done.
  - destruct (IH (dn ++ [(name, field_bytes fields)]) s2) as (secs0 & n & b & E & Hw3); [left; eauto|done| |done|].
    + by rewrite <- app_assoc.
    + exists secs0, n, b. rewrite <- app_assoc in E. split; [done|]. by destruct (suspend_all s2 (sec :: secs)).
Qed.

(** A snapshot being read: what was read and what is left. *)
Record reading (pre rest : list Z) (off : Z) (s : snapshot) : Prop := mk_reading {
  rd_out : s.(sn_out) = false;
  rd_err : s.(sn_err) = false;
  rd_off : s.(sn_off) = off;
  rd_holds : holds s.(sn_blk) (pre ++ rest);
  rd_head : s.(sn_blk).(bd_head) = zlen pre;
  rd_limit : zlen (pre ++ rest) < 2 ^ 63
}.

Lemma read_data pre c d off s data : reading pre (c ++ d) off s -> length data = length c -> zlen pre + zlen c <= off ->
  let '(s', ok, data') := rvvm_snapshot_data s data in ok = true /\ data' = c /\ reading (pre ++ c) d off s'.
Proof.
  intros [Ho He Hoff Hh Hhd Hlim] Hl Hle. unfold rvvm_snapshot_data, rvvm_blk_tell_head. rewrite He, Ho, Hoff, Hhd, Hl. cbn [negb].
  rewrite !length_app in Hlim. rewrite (wrap_small 64) by (unfold urange; lia). destruct (Z.ltb_spec off (zlen pre + zlen c)); [lia|].
  pose proof (read_head (sn_blk s) pre c d Hh Hhd) as Hr. rewrite !length_app in Hr. destruct (rvvm_blk_read_head (sn_blk s) (zlen c)) as [b l].
  destruct Hr as (-> & Hb & Hbh); [lia|]. rewrite Z.eqb_refl, drop_ge, app_nil_r by lia. split_and!; [done|done|].
  split; cbn [sn_out sn_err sn_off sn_blk set_sn_blk]; try done; [by rewrite <- app_assoc|by rewrite length_app|]. rewrite !length_app. lia.
Qed.

(** Fields of the same sizes are overwritten by the stored values. *)
Lemma read_fields fields : forall old pre d off s, reading pre (field_bytes fields ++ d) off s -> Forall field_ok fields ->
  map fst old = map fst fields -> zlen pre + zlen (field_bytes fields) <= off ->
  let '(s', fs) := suspend_fields s old in fs = fields /\ reading (pre ++ field_bytes fields) d off s'.
Proof.
  induction fields as [|[size v] fields IH]; intros old pre d off s Hr Hf Ho Hle.
  { destruct old; [|done]. cbn [suspend_fields]. split; [done|]. by rewrite app_nil_r. }
  destruct old as [|[size' v'] old]; [done|]. cbn [map fst] in Ho. injection Ho as -> Ho. inversion_clear Hf as [|? ? [Hsz Hv] Hf'].
  cbn [fst snd] in *. cbn [suspend_fields]. unfold rvvm_snapshot_host.
  assert ((size =? 1) || (size =? 2) || (size =? 4) || (size =? 8) = true)%nat as ->.
  { destruct Hsz as [->|[->|[->| ->]]]; done. }
  change (field_bytes ((size, v) :: fields)) with (le_split size v ++ field_bytes fields) in *. rewrite <- app_assoc in Hr.
  rewrite length_app, length_le_split in Hle.
  pose proof (read_data pre (le_split size v) (field_bytes fields ++ d) off s (le_split size v') Hr) as Hd. rewrite !length_le_split in Hd.
  destruct (rvvm_snapshot_data s (le_split size v')) as [[s1 ok] dd]. destruct Hd as (-> & -> & Hr1); [done|lia|].
  cbn [negb]. rewrite (rd_out _ _ _ _ Hr1). cbn [negb].
  specialize (IH old (pre ++ le_split size v) d off s1 Hr1 Hf' Ho). destruct (suspend_fields s1 old) as [s2 fs].
  destruct IH as [-> Hr2]; [rewrite length_app, length_le_split; lia|]. rewrite le_combine_split, wrap_small by done.
  split; [done|]. by rewrite app_assoc.
Qed.

Lemma read_section pre name body secs tail off s : name_ok name -> reading pre (enc (zlen pre) ((name, body) :: secs) ++ tail) off s ->
  let '(s', ok) := rvvm_snapshot_section s name in
  let next := zlen pre + 24 + zlen name + zlen body in
  ok = true /\ reading (pre ++ snap_header next ++ name) (body ++ enc next secs ++ tail) next s'.
Proof.
  intros (Hne & Hlen & Hnz) Hr. set (next := zlen pre + 24 + zlen name + zlen body).
  unfold rvvm_snapshot_section. rewrite (rd_err _ _ _ _ Hr), (rd_out _ _ _ _ Hr). cbn [negb]. rewrite Nat.min_l by done.
  cbn [section_loop]. unfold rvvm_snapshot_section_next. rewrite (rd_out _ _ _ _ Hr).
  destruct Hr as [Ho He Hoff Hh Hhd Hlim]. cbn [enc] in Hh, Hlim. fold next in Hh, Hlim. rewrite <- !app_assoc in Hh, Hlim.
  assert (urange 64 next) as Hnx by (rewrite !length_app, length_header in Hlim; unfold urange, next; lia).
  pose proof (read_head (sn_blk s) pre (snap_header next) _ Hh Hhd Hlim) as Hrd. rewrite length_header in Hrd.
  change (Z.of_nat 24) with 24 in Hrd. destruct (rvvm_blk_read_head (sn_blk s) 24) as [b l]. destruct Hrd as (-> & Hb & Hbh).
  destruct (le_combine_header next Hnx) as [Em En]. rewrite length_header, bool_decide_true, En by done. change (Z.of_nat 24 =? 24) with true. cbn [andb].
  set (s1 := set_sn_off next (set_sn_blk b s)).
  assert (reading (pre ++ snap_header next) (name ++ body ++ enc next secs ++ tail) next s1) as Hr1.
  { split; cbn [sn_out sn_err sn_off sn_blk set_sn_blk set_sn_off s1]; try done; by rewrite <- app_assoc. }
  pose proof (read_data (pre ++ snap_header next) name (body ++ enc next secs ++ tail) next s1 (repeat 0 (length name)) Hr1) as Hd.
  destruct (rvvm_snapshot_data s1 (repeat 0 (length name))) as [[s2 ok] buf].
  destruct Hd as (-> & -> & Hr2); [by rewrite repeat_length|rewrite length_app, length_header; unfold next; lia|].
  rewrite (rd_out _ _ _ _ Hr2), rvvm_strcmp_refl by done. cbn [negb andb]. split; [done|]. by rewrite <- app_assoc in Hr2.
Qed.

(** Devices of the same names and field sizes. *)
Definition same_shape (secs old : list (list Z * list (nat * Z))) : Prop :=
  map (fun sec => (fst sec, map fst (snd sec))) old = map (fun sec => (fst sec, map fst (snd sec))) secs.

Lemma read_all secs : forall old pre tail off s, reading pre (enc (zlen pre) (map sec_bytes secs) ++ tail) off s -> Forall sec_ok secs ->
  same_shape secs old -> let '(s', loaded) := suspend_all s old in loaded = secs /\ s'.(sn_err) = false.
Proof.
  induction secs as [|[name fields] secs IH]; intros old pre tail off s Hr Hok Hsh.
  { destruct old; [|done]. cbn. split; [done|apply Hr]. }
  destruct old as [|[name' old1] old]; [done|]. unfold same_shape in Hsh. cbn [map fst snd] in Hsh. injection Hsh as -> Hf1 Hsh.
  inversion_clear Hok as [|? ? [Hname Hf] Hok']. cbn [fst snd] in *. cbn [map] in Hr. unfold sec_bytes in Hr at 1. cbn [fst snd] in Hr.
  cbn [suspend_all]. unfold suspend_section.
  pose proof (read_section pre name (field_bytes fields) (map sec_bytes secs) tail off s Hname Hr) as Hs.
  destruct (rvvm_snapshot_section s name) as [s1 ok]. destruct Hs as [-> Hr1]. set (next := zlen pre + 24 + zlen name + zlen (field_bytes fields)) in *.
  pose proof (read_fields fields old1 _ _ _ s1 Hr1 Hf Hf1) as Hs2. rewrite !length_app, length_header in Hs2. specialize (Hs2 ltac:(unfold next; lia)).
  destruct (suspend_fields s1 old1) as [s2 fs]. destruct Hs2 as [-> Hr2].
  assert (next = zlen ((pre ++ snap_header next ++ name) ++ field_bytes fields)) as En by (rewrite !length_app, length_header; unfold next; lia).
  assert (reading ((pre ++ snap_header next ++ name) ++ field_bytes fields)
    (enc (zlen ((pre ++ snap_header next ++ name) ++ field_bytes fields)) (map sec_bytes secs) ++ tail) next s2) as Hr3 by (by rewrite <- En).
  specialize (IH old _ tail _ s2 Hr3 Hok' Hsh).
  destruct (suspend_all s2 old) as [s3 loaded]. destruct IH as [-> He]. done.
Qed.

(** What is restored, and that no error is reported. *)
Lemma roundtrip_aux (b : rvvm_blk_dev F) secs last old :
  holds b [] -> b.(bd_head) = 0 -> Forall sec_ok (secs ++ [last]) -> same_shape secs old ->
  zlen (enc 0 (map sec_bytes (secs ++ [last]))) < 2 ^ 63 ->
  let '(s, _) := suspend_all (rvvm_snapshot_open b true) (secs ++ [last]) in
  let '(r, loaded) := suspend_all (rvvm_snapshot_open (set_bd_head 0 s.(sn_blk)) false) old in
  loaded = secs /\ rvvm_snapshot_close s = true /\ rvvm_snapshot_close r = true.
Proof.
  intros Hb Hh Hok Hsh Hlim.
  destruct (write_all (secs ++ [last]) [] (rvvm_snapshot_open b true)) as (secs0 & name & body & E & Hw); [right|done|done|by destruct secs|].
  { by split_and!. }
  destruct (suspend_all (rvvm_snapshot_open b true) (secs ++ [last])) as [s ss]. cbn [fst app] in *.
  rewrite map_app in E. cbn [map] in E. apply app_inj_2 in E as [<- [= <- <-]]; [|done].
  rewrite map_app in Hlim. cbn [map] in Hlim. unfold sec_bytes at 2 in Hlim. rewrite enc_snoc, !length_app, length_header in Hlim.
  pose proof (read_all secs old [] (snap_header 0 ++ fst last ++ field_bytes (snd last)) 0
    (rvvm_snapshot_open (set_bd_head 0 (sn_blk s)) false)) as Hrd.
  destruct (suspend_all (rvvm_snapshot_open (set_bd_head 0 (sn_blk s)) false) old) as [r loaded].
  destruct Hrd as [-> He].
  - split; cbn [sn_out sn_err sn_off sn_blk rvvm_snapshot_open bd_head set_bd_head app]; try done; [by destruct (wr_holds _ _ _ _ Hw)|].
    change (zlen []) with 0. rewrite !length_app, length_header. cbn [fst snd] in Hlim. lia.
  - by apply Forall_app in Hok as [Hok _].
  - done.
  - unfold rvvm_snapshot_close. rewrite He, (wr_err _ _ _ _ Hw). done.
Qed.

Lemma snapshot_holds_fields (b : rvvm_blk_dev F) secs last old :
  holds b [] -> b.(bd_head) = 0 -> Forall sec_ok (secs ++ [last]) -> same_shape secs old ->
  zlen (enc 0 (map sec_bytes (secs ++ [last]))) < 2 ^ 63 ->
  snd (suspend_all (rvvm_snapshot_open (set_bd_head 0 (fst (suspend_all (rvvm_snapshot_open b true) (secs ++ [last]))).(sn_blk)) false) old) = secs.
Proof.
  intros Hb Hh Hok Hsh Hlim. pose proof (roundtrip_aux b secs last old Hb Hh Hok Hsh Hlim) as Hr.
  destruct (suspend_all (rvvm_snapshot_open b true) (secs ++ [last])) as [s ss]. cbn [fst].
  destruct (suspend_all _ old) as [r loaded]. apply Hr.
Qed.

(** C37: a snapshot restores what was saved.  The devices [secs] are saved in order to an empty
    image, followed by another section; then devices of the same kinds in the same order are
    restored from the image.  Every field has the saved value, on any image format that keeps
    what is written, and neither pass reports an error. *)
Theorem snapshot_roundtrip (b : rvvm_blk_dev F) secs last old :
  holds b [] -> b.(bd_head) = 0 -> Forall sec_ok (secs ++ [last]) -> same_shape secs old ->
  zlen (enc 0 (map sec_bytes (secs ++ [last]))) < 2 ^ 63 ->
  let '(s, _) := suspend_all (rvvm_snapshot_open b true) (secs ++ [last]) in
  let '(r, loaded) := suspend_all (rvvm_snapshot_open (set_bd_head 0 s.(sn_blk)) false) old in
  loaded = secs /\ rvvm_snapshot_close s = true /\ rvvm_snapshot_close r = true.
Proof. apply roundtrip_aux. Qed.

End RoundTrip.

(** ** Examples *)

(** An image in memory. *)
#[export] Instance mem_image : BlkImage memory := {
  img_read m size off := get_bytes (Z.to_nat size) m off;
  img_write m l off := (put_bytes m off l, Z.of_nat (length l));
  img_set_size m _ := (m, true);
  img_trim m off size := (put_bytes m off (repeat 0 (Z.to_nat size)), true)
}.

#[export] Instance mem_image_ok : BlkImageOk memory := {
  img_bytes m := m;
  img_read_ok m size off := eq_refl;
  img_write_ok m l off := conj eq_refl (fun q => eq_refl)
}.

Definition demo_blk : rvvm_blk_dev memory := mk_blk (fun _ => 0) 0 0 0x83.

(** Sections "a" and "b" with a word and a byte. *)
Definition sec_a : list Z * list (nat * Z) := ([97], [(4%nat, 1000); (1%nat, 7)]).
Definition sec_b : list Z * list (nat * Z) := ([98], [(4%nat, 5)]).
Definition zeroed (sec : list Z * list (nat * Z)) : list Z * list (nat * Z) := (fst sec, map (fun f => (fst f, 0)) (snd sec)).

Lemma demo_secs_ok : Forall sec_ok ([sec_a] ++ [sec_b]).
Proof.
  assert (forall c, 0 < c -> name_ok [c]) as Hn by (intros c Hc; split_and!; [done|cbn; lia|repeat constructor; lia]).
  repeat constructor; try (apply Hn; reflexivity); cbn; try lia; unfold urange; lia.
Qed.

Lemma snapshot_roundtrip_witness :
  let '(s, _) := suspend_all (rvvm_snapshot_open demo_blk true) ([sec_a] ++ [sec_b]) in
  let '(r, loaded) := suspend_all (rvvm_snapshot_open (set_bd_head 0 s.(sn_blk)) false) [zeroed sec_a] in
  loaded = [sec_a] /\ rvvm_snapshot_close s = true /\ rvvm_snapshot_close r = true.
Proof.
  assert (holds demo_blk []) as Hb by (constructor; reflexivity).
  assert (Z.of_nat (length (enc 0 (map sec_bytes ([sec_a] ++ [sec_b])))) < 2 ^ 63) as Hl by (vm_compute; reflexivity).
  exact (@snapshot_roundtrip memory mem_image mem_image_ok demo_blk [sec_a] sec_b [zeroed sec_a] Hb eq_refl demo_secs_ok eq_refl Hl).
Defined.

(** The last section cannot be read: its header never gets the position of a next one, which
    reading takes for its end, so restoring it keeps the old value without reporting an
    error; and a section that is not the next one is not found, because the search continues
    inside of the section it wants to skip. *)
Lemma snapshot_sections_lost :
  let saved secs := set_bd_head 0 (fst (suspend_all (rvvm_snapshot_open demo_blk true) secs)).(sn_blk) in
  let restored blk secs := suspend_all (rvvm_snapshot_open blk false) secs in
  snd (restored (saved [sec_b]) [zeroed sec_b]) = [zeroed sec_b] /\
  rvvm_snapshot_close (fst (restored (saved [sec_b]) [zeroed sec_b])) = true /\
  snd (restored (saved [sec_a; sec_b; sec_a]) [zeroed sec_b]) = [zeroed sec_b].
Proof. cbv zeta. split_and!; vm_compute; reflexivity. Qed.
