(* ===== verification/Fdt.v ===== *)
(** * Device trees (src/core/rvvm_fdt.c, include/rvvm/rvvm_fdt.h)

    Nodes live in a store, since they refer to their parent and to their children; a handle
    is a key of the store, a null handle is [None], and an operation that follows a handle
    outside of the store is [None].  Theorem: a serialized tree is read back, node for node and
    property for property, by a reader written from the Devicetree Specification, and
    serialization stays inside of the size it reports. *)

From stdpp Require Import gmap.
From S2P Require Import Prelude BitOps MemOps Utils.

Local Abbreviation zlen l := (Z.of_nat (length l)).

Definition FDT_MAGIC : Z := 0xD00DFEED.
Definition FDT_VERSION : Z := 17.
Definition FDT_COMP_VERSION : Z := 16.
Definition FDT_BEGIN_NODE : Z := 1.
Definition FDT_END_NODE : Z := 2.
Definition FDT_PROP : Z := 3.
Definition FDT_NOP : Z := 4.
Definition FDT_END : Z := 9.
Definition FDT_HDR_SIZE : Z := 40.
Definition FDT_RSV_SIZE : Z := 16.

Record rvvm_fdt_prop := mk_prop { pr_name : list Z; pr_data : option (list Z); pr_size : Z }.

Record fdt_node := mk_node {
  fn_name : option (list Z);
  fn_parent : option nat;
  fn_phandle : Z;
  fn_props : list rvvm_fdt_prop;
  fn_nodes : list nat
}.

Definition set_fn_parent (v : option nat) (n : fdt_node) : fdt_node := mk_node n.(fn_name) v n.(fn_phandle) n.(fn_props) n.(fn_nodes).
Definition set_fn_phandle (v : Z) (n : fdt_node) : fdt_node := mk_node n.(fn_name) n.(fn_parent) v n.(fn_props) n.(fn_nodes).
Definition set_fn_props (v : list rvvm_fdt_prop) (n : fdt_node) : fdt_node := mk_node n.(fn_name) n.(fn_parent) n.(fn_phandle) v n.(fn_nodes).
Definition set_fn_nodes (v : list nat) (n : fdt_node) : fdt_node := mk_node n.(fn_name) n.(fn_parent) n.(fn_phandle) n.(fn_props) v.

Abbreviation fdt_store := (gmap nat fdt_node).

(** ** Nodes *)

(** The address suffix of a name is written to a buffer of 15 characters. *)
Definition rvvm_fdt_init_raw (st : fdt_store) (name : option (list Z)) (addr : option Z) : fdt_store * nat :=
  let suffix := match addr with Some addr => 64 :: fst (uint_to_str_base (Some 15) addr 16) | None => [] end in
  let node := mk_node ((fun name => name ++ suffix) <$> name) None 0 [] [] in
  let h := fresh (dom st) in
  (<[h := node]> st, h).

Definition rvvm_fdt_init_reg (st : fdt_store) (name : option (list Z)) (addr : Z) : fdt_store * nat := rvvm_fdt_init_raw st name (Some addr).
Definition rvvm_fdt_init (st : fdt_store) (name : option (list Z)) : fdt_store * nat := rvvm_fdt_init_raw st name None.

(** [vector_foreach_back] with [vector_erase] and [break] at the first match. *)
Fixpoint erase_first (h : nat) (l : list nat) : list nat :=
  match l with
  | [] => []
  | x :: l => if (x =? h)%nat then l else x :: erase_first h l
  end.
Definition erase_back (h : nat) (l : list nat) : list nat := rev (erase_first h (rev l)).

(** Removal from the list of the parent. *)
Definition fdt_detach (st : fdt_store) (child : nat) : option fdt_store :=
  c ← st !! child;
  match c.(fn_parent) with
  | Some p => pn ← st !! p; Some (<[p := set_fn_nodes (erase_back child pn.(fn_nodes)) pn]> st)
  | None => Some st
  end.

(** [vector_foreach_back (child->nodes, i)] with a body that frees the node at [i]. *)
Fixpoint free_nodes (free : fdt_store -> nat -> option fdt_store) (i : nat) (child : nat) (st : fdt_store) : option fdt_store :=
  match i with
  | O => Some st
  | S i =>
      c ← st !! child;
      x ← c.(fn_nodes) !! i;
      st ← free st x;
      free_nodes free i child st
  end.

(** [rvvm_fdt_attach (NULL, child)]; [fuel] bounds the depth of the tree. *)
Fixpoint fdt_free (fuel : nat) (st : fdt_store) (child : nat) : option fdt_store :=
  match fuel with
  | O => None
  | S fuel =>
      st ← fdt_detach st child;
      c ← st !! child;
      st ← free_nodes (fdt_free fuel) (length c.(fn_nodes)) child st;
      Some (delete child st)
  end.

Definition rvvm_fdt_attach (fuel : nat) (st : fdt_store) (parent child : option nat) : option fdt_store :=
  match child, parent with
  | None, _ => Some st
  | Some child, Some parent =>
      st ← fdt_detach st child;
      c ← st !! child;
      let st := <[child := set_fn_parent (Some parent) c]> st in
      p ← st !! parent;
      Some (<[parent := set_fn_nodes (p.(fn_nodes) ++ [child]) p]> st)
  | Some child, None => fdt_free fuel st child
  end.

Definition rvvm_fdt_free (fuel : nat) (st : fdt_store) (node : option nat) : option fdt_store := rvvm_fdt_attach fuel st None node.

(** ** Serialization *)

Record fdt_size_desc := mk_size { struct_size : Z; string_size : Z }.

Definition prop_sizes (props : list rvvm_fdt_prop) (desc : fdt_size_desc) : fdt_size_desc :=
  foldl (fun desc prop =>
    mk_size (u32 (u32 (desc.(struct_size) + 4 * 3) + align_size_up prop.(pr_size) 4))
            (u32 (desc.(string_size) + align_size_up (rvvm_strlen prop.(pr_name) + 1) 4))) desc props.

(** A loop over the children with a body that may fail. *)
Definition fold_nodes {A} (f : A -> nat -> option A) (acc : A) (nodes : list nat) : option A :=
  foldl (fun acc h => acc ← acc; f acc h) (Some acc) nodes.

Fixpoint fdt_get_tree_size (fuel : nat) (st : fdt_store) (desc : fdt_size_desc) (h : nat) : option fdt_size_desc :=
  match fuel with
  | O => None
  | S fuel =>
      node ← st !! h;
      let name_len := align_size_up (match node.(fn_name) with Some name => rvvm_strlen name + 1 | None => 1 end) 4 in
      let desc := mk_size (u32 (desc.(struct_size) + (4 + name_len))) desc.(string_size) in
      let desc := prop_sizes node.(fn_props) desc in
      desc ← fold_nodes (fdt_get_tree_size fuel st) desc node.(fn_nodes);
      Some (mk_size (u32 (desc.(struct_size) + 4)) desc.(string_size))
  end.

(** The memory of [buf] starts at address 0. *)
Record fdt_serializer_ctx := mk_ctx {
  cx_buf : memory;
  cx_struct_off : Z;
  cx_strings_begin : Z;
  cx_strings_off : Z;
  cx_reserve_off : Z
}.

Definition put_struct (buf : memory) (off : Z) (ctx : fdt_serializer_ctx) : fdt_serializer_ctx :=
  mk_ctx buf off ctx.(cx_strings_begin) ctx.(cx_strings_off) ctx.(cx_reserve_off).

Definition fdt_serialize_u32 (ctx : fdt_serializer_ctx) (value : Z) : fdt_serializer_ctx :=
  put_struct (write_uint32_be_m ctx.(cx_buf) ctx.(cx_struct_off) value) (u32 (ctx.(cx_struct_off) + 4)) ctx.

Definition fdt_serialize_string (ctx : fdt_serializer_ctx) (str : option (list Z)) : fdt_serializer_ctx :=
  let str := default [] str in
  put_struct (put_bytes ctx.(cx_buf) ctx.(cx_struct_off) (fst (rvvm_strlcpy str (2 ^ 64 - 1))))
    (u32 (align_size_up (ctx.(cx_struct_off) + rvvm_strlen str + 1) 4)) ctx.

(** Copying from a null pointer is undefined. *)
Definition fdt_serialize_data (ctx : fdt_serializer_ctx) (data : option (list Z)) (len : Z) : option fdt_serializer_ctx :=
  buf ← (if nz len then data ← data; Some (put_bytes ctx.(cx_buf) ctx.(cx_struct_off) (take (Z.to_nat len) data)) else Some ctx.(cx_buf));
  Some (put_struct buf (u32 (align_size_up (u32 (ctx.(cx_struct_off) + len)) 4)) ctx).

Definition fdt_serialize_name (ctx : fdt_serializer_ctx) (str : list Z) : fdt_serializer_ctx :=
  mk_ctx (put_bytes ctx.(cx_buf) ctx.(cx_strings_off) (fst (rvvm_strlcpy str (2 ^ 64 - 1)))) ctx.(cx_struct_off) ctx.(cx_strings_begin)
    (u32 (align_size_up (ctx.(cx_strings_off) + rvvm_strlen str + 1) 4)) ctx.(cx_reserve_off).

Definition fdt_serialize_prop (ctx : fdt_serializer_ctx) (prop : rvvm_fdt_prop) : option fdt_serializer_ctx :=
  let ctx := fdt_serialize_u32 ctx FDT_PROP in
  let ctx := fdt_serialize_u32 ctx prop.(pr_size) in
  let ctx := fdt_serialize_u32 ctx (u32 (ctx.(cx_strings_off) - ctx.(cx_strings_begin))) in
  ctx ← fdt_serialize_data ctx prop.(pr_data) prop.(pr_size);
  Some (fdt_serialize_name ctx prop.(pr_name)).

Definition serialize_props (ctx : fdt_serializer_ctx) (props : list rvvm_fdt_prop) : option fdt_serializer_ctx :=
  foldl (fun ctx prop => ctx ← ctx; fdt_serialize_prop ctx prop) (Some ctx) props.

Fixpoint fdt_serialize_tree (fuel : nat) (st : fdt_store) (ctx : fdt_serializer_ctx) (h : nat) : option fdt_serializer_ctx :=
  match fuel with
  | O => None
  | S fuel =>
      node ← st !! h;
      let ctx := fdt_serialize_u32 ctx FDT_BEGIN_NODE in
      let ctx := fdt_serialize_string ctx node.(fn_name) in
      ctx ← serialize_props ctx node.(fn_props);
      ctx ← fold_nodes (fdt_serialize_tree fuel st) ctx node.(fn_nodes);
      Some (fdt_serialize_u32 ctx FDT_END_NODE)
  end.

Definition fdt_write_header (buf : memory) (buf_size struct_off strings_off reserve_off : Z) (desc : fdt_size_desc) : memory :=
  let buf := write_uint32_be_m buf 0 FDT_MAGIC in
  let buf := write_uint32_be_m buf 4 buf_size in
  let buf := write_uint32_be_m buf 8 struct_off in
  let buf := write_uint32_be_m buf 12 strings_off in
  let buf := write_uint32_be_m buf 16 reserve_off in
  let buf := write_uint32_be_m buf 20 FDT_VERSION in
  let buf := write_uint32_be_m buf 24 FDT_COMP_VERSION in
  let buf := write_uint32_be_m buf 32 desc.(string_size) in
  write_uint32_be_m buf 36 desc.(struct_size).

(** The memory of the buffer afterwards, if there is one, and the size. *)
Definition rvvm_fdt_serialize (fuel : nat) (st : fdt_store) (node : option nat) (buff : option memory) (size : Z) : option (option memory * Z) :=
  match node with
  | None => Some (buff, 0)
  | Some h =>
      desc ← fdt_get_tree_size fuel st (mk_size 0 0) h;
      let desc := mk_size (u32 (desc.(struct_size) + 4)) desc.(string_size) in
      let strings_begin := u32 (FDT_HDR_SIZE + FDT_RSV_SIZE + desc.(struct_size)) in
      let buf_size := u32 (strings_begin + desc.(string_size)) in
      match buff with
      | None => Some (None, buf_size)
      | Some buf =>
          if size <? buf_size then Some (Some buf, 0)
          else
            let buf := put_bytes buf 0 (repeat 0 (Z.to_nat buf_size)) in
            let buf := fdt_write_header buf buf_size (FDT_HDR_SIZE + FDT_RSV_SIZE) strings_begin FDT_HDR_SIZE desc in
            ctx ← fdt_serialize_tree fuel st (mk_ctx buf (FDT_HDR_SIZE + FDT_RSV_SIZE) strings_begin strings_begin FDT_HDR_SIZE) h;
            Some (Some (fdt_serialize_u32 ctx FDT_END).(cx_buf), buf_size)
      end
  end.

Definition rvvm_fdt_size (fuel : nat) (st : fdt_store) (node : option nat) : option Z := snd <$> rvvm_fdt_serialize fuel st node None 0.

(** ** Lookup and properties *)

(** The loop from the last child on; a child without name is undefined. *)
Fixpoint fdt_find_loop (st : fdt_store) (name : list Z) (addr : option Z) (nodes : list nat) : option (option nat) :=
  match nodes with
  | [] => Some None
  | h :: nodes =>
      child ← st !! h;
      cname ← child.(fn_name);
      let len := Z.to_nat (rvvm_strlen name) in
      if bool_decide (rvvm_strfind cname name = Some O) then
        match addr with
        | Some addr =>
            if (char_at cname len =? 64) && ((addr =? 2 ^ 64 - 1) || rvvm_strcmp (drop (len + 1) cname) (fst (uint_to_str_base (Some 16) addr 16)))
            then Some (Some h) else fdt_find_loop st name (Some addr) nodes
        | None => if char_at cname len =? 0 then Some (Some h) else fdt_find_loop st name None nodes
        end
      else fdt_find_loop st name addr nodes
  end.

Definition rvvm_fdt_find_raw (st : fdt_store) (node : option nat) (name : list Z) (addr : option Z) : option (option nat) :=
  match node with
  | Some h => n ← st !! h; fdt_find_loop st name addr (rev n.(fn_nodes))
  | None => Some None
  end.
Definition rvvm_fdt_find (st : fdt_store) (node : option nat) (name : list Z) : option (option nat) := rvvm_fdt_find_raw st node name None.
Definition rvvm_fdt_find_reg (st : fdt_store) (node : option nat) (name : list Z) (addr : Z) : option (option nat) :=
  rvvm_fdt_find_raw st node name (Some addr).

Fixpoint find_prop (props : list rvvm_fdt_prop) (name : list Z) : option nat :=
  match props with
  | [] => None
  | p :: props => if rvvm_strcmp p.(pr_name) name then Some O else S <$> find_prop props name
  end.

Definition rvvm_fdt_find_prop (n : fdt_node) (name : list Z) : option nat := find_prop n.(fn_props) name.

(** [size] is stored in 32 bits. *)
Definition rvvm_fdt_prop_set_raw (n : fdt_node) (name : list Z) (data : option (list Z)) (size : Z) : fdt_node :=
  match rvvm_fdt_find_prop n name with
  | Some i => set_fn_props (alter (fun p => mk_prop p.(pr_name) data (u32 size)) i n.(fn_props)) n
  | None => set_fn_props (n.(fn_props) ++ [mk_prop name data (u32 size)]) n
  end.

Definition fdt_prop_update (st : fdt_store) (node : option nat) (f : fdt_node -> fdt_node) : option fdt_store :=
  match node with
  | Some h => n ← st !! h; Some (<[h := f n]> st)
  | None => Some st
  end.

Definition rvvm_fdt_prop_set (st : fdt_store) (node : option nat) (name : list Z) (data : option (list Z)) (size : Z) : option fdt_store :=
  fdt_prop_update st node (fun n => rvvm_fdt_prop_set_raw n name (take (Z.to_nat size) <$> data) size).

Definition be_cells (cells : list Z) : list Z := concat (map (fun c => rev (le_split 4 c)) cells).

Definition rvvm_fdt_prop_set_cells (st : fdt_store) (node : option nat) (name : list Z) (cells : option (list Z)) (count : Z) : option fdt_store :=
  fdt_prop_update st node (fun n => rvvm_fdt_prop_set_raw n name ((fun cells => be_cells (take (Z.to_nat count) cells)) <$> cells) (u64 (count * 4))).

Definition rvvm_fdt_prop_set_flag st node name : option fdt_store := rvvm_fdt_prop_set st node name None 0.
Definition rvvm_fdt_prop_set_u32 st node name (val : Z) : option fdt_store := rvvm_fdt_prop_set_cells st node name (Some [val]) 1.
Definition rvvm_fdt_prop_set_u64 st node name (val : Z) : option fdt_store :=
  rvvm_fdt_prop_set_cells st node name (Some [u32 (val .>> 32); u32 val]) 2.
Definition rvvm_fdt_prop_set_reg st node name (addr size : Z) : option fdt_store :=
  rvvm_fdt_prop_set_cells st node name (Some [u32 (addr .>> 32); u32 addr; u32 (size .>> 32); u32 size]) 4.
Definition rvvm_fdt_prop_set_str st node name (str : list Z) : option fdt_store :=
  fdt_prop_update st node (fun n => rvvm_fdt_prop_set_raw n name (Some (str ++ [0])) (rvvm_strlen str + 1)).

(** Deletion takes the last property of the name. *)
Fixpoint del_prop (props : list rvvm_fdt_prop) (name : list Z) : list rvvm_fdt_prop :=
  match props with
  | [] => []
  | p :: props => if rvvm_strcmp p.(pr_name) name then props else p :: del_prop props name
  end.
Definition rvvm_fdt_prop_del (st : fdt_store) (node : option nat) (name : list Z) : option fdt_store :=
  fdt_prop_update st node (fun n => set_fn_props (rev (del_prop (rev n.(fn_props)) name)) n).

Definition rvvm_fdt_prop_get (st : fdt_store) (node : option nat) (name : list Z) : option (option (list Z) * Z) :=
  match node with
  | Some h =>
      n ← st !! h;
      Some (match rvvm_fdt_find_prop n name ≫= fun i => n.(fn_props) !! i with
            | Some p => (p.(pr_data), p.(pr_size))
            | None => (None, 0)
            end)
  | None => Some (None, 0)
  end.

(** ** Handles of nodes in a tree *)

(** The way to the root; [fuel] bounds the depth. *)
Fixpoint fdt_root (fuel : nat) (st : fdt_store) (h : nat) : option nat :=
  match fuel with
  | O => None
  | S fuel => n ← st !! h; match n.(fn_parent) with Some p => fdt_root fuel st p | None => Some h end
  end.

(** "phandle" *)
Definition phandle_name : list Z := [112; 104; 97; 110; 100; 108; 101].

Definition rvvm_fdt_phandle (fuel : nat) (st : fdt_store) (node : option nat) : option (fdt_store * Z) :=
  match node with
  | None => Some (st, 0)
  | Some h =>
      n ← st !! h;
      match n.(fn_name) with
      | None => Some (st, 0)
      | Some _ =>
          if nz n.(fn_phandle) then Some (st, n.(fn_phandle))
          else
            r ← fdt_root fuel st h;
            rn ← st !! r;
            let '(st, phandle) :=
              match rn.(fn_name) with
              | Some _ => (st, 0)
              | None =>
                  let phandle := u32 (rn.(fn_phandle) + 1) in
                  let st := <[r := set_fn_phandle phandle rn]> st in
                  (alter (set_fn_phandle phandle) h st, phandle)
              end in
            n ← st !! h;
            st ← rvvm_fdt_prop_set_u32 st (Some h) phandle_name n.(fn_phandle);
            Some (st, phandle)
      end
  end.

(** ** Trees *)

(** A tree without its representation: names, properties with their data, children. *)
#[warnings="-register-all"]
Inductive fdt_tree := Tree (name : list Z) (props : list (list Z * list Z)) (children : list fdt_tree).

(** Data that is there, in the length the property says. *)
Definition prop_of (p : rvvm_fdt_prop) : option (list Z * list Z) :=
  match p.(pr_data) with
  | Some d => if zlen d =? p.(pr_size) then Some (p.(pr_name), d) else None
  | None => if p.(pr_size) =? 0 then Some (p.(pr_name), []) else None
  end.

(** The tree at a handle, of depth at most [fuel]. *)
Fixpoint tree_of (fuel : nat) (st : fdt_store) (h : nat) : option fdt_tree :=
  match fuel with
  | O => None
  | S fuel =>
      node ← st !! h;
      props ← mapM prop_of node.(fn_props);
      children ← mapM (tree_of fuel st) node.(fn_nodes);
      Some (Tree (default [] node.(fn_name)) props children)
  end.

Fixpoint tree_ok (t : fdt_tree) : Prop :=
  match t with
  | Tree name props children =>
      cstring name /\ Forall (fun p => cstring (fst p)) props /\ fold_right (fun c P => tree_ok c /\ P) True children
  end.

(** ** The format, from the Devicetree Specification *)

Definition rd32 (m : memory) (a : Z) : Z := le_combine (rev (get_bytes 4 m a)).
Definition align4 (x : Z) : Z := (x + 3) / 4 * 4.

(** A string that ends with NUL, of less than [lim] characters. *)
Fixpoint rd_str (lim : nat) (m : memory) (a : Z) : list Z :=
  match lim with
  | O => []
  | S lim => if m a =? 0 then [] else m a :: rd_str lim m (a + 1)
  end.

(** What follows the name of a node: properties and children, up to its end. *)
Fixpoint rd_body (fuel lim : nat) (m : memory) (strings pos : Z) : option (list (list Z * list Z) * list fdt_tree * Z) :=
  match fuel with
  | O => None
  | S fuel =>
      let token := rd32 m pos in
      if token =? 4 then rd_body fuel lim m strings (pos + 4)
      else if token =? 3 then
        let len := rd32 m (pos + 4) in
        let name := rd_str lim m (strings + rd32 m (pos + 8)) in
        let data := get_bytes (Z.to_nat len) m (pos + 12) in
        r ← rd_body fuel lim m strings (align4 (pos + 12 + len));
        let '(props, children, pos) := r in
        Some ((name, data) :: props, children, pos)
      else if token =? 1 then
        let name := rd_str lim m (pos + 4) in
        r ← rd_body fuel lim m strings (align4 (pos + 4 + zlen name + 1));
        let '(props, children, pos) := r in
        r ← rd_body fuel lim m strings pos;
        let '(props', children', pos) := r in
        Some (props', Tree name props children :: children', pos)
      else if token =? 2 then Some ([], [], pos + 4)
      else None
  end.

(** A version 17 blob with an empty memory reservation block and one root node. *)
Definition fdt_read (m : memory) : option fdt_tree :=
  let lim := Z.to_nat (rd32 m 4) in
  let pos := rd32 m 8 in
  let strings := rd32 m 12 in
  if (rd32 m 0 =? 0xD00DFEED) && (rd32 m 20 =? 17) && (rd32 m 24 =? 16) &&
     bool_decide (get_bytes 16 m (rd32 m 16) = repeat 0 16) && (rd32 m pos =? 1) then
    let name := rd_str lim m (pos + 4) in
    r ← rd_body lim lim m strings (align4 (pos + 4 + zlen name + 1));
    let '(props, children, fin) := r in
    if (rd32 m fin =? 9) && (fin + 4 - pos =? rd32 m 36) && (strings + rd32 m 32 =? rd32 m 4)
    then Some (Tree name props children) else None
  else None.

(** *** The bytes of a tree *)

Definition be32 (v : Z) : list Z := rev (le_split 4 v).
Definition pad4 (l : list Z) : list Z := l ++ repeat 0 (Z.to_nat (align4 (zlen l) - zlen l)).

Definition prop_string (p : list Z * list Z) : list Z := pad4 (fst p ++ [0]).
Definition props_strings (props : list (list Z * list Z)) : list Z := concat (map prop_string props).

Fixpoint tree_strings (t : fdt_tree) : list Z :=
  match t with Tree _ props children => props_strings props ++ concat (map tree_strings children) end.

Definition prop_bytes (so : Z) (p : list Z * list Z) : list Z := be32 3 ++ be32 (zlen (snd p)) ++ be32 so ++ pad4 (snd p).

Fixpoint props_bytes (so : Z) (props : list (list Z * list Z)) : list Z :=
  match props with
  | [] => []
  | p :: props => prop_bytes so p ++ props_bytes (so + zlen (prop_string p)) props
  end.

(** [so] is the offset of the next string. *)
Fixpoint tree_bytes (so : Z) (t : fdt_tree) : list Z :=
  match t with
  | Tree name props children =>
      be32 1 ++ pad4 (name ++ [0]) ++ props_bytes so props ++
      (fix go so children :=
         match children with
         | [] => []
         | c :: children => tree_bytes so c ++ go (so + zlen (tree_strings c)) children
         end) (so + zlen (props_strings props)) children ++ be32 2
  end.

Fixpoint trees_bytes (so : Z) (ts : list fdt_tree) : list Z :=
  match ts with
  | [] => []
  | t :: ts => tree_bytes so t ++ trees_bytes (so + zlen (tree_strings t)) ts
  end.

Definition trees_strings (ts : list fdt_tree) : list Z := concat (map tree_strings ts).

Lemma tree_bytes_eq so name props children :
  tree_bytes so (Tree name props children) =
    be32 1 ++ pad4 (name ++ [0]) ++ props_bytes so props ++ trees_bytes (so + zlen (props_strings props)) children ++ be32 2.
Proof. reflexivity. Qed.

Lemma tree_strings_eq name props children : tree_strings (Tree name props children) = props_strings props ++ trees_strings children.
Proof. done. Qed.

Lemma length_be32 v : length (be32 v) = 4%nat.
Proof. unfold be32. by rewrite length_rev, length_le_split. Qed.

Lemma align4_bounds x : x <= align4 x < x + 4 /\ align4 x mod 4 = 0.
Proof. unfold align4. split; [dlia|]. apply Z.mod_mul. lia. Qed.

Lemma length_pad4 l : zlen (pad4 l) = align4 (zlen l).
Proof. unfold pad4. rewrite length_app, repeat_length. pose proof (align4_bounds (zlen l)). lia. Qed.

Lemma align4_shift a x : a mod 4 = 0 -> align4 (a + x) = a + align4 x.
Proof. unfold align4. intros H. dlia. Qed.

Lemma props_bytes_length so so' props : length (props_bytes so props) = length (props_bytes so' props).
Proof.
  revert so so'. induction props as [|p props IH]; intros so so'; [done|]. cbn [props_bytes]. unfold prop_bytes.
  rewrite !length_app, !length_be32. by rewrite (IH (so + _) (so' + zlen (prop_string p))).
Qed.

(** Induction on trees. *)
Lemma fdt_tree_ind' (P : fdt_tree -> Prop) :
  (forall name props children, Forall P children -> P (Tree name props children)) -> forall t, P t.
Proof.
  intros Hs. fix IH 1. intros [name props children]. apply Hs. induction children as [|c cs IHc]; constructor; [apply IH|exact IHc].
Qed.

Lemma trees_bytes_length ts : Forall (fun t => forall so so', length (tree_bytes so t) = length (tree_bytes so' t)) ts ->
  forall so so', length (trees_bytes so ts) = length (trees_bytes so' ts).
Proof.
  induction 1 as [|t ts Ht _ IH]; intros so so'; [done|]. cbn [trees_bytes]. rewrite !length_app, (Ht so so').
  by rewrite (IH (so + _) (so' + zlen (tree_strings t))).
Qed.

Lemma tree_bytes_length t : forall so so', length (tree_bytes so t) = length (tree_bytes so' t).
Proof.
  induction t as [name props children IH] using fdt_tree_ind'. intros so so'. rewrite !tree_bytes_eq, !length_app.
  rewrite (props_bytes_length so so'). by rewrite (trees_bytes_length children IH (so + _) (so' + zlen (props_strings props))).
Qed.

(** Sizes are multiples of four. *)
Lemma mod4_app (a b : list Z) : zlen a mod 4 = 0 -> zlen b mod 4 = 0 -> zlen (a ++ b) mod 4 = 0.
Proof. intros Ha Hb. rewrite length_app. dlia. Qed.

Lemma mod4_be32 v : zlen (be32 v) mod 4 = 0.
Proof. by rewrite length_be32. Qed.

Lemma mod4_pad4 l : zlen (pad4 l) mod 4 = 0.
Proof. rewrite length_pad4. apply align4_bounds. Qed.

Create HintDb fdt.
#[local] Hint Resolve mod4_app mod4_be32 mod4_pad4 : fdt.

Lemma mod4_concat (ls : list (list Z)) : Forall (fun l => zlen l mod 4 = 0) ls -> zlen (concat ls) mod 4 = 0.
Proof. induction 1; cbn [concat]; [done|]. auto with fdt. Qed.

Lemma mod4_props_strings props : zlen (props_strings props) mod 4 = 0.
Proof. apply mod4_concat, Forall_map, Forall_forall. intros p _. apply mod4_pad4. Qed.

Lemma mod4_props_bytes so props : zlen (props_bytes so props) mod 4 = 0.
Proof. revert so. induction props as [|p props IH]; intros so; [done|]. cbn [props_bytes]. unfold prop_bytes. auto 8 with fdt. Qed.

Lemma mod4_tree_strings t : zlen (tree_strings t) mod 4 = 0.
Proof.
  induction t as [name props children IH] using fdt_tree_ind'. rewrite tree_strings_eq.
  apply mod4_app; [apply mod4_props_strings|]. by apply mod4_concat, Forall_map.
Qed.

Lemma mod4_tree_bytes t : forall so, zlen (tree_bytes so t) mod 4 = 0.
Proof.
  induction t as [name props children IH] using fdt_tree_ind'. intros so. rewrite tree_bytes_eq.
  assert (forall so, zlen (trees_bytes so children) mod 4 = 0) as Hc.
  { induction IH as [|t ts Ht _ IH]; intros o; cbn [trees_bytes]; auto with fdt. }
  pose proof mod4_props_bytes. auto 10 with fdt.
Qed.

(** *** Bytes in memory *)

(** [l] is at [a]. *)
Definition at_ (m : memory) (a : Z) (l : list Z) : Prop := get_bytes (length l) m a = l.

Lemma at_app m a l k : at_ m a (l ++ k) <-> at_ m a l /\ at_ m (a + zlen l) k.
Proof.
  unfold at_. rewrite length_app, get_bytes_app. split.
  - intros E. by apply app_inj_1 in E; [|by rewrite length_get_bytes].
  - by intros [-> ->].
Qed.

Lemma at_frame m m' a l : (forall q, a <= q < a + zlen l -> m' q = m q) -> at_ m a l -> at_ m' a l.
Proof. unfold at_. intros H E. rewrite <- E at 2. apply get_bytes_ext. intros i Hi. apply H. lia. Qed.

Lemma at_zero m a n : (forall q, a <= q < a + Z.of_nat n -> m q = 0) -> at_ m a (repeat 0 n).
Proof.
  unfold at_. rewrite repeat_length. revert a. induction n as [|n IH]; intros a H; [done|]. cbn [get_bytes repeat].
  f_equal; [apply H; lia|]. apply IH. intros q Hq. apply H. lia.
Qed.

(** From [m] to [m'], [e] is written at [s] and [k] at [g], and nothing else changes. *)
Record wrote (m : memory) (s g : Z) (m' : memory) (e k : list Z) : Prop := mk_wrote {
  wr_struct : at_ m' s e;
  wr_strings : at_ m' g k;
  wr_frame : forall q, ~ (s <= q < s + zlen e) -> ~ (g <= q < g + zlen k) -> m' q = m q
}.

Lemma wrote_trans m s g m1 e1 k1 m2 e2 k2 : wrote m s g m1 e1 k1 -> wrote m1 (s + zlen e1) (g + zlen k1) m2 e2 k2 ->
  s + zlen e1 + zlen e2 <= g -> wrote m s g m2 (e1 ++ e2) (k1 ++ k2).
Proof.
  intros [A1 B1 F1] [A2 B2 F2] Hd. split.
  - apply at_app. split; [|done]. apply (at_frame m1); [|done]. intros q Hq. apply F2; lia.
  - apply at_app. split; [|done]. apply (at_frame m1); [|done]. intros q Hq. apply F2; lia.
  - intros q. rewrite !length_app. intros H1 H2. rewrite F2, F1 by lia. done.
Qed.

(** The places of the bytes to come are zero. *)
Definition zeroes (m : memory) (s g n k : Z) : Prop := forall q, (s <= q < s + n \/ g <= q < g + k) -> m q = 0.

Lemma zeroes_step m s g m1 e1 k1 n k : wrote m s g m1 e1 k1 -> zeroes m s g (zlen e1 + n) (zlen k1 + k) -> s + zlen e1 + n <= g -> 0 <= n -> 0 <= k ->
  zeroes m1 (s + zlen e1) (g + zlen k1) n k.
Proof. intros [_ _ F] Hz Hd Hn Hk q Hq. rewrite F by lia. apply Hz. lia. Qed.

Lemma write_be_frame m a v q : ~ (a <= q < a + 4) -> write_uint32_be_m m a v q = m q.
Proof. intros H. unfold write_uint32_be_m. cbv zeta. by rewrite !fupd_ne by lia. Qed.

Lemma write_be_at m a v : at_ (write_uint32_be_m m a v) a (be32 v).
Proof. unfold at_. rewrite length_be32. apply write_be_get. Qed.

(** A write that leaves the padding alone. *)
Lemma put_padded m a l : (forall q, a + zlen l <= q < a + zlen (pad4 l) -> m q = 0) -> at_ (put_bytes m a l) a (pad4 l).
Proof.
  intros Hz. unfold pad4. apply at_app. split; [apply get_put_same|]. apply at_zero. intros q Hq.
  rewrite put_bytes_outside by lia. apply Hz. rewrite length_pad4. lia.
Qed.

(** *** Steps of the serializer *)

(** There is room for [n] bytes of structure and [k] bytes of strings, all zero. *)
Record room (c : fdt_serializer_ctx) (n k : Z) : Prop := mk_room {
  rm_struct : c.(cx_struct_off) mod 4 = 0 /\ 0 <= c.(cx_struct_off);
  rm_strings : c.(cx_strings_off) mod 4 = 0 /\ c.(cx_strings_begin) <= c.(cx_strings_off) /\ 0 <= c.(cx_strings_begin);
  rm_fit : c.(cx_struct_off) + n <= c.(cx_strings_off) /\ c.(cx_strings_off) + k < 2 ^ 32;
  rm_nonneg : 0 <= n /\ 0 <= k;
  rm_zero : zeroes c.(cx_buf) c.(cx_struct_off) c.(cx_strings_off) n k
}.

(** [e] is appended to the structure and [k] to the strings. *)
Record appends (c c' : fdt_serializer_ctx) (e k : list Z) : Prop := mk_appends {
  ap_struct : c'.(cx_struct_off) = c.(cx_struct_off) + zlen e;
  ap_strings : c'.(cx_strings_off) = c.(cx_strings_off) + zlen k;
  ap_begin : c'.(cx_strings_begin) = c.(cx_strings_begin);
  ap_wrote : wrote c.(cx_buf) c.(cx_struct_off) c.(cx_strings_off) c'.(cx_buf) e k
}.

Lemma appends_nil c : appends c c [] [].
Proof. split; rewrite ?Z.add_0_r; done. Qed.

Lemma appends_trans c c1 c2 e1 k1 e2 k2 : appends c c1 e1 k1 -> appends c1 c2 e2 k2 ->
  c.(cx_struct_off) + zlen (e1 ++ e2) <= c.(cx_strings_off) -> appends c c2 (e1 ++ e2) (k1 ++ k2).
Proof.
  intros [S1 G1 B1 W1] [S2 G2 B2 W2] Hd. rewrite length_app in Hd. split.
  - rewrite S2, S1, length_app. lia.
  - rewrite G2, G1, length_app. lia.
  - by rewrite B2.
  - rewrite S1, G1 in W2. apply (wrote_trans _ _ _ _ _ _ _ _ _ W1 W2). lia.
Qed.

Lemma room_appends c c1 e k n' k' : appends c c1 e k -> room c (zlen e + n') (zlen k + k') -> zlen e mod 4 = 0 -> zlen k mod 4 = 0 ->
  0 <= n' -> 0 <= k' -> room c1 n' k'.
Proof.
  intros [S1 G1 B1 W1] [Hs Hg Hf Hn Hz] He Hk Hn' Hk'. split; rewrite ?S1, ?G1, ?B1.
  - split; [dlia|lia].
  - split_and!; [dlia|lia|lia].
  - lia.
  - lia.
  - apply (zeroes_step _ _ _ _ _ _ _ _ W1 Hz); lia.
Qed.

Lemma u32_appends c v n k : room c n k -> 4 <= n -> appends c (fdt_serialize_u32 c v) (be32 v) [].
Proof.
  intros [Hs Hg Hf Hn Hz] H4. unfold fdt_serialize_u32. split; cbn [put_struct cx_struct_off cx_strings_off cx_strings_begin cx_buf]; rewrite ?length_be32, ?Z.add_0_r; try done.
  - rewrite wrap_small by (unfold urange; lia). done.
  - split; [apply write_be_at|done|]. rewrite length_be32. intros q Hq _. apply write_be_frame. lia.
Qed.

(** Strings and data are padded. *)
Lemma cstring_nonzero s : cstring s -> Forall (fun c => c <> 0) s.
Proof. apply Forall_impl. intros c Hc. lia. Qed.

Lemma align4_up_off off x : off mod 4 = 0 -> 0 <= off -> 0 <= x -> off + align4 x < 2 ^ 32 -> u32 (align_size_up (off + x) 4) = off + align4 x.
Proof.
  intros Hm H0 Hx Hl. pose proof (align4_bounds x). rewrite align_up_4 by lia.
  change ((off + x + 3) / 4 * 4) with (align4 (off + x)). rewrite align4_shift by done. apply wrap_small. unfold urange. lia.
Qed.

Lemma length_str (s : list Z) : zlen (s ++ [0]) = zlen s + 1.
Proof. rewrite length_app. cbn. lia. Qed.

Lemma string_appends c name n k : room c n k -> cstring (default [] name) -> zlen (pad4 (default [] name ++ [0])) <= n ->
  appends c (fdt_serialize_string c name) (pad4 (default [] name ++ [0])) [].
Proof.
  intros [Hs Hg Hf Hn Hz] Hc Hl. set (s := default [] name) in *. pose proof (cstring_nonzero s Hc) as Hnz.
  rewrite length_pad4, length_str in Hl. pose proof (align4_bounds (zlen s + 1)) as Hb.
  unfold fdt_serialize_string. fold s. rewrite rvvm_strlcpy_eq, rvvm_strlen_eq by (done || lia). cbn [fst].
  split; cbn [put_struct cx_struct_off cx_strings_off cx_strings_begin cx_buf]; rewrite ?Z.add_0_r; try done.
  - rewrite length_pad4, length_str, <- Z.add_assoc. apply align4_up_off; lia.
  - split; [|done|].
    + apply put_padded. intros q Hq. apply Hz. rewrite length_pad4, length_str in Hq. lia.
    + intros q Hq _. apply put_bytes_outside. rewrite length_pad4, length_str in Hq. rewrite length_str. lia.
Qed.

Lemma name_appends c name n k : room c n k -> cstring name -> zlen (pad4 (name ++ [0])) <= k ->
  appends c (fdt_serialize_name c name) [] (pad4 (name ++ [0])).
Proof.
  intros [Hs Hg Hf Hn Hz] Hc Hl. pose proof (cstring_nonzero name Hc) as Hnz.
  rewrite length_pad4, length_str in Hl. pose proof (align4_bounds (zlen name + 1)) as Hb.
  unfold fdt_serialize_name. rewrite rvvm_strlcpy_eq, rvvm_strlen_eq by (done || lia). cbn [fst].
  split; cbn [cx_struct_off cx_strings_off cx_strings_begin cx_buf]; rewrite ?Z.add_0_r; try done.
  - rewrite length_pad4, length_str, <- Z.add_assoc. apply align4_up_off; lia.
  - split; [done| |].
    + apply put_padded. intros q Hq. apply Hz. rewrite length_pad4, length_str in Hq. lia.
    + intros q _ Hq. apply put_bytes_outside. rewrite length_pad4, length_str in Hq. rewrite length_str. lia.
Qed.

Lemma data_appends c data d size n k : room c n k -> (data = Some d \/ data = None /\ d = []) -> zlen d = size -> zlen (pad4 d) <= n ->
  exists c', fdt_serialize_data c data size = Some c' /\ appends c c' (pad4 d) [].
Proof.
  intros [Hs Hg Hf Hn Hz] Hd <- Hl. rewrite length_pad4 in Hl. pose proof (align4_bounds (zlen d)) as Hb.
  assert (exists buf, (if nz (zlen d) then data ← data; Some (put_bytes c.(cx_buf) c.(cx_struct_off) (take (Z.to_nat (zlen d)) data))
    else Some c.(cx_buf)) = Some buf /\ (forall q, buf q = put_bytes c.(cx_buf) c.(cx_struct_off) d q)) as (buf & E & Eb).
  { unfold nz. destruct (Z.eqb_spec (zlen d) 0) as [E0|E0]; cbn [negb].
    - eexists. split; [done|]. intros q. by destruct d.
    - destruct Hd as [->|[-> ->]]; [|done]. eexists. split; [done|]. intros q. by rewrite Nat2Z.id, take_ge. }
  unfold fdt_serialize_data. rewrite E. cbn [mbind option_bind]. eexists. split; [done|].
  split; cbn [put_struct cx_struct_off cx_strings_off cx_strings_begin cx_buf]; rewrite ?Z.add_0_r; try done.
  - rewrite (wrap_small 32 (c.(cx_struct_off) + zlen d)) by (unfold urange; lia). rewrite length_pad4. apply align4_up_off; lia.
  - split; [|done|].
    + apply (at_frame (put_bytes c.(cx_buf) c.(cx_struct_off) d)); [intros; apply Eb|]. apply put_padded.
      intros q Hq. apply Hz. rewrite length_pad4 in Hq. lia.
    + intros q Hq _. rewrite Eb. apply put_bytes_outside. rewrite length_pad4 in Hq. lia.
Qed.

Lemma room_after c c1 e l n k : appends c c1 e l -> room c n k -> zlen e <= n -> zlen l <= k -> zlen e mod 4 = 0 -> zlen l mod 4 = 0 ->
  room c1 (n - zlen e) (k - zlen l).
Proof.
  intros Ha Hr He Hl Hme Hml. apply (room_appends _ _ _ _ _ _ Ha); try done; [|lia|lia].
  by replace (zlen e + (n - zlen e)) with n by lia; replace (zlen l + (k - zlen l)) with k by lia.
Qed.

(** A step and what follows it. *)
Lemma appends_then c c1 e l n k e' l' (f : option fdt_serializer_ctx) : appends c c1 e l -> room c n k ->
  zlen (e ++ e') <= n -> zlen (l ++ l') <= k -> zlen e mod 4 = 0 -> zlen l mod 4 = 0 ->
  (room c1 (n - zlen e) (k - zlen l) -> zlen e' <= n - zlen e -> zlen l' <= k - zlen l -> exists c', f = Some c' /\ appends c1 c' e' l') ->
  exists c', f = Some c' /\ appends c c' (e ++ e') (l ++ l').
Proof.
  intros Ha Hr He Hl Hme Hml Hf. rewrite !length_app in *.
  destruct Hf as (c' & -> & Hc'); [apply (room_after c c1 e l); (done || lia)|lia|lia|]. exists c'. split; [done|].
  apply (appends_trans _ _ _ _ _ _ _ Ha Hc'). pose proof (rm_fit _ _ _ Hr). rewrite length_app. lia.
Qed.

Lemma prop_appends c prop p n k : prop_of prop = Some p -> cstring (fst p) -> room c n k ->
  let so := c.(cx_strings_off) - c.(cx_strings_begin) in
  zlen (prop_bytes so p) <= n -> zlen (prop_string p) <= k ->
  exists c', fdt_serialize_prop c prop = Some c' /\ appends c c' (prop_bytes so p) (prop_string p).
Proof.
  intros Hp Hc Hr so Hn Hk. unfold fdt_serialize_prop, prop_bytes in *. change (prop_string p) with ([] ++ prop_string p).
  assert (prop.(pr_name) = fst p /\ (prop.(pr_data) = Some (snd p) \/ prop.(pr_data) = None /\ snd p = []) /\ prop.(pr_size) = zlen (snd p)) as (En & Ed & Es).
  { unfold prop_of in Hp. destruct (pr_data prop) as [d|].
    - destruct (Z.eqb_spec (zlen d) (pr_size prop)); [|done]. injection Hp as <-. cbn. auto.
    - destruct (Z.eqb_spec (pr_size prop) 0); [|done]. injection Hp as <-. cbn. auto. }
  rewrite Es, En.
  pose proof (u32_appends c FDT_PROP n k Hr) as A1. rewrite length_app, length_be32 in Hn. specialize (A1 ltac:(lia)).
  apply (appends_then _ _ _ _ n k _ _ _ A1 Hr); rewrite ?length_app, ?length_be32 in *; try done; try lia. clear Hr Hn Hk. intros Hr Hn Hk.
  set (c1 := fdt_serialize_u32 c FDT_PROP) in *. change (prop_string p) with ([] ++ prop_string p).
  pose proof (u32_appends c1 (zlen (snd p)) _ _ Hr ltac:(lia)) as A2.
  apply (appends_then _ _ _ _ _ _ _ _ _ A2 Hr); rewrite ?length_app, ?length_be32 in *; try done; try lia. clear Hr Hn Hk. intros Hr Hn Hk.
  set (c2 := fdt_serialize_u32 c1 (zlen (snd p))) in *.
  assert (u32 (c2.(cx_strings_off) - c2.(cx_strings_begin)) = so) as ->.
  { rewrite (ap_strings _ _ _ _ A2), (ap_strings _ _ _ _ A1), (ap_begin _ _ _ _ A2), (ap_begin _ _ _ _ A1). cbn [length].
    pose proof (rm_strings _ _ _ Hr) as Hg. pose proof (rm_fit _ _ _ Hr) as Hf. pose proof (rm_nonneg _ _ _ Hr).
    rewrite (ap_strings _ _ _ _ A2), (ap_strings _ _ _ _ A1), (ap_begin _ _ _ _ A2), (ap_begin _ _ _ _ A1) in *. cbn [length] in *.
    rewrite wrap_small by (unfold urange; lia). unfold so. lia. }
  pose proof (u32_appends c2 so _ _ Hr ltac:(lia)) as A3. change (prop_string p) with ([] ++ prop_string p).
  apply (appends_then _ _ _ _ _ _ _ _ _ A3 Hr); rewrite ?length_app, ?length_be32 in *; try done; try lia. clear Hr Hn Hk. intros Hr Hn Hk.
  set (c3 := fdt_serialize_u32 c2 so) in *.
  destruct (data_appends c3 (pr_data prop) (snd p) _ _ _ Hr Ed eq_refl) as (c4 & -> & A4); [lia|]. cbn [mbind option_bind].
  rewrite <- (app_nil_r (pad4 (snd p))). change (prop_string p) with ([] ++ prop_string p).
  apply (appends_then _ _ _ _ _ _ _ _ _ A4 Hr); rewrite ?app_nil_r; try done; try apply mod4_pad4. intros Hr4 _ Hk4.
  eexists. split; [done|]. apply (name_appends _ _ _ _ Hr4); done.
Qed.

Lemma foldl_none {A B} (f : A -> B -> option A) l : foldl (fun acc x => acc ← acc; f acc x) None l = None.
Proof. induction l; done. Qed.

(** A loop that appends for every element: the structure bytes depend on where the strings
    are, the string bytes do not. *)
Lemma loop_appends {A B} (f : fdt_serializer_ctx -> A -> option fdt_serializer_ctx) (E : Z -> B -> list Z) (K : B -> list Z)
    (Es : Z -> list B -> list Z) :
  (forall so, Es so [] = []) -> (forall so b bs, Es so (b :: bs) = E so b ++ Es (so + zlen (K b)) bs) ->
  (forall so b, zlen (E so b) mod 4 = 0) -> (forall b, zlen (K b) mod 4 = 0) ->
  forall (l : list A) (bs : list B) c n k,
  Forall2 (fun x b => forall c n k, room c n k -> zlen (E (c.(cx_strings_off) - c.(cx_strings_begin)) b) <= n -> zlen (K b) <= k ->
    exists c', f c x = Some c' /\ appends c c' (E (c.(cx_strings_off) - c.(cx_strings_begin)) b) (K b)) l bs ->
  room c n k -> zlen (Es (c.(cx_strings_off) - c.(cx_strings_begin)) bs) <= n -> zlen (concat (map K bs)) <= k ->
  exists c', foldl (fun acc x => acc ← acc; f acc x) (Some c) l = Some c' /\
    appends c c' (Es (c.(cx_strings_off) - c.(cx_strings_begin)) bs) (concat (map K bs)).
Proof.
  intros E0 E1 ME MK l bs c n k HF. revert c n k. induction HF as [|x b l bs Hx _ IH]; intros c n k Hr Hn Hk.
  { exists c. rewrite E0. split; [done|apply appends_nil]. }
  rewrite E1 in *. cbn [foldl map concat] in *. rewrite !length_app in Hn, Hk. cbn [mbind option_bind].
  destruct (Hx c n k Hr) as (c1 & -> & A1); [lia|lia|].
  apply (appends_then _ _ _ _ n k _ _ _ A1 Hr); rewrite ?length_app; try done; try lia. intros Hr1 Hn1 Hk1.
  assert (c.(cx_strings_off) - c.(cx_strings_begin) + zlen (K b) = c1.(cx_strings_off) - c1.(cx_strings_begin)) as Eo.
  { rewrite (ap_strings _ _ _ _ A1), (ap_begin _ _ _ _ A1). lia. }
  rewrite Eo in *. by apply (IH c1 _ _ Hr1).
Qed.

Lemma tree_ok_eq name props children :
  tree_ok (Tree name props children) <-> cstring name /\ Forall (fun p => cstring (fst p)) props /\ Forall tree_ok children.
Proof.
  cbn [tree_ok]. assert (fold_right (fun c P => tree_ok c /\ P) True children <-> Forall tree_ok children) as ->; [|done].
  induction children as [|c cs IH]; [split; constructor|]. cbn [fold_right]. rewrite IH. split; [intros []; by constructor|by intros [??]%Forall_cons_1].
Qed.

Lemma props_append c l props n k : mapM prop_of l = Some props -> Forall (fun p => cstring (fst p)) props -> room c n k ->
  let so := c.(cx_strings_off) - c.(cx_strings_begin) in
  zlen (props_bytes so props) <= n -> zlen (props_strings props) <= k ->
  exists c', serialize_props c l = Some c' /\ appends c c' (props_bytes so props) (props_strings props).
Proof.
  intros Hm Hc Hr so Hn Hk. apply (loop_appends fdt_serialize_prop prop_bytes prop_string props_bytes) with (n := n) (k := k); try done.
  - intros o b. unfold prop_bytes. auto 8 with fdt.
  - intros b. apply mod4_pad4.
  - apply mapM_Some in Hm. clear -Hm Hc. induction Hm as [|x p l props Hx _ IH]; constructor.
    + intros. apply Forall_cons_1 in Hc as [Hc _]. by apply (prop_appends _ _ _ n k).
    + apply IH. by apply Forall_cons_1 in Hc as [_ Hc].
Qed.

(** What the lemma on trees says of trees of depth [fuel]. *)
Definition tree_appends (fuel : nat) (st : fdt_store) : Prop := forall h t c n k, tree_of fuel st h = Some t -> tree_ok t -> room c n k ->
  let so := c.(cx_strings_off) - c.(cx_strings_begin) in
  zlen (tree_bytes so t) <= n -> zlen (tree_strings t) <= k ->
  exists c', fdt_serialize_tree fuel st c h = Some c' /\ appends c c' (tree_bytes so t) (tree_strings t).

Lemma children_append fuel st c l children n k : tree_appends fuel st -> mapM (tree_of fuel st) l = Some children -> Forall tree_ok children ->
  room c n k -> let so := c.(cx_strings_off) - c.(cx_strings_begin) in
  zlen (trees_bytes so children) <= n -> zlen (trees_strings children) <= k ->
  exists c', fold_nodes (fdt_serialize_tree fuel st) c l = Some c' /\ appends c c' (trees_bytes so children) (trees_strings children).
Proof.
  intros IH Hm Hok Hr so Hn Hk.
  apply (loop_appends (fdt_serialize_tree fuel st) tree_bytes tree_strings trees_bytes) with (n := n) (k := k); try done.
  - intros o b. apply mod4_tree_bytes.
  - intros b. apply mod4_tree_strings.
  - apply mapM_Some in Hm. clear -IH Hm Hok. induction Hm as [|h t l children Hx _ IHl]; constructor.
    + intros c n k. apply Forall_cons_1 in Hok as [Hok _]. by apply IH.
    + apply IHl. by apply Forall_cons_1 in Hok as [_ Hok].
Qed.

(** The part of a node behind its name. *)
Lemma body_appends fuel st c l l' props children n k : tree_appends fuel st ->
  mapM prop_of l = Some props -> Forall (fun p => cstring (fst p)) props -> mapM (tree_of fuel st) l' = Some children -> Forall tree_ok children ->
  room c n k -> let so := c.(cx_strings_off) - c.(cx_strings_begin) in
  zlen (props_bytes so props ++ trees_bytes (so + zlen (props_strings props)) children ++ be32 2) <= n ->
  zlen (props_strings props ++ trees_strings children) <= k ->
  exists c', (ctx ← serialize_props c l; ctx ← fold_nodes (fdt_serialize_tree fuel st) ctx l'; Some (fdt_serialize_u32 ctx FDT_END_NODE)) = Some c' /\
    appends c c' (props_bytes so props ++ trees_bytes (so + zlen (props_strings props)) children ++ be32 2) (props_strings props ++ trees_strings children).
Proof.
  intros IH Hp Hcs Hm Hok Hr so Hn Hk. pose proof (mod4_props_bytes so props) as Mp. pose proof (mod4_props_strings props) as Ms.
  destruct (props_append c l props n k Hp Hcs Hr) as (c1 & -> & A1); [rewrite length_app in Hn; fold so; lia|rewrite length_app in Hk; lia|].
  cbn [mbind option_bind]. apply (appends_then _ _ _ _ n k _ _ _ A1 Hr); try done. clear Hr Hn Hk. intros Hr Hn Hk.
  assert (so + zlen (props_strings props) = c1.(cx_strings_off) - c1.(cx_strings_begin)) as Eo.
  { rewrite (ap_strings _ _ _ _ A1), (ap_begin _ _ _ _ A1). unfold so. lia. }
  rewrite Eo in *.
  destruct (children_append fuel st c1 l' children _ _ IH Hm Hok Hr) as (c2 & -> & A2); [rewrite length_app in Hn; lia|done|].
  cbn [mbind option_bind]. rewrite <- (app_nil_r (trees_strings children)).
  apply (appends_then _ _ _ _ _ _ _ _ _ A2 Hr); rewrite ?app_nil_r; try done.
  { clear. generalize (c1.(cx_strings_off) - c1.(cx_strings_begin)). induction children as [|t ts IHt]; intros o; [done|].
    cbn [trees_bytes]. apply mod4_app; [apply mod4_tree_bytes|apply IHt]. }
  { apply mod4_concat, Forall_map, Forall_forall. intros t _. apply mod4_tree_strings. }
  intros Hr2 Hn2 _. eexists. split; [done|]. apply (u32_appends _ _ _ _ Hr2). rewrite length_be32 in Hn2. lia.
Qed.

(** The serializer writes the bytes of the tree. *)
Lemma serialize_tree_appends st fuel : tree_appends fuel st.
Proof.
  induction fuel as [|fuel IH]; intros h t c n k Ht Hok Hr so Hn Hk; [done|]. cbn [tree_of fdt_serialize_tree] in *.
  destruct (st !! h) as [node|]; [|done]. cbn [mbind option_bind] in *.
  destruct (mapM prop_of (fn_props node)) as [props|] eqn:Ep; [|done]. cbn [mbind option_bind] in *.
  destruct (mapM (tree_of fuel st) (fn_nodes node)) as [children|] eqn:Ec; [|done]. cbn [mbind option_bind] in *. injection Ht as <-.
  apply tree_ok_eq in Hok as (Hname & Hprops & Hch). rewrite tree_bytes_eq, tree_strings_eq in *.
  change (props_strings props ++ trees_strings children) with ([] ++ [] ++ props_strings props ++ trees_strings children) in *.
  pose proof (u32_appends c FDT_BEGIN_NODE n k Hr) as A1. rewrite length_app, length_be32 in Hn. specialize (A1 ltac:(lia)).
  apply (appends_then _ _ _ _ n k _ _ _ A1 Hr); rewrite ?(length_app (be32 1)), ?length_be32; try done; try lia. clear Hr Hn Hk. intros Hr Hn Hk.
  set (c1 := fdt_serialize_u32 c FDT_BEGIN_NODE) in *.
  assert (appends c1 (fdt_serialize_string c1 (fn_name node)) (pad4 (default [] (fn_name node) ++ [0])) []) as A2.
  { apply (string_appends _ _ _ _ Hr Hname). rewrite length_app in Hn. lia. }
  apply (appends_then _ _ _ _ _ _ _ _ _ A2 Hr); try done; [apply mod4_pad4|]. clear Hr Hn Hk. intros Hr Hn Hk.
  set (c2 := fdt_serialize_string c1 (fn_name node)) in *.
  assert (so = c2.(cx_strings_off) - c2.(cx_strings_begin)) as ->.
  { rewrite (ap_strings _ _ _ _ A2), (ap_strings _ _ _ _ A1), (ap_begin _ _ _ _ A2), (ap_begin _ _ _ _ A1). cbn [length]. unfold so. lia. }
  by apply (body_appends fuel st c2 _ _ _ _ _ _ IH Ep Hprops Ec Hch Hr).
Qed.

(** *** Sizes *)

Lemma align4_size x : 0 <= x < 2 ^ 32 -> align_size_up x 4 = align4 x.
Proof. intros Hx. by rewrite align_up_4 by lia. Qed.

Lemma prop_of_spec prop p : prop_of prop = Some p -> prop.(pr_name) = fst p /\ prop.(pr_size) = zlen (snd p).
Proof.
  unfold prop_of. destruct (pr_data prop) as [d|].
  - destruct (Z.eqb_spec (zlen d) (pr_size prop)); [|done]. by intros [= <-].
  - destruct (Z.eqb_spec (pr_size prop) 0); [|done]. by intros [= <-].
Qed.

Lemma length_prop_bytes so p : zlen (prop_bytes so p) = 12 + align4 (zlen (snd p)).
Proof. unfold prop_bytes. rewrite !length_app, !length_be32, !Nat2Z.inj_add, length_pad4. lia. Qed.

Lemma prop_sizes_eq l : forall props a b, mapM prop_of l = Some props -> Forall (fun p => cstring (fst p)) props -> 0 <= a -> 0 <= b ->
  a + zlen (props_bytes 0 props) < 2 ^ 32 -> b + zlen (props_strings props) < 2 ^ 32 ->
  prop_sizes l (mk_size a b) = mk_size (a + zlen (props_bytes 0 props)) (b + zlen (props_strings props)).
Proof.
  induction l as [|prop l IH]; intros props a b Hm Hc Ha Hb Hs Hg.
  { injection Hm as <-. cbn. by rewrite !Z.add_0_r. }
  apply mapM_Some in Hm. inversion Hm as [|? p ? props' Hp Hm']; subst. apply mapM_Some in Hm'. apply Forall_cons_1 in Hc as [Hc Hcs].
  apply prop_of_spec in Hp as [En Es]. cbn [props_bytes] in *. change (props_strings (p :: props')) with (prop_string p ++ props_strings props') in *.
  rewrite !length_app, (props_bytes_length _ 0) in *. rewrite !Nat2Z.inj_add, length_prop_bytes in *.
  unfold prop_string in *. rewrite !length_pad4, length_str in *.
  pose proof (align4_bounds (zlen (snd p))). pose proof (align4_bounds (zlen (fst p) + 1)).
  change (prop_sizes (prop :: l) (mk_size a b)) with
    (prop_sizes l (mk_size (u32 (u32 (a + 4 * 3) + align_size_up (pr_size prop) 4)) (u32 (b + align_size_up (rvvm_strlen (pr_name prop) + 1) 4)))).
  rewrite En, Es, rvvm_strlen_eq by (by apply cstring_nonzero). rewrite !align4_size by lia. rewrite wrap_add_l, !wrap_small by (unfold urange; lia).
  rewrite (IH props') by (done || lia). f_equal; lia.
Qed.

Lemma fold_sizes st fuel : (forall h t a b, tree_of fuel st h = Some t -> tree_ok t -> 0 <= a -> 0 <= b ->
    a + zlen (tree_bytes 0 t) < 2 ^ 32 -> b + zlen (tree_strings t) < 2 ^ 32 ->
    fdt_get_tree_size fuel st (mk_size a b) h = Some (mk_size (a + zlen (tree_bytes 0 t)) (b + zlen (tree_strings t)))) ->
  forall l ts a b, mapM (tree_of fuel st) l = Some ts -> Forall tree_ok ts -> 0 <= a -> 0 <= b ->
    a + zlen (trees_bytes 0 ts) < 2 ^ 32 -> b + zlen (trees_strings ts) < 2 ^ 32 ->
    fold_nodes (fdt_get_tree_size fuel st) (mk_size a b) l = Some (mk_size (a + zlen (trees_bytes 0 ts)) (b + zlen (trees_strings ts))).
Proof.
  intros IH. induction l as [|h l IHl]; intros ts a b Hm Hok Ha Hb Hs Hg.
  { injection Hm as <-. cbn. by rewrite !Z.add_0_r. }
  apply mapM_Some in Hm. inversion Hm as [|? t ? ts' Ht Hm']; subst. apply mapM_Some in Hm'. apply Forall_cons_1 in Hok as [Hok Hoks].
  cbn [trees_bytes] in *. change (trees_strings (t :: ts')) with (tree_strings t ++ trees_strings ts') in *.
  rewrite !length_app in *. rewrite (trees_bytes_length ts' ltac:(apply Forall_forall; intros; apply tree_bytes_length) _ 0) in *.
  unfold fold_nodes. cbn [foldl mbind option_bind]. rewrite (IH h t) by (done || lia).
  etransitivity; [apply (IHl ts'); done || lia|]. do 2 f_equal; lia.
Qed.

Lemma tree_size_eq st fuel : forall h t a b, tree_of fuel st h = Some t -> tree_ok t -> 0 <= a -> 0 <= b ->
  a + zlen (tree_bytes 0 t) < 2 ^ 32 -> b + zlen (tree_strings t) < 2 ^ 32 ->
  fdt_get_tree_size fuel st (mk_size a b) h = Some (mk_size (a + zlen (tree_bytes 0 t)) (b + zlen (tree_strings t))).
Proof.
  induction fuel as [|fuel IH]; intros h t a b Ht Hok Ha Hb Hs Hg; [done|]. cbn [tree_of fdt_get_tree_size] in *.
  destruct (st !! h) as [node|]; [|done]. cbn [mbind option_bind] in *.
  destruct (mapM prop_of (fn_props node)) as [props|] eqn:Ep; [|done]. cbn [mbind option_bind] in *.
  destruct (mapM (tree_of fuel st) (fn_nodes node)) as [children|] eqn:Ec; [|done]. cbn [mbind option_bind] in *. injection Ht as <-.
  apply tree_ok_eq in Hok as (Hname & Hprops & Hch). rewrite tree_bytes_eq, tree_strings_eq in *.
  rewrite !length_app, !length_be32, !Nat2Z.inj_add, length_pad4, length_str in *.
  rewrite (trees_bytes_length children ltac:(apply Forall_forall; intros; apply tree_bytes_length) _ 0) in *.
  set (name := default [] (fn_name node)) in *. pose proof (align4_bounds (zlen name + 1)).
  assert ((match fn_name node with Some name => rvvm_strlen name + 1 | None => 1 end) = zlen name + 1) as ->.
  { unfold name in *. destruct (fn_name node) as [s|]; [|done]. cbn in *. by rewrite rvvm_strlen_eq by (by apply cstring_nonzero). }
  cbn [struct_size string_size]. rewrite align4_size by lia. rewrite (wrap_small 32 (a + _)) by (unfold urange; lia).
  rewrite (prop_sizes_eq _ props) by (done || lia). rewrite (fold_sizes st fuel IH _ children) by (done || lia). cbn [mbind option_bind struct_size string_size].
  rewrite wrap_small by (unfold urange; lia). do 2 f_equal; lia.
Qed.

(** *** Reading *)

Lemma rd32_at m a v : at_ m a (be32 v) -> urange 32 v -> rd32 m a = v.
Proof.
  unfold at_, rd32. rewrite length_be32. intros -> Hv. unfold be32. rewrite rev_involutive, le_combine_split. by apply wrap_small.
Qed.

Lemma rd_str_at m s : forall a lim, at_ m a (s ++ [0]) -> cstring s -> (length s < lim)%nat -> rd_str lim m a = s.
Proof.
  induction s as [|c s IH]; intros a lim Ha Hc Hl; (destruct lim as [|lim]; [lia|]); cbn [rd_str].
  - assert (m a = 0) as -> by (unfold at_ in Ha; cbn in Ha; by injection Ha). done.
  - apply Forall_cons_1 in Hc as [Hc Hs]. change ((c :: s) ++ [0]) with ([c] ++ s ++ [0]) in Ha. apply at_app in Ha as [Ha Hr].
    assert (m a = c) as -> by (unfold at_ in Ha; cbn in Ha; by injection Ha). destruct (Z.eqb_spec c 0); [lia|].
    f_equal. apply IH; [done|done|cbn in Hl; lia].
Qed.

Lemma at_pad4 m a l : at_ m a (pad4 l) -> at_ m a l.
Proof. unfold pad4. intros H. by apply at_app in H as [H _]. Qed.

Section Reader.
Context (m : memory) (lim : nat) (strings : Z).

(** The bytes [l] at [pos] and the strings [k] from [so] on can be read with [fuel]. *)
Record readable (fuel : nat) (pos so : Z) (l k : list Z) : Prop := mk_readable {
  rb_at : at_ m pos l;
  rb_strings : at_ m (strings + so) k;
  rb_pos : pos mod 4 = 0;
  rb_so : 0 <= so /\ so + zlen k < 2 ^ 32;
  rb_fuel : (length l <= fuel)%nat /\ zlen l < 2 ^ 32;
  rb_lim : (length l <= lim)%nat /\ (length k <= lim)%nat
}.

Lemma readable_skip fuel pos so e l k k' : readable (S fuel) pos so (e ++ l) (k ++ k') -> e <> [] -> zlen e mod 4 = 0 ->
  readable fuel (pos + zlen e) (so + zlen k) l k'.
Proof.
  intros [Ha Hs Hp Ho Hf Hl] Hne He. apply at_app in Ha as [_ Ha]. apply at_app in Hs as [_ Hs]. rewrite !length_app in *.
  assert (0 < length e)%nat by (destruct e; [done|cbn; lia]). split; [done|by rewrite Z.add_assoc|dlia|lia|lia|lia].
Qed.

Lemma readable_prefix fuel pos so l l' k k' : readable fuel pos so (l ++ l') (k ++ k') -> readable fuel pos so l k.
Proof.
  intros [Ha Hs Hp Ho Hf Hl]. apply at_app in Ha as [Ha _]. apply at_app in Hs as [Hs _]. rewrite !length_app in *. by split; try lia.
Qed.

(** The name of a node. *)
Lemma readable_name fuel pos so name l k : readable fuel pos so (be32 1 ++ pad4 (name ++ [0]) ++ l) k -> cstring name ->
  rd32 m pos = 1 /\ rd_str lim m (pos + 4) = name /\ align4 (pos + 4 + zlen name + 1) = pos + zlen (be32 1 ++ pad4 (name ++ [0])).
Proof.
  intros [Ha Hs Hp Ho Hf Hl] Hc. apply at_app in Ha as [Ha1 Ha]. apply at_app in Ha as [Ha2 _]. rewrite length_be32 in Ha2.
  pose proof (length_pad4 (name ++ [0])) as El. rewrite length_str in El. pose proof (align4_bounds (zlen name + 1)) as Hb. split_and!.
  - by apply rd32_at.
  - apply rd_str_at; [by apply at_pad4|done|]. rewrite !length_app in Hl. lia.
  - rewrite length_app, length_be32, Nat2Z.inj_add, El. replace (pos + 4 + zlen name + 1) with ((pos + 4) + (zlen name + 1)) by lia.
    rewrite align4_shift by dlia. lia.
Qed.

(** The body of a node is read. *)
Definition body_reads (t : fdt_tree) : Prop :=
  match t with
  | Tree _ props children => forall fuel pos so,
      let l := props_bytes so props ++ trees_bytes (so + zlen (props_strings props)) children ++ be32 2 in
      readable fuel pos so l (props_strings props ++ trees_strings children) ->
      rd_body fuel lim m strings pos = Some (props, children, pos + zlen l)
  end.

Lemma forest_reads ts : Forall tree_ok ts -> Forall body_reads ts -> forall fuel pos so,
  readable fuel pos so (trees_bytes so ts ++ be32 2) (trees_strings ts) ->
  rd_body fuel lim m strings pos = Some ([], ts, pos + zlen (trees_bytes so ts ++ be32 2)).
Proof.
  intros Hok Hts. revert Hok. induction Hts as [|t ts Ht _ IH]; intros Hok fuel pos so Hr.
  - destruct fuel as [|fuel]; [destruct Hr; rewrite length_app, length_be32 in *; lia|]. cbn [rd_body trees_bytes app].
    rewrite (rd32_at m pos 2) by (apply Hr || done). cbn [Z.eqb Pos.eqb]. by rewrite length_be32.
  - destruct fuel as [|fuel]; [destruct Hr; rewrite length_app, length_be32 in *; lia|]. apply Forall_cons_1 in Hok as [Hok Hoks].
    destruct t as [name props children]. apply tree_ok_eq in Hok as (Hname & _ & _). cbn [trees_bytes] in *. rewrite tree_bytes_eq in *.
    change (trees_strings (Tree name props children :: ts)) with ((props_strings props ++ trees_strings children) ++ trees_strings ts) in *.
    set (body := props_bytes so props ++ trees_bytes (so + zlen (props_strings props)) children ++ be32 2) in *.
    set (so' := so + zlen (tree_strings (Tree name props children))) in *.
    assert (so' = so + zlen (props_strings props ++ trees_strings children)) as Eo by done.
    destruct (readable_name (S fuel) pos so name (body ++ trees_bytes so' ts ++ be32 2) _ ltac:(by rewrite <- !app_assoc in Hr) Hname) as (E1 & E2 & E3).
    cbn [rd_body]. rewrite E1, E2, E3. cbn [Z.eqb Pos.eqb].
    assert (readable fuel (pos + zlen (be32 1 ++ pad4 (name ++ [0]))) so body (props_strings props ++ trees_strings children)) as Hb.
    { apply (readable_prefix _ _ _ _ (trees_bytes so' ts ++ be32 2) _ (trees_strings ts)).
      replace so with (so + zlen (@nil Z)) by (cbn; lia). apply readable_skip; [by rewrite <- !app_assoc in *|done|auto with fdt]. }
    rewrite (Ht fuel _ so Hb). cbn [mbind option_bind]. fold body.
    assert (readable fuel (pos + zlen (be32 1 ++ pad4 (name ++ [0]) ++ body)) so' (trees_bytes so' ts ++ be32 2) (trees_strings ts)) as Hrest.
    { rewrite Eo. apply readable_skip; [by rewrite <- !app_assoc in *|done|]. unfold body. rewrite <- tree_bytes_eq. apply mod4_tree_bytes. }
    replace (pos + zlen (be32 1 ++ pad4 (name ++ [0])) + zlen body) with (pos + zlen (be32 1 ++ pad4 (name ++ [0]) ++ body)) by (rewrite !length_app; lia).
    rewrite (IH Hoks _ _ _ Hrest). cbn [mbind option_bind]. do 2 f_equal. rewrite !length_app. lia.
Qed.

Lemma body_reads_props props : forall children fuel pos so, Forall tree_ok children -> Forall body_reads children ->
  Forall (fun p => cstring (fst p)) props ->
  let l := props_bytes so props ++ trees_bytes (so + zlen (props_strings props)) children ++ be32 2 in
  readable fuel pos so l (props_strings props ++ trees_strings children) ->
  rd_body fuel lim m strings pos = Some (props, children, pos + zlen l).
Proof.
  induction props as [|p props IH]; intros children fuel pos so Hok Hch Hc l Hr.
  { unfold l in *. cbn [props_bytes app] in *. change (zlen (props_strings [])) with 0 in *. rewrite Z.add_0_r in *. by apply forest_reads. }
  destruct fuel as [|fuel]; [apply rb_fuel in Hr as [Hf _]; unfold l in Hf; rewrite !length_app, length_be32 in Hf; lia|]. apply Forall_cons_1 in Hc as [Hc Hcs].
  unfold l in *. clear l. cbn [props_bytes] in *. change (props_strings (p :: props)) with (prop_string p ++ props_strings props) in *.
  assert (so + zlen (prop_string p ++ props_strings props) = so + zlen (prop_string p) + zlen (props_strings props)) as Eo by (rewrite length_app; lia).
  rewrite Eo in *. rewrite <- !app_assoc in *.
  set (rest := props_bytes (so + zlen (prop_string p)) props ++
    trees_bytes (so + zlen (prop_string p) + zlen (props_strings props)) children ++ be32 2) in *.
  pose proof Hr as [Ha Hs Hp Ho Hf Hl]. apply at_app in Ha as [Ha _]. apply at_app in Hs as [Hs _].
  rewrite !length_app, Nat2Z.inj_add, length_prop_bytes in Hf. pose proof (align4_bounds (zlen (snd p))).
  unfold prop_bytes in Ha. apply at_app in Ha as [Ha1 Ha]. apply at_app in Ha as [Ha2 Ha]. apply at_app in Ha as [Ha3 Ha4]. rewrite !length_be32 in *.
  cbn [rd_body]. rewrite (rd32_at m pos 3) by done. cbn [Z.eqb Pos.eqb].
  rewrite (rd32_at m (pos + 4) (zlen (snd p))) by (done || (unfold urange; lia)).
  replace (pos + Z.of_nat 4 + Z.of_nat 4) with (pos + 8) in * by lia. replace (pos + 8 + Z.of_nat 4) with (pos + 12) in * by lia.
  rewrite (rd32_at m (pos + 8) so) by (done || (unfold urange; lia)).
  pose proof (length_pad4 (fst p ++ [0])) as El. rewrite length_str in El. pose proof (align4_bounds (zlen (fst p) + 1)).
  rewrite (rd_str_at m (fst p)) by (try (apply at_pad4, Hs); try done; unfold prop_string in Hl; rewrite !length_app in Hl; lia).
  rewrite Nat2Z.id. apply at_pad4 in Ha4. unfold at_ in Ha4. rewrite Ha4.
  replace (pos + 12 + zlen (snd p)) with ((pos + 12) + zlen (snd p)) by lia. rewrite align4_shift by dlia.
  assert (readable fuel (pos + 12 + align4 (zlen (snd p))) (so + zlen (prop_string p)) rest (props_strings props ++ trees_strings children)) as Hn.
  { replace (pos + 12 + align4 (zlen (snd p))) with (pos + zlen (prop_bytes so p)) by (rewrite length_prop_bytes; lia).
    apply readable_skip; [done|done|]. unfold prop_bytes. auto 8 with fdt. }
  rewrite (IH children fuel _ _ Hok Hch Hcs Hn). cbn [mbind option_bind]. destruct p as [pn pd]. cbn [fst snd].
  do 2 f_equal. fold rest. rewrite length_app, Nat2Z.inj_add, length_prop_bytes. cbn [snd]. lia.
Qed.

Lemma tree_reads t : tree_ok t -> body_reads t.
Proof.
  induction t as [name props children IH] using fdt_tree_ind'. intros (_ & Hp & Hc)%tree_ok_eq fuel pos so. apply body_reads_props; [done| |done].
  clear -IH Hc. induction IH as [|t ts Ht _ IH]; constructor; apply Forall_cons_1 in Hc as [??]; auto.
Qed.

End Reader.

(** *** The header *)

Lemma at_write_other m a l b v : at_ m a l -> a + zlen l <= b \/ b + 4 <= a -> at_ (write_uint32_be_m m b v) a l.
Proof. intros H Hd. apply (at_frame m); [|done]. intros q Hq. apply write_be_frame. lia. Qed.

Ltac header_field :=
  lazymatch goal with
  | |- at_ (write_uint32_be_m _ ?a _) ?a _ => apply write_be_at
  | |- at_ (write_uint32_be_m _ _ _) _ _ => apply at_write_other; [header_field|rewrite length_be32; lia]
  end.

Lemma header_fields m n so go ro desc : let m' := fdt_write_header m n so go ro desc in
  (at_ m' 0 (be32 FDT_MAGIC) /\ at_ m' 4 (be32 n) /\ at_ m' 8 (be32 so) /\ at_ m' 12 (be32 go) /\ at_ m' 16 (be32 ro) /\
   at_ m' 20 (be32 FDT_VERSION) /\ at_ m' 24 (be32 FDT_COMP_VERSION) /\ at_ m' 32 (be32 desc.(string_size)) /\ at_ m' 36 (be32 desc.(struct_size))) /\
  (forall q, ~ (0 <= q < 40) -> m' q = m q).
Proof.
  cbv zeta. unfold fdt_write_header. split.
  - split_and!; header_field.
  - intros q Hq. rewrite !write_be_frame by lia. done.
Qed.

(** The size of a serialized tree: header, reservation block, structure with its end, strings. *)
Definition fdt_bytes (t : fdt_tree) : Z := 40 + 16 + zlen (tree_bytes 0 t) + 4 + zlen (tree_strings t).

(** A memory with a header, the structure and the strings of a tree. *)
Record blob (m : memory) (t : fdt_tree) : Prop := mk_blob {
  bl_header : at_ m 0 (be32 FDT_MAGIC) /\ at_ m 4 (be32 (fdt_bytes t)) /\ at_ m 8 (be32 56) /\ at_ m 12 (be32 (60 + zlen (tree_bytes 0 t))) /\
    at_ m 16 (be32 40) /\ at_ m 20 (be32 FDT_VERSION) /\ at_ m 24 (be32 FDT_COMP_VERSION) /\ at_ m 32 (be32 (zlen (tree_strings t))) /\
    at_ m 36 (be32 (zlen (tree_bytes 0 t) + 4));
  bl_reserve : at_ m 40 (repeat 0 16);
  bl_struct : at_ m 56 (tree_bytes 0 t ++ be32 FDT_END);
  bl_strings : at_ m (60 + zlen (tree_bytes 0 t)) (tree_strings t)
}.

Lemma blob_reads m t : blob m t -> tree_ok t -> fdt_bytes t < 2 ^ 32 -> fdt_read m = Some t.
Proof.
  intros [(H0 & H4 & H8 & H12 & H16 & H20 & H24 & H32 & H36) Hr Hs Hg] Hok Hl. destruct t as [name props children].
  set (t := Tree name props children) in *. set (B := tree_bytes 0 t) in *. set (K := tree_strings t) in *.
  assert (fdt_bytes t = 60 + zlen B + zlen K) as En by (unfold fdt_bytes; fold B K; lia).
  unfold fdt_read. rewrite (rd32_at m 4 (fdt_bytes t)), (rd32_at m 8 56), (rd32_at m 12 (60 + zlen B)), (rd32_at m 0 FDT_MAGIC), (rd32_at m 20 17),
    (rd32_at m 24 16), (rd32_at m 16 40), (rd32_at m 32 (zlen K)), (rd32_at m 36 (zlen B + 4)) by (done || (unfold urange; lia)).
  rewrite bool_decide_true by apply Hr. set (lim := Z.to_nat (fdt_bytes t)). apply at_app in Hs as [Hs He].
  assert (readable m lim (60 + zlen B) (S lim) 56 0 B K) as Hread.
  { split; [done|by rewrite Z.add_0_r|done|lia|lia|lia]. }
  pose proof (proj1 (proj1 (tree_ok_eq _ _ _) Hok)) as Hname. unfold B, t in Hread. rewrite tree_bytes_eq in Hread.
  destruct (readable_name m lim _ _ _ _ _ _ _ Hread Hname) as (E1 & E2 & E3). rewrite E1, E2, E3. cbn [Z.eqb Pos.eqb andb FDT_MAGIC].
  set (body := props_bytes 0 props ++ trees_bytes (0 + zlen (props_strings props)) children ++ be32 2) in *.
  assert (readable m lim (60 + zlen B) lim (56 + zlen (be32 1 ++ pad4 (name ++ [0]))) 0 body K) as Hb.
  { change 0 with (0 + zlen (@nil Z)) at 2. apply readable_skip; [by rewrite <- app_assoc|done|auto with fdt]. }
  rewrite (tree_reads m lim (60 + zlen B) t Hok lim _ 0 Hb). cbn [mbind option_bind]. fold body.
  replace (56 + zlen (be32 1 ++ pad4 (name ++ [0])) + zlen body) with (56 + zlen B)
    by (unfold B, t; rewrite tree_bytes_eq; fold body; rewrite !length_app; lia).
  rewrite (rd32_at m (56 + zlen B) 9) by done. replace (56 + zlen B + 4 - 56) with (zlen B + 4) by lia.
  rewrite En. rewrite !Z.eqb_refl. done.
Qed.

(** The cleared buffer with its header. *)
Lemma cleared_header m n so go ro desc : 40 <= n -> let m1 := fdt_write_header (put_bytes m 0 (repeat 0 (Z.to_nat n))) n so go ro desc in
  (forall q, 40 <= q < n -> m1 q = 0) /\ (forall q, ~ (0 <= q < n) -> m1 q = m q).
Proof.
  intros Hn m1. destruct (header_fields (put_bytes m 0 (repeat 0 (Z.to_nat n))) n so go ro desc) as [_ Hm1]. fold m1 in Hm1. split; intros q Hq; rewrite Hm1 by lia.
  - rewrite put_bytes_lookup, repeat_length. destruct (Z.leb_spec 0 q); [|lia].
    destruct (Z.ltb_spec q (0 + Z.of_nat (Z.to_nat n))); [|lia]. cbn [andb]. apply nth_repeat.
  - apply put_bytes_outside. rewrite repeat_length. lia.
Qed.

(** Writing the structure and the strings behind the header. *)
Lemma serialize_struct fuel st h t m1 : tree_of fuel st h = Some t -> tree_ok t -> fdt_bytes t < 2 ^ 32 ->
  (forall q, 40 <= q < fdt_bytes t -> m1 q = 0) -> let B := tree_bytes 0 t in
  exists c, fdt_serialize_tree fuel st (mk_ctx m1 56 (60 + zlen B) (60 + zlen B) 40) h = Some c /\
    wrote m1 56 (60 + zlen B) (fdt_serialize_u32 c FDT_END).(cx_buf) (B ++ be32 FDT_END) (tree_strings t).
Proof.
  intros Ht Hok Hl Hz B. unfold fdt_bytes in *. fold B in Hl, Hz. set (K := tree_strings t) in *. set (c := mk_ctx m1 56 (60 + zlen B) (60 + zlen B) 40).
  pose proof (mod4_tree_bytes t 0 : zlen B mod 4 = 0) as MB. pose proof (mod4_tree_strings t : zlen K mod 4 = 0) as MK.
  assert (room c (zlen B + 4) (zlen K)) as Hr.
  { split; cbn [c cx_struct_off cx_strings_off cx_strings_begin cx_buf]; [done|split_and!; [dlia|lia|lia]|lia|lia|]. intros q Hq. apply Hz. lia. }
  pose proof (serialize_tree_appends st fuel h t c _ _ Ht Hok Hr) as Hs. cbv zeta in Hs. cbn [c cx_strings_off cx_strings_begin] in Hs.
  rewrite Z.sub_diag in Hs. fold B K c in Hs. destruct Hs as (c1 & E1 & A1); [lia|lia|]. exists c1. split; [done|].
  pose proof (room_after c c1 B K _ _ A1 Hr ltac:(lia) ltac:(lia) MB MK) as Hr1.
  pose proof (u32_appends c1 FDT_END _ _ Hr1 ltac:(lia)) as A2. rewrite <- (app_nil_r K).
  apply (ap_wrote c). apply (appends_trans _ _ _ _ _ _ _ A1 A2). cbn [c cx_struct_off cx_strings_off]. rewrite length_app, length_be32. lia.
Qed.

(** What a call does, with enough room and without. *)
Lemma serialize_eq fuel st h t buff size : tree_of fuel st h = Some t -> tree_ok t -> fdt_bytes t < 2 ^ 32 -> let B := tree_bytes 0 t in
  rvvm_fdt_serialize fuel st (Some h) buff size =
    match buff with
    | None => Some (None, fdt_bytes t)
    | Some buf =>
        if size <? fdt_bytes t then Some (Some buf, 0)
        else
          let buf := fdt_write_header (put_bytes buf 0 (repeat 0 (Z.to_nat (fdt_bytes t)))) (fdt_bytes t) 56 (60 + zlen B) 40 (mk_size (zlen B + 4) (zlen (tree_strings t))) in
          ctx ← fdt_serialize_tree fuel st (mk_ctx buf 56 (60 + zlen B) (60 + zlen B) 40) h;
          Some (Some (fdt_serialize_u32 ctx FDT_END).(cx_buf), fdt_bytes t)
    end.
Proof.
  intros Ht Hok Hl B. unfold rvvm_fdt_serialize. set (K := tree_strings t). assert (fdt_bytes t = 60 + zlen B + zlen K) as En by (unfold fdt_bytes; fold B K; lia).
  rewrite (tree_size_eq st fuel h t 0 0 Ht Hok) by (fold B K; lia). fold B K. cbn [mbind option_bind struct_size string_size]. rewrite !Z.add_0_l.
  rewrite (wrap_small 32 (zlen B + 4)) by (unfold urange; lia). change (FDT_HDR_SIZE + FDT_RSV_SIZE) with 56. change FDT_HDR_SIZE with 40.
  replace (56 + (zlen B + 4)) with (60 + zlen B) by lia.
  rewrite (wrap_small 32 (60 + zlen B)) by (unfold urange; lia). rewrite (wrap_small 32 (60 + zlen B + zlen K)) by (unfold urange; lia). by rewrite <- En.
Qed.

Lemma serialize_blob fuel st h t m size : tree_of fuel st h = Some t -> tree_ok t -> fdt_bytes t < 2 ^ 32 -> fdt_bytes t <= size ->
  exists m', rvvm_fdt_serialize fuel st (Some h) (Some m) size = Some (Some m', fdt_bytes t) /\ blob m' t /\
    (forall q, ~ (0 <= q < fdt_bytes t) -> m' q = m q).
Proof.
  intros Ht Hok Hl Hsz. rewrite (serialize_eq fuel st h t _ _ Ht Hok Hl). set (B := tree_bytes 0 t). set (K := tree_strings t).
  assert (fdt_bytes t = 60 + zlen B + zlen K) as En by (unfold fdt_bytes; fold B K; lia).
  destruct (Z.ltb_spec size (fdt_bytes t)); [lia|]. set (desc := mk_size (zlen B + 4) (zlen K)). cbv zeta.
  destruct (header_fields (put_bytes m 0 (repeat 0 (Z.to_nat (fdt_bytes t)))) (fdt_bytes t) 56 (60 + zlen B) 40 desc) as [Hh _].
  destruct (cleared_header m (fdt_bytes t) 56 (60 + zlen B) 40 desc ltac:(lia)) as [Hz Hout].
  set (m1 := fdt_write_header _ _ _ _ _ _) in *.
  destruct (serialize_struct fuel st h t m1 Ht Hok Hl Hz) as (c & E & [Wa Wb Wf]). fold B K in E, Wa, Wb, Wf.
  rewrite E. cbn [mbind option_bind]. eexists. split; [done|]. set (m' := cx_buf _) in *. rewrite length_app, length_be32 in Wf.
  assert (forall a l, at_ m1 a l -> a + zlen l <= 56 -> at_ m' a l) as Hkeep.
  { intros a l Ha Hle. apply (at_frame m1); [|done]. intros q Hq. apply Wf; lia. }
  split.
  - split; fold B K; [|apply Hkeep; [apply at_zero; intros; apply Hz; lia|rewrite repeat_length; lia]|done|done].
    cbn [desc string_size struct_size] in Hh. destruct Hh as (? & ? & ? & ? & ? & ? & ? & ? & ?).
    split_and!; (apply Hkeep; [done|rewrite length_be32; lia]).
  - intros q Hq. rewrite Wf by lia. apply Hout. lia.
Qed.

(** C36: a serialized device tree is read back.  For a tree of the store with names that are
    strings and a serialized size below 4 GiB, the size that is asked for first is the one the
    bytes need.  In a buffer of at least that size the call changes only that many bytes, and a
    reader of the format finds in them exactly the nodes of the tree, with their names,
    properties and order; a smaller buffer is left as it is and 0 is returned. *)
Theorem fdt_serialize_roundtrip fuel st h t m size : tree_of fuel st h = Some t -> tree_ok t -> fdt_bytes t < 2 ^ 32 ->
  rvvm_fdt_size fuel st (Some h) = Some (fdt_bytes t) /\
  (size < fdt_bytes t -> rvvm_fdt_serialize fuel st (Some h) (Some m) size = Some (Some m, 0)) /\
  (fdt_bytes t <= size -> exists m', rvvm_fdt_serialize fuel st (Some h) (Some m) size = Some (Some m', fdt_bytes t) /\
     fdt_read m' = Some t /\ (forall q, ~ (0 <= q < fdt_bytes t) -> m' q = m q)).
Proof.
  intros Ht Hok Hl. split_and!.
  - unfold rvvm_fdt_size. by rewrite (serialize_eq fuel st h t _ _ Ht Hok Hl).
  - intros Hs. rewrite (serialize_eq fuel st h t _ _ Ht Hok Hl). by destruct (Z.ltb_spec size (fdt_bytes t)); [|lia].
  - intros Hs. destruct (serialize_blob fuel st h t m size Ht Hok Hl Hs) as (m' & E & Hb & Hf). exists m'. split_and!; [done| |done].
    by apply blob_reads.
Qed.

(** ** Properties of a node are a map *)

Definition prop_lookup (l : list rvvm_fdt_prop) (name : list Z) : option rvvm_fdt_prop := find_prop l name ≫= fun i => l !! i.

Lemma prop_lookup_cons p l name : prop_lookup (p :: l) name = if rvvm_strcmp p.(pr_name) name then Some p else prop_lookup l name.
Proof. unfold prop_lookup. cbn [find_prop]. destruct (rvvm_strcmp _ _); [done|]. by destruct (find_prop l name). Qed.

Lemma prop_lookup_set l name data size other : Forall (fun p => cstring p.(pr_name)) l -> cstring name -> cstring other ->
  let l' := match find_prop l name with
            | Some i => alter (fun p => mk_prop p.(pr_name) data size) i l
            | None => l ++ [mk_prop name data size]
            end in
  prop_lookup l' other = if decide (other = name) then Some (mk_prop name data size) else prop_lookup l other.
Proof.
  intros Hl Hn Ho. apply cstring_nonzero in Hn, Ho. induction Hl as [|p l Hp _ IH].
  { cbn [find_prop app]. cbn zeta. rewrite prop_lookup_cons. cbn [pr_name]. destruct (decide _) as [->|Hd]; [by rewrite rvvm_strcmp_refl|].
    destruct (rvvm_strcmp name other) eqn:E; [|done]. by apply rvvm_strcmp_eq in E. }
  apply cstring_nonzero in Hp. cbn [find_prop]. destruct (rvvm_strcmp (pr_name p) name) eqn:Es.
  - apply rvvm_strcmp_eq in Es; [|done|done]. cbn zeta. change (alter ?f 0%nat (p :: l)) with (f p :: l). rewrite !prop_lookup_cons. cbn [pr_name]. rewrite Es.
    destruct (decide _) as [->|Hd]; [by rewrite rvvm_strcmp_refl|]. destruct (rvvm_strcmp name other) eqn:E; [|done]. by apply rvvm_strcmp_eq in E.
  - destruct (find_prop l name) as [i|]; cbn [fmap option_fmap option_map] in *; [change (alter ?f (S i) (p :: l)) with (p :: alter f i l)|cbn [app]];
      rewrite !prop_lookup_cons, IH; (destruct (decide _) as [->|]; [by rewrite Es|done]).
Qed.

(** Setting a property replaces the one of the same name and leaves the others. *)
Lemma fdt_prop_set_get st h n name data size other : st !! h = Some n -> Forall (fun p => cstring p.(pr_name)) n.(fn_props) ->
  cstring name -> cstring other ->
  exists st', rvvm_fdt_prop_set st (Some h) name data size = Some st' /\
    rvvm_fdt_prop_get st' (Some h) other =
      if decide (other = name) then Some (take (Z.to_nat size) <$> data, u32 size) else rvvm_fdt_prop_get st (Some h) other.
Proof.
  intros Hh Hl Hn Ho. unfold rvvm_fdt_prop_set, fdt_prop_update, rvvm_fdt_prop_get. rewrite Hh. cbn [mbind option_bind]. eexists. split; [done|].
  rewrite lookup_insert_eq. cbn [mbind option_bind].
  pose proof (prop_lookup_set n.(fn_props) name (take (Z.to_nat size) <$> data) (u32 size) other Hl Hn Ho) as Hs. unfold prop_lookup in Hs.
  unfold rvvm_fdt_prop_set_raw, rvvm_fdt_find_prop in *. destruct (find_prop n.(fn_props) name) as [i|]; cbn [set_fn_props fn_props]; rewrite Hs; by destruct (decide _).
Qed.

(** ** Examples *)

(** A root, a device with an address, a flag and an interrupt reference, and a bus with the
    device. *)
Definition demo_fdt : option fdt_store :=
  let '(st, root) := rvvm_fdt_init ∅ None in
  let '(st, soc) := rvvm_fdt_init st (Some [115; 111; 99]) in
  let '(st, uart) := rvvm_fdt_init_reg st (Some [117]) 0x10000000 in
  st ← rvvm_fdt_attach 9 st (Some root) (Some uart);
  st ← rvvm_fdt_attach 9 st (Some root) (Some soc);
  st ← rvvm_fdt_attach 9 st (Some soc) (Some uart);
  st ← rvvm_fdt_prop_set_u32 st (Some uart) [97] 0x12345678;
  st ← rvvm_fdt_prop_set_flag st (Some uart) [98; 99];
  st ← rvvm_fdt_prop_set_str st (Some soc) [97] [120; 121];
  fst <$> rvvm_fdt_phandle 9 st (Some uart).

Definition demo_tree : fdt_tree :=
  Tree [] [] [Tree [115; 111; 99] [([97], [120; 121; 0])]
    [Tree [117; 64; 49; 48; 48; 48; 48; 48; 48; 48]
      [([97], [0x12; 0x34; 0x56; 0x78]); ([98; 99], []); (phandle_name, [0; 0; 0; 1])] []]].

Lemma fdt_serialize_roundtrip_witness : exists st, demo_fdt = Some st /\ rvvm_fdt_size 3 st (Some 0%nat) = Some (fdt_bytes demo_tree) /\
  exists m', rvvm_fdt_serialize 3 st (Some 0%nat) (Some (fun _ => 7)) 1000 = Some (Some m', fdt_bytes demo_tree) /\ fdt_read m' = Some demo_tree.
Proof.
  destruct demo_fdt as [st|] eqn:E; [|vm_compute in E; discriminate E]. exists st. split; [reflexivity|].
  assert (tree_of 3 st 0 = Some demo_tree) as Ht by (vm_compute in E; injection E as <-; vm_compute; reflexivity).
  assert (tree_ok demo_tree) as Hok.
  { cbn. repeat split; repeat apply Forall_cons_2; try apply Forall_nil; cbn; try lia; unfold cstring; repeat apply Forall_cons_2; try apply Forall_nil; lia. }
  destruct (fdt_serialize_roundtrip 3 st 0 demo_tree (fun _ => 7) 1000 Ht Hok) as (Hs & _ & Hw); [vm_compute; reflexivity|].
  split; [exact Hs|]. destruct Hw as (m' & Em & Er & _); [vm_compute; discriminate|]. exists m'. split; [exact Em|exact Er].
Defined.

(** The buffer for an address holds 14 digits: a longer address leaves only the separator, so
    the name does not tell such devices apart, and looking up one of them by a different address
    of 16 digits finds it. *)
Lemma fdt_long_address :
  let '(st, root) := rvvm_fdt_init ∅ None in
  let '(st, dev) := rvvm_fdt_init_reg st (Some [117]) (2 ^ 60) in
  (st !! dev ≫= fn_name) = Some [117; 64] /\
  (st ← rvvm_fdt_attach 9 st (Some root) (Some dev); rvvm_fdt_find_reg st (Some root) [117] (2 ^ 61)) = Some (Some dev).
Proof. vm_compute. split; reflexivity. Qed.
