(* ===== verification/Boot.v ===== *)
(** * Images and boot data (src/util/elf_load.c, and their use at reset in src/core/rvvm.c)

    ELF files are loaded to a buffer ("objcopy", for firmware and kernels) or to freshly mapped
    memory (for user programs); other images are copied as they are; the device tree goes to the
    end of RAM.  Files are read by the layer of Blkio.v.  The theorems: with segments whose size in the file is not above their size in
    memory, loading writes to nothing but the buffer, and puts every segment where its address
    says; a segment that is larger in the file than in memory is written past the buffer. *)

From S2P Require Import Prelude BitOps MemOps Utils State Fdt Blkio.

Definition ELF_ET_DYN : Z := 3.
Definition ELF_PT_LOAD : Z := 1.
Definition ELF_PT_INTERP : Z := 3.
Definition ELF_PT_PHDR : Z := 6.

(** [e_base] is a host address, 0 for a user program that is not loaded yet. *)
Record elf_desc := mk_elf {
  e_base : Z;
  e_buf_size : Z;
  e_entry : Z;
  e_interp_path : option (list Z);
  e_phdr : Z;
  e_phnum : Z
}.

Definition set_e_base (v : Z) (e : elf_desc) : elf_desc := mk_elf v e.(e_buf_size) e.(e_entry) e.(e_interp_path) e.(e_phdr) e.(e_phnum).
Definition set_e_buf_size (v : Z) (e : elf_desc) : elf_desc := mk_elf e.(e_base) v e.(e_entry) e.(e_interp_path) e.(e_phdr) e.(e_phnum).
Definition set_e_entry (v : Z) (e : elf_desc) : elf_desc := mk_elf e.(e_base) e.(e_buf_size) v e.(e_interp_path) e.(e_phdr) e.(e_phnum).
Definition set_e_interp_path (v : option (list Z)) (e : elf_desc) : elf_desc := mk_elf e.(e_base) e.(e_buf_size) e.(e_entry) v e.(e_phdr) e.(e_phnum).
Definition set_e_phdr (v : Z) (e : elf_desc) : elf_desc := mk_elf e.(e_base) e.(e_buf_size) e.(e_entry) e.(e_interp_path) v e.(e_phnum).

(** A program header, as far as it is looked at. *)
Record phent := mk_phent { p_type : Z; p_offset : Z; p_vaddr : Z; p_fsize : Z; p_memsz : Z }.

(** The fields of a structure that was read to a buffer. *)
Definition buf_of (l : list Z) : memory := put_bytes (fun _ => 0) 0 l.

Definition rd_class (class64 : bool) (tmp : memory) (off64 off32 : Z) : Z :=
  if class64 then read_uint64_le_m tmp off64 else read_uint32_le_m tmp off32.

Definition parse_phent (class64 : bool) (tmp : memory) : phent :=
  mk_phent (read_uint32_le_m tmp 0) (rd_class class64 tmp 8 4) (rd_class class64 tmp 16 8) (rd_class class64 tmp 32 16) (rd_class class64 tmp 40 20).

Definition is_segment (p : phent) : bool := (p.(p_type) =? ELF_PT_LOAD) || (p.(p_type) =? ELF_PT_PHDR).

(** What the file header says; [None] when it is none. *)
Record elf_hdr := mk_hdr { h_class64 : bool; h_type : Z; h_entry : Z; h_phoff : Z; h_phnum : Z }.

Definition parse_header (tmp : memory) : option elf_hdr :=
  if negb (read_uint32_le_m tmp 0 =? 0x464c457F) then None
  else if negb ((tmp 4 =? 1) || (tmp 4 =? 2)) then None
  else if negb (tmp 5 =? 1) then None
  else
    let class64 := tmp 4 =? 2 in
    Some (mk_hdr class64 (read_uint16_le_m tmp 16) (rd_class class64 tmp 24 24) (rd_class class64 tmp 32 28)
            (read_uint16_le_m tmp (if class64 then 56 else 44))).

Definition phent_size (class64 : bool) : Z := if class64 then 56 else 32.
Definition phent_off (class64 : bool) (elf_phoff : Z) (i : nat) : Z := u64 (elf_phoff + phent_size class64 * Z.of_nat i).

Section boot.

(** A file, with the fuel that each of its reads gets ([None] is a read that runs out of it), and
    [vma_alloc] for a fixed address or anywhere, with 0 for a failure. *)
Context {K : Type} `{Posix K} (fuel : nat) (vma_alloc : option Z -> Z -> Z).
Local Abbreviation file := (rvfile K).

(** A structure that is read as a whole or not at all. *)
Definition read_full (f : file) (size off : Z) : option (file * option (list Z)) :=
  '(f, l, n) ← rvread fuel f size off;
  Some (f, if n =? size then Some l else None).

Definition elf_phent (f : file) (class64 : bool) (elf_phoff : Z) (i : nat) : option (file * option phent) :=
  '(f, r) ← read_full f (phent_size class64) (phent_off class64 elf_phoff i);
  Some (f, l ← r; Some (parse_phent class64 (buf_of l))).

(** The lowest and the highest address and the header segment; [n] headers are left, from [i]. *)
Fixpoint elf_scan (n : nat) (i : nat) (f : file) (class64 : bool) (elf_phoff : Z) (lo hi phdr : Z) : option (file * option (Z * Z * Z)) :=
  match n with
  | O => Some (f, Some (lo, hi, phdr))
  | S n =>
      '(f, r) ← elf_phent f class64 elf_phoff i;
      match r with
      | None => Some (f, None)
      | Some p =>
          let lo' := if is_segment p && (p.(p_vaddr) <? lo) then p.(p_vaddr) else lo in
          let hi' := if is_segment p && (hi <? u64 (p.(p_vaddr) + p.(p_memsz))) then u64 (p.(p_vaddr) + p.(p_memsz)) else hi in
          let phdr' := if p.(p_type) =? ELF_PT_PHDR then p.(p_vaddr) else phdr in
          elf_scan n (S i) f class64 elf_phoff lo' hi' phdr'
      end
  end.

(** What loading leaves: the file, memory, the descriptor, and whether it went well. *)
Definition loaded : Type := file * memory * elf_desc * bool.

(** One header of the second pass; what was read is stored even when it is not enough. *)
Definition elf_load_segment (objcopy : bool) (lo : Z) (p : phent) (f : file) (m : memory) (elf : elf_desc) : option loaded :=
  '(f, m, ok) ←
    (if is_segment p then
      if negb (u64 (p.(p_vaddr) + p.(p_memsz)) <=? u64 (lo + elf.(e_buf_size))) then Some (f, m, false)
      else
        '(f, l, n) ← rvread fuel f p.(p_fsize) p.(p_offset);
        Some (f, put_bytes m (elf.(e_base) + u64 (p.(p_vaddr) - lo)) l, n =? p.(p_fsize))
    else Some (f, m, true));
  if negb ok then Some (f, m, elf, false)
  else if (p.(p_type) =? ELF_PT_INTERP) && negb objcopy && match elf.(e_interp_path) with None => true | Some _ => false end then
    if negb (p.(p_fsize) <? 1024) then Some (f, m, elf, false)
    else
      '(f, l, n) ← rvread fuel f p.(p_fsize) p.(p_offset);
      Some (f, m, set_e_interp_path (Some (l ++ repeat 0 (Z.to_nat (p.(p_fsize) + 1 - Z.of_nat (length l))))) elf, n =? p.(p_fsize))
  else Some (f, m, elf, true).

Fixpoint elf_load_segments (n : nat) (i : nat) (class64 : bool) (elf_phoff : Z) (objcopy : bool) (lo : Z) (f : file) (m : memory) (elf : elf_desc) : option loaded :=
  match n with
  | O => Some (f, m, elf, true)
  | S n =>
      '(f, r) ← elf_phent f class64 elf_phoff i;
      match r with
      | None => Some (f, m, elf, false)
      | Some p =>
          '(f, m, elf, ok) ← elf_load_segment objcopy lo p f m elf;
          if ok : bool then elf_load_segments n (S i) class64 elf_phoff objcopy lo f m elf else Some (f, m, elf, false)
      end
  end.

(** Pointers follow the segments; a user program gets memory of its own. *)
Definition elf_relocate (objcopy : bool) (elf_type lo hi : Z) (elf : elf_desc) : option elf_desc :=
  if objcopy then
    let elf := if nz elf.(e_entry) then set_e_entry (u64 (elf.(e_entry) - lo)) elf else elf in
    Some (if nz elf.(e_phdr) then set_e_phdr (u64 (elf.(e_phdr) - lo)) elf else elf)
  else
    let elf := set_e_buf_size (u64 (hi - lo)) elf in
    let base := vma_alloc (if elf_type =? ELF_ET_DYN then None else Some lo) elf.(e_buf_size) in
    if negb (nz base) then None
    else
      let elf := set_e_base base elf in
      let elf := if nz elf.(e_entry) then set_e_entry (u64 (elf.(e_entry) + (base - lo))) elf else elf in
      Some (if nz elf.(e_phdr) then set_e_phdr (u64 (elf.(e_phdr) + (base - lo))) elf else elf).

Definition elf_header (f : file) : option (file * option elf_hdr) :=
  '(f, r) ← read_full f 64 0;
  Some (f, l ← r; parse_header (buf_of l)).

Definition elf_load_file (f : file) (m : memory) (elf : elf_desc) : option loaded :=
  '(f, hd) ← elf_header f;
  match hd with
  | None => Some (f, m, elf, false)
  | Some hd =>
      let objcopy := nz elf.(e_base) in
      let elf := mk_elf elf.(e_base) elf.(e_buf_size) hd.(h_entry) None 0 hd.(h_phnum) in
      '(f, r) ← elf_scan (Z.to_nat hd.(h_phnum)) 0 f hd.(h_class64) hd.(h_phoff) (2 ^ 64 - 1) 0 0;
      match r with
      | None => Some (f, m, elf, false)
      | Some (lo, hi, phdr) =>
          let elf := set_e_phdr phdr elf in
          let lo := if lo =? 2 ^ 64 - 1 then 0 else lo in
          match elf_relocate objcopy hd.(h_type) lo hi elf with
          | None => Some (f, m, set_e_buf_size (u64 (hi - lo)) elf, false)
          | Some elf => elf_load_segments (Z.to_nat hd.(h_phnum)) 0 hd.(h_class64) hd.(h_phoff) objcopy lo f m elf
          end
      end
  end.

(** An image for a buffer; one that is no ELF file, or a bad one, is copied as it is. *)
Definition bin_objcopy (f : file) (m : memory) (buffer size : Z) (try_elf : bool) : option (file * memory * bool) :=
  let copy f m := '(f, l, n) ← rvread fuel f size 0; Some (f, put_bytes m buffer l, nz n) in
  if try_elf then
    '(f, mag, n) ← rvread fuel f 4 0;
    if (n =? 4) && (read_uint32_le_m (buf_of mag) 0 =? 0x464c457F) then
      '(f, m, _, ok) ← elf_load_file f m (mk_elf buffer size 0 None 0 0);
      if ok : bool then Some (f, m, true) else copy f m
    else copy f m
  else copy f m.

(** ** Reset *)

Definition kernel_offset (rv64 : bool) : Z := if rv64 then 0x200000 else 0x400000.

(** The images of [rvvm_reset_machine_state]: firmware at the start of RAM, a kernel above it. *)
Definition load_boot_images (m : ram) (rv64 elf : bool) (fw_file kernel_file : option file) (h : memory) : option (option file * option file * memory) :=
  '(fw, h) ← match fw_file with
             | Some f => '(f, h, _) ← bin_objcopy f h m.(ram_data) m.(ram_size) elf; Some (Some f, h)
             | None => Some (None, h)
             end;
  match kernel_file with
  | Some f =>
      let off := kernel_offset rv64 in
      let size := if off <? m.(ram_size) then m.(ram_size) - off else 0 in
      '(f, h, _) ← bin_objcopy f h (m.(ram_data) + off) size elf;
      Some (fw, Some f, h)
  | None => Some (fw, None, h)
  end.

Definition rvvm_fdt_addr (m : ram) (fdt_size : Z) : Z :=
  align_size_down (if fdt_size <? m.(ram_size) then m.(ram_size) - fdt_size else 0) 8.

(** A window of host memory, and what was done to it. *)
Definition window (h : memory) (p : Z) : memory := fun q => h (p + q).
Definition unwindow (p : Z) (b : memory) : memory := fun q => b (q - p).

(** The address from the options, a file, or the generated tree; 0 when it does not fit.
    [None] as for the reads and for the serialization. *)
Definition rvvm_pass_fdt (m : ram) (opt_fdt_addr : Z) (fdt_file : option file) (st : fdt_store) (root : option nat) (h : memory)
  : option (option file * memory * Z) :=
  if nz opt_fdt_addr then Some (fdt_file, h, opt_fdt_addr)
  else match fdt_file with
  | Some f =>
      let size := u32 (rvfilesize f) in
      let off := rvvm_fdt_addr m size in
      if size <? m.(ram_size) then
        '(f, l, _) ← rvread fuel f (m.(ram_size) - off) 0;
        Some (Some f, put_bytes h (m.(ram_data) + off) l, m.(ram_addr) + off)
      else Some (fdt_file, h, 0)
  | None =>
      size ← rvvm_fdt_size fuel st root;
      let off := rvvm_fdt_addr m (u32 size) in
      '(b, n) ← rvvm_fdt_serialize fuel st root (Some (window h (m.(ram_data) + off))) (m.(ram_size) - off);
      let h := match b with Some b => unwindow (m.(ram_data) + off) b | None => h end in
      Some (None, h, if nz n then m.(ram_addr) + off else 0)
  end.

End boot.

(** ** What the file says *)

(** The headers in a file with the given contents. *)
Definition hdr_in (c : memory) : option elf_hdr := parse_header (buf_of (get_bytes 64 c 0)).
Definition phent_in (c : memory) (hd : elf_hdr) (i : nat) : phent :=
  parse_phent hd.(h_class64) (buf_of (get_bytes (Z.to_nat (phent_size hd.(h_class64))) c (phent_off hd.(h_class64) hd.(h_phoff) i))).

(** [i] is the number of a segment of the file. *)
Definition segment_in (c : memory) (hd : elf_hdr) (i : nat) : Prop :=
  (i < Z.to_nat hd.(h_phnum))%nat /\ is_segment (phent_in c hd i) = true.

(** No header is at the offset that stands for the position of the file. *)
Definition offsets_ok (hd : elf_hdr) : Prop :=
  forall i, (i < Z.to_nat hd.(h_phnum))%nat -> phent_off hd.(h_class64) hd.(h_phoff) i <> RVFILE_POSITION.

(** Headers that make sense: a segment is not larger in the file than in memory, and does not wrap
    around the address space. *)
Definition headers_ok (c : memory) : Prop :=
  forall hd, hdr_in c = Some hd -> offsets_ok hd /\ forall i, segment_in c hd i ->
    let p := phent_in c hd i in p.(p_fsize) <= p.(p_memsz) /\ p.(p_vaddr) + p.(p_memsz) < 2 ^ 64.

Lemma buf_valid l : bytes l -> valid_memory (buf_of l).
Proof. intros Hl. apply put_bytes_valid; [|exact Hl]. intros a. unfold urange. lia. Qed.

Lemma rd_class_range c tmp a b : valid_memory tmp -> 0 <= rd_class c tmp a b < 2 ^ 64.
Proof.
  intros Hv. unfold rd_class, read_uint64_le_m, read_uint32_le_m. destruct c.
  - pose proof (le_combine_range _ (get_bytes_bytes 8 tmp a Hv)) as Hr. rewrite length_get_bytes in Hr. exact Hr.
  - pose proof (le_combine_range _ (get_bytes_bytes 4 tmp b Hv)) as Hr. rewrite length_get_bytes in Hr. unfold urange in *. simpl in *. lia.
Qed.

Lemma phent_ranges c hd i : valid_memory c -> let p := phent_in c hd i in
  urange 64 p.(p_offset) /\ 0 <= p.(p_vaddr) < 2 ^ 64 /\ 0 <= p.(p_fsize) < 2 ^ 64 /\ 0 <= p.(p_memsz) < 2 ^ 64.
Proof. intros Hv. simpl. split_and!; apply rd_class_range, buf_valid, get_bytes_bytes; exact Hv. Qed.

Lemma phent_off_range c o i : urange 64 (phent_off c o i).
Proof. apply wrap_range. lia. Qed.

(** The bytes of memory that a segment is read to, once it has passed the check. *)
Definition seg_at (base lo : Z) (p : phent) (q : Z) : Prop :=
  base + u64 (p.(p_vaddr) - lo) <= q < base + u64 (p.(p_vaddr) - lo) + p.(p_fsize).
Definition seg_checked (lo size : Z) (p : phent) : Prop := is_segment p = true /\ u64 (p.(p_vaddr) + p.(p_memsz)) <= u64 (lo + size).

(** The lowest address of the segments among some headers, and of [lo]. *)
Definition lowest (lo : Z) (ps : list phent) : Z :=
  fold_left (fun lo p => if is_segment p && (p.(p_vaddr) <? lo) then p.(p_vaddr) else lo) ps lo.

Lemma lowest_spec ps : forall lo, lowest lo ps <= lo /\ (forall p, p ∈ ps -> is_segment p = true -> lowest lo ps <= p.(p_vaddr)) /\
  (lowest lo ps = lo \/ exists p, p ∈ ps /\ is_segment p = true /\ lowest lo ps = p.(p_vaddr)).
Proof.
  induction ps as [|p ps IH]; intros lo; simpl; [split_and!; [lia|intros p Hp; inversion Hp|auto]|].
  destruct (IH (if is_segment p && (p.(p_vaddr) <? lo) then p.(p_vaddr) else lo)) as (H1 & H2 & H3).
  change (fold_left _ ps ?x) with (lowest x ps). set (lo' := if _ && _ then _ else _) in *.
  assert (Hlo : lo' <= lo /\ (is_segment p = true -> lo' <= p.(p_vaddr)) /\ (lo' = lo \/ (is_segment p = true /\ lo' = p.(p_vaddr)))).
  { unfold lo'. destruct (is_segment p); [|simpl; split_and!; auto; lia || discriminate]. destruct (Z.ltb_spec p.(p_vaddr) lo); simpl; split_and!; auto; lia. }
  split_and!; [lia| |].
  - intros q [->|Hq]%elem_of_cons Hs; [destruct Hlo as (_ & Hlo & _); specialize (Hlo Hs); lia|auto].
  - destruct H3 as [->|(q & Hq & Hs & E)].
    + destruct Hlo as (_ & _ & [->|[Hs ->]]); [auto|]. right. exists p. split_and!; auto. left.
    + right. exists q. split_and!; auto. right. exact Hq.
Qed.

(** A segment that can be loaded: it is in the file, and its memory in the buffer. *)
Definition fits (len lo size : Z) (p : phent) : Prop :=
  p.(p_fsize) < 2 ^ 31 /\ u64 (p.(p_vaddr) + p.(p_memsz)) <= u64 (lo + size) /\ p.(p_offset) + p.(p_fsize) <= len.

(** ** Loading *)

Section loading.
Context {K : Type} `{PosixOk K} (fuel : nat) (vma_alloc : option Z -> Z -> Z).
Local Abbreviation file := (rvfile K).

(** The host reports no errors. *)
Definition reliable : Prop := forall k s o k', 0 <= o -> pread k s o <> (k', Failed).

(** An open file with the given contents and length, and enough fuel for the bytes and the interruptions. *)
Record holds_file (c : memory) (len : Z) (f : file) : Prop := {
  hf_len : k_len f.(f_fd) = len;
  hf_ok : file_ok f;
  hf_pos : urange 64 f.(f_pos);
  hf_valid : valid_memory c;
  hf_mem : forall q, k_mem f.(f_fd) q = c q;
  hf_fuel : (Z.to_nat (k_len f.(f_fd)) + k_signals f.(f_fd) < fuel)%nat
}.

Lemma holds_reads c len f f' : holds_file c len f -> reads_as f f' -> holds_file c len f'.
Proof.
  intros [Hl H1 H2 H3 H4 H5] [R1 R2 R3 R4 R5]. split; auto.
  - congruence.
  - unfold file_ok in *. congruence.
  - intros q. rewrite R3. apply H4.
  - rewrite R2. lia.
Qed.

Lemma read_good c len f size off : holds_file c len f -> urange 64 off -> 0 <= size ->
  exists f' l, rvread fuel f size off = Some (f', l, u64 (s32 (Z.of_nat (length l)))) /\ holds_file c len f' /\ Z.of_nat (length l) <= size /\
    (off <> RVFILE_POSITION -> l = get_bytes (length l) c off) /\
    (reliable -> off < 2 ^ 63 -> Z.of_nat (length l) = Z.max 0 (Z.min size (len - off))).
Proof.
  intros Hf Ho Hs. destruct (rvread_any fuel f size off) as (f' & n & Hr & Hra & Hn & Hav); try apply Hf; auto.
  exists f', (get_bytes n c (if off =? RVFILE_POSITION then f.(f_pos) else off)). rewrite length_get_bytes.
  rewrite <- (get_bytes_mem n _ _ _ (hf_mem _ _ _ Hf)). split_and!; auto; [exact (holds_reads _ _ _ _ Hf Hra)| |].
  - intros Hne. apply Z.eqb_neq in Hne. rewrite Hne. apply get_bytes_mem, (hf_mem _ _ _ Hf).
  - intros Hrel Hlt. rewrite Hav by assumption. unfold available. by rewrite (hf_len _ _ _ Hf).
Qed.

Lemma read_full_good c len f size off : holds_file c len f -> urange 64 off -> off <> RVFILE_POSITION -> 0 <= size < 2 ^ 31 ->
  exists f' r, read_full fuel f size off = Some (f', r) /\ holds_file c len f' /\ (r = None \/ r = Some (get_bytes (Z.to_nat size) c off)) /\
    (reliable -> off + size <= len -> len < 2 ^ 63 -> is_Some r).
Proof.
  intros Hf Ho Hne Hs. destruct (read_good c len f size off Hf Ho ltac:(lia)) as (f' & l & Hr & Hf' & Hl & Hc & Hav). unfold read_full. rewrite Hr. simpl.
  eexists _, _. split; [reflexivity|]. split; [exact Hf'|]. rewrite file_count_small by lia. destruct (Z.eqb_spec (Z.of_nat (length l)) size) as [<-|Hneq].
  - split; [right; rewrite Nat2Z.id; f_equal; auto|eauto].
  - split; [auto|]. intros Hrel Hin Hlen. unfold urange in Ho. specialize (Hav Hrel ltac:(lia)). lia.
Qed.

Lemma phent_good c len f hd i : holds_file c len f -> phent_off hd.(h_class64) hd.(h_phoff) i <> RVFILE_POSITION ->
  exists f' r, elf_phent fuel f hd.(h_class64) hd.(h_phoff) i = Some (f', r) /\ holds_file c len f' /\ (r = None \/ r = Some (phent_in c hd i)) /\
    (reliable -> phent_off hd.(h_class64) hd.(h_phoff) i + phent_size hd.(h_class64) <= len -> len < 2 ^ 63 -> is_Some r).
Proof.
  intros Hf Hne. unfold elf_phent.
  destruct (read_full_good c len f (phent_size hd.(h_class64)) (phent_off hd.(h_class64) hd.(h_phoff) i) Hf (phent_off_range _ _ _) Hne) as (f' & r & Hr & Hf' & Hc & Hav).
  { unfold phent_size. destruct (h_class64 hd); lia. }
  rewrite Hr. simpl. eexists _, _. split; [reflexivity|]. split; [exact Hf'|]. destruct Hc as [->| ->].
  - split; [auto|]. intros H1 H2 H3. destruct (Hav H1 H2 H3) as [? [=]].
  - split; [right; reflexivity|]. simpl. eauto.
Qed.

(** The first pass finds the lowest address. *)
Lemma scan_good c len hd n : forall f i lo hi ph, holds_file c len f -> (forall k, (i <= k < i + n)%nat -> phent_off hd.(h_class64) hd.(h_phoff) k <> RVFILE_POSITION) ->
  exists f' r, elf_scan fuel n i f hd.(h_class64) hd.(h_phoff) lo hi ph = Some (f', r) /\ holds_file c len f' /\
    (r = None \/ exists hi' ph', r = Some (lowest lo (map (phent_in c hd) (seq i n)), hi', ph')) /\
    (reliable -> (forall k, (i <= k < i + n)%nat -> phent_off hd.(h_class64) hd.(h_phoff) k + phent_size hd.(h_class64) <= len) -> len < 2 ^ 63 -> is_Some r).
Proof.
  induction n as [|n IH]; intros f i lo hi ph Hf Ho; cbn [elf_scan seq map]; [eexists _, _; split_and!; eauto|].
  destruct (phent_good c len f hd i Hf (Ho i ltac:(lia))) as (f1 & r & Hr & Hf1 & [->| ->] & Hav); rewrite Hr; cbn [mbind option_bind].
  - eexists _, _. split_and!; eauto. intros H1 H2 H3. destruct (Hav H1 (H2 i ltac:(lia)) H3) as [? [=]].
  - match goal with |- context [elf_scan fuel n (S i) f1 _ _ ?lo' ?hi' ?ph'] => destruct (IH f1 (S i) lo' hi' ph') as (f2 & r & H1 & H2 & H3 & H4) end;
      [exact Hf1|intros k Hk; apply Ho; lia|]. exists f2, r. split_and!; auto. intros Hrel Hin. apply H4; auto. intros k Hk. apply Hin. lia.
Qed.

(** One segment. *)
Lemma load_segment_good c len f hd i obj lo m elf : holds_file c len f -> let p := phent_in c hd i in
  exists f' m' elf' ok, elf_load_segment fuel obj lo p f m elf = Some (f', m', elf', ok) /\ holds_file c len f' /\
  elf'.(e_base) = elf.(e_base) /\ elf'.(e_buf_size) = elf.(e_buf_size) /\ elf'.(e_entry) = elf.(e_entry) /\
  (forall q, ~ (seg_checked lo elf.(e_buf_size) p /\ seg_at elf.(e_base) lo p q) -> m' q = m q) /\
  (ok = true -> is_segment p = true -> p.(p_fsize) < 2 ^ 31 -> p.(p_offset) <> RVFILE_POSITION ->
    get_bytes (Z.to_nat p.(p_fsize)) m' (elf.(e_base) + u64 (p.(p_vaddr) - lo)) = get_bytes (Z.to_nat p.(p_fsize)) c p.(p_offset)) /\
  (reliable -> obj = true -> len < 2 ^ 63 -> (is_segment p = true -> fits len lo elf.(e_buf_size) p) -> ok = true).
Proof.
  intros Hf p. destruct (phent_ranges c hd i (hf_valid _ _ _ Hf)) as (Ho & _ & Hfs & _). fold p in Ho, Hfs.
  assert (Hrest : forall f1 m1 (ok : bool), holds_file c len f1 ->
    (forall q, ~ (seg_checked lo elf.(e_buf_size) p /\ seg_at elf.(e_base) lo p q) -> m1 q = m q) ->
    (ok = true -> is_segment p = true -> p.(p_fsize) < 2 ^ 31 -> p.(p_offset) <> RVFILE_POSITION ->
      get_bytes (Z.to_nat p.(p_fsize)) m1 (elf.(e_base) + u64 (p.(p_vaddr) - lo)) = get_bytes (Z.to_nat p.(p_fsize)) c p.(p_offset)) ->
    (reliable -> len < 2 ^ 63 -> (is_segment p = true -> fits len lo elf.(e_buf_size) p) -> ok = true) ->
    exists f' m' elf' ok', (if negb ok then Some (f1, m1, elf, false)
      else if (p.(p_type) =? ELF_PT_INTERP) && negb obj && match elf.(e_interp_path) with None => true | Some _ => false end then
        if negb (p.(p_fsize) <? 1024) then Some (f1, m1, elf, false)
        else '(f, l, n) ← rvread fuel f1 p.(p_fsize) p.(p_offset);
          Some (f, m1, set_e_interp_path (Some (l ++ repeat 0 (Z.to_nat (p.(p_fsize) + 1 - Z.of_nat (length l))))) elf, n =? p.(p_fsize))
      else Some (f1, m1, elf, true)) = Some (f', m', elf', ok') /\ holds_file c len f' /\
      elf'.(e_base) = elf.(e_base) /\ elf'.(e_buf_size) = elf.(e_buf_size) /\ elf'.(e_entry) = elf.(e_entry) /\
      (forall q, ~ (seg_checked lo elf.(e_buf_size) p /\ seg_at elf.(e_base) lo p q) -> m' q = m q) /\
      (ok' = true -> is_segment p = true -> p.(p_fsize) < 2 ^ 31 -> p.(p_offset) <> RVFILE_POSITION ->
        get_bytes (Z.to_nat p.(p_fsize)) m' (elf.(e_base) + u64 (p.(p_vaddr) - lo)) = get_bytes (Z.to_nat p.(p_fsize)) c p.(p_offset)) /\
      (reliable -> obj = true -> len < 2 ^ 63 -> (is_segment p = true -> fits len lo elf.(e_buf_size) p) -> ok' = true)).
  { intros f1 m1 ok Hf1 Hfr Hget Hgood. destruct ok; cbn [negb]; [|eexists _, _, _, _; split_and!; eauto; discriminate].
    destruct obj; [rewrite andb_false_r; cbn [andb]; eexists _, _, _, _; split_and!; eauto|].
    destruct (_ && _ && _); [|eexists _, _, _, _; split_and!; eauto]. destruct (negb _); [eexists _, _, _, _; split_and!; eauto; discriminate|].
    destruct (read_good c len f1 p.(p_fsize) p.(p_offset) Hf1 Ho ltac:(lia)) as (f2 & l & Hr & Hf2 & _). rewrite Hr. cbn [mbind option_bind].
    eexists _, _, _, _. split_and!; eauto. discriminate. }
  unfold elf_load_segment. destruct (is_segment p) eqn:Eseg; [|apply Hrest; auto; discriminate].
  destruct (Z.leb_spec (u64 (p.(p_vaddr) + p.(p_memsz))) (u64 (lo + elf.(e_buf_size)))) as [Hle|Hgt]; cbn [negb].
  2: { apply Hrest; auto; [discriminate|]. intros _ _ Hfit. destruct (Hfit eq_refl) as (_ & Hfit' & _). lia. }
  destruct (read_good c len f p.(p_fsize) p.(p_offset) Hf Ho ltac:(lia)) as (f1 & l & Hr & Hf1 & Hl & Hc & Hav). rewrite Hr. cbn [mbind option_bind].
  apply Hrest; [exact Hf1| | |].
  - intros q Hq. apply put_bytes_outside. intros Hin. apply Hq. split; [split; [exact Eseg|exact Hle]|]. unfold seg_at. lia.
  - intros Hn _ Hsm Hne. rewrite file_count_small, Z.eqb_eq in Hn by lia. specialize (Hc Hne). rewrite <- Hn, Nat2Z.id, <- Hc. apply get_put_same.
  - intros Hrel Hlen Hfit. destruct (Hfit eq_refl) as (Hsm & _ & Hin). unfold urange in Ho. specialize (Hav Hrel ltac:(lia)).
    rewrite file_count_small by lia. apply Z.eqb_eq. lia.
Qed.

(** The second pass changes only what its segments are read to; when it succeeds, each segment is
    there, if those after it leave it alone. *)
Lemma load_segments_good c len hd obj lo n : forall f i m elf, holds_file c len f ->
  (forall k, (i <= k < i + n)%nat -> phent_off hd.(h_class64) hd.(h_phoff) k <> RVFILE_POSITION) ->
  exists f' m' elf' ok, elf_load_segments fuel n i hd.(h_class64) hd.(h_phoff) obj lo f m elf = Some (f', m', elf', ok) /\ holds_file c len f' /\
  elf'.(e_entry) = elf.(e_entry) /\
  (forall q, (forall k, (i <= k < i + n)%nat -> seg_checked lo elf.(e_buf_size) (phent_in c hd k) -> ~ seg_at elf.(e_base) lo (phent_in c hd k) q) -> m' q = m q) /\
  (ok = true -> forall k, let p := phent_in c hd k in (i <= k < i + n)%nat -> is_segment p = true -> p.(p_fsize) < 2 ^ 31 -> p.(p_offset) <> RVFILE_POSITION ->
    (forall k' q, (k < k' < i + n)%nat -> is_segment (phent_in c hd k') = true -> seg_at elf.(e_base) lo p q -> ~ seg_at elf.(e_base) lo (phent_in c hd k') q) ->
    get_bytes (Z.to_nat p.(p_fsize)) m' (elf.(e_base) + u64 (p.(p_vaddr) - lo)) = get_bytes (Z.to_nat p.(p_fsize)) c p.(p_offset)) /\
  (reliable -> obj = true -> len < 2 ^ 63 ->
    (forall k, (i <= k < i + n)%nat -> phent_off hd.(h_class64) hd.(h_phoff) k + phent_size hd.(h_class64) <= len /\
       (is_segment (phent_in c hd k) = true -> fits len lo elf.(e_buf_size) (phent_in c hd k))) -> ok = true).
Proof.
  induction n as [|n IH]; intros f i m elf Hf Ho; cbn [elf_load_segments].
  { eexists _, _, _, _. split_and!; eauto. intros; lia. }
  destruct (phent_good c len f hd i Hf (Ho i ltac:(lia))) as (f1 & r & Hr & Hf1 & Hc & Hsome). rewrite Hr. cbn [mbind option_bind].
  destruct Hc as [->| ->].
  { eexists _, _, _, _. split_and!; eauto; [discriminate|]. intros H1 _ H3 H4. destruct (Hsome H1 (proj1 (H4 i ltac:(lia))) H3) as [? [=]]. }
  destruct (load_segment_good c len f1 hd i obj lo m elf Hf1) as (f2 & m1 & elf1 & ok1 & Hl & Hf2 & Eb & Es & Ee & Hfr & Hget & Hok).
  cbv zeta in Hl. rewrite Hl. cbn [mbind option_bind].
  assert (Hq1 : forall q, (forall k, (i <= k < i + S n)%nat -> seg_checked lo elf.(e_buf_size) (phent_in c hd k) -> ~ seg_at elf.(e_base) lo (phent_in c hd k) q) -> m1 q = m q).
  { intros q Hq. apply Hfr. intros [A B]. exact (Hq i ltac:(lia) A B). }
  destruct ok1.
  2: { eexists _, _, _, _. split_and!; eauto; [discriminate|]. intros H1 H2 H3 H4. apply Hok; auto. apply H4. lia. }
  destruct (IH f2 (S i) m1 elf1 Hf2 ltac:(intros; apply Ho; lia)) as (f3 & m2 & elf2 & ok2 & Hl2 & Hf3 & Ee2 & Hfr2 & Hget2 & Hok2). rewrite Eb, Es in *.
  exists f3, m2, elf2, ok2. split_and!; auto; [congruence| | |].
  - intros q Hq. rewrite Hfr2; [apply Hq1; exact Hq|]. intros k Hk. apply Hq. lia.
  - intros Hok' k Hk Hs Hsm Hne Hdis. destruct (decide (k = i)) as [->|Hki].
    + rewrite <- (Hget eq_refl Hs Hsm Hne). apply get_bytes_ext. intros j Hj. apply Hfr2. intros k' Hk' [Hs' _]. apply (Hdis k'); [lia|exact Hs'|].
      unfold seg_at. pose proof (phent_ranges c hd i (hf_valid _ _ _ Hf)). lia.
    + apply (Hget2 Hok' k); auto; [lia|]. intros k' q Hk'. apply Hdis. lia.
  - intros H1 H2 H3 H4. apply Hok2; auto. intros k Hk. apply H4. lia.
Qed.

Lemma elf_relocate_objcopy ty lo hi e : exists e', elf_relocate vma_alloc true ty lo hi e = Some e' /\
  e'.(e_base) = e.(e_base) /\ e'.(e_buf_size) = e.(e_buf_size) /\ e'.(e_entry) = (if nz e.(e_entry) then u64 (e.(e_entry) - lo) else 0).
Proof.
  unfold elf_relocate. eexists. split; [reflexivity|]. unfold nz. destruct (Z.eqb_spec e.(e_entry) 0) as [E|E]; cbn [negb]; destruct (negb (e_phdr _ =? 0)); simpl; auto.
Qed.

(** The address that loading starts from. *)
Definition elf_lo (c : memory) (hd : elf_hdr) : Z :=
  let lo := lowest (2 ^ 64 - 1) (map (phent_in c hd) (seq 0 (Z.to_nat hd.(h_phnum)))) in if lo =? 2 ^ 64 - 1 then 0 else lo.

Lemma elf_lo_spec c hd : valid_memory c -> 0 <= elf_lo c hd < 2 ^ 64 - 1 /\
  (forall i, segment_in c hd i -> (phent_in c hd i).(p_vaddr) < 2 ^ 64 - 1 -> elf_lo c hd <= (phent_in c hd i).(p_vaddr)) /\
  ((exists i, segment_in c hd i /\ (phent_in c hd i).(p_vaddr) < 2 ^ 64 - 1) -> exists i, segment_in c hd i /\ elf_lo c hd = (phent_in c hd i).(p_vaddr)).
Proof.
  intros Hv. unfold elf_lo. cbv zeta. set (ps := map _ _). destruct (lowest_spec ps (2 ^ 64 - 1)) as (H1 & H2 & H3). set (lo := lowest _ ps) in *.
  assert (Hin : forall i, segment_in c hd i -> phent_in c hd i ∈ ps).
  { intros i [Hi _]. unfold ps. apply list_elem_of_In, in_map, in_seq. lia. }
  assert (Hex : forall p, p ∈ ps -> exists i, (i < Z.to_nat hd.(h_phnum))%nat /\ p = phent_in c hd i).
  { intros p Hp. unfold ps in Hp. apply list_elem_of_In, in_map_iff in Hp as (i & <- & Hi). apply in_seq in Hi. exists i. split; [lia|reflexivity]. }
  assert (Hlo : lo = 2 ^ 64 - 1 \/ exists i, segment_in c hd i /\ lo = (phent_in c hd i).(p_vaddr)).
  { destruct H3 as [->|(p & Hp & Hs & E)]; [auto|]. right. destruct (Hex p Hp) as (i & Hi & ->). exists i. split; [split; assumption|exact E]. }
  assert (Hpos : 0 <= lo) by (destruct Hlo as [->|(i & _ & ->)]; [lia|apply (phent_ranges c hd i Hv)]).
  destruct (Z.eqb_spec lo (2 ^ 64 - 1)) as [E|E]; split_and!; try lia.
  - intros i Hi Hlt. specialize (H2 _ (Hin i Hi) (proj2 Hi)). lia.
  - intros (i & Hi & Hlt). specialize (H2 _ (Hin i Hi) (proj2 Hi)). lia.
  - intros i Hi _. exact (H2 _ (Hin i Hi) (proj2 Hi)).
  - intros _. destruct Hlo as [?|He]; [contradiction|exact He].
Qed.

(** The header of the file is read, or not. *)
Lemma header_good c len f : holds_file c len f -> exists f' r, elf_header fuel f = Some (f', r) /\ holds_file c len f' /\ (r = None \/ r = hdr_in c) /\
  (reliable -> 64 <= len -> len < 2 ^ 63 -> r = hdr_in c).
Proof.
  intros Hf. unfold elf_header. destruct (read_full_good c len f 64 0 Hf) as (f' & r & Hr & Hf' & Hc & Hsome); [split; reflexivity|discriminate|lia|].
  rewrite Hr. cbn [mbind option_bind]. eexists _, _. split; [reflexivity|]. split; [exact Hf'|]. destruct Hc as [->| ->]; [|split; auto].
  split; [auto|]. intros H1 H2 H3. destruct (Hsome H1 H2 H3) as [? [=]].
Qed.

(** All of a file. *)
Lemma elf_load_good c len f m e : holds_file c len f -> e.(e_base) <> 0 -> (forall hd, hdr_in c = Some hd -> offsets_ok hd) ->
  exists f' m' e' ok, elf_load_file fuel vma_alloc f m e = Some (f', m', e', ok) /\ holds_file c len f' /\
  (forall q, (forall hd k, hdr_in c = Some hd -> (k < Z.to_nat hd.(h_phnum))%nat -> seg_checked (elf_lo c hd) e.(e_buf_size) (phent_in c hd k) ->
      ~ seg_at e.(e_base) (elf_lo c hd) (phent_in c hd k) q) -> m' q = m q) /\
  (ok = true -> exists hd, hdr_in c = Some hd /\ e'.(e_entry) = (if nz hd.(h_entry) then u64 (hd.(h_entry) - elf_lo c hd) else 0) /\
    forall k, let p := phent_in c hd k in segment_in c hd k -> p.(p_fsize) < 2 ^ 31 -> p.(p_offset) <> RVFILE_POSITION ->
    (forall k' q, (k < k')%nat -> segment_in c hd k' -> seg_at e.(e_base) (elf_lo c hd) p q -> ~ seg_at e.(e_base) (elf_lo c hd) (phent_in c hd k') q) ->
    get_bytes (Z.to_nat p.(p_fsize)) m' (e.(e_base) + u64 (p.(p_vaddr) - elf_lo c hd)) = get_bytes (Z.to_nat p.(p_fsize)) c p.(p_offset)) /\
  (forall hd, reliable -> 64 <= len < 2 ^ 63 -> hdr_in c = Some hd ->
    (forall k, (k < Z.to_nat hd.(h_phnum))%nat -> phent_off hd.(h_class64) hd.(h_phoff) k + phent_size hd.(h_class64) <= len /\
       (is_segment (phent_in c hd k) = true -> fits len (elf_lo c hd) e.(e_buf_size) (phent_in c hd k))) -> ok = true).
Proof.
  intros Hf Hb Hoff. unfold elf_load_file. destruct (header_good c len f Hf) as (f1 & r & Hr & Hf1 & Hc & Hsome). rewrite Hr. cbn [mbind option_bind].
  destruct r as [hd|].
  2: { eexists _, _, _, _. split_and!; eauto; [discriminate|]. intros hd H1 H2 H3. rewrite <- (Hsome H1 ltac:(lia) ltac:(lia)) in H3. discriminate. }
  assert (Eh : hdr_in c = Some hd) by (destruct Hc as [[=]| ->]; reflexivity). specialize (Hoff hd Eh).
  assert (Hobj : nz e.(e_base) = true) by (unfold nz; apply Z.eqb_neq in Hb; rewrite Hb; reflexivity). rewrite Hobj.
  destruct (scan_good c len hd (Z.to_nat hd.(h_phnum)) f1 0 (2 ^ 64 - 1) 0 0 Hf1 ltac:(intros; apply Hoff; lia)) as (f2 & r & Hs & Hf2 & Hc2 & Hsome2).
  rewrite Hs. cbn [mbind option_bind]. destruct Hc2 as [->|(hi & ph & ->)].
  { eexists _, _, _, _. split_and!; eauto; [discriminate|]. intros hd' H1 H2 H3 H4. rewrite Eh in H3. injection H3 as <-.
    destruct (Hsome2 H1) as [? [=]]; [|lia]. intros k Hk. apply H4. lia. }
  change (if lowest _ _ =? 2 ^ 64 - 1 then 0 else _) with (elf_lo c hd). set (e1 := set_e_phdr ph _).
  destruct (elf_relocate_objcopy hd.(h_type) (elf_lo c hd) hi e1) as (e2 & Er & Eb & Ez & Ee). rewrite Er. simpl in Eb, Ez, Ee.
  destruct (load_segments_good c len hd true (elf_lo c hd) (Z.to_nat hd.(h_phnum)) f2 0 m e2 Hf2 ltac:(intros; apply Hoff; lia))
    as (f3 & m' & e' & ok & Hl & Hf3 & Hent & Hfr & Hget & Hok). rewrite Eb, Ez in *.
  exists f3, m', e', ok. split_and!; auto.
  - intros q Hq. apply Hfr. intros k Hk. apply Hq; [exact Eh|lia].
  - intros Hok'. exists hd. split_and!; [exact Eh|rewrite Hent; exact Ee|]. intros k [Hk Hs'] Hsm Hne Hdis. apply (Hget Hok' k); auto; [lia|].
    intros k' q Hk' Hs''. apply Hdis; [lia|split; [lia|exact Hs'']].
  - intros hd' H1 H2 H3 H4. rewrite Eh in H3. injection H3 as <-. apply Hok; auto; [lia|]. intros k Hk. apply H4. lia.
Qed.

Lemma elf_load_in_bounds c len f m e : holds_file c len f -> headers_ok c -> e.(e_base) <> 0 -> 0 <= e.(e_buf_size) < 2 ^ 64 ->
  exists f' m' e' ok, elf_load_file fuel vma_alloc f m e = Some (f', m', e', ok) /\ holds_file c len f' /\
  forall q, ~ (e.(e_base) <= q < e.(e_base) + e.(e_buf_size)) -> m' q = m q.
Proof.
  intros Hf Hhd Hbase Hsize. destruct (elf_load_good c len f m e Hf Hbase) as (f' & m' & e' & ok & Hl & Hf' & Hfr & _); [intros hd Eh; apply Hhd; exact Eh|].
  exists f', m', e', ok. split_and!; auto. intros q Hq. apply Hfr. intros hd k Eh Hk [Hseg Hck] Hat.
  destruct (Hhd hd Eh) as [_ Hh]. destruct (Hh k (conj Hk Hseg)) as [Hfs Hw]. pose proof (hf_valid _ _ _ Hf) as Hv.
  destruct (phent_ranges c hd k Hv) as (_ & Hva & Hf0 & Hms). destruct (elf_lo_spec c hd Hv) as (Hlo & Hle & _).
  set (p := phent_in c hd k) in *. unfold seg_at in Hat. apply Hq.
  assert (Hlow : elf_lo c hd <= p.(p_vaddr)).
  { destruct (Z.eq_dec p.(p_vaddr) (2 ^ 64 - 1)); [lia|]. apply (Hle k (conj Hk Hseg)). fold p. lia. }
  rewrite (wrap_small 64 (p.(p_vaddr) - elf_lo c hd)) in Hat by (unfold urange; lia). rewrite (wrap_small 64 (p.(p_vaddr) + _)) in Hck by (unfold urange; lia).
  pose proof (Z.mod_le (elf_lo c hd + e.(e_buf_size)) (2 ^ 64) ltac:(lia) ltac:(lia)). unfold wrap in Hck. lia.
Qed.

(** C38: Loading an image returns and writes to nothing but the buffer it is given, whatever the file
    contains and whatever errors the host reports, as long as the segments of an ELF file are not
    larger in the file than in memory and do not wrap around the address space, and no program
    header is at the offset 2^64 - 1. *)
Theorem bin_objcopy_in_bounds c len f m buffer size try_elf : holds_file c len f -> headers_ok c -> buffer <> 0 -> 0 <= size < 2 ^ 64 ->
  exists f' m' ok, bin_objcopy fuel vma_alloc f m buffer size try_elf = Some (f', m', ok) /\
  forall q, ~ (buffer <= q < buffer + size) -> m' q = m q.
Proof.
  intros Hf Hhd Hb Hs. unfold bin_objcopy.
  assert (Hcopy : forall g m1, holds_file c len g -> (forall q, ~ (buffer <= q < buffer + size) -> m1 q = m q) ->
    exists f' m' ok, ('(f, l, n) ← rvread fuel g size 0; Some (f, put_bytes m1 buffer l, nz n)) = Some (f', m', ok) /\
      forall q, ~ (buffer <= q < buffer + size) -> m' q = m q).
  { intros g m1 Hg Hm. destruct (read_good c len g size 0 Hg) as (g' & l & Hr & _ & Hl & _); [split; reflexivity|lia|]. rewrite Hr. cbn [mbind option_bind].
    eexists _, _, _. split; [reflexivity|]. intros q Hq. rewrite put_bytes_outside by lia. apply Hm. exact Hq. }
  destruct try_elf; [|apply Hcopy; auto].
  destruct (read_good c len f 4 0 Hf) as (f1 & mag & Hr & Hf1 & _); [split; reflexivity|lia|]. rewrite Hr. cbn [mbind option_bind].
  destruct (_ && _); [|apply Hcopy; auto].
  destruct (elf_load_in_bounds c len f1 m (mk_elf buffer size 0 None 0 0) Hf1 Hhd Hb Hs) as (f2 & m2 & e2 & ok & Hl & Hf2 & Hq). rewrite Hl. cbn [mbind option_bind].
  destruct ok; [eauto|apply Hcopy; auto].
Qed.

End loading.

(** ** Examples *)

(** A file with the given contents, on a host that interrupts twice and reads three bytes at a
    time, and fuel for files of up to 200 bytes. *)
Definition list_mem (l : list Z) : memory := put_bytes (fun _ => 0) 0 l.
Definition list_file (l : list Z) : rvfile demo_host := mk_rvfile (Z.of_nat (length l)) 0 (mk_demo_host (list_mem l) (Z.of_nat (length l)) 2).
Definition list_fuel : nat := 203.

Lemma list_file_holds l : bytes l -> (length l <= 200)%nat -> holds_file list_fuel (list_mem l) (Z.of_nat (length l)) (list_file l).
Proof.
  intros Hb Hl. assert (Hlen : k_len (list_file l).(f_fd) = Z.of_nat (length l)) by (simpl; unfold demo_len; simpl; lia).
  split; auto; [unfold file_ok; rewrite Hlen; reflexivity|unfold urange; simpl; lia|apply put_bytes_valid; [intros a; unfold urange; lia|exact Hb]|].
  rewrite Hlen. unfold list_fuel. simpl. lia.
Qed.

Lemma demo_reliable : reliable (K := demo_host).
Proof. intros k s o k' Ho. simpl. destruct (Z.ltb_spec o 0); [lia|]. destruct (dh_signals k); discriminate. Qed.

(** A 64-bit ELF file with one segment at 0x80000000, and the entry point four bytes into it. *)
Definition demo_elf (fsize memsz : Z) (data : list Z) : list Z :=
  [0x7F; 0x45; 0x4C; 0x46; 2; 1] ++ repeat 0 10 ++ le_split 2 2 ++ repeat 0 6 ++ le_split 8 0x80000004 ++ le_split 8 64 ++ repeat 0 16 ++ le_split 2 1 ++ repeat 0 6 ++
  le_split 4 1 ++ le_split 4 5 ++ le_split 8 120 ++ le_split 8 0x80000000 ++ le_split 8 0 ++ le_split 8 fsize ++ le_split 8 memsz ++ le_split 8 0 ++ data.

Definition no_vma (_ : option Z) (_ : Z) : Z := 0.

Lemma demo_elf_bytes f m : bytes (demo_elf f m [1; 2; 3; 4; 5; 6; 7; 8]).
Proof.
  assert (Hs : forall n v, bytes (le_split n v)) by (intros; apply le_split_bytes).
  unfold demo_elf. repeat (apply Forall_app; split); try apply Hs; repeat constructor; unfold urange; lia.
Qed.

Definition good_elf : list Z := demo_elf 8 8 [1; 2; 3; 4; 5; 6; 7; 8].
Definition good_hdr : elf_hdr := mk_hdr true 2 0x80000004 64 1.

Lemma good_hdr_in : hdr_in (list_mem good_elf) = Some good_hdr.
Proof. vm_compute. reflexivity. Qed.

Lemma good_phent_in : phent_in (list_mem good_elf) good_hdr 0 = mk_phent 1 120 0x80000000 8 8.
Proof. vm_compute. reflexivity. Qed.

Lemma good_offsets : offsets_ok good_hdr.
Proof. intros i Hi. simpl in Hi. assert (i = O) as -> by lia. vm_compute. discriminate. Qed.

Lemma good_segment i : segment_in (list_mem good_elf) good_hdr i -> i = O.
Proof. intros [Hi _]. simpl in Hi. lia. Qed.

Lemma good_headers : headers_ok (list_mem good_elf).
Proof.
  intros hd Hh. rewrite good_hdr_in in Hh. injection Hh as <-. split; [apply good_offsets|].
  intros i ->%good_segment. cbv zeta. rewrite good_phent_in. simpl. lia.
Qed.

Lemma good_holds : holds_file list_fuel (list_mem good_elf) 128 (list_file good_elf).
Proof. apply list_file_holds; [apply demo_elf_bytes|vm_compute; lia]. Qed.

Lemma bin_objcopy_in_bounds_witness : exists f m,
  bin_objcopy list_fuel no_vma (list_file good_elf) (fun _ => 0) 0x1000 8 true = Some (f, m, true) /\
  get_bytes 8 m 0x1000 = [1; 2; 3; 4; 5; 6; 7; 8] /\ m 0x1008 = 0.
Proof.
  destruct (bin_objcopy_in_bounds list_fuel no_vma (list_mem good_elf) 128 (list_file good_elf) (fun _ => 0) 0x1000 8 true good_holds good_headers) as (f & m & ok & E & Hq);
    [discriminate|lia|].
  exists f, m. assert (Hx : ((fun x => (x.2, get_bytes 8 x.1.2 0x1000)) <$> bin_objcopy list_fuel no_vma (list_file good_elf) (fun _ => 0) 0x1000 8 true) = Some (true, [1; 2; 3; 4; 5; 6; 7; 8]))
    by (vm_compute; reflexivity).
  rewrite E in Hx. apply (f_equal (fun o => match o with Some x => x | None => (false, []) end)) in Hx. cbn [fmap option_fmap option_map snd fst] in Hx.
  pose proof (f_equal fst Hx) as Ho. pose proof (f_equal snd Hx) as Hg. cbn [fst snd] in Ho, Hg. subst ok. split; [exact E|]. split; [exact Hg|]. apply Hq. lia.
Defined.


(** A segment of eight bytes in the file and four in memory, and a buffer of four bytes: the byte
    after the buffer is written. *)
Lemma elf_load_overflows :
  ((fun x => (x.2, x.1.1.2 0x1004)) <$> elf_load_file list_fuel no_vma (list_file (demo_elf 8 4 [1; 2; 3; 4; 5; 6; 7; 8])) (fun _ => 0) (mk_elf 0x1000 4 0 None 0 0))
  = Some (true, 5).
Proof. vm_compute. reflexivity. Qed.

(** ** The device tree *)

Lemma fdt_addr_fits m size : 0 <= size < m.(ram_size) -> m.(ram_size) < 2 ^ 64 ->
  let off := rvvm_fdt_addr m size in 0 <= off /\ off + size <= m.(ram_size) /\ off mod 8 = 0.
Proof.
  intros Hs Hm. cbn zeta. unfold rvvm_fdt_addr. destruct (Z.ltb_spec size m.(ram_size)); [|lia]. unfold align_size_down.
  set (x := m.(ram_size) - size). assert (Hx : 0 <= x < 2 ^ 64) by (unfold x; lia).
  change (u64 (Z.lnot (8 - 1))) with (Z.ldiff (Z.ones 64) (Z.ones 3)).
  rewrite Z.ldiff_land, Z.land_assoc, Z.land_ones, (Z.mod_small _ (2 ^ 64)) by lia.
  rewrite <- Z.ldiff_land, Z.ldiff_ones_r by lia. rewrite Z.shiftl_mul_pow2, Z.shiftr_div_pow2 by lia. change (2 ^ 3) with 8. unfold x in *. dlia.
Qed.
