(* ===== verification/CsrDefs.v ===== *)
(** * CSR numbers, bit fields and masks (src/cpu/riscv_csr.h)

    The constants of the CSR header the CPU core uses, under their C names. *)

From S2P Require Import Prelude.


(** Unprivileged Floating-Point CSRs *)
Definition CSR_FFLAGS : Z := 0x001.
Definition CSR_FRM : Z := 0x002.
Definition CSR_FCSR : Z := 0x003.

(** Unprivileged Entropy Source CSR *)
Definition CSR_SEED : Z := 0x015.

(** Unprivileged Counters/Timers *)
Definition CSR_CYCLE : Z := 0xC00.
Definition CSR_CYCLEH : Z := 0xC80.
Definition CSR_TIME : Z := 0xC01.
Definition CSR_TIMEH : Z := 0xC81.
Definition CSR_INSTRET : Z := 0xC02.
Definition CSR_INSTRETH : Z := 0xC82.

(** Supervisor Trap Setup *)
Definition CSR_SSTATUS : Z := 0x100.
Definition CSR_SIE : Z := 0x104.
Definition CSR_SIEH : Z := 0x114.
Definition CSR_STVEC : Z := 0x105.
Definition CSR_SCOUNTEREN : Z := 0x106.
Definition CSR_STIMECMP : Z := 0x14D.
Definition CSR_STIMECMPH : Z := 0x15D.

(** Supervisor Configuration *)
Definition CSR_SENVCFG : Z := 0x10A.

(** Supervisor Counter Setup *)
Definition CSR_SCOUNTINHIBIT : Z := 0x120.

(** Supervisor Indirect CSR Access (Sscsrind) *)
Definition CSR_SISELECT : Z := 0x150.
Definition CSR_SIREG : Z := 0x151.

(** Supervisor Trap Handling *)
Definition CSR_SSCRATCH : Z := 0x140.
Definition CSR_SEPC : Z := 0x141.
Definition CSR_SCAUSE : Z := 0x142.
Definition CSR_STVAL : Z := 0x143.
Definition CSR_SIP : Z := 0x144.
Definition CSR_SIPH : Z := 0x154.
Definition CSR_STOPEI : Z := 0x15C.
Definition CSR_STOPI : Z := 0xDB0.

(** Supervisor Protection and Translation *)
Definition CSR_SATP : Z := 0x180.

(** Machine Information Registers *)
Definition CSR_MVENDORID : Z := 0xF11.
Definition CSR_MARCHID : Z := 0xF12.
Definition CSR_MIMPID : Z := 0xF13.
Definition CSR_MHARTID : Z := 0xF14.

(** Machine Trap Setup *)
Definition CSR_MSTATUS : Z := 0x300.
Definition CSR_MSTATUSH : Z := 0x310.
Definition CSR_MISA : Z := 0x301.
Definition CSR_MEDELEG : Z := 0x302.
Definition CSR_MIDELEG : Z := 0x303.
Definition CSR_MIDELEGH : Z := 0x313.
Definition CSR_MIE : Z := 0x304.
Definition CSR_MIEH : Z := 0x314.
Definition CSR_MTVEC : Z := 0x305.
Definition CSR_MCOUNTEREN : Z := 0x306.

(** Machine Trap Handling *)
Definition CSR_MSCRATCH : Z := 0x340.
Definition CSR_MEPC : Z := 0x341.
Definition CSR_MCAUSE : Z := 0x342.
Definition CSR_MTVAL : Z := 0x343.
Definition CSR_MIP : Z := 0x344.
Definition CSR_MIPH : Z := 0x354.
Definition CSR_MTOPEI : Z := 0x35C.
Definition CSR_MTOPI : Z := 0xFB0.

(** Machine Configuration *)
Definition CSR_MENVCFG : Z := 0x30A.
Definition CSR_MENVCFGH : Z := 0x31A.
Definition CSR_MSECCFG : Z := 0x747.
Definition CSR_MSECCFGH : Z := 0x757.

(** Machine Counters/Timers *)
Definition CSR_MCYCLE : Z := 0xB00.
Definition CSR_MCYCLEH : Z := 0xB80.
Definition CSR_MINSTRET : Z := 0xB02.
Definition CSR_MINSTRETH : Z := 0xB82.

(** Machine Counter Setup *)
Definition CSR_MCOUNTINHIBIT : Z := 0x320.

(** Machine Indirect CSR Access (Smcsrind) *)
Definition CSR_MISELECT : Z := 0x350.
Definition CSR_MIREG : Z := 0x351.

(** Indirect CSRs *)
Definition CSRI_MIPRIO_0 : Z := 0x30.
Definition CSRI_MIPRIO_15 : Z := 0x3F.
Definition CSRI_EIDELIVERY : Z := 0x70.
Definition CSRI_EITHRESHOLD : Z := 0x72.
Definition CSRI_EIP0 : Z := 0x80.
Definition CSRI_EIP63 : Z := 0xBF.
Definition CSRI_EIE0 : Z := 0xC0.
Definition CSRI_EIE63 : Z := 0xFF.

(** CSR Operations *)
Definition CSR_SWAP : Z := 0x1.
Definition CSR_SETBITS : Z := 0x2.
Definition CSR_CLEARBITS : Z := 0x3.

(** CSR Values / Bitfields *)
Definition CSR_STATUS_MPRV : Z := 1 .<< 17.
Definition CSR_STATUS_SUM : Z := 1 .<< 18.
Definition CSR_STATUS_MXR : Z := 1 .<< 19.
Definition CSR_STATUS_TVM : Z := 1 .<< 20.
Definition CSR_STATUS_TW : Z := 1 .<< 21.
Definition CSR_STATUS_TSR : Z := 1 .<< 22.
Definition CSR_ENVCFG_CBIE : Z := 1 .<< 4.
Definition CSR_ENVCFG_CBCFE : Z := 1 .<< 6.
Definition CSR_ENVCFG_CBZE : Z := 1 .<< 7.
Definition CSR_ENVCFG_STCE : Z := 1 .<< 63.
Definition CSR_MSECCFG_USEED : Z := 1 .<< 8.
Definition CSR_SATP_MODE_BARE : Z := 0x0.
Definition CSR_SATP_MODE_SV32 : Z := 0x1.
Definition CSR_SATP_MODE_SV39 : Z := 0x8.
Definition CSR_SATP_MODE_SV48 : Z := 0x9.
Definition CSR_SATP_MODE_SV57 : Z := 0xA.
Definition CSR_MISA_RV32 : Z := 0x40000000.
Definition CSR_MISA_RV64 : Z := 0x8000000000000000.
Definition CSR_SEED_OPST_ES16 : Z := 2 .<< 30.

(** CSR Masks (For WARL behavior of CSRs) *)
Definition CSR_FFLAGS_MASK : Z := 0x0000001F.
Definition CSR_FRM_MASK : Z := 0x00000007.
Definition CSR_FCSR_MASK : Z := 0x000000FF.
Definition CSR_MSTATUS_MASK : Z := 0xF007FFFAA.
Definition CSR_SSTATUS_MASK : Z := 0x3000DE722.
Definition CSR_MEDELEG_MASK : Z := 0x0000B109.
Definition CSR_MIDELEG_MASK : Z := 0x00000222.
Definition CSR_MEIP_MASK : Z := 0x00000AAA.
Definition CSR_SEIP_MASK : Z := 0x00000222.
Definition CSR_COUNTEREN_MASK : Z := 0x00000007.
Definition CSR_MENVCFG_MASK : Z := 0x80000000000000D0.
Definition CSR_SENVCFG_MASK : Z := 0x00000000000000D0.
Definition CSR_MSECCFG_MASK : Z := 0x0000000000000300.

(** FPU control stuff *)
Definition FS_OFF : Z := 0x0.
Definition FS_DIRTY : Z := 0x3.
Definition RM_RMM : Z := 0x4.
