(* ===== verification/Tlb.v ===== *)
(** * Software TLB (src/cpu/riscv_mmu.c: flush, page flush, insertion)

    The direct-mapped address translation cache.  It is abstracted to a partial map from
    virtual page numbers to (host page - virtual page) differences, one per access kind;
    the theorems show that the three operations are the corresponding operations on that
    map: the off-by-one page numbers that invalidate an entry never hit. *)

From S2P Require Import Prelude BitOps MemOps State.

Definition RISCV_MMU_READ : Z := 0x2.
Definition RISCV_MMU_WRITE : Z := 0x4.
Definition RISCV_MMU_EXEC : Z := 0x8.
Definition RISCV_PAGE_SHIFT : Z := 12.
Definition RISCV_PAGE_MASK : Z := 0xFFF.
Definition RISCV_PAGE_SIZE : Z := 0x1000.
Definition RISCV_PAGE_PNMASK : Z := not64 0xFFF.

Definition riscv_restart_dispatch (vm : hart) : hart := set_running false vm.

(** [&vm->tlb\[vpn & RVVM_TLB_MASK\]]. *)
Definition tlb_index (vpn : Z) : Z := vpn .& RVVM_TLB_MASK.
Definition tlb_at (vm : hart) (vpn : Z) : tlb_entry := vm.(tlb) (tlb_index vpn).
Definition put_tlb_at (vpn : Z) (e : tlb_entry) (vm : hart) : hart :=
  set_tlb (<[tlb_index vpn := e]> vm.(tlb)) vm.

Definition tlb_zero : tlb_entry := mk_tlb_entry 0 0 0 0.

Definition riscv_tlb_flush (vm : hart) : hart :=
  let vm := set_tlb (fun _ => tlb_zero) vm in
  let e := set_tlb_r (u64 (-1)) (vm.(tlb) 0) in
  let e := set_tlb_w (u64 (-1)) e in
  let e := set_tlb_e (u64 (-1)) e in
  let vm := set_tlb (<[0 := e]> vm.(tlb)) vm in
  riscv_restart_dispatch vm.

Definition riscv_tlb_flush_page (vm : hart) (addr : Z) : hart :=
  let vpn := addr .>> RISCV_PAGE_SHIFT in
  let entry := tlb_at vm vpn in
  let entry := if entry.(tlb_r) =? vpn then set_tlb_r (u64 (vpn - 1)) entry else entry in
  let entry := if entry.(tlb_w) =? vpn then set_tlb_w (u64 (vpn - 1)) entry else entry in
  if entry.(tlb_e) =? vpn then
    riscv_restart_dispatch (put_tlb_at vpn (set_tlb_e (u64 (vpn - 1)) entry) vm)
  else put_tlb_at vpn entry vm.

Definition riscv_tlb_put (vm : hart) (vaddr ptr access : Z) : hart :=
  let vpn := vaddr .>> RISCV_PAGE_SHIFT in
  let entry := tlb_at vm vpn in
  let finish entry := put_tlb_at vpn (set_tlb_ptr (u64 (ptr - vaddr)) entry) vm in
  if access =? RISCV_MMU_READ then
    let entry := set_tlb_r vpn entry in
    let entry := if negb (entry.(tlb_w) =? vpn) then set_tlb_w (u64 (vpn - 1)) entry else entry in
    let entry := if negb (entry.(tlb_e) =? vpn) then set_tlb_e (u64 (vpn - 1)) entry else entry in
    finish entry
  else if access =? RISCV_MMU_WRITE then
    let entry := set_tlb_r vpn entry in
    let entry := set_tlb_w vpn entry in
    let entry := if negb (entry.(tlb_e) =? vpn) then set_tlb_e (u64 (vpn - 1)) entry else entry in
    finish entry
  else if access =? RISCV_MMU_EXEC then
    let entry := if negb (entry.(tlb_r) =? vpn) then set_tlb_r (u64 (vpn - 1)) entry else entry in
    let entry := set_tlb_w (u64 (vpn - 1)) entry in
    let entry := set_tlb_e vpn entry in
    finish entry
  else rvvm_fatal vm.

(** ** The abstract TLB *)

Inductive access_kind := AccR | AccW | AccX.

#[export] Instance access_kind_eq_dec : EqDecision access_kind.
Proof. solve_decision. Defined.

Definition access_code (k : access_kind) : Z :=
  match k with AccR => RISCV_MMU_READ | AccW => RISCV_MMU_WRITE | AccX => RISCV_MMU_EXEC end.

Definition tlb_sel (k : access_kind) : tlb_entry -> Z :=
  match k with AccR => tlb_r | AccW => tlb_w | AccX => tlb_e end.

(** What a cached access of kind [k] to page [vpn] finds. *)
Definition tlb_lookup (vm : hart) (k : access_kind) (vpn : Z) : option Z :=
  let e := tlb_at vm vpn in
  if tlb_sel k e =? vpn then Some e.(tlb_ptr) else None.

(** The accesses a translation made for [acc] may serve, given what was cached for the
    same page: a write also caches the read, an execution drops the write. *)
Definition put_keeps (acc k : access_kind) (was_cached : bool) : bool :=
  match acc, k with
  | AccR, AccR | AccW, AccR | AccW, AccW | AccX, AccX => true
  | AccX, AccW => false
  | _, _ => was_cached
  end.

(** ** Lemmas *)

Lemma tlb_index_mod vpn : tlb_index vpn = vpn mod 256.
Proof. apply (Z.land_ones _ 8). lia. Qed.

(** A page number below 2^52 is never hit by its predecessor at 64 bits, whatever page
    of the same TLB slot is looked up. *)
Lemma vpn_pred_miss vpn vpn' : urange 52 vpn -> urange 52 vpn' ->
  tlb_index vpn = tlb_index vpn' -> (u64 (vpn - 1) =? vpn') = false.
Proof.
  rewrite !tlb_index_mod. unfold urange. intros H H' E. apply Z.eqb_neq. intros F. unfold wrap in F.
  destruct (Z.eq_dec vpn 0) as [->|].
  - change ((0 - 1) mod 2 ^ 64) with 18446744073709551615 in F. lia.
  - rewrite Z.mod_small in F by lia. dlia.
Qed.

Lemma vpn_range vaddr : urange 64 vaddr -> urange 52 (vaddr .>> RISCV_PAGE_SHIFT).
Proof.
  unfold urange, RISCV_PAGE_SHIFT. intros. rewrite Z.shiftr_div_pow2 by lia. dlia.
Qed.

#[export] Hint Resolve vpn_range : rv.

Lemma tlb_at_put vpn vpn' e vm :
  tlb_at (put_tlb_at vpn e vm) vpn' =
  if tlb_index vpn =? tlb_index vpn' then e else tlb_at vm vpn'.
Proof. unfold tlb_at, put_tlb_at. cbn. apply fupd_dec. Qed.

Lemma tlb_at_restart vm vpn : tlb_at (riscv_restart_dispatch vm) vpn = tlb_at vm vpn.
Proof. done. Qed.

Lemma tlb_flush_lookup vm k vpn : urange 52 vpn -> tlb_lookup (riscv_tlb_flush vm) k vpn = None.
Proof.
  intros H. unfold tlb_lookup, tlb_at, riscv_tlb_flush. cbn. rewrite fupd_dec.
  destruct (Z.eqb_spec 0 (tlb_index vpn)) as [E|E].
  - replace (tlb_sel k _) with (u64 (0 - 1)) by (by destruct k).
    by rewrite vpn_pred_miss.
  - replace (tlb_sel k tlb_zero) with 0 by (by destruct k).
    case_bool; [subst; done|done].
Qed.

Lemma tlb_flush_page_lookup vm addr k vpn : urange 64 addr -> urange 52 vpn ->
  tlb_lookup (riscv_tlb_flush_page vm addr) k vpn =
  if vpn =? addr .>> RISCV_PAGE_SHIFT then None else tlb_lookup vm k vpn.
Proof.
  intros Ha Hv. pose proof (vpn_range _ Ha) as Hr.
  unfold riscv_tlb_flush_page. set (p := addr .>> RISCV_PAGE_SHIFT) in *. cbn zeta.
  set (e0 := if _ =? p then _ else tlb_at vm p). set (e1 := if _ =? p then _ else e0).
  assert (forall e vm', tlb_at (if tlb_e e1 =? p
      then riscv_restart_dispatch (put_tlb_at p e vm') else put_tlb_at p e1 vm') vpn =
    if tlb_index p =? tlb_index vpn then (if tlb_e e1 =? p then e else e1) else tlb_at vm' vpn)
    as Hat by (intros; destruct (tlb_e e1 =? p); rewrite ?tlb_at_restart; apply tlb_at_put).
  unfold tlb_lookup. rewrite Hat. clear Hat.
  destruct (Z.eqb_spec (tlb_index p) (tlb_index vpn)) as [E|E];
    [|destruct (Z.eqb_spec vpn p); [congruence|done]].
  assert (tlb_at vm vpn = tlb_at vm p) as -> by (unfold tlb_at; congruence).
  pose proof (vpn_pred_miss p vpn Hr Hv E) as Hm%Z.eqb_neq.
  subst e0 e1. destruct (tlb_at vm p) as [q r w x]. cbn.
  destruct (Z.eqb_spec r p); cbn; destruct (Z.eqb_spec w p); cbn;
    destruct (Z.eqb_spec x p); cbn; destruct (Z.eqb_spec vpn p); destruct k; cbn;
    repeat case_bool; congruence.
Qed.

Lemma tlb_put_lookup vm vaddr ptr acc k vpn : urange 64 vaddr -> urange 52 vpn ->
  tlb_lookup (riscv_tlb_put vm vaddr ptr (access_code acc)) k vpn =
  let page := vaddr .>> RISCV_PAGE_SHIFT in
  if vpn =? page then
    if put_keeps acc k (tlb_sel k (tlb_at vm page) =? page) then Some (u64 (ptr - vaddr)) else None
  else if tlb_index vpn =? tlb_index page then None
  else tlb_lookup vm k vpn.
Proof.
  intros Ha Hv. pose proof (vpn_range _ Ha) as Hr.
  unfold riscv_tlb_put. set (p := vaddr .>> RISCV_PAGE_SHIFT) in *. cbn zeta.
  destruct (tlb_at vm p) as [q r w x] eqn:Ep. clearbody p. clear Ha.
  destruct acc; cbn [access_code]; eval_cmp; unfold tlb_lookup; rewrite tlb_at_put;
  (destruct (Z.eqb_spec (tlb_index p) (tlb_index vpn)) as [E|E];
    [ rewrite E, Z.eqb_refl; pose proof (vpn_pred_miss p vpn Hr Hv E) as Hm%Z.eqb_neq;
      cbn; destruct (Z.eqb_spec r p); cbn; destruct (Z.eqb_spec w p); cbn;
      destruct (Z.eqb_spec x p); cbn; destruct (Z.eqb_spec vpn p); destruct k; cbn;
      repeat case_bool; congruence
    | destruct (Z.eqb_spec vpn p), (Z.eqb_spec (tlb_index vpn) (tlb_index p)); congruence ]).
Qed.
