(* ===== verification/Hart.v ===== *)
(** * Hart operations (src/cpu/riscv_hart.c, src/cpu/riscv_hart.h)

    Privilege switches, trap entry and delegation, interrupt lines, AIA register
    files, interrupt dispatch.  The theorems relate trap and interrupt entry to the
    privileged architecture: which level takes the event, which bits of [status] change
    and how, and the invariants of the privilege stack that every operation keeps. *)

From S2P Require Import Prelude BitOps MemOps State CsrDefs Tlb.

(** ** Privilege and XLEN switches *)

Definition riscv_update_xlen (vm : hart) : hart :=
  let rv64' :=
    if vm.(priv_mode) =? RISCV_PRIV_MACHINE then nz (vm.(csr).(csr_isa) .& CSR_MISA_RV64)
    else if (vm.(priv_mode) =? RISCV_PRIV_HYPERVISOR) || (vm.(priv_mode) =? RISCV_PRIV_SUPERVISOR)
    then bit_check64 (status vm) 35
    else if vm.(priv_mode) =? RISCV_PRIV_USER then bit_check64 (status vm) 33
    else false in
  if negb (eqb vm.(rv64) rv64') then riscv_restart_dispatch (set_rv64 rv64' vm) else vm.

Definition riscv_switch_priv (vm : hart) (priv : Z) : hart :=
  if negb (vm.(priv_mode) =? priv) then
    let vm := set_priv_mode priv vm in
    let vm := riscv_update_xlen vm in
    riscv_tlb_flush vm
  else vm.

(** ** Traps *)

(** Save current priv to xPP, xIE to xPIE, disable interrupts for target priv. *)
Definition riscv_trap_priv_helper (vm : hart) (target_priv : Z) : hart :=
  if target_priv =? RISCV_PRIV_MACHINE then
    let vm := set_status (bit_replace (status vm) 11 2 vm.(priv_mode)) vm in
    let vm := set_status (bit_replace (status vm) 7 1 (bit_cut (status vm) 3 1)) vm in
    set_status (bit_replace (status vm) 3 1 0) vm
  else if (target_priv =? RISCV_PRIV_HYPERVISOR) || (target_priv =? RISCV_PRIV_SUPERVISOR) then
    let vm := set_status (bit_replace (status vm) 8 1 vm.(priv_mode)) vm in
    let vm := set_status (bit_replace (status vm) 5 1 (bit_cut (status vm) 1 1)) vm in
    set_status (bit_replace (status vm) 1 1 0) vm
  else if target_priv =? RISCV_PRIV_USER then
    let vm := set_status (bit_replace (status vm) 4 1 (bit_cut (status vm) 0 1)) vm in
    set_status (bit_replace (status vm) 0 1 0) vm
  else vm.

Definition riscv_restart_at_pc (vm : hart) (pc : Z) : hart :=
  let vm := set_trap_pc pc vm in
  let vm := set_trap true vm in
  riscv_restart_dispatch vm.

(** [while ((priv > vm->priv_mode) && (vm->csr.edeleg\[priv\] & (1 << cause))) priv--];
    [priv] starts at 3 and the loop stops at the current level, so 3 steps are enough. *)
Fixpoint deleg_loop (fuel : nat) (vm : hart) (cause priv : Z) : Z :=
  match fuel with
  | O => priv
  | S fuel =>
      if (vm.(priv_mode) <? priv) && nz (vm.(csr).(csr_edeleg) priv .& (1 .<< cause))
      then deleg_loop fuel vm cause (priv - 1)
      else priv
  end.

(** [vm->csr.epc\[priv\] = epc] and its siblings. *)
Definition set_epc_at (p v : Z) (vm : hart) : hart :=
  upd_csr (fun c => set_csr_epc (<[p := v]> c.(csr_epc)) c) vm.
Definition set_cause_at (p v : Z) (vm : hart) : hart :=
  upd_csr (fun c => set_csr_cause (<[p := v]> c.(csr_cause)) c) vm.
Definition set_tval_at (p v : Z) (vm : hart) : hart :=
  upd_csr (fun c => set_csr_tval (<[p := v]> c.(csr_tval)) c) vm.

Definition riscv_trap (vm : hart) (cause tval : Z) : hart :=
  if vm.(trap) then vm
  else if vm.(userland) then
    let vm := set_cause_at RISCV_PRIV_USER cause vm in
    let vm := set_tval_at RISCV_PRIV_USER tval vm in
    let vm := set_trap_pc (pc vm) vm in
    riscv_restart_at_pc vm (pc vm)
  else
    let priv := deleg_loop 3 vm cause RISCV_PRIV_MACHINE in
    let vm := set_epc_at priv (pc vm) vm in
    let vm := set_cause_at priv cause vm in
    let vm := set_tval_at priv tval vm in
    let vm := riscv_trap_priv_helper vm priv in
    let vm := riscv_switch_priv vm priv in
    riscv_restart_at_pc vm (vm.(csr).(csr_tvec) priv .& not64 3).

Definition riscv_breakpoint `{Env} (vm : hart) : hart :=
  if vm.(machine_gdbstub) then
    let '(vm, halted) := gdbstub_halt vm in
    if halted then riscv_restart_at_pc vm (pc vm)
    else riscv_trap vm RISCV_TRAP_BREAKPOINT 0
  else riscv_trap vm RISCV_TRAP_BREAKPOINT 0.

(** ** Interrupt lines *)

(** [condvar_wake(vm->wfi_cond)]: wakes the thread sleeping in WFI. *)
Definition condvar_wake_wfi (vm : hart) : hart := set_wfi_wake true vm.

Definition riscv_hart_notify (vm : hart) : hart :=
  condvar_wake_wfi (riscv_restart_dispatch vm).

(** Returns whether the line was not already set. *)
Definition riscv_interrupt_set (vm : hart) (irq : Z) : hart * bool :=
  let mask := u32 (1 .<< (irq .& 0x1F)) in
  let old := vm.(pending_irqs) in
  (set_pending_irqs (old .| mask) vm, nz (not32 old .& mask)).

Definition riscv_interrupt (vm : hart) (irq : Z) : hart :=
  let '(vm, fresh) := riscv_interrupt_set vm irq in
  if fresh then riscv_hart_notify vm else vm.

Definition riscv_interrupt_clear (vm : hart) (irq : Z) : hart :=
  set_pending_irqs (vm.(pending_irqs) .& not32 (u32 (1 .<< irq))) vm.

Definition riscv_interrupts_raised (vm : hart) : Z := vm.(pending_irqs).

Definition riscv_interrupts_pending (vm : hart) : Z :=
  u32 ((riscv_interrupts_raised vm .| vm.(csr).(csr_ip)) .& vm.(csr).(csr_ie)).

Definition riscv_hart_check_interrupts (vm : hart) : hart :=
  if nz (riscv_interrupts_pending vm) then riscv_restart_dispatch vm else vm.

Definition riscv_hart_check_timer (vm : hart) : hart :=
  if negb (nz vm.(wfi_waiters)) then
    let timer := vm.(machine_timer) in
    let vm :=
      if vm.(mtimecmp) <=? timer then
        let '(vm, fresh) := riscv_interrupt_set vm RISCV_INTERRUPT_MTIMER in
        if fresh then riscv_restart_dispatch vm else vm
      else vm in
    if vm.(stimecmp) <=? timer then
      let '(vm, fresh) := riscv_interrupt_set vm RISCV_INTERRUPT_STIMER in
      if fresh then riscv_restart_dispatch vm else vm
    else vm
  else vm.

Definition HART_EVENT_PAUSE : Z := 0x1.
Definition HART_EVENT_PREEMPT : Z := 0x2.

Definition riscv_hart_preempt (vm : hart) (ms : Z) : hart :=
  if nz ms then
    let vm := set_preempt_ms ms vm in
    let vm := set_pending_events (vm.(pending_events) .| HART_EVENT_PREEMPT) vm in
    riscv_restart_dispatch vm
  else vm.

Definition riscv_hart_queue_pause (vm : hart) : hart :=
  riscv_hart_notify (set_pending_events (vm.(pending_events) .| HART_EVENT_PAUSE) vm).

(** ** AIA *)

(** [vm->aia], an array of the M-mode ([false]) and S-mode ([true]) register files. *)
Definition aia_zero : aia_regfile := mk_aia 0 0 (fun _ => 0) (fun _ => 0).
Definition set_aia_file (files : bool -> aia_regfile) (smode : bool) (a : aia_regfile)
    (vm : hart) : hart :=
  set_aia (Some (fun s => if eqb s smode then a else files s)) vm.

Definition riscv_hart_aia_init (vm : hart) : hart :=
  match vm.(aia) with
  | None => set_aia (Some (fun _ => aia_zero)) vm
  | Some _ => vm
  end.

Definition aia_msip (smode : bool) : Z :=
  if smode then RISCV_INTERRUPT_SEXTERNAL else RISCV_INTERRUPT_MEXTERNAL.

Definition riscv_send_aia_irq (vm : hart) (smode : bool) (irq : Z) : hart :=
  match vm.(aia) with
  | Some files =>
      if nz irq && (irq <? RVVM_AIA_IRQ_LIMIT) then
        let a := files smode in
        if nz a.(eidelivery) then
          let thresh := u32 (a.(eithreshold) - 1) in
          let msip := aia_msip smode in
          let reg := irq .>> 5 in
          let val := u32 (1 .<< (irq .& 0x1F)) in
          let eie := a.(eie) reg in
          let prev := a.(eip) reg in
          let vm := set_aia_file files smode (set_eip (<[reg := prev .| val]> a.(eip)) a) vm in
          if (irq <? thresh) && nz (val .& eie) && negb (nz (val .& prev))
          then riscv_interrupt vm msip else vm
        else vm
      else vm
  | None => vm
  end.

(** The scan of [riscv_update_aia_internal] from register [i] on, [fuel] registers left;
    [ret] is the interrupt found so far. *)
Fixpoint aia_scan (fuel : nat) (vm : hart) (files : bool -> aia_regfile) (smode update claim : bool)
    (thresh i ret : Z) : hart * Z :=
  match fuel with
  | O => (vm, ret)
  | S fuel =>
      let a := files smode in
      let bits := a.(eip) i .& a.(eie) i in
      if nz bits then
        if nz ret then (riscv_interrupt vm (aia_msip smode), ret)
        else
          let bit := bit_clz32 bits .^ 31 in
          let irq := (i .<< 5) .| bit in
          let mask := not32 (u32 (1 .<< bit)) in
          if irq <? thresh then
            let bits := if claim then bits .& mask else bits in
            let a := if claim then set_eip (<[i := a.(eip) i .& mask]> a.(eip)) a else a in
            let vm := if claim then set_aia_file files smode a vm else vm in
            let files := if claim then (fun s => if eqb s smode then a else files s) else files in
            if update then
              if nz bits then (riscv_interrupt vm (aia_msip smode), irq)
              else aia_scan fuel vm files smode update claim thresh (i + 1) irq
            else (vm, irq)
          else aia_scan fuel vm files smode update claim thresh (i + 1) ret
      else aia_scan fuel vm files smode update claim thresh (i + 1) ret
  end.

Definition riscv_update_aia_internal (vm : hart) (smode update claim : bool) : hart * Z :=
  match vm.(aia) with
  | Some files =>
      let a := files smode in
      let thresh := u32 (a.(eithreshold) - 1) in
      let vm := if update then riscv_interrupt_clear vm (aia_msip smode) else vm in
      if nz a.(eidelivery)
      then aia_scan (Z.to_nat RVVM_AIA_ARR_LEN) vm files smode update claim thresh 0 0
      else (vm, 0)
  | None => (vm, 0)
  end.

Definition riscv_update_aia_state (vm : hart) (smode : bool) : hart :=
  fst (riscv_update_aia_internal vm smode true false).

Definition riscv_get_aia_irq (vm : hart) (smode claim : bool) : hart * Z :=
  riscv_update_aia_internal vm smode true claim.

(** ** Interrupt dispatch *)

Definition riscv_cause_irq_mask (vm : hart) : Z :=
  if vm.(rv64) then 0x8000000000000000 else 0x80000000.

(** The [do ... while (--priv)] loop: returns the level and the interrupts it takes. *)
Fixpoint irq_deleg_loop (fuel : nat) (vm : hart) (pending priv : Z) : Z * Z :=
  match fuel with
  | O => (priv, 0)
  | S fuel =>
      let irqs := u32 (pending .& not64 (vm.(csr).(csr_ideleg) priv)) in
      let pending := u32 (pending .& vm.(csr).(csr_ideleg) priv) in
      if nz irqs then (priv, irqs)
      else
        let priv := priv - 1 in
        if nz priv then irq_deleg_loop fuel vm pending priv else (priv, irqs)
  end.

Definition riscv_handle_irqs (vm : hart) : hart :=
  let pending := riscv_interrupts_pending vm in
  if nz pending then
    let '(priv, irqs) := irq_deleg_loop 3 vm pending RISCV_PRIV_MACHINE in
    if priv <? vm.(priv_mode) then vm
    else if (vm.(priv_mode) =? priv) && negb (nz ((1 .<< vm.(priv_mode)) .& status vm)) then vm
    else
      let irq := bit_clz32 irqs .^ 31 in
      let vm := riscv_trap_priv_helper vm priv in
      let vm := riscv_switch_priv vm priv in
      let vm := set_epc_at priv (pc vm) vm in
      let vm := set_cause_at priv (irq .| riscv_cause_irq_mask vm) vm in
      let vm := set_tval_at priv 0 vm in
      let tvec := vm.(csr).(csr_tvec) priv in
      if nz (tvec .& 1)
      then set_reg RISCV_REG_PC (u64 ((tvec .& not64 3) + u32 (irq .<< 2))) vm
      else set_reg RISCV_REG_PC (tvec .& not64 3) vm
  else vm.

(** ** Hart creation *)

(** The zero-filled allocation of a hart, attached to a machine with the given RAM,
    width and clock, on a host with the given memory and entropy. *)
Definition zero_csr : csr_file :=
  mk_csr 0 0 0 0 (fun _ => 0) (fun _ => 0) (fun _ => 0) (fun _ => 0) (fun _ => 0) (fun _ => 0)
    (fun _ => 0) (fun _ => 0) (fun _ => 0) (fun _ => 0) 0 0 0 0 0.

Definition zero_hart (m : ram) (mrv64 : bool) (timer : Z) (rnd : nat -> Z) (h : Z -> Z) : hart :=
  mk_hart false (fun _ => 0) (fun _ => 0) (fun _ => tlb_zero) m 0 0 0 false false 0 false
    false 0 0 zero_csr None 0 0 0 0 0 0 false mrv64 timer false 0 0 rnd h false.

Definition riscv_csr_init (vm : hart) : hart :=
  let vm := upd_csr (fun c => set_csr_edeleg
    (<[RISCV_PRIV_HYPERVISOR := 0xFFFFFFFF]> c.(csr_edeleg)) c) vm in
  let vm := upd_csr (fun c => set_csr_ideleg
    (<[RISCV_PRIV_HYPERVISOR := 0xFFFFFFFF]> c.(csr_ideleg)) c) vm in
  if vm.(rv64) then
    let vm := set_status 0xA00000000 vm in
    upd_csr (set_csr_isa CSR_MISA_RV64) vm
  else upd_csr (set_csr_isa CSR_MISA_RV32) vm.

Definition riscv_hart_init (m : ram) (mrv64 : bool) (timer : Z) (rnd : nat -> Z) (h : Z -> Z) : hart :=
  let vm := zero_hart (mk_ram 0 0 0) mrv64 timer rnd h in
  let vm := set_mem m vm in
  let vm := set_rv64 mrv64 vm in
  let vm := set_priv_mode RISCV_PRIV_MACHINE vm in
  let vm := riscv_csr_init vm in
  let vm := set_mtimecmp (u64 (-1)) vm in
  let vm := set_stimecmp (u64 (-1)) vm in
  riscv_tlb_flush vm.

(** A hart of a 64-bit machine with one page of RAM at 0x80000000, over zeroed host memory. *)
Definition demo_hart : hart :=
  riscv_hart_init (mk_ram 0x80000000 0x1000 0x10000) true 0 (fun _ => 0) (fun _ => 0).

(** The same hart with the machine timer interrupt pending and enabled. *)
Definition demo_irq_hart : hart :=
  set_pending_irqs 0x80 (upd_csr (set_csr_ie 0x80) (set_status 0x8 demo_hart)).

(** ** Well-formed harts

    The type invariant of the hart: machine-width fields are in range, the privilege
    level and [mstatus.MPP] are never the unimplemented level 2, and the delegation
    registers of the levels that have no CSR keep their reset values. *)

Definition valid_priv (p : Z) : Prop :=
  p = RISCV_PRIV_USER \/ p = RISCV_PRIV_SUPERVISOR \/ p = RISCV_PRIV_MACHINE.

Definition u64_array (f : Z -> Z) : Prop := forall i, urange 64 (f i).

Record csr_wf (c : csr_file) : Prop := mk_csr_wf {
  wf_status : urange 64 c.(csr_status);
  wf_mpp : bit_cut c.(csr_status) 11 2 <> RISCV_PRIV_HYPERVISOR;
  wf_ie : urange 64 c.(csr_ie);
  wf_ip : urange 64 c.(csr_ip);
  wf_isa : urange 64 c.(csr_isa);
  wf_edeleg : u64_array c.(csr_edeleg);
  wf_edeleg_h : c.(csr_edeleg) RISCV_PRIV_HYPERVISOR = 0xFFFFFFFF;
  wf_edeleg_s : c.(csr_edeleg) RISCV_PRIV_SUPERVISOR = 0;
  wf_ideleg : u64_array c.(csr_ideleg);
  wf_ideleg_h : c.(csr_ideleg) RISCV_PRIV_HYPERVISOR = 0xFFFFFFFF;
  wf_ideleg_s : c.(csr_ideleg) RISCV_PRIV_SUPERVISOR = 0;
  wf_tvec : u64_array c.(csr_tvec);
  wf_scratch : u64_array c.(csr_scratch);
  wf_epc : u64_array c.(csr_epc);
  wf_cause : u64_array c.(csr_cause);
  wf_tval : u64_array c.(csr_tval);
  wf_iselect : u64_array c.(csr_iselect);
  wf_counteren : u64_array c.(csr_counteren);
  wf_envcfg : u64_array c.(csr_envcfg);
  wf_mseccfg : urange 64 c.(csr_mseccfg);
  wf_fcsr : urange 32 c.(csr_fcsr);
  wf_hartid : urange 32 c.(csr_hartid)
}.

Record aia_file_wf (a : aia_regfile) : Prop := mk_aia_file_wf {
  wf_eidelivery : urange 32 a.(eidelivery);
  wf_eithreshold : urange 32 a.(eithreshold);
  wf_eip : forall r, urange 32 (a.(eip) r);
  wf_eie : forall r, urange 32 (a.(eie) r)
}.

Record hart_wf (vm : hart) : Prop := mk_hart_wf {
  wf_csr : csr_wf vm.(csr);
  wf_registers : u64_array vm.(registers);
  wf_priv : valid_priv vm.(priv_mode);
  wf_pending : urange 32 vm.(pending_irqs);
  wf_trap_pc : urange 64 vm.(trap_pc);
  wf_stimecmp : urange 64 vm.(stimecmp);
  wf_timer : urange 64 vm.(machine_timer);
  wf_fenv : urange 5 vm.(fenv_exceptions);
  wf_entropy : forall n, urange 16 (vm.(entropy) n);
  wf_root : urange 56 vm.(root_page_table);
  wf_root_aligned : vm.(root_page_table) mod 2 ^ 12 = 0;
  wf_mmu_mode : urange 4 vm.(mmu_mode);
  wf_fpu_registers : u64_array vm.(fpu_registers);
  wf_host : valid_memory vm.(host);
  wf_aia : match vm.(aia) with Some files => forall s, aia_file_wf (files s) | None => True end
}.

(** ** Reference behaviour of trap entry, from the privileged architecture *)

(** Bit [i] of [mstatus] after a trap from level [cur] into [target]: xPP := cur,
    xPIE := xIE, xIE := 0, nothing else. *)
Definition trap_status_bit (target cur st i : Z) : bool :=
  if target =? RISCV_PRIV_MACHINE then
    if i =? 3 then false
    else if i =? 7 then Z.testbit st 3
    else if (i =? 11) || (i =? 12) then Z.testbit cur (i - 11)
    else Z.testbit st i
  else
    if i =? 1 then false
    else if i =? 5 then Z.testbit st 1
    else if i =? 8 then Z.testbit cur 0
    else Z.testbit st i.

(** The level that takes an exception: S if it comes from S or U and [medeleg] has its
    bit set, otherwise M. *)
Definition trap_target (vm : hart) (cause : Z) : Z :=
  if (vm.(priv_mode) <=? RISCV_PRIV_SUPERVISOR) &&
     Z.testbit (vm.(csr).(csr_edeleg) RISCV_PRIV_MACHINE) cause
  then RISCV_PRIV_SUPERVISOR else RISCV_PRIV_MACHINE.

(** The hart without the fields that entering a trap writes: [running], the registers, the
    TLB, the privilege level, the width, the trap flag and pc, and the status, epc, cause and
    tval CSRs.  Two harts with the same rest agree on all of the others. *)
Definition trap_rest (vm : hart) : hart :=
  set_running false (set_registers (fun _ => 0) (set_tlb (fun _ => tlb_zero) (set_priv_mode 0
    (set_rv64 false (set_trap false (set_trap_pc 0
      (upd_csr (fun c => set_csr_status 0 (set_csr_epc (fun _ => 0) (set_csr_cause (fun _ => 0)
        (set_csr_tval (fun _ => 0) c)))) vm))))))).

(** The width of the level a trap enters, M or S: kept without a change of level, otherwise
    from [misa] or from SXL. *)
Definition entry_rv64 (target : Z) (vm : hart) : bool :=
  if vm.(priv_mode) =? target then vm.(rv64)
  else if target =? RISCV_PRIV_MACHINE then nz (vm.(csr).(csr_isa) .& CSR_MISA_RV64)
  else Z.testbit (status vm) 35.

(** The order of the standard interrupts in the architecture: MEI, MSI, MTI, SEI, SSI, STI. *)
Definition arch_irq (irqs : Z) : option Z :=
  List.find (Z.testbit irqs) [11; 3; 7; 9; 1; 5].

(** The level that takes an interrupt now and the set it chooses from: machine-level
    interrupts (not in [mideleg]) first; a level's interrupts are taken below that level,
    or at that level when its xIE is set. *)
Definition irq_target (vm : hart) : option (Z * Z) :=
  let pending := riscv_interrupts_pending vm in
  let mideleg := vm.(csr).(csr_ideleg) RISCV_PRIV_MACHINE in
  let m_irqs := Z.ldiff pending mideleg in
  let s_irqs := pending .& mideleg in
  let enabled p := (vm.(priv_mode) <? p) || ((vm.(priv_mode) =? p) && Z.testbit (status vm) p) in
  if nz m_irqs then
    if enabled RISCV_PRIV_MACHINE then Some (RISCV_PRIV_MACHINE, m_irqs) else None
  else if nz s_irqs then
    if enabled RISCV_PRIV_SUPERVISOR then Some (RISCV_PRIV_SUPERVISOR, s_irqs) else None
  else None.

(** What a scan that returns interrupt [r] guarantees about the register file [a] it
    scanned and the one [a'] it leaves. *)
Definition aia_claimed (a a' : aia_regfile) (claim : bool) (thresh r : Z) : Prop :=
  exists reg bit, 0 <= bit < 32 /\ r = 32 * reg + bit /\
    Z.testbit (a.(eip) reg) bit = true /\ Z.testbit (a.(eie) reg) bit = true /\ r < thresh /\
    a' = if claim then set_eip (<[reg := Z.clearbit (a.(eip) reg) bit]> a.(eip)) a else a.

(** ** Lemmas: preservation of the invariant by field updates *)

Lemma u64_array_insert f i v : u64_array f -> urange 64 v -> u64_array (<[i := v]> f).
Proof. intros Hf Hv j. rewrite fupd_dec. by case_bool. Qed.

Lemma not64_range x : urange 64 (not64 x).
Proof. apply wrap_range. lia. Qed.

Lemma not32_range x : urange 32 (not32 x).
Proof. apply wrap_range. lia. Qed.

Lemma bit_replace_range v p n f : urange 64 v -> urange 64 (bit_replace v p n f).
Proof. apply urange_bit_replace64. Qed.

#[export] Hint Resolve u64_array_insert not64_range not32_range bit_replace_range : rv.

(** Splits a well-formedness goal into its fields and closes those that are unchanged. *)
Ltac wf_fields :=
  repeat match goal with
  | H : hart_wf _ |- _ => destruct H
  | H : csr_wf _ |- _ => destruct H
  | |- hart_wf _ => constructor; cbn
  | |- csr_wf _ => constructor; cbn
  end; try done.

Lemma set_reg_wf r v vm : urange 64 v -> hart_wf vm -> hart_wf (set_reg r v vm).
Proof. intros. wf_fields. by apply u64_array_insert. Qed.

Lemma set_status_wf v vm : urange 64 v -> bit_cut v 11 2 <> RISCV_PRIV_HYPERVISOR ->
  hart_wf vm -> hart_wf (set_status v vm).
Proof. intros. wf_fields. Qed.

Lemma restart_dispatch_wf vm : hart_wf vm -> hart_wf (riscv_restart_dispatch vm).
Proof. intros. wf_fields. Qed.

Lemma tlb_flush_wf vm : hart_wf vm -> hart_wf (riscv_tlb_flush vm).
Proof. intros. wf_fields. Qed.

Lemma tlb_flush_page_wf vm a : hart_wf vm -> hart_wf (riscv_tlb_flush_page vm a).
Proof. intros. unfold riscv_tlb_flush_page. cbn zeta. case_match; wf_fields. Qed.

Lemma tlb_put_wf vm v p a : hart_wf vm -> hart_wf (riscv_tlb_put vm v p a).
Proof. intros. unfold riscv_tlb_put. cbn zeta. repeat (case_match; try solve [wf_fields]). Qed.

Lemma set_epc_at_wf p v vm : urange 64 v -> hart_wf vm -> hart_wf (set_epc_at p v vm).
Proof. intros. wf_fields. by apply u64_array_insert. Qed.

Lemma set_cause_at_wf p v vm : urange 64 v -> hart_wf vm -> hart_wf (set_cause_at p v vm).
Proof. intros. wf_fields. by apply u64_array_insert. Qed.

Lemma set_tval_at_wf p v vm : urange 64 v -> hart_wf vm -> hart_wf (set_tval_at p v vm).
Proof. intros. wf_fields. by apply u64_array_insert. Qed.

#[export] Hint Resolve set_reg_wf set_status_wf restart_dispatch_wf tlb_flush_wf
  tlb_flush_page_wf tlb_put_wf set_epc_at_wf set_cause_at_wf set_tval_at_wf : rv.

Lemma update_xlen_wf vm : hart_wf vm -> hart_wf (riscv_update_xlen vm).
Proof. intros. unfold riscv_update_xlen. case_match; [|done]. wf_fields. Qed.

Lemma switch_priv_wf vm p : valid_priv p -> hart_wf vm -> hart_wf (riscv_switch_priv vm p).
Proof.
  intros. unfold riscv_switch_priv. case_match; [|done].
  apply tlb_flush_wf, update_xlen_wf. wf_fields.
Qed.

#[export] Hint Resolve update_xlen_wf switch_priv_wf : rv.

(** ** Status updates bit by bit *)

Lemma testbit_bit_cut v p n i : 0 <= p -> 0 < n -> p + n <= 64 -> 0 <= i ->
  Z.testbit (bit_cut v p n) i = (i <? n) && Z.testbit v (i + p).
Proof. intros. rewrite bit_cut_eq by lia. by autorewrite with zbits. Qed.

Lemma testbit_bit_replace v p n f i :
  urange 64 v -> 0 <= p -> 0 <= n -> p + n <= 64 -> 0 <= i ->
  Z.testbit (bit_replace v p n f) i =
  if (p <=? i) && (i <? p + n) then Z.testbit f (i - p) else Z.testbit v i.
Proof. apply testbit_bit_replace64. Qed.

(** Evaluates the bits of a chain of [bit_replace]s. *)
Ltac replace_bits :=
  repeat first
    [ rewrite testbit_bit_replace by (auto with rv; lia)
    | rewrite testbit_bit_cut by lia ].

(** Decides the comparisons of a bit index by case analysis. *)
Ltac split_index :=
  repeat match goal with
  | |- context [?a =? ?b] => destruct (Z.eqb_spec a b); cbn [andb orb]; try subst; try lia
  | |- context [?a <=? ?b] => destruct (Z.leb_spec a b); cbn [andb orb]; try lia
  | |- context [?a <? ?b] => destruct (Z.ltb_spec a b); cbn [andb orb]; try lia
  end.

#[local] Arguments Z.testbit : simpl never.

Lemma trap_priv_helper_status vm p i : urange 64 (status vm) ->
  p = RISCV_PRIV_MACHINE \/ p = RISCV_PRIV_SUPERVISOR -> 0 <= i ->
  Z.testbit (status (riscv_trap_priv_helper vm p)) i =
  trap_status_bit p vm.(priv_mode) (status vm) i.
Proof.
  intros Hs [->| ->] Hi; unfold riscv_trap_priv_helper, trap_status_bit; eval_cmp; cbn [orb];
    unfold status, set_status in *; cbn; set (st := csr_status (csr vm)) in *.
  all: split_index; replace_bits; split_index; replace_bits; split_index;
    rewrite ?Z.testbit_0_l; try done; f_equal; lia.
Qed.

Lemma trap_priv_helper_frame vm p :
  let vm' := riscv_trap_priv_helper vm p in
  vm' = set_status (status vm') vm.
Proof.
  unfold riscv_trap_priv_helper, set_status, status, upd_csr. destruct vm as [].
  cbn -[bit_replace bit_cut Z.eqb]. repeat case_match; cbn; try done.
  by match goal with |- context [csr_status ?c] => destruct c end.
Qed.

(** Rewrites [riscv_trap_priv_helper] and the switch of privilege into field updates. *)
Lemma switch_priv_fields vm p :
  let vm' := riscv_switch_priv vm p in
  vm'.(priv_mode) = p /\ vm'.(csr) = vm.(csr) /\ vm'.(registers) = vm.(registers) /\
  vm'.(trap) = vm.(trap) /\ vm'.(trap_pc) = vm.(trap_pc) /\ vm'.(host) = vm.(host) /\
  vm'.(mem) = vm.(mem) /\ vm'.(pending_irqs) = vm.(pending_irqs) /\
  vm'.(mmu_mode) = vm.(mmu_mode) /\ vm'.(root_page_table) = vm.(root_page_table) /\
  vm'.(userland) = vm.(userland).
Proof.
  unfold riscv_switch_priv, riscv_update_xlen. destruct (Z.eqb_spec (priv_mode vm) p); cbn [negb].
  - repeat split; done.
  - cbn zeta. match goal with |- context [if negb (eqb ?a ?b) then _ else _] =>
      destruct (negb (eqb a b)) end; repeat split.
Qed.

Lemma bit_check64_testbit v p : 0 <= p < 64 -> bit_check64 v p = Z.testbit v p.
Proof.
  intros Hp. unfold bit_check64. change 0x3F with (Z.ones 6). rewrite Z.land_ones by lia.
  rewrite Z.mod_small by lia. rewrite nz_land_1, Z.shiftr_spec by lia. done.
Qed.

Lemma switch_priv_rest vm p :
  let vm' := riscv_switch_priv vm p in
  trap_rest vm' = trap_rest vm /\ vm'.(running) = (vm.(priv_mode) =? p) && vm.(running) /\
  (vm.(priv_mode) = p -> vm'.(tlb) = vm.(tlb)) /\
  (p = RISCV_PRIV_MACHINE \/ p = RISCV_PRIV_SUPERVISOR -> vm'.(rv64) = entry_rv64 p vm).
Proof.
  unfold riscv_switch_priv, riscv_update_xlen, entry_rv64.
  destruct (Z.eqb_spec (priv_mode vm) p) as [E|E]; cbn [negb andb]; [done|].
  cbn zeta. match goal with |- context [if negb (eqb ?a ?b) then _ else _] =>
    destruct (eqb a b) eqn:Eb end; cbn [negb]; (split_and!; [done..|]); intros Hp.
  - apply eqb_prop in Eb. cbn in Eb |- *. rewrite Eb. destruct Hp as [-> | ->]; eval_cmp; [done|]. cbn [orb]. by rewrite bit_check64_testbit.
  - cbn. destruct Hp as [-> | ->]; eval_cmp; [done|]. cbn [orb]. by rewrite bit_check64_testbit.
Qed.

Lemma trap_priv_helper_rest vm p : trap_rest (riscv_trap_priv_helper vm p) = trap_rest vm.
Proof. by rewrite trap_priv_helper_frame. Qed.

Lemma switch_priv_flushes vm p k vpn : urange 52 vpn -> vm.(priv_mode) <> p ->
  tlb_lookup (riscv_switch_priv vm p) k vpn = None.
Proof.
  intros Hv Hp. unfold riscv_switch_priv. apply Z.eqb_neq in Hp. rewrite Hp.
  by apply tlb_flush_lookup.
Qed.

Lemma deleg_bit_m n cause : 0 <= cause < 32 -> nz (n .& (1 .<< cause)) = Z.testbit n cause.
Proof.
  intros Hc. unfold nz. destruct (Z.testbit n cause) eqn:E.
  - apply negb_true_iff, Z.eqb_neq. intros F.
    pose proof (f_equal (fun x => Z.testbit x cause) F) as G. cbn beta in G.
    rewrite Z.land_spec, E, Z.testbit_0_l in G. autorewrite with zbits in G.
    rewrite Z.sub_diag in G. discriminate G.
  - apply negb_false_iff, Z.eqb_eq, Z.bits_inj'. intros i Hi.
    rewrite Z.land_spec, Z.testbit_0_l. autorewrite with zbits.
    destruct (Z.eq_dec i cause) as [->|]; [by rewrite E|].
    replace (Z.testbit 1 (i - cause)) with false
      by (symmetry; apply (Z.pow2_bits_false 0); lia). apply andb_false_r.
Qed.

Lemma deleg_loop_target vm cause : hart_wf vm -> 0 <= cause < 32 ->
  deleg_loop 3 vm cause RISCV_PRIV_MACHINE = trap_target vm cause.
Proof.
  intros [[] ? Hp _ _ _ _ _ _ _ _ _ _ _] Hc. unfold deleg_loop, trap_target.
  change (3 - 1) with RISCV_PRIV_HYPERVISOR.
  change (RISCV_PRIV_MACHINE - 1) with RISCV_PRIV_HYPERVISOR.
  change (RISCV_PRIV_HYPERVISOR - 1) with RISCV_PRIV_SUPERVISOR.
  rewrite !deleg_bit_m by done. rewrite wf_edeleg_h0, wf_edeleg_s0, Z.testbit_0_l.
  replace (Z.testbit 0xFFFFFFFF cause) with true
    by (symmetry; change 0xFFFFFFFF with (Z.ones 32); apply Z.ones_spec_low; lia).
  destruct (Z.testbit (csr_edeleg _ _) cause), Hp as [->|[->| ->]]; done.
Qed.

Lemma valid_priv_bits p : valid_priv p -> urange 2 p.
Proof. unfold urange. intros [->|[->| ->]]; done. Qed.

(** MPP after a trap is the level the trap came from. *)
Lemma trap_priv_helper_mpp vm p : urange 64 (status vm) -> urange 2 vm.(priv_mode) ->
  p = RISCV_PRIV_MACHINE \/ p = RISCV_PRIV_SUPERVISOR ->
  bit_cut (status (riscv_trap_priv_helper vm p)) 11 2 =
  if p =? RISCV_PRIV_MACHINE then vm.(priv_mode) else bit_cut (status vm) 11 2.
Proof.
  intros Hs Hr Hp. apply Z.bits_inj'. intros i Hi.
  rewrite testbit_bit_cut, trap_priv_helper_status by (done || lia).
  unfold trap_status_bit. destruct Hp as [->| ->]; eval_cmp.
  - split_index; try (replace (i + 11 - 11) with i by lia); try done;
      symmetry; apply (testbit_above 2); done || lia.
  - rewrite testbit_bit_cut by lia. by split_index.
Qed.

Lemma trap_priv_helper_range vm p : urange 64 (status vm) ->
  urange 64 (status (riscv_trap_priv_helper vm p)).
Proof.
  intros. unfold riscv_trap_priv_helper. repeat case_match; try done;
    unfold status, set_status; cbn; repeat apply bit_replace_range; done.
Qed.

Lemma trap_priv_helper_wf vm p : p = RISCV_PRIV_MACHINE \/ p = RISCV_PRIV_SUPERVISOR ->
  hart_wf vm -> hart_wf (riscv_trap_priv_helper vm p).
Proof.
  intros Hp H. rewrite trap_priv_helper_frame. pose proof (wf_csr _ H) as Hc.
  pose proof (wf_priv _ H) as Hv.
  apply set_status_wf; [by apply trap_priv_helper_range, Hc| |done].
  rewrite trap_priv_helper_mpp by (done || apply Hc || by apply valid_priv_bits).
  case_match; [|apply Hc]. by destruct Hv as [->|[->| ->]].
Qed.

Lemma trap_target_cases vm cause :
  trap_target vm cause = RISCV_PRIV_MACHINE \/ trap_target vm cause = RISCV_PRIV_SUPERVISOR.
Proof. unfold trap_target. case_match; auto. Qed.

Lemma valid_priv_target p :
  p = RISCV_PRIV_MACHINE \/ p = RISCV_PRIV_SUPERVISOR -> valid_priv p.
Proof. unfold valid_priv. intuition. Qed.

Lemma restart_at_pc_wf vm p : urange 64 p -> hart_wf vm -> hart_wf (riscv_restart_at_pc vm p).
Proof. intros. wf_fields. Qed.

#[export] Hint Resolve trap_priv_helper_wf trap_target_cases valid_priv_target restart_at_pc_wf : rv.

Lemma riscv_trap_wf vm cause tval : 0 <= cause < 32 -> urange 64 tval ->
  hart_wf vm -> hart_wf (riscv_trap vm cause tval).
Proof.
  intros Hc Ht H. unfold riscv_trap. case_match; [done|]. pose proof (wf_registers _ H) as Hr.
  assert (urange 64 cause) by (unfold urange; lia).
  case_match.
  - apply restart_at_pc_wf; [apply Hr|]. wf_fields; auto with rv.
  - rewrite deleg_loop_target by done. set (p := trap_target vm cause).
    assert (p = RISCV_PRIV_MACHINE \/ p = RISCV_PRIV_SUPERVISOR) by apply trap_target_cases.
    match goal with |- hart_wf (riscv_restart_at_pc ?v _) => assert (hart_wf v) as Hv end.
    { apply switch_priv_wf; [auto with rv|]. apply trap_priv_helper_wf; [done|].
      assert (urange 64 (pc vm)) by apply Hr. auto 6 with rv. }
    apply restart_at_pc_wf; [|done]. apply urange_land_l; [lia|]. apply Hv.
Qed.

#[export] Hint Resolve riscv_trap_wf : rv.

(** ** Trap entry *)

Lemma land_not3 x : x .& not64 3 = 4 * (u64 x / 4).
Proof.
  apply Z.bits_inj'. intros i Hi. replace (4 * (u64 x / 4)) with ((u64 x .>> 2) .<< 2).
  2:{ rewrite Z.shiftl_mul_pow2, Z.shiftr_div_pow2 by lia. change (2 ^ 2) with 4. lia. }
  unfold not64. autorewrite with zbits. rewrite ?Z.lnot_spec by lia.
  change 3 with (Z.ones 2). rewrite testbit_ones by lia.
  destruct (Z.ltb_spec i 2).
  - rewrite (Z.testbit_neg_r _ (i - 2)) by lia. cbn. by rewrite !andb_false_r.
  - rewrite testbit_shiftr, testbit_wrap by lia. replace (i - 2 + 2) with i by lia. cbn.
    by rewrite andb_true_r, andb_comm.
Qed.

Lemma entry_rv64_helper vm p : urange 64 (status vm) -> p = RISCV_PRIV_MACHINE \/ p = RISCV_PRIV_SUPERVISOR ->
  entry_rv64 p (riscv_trap_priv_helper vm p) = entry_rv64 p vm.
Proof.
  intros Hs Hp. unfold entry_rv64. rewrite trap_priv_helper_status by (done || lia).
  rewrite trap_priv_helper_frame. cbn. unfold trap_status_bit. eval_cmp. by repeat case_match.
Qed.

Lemma arch_irq_log2 irqs : 0 < irqs -> irqs .& 0xAAA = irqs -> Z.testbit irqs 3 = false -> Z.testbit irqs 1 = false ->
  Z.testbit irqs 7 && Z.testbit irqs 9 = false -> arch_irq irqs = Some (Z.log2 irqs).
Proof.
  intros Hpos Hm H3 H1 H79.
  assert (0 <= irqs < 4096) as Hr.
  { assert (irqs mod 2 ^ 12 = irqs) as <-; [|apply Z.mod_pos_bound; lia].
    rewrite <- Z.land_ones by lia. rewrite <- Hm at 1. by rewrite <- Z.land_assoc. }
  apply (forallb_below (fun x => (x =? 0) || negb (x .& 0xAAA =? x) || Z.testbit x 3 || Z.testbit x 1
    || Z.testbit x 7 && Z.testbit x 9 || bool_decide (arch_irq x = Some (Z.log2 x))) 4096) in Hr; [|vm_compute; done].
  rewrite H3, H1, H79, Hm, Z.eqb_refl in Hr. replace (irqs =? 0) with false in Hr by lia. cbn [negb orb] in Hr.
  by apply bool_decide_eq_true in Hr.
Qed.

Lemma riscv_trap_entry vm cause tval :
  hart_wf vm -> vm.(trap) = false -> vm.(userland) = false -> 0 <= cause < 32 ->
  let target := trap_target vm cause in
  let vm' := riscv_trap vm cause tval in
  vm'.(priv_mode) = target /\ vm'.(trap) = true /\ vm'.(running) = false /\
  vm'.(trap_pc) = 4 * (vm.(csr).(csr_tvec) target / 4) /\
  vm'.(csr).(csr_epc) = <[target := pc vm]> vm.(csr).(csr_epc) /\
  vm'.(csr).(csr_cause) = <[target := cause]> vm.(csr).(csr_cause) /\
  vm'.(csr).(csr_tval) = <[target := tval]> vm.(csr).(csr_tval) /\
  (forall i, 0 <= i ->
     Z.testbit (status vm') i = trap_status_bit target vm.(priv_mode) (status vm) i) /\
  vm'.(registers) = vm.(registers) /\ vm'.(host) = vm.(host) /\
  (forall k vpn, vm.(priv_mode) <> target -> urange 52 vpn -> tlb_lookup vm' k vpn = None) /\
  (vm.(priv_mode) = target -> vm'.(tlb) = vm.(tlb)) /\ vm'.(rv64) = entry_rv64 target vm /\
  trap_rest vm' = trap_rest vm.
Proof.
  intros H Ht Hu Hc target vm'. subst vm'. unfold riscv_trap. rewrite Ht, Hu.
  rewrite deleg_loop_target by done. fold target. cbn zeta.
  set (v0 := set_tval_at _ _ _). pose proof (trap_priv_helper_frame v0 target) as Hf. cbn in Hf.
  set (v1 := riscv_trap_priv_helper v0 target) in *.
  destruct (switch_priv_fields v1 target) as (E1&E2&E3&E4&E5&E6&E7&E8&E9).
  set (v2 := riscv_switch_priv v1 target) in *.
  assert (forall i, 0 <= i -> Z.testbit (status v1) i =
    trap_status_bit target vm.(priv_mode) (status vm) i) as Hs.
  { intros i Hi. subst v1. rewrite trap_priv_helper_status; [done| |apply trap_target_cases|done].
    apply H. }
  assert (v1.(csr) = set_csr_status (status v1) v0.(csr)) as Ec by (rewrite Hf at 1; done).
  assert (v1.(registers) = vm.(registers)) as Er by (rewrite Hf; done).
  assert (v1.(host) = vm.(host)) as Eh by (rewrite Hf; done).
  assert (v1.(priv_mode) = vm.(priv_mode)) as Ep by (rewrite Hf; done).
  unfold status in Hs |- *. cbn. rewrite E1, E2, E3, E6, Ec, Er, Eh. cbn.
  rewrite land_not3, wrap_small by apply H.
  destruct (switch_priv_rest v1 target) as (Hr1 & _ & Hr3 & Hr4).
  split_and!; try done.
  - intros k vpn Hne Hv. subst v2. change (tlb_lookup (riscv_switch_priv v1 target) k vpn = None).
    apply switch_priv_flushes; [done|]. by rewrite Ep.
  - intros Et. change (tlb v2 = tlb vm). unfold v2. rewrite Hr3 by congruence. by rewrite Hf.
  - change (rv64 v2 = entry_rv64 target vm). unfold v2. rewrite Hr4 by apply trap_target_cases.
    unfold v1. rewrite entry_rv64_helper; [done|apply H|apply trap_target_cases].
  - transitivity (trap_rest v2); [done|]. unfold v2. rewrite Hr1. unfold v1. by rewrite trap_priv_helper_rest.
Qed.

(** ** Interrupt dispatch *)

Lemma clz32_log2 x : urange 32 x -> 0 < x -> bit_clz32 x .^ 31 = Z.log2 x.
Proof.
  intros Hx Hp. unfold bit_clz32, nz. replace (x =? 0) with false by lia. cbn [negb].
  unfold builtin_clz. pose proof (log2_range 32 x Hp Hx) as Hl.
  apply (forallb_below (fun l => (32 - 1 - l) .^ 31 =? l) 32) in Hl; [lia|vm_compute; done].
Qed.

Lemma pending_range vm : urange 32 (riscv_interrupts_pending vm).
Proof. apply wrap_range. lia. Qed.

Lemma ldiff_not64 x y : urange 32 x -> u32 (x .& not64 y) = Z.ldiff x y.
Proof.
  intros Hx. apply Z.bits_inj'. intros i Hi. unfold not64. autorewrite with zbits.
  rewrite ?Z.lnot_spec by lia. destruct (Z.ltb_spec i 32).
  - replace (i <? 64) with true by lia. done.
  - by rewrite (testbit_above 32 x) by (done || lia).
Qed.

Lemma irq_deleg_loop_eq vm pending : hart_wf vm -> urange 32 pending -> pending <> 0 ->
  let mideleg := vm.(csr).(csr_ideleg) RISCV_PRIV_MACHINE in
  irq_deleg_loop 3 vm pending RISCV_PRIV_MACHINE =
  if nz (Z.ldiff pending mideleg) then (RISCV_PRIV_MACHINE, Z.ldiff pending mideleg)
  else (RISCV_PRIV_SUPERVISOR, pending .& mideleg).
Proof.
  intros [[] _ _ _ _ _ _ _ _ _ _ _ _ _] Hr Hne mideleg. cbn [irq_deleg_loop].
  change (RISCV_PRIV_MACHINE - 1) with RISCV_PRIV_HYPERVISOR.
  change (RISCV_PRIV_HYPERVISOR - 1) with RISCV_PRIV_SUPERVISOR.
  change (RISCV_PRIV_SUPERVISOR - 1) with 0. fold mideleg.
  rewrite wf_ideleg_h0, wf_ideleg_s0, ldiff_not64 by done.
  destruct (nz (Z.ldiff pending mideleg)) eqn:E; [done|].
  apply nz_false in E.
  assert (urange 32 (pending .& mideleg)) as Hl by (apply urange_land_l; [lia|done]).
  rewrite (wrap_small 32 (pending .& mideleg)) by done.
  replace (u32 (pending .& mideleg .& not64 0xFFFFFFFF)) with 0.
  2:{ rewrite ldiff_not64 by done. change 0xFFFFFFFF with (Z.ones 32).
      rewrite Z.ldiff_ones_r by lia. rewrite Z.shiftr_div_pow2, Z.div_small by (done || lia). done. }
  change (nz 0) with false. change (nz RISCV_PRIV_HYPERVISOR) with true.
  change (nz RISCV_PRIV_SUPERVISOR) with true. cbv iota.
  replace (u32 (pending .& mideleg .& 0xFFFFFFFF)) with (pending .& mideleg).
  2:{ change 0xFFFFFFFF with (Z.ones 32). rewrite (Z.land_ones _ 32) by lia.
      fold (wrap 32 (pending .& mideleg)). by rewrite wrap_wrap, wrap_small by (done || lia). }
  rewrite ldiff_not64, Z.ldiff_0_r by done.
  assert (pending .& mideleg <> 0) as Hz.
  { intros F. apply Hne. rewrite <- (Z.lor_ldiff_and pending mideleg), E, F. done. }
  by rewrite nz_true.
Qed.

Lemma enabled_bit vm p : 0 <= p < 32 ->
  negb (nz ((1 .<< p) .& status vm)) = negb (Z.testbit (status vm) p).
Proof. intros. by rewrite Z.land_comm, deleg_bit_m. Qed.

(** The level and interrupt number [riscv_handle_irqs] chooses are the reference ones. *)
Lemma handle_irqs_choice vm : hart_wf vm ->
  riscv_handle_irqs vm =
  match irq_target vm with
  | None => vm
  | Some (p, irqs) =>
      let irq := Z.log2 irqs in
      let vm := riscv_switch_priv (riscv_trap_priv_helper vm p) p in
      let vm := set_epc_at p (pc vm) vm in
      let vm := set_cause_at p (irq .| riscv_cause_irq_mask vm) vm in
      let vm := set_tval_at p 0 vm in
      let tvec := vm.(csr).(csr_tvec) p in
      set_reg RISCV_REG_PC
        (if nz (tvec .& 1) then u64 ((tvec .& not64 3) + u32 (irq .<< 2)) else tvec .& not64 3) vm
  end.
Proof.
  intros H. pose proof (pending_range vm) as Hr. pose proof (wf_priv _ H) as Hp.
  unfold riscv_handle_irqs, irq_target. cbn zeta.
  set (pend := riscv_interrupts_pending vm) in *.
  set (mideleg := csr_ideleg (csr vm) RISCV_PRIV_MACHINE).
  assert (forall (c : bool) a b v, set_reg RISCV_REG_PC (if c then a else b) v =
    if c then set_reg RISCV_REG_PC a v else set_reg RISCV_REG_PC b v) as Eif by (by intros []).
  destruct (nz pend) eqn:Ez.
  2:{ apply nz_false in Ez. by rewrite Ez. }
  apply nz_spec in Ez. rewrite irq_deleg_loop_eq by done. fold mideleg.
  assert (0 <= vm.(priv_mode) < 32) by (destruct Hp as [->|[->| ->]]; done).
  destruct (nz (Z.ldiff pend mideleg)) eqn:Em.
  - rewrite enabled_bit by done.
    assert (urange 32 (Z.ldiff pend mideleg)) as Hm.
    { rewrite <- ldiff_not64 by done. apply wrap_range. lia. }
    apply nz_spec in Em. rewrite clz32_log2 by (unfold urange in Hm; done || lia).
    destruct Hp as [->|[->| ->]]; eval_cmp; cbn [andb orb negb]; rewrite ?Eif; try done.
    destruct (Z.testbit (status vm) RISCV_PRIV_MACHINE); cbn [negb]; by rewrite ?Eif.
  - apply nz_false in Em.
    assert (urange 32 (pend .& mideleg)) as Hs by (apply urange_land_l; [lia|done]).
    assert (pend .& mideleg <> 0) as Hz.
    { intros F. apply Ez. rewrite <- (Z.lor_ldiff_and pend mideleg), Em, F. done. }
    rewrite (nz_true (pend .& mideleg)) by done.
    rewrite enabled_bit, clz32_log2 by (unfold urange in Hs; done || lia).
    destruct Hp as [->|[->| ->]]; eval_cmp; cbn [andb orb negb]; rewrite ?Eif; try done.
    destruct (Z.testbit (status vm) RISCV_PRIV_SUPERVISOR); cbn [negb]; by rewrite ?Eif.
Qed.

Lemma irq_target_cases vm p irqs : hart_wf vm -> irq_target vm = Some (p, irqs) ->
  (p = RISCV_PRIV_MACHINE \/ p = RISCV_PRIV_SUPERVISOR) /\ urange 32 irqs /\ 0 < irqs.
Proof.
  intros H E. pose proof (pending_range vm) as Hr. unfold irq_target in E. cbn zeta in E.
  set (pend := riscv_interrupts_pending vm) in *.
  set (mideleg := csr_ideleg _ _) in *.
  assert (urange 32 (Z.ldiff pend mideleg)) as Hm.
  { rewrite <- ldiff_not64 by done. apply wrap_range. lia. }
  assert (urange 32 (pend .& mideleg)) as Hs by (apply urange_land_l; [lia|done]).
  unfold urange in Hm, Hs. unfold nz in E.
  destruct (Z.eqb_spec (Z.ldiff pend mideleg) 0); cbn [negb] in E;
    [destruct (Z.eqb_spec (pend .& mideleg) 0); cbn [negb] in E; [done|]|];
    match type of E with (if ?c then _ else _) = _ => destruct c end; try done;
    injection E as <- <-; unfold urange; (split; [auto|lia]).
Qed.

Lemma cause_mask_range vm : urange 64 (riscv_cause_irq_mask vm).
Proof. unfold riscv_cause_irq_mask, urange. by case_match. Qed.

Lemma handle_irqs_wf vm : hart_wf vm -> hart_wf (riscv_handle_irqs vm).
Proof.
  intros H. rewrite handle_irqs_choice by done.
  destruct (irq_target vm) as [[p irqs]|] eqn:E; [|done]. cbn zeta.
  destruct (irq_target_cases vm p irqs H E) as (Hp & Hr & Hpos).
  set (v := riscv_switch_priv _ _).
  assert (hart_wf v) as Hv by (apply switch_priv_wf; auto with rv).
  pose proof (log2_range 32 irqs Hpos Hr) as Hl.
  assert (urange 64 (Z.log2 irqs)) by (unfold urange; lia).
  apply set_reg_wf.
  - case_match; [apply wrap_range; lia|]. apply urange_land_l; [lia|]. apply Hv.
  - apply set_tval_at_wf; [done|]. apply set_cause_at_wf.
    { apply urange_lor; [lia|done|apply cause_mask_range]. }
    apply set_epc_at_wf; [apply Hv|done].
Qed.

Lemma set_pending_irqs_wf v vm : urange 32 v -> hart_wf vm -> hart_wf (set_pending_irqs v vm).
Proof. intros. wf_fields. Qed.

Lemma interrupt_wf vm irq : hart_wf vm -> hart_wf (riscv_interrupt vm irq).
Proof.
  intros H. unfold riscv_interrupt, riscv_interrupt_set. cbn zeta.
  assert (urange 32 (pending_irqs vm .| u32 (1 .<< (irq .& 0x1F))))
    by (apply urange_lor; [lia|apply H|apply wrap_range; lia]).
  case_match; wf_fields.
Qed.

Lemma interrupt_clear_wf vm irq : hart_wf vm -> hart_wf (riscv_interrupt_clear vm irq).
Proof. intros H. apply set_pending_irqs_wf; [|done]. apply urange_land_l; [lia|apply H]. Qed.

Lemma check_interrupts_wf vm : hart_wf vm -> hart_wf (riscv_hart_check_interrupts vm).
Proof. intros. unfold riscv_hart_check_interrupts. case_match; auto with rv. Qed.

Lemma set_aia_file_wf f s a vm : (forall s, aia_file_wf (f s)) -> aia_file_wf a ->
  hart_wf vm -> hart_wf (set_aia_file f s a vm).
Proof. intros Hf Ha H. wf_fields. intros []; destruct s; cbn; auto. Qed.

#[export] Hint Resolve handle_irqs_wf interrupt_wf interrupt_clear_wf check_interrupts_wf : rv.

Lemma set_eip_wf a i v : aia_file_wf a -> urange 32 v -> aia_file_wf (set_eip (<[i := v]> a.(eip)) a).
Proof.
  intros [] Hv. constructor; cbn; try done. intros r. rewrite fupd_dec. by case_bool.
Qed.

Lemma aia_scan_wf n vm files smode update claim thresh i ret :
  hart_wf vm -> (forall s, aia_file_wf (files s)) -> 0 <= i -> i + Z.of_nat n <= 8 -> urange 32 ret ->
  hart_wf (fst (aia_scan n vm files smode update claim thresh i ret)) /\
  urange 32 (snd (aia_scan n vm files smode update claim thresh i ret)).
Proof.
  revert vm files i ret. induction n as [|n IH]; intros vm files i ret H Hf Hi Hn Hr; [done|].
  cbn [aia_scan]. cbn zeta. set (bits := eip (files smode) i .& eie (files smode) i).
  destruct (nz bits) eqn:Eb; [|apply IH; try done; lia].
  destruct (nz ret); [cbn [fst snd]; split; auto with rv|].
  assert (urange 32 bits) as Hb by (apply urange_land_l; [lia|apply Hf]).
  assert (urange 32 ((i .<< 5) .| (bit_clz32 bits .^ 31))) as Hirq.
  { apply nz_spec in Eb. assert (0 < bits) as Hpos by (unfold urange in Hb; lia).
    rewrite clz32_log2 by done. pose proof (log2_range 32 bits Hpos Hb).
    apply urange_lor; [lia| |unfold urange; lia].
    rewrite Z.shiftl_mul_pow2 by lia. unfold urange. lia. }
  case_match; [|apply IH; try done; lia].
  set (mask := not32 _). set (a := if claim then _ else files smode).
  assert (aia_file_wf a) as Ha.
  { subst a. destruct claim; [|apply Hf]. apply set_eip_wf; [apply Hf|].
    apply urange_land_l; [lia|apply Hf]. }
  set (vm1 := if claim then _ else vm). set (f1 := if claim then _ else files).
  assert (hart_wf vm1) by (subst vm1; destruct claim; [by apply set_aia_file_wf|done]).
  assert (forall s, aia_file_wf (f1 s)).
  { intros s. subst f1. destruct claim; [|done]. by destruct (eqb s smode). }
  destruct update; [|done].
  match goal with |- context [nz ?b] => destruct (nz b) end;
    [cbn [fst snd]; split; auto with rv|apply IH; try done; lia].
Qed.

Lemma update_aia_internal_wf vm smode update claim : hart_wf vm ->
  hart_wf (fst (riscv_update_aia_internal vm smode update claim)) /\
  urange 32 (snd (riscv_update_aia_internal vm smode update claim)).
Proof.
  intros H. unfold riscv_update_aia_internal. pose proof (wf_aia _ H) as Ha.
  destruct (aia vm) as [files|]; [|done]. cbn zeta.
  assert (hart_wf (if update then riscv_interrupt_clear vm (aia_msip smode) else vm))
    by (case_match; auto with rv).
  destruct (nz (eidelivery _)); [by apply aia_scan_wf|done].
Qed.

Lemma send_aia_irq_wf vm smode irq : hart_wf vm -> hart_wf (riscv_send_aia_irq vm smode irq).
Proof.
  intros H. unfold riscv_send_aia_irq. pose proof (wf_aia _ H) as Ha.
  destruct (aia vm) as [files|]; [|done]. case_match; [|done]. cbn zeta. case_match; [|done].
  match goal with |- context [set_aia_file ?f ?s ?a ?v] =>
    assert (hart_wf (set_aia_file f s a v)) end.
  { apply set_aia_file_wf; [done| |done]. apply set_eip_wf; [done|].
    apply urange_lor; [lia|apply Ha|apply wrap_range; lia]. }
  case_match; auto with rv.
Qed.

Lemma check_timer_wf vm : hart_wf vm -> hart_wf (riscv_hart_check_timer vm).
Proof.
  intros H. unfold riscv_hart_check_timer. case_match; [|done]. cbn zeta.
  assert (forall v irq, hart_wf v -> hart_wf (let '(v, fresh) := riscv_interrupt_set v irq in
    if fresh : bool then riscv_restart_dispatch v else v)) as Hs.
  { intros v irq Hv. unfold riscv_interrupt_set. cbn zeta.
    assert (urange 32 (pending_irqs v .| u32 (1 .<< (irq .& 0x1F))))
      by (apply urange_lor; [lia|apply Hv|apply wrap_range; lia]).
    case_match; wf_fields. }
  repeat (case_match; try apply Hs; auto).
Qed.

#[export] Hint Resolve send_aia_irq_wf check_timer_wf : rv.

(** ** AIA claim *)

Lemma interrupt_aia vm irq : (riscv_interrupt vm irq).(aia) = vm.(aia).
Proof. unfold riscv_interrupt, riscv_interrupt_set. cbn zeta. by case_match. Qed.

(** Once an interrupt has been chosen the scan only decides whether to keep the line up. *)
Lemma aia_scan_found n vm files smode update claim thresh i ret : ret <> 0 ->
  let '(vm', r) := aia_scan n vm files smode update claim thresh i ret in
  r = ret /\ vm'.(aia) = vm.(aia).
Proof.
  intros Hr. revert i. induction n as [|n IH]; intros i; [done|]. cbn [aia_scan]. cbn zeta.
  rewrite (nz_true ret) by done. destruct (nz (_ .& _)); [|apply IH].
  split; [done|apply interrupt_aia].
Qed.

(** The highest set bit of a nonzero word, as the code finds it. *)
Lemma clz_bit x : urange 32 x -> x <> 0 ->
  0 <= bit_clz32 x .^ 31 < 32 /\ Z.testbit x (bit_clz32 x .^ 31) = true.
Proof.
  intros Hx Hn. assert (0 < x) by (unfold urange in Hx; lia). rewrite clz32_log2 by done.
  split; [by apply log2_range|by apply Z.bit_log2].
Qed.

Lemma land_not32_clear x b : urange 32 x -> 0 <= b < 32 ->
  x .& not32 (u32 (1 .<< b)) = Z.clearbit x b.
Proof.
  intros Hx Hb. apply Z.bits_inj'. intros i Hi. rewrite Z.clearbit_eqb. unfold not32.
  autorewrite with zbits. rewrite ?Z.lnot_spec by lia. autorewrite with zbits.
  destruct (Z.ltb_spec i 32).
  2:{ by rewrite (testbit_above 32 x) by (done || lia). }
  cbn [andb]. f_equal. destruct (Z.eqb_spec b i) as [->|].
  - by rewrite Z.sub_diag.
  - by replace (Z.testbit 1 (i - b)) with false by (symmetry; apply (Z.pow2_bits_false 0); lia).
Qed.

Lemma aia_scan_spec n vm files smode claim thresh i :
  vm.(aia) = Some files -> (forall r, urange 32 ((files smode).(eip) r)) -> 0 <= i ->
  Z.testbit ((files smode).(eip) 0) 0 = false ->
  let '(vm', r) := aia_scan n vm files smode true claim thresh i 0 in
  r <> 0 -> exists files', vm'.(aia) = Some files' /\
    (files' (negb smode)) = files (negb smode) /\
    aia_claimed (files smode) (files' smode) claim thresh r.
Proof.
  intros Ha He. revert i. induction n as [|n IH]; intros i Hi H0; [by intros []|].
  cbn [aia_scan]. cbn zeta. change (nz 0) with false. cbv iota.
  set (a := files smode) in *. set (bits := eip a i .& eie a i).
  destruct (nz bits) eqn:Eb; [|exact (IH (i + 1) ltac:(lia) H0)]. apply nz_spec in Eb.
  assert (urange 32 bits) as Hr by (apply urange_land_l; [lia|apply He]).
  destruct (clz_bit bits Hr Eb) as [Hb Ht]. set (bit := bit_clz32 bits .^ 31) in *.
  unfold bits in Ht. rewrite Z.land_spec in Ht. apply andb_true_iff in Ht as [Ht1 Ht2].
  assert ((i .<< 5) .| bit = 32 * i + bit) as Eirq.
  { rewrite Z.lor_comm, lor_shiftl_add by (done || lia). change (2 ^ 5) with 32. lia. }
  rewrite Eirq. destruct (Z.ltb_spec (32 * i + bit) thresh); [|exact (IH (i + 1) ltac:(lia) H0)].
  assert (32 * i + bit <> 0) as Hne.
  { intros F. assert (i = 0) as -> by lia. assert (bit = 0) as F0 by lia. congruence. }
  set (a' := if claim then _ else a).
  set (vm1 := if claim then _ else vm). set (files1 := if claim then _ else files).
  set (bits1 := if claim then _ else bits).
  assert (exists files', vm1.(aia) = Some files' /\ files' (negb smode) = files (negb smode) /\
    aia_claimed a (files' smode) claim thresh (32 * i + bit)) as Hgoal.
  { subst vm1 a'. destruct claim.
    - exists (fun s => if eqb s smode then set_eip (<[i := eip a i .& not32 (u32 (1 .<< bit))]> (eip a)) a
                       else files s).
      split; [done|]. split; [by destruct smode|]. rewrite eqb_reflx.
      exists i, bit. rewrite land_not32_clear by (done || apply He). done.
    - exists files. split; [done|]. split; [done|]. by exists i, bit. }
  destruct (nz bits1).
  - intros _. rewrite interrupt_aia. apply Hgoal.
  - pose proof (aia_scan_found n vm1 files1 smode true claim thresh (i + 1) _ Hne) as Hf.
    destruct (aia_scan _ _ _ _ _ _ _ _ _) as [vm' r]. destruct Hf as [-> ->]. by intros _.
Qed.

(** ** Initial state *)

Lemma hart_init_wf m mrv64 timer rnd h : urange 64 timer -> (forall n, urange 16 (rnd n)) ->
  valid_memory h ->
  hart_wf (riscv_hart_init m mrv64 timer rnd h).
Proof.
  intros Ht Hr Hh. assert (u64_array (fun _ => 0)) by (intros i; done).
  unfold riscv_hart_init, riscv_csr_init. apply tlb_flush_wf.
  destruct mrv64; cbn; constructor; cbn; auto; try (split; lia); try done;
    try (unfold valid_priv; auto); constructor; cbn; auto; try done;
    apply u64_array_insert; done.
Qed.

Lemma demo_hart_wf : hart_wf demo_hart.
Proof. apply hart_init_wf; done. Qed.

Lemma set_ie_wf v vm : urange 64 v -> hart_wf vm -> hart_wf (upd_csr (set_csr_ie v) vm).
Proof. intros. wf_fields. Qed.

Lemma demo_irq_hart_wf : hart_wf demo_irq_hart.
Proof.
  apply set_pending_irqs_wf, set_ie_wf, set_status_wf, demo_hart_wf; [done..|].
  vm_compute. discriminate.
Qed.

Lemma irq_mask_add irq vm : 0 <= irq < 32 ->
  irq .| riscv_cause_irq_mask vm = irq + (if vm.(rv64) then 2 ^ 63 else 2 ^ 31).
Proof.
  intros. unfold riscv_cause_irq_mask. case_match.
  - change 0x8000000000000000 with (1 .<< 63). rewrite lor_shiftl_add; [lia..|]. unfold urange. lia.
  - change 0x80000000 with (1 .<< 31). rewrite lor_shiftl_add; [lia..|]. unfold urange. lia.
Qed.

(** ** Properties *)

(** C6: Trap entry.  An exception raised outside of userland mode is taken by S-mode when
    it comes from S or U and its [medeleg] bit is set, otherwise by M-mode; the target's
    epc, cause and tval are written, the privilege stack in [mstatus] is pushed (xPP, xPIE,
    xIE) and every other status bit kept, execution restarts at the trap vector base, no
    register and no memory changes, a change of level leaves no cached translation and
    switches to the width of the level entered; every other field of the hart, the other
    CSRs included, is as it was. *)
Theorem trap_entry vm cause tval :
  hart_wf vm -> vm.(trap) = false -> vm.(userland) = false -> 0 <= cause < 32 ->
  let target := trap_target vm cause in
  let vm' := riscv_trap vm cause tval in
  vm'.(priv_mode) = target /\ vm'.(trap) = true /\ vm'.(running) = false /\
  vm'.(trap_pc) = 4 * (vm.(csr).(csr_tvec) target / 4) /\
  vm'.(csr).(csr_epc) = <[target := pc vm]> vm.(csr).(csr_epc) /\
  vm'.(csr).(csr_cause) = <[target := cause]> vm.(csr).(csr_cause) /\
  vm'.(csr).(csr_tval) = <[target := tval]> vm.(csr).(csr_tval) /\
  (forall i, 0 <= i ->
     Z.testbit (status vm') i = trap_status_bit target vm.(priv_mode) (status vm) i) /\
  vm'.(registers) = vm.(registers) /\ vm'.(host) = vm.(host) /\
  (forall k vpn, vm.(priv_mode) <> target -> urange 52 vpn -> tlb_lookup vm' k vpn = None) /\
  (vm.(priv_mode) = target -> vm'.(tlb) = vm.(tlb)) /\ vm'.(rv64) = entry_rv64 target vm /\
  trap_rest vm' = trap_rest vm.
Proof. apply riscv_trap_entry. Qed.

Lemma trap_entry_witness : (riscv_trap demo_hart RISCV_TRAP_ILL_INSN 7).(trap) = true.
Proof.
  pose proof (trap_entry demo_hart RISCV_TRAP_ILL_INSN 7 demo_hart_wf) as H. by apply H.
Defined.

(** C19: Interrupt dispatch.  [riscv_handle_irqs] leaves the hart alone when no interrupt is
    deliverable; otherwise it enters the reference target level with the highest-numbered
    deliverable interrupt: cause carries the interrupt flag, tval is 0, epc is the
    interrupted pc, the new pc is the vector base, plus 4 times the number in vectored
    mode, [mstatus] changes exactly in the xPP, xPIE and xIE bits, and nothing else of the
    hart changes but, with the level, the width, the TLB and the dispatch flag.  The architecture orders MEI, MSI,
    MTI, SEI, SSI, STI: among these the choice is the same when no software interrupt is
    deliverable, nor MTI together with SEI. *)
Theorem handle_irqs_entry vm : hart_wf vm ->
  let vm' := riscv_handle_irqs vm in
  match irq_target vm with
  | None => vm' = vm
  | Some (p, irqs) =>
      let irq := Z.log2 irqs in
      let tvec := vm.(csr).(csr_tvec) p in
      vm'.(priv_mode) = p /\
      vm'.(csr).(csr_epc) = <[p := pc vm]> vm.(csr).(csr_epc) /\
      vm'.(csr).(csr_cause) =
        <[p := irq + if vm'.(rv64) then 2 ^ 63 else 2 ^ 31]> vm.(csr).(csr_cause) /\
      vm'.(csr).(csr_tval) = <[p := 0]> vm.(csr).(csr_tval) /\
      vm'.(registers) = <[RISCV_REG_PC :=
        u64 (4 * (tvec / 4) + if Z.testbit tvec 0 then 4 * irq else 0)]> vm.(registers) /\
      (forall i, 0 <= i ->
        Z.testbit (status vm') i = trap_status_bit p vm.(priv_mode) (status vm) i) /\
      vm'.(rv64) = entry_rv64 p vm /\ vm'.(trap) = vm.(trap) /\ vm'.(trap_pc) = vm.(trap_pc) /\
      vm'.(running) = (vm.(priv_mode) =? p) && vm.(running) /\
      (vm.(priv_mode) = p -> vm'.(tlb) = vm.(tlb)) /\ trap_rest vm' = trap_rest vm /\
      (irqs .& 0xAAA = irqs -> Z.testbit irqs 3 = false -> Z.testbit irqs 1 = false ->
       Z.testbit irqs 7 && Z.testbit irqs 9 = false -> arch_irq irqs = Some irq)
  end.
Proof.
  intros H vm'. subst vm'. rewrite handle_irqs_choice by done.
  destruct (irq_target vm) as [[p irqs]|] eqn:E; [|done]. cbn zeta.
  destruct (irq_target_cases vm p irqs H E) as (Hp & Hr & Hpos).
  pose proof (log2_range 32 irqs Hpos Hr) as Hl.
  pose proof (trap_priv_helper_frame vm p) as Hf. cbn zeta in Hf.
  pose proof (fun i => trap_priv_helper_status vm p i (wf_status _ (wf_csr _ H)) Hp) as Hs.
  set (v1 := riscv_trap_priv_helper vm p) in *.
  destruct (switch_priv_fields v1 p) as (E1&E2&E3&E4&E5&_). destruct (switch_priv_rest v1 p) as (Hr1 & Hr2 & Hr3 & Hr4).
  specialize (Hr4 Hp).
  set (v2 := riscv_switch_priv v1 p) in *.
  assert (v1.(csr) = set_csr_status (status v1) vm.(csr)) as Ec by (rewrite Hf at 1; done).
  assert (v1.(registers) = vm.(registers)) as Er by (rewrite Hf; done).
  unfold status, pc in *. cbn. rewrite E1, E2, E3, Ec, Er. cbn.
  set (t := csr_tvec (csr vm) p). assert (urange 64 t) as Ht by apply H.
  assert (Z.log2 irqs .| riscv_cause_irq_mask (set_epc_at p (registers vm RISCV_REG_PC) v2) =
    Z.log2 irqs + (if rv64 v2 then 2 ^ 63 else 2 ^ 31)) as ->.
  { by rewrite irq_mask_add by lia. }
  rewrite nz_land_1, land_not3, (wrap_small 64 t) by done.
  split_and!; try done.
  - f_equal. destruct (Z.testbit t 0).
    + f_equal. f_equal. rewrite Z.shiftl_mul_pow2 by lia. change (2 ^ 2) with 4.
      unfold wrap. rewrite Z.mod_small; lia.
    + rewrite Z.add_0_r, wrap_small; [done|]. unfold urange in *. dlia.
  - rewrite Hr4. unfold v1. by rewrite entry_rv64_helper by (done || apply H).
  - rewrite E4. by rewrite Hf.
  - rewrite E5. by rewrite Hf.
  - rewrite Hr2. by rewrite Hf.
  - intros Et. rewrite Hr3; [by rewrite Hf|]. rewrite Hf. done.
  - transitivity (trap_rest v2); [by case_match|]. rewrite Hr1. apply trap_priv_helper_rest.
  - by apply arch_irq_log2.
Qed.

Lemma handle_irqs_entry_witness :
  (riscv_handle_irqs demo_irq_hart).(csr).(csr_cause) RISCV_PRIV_MACHINE = 7 + 2 ^ 63.
Proof.
  pose proof (handle_irqs_entry demo_irq_hart demo_irq_hart_wf) as H.
  assert (irq_target demo_irq_hart = Some (RISCV_PRIV_MACHINE, 0x80)) as E
    by (vm_compute; reflexivity).
  rewrite E in H. destruct H as (_ & _ & Hc & _). rewrite Hc. vm_compute. reflexivity.
Defined.

(** AIA claim.  When the top external interrupt is claimed through [mtopei]/[stopei], the
    identity returned was pending and enabled below the threshold the code applies, claiming
    clears exactly its pending bit, and the other privilege level's file is untouched. *)
Theorem aia_claim_sound vm files smode claim :
  vm.(aia) = Some files -> (forall r, urange 32 ((files smode).(eip) r)) ->
  Z.testbit ((files smode).(eip) 0) 0 = false ->
  let '(vm', r) := riscv_get_aia_irq vm smode claim in
  r <> 0 -> exists files', vm'.(aia) = Some files' /\
    files' (negb smode) = files (negb smode) /\
    aia_claimed (files smode) (files' smode) claim (u32 ((files smode).(eithreshold) - 1)) r.
Proof.
  intros Ha Hr H0. unfold riscv_get_aia_irq, riscv_update_aia_internal. rewrite Ha. cbn zeta.
  destruct (nz (eidelivery _)); [|by intros []].
  apply (aia_scan_spec _ (riscv_interrupt_clear vm (aia_msip smode))); done.
Qed.

(** An M-mode file with interrupts 1 and 2 pending and enabled. *)
Lemma aia_claim_sound_witness :
  let a := mk_aia 1 0 (<[0 := 6]> (fun _ => 0)) (<[0 := 6]> (fun _ => 0)) in
  let vm := set_aia (Some (fun _ => a)) demo_hart in
  exists files', (fst (riscv_get_aia_irq vm false true)).(aia) = Some files' /\
    aia_claimed a (files' false) true (u32 (-1)) 2.
Proof.
  intros a vm.
  assert (forall r, urange 32 (a.(eip) r)) as Hr
    by (intros r; unfold a; cbn; rewrite fupd_dec; by case_bool).
  pose proof (aia_claim_sound vm (fun _ => a) false true eq_refl Hr eq_refl) as H.
  assert (snd (riscv_get_aia_irq vm false true) = 2) as E by (vm_compute; reflexivity).
  destruct (riscv_get_aia_irq vm false true) as [vm' r]. cbn in E. subst r.
  destruct H as (files' & E1 & _ & E2); [done|]. exists files'. auto.
Defined.

(** AIA scan against the AIA rules.  With interrupts 1 and 2 pending and enabled and no
    threshold the code reports 2, although the lower identity has the higher priority; with
    threshold 2 interrupt 1, which is below it, is not reported; and an interrupt sent below
    its threshold 2 does not raise the line. *)
Theorem aia_threshold_priority :
  let a th := mk_aia 1 th (<[0 := 6]> (fun _ => 0)) (<[0 := 6]> (fun _ => 0)) in
  let a1 := mk_aia 1 2 (fun _ => 0) (<[0 := 2]> (fun _ => 0)) in
  let put a := set_aia (Some (fun _ => a)) demo_hart in
  snd (riscv_get_aia_irq (put (a 0)) false false) = 2 /\
  snd (riscv_get_aia_irq (put (a 2)) false false) = 0 /\
  (riscv_send_aia_irq (put a1) false 1).(pending_irqs) = 0.
Proof. repeat split; vm_compute; reflexivity. Qed.
