(* ===== verification/Machine.v ===== *)
(** * The machine (src/core/rvvm.c)

    Guest memory access of devices, placement and attachment of devices, the power state and
    the event loop.  The theorems: the placement loop ends and returns the lowest free place,
    attached devices never overlap each other or RAM, so that an address belongs to at most one
    of them; every operation of the machine interface returns with the global lock free and
    keeps the running machines, their threads and the list of machines consistent, except that
    a device attached to a running machine makes the caller wait for itself. *)

From S2P Require Import Prelude BitOps MemOps State CsrDefs Tlb Hart.

(** ** Guest memory *)

(** The conditions are on 64-bit sums. *)
Definition ram_access_ok (m : ram) (addr size : Z) : bool :=
  (m.(ram_addr) <=? addr) && (u64 (addr + size) <=? u64 (m.(ram_addr) + m.(ram_size))).

(** Without a just-in-time compiler there is no dirty memory to mark. *)
Definition rvvm_write_ram (m : ram) (h : memory) (dest : Z) (src : list Z) : memory * bool :=
  if ram_access_ok m dest (Z.of_nat (length src)) then (put_bytes h (m.(ram_data) + (dest - m.(ram_addr))) src, true)
  else (h, false).

Definition rvvm_read_ram (m : ram) (h : memory) (src size : Z) : option (list Z) :=
  if ram_access_ok m src size then Some (get_bytes (Z.to_nat size) h (m.(ram_data) + (src - m.(ram_addr)))) else None.

Definition rvvm_get_dma_ptr (m : ram) (addr size : Z) : option Z :=
  if ram_access_ok m addr size then Some (m.(ram_data) + (addr - m.(ram_addr))) else None.

(** ** Placement of devices *)

Definition rvvm_mmio_overlap_check (addr1 size1 addr2 size2 : Z) : bool :=
  (addr1 <? u64 (addr2 + size2)) && (addr2 <? u64 (addr1 + size1)).

(** The end of a region, rounded up to a page. *)
Definition next_page (addr size : Z) : Z := u64 (addr + size + 0xFFF) .& not64 0xFFF.

Fixpoint find_overlap (devs : list (nat * mmio_dev)) (addr size : Z) : option mmio_dev :=
  match devs with
  | [] => None
  | (_, dev) :: devs => if rvvm_mmio_overlap_check addr size dev.(dev_addr) dev.(dev_size) then Some dev else find_overlap devs addr size
  end.

(** [None]: out of fuel. *)
Fixpoint zone_loop (fuel : nat) (m : ram) (devs : list (nat * mmio_dev)) (addr size : Z) : option Z :=
  match fuel with
  | O => None
  | S fuel =>
      if rvvm_mmio_overlap_check addr size m.(ram_addr) m.(ram_size)
      then zone_loop fuel m devs (next_page m.(ram_addr) m.(ram_size)) size
      else match find_overlap devs addr size with
           | Some dev => zone_loop fuel m devs (next_page dev.(dev_addr) dev.(dev_size)) size
           | None => Some addr
           end
  end.

Definition rvvm_mmio_zone_auto (fuel : nat) (m : ram) (devs : list (nat * mmio_dev)) (addr size : Z) : option Z :=
  if nz size then zone_loop fuel m devs addr size else Some addr.

(** *** Specification of the placement *)

(** Non-empty intervals without wrap-around meet. *)
Definition overlaps (a s b t : Z) : Prop := a < b + t /\ b < a + s.

(** The regions that are taken. *)
Definition regions (m : ram) (devs : list (nat * mmio_dev)) : list (Z * Z) :=
  (m.(ram_addr), m.(ram_size)) :: map (fun d => (d.2.(dev_addr), d.2.(dev_size))) devs.

Definition is_free (rs : list (Z * Z)) (a s : Z) : Prop := Forall (fun r => ~ overlaps a s r.1 r.2) rs.

(** Regions end below the last page of the address space. *)
Definition region_ok (r : Z * Z) : Prop := 0 <= r.1 /\ 0 <= r.2 /\ r.1 + r.2 <= 2 ^ 64 - 0x1000.

Lemma u64_small x : 0 <= x < 2 ^ 64 -> u64 x = x.
Proof. intros H. unfold u64. apply wrap_small. exact H. Qed.

Lemma overlap_check_spec a s b t : 0 <= a -> 0 <= s -> a + s < 2 ^ 64 -> region_ok (b, t) ->
  rvvm_mmio_overlap_check a s b t = true <-> overlaps a s b t.
Proof.
  intros Ha Hs Hw (Hb & Ht & Hbt). simpl in *. unfold rvvm_mmio_overlap_check, overlaps.
  rewrite !u64_small by lia. rewrite andb_true_iff, !Z.ltb_lt. reflexivity.
Qed.

(** Rounding up is to the least page boundary at or above the end. *)
Lemma next_page_spec b t : region_ok (b, t) ->
  next_page b t mod 0x1000 = 0 /\ b + t <= next_page b t < b + t + 0x1000.
Proof.
  intros (Hb & Ht & Hbt). simpl in *. unfold next_page. rewrite u64_small by lia.
  change (not64 0xFFF) with (Z.ldiff (2 ^ 64 - 1) (Z.ones 12)).
  rewrite Z.ldiff_land, Z.land_assoc. change (2 ^ 64 - 1) with (Z.ones 64). rewrite Z.land_ones, (Z.mod_small _ (2 ^ 64)) by lia.
  rewrite <- Z.ldiff_land, Z.ldiff_ones_r by lia. rewrite Z.shiftl_mul_pow2, Z.shiftr_div_pow2 by lia.
  change (2 ^ 12) with 4096. dlia.
Qed.

(** The regions that a region at [addr] has still to be moved over. *)
Definition ahead (rs : list (Z * Z)) (addr : Z) : nat := length (filter (fun r => addr < r.1 + r.2) rs).

Lemma ahead_move rs a a' r : r ∈ rs -> a < r.1 + r.2 -> r.1 + r.2 <= a' -> (ahead rs a' < ahead rs a)%nat.
Proof.
  unfold ahead. intros Hin Ha Ha'. assert (a <= a') as Hle by lia. clear -Hin Ha Ha' Hle.
  induction rs as [|x rs IH]; [inversion Hin|]. rewrite !filter_cons.
  assert (Hmono : (length (filter (fun r => (a' < r.1 + r.2)%Z) rs) <= length (filter (fun r => (a < r.1 + r.2)%Z) rs))%nat).
  { clear -Hle. induction rs as [|y rs IH]; [reflexivity|]. rewrite !filter_cons.
    destruct (decide (a' < y.1 + y.2)), (decide (a < y.1 + y.2)); simpl; lia. }
  apply elem_of_cons in Hin as [<-|Hin].
  - rewrite decide_False, decide_True by lia. simpl. lia.
  - specialize (IH Hin). destruct (decide (a' < x.1 + x.2)), (decide (a < x.1 + x.2)); simpl; lia.
Qed.

(** The lowest free place: the one asked for, or the first page that is free. *)
Definition placed (rs : list (Z * Z)) (addr size a : Z) : Prop :=
  addr <= a /\ (a = addr \/ a mod 0x1000 = 0) /\ is_free rs a size /\
  forall b, addr <= b < a -> b = addr \/ b mod 0x1000 = 0 -> ~ is_free rs b size.

Lemma placed_move rs addr size r a : r ∈ rs -> overlaps addr size r.1 r.2 -> region_ok r ->
  placed rs (next_page r.1 r.2) size a -> placed rs addr size a.
Proof.
  intros Hin [H1 H2] Hok (Hle & Hal & Hf & Hlow). destruct r as [b t]. simpl in *.
  destruct (next_page_spec b t Hok) as [Hmod Hn].
  split_and!; [lia| |exact Hf|].
  - right. destruct Hal as [->|]; auto.
  - intros c Hc Hca Hfree. destruct (Z.lt_ge_cases c (b + t)) as [Hlt|Hge].
    + unfold is_free in Hfree. rewrite Forall_forall in Hfree. apply (Hfree (b, t)); [apply list_elem_of_In; exact Hin|]. split; simpl; lia.
    + assert (next_page b t <= c).
      { destruct Hca as [->|Hca]; [lia|]. dlia. }
      apply (Hlow c); auto; [lia|]. right. destruct Hca as [->|]; [lia|auto].
Qed.

Lemma find_overlap_spec devs a s : 0 <= a -> 0 <= s -> a + s < 2 ^ 64 ->
  Forall region_ok (map (fun d : nat * mmio_dev => (d.2.(dev_addr), d.2.(dev_size))) devs) ->
  match find_overlap devs a s with
  | Some dev => (dev.(dev_addr), dev.(dev_size)) ∈ map (fun d : nat * mmio_dev => (d.2.(dev_addr), d.2.(dev_size))) devs /\
      overlaps a s dev.(dev_addr) dev.(dev_size)
  | None => is_free (map (fun d : nat * mmio_dev => (d.2.(dev_addr), d.2.(dev_size))) devs) a s
  end.
Proof.
  intros Ha Hs Hw. induction devs as [|[i d] devs IH]; intros Hok; [constructor|].
  simpl in Hok. apply Forall_cons_1 in Hok as [Hd Hok]. simpl.
  pose proof (overlap_check_spec a s _ _ Ha Hs Hw Hd) as Hspec.
  destruct (rvvm_mmio_overlap_check a s d.(dev_addr) d.(dev_size)) eqn:E.
  - split; [left|apply Hspec; reflexivity].
  - specialize (IH Hok). destruct (find_overlap devs a s) as [x|].
    + destruct IH as [H1 H2]. split; [right; exact H1|exact H2].
    + constructor; [|exact IH]. simpl. intros Ho. apply Hspec in Ho. discriminate.
Qed.

Section placement.
Context (m : ram) (devs : list (nat * mmio_dev)) (size : Z).
Hypothesis Hsize : 0 < size.

(** Every region leaves room for the new one above it. *)
Hypothesis Hroom : Forall (fun r => 0 <= r.1 /\ 0 <= r.2 /\ r.1 + r.2 + size <= 2 ^ 64 - 0x1000) (regions m devs).

Lemma room_regions_ok : Forall region_ok (regions m devs).
Proof. refine (Forall_impl _ _ Hroom). intros r Hr. unfold region_ok. lia. Qed.

Lemma zone_loop_spec fuel : forall addr, 0 <= addr -> addr + size < 2 ^ 64 -> (ahead (regions m devs) addr < fuel)%nat ->
  exists a, zone_loop fuel m devs addr size = Some a /\ placed (regions m devs) addr size a.
Proof.
  assert (Hmove : forall r fuel addr, r ∈ regions m devs -> overlaps addr size r.1 r.2 -> 0 <= addr -> (ahead (regions m devs) addr < S fuel)%nat ->
            0 <= next_page r.1 r.2 /\ next_page r.1 r.2 + size < 2 ^ 64 /\ (ahead (regions m devs) (next_page r.1 r.2) < fuel)%nat /\ region_ok r).
  { intros r f addr Hin [Ho1 Ho2] Ha Hf. pose proof Hroom as Hr. rewrite Forall_forall in Hr. apply list_elem_of_In in Hin as Hin'.
    specialize (Hr r Hin'). pose proof room_regions_ok as Hk. rewrite Forall_forall in Hk. specialize (Hk r Hin').
    pose proof (next_page_spec r.1 r.2 Hk) as [_ Hn]. split_and!; auto; try lia.
    pose proof (ahead_move (regions m devs) addr (next_page r.1 r.2) r Hin). lia. }
  induction fuel as [|fuel IH]; intros addr Ha Hw Hf; [lia|]. simpl.
  pose proof room_regions_ok as Hok. unfold regions in Hok. apply Forall_cons_1 in Hok as [Hm Hok].
  pose proof (overlap_check_spec addr size _ _ Ha ltac:(lia) Hw Hm) as Hspec.
  destruct (rvvm_mmio_overlap_check addr size m.(ram_addr) m.(ram_size)) eqn:E.
  - assert (Hin : (m.(ram_addr), m.(ram_size)) ∈ regions m devs) by left.
    destruct (Hmove _ fuel addr Hin (proj1 Hspec eq_refl) Ha Hf) as (H1 & H2 & H3 & H4).
    destruct (IH _ H1 H2 H3) as (a & Hz & Hp). exists a. split; [exact Hz|]. eapply placed_move; eauto. apply Hspec. reflexivity.
  - pose proof (find_overlap_spec devs addr size Ha ltac:(lia) Hw Hok) as Hfo. destruct (find_overlap devs addr size) as [d|].
    + destruct Hfo as [Hin' Ho]. assert (Hin : (d.(dev_addr), d.(dev_size)) ∈ regions m devs) by (right; exact Hin').
      destruct (Hmove _ fuel addr Hin Ho Ha Hf) as (H1 & H2 & H3 & H4).
      destruct (IH _ H1 H2 H3) as (a & Hz & Hp). exists a. split; [exact Hz|]. eapply placed_move; eauto.
    + exists addr. split; [reflexivity|]. split_and!; [lia|auto| |intros; lia].
      constructor; [|exact Hfo]. simpl. intros Ho. apply Hspec in Ho. discriminate.
Qed.
End placement.

Lemma ahead_le rs a : (ahead rs a <= length rs)%nat.
Proof. unfold ahead. apply length_filter. Qed.

(** The placement loop ends within one iteration per region and returns the lowest free place
    at or above the one asked for: that place itself, or the first free page. *)
Theorem rvvm_mmio_zone_auto_spec m devs addr size : 0 < size -> 0 <= addr -> addr + size < 2 ^ 64 ->
  Forall (fun r => 0 <= r.1 /\ 0 <= r.2 /\ r.1 + r.2 + size <= 2 ^ 64 - 0x1000) (regions m devs) ->
  exists a, rvvm_mmio_zone_auto (2 + length devs) m devs addr size = Some a /\ placed (regions m devs) addr size a.
Proof.
  intros Hs Ha Hw Hr. unfold rvvm_mmio_zone_auto, nz. destruct (Z.eqb_spec size 0); [lia|]. cbn [negb].
  apply zone_loop_spec; auto. pose proof (ahead_le (regions m devs) addr) as H. unfold regions at 2 in H. simpl in H.
  rewrite length_map in H. lia.
Qed.

Definition demo_ram : ram := mk_ram 0x80000000 0x10000 0x100000.
Definition demo_region (a s : Z) : mmio_dev := mk_mmio_dev a s 0 None None 1 8.
Definition demo_devs : list (nat * mmio_dev) := [(0%nat, demo_region 0x10000000 0x100); (1%nat, demo_region 0x10001000 0x4000)].

(** The place of the first device is asked for: the two devices take the space up to 0x10005000. *)
Lemma rvvm_mmio_zone_auto_spec_witness : rvvm_mmio_zone_auto 4 demo_ram demo_devs 0x10000080 0x1000 = Some 0x10005000 /\
  placed (regions demo_ram demo_devs) 0x10000080 0x1000 0x10005000.
Proof.
  destruct (rvvm_mmio_zone_auto_spec demo_ram demo_devs 0x10000080 0x1000) as (a & Hz & Hp); try lia.
  - repeat constructor; simpl; lia.
  - assert (E : rvvm_mmio_zone_auto (2 + length demo_devs) demo_ram demo_devs 0x10000080 0x1000 = Some 0x10005000) by (vm_compute; reflexivity).
    split; [exact E|]. rewrite E in Hz. injection Hz as <-. exact Hp.
Defined.

(** *** Guest memory *)

(** What the bounds check lets through: the accesses inside of RAM, and those above its start
    that wrap around the end of the address space. *)
Lemma ram_access_exact m addr size : 0 <= addr < 2 ^ 64 -> 0 <= size < 2 ^ 64 ->
  0 <= m.(ram_addr) -> 0 <= m.(ram_size) -> m.(ram_addr) + m.(ram_size) < 2 ^ 64 ->
  ram_access_ok m addr size = true <->
  m.(ram_addr) <= addr /\ (addr + size <= m.(ram_addr) + m.(ram_size) \/ 2 ^ 64 <= addr + size <= 2 ^ 64 + m.(ram_addr) + m.(ram_size)).
Proof.
  intros Ha Hs Hm Hz Hr. unfold ram_access_ok. rewrite andb_true_iff, !Z.leb_le, (u64_small (m.(ram_addr) + _)) by lia.
  unfold u64, wrap. destruct (Z.lt_ge_cases (addr + size) (2 ^ 64)).
  - rewrite Z.mod_small by lia. lia.
  - replace (addr + size) with (addr + size - 2 ^ 64 + 1 * 2 ^ 64) by lia. rewrite Z.mod_add, Z.mod_small by lia. lia.
Qed.

(** A write of a device that does not wrap around the address space succeeds exactly when it
    is inside of RAM; it is then read back, changes nothing else, and the pointer for direct
    access is to the same bytes.  The check itself also lets through accesses whose end wraps
    around: the last page of the address space gets a pointer outside of RAM. *)
Theorem rvvm_ram_access m h addr l : 0 <= addr -> addr + Z.of_nat (length l) < 2 ^ 64 ->
  0 <= m.(ram_addr) -> 0 <= m.(ram_size) -> m.(ram_addr) + m.(ram_size) < 2 ^ 64 ->
  let inside := m.(ram_addr) <= addr /\ addr + Z.of_nat (length l) <= m.(ram_addr) + m.(ram_size) in
  (inside -> exists h' p, rvvm_write_ram m h addr l = (h', true) /\ rvvm_read_ram m h' addr (Z.of_nat (length l)) = Some l /\
    rvvm_get_dma_ptr m addr (Z.of_nat (length l)) = Some p /\ get_bytes (length l) h' p = l /\
    m.(ram_data) <= p /\ p + Z.of_nat (length l) <= m.(ram_data) + m.(ram_size) /\
    forall q, ~ (p <= q < p + Z.of_nat (length l)) -> h' q = h q) /\
  (~ inside -> rvvm_write_ram m h addr l = (h, false) /\ rvvm_read_ram m h addr (Z.of_nat (length l)) = None /\
    rvvm_get_dma_ptr m addr (Z.of_nat (length l)) = None) /\
  (m.(ram_addr) + m.(ram_size) <= 2 ^ 64 - 0x1000 -> 
    rvvm_get_dma_ptr m (2 ^ 64 - 0x1000) 0x1000 = Some (m.(ram_data) + (2 ^ 64 - 0x1000 - m.(ram_addr)))).
Proof.
  intros Ha Hw Hm Hz Hr inside.
  pose proof (ram_access_exact m addr (Z.of_nat (length l)) ltac:(lia) ltac:(lia) Hm Hz Hr) as Hex.
  split_and!.
  - intros [H1 H2]. assert (E : ram_access_ok m addr (Z.of_nat (length l)) = true) by (apply Hex; lia).
    exists (put_bytes h (m.(ram_data) + (addr - m.(ram_addr))) l), (m.(ram_data) + (addr - m.(ram_addr))).
    unfold rvvm_write_ram, rvvm_read_ram, rvvm_get_dma_ptr. rewrite E, Nat2Z.id, get_put_same. split_and!; auto; try lia.
    intros q Hq. apply put_bytes_outside. lia.
  - intros Hn. assert (E : ram_access_ok m addr (Z.of_nat (length l)) = false).
    { apply not_true_is_false. rewrite Hex. unfold inside in Hn. lia. }
    unfold rvvm_write_ram, rvvm_read_ram, rvvm_get_dma_ptr. rewrite E. auto.
  - intros Hl. unfold rvvm_get_dma_ptr.
    assert (E : ram_access_ok m (2 ^ 64 - 0x1000) 0x1000 = true) by (apply ram_access_exact; lia).
    rewrite E. reflexivity.
Qed.

Lemma rvvm_ram_access_witness :
  rvvm_read_ram demo_ram (fst (rvvm_write_ram demo_ram (fun _ => 0) 0x8000FFFC [1; 2; 3; 4])) 0x8000FFFC 4 = Some [1; 2; 3; 4] /\
  rvvm_write_ram demo_ram (fun _ => 0) 0x8000FFFD [1; 2; 3; 4] = ((fun _ => 0), false) /\
  rvvm_get_dma_ptr demo_ram 0xFFFFFFFFFFFFF000 0x1000 = Some (0x100000 + 0xFFFFFFFF7FFFF000).
Proof.
  split_and!.
  - destruct (rvvm_ram_access demo_ram (fun _ => 0) 0x8000FFFC [1; 2; 3; 4]) as [H _]; try (simpl; lia).
    destruct H as (h' & p & E & Hr & _); [simpl; lia|]. rewrite E. exact Hr.
  - apply (rvvm_ram_access demo_ram (fun _ => 0) 0x8000FFFD [1; 2; 3; 4]); simpl; lia.
  - apply (rvvm_ram_access demo_ram (fun _ => 0) 0 []); simpl; lia.
Defined.

(** ** Attachment *)

(** The description with normalized access sizes, which are bytes; [None] when they are invalid. *)
Definition normalize_ops (d : mmio_dev) : option mmio_dev :=
  let min := if nz d.(dev_min_op_size) then u8 (bit_next_pow2 d.(dev_min_op_size)) else 1 in
  let max := if nz d.(dev_max_op_size) then u8 (bit_next_pow2 d.(dev_max_op_size)) else 8 in
  if (max <? min) || (8 <? min) then None
  else Some (mk_mmio_dev d.(dev_addr) d.(dev_size) d.(dev_mapping) d.(dev_read) d.(dev_write) min max).

(** Devices never overlap RAM or each other; their access sizes are powers of two in order. *)
Definition pow2_size (n : Z) : Prop := exists k, 0 <= k <= 7 /\ n = 2 ^ k.
Definition ops_ok (d : mmio_dev) : Prop :=
  pow2_size d.(dev_min_op_size) /\ pow2_size d.(dev_max_op_size) /\ d.(dev_min_op_size) <= d.(dev_max_op_size) /\ d.(dev_min_op_size) <= 8.

Lemma next_pow2_byte n : 0 < n < 256 -> pow2_size (u8 (bit_next_pow2 n)).
Proof.
  intros Hn. assert (H : forallb (fun n => existsb (fun k => u8 (bit_next_pow2 n) =? 2 ^ k) [0; 1; 2; 3; 4; 5; 6; 7])
                           (map Z.of_nat (seq 1 255)) = true) by (vm_compute; reflexivity).
  rewrite forallb_forall in H. specialize (H n). rewrite existsb_exists in H. destruct H as (k & Hk & E).
  - apply in_map_iff. exists (Z.to_nat n). split; [lia|]. apply in_seq. lia.
  - exists k. apply Z.eqb_eq in E. split; [|exact E]. simpl in Hk. lia.
Qed.

Lemma normalize_ops_ok d d' : 0 <= d.(dev_min_op_size) < 256 -> 0 <= d.(dev_max_op_size) < 256 -> normalize_ops d = Some d' ->
  ops_ok d' /\ d'.(dev_addr) = d.(dev_addr) /\ d'.(dev_size) = d.(dev_size).
Proof.
  intros Hmin Hmax. unfold normalize_ops. cbn zeta.
  set (a := if nz (dev_min_op_size d) then _ else _). set (b := if nz (dev_max_op_size d) then _ else _).
  assert (Ha : pow2_size a).
  { unfold a, nz. destruct (Z.eqb_spec (dev_min_op_size d) 0); cbn [negb]; [exists 0; split; [lia|reflexivity]|apply next_pow2_byte; lia]. }
  assert (Hb : pow2_size b).
  { unfold b, nz. destruct (Z.eqb_spec (dev_max_op_size d) 0); cbn [negb]; [exists 3; split; [lia|reflexivity]|apply next_pow2_byte; lia]. }
  destruct (Z.ltb_spec b a); [discriminate|]. destruct (Z.ltb_spec 8 a); [discriminate|]. intros [= <-]. split; [|auto].
  split_and!; auto.
Qed.

(** ** Machines, threads and the global lock *)

Definition RVVM_POWER_OFF : Z := 0.
Definition RVVM_POWER_ON : Z := 1.
Definition RVVM_POWER_RESET : Z := 2.
Definition RVVM_OPTS_ARR_SIZE : Z := 9.
Definition RVVM_OPT_RESET_PC : Z := 1.
Definition RVVM_OPT_MAX_CPU_CENT : Z := 5.
Definition RVVM_OPT_MEM_BASE : Z := 0x80000001.
Definition RVVM_OPT_MEM_SIZE : Z := 0x80000002.
Definition RVVM_OPT_CPU_COUNT : Z := 0x80000003.

(** The part of [rvvm_machine_t] that this file is about.  A hart comes with whether it has a
    thread ([vm->thread]); a device comes with its allocation, which identifies it. *)
Record vmm := mk_vmm {
  v_mem : ram;
  v_harts : list (hart * bool);
  v_devs : list (nat * mmio_dev);
  v_opts : Z -> Z;
  v_power : Z;
  v_running : bool
}.

Definition set_v_mem (x : ram) (m : vmm) : vmm := mk_vmm x m.(v_harts) m.(v_devs) m.(v_opts) m.(v_power) m.(v_running).
Definition set_v_harts (x : list (hart * bool)) (m : vmm) : vmm := mk_vmm m.(v_mem) x m.(v_devs) m.(v_opts) m.(v_power) m.(v_running).
Definition set_v_devs (x : list (nat * mmio_dev)) (m : vmm) : vmm := mk_vmm m.(v_mem) m.(v_harts) x m.(v_opts) m.(v_power) m.(v_running).
Definition set_v_opts (x : Z -> Z) (m : vmm) : vmm := mk_vmm m.(v_mem) m.(v_harts) m.(v_devs) x m.(v_power) m.(v_running).
Definition set_v_power (x : Z) (m : vmm) : vmm := mk_vmm m.(v_mem) m.(v_harts) m.(v_devs) m.(v_opts) x m.(v_running).
Definition set_v_running (x : bool) (m : vmm) : vmm := mk_vmm m.(v_mem) m.(v_harts) m.(v_devs) m.(v_opts) m.(v_power) x.

(** What is called from here and belongs to others: the callbacks of devices, loading of the
    images and the device tree at reset, and what the thread of a hart does until it is joined. *)
Class Platform := {
  dev_reset : mmio_dev -> vmm -> vmm;
  dev_update : mmio_dev -> vmm -> vmm;
  load_images : vmm -> vmm;
  pass_fdt : vmm -> vmm * Z;
  hart_thread : hart -> hart
}.

(** The state of the library.  [w_thread] is the handle of the event loop thread: none, of a
    thread that runs, or of one that has returned. *)
Record world := mk_world {
  w_lock : bool;
  w_machines : list nat;
  w_manual : bool;
  w_cond : bool;
  w_thread : option bool;
  w_store : list vmm;
  w_next : nat
}.

Definition set_w_lock (x : bool) (w : world) : world := mk_world x w.(w_machines) w.(w_manual) w.(w_cond) w.(w_thread) w.(w_store) w.(w_next).
Definition set_w_machines (x : list nat) (w : world) : world := mk_world w.(w_lock) x w.(w_manual) w.(w_cond) w.(w_thread) w.(w_store) w.(w_next).
Definition set_w_manual (x : bool) (w : world) : world := mk_world w.(w_lock) w.(w_machines) x w.(w_cond) w.(w_thread) w.(w_store) w.(w_next).
Definition set_w_cond (x : bool) (w : world) : world := mk_world w.(w_lock) w.(w_machines) w.(w_manual) x w.(w_thread) w.(w_store) w.(w_next).
Definition set_w_thread (x : option bool) (w : world) : world := mk_world w.(w_lock) w.(w_machines) w.(w_manual) w.(w_cond) x w.(w_store) w.(w_next).
Definition set_w_store (x : list vmm) (w : world) : world := mk_world w.(w_lock) w.(w_machines) w.(w_manual) w.(w_cond) w.(w_thread) x w.(w_next).
Definition set_w_next (x : nat) (w : world) : world := mk_world w.(w_lock) w.(w_machines) w.(w_manual) w.(w_cond) w.(w_thread) w.(w_store) x.

(** Calls of one thread; [None] is a call that never returns. *)
Definition call (A : Type) : Type := world -> option (world * A).
Definition cret {A} (x : A) : call A := fun w => Some (w, x).
Definition cbind {A B} (c : call A) (k : A -> call B) : call B := fun w => match c w with Some (w', x) => k x w' | None => None end.
Declare Scope call_scope.
Delimit Scope call_scope with call.
Notation "'let!' x := c 'in' k" := (cbind c (fun x => k)) (at level 10, x pattern, c at level 100, k at level 200) : call_scope.
Notation "c ;; k" := (cbind c (fun _ => k)) (at level 100, k at level 200, right associativity) : call_scope.
Local Open Scope call_scope.

Definition modify (f : world -> world) : call () := fun w => Some (f w, ()).
Definition get_machine (h : nat) : call vmm := fun w => match w.(w_store) !! h with Some m => Some (w, m) | None => None end.
Definition upd_machine (h : nat) (f : vmm -> vmm) : call () := modify (fun w => set_w_store (alter f h w.(w_store)) w).

(** The global lock is not recursive: who has it and asks for it waits forever. *)
Definition spin_lock_global : call () := fun w => if w.(w_lock) then None else Some (set_w_lock true w, ()).
Definition spin_unlock_global : call () := modify (set_w_lock false).

Definition not_empty {A} (l : list A) : bool := match l with [] => false | _ => true end.

(** The event loop thread returns at its next tick when it is not needed, so joining it ends. *)
Definition rvvm_reconfigure_eventloop : call () :=
  spin_lock_global ;;
  let! w := (fun w => Some (w, w)) in
  let needs_cond := w.(w_manual) || not_empty w.(w_machines) in
  let needs_thread := negb w.(w_manual) && not_empty w.(w_machines) in
  spin_unlock_global ;;
  modify (fun w =>
    let w := if negb needs_thread && match w.(w_thread) with Some _ => true | None => false end then set_w_thread None w else w in
    let w := if negb needs_cond && w.(w_cond) then set_w_cond false w else w in
    let w := if needs_cond && negb w.(w_cond) then set_w_cond true w else w in
    if needs_thread && match w.(w_thread) with Some _ => false | None => true end then set_w_thread (Some true) w else w).

Definition rvvm_set_manual_eventloop (manual : bool) : call () :=
  spin_lock_global ;; modify (set_w_manual manual) ;; spin_unlock_global ;; rvvm_reconfigure_eventloop.

(** The last occurrence is erased. *)
Fixpoint erase_machine (h : nat) (l : list nat) : list nat :=
  match l with
  | [] => []
  | x :: l' => if bool_decide (h ∈ l') then x :: erase_machine h l' else if bool_decide (x = h) then l' else x :: l'
  end.

Section operations.
Context `{Platform}.

Definition riscv_hart_spawn (x : hart * bool) : hart * bool :=
  if x.2 then x else (set_pending_events 0 x.1, true).

Definition riscv_hart_pause (x : hart * bool) : hart * bool :=
  let vm := riscv_hart_queue_pause x.1 in
  ((if x.2 then hart_thread vm else vm), false).

(** One hart at reset; its index is its identity. *)
Definition reset_hart (i : nat) (fdt_addr reset_pc : Z) (vm : hart) : hart :=
  let vm := set_machine_timer 0 vm in
  let vm := set_status 0 vm in
  let vm := set_cause_at RISCV_PRIV_MACHINE 0 vm in
  let vm := set_lrsc false vm in
  let vm := upd_csr (set_csr_hartid (Z.of_nat i)) vm in
  let vm := set_registers (<[10 := Z.of_nat i]> vm.(registers)) vm in
  let vm := set_registers (<[11 := fdt_addr]> vm.(registers)) vm in
  let vm := set_registers (<[RISCV_REG_PC := reset_pc]> vm.(registers)) vm in
  riscv_switch_priv vm RISCV_PRIV_MACHINE.

Definition rvvm_get_opt (m : vmm) (opt : Z) : Z :=
  if opt <? RVVM_OPTS_ARR_SIZE then m.(v_opts) opt
  else if opt =? RVVM_OPT_MEM_BASE then m.(v_mem).(ram_addr)
  else if opt =? RVVM_OPT_MEM_SIZE then m.(v_mem).(ram_size)
  else if opt =? RVVM_OPT_CPU_COUNT then Z.of_nat (length m.(v_harts))
  else 0.

Definition rvvm_set_opt (m : vmm) (opt val : Z) : vmm * bool :=
  if opt <? RVVM_OPTS_ARR_SIZE then (set_v_opts (<[opt := val]> m.(v_opts)) m, true)
  else if opt =? RVVM_OPT_MEM_BASE then (set_v_mem (mk_ram val m.(v_mem).(ram_size) m.(v_mem).(ram_data)) m, true)
  else (m, false).

Definition rvvm_reset_machine_state (m : vmm) : vmm :=
  let m := foldl (fun m d => dev_reset d.2 m) m m.(v_devs) in
  let m := load_images m in
  let '(m, fdt_addr) := pass_fdt m in
  let m := set_v_harts (imap (fun i x => (reset_hart i fdt_addr (rvvm_get_opt m RVVM_OPT_RESET_PC) x.1, x.2)) m.(v_harts)) m in
  set_v_power RVVM_POWER_ON m.

Definition rvvm_machine_powered (m : vmm) : bool := negb (m.(v_power) =? RVVM_POWER_OFF).

Definition rvvm_start_machine (h : nat) : call bool :=
  let! m := get_machine h in
  upd_machine h (set_v_running true) ;;
  if m.(v_running) then cret false
  else
    spin_lock_global ;;
    (if negb (rvvm_machine_powered m) then upd_machine h rvvm_reset_machine_state else cret ()) ;;
    upd_machine h (fun m => set_v_harts (map riscv_hart_spawn m.(v_harts)) m) ;;
    modify (fun w => set_w_machines (w.(w_machines) ++ [h]) w) ;;
    spin_unlock_global ;;
    rvvm_reconfigure_eventloop ;;
    cret true.

Definition rvvm_pause_machine (h : nat) : call bool :=
  let! m := get_machine h in
  upd_machine h (set_v_running false) ;;
  if m.(v_running) then
    spin_lock_global ;;
    upd_machine h (fun m => set_v_harts (map riscv_hart_pause m.(v_harts)) m) ;;
    modify (fun w => set_w_machines (erase_machine h w.(w_machines)) w) ;;
    spin_unlock_global ;;
    rvvm_reconfigure_eventloop ;;
    cret true
  else cret false.

(** Waking the event loop only makes its next tick earlier. *)
Definition rvvm_reset_machine (h : nat) (reset : bool) : call () :=
  upd_machine h (set_v_power (if reset then RVVM_POWER_RESET else RVVM_POWER_OFF)).

(** [CPU] time limit in percent, as milliseconds out of ten that the hart sleeps. *)
Definition tick_hart (m : vmm) (x : hart * bool) : hart * bool :=
  let vm := riscv_hart_check_timer x.1 in
  let cent := rvvm_get_opt m RVVM_OPT_MAX_CPU_CENT in
  let vm := if cent <? 100 then riscv_hart_preempt vm (u32 (10 - u64 (10 * cent + 9) / 100)) else vm in
  (vm, x.2).

(** One machine in [rvvm_eventloop_tick]; the result tells that it is to be erased. *)
Definition tick_machine (m : vmm) : vmm * bool :=
  if m.(v_power) =? RVVM_POWER_ON then
    let m := set_v_harts (map (tick_hart m) m.(v_harts)) m in
    (foldl (fun m d => dev_update d.2 m) m m.(v_devs), false)
  else
    let power := m.(v_power) in
    let m := set_v_harts (map riscv_hart_pause m.(v_harts)) m in
    if power =? RVVM_POWER_RESET then
      let m := rvvm_reset_machine_state m in
      (set_v_harts (map riscv_hart_spawn m.(v_harts)) m, false)
    else (set_v_running false m, true).

(** The machines from the last one to the first; [n] are left. *)
Fixpoint tick_machines (n : nat) (manual ret : bool) : call bool :=
  match n with
  | O => cret ret
  | S n =>
      let! w := (fun w => Some (w, w)) in
      match w.(w_machines) !! n with
      | None => cret ret
      | Some h =>
          let! m := get_machine h in
          let '(m', off) := tick_machine m in
          upd_machine h (fun _ => m') ;;
          if off then modify (fun w => set_w_machines (delete n w.(w_machines)) w) ;; tick_machines n manual (ret || manual)
          else tick_machines n manual ret
      end
  end.

Definition rvvm_eventloop_tick (manual : bool) : call bool :=
  let! w := (fun w => Some (w, w)) in
  if negb (not_empty w.(w_machines)) || eqb w.(w_manual) (negb manual) then cret true
  else tick_machines (length w.(w_machines)) manual false.

(** One round of [rvvm_eventloop], and of the thread that runs it. *)
Definition rvvm_eventloop_round (manual : bool) : call bool :=
  spin_lock_global ;; let! ret := rvvm_eventloop_tick manual in spin_unlock_global ;; cret (negb ret).

Definition eventloop_thread_round : call () :=
  let! w := (fun w => Some (w, w)) in
  match w.(w_thread) with
  | Some true => let! running := rvvm_eventloop_round false in modify (set_w_thread (Some running))
  | _ => cret ()
  end.

(** [None] is returned to the caller when the device is refused. *)
Definition rvvm_attach_mmio (h : nat) (desc : mmio_dev) : call (option nat) :=
  match normalize_ops desc with
  | None => cret None
  | Some dev =>
      let! zone := (if nz dev.(dev_size) then
                      spin_lock_global ;;
                      let! m := get_machine h in
                      spin_unlock_global ;;
                      (fun w => match rvvm_mmio_zone_auto (2 + length m.(v_devs)) m.(v_mem) m.(v_devs) dev.(dev_addr) dev.(dev_size) with
                                | Some a => Some (w, a)
                                | None => None
                                end)
                    else cret dev.(dev_addr)) in
      if negb (zone =? dev.(dev_addr)) then cret None
      else
        spin_lock_global ;;
        let! was_running := rvvm_pause_machine h in
        let! w := (fun w => Some (w, w)) in
        upd_machine h (fun m => set_v_devs (m.(v_devs) ++ [(w.(w_next), dev)]) m) ;;
        modify (fun w => set_w_next (S w.(w_next)) w) ;;
        (if was_running then let! _ := rvvm_start_machine h in cret () else cret ()) ;;
        spin_unlock_global ;;
        cret (Some w.(w_next))
  end.

Definition rvvm_remove_mmio (h : nat) (i : nat) (dev : mmio_dev) : call () :=
  spin_lock_global ;;
  let! was_running := rvvm_pause_machine h in
  upd_machine h (fun m => set_v_devs (filter (fun d => d.1 <> i) m.(v_devs)) m) ;;
  (if nz dev.(dev_mapping) then upd_machine h (fun m => set_v_harts (map (fun x => (riscv_tlb_flush x.1, x.2)) m.(v_harts)) m) else cret ()) ;;
  (if was_running then let! _ := rvvm_start_machine h in cret () else cret ()) ;;
  spin_unlock_global.

End operations.

(** ** Invariant *)

(** The addresses of a device and of RAM. *)
Definition covers (d : mmio_dev) (x : Z) : Prop := d.(dev_addr) <= x < d.(dev_addr) + d.(dev_size).
Definition ram_covers (m : ram) (x : Z) : Prop := m.(ram_addr) <= x < m.(ram_addr) + m.(ram_size).

Record devs_ok (m : ram) (devs : list (nat * mmio_dev)) : Prop := {
  do_disjoint : forall i j d e x, devs !! i = Some d -> devs !! j = Some e -> covers d.2 x -> covers e.2 x -> i = j;
  do_ram : forall i d x, devs !! i = Some d -> covers d.2 x -> ~ ram_covers m x;
  do_regions : Forall region_ok (regions m devs);
  do_ops : Forall (fun d => ops_ok d.2) devs
}.

Definition machine_ok (m : vmm) : Prop := Forall (fun x => x.2 = m.(v_running)) m.(v_harts) /\ devs_ok m.(v_mem) m.(v_devs).

(** A callback works on the harts, the memory and the devices behind the scenes, and may change
    the power state. *)
Definition same_frame (m m' : vmm) : Prop :=
  m'.(v_mem) = m.(v_mem) /\ m'.(v_devs) = m.(v_devs) /\ m'.(v_running) = m.(v_running) /\ map snd m'.(v_harts) = map snd m.(v_harts).

Class PlatformOk (P : Platform) : Prop := {
  po_reset : forall d m, same_frame m (dev_reset d m);
  po_update : forall d m, same_frame m (dev_update d m);
  po_images : forall m, same_frame m (load_images m);
  po_fdt : forall m, same_frame m (fst (pass_fdt m))
}.

Record winv (w : world) : Prop := {
  wi_lock : w.(w_lock) = false;
  wi_nodup : NoDup w.(w_machines);
  wi_listed : forall h, h ∈ w.(w_machines) <-> exists m, w.(w_store) !! h = Some m /\ m.(v_running) = true;
  wi_machines : forall h m, w.(w_store) !! h = Some m -> machine_ok m;
  wi_cond : w.(w_manual) || not_empty w.(w_machines) = true -> w.(w_cond) = true;
  wi_thread : negb w.(w_manual) && not_empty w.(w_machines) = true -> is_Some w.(w_thread)
}.

(** The world with one machine replaced, and the lists of the library. *)
Definition upd_world (w : world) (lock : bool) (machines : list nat) (h : nat) (m : vmm) : world :=
  mk_world lock machines w.(w_manual) w.(w_cond) w.(w_thread) (<[h := m]> w.(w_store)) w.(w_next).

Lemma alter_insert (f : vmm -> vmm) (h : nat) (l : list vmm) m : l !! h = Some m -> alter f h l = <[h := f m]> l.
Proof.
  revert h. induction l as [|x l IH]; intros [|h] Hh; try discriminate; simpl in *; [congruence|].
  f_equal. apply IH. exact Hh.
Qed.

Lemma not_empty_app {A} (l : list A) x : not_empty (l ++ [x]) = true.
Proof. destruct l; reflexivity. Qed.

(** Reconfiguration only starts and stops the event loop. *)
Lemma reconfigure_spec w : w.(w_lock) = false -> exists c t, rvvm_reconfigure_eventloop w = Some (set_w_cond c (set_w_thread t w), ()) /\
  (w.(w_manual) || not_empty w.(w_machines) = true -> c = true) /\
  (negb w.(w_manual) && not_empty w.(w_machines) = true -> is_Some t) /\
  (negb w.(w_manual) && not_empty w.(w_machines) = true -> forall b, w.(w_thread) = Some b -> t = Some b).
Proof.
  intros Hl. destruct w as [lk ms mn cd th st nx]. simpl in Hl. subst lk.
  unfold rvvm_reconfigure_eventloop, cbind, spin_lock_global, spin_unlock_global, modify. simpl.
  destruct mn, (not_empty ms) eqn:E, cd, th as [b|]; simpl.
  all: unfold set_w_cond, set_w_thread, set_w_lock; simpl.
  all: eexists _, _; split_and!; [reflexivity|..]; simpl; try (intros; discriminate); eauto.
Qed.

Lemma winv_upd w h m m' c t machines : winv w -> w.(w_store) !! h = Some m -> machine_ok m' ->
  NoDup machines -> (forall k, k <> h -> k ∈ machines <-> k ∈ w.(w_machines)) -> (h ∈ machines <-> m'.(v_running) = true) ->
  (w.(w_manual) || not_empty machines = true -> c = true) -> (negb w.(w_manual) && not_empty machines = true -> is_Some t) ->
  winv (set_w_cond c (set_w_thread t (upd_world w false machines h m'))).
Proof.
  intros [Hl Hn Hli Hm Hc Ht] Hh Hok Hnd Hk Hr Hc' Ht'. split; simpl; auto.
  - intros k. destruct (decide (k = h)) as [->|Hne].
    + rewrite Hr, list_lookup_insert_eq by (eapply lookup_lt_Some; eauto). naive_solver.
    + rewrite Hk, Hli, list_lookup_insert_ne by congruence. reflexivity.
  - intros k x Hx. destruct (decide (k = h)) as [->|Hne].
    + rewrite list_lookup_insert_eq in Hx by (eapply lookup_lt_Some; eauto). congruence.
    + rewrite list_lookup_insert_ne in Hx by congruence. eauto.
Qed.

Lemma elem_of_erase h l k : NoDup l -> k ∈ erase_machine h l <-> k ∈ l /\ k <> h.
Proof.
  induction l as [|x l IH]; intros Hn; [set_solver|]. inversion Hn as [|? ? Hx Hn']; subst. specialize (IH Hn'). simpl.
  destruct (bool_decide_reflect (h ∈ l)); [set_solver|]. destruct (bool_decide_reflect (x = h)) as [->|]; set_solver.
Qed.

Lemma NoDup_erase h l : NoDup l -> NoDup (erase_machine h l).
Proof.
  induction l as [|x l IH]; intros Hn; [exact Hn|]. inversion Hn as [|? ? Hx Hn']; subst. simpl.
  destruct (bool_decide_reflect (h ∈ l)); [|destruct (bool_decide_reflect (x = h)); assumption].
  constructor; [|auto]. rewrite elem_of_erase by assumption. tauto.
Qed.

Lemma frame_ok m m' : same_frame m m' -> machine_ok m -> machine_ok m'.
Proof.
  intros (Hm & Hd & Hr & Hh) [H1 H2]. split; [|congruence]. rewrite Hr.
  assert (Forall (fun b => b = m.(v_running)) (map snd m'.(v_harts))) as H3.
  { rewrite Hh. apply Forall_map. exact H1. }
  apply Forall_map in H3. exact H3.
Qed.

Lemma frame_refl m : same_frame m m.
Proof. repeat split. Qed.

Lemma frame_trans a b c : same_frame a b -> same_frame b c -> same_frame a c.
Proof. unfold same_frame. intuition congruence. Qed.

Lemma frame_fold {A} (f : vmm -> A -> vmm) l m : (forall x y, same_frame x (f x y)) -> same_frame m (foldl f m l).
Proof.
  intros Hf. revert m. induction l as [|x l IH]; intros m; [apply frame_refl|]. simpl. eapply frame_trans; [apply Hf|apply IH].
Qed.

Section keeps.
Context {P : Platform} {HP : PlatformOk P}.

Lemma map_snd_imap (f : nat -> hart -> hart) (l : list (hart * bool)) : map snd (imap (fun i x => (f i x.1, x.2)) l) = map snd l.
Proof. revert f. induction l as [|x l IH]; intros f; [reflexivity|]. simpl. f_equal. apply (IH (fun i => f (S i))). Qed.

Lemma reset_state_frame m : same_frame m (rvvm_reset_machine_state m).
Proof.
  unfold rvvm_reset_machine_state. cbn zeta. set (m1 := foldl _ m _).
  assert (H1 : same_frame m m1) by (apply frame_fold; intros; apply po_reset).
  pose proof (frame_trans _ _ _ H1 (po_images m1)) as H2. pose proof (frame_trans _ _ _ H2 (po_fdt (load_images m1))) as H3.
  destruct (pass_fdt (load_images m1)) as [m2 fdt]. simpl in H3. destruct H3 as (Ha & Hb & Hc & Hd).
  split_and!; [exact Ha|exact Hb|exact Hc|].
  exact (eq_trans (map_snd_imap (fun i vm => reset_hart i fdt (rvvm_get_opt m2 RVVM_OPT_RESET_PC) vm) _) Hd).
Qed.

Lemma reset_state_power m : (rvvm_reset_machine_state m).(v_power) = RVVM_POWER_ON.
Proof. unfold rvvm_reset_machine_state. cbn zeta. destruct (pass_fdt _). reflexivity. Qed.

(** *** Operations *)

Lemma get_machine_run w h m : w.(w_store) !! h = Some m -> get_machine h w = Some (w, m).
Proof. intros H. unfold get_machine. rewrite H. reflexivity. Qed.

Lemma spawned_ok m m' : same_frame (set_v_running true m) m' -> devs_ok m.(v_mem) m.(v_devs) ->
  machine_ok (set_v_harts (map riscv_hart_spawn m'.(v_harts)) m').
Proof.
  intros (Ha & Hb & Hc & _) Hd. split; simpl; [|rewrite Ha, Hb; exact Hd]. rewrite Hc. apply Forall_map, Forall_forall.
  intros [vm b] _. simpl. unfold riscv_hart_spawn. destruct b; reflexivity.
Qed.

Lemma cbind_run {A B} (c : call A) (k : A -> call B) w w' x : c w = Some (w', x) -> cbind c k w = k x w'.
Proof. intros H. unfold cbind. rewrite H. reflexivity. Qed.

Lemma upd_run w h m f : w.(w_store) !! h = Some m -> upd_machine h f w = Some (upd_world w w.(w_lock) w.(w_machines) h (f m), ()).
Proof. intros Hh. unfold upd_machine, modify, set_w_store, upd_world. rewrite (alter_insert _ _ _ m Hh). reflexivity. Qed.

Lemma upd_run' w lock ms h m f : is_Some (w.(w_store) !! h) -> upd_machine h f (upd_world w lock ms h m) = Some (upd_world w lock ms h (f m), ()).
Proof.
  intros [x Hx]. rewrite (upd_run _ h m).
  - unfold upd_world. simpl. rewrite list_insert_insert_eq. reflexivity.
  - simpl. apply list_lookup_insert_eq. eapply lookup_lt_Some. exact Hx.
Qed.

Lemma lock_run w ms h m : spin_lock_global (upd_world w false ms h m) = Some (upd_world w true ms h m, ()).
Proof. reflexivity. Qed.

(** A machine starts once: it is listed, its harts have threads, the event loop is there. *)
Lemma start_spec w h m : winv w -> w.(w_store) !! h = Some m ->
  exists w' m', rvvm_start_machine h w = Some (w', negb m.(v_running)) /\ winv w' /\ w'.(w_store) !! h = Some m' /\ m'.(v_running) = true /\
    m'.(v_mem) = m.(v_mem) /\ m'.(v_devs) = m.(v_devs) /\ (m.(v_running) = false -> rvvm_machine_powered m = false -> m'.(v_power) = RVVM_POWER_ON).
Proof.
  intros HI Hh. unfold rvvm_start_machine. unfold cbind at 1. rewrite (get_machine_run w h m Hh).
  destruct (wi_machines w HI h m Hh) as [Hth Hd]. destruct (v_running m) eqn:Er.
  - exists w, m. unfold upd_machine, modify, cbind, cret. simpl. rewrite (alter_insert _ _ _ m Hh).
    assert (<[h := set_v_running true m]> w.(w_store) = w.(w_store)) as ->.
    { rewrite list_insert_id; [reflexivity|]. rewrite Hh. unfold set_v_running. destruct m; simpl in *. subst. reflexivity. }
    destruct w; simpl in *. split_and!; auto. discriminate.
  - set (m1 := if negb (rvvm_machine_powered m) then rvvm_reset_machine_state (set_v_running true m) else set_v_running true m).
    assert (Hf : same_frame (set_v_running true m) m1).
    { unfold m1. destruct (negb (rvvm_machine_powered m)); [apply reset_state_frame|apply frame_refl]. }
    set (m2 := set_v_harts (map riscv_hart_spawn m1.(v_harts)) m1).
    destruct (reconfigure_spec (upd_world w false (w.(w_machines) ++ [h]) h m2) eq_refl) as (c & t & Hrc & Hc & Ht & _).
    exists (set_w_cond c (set_w_thread t (upd_world w false (w.(w_machines) ++ [h]) h m2))), m2.
    assert (Hnew : h ∉ w.(w_machines)).
    { rewrite (wi_listed w HI). intros (x & Hx & Hxr). rewrite Hh in Hx. congruence. }
    split_and!.
    + rewrite (cbind_run _ _ _ _ _ (upd_run w h m _ Hh)), (wi_lock w HI), (cbind_run _ _ _ _ _ (lock_run _ _ _ _)).
      assert (Hreset : (if negb (rvvm_machine_powered m) then upd_machine h rvvm_reset_machine_state else cret ())
                         (upd_world w true w.(w_machines) h (set_v_running true m)) = Some (upd_world w true w.(w_machines) h m1, ())).
      { unfold m1. destruct (negb (rvvm_machine_powered m)); [apply upd_run'; eauto|reflexivity]. }
      rewrite (cbind_run _ _ _ _ _ Hreset), (cbind_run _ _ _ _ _ (upd_run' w _ _ h _ _ (ex_intro _ m Hh))).
      unfold modify, spin_unlock_global. erewrite cbind_run by reflexivity. erewrite cbind_run by reflexivity.
      rewrite (cbind_run _ _ _ _ _ Hrc). reflexivity.
    + apply winv_upd with m; auto.
      * apply spawned_ok with m; auto.
      * apply list.NoDup_app. split_and!; [apply (wi_nodup w HI)|set_solver|apply list.NoDup_singleton].
      * set_solver.
      * simpl. destruct Hf as (_ & _ & -> & _). set_solver.
    + simpl. rewrite list_lookup_insert_eq by (eapply lookup_lt_Some; eauto). reflexivity.
    + simpl. destruct Hf as (_ & _ & -> & _). reflexivity.
    + simpl. by destruct Hf as (-> & _).
    + simpl. by destruct Hf as (_ & -> & _).
    + intros _ Hp. simpl. unfold m1. rewrite Hp. apply reset_state_power.
Qed.

Lemma paused_ok m : devs_ok m.(v_mem) m.(v_devs) -> machine_ok (set_v_harts (map riscv_hart_pause m.(v_harts)) (set_v_running false m)).
Proof. intros Hd. split; simpl; [|exact Hd]. apply Forall_map, Forall_forall. intros [vm b] _. reflexivity. Qed.

(** Pausing takes the machine off the list and joins its threads. *)
Lemma pause_spec w h m : winv w -> w.(w_store) !! h = Some m ->
  exists w' m', rvvm_pause_machine h w = Some (w', m.(v_running)) /\ winv w' /\ w'.(w_store) !! h = Some m' /\ m'.(v_running) = false /\
    m'.(v_mem) = m.(v_mem) /\ m'.(v_devs) = m.(v_devs) /\ m'.(v_power) = m.(v_power).
Proof.
  intros HI Hh. unfold rvvm_pause_machine. rewrite (cbind_run _ _ _ _ _ (get_machine_run w h m Hh)).
  destruct (wi_machines w HI h m Hh) as [Hth Hd]. rewrite (cbind_run _ _ _ _ _ (upd_run w h m _ Hh)).
  destruct (v_running m) eqn:Er.
  - set (m2 := set_v_harts (map riscv_hart_pause m.(v_harts)) (set_v_running false m)).
    destruct (reconfigure_spec (upd_world w false (erase_machine h w.(w_machines)) h m2) eq_refl) as (c & t & Hrc & Hc & Ht & _).
    exists (set_w_cond c (set_w_thread t (upd_world w false (erase_machine h w.(w_machines)) h m2))), m2.
    split_and!; try reflexivity.
    + rewrite (wi_lock w HI), (cbind_run _ _ _ _ _ (lock_run _ _ _ _)).
      rewrite (cbind_run _ _ _ _ _ (upd_run' w _ _ h _ _ (ex_intro _ m Hh))).
      unfold modify, spin_unlock_global. erewrite cbind_run by reflexivity. erewrite cbind_run by reflexivity.
      rewrite (cbind_run _ _ _ _ _ Hrc). reflexivity.
    + pose proof (wi_nodup w HI) as Hnd. apply winv_upd with m; auto.
      * apply paused_ok. exact Hd.
      * apply NoDup_erase. exact Hnd.
      * intros k Hk. rewrite elem_of_erase by exact Hnd. tauto.
      * rewrite elem_of_erase by exact Hnd. simpl. split; [tauto|discriminate].
    + simpl. rewrite list_lookup_insert_eq by (eapply lookup_lt_Some; eauto). reflexivity.
  - assert (Heq : upd_world w w.(w_lock) w.(w_machines) h (set_v_running false m) = w).
    { unfold upd_world. rewrite list_insert_id; [destruct w; reflexivity|]. rewrite Hh. unfold set_v_running. destruct m; simpl in *. subst. reflexivity. }
    exists w, m. rewrite Heq. auto 10.
Qed.

(** A tick keeps the machine as it is, or takes it off. *)
Lemma tick_machine_spec m m' off : tick_machine m = (m', off) -> machine_ok m -> m.(v_running) = true ->
  machine_ok m' /\ m'.(v_running) = negb off.
Proof.
  unfold tick_machine. intros Ht [Hth Hd] Hr. destruct (m.(v_power) =? RVVM_POWER_ON).
  - injection Ht as <- <-. set (m1 := set_v_harts (map (tick_hart m) (v_harts m)) m).
    assert (Hm1 : machine_ok m1).
    { split; [|exact Hd]. simpl. apply Forall_map. refine (Forall_impl _ _ Hth). intros x Hx. exact Hx. }
    assert (Hf : same_frame m1 (foldl (fun m d => dev_update d.2 m) m1 (v_devs m1))) by (apply frame_fold; intros; apply po_update).
    split; [apply (frame_ok m1); auto|]. destruct Hf as (_ & _ & Hfr & _). exact (eq_trans Hfr Hr).
  - cbn zeta in Ht. destruct (m.(v_power) =? RVVM_POWER_RESET); injection Ht as <- <-.
    + set (m1 := set_v_harts (map riscv_hart_pause (v_harts m)) m). pose proof (reset_state_frame m1) as Hf.
      assert (Hm1 : set_v_running true m1 = m1) by (unfold set_v_running; simpl; rewrite <- Hr; reflexivity).
      split; [apply (spawned_ok m1); [rewrite Hm1; exact Hf|exact Hd]|]. destruct Hf as (_ & _ & Hfr & _). exact (eq_trans Hfr Hr).
    + split; [|reflexivity]. apply (paused_ok m Hd).
Qed.

Lemma elem_of_delete (l : list nat) n h k : NoDup l -> l !! n = Some h -> k ∈ delete n l <-> k ∈ l /\ k <> h.
Proof.
  intros Hnd Hn. rewrite delete_take_drop. pose proof (take_drop_middle l n h Hn) as E.
  assert (Hk : k ∈ l <-> k ∈ take n l ++ h :: drop (S n) l) by (rewrite E; reflexivity). rewrite Hk.
  rewrite <- E in Hnd. apply list.NoDup_app in Hnd as (_ & Hab & Hb). apply list.NoDup_cons in Hb as [Hb _]. set_solver.
Qed.

Lemma not_empty_delete (l : list nat) n : not_empty (delete n l) = true -> not_empty l = true.
Proof. destruct l; [destruct n; auto|reflexivity]. Qed.

(** The event loop works with the lock taken. *)
Lemma tick_machines_spec n : forall w manual ret, winv (set_w_lock false w) -> w.(w_lock) = true -> (n <= length w.(w_machines))%nat ->
  exists w' r, tick_machines n manual ret w = Some (w', r) /\ winv (set_w_lock false w') /\ w'.(w_lock) = true /\ w'.(w_thread) = w.(w_thread).
Proof.
  induction n as [|n IH]; intros w manual ret HI Hl Hn; [exists w, ret; auto|]. simpl.
  destruct (lookup_lt_is_Some_2 w.(w_machines) n ltac:(lia)) as [h Hh].
  unfold cbind at 1. rewrite Hh.
  assert (Hin : h ∈ w.(w_machines)) by (eapply list_elem_of_lookup_2; eauto).
  apply (wi_listed _ HI) in Hin as (m & Hm & Hr). simpl in Hm.
  rewrite (cbind_run _ _ _ _ _ (get_machine_run w h m Hm)). destruct (tick_machine m) as [m' off] eqn:Et.
  destruct (tick_machine_spec m m' off Et (wi_machines _ HI h m Hm) Hr) as [Hok Hr'].
  rewrite (cbind_run _ _ _ _ _ (upd_run w h m _ Hm)). pose proof (wi_nodup _ HI) as Hnd. simpl in Hnd. rewrite Hl.
  destruct off.
  - unfold modify. erewrite cbind_run by reflexivity.
    apply (IH (upd_world w true (delete n w.(w_machines)) h m')); [|reflexivity|simpl; rewrite length_delete by eauto; lia].
    apply (winv_upd (set_w_lock false w) h m m' w.(w_cond) w.(w_thread)); auto.
    + simpl. eapply sublist_NoDup; [exact Hnd|apply sublist_delete].
    + intros k Hk. simpl. rewrite (elem_of_delete _ n h) by assumption. tauto.
    + rewrite (elem_of_delete _ n h) by assumption. rewrite Hr'. simpl. split; [tauto|discriminate].
    + simpl. intros Hc. apply (wi_cond _ HI). simpl. destruct (w_manual w); [reflexivity|]. exact (not_empty_delete _ _ Hc).
    + simpl. intros Hc. apply (wi_thread _ HI). simpl. destruct (w_manual w); [discriminate|]. exact (not_empty_delete _ _ Hc).
  - apply (IH (upd_world w true w.(w_machines) h m')); [|reflexivity|simpl; lia].
    apply (winv_upd (set_w_lock false w) h m m' w.(w_cond) w.(w_thread)); auto.
    + simpl. rewrite Hr'. split; [reflexivity|]. intros _. eapply list_elem_of_lookup_2; eauto.
    + apply (wi_cond _ HI).
    + apply (wi_thread _ HI).
Qed.

Lemma winv_lock w : winv w -> winv (set_w_lock false (set_w_lock true w)).
Proof. intros [H1 H2 H3 H4 H5 H6]. split; auto. Qed.

Lemma eventloop_round_spec w manual : winv w -> exists w' r, rvvm_eventloop_round manual w = Some (w', r) /\ winv w' /\ w'.(w_thread) = w.(w_thread).
Proof.
  intros HI. unfold rvvm_eventloop_round, spin_lock_global. unfold cbind at 1. rewrite (wi_lock w HI).
  assert (exists w' r, rvvm_eventloop_tick manual (set_w_lock true w) = Some (w', r) /\ winv (set_w_lock false w') /\ w'.(w_lock) = true /\ w'.(w_thread) = w.(w_thread)) as (w' & r & Ht & Hw & Hlk & Hth).
  { unfold rvvm_eventloop_tick. unfold cbind at 1. destruct (_ || _).
    - exists (set_w_lock true w), true. split_and!; auto. apply winv_lock. exact HI.
    - apply (tick_machines_spec _ (set_w_lock true w)); auto. apply winv_lock. exact HI. }
  rewrite (cbind_run _ _ _ _ _ Ht). exists (set_w_lock false w'), (negb r). split_and!; auto.
Qed.

Lemma thread_round_spec w : winv w -> exists w', eventloop_thread_round w = Some (w', ()) /\ winv w'.
Proof.
  intros HI. unfold eventloop_thread_round. unfold cbind at 1. destruct (w_thread w) as [[]|] eqn:E; eauto.
  destruct (eventloop_round_spec w false HI) as (w' & r & Hr & [H1 H2 H3 H4 H5 H6] & Hth). rewrite (cbind_run _ _ _ _ _ Hr).
  eexists. split; [reflexivity|]. split; simpl; eauto.
Qed.

Lemma set_manual_spec w manual : winv w -> exists w', rvvm_set_manual_eventloop manual w = Some (w', ()) /\ winv w' /\ w'.(w_manual) = manual.
Proof.
  intros [H1 H2 H3 H4 H5 H6]. unfold rvvm_set_manual_eventloop, spin_lock_global. unfold cbind at 1. rewrite H1.
  unfold modify. erewrite cbind_run by reflexivity. unfold spin_unlock_global, modify. erewrite cbind_run by reflexivity.
  destruct (reconfigure_spec (set_w_lock false (set_w_manual manual (set_w_lock true w))) eq_refl) as (c & t & -> & Hc & Ht & _).
  eexists. split; [reflexivity|]. split; [|reflexivity]. split; simpl; auto.
Qed.

Lemma reset_spec w h m reset : winv w -> w.(w_store) !! h = Some m -> exists w', rvvm_reset_machine h reset w = Some (w', ()) /\ winv w'.
Proof.
  intros HI Hh. unfold rvvm_reset_machine. rewrite (upd_run w h m _ Hh). eexists. split; [reflexivity|].
  rewrite (wi_lock w HI). apply (winv_upd w h m _ w.(w_cond) w.(w_thread)); auto; try apply HI.
  - destruct (wi_machines w HI h m Hh) as [Ha Hb]. split; auto.
  - simpl. rewrite (wi_listed w HI). naive_solver.
Qed.

(** Without any bound on the size the loop still ends, never moves down, and stays in place only
    when nothing is in the way. *)
Lemma zone_loop_total m devs size fuel : Forall region_ok (regions m devs) -> forall addr, 0 <= addr -> (ahead (regions m devs) addr < fuel)%nat ->
  exists a, zone_loop fuel m devs addr size = Some a /\ addr <= a /\
    (a = addr -> rvvm_mmio_overlap_check addr size m.(ram_addr) m.(ram_size) = false /\ find_overlap devs addr size = None).
Proof.
  intros Hok. pose proof Hok as Hall. rewrite Forall_forall in Hall.
  assert (Hstep : forall b t addr, (b, t) ∈ regions m devs -> rvvm_mmio_overlap_check addr size b t = true -> 0 <= addr ->
            addr < next_page b t /\ 0 <= next_page b t /\ (ahead (regions m devs) (next_page b t) < ahead (regions m devs) addr)%nat).
  { intros b t addr Hin Hc Ha. pose proof (Hall (b, t) ltac:(apply list_elem_of_In; exact Hin)) as Hr.
    destruct (next_page_spec b t Hr) as [_ Hn]. destruct Hr as (Hb & Ht & Hbt). simpl in *.
    unfold rvvm_mmio_overlap_check in Hc. rewrite andb_true_iff, (u64_small (b + t)), Z.ltb_lt in Hc by lia.
    split_and!; [lia..|]. apply (ahead_move _ _ _ (b, t) Hin); simpl; lia. }
  assert (Hdev : forall ds addr d, find_overlap ds addr size = Some d ->
            (d.(dev_addr), d.(dev_size)) ∈ map (fun d : nat * mmio_dev => (d.2.(dev_addr), d.2.(dev_size))) ds /\
            rvvm_mmio_overlap_check addr size d.(dev_addr) d.(dev_size) = true).
  { intros ds addr d. induction ds as [|[i x] ds IH]; simpl; [discriminate|].
    destruct (rvvm_mmio_overlap_check addr size x.(dev_addr) x.(dev_size)) eqn:E; [intros [= <-]; split; [left|exact E]|].
    intros Hd. destruct (IH Hd). split; [right; assumption|assumption]. }
  induction fuel as [|fuel IH]; intros addr Ha Hf; [lia|]. simpl.
  destruct (rvvm_mmio_overlap_check addr size m.(ram_addr) m.(ram_size)) eqn:E.
  - destruct (Hstep m.(ram_addr) m.(ram_size) addr ltac:(left) E Ha) as (H1 & H2 & H3).
    destruct (IH _ H2 ltac:(lia)) as (a & Hz & Hle & _). exists a. split_and!; [exact Hz|lia|intros ->; lia].
  - destruct (find_overlap devs addr size) as [d|] eqn:Ed; [|exists addr; split_and!; auto; lia].
    destruct (Hdev devs addr d Ed) as [Hin Hc].
    destruct (Hstep _ _ addr ltac:(right; exact Hin) Hc Ha) as (H1 & H2 & H3).
    destruct (IH _ H2 ltac:(lia)) as (a & Hz & Hle & _). exists a. split_and!; [exact Hz|lia|intros ->; lia].
Qed.

(** What the placement answers for a device that is to be attached. *)
Definition zone_of (m : vmm) (dev : mmio_dev) : option Z :=
  if nz dev.(dev_size) then rvvm_mmio_zone_auto (2 + length m.(v_devs)) m.(v_mem) m.(v_devs) dev.(dev_addr) dev.(dev_size) else Some dev.(dev_addr).

Lemma zone_of_spec m dev : machine_ok m -> 0 <= dev.(dev_addr) -> exists a, zone_of m dev = Some a /\
  (a = dev.(dev_addr) -> dev.(dev_size) = 0 \/
    (rvvm_mmio_overlap_check dev.(dev_addr) dev.(dev_size) m.(v_mem).(ram_addr) m.(v_mem).(ram_size) = false /\
     find_overlap m.(v_devs) dev.(dev_addr) dev.(dev_size) = None)).
Proof.
  intros [_ [_ _ Hok _]] Ha. unfold zone_of, nz. destruct (Z.eqb_spec dev.(dev_size) 0) as [E|E]; cbn [negb]; [eauto|].
  unfold rvvm_mmio_zone_auto, nz. apply Z.eqb_neq in E. rewrite E. cbn [negb].
  destruct (zone_loop_total m.(v_mem) m.(v_devs) dev.(dev_size) (2 + length m.(v_devs)) Hok _ Ha) as (a & Hz & _ & Hs).
  - pose proof (ahead_le (regions m.(v_mem) m.(v_devs)) dev.(dev_addr)) as H. unfold regions at 2 in H. simpl in H. rewrite length_map in H. lia.
  - exists a. auto.
Qed.

Lemma attached_ok m dev id : devs_ok m.(v_mem) m.(v_devs) -> ops_ok dev -> region_ok (dev.(dev_addr), dev.(dev_size)) ->
  (dev.(dev_size) = 0 \/
    (rvvm_mmio_overlap_check dev.(dev_addr) dev.(dev_size) m.(v_mem).(ram_addr) m.(v_mem).(ram_size) = false /\
     find_overlap m.(v_devs) dev.(dev_addr) dev.(dev_size) = None)) ->
  devs_ok m.(v_mem) (m.(v_devs) ++ [(id, dev)]).
Proof.
  intros [Hdis Hram Hreg Hops] Ho Hr Hfree.
  assert (Hall : Forall region_ok (regions m.(v_mem) (m.(v_devs) ++ [(id, dev)]))).
  { unfold regions in *. rewrite map_app. apply Forall_cons_1 in Hreg as [H1 H2]. constructor; [exact H1|].
    apply Forall_app. split; [exact H2|]. constructor; [exact Hr|constructor]. }
  assert (Hnew : forall x, covers dev x -> ~ ram_covers m.(v_mem) x /\ forall i d, m.(v_devs) !! i = Some d -> ~ covers d.2 x).
  { intros x Hx. unfold covers in Hx. destruct Hfree as [E|[H1 H2]]; [lia|]. destruct Hr as (Hra & Hrs & Hrw). simpl in *.
    unfold regions in Hreg. apply Forall_cons_1 in Hreg as [Hr1 Hr2].
    pose proof (overlap_check_spec _ _ _ _ Hra Hrs ltac:(lia) Hr1) as Hs1. rewrite H1 in Hs1.
    pose proof (find_overlap_spec m.(v_devs) _ _ Hra Hrs ltac:(lia) Hr2) as Hs2. rewrite H2 in Hs2. split.
    - unfold ram_covers. intros Hc. assert (false = true); [|discriminate]. apply Hs1. split; lia.
    - intros i d Hd Hc. unfold covers in Hc. unfold is_free in Hs2. rewrite Forall_forall in Hs2.
      apply (Hs2 (d.2.(dev_addr), d.2.(dev_size))); [|split; simpl; lia].
      apply (in_map (fun d : nat * mmio_dev => (d.2.(dev_addr), d.2.(dev_size))) _ d), list_elem_of_In, (list_elem_of_lookup_2 _ _ _ Hd). }
  split; auto; [| |apply Forall_app; split; [exact Hops|constructor; [exact Ho|constructor]]].
  - intros i j d e x Hi Hj Hd He. apply lookup_app_Some in Hi, Hj.
    destruct Hi as [Hi|[Hi1 Hi2]], Hj as [Hj|[Hj1 Hj2]]; [eauto| | |].
    + apply list_lookup_singleton_Some in Hj2 as [_ <-]. destruct (Hnew x He) as [_ Hn]. destruct (Hn i d Hi Hd).
    + apply list_lookup_singleton_Some in Hi2 as [_ <-]. destruct (Hnew x Hd) as [_ Hn]. destruct (Hn j e Hj He).
    + apply list_lookup_singleton_Some in Hi2 as [Hi2 _]. apply list_lookup_singleton_Some in Hj2 as [Hj2 _]. lia.
  - intros i d x Hi Hd. apply lookup_app_Some in Hi as [Hi|[_ Hi]]; [eauto|].
    apply list_lookup_singleton_Some in Hi as [_ <-]. apply (Hnew x Hd).
Qed.

(** The zone is asked for with the lock, which is free again. *)
Lemma zone_run w h m dev zone : winv w -> w.(w_store) !! h = Some m -> zone_of m dev = Some zone ->
  (if nz dev.(dev_size) then
     spin_lock_global ;;
     let! m := get_machine h in
     spin_unlock_global ;;
     (fun w => match rvvm_mmio_zone_auto (2 + length m.(v_devs)) m.(v_mem) m.(v_devs) dev.(dev_addr) dev.(dev_size) with
               | Some a => Some (w, a)
               | None => None
               end)
   else cret dev.(dev_addr)) w = Some (w, zone).
Proof.
  intros HI Hh Hz. unfold zone_of in Hz. destruct (nz dev.(dev_size)); [|injection Hz as <-; reflexivity].
  unfold cbind, spin_lock_global, spin_unlock_global, modify, get_machine. rewrite (wi_lock w HI). simpl w_store. rewrite Hh.
  cbn [Nat.add] in Hz |- *. rewrite Hz. destruct w as [lk ? ? ? ? ? ?]. pose proof (wi_lock _ HI) as E. simpl in E. subst lk. reflexivity.
Qed.

Lemma pause_locked w h m : w.(w_lock) = true -> w.(w_store) !! h = Some m -> m.(v_running) = true -> rvvm_pause_machine h w = None.
Proof.
  intros Hl Hh Hr. unfold rvvm_pause_machine. rewrite (cbind_run _ _ _ _ _ (get_machine_run w h m Hh)).
  rewrite (cbind_run _ _ _ _ _ (upd_run w h m _ Hh)), Hr. unfold cbind, spin_lock_global. simpl. rewrite Hl. reflexivity.
Qed.

Lemma pause_stopped w h m : w.(w_store) !! h = Some m -> m.(v_running) = false -> rvvm_pause_machine h w = Some (w, false).
Proof.
  intros Hh Hr. unfold rvvm_pause_machine. rewrite (cbind_run _ _ _ _ _ (get_machine_run w h m Hh)).
  rewrite (cbind_run _ _ _ _ _ (upd_run w h m _ Hh)), Hr.
  unfold upd_world. rewrite list_insert_id; [destruct w; reflexivity|]. rewrite Hh. unfold set_v_running. destruct m; simpl in *. subst. reflexivity.
Qed.

(** Descriptions of devices: the access sizes are bytes, the region leaves the last page free. *)
Definition desc_ok (d : mmio_dev) : Prop :=
  0 <= d.(dev_min_op_size) < 256 /\ 0 <= d.(dev_max_op_size) < 256 /\ region_ok (d.(dev_addr), d.(dev_size)).

Lemma attach_spec w h m desc : winv w -> w.(w_store) !! h = Some m -> m.(v_running) = false -> desc_ok desc ->
  exists w' r, rvvm_attach_mmio h desc w = Some (w', r) /\ winv w' /\
    (forall m', w'.(w_store) !! h = Some m' -> match r with
       | Some id => exists dev, normalize_ops desc = Some dev /\ m'.(v_devs) = m.(v_devs) ++ [(id, dev)]
       | None => m' = m
       end).
Proof.
  intros HI Hh Hr (Hmin & Hmax & Hreg). unfold rvvm_attach_mmio.
  assert (Hsame : forall m', w.(w_store) !! h = Some m' -> m' = m) by congruence.
  destruct (normalize_ops desc) as [dev|] eqn:En; [|exists w, None; auto].
  destruct (normalize_ops_ok desc dev Hmin Hmax En) as (Hops & Haddr & Hsize). pose proof (wi_machines w HI h m Hh) as Hok.
  rewrite <- Haddr, <- Hsize in Hreg. destruct (zone_of_spec m dev Hok) as (zone & Hz & Hfree); [apply Hreg|].
  rewrite (cbind_run _ _ _ _ _ (zone_run w h m dev zone HI Hh Hz)).
  destruct (Z.eqb_spec zone dev.(dev_addr)) as [->|]; cbn [negb]; [|exists w, None; auto].
  set (m2 := set_v_devs (m.(v_devs) ++ [(w.(w_next), dev)]) m).
  exists (set_w_next (S w.(w_next)) (upd_world w false w.(w_machines) h m2)), (Some w.(w_next)). split_and!.
  - unfold spin_lock_global. unfold cbind at 1. rewrite (wi_lock w HI).
    rewrite (cbind_run _ _ _ _ _ (pause_stopped (set_w_lock true w) h m Hh Hr)). unfold cbind at 1. cbn zeta.
    rewrite (cbind_run _ _ _ _ _ (upd_run (set_w_lock true w) h m _ Hh)). reflexivity.
  - assert (Hw : winv (upd_world w false w.(w_machines) h m2)).
    { apply (winv_upd w h m m2 w.(w_cond) w.(w_thread)); auto; try apply HI.
      - destruct Hok as [H1 H2]. split; [exact H1|]. apply (attached_ok m dev w.(w_next)); auto.
      - rewrite (wi_listed w HI). simpl. naive_solver. }
    destruct Hw as [H1 H2 H3 H4 H5 H6]. split; auto.
  - simpl. intros m'. rewrite list_lookup_insert_eq by (eapply lookup_lt_Some; eauto). intros [= <-]. exists dev. auto.
Qed.

Lemma remove_devs_ok m (devs : list (nat * mmio_dev)) i : devs_ok m devs -> devs_ok m (filter (fun d => d.1 <> i) devs).
Proof.
  intros [Hdis Hram Hreg Hops].
  assert (Hsub : exists f, forall k d, filter (fun d => d.1 <> i) devs !! k = Some d -> devs !! (f k) = Some d /\ (forall k', (k < k')%nat -> (f k < f k')%nat)).
  { clear. induction devs as [|x l [f IH]]; [exists id; intros k d Hk; discriminate|]. rewrite filter_cons.
    destruct (decide (x.1 <> i)).
    - exists (fun k => match k with O => O | S k => S (f k) end). intros [|k] d Hk.
      + split; [exact Hk|]. intros [|k'] Hlt; lia.
      + destruct (IH k d Hk) as [H1 H2]. split; [exact H1|]. intros [|k'] Hlt; [lia|]. specialize (H2 k'). lia.
    - exists (fun k => S (f k)). intros k d Hk. destruct (IH k d Hk) as [H1 H2]. split; [exact H1|]. intros k' Hlt. specialize (H2 k'). lia. }
  destruct Hsub as [f Hf]. split.
  - intros a b d e x Ha Hb Hd He. destruct (Hf a d Ha) as [Ha1 Ha2], (Hf b e Hb) as [Hb1 Hb2].
    pose proof (Hdis _ _ _ _ _ Ha1 Hb1 Hd He) as E. destruct (Nat.lt_trichotomy a b) as [Hlt|[Heq|Hlt]]; [|exact Heq|].
    + specialize (Ha2 b Hlt). lia.
    + specialize (Hb2 a Hlt). lia.
  - intros a d x Ha. apply (Hram (f a)). apply (Hf a d Ha).
  - unfold regions in *. apply Forall_cons_1 in Hreg as [H1 H2]. constructor; [exact H1|].
    apply (Forall_map (fun d : nat * mmio_dev => (d.2.(dev_addr), d.2.(dev_size)))) in H2.
    apply (Forall_map (fun d : nat * mmio_dev => (d.2.(dev_addr), d.2.(dev_size)))).
    apply Forall_forall. intros d Hd%list_elem_of_In%list_elem_of_filter. rewrite Forall_forall in H2. apply H2, list_elem_of_In, Hd.
  - apply Forall_forall. intros d Hd%list_elem_of_In%list_elem_of_filter. rewrite Forall_forall in Hops. apply Hops, list_elem_of_In, Hd.
Qed.

Lemma remove_spec w h m i dev : winv w -> w.(w_store) !! h = Some m -> m.(v_running) = false ->
  exists w' m', rvvm_remove_mmio h i dev w = Some (w', ()) /\ winv w' /\ w'.(w_store) !! h = Some m' /\ m'.(v_running) = false /\
    m'.(v_mem) = m.(v_mem) /\ m'.(v_devs) = filter (fun d => d.1 <> i) m.(v_devs).
Proof.
  intros HI Hh Hr. unfold rvvm_remove_mmio, spin_lock_global. unfold cbind at 1. rewrite (wi_lock w HI).
  rewrite (cbind_run _ _ _ _ _ (pause_stopped (set_w_lock true w) h m Hh Hr)).
  rewrite (cbind_run _ _ _ _ _ (upd_run (set_w_lock true w) h m _ Hh)). cbn [w_lock w_machines set_w_lock].
  set (m1 := set_v_devs (filter (fun d => d.1 <> i) m.(v_devs)) m).
  set (m2 := if nz dev.(dev_mapping) then set_v_harts (map (fun x => (riscv_tlb_flush x.1, x.2)) m1.(v_harts)) m1 else m1).
  assert (Hrun : (if nz dev.(dev_mapping) then upd_machine h (fun m => set_v_harts (map (fun x => (riscv_tlb_flush x.1, x.2)) m.(v_harts)) m) else cret ())
                   (upd_world (set_w_lock true w) true w.(w_machines) h m1) = Some (upd_world (set_w_lock true w) true w.(w_machines) h m2, ())).
  { unfold m2. destruct (nz dev.(dev_mapping)); [exact (upd_run' (set_w_lock true w) _ _ h m1 _ (ex_intro _ m Hh))|reflexivity]. }
  rewrite (cbind_run _ _ _ _ _ Hrun). eexists _, m2. split; [reflexivity|]. split.
  2: { split; [apply list_lookup_insert_eq; eapply lookup_lt_Some; exact Hh|]. unfold m2. destruct (nz dev.(dev_mapping)); auto. }
  apply (winv_upd w h m m2 w.(w_cond) w.(w_thread)); auto; try apply HI.
  - destruct (wi_machines w HI h m Hh) as [H1 H2].
    assert (Hm1 : machine_ok m1) by (split; [exact H1|apply remove_devs_ok; exact H2]).
    unfold m2. destruct (nz dev.(dev_mapping)); [|exact Hm1]. apply (frame_ok m1); [|exact Hm1]. split_and!; try reflexivity.
    simpl. rewrite map_map. reflexivity.
  - rewrite (wi_listed w HI). assert (m2.(v_running) = m.(v_running)) as -> by (unfold m2; destruct (nz _); reflexivity). naive_solver.
Qed.
End keeps.

(** ** The interface as a whole *)

Inductive api :=
| AStart (h : nat) | APause (h : nat) | AReset (h : nat) (reset : bool) | AManual (manual : bool)
| ARound (manual : bool) | AThread | AAttach (h : nat) (desc : mmio_dev) | ARemove (h : nat) (id : nat) (dev : mmio_dev).

Definition run_api `{Platform} (a : api) : call () :=
  match a with
  | AStart h => let! _ := rvvm_start_machine h in cret ()
  | APause h => let! _ := rvvm_pause_machine h in cret ()
  | AReset h reset => rvvm_reset_machine h reset
  | AManual manual => rvvm_set_manual_eventloop manual
  | ARound manual => let! _ := rvvm_eventloop_round manual in cret ()
  | AThread => eventloop_thread_round
  | AAttach h desc => let! _ := rvvm_attach_mmio h desc in cret ()
  | ARemove h id dev => rvvm_remove_mmio h id dev
  end.

(** The machine exists; devices come and go while it does not run. *)
Definition api_ok (w : world) (a : api) : Prop :=
  match a with
  | AStart h | APause h | AReset h _ => exists m, w.(w_store) !! h = Some m
  | AAttach h desc => exists m, w.(w_store) !! h = Some m /\ m.(v_running) = false /\ desc_ok desc
  | ARemove h _ _ => exists m, w.(w_store) !! h = Some m /\ m.(v_running) = false
  | AManual _ | ARound _ | AThread => True
  end.

Lemma api_step {P : Platform} {HP : PlatformOk P} w a : winv w -> api_ok w a -> exists w', run_api a w = Some (w', ()) /\ winv w'.
Proof.
  intros HI Ha. destruct a as [h|h|h reset|manual|manual| |h desc|h i dev]; simpl in *.
  - destruct Ha as [m Hm]. destruct (start_spec w h m HI Hm) as (w' & m' & Hs & Hw & _). rewrite (cbind_run _ _ _ _ _ Hs). eauto.
  - destruct Ha as [m Hm]. destruct (pause_spec w h m HI Hm) as (w' & m' & Hs & Hw & _). rewrite (cbind_run _ _ _ _ _ Hs). eauto.
  - destruct Ha as [m Hm]. apply (reset_spec w h m reset HI Hm).
  - destruct (set_manual_spec w manual HI) as (w' & Hs & Hw & _). eauto.
  - destruct (eventloop_round_spec w manual HI) as (w' & r & Hs & Hw & _). rewrite (cbind_run _ _ _ _ _ Hs). eauto.
  - apply thread_round_spec. exact HI.
  - destruct Ha as (m & Hm & Hr & Hd). destruct (attach_spec w h m desc HI Hm Hr Hd) as (w' & r & Hs & Hw & _).
    rewrite (cbind_run _ _ _ _ _ Hs). eauto.
  - destruct Ha as (m & Hm & Hr). destruct (remove_spec w h m i dev HI Hm Hr) as (w' & m' & Hs & Hw & _). eauto.
Qed.

(** A run of calls; each call has to be allowed where it is made. *)
Inductive api_run `{Platform} : world -> list api -> world -> Prop :=
| api_run_nil w : api_run w [] w
| api_run_cons w w' w'' a l : api_ok w a -> run_api a w = Some (w', ()) -> api_run w' l w'' -> api_run w (a :: l) w''.

(** Machines as they are created: stopped, without threads, with RAM that leaves the last page free. *)
Definition fresh_world (ms : list vmm) : world := mk_world false [] false false None ms 0.

Definition fresh_machine (m : vmm) : Prop :=
  m.(v_running) = false /\ m.(v_devs) = [] /\ Forall (fun x => x.2 = false) m.(v_harts) /\ region_ok (m.(v_mem).(ram_addr), m.(v_mem).(ram_size)).

Lemma fresh_world_inv ms : Forall fresh_machine ms -> winv (fresh_world ms).
Proof.
  intros Hf. rewrite Forall_forall in Hf.
  assert (Hall : forall h m, ms !! h = Some m -> fresh_machine m) by (intros h m Hm; apply Hf, list_elem_of_In, (list_elem_of_lookup_2 _ _ _ Hm)).
  split; simpl; try discriminate; auto.
  - constructor.
  - intros h. split; [intros Hin; inversion Hin|]. intros (m & Hm & Hr). destruct (Hall h m Hm) as [E _]. congruence.
  - intros h m Hm. destruct (Hall h m Hm) as (Hr & Hd & Hh & Hm'). split; [rewrite Hr; exact Hh|]. rewrite Hd.
    split; try (intros; discriminate); [|constructor]. constructor; [exact Hm'|constructor].
Qed.


(** A platform without callbacks. *)
#[export] Instance quiet_platform : Platform := {|
  dev_reset _ m := m;
  dev_update _ m := m;
  load_images m := m;
  pass_fdt m := (m, 0x80002000);
  hart_thread vm := vm
|}.

#[export] Instance quiet_platform_ok : PlatformOk quiet_platform.
Proof. split; intros; apply frame_refl. Qed.

Definition demo_vm : vmm :=
  mk_vmm (mk_ram 0x80000000 0x10000 0x100000) [(demo_hart, false)] [] (<[1 := 0x80000000]> (<[5 := 100]> (fun _ => 0))) RVVM_POWER_OFF false.

(** Calls whose conditions are checked by evaluation. *)
Definition desc_okb (d : mmio_dev) : bool :=
  (0 <=? d.(dev_min_op_size)) && (d.(dev_min_op_size) <? 256) && (0 <=? d.(dev_max_op_size)) && (d.(dev_max_op_size) <? 256) &&
  (0 <=? d.(dev_addr)) && (0 <=? d.(dev_size)) && (d.(dev_addr) + d.(dev_size) <=? 2 ^ 64 - 0x1000).

Definition api_okb (w : world) (a : api) : bool :=
  match a with
  | AStart h | APause h | AReset h _ => match w.(w_store) !! h with Some _ => true | None => false end
  | AAttach h desc => match w.(w_store) !! h with Some m => negb m.(v_running) && desc_okb desc | None => false end
  | ARemove h _ _ => match w.(w_store) !! h with Some m => negb m.(v_running) | None => false end
  | AManual _ | ARound _ | AThread => true
  end.

Lemma api_okb_ok w a : api_okb w a = true -> api_ok w a.
Proof.
  destruct a as [h|h|h reset|manual|manual| |h desc|h i dev]; simpl; auto; destruct (w.(w_store) !! h) as [m|]; try discriminate; eauto.
  - unfold desc_okb. rewrite !andb_true_iff, !Z.leb_le, !Z.ltb_lt, negb_true_iff. intros H. exists m. unfold desc_ok, region_ok. simpl. intuition.
  - rewrite negb_true_iff. eauto.
Qed.

Fixpoint run_calls (w : world) (l : list api) : option world :=
  match l with
  | [] => Some w
  | a :: l => if api_okb w a then '(w', _) ← run_api a w; run_calls w' l else None
  end.

Lemma run_calls_run w l w' : run_calls w l = Some w' -> api_run w l w'.
Proof.
  revert w. induction l as [|a l IH]; intros w; simpl; [intros [= <-]; constructor|].
  destruct (api_okb w a) eqn:E; [|discriminate]. destruct (run_api a w) as [[w1 []]|] eqn:Er; [|discriminate]. simpl.
  intros Hl. econstructor; [apply api_okb_ok; exact E|exact Er|]. apply IH. exact Hl.
Qed.

Lemma demo_machine_fresh : Forall fresh_machine [demo_vm].
Proof. repeat constructor; simpl; lia. Qed.

(** Two devices, of which the second is in the way of the first, and a machine that is started,
    reset and switched off. *)
Definition demo_calls : list api :=
  [AAttach 0 (mk_mmio_dev 0x10000000 0x100 0 None None 0 0); AAttach 0 (mk_mmio_dev 0x10000080 0x100 0 None None 0 0); AStart 0; AThread;
   AReset 0 true; AThread].


(** A device for a running machine: the caller takes the lock, and pausing the machine takes it
    once more. *)
Lemma attach_running_hangs {P : Platform} w h m desc dev : winv w -> w.(w_store) !! h = Some m -> m.(v_running) = true ->
  normalize_ops desc = Some dev -> zone_of m dev = Some dev.(dev_addr) -> rvvm_attach_mmio h desc w = None.
Proof.
  intros HI Hh Hr Hn Hz. unfold rvvm_attach_mmio. rewrite Hn, (cbind_run _ _ _ _ _ (zone_run w h m dev _ HI Hh Hz)), Z.eqb_refl. cbn [negb].
  unfold spin_lock_global. unfold cbind at 1. rewrite (wi_lock w HI). unfold cbind. rewrite (pause_locked (set_w_lock true w) h m); auto.
Qed.

Lemma remove_running_hangs {P : Platform} w h m i dev : winv w -> w.(w_store) !! h = Some m -> m.(v_running) = true ->
  rvvm_remove_mmio h i dev w = None.
Proof.
  intros HI Hh Hr. unfold rvvm_remove_mmio, spin_lock_global. unfold cbind at 1. rewrite (wi_lock w HI).
  unfold cbind. rewrite (pause_locked (set_w_lock true w) h m); auto.
Qed.

(** A hart after reset: in M mode at the reset address with its identity and the device tree, and
    nothing enabled. *)
Lemma reset_hart_spec i fdt pc vm : let vm' := reset_hart i fdt pc vm in
  vm'.(priv_mode) = RISCV_PRIV_MACHINE /\ status vm' = 0 /\ vm'.(registers) 10 = Z.of_nat i /\ vm'.(registers) 11 = fdt /\
  vm'.(registers) RISCV_REG_PC = pc /\ vm'.(csr).(csr_hartid) = Z.of_nat i /\ vm'.(lrsc) = false /\ vm'.(machine_timer) = 0.
Proof.
  cbn zeta. unfold reset_hart, riscv_switch_priv, riscv_update_xlen. cbn zeta.
  destruct (Z.eqb_spec (priv_mode vm) RISCV_PRIV_MACHINE) as [E|E]; simpl.
  - rewrite E. simpl. split_and!; auto.
  - apply Z.eqb_neq in E. rewrite E. cbn [negb]. destruct (negb _); split_and!; reflexivity.
Qed.

(** The widths in [mstatus] are cleared as well: the first switch to a lower level that no write
    to [mstatus] comes before makes the hart a 32-bit one. *)
Lemma reset_hart_width i fdt pc vm p : p = RISCV_PRIV_USER \/ p = RISCV_PRIV_SUPERVISOR ->
  (riscv_switch_priv (reset_hart i fdt pc vm) p).(rv64) = false.
Proof.
  intros Hp. destruct (reset_hart_spec i fdt pc vm) as (Hm & Hs & _). unfold riscv_switch_priv. rewrite Hm.
  assert (Hx : forall v, status v = 0 -> (priv_mode v = RISCV_PRIV_USER \/ priv_mode v = RISCV_PRIV_SUPERVISOR) -> (riscv_update_xlen v).(rv64) = false).
  { intros v Hv Hpv. unfold riscv_update_xlen. rewrite Hv. destruct Hpv as [-> | ->]; simpl; destruct (rv64 v) eqn:E; simpl; auto. }
  generalize dependent (reset_hart i fdt pc vm). intros v Hm Hs.
  destruct Hp as [-> | ->].
  - change ((riscv_update_xlen (set_priv_mode RISCV_PRIV_USER v)).(rv64) = false). apply Hx; auto.
  - change ((riscv_update_xlen (set_priv_mode RISCV_PRIV_SUPERVISOR v)).(rv64) = false). apply Hx; auto.
Qed.

(** C40: Where the interface does not do what it means to: attaching a device to a running machine,
    or removing one, waits forever for the lock that the caller has; a machine that was switched
    off and is started again runs without an event loop, because the handle of the thread that
    has returned is still there; a machine that is moved by an option keeps the old place of its
    RAM in its harts; and reset clears the width fields of [mstatus], so a hart of a 64-bit
    machine that leaves M mode runs 32-bit code. *)
Theorem machine_api_deviations :
  (exists w, api_run (fresh_world [demo_vm]) [AStart 0] w /\
    rvvm_attach_mmio 0 (mk_mmio_dev 0x10000000 0x100 0 None None 0 0) w = None /\
    forall i d, rvvm_remove_mmio 0 i d w = None) /\
  (exists w, api_run (fresh_world [demo_vm]) [AStart 0; AReset 0 false; AThread; AThread; AStart 0] w /\
    w.(w_machines) = [0%nat] /\ w.(w_manual) = false /\ w.(w_thread) = Some false) /\
  (forall m v, let m' := fst (rvvm_set_opt m RVVM_OPT_MEM_BASE v) in m'.(v_mem).(ram_addr) = v /\ m'.(v_harts) = m.(v_harts)) /\
  (forall i fdt pc vm p, p = RISCV_PRIV_USER \/ p = RISCV_PRIV_SUPERVISOR -> (riscv_switch_priv (reset_hart i fdt pc vm) p).(rv64) = false).
Proof.
  split_and!; [| |intros; split; reflexivity|apply reset_hart_width].
  - destruct (run_calls (fresh_world [demo_vm]) [AStart 0]) as [w|] eqn:E; [|vm_compute in E; discriminate].
    pose proof (run_calls_run _ _ _ E) as Hrun. exists w.
    assert (Hx : (fun w => (fun m => (m.(v_running), zone_of m (mk_mmio_dev 0x10000000 0x100 0 None None 1 8))) <$> w.(w_store) !! 0%nat) <$> run_calls (fresh_world [demo_vm]) [AStart 0]
                 = Some (Some (true, Some 0x10000000))) by (vm_compute; reflexivity).
    rewrite E in Hx. simpl in Hx. destruct (w.(w_store) !! 0%nat) as [m|] eqn:Hm; [|discriminate]. injection Hx as Hr Hz.
    assert (HI : winv w).
    { pose proof (fresh_world_inv _ demo_machine_fresh) as H0. inversion Hrun as [|? w1 ? ? ? Ha Hr1 Hrest]; subst. inversion Hrest; subst.
      destruct (api_step _ _ H0 Ha) as (w' & Hr' & Hw'). congruence. }
    split_and!; [exact Hrun| |intros i d; apply (remove_running_hangs w 0 m); auto].
    apply (attach_running_hangs w 0 m _ (mk_mmio_dev 0x10000000 0x100 0 None None 1 8)); auto.
  - destruct (run_calls (fresh_world [demo_vm]) [AStart 0; AReset 0 false; AThread; AThread; AStart 0]) as [w|] eqn:E; [|vm_compute in E; discriminate].
    exists w. split; [apply run_calls_run; exact E|].
    assert (Hx : (fun w => (w.(w_machines), w.(w_manual), w.(w_thread))) <$> run_calls (fresh_world [demo_vm]) [AStart 0; AReset 0 false; AThread; AThread; AStart 0]
                 = Some ([0%nat], false, Some false)) by (vm_compute; reflexivity).
    rewrite E in Hx. injection Hx as -> -> ->. auto.
Qed.
