(* ===== verification/Intc.v ===== *)
(** * Interrupt lines and the machine (src/core/rvvm_irq.c)

    The machine as its harts, seen by the interrupt controllers: a controller raises and
    clears interrupt lines of harts.  The wired interrupt API allocates lines of a controller
    from a bitmap.  The loop over the set bits of a word, which the controllers share, is
    proved to visit exactly the set bits in ascending order. *)

From S2P Require Import Prelude BitOps MemOps Timer State Tlb CsrDefs Hart.

(** ** Harts of a machine *)

(** [vector_size(machine->harts)] and [vector_at(machine->harts, i)]. *)
Record machine := mk_machine { nharts : Z; hart_at : Z -> hart }.

Definition upd_hart (i : Z) (f : hart -> hart) (m : machine) : machine :=
  mk_machine m.(nharts) (<[i := f (m.(hart_at) i)]> m.(hart_at)).

(** Whether the interrupt line [irq] of hart [i] is raised. *)
Definition line (m : machine) (i irq : Z) : bool := Z.testbit (m.(hart_at) i).(pending_irqs) irq.

(** ** Loops over set bits *)

(** [while (irqs) { bit = bit_ctz32(irqs); ...; irqs &= ~bit_set32(bit); }] with the body
    [f]; there are at most 32 iterations. *)
Fixpoint bits_loop {A} (fuel : nat) (f : Z -> A -> A) (irqs : Z) (acc : A) : A :=
  match fuel with
  | O => acc
  | S fuel =>
      if nz irqs then
        let bit := bit_ctz32 irqs in
        bits_loop fuel f (irqs .& not32 (bit_set32 bit)) (f bit acc)
      else acc
  end.

(** ** Wired interrupts *)

Definition RVVM_IRQ_INVALID : Z := 0xFFFFFFFF.

(** The allocation state of [struct rvvm_irq_dev]. *)
Record irq_dev := mk_irq_dev { irq_map : Z -> Z; irq_base : Z; irq_phandle : Z }.

Definition rvvm_irq_dev_init : irq_dev := mk_irq_dev (fun _ => 0) 0 0.

Definition rvvm_irq_dev_set_base (dev : irq_dev) (base : Z) : irq_dev :=
  if dev.(irq_base) =? 0 then mk_irq_dev dev.(irq_map) base dev.(irq_phandle) else dev.

Definition rvvm_irq_dev_set_phandle (dev : irq_dev) (phandle : Z) : irq_dev :=
  mk_irq_dev dev.(irq_map) dev.(irq_base) phandle.

(** The loop over the four words of the bitmap, from word [cell] on.  No other thread
    allocates in between, so the inner loop returns or breaks in its first iteration. *)
Fixpoint irq_alloc_cells (fuel : nat) (dev : irq_dev) (irq cell : Z) : irq_dev * Z :=
  match fuel with
  | O => (dev, RVVM_IRQ_INVALID)
  | S fuel =>
      let bits := dev.(irq_map) cell in
      if nz (not32 bits) then
        let nbit := bit_ctz32 (not32 bits) in
        let curr := u32 ((cell .<< 5) + nbit + dev.(irq_base)) in
        if irq <=? curr then
          let mask := bit_set32 nbit in
          (mk_irq_dev (<[cell := bits .| mask]> dev.(irq_map)) dev.(irq_base) dev.(irq_phandle), curr)
        else irq_alloc_cells fuel dev irq (cell + 1)
      else irq_alloc_cells fuel dev irq (cell + 1)
  end.

Definition rvvm_irq_alloc (dev : irq_dev) (irq : Z) : irq_dev * Z := irq_alloc_cells 4 dev irq 0.

Definition rvvm_irq_dealloc (dev : irq_dev) (irq : Z) : irq_dev :=
  let cell := u32 (irq - dev.(irq_base)) .>> 5 in
  let nbit := u32 (irq - dev.(irq_base)) .& 0x1F in
  if cell <? 4 then
    mk_irq_dev (<[cell := dev.(irq_map) cell .& not32 (u32 (1 .<< nbit))]> dev.(irq_map)) dev.(irq_base) dev.(irq_phandle)
  else dev.

Definition rvvm_irq_alloc_exact (dev : irq_dev) (irq : Z) : irq_dev * bool :=
  let '(dev, ret) := rvvm_irq_alloc dev irq in
  let dev := if negb (ret =? irq) then rvvm_irq_dealloc dev ret else dev in
  (dev, ret =? irq).

(** ** Lemmas on words *)

Lemma testbit_not32 x i : 0 <= i -> Z.testbit (not32 x) i = (i <? 32) && negb (Z.testbit x i).
Proof. intros. unfold not32. by rewrite testbit_wrap, Z.lnot_spec by lia. Qed.

Lemma testbit_bit_set32 k i : 0 <= k < 32 -> Z.testbit (bit_set32 k) i = (i =? k).
Proof.
  intros Hk. unfold bit_set32. change 0x1F with (Z.ones 5). rewrite Z.land_ones, (Z.mod_small k) by lia.
  rewrite Z.shiftl_mul_pow2, Z.mul_1_l by lia.
  rewrite wrap_small by (split; [lia|apply Z.pow_lt_mono_r; lia]). apply testbit_pow2. lia.
Qed.

(** The bit of an interrupt number in its 32-bit word. *)
Lemma testbit_bit_set32_irq irq i : 0 <= irq -> Z.testbit (bit_set32 irq) i = (i =? irq mod 32).
Proof.
  intros Hi. rewrite <- (testbit_bit_set32 (irq mod 32)) by (apply Z.mod_pos_bound; lia). unfold bit_set32.
  change 0x1F with (Z.ones 5). rewrite !Z.land_ones, Z.mod_mod by lia. done.
Qed.

Lemma nz_testbit v : 0 <= v -> nz v = true -> exists i, 0 <= i /\ Z.testbit v i = true.
Proof.
  intros Hv Hn. exists (Z.log2 v). split; [apply Z.log2_nonneg|]. apply Z.bit_log2. unfold nz in Hn.
  destruct (Z.eqb_spec v 0); [done|lia].
Qed.

Lemma nz_land_set32 v irq : 0 <= irq -> nz (v .& bit_set32 irq) = Z.testbit v (irq mod 32).
Proof.
  intros Hi. destruct (nz (v .& bit_set32 irq)) eqn:E.
  - apply nz_testbit in E as (i & H0 & Hb).
    + rewrite Z.land_spec, testbit_bit_set32_irq in Hb by done. apply andb_true_iff in Hb as [Hb Hk].
      apply Z.eqb_eq in Hk. by subst.
    + apply Z.land_nonneg. right. apply (wrap_range 32). lia.
  - apply nz_false in E. destruct (Z.testbit v (irq mod 32)) eqn:Hb; [|done].
    assert (Z.testbit (v .& bit_set32 irq) (irq mod 32) = true) as Ht.
    { rewrite Z.land_spec, testbit_bit_set32_irq, Hb, Z.eqb_refl by done. done. }
    rewrite E, Z.testbit_0_l in Ht. done.
Qed.

Lemma bit_check32_testbit v irq : 0 <= irq -> bit_check32 v irq = Z.testbit v (irq mod 32).
Proof.
  intros Hi. unfold bit_check32. change 0x1F with (Z.ones 5). rewrite Z.land_ones by lia. change (2 ^ 5) with 32.
  pose proof (Z.mod_pos_bound irq 32 ltac:(lia)). change 0x01 with (Z.ones 1). rewrite Z.land_ones, Z.shiftr_div_pow2 by lia.
  rewrite <- (Z.b2z_bit0 (Z.testbit v (irq mod 32))), Z.testbit_spec' by lia. change (2 ^ 1) with 2.
  pose proof (Z.mod_pos_bound (v / 2 ^ (irq mod 32)) 2 ltac:(lia)).
  assert (v / 2 ^ (irq mod 32) mod 2 = 0 \/ v / 2 ^ (irq mod 32) mod 2 = 1) as [-> | ->] by lia; done.
Qed.

(** ** Loops over set bits *)

Lemma fold_left_ext {A} (f g : A -> Z -> A) l a : (forall a i, i ∈ l -> f a i = g a i) -> fold_left f l a = fold_left g l a.
Proof.
  revert a. induction l as [|i l IH]; intros a Hfg; [done|]. cbn [fold_left]. rewrite Hfg by constructor.
  apply IH. intros. apply Hfg. by constructor.
Qed.

Section BitsLoop.
Context {A : Type} (f : Z -> A -> A).

(** The loop is a pass over the bits in ascending order. *)
Lemma bits_loop_from n : forall fuel k irqs acc, (n <= fuel)%nat -> 0 <= k -> k + Z.of_nat n = 32 -> urange 32 irqs ->
  (forall i, 0 <= i < k -> Z.testbit irqs i = false) ->
  bits_loop fuel f irqs acc =
  fold_left (fun acc i => if Z.testbit irqs i then f i acc else acc) (seqZ k (Z.of_nat n)) acc.
Proof.
  induction n as [|n IH]; intros fuel k irqs acc Hf Hk Hn Hu Hlow.
  - assert (irqs = 0) as ->.
    { apply Z.bits_inj'. intros i Hi. rewrite Z.testbit_0_l. destruct (Z.lt_ge_cases i k); [by apply Hlow|].
      apply (testbit_above 32); [done|lia]. }
    by destruct fuel.
  - rewrite seqZ_cons by lia. cbn [fold_left]. replace (Z.pred (Z.of_nat (S n))) with (Z.of_nat n) by lia.
    destruct (Z.testbit irqs k) eqn:Hb.
    + destruct fuel as [|fuel]; [lia|]. cbn [bits_loop]. assert (0 < irqs) as Hp.
      { unfold urange in Hu. destruct (Z.eq_dec irqs 0) as [->|]; [by rewrite Z.testbit_0_l in Hb|lia]. }
      assert (bit_ctz32 irqs = k) as Hc.
      { unfold bit_ctz32, nz. destruct (Z.eqb_spec irqs 0); [lia|]. by apply ctz_unique. }
      unfold nz. destruct (Z.eqb_spec irqs 0); [lia|]. cbn [negb]. rewrite Hc.
      rewrite (IH fuel (Z.succ k)); [|lia|lia|lia|by apply urange_land_l|].
      * apply fold_left_ext. intros a i Hi. apply elem_of_seqZ in Hi. rewrite Z.land_spec, testbit_not32, testbit_bit_set32 by lia.
        destruct (Z.ltb_spec i 32), (Z.eqb_spec i k); try lia. by rewrite andb_true_r.
      * intros i Hi. rewrite Z.land_spec, testbit_not32, testbit_bit_set32 by lia.
        destruct (Z.eqb_spec i k); [by rewrite andb_false_r, andb_false_r|]. by rewrite Hlow by lia.
    + rewrite (IH fuel (Z.succ k)); [done|lia|lia|lia|done|]. intros i Hi. destruct (Z.eq_dec i k) as [->|]; [done|].
      apply Hlow. lia.
Qed.

Lemma bits_loop_fold irqs acc : urange 32 irqs ->
  bits_loop 32 f irqs acc = fold_left (fun acc i => if Z.testbit irqs i then f i acc else acc) (seqZ 0 32) acc.
Proof. intros. apply (bits_loop_from 32 32 0); [lia|lia|done|done|lia]. Qed.

End BitsLoop.

(** ** Interrupt lines of harts *)

Lemma pending_interrupt vm irq k : 0 <= irq < 32 -> 0 <= k ->
  Z.testbit (riscv_interrupt vm irq).(pending_irqs) k = Z.testbit vm.(pending_irqs) k || (k =? irq).
Proof.
  intros Hi Hk. assert ((riscv_interrupt vm irq).(pending_irqs) = vm.(pending_irqs) .| bit_set32 irq) as ->.
  { unfold riscv_interrupt, riscv_interrupt_set. by destruct (nz _). }
  by rewrite Z.lor_spec, testbit_bit_set32.
Qed.

Lemma pending_interrupt_clear vm irq k : 0 <= irq < 32 -> 0 <= k < 32 ->
  Z.testbit (riscv_interrupt_clear vm irq).(pending_irqs) k = Z.testbit vm.(pending_irqs) k && negb (k =? irq).
Proof.
  intros Hi Hk. unfold riscv_interrupt_clear. cbn [pending_irqs set_pending_irqs].
  assert (u32 (1 .<< irq) = bit_set32 irq) as ->.
  { unfold bit_set32. change 0x1F with (Z.ones 5). by rewrite Z.land_ones, Z.mod_small by lia. }
  rewrite Z.land_spec, testbit_not32, testbit_bit_set32 by lia. by destruct (Z.ltb_spec k 32); [|lia].
Qed.

Lemma line_raise m i irq j k : 0 <= irq < 32 -> 0 <= k ->
  line (upd_hart i (fun h => riscv_interrupt h irq) m) j k = line m j k || (i =? j) && (k =? irq).
Proof.
  intros Hi Hk. unfold line, upd_hart. cbn [hart_at]. rewrite fupd_dec. destruct (Z.eqb_spec i j) as [->|].
  - by rewrite pending_interrupt by done.
  - by rewrite orb_false_r.
Qed.

Lemma line_clear m i irq j k : 0 <= irq < 32 -> 0 <= k < 32 ->
  line (upd_hart i (fun h => riscv_interrupt_clear h irq) m) j k = line m j k && negb ((i =? j) && (k =? irq)).
Proof.
  intros Hi Hk. unfold line, upd_hart. cbn [hart_at]. rewrite fupd_dec. destruct (Z.eqb_spec i j) as [->|].
  - by rewrite pending_interrupt_clear by done.
  - by rewrite andb_true_r.
Qed.

(** ** Allocation of interrupt lines *)

(** Line number [n] above the base. *)
Definition allocated (dev : irq_dev) (n : Z) : bool := Z.testbit (dev.(irq_map) (n / 32)) (n mod 32).

Record irq_dev_wf (dev : irq_dev) : Prop := mk_irq_dev_wf {
  wf_irq_map : forall c, urange 32 (dev.(irq_map) c);
  wf_irq_base : 0 <= dev.(irq_base) < 2 ^ 31
}.

(** [dev] with line [n] allocated. *)
Definition mark (n : Z) (dev dev' : irq_dev) : Prop :=
  dev'.(irq_base) = dev.(irq_base) /\ dev'.(irq_phandle) = dev.(irq_phandle) /\
  forall m, 0 <= m -> allocated dev' m = allocated dev m || (m =? n).

Lemma first_zero bits : urange 32 bits -> nz (not32 bits) = true ->
  0 <= bit_ctz32 (not32 bits) < 32 /\ Z.testbit bits (bit_ctz32 (not32 bits)) = false /\
  forall i, 0 <= i < bit_ctz32 (not32 bits) -> Z.testbit bits i = true.
Proof.
  intros Hb Hn. pose proof (not32_range bits) as Hr. unfold bit_ctz32. rewrite Hn. unfold nz, urange in *.
  destruct (not32 bits) as [|p|p] eqn:E; [done| |lia]. cbn [builtin_ctz].
  pose proof (pos_ctz_nonneg p). pose proof (pos_ctz_lt p 32 ltac:(lia)). destruct (ctz_spec p) as [C1 C2].
  rewrite <- E in C1, C2. rewrite testbit_not32 in C1 by lia. split; [lia|]. split.
  - destruct (Z.testbit bits (pos_ctz p)); [|done]. by rewrite andb_false_r in C1.
  - intros i Hi. specialize (C2 i Hi). rewrite testbit_not32 in C2 by lia. destruct (Z.ltb_spec i 32); [|lia].
    by destruct (Z.testbit bits i).
Qed.

Lemma alloc_cells_spec fuel : forall dev irq cell, irq_dev_wf dev -> 0 <= cell -> cell + Z.of_nat fuel <= 4 ->
  let '(dev', r) := irq_alloc_cells fuel dev irq cell in
  (r = RVVM_IRQ_INVALID /\ dev' = dev) \/
  (exists n, 32 * cell <= n < 128 /\ r = n + dev.(irq_base) /\ irq <= r /\ allocated dev n = false /\ mark n dev dev').
Proof.
  induction fuel as [|fuel IH]; intros dev irq cell Hw Hc Hf; cbn [irq_alloc_cells]; [by left|].
  assert (let '(dev', r) := irq_alloc_cells fuel dev irq (cell + 1) in
    (r = RVVM_IRQ_INVALID /\ dev' = dev) \/
    (exists n, 32 * cell <= n < 128 /\ r = n + dev.(irq_base) /\ irq <= r /\ allocated dev n = false /\ mark n dev dev')) as Hnext.
  { specialize (IH dev irq (cell + 1) Hw ltac:(lia) ltac:(lia)). destruct (irq_alloc_cells fuel dev irq (cell + 1)).
    destruct IH as [?|(n & Hn & ?)]; [by left|right]. exists n. split; [lia|done]. }
  destruct (nz (not32 (irq_map dev cell))) eqn:Hz; [|done].
  destruct (first_zero _ (wf_irq_map _ Hw cell) Hz) as (Hr & Hb & _).
  set (b := bit_ctz32 _) in *. pose proof (wf_irq_base _ Hw).
  rewrite Z.shiftl_mul_pow2 by lia. rewrite (wrap_small 32) by (unfold urange; lia).
  destruct (Z.leb_spec irq (cell * 2 ^ 5 + b + irq_base dev)); [|done].
  right. exists (32 * cell + b). assert ((32 * cell + b) / 32 = cell /\ (32 * cell + b) mod 32 = b) as [Ed Em] by dlia.
  split_and!; [lia|lia|lia|lia|unfold allocated; by rewrite Ed, Em|].
  split; [done|split; [done|]]. intros m Hm. unfold allocated. cbn [irq_map].
  rewrite fupd_dec. destruct (Z.eqb_spec cell (m / 32)) as [->|].
  - rewrite Z.lor_spec, testbit_bit_set32 by lia. f_equal. destruct (Z.eqb_spec (m mod 32) b), (Z.eqb_spec m (32 * (m / 32) + b)); try done; dlia.
  - destruct (Z.eqb_spec m (32 * cell + b)); [subst; lia|by rewrite orb_false_r].
Qed.

(** interrupt lines are allocated soundly.  An allocation either fails and changes
    nothing, or returns a line that is not below the suggested one, was free, and is marked
    as allocated while every other line keeps its state; so no line is handed out twice.
    Returning the line restores the allocation state. *)
Theorem irq_alloc_sound dev irq : irq_dev_wf dev ->
  let '(dev', r) := rvvm_irq_alloc dev irq in
  (r = RVVM_IRQ_INVALID /\ dev' = dev) \/
  (exists n, 0 <= n < 128 /\ r = n + dev.(irq_base) /\ irq <= r /\ allocated dev n = false /\ mark n dev dev' /\
     forall m, 0 <= m -> allocated (rvvm_irq_dealloc dev' r) m = allocated dev m).
Proof.
  intros Hw. pose proof (alloc_cells_spec 4 dev irq 0 Hw ltac:(lia) ltac:(lia)) as Ha. unfold rvvm_irq_alloc.
  destruct (irq_alloc_cells 4 dev irq 0) as [dev' r]. destruct Ha as [?|(n & Hn & -> & Hle & Hfree & Hm)]; [by left|].
  right. exists n. split_and!; [lia|lia|done|done|done|done|]. intros m Hm0.
  destruct Hm as (Eb & _ & Hall). unfold rvvm_irq_dealloc. rewrite Eb. replace (n + irq_base dev - irq_base dev) with n by lia.
  rewrite (wrap_small 32 n) by (unfold urange; lia). rewrite Z.shiftr_div_pow2 by lia. change (2 ^ 5) with 32.
  change 0x1F with (Z.ones 5). rewrite Z.land_ones by lia. change (2 ^ 5) with 32.
  destruct (Z.ltb_spec (n / 32) 4); [|dlia]. specialize (Hall m Hm0). unfold allocated in *. cbn [irq_map].
  pose proof (Z.mod_pos_bound n 32 ltac:(lia)). pose proof (Z.mod_pos_bound m 32 ltac:(lia)).
  assert (u32 (1 .<< (n mod 32)) = bit_set32 (n mod 32)) as ->.
  { unfold bit_set32. change 0x1F with (Z.ones 5). rewrite Z.land_ones by lia. change (2 ^ 5) with 32. by rewrite Z.mod_mod by lia. }
  rewrite fupd_dec. destruct (Z.eqb_spec (n / 32) (m / 32)) as [Ed|Ed].
  - rewrite Z.land_spec, testbit_not32, testbit_bit_set32, Ed, Hall by lia.
    destruct (Z.ltb_spec (m mod 32) 32); [|lia]. destruct (Z.eqb_spec m n) as [Emn|].
    + rewrite Emn, Z.eqb_refl, andb_false_r. by rewrite Hfree.
    + rewrite orb_false_r. destruct (Z.eqb_spec (m mod 32) (n mod 32)); [dlia|]. by rewrite andb_true_r.
  - rewrite Hall. destruct (Z.eqb_spec m n); [congruence|by rewrite orb_false_r].
Qed.

(** The controller of the PLIC: lines start at 1. *)
Definition demo_irq_dev : irq_dev := rvvm_irq_dev_set_base rvvm_irq_dev_init 1.

Lemma irq_alloc_sound_witness :
  snd (rvvm_irq_alloc demo_irq_dev 0) = 1 /\
  allocated (rvvm_irq_dealloc (fst (rvvm_irq_alloc demo_irq_dev 0)) 1) 0 = false.
Proof.
  destruct (irq_alloc_sound demo_irq_dev 0) as [[Hr _]|(n & _ & Hr & _ & _ & _ & Hd)].
  - constructor; cbn; [intros; split; [discriminate|reflexivity]|split; [discriminate|reflexivity]].
  - discriminate Hr.
  - split; [reflexivity|]. exact (Hd 0 ltac:(discriminate)).
Defined.

(** A specific free line may be refused.  The search takes only the lowest free line of
    each group of 32 into account: with every line free, asking for exactly line 5 finds 33,
    which is given back, and the allocation of line 5 fails. *)
Theorem irq_alloc_exact_refuses_free :
  allocated demo_irq_dev (5 - demo_irq_dev.(irq_base)) = false /\
  snd (rvvm_irq_alloc demo_irq_dev 5) = 33 /\ snd (rvvm_irq_alloc_exact demo_irq_dev 5) = false.
Proof. split_and!; reflexivity. Qed.
