(* ===== verification/Plic.v ===== *)
(** * Platform-level interrupt controller (src/devices/riscv-plic.c)

    The controller drives the external interrupt lines of the harts.  A context is a hart and
    a privilege level.  Theorems: a claim returns the pending enabled interrupt of highest
    priority and clears exactly it; an update makes the line of a context say whether an
    interrupt above its threshold is pending; a raised interrupt that some context can take
    is signalled; three ways to lose one. *)

From S2P Require Import Prelude BitOps MemOps Timer State Tlb CsrDefs Hart Intc.

Definition PLIC_SRC_LIMIT : Z := 64.
Definition PLIC_SRC_REGS : Z := 2.

(** [plic_dev_t] and the harts of its machine. *)
Record plic_dev := mk_plic {
  plic_machine : machine;
  plic_prio : Z -> Z;
  plic_pending : Z -> Z;
  plic_raised : Z -> Z;
  plic_enable : Z -> Z -> Z;
  plic_threshold : Z -> Z
}.

Definition set_plic_machine (m : machine) (p : plic_dev) : plic_dev :=
  mk_plic m p.(plic_prio) p.(plic_pending) p.(plic_raised) p.(plic_enable) p.(plic_threshold).
Definition set_plic_prio (i v : Z) (p : plic_dev) : plic_dev :=
  mk_plic p.(plic_machine) (<[i := v]> p.(plic_prio)) p.(plic_pending) p.(plic_raised) p.(plic_enable) p.(plic_threshold).
Definition set_plic_pending (i v : Z) (p : plic_dev) : plic_dev :=
  mk_plic p.(plic_machine) p.(plic_prio) (<[i := v]> p.(plic_pending)) p.(plic_raised) p.(plic_enable) p.(plic_threshold).
Definition set_plic_raised (i v : Z) (p : plic_dev) : plic_dev :=
  mk_plic p.(plic_machine) p.(plic_prio) p.(plic_pending) (<[i := v]> p.(plic_raised)) p.(plic_enable) p.(plic_threshold).
Definition set_plic_enable (c i v : Z) (p : plic_dev) : plic_dev :=
  mk_plic p.(plic_machine) p.(plic_prio) p.(plic_pending) p.(plic_raised)
    (<[c := <[i := v]> (p.(plic_enable) c)]> p.(plic_enable)) p.(plic_threshold).
Definition set_plic_threshold (c v : Z) (p : plic_dev) : plic_dev :=
  mk_plic p.(plic_machine) p.(plic_prio) p.(plic_pending) p.(plic_raised) p.(plic_enable) (<[c := v]> p.(plic_threshold)).

Definition plic_ctx_prio (ctx : Z) : Z :=
  if nz (ctx .& 1) then RISCV_INTERRUPT_SEXTERNAL else RISCV_INTERRUPT_MEXTERNAL.
Definition plic_ctx_hartid (ctx : Z) : Z := ctx .>> 1.
Definition plic_ctx_count (p : plic_dev) : Z := u32 (p.(plic_machine).(nharts) .<< 1).

(** [riscv_interrupt] and [riscv_interrupt_clear] on the line of a context. *)
Definition plic_interrupt (p : plic_dev) (ctx : Z) : plic_dev :=
  set_plic_machine (upd_hart (plic_ctx_hartid ctx) (fun h => riscv_interrupt h (plic_ctx_prio ctx)) p.(plic_machine)) p.
Definition plic_interrupt_clear (p : plic_dev) (ctx : Z) : plic_dev :=
  set_plic_machine (upd_hart (plic_ctx_hartid ctx) (fun h => riscv_interrupt_clear h (plic_ctx_prio ctx)) p.(plic_machine)) p.

Definition plic_irq_pending (p : plic_dev) (irq : Z) : bool := bit_check32 (p.(plic_pending) (irq .>> 5)) irq.
Definition plic_irq_enabled (p : plic_dev) (ctx irq : Z) : bool := bit_check32 (p.(plic_enable) ctx (irq .>> 5)) irq.

Definition plic_notify_ctx_irq (p : plic_dev) (ctx irq : Z) : plic_dev * bool :=
  if negb (plic_irq_enabled p ctx irq) then (p, false)
  else if p.(plic_prio) irq <=? p.(plic_threshold) ctx then (p, false)
  else (plic_interrupt p ctx, true).

(** The loop of [plic_notify_irq] from context [ctx] on. *)
Fixpoint notify_loop (fuel : nat) (p : plic_dev) (ctx irq : Z) : plic_dev :=
  match fuel with
  | O => p
  | S fuel =>
      let '(p, done) := plic_notify_ctx_irq p ctx irq in
      if done then p else notify_loop fuel p (ctx + 1) irq
  end.

Definition plic_notify_irq (p : plic_dev) (irq : Z) : plic_dev :=
  notify_loop (Z.to_nat (plic_ctx_count p)) p 0 irq.

Definition plic_update_ctx_irq_reg (p : plic_dev) (ctx reg : Z) : plic_dev :=
  let irqs := p.(plic_pending) reg .& p.(plic_enable) ctx reg in
  bits_loop 32 (fun bit p => plic_notify_irq p ((reg .<< 5) .| bit)) irqs p.

(** The locals [signals], [max_irq] and [max_prio] of [plic_update_ctx]. *)
Record plic_scan := mk_scan { scan_signals : Z; scan_irq : Z; scan_prio : Z }.

Definition scan_irq_step (p : plic_dev) (threshold reg bit : Z) (s : plic_scan) : plic_scan :=
  let irq := (reg .<< 5) .| bit in
  let prio := p.(plic_prio) irq in
  let signals := if threshold <? prio then u32 (s.(scan_signals) + 1) else s.(scan_signals) in
  if s.(scan_prio) <? prio then mk_scan signals irq prio else mk_scan signals s.(scan_irq) s.(scan_prio).

Fixpoint scan_regs (fuel : nat) (p : plic_dev) (ctx threshold reg : Z) (s : plic_scan) : plic_scan :=
  match fuel with
  | O => s
  | S fuel =>
      let irqs := p.(plic_pending) reg .& p.(plic_enable) ctx reg in
      scan_regs fuel p ctx threshold (reg + 1) (bits_loop 32 (scan_irq_step p threshold reg) irqs s)
  end.

Definition plic_update_ctx (p : plic_dev) (ctx : Z) (claim : bool) : plic_dev * Z :=
  let threshold := p.(plic_threshold) ctx in
  let p := plic_interrupt_clear p ctx in
  let s := scan_regs (Z.to_nat PLIC_SRC_REGS) p ctx threshold 0 (mk_scan 0 0 0) in
  let signals := if claim && (threshold <? s.(scan_prio)) then u32 (s.(scan_signals) - 1) else s.(scan_signals) in
  let p := if nz signals then plic_interrupt p ctx else p in
  (p, s.(scan_irq)).

Fixpoint full_update_loop (fuel : nat) (p : plic_dev) (ctx : Z) : plic_dev :=
  match fuel with
  | O => p
  | S fuel => full_update_loop fuel (fst (plic_update_ctx p ctx false)) (ctx + 1)
  end.

Definition plic_full_update (p : plic_dev) : plic_dev := full_update_loop (Z.to_nat (plic_ctx_count p)) p 0.

(** ** Register accesses *)

Definition plic_set_irq_prio (p : plic_dev) (irq prio : Z) : plic_dev :=
  if nz irq && (irq <? PLIC_SRC_LIMIT) then
    let old_prio := p.(plic_prio) irq in
    let p := set_plic_prio irq prio p in
    if prio <? old_prio then
      if plic_irq_pending p irq then plic_full_update p else p
    else if (old_prio <? prio) && plic_irq_pending p irq then plic_notify_irq p irq
    else p
  else p.

Definition plic_set_enable_bits (p : plic_dev) (ctx reg enable : Z) : plic_dev :=
  if (ctx <? plic_ctx_count p) && (reg <? PLIC_SRC_REGS) then
    let old_enable := p.(plic_enable) ctx reg in
    let p := set_plic_enable ctx reg enable p in
    let irqs_disabled := old_enable .& not32 enable in
    if nz irqs_disabled then
      if nz (irqs_disabled .& p.(plic_pending) reg) then plic_full_update p else p
    else if nz (enable .& not32 old_enable) then plic_update_ctx_irq_reg p ctx reg
    else p
  else p.

Definition plic_set_ctx_threshold (p : plic_dev) (ctx threshold : Z) : plic_dev :=
  if ctx <? plic_ctx_count p then
    let old_threshold := p.(plic_threshold) ctx in
    let p := set_plic_threshold ctx threshold p in
    if negb (old_threshold =? threshold) then fst (plic_update_ctx p ctx false) else p
  else p.

(** The [do ... while] of [plic_claim_irq]; [None] when the fuel does not suffice. *)
Fixpoint claim_loop (fuel : nat) (p : plic_dev) (ctx : Z) : option (plic_dev * Z) :=
  match fuel with
  | O => None
  | S fuel =>
      let '(p, irq) := plic_update_ctx p ctx true in
      let mask := bit_set32 irq in
      if nz irq then
        let old := p.(plic_pending) (irq .>> 5) in
        let p := set_plic_pending (irq .>> 5) (old .& not32 mask) p in
        if negb (nz (old .& mask)) then claim_loop fuel p ctx else Some (p, irq)
      else Some (p, irq)
  end.

Definition plic_claim_irq (fuel : nat) (p : plic_dev) (ctx : Z) : option (plic_dev * Z) :=
  if ctx <? plic_ctx_count p then claim_loop fuel p ctx else Some (p, 0).

Definition plic_complete_irq (p : plic_dev) (ctx irq : Z) : plic_dev :=
  if (ctx <? plic_ctx_count p) && (irq <? PLIC_SRC_LIMIT) then
    let raised := p.(plic_raised) (irq .>> 5) .& bit_set32 irq in
    if nz raised then
      let p := set_plic_pending (irq .>> 5) (p.(plic_pending) (irq .>> 5) .| raised) p in
      fst (plic_notify_ctx_irq p ctx irq)
    else p
  else p.

(** One claim of a sequential hart needs one iteration. *)
Definition plic_mmio_read (p : plic_dev) (off : Z) : plic_dev * Z :=
  if 0x200000 <=? off then
    let ctx := u32 ((off - 0x200000) .>> 12) in
    let reg := (off - 0x200000) .& 0xFFF in
    if reg =? 0x00 then (p, if ctx <? plic_ctx_count p then p.(plic_threshold) ctx else 0)
    else if reg =? 0x04 then default (p, 0) (plic_claim_irq 1 p ctx)
    else (p, 0)
  else if 0x2000 <=? off then
    let reg := u32 ((off - 0x2000) .>> 2) .& 0x1F in
    let ctx := u32 ((off - 0x2000) .>> 7) in
    (p, if (reg <? PLIC_SRC_REGS) && (ctx <? plic_ctx_count p) then p.(plic_enable) ctx reg else 0)
  else if 0x1000 <=? off then
    let reg := u32 ((off - 0x1000) .>> 2) in
    (p, if reg <? PLIC_SRC_REGS then p.(plic_pending) reg else 0)
  else
    let irq := u32 (off .>> 2) in
    (p, if nz irq && (irq <? PLIC_SRC_LIMIT) then p.(plic_prio) irq else 0).

Definition plic_mmio_write (p : plic_dev) (val off : Z) : plic_dev :=
  if 0x200000 <=? off then
    let ctx := u32 ((off - 0x200000) .>> 12) in
    let reg := (off - 0x200000) .& 0xFFF in
    if reg =? 0x00 then plic_set_ctx_threshold p ctx val
    else if reg =? 0x04 then plic_complete_irq p ctx val
    else p
  else if 0x2000 <=? off then
    let reg := u32 ((off - 0x2000) .>> 2) .& 0x1F in
    let ctx := u32 ((off - 0x2000) .>> 7) in
    plic_set_enable_bits p ctx reg val
  else plic_set_irq_prio p (u32 (off .>> 2)) val.

(** The device side: the level of an interrupt line changes. *)
Definition plic_set_irq (p : plic_dev) (irq : Z) (lvl : bool) : plic_dev :=
  if (0 <? irq) && (irq <? PLIC_SRC_LIMIT) then
    let reg := irq .>> 5 in
    let mask := bit_set32 irq in
    if lvl then
      let old := p.(plic_raised) reg in
      let p := set_plic_raised reg (old .| mask) p in
      if negb (nz (old .& mask)) then
        let old := p.(plic_pending) reg in
        let p := set_plic_pending reg (old .| mask) p in
        if negb (nz (old .& mask)) then plic_notify_irq p irq else p
      else p
    else set_plic_raised reg (p.(plic_raised) reg .& not32 mask) p
  else p.

Definition rvvm_riscv_plic_init (m : machine) : plic_dev :=
  mk_plic m (fun _ => 0) (fun _ => 0) (fun _ => 0) (fun _ _ => 0) (fun _ => 0).

(** ** What the controller promises *)

(** Interrupt [irq] is pending and enabled for [ctx]; above the threshold of [ctx], it can
    be delivered. *)
Definition candidate (p : plic_dev) (ctx irq : Z) : bool :=
  Z.testbit (p.(plic_pending) (irq / 32)) (irq mod 32) && Z.testbit (p.(plic_enable) ctx (irq / 32)) (irq mod 32).
Definition deliverable (p : plic_dev) (ctx irq : Z) : bool :=
  candidate p ctx irq && (p.(plic_threshold) ctx <? p.(plic_prio) irq).

Definition sources : list Z := seqZ 0 PLIC_SRC_LIMIT.

(** Some interrupt can be delivered to [ctx]; the interrupt line of [ctx]. *)
Definition signalled (p : plic_dev) (ctx : Z) : bool := existsb (deliverable p ctx) sources.
Definition ctx_line (p : plic_dev) (ctx : Z) : bool := line p.(plic_machine) (plic_ctx_hartid ctx) (plic_ctx_prio ctx).

Record plic_wf (p : plic_dev) : Prop := mk_plic_wf {
  wf_plic_harts : 0 <= p.(plic_machine).(nharts) < 2 ^ 31;
  wf_plic_prio0 : p.(plic_prio) 0 = 0;
  wf_plic_prio : forall i, urange 32 (p.(plic_prio) i);
  wf_plic_pending : forall r, urange 32 (p.(plic_pending) r);
  wf_plic_enable : forall c r, urange 32 (p.(plic_enable) c r);
  wf_plic_threshold : forall c, urange 32 (p.(plic_threshold) c)
}.

(** Only the lines of harts differ. *)
Definition same_regs (p p' : plic_dev) : Prop :=
  p'.(plic_machine).(nharts) = p.(plic_machine).(nharts) /\
  p' = set_plic_machine p'.(plic_machine) p.

(** No interrupt is lost: a pending interrupt some context can take is signalled to a
    context that can take it. *)
Definition no_lost (p : plic_dev) : Prop :=
  forall irq ctx, 0 <= irq < PLIC_SRC_LIMIT -> 0 <= ctx < plic_ctx_count p -> deliverable p ctx irq = true ->
  exists ctx', 0 <= ctx' < plic_ctx_count p /\ deliverable p ctx' irq = true /\ ctx_line p ctx' = true.

(** ** Contexts and lines *)

Lemma ctx_count_eq p : plic_wf p -> plic_ctx_count p = 2 * p.(plic_machine).(nharts).
Proof.
  intros Hw. pose proof (wf_plic_harts _ Hw). unfold plic_ctx_count. rewrite Z.shiftl_mul_pow2, wrap_small by (unfold urange; lia).
  lia.
Qed.

Lemma ctx_prio_range ctx : 0 <= plic_ctx_prio ctx < 32.
Proof. unfold plic_ctx_prio, RISCV_INTERRUPT_SEXTERNAL, RISCV_INTERRUPT_MEXTERNAL. destruct (nz _); lia. Qed.

Lemma ctx_line_inj c d : 0 <= c -> 0 <= d ->
  (plic_ctx_hartid c =? plic_ctx_hartid d) && (plic_ctx_prio d =? plic_ctx_prio c) = (c =? d).
Proof.
  intros. unfold plic_ctx_hartid, plic_ctx_prio, RISCV_INTERRUPT_SEXTERNAL, RISCV_INTERRUPT_MEXTERNAL, nz.
  assert (forall z, z .& 1 = z mod 2) as E by (intros; by apply (Z.land_ones z 1)). rewrite !E.
  rewrite !Z.shiftr_div_pow2 by lia. change (2 ^ 1) with 2.
  destruct (Z.eqb_spec (c mod 2) 0), (Z.eqb_spec (d mod 2) 0), (Z.eqb_spec (c / 2) (d / 2)), (Z.eqb_spec c d);
    cbn [negb andb Z.eqb Pos.eqb]; try done; dlia.
Qed.

Lemma ctx_line_interrupt p c d : 0 <= c -> 0 <= d -> ctx_line (plic_interrupt p c) d = ctx_line p d || (c =? d).
Proof.
  intros. unfold ctx_line, plic_interrupt. cbn [plic_machine set_plic_machine].
  pose proof (ctx_prio_range d). pose proof (ctx_prio_range c). rewrite line_raise by lia. by rewrite ctx_line_inj.
Qed.

Lemma ctx_line_interrupt_clear p c d : 0 <= c -> 0 <= d ->
  ctx_line (plic_interrupt_clear p c) d = ctx_line p d && negb (c =? d).
Proof.
  intros. unfold ctx_line, plic_interrupt_clear. cbn [plic_machine set_plic_machine].
  pose proof (ctx_prio_range d). pose proof (ctx_prio_range c). rewrite line_clear by lia. by rewrite ctx_line_inj.
Qed.

#[export] Instance same_regs_refl : Reflexive same_regs.
Proof. intros []. done. Qed.
#[export] Instance same_regs_trans : Transitive same_regs.
Proof.
  intros a b c [Ha Ea] [Hb Eb]. split; [congruence|]. rewrite Eb. cbn. rewrite Ea. done.
Qed.

Lemma same_interrupt p c : same_regs p (plic_interrupt p c).
Proof. done. Qed.
Lemma same_interrupt_clear p c : same_regs p (plic_interrupt_clear p c).
Proof. done. Qed.

(** What does not depend on the lines. *)
Lemma same_wf p p' : same_regs p p' -> plic_wf p -> plic_wf p'.
Proof. intros [Hn ->] []. constructor; cbn; auto. by rewrite Hn. Qed.
Lemma same_candidate p p' : same_regs p p' -> candidate p' = candidate p.
Proof. intros [_ ->]. done. Qed.
Lemma same_deliverable p p' : same_regs p p' -> deliverable p' = deliverable p.
Proof. intros [_ ->]. done. Qed.
Lemma same_signalled p p' : same_regs p p' -> signalled p' = signalled p.
Proof. intros [_ ->]. done. Qed.
Lemma same_count p p' : same_regs p p' -> plic_ctx_count p' = plic_ctx_count p.
Proof. intros [Hn _]. unfold plic_ctx_count. by rewrite Hn. Qed.

(** ** Notification *)

Lemma irq_word irq : irq .>> 5 = irq / 32.
Proof. by rewrite Z.shiftr_div_pow2. Qed.

Lemma notify_ctx_eq p ctx irq : 0 <= irq -> Z.testbit (p.(plic_pending) (irq / 32)) (irq mod 32) = true ->
  plic_notify_ctx_irq p ctx irq = if deliverable p ctx irq then (plic_interrupt p ctx, true) else (p, false).
Proof.
  intros Hi Hp. unfold plic_notify_ctx_irq, plic_irq_enabled, deliverable, candidate.
  rewrite bit_check32_testbit, irq_word, Hp by done. cbn [andb].
  destruct (Z.testbit (plic_enable p ctx (irq / 32)) (irq mod 32)); [|done]. cbn [negb andb].
  destruct (Z.leb_spec (plic_prio p irq) (plic_threshold p ctx)), (Z.ltb_spec (plic_threshold p ctx) (plic_prio p irq)); done || lia.
Qed.

(** Lines are only raised, of contexts that can take the interrupt. *)
Lemma notify_loop_spec fuel : forall p ctx irq, 0 <= ctx -> 0 <= irq ->
  Z.testbit (p.(plic_pending) (irq / 32)) (irq mod 32) = true ->
  let p' := notify_loop fuel p ctx irq in
  same_regs p p' /\ (forall d, 0 <= d -> ctx_line p d = true -> ctx_line p' d = true) /\
  (forall c, ctx <= c < ctx + Z.of_nat fuel -> deliverable p c irq = true ->
   exists c', ctx <= c' <= c /\ deliverable p c' irq = true /\ ctx_line p' c' = true).
Proof.
  induction fuel as [|fuel IH]; intros p ctx irq Hc Hi Hp; cbn [notify_loop]; [split_and!; done || lia|].
  rewrite notify_ctx_eq by done. destruct (deliverable p ctx irq) eqn:Hd.
  - cbv zeta. split_and!; [done| |].
    + intros d H0 Hl. rewrite ctx_line_interrupt, Hl by done. done.
    + intros c Hcr _. exists ctx. split_and!; [lia|lia|done|]. rewrite ctx_line_interrupt, Z.eqb_refl by done. apply orb_true_r.
  - destruct (IH p (ctx + 1) irq ltac:(lia) Hi Hp) as (H1 & H2 & H3). split_and!; [done|done|].
    intros c Hcr Hdc. destruct (Z.eq_dec c ctx) as [->|]; [congruence|].
    destruct (H3 c ltac:(lia) Hdc) as (c' & Hc' & ?). exists c'. split; [lia|done].
Qed.

Lemma notify_irq_spec p irq : plic_wf p -> 0 <= irq -> Z.testbit (p.(plic_pending) (irq / 32)) (irq mod 32) = true ->
  let p' := plic_notify_irq p irq in
  same_regs p p' /\ (forall d, 0 <= d -> ctx_line p d = true -> ctx_line p' d = true) /\
  (forall c, 0 <= c < plic_ctx_count p -> deliverable p c irq = true ->
   exists c', 0 <= c' < plic_ctx_count p /\ deliverable p c' irq = true /\ ctx_line p' c' = true).
Proof.
  intros Hw Hi Hp. destruct (notify_loop_spec (Z.to_nat (plic_ctx_count p)) p 0 irq ltac:(lia) Hi Hp) as (H1 & H2 & H3).
  split_and!; [done|done|]. intros c Hc Hd. destruct (H3 c ltac:(lia) Hd) as (c' & Hc' & ?). exists c'. split; [lia|done].
Qed.

(** ** The scan for the highest priority *)

(** The step of the scan for interrupt [irq] if it is a candidate. *)
Definition scan_source (p : plic_dev) (ctx threshold : Z) (s : plic_scan) (irq : Z) : plic_scan :=
  if candidate p ctx irq then scan_irq_step p threshold (irq / 32) (irq mod 32) s else s.

Lemma fold_left_seqZ_shift {A} (f : A -> Z -> A) k n a :
  fold_left f (seqZ k n) a = fold_left (fun a i => f a (k + i)) (seqZ 0 n) a.
Proof.
  rewrite <- (Z.add_0_r k) at 1. rewrite <- fmap_add_seqZ. generalize (seqZ 0 n). intros l. revert a.
  induction l as [|i l IH]; intros a; [done|]. cbn. apply IH.
Qed.

Lemma scan_reg_fold p ctx threshold reg s : plic_wf p -> 0 <= reg ->
  bits_loop 32 (scan_irq_step p threshold reg) (p.(plic_pending) reg .& p.(plic_enable) ctx reg) s =
  fold_left (scan_source p ctx threshold) (seqZ (32 * reg) 32) s.
Proof.
  intros Hw Hr. rewrite bits_loop_fold by (apply urange_land_l; [lia|apply Hw]).
  rewrite (fold_left_seqZ_shift _ (32 * reg)). apply fold_left_ext. intros a i Hi. apply elem_of_seqZ in Hi.
  unfold scan_source, candidate. assert ((32 * reg + i) / 32 = reg /\ (32 * reg + i) mod 32 = i) as [-> ->] by dlia.
  by rewrite Z.land_spec.
Qed.

Lemma scan_fold p ctx threshold s : plic_wf p ->
  scan_regs (Z.to_nat PLIC_SRC_REGS) p ctx threshold 0 s = fold_left (scan_source p ctx threshold) sources s.
Proof.
  intros Hw. change (Z.to_nat PLIC_SRC_REGS) with 2%nat. cbn [scan_regs]. rewrite !scan_reg_fold by (done || lia).
  rewrite <- fold_left_app. f_equal.
Qed.

(** What the scan has found among the interrupts of [l]. *)
Record scan_ok (p : plic_dev) (ctx threshold : Z) (l : list Z) (s : plic_scan) : Prop := mk_scan_ok {
  scan_max : forall i, i ∈ l -> candidate p ctx i = true -> p.(plic_prio) i <= s.(scan_prio);
  scan_best : (s.(scan_prio) = 0 /\ s.(scan_irq) = 0) \/
    (s.(scan_irq) ∈ l /\ candidate p ctx s.(scan_irq) = true /\ p.(plic_prio) s.(scan_irq) = s.(scan_prio) /\
     0 < s.(scan_prio) /\
     forall i, i ∈ l -> candidate p ctx i = true -> i < s.(scan_irq) -> p.(plic_prio) i < s.(scan_prio));
  scan_count : s.(scan_signals) =
    Z.of_nat (length (List.filter (fun i => candidate p ctx i && (threshold <? p.(plic_prio) i)) l))
}.

Lemma scan_source_ok p ctx threshold n s : plic_wf p -> 0 <= n < 2 ^ 32 - 1 ->
  scan_ok p ctx threshold (seqZ 0 n) s -> scan_ok p ctx threshold (seqZ 0 n ++ [n]) (scan_source p ctx threshold s n).
Proof.
  intros Hw Hn [Hmax Hbest Hcnt]. unfold scan_source, scan_irq_step.
  assert ((n / 32 .<< 5) .| n mod 32 = n) as ->.
  { rewrite Z.lor_comm, lor_shiftl_add by (lia || apply (wrap_range 5); lia). change (2 ^ 5) with 32. dlia. }
  pose proof (wf_plic_prio _ Hw n) as Hp. unfold urange in Hp.
  assert (Z.of_nat (length (List.filter (fun i => candidate p ctx i && (threshold <? plic_prio p i)) (seqZ 0 n))) <= n) as Hle.
  { pose proof (filter_length_le (fun i => candidate p ctx i && (threshold <? plic_prio p i)) (seqZ 0 n)) as Hl.
    rewrite length_seqZ in Hl. lia. }
  assert (forall i, i ∈ seqZ 0 n -> i < n) as Hlt by (intros i Hi; apply elem_of_seqZ in Hi; lia).
  destruct (candidate p ctx n) eqn:Hc; cycle 1.
  { constructor.
    - intros i Hi. apply elem_of_app in Hi as [Hi| ->%list_elem_of_singleton]; [by apply Hmax|congruence].
    - destruct Hbest as [?|(Hin & ? & ? & ? & Hall)]; [by left|right]. split_and!; [apply elem_of_app; by left|done..|].
      intros i Hi. apply elem_of_app in Hi as [Hi| ->%list_elem_of_singleton]; [by apply Hall|congruence].
    - rewrite Hcnt, List.filter_app, List.length_app. cbn [List.filter]. rewrite Hc. cbn. lia. }
  assert (forall q r, scan_signals (if scan_prio s <? plic_prio p n then
      mk_scan (if threshold <? plic_prio p n then u32 (scan_signals s + 1) else scan_signals s) q r
      else mk_scan (if threshold <? plic_prio p n then u32 (scan_signals s + 1) else scan_signals s) (scan_irq s) (scan_prio s)) =
    Z.of_nat (length (List.filter (fun i => candidate p ctx i && (threshold <? plic_prio p i)) (seqZ 0 n ++ [n])))) as Hsig.
  { intros q r. transitivity (if threshold <? plic_prio p n then u32 (scan_signals s + 1) else scan_signals s);
      [by destruct (scan_prio s <? plic_prio p n)|].
    rewrite Hcnt, List.filter_app, List.length_app. cbn [List.filter]. rewrite Hc. cbn [andb].
    destruct (threshold <? plic_prio p n); cbn [length]; [|lia]. rewrite wrap_small by (unfold urange; lia). lia. }
  constructor; [| |apply Hsig].
  - intros i Hi Hci. apply elem_of_app in Hi as [Hi| ->%list_elem_of_singleton].
    + specialize (Hmax i Hi Hci). destruct (Z.ltb_spec (scan_prio s) (plic_prio p n)); cbn; lia.
    + destruct (Z.ltb_spec (scan_prio s) (plic_prio p n)); cbn; lia.
  - destruct (Z.ltb_spec (scan_prio s) (plic_prio p n)); cbn [scan_prio scan_irq].
    + right. split_and!; [apply elem_of_app; right; constructor|done|done| |].
      * destruct Hbest as [[E _]|(_ & _ & _ & ? & _)]; lia.
      * intros i Hi Hci Hin. apply elem_of_app in Hi as [Hi| ->%list_elem_of_singleton]; [|lia]. specialize (Hmax i Hi Hci). lia.
    + destruct Hbest as [?|(Hin & ? & ? & ? & Hall)]; [by left|right]. split_and!; [apply elem_of_app; by left|done..|].
      intros i Hi. apply elem_of_app in Hi as [Hi| ->%list_elem_of_singleton]; [by apply Hall|]. specialize (Hlt _ Hin). lia.
Qed.

Lemma scan_spec p ctx threshold : plic_wf p ->
  scan_ok p ctx threshold sources (scan_regs (Z.to_nat PLIC_SRC_REGS) p ctx threshold 0 (mk_scan 0 0 0)).
Proof.
  intros Hw. rewrite scan_fold by done. unfold sources, PLIC_SRC_LIMIT.
  assert (forall n : nat, (n <= 64)%nat -> scan_ok p ctx threshold (seqZ 0 (Z.of_nat n))
    (fold_left (scan_source p ctx threshold) (seqZ 0 (Z.of_nat n)) (mk_scan 0 0 0))) as Hall.
  { induction n as [|n IH]; intros Hn.
    - constructor; cbn; [by intros i ?%not_elem_of_nil|by left|done].
    - rewrite Nat2Z.inj_succ, <- Z.add_1_r, seqZ_app by lia. cbn [seqZ]. rewrite fold_left_app.
      change (seqZ (0 + Z.of_nat n) 1) with [0 + Z.of_nat n]. cbn [fold_left]. rewrite Z.add_0_l.
      apply scan_source_ok; [done|lia|]. apply IH. lia. }
  apply (Hall 64%nat). lia.
Qed.

(** ** Update of a context *)

Lemma filter_none_exists (f : Z -> bool) l : nz (Z.of_nat (length (List.filter f l))) = existsb f l.
Proof.
  induction l as [|i l IH]; [done|]. cbn [List.filter existsb]. destruct (f i); cbn [length orb]; [|done].
  unfold nz. destruct (Z.eqb_spec (Z.of_nat (S (length (List.filter f l)))) 0); [lia|done].
Qed.

Lemma existsb_ext_in (f g : Z -> bool) l : (forall i, i ∈ l -> f i = g i) -> existsb f l = existsb g l.
Proof.
  induction l as [|i l IH]; intros Hfg; [done|]. cbn [existsb]. rewrite Hfg by constructor. f_equal. apply IH.
  intros. apply Hfg. by constructor.
Qed.

Lemma filter_except (f : Z -> bool) x l : NoDup l -> x ∈ l -> f x = true ->
  length (List.filter f l) = S (length (List.filter (fun i => f i && negb (i =? x)) l)).
Proof.
  intros Hnd Hin Hf. induction Hnd as [|i l Hni Hnd IH]; [by apply not_elem_of_nil in Hin|].
  apply elem_of_cons in Hin as [<-|Hin]; cbn [List.filter].
  - rewrite Hf, Z.eqb_refl. cbn [andb negb length]. f_equal. f_equal. apply List.filter_ext_in.
    intros j Hj. destruct (Z.eqb_spec j x) as [->|]; [|by rewrite andb_true_r].
    by apply list_elem_of_In in Hj.
  - specialize (IH Hin). destruct (Z.eqb_spec i x) as [->|]; [done|]. rewrite andb_true_r. destruct (f i); cbn [length]; lia.
Qed.

(** [irq] is the interrupt a claim of [ctx] returns: the candidate of highest priority, the
    lowest number among equals; 0 if no candidate has a priority. *)
Definition best_irq (p : plic_dev) (ctx irq : Z) : Prop :=
  (irq = 0 /\ forall i, 0 <= i < PLIC_SRC_LIMIT -> candidate p ctx i = true -> p.(plic_prio) i = 0) \/
  (0 < irq < PLIC_SRC_LIMIT /\ candidate p ctx irq = true /\ 0 < p.(plic_prio) irq /\
   forall i, 0 <= i < PLIC_SRC_LIMIT -> candidate p ctx i = true ->
     p.(plic_prio) i < p.(plic_prio) irq \/ (p.(plic_prio) i = p.(plic_prio) irq /\ irq <= i)).

Lemma scan_best_irq p ctx threshold s : plic_wf p -> scan_ok p ctx threshold sources s ->
  best_irq p ctx s.(scan_irq) /\ (s.(scan_irq) = 0 -> s.(scan_prio) = 0) /\
  (0 < s.(scan_irq) -> s.(scan_prio) = p.(plic_prio) s.(scan_irq)).
Proof.
  intros Hw [Hmax Hbest _]. assert (forall i, 0 <= i < PLIC_SRC_LIMIT <-> i ∈ sources) as Hs.
  { intros i. unfold sources. rewrite elem_of_seqZ. lia. }
  destruct Hbest as [[Ep ->]|(Hin & Hc & Ep & Hp & Hall)].
  - split; [left|done]. split; [done|]. intros i Hi%Hs Hci. specialize (Hmax i Hi Hci). pose proof (wf_plic_prio _ Hw i) as Hr.
    unfold urange in Hr. lia.
  - assert (0 < scan_irq s) as Hpos.
    { apply Hs in Hin. destruct (Z.eq_dec (scan_irq s) 0) as [E|]; [|lia]. rewrite E, (wf_plic_prio0 _ Hw) in Ep. lia. }
    split; [right|split; [lia|done]]. split_and!; [lia|apply Hs in Hin; lia|done|lia|]. intros i Hi%Hs Hci.
    specialize (Hmax i Hi Hci). specialize (Hall i Hi Hci). destruct (Z.lt_ge_cases i (scan_irq s)); lia.
Qed.

(** The lines after an update that found [signals]. *)
Lemma update_lines p ctx (b : bool) : 0 <= ctx ->
  let p' := if b then plic_interrupt (plic_interrupt_clear p ctx) ctx else plic_interrupt_clear p ctx in
  same_regs p p' /\ (forall d, 0 <= d -> d <> ctx -> ctx_line p' d = ctx_line p d) /\ ctx_line p' ctx = b.
Proof.
  intros Hc. split_and!; [by destruct b| |].
  - intros d Hd Hne. destruct b; rewrite ?ctx_line_interrupt, ctx_line_interrupt_clear by done;
      destruct (Z.eqb_spec ctx d); try done; by rewrite andb_true_r, ?orb_false_r.
  - destruct b; rewrite ?ctx_line_interrupt, ctx_line_interrupt_clear, Z.eqb_refl by done; [apply orb_true_r|apply andb_false_r].
Qed.

(** The number of signalling interrupts, without the one to be claimed. *)
Lemma scan_signals_spec p ctx claim s : plic_wf p -> scan_ok p ctx (p.(plic_threshold) ctx) sources s ->
  nz (if claim && (p.(plic_threshold) ctx <? s.(scan_prio)) then u32 (s.(scan_signals) - 1) else s.(scan_signals)) =
  existsb (fun i => deliverable p ctx i && negb (claim && (i =? s.(scan_irq)))) sources.
Proof.
  intros Hw Hs. destruct (scan_best_irq p ctx _ s Hw Hs) as (Hbest & Hz & Hnz). rewrite (scan_count _ _ _ _ _ Hs).
  fold (deliverable p ctx). assert (length (List.filter (deliverable p ctx) sources) <= 64)%nat as Hlen.
  { etransitivity; [apply filter_length_le|]. by vm_compute. }
  destruct claim; cbn [andb].
  - destruct (Z.ltb_spec (plic_threshold p ctx) (scan_prio s)) as [Hlt|Hge].
    + pose proof (wf_plic_threshold _ Hw ctx) as Hth. unfold urange in Hth.
      destruct Hbest as [[E _]|(Hr & Hcand & _ & _)]; [specialize (Hz E); lia|].
      assert (deliverable p ctx (scan_irq s) = true) as Hdel.
      { unfold deliverable. rewrite Hcand. apply Z.ltb_lt. specialize (Hnz ltac:(lia)). lia. }
      assert (scan_irq s ∈ sources) as Hin by (apply elem_of_seqZ; unfold PLIC_SRC_LIMIT in *; lia).
      pose proof (filter_except (deliverable p ctx) (scan_irq s) sources (NoDup_seqZ _ _) Hin Hdel) as E.
      rewrite E in Hlen |- *. rewrite wrap_small by (unfold urange; lia). rewrite <- filter_none_exists. f_equal. lia.
    + rewrite filter_none_exists. apply existsb_ext_in. intros i Hi. unfold deliverable.
      pose proof (scan_max _ _ _ _ _ Hs i Hi) as Hm. destruct (candidate p ctx i); [|done].
      specialize (Hm eq_refl). cbn [andb]. destruct (Z.ltb_spec (plic_threshold p ctx) (plic_prio p i)); [lia|done].
  - rewrite filter_none_exists. apply existsb_ext_in. intros i Hi. by rewrite andb_true_r.
Qed.

Lemma update_ctx_spec p ctx claim : plic_wf p -> 0 <= ctx ->
  let '(p', irq) := plic_update_ctx p ctx claim in
  same_regs p p' /\ best_irq p ctx irq /\
  (forall d, 0 <= d -> d <> ctx -> ctx_line p' d = ctx_line p d) /\
  ctx_line p' ctx = existsb (fun i => deliverable p ctx i && negb (claim && (i =? irq))) sources.
Proof.
  intros Hw Hc. unfold plic_update_ctx.
  assert (scan_regs (Z.to_nat PLIC_SRC_REGS) (plic_interrupt_clear p ctx) ctx (plic_threshold p ctx) 0 (mk_scan 0 0 0) =
    scan_regs (Z.to_nat PLIC_SRC_REGS) p ctx (plic_threshold p ctx) 0 (mk_scan 0 0 0)) as ->.
  { rewrite !scan_fold by (done || by apply (same_wf p)). done. }
  pose proof (scan_spec p ctx (plic_threshold p ctx) Hw) as Hs. revert Hs.
  generalize (scan_regs (Z.to_nat PLIC_SRC_REGS) p ctx (plic_threshold p ctx) 0 (mk_scan 0 0 0)). intros s Hs.
  rewrite scan_signals_spec by done.
  destruct (update_lines p ctx (existsb (fun i => deliverable p ctx i && negb (claim && (i =? scan_irq s))) sources) Hc)
    as (H1 & H2 & H3).
  split_and!; [exact H1|by eapply scan_best_irq|exact H2|exact H3].
Qed.

(** ** Bitmaps of interrupts *)

Lemma word_index i j : 0 <= i -> 0 <= j -> (i / 32 =? j / 32) && (i mod 32 =? j mod 32) = (i =? j).
Proof. intros. destruct (Z.eqb_spec (i / 32) (j / 32)), (Z.eqb_spec (i mod 32) (j mod 32)), (Z.eqb_spec i j); try done; dlia. Qed.

Lemma word_clear f irq i : 0 <= irq -> 0 <= i ->
  Z.testbit ((<[irq / 32 := f (irq / 32) .& not32 (bit_set32 irq)]> f) (i / 32)) (i mod 32) =
  Z.testbit (f (i / 32)) (i mod 32) && negb (irq =? i).
Proof.
  intros Hirq Hi. pose proof (Z.mod_pos_bound i 32 ltac:(lia)). rewrite <- word_index by done. rewrite fupd_dec.
  destruct (Z.eqb_spec (irq / 32) (i / 32)) as [->|]; [|by rewrite andb_true_r].
  rewrite Z.land_spec, testbit_not32, testbit_bit_set32_irq by lia. destruct (Z.ltb_spec (i mod 32) 32); [|lia].
  cbn [andb]. by rewrite (Z.eqb_sym (irq mod 32)).
Qed.

Lemma word_set f irq i : 0 <= irq -> 0 <= i ->
  Z.testbit ((<[irq / 32 := f (irq / 32) .| bit_set32 irq]> f) (i / 32)) (i mod 32) =
  Z.testbit (f (i / 32)) (i mod 32) || (irq =? i).
Proof.
  intros Hirq Hi. rewrite <- word_index by done. rewrite fupd_dec.
  destruct (Z.eqb_spec (irq / 32) (i / 32)) as [->|]; [|by rewrite orb_false_r].
  rewrite Z.lor_spec, testbit_bit_set32_irq by lia. cbn [andb]. by rewrite (Z.eqb_sym (irq mod 32)).
Qed.

Lemma word_range (f : Z -> Z) r v : (forall c, urange 32 (f c)) -> urange 32 v -> forall c, urange 32 ((<[r := v]> f) c).
Proof. intros Hf Hv c. rewrite fupd_dec. by case_bool. Qed.

Lemma bit_set32_range k : urange 32 (bit_set32 k).
Proof. apply wrap_range. lia. Qed.

#[export] Hint Resolve word_range bit_set32_range : rv.

(** ** Claims *)

Lemma claim_deliverable p irq c i : 0 <= irq -> 0 <= i ->
  deliverable (set_plic_pending (irq / 32) (p.(plic_pending) (irq / 32) .& not32 (bit_set32 irq)) p) c i =
  deliverable p c i && negb (irq =? i).
Proof.
  intros. unfold deliverable, candidate. cbn [plic_pending plic_enable plic_threshold plic_prio set_plic_pending].
  rewrite word_clear by done. destruct (Z.testbit (plic_pending p (i / 32)) (i mod 32)), (irq =? i),
    (Z.testbit (plic_enable p c (i / 32)) (i mod 32)), (plic_threshold p c <? plic_prio p i); done.
Qed.

Lemma claim_spec p ctx fuel : plic_wf p -> 0 <= ctx < plic_ctx_count p -> (0 < fuel)%nat ->
  exists p' irq, plic_claim_irq fuel p ctx = Some (p', irq) /\ best_irq p ctx irq /\ plic_wf p' /\
    plic_ctx_count p' = plic_ctx_count p /\
    p'.(plic_raised) = p.(plic_raised) /\
    (forall c i, 0 <= i < PLIC_SRC_LIMIT -> deliverable p' c i = deliverable p c i && negb ((0 <? irq) && (irq =? i))) /\
    (forall d, 0 <= d -> d <> ctx -> ctx_line p' d = ctx_line p d) /\
    ctx_line p' ctx = signalled p' ctx.
Proof.
  intros Hw Hc Hf. unfold plic_claim_irq. destruct (Z.ltb_spec ctx (plic_ctx_count p)); [|lia].
  destruct fuel as [|fuel]; [lia|]. cbn [claim_loop].
  pose proof (update_ctx_spec p ctx true Hw ltac:(lia)) as Hu. destruct (plic_update_ctx p ctx true) as [p1 irq].
  destruct Hu as (Hsame & Hbest & Hother & Hline). pose proof (same_wf _ _ Hsame Hw) as Hw1.
  destruct Hbest as [[-> Hnone]|(Hr & Hcand & Hp & Hall)].
  - exists p1, 0. cbn [nz Z.eqb negb]. split_and!; [done|by left|done|exact (same_count _ _ Hsame)|by destruct Hsame as [_ ->]| |done|].
    + intros c i Hi. rewrite (same_deliverable _ _ Hsame). by rewrite andb_true_r.
    + rewrite Hline, (same_signalled _ _ Hsame). apply existsb_ext_in. intros i Hi. cbn [andb].
      destruct (Z.eqb_spec i 0) as [->|]; [|by rewrite andb_true_r]. unfold deliverable. rewrite (wf_plic_prio0 _ Hw).
      pose proof (wf_plic_threshold _ Hw ctx) as Hth. unfold urange in Hth.
      destruct (Z.ltb_spec (plic_threshold p ctx) 0); [lia|]. by destruct (candidate p ctx 0).
  - assert (nz irq = true) as -> by (unfold nz; destruct (Z.eqb_spec irq 0); [lia|done]).
    assert (nz (plic_pending p1 (irq .>> 5) .& bit_set32 irq) = true) as ->.
    { rewrite nz_land_set32, irq_word by lia. rewrite <- (same_candidate _ _ Hsame) in Hcand. unfold candidate in Hcand.
      by apply andb_true_iff in Hcand as [? _]. }
    cbn [negb]. rewrite irq_word. eexists _, irq. split; [reflexivity|].
    assert (forall c i, 0 <= i < PLIC_SRC_LIMIT ->
      deliverable (set_plic_pending (irq / 32) (plic_pending p1 (irq / 32) .& not32 (bit_set32 irq)) p1) c i =
      deliverable p c i && negb ((0 <? irq) && (irq =? i))) as Hdel.
    { intros c i Hi. rewrite claim_deliverable by lia. rewrite (same_deliverable _ _ Hsame).
      by destruct (Z.ltb_spec 0 irq); [|lia]. }
    split_and!; [by right| |exact (same_count _ _ Hsame)|by destruct Hsame as [_ ->]|done|done|].
    + destruct Hw1. constructor; cbn; auto. apply word_range; [done|]. apply urange_land_l; [lia|done].
    + transitivity (ctx_line p1 ctx); [done|]. rewrite Hline. apply existsb_ext_in. intros i Hi%elem_of_seqZ.
      rewrite Hdel by (unfold PLIC_SRC_LIMIT in *; lia). destruct (Z.ltb_spec 0 irq); [|lia]. cbn [andb]. by rewrite (Z.eqb_sym i).
Qed.

(** ** No interrupt is lost *)

Lemma full_update_loop_spec fuel : forall p ctx, plic_wf p -> 0 <= ctx ->
  let p' := full_update_loop fuel p ctx in
  same_regs p p' /\ (forall d, 0 <= d < ctx -> ctx_line p' d = ctx_line p d) /\
  (forall c, ctx <= c < ctx + Z.of_nat fuel -> ctx_line p' c = signalled p c).
Proof.
  induction fuel as [|fuel IH]; intros p ctx Hw Hc; cbn [full_update_loop]; [split_and!; done || lia|].
  pose proof (update_ctx_spec p ctx false Hw Hc) as Hu. destruct (plic_update_ctx p ctx false) as [p1 irq].
  destruct Hu as (Hsame & _ & Hother & Hline). cbn [fst].
  destruct (IH p1 (ctx + 1) (same_wf _ _ Hsame Hw) ltac:(lia)) as (H1 & H2 & H3). split_and!.
  - by transitivity p1.
  - intros d Hd. rewrite H2 by lia. apply Hother; lia.
  - intros c Hcr. destruct (Z.eq_dec c ctx) as [->|].
    + rewrite H2, Hline by lia. apply existsb_ext_in. intros i _. by rewrite andb_true_r.
    + rewrite H3 by lia. by rewrite (same_signalled _ _ Hsame).
Qed.

(** After a full update the lines say exactly what can be delivered. *)
Lemma full_update_spec p : plic_wf p ->
  let p' := plic_full_update p in
  same_regs p p' /\ forall c, 0 <= c < plic_ctx_count p -> ctx_line p' c = signalled p c.
Proof.
  intros Hw. destruct (full_update_loop_spec (Z.to_nat (plic_ctx_count p)) p 0 Hw ltac:(lia)) as (H1 & _ & H3).
  split; [done|]. intros c Hc. apply H3. lia.
Qed.

Lemma signalled_intro p ctx i : 0 <= i < PLIC_SRC_LIMIT -> deliverable p ctx i = true -> signalled p ctx = true.
Proof. intros Hi Hd. apply existsb_exists. exists i. split; [|done]. apply list_elem_of_In, elem_of_seqZ. lia. Qed.

Lemma full_update_no_lost p : plic_wf p -> no_lost (plic_full_update p).
Proof.
  intros Hw irq ctx Hi Hc Hd. destruct (full_update_spec p Hw) as [Hsame Hline].
  rewrite (same_count _ _ Hsame) in *. exists ctx. split_and!; [lia|lia|done|]. rewrite Hline by done.
  rewrite (same_deliverable _ _ Hsame) in Hd. by eapply signalled_intro.
Qed.

(** A step that changes what can be delivered for one interrupt at most, and only raises
    lines. *)
Lemma no_lost_raise p p' irq : plic_ctx_count p' = plic_ctx_count p ->
  (forall c i, 0 <= c -> 0 <= i < PLIC_SRC_LIMIT -> i <> irq -> deliverable p' c i = deliverable p c i) ->
  (forall d, 0 <= d -> ctx_line p d = true -> ctx_line p' d = true) ->
  (forall c, 0 <= c < plic_ctx_count p -> deliverable p' c irq = true ->
   exists c', 0 <= c' < plic_ctx_count p /\ deliverable p' c' irq = true /\ ctx_line p' c' = true) ->
  no_lost p -> no_lost p'.
Proof.
  intros Hn Hd Hl Hirq Hp i c Hi Hc Hdel. rewrite Hn in *. destruct (Z.eq_dec i irq) as [->|Hne]; [by eapply Hirq|].
  rewrite Hd in Hdel by (done || lia). destruct (Hp i c Hi Hc Hdel) as (c' & Hc' & Hdel' & Hl').
  exists c'. split_and!; [lia|lia|by rewrite Hd by (done || lia)|apply Hl; [lia|done]].
Qed.

(** A step that changes neither what can be delivered nor the lines. *)
Lemma no_lost_same p p' : plic_ctx_count p' = plic_ctx_count p ->
  (forall c i, 0 <= c -> 0 <= i < PLIC_SRC_LIMIT -> deliverable p' c i = deliverable p c i) ->
  (forall d, ctx_line p' d = ctx_line p d) -> no_lost p -> no_lost p'.
Proof.
  intros Hn Hd Hl Hp i c Hi Hc Hdel. rewrite Hn in *. rewrite Hd in Hdel by lia.
  destruct (Hp i c Hi Hc Hdel) as (c' & Hc' & Hdel' & Hl'). exists c'. split_and!; [lia|lia|by rewrite Hd by lia|by rewrite Hl].
Qed.

(** Notification about a pending interrupt. *)
Lemma notify_no_lost p p1 irq : plic_wf p1 -> plic_ctx_count p1 = plic_ctx_count p -> 0 <= irq ->
  Z.testbit (p1.(plic_pending) (irq / 32)) (irq mod 32) = true ->
  (forall c i, 0 <= c -> 0 <= i < PLIC_SRC_LIMIT -> i <> irq -> deliverable p1 c i = deliverable p c i) ->
  (forall d, ctx_line p1 d = ctx_line p d) -> no_lost p -> no_lost (plic_notify_irq p1 irq).
Proof.
  intros Hw Hn Hi Hp Hd Hl Hnl. destruct (notify_irq_spec p1 irq Hw Hi Hp) as (H1 & H2 & H3).
  apply (no_lost_raise p _ irq); [|..|done].
  - by rewrite (same_count _ _ H1).
  - intros c i Hc Hir Hne. rewrite (same_deliverable _ _ H1). by apply Hd.
  - intros d Hd0 Hld. apply H2; [done|]. by rewrite Hl.
  - intros c Hc Hdel. rewrite (same_deliverable _ _ H1) in *. rewrite <- Hn in *. by apply (H3 c).
Qed.

(** Writing the priority or the pending bit of an interrupt does not concern the others. *)
Lemma deliverable_prio p irq v c i : i <> irq -> deliverable (set_plic_prio irq v p) c i = deliverable p c i.
Proof. intros. unfold deliverable, candidate. cbn. by rewrite fupd_ne by congruence. Qed.

Lemma deliverable_pending p irq c i : 0 <= irq -> 0 <= i -> i <> irq ->
  deliverable (set_plic_pending (irq / 32) (p.(plic_pending) (irq / 32) .| bit_set32 irq) p) c i = deliverable p c i.
Proof.
  intros. unfold deliverable, candidate. cbn [plic_pending plic_enable plic_threshold plic_prio set_plic_pending].
  rewrite word_set by done. destruct (Z.eqb_spec irq i); [congruence|]. by rewrite orb_false_r.
Qed.

Lemma not_pending_deliverable p c i : Z.testbit (p.(plic_pending) (i / 32)) (i mod 32) = false -> deliverable p c i = false.
Proof. intros Hp. unfold deliverable, candidate. by rewrite Hp. Qed.

Lemma set_prio_wf p irq v : plic_wf p -> urange 32 v -> irq <> 0 -> plic_wf (set_plic_prio irq v p).
Proof.
  intros [] Hv Hi. constructor; cbn; auto.
  - by rewrite fupd_ne.
  - by apply word_range.
Qed.

Lemma set_pending_wf p r v : plic_wf p -> urange 32 v -> plic_wf (set_plic_pending r v p).
Proof. intros [] Hv. constructor; cbn; auto. by apply word_range. Qed.

Lemma set_enable_wf p c r v : plic_wf p -> urange 32 v -> plic_wf (set_plic_enable c r v p).
Proof. intros [] Hv. constructor; cbn; auto. intros c' r'. rewrite fupd_dec. case_bool; [|auto]. apply word_range; auto. Qed.

Lemma set_threshold_wf p c v : plic_wf p -> urange 32 v -> plic_wf (set_plic_threshold c v p).
Proof. intros [] Hv. constructor; cbn; auto. by apply word_range. Qed.

Lemma irq_pending_eq p irq : 0 <= irq -> plic_irq_pending p irq = Z.testbit (p.(plic_pending) (irq / 32)) (irq mod 32).
Proof. intros. unfold plic_irq_pending. by rewrite bit_check32_testbit, irq_word. Qed.

Lemma set_prio_no_lost p irq prio : plic_wf p -> 0 <= irq -> urange 32 prio -> no_lost p ->
  no_lost (plic_set_irq_prio p irq prio).
Proof.
  intros Hw Hi Hv Hnl. unfold plic_set_irq_prio, nz. destruct (Z.eqb_spec irq 0); [done|]. cbn [negb andb].
  destruct (Z.ltb_spec irq PLIC_SRC_LIMIT); [|done].
  pose proof (set_prio_wf p irq prio Hw Hv ltac:(lia)) as Hw1. rewrite irq_pending_eq by done.
  cbn [plic_pending set_plic_prio].
  destruct (Z.testbit (plic_pending p (irq / 32)) (irq mod 32)) eqn:Hp.
  - destruct (Z.ltb_spec prio (plic_prio p irq)); [by apply full_update_no_lost|].
    destruct (Z.ltb_spec (plic_prio p irq) prio); cbn [andb].
    + apply (notify_no_lost p); try done. intros. by apply deliverable_prio.
    + apply (no_lost_same p); [done| |done|done]. intros c i Hc Hir. unfold deliverable, candidate. cbn. rewrite fupd_dec.
      case_bool; [|done]. subst. by replace prio with (plic_prio p i) by lia.
  - assert (no_lost (set_plic_prio irq prio p)).
    { apply (no_lost_same p); [done| |done|done]. intros c i Hc Hir. destruct (Z.eq_dec i irq) as [->|]; [|by apply deliverable_prio].
      by rewrite !not_pending_deliverable. }
    destruct (_ <? _); [done|]. by rewrite andb_false_r.
Qed.

Lemma set_irq_no_lost p irq lvl : plic_wf p -> no_lost p -> no_lost (plic_set_irq p irq lvl).
Proof.
  intros Hw Hnl. unfold plic_set_irq. destruct (Z.ltb_spec 0 irq); [|done]. cbn [andb].
  destruct (Z.ltb_spec irq PLIC_SRC_LIMIT); [|done]. destruct lvl; [|done]. rewrite !irq_word, nz_land_set32 by lia.
  destruct (Z.testbit (plic_raised p (irq / 32)) (irq mod 32)); cbn [negb]; [done|].
  cbn [plic_pending set_plic_raised]. rewrite nz_land_set32 by lia.
  set (p1 := set_plic_raised _ _ p).
  destruct (Z.testbit (plic_pending p (irq / 32)) (irq mod 32)) eqn:Hp; cbn [negb].
  - apply (no_lost_same p); [done| |done|done]. intros c i Hc Hi. destruct (Z.eq_dec i irq) as [->|Hne].
    + unfold deliverable, candidate. cbn [plic_pending plic_enable plic_threshold plic_prio set_plic_pending set_plic_raised p1].
      rewrite word_set, Hp by lia. done.
    + apply (deliverable_pending p1); lia.
  - apply (notify_no_lost p); [|done|lia| | |done|done].
    + apply (set_pending_wf p1); [destruct Hw; by constructor|]. apply urange_lor; [lia|apply Hw|apply bit_set32_range].
    + cbn [plic_pending set_plic_pending p1 set_plic_raised]. rewrite word_set by lia. rewrite Z.eqb_refl. apply orb_true_r.
    + intros c i Hc Hi Hne. apply (deliverable_pending p1); lia.
Qed.

Lemma claim_no_lost p ctx p' irq : plic_wf p -> 0 <= ctx -> plic_claim_irq 1 p ctx = Some (p', irq) -> no_lost p -> no_lost p'.
Proof.
  intros Hw Hc E Hnl. destruct (Z.lt_ge_cases ctx (plic_ctx_count p)) as [Hlt|Hge]; cycle 1.
  { unfold plic_claim_irq in E. destruct (Z.ltb_spec ctx (plic_ctx_count p)); [lia|]. by injection E as <- <-. }
  destruct (claim_spec p ctx 1 Hw ltac:(lia) ltac:(lia)) as (p1 & irq1 & E1 & _ & _ & Hn & _ & Hd & Hother & Hline).
  rewrite E in E1. injection E1 as <- <-. intros i c Hi Hcr Hdel. rewrite Hn in *. rewrite Hd in Hdel by done.
  apply andb_true_iff in Hdel as [Hdel Hne]. destruct (Hnl i c Hi Hcr Hdel) as (c' & Hc' & Hdel' & Hl).
  assert (deliverable p' c' i = true) as Hd' by (rewrite Hd by done; by rewrite Hdel', Hne).
  exists c'. split_and!; [lia|lia|done|]. destruct (Z.eq_dec c' ctx) as [->|].
  - rewrite Hline. by eapply signalled_intro.
  - rewrite Hother by lia. done.
Qed.

(** Lowering a threshold. *)
Lemma set_threshold_no_lost p ctx threshold : plic_wf p -> 0 <= ctx -> urange 32 threshold ->
  threshold <= p.(plic_threshold) ctx -> no_lost p -> no_lost (plic_set_ctx_threshold p ctx threshold).
Proof.
  intros Hw Hc Hv Hle Hnl. unfold plic_set_ctx_threshold. destruct (Z.ltb_spec ctx (plic_ctx_count p)); [|done].
  pose proof (set_threshold_wf p ctx threshold Hw Hv) as Hw1. set (p1 := set_plic_threshold ctx threshold p) in *.
  assert (forall c i, deliverable p c i = true -> deliverable p1 c i = true) as Hmono.
  { intros c i Hd. unfold deliverable in *. apply andb_true_iff in Hd as [Hcand Ht]. change (candidate p1 c i) with (candidate p c i).
    rewrite Hcand. cbn [andb]. apply Z.ltb_lt in Ht. apply Z.ltb_lt. cbn. rewrite fupd_dec. case_bool; [subst; lia|lia]. }
  destruct (Z.eqb_spec (plic_threshold p ctx) threshold) as [Et|]; cbn [negb].
  { apply (no_lost_same p); [done| |done|done]. intros c i _ _. unfold deliverable. change (candidate p1 c i) with (candidate p c i).
    cbn. rewrite fupd_dec. case_bool; [|done]. by subst. }
  pose proof (update_ctx_spec p1 ctx false Hw1 Hc) as Hu. destruct (plic_update_ctx p1 ctx false) as [p2 irq].
  destruct Hu as (Hsame & _ & Hother & Hline). cbn [fst]. intros i c Hi Hcr Hdel.
  rewrite (same_count _ _ Hsame), (same_deliverable _ _ Hsame) in *. change (plic_ctx_count p1) with (plic_ctx_count p) in *.
  destruct (deliverable p1 ctx i) eqn:Hctx.
  - exists ctx. split_and!; [lia|lia|done|]. rewrite Hline. apply existsb_exists. exists i.
    split; [apply list_elem_of_In, elem_of_seqZ; unfold PLIC_SRC_LIMIT in *; lia|]. by rewrite Hctx.
  - assert (c <> ctx) by congruence. assert (deliverable p c i = true) as Hd0.
    { unfold deliverable in *. change (candidate p1 c i) with (candidate p c i) in Hdel. cbn in Hdel. by rewrite fupd_ne in Hdel by done. }
    destruct (Hnl i c Hi Hcr Hd0) as (c' & Hc' & Hd' & Hl'). assert (c' <> ctx) by (intros ->; rewrite Hmono in Hctx; done).
    exists c'. split_and!; [lia|lia|by apply Hmono|]. rewrite Hother by lia. done.
Qed.

(** Notification about every pending enabled interrupt of a register. *)
Lemma update_ctx_irq_reg_spec p ctx reg : plic_wf p -> 0 <= reg ->
  let p' := plic_update_ctx_irq_reg p ctx reg in
  same_regs p p' /\ (forall d, 0 <= d -> ctx_line p d = true -> ctx_line p' d = true) /\
  (forall i c, i / 32 = reg -> 0 <= c < plic_ctx_count p -> candidate p ctx i = true -> deliverable p c i = true ->
   exists c', 0 <= c' < plic_ctx_count p /\ deliverable p c' i = true /\ ctx_line p' c' = true).
Proof.
  intros Hw Hr. unfold plic_update_ctx_irq_reg. rewrite bits_loop_fold by (apply urange_land_l; [lia|apply Hw]).
  set (irqs := plic_pending p reg .& plic_enable p ctx reg).
  set (step := fun (q : plic_dev) i => if Z.testbit irqs i then plic_notify_irq q ((reg .<< 5) .| i) else q).
  assert (forall l q, (forall b, b ∈ l -> 0 <= b < 32) -> same_regs p q ->
    same_regs p (fold_left step l q) /\ (forall d, 0 <= d -> ctx_line q d = true -> ctx_line (fold_left step l q) d = true) /\
    (forall b c, b ∈ l -> Z.testbit irqs b = true -> 0 <= c < plic_ctx_count p -> deliverable p c (32 * reg + b) = true ->
     exists c', 0 <= c' < plic_ctx_count p /\ deliverable p c' (32 * reg + b) = true /\ ctx_line (fold_left step l q) c' = true)) as Hl.
  { induction l as [|b l IH]; intros q Hl Hq; cbn [fold_left]; [split_and!; [done|done|]; by intros ? ? ?%not_elem_of_nil|].
    assert (0 <= b < 32) as Hb by (apply Hl; constructor).
    assert ((reg .<< 5) .| b = 32 * reg + b) as Eb.
    { rewrite Z.lor_comm, lor_shiftl_add by (unfold urange; lia). lia. }
    assert (same_regs p (step q b) /\ (forall d, 0 <= d -> ctx_line q d = true -> ctx_line (step q b) d = true) /\
      (Z.testbit irqs b = true -> forall c, 0 <= c < plic_ctx_count p -> deliverable p c (32 * reg + b) = true ->
       exists c', 0 <= c' < plic_ctx_count p /\ deliverable p c' (32 * reg + b) = true /\ ctx_line (step q b) c' = true)) as (S1 & S2 & S3).
    { unfold step. destruct (Z.testbit irqs b) eqn:Hbit; [|done]. rewrite Eb.
      assert (Z.testbit (plic_pending q ((32 * reg + b) / 32)) ((32 * reg + b) mod 32) = true) as Hp.
      { assert ((32 * reg + b) / 32 = reg /\ (32 * reg + b) mod 32 = b) as [-> ->] by dlia. destruct Hq as [_ ->]. cbn.
        unfold irqs in Hbit. rewrite Z.land_spec in Hbit. by apply andb_true_iff in Hbit as [? _]. }
      destruct (notify_irq_spec q (32 * reg + b) (same_wf _ _ Hq Hw) ltac:(lia) Hp) as (N1 & N2 & N3).
      split_and!; [by transitivity q|done|]. intros _ c Hc Hd. rewrite <- (same_deliverable _ _ Hq), <- (same_count _ _ Hq) in *.
      by apply (N3 c). }
    destruct (IH (step q b) ltac:(intros; apply Hl; by constructor) S1) as (I1 & I2 & I3). split_and!; [done|by intros; apply I2, S2|].
    intros b' c Hin Hbit Hc Hd. apply elem_of_cons in Hin as [->|Hin]; [|by apply (I3 b' c)].
    destruct (S3 Hbit c Hc Hd) as (c' & Hc' & Hd' & Hline). exists c'. split_and!; [lia|lia|done|]. apply I2; [lia|done]. }
  destruct (Hl (seqZ 0 32) p ltac:(intros b Hb%elem_of_seqZ; lia) ltac:(done)) as (H1 & H2 & H3).
  split_and!; [done|done|]. intros i c Hi Hc Hcand Hd.
  assert (32 * reg + i mod 32 = i) as Ei by (subst; dlia). pose proof (Z.mod_pos_bound i 32 ltac:(lia)).
  destruct (H3 (i mod 32) c) as (c' & Hc' & Hd' & Hline); [apply elem_of_seqZ; lia| |done|by rewrite Ei|].
  - unfold irqs. rewrite Z.land_spec. unfold candidate in Hcand. by rewrite Hi in Hcand.
  - exists c'. rewrite Ei in Hd'. done.
Qed.

(** Writes to an enable register that only set bits or only clear bits. *)
Definition one_way (old new : Z) : Prop := old .& not32 new = 0 \/ new .& not32 old = 0.

Lemma ldiff_bits a b i : urange 32 a -> urange 32 b -> 0 <= i < 32 -> a .& not32 b = 0 ->
  Z.testbit a i = true -> Z.testbit b i = true.
Proof.
  intros Ha Hb Hi E Hbit. apply (f_equal (fun z => Z.testbit z i)) in E.
  rewrite Z.land_spec, testbit_not32, Hbit, Z.testbit_0_l in E by lia. destruct (Z.ltb_spec i 32); [|lia].
  by destruct (Z.testbit b i).
Qed.

Lemma deliverable_enable p ctx reg v c i : deliverable (set_plic_enable ctx reg v p) c i =
  Z.testbit (p.(plic_pending) (i / 32)) (i mod 32) &&
  Z.testbit (if (ctx =? c) && (reg =? i / 32) then v else p.(plic_enable) c (i / 32)) (i mod 32) &&
  (p.(plic_threshold) c <? p.(plic_prio) i).
Proof.
  unfold deliverable, candidate. cbn. do 3 f_equal. rewrite fupd_dec. destruct (Z.eqb_spec ctx c) as [->|]; [|done].
  rewrite fupd_dec. done.
Qed.

Lemma set_enable_no_lost p ctx reg enable : plic_wf p -> 0 <= ctx -> 0 <= reg -> urange 32 enable ->
  one_way (p.(plic_enable) ctx reg) enable -> no_lost p -> no_lost (plic_set_enable_bits p ctx reg enable).
Proof.
  intros Hw Hc Hr Hv Hone Hnl. unfold plic_set_enable_bits. destruct ((ctx <? _) && _); [|done].
  pose proof (set_enable_wf p ctx reg enable Hw Hv) as Hw1. set (p1 := set_plic_enable ctx reg enable p) in *.
  pose proof (wf_plic_enable _ Hw ctx reg) as Hold. set (old := plic_enable p ctx reg) in *.
  assert (forall i, 0 <= i mod 32 < 32) as Hm by (intros; apply Z.mod_pos_bound; lia).
  destruct (nz (old .& not32 enable)) eqn:Hdis.
  - change (plic_pending p1 reg) with (plic_pending p reg).
    destruct (nz (old .& not32 enable .& plic_pending p reg)) eqn:Hpd; [by apply full_update_no_lost|].
    apply nz_false in Hpd. destruct Hone as [E|Hsub]; [by rewrite E in Hdis|].
    apply (no_lost_same p); [done| |done|done]. intros c i _ Hi. unfold p1. rewrite deliverable_enable.
    destruct (Z.eqb_spec ctx c) as [<-|]; [|done]. destruct (Z.eqb_spec reg (i / 32)) as [Er|]; [|done]. cbn [andb].
    unfold deliverable, candidate. rewrite <- Er. fold old. f_equal.
    destruct (Z.testbit (plic_pending p reg) (i mod 32)) eqn:Hp; [|done]. cbn [andb].
    destruct (Z.testbit enable (i mod 32)) eqn:He; [symmetry; eapply (ldiff_bits enable old); done|].
    apply (f_equal (fun z => Z.testbit z (i mod 32))) in Hpd.
    rewrite !Z.land_spec, testbit_not32, He, Hp, Z.testbit_0_l in Hpd by apply Hm.
    destruct (Z.ltb_spec (i mod 32) 32); [|specialize (Hm i); lia]. by destruct (Z.testbit old (i mod 32)).
  - apply nz_false in Hdis. destruct (nz (enable .& not32 old)) eqn:Hen.
    + destruct (update_ctx_irq_reg_spec p1 ctx reg Hw1 Hr) as (H1 & H2 & H3). set (p2 := plic_update_ctx_irq_reg p1 ctx reg) in *.
      intros i c Hi Hcr Hdel. rewrite (same_count _ _ H1), (same_deliverable _ _ H1) in *.
      change (plic_ctx_count p1) with (plic_ctx_count p) in *.
      destruct (decide (i / 32 = reg /\ candidate p1 ctx i = true)) as [[Er Hcand]|Hno]; [by apply (H3 i c)|].
      assert (forall c, deliverable p1 c i = deliverable p c i) as Hsame.
      { intros c0. unfold p1. rewrite deliverable_enable. destruct (Z.eqb_spec ctx c0) as [<-|]; [|done].
        destruct (Z.eqb_spec reg (i / 32)) as [Er|]; [|done]. cbn [andb]. unfold deliverable, candidate. f_equal.
        assert (candidate p1 ctx i = false) as Hcf by (destruct (candidate p1 ctx i); [by destruct Hno|done]).
        unfold candidate in Hcf. cbn in Hcf. rewrite fupd_eq, <- Er, fupd_eq in Hcf. rewrite <- Er, Hcf. fold old.
        destruct (Z.testbit (plic_pending p reg) (i mod 32)); [|done]. cbn [andb] in *.
        destruct (Z.testbit old (i mod 32)) eqn:Ho; [|done]. by rewrite (ldiff_bits old enable) in Hcf. }
      rewrite Hsame in Hdel. destruct (Hnl i c Hi Hcr Hdel) as (c' & Hc' & Hd' & Hl'). exists c'.
      split_and!; [lia|lia|by rewrite Hsame|]. apply H2; [lia|done].
    + apply nz_false in Hen. apply (no_lost_same p); [done| |done|done]. intros c i _ Hi. unfold p1. rewrite deliverable_enable.
      destruct (Z.eqb_spec ctx c) as [<-|]; [|done]. destruct (Z.eqb_spec reg (i / 32)) as [Er|]; [|done]. cbn [andb].
      unfold deliverable, candidate. rewrite <- Er. fold old. do 2 f_equal.
      apply eq_true_iff_eq. split; intros; [eapply (ldiff_bits enable old)|eapply (ldiff_bits old enable)]; done.
Qed.

Lemma complete_no_lost p ctx irq : plic_wf p -> 0 <= ctx -> 0 <= irq ->
  Z.testbit (p.(plic_enable) ctx (irq / 32)) (irq mod 32) && (p.(plic_threshold) ctx <? p.(plic_prio) irq) = true ->
  no_lost p -> no_lost (plic_complete_irq p ctx irq).
Proof.
  intros Hw Hc Hi Hg Hnl. unfold plic_complete_irq. destruct (Z.ltb_spec ctx (plic_ctx_count p)); [|done]. cbn [andb].
  destruct (irq <? PLIC_SRC_LIMIT); [|done]. rewrite nz_land_set32, irq_word by done.
  destruct (Z.testbit (plic_raised p (irq / 32)) (irq mod 32)) eqn:Hr; [|done].
  assert (plic_raised p (irq / 32) .& bit_set32 irq = bit_set32 irq) as ->.
  { apply Z.bits_inj'. intros i H0. rewrite Z.land_spec, testbit_bit_set32_irq by done.
    destruct (Z.eqb_spec i (irq mod 32)) as [->|]; [by rewrite Hr|by rewrite andb_false_r]. }
  set (p1 := set_plic_pending _ _ p).
  assert (Z.testbit (plic_pending p1 (irq / 32)) (irq mod 32) = true) as Hp1.
  { cbn [plic_pending p1 set_plic_pending]. rewrite word_set, Z.eqb_refl by done. apply orb_true_r. }
  assert (deliverable p1 ctx irq = true) as Hd1 by (unfold deliverable, candidate; by rewrite Hp1).
  rewrite notify_ctx_eq, Hd1 by done. cbn [fst]. apply (no_lost_raise p _ irq); [done| | | |done].
  - intros c i _ Hir Hne. rewrite (same_deliverable _ _ (same_interrupt p1 ctx)). apply deliverable_pending; [done|lia|done].
  - intros d Hd Hl. rewrite ctx_line_interrupt by done. by rewrite (Hl : ctx_line p1 d = true).
  - intros c _ _. exists ctx. split_and!; [lia|lia|by rewrite (same_deliverable _ _ (same_interrupt p1 ctx))|].
    rewrite ctx_line_interrupt, Z.eqb_refl by done. apply orb_true_r.
Qed.

(** ** The controller as a transition system *)

Inductive plic_op :=
| OpLine (irq : Z) (lvl : bool)          (* a device changes the level of its line *)
| OpPrio (irq prio : Z)
| OpEnable (ctx reg enable : Z)
| OpThreshold (ctx threshold : Z)
| OpClaim (ctx : Z)
| OpComplete (ctx irq : Z).

Definition plic_apply (o : plic_op) (p : plic_dev) : plic_dev :=
  match o with
  | OpLine irq lvl => plic_set_irq p irq lvl
  | OpPrio irq prio => plic_set_irq_prio p irq prio
  | OpEnable ctx reg enable => plic_set_enable_bits p ctx reg enable
  | OpThreshold ctx threshold => plic_set_ctx_threshold p ctx threshold
  | OpClaim ctx => default p (fst <$> plic_claim_irq 1 p ctx)
  | OpComplete ctx irq => plic_complete_irq p ctx irq
  end.

(** What a driver does: it enables and disables in separate writes, does not raise
    thresholds, and completes an interrupt in a context that can still take it. *)
Definition disciplined (p : plic_dev) (o : plic_op) : Prop :=
  match o with
  | OpLine irq _ => True
  | OpPrio irq prio => 0 <= irq /\ urange 32 prio
  | OpEnable ctx reg enable => 0 <= ctx /\ 0 <= reg /\ urange 32 enable /\ one_way (p.(plic_enable) ctx reg) enable
  | OpThreshold ctx threshold => 0 <= ctx /\ urange 32 threshold /\ threshold <= p.(plic_threshold) ctx
  | OpClaim ctx => 0 <= ctx
  | OpComplete ctx irq => 0 <= ctx /\ 0 <= irq /\
      Z.testbit (p.(plic_enable) ctx (irq / 32)) (irq mod 32) && (p.(plic_threshold) ctx <? p.(plic_prio) irq) = true
  end.

(** The states a machine can bring its controller to. *)
Inductive plic_reachable (m : machine) : plic_dev -> Prop :=
| PlicStart : plic_reachable m (rvvm_riscv_plic_init m)
| PlicStep p o : plic_reachable m p -> disciplined p o -> plic_reachable m (plic_apply o p).

Lemma notify_loop_wf fuel : forall p ctx irq, plic_wf p -> plic_wf (notify_loop fuel p ctx irq).
Proof.
  induction fuel as [|fuel IH]; intros p ctx irq Hw; cbn [notify_loop]; [done|]. unfold plic_notify_ctx_irq.
  destruct (negb _); [by apply IH|]. destruct (_ <=? _); [by apply IH|]. by apply (same_wf p).
Qed.

Lemma update_ctx_wf p ctx claim : plic_wf p -> 0 <= ctx -> plic_wf (fst (plic_update_ctx p ctx claim)).
Proof.
  intros Hw Hc. pose proof (update_ctx_spec p ctx claim Hw Hc) as Hu. destruct (plic_update_ctx p ctx claim).
  exact (same_wf _ _ (proj1 Hu) Hw).
Qed.

Lemma full_update_wf p : plic_wf p -> plic_wf (plic_full_update p).
Proof. intros Hw. eapply same_wf; [|done]. by apply full_update_spec. Qed.

Lemma plic_apply_wf p o : plic_wf p -> disciplined p o -> plic_wf (plic_apply o p).
Proof.
  intros Hw. pose proof (fun r => wf_plic_pending _ Hw r) as Hpd.
  destruct o as [irq lvl|irq prio|ctx reg enable|ctx threshold|ctx|ctx irq]; cbn [plic_apply disciplined]; intros Hd.
  - unfold plic_set_irq. destruct (_ && _); [|done]. destruct lvl; [|destruct Hw; by constructor].
    destruct (negb _); [|destruct Hw; by constructor].
    assert (plic_wf (set_plic_pending (irq .>> 5) (plic_pending p (irq .>> 5) .| bit_set32 irq)
      (set_plic_raised (irq .>> 5) (plic_raised p (irq .>> 5) .| bit_set32 irq) p))).
    { apply set_pending_wf; [destruct Hw; by constructor|]. apply urange_lor; [lia|done|apply bit_set32_range]. }
    destruct (negb _); [by apply notify_loop_wf|done].
  - destruct Hd as [Hi Hp]. unfold plic_set_irq_prio, nz. destruct (Z.eqb_spec irq 0); [done|]. cbn [negb andb].
    pose proof (set_prio_wf p irq prio Hw Hp ltac:(lia)) as Hw1.
    repeat match goal with |- plic_wf (if ?c then _ else _) => destruct c end; try done; [by apply full_update_wf|by apply notify_loop_wf].
  - destruct Hd as (Hc & Hr & He & _). unfold plic_set_enable_bits. pose proof (set_enable_wf p ctx reg enable Hw He) as Hw1.
    repeat match goal with |- plic_wf (if ?c then _ else _) => destruct c end; try done; [by apply full_update_wf|].
    eapply same_wf; [|done]. by apply update_ctx_irq_reg_spec.
  - destruct Hd as (Hc & Ht & _). unfold plic_set_ctx_threshold. pose proof (set_threshold_wf p ctx threshold Hw Ht) as Hw1.
    repeat match goal with |- plic_wf (if ?c then _ else _) => destruct c end; try done. by apply update_ctx_wf.
  - destruct (Z.lt_ge_cases ctx (plic_ctx_count p)).
    + destruct (claim_spec p ctx 1 Hw ltac:(lia) ltac:(lia)) as (p' & irq & -> & _ & Hw' & _). done.
    + unfold plic_claim_irq. by destruct (Z.ltb_spec ctx (plic_ctx_count p)); [lia|].
  - clear Hd. unfold plic_complete_irq. destruct ((ctx <? _) && _); [|done]. destruct (nz _); [|done].
    assert (plic_wf (set_plic_pending (irq .>> 5) (plic_pending p (irq .>> 5) .| (plic_raised p (irq .>> 5) .& bit_set32 irq)) p)) as Hw1.
    { apply set_pending_wf; [done|]. apply urange_lor; [lia|done|]. apply urange_land_r; [lia|apply bit_set32_range]. }
    unfold plic_notify_ctx_irq. destruct (negb _); [done|]. destruct (_ <=? _); [done|].
    exact (same_wf _ _ (same_interrupt _ _) Hw1).
Qed.

Lemma plic_init_wf m : 0 <= m.(nharts) < 2 ^ 31 -> plic_wf (rvvm_riscv_plic_init m).
Proof. intros. constructor; cbn; done. Qed.

Lemma plic_init_no_lost m : no_lost (rvvm_riscv_plic_init m).
Proof. intros irq ctx _ _ Hd. unfold deliverable, candidate in Hd. cbn in Hd. by rewrite Z.testbit_0_l in Hd. Qed.

(** C8: the PLIC loses no interrupt under a disciplined driver.  In every state that the
    devices and a driver that enables and disables in separate writes, never raises a
    threshold and completes an interrupt only in a context that can still take it bring the
    controller to, a pending interrupt that some context can take (it is enabled
    there and above the threshold) is signalled on the external interrupt line of a context
    that can take it. *)
Theorem plic_no_lost m p : 0 <= m.(nharts) < 2 ^ 31 -> plic_reachable m p -> no_lost p.
Proof.
  intros Hm. assert (plic_reachable m p -> plic_wf p /\ no_lost p) as H; [|by intros; apply H].
  induction 1 as [|p o _ [Hw Hnl] Hd]; [split; [by apply plic_init_wf|apply plic_init_no_lost]|].
  split; [by apply plic_apply_wf|].
  destruct o as [irq lvl|irq prio|ctx reg enable|ctx threshold|ctx|ctx irq]; cbn [plic_apply disciplined] in *.
  - by apply set_irq_no_lost.
  - destruct Hd. by apply set_prio_no_lost.
  - destruct Hd as (? & ? & ? & ?). by apply set_enable_no_lost.
  - destruct Hd as (? & ? & ?). by apply set_threshold_no_lost.
  - destruct (plic_claim_irq 1 p ctx) as [[p' irq]|] eqn:E; [|done]. by eapply claim_no_lost.
  - destruct Hd as (? & ? & ?). by apply complete_no_lost.
Qed.

(** C25: a claim takes the right interrupt.  It returns the pending enabled interrupt of the
    highest priority (the lowest number among equals), or 0 when none has a priority; exactly
    that interrupt stops being pending; the line of the context then says whether another
    interrupt can still be delivered to it, and other contexts keep their lines.  One
    iteration of the claim loop is enough. *)
Theorem plic_claim_sound p ctx fuel : plic_wf p -> 0 <= ctx < plic_ctx_count p -> (0 < fuel)%nat ->
  exists p' irq, plic_claim_irq fuel p ctx = Some (p', irq) /\ best_irq p ctx irq /\
    (forall c i, 0 <= i < PLIC_SRC_LIMIT -> deliverable p' c i = deliverable p c i && negb ((0 <? irq) && (irq =? i))) /\
    (forall d, 0 <= d -> d <> ctx -> ctx_line p' d = ctx_line p d) /\
    ctx_line p' ctx = signalled p' ctx.
Proof.
  intros Hw Hc Hf. destruct (claim_spec p ctx fuel Hw Hc Hf) as (p' & irq & E & Hb & _ & _ & _ & Hd & Ho & Hl).
  by exists p', irq.
Qed.

(** ** Witnesses *)

Definition plic_run (os : list plic_op) (p : plic_dev) : plic_dev := fold_left (fun p o => plic_apply o p) os p.

(** One hart: context 0 is its M mode, context 1 its S mode. *)
Definition demo_plic : plic_dev := rvvm_riscv_plic_init (mk_machine 1 (fun _ => demo_hart)).

(** Interrupts 3 and 5 pending for context 0, 5 with the higher priority. *)
Definition demo_plic_pending : plic_dev :=
  plic_run [OpPrio 3 1; OpPrio 5 2; OpEnable 0 0 0x28; OpLine 3 true; OpLine 5 true] demo_plic.

Lemma plic_no_lost_witness : no_lost (plic_apply (OpLine 5 true) (plic_apply (OpEnable 0 0 0x20) (plic_apply (OpPrio 5 1) demo_plic))).
Proof.
  refine (plic_no_lost (mk_machine 1 (fun _ => demo_hart)) _ _ _); [split; [discriminate|reflexivity]|].
  repeat apply PlicStep; [apply PlicStart|split; [discriminate|split; [discriminate|reflexivity]]| |exact I].
  split; [discriminate|split; [discriminate|split; [split; [discriminate|reflexivity]|]]]. by left.
Defined.

Lemma demo_plic_pending_wf : plic_wf demo_plic_pending.
Proof.
  unfold demo_plic_pending, plic_run. cbn [fold_left].
  apply plic_apply_wf; [|exact I]. apply plic_apply_wf; [|exact I].
  apply plic_apply_wf; [|split_and!; [discriminate|discriminate|split; [discriminate|reflexivity]|left; vm_compute; reflexivity]].
  apply plic_apply_wf; [|split; [discriminate|split; [discriminate|reflexivity]]].
  apply plic_apply_wf; [|split; [discriminate|split; [discriminate|reflexivity]]].
  apply plic_init_wf. split; [discriminate|reflexivity].
Qed.

Lemma plic_claim_sound_witness :
  option_map snd (plic_claim_irq 1 demo_plic_pending 0) = Some 5 /\
  exists p' irq, plic_claim_irq 1 demo_plic_pending 0 = Some (p', irq) /\ best_irq demo_plic_pending 0 irq.
Proof.
  split; [vm_compute; reflexivity|].
  destruct (plic_claim_sound demo_plic_pending 0 1 demo_plic_pending_wf) as (p' & irq & E & Hb & _).
  - split; [discriminate|reflexivity].
  - auto.
  - exists p', irq. exact (conj E Hb).
Defined.

(** An interrupt that context [ctx] can take, with no line raised. *)
Definition lost (p : plic_dev) (ctx irq : Z) : bool :=
  deliverable p ctx irq && negb (existsb (ctx_line p) (seqZ 0 (plic_ctx_count p))).

(** three ways to lose an interrupt.  A write to an enable register that disables an idle
    interrupt and enables a pending one does not notify about the latter; raising the
    threshold of the context that was signalled does not signal another context that can take
    the interrupt; neither does completing a raised interrupt in a context that has been
    disabled for it. *)
Theorem plic_lost_interrupts :
  lost (plic_run [OpPrio 5 1; OpEnable 0 0 0x08; OpLine 5 true; OpEnable 0 0 0x20] demo_plic) 0 5 = true /\
  lost (plic_run [OpPrio 5 1; OpEnable 0 0 0x20; OpEnable 1 0 0x20; OpLine 5 true; OpThreshold 0 1] demo_plic) 1 5 = true /\
  lost (plic_run [OpPrio 5 1; OpEnable 0 0 0x20; OpEnable 1 0 0x20; OpLine 5 true; OpClaim 0; OpEnable 0 0 0; OpComplete 0 5]
    demo_plic) 1 5 = true.
Proof. split_and!; vm_compute; reflexivity. Qed.
