(* ===== verification/Aclint.v ===== *)
(** * Core-local interruptor and MSI controller (src/devices/riscv-aclint.c, riscv-imsic.c)

    The software and timer interrupt registers of every hart and the machine timer, and the
    doorbells through which devices send MSIs to the register files of the harts.  Theorem:
    the registers drive exactly the lines of the hart they belong to. *)

From S2P Require Import Prelude BitOps MemOps Timer State Tlb CsrDefs Hart Intc.

(** The machine and its timer. *)
Record aclint := mk_aclint { ac_machine : machine; ac_timer : rvtimer }.

Definition ac_upd_hart (i : Z) (f : hart -> hart) (a : aclint) : aclint :=
  mk_aclint (upd_hart i f a.(ac_machine)) a.(ac_timer).

(** Reads return the value written to [data]; [None] leaves it as it is. *)
Definition aclint_mswi_read (a : aclint) (off : Z) : option Z :=
  let hartid := off .>> 2 in
  if hartid <? a.(ac_machine).(nharts) then
    Some ((riscv_interrupts_raised (a.(ac_machine).(hart_at) hartid) .>> RISCV_INTERRUPT_MSOFTWARE) .& 1)
  else None.

Definition aclint_mswi_write (a : aclint) (val off : Z) : aclint :=
  let hartid := off .>> 2 in
  if hartid <? a.(ac_machine).(nharts) then
    ac_upd_hart hartid
      (fun vm => if nz (val .& 1) then riscv_interrupt vm RISCV_INTERRUPT_MSOFTWARE
                 else riscv_interrupt_clear vm RISCV_INTERRUPT_MSOFTWARE) a
  else a.

(** [now] is the clock of the host at the frequency of the timer. *)
Definition aclint_mtimer_read (a : aclint) (now off : Z) : option Z :=
  let hartid := off .>> 3 in
  if hartid <? a.(ac_machine).(nharts) then Some (a.(ac_machine).(hart_at) hartid).(mtimecmp)
  else if off =? 0x7FF8 then Some (rvtimer_get a.(ac_timer) now)
  else None.

Definition aclint_mtimer_write (a : aclint) (now val off : Z) : aclint :=
  let hartid := off .>> 3 in
  if hartid <? a.(ac_machine).(nharts) then
    ac_upd_hart hartid
      (fun vm =>
         let vm := set_mtimecmp val vm in
         if rvtimecmp_pending (mk_rvtimecmp vm.(mtimecmp) a.(ac_timer)) now
         then riscv_interrupt vm RISCV_INTERRUPT_MTIMER
         else riscv_interrupt_clear vm RISCV_INTERRUPT_MTIMER) a
  else if off =? 0x7FF8 then mk_aclint a.(ac_machine) (rvtimer_rebase a.(ac_timer) now val)
  else a.

(** ** IMSIC *)

Definition IMSIC_REG_SETEIPNUM_LE : Z := 0x00.
Definition IMSIC_REG_SETEIPNUM_BE : Z := 0x04.

(** [data] holds the bytes of the write. *)
Definition imsic_mmio_write (smode : bool) (m : machine) (data : memory) (offset : Z) : machine :=
  let hartid := offset .>> 12 in
  if hartid <? m.(nharts) then
    let reg := offset .& 0xFFC in
    if reg =? IMSIC_REG_SETEIPNUM_LE then
      upd_hart hartid (fun h => riscv_send_aia_irq h smode (read_uint32_le data 0)) m
    else if reg =? IMSIC_REG_SETEIPNUM_BE then
      upd_hart hartid (fun h => riscv_send_aia_irq h smode (read_uint32_be_m data 0)) m
    else m
  else m.

(** ** Theorems *)

Lemma upd_hart_other i f m j : j <> i -> (upd_hart i f m).(hart_at) j = m.(hart_at) j.
Proof. intros. cbn. by rewrite fupd_ne by congruence. Qed.

Lemma upd_hart_same i f m : (upd_hart i f m).(hart_at) i = f (m.(hart_at) i).
Proof. cbn. by rewrite fupd_eq. Qed.

Lemma testbit_one v k : 0 <= k -> (v .>> k) .& 1 = Z.b2z (Z.testbit v k).
Proof. intros. change 1 with (Z.ones 1) at 1. rewrite Z.land_ones, Z.shiftr_div_pow2, Z.testbit_spec' by lia. done. Qed.

(** the core-local interruptor drives the lines of the addressed hart.  Writing the
    software interrupt register of a hart makes its line, and what the register reads back,
    equal to bit 0 of the value; writing its timer comparator stores the value and makes its
    timer line say whether the timer has reached it; other lines and other harts keep their
    state.  A written timer reads back the time that has passed since. *)
Theorem aclint_drives_lines a now val i later :
  0 <= i < a.(ac_machine).(nharts) -> a.(ac_machine).(nharts) <= 4095 -> urange 64 val ->
  let sw := aclint_mswi_write a val (4 * i) in
  let tm := aclint_mtimer_write a now val (8 * i) in
  aclint_mswi_read sw (4 * i) = Some (val mod 2) /\
  line sw.(ac_machine) i RISCV_INTERRUPT_MSOFTWARE = Z.testbit val 0 /\
  aclint_mtimer_read tm later (8 * i) = Some val /\
  line tm.(ac_machine) i RISCV_INTERRUPT_MTIMER = (val <=? rvtimer_get a.(ac_timer) now) /\
  (forall j k, 0 <= k < 32 -> j <> i \/ (k <> RISCV_INTERRUPT_MSOFTWARE) ->
    line sw.(ac_machine) j k = line a.(ac_machine) j k) /\
  (forall j k, 0 <= k < 32 -> j <> i \/ (k <> RISCV_INTERRUPT_MTIMER) ->
    line tm.(ac_machine) j k = line a.(ac_machine) j k) /\
  aclint_mtimer_read (aclint_mtimer_write a now val 0x7FF8) later 0x7FF8 = Some (u64 (val + (later - now))).
Proof.
  intros Hi Hn Hv sw tm.
  assert (0 <= RISCV_INTERRUPT_MSOFTWARE < 32) as Rs by by vm_compute.
  assert (0 <= RISCV_INTERRUPT_MTIMER < 32) as Rt by by vm_compute.
  assert (4 * i .>> 2 = i) as E4 by (rewrite Z.shiftr_div_pow2 by lia; change (2 ^ 2) with 4; dlia).
  assert (8 * i .>> 3 = i) as E8 by (rewrite Z.shiftr_div_pow2 by lia; change (2 ^ 3) with 8; dlia).
  assert (nz (val .& 1) = Z.testbit val 0) as Hb.
  { rewrite <- (Z.shiftr_0_r val) at 1. rewrite testbit_one by lia. by destruct (Z.testbit val 0). }
  assert (sw = ac_upd_hart i (fun vm => if Z.testbit val 0 then riscv_interrupt vm RISCV_INTERRUPT_MSOFTWARE
                 else riscv_interrupt_clear vm RISCV_INTERRUPT_MSOFTWARE) a) as Esw.
  { unfold sw, aclint_mswi_write. rewrite E4, Hb. by destruct (Z.ltb_spec i (nharts (ac_machine a))); [|lia]. }
  assert (tm = ac_upd_hart i (fun vm => if val <=? rvtimer_get a.(ac_timer) now
      then riscv_interrupt (set_mtimecmp val vm) RISCV_INTERRUPT_MTIMER
      else riscv_interrupt_clear (set_mtimecmp val vm) RISCV_INTERRUPT_MTIMER) a) as Etm.
  { unfold tm, aclint_mtimer_write. rewrite E8. by destruct (Z.ltb_spec i (nharts (ac_machine a))); [|lia]. }
  assert (line sw.(ac_machine) i RISCV_INTERRUPT_MSOFTWARE = Z.testbit val 0) as Hline.
  { rewrite Esw. unfold line, ac_upd_hart. cbn [ac_machine]. rewrite upd_hart_same.
    destruct (Z.testbit val 0); rewrite ?pending_interrupt, ?pending_interrupt_clear, Z.eqb_refl by lia;
      [apply orb_true_r|apply andb_false_r]. }
  split_and!.
  - unfold aclint_mswi_read. rewrite E4. assert (nharts (ac_machine sw) = nharts (ac_machine a)) as -> by by rewrite Esw.
    destruct (Z.ltb_spec i (nharts (ac_machine a))); [|lia]. f_equal. rewrite testbit_one by done.
    unfold line in Hline. unfold riscv_interrupts_raised. rewrite Hline. by rewrite Z.testbit_spec', Z.div_1_r by lia.
  - done.
  - unfold aclint_mtimer_read. rewrite E8, Etm. assert (forall f, nharts (ac_machine (ac_upd_hart i f a)) = nharts (ac_machine a)) as -> by done.
    destruct (Z.ltb_spec i (nharts (ac_machine a))); [|lia]. f_equal. cbn [ac_upd_hart ac_machine]. rewrite upd_hart_same. destruct (_ <=? _); [|done]. unfold riscv_interrupt, riscv_interrupt_set. by destruct (nz (not32 _ .& _)).
  - rewrite Etm. unfold line, ac_upd_hart. cbn [ac_machine]. rewrite upd_hart_same.
    destruct (val <=? _); rewrite ?pending_interrupt, ?pending_interrupt_clear, Z.eqb_refl by lia;
      [apply orb_true_r|apply andb_false_r].
  - intros j k Hk Hjk. rewrite Esw. unfold line, ac_upd_hart. cbn [ac_machine]. destruct (Z.eq_dec j i) as [->|]; [|by rewrite upd_hart_other].
    rewrite upd_hart_same. assert (k <> RISCV_INTERRUPT_MSOFTWARE) as Hne by tauto. apply Z.eqb_neq in Hne.
    destruct (Z.testbit val 0); rewrite ?pending_interrupt, ?pending_interrupt_clear, Hne by lia;
      [apply orb_false_r|apply andb_true_r].
  - intros j k Hk Hjk. rewrite Etm. unfold line, ac_upd_hart. cbn [ac_machine]. destruct (Z.eq_dec j i) as [->|]; [|by rewrite upd_hart_other].
    rewrite upd_hart_same. assert (k <> RISCV_INTERRUPT_MTIMER) as Hne by tauto. apply Z.eqb_neq in Hne.
    destruct (val <=? _); rewrite ?pending_interrupt, ?pending_interrupt_clear, Hne by lia;
      [apply orb_false_r|apply andb_true_r].
  - unfold aclint_mtimer_read, aclint_mtimer_write. change (0x7FF8 .>> 3) with 4095.
    destruct (Z.ltb_spec 4095 (nharts (ac_machine a))); [lia|]. cbn [ac_machine ac_timer Z.eqb Pos.eqb].
    destruct (Z.ltb_spec 4095 (nharts (ac_machine a))); [lia|]. f_equal. by apply rvtimer_rebase_get.
Qed.

(** Two harts, the timer at 100. *)
Definition demo_aclint : aclint := mk_aclint (mk_machine 2 (fun _ => demo_hart)) (mk_rvtimer 0 10000000).

Lemma aclint_drives_lines_witness :
  line (aclint_mtimer_write demo_aclint 100 99 8).(ac_machine) 1 RISCV_INTERRUPT_MTIMER = true.
Proof.
  refine (proj1 (proj2 (proj2 (proj2 (aclint_drives_lines demo_aclint 100 99 1 200 _ _ _))))); [|discriminate|];
    split; (discriminate || reflexivity).
Defined.
