(* ===== verification/Aplic.v ===== *)
(** * Advanced platform-level interrupt controller (src/devices/riscv-aplic.c)

    Two domains share the sources: a source belongs to the machine domain or is delegated to
    the supervisor domain, and each domain is programmed through its own registers.  Accesses
    outside of the per-source arrays are [None].  Theorems: registers of the supervisor domain
    do not reach the sources of the machine domain; only the target registers of sources that
    do not exist lead outside of the arrays. *)

From S2P Require Import Prelude BitOps MemOps Timer State Tlb CsrDefs Hart Intc.

Definition APLIC_REG_DOMAINCFG : Z := 0x0000.
Definition APLIC_REG_SOURCECFG : Z := 0x0004.
Definition APLIC_REG_SOURCECFG_SIZE : Z := 0x0FFC.
Definition APLIC_REG_MMSIADDRCFGH : Z := 0x1BC4.
Definition APLIC_REG_SMSIADDRCFGH : Z := 0x1BCC.
Definition APLIC_REG_SETIP : Z := 0x1C00.
Definition APLIC_REG_SETIP_SIZE : Z := 0x0020.
Definition APLIC_REG_SETIPNUM : Z := 0x1CDC.
Definition APLIC_REG_IN_CLRIP : Z := 0x1D00.
Definition APLIC_REG_IN_CLRIP_SIZE : Z := 0x0020.
Definition APLIC_REG_CLRIPNUM : Z := 0x1DDC.
Definition APLIC_REG_SETIE : Z := 0x1E00.
Definition APLIC_REG_SETIE_SIZE : Z := 0x0020.
Definition APLIC_REG_SETIENUM : Z := 0x1EDC.
Definition APLIC_REG_CLRIE : Z := 0x1F00.
Definition APLIC_REG_CLRIE_SIZE : Z := 0x0020.
Definition APLIC_REG_CLRIENUM : Z := 0x1FDC.
Definition APLIC_REG_SETIPNUM_LE : Z := 0x2000.
Definition APLIC_REG_SETIPNUM_BE : Z := 0x2004.
Definition APLIC_REG_GENMSI : Z := 0x3000.
Definition APLIC_REG_TARGET : Z := 0x3004.
Definition APLIC_REG_TARGET_SIZE : Z := 0x0FFC.

Definition APLIC_DOMAINCFG_BE : Z := 0x00000001.
Definition APLIC_DOMAINCFG_IE : Z := 0x00000100.
Definition APLIC_DOMAINCFG_MASK : Z := 0x00000101.
Definition APLIC_DOMAINCFG : Z := 0x80000004.
Definition APLIC_SOURCECFG_DELEGATE : Z := 0x0400.
Definition APLIC_SOURCECFG_DETACHED : Z := 0x0001.
Definition APLIC_SOURCECFG_EDGE_RISE : Z := 0x0004.
Definition APLIC_SOURCECFG_EDGE_FALL : Z := 0x0005.
Definition APLIC_SOURCECFG_LVL_HIGH : Z := 0x0006.
Definition APLIC_SOURCECFG_LVL_LOW : Z := 0x0007.
Definition APLIC_SOURCECFG_MASK : Z := 0x0007.
Definition APLIC_MSIADDRCFGH_L : Z := 0x80000000.

Definition APLIC_SRC_REGS : Z := 2.
Definition APLIC_SRC_IDTS : Z := 64.
Definition APLIC_SRC_COUNT : Z := 63.

(** [struct aplic_dev]; [ap_config smode] is the configuration of a domain.  The [invert]
    word of a domain is all ones for the machine domain and 0 for the supervisor domain. *)
Record aplic_dev := mk_aplic {
  ap_machine : machine;
  ap_config : bool -> Z;
  ap_deleg : Z -> Z;
  ap_raised : Z -> Z;
  ap_invert : Z -> Z;
  ap_pending : Z -> Z;
  ap_enabled : Z -> Z;
  ap_source : Z -> Z;
  ap_target : Z -> Z
}.

Definition set_ap_machine (v : machine) (a : aplic_dev) : aplic_dev :=
  mk_aplic v a.(ap_config) a.(ap_deleg) a.(ap_raised) a.(ap_invert) a.(ap_pending) a.(ap_enabled) a.(ap_source) a.(ap_target).
Definition set_ap_config (s : bool) (v : Z) (a : aplic_dev) : aplic_dev :=
  mk_aplic a.(ap_machine) (fun s' => if eqb s s' then v else a.(ap_config) s') a.(ap_deleg) a.(ap_raised) a.(ap_invert)
    a.(ap_pending) a.(ap_enabled) a.(ap_source) a.(ap_target).
Definition set_ap_deleg (i v : Z) (a : aplic_dev) : aplic_dev :=
  mk_aplic a.(ap_machine) a.(ap_config) (<[i := v]> a.(ap_deleg)) a.(ap_raised) a.(ap_invert) a.(ap_pending) a.(ap_enabled)
    a.(ap_source) a.(ap_target).
Definition set_ap_raised (i v : Z) (a : aplic_dev) : aplic_dev :=
  mk_aplic a.(ap_machine) a.(ap_config) a.(ap_deleg) (<[i := v]> a.(ap_raised)) a.(ap_invert) a.(ap_pending) a.(ap_enabled)
    a.(ap_source) a.(ap_target).
Definition set_ap_invert (i v : Z) (a : aplic_dev) : aplic_dev :=
  mk_aplic a.(ap_machine) a.(ap_config) a.(ap_deleg) a.(ap_raised) (<[i := v]> a.(ap_invert)) a.(ap_pending) a.(ap_enabled)
    a.(ap_source) a.(ap_target).
Definition set_ap_pending (i v : Z) (a : aplic_dev) : aplic_dev :=
  mk_aplic a.(ap_machine) a.(ap_config) a.(ap_deleg) a.(ap_raised) a.(ap_invert) (<[i := v]> a.(ap_pending)) a.(ap_enabled)
    a.(ap_source) a.(ap_target).
Definition set_ap_enabled (i v : Z) (a : aplic_dev) : aplic_dev :=
  mk_aplic a.(ap_machine) a.(ap_config) a.(ap_deleg) a.(ap_raised) a.(ap_invert) a.(ap_pending) (<[i := v]> a.(ap_enabled))
    a.(ap_source) a.(ap_target).
Definition set_ap_source (i v : Z) (a : aplic_dev) : aplic_dev :=
  mk_aplic a.(ap_machine) a.(ap_config) a.(ap_deleg) a.(ap_raised) a.(ap_invert) a.(ap_pending) a.(ap_enabled)
    (<[i := v]> a.(ap_source)) a.(ap_target).
Definition set_ap_target (i v : Z) (a : aplic_dev) : aplic_dev :=
  mk_aplic a.(ap_machine) a.(ap_config) a.(ap_deleg) a.(ap_raised) a.(ap_invert) a.(ap_pending) a.(ap_enabled)
    a.(ap_source) (<[i := v]> a.(ap_target)).

(** ** Core helpers *)

Definition aplic_gen_msi (a : aplic_dev) (smode : bool) (target : Z) : aplic_dev :=
  let hartid := target .>> 18 in
  if hartid <? a.(ap_machine).(nharts) then
    set_ap_machine (upd_hart hartid (fun h => riscv_send_aia_irq h smode (target .& 0x3FF)) a.(ap_machine)) a
  else a.

Definition aplic_rectified_bits (a : aplic_dev) (reg : Z) : Z := a.(ap_raised) reg .^ a.(ap_invert) reg.
Definition aplic_rectified_src (a : aplic_dev) (irq : Z) : bool :=
  nz (aplic_rectified_bits a (irq .>> 5) .& bit_set32 irq).
Definition aplic_detached_src (a : aplic_dev) (irq : Z) : bool := a.(ap_source) irq <=? APLIC_SOURCECFG_DETACHED.

(** [irq - 1 < APLIC_SRC_COUNT] on an unsigned integer. *)
Definition aplic_irq_ok (irq : Z) : bool := u64 (irq - 1) <? APLIC_SRC_COUNT.

Definition aplic_pending_interrupt (a : aplic_dev) (irq : Z) : aplic_dev :=
  if aplic_irq_ok irq then
    let reg := irq .>> 5 in
    let mask := bit_set32 irq in
    let smode := nz (a.(ap_deleg) reg .& mask) in
    if nz (a.(ap_enabled) reg .& mask) && nz (a.(ap_config) smode .& APLIC_DOMAINCFG_IE) then
      aplic_gen_msi a smode (a.(ap_target) irq)
    else set_ap_pending reg (a.(ap_pending) reg .| mask) a
  else a.

Definition aplic_update_interrupt (a : aplic_dev) (irq : Z) : aplic_dev :=
  if aplic_rectified_src a irq && negb (aplic_detached_src a irq) then aplic_pending_interrupt a irq else a.

(** ** Domain helpers; [smode] selects the domain *)

Definition domain_invert (smode : bool) : Z := if smode then 0 else 0xFFFFFFFF.

Definition aplic_valid_bits (smode : bool) (a : aplic_dev) (reg : Z) : Z := a.(ap_deleg) reg .^ domain_invert smode.
Definition aplic_valid_src (smode : bool) (a : aplic_dev) (irq : Z) : bool :=
  nz (aplic_valid_bits smode a (irq .>> 5) .& bit_set32 irq).
Definition aplic_ungated_src (smode : bool) (a : aplic_dev) (irq : Z) : bool :=
  if aplic_valid_src smode a irq then aplic_rectified_src a irq || aplic_detached_src a irq else false.

(** ** Registers *)

Definition aplic_read_ip (smode : bool) (a : aplic_dev) (reg : Z) : Z :=
  if reg <? APLIC_SRC_REGS then a.(ap_pending) reg .& aplic_valid_bits smode a reg else 0.
Definition aplic_read_in (smode : bool) (a : aplic_dev) (reg : Z) : Z :=
  if reg <? APLIC_SRC_REGS then aplic_rectified_bits a reg .& aplic_valid_bits smode a reg else 0.
Definition aplic_read_ie (smode : bool) (a : aplic_dev) (reg : Z) : Z :=
  if reg <? APLIC_SRC_REGS then a.(ap_enabled) reg .& aplic_valid_bits smode a reg else 0.
Definition aplic_read_sourcecfg (smode : bool) (a : aplic_dev) (irq : Z) : Z :=
  if aplic_irq_ok irq then
    if aplic_valid_src smode a irq then a.(ap_source) irq
    else if nz (domain_invert smode) then APLIC_SOURCECFG_DELEGATE else 0
  else 0.
Definition aplic_read_targetcfg (smode : bool) (a : aplic_dev) (irq : Z) : Z :=
  if aplic_irq_ok irq && aplic_valid_src smode a irq then a.(ap_target) irq else 0.

Definition aplic_write_setipnum (smode : bool) (a : aplic_dev) (irq : Z) : aplic_dev :=
  if aplic_irq_ok irq && aplic_ungated_src smode a irq then aplic_pending_interrupt a irq else a.

Definition aplic_write_setip (smode : bool) (a : aplic_dev) (reg bits : Z) : aplic_dev :=
  if reg <? APLIC_SRC_REGS then
    let irqs := bits .& aplic_valid_bits smode a reg in
    bits_loop 32 (fun bit a => aplic_write_setipnum smode a ((reg .<< 5) + bit)) irqs a
  else a.

Definition aplic_write_clrip (smode : bool) (a : aplic_dev) (reg bits : Z) : aplic_dev :=
  if reg <? APLIC_SRC_REGS then
    let clr := bits .& aplic_valid_bits smode a reg in
    if nz clr then set_ap_pending reg (a.(ap_pending) reg .& not32 clr) a else a
  else a.
Definition aplic_write_clripnum (smode : bool) (a : aplic_dev) (irq : Z) : aplic_dev :=
  aplic_write_clrip smode a (irq .>> 5) (bit_set32 irq).

Definition aplic_write_setie (smode : bool) (a : aplic_dev) (reg bits : Z) : aplic_dev :=
  if reg <? APLIC_SRC_REGS then
    let set := bits .& aplic_valid_bits smode a reg in
    let '(a, set) :=
      if nz set then (set_ap_enabled reg (a.(ap_enabled) reg .| set) a, set .& not32 (a.(ap_enabled) reg)) else (a, set) in
    if nz set then
      let irqs := a.(ap_pending) reg in
      let a := set_ap_pending reg (a.(ap_pending) reg .& not32 set) a in
      bits_loop 32 (fun bit a => aplic_pending_interrupt a ((reg .<< 5) + bit)) irqs a
    else a
  else a.
Definition aplic_write_setienum (smode : bool) (a : aplic_dev) (irq : Z) : aplic_dev :=
  aplic_write_setie smode a (irq .>> 5) (bit_set32 irq).

Definition aplic_write_clrie (smode : bool) (a : aplic_dev) (reg val : Z) : aplic_dev :=
  if reg <? APLIC_SRC_REGS then
    let clr := val .& aplic_valid_bits smode a reg in
    if nz clr then set_ap_enabled reg (a.(ap_enabled) reg .& not32 clr) a else a
  else a.
Definition aplic_write_clrienum (smode : bool) (a : aplic_dev) (irq : Z) : aplic_dev :=
  aplic_write_clrie smode a (irq .>> 5) (bit_set32 irq).

Definition aplic_write_sourcecfg (smode : bool) (a : aplic_dev) (irq val : Z) : aplic_dev :=
  if aplic_irq_ok irq then
    let reg := irq .>> 5 in
    let mask := bit_set32 irq in
    let a :=
      if nz (domain_invert smode) then
        if nz (val .& APLIC_SOURCECFG_DELEGATE) then set_ap_deleg reg (a.(ap_deleg) reg .| mask) a
        else set_ap_deleg reg (a.(ap_deleg) reg .& not32 mask) a
      else a in
    if aplic_valid_src smode a irq then
      let cfg := val .& APLIC_SOURCECFG_MASK in
      let a := set_ap_source irq cfg a in
      if (cfg =? APLIC_SOURCECFG_LVL_LOW) || (cfg =? APLIC_SOURCECFG_EDGE_FALL)
      then set_ap_invert reg (a.(ap_invert) reg .| mask) a
      else set_ap_invert reg (a.(ap_invert) reg .& not32 mask) a
    else a
  else a.

(** The target register of source [irq], without a check of [irq]: the bitset word and the
    array element may be outside of their arrays. *)
Definition aplic_write_target (smode : bool) (a : aplic_dev) (irq val : Z) : option aplic_dev :=
  if (irq .>> 5) <? APLIC_SRC_REGS then
    if aplic_valid_src smode a irq then
      if irq <? APLIC_SRC_IDTS then Some (set_ap_target irq val a) else None
    else Some a
  else None.

(** [off - reg < size] on [size_t]. *)
Definition in_regs (off reg size : Z) : bool := u64 (off - reg) <? size.

Definition aplic_mmio_read (smode : bool) (a : aplic_dev) (off : Z) : list Z :=
  let config := a.(ap_config) smode in
  let val :=
    if off =? APLIC_REG_DOMAINCFG then config .| APLIC_DOMAINCFG
    else if in_regs off APLIC_REG_SETIP APLIC_REG_SETIP_SIZE then aplic_read_ip smode a ((off - APLIC_REG_SETIP) .>> 2)
    else if in_regs off APLIC_REG_IN_CLRIP APLIC_REG_IN_CLRIP_SIZE then aplic_read_in smode a ((off - APLIC_REG_IN_CLRIP) .>> 2)
    else if in_regs off APLIC_REG_SETIE APLIC_REG_SETIE_SIZE then aplic_read_ie smode a ((off - APLIC_REG_SETIE) .>> 2)
    else if in_regs off APLIC_REG_SOURCECFG APLIC_REG_SOURCECFG_SIZE
      then aplic_read_sourcecfg smode a (((off - APLIC_REG_SOURCECFG) .>> 2) + 1)
    else if in_regs off APLIC_REG_TARGET APLIC_REG_TARGET_SIZE
      then aplic_read_targetcfg smode a (((off - APLIC_REG_TARGET) .>> 2) + 1)
    else if (off =? APLIC_REG_MMSIADDRCFGH) || (off =? APLIC_REG_SMSIADDRCFGH) then APLIC_MSIADDRCFGH_L
    else 0 in
  if negb (nz (config .& APLIC_DOMAINCFG_BE)) then le_split 4 val else rev (le_split 4 val).

(** [data] holds the four bytes of the write. *)
Definition aplic_mmio_write (smode : bool) (a : aplic_dev) (data : memory) (off : Z) : option aplic_dev :=
  let config := a.(ap_config) smode in
  let val := if negb (nz (config .& APLIC_DOMAINCFG_BE)) then read_uint32_le data 0 else read_uint32_be_m data 0 in
  if off =? APLIC_REG_DOMAINCFG then Some (set_ap_config smode (val .& APLIC_DOMAINCFG_MASK) a)
  else if off =? APLIC_REG_SETIPNUM then Some (aplic_write_setipnum smode a val)
  else if off =? APLIC_REG_CLRIPNUM then Some (aplic_write_clripnum smode a val)
  else if off =? APLIC_REG_SETIENUM then Some (aplic_write_setienum smode a val)
  else if off =? APLIC_REG_CLRIENUM then Some (aplic_write_clrienum smode a val)
  else if off =? APLIC_REG_SETIPNUM_LE then Some (aplic_write_setipnum smode a (read_uint32_le data 0))
  else if off =? APLIC_REG_SETIPNUM_BE then Some (aplic_write_setipnum smode a (read_uint32_be_m data 0))
  else if off =? APLIC_REG_GENMSI then Some (aplic_gen_msi a (negb (nz (domain_invert smode))) val)
  else if in_regs off APLIC_REG_SETIP APLIC_REG_SETIP_SIZE then Some (aplic_write_setip smode a ((off - APLIC_REG_SETIP) .>> 2) val)
  else if in_regs off APLIC_REG_IN_CLRIP APLIC_REG_IN_CLRIP_SIZE
    then Some (aplic_write_clrip smode a ((off - APLIC_REG_IN_CLRIP) .>> 2) val)
  else if in_regs off APLIC_REG_SETIE APLIC_REG_SETIE_SIZE then Some (aplic_write_setie smode a ((off - APLIC_REG_SETIE) .>> 2) val)
  else if in_regs off APLIC_REG_CLRIE APLIC_REG_CLRIE_SIZE then Some (aplic_write_clrie smode a ((off - APLIC_REG_CLRIE) .>> 2) val)
  else if in_regs off APLIC_REG_SOURCECFG APLIC_REG_SOURCECFG_SIZE
    then Some (aplic_write_sourcecfg smode a (((off - APLIC_REG_SOURCECFG) .>> 2) + 1) val)
  else if in_regs off APLIC_REG_TARGET APLIC_REG_TARGET_SIZE
    then aplic_write_target smode a (((off - APLIC_REG_TARGET) .>> 2) + 1) val
  else Some a.

Definition aplic_set_irq (a : aplic_dev) (irq : Z) (lvl : bool) : aplic_dev :=
  if u32 (irq - 1) <? APLIC_SRC_COUNT then
    let reg := irq .>> 5 in
    let mask := bit_set32 irq in
    let old := a.(ap_raised) reg in
    if lvl then
      let a := set_ap_raised reg (old .| mask) a in
      if nz (not32 old .& mask) then aplic_update_interrupt a irq else a
    else
      let a := set_ap_raised reg (old .& not32 mask) a in
      if nz (old .& mask) then aplic_update_interrupt a irq else a
  else a.

Definition aplic_fdt_irq_cells (irq size : Z) : list Z :=
  if 2 <=? size then [irq; APLIC_SOURCECFG_EDGE_RISE] else [].

Definition rvvm_riscv_aplic_init (m : machine) : aplic_dev :=
  mk_aplic m (fun _ => 0) (fun _ => 0xFFFFFFFF) (fun _ => 0) (fun _ => 0) (fun _ => 0) (fun _ => 0) (fun _ => 0) (fun _ => 0).

(** ** Sources *)

(** The bit of source [irq] in a bitset. *)
Definition src_bit (f : Z -> Z) (irq : Z) : bool := Z.testbit (f (irq .>> 5)) (irq mod 32).

(** Everything the controller holds about source [irq] is the same in both states. *)
Record same_src (irq : Z) (a a' : aplic_dev) : Prop := mk_same_src {
  same_deleg : src_bit a'.(ap_deleg) irq = src_bit a.(ap_deleg) irq;
  same_raised : src_bit a'.(ap_raised) irq = src_bit a.(ap_raised) irq;
  same_invert : src_bit a'.(ap_invert) irq = src_bit a.(ap_invert) irq;
  same_pending : src_bit a'.(ap_pending) irq = src_bit a.(ap_pending) irq;
  same_enabled : src_bit a'.(ap_enabled) irq = src_bit a.(ap_enabled) irq;
  same_source : a'.(ap_source) irq = a.(ap_source) irq;
  same_target : a'.(ap_target) irq = a.(ap_target) irq
}.

#[export] Instance same_src_preorder irq : PreOrder (same_src irq).
Proof.
  split; [by split|]. intros a b c [] []. split; congruence.
Qed.

Definition aplic_wf (a : aplic_dev) : Prop := forall r, urange 32 (a.(ap_pending) r).

Lemma src_bit_upd f r v irq :
  (r = irq .>> 5 -> Z.testbit v (irq mod 32) = Z.testbit (f r) (irq mod 32)) -> src_bit (<[r := v]> f) irq = src_bit f irq.
Proof. intros H. unfold src_bit. rewrite fupd_dec. destruct (Z.eqb_spec r (irq .>> 5)) as [->|]; [by apply H|done]. Qed.

Lemma irq_split irq irq' : irq .>> 5 = irq' .>> 5 -> irq mod 32 = irq' mod 32 -> irq = irq'.
Proof. rewrite !Z.shiftr_div_pow2 by lia. change (2 ^ 5) with 32. intros. dlia. Qed.

Lemma irq_mod_range irq : 0 <= irq mod 32 < 32.
Proof. apply Z.mod_pos_bound. lia. Qed.

Lemma aplic_irq_ok_spec irq : urange 64 irq -> aplic_irq_ok irq = true <-> 1 <= irq < 64.
Proof.
  unfold aplic_irq_ok, urange, APLIC_SRC_COUNT. intros Hi. destruct (Z.eq_dec irq 0) as [->|].
  - split; [|lia]. vm_compute. discriminate.
  - rewrite wrap_small by (unfold urange; lia). rewrite Z.ltb_lt. lia.
Qed.

(** A source belongs to the supervisor domain exactly when it is delegated. *)
Lemma valid_bit smode a irq : 0 <= irq ->
  Z.testbit (aplic_valid_bits smode a (irq .>> 5)) (irq mod 32) = eqb smode (src_bit a.(ap_deleg) irq).
Proof.
  intros Hi. unfold aplic_valid_bits, src_bit. rewrite Z.lxor_spec. pose proof (irq_mod_range irq).
  destruct smode; cbn [domain_invert].
  - rewrite Z.testbit_0_l, xorb_false_r. by destruct (Z.testbit _ _).
  - change 0xFFFFFFFF with (Z.ones 32). rewrite Z.ones_spec_low by lia. by destruct (Z.testbit _ _).
Qed.

Lemma valid_src_deleg smode a irq : 0 <= irq -> aplic_valid_src smode a irq = eqb smode (src_bit a.(ap_deleg) irq).
Proof. intros Hi. unfold aplic_valid_src. by rewrite nz_land_set32, valid_bit. Qed.

Lemma same_src_valid smode irq a a' : 0 <= irq -> same_src irq a a' -> aplic_valid_src smode a' irq = aplic_valid_src smode a irq.
Proof. intros Hi Hs. by rewrite !valid_src_deleg, (same_deleg _ _ _ Hs). Qed.

(** Clearing and setting bits of other sources. *)
Lemma clear_bits_other v clr irq : Z.testbit clr (irq mod 32) = false ->
  Z.testbit (v .& not32 clr) (irq mod 32) = Z.testbit v (irq mod 32).
Proof.
  intros H. pose proof (irq_mod_range irq). rewrite Z.land_spec, testbit_not32, H by lia.
  destruct (Z.ltb_spec (irq mod 32) 32); [|lia]. by rewrite andb_true_r.
Qed.

Lemma set_bits_other v set irq : Z.testbit set (irq mod 32) = false ->
  Z.testbit (v .| set) (irq mod 32) = Z.testbit v (irq mod 32).
Proof. intros H. by rewrite Z.lor_spec, H, orb_false_r. Qed.

Lemma masked_other bits smode a irq : 0 <= irq -> aplic_valid_src smode a irq = false ->
  Z.testbit (bits .& aplic_valid_bits smode a (irq .>> 5)) (irq mod 32) = false.
Proof. intros Hi Hv. rewrite valid_src_deleg in Hv by done. by rewrite Z.land_spec, valid_bit, Hv, andb_false_r by done. Qed.

(** ** Effects on a source *)

Lemma gen_msi_same irq a smode t : same_src irq a (aplic_gen_msi a smode t).
Proof. unfold aplic_gen_msi. cbn zeta. by case_match. Qed.

Lemma pending_interrupt_same irq a irq' : 0 <= irq' -> irq' <> irq \/ src_bit a.(ap_pending) irq = true ->
  same_src irq a (aplic_pending_interrupt a irq').
Proof.
  intros Hi' Hd. unfold aplic_pending_interrupt. cbn zeta. case_match; [|done].
  case_match; [apply gen_msi_same|]. split; try done. apply src_bit_upd. intros Hr.
  rewrite Z.lor_spec, testbit_bit_set32_irq by done. destruct (Z.eqb_spec (irq mod 32) (irq' mod 32)) as [E|E].
  - assert (irq' = irq) as -> by (apply irq_split; congruence). destruct Hd as [|Hd]; [done|]. unfold src_bit in Hd. by rewrite Hd.
  - by rewrite orb_false_r.
Qed.

Lemma pending_interrupt_aplic_wf a irq : aplic_wf a -> aplic_wf (aplic_pending_interrupt a irq).
Proof.
  intros Hw r. unfold aplic_pending_interrupt, aplic_gen_msi. cbn zeta. repeat case_match; try apply Hw.
  cbn [ap_pending set_ap_pending]. rewrite fupd_dec. case_match; [|apply Hw].
  apply urange_lor; [lia|apply Hw|apply wrap_range; lia].
Qed.

Lemma bits_loop_ind {A} (P : A -> Prop) n f : (forall bit acc, P acc -> P (f bit acc)) -> forall irqs acc, P acc -> P (bits_loop n f irqs acc).
Proof. intros Hf. induction n as [|n IH]; intros irqs acc H; cbn [bits_loop]; [done|]. case_match; [|done]. by apply IH, Hf. Qed.

(** The loop visits set bits only. *)
Lemma bits_loop_ind_set {A} (P : A -> Prop) f irqs acc : urange 32 irqs -> P acc ->
  (forall bit acc, 0 <= bit < 32 -> Z.testbit irqs bit = true -> P acc -> P (f bit acc)) -> P (bits_loop 32 f irqs acc).
Proof.
  intros Hu Ha Hf. rewrite bits_loop_fold by done.
  assert (forall l acc, (forall i, i ∈ l -> 0 <= i < 32) -> P acc ->
    P (fold_left (fun acc i => if Z.testbit irqs i then f i acc else acc) l acc)) as Hl.
  { induction l as [|i l IH]; intros acc' Hr Hp; cbn [fold_left]; [done|]. apply IH; [intros j Hj; apply Hr; by constructor|].
    destruct (Z.testbit irqs i) eqn:E; [|done]. apply Hf; [apply Hr; constructor|done|done]. }
  apply Hl; [|done]. intros i Hi. apply elem_of_seqZ in Hi. lia.
Qed.

(** Number of a bit in a register of the bitset. *)
Lemma reg_bit reg bit : 0 <= bit < 32 -> (((reg .<< 5) + bit) .>> 5) = reg /\ ((reg .<< 5) + bit) mod 32 = bit.
Proof. intros. rewrite Z.shiftl_mul_pow2, Z.shiftr_div_pow2 by lia. change (2 ^ 5) with 32. split; dlia. Qed.

(** What an operation of one domain does to a source of the other one. *)
Definition untouched (irq : Z) (a a' : aplic_dev) : Prop := aplic_wf a' /\ same_src irq a a' /\ a'.(ap_config) = a.(ap_config).

Section Isolation.
Context (smode : bool) (irq : Z) (Hirq : 0 <= irq).

Lemma untouched_refl a : aplic_wf a -> untouched irq a a.
Proof. done. Qed.

Lemma gen_msi_untouched a s t : aplic_wf a -> untouched irq a (aplic_gen_msi a s t).
Proof.
  intros Hw. split; [|split; [apply gen_msi_same|]]; unfold aplic_gen_msi; cbn zeta; by case_match.
Qed.

Lemma pending_interrupt_config a i : (aplic_pending_interrupt a i).(ap_config) = a.(ap_config).
Proof. unfold aplic_pending_interrupt, aplic_gen_msi. cbn zeta. by repeat case_match. Qed.

Lemma setipnum_untouched a i : 0 <= i -> aplic_wf a -> aplic_valid_src smode a irq = false ->
  untouched irq a (aplic_write_setipnum smode a i).
Proof.
  intros Hi Hw Hv. unfold aplic_write_setipnum. destruct (aplic_irq_ok i && _) eqn:E; [|done].
  apply andb_true_iff in E as [_ E]. unfold aplic_ungated_src in E. destruct (aplic_valid_src smode a i) eqn:Hvi; [|done].
  split; [by apply pending_interrupt_aplic_wf|]. split; [|apply pending_interrupt_config].
  apply pending_interrupt_same; [done|left; congruence].
Qed.

Lemma setip_untouched a reg bits : 0 <= reg -> aplic_wf a -> aplic_valid_src smode a irq = false ->
  urange 32 bits -> untouched irq a (aplic_write_setip smode a reg bits).
Proof.
  intros Hr Hw Hv Hb. unfold aplic_write_setip. case_match; [|done]. cbn zeta.
  apply (bits_loop_ind_set (untouched irq a)); [by apply urange_land_l|done|].
  intros bit acc Hbit _ (Hw' & Hs & Hc). assert (0 <= (reg .<< 5) + bit) by (rewrite Z.shiftl_mul_pow2 by lia; lia).
  destruct (setipnum_untouched acc ((reg .<< 5) + bit)) as (W & S & C); [done|done|by rewrite (same_src_valid _ _ a)|].
  split; [done|split; [by transitivity acc|congruence]].
Qed.

Lemma clrip_untouched a reg bits : aplic_wf a -> aplic_valid_src smode a irq = false ->
  untouched irq a (aplic_write_clrip smode a reg bits).
Proof.
  intros Hw Hv. unfold aplic_write_clrip. case_match; [|done]. cbn zeta. case_match; [|done]. split; [|split; [|done]].
  - intros r. cbn [ap_pending set_ap_pending]. rewrite fupd_dec. case_match; [|apply Hw]. by apply urange_land_l; [|apply Hw].
  - split; try done. apply src_bit_upd. intros ->. by apply clear_bits_other, masked_other.
Qed.

Lemma clrie_untouched a reg bits : aplic_wf a -> aplic_valid_src smode a irq = false ->
  untouched irq a (aplic_write_clrie smode a reg bits).
Proof.
  intros Hw Hv. unfold aplic_write_clrie. case_match; [|done]. cbn zeta. case_match; [|done].
  split; [done|split; [|done]]. split; try done. apply src_bit_upd. intros ->. by apply clear_bits_other, masked_other.
Qed.

(** The notification loop of a write to the enable bits. *)
Lemma renotify_untouched a reg irqs : 0 <= reg -> urange 32 irqs -> aplic_wf a ->
  (reg = irq .>> 5 -> Z.testbit irqs (irq mod 32) = src_bit a.(ap_pending) irq) ->
  untouched irq a (bits_loop 32 (fun bit a => aplic_pending_interrupt a ((reg .<< 5) + bit)) irqs a).
Proof.
  intros Hr Hu Hw Hirqs. apply (bits_loop_ind_set (untouched irq a)); [done|done|].
  intros bit acc Hbit Hset (Hw' & Hs & Hc). destruct (reg_bit reg bit Hbit) as [E1 E2].
  split; [by apply pending_interrupt_aplic_wf|]. split; [|by rewrite pending_interrupt_config].
  transitivity acc; [done|]. apply pending_interrupt_same; [rewrite Z.shiftl_mul_pow2 by lia; lia|].
  destruct (Z.eq_dec ((reg .<< 5) + bit) irq) as [<-|]; [right|by left].
  rewrite (same_pending _ _ _ Hs), <- Hirqs by done. by rewrite E2.
Qed.

Lemma setie_untouched a reg bits : 0 <= reg -> aplic_wf a -> aplic_valid_src smode a irq = false ->
  untouched irq a (aplic_write_setie smode a reg bits).
Proof.
  intros Hr Hw Hv. unfold aplic_write_setie. case_match; [|done]. cbn zeta.
  set (set := bits .& aplic_valid_bits smode a reg).
  assert (reg = irq .>> 5 -> Z.testbit set (irq mod 32) = false) as Hset by (intros ->; by apply masked_other).
  destruct (nz set) eqn:Hnz; [|by rewrite Hnz].
  set (a1 := set_ap_enabled reg _ a). assert (untouched irq a a1) as Hu1.
  { split; [done|split; [|done]]. split; try done. apply src_bit_upd. intros Hreg. by apply set_bits_other, Hset. }
  set (set1 := set .& not32 _). destruct (nz set1); [|done]. destruct Hu1 as (Hw1 & Hs1 & Hc1).
  set (a2 := set_ap_pending reg _ a1). assert (untouched irq a1 a2) as (Hw2 & Hs2 & Hc2).
  { split; [|split; [|done]].
    - intros r. cbn [a2 ap_pending set_ap_pending]. rewrite fupd_dec. case_match; [|apply Hw]. by apply urange_land_l; [|apply Hw].
    - split; try done. apply src_bit_upd. intros Hreg. apply clear_bits_other. unfold set1. by rewrite Z.land_spec, Hset. }
  destruct (renotify_untouched a2 reg (ap_pending a1 reg)) as (Hw3 & Hs3 & Hc3); [done|apply Hw|done| |].
  - intros Hreg. rewrite (same_pending _ _ _ Hs2). unfold src_bit. by rewrite Hreg.
  - split; [done|]. split; [by transitivity a2; [transitivity a1|]|congruence].
Qed.

(** Writing the source configuration of another source, or from the supervisor domain. *)
Lemma sourcecfg_untouched a i val : 0 <= i -> i <> irq \/ smode = true -> aplic_wf a -> aplic_valid_src smode a irq = false ->
  untouched irq a (aplic_write_sourcecfg smode a i val).
Proof.
  intros Hi Hd Hw Hv. unfold aplic_write_sourcecfg. case_match; [|done]. cbn zeta.
  assert (i <> irq -> i .>> 5 = irq .>> 5 -> Z.testbit (bit_set32 i) (irq mod 32) = false) as Hother.
  { intros Hne Hr. rewrite testbit_bit_set32_irq by done. apply Z.eqb_neq. intros E. by apply Hne, irq_split. }
  set (a1 := if nz (domain_invert smode) then _ else a). assert (untouched irq a a1) as (Hw1 & Hs1 & Hc1).
  { unfold a1. destruct (nz (domain_invert smode)) eqn:Hm; [|done].
    assert (i <> irq) by (destruct Hd as [|Hd]; [done|]; rewrite Hd in Hm; discriminate Hm).
    case_match; (split; [done|split; [|done]]); split; try done; apply src_bit_upd; intros Hr;
      [apply set_bits_other|apply clear_bits_other]; by apply Hother. }
  destruct (aplic_valid_src smode a1 i) eqn:Hvi; [|done].
  assert (i <> irq) as Hne.
  { intros ->. rewrite (same_src_valid _ _ a) in Hvi by done. congruence. }
  case_match; (split; [done|split; [|done]]); (transitivity a1; [done|]); split; try done;
    try (cbn [ap_source set_ap_source set_ap_invert]; by apply fupd_ne);
    apply src_bit_upd; intros Hr; [apply set_bits_other|apply clear_bits_other]; by apply Hother.
Qed.

Lemma target_untouched a i val a' : 0 <= i -> aplic_wf a -> aplic_valid_src smode a irq = false ->
  aplic_write_target smode a i val = Some a' -> untouched irq a a'.
Proof.
  intros Hi Hw Hv. unfold aplic_write_target. case_match; [|done]. destruct (aplic_valid_src smode a i) eqn:Hvi.
  - case_match; [|done]. intros [= <-]. split; [done|split; [|done]]. split; try done. cbn [ap_target set_ap_target].
    apply fupd_ne. congruence.
  - by intros [= <-].
Qed.

End Isolation.

Lemma in_regs_spec off reg size : 0 <= off < 0x4000 -> 0 <= reg < 0x4000 -> 0 <= size < 0x4000 ->
  in_regs off reg size = true <-> reg <= off < reg + size.
Proof.
  intros Ho Hr Hs. unfold in_regs. rewrite Z.ltb_lt. destruct (Z.le_gt_cases reg off).
  - rewrite wrap_small by (unfold urange; lia). lia.
  - unfold wrap. replace ((off - reg) mod 2 ^ 64) with (off - reg + 2 ^ 64); [lia|].
    apply Z.mod_unique with (-1); lia.
Qed.

Lemma read_uint32_be_m_range m a : valid_memory m -> urange 32 (read_uint32_be_m m a).
Proof.
  intros Hm. destruct (read_be_eq m a Hm) as (_ & -> & _). pose proof (le_combine_range (rev (get_bytes 4 m a))) as R.
  rewrite length_rev, length_get_bytes in R. apply R. apply Forall_rev. by apply get_bytes_bytes.
Qed.

Lemma domain_write_isolated smode a data off a' irq :
  0 <= off < 0x4000 -> 0 <= irq -> valid_memory data -> aplic_wf a -> aplic_valid_src smode a irq = false ->
  smode = true \/ off .>> 2 <> irq ->
  aplic_mmio_write smode a data off = Some a' ->
  aplic_wf a' /\ same_src irq a a' /\ a'.(ap_config) (negb smode) = a.(ap_config) (negb smode).
Proof.
  intros Ho Hi Hd Hw Hv Hown. unfold aplic_mmio_write. cbn zeta.
  assert (urange 32 (if negb (nz (ap_config a smode .& APLIC_DOMAINCFG_BE)) then read_uint32_le data 0 else read_uint32_be_m data 0)) as Hval
    by (case_match; [by apply read_uint32_le_range|by apply read_uint32_be_m_range]).
  pose proof (read_uint32_le_range data 0 Hd) as Hle. pose proof (read_uint32_be_m_range data 0 Hd) as Hbe.
  set (val := if negb _ then _ else _) in *. unfold urange in Hval, Hle, Hbe.
  assert (forall x, 0 <= x -> 0 <= x .>> 2) as Hs2 by (intros; by apply Z.shiftr_nonneg).
  assert (0 <= val .>> 5) by (apply Z.shiftr_nonneg; lia).
  assert (forall b, untouched irq a b -> aplic_wf b /\ same_src irq a b /\ ap_config b (negb smode) = ap_config a (negb smode)) as Hun.
  { intros b (? & ? & ->). done. }
  repeat (match goal with |- (if ?c then Some _ else _) = Some _ -> _ => destruct c eqn:? end;
    [intros [= <-]|]).
  all: repeat match goal with H : in_regs _ _ _ = true |- _ => apply in_regs_spec in H; [|lia|by vm_compute|by vm_compute] end.
  2-13: apply Hun.
  - split; [done|split; [by split|]]. by destruct smode.
  - apply setipnum_untouched; auto; lia.
  - by apply clrip_untouched.
  - by apply setie_untouched.
  - by apply clrie_untouched.
  - apply setipnum_untouched; auto; lia.
  - apply setipnum_untouched; auto; lia.
  - by apply gen_msi_untouched.
  - apply setip_untouched; auto. apply Hs2. lia.
  - by apply clrip_untouched.
  - apply setie_untouched; auto. apply Hs2. lia.
  - by apply clrie_untouched.
  - assert (0 <= (off - APLIC_REG_SOURCECFG) .>> 2) by (apply Hs2; lia).
    apply sourcecfg_untouched; [lia| |done|done]. destruct Hown as [|Hown]; [by right|left].
    rewrite Z.shiftr_div_pow2 in * by lia. unfold APLIC_REG_SOURCECFG in *. change (2 ^ 2) with 4 in *. dlia.
  - destruct (in_regs off APLIC_REG_TARGET _) eqn:?; [|by intros [= <-]]. intros Ht. apply Hun. eapply target_untouched in Ht; eauto.
    assert (0 <= (off - APLIC_REG_TARGET) .>> 2); [|lia]. apply Hs2.
    match goal with H : in_regs _ _ _ = true |- _ => apply in_regs_spec in H; [|lia|by vm_compute|by vm_compute] end. lia.
Qed.

(** the device stays inside of its arrays exactly for the registers of sources that
    exist.  In the 16 KiB of a domain every write is well-defined below 0x3100; from there on
    are the target registers of the sources 64 to 1023, and a write to any of them accesses the
    64-element arrays out of bounds. *)
Theorem aplic_write_bounds smode a data off : 0 <= off < 0x4000 ->
  aplic_mmio_write smode a data off = None <-> 0x3100 <= off.
Proof.
  intros Ho. unfold aplic_mmio_write. cbn zeta. set (val := if negb _ then _ else _).
  assert (forall reg size, 0 <= reg -> 0 <= size -> reg + size <= 0x3100 -> 0x3100 <= off -> in_regs off reg size = false) as Hout.
  { intros reg size ????. apply not_true_iff_false. rewrite in_regs_spec by lia. lia. }
  split.
  - repeat (match goal with |- (if ?c then Some _ else _) = None -> _ => destruct c; [done|] end).
    destruct (in_regs off APLIC_REG_TARGET _) eqn:?; [|done]. unfold aplic_write_target. rewrite !Z.shiftr_div_pow2 by lia.
    match goal with H : in_regs _ _ _ = true |- _ => apply in_regs_spec in H; [|lia|by vm_compute|by vm_compute] end.
    unfold APLIC_REG_TARGET, APLIC_SRC_REGS, APLIC_SRC_IDTS in *. change (2 ^ 2) with 4. change (2 ^ 5) with 32.
    repeat case_match; try done; intros _; dlia.
  - intros Hge. repeat (match goal with |- (if off =? ?c then _ else _) = _ => destruct (Z.eqb_spec off c) as [->|]; [by vm_compute in Hge|] end).
    rewrite !Hout by (done || by vm_compute).
    assert (in_regs off APLIC_REG_TARGET APLIC_REG_TARGET_SIZE = true) as -> by
      (apply in_regs_spec; [lia|by vm_compute|by vm_compute|unfold APLIC_REG_TARGET, APLIC_REG_TARGET_SIZE; lia]).
    unfold aplic_write_target. rewrite !Z.shiftr_div_pow2 by lia. unfold APLIC_REG_TARGET, APLIC_SRC_REGS.
    change (2 ^ 2) with 4. change (2 ^ 5) with 32. case_match; [dlia|done].
Qed.

(** C21: a domain cannot change the sources of the other one.  A write to a register of one
    domain, below the target registers of sources that do not exist, returns and leaves
    everything about a source of the other domain as it is: its owner, input, inversion,
    pending and enabled state, configuration and target; and the configuration of the other
    domain.  The one exception is the machine domain writing the configuration of that very
    source, which is how it is taken back from delegation. *)
Theorem aplic_domain_isolation smode a data off irq :
  0 <= off < 0x3100 -> 0 <= irq -> valid_memory data -> aplic_wf a -> aplic_valid_src smode a irq = false ->
  smode = true \/ off .>> 2 <> irq ->
  exists a', aplic_mmio_write smode a data off = Some a' /\
    aplic_wf a' /\ same_src irq a a' /\ a'.(ap_config) (negb smode) = a.(ap_config) (negb smode).
Proof.
  intros Ho Hi Hd Hw Hv Hown. destruct (aplic_mmio_write smode a data off) as [a'|] eqn:E.
  - exists a'. split; [done|]. apply (domain_write_isolated smode a data off a' irq); (done || lia).
  - apply aplic_write_bounds in E; lia.
Qed.

(** A word on the bus, and the controller after the machine domain took source 1. *)
Definition word (v : Z) : memory := put_bytes (fun _ => 0) 0 (le_split 4 v).

Lemma word_valid v : valid_memory (word v).
Proof. apply put_bytes_valid; [by intros ?|apply le_split_bytes]. Qed.

(** One hart with both interrupt files delivering, nothing pending and interrupt 5 enabled. *)
Definition demo_machine : machine :=
  mk_machine 1 (fun _ => set_aia (Some (fun _ => mk_aia 1 0 (fun _ => 0) (<[0 := 32]> (fun _ => 0)))) demo_hart).
Definition demo_aplic : aplic_dev := aplic_write_sourcecfg false (rvvm_riscv_aplic_init demo_machine) 1 APLIC_SOURCECFG_EDGE_RISE.

(** The supervisor domain enables all sources it can: source 2 it does, source 1 it does not. *)
Lemma aplic_domain_isolation_witness :
  exists a', aplic_mmio_write true demo_aplic (word 0xFFFFFFFF) APLIC_REG_SETIE = Some a' /\
    src_bit a'.(ap_enabled) 1 = false /\ src_bit a'.(ap_enabled) 2 = true.
Proof.
  destruct (aplic_domain_isolation true demo_aplic (word 0xFFFFFFFF) APLIC_REG_SETIE 1) as (a' & E & _ & Hs & _);
    [split; [discriminate|reflexivity]|discriminate|apply word_valid|intros r; split; [discriminate|reflexivity]|reflexivity|by left|].
  exists a'. split; [exact E|]. split; [exact (same_enabled _ _ _ Hs)|]. vm_compute in E. injection E as <-. reflexivity.
Defined.

(** The target register of source 64. *)
Lemma aplic_write_bounds_witness : aplic_mmio_write true demo_aplic (word 0) 0x3100 = None.
Proof. apply (aplic_write_bounds true demo_aplic (word 0) 0x3100); [split; [discriminate|reflexivity]|discriminate]. Defined.

(** The interrupt file of hart 0. *)
Definition file_eip (a : aplic_dev) (smode : bool) : Z :=
  match (a.(ap_machine).(hart_at) 0).(aia) with Some files => (files smode).(eip) 0 | None => 0 end.

(** A sequence of writes to registers of the supervisor domain. *)
Fixpoint s_writes (l : list (Z * Z)) (a : aplic_dev) : option aplic_dev :=
  match l with
  | [] => Some a
  | (off, v) :: l => match aplic_mmio_write true a (word v) off with Some a => s_writes l a | None => None end
  end.

(** Pending interrupts are not delivered when the domain is enabled, and then too often.
    Source 1 is enabled, has message 5 as target and becomes pending while the domain is
    disabled.  Enabling the domain delivers nothing.  Enabling the unrelated source 2 delivers
    message 5, but leaves source 1 pending; so after the hart took the message, enabling the
    unrelated source 3 delivers it a second time. *)
Theorem aplic_pending_redelivered :
  exists a1 a2 a3 a4,
    s_writes [(APLIC_REG_SOURCECFG, APLIC_SOURCECFG_EDGE_RISE); (APLIC_REG_TARGET, 5); (APLIC_REG_SETIENUM, 1)]
      (rvvm_riscv_aplic_init demo_machine) = Some a1 /\
    s_writes [(APLIC_REG_DOMAINCFG, APLIC_DOMAINCFG_IE)] (aplic_set_irq a1 1 true) = Some a2 /\
    src_bit a2.(ap_pending) 1 = true /\ file_eip a2 true = 0 /\
    s_writes [(APLIC_REG_SETIENUM, 2)] a2 = Some a3 /\ src_bit a3.(ap_pending) 1 = true /\ file_eip a3 true = 32 /\
    let claimed := set_ap_machine (upd_hart 0 (fun h => fst (riscv_get_aia_irq h true true)) a3.(ap_machine)) a3 in
    file_eip claimed true = 0 /\
    s_writes [(APLIC_REG_SETIENUM, 3)] claimed = Some a4 /\ src_bit a4.(ap_pending) 1 = true /\ file_eip a4 true = 32.
Proof.
  do 4 eexists. split; [reflexivity|]. split; [reflexivity|]. split; [vm_compute; reflexivity|]. split; [vm_compute; reflexivity|].
  split; [reflexivity|]. split; [vm_compute; reflexivity|]. split; [vm_compute; reflexivity|]. split; [vm_compute; reflexivity|].
  split; [reflexivity|]. split; vm_compute; reflexivity.
Qed.
