(* ===== verification/Chardev.v ===== *)
(** * Character devices (src/devices/chardev.h, chardev_term.c)

    A character device is an interface between a serial port and a terminal, here a class.
    The terminal buffers both directions in ring buffers and moves bytes from and to file
    descriptors of the host, whose behaviour is the class [Tty].  Theorem material: the bytes
    in the buffers are exactly those the host delivered and the port has not taken yet, and
    those the port sent and the host has not taken yet. *)

From S2P Require Import Prelude BitOps MemOps Ringbuf State Intc.

Definition CHARDEV_RX : Z := 0x1.
Definition CHARDEV_TX : Z := 0x2.

(** The calls of [struct rvvm_chardev].  Reading and updating may end the process, which is
    [None]; [cd_update] gives the flags its owner is notified about, if it is. *)
Class Chardev (D : Type) := {
  cd_poll : D -> Z;
  cd_read : D -> Z -> option (D * list Z);
  cd_write : D -> list Z -> D * Z;
  cd_update : D -> option (D * option Z)
}.

Section Calls.
Context {D : Type} `{Chardev D}.

Definition chardev_poll (dev : option D) : Z :=
  match dev with Some dev => cd_poll dev | None => CHARDEV_TX end.
Definition chardev_read (dev : option D) (nbytes : Z) : option (option D * list Z) :=
  match dev with
  | Some dev => '(dev, buf) ← cd_read dev nbytes; Some (Some dev, buf)
  | None => Some (None, [])
  end.
Definition chardev_write (dev : option D) (buf : list Z) : option D * Z :=
  match dev with
  | Some dev => let '(dev, n) := cd_write dev buf in (Some dev, n)
  | None => (None, Z.of_nat (length buf))
  end.
Definition chardev_update (dev : option D) : option (option D * option Z) :=
  match dev with
  | Some dev => '(dev, notify) ← cd_update dev; Some (Some dev, notify)
  | None => Some (None, None)
  end.

End Calls.

(** ** The terminal *)

(** [term_read_raw] and [term_write_raw]: reading gives at most as many bytes as asked for,
    writing takes a prefix. *)
Class Tty (W : Type) := {
  tty_read : W -> Z -> W * list Z;
  tty_write : W -> list Z -> W * Z
}.

Class TtyOk (W : Type) `{Tty W} := {
  tty_read_ok : forall w n, 0 <= n -> Z.of_nat (length (snd (tty_read w n))) <= n;
  tty_write_ok : forall w l, 0 <= snd (tty_write w l) <= Z.of_nat (length l)
}.

Record chardev_term (W : Type) := mk_term {
  tm_rx : ringbuf;
  tm_tx : ringbuf;
  tm_flags : Z;
  tm_ctrl_a : bool;
  tm_tty : W
}.
Arguments mk_term {W}. Arguments tm_rx {W}. Arguments tm_tx {W}. Arguments tm_flags {W}.
Arguments tm_ctrl_a {W}. Arguments tm_tty {W}.

Section Term.
Context {W : Type} `{Tty W}.

Definition set_rx (rx : ringbuf) (t : chardev_term W) : chardev_term W :=
  mk_term rx t.(tm_tx) t.(tm_flags) t.(tm_ctrl_a) t.(tm_tty).
Definition set_flags (flags : Z) (t : chardev_term W) : chardev_term W :=
  mk_term t.(tm_rx) t.(tm_tx) flags t.(tm_ctrl_a) t.(tm_tty).

Definition term_update_flags (t : chardev_term W) : chardev_term W * Z :=
  let flags_orig := t.(tm_flags) in
  let flags := 0 in
  let flags := if nz (ringbuf_avail t.(tm_rx)) then flags .| CHARDEV_RX else flags in
  let flags := if nz (ringbuf_space t.(tm_tx)) then flags .| CHARDEV_TX else flags in
  (set_flags flags t, flags .& not32 flags_orig).

(** The state of the hotkey after the input; [None] is the exit on Ctrl+A, x. *)
Fixpoint term_process_input (ctrl_a : bool) (buffer : list Z) : option bool :=
  match buffer with
  | [] => Some ctrl_a
  | c :: buffer => if ctrl_a && (c =? 120) then None else term_process_input (c =? 1) buffer
  end.

Definition term_pull_rx (t : chardev_term W) : option (chardev_term W) :=
  let rx_size := EVAL_MIN 256 (ringbuf_space t.(tm_rx)) in
  let '(tty, rx_buf) := tty_read t.(tm_tty) rx_size in
  ctrl_a ← term_process_input t.(tm_ctrl_a) rx_buf;
  Some (mk_term (fst (ringbuf_write t.(tm_rx) rx_buf)) t.(tm_tx) t.(tm_flags) ctrl_a tty).

Definition term_push_tx (t : chardev_term W) : chardev_term W :=
  let '(_, tx_buf) := ringbuf_peek t.(tm_tx) 256 in
  let '(tty, tx_size) := tty_write t.(tm_tty) tx_buf in
  mk_term t.(tm_rx) (fst (ringbuf_skip t.(tm_tx) tx_size)) t.(tm_flags) t.(tm_ctrl_a) tty.

(** The lock is free: nothing else runs. *)
Definition term_update (t : chardev_term W) : option (chardev_term W * option Z) :=
  t ← (if nz (ringbuf_space t.(tm_rx)) then term_pull_rx t else Some t);
  let t := if nz (ringbuf_avail t.(tm_tx)) then term_push_tx t else t in
  let '(t, flags) := term_update_flags t in
  Some (t, if nz flags then Some flags else None).

Definition term_poll (t : chardev_term W) : Z := t.(tm_flags).

Definition term_read (t : chardev_term W) (nbytes : Z) : option (chardev_term W * list Z) :=
  if nz (term_poll t .& CHARDEV_RX) then
    let '(rx, (_, buf)) := ringbuf_read t.(tm_rx) nbytes in
    let t := set_rx rx t in
    t ← (if negb (nz (ringbuf_avail t.(tm_rx))) then term_pull_rx t else Some t);
    let '(t, _) := term_update_flags t in
    Some (t, buf)
  else Some (t, []).

Definition term_write (t : chardev_term W) (buf : list Z) : chardev_term W * Z :=
  let '(tx, ret) := ringbuf_write t.(tm_tx) buf in
  let t := mk_term t.(tm_rx) tx t.(tm_flags) t.(tm_ctrl_a) t.(tm_tty) in
  let t := if negb (nz (ringbuf_space t.(tm_tx))) then term_push_tx t else t in
  let '(t, _) := term_update_flags t in
  (t, ret).

Definition chardev_fd_create (tty : W) : chardev_term W :=
  mk_term (ringbuf_create 256) (ringbuf_create 256) 0 false tty.

#[export] Instance term_chardev : Chardev (chardev_term W) := {
  cd_poll := term_poll;
  cd_read := term_read;
  cd_write := term_write;
  cd_update := term_update
}.

End Term.

(** ** What the host delivered and received *)

(** A host that keeps a record of the bytes it delivered and received. *)
Record logged (W : Type) := mk_logged { lg_tty : W; lg_in : list Z; lg_out : list Z }.
Arguments mk_logged {W}. Arguments lg_tty {W}. Arguments lg_in {W}. Arguments lg_out {W}.

#[export] Instance logged_tty {W} `{Tty W} : Tty (logged W) := {
  tty_read w n := let '(t, l) := tty_read w.(lg_tty) n in (mk_logged t (w.(lg_in) ++ l) w.(lg_out), l);
  tty_write w l := let '(t, n) := tty_write w.(lg_tty) l in (mk_logged t w.(lg_in) (w.(lg_out) ++ take (Z.to_nat n) l), n)
}.

Section Flow.
Context {W : Type} `{TtyOk W}.

(** [rcv] was taken by the port and [snt] accepted from it; the rest is in the buffers. *)
Record term_io (rcv snt : list Z) (t : chardev_term (logged W)) : Prop := mk_term_io {
  io_rx : rb_wf t.(tm_rx);
  io_tx : rb_wf t.(tm_tx);
  io_rx_size : t.(tm_rx).(rb_size) = 256;
  io_tx_size : t.(tm_tx).(rb_size) = 256;
  io_in : t.(tm_tty).(lg_in) = rcv ++ rb_contents t.(tm_rx);
  io_out : snt = t.(tm_tty).(lg_out) ++ rb_contents t.(tm_tx)
}.

(** And the receive flag is only up while there is something to receive, the transmit flag
    only while there is space. *)
Definition term_flow (rcv snt : list Z) (t : chardev_term (logged W)) : Prop :=
  term_io rcv snt t /\ (nz (t.(tm_flags) .& CHARDEV_RX) = true -> rb_contents t.(tm_rx) <> []) /\
  (nz (t.(tm_flags) .& CHARDEV_TX) = true -> nz (ringbuf_space t.(tm_tx)) = true).

Lemma create_flow tty : term_flow [] [] (chardev_fd_create (mk_logged tty [] [])).
Proof. split; [|by split]. by constructor; try (constructor; cbn; lia). Qed.

Lemma update_flags_flow rcv snt t : term_io rcv snt t -> term_flow rcv snt (fst (term_update_flags t)).
Proof.
  intros Hio. split; [by destruct Hio|]. cbn. split; [|by repeat case_match]. pose proof (length_contents _ (io_rx _ _ _ Hio)) as Hl. unfold ringbuf_avail.
  intros Hf E. rewrite E in Hl. cbn [length] in Hl. rewrite <- Hl in Hf. revert Hf. cbn. by case_match.
Qed.

(** Everything the host delivers fits into the buffer. *)
Lemma pull_rx_io rcv snt t t' : term_io rcv snt t -> term_pull_rx t = Some t' -> term_io rcv snt t'.
Proof.
  intros [Hrx Htx Hrs Hts Hin Hout]. unfold term_pull_rx. rewrite eval_min, space_eq by done. rewrite Hrs.
  cbn [tty_read logged_tty]. pose proof (rb_wf_consumed _ Hrx) as Hc.
  pose proof (tty_read_ok t.(tm_tty).(lg_tty) (Z.min 256 (256 - rb_consumed (tm_rx t))) ltac:(lia)) as Hn.
  destruct (tty_read (lg_tty (tm_tty t)) _) as [w l]. cbn [snd] in Hn.
  destruct (term_process_input _ l) as [ca|]; [|done]. cbn. intros [= <-].
  pose proof (write_eq _ Hrx l ltac:(lia)) as Hw. cbv zeta in Hw. destruct (ringbuf_write (tm_rx t) l) as [rx n].
  destruct Hw as (_ & Hwf & Hs & E). rewrite take_ge in E by lia. constructor; cbn; try congruence; try done.
  by rewrite Hin, E, app_assoc.
Qed.

(** What the host takes leaves the buffer. *)
Lemma push_tx_io rcv snt t : term_io rcv snt t -> term_io rcv snt (term_push_tx t).
Proof.
  intros [Hrx Htx Hrs Hts Hin Hout]. unfold term_push_tx. rewrite peek_eq by done. cbn [tty_write logged_tty].
  set (l := take _ (rb_contents (tm_tx t))). pose proof (tty_write_ok t.(tm_tty).(lg_tty) l) as Hn.
  destruct (tty_write (lg_tty (tm_tty t)) l) as [w n]. cbn [snd] in Hn.
  pose proof (skip_eq _ Htx n ltac:(lia)) as Hs. destruct (ringbuf_skip (tm_tx t) n) as [tx k].
  destruct Hs as (_ & Hwf & Hs & E). constructor; cbn; try congruence; try done.
  rewrite E, <- app_assoc, Hout. f_equal. assert (take (Z.to_nat n) l = take (Z.to_nat n) (rb_contents (tm_tx t))) as ->.
  { unfold l in *. rewrite length_take in Hn. rewrite take_take. f_equal. lia. }
  by rewrite take_drop.
Qed.

Lemma term_update_flow rcv snt t t' ntf : term_flow rcv snt t -> term_update t = Some (t', ntf) -> term_flow rcv snt t'.
Proof.
  intros [Hio _]. unfold term_update.
  destruct (if nz (ringbuf_space (tm_rx t)) then term_pull_rx t else Some t) as [t1|] eqn:E1; [|done].
  assert (term_io rcv snt t1) as H1 by (case_match; [by eapply pull_rx_io|by simplify_eq]).
  cbn [mbind option_bind]. set (t2 := if nz (ringbuf_avail (tm_tx t1)) then _ else _).
  assert (term_io rcv snt t2) as H2 by (unfold t2; destruct (nz (ringbuf_avail (tm_tx t1))); [by apply push_tx_io|done]).
  pose proof (update_flags_flow _ _ _ H2) as H3. destruct (term_update_flags t2) as [t3 f]. intros [= <- _]. done.
Qed.

(** A byte taken by the port is the oldest one the host delivered and the port has not taken. *)
Lemma term_read_flow rcv snt t t' buf : term_flow rcv snt t -> term_read t 1 = Some (t', buf) ->
  term_flow (rcv ++ buf) snt t' /\ length buf = (if nz (t.(tm_flags) .& CHARDEV_RX) then 1%nat else 0%nat).
Proof.
  intros [Hio [Hfl Htf]]. unfold term_read, term_poll. destruct (nz (tm_flags t .& CHARDEV_RX)) eqn:Hf.
  2:{ intros [= <- <-]. rewrite app_nil_r. split; [split_and!; [done| |done]|done]. by rewrite Hf. }
  specialize (Hfl eq_refl). destruct Hio as [Hrx Htx Hrs Hts Hin Hout].
  unfold ringbuf_read. rewrite peek_eq by done. change (Z.to_nat 1) with 1%nat.
  pose proof (length_contents _ Hrx) as Hlen. pose proof (rb_wf_consumed _ Hrx) as Hcons.
  destruct (rb_contents (tm_rx t)) as [|b q] eqn:Eq; [done|]. cbn [length] in Hlen. cbn [take]. rewrite take_0.
  rewrite (Z.min_r (rb_consumed (tm_rx t)) 1) by lia.
  pose proof (skip_eq _ Hrx 1 ltac:(lia)) as Hs. destruct (ringbuf_skip (tm_rx t) 1) as [rx k].
  destruct Hs as (_ & Hwf & Hs & E). rewrite Eq in E. change (Z.to_nat 1) with 1%nat in E. cbn [drop] in E. rewrite drop_0 in E. cbn [fst].
  assert (term_io (rcv ++ [b]) snt (set_rx rx t)) as Hio1.
  { constructor; cbn; try congruence; try done. by rewrite Hin, E, <- app_assoc. }
  destruct (if negb (nz (ringbuf_avail (tm_rx (set_rx rx t)))) then _ else Some (set_rx rx t)) as [t1|] eqn:E1; [|done].
  assert (term_io (rcv ++ [b]) snt t1) as H1 by (case_match; [by eapply pull_rx_io|by simplify_eq]).
  cbn [mbind option_bind]. pose proof (update_flags_flow _ _ _ H1) as H3. destruct (term_update_flags t1) as [t2 f].
  intros [= <- <-]. done.
Qed.

Lemma tx_space rcv snt t : term_io rcv snt t -> nz (ringbuf_space t.(tm_tx)) = (length (rb_contents t.(tm_tx)) <? 256)%nat.
Proof.
  intros [Hrx Htx Hrs Hts _ _]. rewrite space_eq, Hts by done. pose proof (length_contents _ Htx). pose proof (rb_wf_consumed _ Htx).
  unfold nz. destruct (Z.eqb_spec (256 - rb_consumed (tm_tx t)) 0), (Nat.ltb_spec (length (rb_contents (tm_tx t))) 256); try done; lia.
Qed.

(** A byte the port sends is queued, or dropped when the buffer is full. *)
Lemma term_write_flow rcv snt t v : term_flow rcv snt t ->
  term_flow rcv (snt ++ (if nz (ringbuf_space t.(tm_tx)) then [v] else [])) (fst (term_write t [v])).
Proof.
  intros [[Hrx Htx Hrs Hts Hin Hout] _]. unfold term_write. rewrite space_eq by done.
  pose proof (write_eq _ Htx [v] ltac:(cbn; lia)) as Hw. cbv zeta in Hw. destruct (ringbuf_write (tm_tx t) [v]) as [tx n].
  destruct Hw as (_ & Hwf & Hs & E). pose proof (rb_wf_consumed _ Htx) as Hc.
  assert (take (Z.to_nat (Z.min (rb_size (tm_tx t) - rb_consumed (tm_tx t)) (Z.of_nat (length [v])))) [v] =
    if nz (rb_size (tm_tx t) - rb_consumed (tm_tx t)) then [v] else []) as Ev.
  { unfold nz. destruct (Z.eqb_spec (rb_size (tm_tx t) - rb_consumed (tm_tx t)) 0) as [->|]; [done|]. cbn [length negb].
    rewrite Z.min_r by lia. done. }
  rewrite Ev in E. set (t1 := mk_term _ tx _ _ _).
  assert (term_io rcv (snt ++ (if nz (rb_size (tm_tx t) - rb_consumed (tm_tx t)) then [v] else [])) t1) as H1.
  { constructor; cbn; try congruence; try done. by rewrite E, Hout, <- app_assoc. }
  set (t2 := if negb _ then _ else t1). assert (term_io rcv (snt ++ (if nz (rb_size (tm_tx t) - rb_consumed (tm_tx t)) then [v] else [])) t2) as H2
    by (unfold t2; destruct (nz (ringbuf_space (tm_tx t1))); [done|by apply push_tx_io]).
  pose proof (update_flags_flow _ _ _ H2) as H3. by destruct (term_update_flags t2).
Qed.

End Flow.
