(* ===== verification/Uart.v ===== *)
(** * Serial port (src/devices/uart16550_core.c, ns16550a.c)

    The register core of a 16550A over any character device and any interrupt line.  The line
    is an interface ([IrqSink]): the theorems on the port use only that the line has the level
    it was last set to, which the PLIC is shown to provide.  Theorems: the level of the line;
    with a terminal, bytes pass in order in both directions and none is consumed before the
    driver has enabled reception. *)

From S2P Require Import Prelude BitOps MemOps Ringbuf Timer State Tlb CsrDefs Hart Intc Plic Chardev Snapshot.

Definition UART16550_REG_RBR_DLL : Z := 0x0.
Definition UART16550_REG_THR_DLL : Z := 0x0.
Definition UART16550_REG_IER_DLM : Z := 0x1.
Definition UART16550_REG_IIR : Z := 0x2.
Definition UART16550_REG_LCR : Z := 0x3.
Definition UART16550_REG_MCR : Z := 0x4.
Definition UART16550_REG_LSR : Z := 0x5.
Definition UART16550_REG_MSR : Z := 0x6.
Definition UART16550_REG_SCR : Z := 0x7.
Definition UART16550_IER_RECV : Z := 0x1.
Definition UART16550_IER_THR : Z := 0x2.
Definition UART16550_IIR_FIFO : Z := 0xC0.
Definition UART16550_IIR_NONE : Z := 0x1.
Definition UART16550_IIR_THR : Z := 0x2.
Definition UART16550_IIR_RECV : Z := 0x4.
Definition UART16550_LSR_RECV : Z := 0x1.
Definition UART16550_LSR_THR : Z := 0x60.
Definition UART16550_LCR_DLAB : Z := 0x80.

(** [uart16550_irq_fn] with its context. *)
Class IrqSink (I : Type) := { irq_fn : I -> bool -> I }.

(** The level a line has: the one it was last set to.  [irq_ok] is the lines that exist. *)
Class IrqLevel (I : Type) `{IrqSink I} := {
  irq_lvl : I -> bool;
  irq_ok : I -> Prop;
  irq_ok_fn : forall i level, irq_ok i -> irq_ok (irq_fn i level);
  irq_lvl_fn : forall i level, irq_ok i -> irq_lvl (irq_fn i level) = level
}.

Record uart16550_core (D I : Type) := mk_uart {
  uc_chardev : option D;
  uc_irq : I;
  uc_flags : Z;
  uc_ier : Z;
  uc_lcr : Z;
  uc_mcr : Z;
  uc_scr : Z;
  uc_dll : Z;
  uc_dlm : Z;
  uc_rx_armed : Z
}.
Arguments mk_uart {D I}. Arguments uc_chardev {D I}. Arguments uc_irq {D I}. Arguments uc_flags {D I}.
Arguments uc_ier {D I}. Arguments uc_lcr {D I}. Arguments uc_mcr {D I}. Arguments uc_scr {D I}.
Arguments uc_dll {D I}. Arguments uc_dlm {D I}. Arguments uc_rx_armed {D I}.

Section Core.
Context {D I : Type} `{Chardev D} `{IrqSink I}.
Local Abbreviation core := (uart16550_core D I).

Definition set_chardev (v : option D) (c : core) : core :=
  mk_uart v c.(uc_irq) c.(uc_flags) c.(uc_ier) c.(uc_lcr) c.(uc_mcr) c.(uc_scr) c.(uc_dll) c.(uc_dlm) c.(uc_rx_armed).
Definition set_irq (v : I) (c : core) : core :=
  mk_uart c.(uc_chardev) v c.(uc_flags) c.(uc_ier) c.(uc_lcr) c.(uc_mcr) c.(uc_scr) c.(uc_dll) c.(uc_dlm) c.(uc_rx_armed).
Definition set_uflags (v : Z) (c : core) : core :=
  mk_uart c.(uc_chardev) c.(uc_irq) v c.(uc_ier) c.(uc_lcr) c.(uc_mcr) c.(uc_scr) c.(uc_dll) c.(uc_dlm) c.(uc_rx_armed).
Definition set_ier (v : Z) (c : core) : core :=
  mk_uart c.(uc_chardev) c.(uc_irq) c.(uc_flags) v c.(uc_lcr) c.(uc_mcr) c.(uc_scr) c.(uc_dll) c.(uc_dlm) c.(uc_rx_armed).
Definition set_lcr (v : Z) (c : core) : core :=
  mk_uart c.(uc_chardev) c.(uc_irq) c.(uc_flags) c.(uc_ier) v c.(uc_mcr) c.(uc_scr) c.(uc_dll) c.(uc_dlm) c.(uc_rx_armed).
Definition set_mcr (v : Z) (c : core) : core :=
  mk_uart c.(uc_chardev) c.(uc_irq) c.(uc_flags) c.(uc_ier) c.(uc_lcr) v c.(uc_scr) c.(uc_dll) c.(uc_dlm) c.(uc_rx_armed).
Definition set_scr (v : Z) (c : core) : core :=
  mk_uart c.(uc_chardev) c.(uc_irq) c.(uc_flags) c.(uc_ier) c.(uc_lcr) c.(uc_mcr) v c.(uc_dll) c.(uc_dlm) c.(uc_rx_armed).
Definition set_dll (v : Z) (c : core) : core :=
  mk_uart c.(uc_chardev) c.(uc_irq) c.(uc_flags) c.(uc_ier) c.(uc_lcr) c.(uc_mcr) c.(uc_scr) v c.(uc_dlm) c.(uc_rx_armed).
Definition set_dlm (v : Z) (c : core) : core :=
  mk_uart c.(uc_chardev) c.(uc_irq) c.(uc_flags) c.(uc_ier) c.(uc_lcr) c.(uc_mcr) c.(uc_scr) c.(uc_dll) v c.(uc_rx_armed).
Definition set_rx_armed (v : Z) (c : core) : core :=
  mk_uart c.(uc_chardev) c.(uc_irq) c.(uc_flags) c.(uc_ier) c.(uc_lcr) c.(uc_mcr) c.(uc_scr) c.(uc_dll) c.(uc_dlm) v.

Definition uart16550_set_irq (c : core) (level : bool) : core := set_irq (irq_fn c.(uc_irq) level) c.

Definition uart16550_visible_flags (c : core) : Z :=
  let flags := chardev_poll c.(uc_chardev) in
  if negb (nz c.(uc_rx_armed)) then flags .& not32 CHARDEV_RX else flags.

Definition uart16550_update_irq (c : core) : core :=
  let flags := c.(uc_flags) in
  let ier := c.(uc_ier) in
  let level := nz (flags .& CHARDEV_RX) && nz (ier .& UART16550_IER_RECV)
            || nz (flags .& CHARDEV_TX) && nz (ier .& UART16550_IER_THR) in
  uart16550_set_irq c level.

Definition uart16550_notify (c : core) (flags : Z) : core :=
  let flags := if negb (nz c.(uc_rx_armed)) then flags .& not32 CHARDEV_RX else flags in
  let old := c.(uc_flags) in
  let c := set_uflags flags c in
  if negb (old =? flags) then uart16550_update_irq c else c.

Definition uart16550_poll_chardev (c : core) : core :=
  let flags := uart16550_visible_flags c in
  if negb (flags =? c.(uc_flags)) then uart16550_notify c flags else c.

Definition uart16550_core_init (chardev : option D) (irq : I) : core := mk_uart chardev irq 0 0 0 0 0 0 0 0.
Definition uart16550_core_cleanup (c : core) : core := set_chardev None c.

(** The device may notify the port while it is updated. *)
Definition uart16550_core_update (c : core) : option core :=
  '(dev, notify) ← chardev_update c.(uc_chardev);
  let c := set_chardev dev c in
  Some (match notify with Some flags => uart16550_notify c flags | None => c end).

Definition uart16550_core_read (c : core) (reg : Z) : option (core * Z) :=
  if reg =? UART16550_REG_RBR_DLL then
    if nz (c.(uc_lcr) .& UART16550_LCR_DLAB) then Some (c, u8 c.(uc_dll))
    else if nz (uart16550_visible_flags c .& CHARDEV_RX) then
      '(dev, buf) ← chardev_read c.(uc_chardev) 1;
      let c := uart16550_poll_chardev (set_chardev dev c) in
      Some (c, match buf with [] => 0 | byte :: _ => byte end)
    else Some (c, 0)
  else if reg =? UART16550_REG_IER_DLM then
    if nz (c.(uc_lcr) .& UART16550_LCR_DLAB) then Some (c, u8 c.(uc_dlm)) else Some (c, u8 c.(uc_ier))
  else if reg =? UART16550_REG_IIR then
    let flags := uart16550_visible_flags c in
    let ier := c.(uc_ier) in
    if nz (flags .& CHARDEV_RX) && nz (ier .& UART16550_IER_RECV) then Some (c, UART16550_IIR_RECV .| UART16550_IIR_FIFO)
    else if nz (flags .& CHARDEV_TX) && nz (ier .& UART16550_IER_THR) then Some (c, UART16550_IIR_THR .| UART16550_IIR_FIFO)
    else Some (c, UART16550_IIR_NONE .| UART16550_IIR_FIFO)
  else if reg =? UART16550_REG_LCR then Some (c, u8 c.(uc_lcr))
  else if reg =? UART16550_REG_MCR then Some (c, u8 c.(uc_mcr))
  else if reg =? UART16550_REG_LSR then
    let flags := uart16550_visible_flags c in
    Some (c, (if nz (flags .& CHARDEV_RX) then UART16550_LSR_RECV else 0)
          .| (if nz (flags .& CHARDEV_TX) then UART16550_LSR_THR else 0))
  else if reg =? UART16550_REG_MSR then Some (c, 0xB0)
  else if reg =? UART16550_REG_SCR then Some (c, u8 c.(uc_scr))
  else Some (c, 0).

Definition uart16550_core_write (c : core) (reg val : Z) : core :=
  if reg =? UART16550_REG_THR_DLL then
    if nz (c.(uc_lcr) .& UART16550_LCR_DLAB) then set_dll val c
    else uart16550_poll_chardev (set_chardev (fst (chardev_write c.(uc_chardev) [val])) c)
  else if reg =? UART16550_REG_IER_DLM then
    if nz (c.(uc_lcr) .& UART16550_LCR_DLAB) then set_dlm val c
    else
      let c := set_ier val c in
      let c := if nz (val .& UART16550_IER_RECV) then uart16550_poll_chardev (set_rx_armed 1 c) else c in
      uart16550_update_irq c
  else if reg =? UART16550_REG_LCR then set_lcr val c
  else if reg =? UART16550_REG_MCR then set_mcr val c
  else if reg =? UART16550_REG_SCR then set_scr val c
  else c.

(** The wrapper of the port on the memory bus; [off] is a [size_t]. *)
Definition ns16550a_read (c : core) (off : Z) : option (core * Z) := uart16550_core_read c (u32 off).
Definition ns16550a_write (c : core) (val off : Z) : core := uart16550_core_write c (u32 off) val.
Definition ns16550a_poll (c : core) : option core := uart16550_core_update c.

(** Saving and restoring: the fields in the order of the calls. *)
Definition uart_fields (c : core) : list (nat * Z) :=
  map (fun v => (4%nat, v)) [c.(uc_flags); c.(uc_ier); c.(uc_lcr); c.(uc_mcr); c.(uc_scr); c.(uc_dll); c.(uc_dlm); c.(uc_rx_armed)].

Definition uart_set_fields (fields : list (nat * Z)) (c : core) : core :=
  match map snd fields with
  | [flags; ier; lcr; mcr; scr; dll; dlm; rx_armed] => mk_uart c.(uc_chardev) c.(uc_irq) flags ier lcr mcr scr dll dlm rx_armed
  | _ => c
  end.

Definition uart16550_core_suspend {F : Type} `{BlkImage F} (c : core) (snap : rvvm_snapshot F) : core * rvvm_snapshot F :=
  let '(snap, fields) := suspend_fields snap (uart_fields c) in (uart_set_fields fields c, snap).

(** "serial-ns16550a" *)
Definition ns16550a_name : list Z := [115; 101; 114; 105; 97; 108; 45; 110; 115; 49; 54; 53; 53; 48; 97].

Definition ns16550a_suspend {F : Type} `{BlkImage F} (c : core) (snap : rvvm_snapshot F) : core * rvvm_snapshot F :=
  let '(snap, _) := rvvm_snapshot_section snap ns16550a_name in uart16550_core_suspend c snap.

End Core.

(** ** The PLIC as an interrupt line *)

(** [rvvm_irq_set(uart->irq_dev, uart->irq, level)] for a port on a line of the PLIC. *)
Record ns16550a_irq := mk_ns_irq { ns_irq_dev : plic_dev; ns_irq : Z }.

Definition ns16550a_irq_fn (i : ns16550a_irq) (level : bool) : ns16550a_irq :=
  mk_ns_irq (plic_set_irq i.(ns_irq_dev) i.(ns_irq) level) i.(ns_irq).

#[export] Instance ns16550a_sink : IrqSink ns16550a_irq := { irq_fn := ns16550a_irq_fn }.

Lemma notify_raised p irq : (plic_notify_irq p irq).(plic_raised) = p.(plic_raised).
Proof.
  unfold plic_notify_irq. generalize (Z.to_nat (plic_ctx_count p)), 0. intros fuel. induction fuel as [|fuel IH]; intros ctx; [done|].
  cbn [notify_loop]. unfold plic_notify_ctx_irq. by repeat case_match; simplify_eq.
Qed.

(** The level of an input of the PLIC. *)
Definition plic_input (i : ns16550a_irq) : bool := Z.testbit (i.(ns_irq_dev).(plic_raised) (i.(ns_irq) .>> 5)) (i.(ns_irq) mod 32).

Lemma plic_input_set i level : 0 < i.(ns_irq) < PLIC_SRC_LIMIT -> plic_input (ns16550a_irq_fn i level) = level.
Proof.
  destruct i as [p irq]. cbn [ns_irq]. intros Hi. unfold plic_input, ns16550a_irq_fn, plic_set_irq. cbn [ns_irq ns_irq_dev].
  pose proof (Z.mod_pos_bound irq 32 ltac:(lia)).
  destruct (Z.ltb_spec 0 irq); [|lia]. destruct (Z.ltb_spec irq PLIC_SRC_LIMIT); [|lia]. cbn [andb].
  assert (Z.testbit (plic_raised p (irq .>> 5) .| bit_set32 irq) (irq mod 32) = true) as Hset.
  { rewrite Z.lor_spec, testbit_bit_set32_irq, Z.eqb_refl by lia. apply orb_true_r. }
  destruct level.
  - repeat case_match; rewrite ?notify_raised; cbn [plic_raised set_plic_raised set_plic_pending]; by rewrite fupd_eq.
  - cbn [plic_raised set_plic_raised]. rewrite fupd_eq, Z.land_spec, testbit_not32, testbit_bit_set32_irq, Z.eqb_refl by lia.
    by rewrite !andb_false_r.
Qed.

#[export] Instance ns16550a_level : IrqLevel ns16550a_irq := {
  irq_lvl := plic_input;
  irq_ok i := 0 < i.(ns_irq) < PLIC_SRC_LIMIT;
  irq_ok_fn i level Hi := Hi;
  irq_lvl_fn := plic_input_set
}.

(** ** The interrupt line *)

(** Register accesses of the driver, the periodic update, and notifications of the device. *)
Inductive uart_op := URead (reg : Z) | UWrite (reg val : Z) | UUpdate | UNotify (flags : Z).

Section Line.
Context {D I : Type} `{Chardev D} `{IrqLevel I}.
Local Abbreviation core := (uart16550_core D I).

Definition uart_apply (op : uart_op) (c : core) : option core :=
  match op with
  | URead reg => fst <$> uart16550_core_read c reg
  | UWrite reg val => Some (uart16550_core_write c reg val)
  | UUpdate => uart16550_core_update c
  | UNotify flags => Some (uart16550_notify c flags)
  end.

Fixpoint uart_run (ops : list uart_op) (c : core) : option core :=
  match ops with [] => Some c | op :: ops => c ← uart_apply op c; uart_run ops c end.

(** Whether the port has something to report that the driver enabled. *)
Definition wanted_level (c : core) : bool :=
  nz (c.(uc_flags) .& CHARDEV_RX) && nz (c.(uc_ier) .& UART16550_IER_RECV)
  || nz (c.(uc_flags) .& CHARDEV_TX) && nz (c.(uc_ier) .& UART16550_IER_THR).

Record gate_ok (c : core) : Prop := mk_gate_ok {
  gok_irq : irq_ok c.(uc_irq);
  gok_gate : nz c.(uc_rx_armed) = false -> nz (c.(uc_flags) .& CHARDEV_RX) = false
}.

Definition line_ok (c : core) : Prop := gate_ok c /\ irq_lvl c.(uc_irq) = wanted_level c.

Lemma masked_rx flags : nz ((flags .& not32 CHARDEV_RX) .& CHARDEV_RX) = false.
Proof.
  rewrite <- Z.land_assoc. change (not32 CHARDEV_RX .& CHARDEV_RX) with 0. by rewrite Z.land_0_r.
Qed.

Lemma update_irq_ok c : gate_ok c -> line_ok (uart16550_update_irq c).
Proof.
  intros [Hi Hg]. split; [split; [by apply irq_ok_fn|done]|]. unfold uart16550_update_irq, uart16550_set_irq.
  cbn [uc_irq set_irq]. by rewrite irq_lvl_fn.
Qed.

(** A notification keeps the gate, and the line right if it was. *)
Lemma notify_gate c flags : gate_ok c -> gate_ok (uart16550_notify c flags) /\ (line_ok c -> line_ok (uart16550_notify c flags)).
Proof.
  intros Hc. unfold uart16550_notify. cbn zeta. set (f := if negb _ then _ else flags).
  assert (gate_ok (set_uflags f c)) as Hf.
  { destruct Hc as [Hi Hg]. split; [done|]. unfold f. cbn [uc_rx_armed uc_flags set_uflags]. intros ->. apply masked_rx. }
  destruct (Z.eqb_spec (uc_flags c) f) as [E|E]; cbn [negb].
  - split; [done|]. intros [_ Hl]. split; [done|]. unfold wanted_level in *. cbn [uc_flags uc_ier uc_irq set_uflags]. by rewrite Hl, E.
  - split; [|intros _]; by apply update_irq_ok.
Qed.

Lemma poll_chardev_gate c : gate_ok c ->
  gate_ok (uart16550_poll_chardev c) /\ (line_ok c -> line_ok (uart16550_poll_chardev c)).
Proof. intros Hc. unfold uart16550_poll_chardev. cbn zeta. case_match; [by apply notify_gate|done]. Qed.

Lemma poll_chardev_line c : line_ok c -> line_ok (uart16550_poll_chardev c).
Proof. intros Hc. by apply poll_chardev_gate; [apply Hc|]. Qed.

Lemma set_chardev_line d c : line_ok c -> line_ok (set_chardev d c).
Proof. by intros [[] ?]. Qed.

Lemma core_read_line c reg c' b : line_ok c -> uart16550_core_read c reg = Some (c', b) -> line_ok c'.
Proof.
  intros Hc. unfold uart16550_core_read. cbn zeta. repeat (case_match; try (by intros [= <- <-])).
  destruct (chardev_read (uc_chardev c) 1) as [[d l]|]; [|done]. intros [= <- <-].
  by apply poll_chardev_line, set_chardev_line.
Qed.

Lemma core_write_line c reg val : line_ok c -> line_ok (uart16550_core_write c reg val).
Proof.
  intros Hc. pose proof Hc as [[Hi Hg] Hl]. unfold uart16550_core_write. cbn zeta.
  repeat (case_match; try (by split; [split|])).
  - by apply poll_chardev_line, set_chardev_line.
  - refine (update_irq_ok _ (proj1 (poll_chardev_gate _ _))). by split.
  - apply update_irq_ok. by split.
Qed.

Lemma uart_apply_line op c c' : line_ok c -> uart_apply op c = Some c' -> line_ok c'.
Proof.
  intros Hc. destruct op as [reg|reg val| |flags]; cbn [uart_apply].
  - destruct (uart16550_core_read c reg) as [[c1 b]|] eqn:Er; [|done]. intros [= <-]. by eapply core_read_line.
  - intros [= <-]. by apply core_write_line.
  - unfold uart16550_core_update. destruct (chardev_update (uc_chardev c)) as [[d ntf]|]; [|done]. cbn. intros [= <-].
    apply (set_chardev_line d) in Hc. destruct ntf; [|done]. apply notify_gate; [apply Hc|done].
  - intros [= <-]. apply notify_gate; [apply Hc|done].
Qed.

(** the interrupt line of the serial port is right.  After any sequence of register
    accesses, updates and notifications, on any character device and any interrupt line, the
    line is high exactly when a condition that the port has been told of is enabled in the
    interrupt enable register; and the port knows of no input before the driver has enabled
    reception. *)
Theorem uart_line_level ops dev i c : irq_ok i -> irq_lvl i = false -> uart_run ops (uart16550_core_init dev i) = Some c ->
  irq_lvl c.(uc_irq) = (nz (c.(uc_flags) .& CHARDEV_RX) && nz (c.(uc_ier) .& UART16550_IER_RECV)
                        || nz (c.(uc_flags) .& CHARDEV_TX) && nz (c.(uc_ier) .& UART16550_IER_THR)) /\
  (nz c.(uc_rx_armed) = false -> nz (c.(uc_flags) .& CHARDEV_RX) = false).
Proof.
  intros Hi Hl. assert (line_ok (uart16550_core_init dev i)) as Hinit by (split; [split; done|done]).
  revert Hinit. generalize (uart16550_core_init dev i). clear Hi Hl. intros c0 Hc0 Hr.
  enough (line_ok c) as [[_ Hg] Hlv] by done. revert c0 Hc0 Hr. induction ops as [|op ops IH]; intros c0 Hc0 Hr.
  - by injection Hr as <-.
  - cbn [uart_run] in Hr. destruct (uart_apply op c0) as [c1|] eqn:E; [|done]. apply (IH c1); [|done]. by eapply uart_apply_line.
Qed.

End Line.

(** ** The flow of bytes *)

Section Flow.
Context {W I : Type} `{TtyOk W} `{IrqSink I}.
Local Abbreviation core := (uart16550_core (chardev_term (logged W)) I).

Definition tx_room (c : core) : bool :=
  match c.(uc_chardev) with Some t => (length (rb_contents t.(tm_tx)) <? 256)%nat | None => false end.

Definition dlab (c : core) : bool := nz (c.(uc_lcr) .& UART16550_LCR_DLAB).

(** A run together with the bytes the driver received and the bytes it sent while fewer than
    256, the size of the transmit buffer, were waiting in it. *)
Fixpoint uart_trace (ops : list uart_op) (c : core) (rcv snt : list Z) : option (core * (list Z * list Z)) :=
  match ops with
  | [] => Some (c, (rcv, snt))
  | URead reg :: ops =>
      '(c', byte) ← uart16550_core_read c reg;
      let rcv := if (reg =? UART16550_REG_RBR_DLL) && negb (dlab c) && nz (uart16550_visible_flags c .& CHARDEV_RX)
                 then rcv ++ [byte] else rcv in
      uart_trace ops c' rcv snt
  | UWrite reg val :: ops =>
      let snt := if (reg =? UART16550_REG_THR_DLL) && negb (dlab c) && tx_room c then snt ++ [val] else snt in
      uart_trace ops (uart16550_core_write c reg val) rcv snt
  | UUpdate :: ops => c ← uart16550_core_update c; uart_trace ops c rcv snt
  | UNotify flags :: ops => uart_trace ops (uart16550_notify c flags) rcv snt
  end.

Record uart_flow (rcv snt : list Z) (c : core) : Prop := mk_uart_flow {
  uf_term : exists t, c.(uc_chardev) = Some t /\ term_flow rcv snt t;
  uf_gate : nz c.(uc_rx_armed) = false -> rcv = []
}.

(** Notifications and polling touch the flags and the line only. *)
Lemma notify_frame (c : core) flags :
  (uart16550_notify c flags).(uc_chardev) = c.(uc_chardev) /\ (uart16550_notify c flags).(uc_rx_armed) = c.(uc_rx_armed).
Proof. unfold uart16550_notify. cbn zeta. by case_match. Qed.

Lemma poll_frame (c : core) :
  (uart16550_poll_chardev c).(uc_chardev) = c.(uc_chardev) /\ (uart16550_poll_chardev c).(uc_rx_armed) = c.(uc_rx_armed).
Proof. unfold uart16550_poll_chardev. cbn zeta. case_match; [apply notify_frame|done]. Qed.

Lemma flow_frame rcv snt (c c' : core) :
  c'.(uc_chardev) = c.(uc_chardev) -> c'.(uc_rx_armed) = c.(uc_rx_armed) -> uart_flow rcv snt c -> uart_flow rcv snt c'.
Proof. intros E1 E2 [Ht Hg]. split; [by rewrite E1|by rewrite E2]. Qed.

Lemma read_flow rcv snt (c c' : core) reg byte : uart_flow rcv snt c -> uart16550_core_read c reg = Some (c', byte) ->
  uart_flow (if (reg =? UART16550_REG_RBR_DLL) && negb (dlab c) && nz (uart16550_visible_flags c .& CHARDEV_RX)
             then rcv ++ [byte] else rcv) snt c'.
Proof.
  intros Hf. unfold uart16550_core_read. fold (dlab c). destruct (reg =? UART16550_REG_RBR_DLL); cbn [andb].
  2:{ repeat (case_match; try (by intros [= <- <-])). }
  destruct (dlab c); [by intros [= <- <-]|]. cbn [negb andb].
  destruct (nz (uart16550_visible_flags c .& CHARDEV_RX)) eqn:Hv; [|by intros [= <- <-]].
  destruct Hf as [(t & Et & Ht) Hg]. rewrite Et. cbn [chardev_read cd_read term_chardev].
  destruct (term_read t 1) as [[t' buf]|] eqn:Er; [|done]. cbn. intros [= <- <-].
  assert (nz c.(uc_rx_armed) = true /\ nz (t.(tm_flags) .& CHARDEV_RX) = true) as [Ha Hrx].
  { unfold uart16550_visible_flags in Hv. rewrite Et in Hv. cbn [chardev_poll cd_poll term_chardev] in Hv.
    destruct (nz (uc_rx_armed c)); [done|]. cbn [negb] in Hv. by rewrite masked_rx in Hv. }
  destruct (term_read_flow _ _ _ _ _ Ht Er) as [Hf' Hlen]. rewrite Hrx in Hlen.
  destruct buf as [|b [|? ?]]; try done. eapply flow_frame; [apply poll_frame|apply poll_frame|].
  split; [by exists t'|]. cbn [uc_rx_armed set_chardev]. by rewrite Ha.
Qed.

Lemma write_flow rcv snt (c : core) reg val : uart_flow rcv snt c ->
  uart_flow rcv (if (reg =? UART16550_REG_THR_DLL) && negb (dlab c) && tx_room c then snt ++ [val] else snt)
    (uart16550_core_write c reg val).
Proof.
  intros Hf. unfold uart16550_core_write. fold (dlab c). destruct (reg =? UART16550_REG_THR_DLL); cbn [andb].
  - destruct (dlab c); [by apply (flow_frame _ _ c)|]. cbn [negb andb]. destruct Hf as [(t & Et & Ht) Hg].
    unfold tx_room. rewrite Et. cbn [chardev_write cd_write term_chardev]. rewrite <- (tx_space _ _ _ (proj1 Ht)).
    pose proof (term_write_flow _ _ _ val Ht) as Hw. destruct (term_write t [val]) as [t' n]. cbn [fst] in Hw |- *.
    eapply flow_frame; [apply poll_frame|apply poll_frame|]. split; [|done].
    exists t'. split; [done|]. destruct (nz (ringbuf_space (tm_tx t))); [done|by rewrite app_nil_r in Hw].
  - assert (forall c' : core, c'.(uc_chardev) = c.(uc_chardev) -> (nz c'.(uc_rx_armed) = false -> c'.(uc_rx_armed) = c.(uc_rx_armed)) ->
      uart_flow rcv snt c') as Hfr.
    { intros c' E1 E2. destruct Hf as [Ht Hg]. split; [by rewrite E1|]. intros Ha. apply Hg. by rewrite <- (E2 Ha). }
    repeat (case_match; try (by apply Hfr)). apply Hfr; cbn; [by rewrite (proj1 (poll_frame _))|]. intros Ha.
    rewrite (proj2 (poll_frame _)) in Ha. discriminate Ha.
Qed.

Lemma update_flow rcv snt (c c' : core) : uart_flow rcv snt c -> uart16550_core_update c = Some c' -> uart_flow rcv snt c'.
Proof.
  intros [(t & Et & Ht) Hg]. unfold uart16550_core_update. rewrite Et. cbn [chardev_update cd_update term_chardev].
  destruct (term_update t) as [[t' ntf]|] eqn:Eu; [|done]. cbn. intros [= <-].
  pose proof (term_update_flow _ _ _ _ _ Ht Eu) as Ht'.
  assert (uart_flow rcv snt (set_chardev (Some t') c)) as Hs by (split; [by exists t'|done]).
  destruct ntf; [|done]. eapply flow_frame; [apply notify_frame|apply notify_frame|done].
Qed.

Lemma trace_flow ops : forall (c c' : core) rcv snt rcv' snt', uart_flow rcv snt c ->
  uart_trace ops c rcv snt = Some (c', (rcv', snt')) -> uart_flow rcv' snt' c'.
Proof.
  induction ops as [|op ops IH]; intros c c' rcv snt rcv' snt' Hf Hr; [by injection Hr as <- <- <-|].
  destruct op as [reg|reg val| |flags]; cbn [uart_trace] in Hr.
  - destruct (uart16550_core_read c reg) as [[c1 b]|] eqn:E; [|done]. cbn in Hr. eapply IH; [|done]. by eapply read_flow.
  - eapply IH; [|done]. by apply write_flow.
  - destruct (uart16550_core_update c) as [c1|] eqn:E; [|done]. eapply IH; [|done]. by eapply update_flow.
  - eapply IH; [|done]. by eapply flow_frame; [apply notify_frame|apply notify_frame|].
Qed.

(** C31: the serial port on a terminal is a reliable pipe in both directions.  After any
    sequence of operations, what the host delivered is what the driver received followed by
    what is still buffered, byte for byte and in order; what the driver sent while fewer than
    256 bytes were waiting is what the host received followed by what is still waiting.  The
    line status announces an empty transmitter only then, so a driver that asks first has no
    byte dropped.  Before the driver has enabled reception it receives nothing, so no early
    input is lost. *)
Theorem uart_flow_in_order ops tty (irq : I) (c : core) rcv snt :
  uart_trace ops (uart16550_core_init (Some (chardev_fd_create (mk_logged tty [] []))) irq) [] [] = Some (c, (rcv, snt)) ->
  exists t, c.(uc_chardev) = Some t /\
    t.(tm_tty).(lg_in) = rcv ++ rb_contents t.(tm_rx) /\ snt = t.(tm_tty).(lg_out) ++ rb_contents t.(tm_tx) /\
    (nz c.(uc_rx_armed) = false -> rcv = []) /\
    (forall c' lsr, uart16550_core_read c UART16550_REG_LSR = Some (c', lsr) -> nz (lsr .& 0x20) = true -> tx_room c = true).
Proof.
  intros Hr. apply trace_flow in Hr as [(t & Et & Hio & _ & Htx) Hg].
  - exists t. split_and!; [done|apply Hio|apply Hio|done|]. intros c' lsr. unfold tx_room. rewrite Et, <- (tx_space _ _ _ Hio).
    unfold uart16550_core_read, uart16550_visible_flags. rewrite Et. cbn [Z.eqb Pos.eqb UART16550_REG_LSR UART16550_REG_RBR_DLL UART16550_REG_IER_DLM UART16550_REG_IIR UART16550_REG_LCR UART16550_REG_MCR chardev_poll cd_poll term_chardev].
    unfold term_poll. intros [= _ <-] Hl. apply Htx. set (fl := if negb (nz (uc_rx_armed c)) then _ else _) in Hl.
    destruct (nz (fl .& CHARDEV_TX)) eqn:E; [|by destruct (nz (fl .& CHARDEV_RX))].
    subst fl. destruct (negb (nz (uc_rx_armed c))); [|done]. by rewrite <- Z.land_assoc in E.
  - split; [|done]. eexists. split; [done|]. apply create_flow.
Qed.

End Flow.

(** ** Examples *)

(** A host with a queue of input, that takes any output. *)
#[export] Instance demo_tty : Tty (list Z) := {
  tty_read w n := (drop (Z.to_nat n) w, take (Z.to_nat n) w);
  tty_write w l := (w, Z.of_nat (length l))
}.

#[export] Instance demo_tty_ok : TtyOk (list Z).
Proof. split; intros; cbn [tty_read tty_write demo_tty snd]; [rewrite length_take|]; lia. Qed.

(** Line 10 of a PLIC. *)
Definition demo_uart_irq : ns16550a_irq := mk_ns_irq demo_plic 10.

Definition demo_uart (input : list Z) : uart16550_core (chardev_term (logged (list Z))) ns16550a_irq :=
  uart16550_core_init (Some (chardev_fd_create (mk_logged input [] []))) demo_uart_irq.

(** Reception is enabled, the host delivers a byte: input 10 of the PLIC is raised. *)
Lemma uart_line_level_witness :
  exists c, uart_run [UWrite UART16550_REG_IER_DLM 1; UUpdate] (demo_uart [65]) = Some c /\ plic_input c.(uc_irq) = true.
Proof.
  eexists. split; [reflexivity|].
  exact (proj1 (uart_line_level [UWrite UART16550_REG_IER_DLM 1; UUpdate] (Some (chardev_fd_create (mk_logged [65] [] []))) demo_uart_irq _
    (conj eq_refl eq_refl) eq_refl eq_refl)).
Defined.

(** A read before reception is enabled takes nothing; later reads and a write pass in order. *)
Definition demo_ops : list uart_op :=
  [UUpdate; URead UART16550_REG_RBR_DLL; UWrite UART16550_REG_IER_DLM 1; URead UART16550_REG_RBR_DLL;
   UWrite UART16550_REG_THR_DLL 66; UUpdate].

Lemma uart_flow_in_order_witness :
  exists c t, uart_trace demo_ops (demo_uart [65; 67]) [] [] = Some (c, ([65], [66])) /\
    c.(uc_chardev) = Some t /\ t.(tm_tty).(lg_in) = [65] ++ rb_contents t.(tm_rx).
Proof.
  assert ((snd <$> uart_trace demo_ops (demo_uart [65; 67]) [] []) = Some ([65], [66])) as Hs by (vm_compute; reflexivity).
  destruct (uart_trace demo_ops (demo_uart [65; 67]) [] []) as [[c [rcv snt]]|] eqn:E; [|discriminate Hs].
  cbn in Hs. injection Hs as -> ->.
  destruct (uart_flow_in_order demo_ops [65; 67] demo_uart_irq c [65] [66] E) as (t & Et & Hin & _).
  exists c, t. split; [reflexivity|]. split; [exact Et|exact Hin].
Defined.

(** A transmit interrupt is dropped by arriving input.  The driver has enabled only the
    transmit interrupt and the line is high.  The terminal notifies the port about the flags
    that changed, here reception; the port takes them for all flags, forgets that it can
    transmit and lowers the line, although the status register still reports an empty
    transmitter. *)
Lemma uart_transmit_interrupt_lost :
  let arm := [UWrite UART16550_REG_IER_DLM 1; UUpdate; UWrite UART16550_REG_IER_DLM UART16550_IER_THR] in
  let type c := match c.(uc_chardev) with
                | Some t => set_chardev (Some (mk_term t.(tm_rx) t.(tm_tx) t.(tm_flags) t.(tm_ctrl_a) (mk_logged [65] [] []))) c
                | None => c end in
  let before := uart_run arm (demo_uart []) in
  let after := c ← before; uart16550_core_update (type c) in
  ((fun c => plic_input c.(uc_irq)) <$> before) = Some true /\ ((fun c => plic_input c.(uc_irq)) <$> after) = Some false /\
  (c ← after; snd <$> uart16550_core_read c UART16550_REG_LSR) = Some 0x61.
Proof. cbv zeta. split; [|split]; vm_compute; reflexivity. Qed.

(** ** Snapshots of the port *)

(** a port that is saved, with another section behind it, and restored into a new port has
    its registers back, on any image format that keeps what is written. *)
Theorem uart_snapshot_restores {D I F : Type} `{BlkImageOk F} (b : rvvm_blk_dev F) (c c0 : uart16550_core D I) last :
  holds b [] -> b.(bd_head) = 0 -> Forall field_ok (uart_fields c) -> sec_ok last ->
  Z.of_nat (length (enc 0 (map sec_bytes ([(ns16550a_name, uart_fields c)] ++ [last])))) < 2 ^ 63 ->
  let '(_, s) := ns16550a_suspend c (rvvm_snapshot_open b true) in
  let '(s, _) := suspend_section s (fst last) (snd last) in
  uart_fields (fst (ns16550a_suspend c0 (rvvm_snapshot_open (set_bd_head 0 s.(sn_blk)) false))) = uart_fields c.
Proof.
  intros Hb Hh Hf Hl Hlim. set (secs := [(ns16550a_name, uart_fields c)]).
  assert (Forall sec_ok (secs ++ [last])) as Hok.
  { apply Forall_app. split; [|by apply Forall_singleton]. apply Forall_singleton. split; [|exact Hf].
    split; [done|]. split; [cbn; lia|]. unfold ns16550a_name. cbn [fst]. repeat apply Forall_cons_2; try apply Forall_nil; lia. }
  pose proof (snapshot_holds_fields b secs last [(ns16550a_name, uart_fields c0)] Hb Hh Hok eq_refl Hlim) as Hr. revert Hr.
  unfold ns16550a_suspend, uart16550_core_suspend. cbn [suspend_all secs app]. unfold suspend_section.
  destruct (rvvm_snapshot_section (rvvm_snapshot_open b true) ns16550a_name) as [s1 ok1].
  destruct (suspend_fields s1 (uart_fields c)) as [s2 fs2]. destruct last as [lname lfields]. cbn [fst snd].
  destruct (rvvm_snapshot_section s2 lname) as [s3 ok3]. destruct (suspend_fields s3 lfields) as [s4 fs4].
  destruct (rvvm_snapshot_section _ ns16550a_name) as [s5 ok5]. destruct (suspend_fields s5 (uart_fields c0)) as [s6 fs6].
  intros [= ->]. reflexivity.
Qed.

(** A port that enabled interrupts and set its scratch register, restored into a new one. *)
Definition scratched_uart : uart16550_core unit unit := mk_uart None tt 0x60 3 0 0 0x5A 0 0 1.
Definition fresh_uart : uart16550_core unit unit := mk_uart None tt 0 0 0 0 0 0 0 0.

Lemma uart_snapshot_restores_witness :
  let '(_, s) := ns16550a_suspend scratched_uart (rvvm_snapshot_open demo_blk true) in
  let '(s, _) := suspend_section s (fst sec_b) (snd sec_b) in
  uart_fields (fst (ns16550a_suspend fresh_uart (rvvm_snapshot_open (set_bd_head 0 s.(sn_blk)) false))) =
    uart_fields scratched_uart.
Proof.
  assert (holds demo_blk []) as Hb by (constructor; try reflexivity; vm_compute; done).
  assert (Forall field_ok (uart_fields scratched_uart)) as Hf.
  { unfold uart_fields. cbn [map scratched_uart uc_flags uc_ier uc_lcr uc_mcr uc_scr uc_dll uc_dlm uc_rx_armed].
    repeat apply Forall_cons_2; try apply Forall_nil; (split; [cbn; lia|unfold urange; cbn; lia]). }
  assert (sec_ok sec_b) as Hs by (apply (proj1 (Forall_singleton _ _)), (Forall_inv_tail demo_secs_ok)).
  assert (Z.of_nat (length (enc 0 (map sec_bytes ([(ns16550a_name, uart_fields scratched_uart)] ++ [sec_b])))) < 2 ^ 63) as Hl
    by (vm_compute; reflexivity).
  exact (@uart_snapshot_restores unit unit memory mem_image mem_image_ok demo_blk scratched_uart fresh_uart sec_b Hb eq_refl Hf Hs Hl).
Defined.
