(* ===== verification/Pci.v ===== *)
(** * PCI bus (src/devices/pci-bus.c, pci-bus.h)

    Functions with their configuration space, base address registers, and interrupts as INTx
    lines, MSI and MSI-X messages; the slots of the bus, and attaching and removing of devices
    on a running machine ([Machine]).  The interrupt controller and the receivers of messages
    are the class [PciHost].  Theorems: MSI-X delivers every interrupt once, at once or when
    its vector is unmasked; a driver can size and place memory regions; slots are a map by
    address; attaching keeps the invariant of the machine. *)

From S2P Require Import Prelude BitOps MemOps State Machine.

(** ** Registers *)

Definition PCI_BUS_DEVS : Z := 0x20.
Definition PCI_DEV_FUNCS : Z := 0x8.
Definition PCI_FUNC_BARS : Z := 0x6.

Definition PCI_REG_DEV_VEN_ID : Z := 0x00.
Definition PCI_REG_STATUS_CMD : Z := 0x04.
Definition PCI_REG_CLASS_REV : Z := 0x08.
Definition PCI_REG_INFO : Z := 0x0C.
Definition PCI_REG_BAR0 : Z := 0x10.
Definition PCI_REG_BAR5 : Z := 0x24.
Definition PCI_REG_SSID_SVID : Z := 0x2C.
Definition PCI_REG_EXPANSION_ROM : Z := 0x30.
Definition PCI_REG_CAP_PTR : Z := 0x34.
Definition PCI_REG_IRQ_PIN_LINE : Z := 0x3C.
Definition PCI_CMD_BUS_MASTER : Z := 0x0004.
Definition PCI_CMD_INTX_DISABLE : Z := 0x0400.
Definition PCI_CMD_DEFAULT : Z := 0x0007.
Definition PCI_CMD_MASK : Z := 0x0407.
Definition PCI_STATUS_INTX : Z := 0x08.
Definition PCI_STATUS_CAP : Z := 0x10.
Definition PCI_HEADER_PCI_PCI : Z := 0x01.
Definition PCI_HEADER_MULTIFUNC : Z := 0x80.
Definition PCI_BAR_IO_SPACE : Z := 0x01.
Definition PCI_BAR_64_BIT : Z := 0x04.
Definition PCI_BAR_PREFETCH : Z := 0x08.
Definition PCI_EXPANSION_ROM_ENABLED : Z := 0x01.
Definition PCI_CAP_LIST_OFF : Z := 0x40.
Definition PCI_REG_ENDPOINT : Z := 0x40.
Definition PCI_REG_PMCSR : Z := 0x84.
Definition PCI_REG_MSI : Z := 0x90.
Definition PCI_REG_MSI_AL : Z := 0x94.
Definition PCI_REG_MSI_AH : Z := 0x98.
Definition PCI_REG_MSI_DATA : Z := 0x9C.
Definition PCI_REG_MSI_MASK : Z := 0xA0.
Definition PCI_REG_MSI_PEND : Z := 0xA4.
Definition PCI_REG_MSIX : Z := 0xB0.
Definition PCI_REG_MSIX_TBL : Z := 0xB4.
Definition PCI_REG_MSIX_PBO : Z := 0xB8.
Definition PCIE_CAP_ROOT_PORT : Z := 0x04.
Definition PCIE_CAP_INTEGRATED_ENDPOINT : Z := 0x09.
Definition PCI_PMCSR_PS : Z := 0x03.
Definition PCI_MSIX_MAX_IRQS : Z := 32.
Definition PCI_MSIX_TBL_SIZE : Z := ((PCI_MSIX_MAX_IRQS + 1) .>> 1) .<< 3.
Definition PCI_MSIX_PBA_SIZE : Z := (PCI_MSIX_MAX_IRQS + 0x1F) .>> 5.
Definition PCI_MSIX_BAR_SIZE : Z := PCI_MSIX_TBL_SIZE + PCI_MSIX_PBA_SIZE.
Definition PCI_MSIX_ENABLED : Z := 0x80000000.
Definition PCI_MSIX_MASKED : Z := 0x40000000.
Definition PCI_MSIX_VALID : Z := 0xC0000000.
Definition PCI_MSI_ENABLED : Z := 0x00010000.
Definition PCI_MSI_DATA : Z := 0x0000FFFF.
Definition PCI_MSI_BIT : Z := 0x00000001.
Definition PCI_MAX_NONPREFETCH_BAR : Z := 0x08000000.
Definition PCI_IRQ_PIN_INTA : Z := 0x1.

(** The capabilities from offset 0x40 on: PCI Express, power management, MSI and MSI-X. *)
Definition pci_express_caps_ro : list Z :=
  [0x01028010; 0x00008002; 0x00002050; 0x01800D02; 0x01020003; 0x00020060; 0x00200028; 0;
   0; 0; 0; 0x00000002; 0; 0; 0; 0;
   0x00039001; 0x00000008; 0; 0;
   0x0180B005; 0; 0; 0; 0; 0; 0; 0;
   0x00000011 .| ((PCI_MSIX_MAX_IRQS - 1) .<< 16)].

(** ** Functions, devices and the bus *)

(** The attributes of a function that never change. *)
Record pci_ids := mk_ids {
  vendor_id : Z;
  device_id : Z;
  class_code : Z;
  subsys_vendor_id : Z;
  subsys_device_id : Z;
  bar_io_mask : Z;
  prog_if : Z;
  rev : Z;
  irq_pin : Z
}.

(** Regions are handles of the machine's list of devices. *)
Record pci_func := mk_func {
  pf_addr : Z;
  pf_ids : pci_ids;
  pf_bar : Z -> option nat;
  pf_rom : option nat;
  pf_command : Z;
  pf_status : Z;
  pf_irq_line : Z;
  pf_bridge_io : Z;
  pf_bridge_mem : Z;
  pf_pm_csr : Z;
  pf_msi_control : Z;
  pf_msi_addr_low : Z;
  pf_msi_addr_high : Z;
  pf_msi_data : Z;
  pf_msi_mask : Z;
  pf_msi_pending : Z;
  pf_msix_control : Z;
  pf_msix_bar : Z;
  pf_msix : Z -> Z
}.

Definition set_pf_bar (v : Z -> option nat) (f : pci_func) : pci_func :=
  mk_func f.(pf_addr) f.(pf_ids) v f.(pf_rom) f.(pf_command) f.(pf_status) f.(pf_irq_line) f.(pf_bridge_io) f.(pf_bridge_mem) f.(pf_pm_csr) f.(pf_msi_control) f.(pf_msi_addr_low) f.(pf_msi_addr_high) f.(pf_msi_data) f.(pf_msi_mask) f.(pf_msi_pending) f.(pf_msix_control) f.(pf_msix_bar) f.(pf_msix).
Definition set_pf_rom (v : option nat) (f : pci_func) : pci_func :=
  mk_func f.(pf_addr) f.(pf_ids) f.(pf_bar) v f.(pf_command) f.(pf_status) f.(pf_irq_line) f.(pf_bridge_io) f.(pf_bridge_mem) f.(pf_pm_csr) f.(pf_msi_control) f.(pf_msi_addr_low) f.(pf_msi_addr_high) f.(pf_msi_data) f.(pf_msi_mask) f.(pf_msi_pending) f.(pf_msix_control) f.(pf_msix_bar) f.(pf_msix).
Definition set_pf_command (v : Z) (f : pci_func) : pci_func :=
  mk_func f.(pf_addr) f.(pf_ids) f.(pf_bar) f.(pf_rom) v f.(pf_status) f.(pf_irq_line) f.(pf_bridge_io) f.(pf_bridge_mem) f.(pf_pm_csr) f.(pf_msi_control) f.(pf_msi_addr_low) f.(pf_msi_addr_high) f.(pf_msi_data) f.(pf_msi_mask) f.(pf_msi_pending) f.(pf_msix_control) f.(pf_msix_bar) f.(pf_msix).
Definition set_pf_status (v : Z) (f : pci_func) : pci_func :=
  mk_func f.(pf_addr) f.(pf_ids) f.(pf_bar) f.(pf_rom) f.(pf_command) v f.(pf_irq_line) f.(pf_bridge_io) f.(pf_bridge_mem) f.(pf_pm_csr) f.(pf_msi_control) f.(pf_msi_addr_low) f.(pf_msi_addr_high) f.(pf_msi_data) f.(pf_msi_mask) f.(pf_msi_pending) f.(pf_msix_control) f.(pf_msix_bar) f.(pf_msix).
Definition set_pf_irq_line (v : Z) (f : pci_func) : pci_func :=
  mk_func f.(pf_addr) f.(pf_ids) f.(pf_bar) f.(pf_rom) f.(pf_command) f.(pf_status) v f.(pf_bridge_io) f.(pf_bridge_mem) f.(pf_pm_csr) f.(pf_msi_control) f.(pf_msi_addr_low) f.(pf_msi_addr_high) f.(pf_msi_data) f.(pf_msi_mask) f.(pf_msi_pending) f.(pf_msix_control) f.(pf_msix_bar) f.(pf_msix).
Definition set_pf_bridge_io (v : Z) (f : pci_func) : pci_func :=
  mk_func f.(pf_addr) f.(pf_ids) f.(pf_bar) f.(pf_rom) f.(pf_command) f.(pf_status) f.(pf_irq_line) v f.(pf_bridge_mem) f.(pf_pm_csr) f.(pf_msi_control) f.(pf_msi_addr_low) f.(pf_msi_addr_high) f.(pf_msi_data) f.(pf_msi_mask) f.(pf_msi_pending) f.(pf_msix_control) f.(pf_msix_bar) f.(pf_msix).
Definition set_pf_bridge_mem (v : Z) (f : pci_func) : pci_func :=
  mk_func f.(pf_addr) f.(pf_ids) f.(pf_bar) f.(pf_rom) f.(pf_command) f.(pf_status) f.(pf_irq_line) f.(pf_bridge_io) v f.(pf_pm_csr) f.(pf_msi_control) f.(pf_msi_addr_low) f.(pf_msi_addr_high) f.(pf_msi_data) f.(pf_msi_mask) f.(pf_msi_pending) f.(pf_msix_control) f.(pf_msix_bar) f.(pf_msix).
Definition set_pf_pm_csr (v : Z) (f : pci_func) : pci_func :=
  mk_func f.(pf_addr) f.(pf_ids) f.(pf_bar) f.(pf_rom) f.(pf_command) f.(pf_status) f.(pf_irq_line) f.(pf_bridge_io) f.(pf_bridge_mem) v f.(pf_msi_control) f.(pf_msi_addr_low) f.(pf_msi_addr_high) f.(pf_msi_data) f.(pf_msi_mask) f.(pf_msi_pending) f.(pf_msix_control) f.(pf_msix_bar) f.(pf_msix).
Definition set_pf_msi_control (v : Z) (f : pci_func) : pci_func :=
  mk_func f.(pf_addr) f.(pf_ids) f.(pf_bar) f.(pf_rom) f.(pf_command) f.(pf_status) f.(pf_irq_line) f.(pf_bridge_io) f.(pf_bridge_mem) f.(pf_pm_csr) v f.(pf_msi_addr_low) f.(pf_msi_addr_high) f.(pf_msi_data) f.(pf_msi_mask) f.(pf_msi_pending) f.(pf_msix_control) f.(pf_msix_bar) f.(pf_msix).
Definition set_pf_msi_addr_low (v : Z) (f : pci_func) : pci_func :=
  mk_func f.(pf_addr) f.(pf_ids) f.(pf_bar) f.(pf_rom) f.(pf_command) f.(pf_status) f.(pf_irq_line) f.(pf_bridge_io) f.(pf_bridge_mem) f.(pf_pm_csr) f.(pf_msi_control) v f.(pf_msi_addr_high) f.(pf_msi_data) f.(pf_msi_mask) f.(pf_msi_pending) f.(pf_msix_control) f.(pf_msix_bar) f.(pf_msix).
Definition set_pf_msi_addr_high (v : Z) (f : pci_func) : pci_func :=
  mk_func f.(pf_addr) f.(pf_ids) f.(pf_bar) f.(pf_rom) f.(pf_command) f.(pf_status) f.(pf_irq_line) f.(pf_bridge_io) f.(pf_bridge_mem) f.(pf_pm_csr) f.(pf_msi_control) f.(pf_msi_addr_low) v f.(pf_msi_data) f.(pf_msi_mask) f.(pf_msi_pending) f.(pf_msix_control) f.(pf_msix_bar) f.(pf_msix).
Definition set_pf_msi_data (v : Z) (f : pci_func) : pci_func :=
  mk_func f.(pf_addr) f.(pf_ids) f.(pf_bar) f.(pf_rom) f.(pf_command) f.(pf_status) f.(pf_irq_line) f.(pf_bridge_io) f.(pf_bridge_mem) f.(pf_pm_csr) f.(pf_msi_control) f.(pf_msi_addr_low) f.(pf_msi_addr_high) v f.(pf_msi_mask) f.(pf_msi_pending) f.(pf_msix_control) f.(pf_msix_bar) f.(pf_msix).
Definition set_pf_msi_mask (v : Z) (f : pci_func) : pci_func :=
  mk_func f.(pf_addr) f.(pf_ids) f.(pf_bar) f.(pf_rom) f.(pf_command) f.(pf_status) f.(pf_irq_line) f.(pf_bridge_io) f.(pf_bridge_mem) f.(pf_pm_csr) f.(pf_msi_control) f.(pf_msi_addr_low) f.(pf_msi_addr_high) f.(pf_msi_data) v f.(pf_msi_pending) f.(pf_msix_control) f.(pf_msix_bar) f.(pf_msix).
Definition set_pf_msi_pending (v : Z) (f : pci_func) : pci_func :=
  mk_func f.(pf_addr) f.(pf_ids) f.(pf_bar) f.(pf_rom) f.(pf_command) f.(pf_status) f.(pf_irq_line) f.(pf_bridge_io) f.(pf_bridge_mem) f.(pf_pm_csr) f.(pf_msi_control) f.(pf_msi_addr_low) f.(pf_msi_addr_high) f.(pf_msi_data) f.(pf_msi_mask) v f.(pf_msix_control) f.(pf_msix_bar) f.(pf_msix).
Definition set_pf_msix_control (v : Z) (f : pci_func) : pci_func :=
  mk_func f.(pf_addr) f.(pf_ids) f.(pf_bar) f.(pf_rom) f.(pf_command) f.(pf_status) f.(pf_irq_line) f.(pf_bridge_io) f.(pf_bridge_mem) f.(pf_pm_csr) f.(pf_msi_control) f.(pf_msi_addr_low) f.(pf_msi_addr_high) f.(pf_msi_data) f.(pf_msi_mask) f.(pf_msi_pending) v f.(pf_msix_bar) f.(pf_msix).
Definition set_pf_msix_bar (v : Z) (f : pci_func) : pci_func :=
  mk_func f.(pf_addr) f.(pf_ids) f.(pf_bar) f.(pf_rom) f.(pf_command) f.(pf_status) f.(pf_irq_line) f.(pf_bridge_io) f.(pf_bridge_mem) f.(pf_pm_csr) f.(pf_msi_control) f.(pf_msi_addr_low) f.(pf_msi_addr_high) f.(pf_msi_data) f.(pf_msi_mask) f.(pf_msi_pending) f.(pf_msix_control) v f.(pf_msix).
Definition set_pf_msix (v : Z -> Z) (f : pci_func) : pci_func :=
  mk_func f.(pf_addr) f.(pf_ids) f.(pf_bar) f.(pf_rom) f.(pf_command) f.(pf_status) f.(pf_irq_line) f.(pf_bridge_io) f.(pf_bridge_mem) f.(pf_pm_csr) f.(pf_msi_control) f.(pf_msi_addr_low) f.(pf_msi_addr_high) f.(pf_msi_data) f.(pf_msi_mask) f.(pf_msi_pending) f.(pf_msix_control) f.(pf_msix_bar) v.

Record pci_dev := mk_pci_dev { pd_func : Z -> option pci_func; pd_addr : Z }.

Record pci_bus := mk_pci_bus {
  pb_machine : nat;
  pb_dev : list (option pci_dev);
  pb_irqs : Z -> Z;
  pb_io_addr : Z;
  pb_io_len : Z;
  pb_mem_addr : Z;
  pb_mem_len : Z
}.

Definition set_pb_dev (v : list (option pci_dev)) (b : pci_bus) : pci_bus :=
  mk_pci_bus b.(pb_machine) v b.(pb_irqs) b.(pb_io_addr) b.(pb_io_len) b.(pb_mem_addr) b.(pb_mem_len).

(** ** Interrupts *)

(** The interrupt controller of the bus and the receivers of messages. *)
Class PciHost (H : Type) := {
  rvvm_irq_set : Z -> bool -> H -> H;
  rvvm_send_msi_irq : Z -> Z -> H -> H
}.

Section interrupts.
Context {H : Type} `{PciHost H}.

Definition rvvm_raise_irq (irq : Z) (h : H) : H := rvvm_irq_set irq true h.
Definition rvvm_lower_irq (irq : Z) (h : H) : H := rvvm_irq_set irq false h.
Definition rvvm_send_irq (irq : Z) (h : H) : H := rvvm_irq_set irq false (rvvm_irq_set irq true h).

Definition pci_bus_intx_irq (irqs : Z -> Z) (dev_id irq_pin : Z) : Z := irqs (u32 (dev_id + irq_pin + 3) .& 3).

Definition pci_func_intx_irq (irqs : Z -> Z) (f : pci_func) : Z := pci_bus_intx_irq irqs (f.(pf_addr) .>> 3) f.(pf_ids).(irq_pin).

Definition pci_func_send_intx_irq (irqs : Z -> Z) (f : pci_func) (raise : bool) (h : H) : pci_func * H :=
  if negb (nz (f.(pf_command) .& PCI_CMD_INTX_DISABLE)) then
    if nz f.(pf_ids).(irq_pin) then
      let f := set_pf_status PCI_STATUS_INTX f in
      (f, if raise then rvvm_raise_irq (pci_func_intx_irq irqs f) h else rvvm_send_irq (pci_func_intx_irq irqs f) h)
    else (f, h)
  else (f, h).

Definition pci_func_lower_intx_irq (irqs : Z -> Z) (f : pci_func) (h : H) : pci_func * H :=
  (set_pf_status 0 f, rvvm_lower_irq (pci_func_intx_irq irqs f) h).

(** The functions below also return whether the kind of interrupt is enabled. *)
Definition pci_func_send_msi_irq (f : pci_func) (h : H) : pci_func * H * bool :=
  if nz (f.(pf_msi_control) .& PCI_MSI_ENABLED) then
    if nz (f.(pf_command) .& PCI_CMD_BUS_MASTER) then
      let addr := f.(pf_msi_addr_low) .| (f.(pf_msi_addr_high) .<< 32) in
      if negb (nz f.(pf_msi_mask)) then (f, rvvm_send_msi_irq addr f.(pf_msi_data) h, true)
      else (set_pf_msi_pending PCI_MSI_BIT f, h, true)
    else (f, h, true)
  else (f, h, false).

Definition pci_func_lower_msi_irq (f : pci_func) : pci_func * bool :=
  if nz (f.(pf_msi_control) .& PCI_MSI_ENABLED) then (set_pf_msi_pending 0 f, true) else (f, false).

Definition pci_func_send_msix_irq (f : pci_func) (msi_id : Z) (h : H) : pci_func * H * bool :=
  if nz (f.(pf_msix_control) .& PCI_MSIX_ENABLED) then
    if nz (f.(pf_command) .& PCI_CMD_BUS_MASTER) && (msi_id <? PCI_MSIX_MAX_IRQS) then
      let mask := f.(pf_msix) ((msi_id .<< 2) + 3) in
      let data := f.(pf_msix) ((msi_id .<< 2) + 2) in
      let addr := f.(pf_msix) (msi_id .<< 2) .| (f.(pf_msix) ((msi_id .<< 2) + 1) .<< 32) in
      if negb (nz (f.(pf_msix_control) .& PCI_MSIX_MASKED)) && negb (nz (mask .& 1)) then (f, rvvm_send_msi_irq addr data h, true)
      else
        let reg := msi_id .>> 5 in
        let bit := u32 (1 .<< (msi_id .& 0x1F)) in
        (set_pf_msix (<[PCI_MSIX_TBL_SIZE + reg := f.(pf_msix) (PCI_MSIX_TBL_SIZE + reg) .| bit]> f.(pf_msix)) f, h, true)
    else (f, h, true)
  else (f, h, false).

Definition pci_func_lower_msix_irq (f : pci_func) (msi_id : Z) : pci_func * bool :=
  if nz (f.(pf_msix_control) .& PCI_MSIX_ENABLED) then
    if msi_id <? PCI_MSIX_MAX_IRQS then
      let reg := PCI_MSIX_TBL_SIZE + (msi_id .>> 5) in
      if nz (f.(pf_msix) reg .& bit_set32 msi_id)
      then (set_pf_msix (<[reg := f.(pf_msix) reg .& u32 (Z.lnot (bit_set32 msi_id))]> f.(pf_msix)) f, true)
      else (f, true)
    else (f, true)
  else (f, false).

Definition pci_func_update_msi_mask (f : pci_func) (h : H) : pci_func * H :=
  let mask := f.(pf_msi_mask) in
  let prev := f.(pf_msi_pending) in
  let f := set_pf_msi_pending (prev .& mask) f in
  if nz prev then let '(f, h, _) := pci_func_send_msi_irq f h in (f, h) else (f, h).

(** The loops over the bits of a register and over the registers. *)
Fixpoint resend_bits (n : nat) (reg bit pending : Z) (f : pci_func) (h : H) : pci_func * H :=
  match n with
  | O => (f, h)
  | S n =>
      let '(f, h) := if nz ((pending .>> bit) .& 1)
                     then let '(f, h, _) := pci_func_send_msix_irq f ((reg .<< 5) .| bit) h in (f, h) else (f, h) in
      resend_bits n reg (bit + 1) pending f h
  end.

Fixpoint resend_regs (n : nat) (reg : Z) (f : pci_func) (h : H) : pci_func * H :=
  match n with
  | O => (f, h)
  | S n =>
      let pending := f.(pf_msix) (PCI_MSIX_TBL_SIZE + reg) in
      let '(f, h) := if nz pending
                     then resend_bits 32 reg 0 pending (set_pf_msix (<[PCI_MSIX_TBL_SIZE + reg := 0]> f.(pf_msix)) f) h
                     else (f, h) in
      resend_regs n (reg + 1) f h
  end.

Definition pci_func_update_msix_mask (f : pci_func) (h : H) : pci_func * H :=
  if f.(pf_msix_control) =? PCI_MSIX_ENABLED then resend_regs (Z.to_nat PCI_MSIX_PBA_SIZE) 0 f h else (f, h).

Definition pci_msix_bar_read (f : pci_func) (offset : Z) : Z := f.(pf_msix) (offset .>> 2).

Definition pci_msix_bar_write (f : pci_func) (val offset : Z) (h : H) : pci_func * H :=
  let reg := offset .>> 2 in
  let prev := f.(pf_msix) reg in
  let f' := set_pf_msix (<[reg := val]> f.(pf_msix)) f in
  if (reg <? PCI_MSIX_TBL_SIZE) && ((reg .& 3) =? 3) && negb (nz (val .& 1)) then
    if nz (prev .& 1) then pci_func_update_msix_mask f' h else (f', h)
  else (f', h).

Definition pci_send_irq (irqs : Z -> Z) (f : pci_func) (msi_id : Z) (h : H) : pci_func * H :=
  let '(f, h, msix) := pci_func_send_msix_irq f msi_id h in
  if msix then (f, h) else
  let '(f, h, msi) := pci_func_send_msi_irq f h in
  if msi then (f, h) else pci_func_send_intx_irq irqs f false h.

Definition pci_raise_irq (irqs : Z -> Z) (f : pci_func) (msi_id : Z) (h : H) : pci_func * H :=
  let '(f, h, msix) := pci_func_send_msix_irq f msi_id h in
  if msix then (f, h) else
  let '(f, h, msi) := pci_func_send_msi_irq f h in
  if msi then (f, h) else pci_func_send_intx_irq irqs f true h.

Definition pci_lower_irq (irqs : Z -> Z) (f : pci_func) (msi_id : Z) (h : H) : pci_func * H :=
  let '(f, msix) := pci_func_lower_msix_irq f msi_id in
  if msix then (f, h) else
  let '(f, msi) := pci_func_lower_msi_irq f in
  if msi then (f, h) else pci_func_lower_intx_irq irqs f h.

End interrupts.

Definition pci_get_dma_ptr (m : ram) (f : pci_func) (addr size : Z) : option Z :=
  if nz (f.(pf_command) .& PCI_CMD_BUS_MASTER) then rvvm_get_dma_ptr m addr size else None.

(** ** Slots *)

(** Linear numbers of devices: the integrated ones on bus 0, then one for each other bus. *)
Definition pci_bus_addr_to_id_internal (bus_addr : Z) : Z :=
  if bus_addr <? 0x100 then bus_addr .>> 3 else (bus_addr .>> 8) + PCI_BUS_DEVS.

Definition pci_bus_addr_valid (bus_addr : Z) : bool := (bus_addr <? 0x100) || negb (nz (bus_addr .& 0xF8)).

(** [vector_put], which fills the elements it skips with zeros. *)
Definition vector_put {A} (l : list (option A)) (i : nat) (v : option A) : list (option A) :=
  <[i := v]> (l ++ replicate (S i - length l) None).

Definition pci_get_bus_device (b : pci_bus) (bus_addr : Z) : option pci_dev :=
  if pci_bus_addr_valid bus_addr then default None (b.(pb_dev) !! Z.to_nat (pci_bus_addr_to_id_internal bus_addr)) else None.

Definition pci_get_device_func (d : pci_dev) (func_id : Z) : option pci_func :=
  if func_id <? PCI_DEV_FUNCS then d.(pd_func) func_id else None.

Definition pci_get_bus_func (b : pci_bus) (bus_addr : Z) : option pci_func :=
  match pci_get_bus_device b bus_addr with
  | Some d => pci_get_device_func d (bus_addr .& 0x07)
  | None => None
  end.

Definition pci_set_bus_dev_internal (b : pci_bus) (bus_addr : Z) (d : option pci_dev) : pci_bus * bool :=
  let dev_id := Z.to_nat (pci_bus_addr_to_id_internal bus_addr) in
  match b.(pb_dev) !! dev_id with
  | Some old =>
      if negb (eqb (match old with Some _ => true | None => false end) (match d with Some _ => true | None => false end))
      then (set_pb_dev (vector_put b.(pb_dev) dev_id d) b, true) else (b, false)
  | None => (set_pb_dev (vector_put b.(pb_dev) dev_id d) b, true)
  end.

(** A function is changed through its pointer. *)
Definition put_bus_func (b : pci_bus) (bus_addr : Z) (f : pci_func) : pci_bus :=
  set_pb_dev (alter (fmap (fun d => mk_pci_dev (<[bus_addr .& 0x07 := Some f]> d.(pd_func)) d.(pd_addr)))
                    (Z.to_nat (pci_bus_addr_to_id_internal bus_addr)) b.(pb_dev)) b.

(** ** Configuration space *)

Definition pci_bar_is_upper_half (f : pci_func) (bar_id : Z) : bool :=
  nz bar_id && match f.(pf_bar) bar_id with Some _ => false | None => true end &&
  match f.(pf_bar) (bar_id - 1) with Some _ => true | None => false end.

Definition pci_bar_is_64bit (f : pci_func) (bar_id : Z) : bool :=
  (bar_id + 1 <? PCI_FUNC_BARS) && match f.(pf_bar) bar_id with Some _ => true | None => false end &&
  match f.(pf_bar) (bar_id + 1) with Some _ => false | None => true end.

Definition pci_effective_bar (f : pci_func) (bar_id : Z) : option nat :=
  if pci_bar_is_upper_half f bar_id then f.(pf_bar) (bar_id - 1) else f.(pf_bar) bar_id.

(** The regions behind the handles. *)
Fixpoint region_at (devs : list (nat * mmio_dev)) (h : nat) : option mmio_dev :=
  match devs with
  | [] => None
  | (i, d) :: devs => if decide (i = h) then Some d else region_at devs h
  end.

Definition set_dev_addr (a : Z) (d : mmio_dev) : mmio_dev :=
  mk_mmio_dev a d.(dev_size) d.(dev_mapping) d.(dev_read) d.(dev_write) d.(dev_min_op_size) d.(dev_max_op_size).

Definition move_region (h : nat) (a : Z) (devs : list (nat * mmio_dev)) : list (nat * mmio_dev) :=
  map (fun x => if decide (x.1 = h) then (x.1, set_dev_addr a x.2) else x) devs.

(** Whether a device has functions other than this one. *)
Fixpoint other_func (n : nat) (d : pci_dev) (self : Z) : bool :=
  match n with
  | O => false
  | S n => (match pci_get_device_func d (Z.of_nat n) with Some _ => true | None => false end && negb (Z.of_nat n =? self)) || other_func n d self
  end.

Section config.
Context (devs : list (nat * mmio_dev)).

(** A base address register, of a bridge where there are but two. *)
Definition pci_read_bar (b : pci_bus) (bus_addr : Z) (f : pci_func) (bar_id : Z) : Z :=
  if negb (f.(pf_ids).(class_code) =? 0x0604) || (bar_id <? 0x02) then
    match pci_effective_bar f bar_id ≫= region_at devs with
    | Some bar =>
        if pci_bar_is_upper_half f bar_id then u32 (bar.(dev_addr) .>> 32)
        else if nz ((f.(pf_ids).(bar_io_mask) .>> bar_id) .& 1) then u32 (bar.(dev_addr) - b.(pb_io_addr)) .| PCI_BAR_IO_SPACE
        else
          let val := u32 bar.(dev_addr) in
          let val := if pci_bar_is_64bit f bar_id then val .| PCI_BAR_64_BIT else val in
          if PCI_MAX_NONPREFETCH_BAR <=? bar.(dev_size) then val .| PCI_BAR_PREFETCH else val
    | None => 0
    end
  else
    let secondary_bus := u8 ((bus_addr .>> 3) + (bus_addr .& 0x7)) in
    if bar_id =? 0x02 then (secondary_bus .<< 16) .| (secondary_bus .<< 8)
    else if bar_id =? 0x03 then f.(pf_bridge_io)
    else if bar_id =? 0x04 then f.(pf_bridge_mem)
    else 0.

(** The value of a configuration read. *)
Definition pci_bus_read (b : pci_bus) (offset : Z) : Z :=
  let bus_addr := u32 (offset .>> 12) in
  let reg := offset .& 0xFFC in
  match pci_get_bus_func b bus_addr with
  | None => 0xFFFFFFFF
  | Some f =>
      let ids := f.(pf_ids) in
      let val := if nz bus_addr && (PCI_CAP_LIST_OFF <=? reg) then nth (Z.to_nat ((reg - PCI_CAP_LIST_OFF) .>> 2)) pci_express_caps_ro 0 else 0 in
      if reg =? PCI_REG_DEV_VEN_ID then ids.(vendor_id) .| (ids.(device_id) .<< 16)
      else if reg =? PCI_REG_STATUS_CMD then
        let val := f.(pf_command) .| u32 (f.(pf_status) .<< 16) in
        if nz bus_addr then val .| (PCI_STATUS_CAP .<< 16) else val
      else if reg =? PCI_REG_CLASS_REV then ids.(rev) .| (ids.(prog_if) .<< 8) .| (ids.(class_code) .<< 16)
      else if reg =? PCI_REG_INFO then
        let multi := match pci_get_bus_device b bus_addr with
                     | Some d => other_func (Z.to_nat PCI_DEV_FUNCS) d (bus_addr .& 0x07)
                     | None => false
                     end in
        let val := if multi then 16 .| (PCI_HEADER_MULTIFUNC .<< 16) else 16 in
        if ids.(class_code) =? 0x0604 then val .| (PCI_HEADER_PCI_PCI .<< 16) else val
      else if reg =? PCI_REG_IRQ_PIN_LINE then f.(pf_irq_line) .| (ids.(irq_pin) .<< 8)
      else if (PCI_REG_BAR0 <=? reg) && (reg <=? PCI_REG_BAR5) then pci_read_bar b bus_addr f ((reg - PCI_REG_BAR0) .>> 2)
      else if reg =? PCI_REG_SSID_SVID then (ids.(subsys_device_id) .<< 16) .| ids.(subsys_vendor_id)
      else if reg =? PCI_REG_EXPANSION_ROM then
        match f.(pf_rom) ≫= region_at devs with
        | Some rom => u32 (rom.(dev_addr) .| PCI_EXPANSION_ROM_ENABLED)
        | None => val
        end
      else if reg =? PCI_REG_CAP_PTR then if nz bus_addr then PCI_CAP_LIST_OFF else val
      else if reg =? PCI_REG_ENDPOINT then
        if ids.(class_code) =? 0x0604 then val .| (PCIE_CAP_ROOT_PORT .<< 20)
        else if negb (nz (bus_addr .>> 8)) then val .| (PCIE_CAP_INTEGRATED_ENDPOINT .<< 20)
        else val
      else if reg =? PCI_REG_PMCSR then val .| f.(pf_pm_csr)
      else if reg =? PCI_REG_MSI then
        let val := val .| f.(pf_msi_control) in
        if nz f.(pf_msix_bar) then val else val .& u32 (Z.lnot 0xFF00)
      else if reg =? PCI_REG_MSI_AL then f.(pf_msi_addr_low)
      else if reg =? PCI_REG_MSI_AH then f.(pf_msi_addr_high)
      else if reg =? PCI_REG_MSI_DATA then f.(pf_msi_data)
      else if reg =? PCI_REG_MSI_MASK then f.(pf_msi_mask)
      else if reg =? PCI_REG_MSI_PEND then f.(pf_msi_pending)
      else if reg =? PCI_REG_MSIX then val .| f.(pf_msix_control)
      else if reg =? PCI_REG_MSIX_TBL then f.(pf_msix_bar)
      else if reg =? PCI_REG_MSIX_PBO then f.(pf_msix_bar) .| PCI_MSIX_TBL_SIZE
      else val
  end.

(** Where a write puts a region: aligned to its size. *)
Definition pci_write_bar (b : pci_bus) (f : pci_func) (bar_id val : Z) : pci_func * list (nat * mmio_dev) :=
  if negb (f.(pf_ids).(class_code) =? 0x0604) || (bar_id <? 0x02) then
    match pci_effective_bar f bar_id with
    | Some h =>
        match region_at devs h with
        | Some bar =>
            let bar_size := bit_next_pow2 bar.(dev_size) in
            let is_io := nz ((f.(pf_ids).(bar_io_mask) .>> bar_id) .& 1) in
            let bar_addr :=
              if pci_bar_is_upper_half f bar_id then bit_replace64 bar.(dev_addr) 32 32 val
              else if is_io then u64 (b.(pb_io_addr) + (val .& u32 (Z.lnot 0x3)))
              else bit_replace64 bar.(dev_addr) 0 32 (val .& u32 (Z.lnot 0xFFF)) in
            (f, move_region h (bar_addr .& u64 (Z.lnot (u64 (bar_size - 1)))) devs)
        | None => (f, devs)
        end
    | None => (f, devs)
    end
  else if bar_id =? 0x03 then (set_pf_bridge_io val f, devs)
  else if bar_id =? 0x04 then (set_pf_bridge_mem val f, devs)
  else (f, devs).

(** The function after a configuration write, the regions and the interrupts. *)
Definition pci_func_write {H} `{PciHost H} (b : pci_bus) (f : pci_func) (reg val : Z) (h : H) : pci_func * list (nat * mmio_dev) * H :=
  if reg =? PCI_REG_STATUS_CMD then
    let prev := f.(pf_command) in
    let f := set_pf_command (val .& PCI_CMD_MASK) f in
    let '(f, h) := if negb (nz (prev .& PCI_CMD_INTX_DISABLE)) && nz (val .& PCI_CMD_INTX_DISABLE)
                   then pci_func_lower_intx_irq b.(pb_irqs) f h else (f, h) in
    (f, devs, h)
  else if (PCI_REG_BAR0 <=? reg) && (reg <=? PCI_REG_BAR5) then (pci_write_bar b f ((reg - PCI_REG_BAR0) .>> 2) val, h)
  else if reg =? PCI_REG_EXPANSION_ROM then
    match f.(pf_rom) with
    | Some r =>
        match region_at devs r with
        | Some rom => (f, move_region r ((val .& u32 (Z.lnot 0xFFF)) .& u64 (Z.lnot (u64 (bit_next_pow2 rom.(dev_size) - 1)))) devs, h)
        | None => (f, devs, h)
        end
    | None => (f, devs, h)
    end
  else if reg =? PCI_REG_IRQ_PIN_LINE then (set_pf_irq_line (u8 val) f, devs, h)
  else if reg =? PCI_REG_PMCSR then (set_pf_pm_csr (val .& PCI_PMCSR_PS) f, devs, h)
  else if reg =? PCI_REG_MSI then (set_pf_msi_control (val .& PCI_MSI_ENABLED) f, devs, h)
  else if reg =? PCI_REG_MSI_AL then (set_pf_msi_addr_low val f, devs, h)
  else if reg =? PCI_REG_MSI_AH then (set_pf_msi_addr_high val f, devs, h)
  else if reg =? PCI_REG_MSI_DATA then (set_pf_msi_data (val .& PCI_MSI_DATA) f, devs, h)
  else if reg =? PCI_REG_MSI_MASK then
    let '(f, h) := pci_func_update_msi_mask (set_pf_msi_mask (val .& PCI_MSI_BIT) f) h in (f, devs, h)
  else if reg =? PCI_REG_MSIX then
    let prev := f.(pf_msix_control) in
    let f := set_pf_msix_control (val .& PCI_MSIX_VALID) f in
    let '(f, h) := if nz (prev .& PCI_MSIX_MASKED) && negb (nz (val .& PCI_MSIX_MASKED)) then pci_func_update_msix_mask f h else (f, h) in
    (f, devs, h)
  else (f, devs, h).

Definition pci_bus_write {H} `{PciHost H} (b : pci_bus) (offset val : Z) (h : H) : pci_bus * list (nat * mmio_dev) * H :=
  let bus_addr := u32 (offset .>> 12) in
  let reg := offset .& 0xFFC in
  match pci_get_bus_func b bus_addr with
  | None => (b, devs, h)
  | Some f => let '(f, devs, h) := pci_func_write b f reg val h in (put_bus_func b bus_addr f, devs, h)
  end.

End config.

(** ** Attaching and removing *)

Record pci_func_desc := mk_func_desc { fd_ids : pci_ids; fd_bar : Z -> mmio_dev; fd_rom : mmio_dev }.

Local Open Scope call_scope.

Section attach.
Context `{Platform}.
(** The command line, and the callbacks of the MSI-X table. *)
Context (no_msix pcie_ports : bool) (msix_read msix_write : mmio_handler).

Definition find_zone (h : nat) (addr size : Z) : call Z := fun w =>
  match get_machine h w with
  | Some (w, m) => match rvvm_mmio_zone_auto (2 + length m.(v_devs)) m.(v_mem) m.(v_devs) addr size with Some a => Some (w, a) | None => None end
  | None => None
  end.

Definition pci_assign_mmio_addr (b : pci_bus) (bar_size : Z) : call Z :=
  let size := bit_next_pow2 (Z.max bar_size 0x1000) in
  if PCI_MAX_NONPREFETCH_BAR <=? size then find_zone b.(pb_machine) 0x4000000000 size else find_zone b.(pb_machine) 0x40000000 size.

Definition pci_assign_io_addr (b : pci_bus) (bar_size : Z) : call Z :=
  find_zone b.(pb_machine) b.(pb_io_addr) (bit_next_pow2 (Z.max bar_size 4)).

Definition pci_attach_bar (b : pci_bus) (bar : mmio_dev) (is_io : bool) : call (option nat) :=
  let! addr := (if is_io then pci_assign_io_addr b bar.(dev_size) else pci_assign_mmio_addr b bar.(dev_size)) in
  rvvm_attach_mmio b.(pb_machine) (set_dev_addr addr bar).

Definition msix_region : mmio_dev := mk_mmio_dev 0 (4 * PCI_MSIX_BAR_SIZE) 0 (Some msix_read) (Some msix_write) 0 0.

(** The bars from [bar_id] on; [None] when one of the description is refused. *)
Fixpoint attach_bars (n : nat) (b : pci_bus) (desc : pci_func_desc) (bar_id : Z) (f : pci_func) : call (option pci_func) :=
  match n with
  | O => cret (Some f)
  | S n =>
      if nz (desc.(fd_bar) bar_id).(dev_size) then
        let is_io := nz ((desc.(fd_ids).(bar_io_mask) .>> bar_id) .& 1) in
        let! bar := pci_attach_bar b (desc.(fd_bar) bar_id) is_io in
        match bar with
        | None => cret None
        | Some _ => attach_bars n b desc (bar_id + 1) (set_pf_bar (<[bar_id := bar]> f.(pf_bar)) f)
        end
      else if negb no_msix && nz f.(pf_ids).(irq_pin) && (4 <=? bar_id) && negb (nz f.(pf_msix_bar)) then
        let! bar := pci_attach_bar b msix_region false in
        let f := set_pf_bar (<[bar_id := bar]> f.(pf_bar)) f in
        attach_bars n b desc (bar_id + 1) (match bar with Some _ => set_pf_msix_bar bar_id f | None => f end)
      else attach_bars n b desc (bar_id + 1) f
  end.

Definition pci_attach_func_internal (b : pci_bus) (desc : pci_func_desc) (bus_addr : Z) : call (option pci_func) :=
  let ids := desc.(fd_ids) in
  let ids := if negb (nz ids.(subsys_vendor_id)) && negb (nz ids.(subsys_device_id))
             then mk_ids ids.(vendor_id) ids.(device_id) ids.(class_code) 0x10DC 0x5100 ids.(bar_io_mask) ids.(prog_if) ids.(rev) ids.(irq_pin)
             else ids in
  let irq_line := pci_bus_intx_irq b.(pb_irqs) (bus_addr .>> 3) ids.(irq_pin) in
  let f := mk_func bus_addr ids (fun _ => None) None PCI_CMD_DEFAULT 0 irq_line 0 0 0 0 0 0 0 0 0 0 0 (fun _ => 0) in
  let! f := attach_bars (Z.to_nat PCI_FUNC_BARS) b desc 0 f in
  match f with
  | None => cret None
  | Some f =>
      if nz desc.(fd_rom).(dev_size) then
        let! rom := pci_attach_bar b desc.(fd_rom) false in
        match rom with None => cret None | Some _ => cret (Some (set_pf_rom rom f)) end
      else cret (Some f)
  end.

(** The regions of the bars are removed, not that of the ROM. *)
Fixpoint remove_bars (n : nat) (h : nat) (bar_id : Z) (f : pci_func) : call () :=
  match n with
  | O => cret ()
  | S n =>
      match f.(pf_bar) bar_id with
      | Some i => let! m := get_machine h in
                  match region_at m.(v_devs) i with Some dev => rvvm_remove_mmio h i dev | None => cret () end
      | None => cret ()
      end ;;
      remove_bars n h (bar_id + 1) f
  end.

Definition pci_free_func_internal (b : pci_bus) (f : option pci_func) (remove_mmio : bool) : call () :=
  match f with
  | Some f => if remove_mmio then remove_bars (Z.to_nat PCI_FUNC_BARS) b.(pb_machine) 0 f else cret ()
  | None => cret ()
  end.

Fixpoint free_funcs (n : nat) (b : pci_bus) (func_id : Z) (d : pci_dev) (remove_mmio : bool) : call () :=
  match n with
  | O => cret ()
  | S n => pci_free_func_internal b (d.(pd_func) func_id) remove_mmio ;; free_funcs n b (func_id + 1) d remove_mmio
  end.

Definition pci_free_dev_internal (b : pci_bus) (d : pci_dev) (remove_mmio : bool) : call () :=
  free_funcs (Z.to_nat PCI_DEV_FUNCS) b 0 d remove_mmio.

(** The functions of a device, or the functions attached before one was refused. *)
Fixpoint attach_funcs (n : nat) (b : pci_bus) (desc : Z -> option pci_func_desc) (func_id : Z) (d : pci_dev) : call (pci_dev * bool) :=
  match n with
  | O => cret (d, true)
  | S n =>
      match desc func_id with
      | Some fd =>
          let! f := pci_attach_func_internal b fd (u32 (d.(pd_addr) + func_id)) in
          let d := mk_pci_dev (<[func_id := f]> d.(pd_func)) d.(pd_addr) in
          match f with Some _ => attach_funcs n b desc (func_id + 1) d | None => cret (d, false) end
      | None => attach_funcs n b desc (func_id + 1) d
      end
  end.

Definition restart (h : nat) (was_running : bool) : call () :=
  if was_running then let! _ := rvvm_start_machine h in cret () else cret ().

Definition pci_attach_multifunc_at (b : pci_bus) (desc : Z -> option pci_func_desc) (bus_addr : Z) : call (pci_bus * option pci_dev) :=
  let! r := attach_funcs (Z.to_nat PCI_DEV_FUNCS) b desc 0 (mk_pci_dev (fun _ => None) bus_addr) in
  let '(d, ok) := r in
  if negb ok then pci_free_dev_internal b d true ;; cret (b, None)
  else
    let! was_running := rvvm_pause_machine b.(pb_machine) in
    let '(b', free) := pci_set_bus_dev_internal b bus_addr (Some d) in
    let! d := (if free then cret (Some d) else pci_free_dev_internal b d true ;; cret None) in
    restart b.(pb_machine) was_running ;;
    cret (b', d).

(** The first free slot on bus 0, then a port. *)
Definition free_slot (b : pci_bus) (addrs : list Z) : option Z :=
  find (fun a => match pci_get_bus_device b a with None => true | Some _ => false end) addrs.

Definition pci_attach_multifunc (b : pci_bus) (desc : Z -> option pci_func_desc) : call (pci_bus * option pci_dev) :=
  match free_slot b (map (fun i => Z.of_nat i * PCI_DEV_FUNCS) (seq 0 32)) with
  | Some bus_addr => pci_attach_multifunc_at b desc bus_addr
  | None =>
      match (if pcie_ports then free_slot b (map (fun i => Z.of_nat i * 0x100) (seq 1 7)) else None) with
      | Some bus_addr => pci_attach_multifunc_at b desc bus_addr
      | None => cret (b, None)
      end
  end.

Definition pci_attach_func (b : pci_bus) (desc : pci_func_desc) : call (pci_bus * option pci_dev) :=
  pci_attach_multifunc b (fun i => if i =? 0 then Some desc else None).

Definition pci_attach_func_at (b : pci_bus) (desc : pci_func_desc) (bus_addr : Z) : call (pci_bus * option pci_dev) :=
  let func_id := bus_addr .& 0x07 in
  match pci_get_bus_device b bus_addr with
  | Some d =>
      let! f := pci_attach_func_internal b desc bus_addr in
      match f with
      | None => cret (b, None)
      | Some f =>
          let! was_running := rvvm_pause_machine b.(pb_machine) in
          let! r := (match d.(pd_func) func_id with
                     | Some _ => pci_free_func_internal b (Some f) true ;; cret (b, None)
                     | None => let b := put_bus_func b bus_addr f in cret (b, pci_get_bus_device b bus_addr)
                     end) in
          restart b.(pb_machine) was_running ;;
          cret r
      end
  | None => pci_attach_multifunc_at b (fun i => if i =? func_id then Some desc else None) (bus_addr .& u32 (Z.lnot 0x7))
  end.

Definition pci_remove_device (b : pci_bus) (d : pci_dev) : call pci_bus :=
  let! was_running := rvvm_pause_machine b.(pb_machine) in
  let '(b', _) := pci_set_bus_dev_internal b d.(pd_addr) None in
  pci_free_dev_internal b d true ;;
  restart b.(pb_machine) was_running ;;
  cret b'.

(** The bus itself: the region of the configuration space, the host bridge and the ports.
    The list of free slots is empty at first. *)
Definition no_region : mmio_dev := mk_mmio_dev 0 0 0 None None 0 0.
Definition bridge_desc : pci_func_desc := mk_func_desc (mk_ids 0xF15E 0 0x0600 0 0 0 0 0 0) (fun _ => no_region) no_region.
Definition root_port_desc : pci_func_desc := mk_func_desc (mk_ids 0x1556 0xBE00 0x0604 0 0 0 0 0 PCI_IRQ_PIN_INTA) (fun _ => no_region) no_region.

Definition pci_bus_init (ecam_read ecam_write : mmio_handler) (h : nat) (irqs : Z -> Z) (ecam_addr bus_count io_addr io_len mem_addr mem_len : Z) :
    call (option pci_bus) :=
  let b := mk_pci_bus h [] irqs io_addr io_len mem_addr mem_len in
  let! ecam := rvvm_attach_mmio h (mk_mmio_dev ecam_addr (u64 (bus_count .<< 20)) 0 (Some ecam_read) (Some ecam_write) 4 4) in
  match ecam with
  | None => cret None
  | Some _ =>
      let! r := pci_attach_func b bridge_desc in let b := r.1 in
      let! b := (if pcie_ports then
                   let! r := pci_attach_func_at b root_port_desc 1 in let b := r.1 in
                   let! r := pci_attach_func_at b root_port_desc 2 in let b := r.1 in
                   let! r := pci_attach_func_at b root_port_desc 3 in let b := r.1 in
                   cret b
                 else cret b) in
      cret (Some b)
  end.

End attach.

(** ** Message-signalled interrupts *)

(** What the MSI-X capability of a function promises for each of its vectors. *)
Record msix_state := mk_msix {
  mx_mask : bool;            (* all vectors are masked *)
  mx_vmask : Z -> bool;      (* a vector is masked *)
  mx_pending : Z -> bool;    (* a vector was raised while it was masked *)
  mx_entry : Z -> Z * Z      (* address and data of the message *)
}.

Inductive msix_event :=
| MsixRaise (id : Z)
| MsixLower (id : Z)
| MsixEntry (reg val : Z)
| MsixMask (on : bool).

Definition mx_open (s : msix_state) (id : Z) : bool := negb s.(mx_mask) && negb (s.(mx_vmask) id).

Definition all_vectors : list Z := map Z.of_nat (seq 0 32).

(** The messages of pending vectors that are not masked any more, in their order; those
    vectors are no longer pending. *)
Definition msix_flush (s : msix_state) : msix_state * list (Z * Z) :=
  (mk_msix s.(mx_mask) s.(mx_vmask) (fun id => s.(mx_pending) id && negb (mx_open s id)) s.(mx_entry),
   map s.(mx_entry) (filter (fun id => s.(mx_pending) id && mx_open s id = true) all_vectors)).

Definition set_entry (reg val : Z) (e : Z * Z) : Z * Z :=
  if (reg .& 3) =? 0 then ((e.1 .>> 32 .<< 32) .| val, e.2)
  else if (reg .& 3) =? 1 then (u32 e.1 .| (val .<< 32), e.2)
  else if (reg .& 3) =? 2 then (e.1, val) else e.

Definition msix_spec (e : msix_event) (s : msix_state) : msix_state * list (Z * Z) :=
  match e with
  | MsixRaise id =>
      if mx_open s id then (s, [s.(mx_entry) id])
      else (mk_msix s.(mx_mask) s.(mx_vmask) (<[id := true]> s.(mx_pending)) s.(mx_entry), [])
  | MsixLower id => (mk_msix s.(mx_mask) s.(mx_vmask) (<[id := false]> s.(mx_pending)) s.(mx_entry), [])
  | MsixEntry reg val =>
      let id := reg .>> 2 in
      msix_flush (mk_msix s.(mx_mask) (if (reg .& 3) =? 3 then <[id := nz (val .& 1)]> s.(mx_vmask) else s.(mx_vmask))
                          s.(mx_pending) (<[id := set_entry reg val (s.(mx_entry) id)]> s.(mx_entry)))
  | MsixMask on => msix_flush (mk_msix on s.(mx_vmask) s.(mx_pending) s.(mx_entry))
  end.

(** What the code does for them. *)
Definition msix_code {H} `{PciHost H} (devs : list (nat * mmio_dev)) (b : pci_bus) (e : msix_event) (f : pci_func) (h : H) : pci_func * H :=
  match e with
  | MsixRaise id => pci_raise_irq b.(pb_irqs) f id h
  | MsixLower id => pci_lower_irq b.(pb_irqs) f id h
  | MsixEntry reg val => pci_msix_bar_write f val (4 * reg) h
  | MsixMask on => let '(f, _, h) := pci_func_write devs b f PCI_REG_MSIX (PCI_MSIX_ENABLED .| (if on then PCI_MSIX_MASKED else 0)) h in (f, h)
  end.

Definition msix_event_ok (e : msix_event) : Prop :=
  match e with
  | MsixRaise id | MsixLower id => 0 <= id < 32
  | MsixEntry reg val => 0 <= reg < 128 /\ urange 32 val
  | MsixMask _ => True
  end.

(** Agreement of a function with MSI-X enabled with the abstract state; at rest no vector that
    can be delivered is pending. *)
Record msix_rel (f : pci_func) (s : msix_state) : Prop := {
  mr_control : f.(pf_msix_control) = (PCI_MSIX_ENABLED .| (if s.(mx_mask) then PCI_MSIX_MASKED else 0));
  mr_master : nz (f.(pf_command) .& PCI_CMD_BUS_MASTER) = true;
  mr_words : forall r, urange 32 (f.(pf_msix) r);
  mr_vmask : forall id, 0 <= id < 32 -> s.(mx_vmask) id = nz (f.(pf_msix) (4 * id + 3) .& 1);
  mr_pending : forall id, 0 <= id < 32 -> s.(mx_pending) id = Z.testbit (f.(pf_msix) 128) id;
  mr_entry : forall id, 0 <= id < 32 -> s.(mx_entry) id = (f.(pf_msix) (4 * id) .| (f.(pf_msix) (4 * id + 1) .<< 32), f.(pf_msix) (4 * id + 2))
}.

Definition msix_rest (s : msix_state) : Prop := forall id, 0 <= id < 32 -> s.(mx_pending) id = true -> mx_open s id = false.

Section msix.
Context {H : Type} `{PciHost H}.

Definition send_all (l : list (Z * Z)) (h : H) : H := foldl (fun h m => rvvm_send_msi_irq m.1 m.2 h) h l.

Lemma control_bits (on : bool) : let c := PCI_MSIX_ENABLED .| (if on then PCI_MSIX_MASKED else 0) in
  nz (c .& PCI_MSIX_ENABLED) = true /\ nz (c .& PCI_MSIX_MASKED) = on /\ (c =? PCI_MSIX_ENABLED) = negb on /\ (c .& PCI_MSIX_VALID) = c.
Proof. destruct on; vm_compute; auto. Qed.

Lemma shl2 x : (x .<< 2) = 4 * x.
Proof. rewrite Z.shiftl_mul_pow2 by lia. lia. Qed.

Lemma bit32 id : 0 <= id < 32 -> id .& 0x1F = id.
Proof. intros. change 0x1F with (Z.ones 5). rewrite Z.land_ones by lia. apply Z.mod_small. lia. Qed.

Lemma shr5 id : 0 <= id < 32 -> id .>> 5 = 0.
Proof. intros. rewrite Z.shiftr_div_pow2 by lia. apply Z.div_small. lia. Qed.

Lemma testbit_nz x i : 0 <= i -> nz ((x .>> i) .& 1) = Z.testbit x i.
Proof.
  intros. change 1 with (Z.ones 1). rewrite Z.land_ones by lia. change (2 ^ 1) with 2.
  rewrite Z.testbit_odd, (Zmod_odd (x .>> i)). destruct (Z.odd (x .>> i)); reflexivity.
Qed.

(** Sending of a vector, in terms of the relation. *)
Lemma send_msix_spec f s id h : msix_rel f s -> 0 <= id < 32 ->
  pci_func_send_msix_irq f id h =
    (if mx_open s id then f else set_pf_msix (<[128 := f.(pf_msix) 128 .| 2 ^ id]> f.(pf_msix)) f,
     if mx_open s id then rvvm_send_msi_irq (s.(mx_entry) id).1 (s.(mx_entry) id).2 h else h, true).
Proof.
  intros R Hid. unfold pci_func_send_msix_irq. rewrite (mr_control f s R).
  destruct (control_bits s.(mx_mask)) as (-> & -> & _ & _). rewrite (mr_master f s R). change PCI_MSIX_MAX_IRQS with 32.
  rewrite (proj2 (Z.ltb_lt id 32)) by lia. cbn [andb]. rewrite !shl2, bit32, shr5 by lia.
  unfold mx_open. rewrite (mr_vmask f s R id Hid), (mr_entry f s R id Hid).
  change (PCI_MSIX_TBL_SIZE + 0) with 128. rewrite wrap_small, Z.shiftl_1_l.
  2: { rewrite Z.shiftl_1_l. split; [apply Z.pow_nonneg; lia|apply Z.pow_lt_mono_r; lia]. }
  destruct (s.(mx_mask)), (nz (f.(pf_msix) (4 * id + 3) .& 1)); reflexivity.
Qed.

Definition ids_from (bit : Z) (n : nat) : list Z := map Z.of_nat (seq (Z.to_nat bit) n).

Definition set_pending (p : Z -> bool) (s : msix_state) : msix_state := mk_msix s.(mx_mask) s.(mx_vmask) p s.(mx_entry).

Lemma rel_pending f s w p : msix_rel f s -> urange 32 w -> (forall id, 0 <= id < 32 -> p id = Z.testbit w id) ->
  msix_rel (set_pf_msix (<[128 := w]> f.(pf_msix)) f) (set_pending p s).
Proof.
  intros [H1 H2 H3 H4 H5 H6] Hw Hp. split; cbn [set_pf_msix pf_msix pf_msix_control pf_command set_pending mx_mask mx_vmask mx_pending mx_entry]; auto.
  - intros r. destruct (decide (r = 128)) as [->|]; [by rewrite fupd_eq|by rewrite fupd_ne].
  - intros id Hid. rewrite fupd_ne by lia. auto.
  - intros id Hid. rewrite !fupd_ne by lia. auto.
Qed.

Lemma ids_from_S bit n : 0 <= bit -> ids_from bit (S n) = bit :: ids_from (bit + 1) n.
Proof. intros. unfold ids_from. cbn [seq map]. rewrite Z2Nat.id, Z2Nat.inj_add by lia. do 3 f_equal. lia. Qed.

(** The loop over the pending bits delivers those that are open and keeps the others. *)
Lemma resend_bits_spec n : forall bit pending f s h, msix_rel f s -> 0 <= bit -> bit + Z.of_nat n <= 32 ->
  exists f', resend_bits n 0 bit pending f h =
      (f', send_all (map s.(mx_entry) (filter (fun id => Z.testbit pending id && mx_open s id = true) (ids_from bit n))) h) /\
    msix_rel f' (set_pending (fun id => s.(mx_pending) id || ((bit <=? id) && (id <? bit + Z.of_nat n) && Z.testbit pending id && negb (mx_open s id))) s).
Proof.
  induction n as [|n IH]; intros bit pending f s h R Hb Hn.
  { exists f. split; [reflexivity|]. destruct R as [H1 H2 H3 H4 H5 H6]. split; auto. intros id Hid. cbn [set_pending mx_pending]. rewrite <- H5 by lia.
    destruct (Z.leb_spec bit id), (Z.ltb_spec id (bit + Z.of_nat 0)); cbn [andb]; rewrite ?orb_false_r; auto; lia. }
  rewrite ids_from_S by lia. cbn [resend_bits]. rewrite testbit_nz, Z.shiftl_0_l, Z.lor_0_l by lia. rewrite filter_cons.
  destruct (Z.testbit pending bit) eqn:Eb; cbn [andb].
  - rewrite (send_msix_spec f s bit h R) by lia. destruct (mx_open s bit) eqn:Eo.
    + destruct (IH (bit + 1) pending f s (rvvm_send_msi_irq (s.(mx_entry) bit).1 (s.(mx_entry) bit).2 h) R ltac:(lia) ltac:(lia)) as (f' & E & R').
      exists f'. split; [exact E|]. destruct R' as [H1 H2 H3 H4 H5 H6]. split; auto. cbn in *. intros id Hid. rewrite <- H5 by lia. f_equal.
      destruct (Z.eq_dec id bit) as [->|]; [rewrite Eo; cbn; rewrite !andb_false_r; reflexivity|].
      f_equal. f_equal. destruct (Z.leb_spec bit id), (Z.leb_spec (bit + 1) id), (Z.ltb_spec id (bit + Z.of_nat (S n))), (Z.ltb_spec id (bit + 1 + Z.of_nat n)); try reflexivity; lia.
    + set (f1 := set_pf_msix _ f). set (s1 := set_pending (fun id => s.(mx_pending) id || (id =? bit)) s).
      assert (R1 : msix_rel f1 s1).
      { apply rel_pending; [exact R| |].
        - apply urange_lor; [lia|apply (mr_words f s R)|split; [apply Z.pow_nonneg; lia|apply Z.pow_lt_mono_r; lia]].
        - intros id Hid. rewrite Z.lor_spec, testbit_pow2, (mr_pending f s R) by lia. reflexivity. }
      destruct (IH (bit + 1) pending f1 s1 h R1 ltac:(lia) ltac:(lia)) as (f' & E & R').
      exists f'. split; [exact E|]. destruct R' as [H1 H2 H3 H4 H5 H6]. split; auto. cbn in *. intros id Hid. rewrite <- H5 by lia.
      change (mx_open s1 id) with (mx_open s id). rewrite <- orb_assoc. f_equal.
      destruct (Z.eqb_spec id bit) as [->|].
      { rewrite Eb, Eo. rewrite Z.leb_refl, (proj2 (Z.ltb_lt bit _)) by lia. reflexivity. }
      cbn. f_equal. f_equal. destruct (Z.leb_spec bit id), (Z.leb_spec (bit + 1) id), (Z.ltb_spec id (bit + Z.of_nat (S n))), (Z.ltb_spec id (bit + 1 + Z.of_nat n)); try reflexivity; lia.
  - destruct (IH (bit + 1) pending f s h R ltac:(lia) ltac:(lia)) as (f' & E & R').
    exists f'. split; [exact E|]. destruct R' as [H1 H2 H3 H4 H5 H6]. split; auto. cbn in *. intros id Hid. rewrite <- H5 by lia. f_equal.
    destruct (Z.eq_dec id bit) as [->|]; [rewrite Eb; rewrite !andb_false_r; reflexivity|].
    f_equal. f_equal. destruct (Z.leb_spec bit id), (Z.leb_spec (bit + 1) id), (Z.ltb_spec id (bit + Z.of_nat (S n))), (Z.ltb_spec id (bit + 1 + Z.of_nat n)); try reflexivity; lia.
Qed.

Lemma filter_bool_ext {A} (p q : A -> bool) (l : list A) : (forall x, x ∈ l -> p x = q x) -> filter (fun x => p x = true) l = filter (fun x => q x = true) l.
Proof.
  induction l as [|x l IH]; intros Hl; [reflexivity|]. rewrite !filter_cons, (Hl x), IH; [reflexivity| |set_solver]. intros. apply Hl. set_solver.
Qed.

Lemma all_vectors_range id : id ∈ all_vectors -> 0 <= id < 32.
Proof. intros Hin. apply list_elem_of_fmap in Hin as (i & -> & Hi). apply elem_of_seq in Hi. lia. Qed.

(** Re-sending after a change of the masks is the flush of the specification. *)
Lemma update_msix_spec f s h : msix_rel f s ->
  exists f', pci_func_update_msix_mask f h = (f', send_all (msix_flush s).2 h) /\ msix_rel f' (msix_flush s).1.
Proof.
  intros R. unfold pci_func_update_msix_mask. rewrite (mr_control f s R). destruct (control_bits s.(mx_mask)) as (_ & _ & -> & _).
  assert (Hlist : forall p, (forall id, 0 <= id < 32 -> p id = s.(mx_pending) id) ->
    filter (fun id => p id && mx_open s id = true) (ids_from 0 32) = filter (fun id => s.(mx_pending) id && mx_open s id = true) all_vectors).
  { intros p Hp. change (ids_from 0 32) with all_vectors. apply (filter_bool_ext (fun id => p id && mx_open s id)). intros id Hin.
    rewrite Hp by (by apply all_vectors_range). reflexivity. }
  destruct s.(mx_mask) eqn:Em; cbn [negb].
  - exists f. unfold msix_flush, mx_open. rewrite Em. cbn [negb andb].
    assert (filter (fun id => s.(mx_pending) id && false = true) all_vectors = []) as ->.
    { clear. induction all_vectors as [|x l IH]; [reflexivity|]. rewrite filter_cons, andb_false_r. cbn. exact IH. }
    split; [reflexivity|]. destruct R as [H1 H2 H3 H4 H5 H6]. split; cbn; auto; try (rewrite H1, Em; reflexivity). intros id Hid. rewrite andb_true_r. auto.
  - change (Z.to_nat PCI_MSIX_PBA_SIZE) with 1%nat. cbn [resend_regs]. change (PCI_MSIX_TBL_SIZE + 0) with 128.
    destruct (nz (f.(pf_msix) 128)) eqn:Ep.
    + set (w := f.(pf_msix) 128) in *.
      assert (R0 : msix_rel (set_pf_msix (<[128 := 0]> f.(pf_msix)) f) (set_pending (fun _ => false) s)).
      { apply rel_pending; [exact R|by split|]. intros. by rewrite Z.testbit_0_l. }
      destruct (resend_bits_spec 32 0 w _ _ h R0 ltac:(lia) ltac:(lia)) as (f' & E & R').
      change (Z.of_nat 32) with 32 in *. rewrite E. exists f'. split.
      * f_equal. unfold msix_flush. cbn [snd]. f_equal. change (map (set_pending (fun _ => false) s).(mx_entry)) with (map s.(mx_entry)). f_equal.
        apply (Hlist (fun id => Z.testbit w id)). intros. symmetry. by apply (mr_pending f s R).
      * clear E Hlist. destruct R' as [H1 H2 H3 H4 H5 H6]. split; cbn in *; auto. intros id Hid. rewrite <- H5 by lia.
        rewrite (mr_pending f s R) by lia. change (mx_open (set_pending (fun _ => false) s) id) with (mx_open s id).
        destruct (Z.leb_spec 0 id), (Z.ltb_spec id (0 + 32)); try lia. reflexivity.
    + exists f. assert (E0 : f.(pf_msix) 128 = 0). { unfold nz in Ep. destruct (Z.eqb_spec (f.(pf_msix) 128) 0); [done|discriminate]. }
      assert (Hp : forall id, 0 <= id < 32 -> s.(mx_pending) id = false) by (intros; rewrite (mr_pending f s R), E0 by lia; apply Z.testbit_0_l).
      unfold msix_flush. cbn [fst snd]. rewrite <- (Hlist (fun _ => false)) by (intros; symmetry; auto). cbn [andb].
      split; [reflexivity|]. destruct R as [H1 H2 H3 H4 H5 H6]. split; cbn; auto; try (rewrite H1, Em; reflexivity). intros id Hid. rewrite Hp, E0, Z.testbit_0_l by lia. reflexivity.
Qed.

Lemma flush_rest s : msix_rest (msix_flush s).1.
Proof.
  intros id _. unfold msix_flush, mx_open. cbn. destruct (s.(mx_pending) id), (s.(mx_mask)), (s.(mx_vmask) id); cbn; done.
Qed.

Lemma flush_idle s : msix_rest s -> (msix_flush s).2 = [] /\ forall id, 0 <= id < 32 -> (msix_flush s).1.(mx_pending) id = s.(mx_pending) id.
Proof.
  intros Hr. split.
  - unfold msix_flush. cbn [snd]. rewrite (filter_bool_ext (fun id => s.(mx_pending) id && mx_open s id) (fun _ => false)).
    { clear. induction all_vectors as [|x l IH]; [reflexivity|]. rewrite filter_cons. cbn. exact IH. }
    intros id Hid. apply all_vectors_range in Hid. specialize (Hr id Hid). destruct (s.(mx_pending) id); [rewrite Hr; auto|reflexivity].
  - intros id Hid. specialize (Hr id Hid). unfold msix_flush. cbn. destruct (s.(mx_pending) id); [rewrite Hr; auto|reflexivity].
Qed.

Lemma lower_msix_spec f s id : msix_rel f s -> 0 <= id < 32 ->
  exists f', pci_func_lower_msix_irq f id = (f', true) /\ msix_rel f' (set_pending (<[id := false]> s.(mx_pending)) s).
Proof.
  intros R Hid. unfold pci_func_lower_msix_irq. rewrite (mr_control f s R). destruct (control_bits s.(mx_mask)) as (-> & _).
  change PCI_MSIX_MAX_IRQS with 32. rewrite (proj2 (Z.ltb_lt id 32)), shr5 by lia. change (PCI_MSIX_TBL_SIZE + 0) with 128.
  assert (Hb : bit_set32 id = 2 ^ id).
  { unfold bit_set32. rewrite bit32, Z.shiftl_1_l by lia. apply wrap_small. split; [apply Z.pow_nonneg; lia|apply Z.pow_lt_mono_r; lia]. }
  assert (Hbit : forall j, 0 <= j -> Z.testbit (f.(pf_msix) 128 .& 2 ^ id) j = (j =? id) && Z.testbit (f.(pf_msix) 128) id).
  { intros j Hj. rewrite Z.land_spec, testbit_pow2 by lia. destruct (Z.eqb_spec j id) as [->|]; cbn; [apply andb_true_r|apply andb_false_r]. }
  rewrite Hb. destruct (nz (f.(pf_msix) 128 .& 2 ^ id)) eqn:Ew; eexists; (split; [reflexivity|]).
  - apply rel_pending; [exact R| |].
    + apply urange_land_l; [lia|]. apply (mr_words f s R).
    + intros j Hj. autorewrite with zbits. rewrite (proj2 (Z.ltb_lt j 32)) by lia. cbn [andb].
      destruct (decide (j = id)) as [->|Hne]; [rewrite fupd_eq, Z.eqb_refl; cbn; by rewrite andb_false_r|].
      rewrite fupd_ne, (proj2 (Z.eqb_neq j id)) by lia. cbn. rewrite andb_true_r. by apply (mr_pending f s R).
  - assert (Hz : Z.testbit (f.(pf_msix) 128) id = false).
    { specialize (Hbit id ltac:(lia)). rewrite Z.eqb_refl in Hbit. cbn in Hbit. rewrite <- Hbit.
      unfold nz in Ew. destruct (Z.eqb_spec (f.(pf_msix) 128 .& 2 ^ id) 0) as [->|]; [apply Z.testbit_0_l|discriminate]. }
    destruct R as [H1 H2 H3 H4 H5 H6]. split; auto. cbn. intros j Hj.
    destruct (decide (j = id)) as [->|Hne]; [rewrite fupd_eq; auto|rewrite fupd_ne by lia; auto].
Qed.

(** Writing a word of the table. *)
Lemma rel_entry f s reg val : msix_rel f s -> 0 <= reg < 128 -> urange 32 val ->
  msix_rel (set_pf_msix (<[reg := val]> f.(pf_msix)) f)
    (mk_msix s.(mx_mask) (if (reg .& 3) =? 3 then <[reg .>> 2 := nz (val .& 1)]> s.(mx_vmask) else s.(mx_vmask))
             s.(mx_pending) (<[reg .>> 2 := set_entry reg val (s.(mx_entry) (reg .>> 2))]> s.(mx_entry))).
Proof.
  intros [H1 H2 H3 H4 H5 H6] Hr Hv.
  assert (Hd : reg = 4 * (reg .>> 2) + (reg .& 3) /\ 0 <= reg .& 3 < 4 /\ 0 <= reg .>> 2 < 32).
  { rewrite Z.shiftr_div_pow2 by lia. change 3 with (Z.ones 2). rewrite Z.land_ones by lia. change (2 ^ 2) with 4. dlia. }
  set (q := reg .>> 2) in *. set (r := reg .& 3) in *. destruct Hd as (Er & Hr4 & Hq). clearbody q.
  split; cbn [set_pf_msix pf_msix pf_msix_control pf_command mx_mask mx_vmask mx_pending mx_entry]; auto.
  - intros i. destruct (decide (i = reg)) as [->|]; [by rewrite fupd_eq|by rewrite fupd_ne].
  - intros id Hid. destruct (Z.eqb_spec r 3) as [E3|E3].
    + destruct (decide (id = q)) as [->|Hne]; [rewrite fupd_eq; replace (4 * q + 3) with reg by lia; by rewrite fupd_eq|].
      rewrite !fupd_ne by lia. auto.
    + rewrite fupd_ne by lia. auto.
  - intros id Hid. rewrite fupd_ne by lia. auto.
  - intros id Hid. destruct (decide (id = q)) as [->|Hne].
    2: { rewrite !fupd_ne by lia. auto. }
    rewrite fupd_eq, (H6 q Hq). unfold set_entry. fold r. cbn [fst snd].
    pose proof (H3 (4 * q)) as W0. pose proof (H3 (4 * q + 1)) as W1.
    destruct (Z.eqb_spec r 0) as [E0|E0]; [|destruct (Z.eqb_spec r 1) as [E1|E1]; [|destruct (Z.eqb_spec r 2) as [E2|E2]]].
    + replace reg with (4 * q) by lia. rewrite fupd_eq, !fupd_ne by lia. f_equal. rewrite (Z.lor_comm val). f_equal.
      apply Z.bits_inj'. intros i Hi. autorewrite with zbits. destruct (Z.ltb_spec i 32).
      * rewrite (Z.testbit_neg_r (_ .>> 32)), (Z.testbit_neg_r (_ (4 * q + 1))) by lia. reflexivity.
      * rewrite testbit_shiftr by lia. autorewrite with zbits. replace (i - 32 + 32) with i by lia. rewrite (testbit_above 32 _ i W0) by lia. reflexivity.
    + replace (<[reg := val]> f.(pf_msix) (4 * q + 1)) with val by (replace reg with (4 * q + 1) by lia; by rewrite fupd_eq).
      rewrite !fupd_ne by lia. f_equal. f_equal.
      apply Z.bits_inj'. intros i Hi. autorewrite with zbits. destruct (Z.ltb_spec i 32); cbn.
      * rewrite (Z.testbit_neg_r (_ (4 * q + 1))) by lia. apply orb_false_r.
      * rewrite (testbit_above 32 _ i W0) by lia. reflexivity.
    + replace (<[reg := val]> f.(pf_msix) (4 * q + 2)) with val by (replace reg with (4 * q + 2) by lia; by rewrite fupd_eq).
      rewrite !fupd_ne by lia. reflexivity.
    + rewrite !fupd_ne by lia. reflexivity.
Qed.

Lemma rel_ext f s s' : msix_rel f s -> s'.(mx_mask) = s.(mx_mask) -> s'.(mx_vmask) = s.(mx_vmask) -> s'.(mx_entry) = s.(mx_entry) ->
  (forall id, 0 <= id < 32 -> s'.(mx_pending) id = s.(mx_pending) id) -> msix_rel f s'.
Proof. intros [H1 H2 H3 H4 H5 H6] E1 E2 E3 E4. split; rewrite ?E1, ?E2, ?E3; auto. intros id Hid. rewrite E4; auto. Qed.

(** Where no vector was opened nothing is to be re-sent. *)
Lemma flush_none f s h : msix_rel f s -> msix_rest s -> h = send_all (msix_flush s).2 h /\ msix_rel f (msix_flush s).1.
Proof.
  intros R Hr. destruct (flush_idle s Hr) as [-> Hp]. split; [reflexivity|]. by apply (rel_ext f s).
Qed.

Lemma msix_step devs b e f s h : msix_event_ok e -> msix_rel f s -> msix_rest s ->
  exists f', msix_code devs b e f h = (f', send_all (msix_spec e s).2 h) /\ msix_rel f' (msix_spec e s).1 /\ msix_rest (msix_spec e s).1.
Proof.
  intros He R Hr. destruct e as [id|id|reg val|on]; cbn [msix_code msix_spec msix_event_ok] in *.
  - unfold pci_raise_irq. rewrite (send_msix_spec f s id h R) by lia. destruct (mx_open s id) eqn:Eo; [eauto|].
    eexists. split; [reflexivity|]. split.
    + apply rel_pending; [exact R| |].
      * apply urange_lor; [lia|apply (mr_words f s R)|split; [apply Z.pow_nonneg; lia|apply Z.pow_lt_mono_r; lia]].
      * intros j Hj. rewrite Z.lor_spec, testbit_pow2, <- (mr_pending f s R) by lia.
        destruct (decide (j = id)) as [->|]; [by rewrite fupd_eq, Z.eqb_refl, orb_true_r|].
        rewrite fupd_ne, (proj2 (Z.eqb_neq j id)) by lia. by rewrite orb_false_r.
    + intros j Hj. cbn. destruct (decide (j = id)) as [->|]; [auto|]. rewrite fupd_ne by lia. by apply Hr.
  - unfold pci_lower_irq. destruct (lower_msix_spec f s id R ltac:(lia)) as (f' & -> & R'). exists f'. split_and!; [reflexivity|exact R'|].
    intros j Hj. cbn. destruct (decide (j = id)) as [->|]; [by rewrite fupd_eq|]. rewrite fupd_ne by lia. by apply Hr.
  - destruct He as [Hreg Hval]. unfold pci_msix_bar_write.
    replace ((4 * reg) .>> 2) with reg by (rewrite Z.shiftr_div_pow2, Z.mul_comm by lia; symmetry; apply Z.div_mul; lia).
    change PCI_MSIX_TBL_SIZE with 128. rewrite (proj2 (Z.ltb_lt reg 128)) by lia. cbn [andb].
    pose proof (rel_entry f s reg val R Hreg Hval) as R1. set (s1 := mk_msix _ _ _ _) in *. set (f1 := set_pf_msix _ f) in *.
    assert (Hq : (reg .& 3) = 3 -> 0 <= reg .>> 2 < 32 /\ reg = 4 * (reg .>> 2) + 3).
    { rewrite Z.shiftr_div_pow2 by lia. change 3 with (Z.ones 2) at 1. rewrite Z.land_ones by lia. change (2 ^ 2) with 4. dlia. }
    assert (Hs1 : (reg .& 3 = 3 -> nz (val .& 1) = false -> nz (f.(pf_msix) reg .& 1) = false) -> msix_rest s1).
    { intros Hu id Hid Hp. specialize (Hr id Hid Hp). unfold mx_open, s1 in *. cbn in *. destruct (Z.eqb_spec (reg .& 3) 3) as [E3|]; [|exact Hr].
      destruct (decide (id = reg .>> 2)) as [->|]; [|rewrite fupd_ne by done; exact Hr]. rewrite fupd_eq. destruct (Hq E3) as [Hq1 Hq2].
      specialize (Hu E3). rewrite (mr_vmask f s R) in Hr by lia. replace (4 * (reg .>> 2) + 3) with reg in Hr by lia.
      destruct (nz (val .& 1)); [by rewrite andb_false_r|]. by rewrite Hu in Hr. }
    destruct (Z.eqb_spec (reg .& 3) 3) as [E3|E3]; cbn [andb].
    2: { destruct (flush_none f1 s1 h R1) as [Eh R2]; [apply Hs1; intros; contradiction|]. exists f1. split; [by rewrite <- Eh|]. split; [exact R2|apply flush_rest]. }
    destruct (nz (val .& 1)) eqn:Ev; cbn [negb].
    { destruct (flush_none f1 s1 h R1) as [Eh R2]; [apply Hs1; intros; discriminate|]. exists f1. split; [by rewrite <- Eh|]. split; [exact R2|apply flush_rest]. }
    destruct (nz (f.(pf_msix) reg .& 1)) eqn:Eo.
    + destruct (update_msix_spec f1 s1 h R1) as (f' & -> & R2). exists f'. split; [reflexivity|]. split; [exact R2|apply flush_rest].
    + destruct (flush_none f1 s1 h R1) as [Eh R2]; [by apply Hs1|]. exists f1. split; [by rewrite <- Eh|]. split; [exact R2|apply flush_rest].
  - unfold pci_func_write. change (PCI_REG_MSIX =? PCI_REG_STATUS_CMD) with false. cbn [andb].
    change ((PCI_REG_BAR0 <=? PCI_REG_MSIX) && (PCI_REG_MSIX <=? PCI_REG_BAR5)) with false.
    change (PCI_REG_MSIX =? PCI_REG_EXPANSION_ROM) with false. change (PCI_REG_MSIX =? PCI_REG_IRQ_PIN_LINE) with false.
    change (PCI_REG_MSIX =? PCI_REG_PMCSR) with false. change (PCI_REG_MSIX =? PCI_REG_MSI) with false.
    change (PCI_REG_MSIX =? PCI_REG_MSI_AL) with false. change (PCI_REG_MSIX =? PCI_REG_MSI_AH) with false.
    change (PCI_REG_MSIX =? PCI_REG_MSI_DATA) with false. change (PCI_REG_MSIX =? PCI_REG_MSI_MASK) with false.
    change (PCI_REG_MSIX =? PCI_REG_MSIX) with true. cbv iota zeta.
    destruct (control_bits on) as (_ & Eon & _ & ->). rewrite (mr_control f s R). destruct (control_bits s.(mx_mask)) as (_ & -> & _ & _). rewrite Eon.
    set (s1 := mk_msix on s.(mx_vmask) s.(mx_pending) s.(mx_entry)). set (f1 := set_pf_msix_control _ f).
    assert (R1 : msix_rel f1 s1) by (destruct R as [H1 H2 H3 H4 H5 H6]; split; auto).
    assert (Hs1 : (s.(mx_mask) = false \/ on = true) -> msix_rest s1).
    { intros Hor id Hid Hp. specialize (Hr id Hid Hp). unfold mx_open, s1 in *. cbn. destruct Hor as [E|E]; [|by rewrite E]. rewrite E in Hr. cbn in Hr. rewrite Hr. apply andb_false_r. }
    destruct (s.(mx_mask)) eqn:Em, on; cbn [negb andb].
    2: { destruct (update_msix_spec f1 s1 h R1) as (f' & -> & R2). exists f'. split; [reflexivity|]. split; [exact R2|apply flush_rest]. }
    all: destruct (flush_none f1 s1 h R1) as [Eh R2]; [by apply Hs1; auto|]; exists f1; split; [by rewrite <- Eh|]; split; [exact R2|apply flush_rest].
Qed.

Fixpoint msix_run (l : list msix_event) (s : msix_state) : msix_state * list (Z * Z) :=
  match l with
  | [] => (s, [])
  | e :: l => let '(s, out) := msix_spec e s in let '(s, rest) := msix_run l s in (s, out ++ rest)
  end.

Definition msix_code_run (devs : list (nat * mmio_dev)) (b : pci_bus) (l : list msix_event) (f : pci_func) (h : H) : pci_func * H :=
  foldl (fun x e => msix_code devs b e x.1 x.2) (f, h) l.

(** C12: Message-signalled interrupts of a function with MSI-X enabled.  For any sequence of
    interrupts raised and lowered by the device and of writes of the driver to the table and
    to the control register, the messages the code sends are those of the abstract device, in
    their order: an interrupt on a vector that is open is sent at once, one that is masked, by
    itself or with the function, is kept and sent once when it is opened, unless the device
    lowers it before; afterwards no vector that is open is pending. *)
Theorem msix_refines devs b l f s h : Forall msix_event_ok l -> msix_rel f s -> msix_rest s ->
  let '(s', out) := msix_run l s in
  let '(f', h') := msix_code_run devs b l f h in
  h' = send_all out h /\ msix_rel f' s' /\ msix_rest s'.
Proof.
  unfold msix_code_run. revert f s h. induction l as [|e l IH]; intros f s h Hl R Hr; [by cbn|].
  pose proof (Forall_inv Hl) as He. pose proof (Forall_inv_tail Hl) as Hl'. cbn [msix_run foldl fst snd]. destruct (msix_step devs b e f s h He R Hr) as (f1 & E & R1 & Hr1).
  cbn [fst snd]. rewrite E. destruct (msix_spec e s) as [s1 out]. cbn [fst snd] in *. specialize (IH f1 s1 (send_all out h) Hl' R1 Hr1).
  destruct (msix_run l s1) as [s' rest]. destruct (foldl _ _ l) as [f' h']. destruct IH as (-> & R' & Hr'). split_and!; auto.
  unfold send_all. by rewrite foldl_app.
Qed.

End msix.

(** A host that writes down what it receives: lines with their level, and messages. *)
#[export] Instance pci_log : PciHost (list (Z * bool) * list (Z * Z)) := {|
  rvvm_irq_set := fun irq lvl h => (h.1 ++ [(irq, lvl)], h.2);
  rvvm_send_msi_irq := fun addr data h => (h.1, h.2 ++ [(addr, data)])
|}.

Definition demo_ids : pci_ids := mk_ids 0x1F31 0x4512 0x0108 0x10DC 0x5100 0 2 0 PCI_IRQ_PIN_INTA.
Definition demo_func : pci_func := mk_func 8 demo_ids (fun _ => None) None PCI_CMD_DEFAULT 0 0 0 0 0 0 0 0 0 0 0 PCI_MSIX_ENABLED 4 (fun r => if (0 <=? r) && (r <? 128) then 100 + r else 0).
Definition demo_bus : pci_bus := mk_pci_bus 0 [] (fun i => 10 + i) 0x03000000 0x10000 0x40000000 0x40000000.
Definition demo_msix : msix_state := mk_msix false (fun id => nz ((100 + (4 * id + 3)) .& 1)) (fun _ => false)
  (fun id => ((100 + 4 * id) .| ((100 + (4 * id + 1)) .<< 32), 100 + (4 * id + 2))).
Definition demo_events : list msix_event := [MsixRaise 3; MsixRaise 5; MsixEntry 23 0; MsixMask true; MsixRaise 5; MsixEntry 15 0; MsixLower 3; MsixMask false].

Lemma demo_msix_rel : msix_rel demo_func demo_msix /\ msix_rest demo_msix.
Proof.
  split; [|by intros id ? ?]. split; try done.
  - intros r. cbn. destruct (Z.leb_spec 0 r), (Z.ltb_spec r 128); cbn; split; lia.
  - intros id Hid. cbn. rewrite (proj2 (Z.leb_le 0 _)), (proj2 (Z.ltb_lt _ 128)) by lia. done.
  - intros id Hid. cbn. by rewrite Z.testbit_0_l.
  - intros id Hid. cbn. rewrite !(proj2 (Z.leb_le 0 _)), !(proj2 (Z.ltb_lt _ 128)) by lia. done.
Qed.

Lemma msix_refines_witness :
  let out := (msix_run demo_events demo_msix).2 in
  out = [(120 .| (121 .<< 32), 122); (120 .| (121 .<< 32), 122)] /\ (msix_code_run [] demo_bus demo_events demo_func ([], [])).2 = ([], out).
Proof.
  destruct demo_msix_rel as [R Hr]. pose proof (msix_refines [] demo_bus demo_events demo_func demo_msix ([], []) ltac:(repeat constructor; vm_compute; discriminate) R Hr) as T.
  split; [vm_compute; reflexivity|]. destruct (msix_run demo_events demo_msix) as [s' out] eqn:E.
  destruct (msix_code_run [] demo_bus demo_events demo_func ([], [])) as [f' h']. destruct T as (-> & _). vm_compute in E. injection E as _ <-. vm_compute. reflexivity.
Defined.

(** ** Placing of regions *)

Lemma next_pow2_pow2 k : 0 <= k < 64 -> bit_next_pow2 (2 ^ k) = 2 ^ k.
Proof.
  intros Hk. unfold bit_next_pow2. assert (2 ^ k < 2 ^ 64) by (apply Z.pow_lt_mono_r; lia). pose proof (pow2_pos k ltac:(lia)).
  rewrite wrap_small by (split; lia). replace (2 ^ k - 1) with (Z.ones k) by (rewrite Z.ones_equiv; lia).
  rewrite Z.land_ones, Z.mod_same by lia. reflexivity.
Qed.

(** The address a memory register gives a region of [2^k] bytes, by its bits. *)
Definition aligned_to (k x : Z) : Z := x .& u64 (Z.lnot (u64 (bit_next_pow2 (2 ^ k) - 1))).

Lemma testbit_aligned k x i : 0 <= k < 64 -> urange 64 x -> 0 <= i -> Z.testbit (aligned_to k x) i = (k <=? i) && Z.testbit x i.
Proof.
  intros Hk Hx Hi. unfold aligned_to. rewrite next_pow2_pow2 by lia. replace (2 ^ k - 1) with (Z.ones k) by (rewrite Z.ones_equiv; lia).
  autorewrite with zbits. destruct (Z.ltb_spec i 64); cbn [andb].
  - destruct (Z.ltb_spec i k), (Z.leb_spec k i); try lia; cbn; rewrite ?andb_false_r, ?andb_true_r; reflexivity.
  - rewrite (testbit_above 64 x i) by (done || lia). cbn. by rewrite andb_false_r.
Qed.

Lemma urange_aligned k x : urange 64 x -> urange 64 (aligned_to k x).
Proof. intros. apply urange_land_l; [lia|done]. Qed.

Ltac side := first [done | lia | by apply wrap_range | by apply urange_aligned, urange_bit_replace64 | by apply urange_bit_replace64 | by apply urange_aligned | unfold urange in *; lia].

Lemma testbit_flags i : 0 <= i < 32 -> Z.testbit (u32 (Z.lnot 0xFFF)) i = (12 <=? i).
Proof.
  intros. change (u32 (Z.lnot 0xFFF)) with (u32 (Z.lnot (Z.ones 12))). autorewrite with zbits.
  destruct (Z.ltb_spec i 32), (Z.ltb_spec i 12), (Z.leb_spec 12 i); try lia; reflexivity.
Qed.

Lemma testbit_bar_low k a lo i : 12 <= k < 64 -> urange 64 a -> urange 32 lo -> 0 <= i ->
  Z.testbit (aligned_to k (bit_replace64 a 0 32 (lo .& u32 (Z.lnot 0xFFF)))) i = (k <=? i) && (if i <? 32 then Z.testbit lo i else Z.testbit a i).
Proof.
  intros Hk Ha Hlo Hi. rewrite testbit_aligned by side. destruct (Z.leb_spec k i); [|reflexivity]. cbn [andb].
  rewrite testbit_bit_replace64 by side. rewrite (proj2 (Z.leb_le 0 i)) by lia. cbn [andb]. change (0 + 32) with 32.
  destruct (Z.ltb_spec i 32); [|reflexivity]. rewrite Z.sub_0_r, Z.land_spec, testbit_flags, (proj2 (Z.leb_le 12 i)) by lia. apply andb_true_r.
Qed.

Lemma testbit_bar_high k a hi i : 12 <= k < 64 -> urange 64 a -> urange 32 hi -> 0 <= i ->
  Z.testbit (aligned_to k (bit_replace64 a 32 32 hi)) i = (k <=? i) && (if i <? 32 then Z.testbit a i else Z.testbit hi (i - 32)).
Proof.
  intros Hk Ha Hhi Hi. rewrite testbit_aligned by side. f_equal. rewrite testbit_bit_replace64 by side.
  change (32 + 32) with 64. destruct (Z.leb_spec 32 i), (Z.ltb_spec i 32), (Z.ltb_spec i 64); try lia; cbn [andb]; auto.
  rewrite (testbit_above 64 a i), (testbit_above 32 hi (i - 32)) by side. reflexivity.
Qed.

Lemma testbit_mult k A i : 0 <= k -> A mod 2 ^ k = 0 -> 0 <= i < k -> Z.testbit A i = false.
Proof. intros Hk HA Hi. rewrite <- (Z.mod_pow2_bits_low A k i), HA by lia. apply Z.testbit_0_l. Qed.

(** Both halves written, or the low half of a register of 32 bits. *)
Lemma bar_placed_64 k a A : 12 <= k < 64 -> urange 64 a -> urange 64 A -> A mod 2 ^ k = 0 ->
  aligned_to k (bit_replace64 (aligned_to k (bit_replace64 a 0 32 (u32 A .& u32 (Z.lnot 0xFFF)))) 32 32 (A .>> 32)) = A.
Proof.
  intros Hk Ha HA HAk. assert (Hhi : urange 32 (A .>> 32)). { destruct HA. split; [by apply Z.shiftr_nonneg|]. rewrite Z.shiftr_div_pow2 by lia. apply Z.div_lt_upper_bound; lia. }
  apply Z.bits_inj'. intros i Hi. rewrite testbit_bar_high by side. rewrite testbit_bar_low by side.
  destruct (Z.leb_spec k i); cbn [andb]; [|symmetry; apply (testbit_mult k); auto; lia].
  autorewrite with zbits. destruct (Z.ltb_spec i 32); cbn [andb]; [reflexivity|]. rewrite testbit_shiftr by lia. f_equal. lia.
Qed.

Lemma bar_placed_32 k a A : 12 <= k < 64 -> urange 32 a -> urange 32 A -> A mod 2 ^ k = 0 ->
  aligned_to k (bit_replace64 a 0 32 (u32 A .& u32 (Z.lnot 0xFFF))) = A.
Proof.
  intros Hk Ha HA HAk. apply Z.bits_inj'. intros i Hi. rewrite testbit_bar_low by side. rewrite wrap_small by done.
  destruct (Z.leb_spec k i); cbn [andb]; [|symmetry; apply (testbit_mult k); auto; lia].
  destruct (Z.ltb_spec i 32); [reflexivity|]. by rewrite (testbit_above 32 a i), (testbit_above 32 A i) by side.
Qed.

(** All ones read back with the low bits clear. *)
Lemma bar_sized k a : 12 <= k < 32 -> urange 64 a -> u32 (aligned_to k (bit_replace64 a 0 32 (0xFFFFFFFF .& u32 (Z.lnot 0xFFF)))) = 2 ^ 32 - 2 ^ k.
Proof.
  intros Hk Ha. assert (2 ^ k < 2 ^ 32) by (apply Z.pow_lt_mono_r; lia). pose proof (pow2_pos k ltac:(lia)).
  assert (E : 2 ^ 32 - 2 ^ k = Z.ones (32 - k) .<< k).
  { rewrite Z.shiftl_mul_pow2, Z.ones_equiv, Z.mul_pred_l, <- Z.pow_add_r by lia. do 2 f_equal. lia. }
  rewrite E. apply Z.bits_inj'. intros i Hi. rewrite testbit_wrap, testbit_bar_low by side. autorewrite with zbits.
  destruct (Z.ltb_spec i 32); cbn [andb].
  - change 0xFFFFFFFF with (Z.ones 32). rewrite testbit_ones, (proj2 (Z.ltb_lt i 32)), andb_true_r by lia.
    destruct (Z.leb_spec k i); [|rewrite Z.testbit_neg_r by lia; reflexivity]. rewrite testbit_ones by lia. symmetry. apply Z.ltb_lt. lia.
  - rewrite testbit_ones by lia. symmetry. apply Z.ltb_ge. lia.
Qed.

Definition cfg_off (bus_addr reg : Z) : Z := (bus_addr .<< 12) .| reg.
Definition bar_reg (i : Z) : Z := PCI_REG_BAR0 + 4 * i.

Lemma bar_reg_cases (P : Z -> Prop) i : 0 <= i < 6 -> P 0 -> P 1 -> P 2 -> P 3 -> P 4 -> P 5 -> P i.
Proof. intros. assert (i = 0 \/ i = 1 \/ i = 2 \/ i = 3 \/ i = 4 \/ i = 5) as Hi by lia. destruct Hi as [->|[->|[->|[->|[->| ->]]]]]; assumption. Qed.

Lemma cfg_split a i : 0 <= a < 2 ^ 16 -> 0 <= i < 6 ->
  u32 (cfg_off a (bar_reg i) .>> 12) = a /\ (cfg_off a (bar_reg i) .& 0xFFC) = bar_reg i /\
  (PCI_REG_BAR0 <=? bar_reg i) && (bar_reg i <=? PCI_REG_BAR5) = true /\ (bar_reg i - PCI_REG_BAR0) .>> 2 = i.
Proof.
  intros Ha Hi. unfold cfg_off. rewrite Z.shiftr_lor, Z.land_lor_distr_l.
  assert (E : a .<< 12 .& 0xFFC = 0).
  { apply Z.bits_inj'. intros j Hj. rewrite Z.land_spec, Z.shiftl_spec, Z.testbit_0_l by lia. destruct (Z.ltb_spec j 12); [rewrite Z.testbit_neg_r by lia; reflexivity|].
    rewrite (testbit_above 12 0xFFC j) by (unfold urange; lia). apply andb_false_r. }
  rewrite E, Z.lor_0_l, Z.shiftr_shiftl_l, Z.sub_diag, Z.shiftl_0_r by lia.
  assert (F : bar_reg i .>> 12 = 0 /\ bar_reg i .& 0xFFC = bar_reg i /\ (PCI_REG_BAR0 <=? bar_reg i) && (bar_reg i <=? PCI_REG_BAR5) = true /\ (bar_reg i - PCI_REG_BAR0) .>> 2 = i).
  { revert i Hi. intros i Hi. pattern i. apply bar_reg_cases; [exact Hi|..]; by vm_compute. }
  destruct F as (-> & F2 & F3 & F4). rewrite Z.lor_0_r, wrap_small by (split; lia). auto.
Qed.

Lemma region_at_move devs r a r' : region_at (move_region r a devs) r' = if decide (r = r') then set_dev_addr a <$> region_at devs r' else region_at devs r'.
Proof.
  induction devs as [|[i d] devs IH]; cbn; [by destruct (decide (r = r'))|]. destruct (decide (i = r)) as [->|]; cbn; destruct (decide (r = r')); try case_decide; subst; try done; congruence.
Qed.

Lemma get_put_func b a f f' : pci_get_bus_func b a = Some f -> pci_get_bus_func (put_bus_func b a f') a = Some f'.
Proof.
  unfold pci_get_bus_func, pci_get_bus_device, put_bus_func. cbn. destruct (pci_bus_addr_valid a); [|done].
  rewrite list_lookup_alter_eq. destruct (pb_dev b !! _) as [[d|]|]; cbn; try done. unfold pci_get_device_func. cbn.
  destruct (a .& 7 <? PCI_DEV_FUNCS); [|done]. intros _. by rewrite fupd_eq.
Qed.

(** A write of a memory register, low or high half. *)
Lemma write_bar_mem {H} `{PciHost H} devs b a f i r d k val h : 0 <= a < 2 ^ 16 -> pci_get_bus_func b a = Some f -> 0 <= i < 6 ->
  (f.(pf_ids).(class_code) <> 0x0604 \/ i < 2) -> pci_effective_bar f i = Some r -> region_at devs r = Some d -> d.(dev_size) = 2 ^ k ->
  (pci_bar_is_upper_half f i = false -> nz ((f.(pf_ids).(bar_io_mask) .>> i) .& 1) = false) ->
  pci_bus_write devs b (cfg_off a (bar_reg i)) val h =
    (put_bus_func b a f,
     move_region r (aligned_to k (if pci_bar_is_upper_half f i then bit_replace64 d.(dev_addr) 32 32 val else bit_replace64 d.(dev_addr) 0 32 (val .& u32 (Z.lnot 0xFFF)))) devs, h).
Proof.
  intros Ha Hf Hi Hc He Hr Hs Hio. unfold pci_bus_write. destruct (cfg_split a i Ha Hi) as (-> & -> & Hrng & Hid). rewrite Hf.
  unfold pci_func_write. assert ((bar_reg i =? PCI_REG_STATUS_CMD) = false) as -> by (apply Z.eqb_neq; unfold bar_reg, PCI_REG_BAR0, PCI_REG_STATUS_CMD; lia).
  rewrite Hrng, Hid. unfold pci_write_bar.
  assert (negb (f.(pf_ids).(class_code) =? 0x0604) || (i <? 0x02) = true) as ->.
  { destruct Hc as [Hc|Hc]; [by rewrite (proj2 (Z.eqb_neq _ _) Hc)|]. rewrite (proj2 (Z.ltb_lt i 2) Hc). apply orb_true_r. }
  rewrite He, Hr, Hs. fold (aligned_to k). destruct (pci_bar_is_upper_half f i); [reflexivity|]. rewrite Hio by done. reflexivity.
Qed.

(** The type bits of a memory register in the PCI specification: 64-bit, and prefetchable,
    which the bus says of regions of 128 MiB and more. *)
Definition bar_type (wide : bool) (size : Z) : Z := (if wide then 4 else 0) + (if 0x8000000 <=? size then 8 else 0).

Lemma read_bar_mem devs b a f i r d : 0 <= a < 2 ^ 16 -> pci_get_bus_func b a = Some f -> 0 <= i < 6 ->
  (f.(pf_ids).(class_code) <> 0x0604 \/ i < 2) -> f.(pf_bar) i = Some r -> region_at devs r = Some d ->
  nz ((f.(pf_ids).(bar_io_mask) .>> i) .& 1) = false ->
  u32 d.(dev_addr) mod 2 ^ 4 = 0 ->
  pci_bus_read devs b (cfg_off a (bar_reg i)) = u32 d.(dev_addr) + bar_type (pci_bar_is_64bit f i) d.(dev_size).
Proof.
  intros Ha Hf Hi Hc He Hr Hio Hal. unfold pci_bus_read. destruct (cfg_split a i Ha Hi) as (-> & -> & Hrng & Hid). rewrite Hf.
  assert (Hreg : forall c, c < 16 -> (bar_reg i =? c) = false) by (intros; apply Z.eqb_neq; unfold bar_reg, PCI_REG_BAR0; lia).
  rewrite !Hreg by (vm_compute; reflexivity). assert ((bar_reg i =? PCI_REG_IRQ_PIN_LINE) = false) as -> by (apply Z.eqb_neq; unfold bar_reg, PCI_REG_BAR0, PCI_REG_IRQ_PIN_LINE; lia).
  rewrite Hrng, Hid. unfold pci_read_bar.
  assert (negb (f.(pf_ids).(class_code) =? 0x0604) || (i <? 0x02) = true) as ->.
  { destruct Hc as [Hc|Hc]; [by rewrite (proj2 (Z.eqb_neq _ _) Hc)|]. rewrite (proj2 (Z.ltb_lt i 2) Hc). apply orb_true_r. }
  assert (Hu : pci_bar_is_upper_half f i = false) by (unfold pci_bar_is_upper_half; rewrite He; by rewrite andb_false_r).
  unfold pci_effective_bar. rewrite Hu, He. cbn [mbind option_bind]. rewrite Hr, Hio.
  assert (Hor : forall c, 0 <= c < 2 ^ 4 -> u32 d.(dev_addr) .| c = u32 d.(dev_addr) + c).
  { intros c Hcr. assert (u32 (dev_addr d) = (u32 (dev_addr d) / 2 ^ 4) .<< 4) as ->.
    { rewrite Z.shiftl_mul_pow2 by lia. pose proof (Z.div_mod (u32 (dev_addr d)) (2 ^ 4) ltac:(lia)). lia. }
    rewrite Z.lor_comm, lor_shiftl_add by (unfold urange; lia). rewrite Z.shiftl_mul_pow2; lia. }
  unfold bar_type. change 0x8000000 with PCI_MAX_NONPREFETCH_BAR.
  destruct (pci_bar_is_64bit f i), (PCI_MAX_NONPREFETCH_BAR <=? d.(dev_size)); cbv zeta; rewrite <- ?Z.lor_assoc, ?Hor by (vm_compute; split; congruence); reflexivity || lia.
Qed.

Lemma mod_flags k x : 4 <= k -> x mod 2 ^ k = 0 -> x mod 2 ^ 4 = 0.
Proof.
  intros Hk Hx. apply Z.mod_divide; [lia|]. apply Z.mod_divide in Hx; [|apply Z.pow_nonzero; lia]. transitivity (2 ^ k); [|done].
  exists (2 ^ (k - 4)). rewrite <- Z.pow_add_r by lia. f_equal. lia.
Qed.

(** C15: A driver can size and place the memory regions of a function.  All ones written to a
    base address register of a region of [2^k] bytes, 4 KiB to 2 GiB, read back as the mask of
    its size with the type bits of the region; an aligned address written to the register, and to its upper half when it has
    one, is where the region is afterwards, and reads back with the type bits; no other region moves and no
    interrupt changes. *)
Theorem bar_sizing_placement {H} `{PciHost H} devs b a f i r d k A (h : H) :
  0 <= a < 2 ^ 16 -> pci_get_bus_func b a = Some f -> 0 <= i < 6 -> (f.(pf_ids).(class_code) <> 0x0604 \/ i < 1) ->
  f.(pf_bar) i = Some r -> region_at devs r = Some d -> urange 64 d.(dev_addr) -> d.(dev_size) = 2 ^ k -> 12 <= k < 32 ->
  nz ((f.(pf_ids).(bar_io_mask) .>> i) .& 1) = false ->
  A mod 2 ^ k = 0 -> (if pci_bar_is_64bit f i then urange 64 A else urange 32 A /\ urange 32 d.(dev_addr)) ->
  (let '(b1, devs1, h1) := pci_bus_write devs b (cfg_off a (bar_reg i)) 0xFFFFFFFF h in
   pci_bus_read devs1 b1 (cfg_off a (bar_reg i)) = 2 ^ 32 - 2 ^ k + bar_type (pci_bar_is_64bit f i) (2 ^ k) /\ h1 = h) /\
  (let '(b1, devs1, h1) := pci_bus_write devs b (cfg_off a (bar_reg i)) (u32 A) h in
   let '(b2, devs2, h2) := if pci_bar_is_64bit f i then pci_bus_write devs1 b1 (cfg_off a (bar_reg (i + 1))) (A .>> 32) h1 else (b1, devs1, h1) in
   region_at devs2 r = Some (set_dev_addr A d) /\ (forall r', r' <> r -> region_at devs2 r' = region_at devs r') /\
   pci_bus_read devs2 b2 (cfg_off a (bar_reg i)) = u32 A + bar_type (pci_bar_is_64bit f i) (2 ^ k) /\ h2 = h).
Proof.
  intros Ha Hf Hi Hc He Hr Hda Hs Hk Hio HA HA'.
  assert (Hc' : f.(pf_ids).(class_code) <> 0x0604 \/ i < 2) by (destruct Hc; [auto|right; lia]).
  assert (Hu : pci_bar_is_upper_half f i = false) by (unfold pci_bar_is_upper_half; rewrite He; by rewrite andb_false_r).
  assert (Heff : pci_effective_bar f i = Some r) by (unfold pci_effective_bar; by rewrite Hu).
  assert (Hmod : forall x, x mod 2 ^ k = 0 -> u32 x mod 2 ^ k = 0).
  { intros x Hx. unfold wrap. replace 32 with (k + (32 - k)) by lia. rewrite Z.pow_add_r, Z.rem_mul_r, Hx by lia. rewrite Z.add_0_l, Z.mul_comm. apply Z.mod_mul. apply Z.pow_nonzero; lia. }
  assert (Hget : forall b', pci_get_bus_func b' a = Some f -> pci_get_bus_func (put_bus_func b' a f) a = Some f) by (intros b' Hb'; by apply (get_put_func b' a f)).
  split.
  - rewrite (write_bar_mem devs b a f i r d k _ h Ha Hf Hi Hc' Heff Hr Hs (fun _ => Hio)), Hu. split; [|reflexivity].
    assert (Hsz : (2 ^ 32 - 2 ^ k) mod 2 ^ k = 0).
    { replace 32 with ((32 - k) + k) by lia. rewrite Z.pow_add_r by lia. replace (2 ^ (32 - k) * 2 ^ k - 2 ^ k) with ((2 ^ (32 - k) - 1) * 2 ^ k) by lia. apply Z.mod_mul. apply Z.pow_nonzero; lia. }
    erewrite (read_bar_mem _ _ a f i r _ Ha (Hget b Hf) Hi Hc' He); [|by rewrite region_at_move, decide_True, Hr by done|done|];
      cbn [set_dev_addr dev_addr dev_size]; rewrite bar_sized by done; [by rewrite Hs|by apply (mod_flags k); [lia|]].
  - rewrite (write_bar_mem devs b a f i r d k _ h Ha Hf Hi Hc' Heff Hr Hs (fun _ => Hio)), Hu.
    set (a1 := aligned_to k _). set (devs1 := move_region r a1 devs).
    assert (Hr1 : region_at devs1 r = Some (set_dev_addr a1 d)) by (unfold devs1; rewrite region_at_move, decide_True, Hr by done; done).
    assert (Ha1 : urange 64 a1) by (apply urange_aligned, urange_bit_replace64; done).
    destruct (pci_bar_is_64bit f i) eqn:E64.
    + pose proof E64 as E64'. unfold pci_bar_is_64bit in E64. rewrite He in E64. destruct (Z.ltb_spec (i + 1) PCI_FUNC_BARS) as [Hi1|]; [|discriminate]. cbn [andb] in E64. change PCI_FUNC_BARS with 6 in Hi1.
      assert (Hn : f.(pf_bar) (i + 1) = None) by (destruct (f.(pf_bar) (i + 1)); [discriminate|done]).
      assert (Hu1 : pci_bar_is_upper_half f (i + 1) = true).
      { unfold pci_bar_is_upper_half. rewrite Hn. replace (i + 1 - 1) with i by lia. rewrite He. unfold nz. by rewrite (proj2 (Z.eqb_neq (i + 1) 0)) by lia. }
      assert (Heff1 : pci_effective_bar f (i + 1) = Some r) by (unfold pci_effective_bar; rewrite Hu1; by replace (i + 1 - 1) with i by lia).
      rewrite (write_bar_mem devs1 _ a f (i + 1) r (set_dev_addr a1 d) k _ h Ha (Hget b Hf) ltac:(lia) ltac:(destruct Hc; [auto|right; lia]) Heff1 Hr1 Hs) by congruence.
      rewrite Hu1. cbn [set_dev_addr dev_addr]. unfold a1. rewrite bar_placed_64 by (done || lia). fold a1.
      assert (Hr2 : region_at (move_region r A devs1) r = Some (set_dev_addr A d)) by (rewrite region_at_move, decide_True, Hr1 by done; done).
      split_and!; [exact Hr2| | |reflexivity].
      * intros r' Hne. unfold devs1. by rewrite !region_at_move, !decide_False by done.
      * rewrite (read_bar_mem _ _ a f i r (set_dev_addr A d) Ha (Hget _ (Hget b Hf)) Hi Hc' He Hr2 Hio); cbn [set_dev_addr dev_addr dev_size]; [by rewrite Hs, E64'|]. apply (mod_flags k); [lia|by apply Hmod].
    + destruct HA' as [HA1 HA2]. assert (E1 : a1 = A) by (unfold a1; apply bar_placed_32; (done || lia)).
      split_and!; [by rewrite <- E1| | |reflexivity].
      * intros r' Hne. unfold devs1. by rewrite region_at_move, decide_False by done.
      * rewrite (read_bar_mem _ _ a f i r (set_dev_addr a1 d) Ha (Hget b Hf) Hi Hc' He Hr1 Hio); cbn [set_dev_addr dev_addr dev_size]; rewrite E1; [by rewrite Hs, E64|]. apply (mod_flags k); [lia|by apply Hmod].
Qed.

(** A function in slot 1 with a 64-bit region of 16 KiB. *)
Definition demo_bar_func : pci_func := set_pf_bar (<[0 := Some 7%nat]> (fun _ => None)) demo_func.
Definition demo_bar_devs : list (nat * mmio_dev) := [(7%nat, mk_mmio_dev 0x40000000 0x4000 0 None None 4 4); (8%nat, mk_mmio_dev 0x10000000 0x100 0 None None 1 8)].
Definition demo_bar_bus : pci_bus := set_pb_dev [None; Some (mk_pci_dev (<[0 := Some demo_bar_func]> (fun _ => None)) 8)] demo_bus.

Lemma bar_sizing_placement_witness :
  let '(b1, devs1, h1) := pci_bus_write demo_bar_devs demo_bar_bus (cfg_off 8 (bar_reg 0)) (u32 0x7C00008000) ([], []) in
  let '(b2, devs2, h2) := pci_bus_write devs1 b1 (cfg_off 8 (bar_reg 1)) (0x7C00008000 .>> 32) h1 in
  region_at devs2 7 = Some (mk_mmio_dev 0x7C00008000 0x4000 0 None None 4 4).
Proof.
  pose proof (bar_sizing_placement demo_bar_devs demo_bar_bus 8 demo_bar_func 0 7 (mk_mmio_dev 0x40000000 0x4000 0 None None 4 4) 14 0x7C00008000 ([], [])) as T.
  destruct T as [_ T]; [lia|reflexivity|lia|left; vm_compute; discriminate|reflexivity|reflexivity|split; vm_compute; congruence|reflexivity|lia|reflexivity|reflexivity|split; vm_compute; congruence|].
  change (pci_bar_is_64bit demo_bar_func 0) with true in T. cbv iota in T. change (bar_reg (0 + 1)) with (bar_reg 1) in T.
  destruct (pci_bus_write demo_bar_devs _ _ _ _) as [[b1 devs1] h1]. destruct (pci_bus_write devs1 _ _ _ _) as [[b2 devs2] h2]. destruct T as (-> & _). reflexivity.
Defined.

(** ** Slots and lines *)

Lemma addr_id a a' : 0 <= a -> 0 <= a' -> pci_bus_addr_valid a = true -> pci_bus_addr_valid a' = true ->
  pci_bus_addr_to_id_internal a = pci_bus_addr_to_id_internal a' -> a .>> 3 = a' .>> 3.
Proof.
  intros Ha Ha' Hv Hv'. unfold pci_bus_addr_to_id_internal, PCI_BUS_DEVS.
  assert (Hdev : forall x, 0 <= x -> pci_bus_addr_valid x = true -> (x <? 0x100) = false -> x .>> 3 = 32 * (x .>> 8)).
  { intros x Hx Hval Hlt. unfold pci_bus_addr_valid in Hval. rewrite Hlt in Hval. cbn [orb] in Hval. unfold nz in Hval. rewrite negb_involutive in Hval. apply Z.eqb_eq in Hval.
    rewrite !Z.shiftr_div_pow2 by lia. assert ((x / 8) mod 32 = 0).
    { change 0xF8 with (Z.ones 5 .<< 3) in Hval. apply (f_equal (fun y => y .>> 3)) in Hval. rewrite Z.shiftr_land, Z.shiftr_shiftl_l, Z.sub_diag, Z.shiftl_0_r, Z.land_ones, Z.shiftr_div_pow2 in Hval by lia. exact Hval. }
    change (2 ^ 8) with (8 * 32). rewrite <- Z.div_div by lia. dlia. }
  destruct (Z.ltb_spec a 0x100) as [Hl|Hl], (Z.ltb_spec a' 0x100) as [Hl'|Hl']; auto.
  - rewrite !Z.shiftr_div_pow2 by lia. dlia.
  - rewrite !Z.shiftr_div_pow2 by lia. dlia.
  - intros E. rewrite !Hdev by (done || (apply Z.ltb_ge; lia)). lia.
Qed.

Lemma id_nonneg a : 0 <= a -> 0 <= pci_bus_addr_to_id_internal a.
Proof. intros. unfold pci_bus_addr_to_id_internal, PCI_BUS_DEVS. assert (0 <= a .>> 8 /\ 0 <= a .>> 3) by (split; apply Z.shiftr_nonneg; lia). destruct (a <? 0x100); lia. Qed.

Lemma vector_put_lookup {A} (l : list (option A)) i v j : default None (vector_put l i v !! j) = if decide (i = j) then v else default None (l !! j).
Proof.
  unfold vector_put. case_decide as E.
  - subst j. rewrite list_lookup_insert_eq; [done|]. rewrite length_app, length_replicate. lia.
  - rewrite list_lookup_insert_ne by done. destruct (decide (j < length l)%nat); [by rewrite lookup_app_l|].
    rewrite lookup_app_r by lia. rewrite (lookup_ge_None_2 l j) by lia. cbn. destruct (replicate _ _ !! _) as [x|] eqn:Er; [|done].
    apply lookup_replicate in Er as [-> _]. done.
Qed.

(** The slots of the bus are a map by the address of a device: what was put is found by any
    function address of the device and nothing else changes; a slot that is taken refuses. *)
Lemma pci_slots b a d a' : 0 <= a -> 0 <= a' -> pci_bus_addr_valid a = true -> pci_bus_addr_valid a' = true ->
  let '(b', ok) := pci_set_bus_dev_internal b a (Some d) in
  ok = (match pci_get_bus_device b a with None => true | Some _ => false end) /\
  pci_get_bus_device b' a' = (if ok && bool_decide (pci_bus_addr_to_id_internal a = pci_bus_addr_to_id_internal a') then Some d else pci_get_bus_device b a') /\
  (pci_bus_addr_to_id_internal a = pci_bus_addr_to_id_internal a' -> a .>> 3 = a' .>> 3).
Proof.
  intros Ha Ha' Hv Hv'. unfold pci_set_bus_dev_internal, pci_get_bus_device. rewrite Hv, Hv'.
  pose proof (addr_id a a' Ha Ha' Hv Hv') as Hinj. pose proof (id_nonneg a Ha). pose proof (id_nonneg a' Ha').
  set (i := pci_bus_addr_to_id_internal a) in *. set (i' := pci_bus_addr_to_id_internal a') in *.
  assert (Hput : forall l, default None (vector_put l (Z.to_nat i) (Some d) !! Z.to_nat i') = if bool_decide (i = i') then Some d else default None (l !! Z.to_nat i')).
  { intros l. rewrite vector_put_lookup. destruct (decide (Z.to_nat i = Z.to_nat i')) as [E|E]; case_bool_decide; try done; lia. }
  destruct (b.(pb_dev) !! Z.to_nat i) as [[o|]|]; cbn; split_and!; auto.
Qed.

(** The property [interrupt-map] of the device tree: an entry for each line of four devices,
    with the cells of the interrupt controller. *)
Definition pci_irq_map (irqs : Z -> Z) (irq_cells : Z -> list Z) : list (Z * Z * list Z) :=
  flat_map (fun dev_id => map (fun irq_pin => (u32 (dev_id .<< 11), irq_pin, irq_cells (pci_bus_intx_irq irqs dev_id irq_pin))) [1; 2; 3; 4]) [0; 1; 2; 3].

(** How an operating system looks up a line of a function: by address and pin, masked with
    [interrupt-map-mask]. *)
Definition irq_map_lookup (l : list (Z * Z * list Z)) (bus_addr pin : Z) : option (list Z) :=
  snd <$> find (fun e => (e.1.1 =? (bus_addr .<< 8) .& 0x1800) && (e.1.2 =? pin .& 7)) l.

(** The lines a function raises are those the device tree announces. *)
Lemma pci_interrupt_map irqs irq_cells f : 0 <= f.(pf_addr) < 2 ^ 16 -> 1 <= f.(pf_ids).(irq_pin) <= 4 ->
  irq_map_lookup (pci_irq_map irqs irq_cells) f.(pf_addr) f.(pf_ids).(irq_pin) = Some (irq_cells (pci_func_intx_irq irqs f)).
Proof.
  intros Ha Hp. unfold pci_func_intx_irq, pci_bus_intx_irq. set (a := f.(pf_addr)) in *. set (p := f.(pf_ids).(irq_pin)) in *.
  assert (E : (a .<< 8) .& 0x1800 = (a .>> 3) mod 4 * 2048).
  { change 0x1800 with (Z.ones 2 .<< 11). change (a .<< 8) with (a .<< (11 + - 3)). rewrite <- Z.shiftl_shiftl by lia.
    replace ((a .>> 3) mod 4) with ((a .>> 3) .& Z.ones 2) by (rewrite Z.land_ones by lia; reflexivity). change 2048 with (2 ^ 11). rewrite <- (Z.shiftl_mul_pow2 _ 11) by lia. apply Z.bits_inj'. intros i Hi. autorewrite with zbits.
    destruct (Z.ltb_spec i 11); [rewrite !(Z.testbit_neg_r (Z.ones 2) (i - 11)) by lia; by rewrite !andb_false_r|].
    rewrite Z.shiftr_spec by lia. do 2 f_equal. lia. }
  assert (F : u32 ((a .>> 3) + p + 3) .& 3 = ((a .>> 3) mod 4 + p + 3) mod 4).
  { rewrite (Z.land_ones _ 2 ltac:(lia)). change (2 ^ 2) with 4. unfold wrap. change (2 ^ 32) with (4 * 2 ^ 30). rewrite Z.rem_mul_r by lia.
    rewrite (Z.mul_comm 4), Z.mod_add by lia. rewrite Z.mod_mod by lia. rewrite <- !Z.add_assoc. symmetry. apply Z.add_mod_idemp_l. lia. }
  unfold irq_map_lookup. rewrite E, F. pose proof (Z.mod_pos_bound (a .>> 3) 4 ltac:(lia)) as Hm. clear E F.
  assert (p = 1 \/ p = 2 \/ p = 3 \/ p = 4) as Hp' by lia. set (r := (a .>> 3) mod 4) in *. clearbody r p.
  assert (r = 0 \/ r = 1 \/ r = 2 \/ r = 3) as Hr' by lia.
  destruct Hp' as [->|[->|[->| ->]]], Hr' as [->|[->|[->| ->]]]; reflexivity.
Qed.

(** ** Unplugging *)

Section unplug.
Context {P : Platform} {HP : PlatformOk P}.

(** A machine that is stopped, with some of its regions gone and the others as they were. *)
Definition stopped_without (h : nat) (m : vmm) (gone : nat -> Prop) (w : world) : Prop :=
  winv w /\ exists m', w.(w_store) !! h = Some m' /\ m'.(v_running) = false /\ m'.(v_mem) = m.(v_mem) /\
    forall r d, (r, d) ∈ m'.(v_devs) <-> (r, d) ∈ m.(v_devs) /\ ~ gone r.

Lemma stopped_without_iff h m gone gone' w : (forall r, gone r <-> gone' r) -> stopped_without h m gone w -> stopped_without h m gone' w.
Proof. intros Hg (HI & m' & H1 & H2 & H3 & H4). split; [done|]. exists m'. split_and!; auto. intros r d. by rewrite H4, Hg. Qed.

Lemma region_at_none devs r : region_at devs r = None <-> forall d, (r, d) ∉ devs.
Proof.
  induction devs as [|[i d] devs IH]; cbn; [set_solver|]. case_decide as E.
  - subst. split; [done|]. intros Hn. exfalso. apply (Hn d). set_solver.
  - rewrite IH. split; intros Hn e He; [apply list_elem_of_In in He as [He|He]; [congruence|]; apply (Hn e), list_elem_of_In; done|apply (Hn e); set_solver].
Qed.

Lemma remove_bar_spec h m gone (o : option nat) w : stopped_without h m gone w ->
  exists w', match o with
      | Some i => let! m := get_machine h in match region_at m.(v_devs) i with Some dev => rvvm_remove_mmio h i dev | None => cret () end
      | None => cret ()
      end w = Some (w', ()) /\ stopped_without h m (fun r => gone r \/ o = Some r) w'.
Proof.
  intros Hst. destruct o as [i|]; [|exists w; split; [reflexivity|]; apply (stopped_without_iff _ _ gone); [intros; intuition congruence|done]].
  destruct Hst as (HI & m' & H1 & H2 & H3 & H4). rewrite (cbind_run _ _ _ _ _ (get_machine_run w h m' H1)).
  destruct (region_at m'.(v_devs) i) as [dev|] eqn:Er.
  - destruct (remove_spec w h m' i dev HI H1 H2) as (w1 & m1 & Hr & HI1 & Hm1 & Hrun1 & Hmem & Hdevs). exists w1. split; [exact Hr|]. split; [exact HI1|].
    exists m1. split_and!; [done..|by rewrite Hmem|]. intros r d. rewrite Hdevs, list_elem_of_filter, H4. cbn. intuition congruence.
  - exists w. split; [reflexivity|]. split; [done|]. exists m'. split_and!; auto. intros r d. rewrite H4. split; [|tauto].
    intros [Hd Hg]. split; [done|]. intros [?|[= <-]]; [done|]. apply (proj1 (region_at_none _ i) Er d), H4. auto.
Qed.

Lemma remove_bars_spec n : forall h m gone bar_id f w, stopped_without h m gone w ->
  exists w', remove_bars n h bar_id f w = Some (w', ()) /\
    stopped_without h m (fun r => gone r \/ exists i, bar_id <= i < bar_id + Z.of_nat n /\ f.(pf_bar) i = Some r) w'.
Proof.
  induction n as [|n IH]; intros h m gone bar_id f w Hst; cbn [remove_bars].
  { exists w. split; [reflexivity|]. apply (stopped_without_iff _ _ gone); [|done]. intros r. split; [auto|]. intros [?|(i & ? & _)]; [auto|lia]. }
  destruct (remove_bar_spec h m gone (f.(pf_bar) bar_id) w Hst) as (w1 & Hrun & Hst1).
  rewrite (cbind_run _ _ _ _ _ Hrun). destruct (IH h m _ (bar_id + 1) f w1 Hst1) as (w' & Hr' & Hst'). exists w'. split; [exact Hr'|].
  refine (stopped_without_iff _ _ _ _ _ _ Hst'). intros r. split.
  - intros [[?|?]|(i & ? & ?)]; [auto|right; exists bar_id; split; [lia|done]|right; exists i; split; [lia|done]].
  - intros [?|(i & ? & ?)]; [auto|]. destruct (Z.eq_dec i bar_id) as [->|]; [auto|]. right. exists i. split; [lia|done].
Qed.

(** The region [r] belongs to a bar of a function of a device. *)
Definition bar_of (d : pci_dev) (func_id n : Z) (r : nat) : Prop :=
  exists k f i, func_id <= k < func_id + n /\ d.(pd_func) k = Some f /\ 0 <= i < 6 /\ f.(pf_bar) i = Some r.

Lemma free_funcs_spec n : forall b m gone func_id d w, stopped_without b.(pb_machine) m gone w ->
  exists w', free_funcs n b func_id d true w = Some (w', ()) /\ stopped_without b.(pb_machine) m (fun r => gone r \/ bar_of d func_id (Z.of_nat n) r) w'.
Proof.
  induction n as [|n IH]; intros b m gone func_id d w Hst; cbn [free_funcs].
  { exists w. split; [reflexivity|]. apply (stopped_without_iff _ _ gone); [|done]. intros r. split; [auto|]. intros [?|(k & f & i & ? & _)]; [auto|lia]. }
  assert (exists w1, pci_free_func_internal b (d.(pd_func) func_id) true w = Some (w1, ()) /\ stopped_without b.(pb_machine) m (fun r => gone r \/ bar_of d func_id 1 r) w1) as (w1 & Hrun & Hst1).
  { unfold pci_free_func_internal. destruct (d.(pd_func) func_id) as [f|] eqn:Ef.
    - destruct (remove_bars_spec (Z.to_nat PCI_FUNC_BARS) _ m gone 0 f w Hst) as (w1 & Hr & Hst1). exists w1. split; [exact Hr|].
      refine (stopped_without_iff _ _ _ _ _ _ Hst1). intros r. change (Z.of_nat (Z.to_nat PCI_FUNC_BARS)) with 6. split; (intros [?|Hb]; [auto|right]).
      + destruct Hb as (i & ? & ?). exists func_id, f, i. split_and!; auto; lia.
      + destruct Hb as (k & f' & i & Hk & Hf & Hi & Hb). replace k with func_id in Hf by lia. exists i. split; [lia|congruence].
    - exists w. split; [reflexivity|]. apply (stopped_without_iff _ _ gone); [|done]. intros r. split; [auto|]. intros [?|(k & f & i & Hk & Hf & _)]; [auto|]. replace k with func_id in Hf by lia. congruence. }
  rewrite (cbind_run _ _ _ _ _ Hrun). destruct (IH b m _ (func_id + 1) d w1 Hst1) as (w' & Hr' & Hst'). exists w'. split; [exact Hr'|].
  refine (stopped_without_iff _ _ _ _ _ _ Hst'). intros r. split.
  - intros [[?|(k & f & i & ? & ?)]|(k & f & i & ? & ?)]; [auto| |]; right; exists k, f, i; split; auto; lia.
  - intros [?|(k & f & i & ? & ?)]; [auto|]. destruct (Z.eq_dec k func_id) as [->|]; [left; right; exists func_id, f, i; split; auto; lia|]. right. exists k, f, i. split; auto; lia.
Qed.

(** C16: Hot-unplugging.  Removing a device from a bus of a machine, running or not, returns,
    keeps the invariant of machines, empties the slot, takes away the regions of all bars of
    all functions of the device and no other, and leaves the machine running exactly when it
    ran before. *)
Theorem pci_unplug b d w m : winv w -> w.(w_store) !! b.(pb_machine) = Some m ->
  0 <= d.(pd_addr) -> pci_get_bus_device b d.(pd_addr) = Some d ->
  exists w' b' m', pci_remove_device b d w = Some (w', b') /\ winv w' /\ pci_get_bus_device b' d.(pd_addr) = None /\
    w'.(w_store) !! b.(pb_machine) = Some m' /\ m'.(v_running) = m.(v_running) /\
    forall r x, (r, x) ∈ m'.(v_devs) <-> (r, x) ∈ m.(v_devs) /\ ~ bar_of d 0 8 r.
Proof.
  intros HI Hm Ha Hd. unfold pci_remove_device. destruct (pause_spec w _ m HI Hm) as (w1 & m1 & Hp & HI1 & Hm1 & Hr1 & Hmem1 & Hdev1 & _).
  rewrite (cbind_run _ _ _ _ _ Hp). destruct (pci_set_bus_dev_internal b d.(pd_addr) None) as [b' ok] eqn:Es.
  assert (Hb' : pci_get_bus_device b' d.(pd_addr) = None).
  { unfold pci_get_bus_device in *. unfold pci_set_bus_dev_internal in Es. destruct (pci_bus_addr_valid d.(pd_addr)); [|done].
    destruct (b.(pb_dev) !! Z.to_nat (pci_bus_addr_to_id_internal d.(pd_addr))) as [[o|]|]; try discriminate Hd. cbn in Es. injection Es as <- <-. cbn [pb_dev set_pb_dev].
    by rewrite vector_put_lookup, decide_True. }
  assert (Hst : stopped_without b.(pb_machine) m (fun _ => False) w1).
  { split; [done|]. exists m1. split_and!; auto. intros r x. rewrite Hdev1. tauto. }
  destruct (free_funcs_spec (Z.to_nat PCI_DEV_FUNCS) b m _ 0 d w1 Hst) as (w2 & Hf & HI2 & m2 & Hm2 & Hr2 & Hmem2 & Hdev2).
  assert (Hdev : forall r x, (r, x) ∈ m2.(v_devs) <-> (r, x) ∈ m.(v_devs) /\ ~ bar_of d 0 8 r).
  { intros r x. rewrite Hdev2. change (Z.of_nat (Z.to_nat PCI_DEV_FUNCS)) with 8. tauto. }
  unfold pci_free_dev_internal. rewrite (cbind_run _ _ _ _ _ Hf). unfold restart. destruct m.(v_running) eqn:Er.
  - destruct (start_spec w2 _ m2 HI2 Hm2) as (w3 & m3 & Hs & HI3 & Hm3 & Hr3 & Hmem3 & Hdev3 & _).
    assert (Hrun : (let! _ := rvvm_start_machine b.(pb_machine) in cret ()) w2 = Some (w3, ())) by (rewrite (cbind_run _ _ _ _ _ Hs); reflexivity).
    rewrite (cbind_run _ _ _ _ _ Hrun). exists w3, b', m3. rewrite Hdev3. split_and!; auto.
  - exists w2, b', m2. split_and!; auto.
Qed.

End unplug.

Lemma run_calls_inv l : forall w w', winv w -> run_calls w l = Some w' -> winv w'.
Proof.
  induction l as [|a l IH]; intros w w' HI; cbn [run_calls]; [by intros [= <-]|]. destruct (api_okb w a) eqn:E; [|done].
  destruct (api_step w a HI (api_okb_ok w a E)) as (w1 & -> & HI1). cbn. by apply IH.
Qed.

(** A machine that runs, with two regions, of which the first belongs to a function in slot 1. *)
Definition plug_calls : list api :=
  [AAttach 0 (mk_mmio_dev 0x40000000 0x4000 0 None None 4 4); AAttach 0 (mk_mmio_dev 0x10000000 0x100 0 None None 0 0); AStart 0].
Definition plug_dev : pci_dev := mk_pci_dev (<[0 := Some (set_pf_bar (<[0 := Some 0%nat]> (fun _ => None)) demo_func)]> (fun _ => None)) 8.
Definition plug_bus : pci_bus := set_pb_dev [None; Some plug_dev] demo_bus.

Lemma pci_unplug_witness : exists w w' b' m', run_calls (fresh_world [demo_vm]) plug_calls = Some w /\ pci_remove_device plug_bus plug_dev w = Some (w', b') /\
  pci_get_bus_device b' 8 = None /\ w'.(w_store) !! 0%nat = Some m' /\ m'.(v_running) = true /\ region_at m'.(v_devs) 0 = None /\ is_Some (region_at m'.(v_devs) 1).
Proof.
  destruct (run_calls (fresh_world [demo_vm]) plug_calls) as [w|] eqn:E; [|vm_compute in E; discriminate].
  pose proof (run_calls_inv _ _ _ (fresh_world_inv _ demo_machine_fresh) E) as HI.
  assert (Hx : (fun w => (fun m => (m.(v_running), map fst m.(v_devs))) <$> w.(w_store) !! 0%nat) <$> run_calls (fresh_world [demo_vm]) plug_calls = Some (Some (true, [0; 1]%nat))) by (vm_compute; reflexivity).
  rewrite E in Hx. cbn in Hx. destruct (w.(w_store) !! 0%nat) as [m|] eqn:Hm; [|discriminate]. injection Hx as Hr Hids.
  destruct (pci_unplug plug_bus plug_dev w m HI Hm ltac:(cbn; lia) eq_refl) as (w' & b' & m' & H1 & H2 & H3 & H4 & H5 & H6).
  exists w, w', b', m'. split_and!; auto; [congruence| |].
  - apply region_at_none. intros x Hx%H6. apply Hx. exists 0, (set_pf_bar (<[0 := Some 0%nat]> (fun _ => None)) demo_func), 0. split_and!; (done || lia).
  - destruct (region_at (v_devs m') 1) as [x|] eqn:Ex; [eauto|]. exfalso. pose proof (proj1 (region_at_none _ 1%nat) Ex) as Hn.
    destruct m.(v_devs) as [|[i0 d0] [|[i1 d1] l]] eqn:Ed; try discriminate. injection Hids as -> -> _. apply (Hn d1), H6. split; [set_solver|].
    intros (k & f & i & Hk & Hf & Hi & Hb). cbn in Hf. rewrite fupd_dec in Hf. revert Hf. case_bool; [|done]. intros [= <-]. cbn in Hb. rewrite fupd_dec in Hb. revert Hb. case_bool; done.
Defined.

(** ** Deviations *)

Definition nop_handler : mmio_handler := fun vm _ _ data => (vm, data, true).
Definition rom_desc : pci_func_desc :=
  mk_func_desc demo_ids (<[0 := mk_mmio_dev 0 0x4000 0 None None 4 4]> (fun _ => no_region)) (mk_mmio_dev 0 0x1000 0 None None 8 4).
Definition io_func : pci_func :=
  mk_func 8 (mk_ids 0x9710 0x9912 0x0701 0xA000 0x2000 1 2 0 PCI_IRQ_PIN_INTA) (<[0 := Some 7%nat]> (fun _ => None)) None PCI_CMD_DEFAULT 0 0 0 0 0 0 0 0 0 0 0 0 0 (fun _ => 0).
Definition one_func_bus (f : pci_func) : pci_bus := set_pb_dev [None; Some (mk_pci_dev (<[0 := Some f]> (fun _ => None)) 8)] demo_bus.

(** Where the code departs from the PCI specifications or from its interface.  An interrupt
    that is pending when MSI-X is disabled stays pending although its vector is opened and
    MSI-X is enabled again.  A function that lowers a shared INTx line lowers it for the other
    functions, and a line that is disabled and enabled again stays low.  The pending bits are
    announced at byte 128 of their region and are at byte 512.  The register behind an I/O
    region is writable as its upper half.  A device at an address with a device number on
    another bus takes the slot of device 0.  A region whose size is no power of two is
    announced with less than its size.  A function that is refused keeps the regions it got,
    and attaching a function to a running machine does not return. *)
Lemma pci_deviations :
  (let f := set_pf_msix (<[23 := 1]> demo_func.(pf_msix)) demo_func in
   let log : list (Z * bool) * list (Z * Z) := ([], []) in
   let '(f, log) := pci_raise_irq demo_bus.(pb_irqs) f 5 log in
   let '(f, _, log) := pci_func_write [] demo_bus f PCI_REG_MSIX 0 log in
   let '(f, log) := pci_msix_bar_write f 0 (4 * 23) log in
   let '(f, _, log) := pci_func_write [] demo_bus f PCI_REG_MSIX PCI_MSIX_ENABLED log in
   f.(pf_msix_control) = PCI_MSIX_ENABLED /\ f.(pf_msix) 23 = 0 /\ f.(pf_msix) 128 = 2 ^ 5 /\ log = ([], [])) /\
  (let f1 := set_pf_msix_control 0 demo_func in
   let f2 := mk_func (8 * 5) demo_ids (fun _ => None) None PCI_CMD_DEFAULT 0 0 0 0 0 0 0 0 0 0 0 0 0 (fun _ => 0) in
   let '(f1, log) := pci_raise_irq demo_bus.(pb_irqs) f1 0 ([], []) in
   let '(f2, log) := pci_raise_irq demo_bus.(pb_irqs) f2 0 log in
   let '(f1, log) := pci_lower_irq demo_bus.(pb_irqs) f1 0 log in
   f2.(pf_status) = PCI_STATUS_INTX /\ log = ([(11, true); (11, true); (11, false)], [])) /\
  (let f := set_pf_msix_control 0 demo_func in
   let '(f, log) := pci_raise_irq demo_bus.(pb_irqs) f 0 ([], []) in
   let '(f, _, log) := pci_func_write [] demo_bus f PCI_REG_STATUS_CMD (PCI_CMD_DEFAULT .| PCI_CMD_INTX_DISABLE) log in
   let '(f, _, log) := pci_func_write [] demo_bus f PCI_REG_STATUS_CMD PCI_CMD_DEFAULT log in
   f.(pf_status) = 0 /\ log = ([(11, true); (11, false)], [])) /\
  (pci_bus_read [] (one_func_bus demo_func) (cfg_off 8 PCI_REG_MSIX_PBO) .& u32 (Z.lnot 7) = 128 /\ PCI_MSIX_TBL_SIZE * 4 = 512) /\
  (let devs := [(7%nat, mk_mmio_dev 0x03000000 8 0 None None 1 1)] in
   let '(b, devs, _) := pci_bus_write devs (one_func_bus io_func) (cfg_off 8 (bar_reg 1)) 0xFFFFFFFF (([], []) : list (Z * bool) * list (Z * Z)) in
   pci_bus_read devs b (cfg_off 8 (bar_reg 1)) = 0xFFFFFFFF /\ dev_addr <$> region_at devs 7 = Some 0xFFFFFFFF03000000) /\
  (let d := mk_pci_dev (fun _ => None) 0x108 in
   pci_bus_addr_valid 0x108 = false /\ pci_get_bus_device (fst (pci_set_bus_dev_internal demo_bus 0x108 (Some d))) 0x100 = Some d) /\
  (let devs := [(7%nat, mk_mmio_dev 0x40000000 0x1800 0 None None 4 4)] in
   let '(b, devs, _) := pci_bus_write devs (one_func_bus demo_bar_func) (cfg_off 8 (bar_reg 0)) 0xFFFFFFFF (([], []) : list (Z * bool) * list (Z * Z)) in
   pci_bus_read devs b (cfg_off 8 (bar_reg 0)) .& 0xFFFFFFF0 = 2 ^ 32 - 0x1000) /\
  ((fun x => (x.2, (fun m => length m.(v_devs)) <$> x.1.(w_store) !! 0%nat)) <$>
     pci_attach_func_internal true nop_handler nop_handler demo_bus rom_desc 8 (fresh_world [demo_vm]) = Some (None, Some 1%nat)) /\
  (pci_attach_func true false nop_handler nop_handler demo_bus rom_desc (fresh_world [set_v_running true demo_vm]) = None).
Proof. split_and!; vm_compute; auto. Qed.
