(* ===== verification/Nvme.v ===== *)
(** * NVMe controller (src/devices/nvme.c)

    Submission and completion queues in guest memory, the physical region pages of a
    transfer, admin and I/O commands on a block device ([Snapshot]), doorbells and registers;
    interrupts and memory access go through a PCI function ([Pci]).  A computation returns
    [None] when a loop does not end.  Commands of I/O queues are handed to the thread pool,
    which runs them in any order, each as one step.  Theorems: the regions of a transfer are
    the pages the specification lists, a write puts the bytes of those pages on the disk and
    a read returns them, and a doorbell runs every submitted command of the admin queue, and
    hands over every one of an I/O queue, once and in the order of the queue. *)

From S2P Require Import Prelude BitOps MemOps State Machine Snapshot Pci.

(** ** Constants *)

Definition NVME_CQ_FLAGS_PC : Z := 0x01.
Definition NVME_CQ_FLAGS_IEN : Z := 0x02.
Definition NVME_PAGE_SIZE : Z := 0x1000.
Definition NVME_PAGE_MASK : Z := 0xFFF.
Definition NVME_LBA_SHIFT : Z := 9.
Definition NVME_IO_QUEUES : Z := 0x10.
Definition NVME_VS_VERSION : Z := 0x00010400.
Definition NVME_SQE_CID : Z := 0x02.
Definition NVME_SQE_PRP1 : Z := 0x18.
Definition NVME_SQE_PRP2 : Z := 0x20.
Definition NVME_SQE_CDW10 : Z := 0x28.
Definition NVME_SQE_CDW11 : Z := 0x2C.
Definition NVME_SQE_CDW12 : Z := 0x30.
Definition NVME_CQE_CS : Z := 0x00.
Definition NVME_CQE_SQHD_SQID : Z := 0x08.
Definition NVME_CQE_CID_PB_SF : Z := 0x0C.
Definition NVME_CQE_PB_MASK : Z := 0x00010000.
Definition NVME_CQE_SF_SHIFT : Z := 0x11.
Definition NVME_SC_SUCCESS : Z := 0x00.
Definition NVME_SC_BAD_OPCODE : Z := 0x01.
Definition NVME_SC_BAD_FIELD : Z := 0x02.
Definition NVME_SC_DATA_ERR : Z := 0x04.
Definition NVME_SC_BAD_CQ : Z := 0x0100.
Definition NVME_SC_BAD_QUEUE_ID : Z := 0x0101.
Definition NVME_SC_BAD_QUEUE_SIZE : Z := 0x0102.
Definition NVME_CC_EN : Z := 0x00000001.
Definition NVME_CC_SHN : Z := 0x0000C000.
Definition NVME_CC_IOQES : Z := 0x00460000.
Definition NVME_CSTS_RDY : Z := 0x00000001.
Definition NVME_CSTS_SHST : Z := 0x00000008.

(** ** State *)

Record nvme_queue := mk_queue { q_addr_l : Z; q_addr_h : Z; q_size : Z; q_head : Z; q_tail : Z; q_data : Z }.

Definition set_q_size (v : Z) (q : nvme_queue) : nvme_queue := mk_queue q.(q_addr_l) q.(q_addr_h) v q.(q_head) q.(q_tail) q.(q_data).
Definition set_q_head (v : Z) (q : nvme_queue) : nvme_queue := mk_queue q.(q_addr_l) q.(q_addr_h) q.(q_size) v q.(q_tail) q.(q_data).
Definition set_q_tail (v : Z) (q : nvme_queue) : nvme_queue := mk_queue q.(q_addr_l) q.(q_addr_h) q.(q_size) q.(q_head) v q.(q_data).
Definition set_q_addr_l (v : Z) (q : nvme_queue) : nvme_queue := mk_queue v q.(q_addr_h) q.(q_size) q.(q_head) q.(q_tail) q.(q_data).
Definition set_q_addr_h (v : Z) (q : nvme_queue) : nvme_queue := mk_queue q.(q_addr_l) v q.(q_size) q.(q_head) q.(q_tail) q.(q_data).

Record nvme_dev := mk_nvme {
  nv_sq : Z -> nvme_queue;
  nv_cq : Z -> nvme_queue;
  nv_conf : Z;
  nv_irq_mask : Z;
  nv_temp_thresh : Z;
  nv_serial : list Z
}.

Definition set_nv_sq (v : Z -> nvme_queue) (n : nvme_dev) : nvme_dev := mk_nvme v n.(nv_cq) n.(nv_conf) n.(nv_irq_mask) n.(nv_temp_thresh) n.(nv_serial).
Definition set_nv_cq (v : Z -> nvme_queue) (n : nvme_dev) : nvme_dev := mk_nvme n.(nv_sq) v n.(nv_conf) n.(nv_irq_mask) n.(nv_temp_thresh) n.(nv_serial).
Definition set_nv_conf (v : Z) (n : nvme_dev) : nvme_dev := mk_nvme n.(nv_sq) n.(nv_cq) v n.(nv_irq_mask) n.(nv_temp_thresh) n.(nv_serial).
Definition set_nv_irq_mask (v : Z) (n : nvme_dev) : nvme_dev := mk_nvme n.(nv_sq) n.(nv_cq) n.(nv_conf) v n.(nv_temp_thresh) n.(nv_serial).
Definition set_nv_temp_thresh (v : Z) (n : nvme_dev) : nvme_dev := mk_nvme n.(nv_sq) n.(nv_cq) n.(nv_conf) n.(nv_irq_mask) v n.(nv_serial).

(** The number of queues of a kind: the admin queue and those for I/O. *)
Definition NVME_QUEUES : Z := NVME_IO_QUEUES + 1.

Record prp_ctx := mk_prp { prp1 : Z; prp2 : Z; prp_size : Z; prp_cur : Z }.

(** A command: where its entry is in the memory of the host, and where it completes. *)
Record nvme_cmd := mk_cmd { c_sqe : Z; c_sqhd_sqid : Z; c_cq_id : Z }.

(** The controller with its PCI function, the host, the memory, the disk, and the tasks that the
    thread pool has for it, a submission queue and an entry of it each: [threads] is their number. *)
Record nvme_sys (H F : Type) := mk_sys { s_dev : nvme_dev; s_func : pci_func; s_host : H; s_mem : memory; s_blk : rvvm_blk_dev F; s_tasks : list (Z * Z) }.
Arguments mk_sys {H F}. Arguments s_dev {H F}. Arguments s_func {H F}. Arguments s_host {H F}. Arguments s_mem {H F}. Arguments s_blk {H F}. Arguments s_tasks {H F}.

(** The thread pool, as far as it matters here: whether it takes a command of a queue, which the
    caller runs otherwise, and which of the waiting tasks it runs next. *)
Class Workers := { wk_takes : Z -> Z -> bool; wk_next : list (Z * Z) -> nat }.

Section nvme.
Context {H F : Type} `{PciHost H} `{BlkImage F}.
(** Where RAM is, and the lines of the bus. *)
Context (ram : ram) (irqs : Z -> Z).
Local Abbreviation sys := (nvme_sys H F).

Definition set_s_dev (v : nvme_dev) (s : sys) : sys := mk_sys v s.(s_func) s.(s_host) s.(s_mem) s.(s_blk) s.(s_tasks).
Definition set_s_mem (v : memory) (s : sys) : sys := mk_sys s.(s_dev) s.(s_func) s.(s_host) v s.(s_blk) s.(s_tasks).
Definition set_s_blk (v : rvvm_blk_dev F) (s : sys) : sys := mk_sys s.(s_dev) s.(s_func) s.(s_host) s.(s_mem) v s.(s_tasks).
Definition set_s_pci (f : pci_func) (h : H) (s : sys) : sys := mk_sys s.(s_dev) f h s.(s_mem) s.(s_blk) s.(s_tasks).
Definition set_s_tasks (v : list (Z * Z)) (s : sys) : sys := mk_sys s.(s_dev) s.(s_func) s.(s_host) s.(s_mem) s.(s_blk) v.
Definition upd_sq (i : Z) (f : nvme_queue -> nvme_queue) (s : sys) : sys :=
  set_s_dev (set_nv_sq (<[i := f (s.(s_dev).(nv_sq) i)]> s.(s_dev).(nv_sq)) s.(s_dev)) s.
Definition upd_cq (i : Z) (f : nvme_queue -> nvme_queue) (s : sys) : sys :=
  set_s_dev (set_nv_cq (<[i := f (s.(s_dev).(nv_cq) i)]> s.(s_dev).(nv_cq)) s.(s_dev)) s.

Definition dma (s : sys) (addr size : Z) : option Z := pci_get_dma_ptr ram s.(s_func) addr size.

(** ** Queues *)

(** A queue that exists. *)
Definition nvme_get_queue (queue_id : Z) : bool := queue_id <? NVME_QUEUES.

Definition nvme_queue_addr (q : nvme_queue) : Z := q.(q_addr_l) .| (q.(q_addr_h) .<< 32).

(** The entry taken from a queue. *)
Definition nvme_queue_dequeue (q : nvme_queue) : option (nvme_queue * Z) :=
  if (q.(q_head) =? q.(q_tail)) || (q.(q_size) <? q.(q_tail)) then None
  else Some (set_q_head (if q.(q_head) <? q.(q_size) then q.(q_head) + 1 else 0) q, q.(q_head)).

Definition nvme_queue_enqueue (q : nvme_queue) : nvme_queue * Z :=
  (set_q_tail (if q.(q_tail) <? q.(q_size) then q.(q_tail) + 1 else 0) q, q.(q_tail)).

Definition nvme_queue_raise_irq (q : nvme_queue) (s : sys) : sys :=
  if nz (q.(q_data) .& NVME_CQ_FLAGS_IEN) then
    let irq_vec := q.(q_data) .>> 16 in
    if negb (nz (s.(s_dev).(nv_irq_mask) .& bit_set32 irq_vec)) then
      let '(f, h) := pci_raise_irq irqs s.(s_func) irq_vec s.(s_host) in set_s_pci f h s
    else s
  else s.

Definition nvme_queue_lower_irq (q : nvme_queue) (s : sys) : sys :=
  let '(f, h) := pci_lower_irq irqs s.(s_func) (q.(q_data) .>> 16) s.(s_host) in set_s_pci f h s.

Definition nvme_queue_reset (q : nvme_queue) : nvme_queue := set_q_tail 0 (set_q_head 0 q).

Definition nvme_queue_setup (addr size data : Z) (q : nvme_queue) : nvme_queue :=
  nvme_queue_reset (mk_queue (u32 (addr .& u64 (Z.lnot NVME_PAGE_MASK))) (u32 (addr .>> 32)) size q.(q_head) q.(q_tail) data).

Fixpoint check_queues (n : nat) (i mask : Z) (s : sys) : sys :=
  match n with
  | O => s
  | S n =>
      let q := s.(s_dev).(nv_cq) i in
      check_queues n (i + 1) mask
        (if nz (mask .& bit_set32 (q.(q_data) .>> 16)) then
           if negb (q.(q_head) =? q.(q_tail)) then nvme_queue_raise_irq q s else nvme_queue_lower_irq q s
         else s)
  end.

Definition nvme_check_masked_irqs (mask : Z) (s : sys) : sys := check_queues (Z.to_nat NVME_QUEUES) 0 mask s.

Fixpoint reset_sqs (n : nat) (i : Z) (s : sys) : sys :=
  match n with
  | O => s
  | S n => reset_sqs n (i + 1) (upd_sq i (fun q => let q := nvme_queue_reset q in if nz i then nvme_queue_setup 0 0 0 q else q) s)
  end.

Fixpoint reset_cqs (n : nat) (i : Z) (s : sys) : sys :=
  match n with
  | O => s
  | S n =>
      let s := nvme_queue_lower_irq (s.(s_dev).(nv_cq) i) s in
      reset_cqs n (i + 1) (upd_cq i (fun q => let q := nvme_queue_reset q in if nz i then nvme_queue_setup 0 0 0 q else q) s)
  end.

(** The queues of a reset, once no worker is left. *)
Definition reset_queues (s : sys) : sys := reset_cqs (Z.to_nat NVME_QUEUES) 0 (reset_sqs (Z.to_nat NVME_QUEUES) 0 s).

(** The entry a completed command leaves, with the phase bit of its place inverted. *)
Definition nvme_complete_cmd_cs (c : nvme_cmd) (status cs : Z) (s : sys) : sys :=
  if nvme_get_queue c.(c_cq_id) then
    let '(q, tail) := nvme_queue_enqueue (s.(s_dev).(nv_cq) c.(c_cq_id)) in
    let s := upd_cq c.(c_cq_id) (fun _ => q) s in
    let addr := u64 (nvme_queue_addr q + u32 (tail .<< 4)) in
    match dma s addr 16 with
    | Some cqe =>
        let m := s.(s_mem) in
        let cmd_id := read_uint16_le m (c.(c_sqe) + NVME_SQE_CID) in
        let phase := u32 (Z.lnot (read_uint32_le m (cqe + NVME_CQE_CID_PB_SF))) .& NVME_CQE_PB_MASK in
        let cid_ps := cmd_id .| phase .| u32 (status .<< NVME_CQE_SF_SHIFT) in
        let m := write_uint32_le m (cqe + NVME_CQE_CS) cs in
        let m := write_uint32_le m (cqe + NVME_CQE_SQHD_SQID) c.(c_sqhd_sqid) in
        let m := write_uint32_le m (cqe + NVME_CQE_CID_PB_SF) cid_ps in
        nvme_queue_raise_irq q (set_s_mem m s)
    | None => s
    end
  else s.

Definition nvme_complete_cmd (c : nvme_cmd) (status : Z) (s : sys) : sys := nvme_complete_cmd_cs c status 0 s.

(** ** Physical region pages *)

Definition nvme_prepare_prp (m : memory) (c : nvme_cmd) (size : Z) : prp_ctx :=
  mk_prp (read_uint64_le m (c.(c_sqe) + NVME_SQE_PRP1)) (read_uint64_le m (c.(c_sqe) + NVME_SQE_PRP2)) size 0.

Definition nvme_prp_avail (p : prp_ctx) : Z := u64 (p.(prp_size) - p.(prp_cur)).

(** The loop over the entries of the list; [None] when the fuel does not suffice. *)
Fixpoint prp_loop (fuel : nat) (s : sys) (p : prp_ctx) (list2 len : Z) (mapped : option Z) : option (prp_ctx * Z) :=
  match fuel with
  | O => None
  | S fuel =>
      if len <? nvme_prp_avail p then
        match (match mapped with Some d => Some d | None => dma s (list2 .& u64 (Z.lnot NVME_PAGE_MASK)) NVME_PAGE_SIZE end) with
        | None => Some (p, len)
        | Some d =>
            if negb (nz (u64 (list2 + 8) .& NVME_PAGE_MASK)) && (u64 (len + NVME_PAGE_SIZE) <? nvme_prp_avail p) then
              prp_loop fuel s p (read_uint64_le s.(s_mem) (d + NVME_PAGE_SIZE - 8) .& u64 (Z.lnot NVME_PAGE_MASK)) len None
            else
              let page := read_uint64_le s.(s_mem) (d + (list2 .& NVME_PAGE_MASK)) in
              let list2 := u64 (list2 + 8) in
              if negb (page =? u64 (p.(prp1) + len)) then Some (mk_prp page list2 p.(prp_size) p.(prp_cur), len)
              else prp_loop fuel s p list2 (u64 (len + NVME_PAGE_SIZE)) (Some d)
        end
      else Some (p, len)
  end.

(** Two iterations for each page of the transfer are enough. *)
Definition prp_fuel (p : prp_ctx) : nat := Z.to_nat (2 * (nvme_prp_avail p / NVME_PAGE_SIZE) + 6).

Definition prp_list_region (s : sys) (p : prp_ctx) (len : Z) : option (prp_ctx * Z) :=
  match prp_loop (prp_fuel p) s p (p.(prp2) .& u64 (Z.lnot 7)) len None with
  | Some (p, len) => Some (p, Z.min len (nvme_prp_avail p))
  | None => None
  end.

Definition nvme_parse_prp_region (s : sys) (p : prp_ctx) : option (prp_ctx * Z) :=
  if p.(prp_cur) =? 0 then
    let len := NVME_PAGE_SIZE - (p.(prp1) .& NVME_PAGE_MASK) in
    if p.(prp_size) <=? len then Some (p, p.(prp_size))
    else if p.(prp_size) <=? len + NVME_PAGE_SIZE then
      let page := p.(prp2) .& u64 (Z.lnot NVME_PAGE_MASK) in
      if page =? u64 (p.(prp1) + len) then Some (p, p.(prp_size))
      else Some (mk_prp page p.(prp2) p.(prp_size) p.(prp_cur), len)
    else prp_list_region s p len
  else prp_list_region s p NVME_PAGE_SIZE.

(** The context afterwards, the region if it is mapped, and its size. *)
Definition nvme_get_prp_region (s : sys) (p : prp_ctx) : option (prp_ctx * option Z * Z) :=
  let reg_addr := p.(prp1) in
  match nvme_parse_prp_region s p with
  | None => None
  | Some (p, reg_size) =>
      if nz reg_size then
        let p' := mk_prp p.(prp1) p.(prp2) p.(prp_size) (u64 (p.(prp_cur) + reg_size)) in
        match dma s reg_addr reg_size with
        | Some region => Some (p', Some region, reg_size)
        | None => Some (p', None, 0)
        end
      else Some (p, None, 0)
  end.

(** Each region takes a byte at least. *)
Fixpoint copy_loop (fuel : nat) (p : prp_ctx) (data : list Z) (s : sys) : option sys :=
  match fuel with
  | O => None
  | S fuel =>
      match nvme_get_prp_region s p with
      | None => None
      | Some (p, None, _) => Some s
      | Some (p, Some region, reg_size) =>
          let n := Z.to_nat reg_size in
          copy_loop fuel p (drop n data) (set_s_mem (put_bytes s.(s_mem) region (take n (data ++ replicate n 0))) s)
      end
  end.

Definition nvme_copy_to_prp (p : prp_ctx) (data : list Z) (s : sys) : option sys := copy_loop (S (Z.to_nat p.(prp_size))) p data s.

(** ** Admin commands *)

Definition nvme_create_io_sq (c : nvme_cmd) (s : sys) : sys :=
  let m := s.(s_mem) in
  let sq_addr := (nvme_prepare_prp m c 0).(prp1) in
  let sq_id := read_uint16_le m (c.(c_sqe) + NVME_SQE_CDW10) in
  let sq_size := read_uint16_le m (c.(c_sqe) + NVME_SQE_CDW10 + 2) in
  let cq_flag := read_uint16_le m (c.(c_sqe) + NVME_SQE_CDW11) in
  let cq_id := read_uint16_le m (c.(c_sqe) + NVME_SQE_CDW11 + 2) in
  if negb (nz (cq_flag .& NVME_CQ_FLAGS_PC)) then nvme_complete_cmd c NVME_SC_BAD_FIELD s
  else if negb (nz sq_size) then nvme_complete_cmd c NVME_SC_BAD_QUEUE_SIZE s
  else if negb (nz sq_id) || negb (nvme_get_queue sq_id) || nz (s.(s_dev).(nv_sq) sq_id).(q_size) then nvme_complete_cmd c NVME_SC_BAD_QUEUE_ID s
  else if negb (nvme_get_queue cq_id) || negb (nz (s.(s_dev).(nv_cq) cq_id).(q_size)) then nvme_complete_cmd c NVME_SC_BAD_CQ s
  else nvme_complete_cmd c NVME_SC_SUCCESS (upd_sq sq_id (nvme_queue_setup sq_addr sq_size cq_id) s).

Definition nvme_create_io_cq (c : nvme_cmd) (s : sys) : sys :=
  let m := s.(s_mem) in
  let cq_addr := (nvme_prepare_prp m c 0).(prp1) in
  let cq_id := read_uint16_le m (c.(c_sqe) + NVME_SQE_CDW10) in
  let cq_size := read_uint16_le m (c.(c_sqe) + NVME_SQE_CDW10 + 2) in
  let cq_flag := read_uint32_le m (c.(c_sqe) + NVME_SQE_CDW11) in
  if negb (nz (cq_flag .& NVME_CQ_FLAGS_PC)) then nvme_complete_cmd c NVME_SC_BAD_FIELD s
  else if negb (nz cq_size) then nvme_complete_cmd c NVME_SC_BAD_QUEUE_SIZE s
  else if negb (nz cq_id) || negb (nvme_get_queue cq_id) || nz (s.(s_dev).(nv_cq) cq_id).(q_size) then nvme_complete_cmd c NVME_SC_BAD_QUEUE_ID s
  else
    let s := nvme_queue_lower_irq (s.(s_dev).(nv_cq) cq_id) s in
    nvme_complete_cmd c NVME_SC_SUCCESS (upd_cq cq_id (nvme_queue_setup cq_addr cq_size cq_flag) s).

Definition nvme_delete_io_queue (c : nvme_cmd) (is_cq : bool) (s : sys) : sys :=
  let queue_id := read_uint16_le s.(s_mem) (c.(c_sqe) + NVME_SQE_CDW10) in
  if negb (nz queue_id) || negb (nvme_get_queue queue_id) then nvme_complete_cmd c NVME_SC_BAD_QUEUE_ID s
  else
    let s := if is_cq then upd_cq queue_id (nvme_queue_setup 0 0 0) (nvme_queue_lower_irq (s.(s_dev).(nv_cq) queue_id) s)
             else upd_sq queue_id (nvme_queue_setup 0 0 0) s in
    nvme_complete_cmd c NVME_SC_SUCCESS s.

(** A page with bytes at some of its offsets. *)
Definition page_with (l : list (Z * list Z)) : list Z :=
  get_bytes (Z.to_nat NVME_PAGE_SIZE) (foldl (fun m x => put_bytes m x.1 x.2) (fun _ => 0) l) 0.

Definition nvme_get_log_page (c : nvme_cmd) (s : sys) : option sys :=
  let log := s.(s_mem) (c.(c_sqe) + NVME_SQE_CDW10) in
  let send buf :=
    let p := nvme_prepare_prp s.(s_mem) c (read_uint32_le s.(s_mem) (c.(c_sqe) + NVME_SQE_CDW10) .>> 16) in
    match nvme_copy_to_prp p buf s with Some s => Some (nvme_complete_cmd c NVME_SC_SUCCESS s) | None => None end in
  if (log =? 0x01) || (log =? 0x03) then send (page_with [])
  else if log =? 0x02 then send (page_with [(1, le_split 2 315); (3, [94]); (4, [10])])
  else Some (nvme_complete_cmd c NVME_SC_BAD_FIELD s).

(** The names are bytes of strings with their terminator. *)
Definition nvme_model : list Z := [78; 86; 77; 101; 32; 83; 116; 111; 114; 97; 103; 101; 0].
Definition nvme_firmware : list Z := [82; 50; 53; 55; 57; 0].
Definition nvme_nqn : list Z := [110; 113; 110; 46; 50; 48; 50; 50; 45; 48; 52; 46; 108; 101; 107; 107; 105; 116; 58; 110; 118; 109; 101; 58].

Definition nvme_identify (c : nvme_cmd) (s : sys) : option sys :=
  let idt := s.(s_mem) (c.(c_sqe) + NVME_SQE_CDW10) in
  let send buf :=
    let p := nvme_prepare_prp s.(s_mem) c NVME_PAGE_SIZE in
    match nvme_copy_to_prp p buf s with Some s => Some (nvme_complete_cmd c NVME_SC_SUCCESS s) | None => None end in
  if idt =? 0x00 then
    let lbas := le_split 8 (s.(s_blk).(bd_size) .>> NVME_LBA_SHIFT) in
    send (page_with [(0, lbas); (8, lbas); (16, lbas); (33, [0x09]); (130, [NVME_LBA_SHIFT])])
  else if idt =? 0x01 then
    let serial := s.(s_dev).(nv_serial) in
    send (page_with [(4, serial); (24, nvme_model); (64, nvme_firmware); (80, le_split 4 NVME_VS_VERSION); (72, [0x02]); (111, [0x01]);
                     (512, [0x66]); (513, [0x44]); (516, [0x01]); (520, [0x04]); (526, [0x07]); (528, [0x07]);
                     (768, nvme_nqn ++ [0]); (768 + Z.of_nat (length nvme_nqn), serial)])
  else if idt =? 0x02 then send (page_with [(0, le_split 4 1)])
  else if idt =? 0x03 then send (page_with [(0, [0x03]); (1, [0x10])])
  else Some (nvme_complete_cmd c NVME_SC_BAD_FIELD s).

Definition nvme_handle_feature (c : nvme_cmd) (set : bool) (s : sys) : sys :=
  let feature_id := s.(s_mem) (c.(c_sqe) + NVME_SQE_CDW10) in
  let complete (val : Z) (s : sys) := if set then nvme_complete_cmd c NVME_SC_SUCCESS s else nvme_complete_cmd_cs c NVME_SC_SUCCESS val s in
  if feature_id =? 0x01 then complete 0x07 s
  else if feature_id =? 0x07 then complete ((NVME_IO_QUEUES - 1) .| ((NVME_IO_QUEUES - 1) .<< 16)) s
  else if feature_id =? 0x04 then
    if set then complete 0 (set_s_dev (set_nv_temp_thresh (read_uint32_le s.(s_mem) (c.(c_sqe) + NVME_SQE_CDW11)) s.(s_dev)) s)
    else complete s.(s_dev).(nv_temp_thresh) s
  else if existsb (Z.eqb feature_id) [0x02; 0x05; 0x06; 0x08; 0x09; 0x0A; 0x0B] then complete 0 s
  else nvme_complete_cmd c NVME_SC_BAD_FIELD s.

Definition nvme_admin_cmd (c : nvme_cmd) (s : sys) : option sys :=
  let opcode := s.(s_mem) c.(c_sqe) in
  if opcode =? 0x01 then Some (nvme_create_io_sq c s)
  else if opcode =? 0x05 then Some (nvme_create_io_cq c s)
  else if (opcode =? 0x00) || (opcode =? 0x04) then Some (nvme_delete_io_queue c (opcode =? 0x04) s)
  else if opcode =? 0x02 then nvme_get_log_page c s
  else if opcode =? 0x06 then nvme_identify c s
  else if opcode =? 0x08 then Some (nvme_complete_cmd_cs c NVME_SC_SUCCESS 1 s)
  else if (opcode =? 0x09) || (opcode =? 0x0A) then Some (nvme_handle_feature c (opcode =? 0x04) s)
  else if opcode =? 0x0C then Some s
  else Some (nvme_complete_cmd c NVME_SC_BAD_OPCODE s).

(** ** I/O commands *)

(** The transfer of the regions from position [pos] on. *)
Fixpoint rw_loop (fuel : nat) (write : bool) (c : nvme_cmd) (p : prp_ctx) (pos : Z) (s : sys) : option sys :=
  match fuel with
  | O => None
  | S fuel =>
      if nz (nvme_prp_avail p) then
        match nvme_get_prp_region s p with
        | None => None
        | Some (p, buffer, size) =>
            let '(s, tmp) :=
              match buffer with
              | Some buffer =>
                  if write then
                    let '(blk, n) := rvvm_blk_write s.(s_blk) (get_bytes (Z.to_nat size) s.(s_mem) buffer) pos in (set_s_blk blk s, n)
                  else
                    let l := rvvm_blk_read s.(s_blk) size pos in (set_s_mem (put_bytes s.(s_mem) buffer l) s, Z.of_nat (length l))
              | None => (s, 0)
              end in
            if negb (tmp =? size) then Some (nvme_complete_cmd c NVME_SC_DATA_ERR s)
            else rw_loop fuel write c p (u64 (pos + size)) s
        end
      else Some (nvme_complete_cmd c NVME_SC_SUCCESS s)
  end.

Definition nvme_io_rw (write : bool) (c : nvme_cmd) (s : sys) : option sys :=
  let pos := u64 (read_uint64_le s.(s_mem) (c.(c_sqe) + NVME_SQE_CDW10) .<< NVME_LBA_SHIFT) in
  let nlb := read_uint16_le s.(s_mem) (c.(c_sqe) + NVME_SQE_CDW12) in
  let size := (nlb + 1) .<< NVME_LBA_SHIFT in
  rw_loop (S (Z.to_nat size)) write c (nvme_prepare_prp s.(s_mem) c size) pos s.

(** The ranges of a region, sixteen bytes each. *)
Fixpoint trim_ranges (fuel : nat) (buffer i size : Z) (s : sys) : sys :=
  match fuel with
  | O => s
  | S fuel =>
      if i <? size then
        let trim_lba := read_uint32_le s.(s_mem) (buffer + i + 4) in
        let trim_pos := u64 (read_uint64_le s.(s_mem) (buffer + i + 8) .<< NVME_LBA_SHIFT) in
        trim_ranges fuel buffer (i + 16) size (set_s_blk (fst (rvvm_blk_trim s.(s_blk) trim_pos (trim_lba .<< NVME_LBA_SHIFT))) s)
      else s
  end.

Fixpoint trim_loop (fuel : nat) (c : nvme_cmd) (p : prp_ctx) (s : sys) : option sys :=
  match fuel with
  | O => None
  | S fuel =>
      if nz (nvme_prp_avail p) then
        match nvme_get_prp_region s p with
        | None => None
        | Some (p, buffer, size) =>
            trim_loop fuel c p (match buffer with Some buffer => trim_ranges (Z.to_nat size) buffer 0 size s | None => s end)
        end
      else Some (nvme_complete_cmd c NVME_SC_SUCCESS s)
  end.

(** Flushing does not change what the disk holds. *)
Definition nvme_io_cmd (c : nvme_cmd) (s : sys) : option sys :=
  let opcode := s.(s_mem) c.(c_sqe) in
  if (opcode =? 0x02) || (opcode =? 0x01) then nvme_io_rw (opcode =? 0x01) c s
  else if opcode =? 0x00 then Some (nvme_complete_cmd c NVME_SC_SUCCESS s)
  else if opcode =? 0x09 then
    if nz (s.(s_mem) (c.(c_sqe) + NVME_SQE_CDW11) .& 0x4) then
      let size := (s.(s_mem) (c.(c_sqe) + NVME_SQE_CDW10) + 1) .<< 4 in
      trim_loop (S (Z.to_nat size)) c (nvme_prepare_prp s.(s_mem) c size) s
    else Some (nvme_complete_cmd c NVME_SC_SUCCESS s)
  else Some (nvme_complete_cmd c NVME_SC_BAD_OPCODE s).

(** ** Doorbells and registers *)

Definition nvme_run_cmd (sq_id sq_head : Z) (s : sys) : option sys :=
  let sq := s.(s_dev).(nv_sq) sq_id in
  match dma s (u64 (nvme_queue_addr sq + u32 (sq_head .<< 6))) 64 with
  | Some sqe =>
      let c := mk_cmd sqe (sq_head .| (sq_id .<< 16)) sq.(q_data) in
      if nz sq_id then nvme_io_cmd c s else nvme_admin_cmd c s
  | None => Some s
  end.

Context {HW : Workers}.

(** A worker runs one of the tasks, by its number. *)
Definition nvme_cmd_worker (i : nat) (s : sys) : option sys :=
  match s.(s_tasks) !! i with
  | Some (sq_id, sq_head) => s ← nvme_run_cmd sq_id sq_head s; Some (set_s_tasks (delete i s.(s_tasks)) s)
  | None => Some s
  end.

(** [thread_create_task_va] with a command: the pool has it, or it is run here. *)
Definition nvme_create_task (sq_id sq_head : Z) (s : sys) : option sys :=
  if wk_takes sq_id sq_head then Some (set_s_tasks (s.(s_tasks) ++ [(sq_id, sq_head)]) s)
  else nvme_run_cmd sq_id sq_head s.

Fixpoint drain_loop (fuel : nat) (sq_id : Z) (s : sys) : option sys :=
  match fuel with
  | O => None
  | S fuel =>
      match nvme_queue_dequeue (s.(s_dev).(nv_sq) sq_id) with
      | None => Some s
      | Some (q, head) =>
          let s := upd_sq sq_id (fun _ => q) s in
          s ← (if nz sq_id then nvme_create_task sq_id head s else nvme_run_cmd sq_id head s);
          drain_loop fuel sq_id s
      end
  end.

Definition nvme_drain_sq (sq_id : Z) (s : sys) : option sys :=
  drain_loop (Z.to_nat (s.(s_dev).(nv_sq) sq_id).(q_size) + 3) sq_id s.

(** A reset waits until the workers have run all of the tasks. *)
Fixpoint wait_workers (n : nat) (s : sys) : option sys :=
  match n with
  | O => Some s
  | S n => s ← nvme_cmd_worker (wk_next s.(s_tasks) mod length s.(s_tasks)) s; wait_workers n s
  end.

Definition nvme_reset (s : sys) : option sys :=
  s ← wait_workers (length s.(s_tasks)) s; Some (reset_queues s).

Definition nvme_doorbell (doorbell val : Z) (s : sys) : option sys :=
  let queue_id := doorbell .>> 1 in
  let val := u16 val in
  if nz (doorbell .& 1) then
    if nvme_get_queue queue_id then
      let s := upd_cq queue_id (set_q_head val) s in
      Some (if (s.(s_dev).(nv_cq) queue_id).(q_tail) =? val then nvme_queue_lower_irq (s.(s_dev).(nv_cq) queue_id) s else s)
    else Some s
  else if nvme_get_queue queue_id then nvme_drain_sq queue_id (upd_sq queue_id (set_q_tail val) s)
  else Some s.

Definition nvme_pci_read (s : sys) (offset : Z) : Z :=
  let n := s.(s_dev) in
  if offset =? 0x00 then 0xFF01FFFF
  else if offset =? 0x04 then 0x00000020
  else if offset =? 0x08 then NVME_VS_VERSION
  else if (offset =? 0x0C) || (offset =? 0x10) then n.(nv_irq_mask)
  else if offset =? 0x14 then (n.(nv_conf) .& NVME_CC_EN) .| NVME_CC_IOQES
  else if offset =? 0x1C then (n.(nv_conf) .& NVME_CSTS_RDY) .| (if nz (n.(nv_conf) .& NVME_CC_SHN) then NVME_CSTS_SHST else 0)
  else if offset =? 0x24 then (n.(nv_sq) 0).(q_size) .| u32 ((n.(nv_cq) 0).(q_size) .<< 16)
  else if offset =? 0x28 then (n.(nv_sq) 0).(q_addr_l)
  else if offset =? 0x2C then (n.(nv_sq) 0).(q_addr_h)
  else if offset =? 0x30 then (n.(nv_cq) 0).(q_addr_l)
  else if offset =? 0x34 then (n.(nv_cq) 0).(q_addr_h)
  else 0.

Definition nvme_pci_write (val offset : Z) (s : sys) : option sys :=
  let n := s.(s_dev) in
  if 0x1000 <=? offset then nvme_doorbell (u32 ((offset - 0x1000) .>> 2)) val s
  else if offset =? 0x0C then Some (nvme_check_masked_irqs val (set_s_dev (set_nv_irq_mask (n.(nv_irq_mask) .| val) n) s))
  else if offset =? 0x10 then Some (nvme_check_masked_irqs val (set_s_dev (set_nv_irq_mask (n.(nv_irq_mask) .& u32 (Z.lnot val)) n) s))
  else if offset =? 0x14 then
    let s := set_s_dev (set_nv_conf val n) s in
    if nz (val .& NVME_CC_SHN) || negb (nz (val .& NVME_CC_EN)) then nvme_reset s else Some s
  else if offset =? 0x24 then Some (upd_cq 0 (set_q_size (bit_cut val 16 12)) (upd_sq 0 (set_q_size (bit_cut val 0 12)) s))
  else if offset =? 0x28 then Some (upd_sq 0 (set_q_addr_l (val .& u32 (Z.lnot NVME_PAGE_MASK))) s)
  else if offset =? 0x2C then Some (upd_sq 0 (set_q_addr_h val) s)
  else if offset =? 0x30 then Some (upd_cq 0 (set_q_addr_l (val .& u32 (Z.lnot NVME_PAGE_MASK))) s)
  else if offset =? 0x34 then Some (upd_cq 0 (set_q_addr_h val) s)
  else Some s.

(** A controller as it is created, with interrupts for the admin queue. *)
Definition no_queue : nvme_queue := mk_queue 0 0 0 0 0 0.
Definition nvme_init_dev (serial : list Z) : nvme_dev :=
  mk_nvme (fun _ => no_queue) (<[0 := mk_queue 0 0 0 0 0 NVME_CQ_FLAGS_IEN]> (fun _ => no_queue)) 0 0 0 serial.

End nvme.

(** ** The pages of a transfer *)

Section prp_spec.
Context (rm : ram).

Local Abbreviation ram_end := (rm.(ram_addr) + rm.(ram_size)).
Definition in_ram (a n : Z) : Prop := rm.(ram_addr) <= a /\ 0 <= n /\ a + n <= ram_end.
Definition host_at (a : Z) : Z := rm.(ram_data) + (a - rm.(ram_addr)).
Definition page_of (a : Z) : Z := a - a mod 4096.
Definition prp_entry (m : memory) (L : Z) : Z := read_uint64_le m (host_at L).

(** The list of physical region pages at [L] for the last [R] bytes of a transfer: pages with
    the bytes in them, and the addresses of the entries that are read.  The last entry of a
    page of the list points to the next one when more than a page is left. *)
Inductive prp_walk (m : memory) : Z -> Z -> list (Z * Z) -> list Z -> Prop :=
| pw_done L : prp_walk m L 0 [] []
| pw_chain L R cs ls : 4096 < R -> (L + 8) mod 4096 = 0 -> in_ram (page_of L) 4096 ->
    prp_walk m (page_of (prp_entry m L)) R cs ls -> prp_walk m L R cs (L :: ls)
| pw_entry L R cs ls : 0 < R -> ((L + 8) mod 4096 = 0 -> R <= 4096) -> in_ram (page_of L) 4096 ->
    prp_walk m (L + 8) (R - Z.min 4096 R) cs ls -> prp_walk m L R ((prp_entry m L, Z.min 4096 R) :: cs) (L :: ls).

(** The pages of a command with the pointers [p1] and [p2]. *)
Inductive prp_chunks (m : memory) (p1 p2 size : Z) : list (Z * Z) -> list Z -> Prop :=
| pc_one : size <= 4096 - p1 mod 4096 -> prp_chunks m p1 p2 size [(p1, size)] []
| pc_two : let n := 4096 - p1 mod 4096 in n < size <= n + 4096 -> prp_chunks m p1 p2 size [(p1, n); (page_of p2, size - n)] []
| pc_list cs ls : let n := 4096 - p1 mod 4096 in n + 4096 < size -> prp_walk m (p2 - p2 mod 8) (size - n) cs ls ->
    prp_chunks m p1 p2 size ((p1, n) :: cs) ls.

Fixpoint contiguous (a : Z) (cs : list (Z * Z)) : Prop :=
  match cs with [] => True | (b, n) :: cs => b = a /\ contiguous (a + n) cs end.

Definition total (cs : list (Z * Z)) : Z := foldr (fun c n => c.2 + n) 0 cs.

Lemma total_app cs cs' : total (cs ++ cs') = total cs + total cs'.
Proof. induction cs as [|c cs IH]; cbn; [done|]. unfold total in *. rewrite IH. lia. Qed.

Lemma contiguous_app a cs cs' : contiguous a (cs ++ cs') <-> contiguous a cs /\ contiguous (a + total cs) cs'.
Proof.
  revert a. induction cs as [|[b n] cs IH]; intros a; cbn; [rewrite Z.add_0_r; tauto|]. rewrite IH. change (foldr (fun c n => c.2 + n) 0 cs) with (total cs).
  replace (a + n + total cs) with (a + (n + total cs)) by lia. tauto.
Qed.

Lemma contiguous_in_ram a cs : cs <> [] -> contiguous a cs -> Forall (fun c => in_ram c.1 c.2) cs -> in_ram a (total cs).
Proof.
  intros Hne Hc Hr. assert (G : forall cs a, contiguous a cs -> Forall (fun c => in_ram c.1 c.2) cs -> rm.(ram_addr) <= a <= ram_end -> in_ram a (total cs)).
  { clear. induction cs as [|[b n] cs IH]; intros a Hc Hr Ha; cbn in *; [unfold in_ram; lia|]. destruct Hc as [-> Hc]. apply Forall_cons_1 in Hr as [Hb Hr].
    destruct (IH (a + n) Hc Hr) as (H1 & H2 & H3); unfold in_ram in *; cbn in *; [lia|]. change (foldr (fun c n => c.2 + n) 0 cs) with (total cs) in *. lia. }
  apply G; auto. destruct cs as [|[b n] cs]; [done|]. destruct Hc as [-> _]. apply Forall_cons_1 in Hr as [Hb _]. unfold in_ram in Hb. cbn in Hb. lia.
Qed.

(** A walk depends on the entries it reads. *)
Lemma walk_frame m m' L R cs ls : prp_walk m L R cs ls -> (forall e, e ∈ ls -> prp_entry m' e = prp_entry m e) -> prp_walk m' L R cs ls.
Proof.
  intros W. induction W as [L|L R cs ls H1 H2 H3 W IH|L R cs ls H1 H2 H3 W IH]; intros Hm; [constructor| |].
  - apply pw_chain; auto. rewrite Hm by set_solver. apply IH. set_solver.
  - rewrite <- Hm by set_solver. apply pw_entry; auto. apply IH. set_solver.
Qed.

End prp_spec.

(** *** The regions the code takes *)

Lemma land_page x : 0 <= x -> x .& NVME_PAGE_MASK = x mod 4096.
Proof. intros. exact (Z.land_ones x 12 ltac:(lia)). Qed.

Lemma land_low_mask k x : 0 <= k <= 64 -> urange 64 x -> x .& u64 (Z.lnot (Z.ones k)) = x - x mod 2 ^ k.
Proof.
  intros Hk Hx. assert (E : x .& u64 (Z.lnot (Z.ones k)) = x / 2 ^ k * 2 ^ k).
  { rewrite <- Z.shiftl_mul_pow2, <- Z.shiftr_div_pow2 by lia. apply Z.bits_inj'. intros i Hi. autorewrite with zbits.
    destruct (Z.ltb_spec i k).
    - rewrite Z.testbit_neg_r with (n := i - k) by lia. cbn. by rewrite !andb_false_r.
    - rewrite Z.shiftr_spec by lia. replace (i - k + k) with i by lia. cbn. rewrite andb_true_r. destruct (Z.ltb_spec i 64); [by rewrite andb_true_r|].
      rewrite (testbit_above 64 x i) by (done || lia). reflexivity. }
  rewrite E. pose proof (Z.div_mod x (2 ^ k) ltac:(apply Z.pow_nonzero; lia)). lia.
Qed.

Lemma page_mask x : urange 64 x -> x .& u64 (Z.lnot NVME_PAGE_MASK) = page_of x.
Proof. intros. apply (land_low_mask 12); auto; lia. Qed.

Lemma qword_mask x : urange 64 x -> x .& u64 (Z.lnot 7) = x - x mod 8.
Proof. intros. apply (land_low_mask 3); auto; lia. Qed.

Lemma read64_range m a : valid_memory m -> urange 64 (read_uint64_le m a).
Proof. apply read_uint64_le_range. Qed.

Section regions.
Context {H F : Type} {HPci : PciHost H} {HImg : BlkImage F}.
Context (rm : ram) (Hrm : 0 <= rm.(ram_addr) /\ 0 <= rm.(ram_size) /\ rm.(ram_addr) + rm.(ram_size) < 2 ^ 64).
Local Abbreviation sys := (nvme_sys H F).
Local Abbreviation inr := (in_ram rm).
Local Abbreviation hp := (host_at rm).

Definition master (s : sys) : Prop := nz (s.(s_func).(pf_command) .& PCI_CMD_BUS_MASTER) = true.

Lemma dma_in (s : sys) a n : master s -> inr a n -> dma rm s a n = Some (hp a).
Proof.
  intros Hm (H1 & H2 & H3). unfold dma, pci_get_dma_ptr. rewrite Hm. unfold rvvm_get_dma_ptr, ram_access_ok.
  rewrite !wrap_small by (unfold urange; lia). rewrite (proj2 (Z.leb_le rm.(ram_addr) a)), (proj2 (Z.leb_le (a + n) _)) by lia. reflexivity.
Qed.

Lemma slot_page L : L mod 8 = 0 -> (L + 8) mod 4096 <> 0 -> page_of (L + 8) = page_of L.
Proof. unfold page_of. intros. dlia. Qed.

Lemma list_end_range L : inr (page_of L) 4096 -> 0 <= L -> urange 64 (L + 8).
Proof. unfold in_ram, page_of, urange. intros. dlia. Qed.

(** The loop takes pages as long as they follow each other. *)
Lemma prp_loop_spec (s : sys) p : valid_memory s.(s_mem) -> master s -> 0 <= nvme_prp_avail p < 2 ^ 63 -> 0 <= p.(prp1) ->
  forall L R cs ls, prp_walk rm s.(s_mem) L R cs ls -> forall fuel len mapped,
  0 <= L < 2 ^ 64 -> L mod 8 = 0 -> 0 < len -> len + R = nvme_prp_avail p -> Forall (fun c => inr c.1 c.2) cs -> inr p.(prp1) len ->
  (mapped = None \/ R = 0 \/ (inr (page_of L) 4096 -> mapped = Some (hp (page_of L)))) ->
  (R = 0 /\ (1 <= fuel)%nat \/ 2 * (R + 4096) + (if (L + 8) mod 4096 =? 0 then 4096 else 0) <= Z.of_nat fuel * 4096) ->
  exists p' len' cs1 cs2, prp_loop rm fuel s p L len mapped = Some (p', len') /\ cs = cs1 ++ cs2 /\ contiguous (p.(prp1) + len) cs1 /\
    Z.min len' (nvme_prp_avail p) = len + total cs1 /\
    ((cs2 = [] /\ p' = p) \/
     exists n cs3 ls3 L3, p' = mk_prp p'.(prp1) L3 p.(prp_size) p.(prp_cur) /\ cs2 = (p'.(prp1), n) :: cs3 /\ 0 <= p'.(prp1) /\ len' = len + total cs1 /\
       n = Z.min 4096 (nvme_prp_avail p - len') /\ 0 < n /\ prp_walk rm s.(s_mem) L3 (nvme_prp_avail p - len' - n) cs3 ls3 /\ (forall e, e ∈ ls3 -> e ∈ ls) /\ 0 <= L3 < 2 ^ 64 /\ L3 mod 8 = 0).
Proof.
  intros Hval Hma Hav Hp1 L R cs ls W. induction W as [L|L R cs ls W1 W2 W3 W IH|L R cs ls W1 W2 W3 W IH]; intros fuel len mapped HL HL8 Hlen Hsum Hcs Hreg Hmap Hfuel.
  - exists p, len, [], []. destruct fuel as [|fuel]; [destruct ((L + 8) mod 4096 =? 0); lia|]. cbn [prp_loop]. rewrite (proj2 (Z.ltb_ge len _)) by lia.
    split_and!; [done|done|exact I|cbn; lia|left; done].
  - destruct fuel as [|fuel]; [rewrite (proj2 (Z.eqb_eq _ _) W2) in Hfuel; lia|]. cbn [prp_loop]. rewrite (proj2 (Z.ltb_lt len _)) by lia.
    assert (Hd : match mapped with Some d => Some d | None => dma rm s (L .& u64 (Z.lnot NVME_PAGE_MASK)) NVME_PAGE_SIZE end = Some (hp (page_of L))).
    { destruct Hmap as [->|[?|Hmap]]; [|lia|by rewrite (Hmap W3)]. rewrite page_mask by done. by apply dma_in. }
    rewrite Hd. assert (Hlast : nz (u64 (L + 8) .& NVME_PAGE_MASK) = false).
    { rewrite wrap_small by (apply (list_end_range L); [done|lia]). rewrite land_page by lia. by rewrite W2. }
    rewrite Hlast, (wrap_small 64 (len + NVME_PAGE_SIZE)) by (change NVME_PAGE_SIZE with 4096; unfold urange in *; lia). change NVME_PAGE_SIZE with 4096.
    rewrite (proj2 (Z.ltb_lt (len + 4096) _)) by lia. cbn [negb andb].
    assert (Hslot : hp (page_of L) + 4096 - 8 = hp L) by (unfold host_at, page_of; dlia).
    rewrite Hslot. fold (prp_entry rm s.(s_mem) L). pose proof (read64_range s.(s_mem) (hp L) Hval) as Hent. fold (prp_entry rm s.(s_mem) L) in Hent.
    rewrite page_mask by done. set (L' := page_of (prp_entry rm s.(s_mem) L)) in *.
    assert (HL' : 0 <= L' < 2 ^ 64 /\ L' mod 4096 = 0) by (unfold L', page_of, urange in *; dlia).
    destruct (IH fuel len None) as (p' & len' & cs1 & cs2 & E1 & E2 & E3 & E4 & E5); auto; try lia.
    + dlia.
    + right. rewrite (proj2 (Z.eqb_eq _ _) W2) in Hfuel. rewrite (proj2 (Z.eqb_neq ((L' + 8) mod 4096) 0)) by dlia. lia.
    + exists p', len', cs1, cs2. split_and!; auto. destruct E5 as [?|(n & cs3 & ls3 & L3 & G1 & G2 & G3 & G4 & G5 & G6 & G7 & G8 & G9)]; [auto|right]. exists n, cs3, ls3, L3. split_and!; auto; try tauto. set_solver.
  - destruct fuel as [|fuel]; [destruct ((L + 8) mod 4096 =? 0); lia|]. cbn [prp_loop]. rewrite (proj2 (Z.ltb_lt len _)) by lia.
    assert (Hd : match mapped with Some d => Some d | None => dma rm s (L .& u64 (Z.lnot NVME_PAGE_MASK)) NVME_PAGE_SIZE end = Some (hp (page_of L))).
    { destruct Hmap as [->|[?|Hmap]]; [|lia|by rewrite (Hmap W3)]. rewrite page_mask by done. by apply dma_in. }
    rewrite Hd. pose proof (list_end_range L W3 ltac:(lia)) as HL8r.
    assert (Hb : negb (nz (u64 (L + 8) .& NVME_PAGE_MASK)) && (u64 (len + NVME_PAGE_SIZE) <? nvme_prp_avail p) = false).
    { rewrite (wrap_small 64 (L + 8)), land_page by (done || lia). unfold nz. destruct (Z.eqb_spec ((L + 8) mod 4096) 0) as [E|E]; [|done]. cbn [negb andb].
      apply Z.ltb_ge. change NVME_PAGE_SIZE with 4096. specialize (W2 E). destruct Hreg as (? & ? & ?). rewrite wrap_small by (unfold urange; lia). lia. }
    rewrite Hb. assert (Hslot : hp (page_of L) + (L .& NVME_PAGE_MASK) = hp L) by (rewrite land_page by lia; unfold host_at, page_of; lia).
    rewrite Hslot. fold (prp_entry rm s.(s_mem) L). pose proof (read64_range s.(s_mem) (hp L) Hval) as Hent. fold (prp_entry rm s.(s_mem) L) in Hent.
    rewrite (wrap_small 64 (L + 8)) by done. pose proof Hreg as (Hr1 & Hr2 & Hr3). rewrite (wrap_small 64 (p.(prp1) + len)) by (unfold urange; lia).
    destruct (Z.eqb_spec (prp_entry rm s.(s_mem) L) (p.(prp1) + len)) as [Epg|Epg]; cbn [negb].
    + pose proof (Forall_inv Hcs) as Hc0. pose proof (Forall_inv_tail Hcs) as Hcs'. cbn [fst snd] in Hc0.
      destruct (Z.leb_spec R 4096) as [HR|HR].
      * rewrite Z.min_r in * by lia. rewrite Z.sub_diag in W. assert (cs = []) as -> by (inversion W; [done|lia|lia]).
        destruct fuel as [|fuel]; [destruct ((L + 8) mod 4096 =? 0); lia|]. cbn [prp_loop].
        rewrite (wrap_small 64 (len + NVME_PAGE_SIZE)) by (change NVME_PAGE_SIZE with 4096; unfold urange; lia). change NVME_PAGE_SIZE with 4096.
        rewrite (proj2 (Z.ltb_ge (len + 4096) _)) by lia. exists p, (len + 4096), [(prp_entry rm (s_mem s) L, R)], []. cbn. split_and!; [done|done|done|done|lia|left; done].
      * rewrite Z.min_l in * by lia. rewrite (wrap_small 64 (len + NVME_PAGE_SIZE)) by (change NVME_PAGE_SIZE with 4096; unfold urange; unfold in_ram in Hc0; lia). change NVME_PAGE_SIZE with 4096.
        assert (Hn8 : (L + 8) mod 4096 <> 0) by (intros E; specialize (W2 E); lia).
        destruct (IH fuel (len + 4096) (Some (hp (page_of L)))) as (p' & len' & cs1 & cs2 & E1 & E2 & E3 & E4 & E5); auto; try lia.
        -- dlia.
        -- unfold in_ram in *; lia.
        -- right; right. intros _. by rewrite slot_page.
        -- rewrite (proj2 (Z.eqb_neq _ _) Hn8) in Hfuel. right. destruct ((L + 8 + 8) mod 4096 =? 0); lia.
        -- exists p', len', ((prp_entry rm (s_mem s) L, 4096) :: cs1), cs2. split_and!; auto.
           ++ cbn. by rewrite E2.
           ++ cbn. split; [done|]. by replace (p.(prp1) + len + 4096) with (p.(prp1) + (len + 4096)) by lia.
           ++ cbn. change (foldr (fun c n => c.2 + n) 0 cs1) with (total cs1). lia.
           ++ destruct E5 as [?|(n & cs3 & ls3 & L3 & G1 & G2 & G3 & G4 & G5 & G6 & G7 & G8 & G9)]; [auto|right]. exists n, cs3, ls3, L3. split_and!; auto; try tauto.
              ** cbn. change (foldr (fun c n => c.2 + n) 0 cs1) with (total cs1). lia.
              ** set_solver.
    + exists (mk_prp (prp_entry rm (s_mem s) L) (L + 8) p.(prp_size) p.(prp_cur)), len, [], ((prp_entry rm (s_mem s) L, Z.min 4096 R) :: cs). cbn [total foldr app contiguous prp1].
      split_and!; auto; [lia|]. right. exists (Z.min 4096 R), cs, ls, (L + 8). cbn [prp1]. replace (nvme_prp_avail p - len) with R by lia. split_and!; auto; try (unfold urange in *; lia); [set_solver|dlia].
Qed.

(** Between two regions: the next page starts at [prp1] and the others are on the list. *)
Definition pending (m : memory) (p : prp_ctx) (cs : list (Z * Z)) (ls : list Z) : Prop :=
  0 < p.(prp_cur) < p.(prp_size) /\ p.(prp_size) < 2 ^ 62 /\ 0 <= p.(prp1) /\ urange 64 p.(prp2) /\
  exists n cs', cs = (p.(prp1), n) :: cs' /\ n = Z.min 4096 (p.(prp_size) - p.(prp_cur)) /\
    prp_walk rm m (p.(prp2) - p.(prp2) mod 8) (p.(prp_size) - p.(prp_cur) - n) cs' ls.

Definition started (m : memory) (p : prp_ctx) (cs : list (Z * Z)) (ls : list Z) : Prop :=
  p.(prp_cur) = 0 /\ 0 < p.(prp_size) < 2 ^ 62 /\ urange 64 p.(prp1) /\ urange 64 p.(prp2) /\ prp_chunks rm m p.(prp1) p.(prp2) p.(prp_size) cs ls.

Lemma avail_eq p : 0 <= p.(prp_cur) <= p.(prp_size) -> p.(prp_size) < 2 ^ 62 -> nvme_prp_avail p = p.(prp_size) - p.(prp_cur).
Proof. intros. unfold nvme_prp_avail. apply wrap_small. unfold urange. lia. Qed.

(** What a region is, given how the list was followed. *)
Definition region_post (s : sys) (p : prp_ctx) (cs : list (Z * Z)) (ls : list Z) (r : option (prp_ctx * Z)) : Prop :=
  exists p' n cs1 cs2 ls2, r = Some (p', n) /\ cs = cs1 ++ cs2 /\ cs1 <> [] /\ contiguous p.(prp1) cs1 /\ n = total cs1 /\ 0 < n /\
    p'.(prp_size) = p.(prp_size) /\ p'.(prp_cur) = p.(prp_cur) /\ (forall e, e ∈ ls2 -> e ∈ ls) /\
    (cs2 = [] /\ p.(prp_cur) + n = p.(prp_size) \/
     pending s.(s_mem) (mk_prp p'.(prp1) p'.(prp2) p.(prp_size) (p.(prp_cur) + n)) cs2 ls2).

Lemma list_region_spec s p n0 cs ls : valid_memory s.(s_mem) -> master s -> 0 <= p.(prp_cur) <= p.(prp_size) -> p.(prp_size) < 2 ^ 62 ->
  0 <= p.(prp1) -> urange 64 p.(prp2) -> 0 < n0 <= 4096 -> n0 < p.(prp_size) - p.(prp_cur) ->
  prp_walk rm s.(s_mem) (p.(prp2) - p.(prp2) mod 8) (p.(prp_size) - p.(prp_cur) - n0) cs ls -> Forall (fun c => inr c.1 c.2) ((p.(prp1), n0) :: cs) ->
  region_post s p ((p.(prp1), n0) :: cs) ls (prp_list_region rm s p n0).
Proof.
  intros Hval Hma Hcur Hsize Hp1 Hp2 Hn0 Hlt W Hcs. unfold prp_list_region. pose proof (avail_eq p ltac:(lia) Hsize) as Hav.
  rewrite qword_mask by done. pose proof (Forall_inv Hcs) as Hc0. cbn [fst snd] in Hc0. pose proof (Forall_inv_tail Hcs) as Hcs'.
  destruct (prp_loop_spec s p Hval Hma ltac:(rewrite Hav; lia) Hp1 _ _ _ _ W (prp_fuel p) n0 None) as (p' & len' & cs1 & cs2 & E1 & E2 & E3 & E4 & E5); auto; try (unfold urange in *; dlia).
  { right. unfold prp_fuel. rewrite Hav. change NVME_PAGE_SIZE with 4096. destruct ((_ + 8) mod 4096 =? 0); dlia. }
  rewrite E1. exists p', (n0 + total cs1), ((p.(prp1), n0) :: cs1), cs2.
  assert (Htot : 0 <= total cs1).
  { assert (Forall (fun c => 0 <= c.2) cs1) as Hpos. { subst cs. apply Forall_app in Hcs' as [Hcs' _]. refine (Forall_impl _ _ Hcs'). intros c (_ & ? & _). lia. }
    clear -Hpos. induction cs1 as [|c cs1 IH]; cbn; [lia|]. pose proof (Forall_inv Hpos). specialize (IH (Forall_inv_tail Hpos)). unfold total in *. cbn in *. lia. }
  destruct E5 as [[-> ->]|(n & cs3 & ls3 & L3 & G1 & G2 & G3 & G4 & G5 & G6 & G7 & G8 & G9 & G10)].
  - exists (@nil Z). rewrite E4. assert (Eall : n0 + total cs1 = p.(prp_size) - p.(prp_cur)).
    { rewrite app_nil_r in E2. subst cs1. clear -W Hlt. assert (G : forall L R cs ls, prp_walk rm s.(s_mem) L R cs ls -> total cs = R); [|rewrite (G _ _ _ _ W); lia].
      clear. intros L R cs ls W. induction W as [L|L R cs ls W1 W2 W3 W IH|L R cs ls W1 W2 W3 W IH]; cbn; [done|done|]. unfold total in *. rewrite IH. lia. }
    split_and!; auto; try done; try lia; [by rewrite E2|set_solver|left; split; [done|lia]].
  - exists ls3. destruct p' as [q1 q2 q3 q4]. cbn in G1. injection G1 as -> -> ->. cbn [prp1 prp2 prp_size prp_cur] in *.
    rewrite (avail_eq (mk_prp q1 L3 p.(prp_size) p.(prp_cur))) by (cbn; lia). cbn [prp_size prp_cur]. rewrite Hav in *.
    split_and!; auto; try done; try lia; [by rewrite E4|by rewrite E2|]. right. split_and!; cbn [prp1 prp2 prp_size prp_cur]; try lia; try (unfold urange; lia).
    exists n, cs3. rewrite G10, Z.sub_0_r. split_and!; [done|lia|].
    by replace (p.(prp_size) - (p.(prp_cur) + (n0 + total cs1)) - n) with (p.(prp_size) - p.(prp_cur) - len' - n) by lia.
Qed.

Lemma parse_region_spec s p cs ls : valid_memory s.(s_mem) -> master s -> started s.(s_mem) p cs ls \/ pending s.(s_mem) p cs ls -> Forall (fun c => inr c.1 c.2) cs ->
  region_post s p cs ls (nvme_parse_prp_region rm s p).
Proof.
  intros Hval Hma Hst Hcs. unfold nvme_parse_prp_region. destruct Hst as [(Hc & Hs & Hp1 & Hp2 & C)|(Hc & Hs & Hp1 & Hp2 & n & cs' & -> & Hn & W)].
  - rewrite Hc. cbn [Z.eqb]. rewrite land_page by (unfold urange in *; lia). change NVME_PAGE_SIZE with 4096. pose proof (Z.mod_pos_bound p.(prp1) 4096 ltac:(lia)) as Hm.
    inversion C as [G1|n G1|cs' ls' n G1 W]; subst.
    + rewrite (proj2 (Z.leb_le p.(prp_size) _)) by lia. exists p, p.(prp_size), [(p.(prp1), p.(prp_size))], [], []. cbn. split_and!; auto; try done; try lia. left. split; [done|lia].
    + subst n. rewrite (proj2 (Z.leb_gt p.(prp_size) (4096 - p.(prp1) mod 4096))), (proj2 (Z.leb_le p.(prp_size) (4096 - p.(prp1) mod 4096 + 4096))) by lia.
      rewrite page_mask by done. pose proof (Forall_inv Hcs) as (Hr1 & Hr2 & Hr3). cbn [fst snd] in *. rewrite wrap_small by (unfold urange in *; lia).
      destruct (Z.eqb_spec (page_of p.(prp2)) (p.(prp1) + (4096 - p.(prp1) mod 4096))) as [E|E].
      * exists p, p.(prp_size), [(p.(prp1), 4096 - p.(prp1) mod 4096); (page_of p.(prp2), p.(prp_size) - (4096 - p.(prp1) mod 4096))], [], []. cbn. split_and!; auto; try done; try lia. left. split; [done|lia].
      * exists (mk_prp (page_of p.(prp2)) p.(prp2) p.(prp_size) 0), (4096 - p.(prp1) mod 4096), [(p.(prp1), 4096 - p.(prp1) mod 4096)], [(page_of p.(prp2), p.(prp_size) - (4096 - p.(prp1) mod 4096))], [].
        cbn. split_and!; auto; try done; try lia; try (by rewrite Hc). right. split_and!; cbn; try (unfold page_of, urange in *; dlia).
        eexists _, []. split_and!; [done|lia|]. match goal with |- prp_walk _ _ _ ?r _ _ => replace r with 0 by lia end. constructor.
    + subst n. rewrite (proj2 (Z.leb_gt p.(prp_size) (4096 - p.(prp1) mod 4096))), (proj2 (Z.leb_gt p.(prp_size) (4096 - p.(prp1) mod 4096 + 4096))) by lia.
      apply list_region_spec; auto; try (unfold urange in *; lia). by rewrite Hc, Z.sub_0_r.
  - rewrite (proj2 (Z.eqb_neq p.(prp_cur) 0)) by lia. change NVME_PAGE_SIZE with 4096. destruct (Z.ltb_spec 4096 (p.(prp_size) - p.(prp_cur))).
    + rewrite Z.min_l in Hn by lia. subst n. apply list_region_spec; auto; lia.
    + rewrite Z.min_r in Hn by lia. subst n. rewrite Z.sub_diag in W. assert (cs' = []) as -> by (inversion W; [done|lia|lia]).
      unfold prp_list_region, prp_fuel. destruct (Z.to_nat _) as [|fuel] eqn:Ef; [exfalso; pose proof (avail_eq p ltac:(lia) Hs) as Hav; rewrite Hav in Ef; change NVME_PAGE_SIZE with 4096 in Ef; dlia|].
      cbn [prp_loop]. rewrite (avail_eq p) by lia. rewrite (proj2 (Z.ltb_ge 4096 _)) by lia. rewrite (avail_eq p) by lia.
      exists p, (p.(prp_size) - p.(prp_cur)), [(p.(prp1), p.(prp_size) - p.(prp_cur))], [], []. cbn. split_and!; auto; try done; try lia; [f_equal; f_equal; lia|set_solver|]. left. split; [done|lia].
Qed.

(** The region of a command in progress: a run of pages from its first on, mapped. *)
Lemma get_region_spec s p cs ls : valid_memory s.(s_mem) -> master s -> started s.(s_mem) p cs ls \/ pending s.(s_mem) p cs ls -> Forall (fun c => inr c.1 c.2) cs ->
  exists p' n cs1 cs2 ls2, nvme_get_prp_region rm s p = Some (p', Some (hp p.(prp1)), n) /\ cs = cs1 ++ cs2 /\ cs1 <> [] /\ contiguous p.(prp1) cs1 /\ n = total cs1 /\ 0 < n /\
    p'.(prp_size) = p.(prp_size) /\ p'.(prp_cur) = p.(prp_cur) + n /\ (forall e, e ∈ ls2 -> e ∈ ls) /\
    (cs2 = [] /\ p'.(prp_cur) = p.(prp_size) \/ pending s.(s_mem) p' cs2 ls2).
Proof.
  intros Hval Hma Hst Hcs. destruct (parse_region_spec s p cs ls Hval Hma Hst Hcs) as (p' & n & cs1 & cs2 & ls2 & E & E1 & E2 & E3 & E4 & E5 & E6 & E7 & E8 & E9).
  unfold nvme_get_prp_region. rewrite E. unfold nz. rewrite (proj2 (Z.eqb_neq n 0)) by lia. cbn [negb].
  assert (Hin : inr p.(prp1) n). { subst n. apply contiguous_in_ram; auto. subst cs. by apply Forall_app in Hcs as [? _]. }
  assert (Hsz : 0 <= p.(prp_cur) /\ p.(prp_cur) + n < 2 ^ 64).
  { destruct Hin as (_ & _ & Hin). assert (p.(prp_size) < 2 ^ 62 /\ 0 <= p.(prp_cur) <= p.(prp_size)) by (destruct Hst as [(? & ? & _)|(? & ? & _)]; lia).
    destruct E9 as [[_ ?]|((? & ?) & _)]; cbn in *; lia. }
  rewrite dma_in by done. rewrite E7, wrap_small by (unfold urange; lia).
  exists (mk_prp p'.(prp1) p'.(prp2) p'.(prp_size) (p.(prp_cur) + n)), n, cs1, cs2, ls2. cbn [prp1 prp2 prp_size prp_cur]. rewrite E6. split_and!; auto.
Qed.

End regions.

(** ** Transfers *)

Section transfers.
Context {H F : Type} {HPci : PciHost H} {HImg : BlkImage F} {HImgOk : BlkImageOk F}.
Context (rm : ram) (irqs : Z -> Z) (Hrm : 0 <= rm.(ram_addr) /\ 0 <= rm.(ram_size) /\ rm.(ram_addr) + rm.(ram_size) < 2 ^ 64).
Local Abbreviation sys := (nvme_sys H F).
Local Abbreviation inr := (in_ram rm).
Local Abbreviation hp := (host_at rm).

(** The bytes of the pages of a transfer, and the memory with other bytes there. *)
Definition chunk_bytes (m : memory) (cs : list (Z * Z)) : list Z := flat_map (fun c => get_bytes (Z.to_nat c.2) m (hp c.1)) cs.

Fixpoint put_chunks (m : memory) (cs : list (Z * Z)) (data : list Z) : memory :=
  match cs with
  | [] => m
  | (a, n) :: cs => put_chunks (put_bytes m (hp a) (take (Z.to_nat n) data)) cs (drop (Z.to_nat n) data)
  end.

Lemma hp_add a n : hp (a + n) = hp a + n.
Proof. unfold host_at. lia. Qed.

Lemma total_nonneg cs : Forall (fun c => inr c.1 c.2) cs -> 0 <= total cs.
Proof. induction cs as [|c cs IH]; intros Hc; cbn; [lia|]. destruct (Forall_inv Hc) as (_ & ? & _). specialize (IH (Forall_inv_tail Hc)). unfold total in *. lia. Qed.

Lemma chunk_bytes_run m cs a : contiguous a cs -> Forall (fun c => inr c.1 c.2) cs -> chunk_bytes m cs = get_bytes (Z.to_nat (total cs)) m (hp a).
Proof.
  revert a. induction cs as [|[b n] cs IH]; intros a Hc Hr; [done|]. destruct Hc as [-> Hc]. destruct (Forall_inv Hr) as (_ & Hn & _). cbn [fst snd] in Hn.
  pose proof (total_nonneg cs (Forall_inv_tail Hr)) as Ht. cbn. change (foldr (fun c n => c.2 + n) 0 cs) with (total cs). fold (chunk_bytes m cs).
  rewrite (IH (a + n) Hc (Forall_inv_tail Hr)), Z2Nat.inj_add, get_bytes_app, Z2Nat.id, hp_add by lia. reflexivity.
Qed.

Lemma put_chunks_run m cs a data : contiguous a cs -> Forall (fun c => inr c.1 c.2) cs -> total cs <= Z.of_nat (length data) ->
  put_chunks m cs data = put_bytes m (hp a) (take (Z.to_nat (total cs)) data).
Proof.
  revert m a data. induction cs as [|[b n] cs IH]; intros m a data Hc Hr Hl; [done|]. destruct Hc as [-> Hc]. destruct (Forall_inv Hr) as (_ & Hn & _). cbn [fst snd] in Hn.
  pose proof (total_nonneg cs (Forall_inv_tail Hr)) as Ht. cbn in *. change (foldr (fun c n => c.2 + n) 0 cs) with (total cs) in *.
  rewrite (IH _ (a + n)); [|exact Hc|exact (Forall_inv_tail Hr)|rewrite length_drop; lia].
  rewrite Z2Nat.inj_add, hp_add by lia. rewrite <- (take_take_drop data (Z.to_nat n)), put_bytes_app, length_take. do 2 f_equal. lia.
Qed.

Lemma put_chunks_app m cs1 cs2 data : Forall (fun c => inr c.1 c.2) cs1 ->
  put_chunks m (cs1 ++ cs2) data = put_chunks (put_chunks m cs1 data) cs2 (drop (Z.to_nat (total cs1)) data).
Proof.
  revert m data. induction cs1 as [|[a n] cs1 IH]; intros m data Hr; [done|]. destruct (Forall_inv Hr) as (_ & Hn & _). cbn [fst snd] in Hn.
  pose proof (total_nonneg cs1 (Forall_inv_tail Hr)). cbn. change (foldr (fun c n => c.2 + n) 0 cs1) with (total cs1). rewrite IH by eauto using Forall_inv_tail. rewrite drop_drop. do 2 f_equal. lia.
Qed.

Lemma length_chunk_bytes m cs : Forall (fun c => inr c.1 c.2) cs -> Z.of_nat (length (chunk_bytes m cs)) = total cs.
Proof.
  induction cs as [|[a n] cs IH]; intros Hr; [done|]. destruct (Forall_inv Hr) as (_ & Hn & _). cbn in *. rewrite length_app, length_get_bytes. fold (chunk_bytes m cs).
  specialize (IH (Forall_inv_tail Hr)). unfold total in *. lia.
Qed.

(** The entries of the list are not among the pages that are written. *)
Definition list_apart (ls : list Z) (cs : list (Z * Z)) : Prop := forall e a n, e ∈ ls -> (a, n) ∈ cs -> e + 8 <= a \/ a + n <= e.

Lemma entry_put m e a l : e + 8 <= a \/ a + Z.of_nat (length l) <= e -> prp_entry rm (put_bytes m (hp a) l) e = prp_entry rm m e.
Proof. intros Hd. unfold prp_entry, read_uint64_le. f_equal. apply get_put_disjoint. unfold host_at. lia. Qed.

Lemma entry_put_chunks cs : forall m data e, (forall a n, (a, n) ∈ cs -> 0 <= n /\ (e + 8 <= a \/ a + n <= e)) -> prp_entry rm (put_chunks m cs data) e = prp_entry rm m e.
Proof.
  induction cs as [|[a n] cs IH]; intros m data e Hd; [done|]. cbn [put_chunks]. rewrite IH by (intros; apply Hd; set_solver). destruct (Hd a n ltac:(set_solver)) as [Hn Hd']. apply entry_put. rewrite length_take. lia.
Qed.

(** A disk that is open with the rights [right]. *)
Definition disk_open (right : Z) (b : rvvm_blk_dev F) : Prop := nz (b.(bd_opts) .& right) = true /\ b.(bd_size) < 2 ^ 62.

Lemma rw_write_spec c fuel : forall s p pos cs ls, valid_memory s.(s_mem) -> master s ->
  (started rm s.(s_mem) p cs ls \/ pending rm s.(s_mem) p cs ls) -> Forall (fun c => inr c.1 c.2) cs ->
  disk_open RVVM_BLK_WRITE s.(s_blk) -> 0 <= pos -> pos + (p.(prp_size) - p.(prp_cur)) <= s.(s_blk).(bd_size) ->
  p.(prp_size) - p.(prp_cur) < Z.of_nat fuel ->
  exists blk', rw_loop rm irqs fuel true c p pos s = Some (nvme_complete_cmd rm irqs c NVME_SC_SUCCESS (set_s_blk blk' s)) /\
    blk'.(bd_size) = s.(s_blk).(bd_size) /\ blk'.(bd_opts) = s.(s_blk).(bd_opts) /\
    forall q, img_bytes blk'.(bd_data) q = put_bytes (img_bytes s.(s_blk).(bd_data)) pos (chunk_bytes s.(s_mem) cs) q.
Proof.
  induction fuel as [|fuel IH]; intros s p pos cs ls Hval Hma Hst Hcs [Ho Hsz] Hpos Hend Hfuel.
  { destruct Hst as [(? & ? & _)|(? & ? & _)]; lia. }
  assert (Hp : 0 <= p.(prp_cur) < p.(prp_size) /\ p.(prp_size) < 2 ^ 62) by (destruct Hst as [(? & ? & _)|(? & ? & _)]; lia).
  cbn [rw_loop]. rewrite (avail_eq p) by lia. unfold nz at 1. rewrite (proj2 (Z.eqb_neq (p.(prp_size) - p.(prp_cur)) 0)) by lia. cbn [negb].
  destruct (get_region_spec rm Hrm s p cs ls Hval Hma Hst Hcs) as (p' & n & cs1 & cs2 & ls2 & E & -> & E2 & E3 & E4 & E5 & E6 & E7 & E8 & E9).
  apply Forall_app in Hcs as [Hcs1 Hcs2]. rewrite E. set (src := get_bytes (Z.to_nat n) (s_mem s) (hp (prp1 p))).
  assert (Hsrc : src = chunk_bytes s.(s_mem) cs1) by (unfold src; subst n; symmetry; by apply chunk_bytes_run).
  assert (Hlen : Z.of_nat (length src) = n) by (unfold src; rewrite length_get_bytes; lia).
  assert (Hn : p.(prp_cur) + n <= p.(prp_size)) by (destruct E9 as [[_ ?]|((? & ?) & _)]; lia).
  destruct (img_write_ok s.(s_blk).(bd_data) src pos) as [W1 W2]. unfold rvvm_blk_write. rewrite Ho, Hlen.
  rewrite (proj2 (Z.ltb_lt pos _)), (proj2 (Z.leb_le n _)) by lia. destruct (img_write (bd_data (s_blk s)) src pos) as [f' w]. cbn [fst snd] in W1, W2.
  rewrite W1, Hlen, Z.eqb_refl. cbn [negb]. rewrite wrap_small by (unfold urange; lia). set (s1 := set_s_blk _ s).
  destruct E9 as [[-> Ec]|E9].
  - exists (set_bd_data f' s.(s_blk)). split.
    + destruct fuel as [|fuel]; [lia|]. cbn [rw_loop]. rewrite (avail_eq p') by lia. rewrite Ec, E6, Z.sub_diag. reflexivity.
    + split_and!; [done|done|]. intros q. cbn. rewrite W2, Hsrc, app_nil_r. reflexivity.
  - destruct (IH s1 p' (pos + n) cs2 ls2) as (blk' & R1 & R2 & R3 & R4); auto; cbn; try lia.
    + split; auto.
    + exists blk'. split_and!; auto. intros q. rewrite R4. unfold chunk_bytes. rewrite flat_map_app, put_bytes_app. fold (chunk_bytes s.(s_mem) cs1) (chunk_bytes s.(s_mem) cs2). rewrite <- Hsrc, Hlen.
      rewrite !(put_bytes_lookup _ (pos + n)). destruct ((_ <=? _) && _); [done|]. apply W2.
Qed.

Lemma set_mem_mem (m m' : memory) (s : sys) : set_s_mem m' (set_s_mem m s) = set_s_mem m' s.
Proof. reflexivity. Qed.

Lemma rw_read_spec c fuel : forall s p pos cs ls, valid_memory s.(s_mem) -> master s ->
  (started rm s.(s_mem) p cs ls \/ pending rm s.(s_mem) p cs ls) -> Forall (fun c => inr c.1 c.2) cs -> list_apart ls cs ->
  disk_open RVVM_BLK_READ s.(s_blk) -> valid_memory (img_bytes s.(s_blk).(bd_data)) -> 0 <= pos -> pos + (p.(prp_size) - p.(prp_cur)) <= s.(s_blk).(bd_size) ->
  p.(prp_size) - p.(prp_cur) < Z.of_nat fuel ->
  rw_loop rm irqs fuel false c p pos s = Some (nvme_complete_cmd rm irqs c NVME_SC_SUCCESS
    (set_s_mem (put_chunks s.(s_mem) cs (get_bytes (Z.to_nat (p.(prp_size) - p.(prp_cur))) (img_bytes s.(s_blk).(bd_data)) pos)) s)).
Proof.
  induction fuel as [|fuel IH]; intros s p pos cs ls Hval Hma Hst Hcs Hap [Ho Hsz] Hvi Hpos Hend Hfuel.
  { destruct Hst as [(? & ? & _)|(? & ? & _)]; lia. }
  assert (Hp : 0 <= p.(prp_cur) < p.(prp_size) /\ p.(prp_size) < 2 ^ 62) by (destruct Hst as [(? & ? & _)|(? & ? & _)]; lia).
  cbn [rw_loop]. rewrite (avail_eq p) by lia. unfold nz at 1. rewrite (proj2 (Z.eqb_neq (p.(prp_size) - p.(prp_cur)) 0)) by lia. cbn [negb].
  destruct (get_region_spec rm Hrm s p cs ls Hval Hma Hst Hcs) as (p' & n & cs1 & cs2 & ls2 & E & -> & E2 & E3 & E4 & E5 & E6 & E7 & E8 & E9).
  apply Forall_app in Hcs as [Hcs1 Hcs2]. rewrite E.
  assert (Hn : p.(prp_cur) + n <= p.(prp_size)) by (destruct E9 as [[_ ?]|((? & ?) & _)]; lia).
  unfold rvvm_blk_read. rewrite Ho, (proj2 (Z.ltb_lt pos _)) by lia. rewrite (proj2 (Z.ltb_ge _ n)) by lia. rewrite img_read_ok.
  set (img := img_bytes s.(s_blk).(bd_data)) in *. set (rest := p.(prp_size) - p.(prp_cur)) in *.
  rewrite length_get_bytes, Z2Nat.id, Z.eqb_refl by lia. cbn [negb]. rewrite wrap_small by (unfold urange; lia).
  assert (Hall : get_bytes (Z.to_nat rest) img pos = get_bytes (Z.to_nat n) img pos ++ get_bytes (Z.to_nat (rest - n)) img (pos + n)).
  { replace (Z.to_nat rest) with (Z.to_nat n + Z.to_nat (rest - n))%nat by lia. rewrite get_bytes_app, Z2Nat.id by lia. reflexivity. }
  assert (Hput : put_bytes s.(s_mem) (hp p.(prp1)) (get_bytes (Z.to_nat n) img pos) = put_chunks s.(s_mem) cs1 (get_bytes (Z.to_nat rest) img pos)).
  { rewrite (put_chunks_run _ _ p.(prp1)) by (done || (rewrite length_get_bytes; lia)). rewrite Hall, <- E4, take_app_length'; [done|by rewrite length_get_bytes]. }
  set (s1 := set_s_mem _ s). assert (Hdrop : drop (Z.to_nat n) (get_bytes (Z.to_nat rest) img pos) = get_bytes (Z.to_nat (rest - n)) img (pos + n)).
  { rewrite Hall. apply drop_app_length'. by rewrite length_get_bytes. }
  rewrite put_chunks_app by done. rewrite <- E4, <- Hput, Hdrop.
  destruct E9 as [[-> Ec]|E9].
  - destruct fuel as [|fuel]; [lia|]. cbn [rw_loop]. rewrite (avail_eq p') by lia. rewrite Ec, E6, Z.sub_diag. reflexivity.
  - assert (Hframe : forall e, e ∈ ls2 -> prp_entry rm s1.(s_mem) e = prp_entry rm s.(s_mem) e).
    { intros e He. cbn. rewrite Hput. apply entry_put_chunks. intros a k Hak. split; [|apply (Hap e a k); set_solver].
      rewrite Forall_forall in Hcs1. destruct (Hcs1 (a, k)) as (_ & ? & _); [by apply list_elem_of_In|]. done. }
    rewrite (IH s1 p' (pos + n) cs2 ls2); auto; cbn; try lia.
    + replace (p'.(prp_size) - p'.(prp_cur)) with (rest - n) by lia. reflexivity.
    + apply put_bytes_valid; [done|]. by apply get_bytes_bytes.
    + right. destruct E9 as (G1 & G2 & G3 & G4 & k & cs' & G5 & G6 & W). refine (conj G1 (conj G2 (conj G3 (conj G4 _)))). exists k, cs'. split_and!; auto. by apply (walk_frame rm s.(s_mem)).
    + intros e a k He Ha. apply (Hap e a k); set_solver.
    + split; done.
Qed.


(** C13: Reads and writes.  For a command whose pages, as the specification reads them from the
    entry and from its lists, are in RAM, and whose blocks are on the disk: a write puts the
    bytes of the pages, in their order, on the blocks and changes nothing else on the disk; a
    read puts the bytes of the blocks into the pages, if those are apart from the list itself,
    and changes no other memory.  Both complete with success. *)
Theorem nvme_read_write c (s : sys) cs ls :
  let m := s.(s_mem) in
  let lba := read_uint64_le m (c.(c_sqe) + NVME_SQE_CDW10) in
  let size := (read_uint16_le m (c.(c_sqe) + NVME_SQE_CDW12) + 1) * 512 in
  let img := img_bytes s.(s_blk).(bd_data) in
  valid_memory m -> master s ->
  prp_chunks rm m (read_uint64_le m (c.(c_sqe) + NVME_SQE_PRP1)) (read_uint64_le m (c.(c_sqe) + NVME_SQE_PRP2)) size cs ls ->
  Forall (fun x => inr x.1 x.2) cs -> lba * 512 + size <= s.(s_blk).(bd_size) ->
  (m c.(c_sqe) = 0x01 -> disk_open RVVM_BLK_WRITE s.(s_blk) ->
   exists blk', nvme_io_cmd rm irqs c s = Some (nvme_complete_cmd rm irqs c NVME_SC_SUCCESS (set_s_blk blk' s)) /\
     blk'.(bd_size) = s.(s_blk).(bd_size) /\ forall q, img_bytes blk'.(bd_data) q = put_bytes img (lba * 512) (chunk_bytes m cs) q) /\
  (m c.(c_sqe) = 0x02 -> disk_open RVVM_BLK_READ s.(s_blk) -> valid_memory img -> list_apart ls cs ->
   nvme_io_cmd rm irqs c s = Some (nvme_complete_cmd rm irqs c NVME_SC_SUCCESS (set_s_mem (put_chunks m cs (get_bytes (Z.to_nat size) img (lba * 512))) s))).
Proof.
  intros m lba size img Hval Hma Hcs Hr Hend.
  assert (Hlba : urange 64 lba) by (apply read_uint64_le_range; done).
  assert (Hnlb : urange 16 (read_uint16_le m (c.(c_sqe) + NVME_SQE_CDW12))) by (apply read_uint16_le_range; done).
  assert (Hs : 0 < size <= 2 ^ 25) by (unfold size, urange in *; lia).
  set (p := mk_prp (read_uint64_le m (c.(c_sqe) + NVME_SQE_PRP1)) (read_uint64_le m (c.(c_sqe) + NVME_SQE_PRP2)) size 0).
  assert (Hst : started rm s.(s_mem) p cs ls \/ pending rm s.(s_mem) p cs ls).
  { left. split_and!; cbn; try lia; auto; apply read_uint64_le_range; done. }
  assert (Hio : forall write, s.(s_blk).(bd_size) < 2 ^ 62 -> nvme_io_rw rm irqs write c s = rw_loop rm irqs (S (Z.to_nat size)) write c p (lba * 512) s).
  { intros write Hb. unfold nvme_io_rw. change (s_mem s) with m. fold lba. rewrite (Z.shiftl_mul_pow2 lba) by done. change (2 ^ NVME_LBA_SHIFT) with 512.
    rewrite wrap_small by (unfold urange in *; lia). rewrite Z.shiftl_mul_pow2 by done. change (2 ^ NVME_LBA_SHIFT) with 512. fold size. reflexivity. }
  unfold nvme_io_cmd. change (s_mem s) with m. split.
  - intros Hop Ho. rewrite Hop. cbn [Z.eqb Pos.eqb orb]. rewrite Hio by apply Ho.
    destruct (rw_write_spec c (S (Z.to_nat size)) s p (lba * 512) cs ls Hval Hma Hst Hr Ho) as (blk' & E1 & E2 & E3 & E4); cbn [prp_size prp_cur p]; try (unfold urange in *; lia).
    exists blk'. auto.
  - intros Hop Ho Hvi Hap. rewrite Hop. cbn [Z.eqb Pos.eqb orb]. rewrite Hio by apply Ho.
    rewrite (rw_read_spec c (S (Z.to_nat size)) s p (lba * 512) cs ls Hval Hma Hst Hr Hap Ho Hvi); cbn [prp_size prp_cur p]; try (unfold urange in *; lia).
    rewrite Z.sub_0_r. reflexivity.
Qed.

End transfers.

(** ** Progress *)

Section progress.
Context {H F : Type} {HPci : PciHost H} {HImg : BlkImage F}.
Context (rm : ram).
Local Abbreviation sys := (nvme_sys H F).

Definition prp_ok (p : prp_ctx) : Prop := 0 <= p.(prp_cur) <= p.(prp_size) /\ p.(prp_size) < 2 ^ 62.

(** The loop over a list ends, whatever the list contains. *)
Lemma prp_loop_total (s : sys) p : prp_ok p -> forall fuel L len mapped, 0 < len < 2 ^ 63 ->
  (nvme_prp_avail p <= len /\ (1 <= fuel)%nat \/
   len < nvme_prp_avail p /\ 2 * (nvme_prp_avail p - len + 4096) + (if u64 (L + 8) mod 4096 =? 0 then 4096 else 0) <= Z.of_nat fuel * 4096) ->
  exists p' len', prp_loop rm fuel s p L len mapped = Some (p', len') /\ 0 < len' /\ p'.(prp_size) = p.(prp_size) /\ p'.(prp_cur) = p.(prp_cur).
Proof.
  intros [Hc Hs]. pose proof (avail_eq p Hc Hs) as Hav. induction fuel as [|fuel IH]; intros L len mapped Hlen Hf.
  { destruct Hf as [[_ ?]|[? Hf]]; [lia|]. destruct (u64 (L + 8) mod 4096 =? 0); lia. }
  cbn [prp_loop]. destruct (Z.ltb_spec len (nvme_prp_avail p)) as [Hlt|Hge]; [|eexists _, _; split; [reflexivity|split; [lia|auto]]].
  destruct (match mapped with Some d => Some d | None => dma rm s (L .& u64 (Z.lnot NVME_PAGE_MASK)) NVME_PAGE_SIZE end) as [d|]; [|eexists _, _; split; [reflexivity|split; [lia|auto]]].
  change NVME_PAGE_SIZE with 4096. rewrite land_page by (apply wrap_range; lia).
  rewrite (wrap_small 64 (len + 4096)) by (unfold urange; lia). unfold nz.
  destruct (Z.eqb_spec (u64 (L + 8) mod 4096) 0) as [E|E]; cbn [negb andb].
  - destruct (Z.ltb_spec (len + 4096) (nvme_prp_avail p)).
    + set (L' := read_uint64_le s.(s_mem) (d + 4096 - 8) .& u64 (Z.lnot NVME_PAGE_MASK)).
      assert (E' : u64 (L' + 8) mod 4096 = 8).
      { assert (HL : L' mod 4096 = 0).
        { unfold L'. change 4096 with (2 ^ 12). rewrite <- Z.land_ones by lia. rewrite <- Z.land_assoc. replace (u64 (Z.lnot NVME_PAGE_MASK) .& Z.ones 12) with 0 by reflexivity. apply Z.land_0_r. }
        unfold wrap. change (2 ^ 64) with (4096 * 2 ^ 52). rewrite Z.rem_mul_r by lia. rewrite (Z.mul_comm 4096), Z_mod_plus_full. dlia. }
      apply IH; [lia|]. right. rewrite E'. change (8 =? 0) with false. cbv iota. lia.
    + match goal with |- context [if negb ?b then _ else _] => destruct b end; cbn [negb]; [|eexists _, _; split; [reflexivity|split; [lia|auto]]]. apply IH; [lia|]. left. split; [lia|]. destruct Hf as [?|?]; lia.
  - match goal with |- context [if negb ?b then _ else _] => destruct b end; cbn [negb]; [|eexists _, _; split; [reflexivity|split; [lia|auto]]]. apply IH; [lia|]. destruct (Z.leb_spec (nvme_prp_avail p) (len + 4096)); [left; split; [lia|destruct Hf; lia]|].
    right. destruct (_ =? 0); destruct Hf; lia.
Qed.

Lemma parse_total (s : sys) p : prp_ok p -> p.(prp_cur) < p.(prp_size) -> exists p' n, nvme_parse_prp_region rm s p = Some (p', n) /\
  0 < n <= p.(prp_size) - p.(prp_cur) /\ p'.(prp_size) = p.(prp_size) /\ p'.(prp_cur) = p.(prp_cur).
Proof.
  intros Hok Hlt. pose proof Hok as [Hc Hs]. pose proof (avail_eq p Hc Hs) as Hav.
  assert (Hlist : forall len, 0 < len <= 4096 -> exists p' n, prp_list_region rm s p len = Some (p', n) /\
            0 < n <= p.(prp_size) - p.(prp_cur) /\ p'.(prp_size) = p.(prp_size) /\ p'.(prp_cur) = p.(prp_cur)).
  { intros len Hlen. unfold prp_list_region.
    destruct (prp_loop_total s p Hok (prp_fuel p) (p.(prp2) .& u64 (Z.lnot 7)) len None ltac:(lia)) as (p' & len' & -> & G1 & G2 & G3).
    - unfold prp_fuel. rewrite Hav. change NVME_PAGE_SIZE with 4096. destruct (Z.leb_spec (p.(prp_size) - p.(prp_cur)) len); [left; split; [lia|dlia]|right].
      split; [lia|]. destruct (_ =? 0); dlia.
    - exists p', (Z.min len' (nvme_prp_avail p')). rewrite (avail_eq p') by lia. rewrite G2, G3. split_and!; auto; lia. }
  unfold nvme_parse_prp_region. assert (Hm : 0 <= p.(prp1) .& NVME_PAGE_MASK < 4096) by (change NVME_PAGE_MASK with (Z.ones 12); rewrite Z.land_ones by lia; apply Z.mod_pos_bound; lia).
  change NVME_PAGE_SIZE with 4096. destruct (Z.eqb_spec p.(prp_cur) 0) as [E|E]; [|apply Hlist; lia].
  destruct (Z.leb_spec p.(prp_size) (4096 - (p.(prp1) .& NVME_PAGE_MASK))); [exists p, p.(prp_size); split_and!; auto; lia|].
  destruct (Z.leb_spec p.(prp_size) (4096 - (p.(prp1) .& NVME_PAGE_MASK) + 4096)); [|apply Hlist; lia].
  case_bool; [exists p, p.(prp_size); split_and!; auto; lia|]. eexists _, _. split; [reflexivity|]. cbn. split_and!; auto; lia.
Qed.

Lemma get_region_total (s : sys) p : prp_ok p -> p.(prp_cur) < p.(prp_size) -> exists p' b n, nvme_get_prp_region rm s p = Some (p', b, n) /\
  prp_ok p' /\ p'.(prp_size) = p.(prp_size) /\ p.(prp_cur) < p'.(prp_cur).
Proof.
  intros Hok Hlt. destruct (parse_total s p Hok Hlt) as (p' & n & E & Hn & G1 & G2). pose proof Hok as [Hc Hs].
  unfold nvme_get_prp_region. rewrite E. unfold nz. rewrite (proj2 (Z.eqb_neq n 0)) by lia. cbn [negb]. rewrite wrap_small by (unfold urange; lia).
  destruct (dma rm s p.(prp1) n) as [d|]; eexists _, _, _; (split; [reflexivity|]); unfold prp_ok; cbn; rewrite G1, G2; split_and!; auto; lia.
Qed.

(** Nothing is left to transfer. *)
Lemma get_region_end (s : sys) p : prp_ok p -> p.(prp_cur) = p.(prp_size) -> nvme_get_prp_region rm s p = Some (p, None, 0).
Proof.
  intros [Hc Hs] E. unfold nvme_get_prp_region. replace (nvme_parse_prp_region rm s p) with (Some (p, 0)); [done|].
  unfold nvme_parse_prp_region. change NVME_PAGE_SIZE with 4096. assert (Hm : 0 <= p.(prp1) .& NVME_PAGE_MASK < 4096) by (change NVME_PAGE_MASK with (Z.ones 12); rewrite Z.land_ones by lia; apply Z.mod_pos_bound; lia).
  destruct (Z.eqb_spec p.(prp_cur) 0).
  - rewrite (proj2 (Z.leb_le p.(prp_size) _)) by lia. do 2 f_equal. lia.
  - unfold prp_list_region, prp_fuel. rewrite (avail_eq p) by lia. rewrite E, Z.sub_diag. change (Z.to_nat _) with 6%nat. cbn [prp_loop]. rewrite (avail_eq p), E, Z.sub_diag by lia. cbn. rewrite (avail_eq p), E, Z.sub_diag by lia. reflexivity.
Qed.

End progress.

(** ** Doorbells *)

(** Reading an image gives bytes. *)
Class ImgBytes (F : Type) `{BlkImage F} := img_read_bytes : forall f size off, bytes (img_read f size off).

Create HintDb nvme.

Section doorbells.
Context {H F : Type} {HPci : PciHost H} {HImg : BlkImage F} {HBytes : ImgBytes F}.
Context {HW : Workers} (rm : ram) (irqs : Z -> Z).
Local Abbreviation sys := (nvme_sys H F).

(** A state in which memory holds bytes, the submission queue [q] is [sq], and the pool has the
    tasks [ts]. *)
Record sq_inv (q : Z) (sq : nvme_queue) (ts : list (Z * Z)) (s : sys) : Prop := mk_sq_inv {
  iv_mem : valid_memory s.(s_mem);
  iv_serial : bytes s.(s_dev).(nv_serial);
  iv_tasks : s.(s_tasks) = ts;
  iv_sq : s.(s_dev).(nv_sq) q = sq
}.

(** The entries from [head] on, and running or handing them over one after the other. *)
Definition submitted (size head tail : Z) : list Z := map (fun k => (head + Z.of_nat k) mod (size + 1)) (seq 0 (Z.to_nat ((tail - head) mod (size + 1)))).

Fixpoint run_entries (sq_id size : Z) (l : list Z) (s : sys) : option sys :=
  match l with
  | [] => Some s
  | h :: l =>
      let s := upd_sq sq_id (set_q_head ((h + 1) mod (size + 1))) s in
      s ← (if (sq_id =? 0) || negb (wk_takes sq_id h) then nvme_run_cmd rm irqs sq_id h s else Some (set_s_tasks (s.(s_tasks) ++ [(sq_id, h)]) s));
      run_entries sq_id size l s
  end.

Section invariant.
Context (q : Z) (sq : nvme_queue) (ts : list (Z * Z)).
Local Abbreviation inv := (sq_inv q sq ts).

Lemma inv_mem m s : inv s -> valid_memory m -> inv (set_s_mem m s).
Proof. intros [? ? ? ?] ?. by split. Qed.
Lemma inv_blk b s : inv s -> inv (set_s_blk b s).
Proof. intros [? ? ? ?]. by split. Qed.
Lemma inv_cq i f s : inv s -> inv (upd_cq i f s).
Proof. intros [? ? ? ?]. by split. Qed.
Lemma inv_sq i f s : inv s -> i <> q -> inv (upd_sq i f s).
Proof. intros [? ? ? ?] Hne. split; cbn; auto. by rewrite fupd_ne. Qed.

Lemma inv_raise cq s : inv s -> inv (nvme_queue_raise_irq irqs cq s).
Proof. intros [? ? ? ?]. unfold nvme_queue_raise_irq. destruct (nz _); [|by split]. destruct (negb _); [|by split]. destruct (pci_raise_irq _ _ _ _). by split. Qed.
Lemma inv_lower cq s : inv s -> inv (nvme_queue_lower_irq irqs cq s).
Proof. intros [? ? ? ?]. unfold nvme_queue_lower_irq. destruct (pci_lower_irq _ _ _ _). by split. Qed.

Lemma inv_complete_cs c st cs s : inv s -> inv (nvme_complete_cmd_cs rm irqs c st cs s).
Proof.
  intros Hi. unfold nvme_complete_cmd_cs. destruct (nvme_get_queue _); [|done]. destruct (nvme_queue_enqueue _) as [cq t].
  destruct (dma _ _ _ _); [|by apply inv_cq]. apply inv_raise, inv_mem; [by apply inv_cq|]. repeat apply put_bytes_valid; auto with rv. apply Hi.
Qed.

Lemma inv_complete c st s : inv s -> inv (nvme_complete_cmd rm irqs c st s).
Proof. apply inv_complete_cs. Qed.

Hint Resolve inv_mem inv_blk inv_cq inv_sq inv_raise inv_lower inv_complete inv_complete_cs : nvme.

(** A copy to the pages, a transfer and a trim return, in such a state. *)
Lemma copy_inv fuel : forall p data s, prp_ok p -> p.(prp_size) - p.(prp_cur) < Z.of_nat fuel -> bytes data -> inv s ->
  exists s', copy_loop rm fuel p data s = Some s' /\ inv s'.
Proof.
  induction fuel as [|fuel IH]; intros p data s Hok Hf Hb Hi; [destruct Hok; lia|]. cbn [copy_loop].
  destruct (Z.eq_dec p.(prp_cur) p.(prp_size)) as [E|E].
  - rewrite get_region_end by done. eauto.
  - destruct (get_region_total rm s p Hok ltac:(destruct Hok; lia)) as (p' & b & n & -> & Hok' & G1 & G2). destruct b as [b|]; [|eauto].
    apply IH; [done|lia|by apply Forall_drop|]. apply inv_mem; [done|]. apply put_bytes_valid; [apply Hi|]. apply Forall_take, Forall_app. split; [done|].
    apply Forall_replicate. unfold urange. lia.
Qed.

Lemma blk_read_bytes (b : rvvm_blk_dev F) n pos : bytes (rvvm_blk_read b n pos).
Proof. unfold rvvm_blk_read. repeat case_match; try constructor; apply img_read_bytes. Qed.

Lemma rw_inv fuel : forall write c p pos s, prp_ok p -> p.(prp_size) - p.(prp_cur) < Z.of_nat fuel -> inv s ->
  exists s', rw_loop rm irqs fuel write c p pos s = Some s' /\ inv s'.
Proof.
  induction fuel as [|fuel IH]; intros write c p pos s Hok Hf Hi; pose proof Hok as [Hc Hs]; [lia|]. cbn [rw_loop]. rewrite (avail_eq p) by lia. unfold nz at 1.
  destruct (Z.eqb_spec (p.(prp_size) - p.(prp_cur)) 0); cbn [negb]; [eauto with nvme|].
  destruct (get_region_total rm s p Hok ltac:(lia)) as (p' & b & n' & -> & Hok' & G1 & G2).
  assert (Hgo : forall s' tmp, inv s' -> exists s'', (if negb (tmp =? n') then Some (nvme_complete_cmd rm irqs c NVME_SC_DATA_ERR s') else rw_loop rm irqs fuel write c p' (u64 (pos + n')) s') = Some s'' /\ inv s'').
  { intros s' tmp Hi'. destruct (negb _); [eauto with nvme|]. apply IH; auto; lia. }
  destruct b as [b|]; [|by apply Hgo]. destruct write.
  - destruct (rvvm_blk_write _ _ _). apply Hgo; eauto with nvme.
  - apply Hgo. apply inv_mem; [done|]. apply put_bytes_valid; [apply Hi|apply blk_read_bytes].
Qed.

Lemma trim_ranges_inv fuel : forall b i n s, inv s -> inv (trim_ranges fuel b i n s).
Proof. induction fuel as [|fuel IH]; intros b i n s Hi; [done|]. cbn [trim_ranges]. destruct (i <? n); [|done]. apply IH. by apply inv_blk. Qed.

Lemma trim_inv fuel : forall c p s, prp_ok p -> p.(prp_size) - p.(prp_cur) < Z.of_nat fuel -> inv s ->
  exists s', trim_loop rm irqs fuel c p s = Some s' /\ inv s'.
Proof.
  induction fuel as [|fuel IH]; intros c p s Hok Hf Hi; pose proof Hok as [Hc Hs]; [lia|]. cbn [trim_loop]. rewrite (avail_eq p) by lia. unfold nz at 1.
  destruct (Z.eqb_spec (p.(prp_size) - p.(prp_cur)) 0); cbn [negb]; [eauto with nvme|].
  destruct (get_region_total rm s p Hok ltac:(lia)) as (p' & b & n' & -> & Hok' & G1 & G2). apply IH; [done|lia|]. destruct b; [by apply trim_ranges_inv|done].
Qed.

Lemma copy_prp_inv c data n s : bytes data -> 0 <= n < 2 ^ 62 -> inv s ->
  exists s', match nvme_copy_to_prp rm (nvme_prepare_prp s.(s_mem) c n) data s with Some s => Some (nvme_complete_cmd rm irqs c NVME_SC_SUCCESS s) | None => None end = Some s' /\ inv s'.
Proof.
  intros Hb Hn Hi. unfold nvme_copy_to_prp. destruct (copy_inv (S (Z.to_nat n)) (nvme_prepare_prp s.(s_mem) c n) data s) as (s' & E & Hi'); auto; [unfold prp_ok; cbn; lia|cbn; lia|].
  cbn [prp_size nvme_prepare_prp]. rewrite E. eauto with nvme.
Qed.

Lemma page_with_bytes l : Forall (fun x => bytes x.2) l -> bytes (page_with l).
Proof.
  intros Hl. apply get_bytes_bytes. assert (Hz : valid_memory (fun _ : Z => 0)) by (intros ?; unfold urange; lia). revert Hz. generalize (fun _ : Z => 0).
  induction l as [|x l IH]; intros m Hm; [done|]. cbn. apply IH; [by apply Forall_inv_tail in Hl|]. apply put_bytes_valid; [done|by apply Forall_inv in Hl].
Qed.

Lemma small_bytes l : forallb (fun x => (0 <=? x) && (x <? 256)) l = true -> bytes l.
Proof. rewrite forallb_forall, Forall_forall. intros E x Hx. specialize (E x Hx). unfold urange. lia. Qed.

Ltac page_fields := repeat match goal with |- @Forall (Z * list Z) _ _ => constructor end; cbn [snd]; auto with rv; apply small_bytes; reflexivity.

Lemma admin_inv c s : q = 0 -> inv s -> exists s', nvme_admin_cmd rm irqs c s = Some s' /\ inv s'.
Proof.
  intros Hq Hi. unfold nvme_admin_cmd.
  destruct (_ =? 0x01). { unfold nvme_create_io_sq. repeat case_match; eauto with nvme. eexists. split; [done|]. apply inv_complete, inv_sq; [done|]. subst q. unfold nz in *. lia. }
  destruct (_ =? 0x05). { unfold nvme_create_io_cq. repeat case_match; eauto 7 with nvme. }
  destruct (_ || _). { unfold nvme_delete_io_queue. repeat case_match; eauto 7 with nvme. eexists. split; [done|]. apply inv_complete, inv_sq; [done|]. subst q. unfold nz in *. lia. }
  assert (Hn : 0 <= read_uint32_le (s_mem s) (c_sqe c + NVME_SQE_CDW10) .>> 16 < 2 ^ 62).
  { assert (Hr : urange 32 (read_uint32_le (s_mem s) (c_sqe c + NVME_SQE_CDW10))) by (apply read_uint32_le_range, Hi). unfold urange in Hr. rewrite Z.shiftr_div_pow2 by lia. change (2 ^ 16) with 65536. dlia. }
  assert (Hse : bytes s.(s_dev).(nv_serial)) by apply Hi.
  assert (Hp : forall l, Forall (fun x => bytes x.2) l -> bytes (page_with l)) by apply page_with_bytes.
  destruct (_ =? 0x02).
  { unfold nvme_get_log_page. destruct (_ || _); [|destruct (_ =? 0x02); [|eauto with nvme]]; apply copy_prp_inv; auto; apply Hp; page_fields. }
  destruct (_ =? 0x06).
  { unfold nvme_identify. destruct (_ =? 0x00); [|destruct (_ =? 0x01); [|destruct (_ =? 0x02); [|destruct (_ =? 0x03); [|eauto with nvme]]]];
      apply copy_prp_inv; auto; try (unfold NVME_PAGE_SIZE; lia); apply Hp; page_fields. }
  destruct (_ =? 0x08); [eauto with nvme|]. destruct (_ || _).
  { unfold nvme_handle_feature. repeat case_match; eauto 7 with nvme. eexists. split; [done|]. apply inv_complete. destruct Hi. by split. }
  destruct (_ =? 0x0C); eauto with nvme.
Qed.

Lemma io_inv c s : inv s -> exists s', nvme_io_cmd rm irqs c s = Some s' /\ inv s'.
Proof.
  intros Hi. unfold nvme_io_cmd. destruct (_ || _).
  { assert (Hr : urange 16 (read_uint16_le (s_mem s) (c_sqe c + NVME_SQE_CDW12))) by (apply read_uint16_le_range, Hi). unfold urange in Hr.
    apply rw_inv; auto; unfold prp_ok; cbn [prp_cur prp_size nvme_prepare_prp]; rewrite Z.shiftl_mul_pow2 by done; change (2 ^ NVME_LBA_SHIFT) with 512; lia. }
  destruct (_ =? 0x00); [eauto with nvme|]. destruct (_ =? 0x09); [|eauto with nvme]. destruct (nz _); [|eauto with nvme].
  pose proof (iv_mem _ _ _ _ Hi (c.(c_sqe) + NVME_SQE_CDW10)) as Hr. unfold urange in Hr.
  apply trim_inv; auto; unfold prp_ok; cbn [prp_cur prp_size nvme_prepare_prp]; rewrite Z.shiftl_mul_pow2 by lia; change (2 ^ 4) with 16; lia.
Qed.

Lemma run_cmd_inv h s : inv s -> exists s', nvme_run_cmd rm irqs q h s = Some s' /\ inv s'.
Proof.
  intros Hi. unfold nvme_run_cmd. destruct (dma _ _ _ _); [|eauto]. unfold nz. destruct (Z.eqb_spec q 0); cbn [negb]; [by apply admin_inv|by apply io_inv].
Qed.

End invariant.

Lemma submitted_cons size h t : 0 <= h <= size -> 0 <= t <= size -> h <> t ->
  submitted size h t = h :: submitted size ((h + 1) mod (size + 1)) t /\ (t - (h + 1) mod (size + 1)) mod (size + 1) = (t - h) mod (size + 1) - 1.
Proof.
  intros Hh Ht Hne. assert (E : (t - (h + 1) mod (size + 1)) mod (size + 1) = (t - h) mod (size + 1) - 1).
  { rewrite Zminus_mod_idemp_r. destruct (Z.lt_ge_cases h t).
    - rewrite !Z.mod_small by lia. lia.
    - rewrite <- (Z_mod_plus_full (t - (h + 1)) 1), <- (Z_mod_plus_full (t - h) 1). rewrite !Z.mod_small by lia. lia. }
  split; [|done]. unfold submitted. rewrite E. assert (Hp : 0 < (t - h) mod (size + 1)).
  { destruct (Z.lt_ge_cases h t); [rewrite Z.mod_small by lia; lia|]. rewrite <- (Z_mod_plus_full (t - h) 1), Z.mod_small by lia. lia. }
  destruct (Z.to_nat ((t - h) mod (size + 1))) as [|n] eqn:En; [lia|]. replace (Z.to_nat ((t - h) mod (size + 1) - 1)) with n by lia.
  cbn [seq map]. rewrite Z.add_0_r, Z.mod_small by lia. f_equal. rewrite <- seq_shift, map_map. apply map_ext. intros k.
  rewrite Zplus_mod_idemp_l. f_equal. lia.
Qed.

(** The tasks that the pool gets out of some entries of a queue. *)
Definition handed (q : Z) (l : list Z) : list (Z * Z) := if q =? 0 then [] else map (pair q) (List.filter (wk_takes q) l).

Lemma handed_cons q h l : handed q (h :: l) = (if (q =? 0) || negb (wk_takes q h) then [] else [(q, h)]) ++ handed q l.
Proof. unfold handed. destruct (q =? 0); [done|]. cbn [List.filter orb]. by destruct (wk_takes q h). Qed.

Lemma drain_spec q size t : forall fuel sq ts s, sq_inv q sq ts s -> sq.(q_size) = size -> sq.(q_tail) = t -> 0 <= sq.(q_head) <= size -> 0 <= t <= size ->
  (t - sq.(q_head)) mod (size + 1) < Z.of_nat fuel ->
  exists s', drain_loop rm irqs fuel q s = Some s' /\ run_entries q size (submitted size sq.(q_head) t) s = Some s' /\
    sq_inv q (set_q_head t sq) (ts ++ handed q (submitted size sq.(q_head) t)) s'.
Proof.
  induction fuel as [|fuel IH]; intros sq ts s Hi Es Et Hh Ht Hf; [pose proof (Z.mod_pos_bound (t - sq.(q_head)) (size + 1)); lia|].
  cbn [drain_loop]. rewrite (iv_sq _ _ _ _ Hi). unfold nvme_queue_dequeue. rewrite Es, Et. rewrite (proj2 (Z.ltb_ge size t)) by lia. rewrite orb_false_r.
  destruct (Z.eqb_spec sq.(q_head) t) as [E|E].
  - exists s. split; [done|]. unfold submitted. rewrite E, Z.sub_diag, Z.mod_0_l by lia. split; [done|]. change (Z.to_nat 0) with O. cbn [seq map].
    replace (handed q []) with (@nil (Z * Z)) by (unfold handed; by destruct (q =? 0)). rewrite app_nil_r. replace (set_q_head t sq) with sq; [done|]. rewrite <- E. by destruct sq.
  - destruct (submitted_cons size sq.(q_head) t Hh Ht E) as [-> En]. cbn [run_entries]. rewrite handed_cons. set (h' := (sq.(q_head) + 1) mod (size + 1)) in *.
    assert (Hh' : 0 <= h' <= size) by (unfold h'; pose proof (Z.mod_pos_bound (sq.(q_head) + 1) (size + 1)); lia).
    replace (if sq.(q_head) <? size then sq.(q_head) + 1 else 0) with h'.
    2: { unfold h'. case_bool; [by rewrite Z.mod_small by lia|]. replace sq.(q_head) with size by lia. by rewrite Z_mod_same_full. }
    replace (upd_sq q (set_q_head h') s) with (upd_sq q (fun _ => set_q_head h' sq) s) by (unfold upd_sq; by rewrite (iv_sq _ _ _ _ Hi)).
    assert (Hi0 : sq_inv q (set_q_head h' sq) ts (upd_sq q (fun _ => set_q_head h' sq) s)) by (destruct Hi; split; cbn; auto; by rewrite fupd_eq).
    set (s0 := upd_sq q (fun _ => set_q_head h' sq) s) in *.
    assert (Hstep : exists s1, (if nz q then nvme_create_task rm irqs q sq.(q_head) s0 else nvme_run_cmd rm irqs q sq.(q_head) s0) = Some s1 /\
      (if (q =? 0) || negb (wk_takes q sq.(q_head)) then nvme_run_cmd rm irqs q sq.(q_head) s0 else Some (set_s_tasks (s0.(s_tasks) ++ [(q, sq.(q_head))]) s0)) = Some s1 /\
      sq_inv q (set_q_head h' sq) (ts ++ (if (q =? 0) || negb (wk_takes q sq.(q_head)) then [] else [(q, sq.(q_head))])) s1).
    { destruct (run_cmd_inv q (set_q_head h' sq) ts sq.(q_head) s0 Hi0) as (s1 & Er & Hi1). unfold nz, nvme_create_task. destruct (q =? 0); cbn [negb orb].
      - exists s1. by rewrite app_nil_r.
      - destruct (wk_takes q _); cbn [negb]; [|exists s1; by rewrite app_nil_r]. eexists. split; [done|]. split; [done|]. destruct Hi0 as [J1 J2 J3 J4]. split; auto. cbn. by rewrite <- J3. }
    destruct Hstep as (s1 & -> & -> & Hi1). cbn [mbind option_bind]. rewrite app_assoc.
    destruct (IH (set_q_head h' sq) _ s1 Hi1) as (s' & E1 & E2 & E3); auto; cbn; [lia|]. cbn in E2, E3. eauto.
Qed.

(** Handing over is all that happens at the doorbell of an I/O queue when the pool takes the commands. *)
Lemma run_entries_taken q size l : q <> 0 -> (forall h, wk_takes q h = true) -> forall s s' : sys, run_entries q size l s = Some s' ->
  s'.(s_mem) = s.(s_mem) /\ s'.(s_blk) = s.(s_blk) /\ s'.(s_func) = s.(s_func) /\ s'.(s_host) = s.(s_host) /\ s'.(s_dev).(nv_cq) = s.(s_dev).(nv_cq).
Proof.
  intros Hq Hw. apply Z.eqb_neq in Hq. induction l as [|h l IH]; intros s s'; cbn [run_entries]; [by intros [= <-]|]. rewrite Hq, Hw. cbn [orb negb mbind option_bind].
  intros E. apply IH in E. exact E.
Qed.

(** However the workers take them up, the tasks come to an end. *)
Lemma workers_finish n : forall (s : sys) ts, valid_memory s.(s_mem) -> bytes s.(s_dev).(nv_serial) -> s.(s_tasks) = ts -> length ts = n ->
  exists s', wait_workers rm irqs n s = Some s' /\ s'.(s_tasks) = [].
Proof.
  induction n as [|n IH]; intros s ts Hm Hb Et Hl; cbn [wait_workers]; [exists s; destruct ts; [done|discriminate]|].
  unfold nvme_cmd_worker. rewrite Et. set (i := (wk_next ts mod length ts)%nat).
  assert (Hlt : (i < length ts)%nat) by (apply Nat.mod_upper_bound; lia). destruct (lookup_lt_is_Some_2 ts i Hlt) as [[q h] Hi]. rewrite Hi.
  destruct (run_cmd_inv q (s.(s_dev).(nv_sq) q) ts h s) as (s1 & -> & [I1 I2 I3 _]); [by split|]. cbn [mbind option_bind]. rewrite I3.
  apply (IH _ (delete i ts)); cbn; auto. rewrite length_delete by done. lia.
Qed.

(** C14: Doorbells.  Ringing the doorbell of submission queue [q] with a new tail inside the
    queue takes the entries from the old head to the tail, each once, in the order of the queue
    and around its end, and returns with the head at the tail, whatever the commands and the
    memory contain.  Entries of the admin queue are run on the way; those of an I/O queue are
    handed to the thread pool, or run when it does not take them.  If it takes them all, the
    doorbell changes neither memory nor disk, completion queues and interrupts.  In whichever
    order the workers run the tasks, one at a time, all of them come to an end.  A tail outside
    the queue runs nothing. *)
Theorem nvme_doorbell_drains q val (s : sys) :
  let sq := s.(s_dev).(nv_sq) q in
  let s1 := upd_sq q (set_q_tail (u16 val)) s in
  let l := submitted sq.(q_size) sq.(q_head) (u16 val) in
  0 <= q < NVME_QUEUES -> valid_memory s.(s_mem) -> bytes s.(s_dev).(nv_serial) -> 0 <= sq.(q_head) <= sq.(q_size) ->
  (u16 val <= sq.(q_size) ->
   exists s', nvme_doorbell rm irqs (2 * q) val s = Some s' /\ run_entries q sq.(q_size) l s1 = Some s' /\
     s'.(s_dev).(nv_sq) q = set_q_head (u16 val) (set_q_tail (u16 val) sq) /\ s'.(s_tasks) = s.(s_tasks) ++ handed q l /\
     (q <> 0 -> (forall h, wk_takes q h = true) ->
      s'.(s_tasks) = s.(s_tasks) ++ map (pair q) l /\ s'.(s_mem) = s.(s_mem) /\ s'.(s_blk) = s.(s_blk) /\
      s'.(s_func) = s.(s_func) /\ s'.(s_host) = s.(s_host) /\ s'.(s_dev).(nv_cq) = s.(s_dev).(nv_cq)) /\
     exists s'', wait_workers rm irqs (length s'.(s_tasks)) s' = Some s'' /\ s''.(s_tasks) = []) /\
  (sq.(q_size) < u16 val -> nvme_doorbell rm irqs (2 * q) val s = Some s1).
Proof.
  intros sq s1 l Hq Hm Hb Hh. assert (Hv : 0 <= u16 val < 2 ^ 16) by (apply wrap_range; lia).
  assert (Hd : nvme_doorbell rm irqs (2 * q) val s = nvme_drain_sq rm irqs q s1).
  { unfold nvme_doorbell. rewrite Z.shiftr_div_pow2 by lia. change (2 ^ 1) with 2. rewrite (Z.mul_comm 2 q), Z.div_mul by lia.
    change 1 with (Z.ones 1) at 1. rewrite Z.land_ones by lia. change (2 ^ 1) with 2. rewrite Z.mod_mul by lia. cbn [nz negb Z.eqb]. unfold nvme_get_queue. by rewrite (proj2 (Z.ltb_lt _ _)) by lia. }
  assert (Hs1 : s1.(s_dev).(nv_sq) q = set_q_tail (u16 val) sq) by (cbn; by rewrite fupd_eq). rewrite Hd. unfold nvme_drain_sq. rewrite Hs1. cbn [q_size set_q_tail]. split; intros Ht.
  - destruct (drain_spec q sq.(q_size) (u16 val) (Z.to_nat sq.(q_size) + 3) (set_q_tail (u16 val) sq) s.(s_tasks) s1) as (s' & E1 & E2 & [E3 E4 E5 E6]); auto; cbn [q_head set_q_tail]; [by split|lia| |].
    + pose proof (Z.mod_pos_bound (u16 val - sq.(q_head)) (sq.(q_size) + 1)). lia.
    + cbn [q_head set_q_tail] in E2, E5. fold l in E2, E5. exists s'. split_and!; auto.
      * intros Hq0 Hw. split; [|exact (run_entries_taken q _ l Hq0 Hw s1 s' E2)]. rewrite E5. unfold handed. rewrite (proj2 (Z.eqb_neq _ _) Hq0).
        do 2 f_equal. clear -Hw. induction l as [|h l IH]; [done|]. cbn [List.filter]. by rewrite Hw, IH.
      * by apply (workers_finish _ s' s'.(s_tasks)).
  - replace (Z.to_nat sq.(q_size) + 3)%nat with (S (Z.to_nat sq.(q_size) + 2)) by lia. cbn [drain_loop]. rewrite Hs1. unfold nvme_queue_dequeue. cbn [q_head q_tail q_size set_q_tail].
    by rewrite (proj2 (Z.ltb_lt _ _) Ht), orb_true_r.
Qed.

End doorbells.

(** ** Examples *)

(** An image whose contents are bytes. *)
Record byte_disk := mk_byte_disk { bdk_mem : memory }.
#[export] Instance byte_image : BlkImage byte_disk := {
  img_read d size off := map u8 (get_bytes (Z.to_nat size) d.(bdk_mem) off);
  img_write d l off := (mk_byte_disk (put_bytes d.(bdk_mem) off l), Z.of_nat (length l));
  img_set_size d _ := (d, true);
  img_trim d off size := (mk_byte_disk (put_bytes d.(bdk_mem) off (repeat 0 (Z.to_nat size))), true)
}.

#[export] Instance byte_image_bytes : ImgBytes byte_disk.
Proof. intros d size off. apply Forall_map. apply Forall_forall. intros x _. apply wrap_range. lia. Qed.

(** One mebibyte of RAM at address 2^31, backed by memory at 0. *)
Definition demo_ram : ram := mk_ram 0x80000000 0x100000 0.
Definition nvme_func : pci_func := set_pf_command (PCI_CMD_DEFAULT .| PCI_CMD_BUS_MASTER) demo_func.

Definition sqe (op cid prp1 prp2 cdw10 cdw11 cdw12 : Z) : list Z :=
  le_split 2 op ++ le_split 2 cid ++ repeat 0 20 ++ le_split 8 prp1 ++ le_split 8 prp2 ++ le_split 4 cdw10 ++ le_split 4 cdw11 ++ le_split 4 cdw12 ++ repeat 0 12.

(** Memory whose bytes depend on their address, with the bytes [l] at the start of page 1
    and a list of pages in page 4. *)
Definition demo_mem (l : list Z) : memory :=
  put_bytes (put_bytes (fun a => a mod 251) 0x1000 l) 0x4000 (le_split 8 0x80003000 ++ le_split 8 0x80006000).

Lemma demo_mem_valid l : bytes l -> valid_memory (demo_mem l).
Proof.
  intros Hl. apply put_bytes_valid; [apply put_bytes_valid; [|done]|apply Forall_app; split; apply le_split_bytes].
  intros a. pose proof (Z.mod_pos_bound a 251). unfold urange. lia.
Qed.

Lemma sqe_bytes op cid p1 p2 c10 c11 c12 : bytes (sqe op cid p1 p2 c10 c11 c12).
Proof. unfold sqe. repeat (apply Forall_app; split); try apply le_split_bytes; apply small_bytes; reflexivity. Qed.

(** The admin queues in pages 1 and 10, and one pair of I/O queues of eight entries in pages 1
    and 11. *)
Definition demo_nvme : nvme_dev :=
  mk_nvme (<[1 := mk_queue 0x80001000 0 7 0 0 1]> (<[0 := mk_queue 0x80001000 0 7 0 0 0]> (fun _ => no_queue)))
          (<[1 := mk_queue 0x8000B000 0 7 0 0 0x10003]> (<[0 := mk_queue 0x8000A000 0 7 0 0 2]> (fun _ => no_queue))) 1 0 0 [65; 0].
Definition demo_sys {F} (l : list Z) (disk : F) : nvme_sys (list (Z * bool) * list (Z * Z)) F :=
  mk_sys demo_nvme nvme_func ([], []) (demo_mem l) (mk_blk disk 0x100000 0 3) [].

(** A pool that takes everything and runs the latest task first, and one that takes nothing. *)
Definition lifo_pool : Workers := {| wk_takes _ _ := true; wk_next ts := pred (length ts) |}.
Definition full_pool : Workers := {| wk_takes _ _ := false; wk_next _ := O |}.

(** A write of seventeen blocks from the end of one page, the next, and a third. *)
Definition demo_write : list Z := sqe 0x01 7 0x80002010 0x80004000 9 0 16.
Definition demo_read : list Z := sqe 0x02 7 0x80002010 0x80004000 9 0 16.
Definition demo_cs : list (Z * Z) := [(0x80002010, 4080); (0x80003000, 4096); (0x80006000, 528)].
Definition demo_ls : list Z := [0x80004000; 0x80004008].

Lemma demo_chunks l : prp_chunks demo_ram (demo_mem l) 0x80002010 0x80004000 8704 demo_cs demo_ls.
Proof.
  assert (E0 : prp_entry demo_ram (demo_mem l) 0x80004000 = 0x80003000) by reflexivity.
  assert (E1 : prp_entry demo_ram (demo_mem l) 0x80004008 = 0x80006000) by reflexivity.
  apply (pc_list demo_ram (demo_mem l) 0x80002010 0x80004000 8704 [(0x80003000, 4096); (0x80006000, 528)] demo_ls); [reflexivity|].
  pose proof (pw_entry demo_ram (demo_mem l) 0x80004000 4624 [(0x80006000, 528)] [0x80004008]) as W. rewrite E0 in W. apply W; [lia|discriminate|vm_compute; intuition discriminate|].
  pose proof (pw_entry demo_ram (demo_mem l) 0x80004008 528 [] []) as W'. rewrite E1 in W'. apply W'; [lia|discriminate|vm_compute; intuition discriminate|]. apply pw_done.
Qed.

Lemma nvme_read_write_witness :
  let c := mk_cmd 0x1000 0x10000 1 in
  let w := demo_sys demo_write (fun _ => 0) in
  let r := demo_sys demo_read (fun a => a mod 256) in
  (exists blk, nvme_io_cmd demo_ram demo_bus.(pb_irqs) c w = Some (nvme_complete_cmd demo_ram demo_bus.(pb_irqs) c NVME_SC_SUCCESS (set_s_blk blk w)) /\
     blk.(bd_data) (9 * 512) = 0x2010 mod 251 /\ blk.(bd_data) (9 * 512 + 8176) = 0x6000 mod 251) /\
  exists m, nvme_io_cmd demo_ram demo_bus.(pb_irqs) c r = Some (nvme_complete_cmd demo_ram demo_bus.(pb_irqs) c NVME_SC_SUCCESS (set_s_mem m r)) /\
    m 0x6000 = (9 * 512 + 8176) mod 256.
Proof.
  intros c w r. assert (Hrm : 0 <= demo_ram.(ram_addr) /\ 0 <= demo_ram.(ram_size) /\ demo_ram.(ram_addr) + demo_ram.(ram_size) < 2 ^ 64) by (vm_compute; intuition discriminate).
  assert (Hin : Forall (fun x => in_ram demo_ram x.1 x.2) demo_cs) by (repeat constructor; vm_compute; intuition discriminate).
  assert (Hval : forall op, valid_memory (demo_mem (sqe op 7 0x80002010 0x80004000 9 0 16))) by (intros; apply demo_mem_valid, sqe_bytes). split.
  - destruct (nvme_read_write demo_ram demo_bus.(pb_irqs) Hrm c w demo_cs demo_ls) as [T _]; [apply Hval|reflexivity| |exact Hin|vm_compute; discriminate|].
    { apply (demo_chunks demo_write). }
    destruct (T eq_refl) as (blk & E1 & _ & E2); [split; reflexivity|]. exists blk. split; [exact E1|]. cbn [img_bytes mem_image_ok] in E2. rewrite !E2. split; vm_compute; reflexivity.
  - destruct (nvme_read_write demo_ram demo_bus.(pb_irqs) Hrm c r demo_cs demo_ls) as [_ T]; [apply Hval|reflexivity| |exact Hin|vm_compute; discriminate|].
    { apply (demo_chunks demo_read). }
    eexists. split; [apply T; [reflexivity|split; reflexivity| |]|vm_compute; reflexivity].
    + intros a. exact (Z.mod_pos_bound a 256 eq_refl).
    + intros e a n He Ha. apply list_elem_of_In in He, Ha. cbn in He, Ha. intuition simplify_eq; lia.
Defined.

(** Two entries, around the end of the queue: memory that is not a command, and an unknown one. *)
Definition wrap_sys : nvme_sys (list (Z * bool) * list (Z * Z)) byte_disk := upd_sq 1 (set_q_head 7) (demo_sys (sqe 0x55 1 0 0 0 0 0) (mk_byte_disk (fun _ => 0))).

Lemma nvme_doorbell_drains_witness :
  submitted 7 7 1 = [7; 0] /\
  exists s', nvme_doorbell (HW := lifo_pool) demo_ram demo_bus.(pb_irqs) 2 1 wrap_sys = Some s' /\ (s'.(s_dev).(nv_sq) 1).(q_head) = 1 /\
    s'.(s_tasks) = [(1, 7); (1, 0)] /\ exists s'', wait_workers (HW := lifo_pool) demo_ram demo_bus.(pb_irqs) (length s'.(s_tasks)) s' = Some s'' /\ s''.(s_tasks) = [].
Proof.
  split; [reflexivity|]. destruct (nvme_doorbell_drains (HW := lifo_pool) demo_ram demo_bus.(pb_irqs) 1 1 wrap_sys) as [T _].
  - vm_compute. intuition discriminate.
  - apply demo_mem_valid, sqe_bytes.
  - apply small_bytes. reflexivity.
  - vm_compute. intuition discriminate.
  - destruct T as (s' & E1 & _ & E2 & E3 & _ & E4); [vm_compute; discriminate|]. exists s'. split; [exact E1|]. rewrite E2. split; [reflexivity|]. split; [exact E3|exact E4].
Defined.

(** A disk of zeros. *)
Definition zero_disk : memory := fun _ => 0.

(** A system after a command of the admin queue or of I/O queue 1 that is rung in. *)
Definition after_cmd (q : Z) (l : list Z) : option (nvme_sys (list (Z * bool) * list (Z * Z)) memory) :=
  nvme_doorbell (HW := full_pool) demo_ram demo_bus.(pb_irqs) (2 * q) 1 (demo_sys l zero_disk).

(** The status of the completion in entry [i] of completion queue 0 or 1, and its third word. *)
Definition cqe_status {H F} (q i : Z) (s : nvme_sys H F) : Z := read_uint16_le s.(s_mem) (0xA000 + 0x1000 * q + 16 * i + 14) .>> 1.
Definition cqe_sqhd {H F} (q i : Z) (s : nvme_sys H F) : Z := read_uint16_le s.(s_mem) (0xA000 + 0x1000 * q + 16 * i + 8).
Definition on {A B} (s : option A) (f : A -> B) : option B := option_map f s.

(** Where the controller does not behave as its interface says.  (1) Setting a feature
    reports success and sets nothing.  (2) A write whose first page is not in RAM reports
    success and puts the bytes of the next page on the first block.  (3) A log page of 128
    words leaves all but 127 bytes as they were.  (4) A completion reports the place of its
    command as the head of the queue, not the next one.  (5) A third completion overwrites
    the first in a queue of two.  (6) A controller that is not enabled runs commands.
    (7) Masking vector 0 masks the interrupts of vector 32.  (8) A range to trim that crosses
    a page is read from the bytes behind the page. *)
Lemma nvme_deviations :
  on (after_cmd 0 (sqe 0x09 1 0 0 0x04 300 0)) (fun s => (cqe_status 0 0 s, s.(s_dev).(nv_temp_thresh))) = Some (0, 0) /\
  on (after_cmd 1 (sqe 0x01 1 0x1000 0x80003000 0 0 15)) (fun s => (cqe_status 1 0 s, s.(s_blk).(bd_data) 0, s.(s_blk).(bd_data) 4096)) = Some (0, 0x3000 mod 251, 0) /\
  on (after_cmd 0 (sqe 0x02 1 0x80005000 0 0x007F0001 0 0)) (fun s => (s.(s_mem) 0x507E, s.(s_mem) 0x507F, s.(s_mem) 0x51FF)) = Some (0, 0x507F mod 251, 0x51FF mod 251) /\
  on (after_cmd 1 (sqe 0x00 1 0 0 0 0 0)) (fun s => (cqe_sqhd 1 0 s, (s.(s_dev).(nv_sq) 1).(q_head))) = Some (0, 1) /\
  (let s := upd_cq 1 (set_q_size 1) (demo_sys (sqe 0x00 1 0 0 0 0 0 ++ sqe 0x00 2 0 0 0 0 0 ++ sqe 0x00 3 0 0 0 0 0) zero_disk) in
   on (nvme_doorbell (HW := full_pool) demo_ram demo_bus.(pb_irqs) 2 3 s) (fun s => (read_uint16_le s.(s_mem) 0xB00C, read_uint16_le s.(s_mem) 0xB01C, (s.(s_dev).(nv_cq) 1).(q_head))) = Some (3, 2, 0)) /\
  (let s := demo_sys (sqe 0x00 1 0 0 0 0 0) zero_disk in
   on (nvme_doorbell (HW := full_pool) demo_ram demo_bus.(pb_irqs) 2 1 (set_s_dev (set_nv_conf 0 s.(s_dev)) s)) (fun s => (nvme_pci_read s 0x1C .& NVME_CSTS_RDY, (s.(s_dev).(nv_cq) 1).(q_tail))) = Some (0, 1)) /\
  (let s := demo_sys [] zero_disk in
   (nvme_queue_raise_irq demo_bus.(pb_irqs) (mk_queue 0 0 7 0 0 0x200003) (set_s_dev (set_nv_irq_mask 1 s.(s_dev)) s)).(s_host) = s.(s_host)) /\
  (let m := put_bytes (put_bytes (demo_mem (sqe 0x09 1 0x80005FF8 0x80007000 0 4 0)) 0x5FF8 (le_split 4 0 ++ le_split 4 1)) 0x7000 (le_split 8 3) in
   let m := put_bytes m 0x6000 (le_split 8 5) in
   let s := set_s_blk (mk_blk (fun _ => 1 : Z) 0x100000 0 3) (set_s_mem m (demo_sys [] zero_disk)) in
   on (nvme_doorbell (HW := full_pool) demo_ram demo_bus.(pb_irqs) 2 1 s) (fun s => (s.(s_blk).(bd_data) (3 * 512), s.(s_blk).(bd_data) (5 * 512))) = Some (1, 0)).
Proof. vm_compute. repeat split. Qed.
