(* ===== verification/Csr.v ===== *)
(** * Control and status registers (src/cpu/riscv_csr.c, src/cpu/riscv_csr.h)

    Every CSR the emulator implements, the read-modify-write helpers with their WARL masks,
    and [riscv_csr_op], the entry point of the SYSTEM instructions.  An operation takes
    the hart and the operand [dest] and returns the new hart, the new [dest] and whether
    the access is legal.  Theorems: illegal accesses change nothing and exactly the
    privilege and read-only rules of the CSR number guard every access; the helpers are the
    bitwise read-set-clear operations under their masks; the WARL fields keep legal values;
    supervisor CSRs cannot reach machine-level state. *)

From Stdlib Require String Ascii.
Import (notations) Stdlib.Strings.String.
From S2P Require Import Ieee FpuLib Prelude BitOps MemOps State CsrDefs Tlb Hart.

Abbreviation csr_result := (hart * Z * bool)%type.

(** ** Feature checks (riscv_csr.h) *)

Definition riscv_fpu_is_enabled (vm : hart) : bool :=
  negb (bit_cut (status vm) 13 2 =? FS_OFF).

Definition riscv_fpu_set_dirty (vm : hart) : hart :=
  if negb (bit_cut (status vm) 13 2 =? FS_DIRTY)
  then set_status (status vm .| (FS_DIRTY .<< 13)) vm else vm.

Definition riscv_csr_privilege (csr_id : Z) : Z := bit_cut csr_id 8 2.
Definition riscv_csr_readonly (csr_id : Z) : bool := bit_cut csr_id 10 2 =? 0x3.

Definition riscv_csr_envcfg_enabled (vm : hart) (mask : Z) : bool :=
  let mask := if vm.(priv_mode) <? RISCV_PRIV_MACHINE
              then mask .& vm.(csr).(csr_envcfg) RISCV_PRIV_MACHINE else mask in
  let mask := if vm.(priv_mode) <? RISCV_PRIV_SUPERVISOR
              then mask .& vm.(csr).(csr_envcfg) RISCV_PRIV_SUPERVISOR else mask in
  nz mask.

Definition riscv_csr_counter_enabled (vm : hart) (counter : Z) : bool :=
  let mask := bit_set32 counter in
  let mask := if vm.(priv_mode) <? RISCV_PRIV_MACHINE
              then u32 (mask .& vm.(csr).(csr_counteren) RISCV_PRIV_MACHINE) else mask in
  let mask := if vm.(priv_mode) <? RISCV_PRIV_SUPERVISOR
              then u32 (mask .& vm.(csr).(csr_counteren) RISCV_PRIV_SUPERVISOR) else mask in
  nz mask.

Definition riscv_csr_seed_enabled (vm : hart) : bool :=
  if vm.(priv_mode) =? RISCV_PRIV_USER then nz (vm.(csr).(csr_mseccfg) .& CSR_MSECCFG_USEED)
  else true.

Definition riscv_csr_cbi_enabled (vm : hart) : bool := riscv_csr_envcfg_enabled vm CSR_ENVCFG_CBIE.
Definition riscv_csr_cbcf_enabled (vm : hart) : bool := riscv_csr_envcfg_enabled vm CSR_ENVCFG_CBCFE.
Definition riscv_csr_cbz_enabled (vm : hart) : bool := riscv_csr_envcfg_enabled vm CSR_ENVCFG_CBZE.
Definition riscv_csr_sstc_enabled (vm : hart) : bool := riscv_csr_envcfg_enabled vm CSR_ENVCFG_STCE.

(** ** Updates of the per-level CSR arrays *)

Definition set_tvec_at (p v : Z) (vm : hart) : hart :=
  upd_csr (fun c => set_csr_tvec (<[p := v]> c.(csr_tvec)) c) vm.
Definition set_scratch_at (p v : Z) (vm : hart) : hart :=
  upd_csr (fun c => set_csr_scratch (<[p := v]> c.(csr_scratch)) c) vm.
Definition set_iselect_at (p v : Z) (vm : hart) : hart :=
  upd_csr (fun c => set_csr_iselect (<[p := v]> c.(csr_iselect)) c) vm.
Definition set_counteren_at (p v : Z) (vm : hart) : hart :=
  upd_csr (fun c => set_csr_counteren (<[p := v]> c.(csr_counteren)) c) vm.
Definition set_envcfg_at (p v : Z) (vm : hart) : hart :=
  upd_csr (fun c => set_csr_envcfg (<[p := v]> c.(csr_envcfg)) c) vm.
Definition set_edeleg_at (p v : Z) (vm : hart) : hart :=
  upd_csr (fun c => set_csr_edeleg (<[p := v]> c.(csr_edeleg)) c) vm.
Definition set_ideleg_at (p v : Z) (vm : hart) : hart :=
  upd_csr (fun c => set_csr_ideleg (<[p := v]> c.(csr_ideleg)) c) vm.

(** ** Read-modify-write helpers

    Each returns the new CSR value and the new [dest]. *)

Definition riscv_is_csr_write (dest op : Z) : bool := nz dest || (op =? CSR_SWAP).

Definition riscv_csr_helper_masked (vm : hart) (csr dest mask op : Z) : Z * Z :=
  let tmp := csr in
  let mask := if negb vm.(rv64) then mask .& u32 (-1) else mask in
  let csr :=
    if op =? CSR_SWAP then (csr .& not64 mask) .| (dest .& mask)
    else if op =? CSR_SETBITS then csr .| (dest .& mask)
    else if op =? CSR_CLEARBITS then csr .& not64 (dest .& mask)
    else csr in
  (csr, tmp .& mask).

Definition riscv_csr_helper (vm : hart) (csr dest op : Z) : Z * Z :=
  if vm.(rv64) then
    let tmp := csr in
    let csr :=
      if op =? CSR_SWAP then dest
      else if op =? CSR_SETBITS then csr .| dest
      else if op =? CSR_CLEARBITS then csr .& not64 dest
      else csr in
    (csr, tmp)
  else riscv_csr_helper_masked vm csr dest (u64 (-1)) op.

Definition riscv_csr_tvec (vm : hart) (csr dest op : Z) : Z * Z :=
  let '(csr, dest) := riscv_csr_helper vm csr dest op in
  (bit_replace csr 0 2 (bit_cut csr 0 2 .& 0x1), dest).

Definition riscv_csr_epc (vm : hart) (csr dest op : Z) : Z * Z :=
  let '(csr, dest) := riscv_csr_helper vm csr dest op in
  (csr .& not64 1, dest).

Definition riscv_csr_helper_l (vm : hart) (csr dest mask op : Z) : Z * Z :=
  let '(tmp, dest) := riscv_csr_helper_masked vm csr dest mask op in
  if vm.(rv64) then (tmp, dest) else (bit_replace csr 0 32 tmp, dest).

Definition riscv_csr_helper_h (vm : hart) (csr dest mask op : Z) : Z * Z * bool :=
  if negb vm.(rv64) then
    let '(tmp, dest) := riscv_csr_helper_masked vm (csr .>> 32) dest (mask .>> 32) op in
    (bit_replace csr 32 32 tmp, dest, true)
  else (csr, dest, false).

Definition riscv_csr_const (vm : hart) (val : Z) : csr_result := (vm, val, true).
Definition riscv_csr_zero (vm : hart) : csr_result := riscv_csr_const vm 0.
Definition riscv_csr_zero_h (vm : hart) (dest : Z) : csr_result :=
  if negb vm.(rv64) then riscv_csr_const vm 0 else (vm, dest, false).

(** Stores the result of a helper into a CSR of the hart. *)
Definition store_csr (set : Z -> hart -> hart) (vm : hart) (r : Z * Z) : csr_result :=
  (set (fst r) vm, snd r, true).

(** ** Individual CSRs *)

Definition riscv_csr_counter (vm : hart) (dest counter : Z) : csr_result :=
  if riscv_csr_counter_enabled vm counter then riscv_csr_const vm vm.(machine_timer)
  else (vm, dest, false).

Definition riscv_csr_counter_h (vm : hart) (dest counter : Z) : csr_result :=
  if negb vm.(rv64) && riscv_csr_counter_enabled vm counter
  then riscv_csr_const vm (vm.(machine_timer) .>> 32) else (vm, dest, false).

(** [rvvm_csprng_bytes(&seed, 2)]: takes the next value of the host generator. *)
Definition rvvm_csprng_seed (vm : hart) : hart * Z :=
  (set_entropy (fun n => vm.(entropy) (S n)) vm, vm.(entropy) O).

Definition riscv_csr_seed (vm : hart) (dest op : Z) : csr_result :=
  if negb (op =? CSR_SWAP) then (vm, dest, false)
  else if riscv_csr_seed_enabled vm then
    let '(vm, seed) := rvvm_csprng_seed vm in
    riscv_csr_const vm (CSR_SEED_OPST_ES16 .| seed)
  else (vm, dest, false).

(** The letters of the ISA string after its width prefix, up to the first underscore. *)
Fixpoint mkmisa_letters (str : String.string) (ret : Z) : Z :=
  match str with
  | String.EmptyString => ret
  | String.String c str =>
      let ch := Z.of_nat (Ascii.nat_of_ascii c) in
      if ch =? 95 then ret
      else mkmisa_letters str
             (if (97 <=? ch) && (ch <=? 122) then ret .| (1 .<< (ch - 97)) else ret)
  end.

Definition string_drop (n : nat) (str : String.string) : String.string :=
  String.substring n (String.length str - n) str.

Definition riscv_mkmisa (str : String.string) : Z :=
  match String.index 0 "rv64"%string str with
  | Some _ => mkmisa_letters (string_drop 4 str) CSR_MISA_RV64
  | None =>
      match String.index 0 "rv32"%string str with
      | Some _ => mkmisa_letters (string_drop 4 str) CSR_MISA_RV32
      | None => mkmisa_letters str 0
      end
  end.

Definition riscv_csr_misa (vm : hart) (dest op : Z) : csr_result :=
  let misa := vm.(csr).(csr_isa) .| riscv_mkmisa "imafdcbsu"%string in
  let '(misa, dest) := riscv_csr_helper vm misa dest op in
  if nz (vm.(csr).(csr_isa) .& CSR_MISA_RV64) && nz (misa .& CSR_MISA_RV32) then
    (riscv_update_xlen (upd_csr (set_csr_isa CSR_MISA_RV32) vm), dest, true)
  else if nz (vm.(csr).(csr_isa) .& CSR_MISA_RV32) && nz (misa .& (CSR_MISA_RV64 .>> 32)) then
    if vm.(machine_rv64)
    then (riscv_update_xlen (upd_csr (set_csr_isa CSR_MISA_RV64) vm), dest, true)
    else (vm, dest, true)
  else (vm, dest, true).

Definition riscv_csr_sd_bit (vm : hart) : Z :=
  if vm.(rv64) then 0x8000000000000000 else 0x80000000.

Definition CSR_STATUS_XL_RV32 : Z := 0x1.
Definition CSR_STATUS_XL_RV64 : Z := 0x2.

Definition riscv_csr_status_xl_valid (xl : Z) : bool :=
  if xl =? CSR_STATUS_XL_RV32 then true
  else if xl =? CSR_STATUS_XL_RV64 then true
  else false.

Definition riscv_csr_status (vm : hart) (dest mask op : Z) : csr_result :=
  let old_status := status vm in
  let fs := bit_cut old_status 13 2 in
  let vs := bit_cut old_status 9 2 in
  let xs := if vs <? fs then fs else vs in
  let st := bit_replace old_status 15 2 xs in
  let '(st, dest) := riscv_csr_helper_masked vm st dest mask op in
  let dest := if xs =? FS_DIRTY then dest .| riscv_csr_sd_bit vm else dest in
  if negb (st =? old_status) then
    let st :=
      if vm.(machine_rv64) then
        let st := if negb (riscv_csr_status_xl_valid (bit_cut st 32 2))
                  then bit_replace st 32 2 CSR_STATUS_XL_RV64 else st in
        if negb (riscv_csr_status_xl_valid (bit_cut st 34 2))
        then bit_replace st 34 2 CSR_STATUS_XL_RV64 else st
      else st in
    let st := if bit_cut st 11 2 =? RISCV_PRIV_HYPERVISOR
              then bit_replace st 11 2 RISCV_PRIV_USER else st in
    let st := bit_replace st 9 2 FS_OFF in
    let vm := if nz ((st .& 0xA) .& not64 (old_status .& 0xA))
              then riscv_hart_check_interrupts vm else vm in
    (set_status st vm, dest, true)
  else (vm, dest, true).

Definition riscv_csr_ie (vm : hart) (dest mask op : Z) : csr_result :=
  let '(ie, dest) := riscv_csr_helper_masked vm vm.(csr).(csr_ie) dest mask op in
  (riscv_hart_check_interrupts (upd_csr (set_csr_ie ie) vm), dest, true).

Definition riscv_csr_ip (vm : hart) (dest mask op : Z) : csr_result :=
  let '(ip, dest) := riscv_csr_helper_masked vm vm.(csr).(csr_ip) dest mask op in
  let vm := upd_csr (set_csr_ip ip) vm in
  let dest := dest .| (riscv_interrupts_raised vm .& mask) in
  (riscv_hart_check_interrupts vm, dest, true).

Definition riscv_csr_topi (vm : hart) (dest mask : Z) : csr_result :=
  match vm.(aia) with
  | Some _ =>
      let pending := u32 (riscv_interrupts_pending vm .& mask) in
      let irq := if nz pending then bit_clz32 pending .^ 31 else 0 in
      (vm, (if nz irq then 1 else 0) .| u32 (irq .<< 16), true)
  | None => (vm, dest, false)
  end.

Definition riscv_csr_topei (vm : hart) (priv dest op : Z) : csr_result :=
  match vm.(aia) with
  | Some _ =>
      let smode := priv =? RISCV_PRIV_SUPERVISOR in
      let '(vm, irq) := riscv_get_aia_irq vm smode (riscv_is_csr_write dest op) in
      (vm, irq .| u32 (irq .<< 16), true)
  | None => (vm, dest, false)
  end.

Definition riscv_csr_stimecmp_set (vm : hart) (v : Z) : hart :=
  let vm := set_stimecmp v vm in
  if vm.(stimecmp) <=? vm.(machine_timer)
  then riscv_interrupt vm RISCV_INTERRUPT_STIMER
  else riscv_interrupt_clear vm RISCV_INTERRUPT_STIMER.

Definition riscv_csr_stimecmp (vm : hart) (dest op : Z) : csr_result :=
  if riscv_csr_sstc_enabled vm then
    let '(v, dest) := riscv_csr_helper_l vm vm.(stimecmp) dest (u64 (-1)) op in
    (riscv_csr_stimecmp_set vm v, dest, true)
  else (vm, dest, false).

Definition riscv_csr_stimecmph (vm : hart) (dest op : Z) : csr_result :=
  if negb vm.(rv64) && riscv_csr_sstc_enabled vm then
    let '(v, dest, _) := riscv_csr_helper_h vm vm.(stimecmp) dest (u64 (-1)) op in
    (riscv_csr_stimecmp_set vm v, dest, true)
  else (vm, dest, false).

(** The tail of [riscv_csr_satp]: switching between bare and paged modes flushes. *)
Definition satp_set_mode (vm : hart) (new_mmu_mode : Z) : hart :=
  if negb (eqb (nz vm.(mmu_mode)) (nz new_mmu_mode))
  then set_mmu_mode new_mmu_mode (riscv_tlb_flush vm) else vm.

Definition riscv_csr_satp `{Env} (vm : hart) (dest op : Z) : csr_result :=
  if nz (status vm .& CSR_STATUS_TVM) && (vm.(priv_mode) <? RISCV_PRIV_MACHINE)
  then (vm, dest, false)
  else if vm.(rv64) then
    let satp := u64 (vm.(mmu_mode) .<< 60) .| (vm.(root_page_table) .>> RISCV_PAGE_SHIFT) in
    let '(satp, dest) := riscv_csr_helper vm satp dest op in
    let new_mmu_mode := bit_cut satp 60 4 in
    if negb (new_mmu_mode =? CSR_SATP_MODE_BARE) &&
       ((new_mmu_mode <? CSR_SATP_MODE_SV39) || (CSR_SATP_MODE_SV57 <? new_mmu_mode))
    then (vm, dest, true)
    else if (new_mmu_mode =? CSR_SATP_MODE_SV57) && negb has_arg_sv57 then (vm, dest, true)
    else
      let vm := set_root_page_table (u64 ((satp .& bit_mask 44) .<< RISCV_PAGE_SHIFT)) vm in
      (satp_set_mode vm new_mmu_mode, dest, true)
  else
    let satp := u64 (vm.(mmu_mode) .<< 31) .| (vm.(root_page_table) .>> RISCV_PAGE_SHIFT) in
    let '(satp, dest) := riscv_csr_helper vm satp dest op in
    let new_mmu_mode := bit_cut satp 31 1 in
    let vm := set_root_page_table (u64 ((satp .& bit_mask 22) .<< RISCV_PAGE_SHIFT)) vm in
    (satp_set_mode vm new_mmu_mode, dest, true).

(** ** Floating-point CSRs *)

(** The host floating-point environment (src/util/fpu_lib.c). *)
Definition fpu_get_exceptions (vm : hart) : Z := vm.(fenv_exceptions).
Definition fpu_set_exceptions (v : Z) (vm : hart) : hart := set_fenv_exceptions (v .& FPU_LIB_FLAGS_ALL) vm.
Definition fpu_set_rounding_mode (v : Z) (vm : hart) : hart := set_fenv_rounding (host_mode v vm.(fenv_rounding)) vm.

Definition riscv_update_fflags (vm : hart) : hart :=
  upd_csr (fun c => set_csr_fcsr (c.(csr_fcsr) .| fpu_get_exceptions vm) c) vm.

Definition riscv_update_fcsr (vm : hart) (old_fcsr new_fcsr : Z) : hart :=
  if negb (new_fcsr =? old_fcsr) then
    let old_frm := bit_cut old_fcsr 5 3 in
    let new_frm := bit_cut new_fcsr 5 3 in
    let old_fflags := bit_cut old_fcsr 0 5 in
    let new_fflags := bit_cut new_fcsr 0 5 in
    if negb (new_frm =? old_frm) && (RM_RMM <? new_frm) then vm
    else
      let vm := if negb (new_frm =? old_frm) then fpu_set_rounding_mode new_frm vm else vm in
      let vm :=
        if nz (not32 new_fflags .& old_fflags) then
          if nz (not32 new_fflags .& fpu_get_exceptions vm) then fpu_set_exceptions 0 vm else vm
        else vm in
      upd_csr (set_csr_fcsr new_fcsr) vm
  else vm.

Definition riscv_set_fcsr (vm : hart) (fcsr : Z) : hart :=
  riscv_update_fcsr vm vm.(csr).(csr_fcsr) (u32 fcsr).

Definition riscv_csr_fflags (vm : hart) (dest op : Z) : csr_result :=
  if riscv_fpu_is_enabled vm then
    let vm := riscv_update_fflags vm in
    let '(fcsr, dest) := riscv_csr_helper_masked vm vm.(csr).(csr_fcsr) dest CSR_FFLAGS_MASK op in
    (riscv_set_fcsr vm fcsr, dest, true)
  else (vm, dest, false).

Definition riscv_csr_frm (vm : hart) (dest op : Z) : csr_result :=
  if riscv_fpu_is_enabled vm then
    let fcsr := vm.(csr).(csr_fcsr) in
    let '(frm, dest) := riscv_csr_helper_masked vm (fcsr .>> 5) dest CSR_FRM_MASK op in
    (riscv_set_fcsr vm (bit_replace fcsr 5 3 frm), dest, true)
  else (vm, dest, false).

Definition riscv_csr_fcsr (vm : hart) (dest op : Z) : csr_result :=
  if riscv_fpu_is_enabled vm then
    let vm := riscv_update_fflags vm in
    let '(fcsr, dest) := riscv_csr_helper_masked vm vm.(csr).(csr_fcsr) dest CSR_FCSR_MASK op in
    (riscv_set_fcsr vm fcsr, dest, true)
  else (vm, dest, false).

Definition riscv_csr_sync_fpu (vm : hart) : hart :=
  let vm := riscv_update_fflags vm in
  riscv_update_fcsr vm 0 vm.(csr).(csr_fcsr).

(** ** AIA register file accesses *)

(** Returns the new register, the new [dest] and whether the register was written. *)
Definition riscv_csr_atomic_helper (val dest op : Z) : Z * Z * bool :=
  if op =? CSR_SWAP then (u32 dest, val, true)
  else if op =? CSR_SETBITS then
    if nz dest then (val .| u32 dest, val, true) else (val, val, false)
  else if op =? CSR_CLEARBITS then
    if nz dest then (val .& not32 dest, val, true) else (val, val, false)
  else (val, dest, false).

(** A register of the AIA file: the C code passes its address. *)
Record aia_ref := mk_aia_ref {
  aia_get : aia_regfile -> Z;
  aia_set : Z -> aia_regfile -> aia_regfile
}.

Definition ref_eidelivery : aia_ref := mk_aia_ref eidelivery set_eidelivery.
Definition ref_eithreshold : aia_ref := mk_aia_ref eithreshold set_eithreshold.
Definition ref_eip (i : Z) : aia_ref :=
  mk_aia_ref (fun a => a.(eip) i) (fun v a => set_eip (<[i := v]> a.(eip)) a).
Definition ref_eie (i : Z) : aia_ref :=
  mk_aia_ref (fun a => a.(eie) i) (fun v a => set_eie (<[i := v]> a.(eie)) a).

Definition riscv_csr_aia_helper (vm : hart) (smode : bool) (r : aia_ref) (dest op : Z) : hart * Z :=
  match vm.(aia) with
  | Some files =>
      let a := files smode in
      let '(v, dest, written) := riscv_csr_atomic_helper (r.(aia_get) a) dest op in
      let vm := set_aia_file files smode (r.(aia_set) v a) vm in
      (if written then riscv_update_aia_state vm smode else vm, dest)
  | None => (vm, dest)
  end.

Definition riscv_csr_aia_pair_helper (vm : hart) (smode : bool) (reg : Z) (arr : Z -> aia_ref)
    (dest op : Z) : csr_result :=
  if vm.(rv64) && nz (reg .& 1) then (vm, dest, false)
  else if reg <? RVVM_AIA_ARR_LEN then
    let top := dest .>> 32 in
    let '(vm, dest) := riscv_csr_aia_helper vm smode (arr reg) dest op in
    if vm.(rv64) && (reg + 1 <? RVVM_AIA_ARR_LEN) then
      let '(vm, top) := riscv_csr_aia_helper vm smode (arr (reg + 1)) top op in
      (vm, dest .| u64 (top .<< 32), true)
    else (vm, dest, true)
  else (vm, dest, false).

Definition riscv_csr_indirect (vm : hart) (priv csri dest op : Z) : csr_result :=
  let smode := priv =? RISCV_PRIV_SUPERVISOR in
  match vm.(aia) with
  | Some _ =>
      if csri =? CSRI_EIDELIVERY then
        let '(vm, dest) := riscv_csr_aia_helper vm smode ref_eidelivery (dest .& 1) op in
        (vm, dest, true)
      else if csri =? CSRI_EITHRESHOLD then
        let '(vm, dest) := riscv_csr_aia_helper vm smode ref_eithreshold dest op in
        (vm, dest, true)
      else if (CSRI_MIPRIO_0 <=? csri) && (csri <=? CSRI_MIPRIO_15) then riscv_csr_zero vm
      else if (CSRI_EIP0 <=? csri) && (csri <=? CSRI_EIP63) then
        riscv_csr_aia_pair_helper vm smode (csri - CSRI_EIP0) ref_eip dest op
      else if (CSRI_EIE0 <=? csri) && (csri <=? CSRI_EIE63) then
        riscv_csr_aia_pair_helper vm smode (csri - CSRI_EIE0) ref_eie dest op
      else (vm, dest, false)
  | None => (vm, dest, false)
  end.

(** ** Dispatch *)

Definition in_range (a x b : Z) : bool := (a <=? x) && (x <=? b).

Definition riscv_csr_op_internal `{Env} (vm : hart) (csr_id dest op : Z) : csr_result :=
  let c := vm.(csr) in
  let M := RISCV_PRIV_MACHINE in
  let S := RISCV_PRIV_SUPERVISOR in
  (* User floating-point CSRs *)
  if csr_id =? CSR_FFLAGS then riscv_csr_fflags vm dest op
  else if csr_id =? CSR_FRM then riscv_csr_frm vm dest op
  else if csr_id =? CSR_FCSR then riscv_csr_fcsr vm dest op
  (* Unprivileged entropy source CSR *)
  else if csr_id =? CSR_SEED then riscv_csr_seed vm dest op
  (* User counters / timers *)
  else if (csr_id =? CSR_CYCLE) || (csr_id =? CSR_TIME) || (csr_id =? CSR_INSTRET) then
    riscv_csr_counter vm dest (csr_id - CSR_CYCLE)
  else if (csr_id =? CSR_CYCLEH) || (csr_id =? CSR_TIMEH) || (csr_id =? CSR_INSTRETH) then
    riscv_csr_counter_h vm dest (csr_id - CSR_CYCLEH)
  (* Supervisor trap setup *)
  else if csr_id =? CSR_SSTATUS then riscv_csr_status vm dest CSR_SSTATUS_MASK op
  else if csr_id =? CSR_SIE then riscv_csr_ie vm dest CSR_SEIP_MASK op
  else if csr_id =? CSR_SIEH then riscv_csr_zero_h vm dest
  else if csr_id =? CSR_STVEC then
    store_csr (set_tvec_at S) vm (riscv_csr_tvec vm (c.(csr_tvec) S) dest op)
  else if csr_id =? CSR_SCOUNTEREN then
    store_csr (set_counteren_at S) vm
      (riscv_csr_helper_masked vm (c.(csr_counteren) S) dest CSR_COUNTEREN_MASK op)
  (* Supervisor configuration *)
  else if csr_id =? CSR_SENVCFG then
    store_csr (set_envcfg_at S) vm
      (riscv_csr_helper_l vm (c.(csr_envcfg) S) dest CSR_SENVCFG_MASK op)
  (* Supervisor counter setup *)
  else if csr_id =? CSR_SCOUNTINHIBIT then riscv_csr_zero vm
  (* Supervisor indirect CSR access *)
  else if csr_id =? CSR_SISELECT then
    store_csr (set_iselect_at S) vm (riscv_csr_helper vm (c.(csr_iselect) S) dest op)
  else if csr_id =? CSR_SIREG then riscv_csr_indirect vm S (u32 (c.(csr_iselect) S)) dest op
  (* Supervisor trap handling *)
  else if csr_id =? CSR_SSCRATCH then
    store_csr (set_scratch_at S) vm (riscv_csr_helper vm (c.(csr_scratch) S) dest op)
  else if csr_id =? CSR_SEPC then
    store_csr (set_epc_at S) vm (riscv_csr_epc vm (c.(csr_epc) S) dest op)
  else if csr_id =? CSR_SCAUSE then
    store_csr (set_cause_at S) vm (riscv_csr_helper vm (c.(csr_cause) S) dest op)
  else if csr_id =? CSR_STVAL then
    store_csr (set_tval_at S) vm (riscv_csr_helper vm (c.(csr_tval) S) dest op)
  else if csr_id =? CSR_SIP then riscv_csr_ip vm dest CSR_SEIP_MASK op
  else if csr_id =? CSR_SIPH then riscv_csr_zero_h vm dest
  else if csr_id =? CSR_STOPEI then riscv_csr_topei vm S dest op
  else if csr_id =? CSR_STOPI then riscv_csr_topi vm dest CSR_SEIP_MASK
  else if csr_id =? CSR_STIMECMP then riscv_csr_stimecmp vm dest op
  else if csr_id =? CSR_STIMECMPH then riscv_csr_stimecmph vm dest op
  (* Supervisor protection and translation *)
  else if csr_id =? CSR_SATP then riscv_csr_satp vm dest op
  (* Machine information registers *)
  else if csr_id =? CSR_MVENDORID then riscv_csr_zero vm
  else if csr_id =? CSR_MARCHID then riscv_csr_const vm 0x5256564D
  else if csr_id =? CSR_MIMPID then riscv_csr_const vm rvvm_mimpid
  else if csr_id =? CSR_MHARTID then riscv_csr_const vm c.(csr_hartid)
  (* Machine trap setup *)
  else if csr_id =? CSR_MSTATUS then riscv_csr_status vm dest CSR_MSTATUS_MASK op
  else if csr_id =? CSR_MSTATUSH then riscv_csr_zero vm
  else if csr_id =? CSR_MISA then riscv_csr_misa vm dest op
  else if csr_id =? CSR_MEDELEG then
    store_csr (set_edeleg_at M) vm
      (riscv_csr_helper_masked vm (c.(csr_edeleg) M) dest CSR_MEDELEG_MASK op)
  else if csr_id =? CSR_MIDELEG then
    store_csr (set_ideleg_at M) vm
      (riscv_csr_helper_masked vm (c.(csr_ideleg) M) dest CSR_MIDELEG_MASK op)
  else if csr_id =? CSR_MIDELEGH then riscv_csr_zero_h vm dest
  else if csr_id =? CSR_MIE then riscv_csr_ie vm dest CSR_MEIP_MASK op
  else if csr_id =? CSR_MIEH then riscv_csr_zero_h vm dest
  else if csr_id =? CSR_MTVEC then
    store_csr (set_tvec_at M) vm (riscv_csr_tvec vm (c.(csr_tvec) M) dest op)
  else if csr_id =? CSR_MCOUNTEREN then
    store_csr (set_counteren_at M) vm
      (riscv_csr_helper_masked vm (c.(csr_counteren) M) dest CSR_COUNTEREN_MASK op)
  (* Machine trap handling *)
  else if csr_id =? CSR_MSCRATCH then
    store_csr (set_scratch_at M) vm (riscv_csr_helper vm (c.(csr_scratch) M) dest op)
  else if csr_id =? CSR_MEPC then
    store_csr (set_epc_at M) vm (riscv_csr_epc vm (c.(csr_epc) M) dest op)
  else if csr_id =? CSR_MCAUSE then
    store_csr (set_cause_at M) vm (riscv_csr_helper vm (c.(csr_cause) M) dest op)
  else if csr_id =? CSR_MTVAL then
    store_csr (set_tval_at M) vm (riscv_csr_helper vm (c.(csr_tval) M) dest op)
  else if csr_id =? CSR_MIP then riscv_csr_ip vm dest CSR_MEIP_MASK op
  else if csr_id =? CSR_MIPH then riscv_csr_zero_h vm dest
  else if csr_id =? CSR_MTOPEI then riscv_csr_topei vm M dest op
  else if csr_id =? CSR_MTOPI then riscv_csr_topi vm dest CSR_MEIP_MASK
  (* Machine configuration *)
  else if csr_id =? CSR_MENVCFG then
    store_csr (set_envcfg_at M) vm
      (riscv_csr_helper_l vm (c.(csr_envcfg) M) dest CSR_MENVCFG_MASK op)
  else if csr_id =? CSR_MENVCFGH then
    let '(v, d, ok) := riscv_csr_helper_h vm (c.(csr_envcfg) M) dest CSR_MENVCFG_MASK op in
    if ok then (set_envcfg_at M v vm, d, true) else (vm, d, false)
  else if csr_id =? CSR_MSECCFG then
    store_csr (fun v => upd_csr (set_csr_mseccfg v)) vm
      (riscv_csr_helper_l vm c.(csr_mseccfg) dest CSR_MSECCFG_MASK op)
  else if csr_id =? CSR_MSECCFGH then
    let '(v, d, ok) := riscv_csr_helper_h vm c.(csr_mseccfg) dest CSR_MSECCFG_MASK op in
    if ok then (upd_csr (set_csr_mseccfg v) vm, d, true) else (vm, d, false)
  (* Machine memory protection: pmpcfg0-3, pmpaddr0-15 *)
  else if in_range 0x3A0 csr_id 0x3A3 then riscv_csr_zero vm
  else if in_range 0x3B0 csr_id 0x3BF then riscv_csr_zero vm
  (* Machine counters: mcycle, minstret, mhpmcounter3-31 and their high halves *)
  else if (csr_id =? CSR_MCYCLE) || (csr_id =? CSR_MINSTRET) || in_range 0xB03 csr_id 0xB1F then
    riscv_csr_zero vm
  else if (csr_id =? CSR_MCYCLEH) || (csr_id =? CSR_MINSTRETH) || in_range 0xB83 csr_id 0xB9F then
    riscv_csr_zero_h vm dest
  (* Machine counter setup *)
  else if csr_id =? CSR_MCOUNTINHIBIT then riscv_csr_zero vm
  (* Machine indirect CSR access *)
  else if csr_id =? CSR_MISELECT then
    store_csr (set_iselect_at M) vm (riscv_csr_helper vm (c.(csr_iselect) M) dest op)
  else if csr_id =? CSR_MIREG then riscv_csr_indirect vm M (u32 (c.(csr_iselect) M)) dest op
  else (vm, dest, false).

Definition riscv_csr_op `{Env} (vm : hart) (csr_id dest op : Z) : csr_result :=
  if riscv_csr_readonly csr_id && ((op =? CSR_SWAP) || nz dest) then (vm, dest, false)
  else if vm.(priv_mode) <? riscv_csr_privilege csr_id then (vm, dest, false)
  else
    let '(vm, dest, ret) := riscv_csr_op_internal vm csr_id dest op in
    let dest := if negb vm.(rv64) then u64 (s32 dest) else dest in
    (vm, dest, ret).

(** ** What an access must guarantee *)

(** The result of a CSR access: a well-formed hart, a register value, and no effect when
    the access is refused. *)
Definition csr_ok (vm : hart) (r : csr_result) : Prop :=
  hart_wf (fst (fst r)) /\ urange 64 (snd (fst r)) /\ (snd r = false -> fst (fst r) = vm).

(** One bit of a CSR after a read-modify-write under a mask. *)
Definition rmw_bit (op : Z) (csr dest mask : bool) : bool :=
  if mask then
    if op =? CSR_SWAP then dest
    else if op =? CSR_SETBITS then csr || dest
    else if op =? CSR_CLEARBITS then csr && negb dest
    else csr
  else csr.

(** The mask a helper applies at the current XLEN. *)
Definition eff_mask (vm : hart) (mask : Z) : Z := if vm.(rv64) then mask else mask .& 0xFFFFFFFF.

(** ** Helpers *)

Create HintDb csr.

Lemma testbit_not64 x i : 0 <= i -> Z.testbit (not64 x) i = (i <? 64) && negb (Z.testbit x i).
Proof. intros. unfold not64. autorewrite with zbits. by rewrite ?Z.lnot_spec by lia. Qed.

Lemma helper_masked_eq vm csr dest mask op :
  riscv_csr_helper_masked vm csr dest mask op =
  riscv_csr_helper_masked (set_rv64 true vm) csr dest (eff_mask vm mask) op.
Proof.
  unfold riscv_csr_helper_masked, eff_mask. cbn [rv64 set_rv64 negb].
  by destruct (rv64 vm).
Qed.

(** The masked helper is the bitwise operation on the masked bits and returns the old
    masked value. *)
Lemma csr_helper_masked_bits vm csr dest mask op i :
  urange 64 csr -> 0 <= i ->
  let '(csr', dest') := riscv_csr_helper_masked vm csr dest mask op in
  Z.testbit csr' i =
    rmw_bit op (Z.testbit csr i) (Z.testbit dest i) (Z.testbit (eff_mask vm mask) i) /\
  dest' = csr .& eff_mask vm mask.
Proof.
  intros Hc Hi. rewrite helper_masked_eq. set (m := eff_mask vm mask). clearbody m.
  unfold riscv_csr_helper_masked. cbn [rv64 set_rv64 negb]. split; [|done].
  unfold rmw_bit. repeat case_bool; autorewrite with zbits; rewrite ?testbit_not64 by done;
    autorewrite with zbits; try (by destruct (Z.testbit m i));
    destruct (Z.ltb_spec i 64); rewrite ?(testbit_above 64 csr) by (done || lia);
    destruct (Z.testbit csr i), (Z.testbit dest i), (Z.testbit m i); done.
Qed.

Lemma eff_mask_range vm mask : urange 64 mask -> urange 64 (eff_mask vm mask).
Proof. intros. unfold eff_mask. case_match; [done|]. apply urange_land_l; [lia|done]. Qed.

Lemma helper_masked_range vm csr dest mask op :
  urange 64 csr -> urange 64 mask ->
  urange 64 (fst (riscv_csr_helper_masked vm csr dest mask op)) /\
  urange 64 (snd (riscv_csr_helper_masked vm csr dest mask op)).
Proof.
  intros Hc Hm. rewrite helper_masked_eq. pose proof (eff_mask_range vm mask Hm) as He.
  unfold riscv_csr_helper_masked. cbn [rv64 set_rv64 negb fst snd].
  split; [|apply urange_land_l; [lia|done]].
  repeat case_bool; try done;
    try (apply urange_lor; [lia| |]); try (apply urange_land_r; [lia|done || auto with rv]);
    try (apply urange_land_l; [lia|done]); done.
Qed.

Lemma helper_range vm csr dest op :
  urange 64 csr -> urange 64 dest ->
  urange 64 (fst (riscv_csr_helper vm csr dest op)) /\
  urange 64 (snd (riscv_csr_helper vm csr dest op)).
Proof.
  intros Hc Hd. unfold riscv_csr_helper. destruct (rv64 vm); [|by apply helper_masked_range].
  cbn [fst snd]. split; [|done].
  repeat case_bool; try done; [by apply urange_lor|by apply urange_land_l].
Qed.

Lemma tvec_range vm csr dest op : urange 64 csr -> urange 64 dest ->
  urange 64 (fst (riscv_csr_tvec vm csr dest op)) /\
  urange 64 (snd (riscv_csr_tvec vm csr dest op)).
Proof.
  intros Hc Hd. unfold riscv_csr_tvec. pose proof (helper_range vm csr dest op Hc Hd).
  destruct (riscv_csr_helper _ _ _ _). cbn in *. split; [|tauto]. apply bit_replace_range. tauto.
Qed.

Lemma epc_range vm csr dest op : urange 64 csr -> urange 64 dest ->
  urange 64 (fst (riscv_csr_epc vm csr dest op)) /\
  urange 64 (snd (riscv_csr_epc vm csr dest op)).
Proof.
  intros Hc Hd. unfold riscv_csr_epc. pose proof (helper_range vm csr dest op Hc Hd).
  destruct (riscv_csr_helper _ _ _ _). cbn in *. split; [|tauto]. apply urange_land_l; [lia|tauto].
Qed.

Lemma helper_l_range vm csr dest mask op : urange 64 csr -> urange 64 mask ->
  urange 64 (fst (riscv_csr_helper_l vm csr dest mask op)) /\
  urange 64 (snd (riscv_csr_helper_l vm csr dest mask op)).
Proof.
  intros Hc Hm. unfold riscv_csr_helper_l.
  pose proof (helper_masked_range vm csr dest mask op Hc Hm).
  destruct (riscv_csr_helper_masked _ _ _ _ _). case_match; cbn in *; [done|].
  split; [|tauto]. by apply bit_replace_range.
Qed.

Lemma helper_h_range vm csr dest mask op : urange 64 csr -> urange 64 mask -> urange 64 dest ->
  let '(v, d, ok) := riscv_csr_helper_h vm csr dest mask op in urange 64 v /\ urange 64 d.
Proof.
  intros Hc Hm Hd. unfold riscv_csr_helper_h. destruct (rv64 vm); cbn [negb]; [done|].
  pose proof (helper_masked_range vm (csr .>> 32) dest (mask .>> 32) op
    (urange_shiftr 64 csr 32 ltac:(lia) Hc) (urange_shiftr 64 mask 32 ltac:(lia) Hm)) as Hr.
  destruct (riscv_csr_helper_masked _ _ _ _ _). cbn in *. split; [|tauto].
  by apply bit_replace_range.
Qed.

#[export] Hint Resolve helper_masked_range helper_range tvec_range epc_range helper_l_range : csr.

(** A CSR of the hart updated through a helper. *)
Lemma store_csr_ok set vm r :
  (urange 64 (fst r) /\ urange 64 (snd r)) -> (forall v, urange 64 v -> hart_wf (set v vm)) ->
  csr_ok vm (store_csr set vm r).
Proof. intros [H1 H2] Hs. split; [by apply Hs|]. split; done. Qed.

Lemma csr_fail_ok vm dest : hart_wf vm -> urange 64 dest -> csr_ok vm (vm, dest, false).
Proof. intros. split; [done|]. by split. Qed.

Lemma csr_const_ok vm v : hart_wf vm -> urange 64 v -> csr_ok vm (riscv_csr_const vm v).
Proof. intros. split; [done|]. by split. Qed.

Lemma csr_zero_ok vm : hart_wf vm -> csr_ok vm (riscv_csr_zero vm).
Proof. intros. by apply csr_const_ok. Qed.

Lemma csr_zero_h_ok vm dest : hart_wf vm -> urange 64 dest -> csr_ok vm (riscv_csr_zero_h vm dest).
Proof. intros. unfold riscv_csr_zero_h. case_match; [by apply csr_const_ok|by apply csr_fail_ok]. Qed.

#[export] Hint Resolve csr_fail_ok csr_const_ok csr_zero_ok csr_zero_h_ok : csr.

(** ** Each CSR keeps the invariant *)

Lemma set_tvec_at_wf p v vm : urange 64 v -> hart_wf vm -> hart_wf (set_tvec_at p v vm).
Proof. intros. wf_fields. by apply u64_array_insert. Qed.
Lemma set_scratch_at_wf p v vm : urange 64 v -> hart_wf vm -> hart_wf (set_scratch_at p v vm).
Proof. intros. wf_fields. by apply u64_array_insert. Qed.
Lemma set_iselect_at_wf p v vm : urange 64 v -> hart_wf vm -> hart_wf (set_iselect_at p v vm).
Proof. intros. wf_fields. by apply u64_array_insert. Qed.
Lemma set_counteren_at_wf p v vm : urange 64 v -> hart_wf vm -> hart_wf (set_counteren_at p v vm).
Proof. intros. wf_fields. by apply u64_array_insert. Qed.
Lemma set_envcfg_at_wf p v vm : urange 64 v -> hart_wf vm -> hart_wf (set_envcfg_at p v vm).
Proof. intros. wf_fields. by apply u64_array_insert. Qed.
Lemma set_edeleg_m_wf v vm : urange 64 v -> hart_wf vm ->
  hart_wf (set_edeleg_at RISCV_PRIV_MACHINE v vm).
Proof. intros. wf_fields. by apply u64_array_insert. Qed.
Lemma set_ideleg_m_wf v vm : urange 64 v -> hart_wf vm ->
  hart_wf (set_ideleg_at RISCV_PRIV_MACHINE v vm).
Proof. intros. wf_fields. by apply u64_array_insert. Qed.
Lemma set_mseccfg_wf v vm : urange 64 v -> hart_wf vm -> hart_wf (upd_csr (set_csr_mseccfg v) vm).
Proof. intros. wf_fields. Qed.
Lemma set_ip_wf v vm : urange 64 v -> hart_wf vm -> hart_wf (upd_csr (set_csr_ip v) vm).
Proof. intros. wf_fields. Qed.
Lemma set_isa_wf v vm : urange 64 v -> hart_wf vm -> hart_wf (upd_csr (set_csr_isa v) vm).
Proof. intros. wf_fields. Qed.
Lemma set_fcsr_wf v vm : urange 32 v -> hart_wf vm -> hart_wf (upd_csr (set_csr_fcsr v) vm).
Proof. intros. wf_fields. Qed.
Lemma set_stimecmp_wf v vm : urange 64 v -> hart_wf vm -> hart_wf (set_stimecmp v vm).
Proof. intros. wf_fields. Qed.

#[export] Hint Resolve set_tvec_at_wf set_scratch_at_wf set_iselect_at_wf set_counteren_at_wf
  set_envcfg_at_wf set_edeleg_m_wf set_ideleg_m_wf set_mseccfg_wf set_ip_wf set_ie_wf set_isa_wf
  set_fcsr_wf set_stimecmp_wf : rv.

Lemma counter_ok vm dest n : hart_wf vm -> urange 64 dest -> csr_ok vm (riscv_csr_counter vm dest n).
Proof.
  intros H Hd. unfold riscv_csr_counter. case_match; auto with csr.
  apply csr_const_ok; [done|apply H].
Qed.

Lemma counter_h_ok vm dest n : hart_wf vm -> urange 64 dest ->
  csr_ok vm (riscv_csr_counter_h vm dest n).
Proof.
  intros H Hd. unfold riscv_csr_counter_h. case_match; auto with csr.
  apply csr_const_ok; [done|]. apply urange_shiftr; [lia|apply H].
Qed.

Lemma seed_ok vm dest op : hart_wf vm -> urange 64 dest -> csr_ok vm (riscv_csr_seed vm dest op).
Proof.
  intros H Hd. unfold riscv_csr_seed. case_match; auto with csr. case_match; auto with csr.
  cbn. split; [|split]; [|apply urange_lor; [lia|done|]|done].
  - pose proof (wf_entropy _ H). wf_fields.
  - apply (urange_mono 16); [lia|]. apply H.
Qed.

Lemma misa_ok vm dest op : hart_wf vm -> urange 64 dest -> csr_ok vm (riscv_csr_misa vm dest op).
Proof.
  intros H Hd. unfold riscv_csr_misa.
  assert (urange 64 (csr_isa (csr vm) .| riscv_mkmisa "imafdcbsu"%string)) as Hm.
  { apply urange_lor; [lia|apply H|]. vm_compute. split; congruence. }
  pose proof (helper_range vm _ dest op Hm Hd) as Hr.
  destruct (riscv_csr_helper _ _ _ _) as [m d]. cbn in Hr. destruct Hr as [_ Hd'].
  repeat case_match; (split; [|split]); cbn [fst snd]; try done;
    apply update_xlen_wf, set_isa_wf; done.
Qed.

Lemma mpp_bit_replace_other st pos bits v : urange 64 st -> 0 <= pos -> 0 < bits ->
  pos + bits <= 11 \/ 13 <= pos -> pos + bits <= 64 ->
  bit_cut (bit_replace st pos bits v) 11 2 = bit_cut st 11 2.
Proof. intros. apply bit_cut_replace_other; lia || done. Qed.

Lemma status_ok vm dest mask op : hart_wf vm -> urange 64 mask ->
  csr_ok vm (riscv_csr_status vm dest mask op).
Proof.
  intros H Hm. unfold riscv_csr_status. cbn zeta.
  assert (urange 64 (status vm)) as Hs by apply H.
  set (st0 := bit_replace (status vm) 15 2 _).
  assert (urange 64 st0) as H0 by (by apply bit_replace_range).
  pose proof (helper_masked_range vm st0 dest mask op H0 Hm) as Hr.
  destruct (riscv_csr_helper_masked _ _ _ _ _) as [st d]. cbn in Hr. destruct Hr as [Hst Hd].
  set (d' := if _ =? FS_DIRTY then _ else d).
  assert (urange 64 d') as Hd'.
  { subst d'. destruct (_ =? FS_DIRTY); [|done]. apply urange_lor; [lia|done|].
    unfold riscv_csr_sd_bit. by destruct (rv64 vm). }
  destruct (negb (st =? status vm)); [|split; [done|by split]].
  set (st1 := if machine_rv64 vm then _ else st).
  assert (urange 64 st1) as H1.
  { subst st1. destruct (machine_rv64 vm); [|done]. repeat case_match; auto with rv. }
  set (st2 := if _ =? RISCV_PRIV_HYPERVISOR then _ else st1).
  assert (urange 64 st2 /\ bit_cut st2 11 2 <> RISCV_PRIV_HYPERVISOR) as [H2 Hp].
  { subst st2. destruct (Z.eqb_spec (bit_cut st1 11 2) RISCV_PRIV_HYPERVISOR); [|done].
    split; [by apply bit_replace_range|]. rewrite bit_cut_replace_same by (done || lia). done. }
  split; [|split]; cbn [fst snd]; [|done..].
  apply set_status_wf; [by apply bit_replace_range| |].
  - rewrite mpp_bit_replace_other by (done || lia). done.
  - case_match; auto with rv.
Qed.

Lemma ie_ok vm dest mask op : hart_wf vm -> urange 64 mask -> csr_ok vm (riscv_csr_ie vm dest mask op).
Proof.
  intros H Hm. unfold riscv_csr_ie.
  pose proof (helper_masked_range vm _ dest mask op (wf_ie _ (wf_csr _ H)) Hm) as Hr.
  destruct (riscv_csr_helper_masked _ _ _ _ _) as [v d]. cbn in Hr. destruct Hr.
  split; [|by split]. cbn [fst]. auto with rv.
Qed.

Lemma ip_ok vm dest mask op : hart_wf vm -> urange 64 mask -> csr_ok vm (riscv_csr_ip vm dest mask op).
Proof.
  intros H Hm. unfold riscv_csr_ip.
  pose proof (helper_masked_range vm _ dest mask op (wf_ip _ (wf_csr _ H)) Hm) as Hr.
  destruct (riscv_csr_helper_masked _ _ _ _ _) as [v d]. cbn in Hr. destruct Hr.
  split; [|split]; cbn [fst snd]; [auto with rv| |done].
  apply urange_lor; [lia|done|]. apply urange_land_r; [lia|done].
Qed.

Lemma topi_ok vm dest mask : hart_wf vm -> urange 64 dest -> csr_ok vm (riscv_csr_topi vm dest mask).
Proof.
  intros H Hd. unfold riscv_csr_topi. destruct (aia vm); auto with csr. cbn zeta.
  split; [done|]. split; [|done]. cbn [fst snd]. apply urange_lor; [lia|by case_match|].
  apply (urange_mono 32); [lia|]. apply wrap_range. lia.
Qed.

Lemma topei_ok vm p dest op : hart_wf vm -> urange 64 dest -> csr_ok vm (riscv_csr_topei vm p dest op).
Proof.
  intros H Hd. unfold riscv_csr_topei. destruct (aia vm); auto with csr. cbn zeta.
  unfold riscv_get_aia_irq.
  pose proof (update_aia_internal_wf vm (p =? RISCV_PRIV_SUPERVISOR) true (riscv_is_csr_write dest op) H) as Hw.
  destruct (riscv_update_aia_internal _ _ _ _) as [v irq]. destruct Hw as [Hv Hi].
  split; [done|]. split; [|done]. apply (urange_mono 32); [lia|].
  apply urange_lor; [lia|done|]. apply wrap_range. lia.
Qed.

Lemma stimecmp_set_wf vm v : hart_wf vm -> urange 64 v -> hart_wf (riscv_csr_stimecmp_set vm v).
Proof. intros. unfold riscv_csr_stimecmp_set. cbn zeta. case_match; auto with rv. Qed.

Lemma stimecmp_ok vm dest op : hart_wf vm -> urange 64 dest -> csr_ok vm (riscv_csr_stimecmp vm dest op).
Proof.
  intros H Hd. unfold riscv_csr_stimecmp. destruct (riscv_csr_sstc_enabled vm); auto with csr.
  pose proof (helper_l_range vm _ dest (u64 (-1)) op (wf_stimecmp _ H) ltac:(done)) as Hr.
  destruct (riscv_csr_helper_l _ _ _ _ _) as [v d]. cbn in Hr. destruct Hr.
  split; [by apply stimecmp_set_wf|done].
Qed.

Lemma stimecmph_ok vm dest op : hart_wf vm -> urange 64 dest ->
  csr_ok vm (riscv_csr_stimecmph vm dest op).
Proof.
  intros H Hd. unfold riscv_csr_stimecmph.
  destruct (negb (rv64 vm) && riscv_csr_sstc_enabled vm); auto with csr.
  pose proof (helper_h_range vm _ dest (u64 (-1)) op (wf_stimecmp _ H) ltac:(done) Hd) as Hr.
  destruct (riscv_csr_helper_h _ _ _ _ _) as [[v d] ok]. destruct Hr.
  split; [by apply stimecmp_set_wf|done].
Qed.

#[export] Hint Resolve counter_ok counter_h_ok seed_ok misa_ok status_ok ie_ok ip_ok topi_ok topei_ok
  stimecmp_ok stimecmph_ok : csr.

Lemma satp_set_mode_wf vm m : hart_wf vm -> urange 4 m -> hart_wf (satp_set_mode vm m).
Proof. intros H Hm. unfold satp_set_mode. case_match; [|done]. wf_fields. Qed.

Lemma root_from_satp satp n : 0 <= n <= 44 ->
  let root := u64 ((satp .& bit_mask n) .<< RISCV_PAGE_SHIFT) in
  urange 56 root /\ root mod 2 ^ 12 = 0.
Proof.
  intros Hn. cbn zeta. rewrite bit_mask_ones by lia. unfold RISCV_PAGE_SHIFT.
  assert (urange n (satp .& Z.ones n)) as Hr.
  { rewrite Z.land_ones by lia. apply Z.mod_pos_bound, pow2_pos. lia. }
  assert (urange (n + 12) ((satp .& Z.ones n) .<< 12)) as Hs.
  { unfold urange in *. rewrite Z.shiftl_mul_pow2, Z.pow_add_r by lia. nia. }
  rewrite wrap_small by (apply (urange_mono (n + 12)); [lia|done]).
  split; [apply (urange_mono (n + 12)); done || lia|].
  rewrite Z.shiftl_mul_pow2 by lia. apply Z_mod_mult.
Qed.

Lemma set_root_wf v vm : urange 56 v /\ v mod 2 ^ 12 = 0 -> hart_wf vm -> hart_wf (set_root_page_table v vm).
Proof. intros []. intros. wf_fields. Qed.

Lemma bit_cut_range v p n m : 0 <= p -> 0 < n <= m -> p + n <= 64 -> urange m (bit_cut v p n).
Proof.
  intros. rewrite bit_cut_eq by lia. apply (urange_mono n); [lia|]. apply wrap_range. lia.
Qed.

Lemma satp_ok `{Env} vm dest op : hart_wf vm -> urange 64 dest -> csr_ok vm (riscv_csr_satp vm dest op).
Proof.
  intros Hw Hd. unfold riscv_csr_satp. destruct (_ && _); auto with csr.
  assert (forall n, urange 64 (u64 (mmu_mode vm .<< n) .| (root_page_table vm .>> RISCV_PAGE_SHIFT)))
    as Hs.
  { intros n. apply urange_lor; [lia|apply wrap_range; lia|].
    apply (urange_mono 56); [lia|]. apply urange_shiftr; [done|apply Hw]. }
  destruct (rv64 vm).
  - pose proof (helper_range vm _ dest op (Hs 60) Hd) as Hr.
    destruct (riscv_csr_helper _ _ _ _) as [v d]. cbn in Hr. destruct Hr. cbn zeta.
    destruct (_ && _); [by split|]. destruct (_ && _); [by split|].
    split; [|by split]. cbn [fst].
    apply satp_set_mode_wf; [|apply bit_cut_range; lia].
    apply set_root_wf; [apply root_from_satp; lia|done].
  - pose proof (helper_range vm _ dest op (Hs 31) Hd) as Hr.
    destruct (riscv_csr_helper _ _ _ _) as [v d]. cbn in Hr. destruct Hr. cbn zeta.
    split; [|by split]. cbn [fst].
    apply satp_set_mode_wf; [|apply bit_cut_range; lia].
    apply set_root_wf; [apply root_from_satp; lia|done].
Qed.

Lemma update_fflags_wf vm : hart_wf vm -> hart_wf (riscv_update_fflags vm).
Proof.
  intros H. unfold riscv_update_fflags.
  assert (urange 32 (csr_fcsr (csr vm) .| fpu_get_exceptions vm)).
  { apply urange_lor; [lia|apply H|]. apply (urange_mono 5); [lia|apply H]. }
  by apply set_fcsr_wf.
Qed.

Lemma fpu_set_rounding_mode_wf v vm : hart_wf vm -> hart_wf (fpu_set_rounding_mode v vm).
Proof. intros. wf_fields. Qed.

Lemma fpu_set_exceptions_wf v vm : hart_wf vm -> hart_wf (fpu_set_exceptions v vm).
Proof. intros. pose proof (flags_mask v). wf_fields. Qed.

Lemma update_fcsr_wf vm a b : hart_wf vm -> urange 32 b -> hart_wf (riscv_update_fcsr vm a b).
Proof.
  intros H Hb. unfold riscv_update_fcsr. destruct (negb (b =? a)); [|done]. cbn zeta.
  destruct (negb (bit_cut b 5 3 =? bit_cut a 5 3)); cbn [andb].
  - destruct (RM_RMM <? _); [done|]. apply set_fcsr_wf; [done|].
    pose proof (fpu_set_rounding_mode_wf (bit_cut b 5 3) vm H).
    repeat destruct (nz _); try done. by apply fpu_set_exceptions_wf.
  - apply set_fcsr_wf; [done|]. repeat destruct (nz _); try done. by apply fpu_set_exceptions_wf.
Qed.

Lemma set_fcsr_ok vm v : hart_wf vm -> hart_wf (riscv_set_fcsr vm v).
Proof. intros. apply update_fcsr_wf; [done|]. apply wrap_range. lia. Qed.

Lemma fcsr_masked_ok vm vm0 mask dest op : hart_wf vm -> urange 64 mask ->
  csr_ok vm0 (let '(fcsr, dest) := riscv_csr_helper_masked vm vm.(csr).(csr_fcsr) dest mask op in
              (riscv_set_fcsr vm fcsr, dest, true)).
Proof.
  intros H Hm. assert (urange 64 (csr_fcsr (csr vm))) as Hf by (apply (urange_mono 32); [lia|apply H]).
  pose proof (helper_masked_range vm _ dest mask op Hf Hm) as Hr.
  destruct (riscv_csr_helper_masked _ _ _ _ _) as [v d]. cbn in Hr. destruct Hr.
  split; [by apply set_fcsr_ok|by split].
Qed.

Lemma fflags_ok vm dest op : hart_wf vm -> urange 64 dest -> csr_ok vm (riscv_csr_fflags vm dest op).
Proof.
  intros. unfold riscv_csr_fflags. destruct (riscv_fpu_is_enabled vm); auto with csr.
  apply fcsr_masked_ok; [by apply update_fflags_wf|done].
Qed.

Lemma fcsr_ok vm dest op : hart_wf vm -> urange 64 dest -> csr_ok vm (riscv_csr_fcsr vm dest op).
Proof.
  intros. unfold riscv_csr_fcsr. destruct (riscv_fpu_is_enabled vm); auto with csr.
  apply fcsr_masked_ok; [by apply update_fflags_wf|done].
Qed.

Lemma frm_ok vm dest op : hart_wf vm -> urange 64 dest -> csr_ok vm (riscv_csr_frm vm dest op).
Proof.
  intros H Hd. unfold riscv_csr_frm. destruct (riscv_fpu_is_enabled vm); auto with csr. cbn zeta.
  assert (urange 64 (csr_fcsr (csr vm) .>> 5)) as Hf.
  { apply urange_shiftr; [lia|]. apply (urange_mono 32); [lia|apply H]. }
  pose proof (helper_masked_range vm _ dest CSR_FRM_MASK op Hf ltac:(done)) as Hr.
  destruct (riscv_csr_helper_masked _ _ _ _ _) as [v d]. cbn in Hr. destruct Hr.
  split; [by apply set_fcsr_ok|by split].
Qed.

#[export] Hint Resolve satp_ok fflags_ok fcsr_ok frm_ok : csr.

(** Registers the AIA accessors reach. *)
Definition aia_ref_ok (r : aia_ref) : Prop := forall a v, aia_file_wf a -> urange 32 v ->
  urange 32 (r.(aia_get) a) /\ aia_file_wf (r.(aia_set) v a).

Lemma ref_eidelivery_ok : aia_ref_ok ref_eidelivery.
Proof. intros a v [] Hv. split; [done|]. by constructor. Qed.
Lemma ref_eithreshold_ok : aia_ref_ok ref_eithreshold.
Proof. intros a v [] Hv. split; [done|]. by constructor. Qed.
Lemma ref_eip_ok i : aia_ref_ok (ref_eip i).
Proof. intros a v Ha Hv. split; [apply Ha|by apply set_eip_wf]. Qed.
Lemma ref_eie_ok i : aia_ref_ok (ref_eie i).
Proof.
  intros a v Ha Hv. split; [apply Ha|]. destruct Ha. constructor; cbn; try done.
  intros r. rewrite fupd_dec. by case_bool.
Qed.

#[export] Hint Resolve ref_eidelivery_ok ref_eithreshold_ok ref_eip_ok ref_eie_ok : csr.

Lemma atomic_helper_range val dest op : urange 32 val -> urange 64 dest ->
  let '(v, d, w) := riscv_csr_atomic_helper val dest op in urange 32 v /\ urange 64 d.
Proof.
  intros Hv Hd. assert (urange 64 val) by (by apply (urange_mono 32)).
  unfold riscv_csr_atomic_helper. repeat case_match; simplify_eq; split; try done;
    try (apply wrap_range; lia); try (apply urange_lor; [lia|done|apply wrap_range; lia]);
    apply urange_land_l; done || lia.
Qed.

Lemma aia_helper_ok vm smode r dest op : hart_wf vm -> urange 64 dest -> aia_ref_ok r ->
  let '(vm', d) := riscv_csr_aia_helper vm smode r dest op in hart_wf vm' /\ urange 64 d.
Proof.
  intros H Hd Hr. unfold riscv_csr_aia_helper. pose proof (wf_aia _ H) as Ha.
  destruct (aia vm) as [files|]; [|done]. cbn zeta.
  destruct (Hr (files smode) 0 (Ha smode) ltac:(done)) as [Hg _].
  pose proof (atomic_helper_range _ dest op Hg Hd) as Hh.
  destruct (riscv_csr_atomic_helper _ _ _) as [[v d] w]. destruct Hh as [Hv Hd'].
  destruct (Hr (files smode) v (Ha smode) Hv) as [_ Hs].
  split; [|done]. assert (hart_wf (set_aia_file files smode (aia_set r v (files smode)) vm)) as Hw
    by (by apply set_aia_file_wf).
  destruct w; [|done]. by apply update_aia_internal_wf.
Qed.

Lemma aia_pair_ok vm smode reg arr dest op : hart_wf vm -> urange 64 dest ->
  (forall i, aia_ref_ok (arr i)) -> csr_ok vm (riscv_csr_aia_pair_helper vm smode reg arr dest op).
Proof.
  intros H Hd Ha. unfold riscv_csr_aia_pair_helper. destruct (_ && _); auto with csr.
  destruct (reg <? _); auto with csr. cbn zeta.
  pose proof (aia_helper_ok vm smode (arr reg) dest op H Hd (Ha reg)) as H1.
  destruct (riscv_csr_aia_helper vm smode (arr reg) dest op) as [vm1 d1]. destruct H1 as [H1 Hd1].
  destruct (_ && _); [|split; done].
  assert (urange 64 (dest .>> 32)) as Ht by (by apply urange_shiftr).
  pose proof (aia_helper_ok vm1 smode (arr (reg + 1)) _ op H1 Ht (Ha (reg + 1))) as H2.
  destruct (riscv_csr_aia_helper vm1 _ _ _ _) as [vm2 d2]. destruct H2.
  split; [done|]. split; [|done]. apply urange_lor; [lia|done|]. apply wrap_range. lia.
Qed.

Lemma indirect_ok vm p csri dest op : hart_wf vm -> urange 64 dest ->
  csr_ok vm (riscv_csr_indirect vm p csri dest op).
Proof.
  intros H Hd. unfold riscv_csr_indirect. cbn zeta. destruct (aia vm); auto with csr.
  assert (forall r d, urange 64 d -> aia_ref_ok r -> csr_ok vm
    (let '(vm', d) := riscv_csr_aia_helper vm (p =? RISCV_PRIV_SUPERVISOR) r d op in (vm', d, true)))
    as Hh.
  { intros r d Hd' Hr.
    pose proof (aia_helper_ok vm (p =? RISCV_PRIV_SUPERVISOR) r d op H Hd' Hr) as Ho.
    destruct (riscv_csr_aia_helper _ _ _ _ _). destruct Ho. by split. }
  destruct (csri =? CSRI_EIDELIVERY).
  { apply Hh; [|auto with csr]. apply urange_land_l; [lia|done]. }
  destruct (csri =? CSRI_EITHRESHOLD); [apply Hh; auto with csr|].
  repeat (destruct (_ && _)); auto with csr; apply aia_pair_ok; auto with csr.
Qed.

#[export] Hint Resolve indirect_ok : csr.

Lemma store_csr_h_ok (set : Z -> hart -> hart) vm (r : Z * Z * bool) :
  (let '(v, d, _) := r in urange 64 v /\ urange 64 d) -> hart_wf vm ->
  (forall v, urange 64 v -> hart_wf (set v vm)) ->
  csr_ok vm (let '(v, d, ok) := r in if ok then (set v vm, d, true) else (vm, d, false)).
Proof.
  destruct r as [[v d] ok]. intros [Hv Hd] H Hs. destruct ok; [|by apply csr_fail_ok].
  split; [by apply Hs|by split].
Qed.

Lemma csr_op_internal_ok `{Env} vm id dest op : urange 64 rvvm_mimpid ->
  hart_wf vm -> urange 64 dest -> csr_ok vm (riscv_csr_op_internal vm id dest op).
Proof.
  intros Hi Hw Hd. pose proof (wf_csr _ Hw) as Hc.
  assert (urange 64 (csr_hartid (csr vm))) by (apply (urange_mono 32); [lia|apply Hc]).
  unfold riscv_csr_op_internal. cbn zeta.
  repeat match goal with
  | |- csr_ok _ (if ?b then _ else _) => destruct b; [solve
      [ auto with csr
      | apply csr_const_ok; done
      | apply status_ok; done | apply ie_ok; done | apply ip_ok; done
      | apply store_csr_ok; [|auto with rv];
        first [apply tvec_range | apply epc_range | apply helper_range | apply helper_l_range
              | apply helper_masked_range]; (apply Hc || done)
      | apply (store_csr_h_ok (set_envcfg_at _)); [apply helper_h_range; (apply Hc || done)|auto with rv..]
      | apply (store_csr_h_ok (fun v => upd_csr (set_csr_mseccfg v)));
        [apply helper_h_range; (apply Hc || done)|auto with rv..]
      ]|]
  end.
  by apply csr_fail_ok.
Qed.

(** ** Supervisor CSRs cannot reach machine-level state *)

(** What belongs to M-mode: the [mstatus], [mie] and [mip] bits with no supervisor view, the
    machine-level CSRs, the privilege level, and the machine-level AIA register file. *)
Definition machine_view (vm : hart) : list Z * list Z * option aia_regfile :=
  let c := vm.(csr) in
  let M := RISCV_PRIV_MACHINE in
  ([Z.ldiff c.(csr_status) CSR_SSTATUS_MASK; Z.ldiff c.(csr_ie) CSR_SEIP_MASK;
    Z.ldiff c.(csr_ip) CSR_SEIP_MASK; c.(csr_isa); c.(csr_mseccfg); vm.(priv_mode)],
   [c.(csr_edeleg) M; c.(csr_ideleg) M; c.(csr_tvec) M; c.(csr_scratch) M; c.(csr_epc) M;
    c.(csr_cause) M; c.(csr_tval) M; c.(csr_iselect) M; c.(csr_counteren) M; c.(csr_envcfg) M],
   option_map (fun files => files false) vm.(aia)).

(** The hart fields the view reads. *)
Lemma machine_view_frame vm vm' :
  vm'.(csr) = vm.(csr) -> vm'.(priv_mode) = vm.(priv_mode) ->
  option_map (fun files => files false) vm'.(aia) = option_map (fun files => files false) vm.(aia) ->
  machine_view vm' = machine_view vm.
Proof. unfold machine_view. by intros -> -> ->. Qed.

Lemma interrupt_fields vm irq :
  let vm' := riscv_interrupt vm irq in
  vm'.(csr) = vm.(csr) /\ vm'.(priv_mode) = vm.(priv_mode) /\ vm'.(aia) = vm.(aia) /\
  vm'.(registers) = vm.(registers).
Proof. unfold riscv_interrupt, riscv_interrupt_set. cbn zeta. by case_match. Qed.

Lemma interrupt_view vm irq : machine_view (riscv_interrupt vm irq) = machine_view vm.
Proof. destruct (interrupt_fields vm irq) as (E1&E2&E3&_). apply machine_view_frame; congruence. Qed.

Lemma check_interrupts_view vm : machine_view (riscv_hart_check_interrupts vm) = machine_view vm.
Proof. unfold riscv_hart_check_interrupts. by case_match. Qed.

Lemma aia_scan_view n vm files update claim thresh i ret : vm.(aia) = Some files ->
  machine_view (fst (aia_scan n vm files true update claim thresh i ret)) = machine_view vm.
Proof.
  revert vm files i ret. induction n as [|n IH]; intros vm files i ret Ha; [done|].
  cbn [aia_scan]. cbn zeta. destruct (nz (_ .& _)); [|by apply IH].
  destruct (nz ret); [apply interrupt_view|]. destruct (_ <? thresh); [|by apply IH].
  destruct claim, update; cbn [fst]; try destruct (nz _); cbn [fst]; rewrite ?interrupt_view, ?IH;
    try done; unfold set_aia_file; apply machine_view_frame; cbn; by rewrite ?Ha.
Qed.

Lemma update_aia_view vm update claim :
  machine_view (fst (riscv_update_aia_internal vm true update claim)) = machine_view vm.
Proof.
  unfold riscv_update_aia_internal. destruct (aia vm) eqn:E; [|done]. cbn zeta.
  destruct (nz (eidelivery _)); cbn [fst]; destruct update; rewrite ?aia_scan_view; done.
Qed.

Lemma aia_helper_view vm r dest op :
  machine_view (fst (riscv_csr_aia_helper vm true r dest op)) = machine_view vm.
Proof.
  unfold riscv_csr_aia_helper. destruct (aia vm) as [files|] eqn:E; [|done]. cbn zeta.
  destruct (riscv_csr_atomic_helper _ _ _) as [[v d] w]. cbn [fst].
  set (vm' := set_aia_file _ _ _ _).
  assert (machine_view vm' = machine_view vm)
    by (apply machine_view_frame; cbn; by rewrite ?E).
  destruct w; [|done]. unfold riscv_update_aia_state. by rewrite update_aia_view.
Qed.

Lemma indirect_view vm csri dest op :
  machine_view (fst (fst (riscv_csr_indirect vm RISCV_PRIV_SUPERVISOR csri dest op))) = machine_view vm.
Proof.
  assert (forall v r d, machine_view (fst (fst (let '(vm', d) := riscv_csr_aia_helper v true r d op in
    (vm', d, true)))) = machine_view v) as Hh.
  { intros v r d. rewrite <- (aia_helper_view v r d op). by destruct (riscv_csr_aia_helper _ _ _ _ _). }
  assert (forall reg arr, machine_view (fst (fst (riscv_csr_aia_pair_helper vm true reg arr dest op)))
    = machine_view vm) as Hp.
  { intros reg arr. unfold riscv_csr_aia_pair_helper. destruct (_ && _); [done|].
    destruct (reg <? _); [|done]. cbn zeta.
    pose proof (aia_helper_view vm (arr reg) dest op) as H1.
    destruct (riscv_csr_aia_helper vm _ _ _ _) as [v1 d1]. cbn in H1. rewrite <- H1.
    destruct (_ && _); [|done].
    pose proof (aia_helper_view v1 (arr (reg + 1)) (dest .>> 32) op) as H2.
    destruct (riscv_csr_aia_helper v1 _ _ _ _). done. }
  unfold riscv_csr_indirect. cbn zeta. rewrite Z.eqb_refl. destruct (aia vm); [|done].
  repeat match goal with |- context [if ?b then _ else _] => destruct b end; auto.
Qed.

Lemma stimecmp_set_view vm v : machine_view (riscv_csr_stimecmp_set vm v) = machine_view vm.
Proof. unfold riscv_csr_stimecmp_set. cbn zeta. case_match; by rewrite ?interrupt_view. Qed.

(** A word changed only inside a mask. *)
Lemma ldiff_masked_rmw vm csr dest mask op : urange 64 csr ->
  Z.ldiff (fst (riscv_csr_helper_masked vm csr dest mask op)) mask = Z.ldiff csr mask.
Proof.
  intros Hc. apply Z.bits_inj'. intros i Hi. rewrite !Z.ldiff_spec.
  pose proof (csr_helper_masked_bits vm csr dest mask op i Hc Hi) as Hb.
  destruct (riscv_csr_helper_masked _ _ _ _ _) as [v d]. destruct Hb as [Hb _]. cbn [fst].
  destruct (Z.testbit mask i) eqn:E; cbn [negb]; [by rewrite !andb_false_r|].
  rewrite !andb_true_r, Hb. replace (Z.testbit (eff_mask vm mask) i) with false; [done|].
  unfold eff_mask. case_match; [done|]. by rewrite Z.land_spec, E.
Qed.

Lemma ldiff_bit_replace v p n f mask : urange 64 v -> 0 <= p -> 0 < n -> p + n <= 64 ->
  (forall i, p <= i < p + n -> Z.testbit mask i = true) ->
  Z.ldiff (bit_replace v p n f) mask = Z.ldiff v mask.
Proof.
  intros Hv Hp Hn Hb Hm. apply Z.bits_inj'. intros i Hi.
  rewrite !Z.ldiff_spec, testbit_bit_replace by (done || lia).
  destruct (Z.leb_spec p i), (Z.ltb_spec i (p + n)); cbn [andb]; try done.
  rewrite Hm by lia. by rewrite !andb_false_r.
Qed.

Lemma bit_cut_ldiff v v' mask p n : Z.ldiff v mask = Z.ldiff v' mask ->
  0 <= p -> 0 < n -> p + n <= 64 -> (forall i, p <= i < p + n -> Z.testbit mask i = false) ->
  bit_cut v p n = bit_cut v' p n.
Proof.
  intros E Hp Hn Hb Hm. apply Z.bits_inj'. intros i Hi. rewrite !testbit_bit_cut by lia.
  destruct (Z.ltb_spec i n); [|done]. cbn [andb].
  pose proof (f_equal (fun x => Z.testbit x (i + p)) E) as F. cbn beta in F.
  rewrite !Z.ldiff_spec, Hm in F by lia. by rewrite !andb_true_r in F.
Qed.

Lemma sstatus_bits i : 9 <= i < 11 \/ 15 <= i < 17 \/ 32 <= i < 34 ->
  Z.testbit CSR_SSTATUS_MASK i = true.
Proof.
  intros H.
  assert (i = 9 \/ i = 10 \/ i = 15 \/ i = 16 \/ i = 32 \/ i = 33) as Hc by lia.
  by destruct Hc as [->|[->|[->|[->|[->| ->]]]]].
Qed.

Lemma sstatus_no_bits i : 11 <= i < 13 \/ 34 <= i < 36 -> Z.testbit CSR_SSTATUS_MASK i = false.
Proof.
  intros H. assert (i = 11 \/ i = 12 \/ i = 34 \/ i = 35) as Hc by lia.
  by destruct Hc as [->|[->|[->| ->]]].
Qed.

(** SXL is legal on a 64-bit machine. *)
Definition sxl_ok (vm : hart) : Prop :=
  vm.(machine_rv64) = true -> riscv_csr_status_xl_valid (bit_cut (status vm) 34 2) = true.

Lemma set_status_view st vm : Z.ldiff st CSR_SSTATUS_MASK = Z.ldiff (status vm) CSR_SSTATUS_MASK ->
  machine_view (set_status st vm) = machine_view vm.
Proof. intros E. unfold machine_view, status in *. cbn. by rewrite E. Qed.

Lemma sstatus_view vm dest op : hart_wf vm -> sxl_ok vm ->
  machine_view (fst (fst (riscv_csr_status vm dest CSR_SSTATUS_MASK op))) = machine_view vm.
Proof.
  intros H Hx. unfold riscv_csr_status. cbn zeta.
  assert (urange 64 (status vm)) as Hs by apply H.
  set (st0 := bit_replace (status vm) 15 2 _).
  assert (urange 64 st0) as H0 by (by apply bit_replace_range).
  assert (Z.ldiff st0 CSR_SSTATUS_MASK = Z.ldiff (status vm) CSR_SSTATUS_MASK) as E0
    by (apply ldiff_bit_replace; try lia; [done|intros; apply sstatus_bits; lia]).
  pose proof (ldiff_masked_rmw vm st0 dest CSR_SSTATUS_MASK op H0) as E.
  pose proof (helper_masked_range vm st0 dest CSR_SSTATUS_MASK op H0 ltac:(done)) as Hr.
  destruct (riscv_csr_helper_masked _ _ _ _ _) as [st d]. cbn in E, Hr. destruct Hr as [Hst _].
  destruct (negb (st =? status vm)); [|done]. cbn [fst].
  set (st1 := if machine_rv64 vm then _ else st).
  assert (urange 64 st1 /\ Z.ldiff st1 CSR_SSTATUS_MASK = Z.ldiff (status vm) CSR_SSTATUS_MASK)
    as [H1 E1].
  { subst st1. destruct (machine_rv64 vm) eqn:Em; [|split; congruence].
    set (stu := if negb _ then bit_replace st 32 2 _ else st).
    assert (urange 64 stu /\ Z.ldiff stu CSR_SSTATUS_MASK = Z.ldiff (status vm) CSR_SSTATUS_MASK)
      as [Hu Eu].
    { subst stu. destruct (negb _); [|split; congruence]. split; [by apply bit_replace_range|].
      rewrite ldiff_bit_replace; [congruence|done|lia..|]. intros; apply sstatus_bits; lia. }
    rewrite (bit_cut_ldiff stu (status vm) CSR_SSTATUS_MASK 34 2), Hx
      by (done || lia || (intros; apply sstatus_no_bits; lia)). done. }
  rewrite (bit_cut_ldiff st1 (status vm) CSR_SSTATUS_MASK 11 2)
    by (done || lia || (intros; apply sstatus_no_bits; lia)).
  destruct (Z.eqb_spec (bit_cut (status vm) 11 2) RISCV_PRIV_HYPERVISOR) as [Hm|_].
  { exfalso. by apply (wf_mpp _ (wf_csr _ H)). }
  assert (Z.ldiff (bit_replace st1 9 2 FS_OFF) CSR_SSTATUS_MASK = Z.ldiff (status vm) CSR_SSTATUS_MASK)
    as E2.
  { rewrite ldiff_bit_replace; [done|done|lia..|]. intros; apply sstatus_bits; lia. }
  case_match; [|by apply set_status_view].
  rewrite set_status_view; [apply check_interrupts_view|].
  rewrite E2. unfold riscv_hart_check_interrupts. by case_match.
Qed.

Lemma ie_view vm dest op : hart_wf vm ->
  machine_view (fst (fst (riscv_csr_ie vm dest CSR_SEIP_MASK op))) = machine_view vm.
Proof.
  intros H. unfold riscv_csr_ie.
  pose proof (ldiff_masked_rmw vm (csr_ie (csr vm)) dest CSR_SEIP_MASK op (wf_ie _ (wf_csr _ H))) as E.
  destruct (riscv_csr_helper_masked _ _ _ _ _) as [v d]. cbn [fst] in *.
  rewrite check_interrupts_view. unfold machine_view. cbn. by rewrite E.
Qed.

Lemma ip_view vm dest op : hart_wf vm ->
  machine_view (fst (fst (riscv_csr_ip vm dest CSR_SEIP_MASK op))) = machine_view vm.
Proof.
  intros H. unfold riscv_csr_ip.
  pose proof (ldiff_masked_rmw vm (csr_ip (csr vm)) dest CSR_SEIP_MASK op (wf_ip _ (wf_csr _ H))) as E.
  destruct (riscv_csr_helper_masked _ _ _ _ _) as [v d]. cbn [fst] in *.
  rewrite check_interrupts_view. unfold machine_view. cbn. by rewrite E.
Qed.

Lemma topei_view vm dest op :
  machine_view (fst (fst (riscv_csr_topei vm RISCV_PRIV_SUPERVISOR dest op))) = machine_view vm.
Proof.
  unfold riscv_csr_topei, riscv_get_aia_irq. rewrite Z.eqb_refl. destruct (aia vm); [|done].
  pose proof (update_aia_view vm true (riscv_is_csr_write dest op)) as E.
  by destruct (riscv_update_aia_internal _ _ _ _).
Qed.

Lemma stimecmp_view vm dest op : machine_view (fst (fst (riscv_csr_stimecmp vm dest op))) = machine_view vm.
Proof.
  unfold riscv_csr_stimecmp. case_match; [|done]. destruct (riscv_csr_helper_l _ _ _ _ _).
  apply stimecmp_set_view.
Qed.

Lemma stimecmph_view vm dest op :
  machine_view (fst (fst (riscv_csr_stimecmph vm dest op))) = machine_view vm.
Proof.
  unfold riscv_csr_stimecmph. destruct (_ && _); [|done].
  destruct (riscv_csr_helper_h _ _ _ _ _) as [[? ?] ?]. apply stimecmp_set_view.
Qed.

Lemma satp_view `{Env} vm dest op : machine_view (fst (fst (riscv_csr_satp vm dest op))) = machine_view vm.
Proof.
  unfold riscv_csr_satp, satp_set_mode. destruct (_ && _); [done|].
  destruct (rv64 vm); destruct (riscv_csr_helper _ _ _ _); cbn zeta;
    repeat match goal with |- context [if ?b then _ else _] => destruct b end; done.
Qed.

Lemma set_fcsr_view vm v : machine_view (riscv_set_fcsr vm v) = machine_view vm.
Proof.
  unfold riscv_set_fcsr, riscv_update_fcsr. cbn zeta.
  repeat match goal with |- context [if ?b then _ else _] => destruct b end; done.
Qed.

Lemma fcsr_view vm dest op :
  machine_view (fst (fst (riscv_csr_fflags vm dest op))) = machine_view vm /\
  machine_view (fst (fst (riscv_csr_frm vm dest op))) = machine_view vm /\
  machine_view (fst (fst (riscv_csr_fcsr vm dest op))) = machine_view vm.
Proof.
  unfold riscv_csr_fflags, riscv_csr_frm, riscv_csr_fcsr.
  destruct (riscv_fpu_is_enabled vm); [|done]. cbn zeta.
  split; [|split]; destruct (riscv_csr_helper_masked _ _ _ _ _); cbn [fst]; by rewrite set_fcsr_view.
Qed.

Lemma seed_view vm dest op : machine_view (fst (fst (riscv_csr_seed vm dest op))) = machine_view vm.
Proof.
  unfold riscv_csr_seed. destruct (negb _); [done|]. by destruct (riscv_csr_seed_enabled vm).
Qed.

(** Closes one branch of the dispatch, by the function it calls. *)
Ltac view_branch :=
  lazymatch goal with
  | |- machine_view (fst (fst ?t)) = _ =>
    lazymatch t with
    | riscv_csr_seed _ _ _ => apply seed_view
    | riscv_csr_status _ _ _ _ => by apply sstatus_view
    | riscv_csr_ie _ _ _ _ => by apply ie_view
    | riscv_csr_ip _ _ _ _ => by apply ip_view
    | riscv_csr_topei _ _ _ _ => apply topei_view
    | riscv_csr_stimecmp _ _ _ => apply stimecmp_view
    | riscv_csr_stimecmph _ _ _ => apply stimecmph_view
    | riscv_csr_satp _ _ _ => apply satp_view
    | riscv_csr_indirect _ _ _ _ _ => apply indirect_view
    | riscv_csr_fflags _ _ _ => apply fcsr_view
    | riscv_csr_frm _ _ _ => apply fcsr_view
    | riscv_csr_fcsr _ _ _ => apply fcsr_view
    | riscv_csr_zero_h _ _ => unfold riscv_csr_zero_h; by case_match
    | riscv_csr_topi _ _ _ => unfold riscv_csr_topi; by case_match
    | riscv_csr_counter _ _ _ => unfold riscv_csr_counter; by case_match
    | riscv_csr_counter_h _ _ _ => unfold riscv_csr_counter_h; by case_match
    | _ => reflexivity
    end
  end.

Lemma csr_internal_isolated `{Env} vm id dest op : hart_wf vm -> sxl_ok vm ->
  riscv_csr_privilege id <= RISCV_PRIV_SUPERVISOR ->
  machine_view (fst (fst (riscv_csr_op_internal vm id dest op))) = machine_view vm.
Proof.
  intros Hw Hx Hp. unfold riscv_csr_op_internal. cbn zeta.
  repeat lazymatch goal with
  | |- machine_view (fst (fst (if id =? ?k then _ else _))) = _ => destruct (Z.eqb_spec id k) as [->|_];
      [first [exfalso; clear - Hp; vm_compute in Hp; congruence | view_branch]|]
  | |- machine_view (fst (fst (if ?b then _ else _))) = _ => destruct b; [view_branch|]
  end.
  done.
Qed.

(** ** WARL fields *)

(** The fields of [mstatus] with illegal encodings: MPP, and UXL and SXL on a 64-bit machine. *)
Definition status_legal (vm : hart) : Prop :=
  bit_cut (status vm) 11 2 <> RISCV_PRIV_HYPERVISOR /\
  (vm.(machine_rv64) = true ->
     riscv_csr_status_xl_valid (bit_cut (status vm) 32 2) = true /\
     riscv_csr_status_xl_valid (bit_cut (status vm) 34 2) = true).

Lemma check_interrupts_frame vm :
  let vm' := riscv_hart_check_interrupts vm in
  vm'.(machine_rv64) = vm.(machine_rv64) /\ vm'.(csr) = vm.(csr).
Proof. unfold riscv_hart_check_interrupts. by case_match. Qed.

Lemma status_write_legal vm dest mask op : hart_wf vm -> urange 64 mask -> status_legal vm ->
  status_legal (fst (fst (riscv_csr_status vm dest mask op))).
Proof.
  intros H Hm Hl. unfold riscv_csr_status. cbn zeta.
  assert (urange 64 (status vm)) as Hs by apply H.
  set (st0 := bit_replace (status vm) 15 2 _).
  assert (urange 64 st0) as H0 by (by apply bit_replace_range).
  pose proof (helper_masked_range vm st0 dest mask op H0 Hm) as Hr.
  destruct (riscv_csr_helper_masked _ _ _ _ _) as [st d]. cbn in Hr. destruct Hr as [Hst _].
  destruct (negb (st =? status vm)); [|done]. cbn [fst].
  set (st1 := if machine_rv64 vm then _ else st).
  assert (urange 64 st1 /\ (machine_rv64 vm = true ->
    riscv_csr_status_xl_valid (bit_cut st1 32 2) = true /\
    riscv_csr_status_xl_valid (bit_cut st1 34 2) = true)) as [H1 Hx].
  { subst st1. destruct (machine_rv64 vm); [|done].
    set (stu := if negb _ then bit_replace st 32 2 _ else st).
    assert (urange 64 stu /\ riscv_csr_status_xl_valid (bit_cut stu 32 2) = true) as [Hu Ex].
    { subst stu. destruct (riscv_csr_status_xl_valid (bit_cut st 32 2)) eqn:E; [done|]. cbn [negb].
      split; [by apply bit_replace_range|]. by rewrite bit_cut_replace_same by (done || lia). }
    destruct (riscv_csr_status_xl_valid (bit_cut stu 34 2)) eqn:E; [done|]. cbn [negb].
    split; [by apply bit_replace_range|]. intros _.
    rewrite bit_cut_replace_same, bit_cut_replace_other by (done || lia). done. }
  set (st2 := if _ =? RISCV_PRIV_HYPERVISOR then _ else st1).
  assert (urange 64 st2 /\ bit_cut st2 11 2 <> RISCV_PRIV_HYPERVISOR /\
    bit_cut st2 32 2 = bit_cut st1 32 2 /\ bit_cut st2 34 2 = bit_cut st1 34 2) as (H2&Hp&E1&E2).
  { subst st2. destruct (Z.eqb_spec (bit_cut st1 11 2) RISCV_PRIV_HYPERVISOR); [|done].
    split; [by apply bit_replace_range|]. rewrite bit_cut_replace_same by (done || lia).
    rewrite !bit_cut_replace_other by (done || lia). done. }
  set (v := if nz _ then _ else vm).
  assert (machine_rv64 v = machine_rv64 vm) as Ev
    by (subst v; destruct (nz _); [apply check_interrupts_frame|done]).
  unfold status_legal, status. cbn. rewrite Ev, !bit_cut_replace_other by (done || lia).
  by rewrite E1, E2.
Qed.

Lemma tvec_legal vm csr dest op : urange 64 csr -> urange 64 dest ->
  bit_cut (fst (riscv_csr_tvec vm csr dest op)) 0 2 < 2 /\
  fst (riscv_csr_tvec vm csr dest op) / 4 = fst (riscv_csr_helper vm csr dest op) / 4.
Proof.
  intros Hc Hd. unfold riscv_csr_tvec. pose proof (helper_range vm csr dest op Hc Hd) as [Hr _].
  destruct (riscv_csr_helper _ _ _ _) as [v d]. cbn [fst] in *. split.
  - rewrite bit_cut_replace_same by (done || lia).
    assert (urange 1 (bit_cut v 0 2 .& 0x1)) as H1 by (apply urange_land_r; [lia|done]).
    rewrite wrap_small by (apply (urange_mono 1); [lia|done]). unfold urange in H1. lia.
  - change 4 with (2 ^ 2). rewrite <- !Z.shiftr_div_pow2 by lia. apply Z.bits_inj'. intros i Hi.
    rewrite !testbit_shiftr, testbit_bit_replace by (done || lia).
    destruct (Z.leb_spec 0 (i + 2)), (Z.ltb_spec (i + 2) (0 + 2)); cbn [andb]; done || lia.
Qed.

Lemma epc_legal vm csr dest op : urange 64 csr -> urange 64 dest ->
  fst (riscv_csr_epc vm csr dest op) = 2 * (fst (riscv_csr_helper vm csr dest op) / 2).
Proof.
  intros Hc Hd. unfold riscv_csr_epc. pose proof (helper_range vm csr dest op Hc Hd) as [Hr _].
  destruct (riscv_csr_helper _ _ _ _) as [v d]. cbn [fst] in *.
  apply Z.bits_inj'. intros i Hi. rewrite Z.land_spec, testbit_not64 by done.
  replace (2 * (v / 2)) with ((v .>> 1) .<< 1)
    by (rewrite Z.shiftl_mul_pow2, Z.shiftr_div_pow2 by lia; change (2 ^ 1) with 2; lia).
  rewrite testbit_shiftl by done. destruct (Z.eq_dec i 0) as [->|].
  { by rewrite andb_false_r, Z.testbit_neg_r by lia. }
  rewrite testbit_shiftr by lia. replace (i - 1 + 1) with i by lia.
  replace (Z.testbit 1 i) with false by (symmetry; apply (Z.pow2_bits_false 0); lia).
  rewrite andb_true_r. destruct (Z.ltb_spec i 64); [by rewrite andb_true_r|].
  by rewrite (testbit_above 64 v) by (done || lia).
Qed.

Lemma csr_op_ok `{Env} vm id dest op : urange 64 rvvm_mimpid ->
  hart_wf vm -> urange 64 dest -> csr_ok vm (riscv_csr_op vm id dest op).
Proof.
  intros Hi Hw Hd. unfold riscv_csr_op. destruct (_ && _); [by apply csr_fail_ok|].
  destruct (_ <? _); [by apply csr_fail_ok|].
  pose proof (csr_op_internal_ok vm id dest op Hi Hw Hd) as Ho.
  destruct (riscv_csr_op_internal _ _ _ _) as [[v d] ok]. destruct Ho as (H1 & H2 & H3).
  split; [done|]. split; [|done]. cbn [fst snd]. case_match; [apply wrap_range; lia|done].
Qed.

(** ** Properties *)

(** Access control.  A CSR access is refused whenever the CSR number asks for a higher
    privilege than the hart has, or it would write a read-only CSR; and any refused access,
    for whatever reason, leaves the hart exactly as it was. *)
Theorem csr_access_control `{Env} vm id dest op :
  urange 64 rvvm_mimpid -> hart_wf vm -> urange 64 dest ->
  let '(vm', _, ok) := riscv_csr_op vm id dest op in
  (vm.(priv_mode) < riscv_csr_privilege id -> ok = false) /\
  (riscv_csr_readonly id = true -> op = CSR_SWAP \/ dest <> 0 -> ok = false) /\
  (ok = false -> vm' = vm).
Proof.
  intros Hi Hw Hd. pose proof (csr_op_ok vm id dest op Hi Hw Hd) as Ho.
  destruct (riscv_csr_op vm id dest op) as [[vm' d] ok] eqn:E. destruct Ho as (_ & _ & Hf).
  split; [|split]; [| |done]; unfold riscv_csr_op in E.
  - intros Hp. replace (_ <? _) with true in E by lia. destruct (_ && _); by simplify_eq.
  - intros Hr Ho. rewrite Hr in E. cbn [andb] in E.
    replace ((op =? CSR_SWAP) || nz dest) with true in E; [by simplify_eq|].
    destruct Ho as [->|Hn]; [done|]. rewrite (nz_true dest) by done. by rewrite orb_true_r.
Qed.

Lemma csr_access_control_witness :
  (riscv_csr_op (H := demo_env) demo_hart CSR_MHARTID 5 CSR_SWAP) = (demo_hart, 5, false).
Proof.
  pose proof (csr_access_control (H := demo_env) demo_hart CSR_MHARTID 5 CSR_SWAP
    ltac:(done) demo_hart_wf ltac:(done)) as Hc.
  assert (snd (riscv_csr_op (H := demo_env) demo_hart CSR_MHARTID 5 CSR_SWAP) = false) as E
    by (vm_compute; reflexivity).
  assert (snd (fst (riscv_csr_op (H := demo_env) demo_hart CSR_MHARTID 5 CSR_SWAP)) = 5) as Ed
    by (vm_compute; reflexivity).
  destruct (riscv_csr_op _ _ _ _) as [[vm' d] ok]. cbn [fst snd] in E, Ed. subst ok d.
  destruct Hc as (_ & _ & ->); done.
Defined.

(** C20: Isolation.  On a hart whose SXL is legal, if the machine is 64-bit, an access to a
    CSR of supervisor or user level, whatever its operand, leaves the machine-level state alone: the [mstatus], [mie] and [mip] bits without a
    supervisor view, the delegation registers, the machine trap CSRs, [menvcfg], [mseccfg],
    [misa], the privilege level and the machine-level AIA file. *)
Theorem csr_supervisor_isolation `{Env} vm id dest op :
  hart_wf vm -> sxl_ok vm -> riscv_csr_privilege id <= RISCV_PRIV_SUPERVISOR ->
  machine_view (fst (fst (riscv_csr_op vm id dest op))) = machine_view vm.
Proof.
  intros Hw Hx Hp. unfold riscv_csr_op. destruct (_ && _); [done|]. destruct (_ <? _); [done|].
  rewrite <- (csr_internal_isolated vm id dest op Hw Hx Hp).
  by destruct (riscv_csr_op_internal _ _ _ _) as [[v d] ok].
Qed.

Lemma csr_supervisor_isolation_witness :
  machine_view (fst (fst (riscv_csr_op (H := demo_env) demo_hart CSR_SSTATUS (u64 (-1)) CSR_SWAP)))
  = machine_view demo_hart.
Proof.
  apply csr_supervisor_isolation; [apply demo_hart_wf| |vm_compute; congruence].
  intros _. vm_compute. reflexivity.
Defined.

(** Read-modify-write under a WARL mask.  Every bit of the CSR inside the mask at the
    current XLEN is swapped, set or cleared by the operand as the operation says, every bit
    outside is kept, and the value returned is the old value under the mask. *)
Theorem csr_masked_rmw vm csr dest mask op i :
  urange 64 csr -> 0 <= i ->
  let '(csr', dest') := riscv_csr_helper_masked vm csr dest mask op in
  Z.testbit csr' i =
    rmw_bit op (Z.testbit csr i) (Z.testbit dest i) (Z.testbit (eff_mask vm mask) i) /\
  dest' = csr .& eff_mask vm mask.
Proof. apply csr_helper_masked_bits. Qed.

Lemma csr_masked_rmw_witness :
  Z.testbit (fst (riscv_csr_helper_masked demo_hart 0xF0 0x3C 0x18 CSR_SWAP)) 3 = true.
Proof.
  pose proof (csr_masked_rmw demo_hart 0xF0 0x3C 0x18 CSR_SWAP 3 ltac:(done) ltac:(lia)) as Hb.
  destruct (riscv_csr_helper_masked _ _ _ _ _) as [v d]. destruct Hb as [Hb _]. exact Hb.
Defined.

(** WARL legalization.  After any [mstatus]/[sstatus] access MPP never encodes the
    missing hypervisor level and, on a 64-bit machine, UXL and SXL name an implemented width;
    a written trap vector has mode 0 or 1 with its base kept; a written epc is even. *)
Theorem csr_warl vm dest mask op csr :
  hart_wf vm -> status_legal vm -> urange 64 mask -> urange 64 csr -> urange 64 dest ->
  status_legal (fst (fst (riscv_csr_status vm dest mask op))) /\
  bit_cut (fst (riscv_csr_tvec vm csr dest op)) 0 2 < 2 /\
  fst (riscv_csr_tvec vm csr dest op) / 4 = fst (riscv_csr_helper vm csr dest op) / 4 /\
  fst (riscv_csr_epc vm csr dest op) = 2 * (fst (riscv_csr_helper vm csr dest op) / 2).
Proof.
  intros Hw Hl Hm Hc Hd. split; [by apply status_write_legal|].
  destruct (tvec_legal vm csr dest op Hc Hd). split; [done|]. split; [done|].
  by apply epc_legal.
Qed.

Lemma csr_warl_witness :
  status_legal (fst (fst (riscv_csr_status demo_hart 0x1000 CSR_MSTATUS_MASK CSR_SWAP))).
Proof.
  apply (csr_warl demo_hart 0x1000 CSR_MSTATUS_MASK CSR_SWAP 0 demo_hart_wf); done.
Defined.

(** Switching [satp] directly from Sv39 to Sv48 installs the new root page table but keeps
    walking it as Sv39: the mode is only updated when paging is turned on or off. *)
Theorem satp_mode_switch_lost :
  let vm := set_mmu_mode CSR_SATP_MODE_SV39 demo_hart in
  let satp := (CSR_SATP_MODE_SV48 .<< 60) .| 0x80000 in
  let '(vm', _, ok) := riscv_csr_op (H := demo_env) vm CSR_SATP satp CSR_SWAP in
  ok = true /\ vm'.(root_page_table) = 0x80000000 /\ vm'.(mmu_mode) = CSR_SATP_MODE_SV39.
Proof. vm_compute. repeat split; reflexivity. Qed.
