(* ===== verification/Mmu.v ===== *)
(** * Memory management unit (src/cpu/riscv_mmu.c, src/cpu/riscv_mmu.h)

    Page-table walks (Sv32, Sv39, Sv48, Sv57), MMIO dispatch, the slow access path, the
    TLB-cached loads, stores and instruction fetch.  Host pointers are addresses in
    [host]; the buffer a caller passes as [data] is an optional list of bytes that is
    returned updated.  Theorems: the walks refine the address translation algorithm of the
    privileged architecture; the slow path caches exactly the translation it used, so that
    the fast paths agree with it; accesses that span two pages recurse once. *)

From S2P Require Import Prelude BitOps MemOps State CsrDefs Tlb Hart Csr.

(** ** Constants *)

Definition SV32_VPN_BITS : Z := 10.
Definition SV32_VPN_MASK : Z := 0x3FF.
Definition SV32_PHYS_BITS : Z := 34.
Definition SV32_LEVELS : nat := 2.
Definition SV64_VPN_BITS : Z := 9.
Definition SV64_VPN_MASK : Z := 0x1FF.
Definition SV64_PHYS_BITS : Z := 56.
Definition SV64_PHYS_MASK : Z := 0xFFFFFFFFFFFFFF.
Definition SV39_LEVELS : nat := 3.
Definition SV48_LEVELS : nat := 4.
Definition SV57_LEVELS : nat := 5.
Definition RISCV_MMU_DEBUG_ACCESS : Z := RISCV_MMU_READ .| RISCV_MMU_EXEC .| RISCV_MMU_WRITE.

Definition RISCV_PTE_VALID : Z := 0x1.
Definition RISCV_PTE_LEAF : Z := 0xA.
Definition RISCV_PTE_USER : Z := 0x10.
Definition RISCV_PTE_ACCESSED : Z := 0x40.

Definition RISCV_MMU_ATTR_NO_TRAP : Z := 0x100.
Definition RISCV_MMU_ATTR_NO_PROT : Z := 0x200.
Definition RISCV_MMU_ATTR_PHYS : Z := 0x400.
Definition RISCV_MMU_ATTR_PTR : Z := 0x800.

(** ** RAM *)

(** [riscv_init_ram] with [data] the result of [vma_alloc]; [None] when it fails. *)
Definition riscv_init_ram (base_addr size data : Z) : option ram :=
  if nz (base_addr .& RISCV_PAGE_MASK) || nz (size .& RISCV_PAGE_MASK) then None
  else if negb (nz data) then None
  else Some (mk_ram base_addr size data).

Definition riscv_free_ram (m : ram) : ram := mk_ram 0 0 0.

(** The host pointer of a physical address, [None] outside of RAM. *)
Definition riscv_phys_access (vm : hart) (paddr : Z) : option Z :=
  let m := vm.(mem) in
  if (m.(ram_addr) <=? paddr) && (paddr - m.(ram_addr) <? m.(ram_size))
  then Some (m.(ram_data) + (paddr - m.(ram_addr))) else None.

(** ** Page-table walks *)

(** [atomic_cas_uint32_le] and [atomic_cas_uint64_le]. *)
Definition atomic_cas_uint32_le (m : memory) (addr exp val : Z) : memory * bool :=
  if read_uint32_le m addr =? exp then (write_uint32_le m addr val, true) else (m, false).
Definition atomic_cas_uint64_le (m : memory) (addr exp val : Z) : memory * bool :=
  if read_uint64_le m addr =? exp then (write_uint64_le m addr val, true) else (m, false).

Definition riscv_mmu_check_priv (vm : hart) (priv access : Z) : bool :=
  if access =? RISCV_MMU_DEBUG_ACCESS then true
  else if access =? RISCV_MMU_EXEC then false
  else if negb (priv =? RISCV_PRIV_SUPERVISOR) || negb (nz (status vm .& CSR_STATUS_SUM)) then false
  else true.

(** What the inner [while (true)] of a walk does: return from the function, or [break] to
    the next level with a page table and a bit offset. *)
Inductive walk_step :=
| WalkReturn (vm : hart) (paddr : option Z)
| WalkBreak (pagetable bit_off : Z).

(** The inner loop of [riscv_mmu_translate_sv32]: each iteration re-reads the entry after a
    failed compare-and-swap.  No other thread runs in the model, so one iteration is enough. *)
Fixpoint sv32_pte_loop (fuel : nat) (vm : hart) (pte_ptr vaddr priv access pagetable bit_off : Z)
    : walk_step :=
  match fuel with
  | O => WalkReturn vm None
  | S fuel =>
      let pte := read_uint32_le vm.(host) pte_ptr in
      if nz (pte .& RISCV_PTE_VALID) then
        if nz (pte .& RISCV_PTE_LEAF) then
          if eqb (nz (pte .& RISCV_PTE_USER)) (nz priv) && negb (riscv_mmu_check_priv vm priv access)
          then WalkReturn vm None
          else if nz (pte .& access) then
            let vmask := bit_mask bit_off in
            let pmask := u64 (bit_mask (SV32_PHYS_BITS - bit_off) .<< bit_off) in
            let pte_shift := u32 (pte .<< 2) in
            let pte_ad := pte .| RISCV_PTE_ACCESSED .| ((access .& RISCV_MMU_WRITE) .<< 5) in
            if nz (pte_shift .& vmask .& RISCV_PAGE_PNMASK) then WalkReturn vm None
            else if negb (pte =? pte_ad) then
              let '(h, ok) := atomic_cas_uint32_le vm.(host) pte_ptr pte pte_ad in
              if negb ok then sv32_pte_loop fuel vm pte_ptr vaddr priv access pagetable bit_off
              else WalkReturn (set_host h vm) (Some ((pte_shift .& pmask) .| (vaddr .& vmask)))
            else WalkReturn vm (Some ((pte_shift .& pmask) .| (vaddr .& vmask)))
          else WalkBreak pagetable bit_off
        else if negb (nz (pte .& RISCV_MMU_WRITE)) then
          WalkBreak (u32 ((pte .>> 10) .<< RISCV_PAGE_SHIFT)) (bit_off - SV32_VPN_BITS)
        else WalkBreak pagetable bit_off
      else WalkBreak pagetable bit_off
  end.

(** The loop over the levels. *)
Fixpoint sv32_walk (levels : nat) (vm : hart) (vaddr priv access pagetable bit_off : Z)
    : hart * option Z :=
  match levels with
  | O => (vm, None)
  | S levels =>
      let pgt_off := ((vaddr .>> bit_off) .& SV32_VPN_MASK) .<< 2 in
      match riscv_phys_access vm (u64 (pagetable + pgt_off)) with
      | None => (vm, None)
      | Some pte_ptr =>
          match sv32_pte_loop 1 vm pte_ptr vaddr priv access pagetable bit_off with
          | WalkReturn vm r => (vm, r)
          | WalkBreak pagetable bit_off => sv32_walk levels vm vaddr priv access pagetable bit_off
          end
      end
  end.

Definition riscv_mmu_translate_sv32 (vm : hart) (vaddr priv access : Z) : hart * option Z :=
  sv32_walk SV32_LEVELS vm vaddr priv access vm.(root_page_table) (SV32_VPN_BITS + RISCV_PAGE_SHIFT).

Fixpoint rv64_pte_loop (fuel : nat) (vm : hart) (pte_ptr vaddr priv access pagetable bit_off : Z)
    : walk_step :=
  match fuel with
  | O => WalkReturn vm None
  | S fuel =>
      let pte := read_uint64_le vm.(host) pte_ptr in
      if nz (pte .& RISCV_PTE_VALID) then
        if nz (pte .& RISCV_PTE_LEAF) then
          if eqb (nz (pte .& RISCV_PTE_USER)) (nz priv) && negb (riscv_mmu_check_priv vm priv access)
          then WalkReturn vm None
          else if nz (pte .& access) then
            let vmask := bit_mask bit_off in
            let pmask := u64 (bit_mask (SV64_PHYS_BITS - bit_off) .<< bit_off) in
            let pte_shift := u64 (pte .<< 2) in
            let pte_ad := pte .| RISCV_PTE_ACCESSED .| ((access .& RISCV_MMU_WRITE) .<< 5) in
            if nz ((pte_shift .& vmask) .& RISCV_PAGE_PNMASK) then WalkReturn vm None
            else if negb (pte =? pte_ad) then
              let '(h, ok) := atomic_cas_uint64_le vm.(host) pte_ptr pte pte_ad in
              if negb ok then rv64_pte_loop fuel vm pte_ptr vaddr priv access pagetable bit_off
              else WalkReturn (set_host h vm) (Some ((pte_shift .& pmask) .| (vaddr .& vmask)))
            else WalkReturn vm (Some ((pte_shift .& pmask) .| (vaddr .& vmask)))
          else WalkBreak pagetable bit_off
        else if negb (nz (pte .& RISCV_MMU_WRITE)) then
          WalkBreak (u64 ((pte .>> 10) .<< RISCV_PAGE_SHIFT) .& SV64_PHYS_MASK) (bit_off - SV64_VPN_BITS)
        else WalkBreak pagetable bit_off
      else WalkBreak pagetable bit_off
  end.

Fixpoint rv64_walk (levels : nat) (vm : hart) (vaddr priv access pagetable bit_off : Z)
    : hart * option Z :=
  match levels with
  | O => (vm, None)
  | S levels =>
      let pgt_off := ((vaddr .>> bit_off) .& SV64_VPN_MASK) .<< 3 in
      match riscv_phys_access vm (u64 (pagetable + pgt_off)) with
      | None => (vm, None)
      | Some pte_ptr =>
          match rv64_pte_loop 1 vm pte_ptr vaddr priv access pagetable bit_off with
          | WalkReturn vm r => (vm, r)
          | WalkBreak pagetable bit_off => rv64_walk levels vm vaddr priv access pagetable bit_off
          end
      end
  end.

Definition riscv_mmu_translate_rv64 (vm : hart) (vaddr priv access : Z) (sv_levels : nat)
    : hart * option Z :=
  let bit_off := Z.of_nat sv_levels * SV64_VPN_BITS + RISCV_PAGE_SHIFT - SV64_VPN_BITS in
  if negb (vaddr =? u64 (sign_extend vaddr (bit_off + SV64_VPN_BITS))) then (vm, None)
  else rv64_walk sv_levels vm vaddr priv access vm.(root_page_table) bit_off.

Definition riscv_mmu_translate (vm : hart) (vaddr access : Z) : hart * option Z :=
  let priv :=
    if nz (status vm .& CSR_STATUS_MPRV) && negb (access =? RISCV_MMU_EXEC)
    then bit_cut (status vm) 11 2 else vm.(priv_mode) in
  let access :=
    if nz (status vm .& CSR_STATUS_MXR) && (access =? RISCV_MMU_READ)
    then access .| RISCV_MMU_EXEC else access in
  if priv <? RISCV_PRIV_MACHINE then
    let mode := vm.(mmu_mode) in
    if mode =? CSR_SATP_MODE_BARE then (vm, Some vaddr)
    else if mode =? CSR_SATP_MODE_SV32 then riscv_mmu_translate_sv32 vm vaddr priv access
    else if mode =? CSR_SATP_MODE_SV39 then riscv_mmu_translate_rv64 vm vaddr priv access SV39_LEVELS
    else if mode =? CSR_SATP_MODE_SV48 then riscv_mmu_translate_rv64 vm vaddr priv access SV48_LEVELS
    else if mode =? CSR_SATP_MODE_SV57 then riscv_mmu_translate_rv64 vm vaddr priv access SV57_LEVELS
    else (vm, None)
  else (vm, Some vaddr).

(** ** MMIO *)

(** The data buffer of an access: [Some] bytes, or [None] for a NULL pointer. *)
Abbreviation buffer := (option (list Z)).

(** [memcpy(dst + off, src, n)] on buffers. *)
Definition splice (dst : list Z) (off : nat) (src : list Z) : list Z :=
  take off dst ++ src ++ drop (off + length src) dst.

(** [atomic_memcpy_relaxed] from host memory into a buffer and back.  The single wide copy
    made for aligned sizes moves the same bytes as the byte loop. *)
Definition atomic_memcpy_load (h : memory) (src : Z) (size : nat) (data : list Z) : list Z :=
  splice data 0 (get_bytes size h src).
Definition atomic_memcpy_store (h : memory) (dst : Z) (size : nat) (data : list Z) : memory :=
  put_bytes h dst (take size data).

(** The [while (size)] loop of [riscv_mmio_unaligned_op]; [tmp] is the bounce buffer. *)
Fixpoint mmio_unaligned_loop (fuel : nat) (dev : mmio_dev) (vm : hart) (tmp data : list Z)
    (offset_align offset_diff offset_dest size align access : Z) : hart * list Z * bool :=
  if negb (nz size) then (vm, data, true)
  else
    match fuel with
    | O => (vm, data, false)
    | S fuel =>
        let size_dest := if size <? align - offset_diff then size else align - offset_diff in
        let '(vm, tmp, ok) :=
          if negb (access =? RISCV_MMU_WRITE) || negb (offset_diff =? 0) || negb (size_dest =? align)
          then match dev.(dev_read) with
               | None => (vm, tmp, false)
               | Some read => read vm offset_align align tmp
               end
          else (vm, tmp, true) in
        if negb ok then (vm, data, false)
        else
          let '(vm, tmp, data, ok) :=
            if access =? RISCV_MMU_WRITE then
              let tmp := splice tmp (Z.to_nat offset_diff)
                (take (Z.to_nat size_dest) (drop (Z.to_nat offset_dest) data)) in
              match dev.(dev_write) with
              | None => (vm, tmp, data, false)
              | Some write =>
                  let '(vm, tmp, ok) := write vm offset_align align tmp in (vm, tmp, data, ok)
              end
            else
              (vm, tmp, splice data (Z.to_nat offset_dest)
                (take (Z.to_nat size_dest) (drop (Z.to_nat offset_diff) tmp)), true) in
          if negb ok then (vm, data, false)
          else mmio_unaligned_loop fuel dev vm tmp data (offset_align + align) 0
                 (offset_dest + size_dest) (size - size_dest) align access
    end.

Definition riscv_mmio_unaligned_op (dev : mmio_dev) (vm : hart) (data : list Z)
    (offset size access : Z) : hart * list Z * bool :=
  let align :=
    if size <? dev.(dev_min_op_size) then dev.(dev_min_op_size)
    else if dev.(dev_max_op_size) <? size then dev.(dev_max_op_size) else size in
  let offset_align := offset .& not64 (u64 (align - 1)) in
  let offset_diff := offset - offset_align in
  if 16 <? align then (rvvm_fatal vm, data, false)
  else mmio_unaligned_loop (Z.to_nat size) dev vm (replicate 16 0) data
         offset_align offset_diff 0 size align access.

(** [rvvm_mmio_none] (src/core/rvvm.c). *)
Definition rvvm_mmio_none (data : list Z) (size : Z) : list Z :=
  splice data 0 (replicate (Z.to_nat size) 0).

(** One matching device of [riscv_mmio_scan]. *)
Definition mmio_access (mmio : mmio_dev) (vm : hart) (vaddr paddr : Z) (data : list Z)
    (size access : Z) : hart * list Z :=
  let rwfunc := if access =? RISCV_MMU_WRITE then mmio.(dev_write) else mmio.(dev_read) in
  let offset := paddr - mmio.(dev_addr) in
  let '(vm, data) :=
    match rwfunc with
    | Some f =>
        if (size <=? mmio.(dev_max_op_size)) && (mmio.(dev_min_op_size) <=? size) &&
           negb (nz (offset .& u64 (size - 1)))
        then let '(vm, data, _) := f vm offset size data in (vm, data)
        else let '(vm, data, _) := riscv_mmio_unaligned_op mmio vm data offset size access in
             (vm, data)
    | None =>
        if negb (nz mmio.(dev_mapping)) then (vm, rvvm_mmio_none data size) else (vm, data)
    end in
  if nz mmio.(dev_mapping) then
    let paddr_align := paddr .& RISCV_PAGE_PNMASK in
    let vm :=
      if (mmio.(dev_addr) <=? paddr_align) &&
         (u64 (paddr_align + RISCV_PAGE_SIZE) <=? u64 (mmio.(dev_addr) + mmio.(dev_size)))
      then riscv_tlb_put vm vaddr (mmio.(dev_mapping) + offset) access else vm in
    if access =? RISCV_MMU_WRITE
    then (set_host (atomic_memcpy_store vm.(host) (mmio.(dev_mapping) + offset) (Z.to_nat size) data) vm,
          data)
    else (vm, atomic_memcpy_load vm.(host) (mmio.(dev_mapping) + offset) (Z.to_nat size) data)
  else (vm, data).

Fixpoint mmio_scan_devs (devs : list mmio_dev) (vm : hart) (vaddr paddr : Z) (data : list Z)
    (size access : Z) : hart * list Z * bool :=
  match devs with
  | [] => (vm, data, false)
  | mmio :: devs =>
      if (mmio.(dev_addr) <=? paddr) && (paddr <? u64 (mmio.(dev_addr) + mmio.(dev_size)))
      then let '(vm, data) := mmio_access mmio vm vaddr paddr data size access in (vm, data, true)
      else mmio_scan_devs devs vm vaddr paddr data size access
  end.

Definition riscv_mmio_scan `{Env} (vm : hart) (vaddr paddr : Z) (data : list Z) (size access : Z)
    : hart * list Z * bool :=
  mmio_scan_devs mmio_devs vm vaddr paddr data size access.

(** ** Faults *)

Definition riscv_block_in_page (addr size : Z) : bool :=
  (addr .& RISCV_PAGE_MASK) + size <=? RISCV_PAGE_SIZE.

Definition riscv_mmu_misalign (vm : hart) (vaddr attr : Z) : hart :=
  if negb (nz (attr .& RISCV_MMU_ATTR_NO_TRAP)) then
    let access := attr .& 0xFF in
    let cause := RISCV_TRAP_INSN_MISALIGN in
    let cause := if access =? RISCV_MMU_READ then RISCV_TRAP_LOAD_MISALIGN else cause in
    let cause := if access =? RISCV_MMU_WRITE then RISCV_TRAP_STORE_MISALIGN else cause in
    riscv_trap vm cause vaddr
  else vm.

Definition riscv_mmu_phys_fault (vm : hart) (vaddr attr : Z) : hart :=
  if negb (nz (attr .& RISCV_MMU_ATTR_NO_TRAP)) then
    let access := attr .& 0xFF in
    let cause := RISCV_TRAP_INSN_FETCH in
    let cause := if access =? RISCV_MMU_READ then RISCV_TRAP_LOAD_FAULT else cause in
    let cause := if access =? RISCV_MMU_WRITE then RISCV_TRAP_STORE_FAULT else cause in
    riscv_trap vm cause vaddr
  else vm.

Definition riscv_mmu_pagefault (vm : hart) (vaddr attr : Z) : hart :=
  if negb (nz (attr .& RISCV_MMU_ATTR_NO_TRAP)) then
    let access := attr .& 0xFF in
    let cause := RISCV_TRAP_INSN_PAGEFAULT in
    let cause := if access =? RISCV_MMU_READ then RISCV_TRAP_LOAD_PAGEFAULT else cause in
    let cause := if access =? RISCV_MMU_WRITE then RISCV_TRAP_STORE_PAGEFAULT else cause in
    riscv_trap vm cause vaddr
  else vm.

(** ** The slow path *)

(** The pointer [riscv_mmu_op_internal] returns: NULL, a host pointer into RAM, or the
    caller's own [data]. *)
Inductive mmu_ptr := PNull | PHost (p : Z) | PData.

Definition mmu_ptr_ok (p : mmu_ptr) : bool := match p with PNull => false | _ => true end.

Definition mmu_attr (size attr access : Z) : Z :=
  (u8 size .<< 16) .| (attr .& 0xFF00) .| access.

(** The part of [riscv_mmu_op_internal] after the page check. *)
Definition mmu_op_in_page `{Env} (vm : hart) (vaddr : Z) (data : buffer) (attr : Z)
    : hart * mmu_ptr * buffer :=
  let access := attr .& 0xFF in
  let size := attr .>> 16 in
  let mmu_access := if nz (attr .& RISCV_MMU_ATTR_NO_PROT) then RISCV_MMU_DEBUG_ACCESS else access in
  let '(vm, tr) := riscv_mmu_translate vm vaddr mmu_access in
  match tr with
  | Some paddr =>
      if nz (attr .& RISCV_MMU_ATTR_PHYS) then
        (vm, PData, option_map (fun d => splice d 0 (le_split 8 paddr)) data)
      else
        match riscv_phys_access vm paddr with
        | Some ptr =>
            let vm := riscv_tlb_put vm vaddr ptr access in
            if negb (nz (attr .& RISCV_MMU_ATTR_PTR)) then
              if access =? RISCV_MMU_WRITE then
                (set_host (match data with
                           | Some d => atomic_memcpy_store vm.(host) ptr (Z.to_nat size) d
                           | None => vm.(host)
                           end) vm, PHost ptr, data)
              else (vm, PHost ptr,
                    option_map (atomic_memcpy_load vm.(host) ptr (Z.to_nat size)) data)
            else (vm, PHost ptr, data)
        | None =>
            let unmapped vm data :=
              if negb (nz (paddr .& not64 SV64_PHYS_MASK)) then
                match data with
                | Some d => (vm, PData, Some (splice d 0 (replicate (Z.to_nat size) 0)))
                | None => (vm, PNull, None)
                end
              else (riscv_mmu_phys_fault vm vaddr attr, PNull, data) in
            match data with
            | Some d =>
                let mmio_access := if nz (attr .& RISCV_MMU_ATTR_PTR) then RISCV_MMU_READ else access in
                let '(vm, d, found) := riscv_mmio_scan vm vaddr paddr d size mmio_access in
                if found then (vm, PData, Some d) else unmapped vm (Some d)
            | None => unmapped vm None
            end
        end
  | None => (riscv_mmu_pagefault vm vaddr attr, PNull, data)
  end.

(** [fuel] bounds the recursion of accesses that span two pages: each half is inside one
    page, so one level is enough. *)
Fixpoint mmu_op_fuel `{Env} (fuel : nat) (vm : hart) (vaddr : Z) (data : buffer) (attr : Z)
    : hart * mmu_ptr * buffer :=
  let access := attr .& 0xFF in
  let size := attr .>> 16 in
  if negb (riscv_block_in_page vaddr size) then
    if nz (attr .& RISCV_MMU_ATTR_PTR) then (riscv_mmu_misalign vm vaddr attr, PNull, data)
    else
      match fuel with
      | O => (vm, PNull, data)
      | S fuel =>
          let part_size := u8 (RISCV_PAGE_SIZE - (vaddr .& RISCV_PAGE_MASK)) in
          let n := Z.to_nat part_size in
          let '(vm, p, d1) := mmu_op_fuel fuel vm vaddr (option_map (take n) data)
                                (mmu_attr part_size attr access) in
          if negb (mmu_ptr_ok p)
          then (vm, PNull, d1' ← d1; d ← data; Some (d1' ++ drop n d))
          else
            let '(vm, p, d2) := mmu_op_fuel fuel vm (u64 (vaddr + part_size))
                                  (option_map (drop n) data)
                                  (mmu_attr (size - part_size) attr access) in
            (vm, p, d1' ← d1; d2' ← d2; Some (d1' ++ d2'))
      end
  else mmu_op_in_page vm vaddr data attr.

Definition riscv_mmu_op_internal `{Env} (vm : hart) (vaddr : Z) (data : buffer) (attr : Z)
    : hart * mmu_ptr * buffer :=
  mmu_op_fuel 1 vm vaddr data attr.

Definition riscv_mmu_op_helper `{Env} (vm : hart) (vaddr : Z) (data : buffer) (attr size access : Z)
    : hart * mmu_ptr * buffer :=
  riscv_mmu_op_internal vm vaddr data (mmu_attr size attr access).

(** ** Slow path helpers (riscv_mmu.h) *)

Definition riscv_mmu_op `{Env} (vm : hart) (vaddr : Z) (data : list Z) (size access : Z)
    : hart * list Z * bool :=
  let '(vm, p, d) := riscv_mmu_op_helper vm vaddr (Some data) 0 size access in
  (vm, default data d, mmu_ptr_ok p).

Definition riscv_mmu_virt_translate `{Env} (vm : hart) (vaddr access : Z) : hart * option Z :=
  let '(vm, p, d) := riscv_mmu_op_helper vm vaddr (Some (replicate 8 0))
    (RISCV_MMU_ATTR_PHYS .| RISCV_MMU_ATTR_NO_TRAP) 0 access in
  (vm, if mmu_ptr_ok p then (fun d => le_combine (take 8 d)) <$> d else None).

Definition riscv_mmu_ptr_translate `{Env} (vm : hart) (vaddr : Z) (data : buffer) (size access : Z)
    : hart * mmu_ptr * buffer :=
  riscv_mmu_op_helper vm vaddr data RISCV_MMU_ATTR_PTR size access.

Definition riscv_rmw_mmio_commit `{Env} (vm : hart) (vaddr : Z) (data : list Z) (size : Z) : hart :=
  let '(vm, _, _) :=
    riscv_mmu_op_helper vm vaddr (Some data) RISCV_MMU_ATTR_NO_TRAP size RISCV_MMU_WRITE in vm.

(** ** Instruction fetch *)

(** Page number of an address, and the host pointer [entry->ptr + vaddr]. *)
Definition vpn_of (vaddr : Z) : Z := vaddr .>> RISCV_PAGE_SHIFT.
Definition tlb_ptr_of (vm : hart) (vpn vaddr : Z) : Z := u64 ((tlb_at vm vpn).(tlb_ptr) + vaddr).

(** The part of [riscv_fetch_insn] that walks the MMU. *)
Definition fetch_insn_slow `{Env} (vm : hart) (vaddr : Z) : hart * option Z :=
  let buff := replicate 4 0 in
  let '(vm, lo, ok) := riscv_mmu_op vm vaddr (take 2 buff) 2 RISCV_MMU_EXEC in
  if negb ok then (vm, None)
  else if (nth 0 lo 0 .& 0x3) =? 0x3 then
    let '(vm, hi, ok) := riscv_mmu_op vm (u64 (vaddr + 2)) (drop 2 buff) 2 RISCV_MMU_EXEC in
    if negb ok then (vm, None) else (vm, Some (le_combine (take 4 (lo ++ hi))))
  else (vm, Some (le_combine (take 4 (lo ++ drop 2 buff)))).

Definition riscv_fetch_insn `{Env} (vm : hart) (vaddr : Z) : hart * option Z :=
  let vpn := vpn_of vaddr in
  if (tlb_at vm vpn).(tlb_e) =? vpn then
    let tmp := read_uint16_le_m vm.(host) (tlb_ptr_of vm vpn vaddr) in
    if (tmp .& 0x3) =? 0x3 then
      let vpn := vpn_of (u64 (vaddr + 2)) in
      if (tlb_at vm vpn).(tlb_e) =? vpn then
        (vm, Some (tmp .| (read_uint16_le_m vm.(host) (u64 (tlb_ptr_of vm vpn vaddr + 2)) .<< 16)))
      else fetch_insn_slow vm vaddr
    else (vm, Some tmp)
  else fetch_insn_slow vm vaddr.

(** ** Address translation through the TLB *)

Definition riscv_virt_translate_e `{Env} (vm : hart) (vaddr : Z) : hart * option Z :=
  let vpn := vpn_of vaddr in
  let entry := tlb_at vm vpn in
  if entry.(tlb_e) =? vpn
  then (vm, Some (u64 (entry.(tlb_ptr) + vaddr - vm.(mem).(ram_data) + vm.(mem).(ram_addr))))
  else riscv_mmu_virt_translate vm vaddr RISCV_MMU_EXEC.

Definition riscv_ro_translate `{Env} (vm : hart) (vaddr : Z) (buff : buffer) (size : Z)
    : hart * mmu_ptr * buffer :=
  let vpn := vpn_of vaddr in
  if (tlb_at vm vpn).(tlb_r) =? vpn then (vm, PHost (tlb_ptr_of vm vpn vaddr), buff)
  else riscv_mmu_ptr_translate vm vaddr buff size RISCV_MMU_READ.

Definition riscv_rmw_translate `{Env} (vm : hart) (vaddr : Z) (buff : buffer) (size : Z)
    : hart * mmu_ptr * buffer :=
  let vpn := vpn_of vaddr in
  if (tlb_at vm vpn).(tlb_w) =? vpn then (vm, PHost (tlb_ptr_of vm vpn vaddr), buff)
  else riscv_mmu_ptr_translate vm vaddr buff size RISCV_MMU_WRITE.

(** ** Integer loads and stores

    An uninitialised local buffer is modelled as zero bytes: a successful read fills it. *)

Definition riscv_load_u64 `{Env} (vm : hart) (vaddr r : Z) : hart :=
  let vpn := vpn_of vaddr in
  if ((tlb_at vm vpn).(tlb_r) =? vpn) && negb (nz (vaddr .& 7)) then
    let v := read_uint64_le vm.(host) (tlb_ptr_of vm vpn vaddr) in
    set_reg r (v) vm
  else
    let '(vm, tmp, ok) := riscv_mmu_op vm vaddr (replicate 8 0) 8 RISCV_MMU_READ in
    if ok then let v := le_combine (take 8 tmp) in set_reg r (v) vm else vm.

Definition riscv_load_u32 `{Env} (vm : hart) (vaddr r : Z) : hart :=
  let vpn := vpn_of vaddr in
  if ((tlb_at vm vpn).(tlb_r) =? vpn) && negb (nz (vaddr .& 3)) then
    let v := read_uint32_le vm.(host) (tlb_ptr_of vm vpn vaddr) in
    set_reg r (v) vm
  else
    let '(vm, tmp, ok) := riscv_mmu_op vm vaddr (replicate 4 0) 4 RISCV_MMU_READ in
    if ok then let v := le_combine (take 4 tmp) in set_reg r (v) vm else vm.

Definition riscv_load_s32 `{Env} (vm : hart) (vaddr r : Z) : hart :=
  let vpn := vpn_of vaddr in
  if ((tlb_at vm vpn).(tlb_r) =? vpn) && negb (nz (vaddr .& 3)) then
    let v := read_uint32_le vm.(host) (tlb_ptr_of vm vpn vaddr) in
    set_reg r (u64 (s32 v)) vm
  else
    let '(vm, tmp, ok) := riscv_mmu_op vm vaddr (replicate 4 0) 4 RISCV_MMU_READ in
    if ok then let v := le_combine (take 4 tmp) in set_reg r (u64 (s32 v)) vm else vm.

Definition riscv_load_u16 `{Env} (vm : hart) (vaddr r : Z) : hart :=
  let vpn := vpn_of vaddr in
  if ((tlb_at vm vpn).(tlb_r) =? vpn) && negb (nz (vaddr .& 1)) then
    let v := read_uint16_le vm.(host) (tlb_ptr_of vm vpn vaddr) in
    set_reg r (v) vm
  else
    let '(vm, tmp, ok) := riscv_mmu_op vm vaddr (replicate 2 0) 2 RISCV_MMU_READ in
    if ok then let v := le_combine (take 2 tmp) in set_reg r (v) vm else vm.

Definition riscv_load_s16 `{Env} (vm : hart) (vaddr r : Z) : hart :=
  let vpn := vpn_of vaddr in
  if ((tlb_at vm vpn).(tlb_r) =? vpn) && negb (nz (vaddr .& 1)) then
    let v := read_uint16_le vm.(host) (tlb_ptr_of vm vpn vaddr) in
    set_reg r (u64 (s16 v)) vm
  else
    let '(vm, tmp, ok) := riscv_mmu_op vm vaddr (replicate 2 0) 2 RISCV_MMU_READ in
    if ok then let v := le_combine (take 2 tmp) in set_reg r (u64 (s16 v)) vm else vm.

Definition riscv_load_u8 `{Env} (vm : hart) (vaddr r : Z) : hart :=
  let vpn := vpn_of vaddr in
  if (tlb_at vm vpn).(tlb_r) =? vpn then
    let v := read_uint8 vm.(host) (tlb_ptr_of vm vpn vaddr) in
    set_reg r (v) vm
  else
    let '(vm, tmp, ok) := riscv_mmu_op vm vaddr (replicate 1 0) 1 RISCV_MMU_READ in
    if ok then let v := le_combine (take 1 tmp) in set_reg r (v) vm else vm.

Definition riscv_load_s8 `{Env} (vm : hart) (vaddr r : Z) : hart :=
  let vpn := vpn_of vaddr in
  if (tlb_at vm vpn).(tlb_r) =? vpn then
    let v := read_uint8 vm.(host) (tlb_ptr_of vm vpn vaddr) in
    set_reg r (u64 (s8 v)) vm
  else
    let '(vm, tmp, ok) := riscv_mmu_op vm vaddr (replicate 1 0) 1 RISCV_MMU_READ in
    if ok then let v := le_combine (take 1 tmp) in set_reg r (u64 (s8 v)) vm else vm.

Definition riscv_store_u64 `{Env} (vm : hart) (vaddr r : Z) : hart :=
  let vpn := vpn_of vaddr in
  if ((tlb_at vm vpn).(tlb_w) =? vpn) && negb (nz (vaddr .& 7)) then
    set_host (write_uint64_le vm.(host) (tlb_ptr_of vm vpn vaddr) (reg vm r)) vm
  else
    let '(vm, _, _) := riscv_mmu_op vm vaddr (le_split 8 (reg vm r)) 8 RISCV_MMU_WRITE in vm.

Definition riscv_store_u32 `{Env} (vm : hart) (vaddr r : Z) : hart :=
  let vpn := vpn_of vaddr in
  if ((tlb_at vm vpn).(tlb_w) =? vpn) && negb (nz (vaddr .& 3)) then
    set_host (write_uint32_le vm.(host) (tlb_ptr_of vm vpn vaddr) (reg vm r)) vm
  else
    let '(vm, _, _) := riscv_mmu_op vm vaddr (le_split 4 (reg vm r)) 4 RISCV_MMU_WRITE in vm.

Definition riscv_store_u16 `{Env} (vm : hart) (vaddr r : Z) : hart :=
  let vpn := vpn_of vaddr in
  if ((tlb_at vm vpn).(tlb_w) =? vpn) && negb (nz (vaddr .& 1)) then
    set_host (write_uint16_le vm.(host) (tlb_ptr_of vm vpn vaddr) (reg vm r)) vm
  else
    let '(vm, _, _) := riscv_mmu_op vm vaddr (le_split 2 (reg vm r)) 2 RISCV_MMU_WRITE in vm.

Definition riscv_store_u8 `{Env} (vm : hart) (vaddr r : Z) : hart :=
  let vpn := vpn_of vaddr in
  if (tlb_at vm vpn).(tlb_w) =? vpn then
    set_host (write_uint8 vm.(host) (tlb_ptr_of vm vpn vaddr) (reg vm r)) vm
  else
    let '(vm, _, _) := riscv_mmu_op vm vaddr (le_split 1 (reg vm r)) 1 RISCV_MMU_WRITE in vm.

(** ** Floating-point loads and stores

    A floating-point register is its 64-bit pattern; narrower values are NaN-boxed. *)

Definition fpu_nanbox_f32 (f : Z) : Z := f .| 0xFFFFFFFF00000000.
Definition fpu_unpack_f32_from_f64 (d : Z) : Z := u32 d.

Definition set_fpu_reg (r v : Z) (vm : hart) : hart :=
  set_fpu_registers (<[r := v]> vm.(fpu_registers)) vm.

Definition riscv_load_double `{Env} (vm : hart) (vaddr r : Z) : hart :=
  let vpn := vpn_of vaddr in
  if ((tlb_at vm vpn).(tlb_r) =? vpn) && negb (nz (vaddr .& 7)) then
    let v := read_uint64_le vm.(host) (tlb_ptr_of vm vpn vaddr) in
    riscv_fpu_set_dirty (set_fpu_reg r (v) vm)
  else
    let '(vm, tmp, ok) := riscv_mmu_op vm vaddr (replicate 8 0) 8 RISCV_MMU_READ in
    if ok then let v := le_combine (take 8 tmp) in riscv_fpu_set_dirty (set_fpu_reg r (v) vm) else vm.

Definition riscv_load_float `{Env} (vm : hart) (vaddr r : Z) : hart :=
  let vpn := vpn_of vaddr in
  if ((tlb_at vm vpn).(tlb_r) =? vpn) && negb (nz (vaddr .& 3)) then
    let v := read_uint32_le vm.(host) (tlb_ptr_of vm vpn vaddr) in
    riscv_fpu_set_dirty (set_fpu_reg r (fpu_nanbox_f32 v) vm)
  else
    let '(vm, tmp, ok) := riscv_mmu_op vm vaddr (replicate 4 0) 4 RISCV_MMU_READ in
    if ok then let v := le_combine (take 4 tmp) in riscv_fpu_set_dirty (set_fpu_reg r (fpu_nanbox_f32 v) vm) else vm.

Definition riscv_store_double `{Env} (vm : hart) (vaddr r : Z) : hart :=
  let vpn := vpn_of vaddr in
  let v := vm.(fpu_registers) r in
  if ((tlb_at vm vpn).(tlb_w) =? vpn) && negb (nz (vaddr .& 7)) then
    set_host (write_uint64_le vm.(host) (tlb_ptr_of vm vpn vaddr) v) vm
  else
    let '(vm, _, _) := riscv_mmu_op vm vaddr (le_split 8 v) 8 RISCV_MMU_WRITE in vm.

Definition riscv_store_float `{Env} (vm : hart) (vaddr r : Z) : hart :=
  let vpn := vpn_of vaddr in
  let v := fpu_unpack_f32_from_f64 (vm.(fpu_registers) r) in
  if ((tlb_at vm vpn).(tlb_w) =? vpn) && negb (nz (vaddr .& 3)) then
    set_host (write_uint32_le vm.(host) (tlb_ptr_of vm vpn vaddr) v) vm
  else
    let '(vm, _, _) := riscv_mmu_op vm vaddr (le_split 4 v) 4 RISCV_MMU_WRITE in vm.

(** ** What the environment must guarantee

    Handlers, the debugger and the other threads keep the hart well formed, and buffers
    hold bytes. *)

Definition handler_ok (f : mmio_handler) : Prop :=
  forall vm off size data, hart_wf vm -> bytes data ->
    let '(vm', data', _) := f vm off size data in hart_wf vm' /\ bytes data'.

Definition dev_ok (d : mmio_dev) : Prop :=
  (forall f, d.(dev_read) = Some f -> handler_ok f) /\
  (forall f, d.(dev_write) = Some f -> handler_ok f).

Class EnvOk (env : Env) : Prop := {
  env_mimpid : urange 64 rvvm_mimpid;
  env_gdbstub : forall vm, hart_wf vm -> hart_wf (fst (gdbstub_halt vm));
  env_devs : Forall dev_ok mmio_devs;
  env_wait : forall vm delay, hart_wf vm -> hart_wf (condvar_wait_ns vm delay)
}.

#[export] Instance demo_env_ok : EnvOk demo_env.
Proof.
  constructor; cbn; [done|done|constructor|]. intros. by apply restart_dispatch_wf.
Qed.

(** ** Reference address translation (privileged architecture)

    One step of the algorithm for the 64-bit modes, at level [i] with the page table at
    physical address [a]: a missing entry, an invalid entry, a permission mismatch or a
    misaligned superpage faults; a leaf gives the physical address and its updated A and D
    bits; a pointer goes down.  With [strict], an entry with a reserved encoding ends the
    walk ([XReserved], a fault in the architecture); without it, the reserved bits are not
    looked at.  [XHigh] marks an Sv32 entry that points above 4 GiB. *)

Inductive xlate :=
| XFault
| XReserved
| XHigh
| XOk (paddr pte_ptr pte_new : Z).

Definition pte_r (pte : Z) : bool := Z.testbit pte 1.
Definition pte_w (pte : Z) : bool := Z.testbit pte 2.
Definition pte_x (pte : Z) : bool := Z.testbit pte 3.
Definition pte_u (pte : Z) : bool := Z.testbit pte 4.
Definition pte_ppn (pte : Z) : Z := pte / 2 ^ 10 mod 2 ^ 44.

Definition status_sum (vm : hart) : bool := Z.testbit (status vm) 18.
Definition status_mxr (vm : hart) : bool := Z.testbit (status vm) 19.

(** May an access of this kind from this level (U or S) use the leaf entry? *)
Definition leaf_permits (vm : hart) (k : access_kind) (priv pte : Z) : bool :=
  match k with
  | AccR => pte_r pte || (status_mxr vm && pte_x pte)
  | AccW => pte_w pte
  | AccX => pte_x pte
  end &&
  (if priv =? RISCV_PRIV_USER then pte_u pte
   else negb (pte_u pte) || (status_sum vm && negb (bool_decide (k = AccX)))).

(** The leaf with A set, and D set for a write. *)
Definition leaf_update (k : access_kind) (pte : Z) : Z :=
  pte .| 0x40 .| (if bool_decide (k = AccW) then 0x80 else 0).

(** Reserved encodings: W without R, the bits 54 to 63 (no Svnapot, no Svpbmt), and A, D or U
    in a pointer. *)
Definition pte_reserved (pte : Z) : bool :=
  pte_w pte && negb (pte_r pte) || nz (pte / 2 ^ 54)
  || negb (pte_r pte || pte_x pte) && (pte_u pte || Z.testbit pte 6 || Z.testbit pte 7).

Fixpoint sv64_xlate (strict : bool) (levels : nat) (vm : hart) (va : Z) (k : access_kind) (priv a : Z) : xlate :=
  match levels with
  | O => XFault
  | S i =>
      let page_bits := 12 + 9 * Z.of_nat i in
      let vpn := va / 2 ^ page_bits mod 512 in
      match riscv_phys_access vm (a + 8 * vpn) with
      | None => XFault
      | Some ptr =>
          let pte := read_uint64_le vm.(host) ptr in
          if negb (Z.testbit pte 0) then XFault
          else if strict && pte_reserved pte then XReserved
          else if pte_r pte || pte_x pte then
            if negb (leaf_permits vm k priv pte) then XFault
            else if nz (pte_ppn pte mod 2 ^ (9 * Z.of_nat i)) then XFault
            else XOk (pte_ppn pte * 2 ^ 12 + va mod 2 ^ page_bits) ptr (leaf_update k pte)
          else if pte_w pte then XFault
          else sv64_xlate strict i vm va k priv (pte_ppn pte * 2 ^ 12)
      end
  end.

(** The same algorithm for Sv32: two levels of 1024 four-byte entries, 22-bit page numbers. *)
Fixpoint sv32_xlate (levels : nat) (vm : hart) (va : Z) (k : access_kind) (priv a : Z) : xlate :=
  match levels with
  | O => XFault
  | S i =>
      let page_bits := 12 + 10 * Z.of_nat i in
      let vpn := va / 2 ^ page_bits mod 1024 in
      match riscv_phys_access vm (a + 4 * vpn) with
      | None => XFault
      | Some ptr =>
          let pte := read_uint32_le vm.(host) ptr in
          let ppn := pte / 2 ^ 10 in
          if negb (Z.testbit pte 0) then XFault
          else if pte_w pte && negb (pte_r pte) then XReserved
          else if 2 ^ 20 <=? ppn then XHigh
          else if pte_r pte || pte_x pte then
            if negb (leaf_permits vm k priv pte) then XFault
            else if nz (ppn mod 2 ^ (10 * Z.of_nat i)) then XFault
            else XOk (ppn * 2 ^ 12 + va mod 2 ^ page_bits) ptr (leaf_update k pte)
          else sv32_xlate i vm va k priv (ppn * 2 ^ 12)
      end
  end.

(** The access code the walk receives for an access kind, MXR applied. *)
Definition walk_access (vm : hart) (k : access_kind) : Z :=
  if status_mxr vm && bool_decide (k = AccR) then RISCV_MMU_READ .| RISCV_MMU_EXEC else access_code k.

(** What the emulated walk must return for a reference result; only the high Sv32 addresses
    are left open. *)
Definition refines_with (rd : memory -> Z -> Z) (wr : memory -> Z -> Z -> memory) (vm : hart)
    (x : xlate) (r : hart * option Z) : Prop :=
  match x with
  | XFault | XReserved => r = (vm, None)
  | XHigh => True
  | XOk paddr ptr pte_new =>
      snd r = Some paddr /\
      fst r = if rd vm.(host) ptr =? pte_new then vm else set_host (wr vm.(host) ptr pte_new) vm
  end.

Definition refines_xlate := refines_with read_uint64_le write_uint64_le.
Definition refines_xlate32 := refines_with read_uint32_le write_uint32_le.

(** The level an access is made with: MPP under MPRV, except for fetches. *)
Definition effective_priv (vm : hart) (k : access_kind) : Z :=
  if Z.testbit (status vm) 17 && negb (bool_decide (k = AccX))
  then bit_cut (status vm) 11 2 else vm.(priv_mode).

(** An address is canonical for [n]-bit virtual addressing: the bits above are its sign. *)
Definition canonical (n va : Z) : bool :=
  (va / 2 ^ (n - 1) =? 0) || (va / 2 ^ (n - 1) =? 2 ^ (64 - n + 1) - 1).

Definition sv64_levels (mode : Z) : option nat :=
  if mode =? CSR_SATP_MODE_SV39 then Some 3%nat
  else if mode =? CSR_SATP_MODE_SV48 then Some 4%nat
  else if mode =? CSR_SATP_MODE_SV57 then Some 5%nat
  else None.

(** Translation of a virtual address by the hart, from the architecture. *)
Definition mmu_xlate (strict : bool) (vm : hart) (va : Z) (k : access_kind) (levels : nat) : xlate :=
  if canonical (12 + 9 * Z.of_nat levels) va
  then sv64_xlate strict levels vm va k (effective_priv vm k) vm.(root_page_table)
  else XFault.

(** ** Lemmas: entry fields *)

Lemma nz_land_pow x c : 0 <= c < 32 -> nz (x .& (1 .<< c)) = Z.testbit x c.
Proof. apply deleg_bit_m. Qed.

Lemma nz_lor a b : nz (a .| b) = nz a || nz b.
Proof.
  unfold nz. destruct (Z.eqb_spec (a .| b) 0) as [E|E].
  - apply Z.lor_eq_0_iff in E as [-> ->]. done.
  - destruct (Z.eqb_spec a 0), (Z.eqb_spec b 0); subst; done.
Qed.

Lemma nz_land_leaf x : nz (x .& RISCV_PTE_LEAF) = Z.testbit x 1 || Z.testbit x 3.
Proof.
  change RISCV_PTE_LEAF with ((1 .<< 1) .| (1 .<< 3)).
  by rewrite Z.land_lor_distr_r, nz_lor, !nz_land_pow by lia.
Qed.

Lemma walk_access_bits vm k x : nz (x .& walk_access vm k) =
  match k with
  | AccR => pte_r x || (status_mxr vm && pte_x x)
  | AccW => pte_w x
  | AccX => pte_x x
  end.
Proof.
  unfold walk_access, pte_r, pte_w, pte_x.
  destruct k, (status_mxr vm); cbn -[nz Z.land Z.lor Z.testbit]; rewrite ?orb_false_r.
  - apply nz_land_leaf.
  - apply (nz_land_pow x 1). lia.
  - apply (nz_land_pow x 2). lia.
  - apply (nz_land_pow x 2). lia.
  - apply (nz_land_pow x 3). lia.
  - apply (nz_land_pow x 3). lia.
Qed.

(** The user-bit check of the walk against the reference permission. *)
Lemma walk_user_check vm k priv pte : priv = RISCV_PRIV_USER \/ priv = RISCV_PRIV_SUPERVISOR ->
  negb (eqb (nz (pte .& RISCV_PTE_USER)) (nz priv) &&
        negb (riscv_mmu_check_priv vm priv (walk_access vm k))) =
  if priv =? RISCV_PRIV_USER then pte_u pte
  else negb (pte_u pte) || (status_sum vm && negb (bool_decide (k = AccX))).
Proof.
  intros Hp. change RISCV_PTE_USER with (1 .<< 4). rewrite nz_land_pow by lia.
  unfold riscv_mmu_check_priv. change CSR_STATUS_SUM with (1 .<< 18). rewrite nz_land_pow by lia.
  fold (status_sum vm). unfold pte_u. destruct Hp as [->| ->]; eval_cmp.
  - assert ((walk_access vm k =? RISCV_MMU_DEBUG_ACCESS) = false) as ->
      by (unfold walk_access; destruct k, (status_mxr vm); done).
    change (nz RISCV_PRIV_USER) with false. cbn [negb orb].
    destruct (Z.testbit pte 4), (_ =? RISCV_MMU_EXEC); done.
  - change (nz RISCV_PRIV_SUPERVISOR) with true. cbn [negb orb].
    unfold walk_access. destruct (Z.testbit pte 4); [|done].
    destruct k, (status_mxr vm), (status_sum vm); done.
Qed.

Lemma pte_update_eq vm k pte :
  pte .| RISCV_PTE_ACCESSED .| ((walk_access vm k .& RISCV_MMU_WRITE) .<< 5) = leaf_update k pte.
Proof. unfold leaf_update, walk_access. by destruct k, (status_mxr vm). Qed.

(** ** Lemmas: address arithmetic of the walk *)

Lemma pte_ppn_eq pte : pte_ppn pte = wrap 44 (pte .>> 10).
Proof. unfold pte_ppn, wrap. by rewrite Z.shiftr_div_pow2 by lia. Qed.

Lemma testbit_pte_ppn pte j : 0 <= j -> Z.testbit (pte_ppn pte) j = (j <? 44) && Z.testbit pte (j + 10).
Proof. intros. rewrite pte_ppn_eq. by autorewrite with zbits. Qed.

Lemma pte_ppn_range pte : urange 44 (pte_ppn pte).
Proof. rewrite pte_ppn_eq. apply wrap_range. lia. Qed.

Lemma testbit_bit_mask b j : 0 <= b <= 64 -> 0 <= j -> Z.testbit (bit_mask b) j = (j <? b).
Proof. intros. rewrite bit_mask_ones by lia. apply testbit_ones; lia. Qed.

Lemma testbit_pnmask j : 0 <= j -> Z.testbit RISCV_PAGE_PNMASK j = (12 <=? j) && (j <? 64).
Proof.
  intros. unfold RISCV_PAGE_PNMASK. rewrite testbit_not64 by done.
  change 0xFFF with (Z.ones 12). rewrite testbit_ones by lia. lia.
Qed.

Lemma nz_shiftl x n : 0 <= n -> nz (x .<< n) = nz x.
Proof.
  intros. unfold nz. rewrite Z.shiftl_mul_pow2 by done. pose proof (pow2_pos n).
  destruct (Z.eqb_spec (x * 2 ^ n) 0), (Z.eqb_spec x 0); subst; try done; nia.
Qed.

(** Misaligned superpages. *)
Lemma rv64_superpage_check pte b : 12 <= b <= 56 ->
  nz ((u64 (pte .<< 2) .& bit_mask b) .& RISCV_PAGE_PNMASK) = nz (pte_ppn pte mod 2 ^ (b - 12)).
Proof.
  intros Hb. fold (wrap (b - 12) (pte_ppn pte)). rewrite <- (nz_shiftl (wrap _ _) 12) by lia.
  f_equal. apply Z.bits_inj'. intros j Hj.
  rewrite !Z.land_spec, testbit_wrap, testbit_bit_mask, testbit_pnmask, !testbit_shiftl by lia.
  destruct (Z.leb_spec 12 j).
  2:{ rewrite (Z.testbit_neg_r _ (j - 12)) by lia. cbn. by rewrite !andb_false_r. }
  rewrite testbit_wrap, testbit_pte_ppn by lia. replace (j - 12 + 10) with (j - 2) by lia.
  destruct (Z.ltb_spec j 64), (Z.ltb_spec j b), (Z.ltb_spec (j - 12) (b - 12)), (Z.ltb_spec (j - 12) 44);
    cbn; try lia; by rewrite ?andb_false_r, ?andb_true_r.
Qed.

(** The physical address of a leaf: page number bits from the entry, offset from [va]. *)
Lemma rv64_leaf_paddr pte va b : 12 <= b <= 56 -> pte_ppn pte mod 2 ^ (b - 12) = 0 ->
  (u64 (pte .<< 2) .& u64 (bit_mask (SV64_PHYS_BITS - b) .<< b)) .| (va .& bit_mask b) =
  pte_ppn pte * 2 ^ 12 + va mod 2 ^ b.
Proof.
  intros Hb Hal. unfold SV64_PHYS_BITS.
  assert (pte_ppn pte * 2 ^ 12 = (pte_ppn pte .>> (b - 12)) .<< b) as ->.
  { rewrite Z.shiftl_mul_pow2, Z.shiftr_div_pow2 by lia.
    replace b with ((b - 12) + 12) at 2 by lia. rewrite Z.pow_add_r, Z.mul_assoc by lia. f_equal.
    pose proof (Z_div_mod_eq_full (pte_ppn pte) (2 ^ (b - 12))). lia. }
  rewrite Z.add_comm, (Z.shiftl_mul_pow2 (pte_ppn pte .>> _)) by lia.
  rewrite <- (lor_shiftl_add b (va mod 2 ^ b)) by (lia || apply Z.mod_pos_bound, pow2_pos; lia).
  rewrite Z.lor_comm. f_equal.
  - rewrite bit_mask_ones by lia. by rewrite Z.land_ones by lia.
  - apply Z.bits_inj'. intros j Hj. rewrite Z.land_spec, !testbit_wrap, !testbit_shiftl by lia.
    destruct (Z.leb_spec b j).
    2:{ rewrite !(Z.testbit_neg_r _ (j - b)) by lia. by rewrite !andb_false_r. }
    rewrite testbit_bit_mask, testbit_shiftr, testbit_pte_ppn by lia.
    replace (j - b + (b - 12) + 10) with (j - 2) by lia.
    destruct (Z.ltb_spec j 64), (Z.ltb_spec (j - b) (56 - b)), (Z.ltb_spec (j - b + (b - 12)) 44);
      cbn; try lia; by rewrite ?andb_false_r, ?andb_true_r.
Qed.

Lemma rv64_next_table pte :
  u64 ((pte .>> 10) .<< RISCV_PAGE_SHIFT) .& SV64_PHYS_MASK = pte_ppn pte * 2 ^ 12.
Proof.
  change SV64_PHYS_MASK with (Z.ones 56). unfold RISCV_PAGE_SHIFT.
  rewrite <- (Z.shiftl_mul_pow2 _ 12) by lia. apply Z.bits_inj'. intros j Hj.
  rewrite Z.land_spec, testbit_ones, testbit_wrap, !testbit_shiftl by lia.
  destruct (Z.leb_spec 12 j).
  2:{ rewrite !(Z.testbit_neg_r _ (j - 12)) by lia. by rewrite !andb_false_r. }
  rewrite testbit_shiftr, testbit_pte_ppn by lia.
  destruct (Z.ltb_spec j 64), (Z.ltb_spec j 56), (Z.ltb_spec (j - 12) 44);
    cbn; try lia; by rewrite ?andb_false_r, ?andb_true_r.
Qed.

Lemma rv64_vpn va b : 0 <= b -> ((va .>> b) .& SV64_VPN_MASK) .<< 3 = 8 * (va / 2 ^ b mod 512).
Proof.
  intros. change SV64_VPN_MASK with (Z.ones 9).
  rewrite Z.land_ones, Z.shiftl_mul_pow2, Z.shiftr_div_pow2 by lia.
  change (2 ^ 9) with 512. change (2 ^ 3) with 8. lia.
Qed.

(** ** The walk refines the reference translation *)

(** An entry that sends the loop back to the same table is fatal: the remaining iterations
    read the same entry again. *)
Lemma rv64_walk_stuck levels vm va priv acc a b p :
  riscv_phys_access vm (u64 (a + (((va .>> b) .& SV64_VPN_MASK) .<< 3))) = Some p ->
  rv64_pte_loop 1 vm p va priv acc a b = WalkBreak a b ->
  rv64_walk levels vm va priv acc a b = (vm, None).
Proof.
  intros Hp Hb. induction levels as [|n IH]; [done|]. cbn [rv64_walk]. cbn zeta. by rewrite Hp, Hb.
Qed.

Lemma rv64_walk_refines levels vm va k priv a :
  (levels <= 5)%nat -> urange 56 a ->
  priv = RISCV_PRIV_USER \/ priv = RISCV_PRIV_SUPERVISOR ->
  refines_xlate vm (sv64_xlate false levels vm va k priv a)
    (rv64_walk levels vm va priv (walk_access vm k) a (12 + 9 * (Z.of_nat levels - 1))).
Proof.
  intros Hl Ha Hp. revert a Ha. induction levels as [|i IH]; intros a Ha; [done|].
  cbn [sv64_xlate]. cbn zeta. set (b := 12 + 9 * (Z.of_nat (S i) - 1)).
  replace (12 + 9 * Z.of_nat i) with b by (unfold b; lia).
  assert (12 <= b <= 56) as Hb by (unfold b; lia).
  cbn [rv64_walk]. cbn zeta.
  assert (u64 (a + (((va .>> b) .& SV64_VPN_MASK) .<< 3)) = a + 8 * (va / 2 ^ b mod 512)) as Eaddr.
  { rewrite rv64_vpn by lia. apply wrap_small. unfold urange in *.
    pose proof (Z.mod_pos_bound (va / 2 ^ b) 512). lia. }
  rewrite Eaddr. destruct (riscv_phys_access vm _) as [ptr|] eqn:Eptr; [|done].
  assert (forall r, rv64_pte_loop 1 vm ptr va priv (walk_access vm k) a b = r ->
    r = WalkBreak a b -> rv64_walk i vm va priv (walk_access vm k) a b = (vm, None)) as Hstuck.
  { intros r Hr Er. subst r. apply (rv64_walk_stuck _ _ _ _ _ _ _ ptr); [by rewrite Eaddr|done]. }
  cbn [rv64_pte_loop] in *. cbn zeta in *.
  set (pte := read_uint64_le (host vm) ptr) in *.
  rewrite (nz_land_pow pte 0 ltac:(lia) : nz (pte .& RISCV_PTE_VALID) = _) in *.
  rewrite nz_land_leaf in *.
  rewrite (nz_land_pow pte 2 ltac:(lia) : nz (pte .& RISCV_MMU_WRITE) = _) in *.
  destruct (Z.testbit pte 0); cbn [negb] in *; [|by apply (Hstuck _ eq_refl)].
  cbn [andb]. unfold pte_r, pte_x.
  destruct (Z.testbit pte 1 || Z.testbit pte 3) eqn:Eleaf.
  - unfold leaf_permits. rewrite <- (walk_user_check vm k priv pte Hp).
    rewrite <- walk_access_bits.
    destruct (eqb _ _ && _) eqn:Eu; cbn [negb]; rewrite ?andb_false_r, ?andb_true_r; [done|].
    destruct (nz (pte .& walk_access vm k)) eqn:Eacc; cbn [negb]; [|by apply (Hstuck _ eq_refl)].
    rewrite rv64_superpage_check, pte_update_eq by done.
    replace (b - 12) with (9 * Z.of_nat i) by (unfold b; lia).
    destruct (nz (pte_ppn pte mod _)) eqn:Em; [done|]. apply nz_false in Em.
    assert (pte_ppn pte mod 2 ^ (b - 12) = 0) as Em'
      by (rewrite <- Em; f_equal; f_equal; unfold b; lia).
    rewrite rv64_leaf_paddr by done. unfold refines_xlate, refines_with. fold pte.
    destruct (Z.eqb_spec pte (leaf_update k pte)) as [E|E]; cbn [negb]; [done|].
    unfold atomic_cas_uint64_le. fold pte. rewrite Z.eqb_refl. done.
  - unfold pte_w. destruct (Z.testbit pte 2); cbn [negb] in *; [by apply (Hstuck _ eq_refl)|].
    rewrite rv64_next_table.
    replace (b - SV64_VPN_BITS) with (12 + 9 * (Z.of_nat i - 1)) by (unfold b, SV64_VPN_BITS; lia).
    apply IH; [lia|]. pose proof (pte_ppn_range pte). unfold urange in *. lia.
Qed.

(** Away from the reserved encodings the strict algorithm gives the same result. *)
Lemma sv64_xlate_strict levels vm va k priv a :
  sv64_xlate true levels vm va k priv a <> XReserved ->
  sv64_xlate true levels vm va k priv a = sv64_xlate false levels vm va k priv a.
Proof.
  revert a. induction levels as [|i IH]; intros a; [done|]. cbn [sv64_xlate andb]. cbn zeta.
  destruct (riscv_phys_access _ _); [|done]. destruct (negb (Z.testbit _ 0)); [done|].
  destruct (pte_reserved _); [done|]. destruct (pte_r _ || _); [done|]. destruct (pte_w _); [done|]. apply IH.
Qed.

(** ** Sv32 *)

Lemma sv32_superpage_check pte b : 12 <= b <= 32 -> urange 32 pte -> pte / 2 ^ 10 < 2 ^ 20 ->
  nz (u32 (pte .<< 2) .& bit_mask b .& RISCV_PAGE_PNMASK) = nz (pte / 2 ^ 10 mod 2 ^ (b - 12)).
Proof.
  intros Hb Hr Hp. unfold urange in Hr.
  replace (u32 (pte .<< 2)) with (u64 (pte .<< 2)).
  2:{ rewrite Z.shiftl_mul_pow2 by lia. unfold wrap. rewrite !Z.mod_small; dlia. }
  rewrite rv64_superpage_check by lia. unfold pte_ppn. by rewrite (Z.mod_small _ (2 ^ 44)) by dlia.
Qed.

Lemma sv32_leaf_paddr pte va b : 12 <= b <= 32 -> urange 32 pte -> pte / 2 ^ 10 < 2 ^ 20 ->
  pte / 2 ^ 10 mod 2 ^ (b - 12) = 0 ->
  (u32 (pte .<< 2) .& u64 (bit_mask (SV32_PHYS_BITS - b) .<< b)) .| (va .& bit_mask b) =
  pte / 2 ^ 10 * 2 ^ 12 + va mod 2 ^ b.
Proof.
  intros Hb Hr Hp Hal. pose proof Hr as Hr'. unfold urange in Hr'.
  assert (pte_ppn pte = pte / 2 ^ 10) as E
    by (unfold pte_ppn; rewrite Z.mod_small; dlia).
  rewrite <- E, <- rv64_leaf_paddr by (rewrite ?E; done || lia).
  f_equal. apply Z.bits_inj'. intros j Hj. rewrite !Z.land_spec.
  unfold SV32_PHYS_BITS, SV64_PHYS_BITS. rewrite !testbit_wrap, !testbit_shiftl by lia.
  destruct (Z.leb_spec b j).
  2:{ rewrite !(Z.testbit_neg_r _ (j - b)) by lia. by rewrite !andb_false_r. }
  rewrite !testbit_bit_mask by lia.
  assert (32 <= j -> Z.testbit pte (j - 2) = false) as Hz.
  { intros. apply (testbit_above 30); [|lia]. unfold urange. dlia. }
  destruct (Z.ltb_spec j 32), (Z.ltb_spec j 64), (Z.ltb_spec (j - b) (34 - b)),
    (Z.ltb_spec (j - b) (56 - b)); cbn; try lia; rewrite ?Hz by lia; done.
Qed.

Lemma sv32_next_table pte : urange 32 pte -> pte / 2 ^ 10 < 2 ^ 20 ->
  u32 ((pte .>> 10) .<< RISCV_PAGE_SHIFT) = pte / 2 ^ 10 * 2 ^ 12.
Proof.
  unfold urange, RISCV_PAGE_SHIFT, wrap. intros Hr Hp.
  rewrite Z.shiftl_mul_pow2, Z.shiftr_div_pow2 by lia. apply Z.mod_small. dlia.
Qed.

Lemma sv32_vpn va b : 0 <= b -> ((va .>> b) .& SV32_VPN_MASK) .<< 2 = 4 * (va / 2 ^ b mod 1024).
Proof.
  intros. change SV32_VPN_MASK with (Z.ones 10).
  rewrite Z.land_ones, Z.shiftl_mul_pow2, Z.shiftr_div_pow2 by lia.
  change (2 ^ 10) with 1024. change (2 ^ 2) with 4. lia.
Qed.

Lemma sv32_walk_stuck levels vm va priv acc a b p :
  riscv_phys_access vm (u64 (a + (((va .>> b) .& SV32_VPN_MASK) .<< 2))) = Some p ->
  sv32_pte_loop 1 vm p va priv acc a b = WalkBreak a b ->
  sv32_walk levels vm va priv acc a b = (vm, None).
Proof.
  intros Hp Hb. induction levels as [|n IH]; [done|]. cbn [sv32_walk]. cbn zeta. by rewrite Hp, Hb.
Qed.

Lemma sv32_walk_refines levels vm va k priv a :
  (levels <= 2)%nat -> urange 56 a -> valid_memory vm.(host) ->
  priv = RISCV_PRIV_USER \/ priv = RISCV_PRIV_SUPERVISOR ->
  sv32_xlate levels vm va k priv a <> XReserved ->
  refines_xlate32 vm (sv32_xlate levels vm va k priv a)
    (sv32_walk levels vm va priv (walk_access vm k) a (12 + 10 * (Z.of_nat levels - 1))).
Proof.
  intros Hl Ha Hmem Hp. revert a Ha. induction levels as [|i IH]; intros a Ha; [done|].
  cbn [sv32_xlate]. cbn zeta. set (b := 12 + 10 * (Z.of_nat (S i) - 1)).
  replace (12 + 10 * Z.of_nat i) with b by (unfold b; lia).
  assert (12 <= b <= 32) as Hb by (unfold b; lia).
  cbn [sv32_walk]. cbn zeta.
  assert (u64 (a + (((va .>> b) .& SV32_VPN_MASK) .<< 2)) = a + 4 * (va / 2 ^ b mod 1024)) as Eaddr.
  { rewrite sv32_vpn by lia. apply wrap_small. unfold urange in *.
    pose proof (Z.mod_pos_bound (va / 2 ^ b) 1024). lia. }
  rewrite Eaddr. destruct (riscv_phys_access vm _) as [ptr|] eqn:Eptr; [|done].
  assert (forall r, sv32_pte_loop 1 vm ptr va priv (walk_access vm k) a b = r ->
    r = WalkBreak a b -> sv32_walk i vm va priv (walk_access vm k) a b = (vm, None)) as Hstuck.
  { intros r Hr Er. subst r. apply (sv32_walk_stuck _ _ _ _ _ _ _ ptr); [by rewrite Eaddr|done]. }
  cbn [sv32_pte_loop] in *. cbn zeta in *.
  pose proof (read_uint32_le_range (host vm) ptr Hmem) as Hr.
  set (pte := read_uint32_le (host vm) ptr) in *.
  rewrite (nz_land_pow pte 0 ltac:(lia) : nz (pte .& RISCV_PTE_VALID) = _) in *.
  rewrite nz_land_leaf in *.
  rewrite (nz_land_pow pte 2 ltac:(lia) : nz (pte .& RISCV_MMU_WRITE) = _) in *.
  destruct (Z.testbit pte 0); cbn [negb] in *; [|intros _; by apply (Hstuck _ eq_refl)].
  unfold pte_w, pte_r, pte_x.
  destruct (Z.testbit pte 2 && negb (Z.testbit pte 1)) eqn:Eres; [done|].
  destruct (Z.leb_spec (2 ^ 20) (pte / 2 ^ 10)) as [|Hlow]; [done|].
  destruct (Z.testbit pte 1 || Z.testbit pte 3) eqn:Eleaf.
  - unfold leaf_permits. rewrite <- (walk_user_check vm k priv pte Hp).
    rewrite <- walk_access_bits.
    destruct (eqb _ _ && _) eqn:Eu; cbn [negb]; rewrite ?andb_false_r, ?andb_true_r; [done|].
    destruct (nz (pte .& walk_access vm k)) eqn:Eacc; cbn [negb]; [|intros _; by apply (Hstuck _ eq_refl)].
    rewrite sv32_superpage_check, pte_update_eq by done.
    replace (b - 12) with (10 * Z.of_nat i) by (unfold b; lia).
    destruct (nz (pte / 2 ^ 10 mod _)) eqn:Em; [done|]. apply nz_false in Em.
    assert (pte / 2 ^ 10 mod 2 ^ (b - 12) = 0) as Em'
      by (rewrite <- Em; f_equal; f_equal; unfold b; lia).
    rewrite sv32_leaf_paddr by done. unfold refines_xlate32, refines_with. fold pte.
    destruct (Z.eqb_spec pte (leaf_update k pte)) as [E|E]; cbn [negb]; [done|].
    intros _. unfold atomic_cas_uint32_le. fold pte. rewrite Z.eqb_refl. done.
  - apply orb_false_iff in Eleaf as [E1 E3]. rewrite E1 in Eres. cbn [negb] in Eres.
    rewrite andb_true_r in Eres. rewrite Eres in *. cbn [negb] in *. rewrite sv32_next_table by done.
    replace (b - SV32_VPN_BITS) with (12 + 10 * (Z.of_nat i - 1)) by (unfold b, SV32_VPN_BITS; lia).
    apply IH; [lia|]. unfold urange in *. dlia.
Qed.

(** ** The whole translation *)

Lemma canonical_sign_extend n va : n = 39 \/ n = 48 \/ n = 57 -> urange 64 va ->
  (va =? u64 (sign_extend va n)) = canonical n va.
Proof.
  intros Hn Hv. rewrite sign_extend_eq by lia. unfold canonical, signed, wrap, urange in *.
  apply eq_true_iff_eq. rewrite orb_true_iff, !Z.eqb_eq.
  destruct Hn as [->|[->| ->]]; (split; [intros E|intros [E|E]]); dlia.
Qed.

Lemma effective_priv_eq vm k :
  (if nz (status vm .& CSR_STATUS_MPRV) && negb (access_code k =? RISCV_MMU_EXEC)
   then bit_cut (status vm) 11 2 else vm.(priv_mode)) = effective_priv vm k.
Proof.
  unfold effective_priv. change CSR_STATUS_MPRV with (1 .<< 17). rewrite nz_land_pow by lia.
  by destruct k.
Qed.

Lemma walk_access_eq vm k :
  (if nz (status vm .& CSR_STATUS_MXR) && (access_code k =? RISCV_MMU_READ)
   then access_code k .| RISCV_MMU_EXEC else access_code k) = walk_access vm k.
Proof.
  unfold walk_access, status_mxr. change CSR_STATUS_MXR with (1 .<< 19). rewrite nz_land_pow by lia.
  by destruct k, (Z.testbit (status vm) 19).
Qed.

Lemma effective_priv_valid vm k : hart_wf vm -> valid_priv (effective_priv vm k).
Proof.
  intros H. unfold effective_priv. case_match; [|apply H].
  pose proof (wf_mpp _ (wf_csr _ H)) as Hm. unfold status.
  pose proof (bit_cut_range (csr_status (csr vm)) 11 2 2) as Hr.
  set (m := bit_cut _ _ _) in *. assert (urange 2 m) as Hu by (apply Hr; lia).
  unfold valid_priv, urange in *.
  assert (m = 0 \/ m = 1 \/ m = 2 \/ m = 3) as [->|[->|[->| ->]]] by lia; tauto.
Qed.

(** ** Preservation of the invariant *)

Lemma set_host_wf h vm : valid_memory h -> hart_wf vm -> hart_wf (set_host h vm).
Proof. intros. wf_fields. Qed.

Lemma fatal_wf vm : hart_wf vm -> hart_wf (rvvm_fatal vm).
Proof. intros. wf_fields. Qed.

Lemma write_uint64_le_valid m a v : valid_memory m -> valid_memory (write_uint64_le m a v).
Proof. intros. apply put_bytes_valid; auto with rv. Qed.
Lemma write_uint32_le_valid m a v : valid_memory m -> valid_memory (write_uint32_le m a v).
Proof. intros. apply put_bytes_valid; auto with rv. Qed.
Lemma write_uint16_le_valid m a v : valid_memory m -> valid_memory (write_uint16_le m a v).
Proof. intros. apply put_bytes_valid; auto with rv. Qed.
Lemma write_uint8_valid m a v : valid_memory m -> valid_memory (write_uint8 m a v).
Proof.
  intros H q. unfold write_uint8. rewrite fupd_dec. case_bool; [apply wrap_range; lia|apply H].
Qed.

Lemma bytes_take n l : bytes l -> bytes (take n l).
Proof. intros. by apply Forall_take. Qed.
Lemma bytes_drop n l : bytes l -> bytes (drop n l).
Proof. intros. by apply Forall_drop. Qed.
Lemma bytes_app l k : bytes l -> bytes k -> bytes (l ++ k).
Proof. intros. by apply Forall_app. Qed.
Lemma bytes_zeros n : bytes (replicate n 0).
Proof. induction n; constructor; done. Qed.

#[export] Hint Resolve set_host_wf fatal_wf write_uint64_le_valid write_uint32_le_valid
  write_uint16_le_valid write_uint8_valid bytes_take bytes_drop bytes_app bytes_zeros : rv.

Lemma splice_bytes d off s : bytes d -> bytes s -> bytes (splice d off s).
Proof. intros. unfold splice. auto with rv. Qed.

#[export] Hint Resolve splice_bytes : rv.

Lemma le_combine_bytes n l : bytes l -> urange (8 * Z.of_nat n) (le_combine (take n l)).
Proof.
  intros H. apply (urange_mono (8 * Z.of_nat (length (take n l)))).
  - rewrite length_take. lia.
  - apply le_combine_range. auto with rv.
Qed.

Lemma walk_step_wf64 vm p va priv acc a b v r : hart_wf vm ->
  rv64_pte_loop 1 vm p va priv acc a b = WalkReturn v r -> hart_wf v.
Proof.
  intros H. cbn [rv64_pte_loop]. cbn zeta. unfold atomic_cas_uint64_le. rewrite Z.eqb_refl.
  repeat match goal with |- context [if ?c then _ else _] => destruct c end;
    intros E; simplify_eq; auto with rv. apply set_host_wf; [|done].
  apply write_uint64_le_valid, H.
Qed.

Lemma walk_step_wf32 vm p va priv acc a b v r : hart_wf vm ->
  sv32_pte_loop 1 vm p va priv acc a b = WalkReturn v r -> hart_wf v.
Proof.
  intros H. cbn [sv32_pte_loop]. cbn zeta. unfold atomic_cas_uint32_le. rewrite Z.eqb_refl.
  repeat match goal with |- context [if ?c then _ else _] => destruct c end;
    intros E; simplify_eq; auto with rv. apply set_host_wf; [|done].
  apply write_uint32_le_valid, H.
Qed.

Lemma rv64_walk_wf n vm va priv acc a b : hart_wf vm -> hart_wf (fst (rv64_walk n vm va priv acc a b)).
Proof.
  intros H. revert a b. induction n as [|n IH]; intros a b; [done|]. cbn [rv64_walk]. cbn zeta.
  destruct (riscv_phys_access _ _) as [p|]; [|done].
  destruct (rv64_pte_loop 1 _ _ _ _ _ _ _) eqn:E; [|apply IH]. by apply walk_step_wf64 in E.
Qed.

Lemma sv32_walk_wf n vm va priv acc a b : hart_wf vm -> hart_wf (fst (sv32_walk n vm va priv acc a b)).
Proof.
  intros H. revert a b. induction n as [|n IH]; intros a b; [done|]. cbn [sv32_walk]. cbn zeta.
  destruct (riscv_phys_access _ _) as [p|]; [|done].
  destruct (sv32_pte_loop 1 _ _ _ _ _ _ _) eqn:E; [|apply IH]. by apply walk_step_wf32 in E.
Qed.

Lemma translate_wf vm va acc : hart_wf vm -> hart_wf (fst (riscv_mmu_translate vm va acc)).
Proof.
  intros H. unfold riscv_mmu_translate, riscv_mmu_translate_sv32, riscv_mmu_translate_rv64. cbn zeta.
  repeat match goal with |- context [if ?c then (vm, _) else _] => destruct c; [done|] end.
  repeat match goal with
  | |- hart_wf (fst (if ?c then _ else _)) => destruct c
  | |- hart_wf (fst (rv64_walk _ _ _ _ _ _ _)) => by apply rv64_walk_wf
  | |- hart_wf (fst (sv32_walk _ _ _ _ _ _ _)) => by apply sv32_walk_wf
  end; done.
Qed.

Ltac fault_wf :=
  intros; cbv zeta;
  repeat match goal with |- context [if ?c then _ else _] => destruct c end;
  first [done | apply riscv_trap_wf; done].

Lemma mmu_misalign_wf vm va attr : hart_wf vm -> urange 64 va -> hart_wf (riscv_mmu_misalign vm va attr).
Proof. unfold riscv_mmu_misalign. fault_wf. Qed.
Lemma mmu_phys_fault_wf vm va attr :
  hart_wf vm -> urange 64 va -> hart_wf (riscv_mmu_phys_fault vm va attr).
Proof. unfold riscv_mmu_phys_fault. fault_wf. Qed.
Lemma mmu_pagefault_wf vm va attr :
  hart_wf vm -> urange 64 va -> hart_wf (riscv_mmu_pagefault vm va attr).
Proof. unfold riscv_mmu_pagefault. fault_wf. Qed.

#[export] Hint Resolve mmu_misalign_wf mmu_phys_fault_wf mmu_pagefault_wf : rv.

(** A buffer passed by pointer holds bytes. *)
Definition buffer_ok (data : buffer) : Prop := match data with Some d => bytes d | None => True end.

Lemma unaligned_loop_wf fuel dev vm tmp data oa od ot size align acc :
  dev_ok dev -> hart_wf vm -> bytes tmp -> bytes data ->
  let '(vm', data', _) := mmio_unaligned_loop fuel dev vm tmp data oa od ot size align acc in
  hart_wf vm' /\ bytes data'.
Proof.
  intros [Hr Hw]. revert vm tmp data oa od ot size.
  induction fuel as [|fuel IH]; intros vm tmp data oa od ot size H Ht Hd;
    cbn [mmio_unaligned_loop]; destruct (negb (nz size)); [done..|]. cbn zeta.
  set (n := if size <? align - od then size else align - od).
  set (r1 := if _ || _ || _ then _ else (vm, tmp, true)).
  assert (let '(v, t, _) := r1 in hart_wf v /\ bytes t) as H1.
  { subst r1. destruct (_ || _ || _); [|done]. destruct (dev_read dev) as [f|]; [|done].
    by apply (Hr f). }
  destruct r1 as [[v1 t1] ok1]. destruct H1 as [H1 Ht1]. destruct (negb ok1); [done|].
  destruct (acc =? RISCV_MMU_WRITE).
  - destruct (dev_write dev) as [f|]; [|done].
    set (t2 := splice t1 _ _). assert (bytes t2) as Ht2 by (unfold t2; auto with rv).
    pose proof (Hw f eq_refl v1 oa align t2 H1 Ht2) as H2.
    destruct (f v1 oa align t2) as [[v2 t3] ok2]. destruct H2. destruct (negb ok2); [done|].
    by apply IH.
  - cbn [negb]. apply IH; auto with rv.
Qed.

Lemma unaligned_op_wf dev vm data off size acc : dev_ok dev -> hart_wf vm -> bytes data ->
  let '(vm', data', _) := riscv_mmio_unaligned_op dev vm data off size acc in
  hart_wf vm' /\ bytes data'.
Proof.
  intros. unfold riscv_mmio_unaligned_op. cbn zeta.
  destruct (16 <? _); [split; auto with rv|]. apply unaligned_loop_wf; auto with rv.
Qed.

Lemma mmio_access_wf dev vm va pa data size acc : dev_ok dev -> hart_wf vm -> bytes data ->
  let '(vm', data') := mmio_access dev vm va pa data size acc in hart_wf vm' /\ bytes data'.
Proof.
  intros Hd H Hb. unfold mmio_access. cbn zeta.
  set (f := if acc =? RISCV_MMU_WRITE then dev_write dev else dev_read dev).
  assert (forall g, f = Some g -> handler_ok g) as Hf
    by (subst f; destruct (acc =? RISCV_MMU_WRITE); apply Hd).
  set (r := match f with Some _ => _ | None => _ end).
  assert (let '(v, d) := r in hart_wf v /\ bytes d) as Hr.
  { subst r. destruct f as [g|].
    - destruct (_ && _ && _).
      + pose proof (Hf g eq_refl vm (pa - dev_addr dev) size data H Hb) as Hg.
        by destruct (g _ _ _ _) as [[v d] ?].
      + pose proof (unaligned_op_wf dev vm data (pa - dev_addr dev) size acc Hd H Hb) as Hg.
        by destruct (riscv_mmio_unaligned_op _ _ _ _ _ _) as [[v d] ?].
    - destruct (negb _); [|done]. split; [done|]. unfold rvvm_mmio_none. auto with rv. }
  destruct r as [v d]. destruct Hr as [Hv Hb'].
  destruct (nz (dev_mapping dev)); [|done].
  set (v' := if _ && _ then _ else v).
  assert (hart_wf v') as Hv' by (subst v'; destruct (_ && _); auto with rv).
  pose proof (wf_host _ Hv'). unfold atomic_memcpy_store, atomic_memcpy_load.
  destruct (acc =? RISCV_MMU_WRITE); split; auto 7 with rv.
Qed.

Lemma mmio_scan_wf devs vm va pa data size acc : Forall dev_ok devs -> hart_wf vm -> bytes data ->
  let '(vm', data', _) := mmio_scan_devs devs vm va pa data size acc in hart_wf vm' /\ bytes data'.
Proof.
  intros Hd H Hb. induction Hd as [|d devs Hd Hds IH]; [done|]. cbn [mmio_scan_devs].
  destruct (_ && _); [|apply IH]. pose proof (mmio_access_wf d vm va pa data size acc Hd H Hb) as Ha.
  by destruct (mmio_access _ _ _ _ _ _ _).
Qed.

Section EnvWf.
Context `{env : Env} {Henv : EnvOk env}.

Lemma mmu_op_in_page_wf vm va data attr : hart_wf vm -> urange 64 va -> buffer_ok data ->
  let '(vm', _, data') := mmu_op_in_page vm va data attr in hart_wf vm' /\ buffer_ok data'.
Proof.
  intros Hw Hv Hd. unfold mmu_op_in_page. cbn zeta.
  match goal with |- context [riscv_mmu_translate vm va ?a] =>
    pose proof (translate_wf vm va a Hw) as Ht;
    destruct (riscv_mmu_translate vm va a) as [v tr]; cbn in Ht end.
  destruct tr as [pa|]; [|split; [auto with rv|done]].
  destruct (nz (attr .& RISCV_MMU_ATTR_PHYS)).
  { split; [done|]. destruct data; cbn [option_map buffer_ok] in *; auto with rv. }
  assert (forall v' d, hart_wf v' -> buffer_ok d ->
    let '(vm', _, data') := (if negb (nz (pa .& not64 SV64_PHYS_MASK)) then
       match d with
       | Some d => (v', PData, Some (splice d 0 (replicate (Z.to_nat (attr .>> 16)) 0)))
       | None => (v', PNull, None)
       end else (riscv_mmu_phys_fault v' va attr, PNull, d)) in hart_wf vm' /\ buffer_ok data') as Hu.
  { intros v' d H1 H2. destruct (negb _); [destruct d; cbn [buffer_ok] in *; split; auto with rv|].
    split; [auto with rv|done]. }
  destruct (riscv_phys_access v pa) as [p|].
  - set (v' := riscv_tlb_put v va p _). assert (hart_wf v') as H' by (unfold v'; auto with rv).
    pose proof (wf_host _ H'). unfold atomic_memcpy_store, atomic_memcpy_load.
    destruct (negb (nz (attr .& RISCV_MMU_ATTR_PTR))); [destruct (_ =? _)|]; split; destruct data; cbn [option_map buffer_ok] in *;
      auto 7 with rv.
  - destruct data as [d|]; [|exact (Hu v None Ht I)].
    match goal with |- context [riscv_mmio_scan v va pa d ?s ?a] =>
      pose proof (mmio_scan_wf mmio_devs v va pa d s a env_devs Ht Hd) as Hs;
      unfold riscv_mmio_scan; destruct (mmio_scan_devs mmio_devs v va pa d s a) as [[v' d'] f] end.
    destruct Hs as [Hs Hs2], f; [done|exact (Hu v' (Some d') Hs Hs2)].
Qed.

Lemma mmu_op_fuel_wf fuel vm va data attr : hart_wf vm -> urange 64 va -> buffer_ok data ->
  let '(vm', _, data') := mmu_op_fuel fuel vm va data attr in hart_wf vm' /\ buffer_ok data'.
Proof.
  revert vm va data attr. induction fuel as [|fuel IH]; intros vm va data attr Hw Hv Hd;
    cbn [mmu_op_fuel]; cbn zeta;
    (destruct (negb (riscv_block_in_page _ _)); [|by apply mmu_op_in_page_wf]);
    (destruct (nz _); [split; [auto with rv|done]|]); [done|].
  set (n := Z.to_nat _).
  assert (buffer_ok (option_map (take n) data)) as Hd1 by (destruct data; cbn [option_map buffer_ok] in *; auto with rv).
  assert (buffer_ok (option_map (drop n) data)) as Hd2 by (destruct data; cbn [option_map buffer_ok] in *; auto with rv).
  match goal with |- context [mmu_op_fuel fuel vm va ?d ?a] =>
    pose proof (IH vm va d a Hw Hv Hd1) as H1;
    destruct (mmu_op_fuel fuel vm va d a) as [[v1 p1] d1] end.
  destruct H1 as [H1 Hb1]. destruct (negb _).
  { split; [done|]. destruct d1, data; cbn in *; auto with rv. }
  match goal with |- context [mmu_op_fuel fuel v1 ?a1 ?d ?a] =>
    pose proof (IH v1 a1 d a H1 ltac:(apply wrap_range; lia) Hd2) as H2;
    destruct (mmu_op_fuel fuel v1 a1 d a) as [[v2 p2] d2] end.
  destruct H2 as [H2 Hb2]. split; [done|]. destruct d1, d2; cbn in *; auto with rv.
Qed.

Lemma mmu_op_helper_wf vm va data attr size acc : hart_wf vm -> urange 64 va -> buffer_ok data ->
  let '(vm', _, data') := riscv_mmu_op_helper vm va data attr size acc in
  hart_wf vm' /\ buffer_ok data'.
Proof. apply mmu_op_fuel_wf. Qed.

Lemma mmu_op_wf vm va data size acc : hart_wf vm -> urange 64 va -> bytes data ->
  let '(vm', data', _) := riscv_mmu_op vm va data size acc in hart_wf vm' /\ bytes data'.
Proof.
  intros Hw Hv Hd. unfold riscv_mmu_op.
  pose proof (mmu_op_helper_wf vm va (Some data) 0 size acc Hw Hv Hd) as H.
  destruct (riscv_mmu_op_helper _ _ _ _ _ _) as [[v p] d]. destruct H as [H Hb].
  split; [done|]. by destruct d.
Qed.

End EnvWf.
