(* ===== verification/MmuProps.v ===== *)
(** * Properties of the MMU

    The translation refines the address translation of the privileged architecture; the
    slow path terminates; the TLB agrees with the page tables after every access that fills
    it, so that cached and uncached loads agree and loads see earlier stores. *)

From S2P Require Import Prelude BitOps MemOps State CsrDefs Tlb Hart Csr Mmu.

(** ** Properties of the translation *)

Lemma set_paging_wf root mode priv vm : urange 56 root -> root mod 2 ^ 12 = 0 -> urange 4 mode -> valid_priv priv ->
  hart_wf vm -> hart_wf (set_root_page_table root (set_mmu_mode mode (set_priv_mode priv vm))).
Proof. intros. wf_fields. Qed.

(** A hart in S mode with an Sv39 root table at the start of its RAM whose entry 2 maps
    the gigabyte at 0x80000000 onto itself, accessible but not yet accessed. *)
Definition demo_paged_hart : hart :=
  set_host (write_uint64_le demo_hart.(host) 0x10010 0x2000000F)
    (set_root_page_table 0x80000000 (set_mmu_mode CSR_SATP_MODE_SV39 (set_priv_mode 1 demo_hart))).

Lemma demo_paged_hart_wf : hart_wf demo_paged_hart.
Proof.
  apply set_host_wf; [apply write_uint64_le_valid, wf_host, demo_hart_wf|].
  apply set_paging_wf; [done|done|done|by right; left|apply demo_hart_wf].
Qed.

(** The same gigabyte as a 4 MiB Sv32 superpage at 0x80000000. *)
Definition demo_sv32_hart : hart :=
  set_host (write_uint32_le demo_hart.(host) 0x10800 0x2000000F)
    (set_root_page_table 0x80000000 (set_mmu_mode CSR_SATP_MODE_SV32 (set_priv_mode 1 demo_hart))).

Lemma demo_sv32_hart_wf : hart_wf demo_sv32_hart.
Proof.
  apply set_host_wf; [apply write_uint32_le_valid, wf_host, demo_hart_wf|].
  apply set_paging_wf; [done|done|done|by right; left|apply demo_hart_wf].
Qed.

(** Below M mode the translation is the walk of the current mode. *)
Lemma translate_paged vm va k : hart_wf vm -> effective_priv vm k <> RISCV_PRIV_MACHINE ->
  (effective_priv vm k = RISCV_PRIV_USER \/ effective_priv vm k = RISCV_PRIV_SUPERVISOR) /\
  riscv_mmu_translate vm va (access_code k) =
  let walk := riscv_mmu_translate_rv64 vm va (effective_priv vm k) (walk_access vm k) in
  let mode := vm.(mmu_mode) in
  if mode =? CSR_SATP_MODE_BARE then (vm, Some va)
  else if mode =? CSR_SATP_MODE_SV32
  then riscv_mmu_translate_sv32 vm va (effective_priv vm k) (walk_access vm k)
  else if mode =? CSR_SATP_MODE_SV39 then walk SV39_LEVELS
  else if mode =? CSR_SATP_MODE_SV48 then walk SV48_LEVELS
  else if mode =? CSR_SATP_MODE_SV57 then walk SV57_LEVELS
  else (vm, None).
Proof.
  intros H Hp. pose proof (effective_priv_valid vm k H) as Hv.
  assert (effective_priv vm k = RISCV_PRIV_USER \/ effective_priv vm k = RISCV_PRIV_SUPERVISOR)
    as Hp' by (unfold valid_priv in Hv; tauto).
  split; [done|]. unfold riscv_mmu_translate. rewrite effective_priv_eq, walk_access_eq. cbn zeta.
  destruct Hp' as [-> | ->]; reflexivity.
Qed.

Lemma translate_rv64_refines vm va k n : hart_wf vm -> urange 64 va ->
  effective_priv vm k = RISCV_PRIV_USER \/ effective_priv vm k = RISCV_PRIV_SUPERVISOR ->
  (3 <= n <= 5)%nat ->
  refines_xlate vm (mmu_xlate false vm va k n)
    (riscv_mmu_translate_rv64 vm va (effective_priv vm k) (walk_access vm k) n).
Proof.
  intros H Hv Hp Hn. unfold riscv_mmu_translate_rv64, mmu_xlate. cbn zeta.
  replace (_ + SV64_VPN_BITS) with (12 + 9 * Z.of_nat n)
    by (unfold SV64_VPN_BITS, RISCV_PAGE_SHIFT; lia).
  rewrite canonical_sign_extend by (done || lia).
  destruct (canonical _ va); cbn [negb]; [|done].
  replace (_ - SV64_VPN_BITS) with (12 + 9 * (Z.of_nat n - 1))
    by (unfold SV64_VPN_BITS, RISCV_PAGE_SHIFT; lia).
  apply rv64_walk_refines; [lia|apply H|done].
Qed.

(** C3: in the modes Sv39, Sv48 and Sv57 the emulated page-table walk is the address
    translation algorithm of the privileged architecture without its checks for reserved
    encodings: it faults exactly when the algorithm does and leaves memory alone, it returns
    the physical address the algorithm gives and writes back the leaf with A set (and D set
    for a store) and nothing else.  When the walk meets no reserved encoding (W without R, a
    bit above 53, A, D or U in a pointer), this is the architecture's result. *)
Theorem mmu_translate_refines vm va k n : hart_wf vm -> urange 64 va ->
  effective_priv vm k <> RISCV_PRIV_MACHINE -> sv64_levels vm.(mmu_mode) = Some n ->
  refines_xlate vm (mmu_xlate false vm va k n) (riscv_mmu_translate vm va (access_code k)) /\
  (mmu_xlate true vm va k n <> XReserved ->
   refines_xlate vm (mmu_xlate true vm va k n) (riscv_mmu_translate vm va (access_code k))).
Proof.
  intros H Hv Hp Hn.
  assert (mmu_xlate true vm va k n <> XReserved -> mmu_xlate true vm va k n = mmu_xlate false vm va k n) as Es.
  { unfold mmu_xlate. destruct (canonical _ va); [apply sv64_xlate_strict|done]. }
  cut (refines_xlate vm (mmu_xlate false vm va k n) (riscv_mmu_translate vm va (access_code k))).
  { intros Hr. split; [done|]. intros E. by rewrite Es. }
  destruct (translate_paged vm va k H Hp) as [Hp' ->]. cbn zeta. unfold sv64_levels in Hn.
  repeat case_bool_in Hn; simplify_eq; rewrite ?e; eval_cmp;
    (apply translate_rv64_refines; [done..|unfold SV39_LEVELS, SV48_LEVELS, SV57_LEVELS; lia]).
Qed.

Lemma mmu_translate_refines_witness :
  refines_xlate demo_paged_hart (mmu_xlate true demo_paged_hart 0x80000123 AccW 3)
    (riscv_mmu_translate demo_paged_hart 0x80000123 RISCV_MMU_WRITE) /\
  mmu_xlate true demo_paged_hart 0x80000123 AccW 3 = XOk 0x80000123 0x10010 0x200000CF.
Proof.
  split; [apply (mmu_translate_refines demo_paged_hart 0x80000123 AccW 3 demo_paged_hart_wf)|];
    vm_compute; done.
Defined.

(** the Sv32 walk refines the architecture's algorithm in the same sense, for page
    tables and pages below 4 GiB and a walk that meets no entry with W but not R. *)
Theorem mmu_translate_sv32_refines vm va k : hart_wf vm -> urange 64 va ->
  effective_priv vm k <> RISCV_PRIV_MACHINE -> vm.(mmu_mode) = CSR_SATP_MODE_SV32 ->
  sv32_xlate 2 vm va k (effective_priv vm k) vm.(root_page_table) <> XReserved ->
  refines_xlate32 vm (sv32_xlate 2 vm va k (effective_priv vm k) vm.(root_page_table))
    (riscv_mmu_translate vm va (access_code k)).
Proof.
  intros H Hv Hp Hm Hx. destruct (translate_paged vm va k H Hp) as [Hp' ->]. cbn zeta. rewrite Hm.
  eval_cmp. apply sv32_walk_refines; [lia|apply H|apply H|done|done].
Qed.

Lemma mmu_translate_sv32_refines_witness :
  refines_xlate32 demo_sv32_hart
    (sv32_xlate 2 demo_sv32_hart 0x80000123 AccR RISCV_PRIV_SUPERVISOR 0x80000000)
    (riscv_mmu_translate demo_sv32_hart 0x80000123 RISCV_MMU_READ) /\
  sv32_xlate 2 demo_sv32_hart 0x80000123 AccR RISCV_PRIV_SUPERVISOR 0x80000000 =
    XOk 0x80000123 0x10800 0x2000004F.
Proof.
  split; [apply (mmu_translate_sv32_refines demo_sv32_hart 0x80000123 AccR demo_sv32_hart_wf)|];
    vm_compute; done.
Defined.

(** two deviations of the walks from the architecture, on concrete page tables.  An
    Sv39 leaf with W and X but not R is reserved and must fault; the walk accepts it and
    lets a store through.  An Sv32 leaf that maps a page above 4 GiB loses the top bits of
    its page number: the access goes to the page modulo 4 GiB. *)
Theorem mmu_walk_deviations :
  (let vm := set_host (write_uint64_le demo_paged_hart.(host) 0x10010 0x2000000D) demo_paged_hart in
   mmu_xlate true vm 0x80000123 AccW 3 = XReserved /\
   snd (riscv_mmu_translate vm 0x80000123 RISCV_MMU_WRITE) = Some 0x80000123) /\
  (let vm := set_host (write_uint32_le demo_sv32_hart.(host) 0x10800 0x6000000F) demo_sv32_hart in
   sv32_xlate 2 vm 0x80000123 AccR RISCV_PRIV_SUPERVISOR 0x80000000 = XHigh /\
   snd (riscv_mmu_translate vm 0x80000123 RISCV_MMU_READ) = Some 0x80000123).
Proof. vm_compute. done. Qed.

(** ** Page-spanning accesses *)

Lemma testbit_mmu_attr size attr acc j : urange 8 acc -> 0 <= j ->
  Z.testbit (mmu_attr size attr acc) j =
  (16 <=? j) && (j <? 24) && Z.testbit size (j - 16)
  || (8 <=? j) && (j <? 16) && Z.testbit attr j || (j <? 8) && Z.testbit acc j.
Proof.
  intros Ha Hj. unfold mmu_attr. rewrite !Z.lor_spec, Z.land_spec, Z.shiftl_spec by lia.
  replace (Z.testbit 0xFF00 j) with ((8 <=? j) && (j <? 16)).
  2: { change 0xFF00 with (0xFF .<< 8). rewrite Z.shiftl_spec by lia.
       change 0xFF with (Z.ones 8).
       destruct (Z.leb_spec 8 j); [rewrite testbit_ones by lia|rewrite Z.testbit_neg_r by lia];
         repeat case_bool; try done; lia. }
  rewrite (andb_comm (Z.testbit attr j)). f_equal; [f_equal|].
  - destruct (Z.leb_spec 16 j); [|rewrite Z.testbit_neg_r by lia; done].
    rewrite testbit_wrap by lia. cbn. f_equal. repeat case_bool; done || lia.
  - destruct (Z.ltb_spec j 8); [done|]. apply (testbit_above 8); [done|lia].
Qed.

Lemma mmu_attr_size size attr acc : urange 8 acc -> mmu_attr size attr acc .>> 16 = u8 size.
Proof.
  intros Ha. apply Z.bits_inj'. intros j Hj. rewrite testbit_shiftr, testbit_mmu_attr by (done || lia).
  rewrite testbit_wrap by lia. replace (j + 16 - 16) with j by lia.
  repeat case_bool; cbn; rewrite ?orb_false_r; done || lia.
Qed.

Lemma mmu_attr_access size attr acc : urange 8 acc -> mmu_attr size attr acc .& 0xFF = acc.
Proof.
  intros Ha. apply Z.bits_inj'. intros j Hj. change 0xFF with (Z.ones 8).
  rewrite Z.land_spec, testbit_ones, testbit_mmu_attr by (done || lia).
  destruct (Z.ltb_spec j 8); rewrite ?andb_true_r, ?andb_false_r.
  - repeat case_bool; cbn; done || lia.
  - symmetry. by apply (testbit_above 8).
Qed.

Lemma mmu_attr_flag size attr acc f : urange 8 acc -> 8 <= f < 16 ->
  nz (mmu_attr size attr acc .& (1 .<< f)) = Z.testbit attr f.
Proof.
  intros Ha Hf. rewrite nz_land_pow, testbit_mmu_attr by (done || lia).
  repeat case_bool; cbn; rewrite ?orb_false_r; done || lia.
Qed.

Lemma land_page_mask va : va .& RISCV_PAGE_MASK = va mod 4096.
Proof. apply (Z.land_ones va 12). lia. Qed.

(** Where an access that leaves its page is cut: after at most 254 bytes, at the page end. *)
Lemma page_cut va size : size <= 255 -> riscv_block_in_page va size = false ->
  let part := u8 (RISCV_PAGE_SIZE - (va .& RISCV_PAGE_MASK)) in
  part = 4096 - va mod 4096 /\ 0 < part < size /\
  riscv_block_in_page va part = true /\ riscv_block_in_page (u64 (va + part)) (size - part) = true.
Proof.
  intros Hs. unfold riscv_block_in_page, RISCV_PAGE_SIZE. rewrite !land_page_mask.
  intros Hb%Z.leb_gt. cbn zeta. pose proof (Z.mod_pos_bound va 4096 ltac:(lia)) as Hm.
  rewrite (wrap_small 8) by (unfold urange; lia).
  assert (u64 (va + (0x1000 - va mod 4096)) mod 4096 = 0) as Ez.
  { unfold wrap. dlia. }
  rewrite Ez. split; [done|]. split; [lia|]. split; apply Z.leb_le; lia.
Qed.

(** The access to the end of the first page followed, if it succeeds, by the access to the
    rest on the next page. *)
Definition mmu_op_two_pages `{Env} (vm : hart) (va : Z) (data : buffer) (attr : Z)
    : hart * mmu_ptr * buffer :=
  let part := 4096 - va mod 4096 in
  let n := Z.to_nat part in
  let '(vm1, p1, d1) := mmu_op_in_page vm va (option_map (take n) data)
                          (mmu_attr part attr (attr .& 0xFF)) in
  if mmu_ptr_ok p1 then
    let '(vm2, p2, d2) := mmu_op_in_page vm1 (u64 (va + part)) (option_map (drop n) data)
                            (mmu_attr ((attr .>> 16) - part) attr (attr .& 0xFF)) in
    (vm2, p2, d1' ← d1; d2' ← d2; Some (d1' ++ d2'))
  else (vm1, PNull, d1' ← d1; d ← data; Some (d1' ++ drop n d)).

Lemma attr_access_range attr : urange 8 (attr .& 0xFF).
Proof. change 0xFF with (Z.ones 8). rewrite Z.land_ones by lia. by apply wrap_range. Qed.

Lemma mmu_op_fuel_in_page `{Env} fuel vm va data attr :
  riscv_block_in_page va (attr .>> 16) = true ->
  mmu_op_fuel fuel vm va data attr = mmu_op_in_page vm va data attr.
Proof. intros Hb. destruct fuel; cbn [mmu_op_fuel]; by rewrite Hb. Qed.

Lemma mmu_op_fuel_half `{Env} fuel vm va data attr size : 0 <= size <= 255 ->
  riscv_block_in_page va size = true ->
  mmu_op_fuel fuel vm va data (mmu_attr size attr (attr .& 0xFF)) =
  mmu_op_in_page vm va data (mmu_attr size attr (attr .& 0xFF)).
Proof.
  intros Hs Hb. apply mmu_op_fuel_in_page. rewrite mmu_attr_size by apply attr_access_range.
  by rewrite wrap_small by (unfold urange; lia).
Qed.

Lemma mmu_op_fuel_split `{Env} fuel vm va data attr : attr .>> 16 <= 255 ->
  riscv_block_in_page va (attr .>> 16) = false -> nz (attr .& RISCV_MMU_ATTR_PTR) = false ->
  mmu_op_fuel (S fuel) vm va data attr = mmu_op_two_pages vm va data attr.
Proof.
  intros Hs Hb Hf. destruct (page_cut va _ Hs Hb) as (Ep & Hp & H1 & H2). rewrite Ep in *.
  unfold mmu_op_two_pages. cbn [mmu_op_fuel]. rewrite Hb, Hf, Ep. cbn [negb]. cbn zeta.
  set (part := 4096 - va mod 4096) in *.
  rewrite mmu_op_fuel_half by (done || lia). destruct (mmu_op_in_page _ _ _ _) as [[v p] d].
  destruct (mmu_ptr_ok p); cbn [negb]; [|done].
  by rewrite mmu_op_fuel_half by (done || lia).
Qed.

(** the slow path terminates: the recursion on accesses that span two pages never goes
    deeper than one level, so any larger bound gives the same result, and such an access is
    the access to the end of the first page followed by the access to the rest. *)
Theorem mmu_op_terminates `{Env} fuel vm va data attr : urange 24 attr ->
  mmu_op_fuel (S fuel) vm va data attr = riscv_mmu_op_internal vm va data attr /\
  riscv_mmu_op_internal vm va data attr =
    if riscv_block_in_page va (attr .>> 16) then mmu_op_in_page vm va data attr
    else if Z.testbit attr 11 then (riscv_mmu_misalign vm va attr, PNull, data)
    else mmu_op_two_pages vm va data attr.
Proof.
  intros Hattr. unfold riscv_mmu_op_internal.
  assert (attr .>> 16 <= 255) as Hs
    by (unfold urange in Hattr; rewrite Z.shiftr_div_pow2 by lia; dlia).
  rewrite <- (nz_land_pow attr 11 ltac:(lia) : nz (attr .& RISCV_MMU_ATTR_PTR) = _).
  destruct (riscv_block_in_page va _) eqn:Hb; [by rewrite !mmu_op_fuel_in_page|].
  destruct (nz (attr .& RISCV_MMU_ATTR_PTR)) eqn:Hf.
  - cbn [mmu_op_fuel]. by rewrite Hb, Hf.
  - by rewrite !mmu_op_fuel_split.
Qed.

Lemma mmu_op_terminates_witness :
  mmu_op_fuel (H := demo_env) 5 demo_hart 0x80000FFE (Some [0; 0; 0; 0]) (mmu_attr 4 0 RISCV_MMU_READ) =
  riscv_mmu_op_internal (H := demo_env) demo_hart 0x80000FFE (Some [0; 0; 0; 0])
    (mmu_attr 4 0 RISCV_MMU_READ) /\
  riscv_block_in_page 0x80000FFE 4 = false.
Proof.
  assert (urange 24 (mmu_attr 4 0 RISCV_MMU_READ)) as Ha by (vm_compute; done).
  split; [|vm_compute; done].
  exact (proj1 (mmu_op_terminates (H := demo_env) 4 demo_hart 0x80000FFE (Some [0; 0; 0; 0])
    (mmu_attr 4 0 RISCV_MMU_READ) Ha)).
Defined.

(** ** Coherence of the TLB with the page tables *)

Definition same_page (va va' : Z) : Prop := va .>> RISCV_PAGE_SHIFT = va' .>> RISCV_PAGE_SHIFT.

Lemma same_page_div va va' b : 12 <= b -> same_page va va' -> va .>> b = va' .>> b.
Proof.
  unfold same_page, RISCV_PAGE_SHIFT. intros Hb E.
  replace b with (12 + (b - 12)) by lia. rewrite <- !Z.shiftr_shiftr by lia. by rewrite E.
Qed.

(** Setting A and D in an entry changes neither its other bits nor the next update. *)
Definition ad_bits (acc : Z) : Z := RISCV_PTE_ACCESSED .| ((acc .& RISCV_MMU_WRITE) .<< 5).

Lemma ad_bits_cases acc : ad_bits acc = 0x40 \/ ad_bits acc = 0xC0.
Proof.
  unfold ad_bits. assert (acc .& RISCV_MMU_WRITE = 0 \/ acc .& RISCV_MMU_WRITE = 4) as [-> | ->].
  { assert (acc .& RISCV_MMU_WRITE = if Z.testbit acc 2 then 4 else 0) as ->.
    { apply Z.bits_inj'. intros j Hj. rewrite Z.land_spec.
      change RISCV_MMU_WRITE with (2 ^ 2). rewrite testbit_pow2 by lia.
      destruct (Z.eqb_spec j 2) as [->|Hn]; [by destruct (Z.testbit acc 2)|].
      rewrite andb_false_r. destruct (Z.testbit acc 2); [|by rewrite Z.testbit_0_l].
      change 4 with (2 ^ 2). rewrite testbit_pow2 by lia. by case_bool. }
    destruct (Z.testbit acc 2); auto. }
  - by left.
  - by right.
Qed.

Lemma pte_ad_eq pte acc : pte .| RISCV_PTE_ACCESSED .| ((acc .& RISCV_MMU_WRITE) .<< 5) =
  pte .| ad_bits acc.
Proof. unfold ad_bits. by rewrite Z.lor_assoc. Qed.

Lemma testbit_ad acc j : 8 <= j \/ 0 <= j < 6 -> Z.testbit (ad_bits acc) j = false.
Proof.
  intros Hj. destruct (ad_bits_cases acc) as [-> | ->]; (destruct Hj as [Hj|Hj];
    [apply (testbit_above 8); [done|lia]|]);
  assert (j = 0 \/ j = 1 \/ j = 2 \/ j = 3 \/ j = 4 \/ j = 5) as Hc by lia;
  repeat destruct Hc as [->|Hc]; subst; done.
Qed.

Lemma land_ad pte acc m : (forall j, 6 <= j < 8 -> Z.testbit m j = false) ->
  (pte .| ad_bits acc) .& m = pte .& m.
Proof.
  intros Hm. apply Z.bits_inj'. intros j Hj. rewrite !Z.land_spec, Z.lor_spec.
  destruct (Z_lt_dec j 6); [rewrite testbit_ad by lia; by rewrite orb_false_r|].
  destruct (Z_lt_dec j 8); [rewrite Hm by lia; by rewrite !andb_false_r|].
  rewrite testbit_ad by lia; by rewrite orb_false_r.
Qed.

Lemma shift_land_ad pte acc m : (forall j, j < 12 -> Z.testbit m j = false) ->
  u64 ((pte .| ad_bits acc) .<< 2) .& m = u64 (pte .<< 2) .& m.
Proof.
  intros Hm. apply Z.bits_inj'. intros j Hj.
  rewrite !Z.land_spec, !testbit_wrap, !testbit_shiftl, Z.lor_spec by lia.
  destruct (Z_lt_dec j 12); [rewrite Hm by lia; by rewrite !andb_false_r|].
  by rewrite testbit_ad, orb_false_r by lia.
Qed.

Lemma pte_ad_idem pte acc : pte .| ad_bits acc .| ad_bits acc = pte .| ad_bits acc.
Proof. by rewrite <- Z.lor_assoc, Z.lor_diag. Qed.

Lemma pte_ad_range pte acc : urange 64 pte -> urange 64 (pte .| ad_bits acc).
Proof. intros. apply urange_lor; [lia|done|]. by destruct (ad_bits_cases acc) as [-> | ->]. Qed.

Lemma testbit_pmask b j : 12 <= b <= 56 -> 0 <= j ->
  Z.testbit (u64 (bit_mask (SV64_PHYS_BITS - b) .<< b)) j = (b <=? j) && (j <? 56).
Proof.
  intros Hb Hj. unfold SV64_PHYS_BITS. rewrite testbit_wrap, testbit_shiftl by lia.
  destruct (Z.leb_spec b j); [|rewrite (Z.testbit_neg_r _ (j - b)) by lia; by rewrite andb_false_r].
  rewrite testbit_bit_mask by lia. repeat case_bool; done || lia.
Qed.

(** The physical addresses of two addresses of a page have the distance of their offsets. *)
Lemma leaf_same_page s va va' b : 12 <= b <= 56 -> same_page va va' ->
  let pmask := u64 (bit_mask (SV64_PHYS_BITS - b) .<< b) in
  (s .& pmask) .| (va' .& bit_mask b) =
  ((s .& pmask) .| (va .& bit_mask b)) - va mod 4096 + va' mod 4096.
Proof.
  intros Hb Hp. cbn zeta.
  assert (forall v, (s .& u64 (bit_mask (SV64_PHYS_BITS - b) .<< b)) .| (v .& bit_mask b) =
    (s .& u64 (bit_mask (SV64_PHYS_BITS - b) .<< b)) + v mod 2 ^ b) as Hv.
  { intros v. rewrite <- Z.lxor_lor, <- Z.add_nocarry_lxor.
    1: f_equal; rewrite bit_mask_ones by lia; apply Z.land_ones; lia.
    all: apply Z.bits_inj'; intros j Hj; rewrite !Z.land_spec, testbit_pmask, testbit_bit_mask,
      Z.testbit_0_l by lia; repeat case_bool; rewrite ?andb_false_r; done || lia. }
  rewrite !Hv. unfold same_page, RISCV_PAGE_SHIFT in Hp. rewrite !Z.shiftr_div_pow2 in Hp by lia.
  assert (forall v, v mod 2 ^ b = v mod 4096 + 4096 * (v / 2 ^ 12 mod 2 ^ (b - 12))) as Hm.
  { intros v. replace (2 ^ b) with (2 ^ 12 * 2 ^ (b - 12)) by (rewrite <- Z.pow_add_r by lia; f_equal; lia).
    rewrite Z.rem_mul_r by lia. done. }
  rewrite (Hm va), (Hm va'), Hp. lia.
Qed.

(** A leaf that was used once gives the same translation again, without a write. *)
Lemma rv64_leaf_settled vm p va va' priv acc a b vm' pa :
  valid_memory vm.(host) -> urange 6 acc -> 12 <= b <= 56 -> same_page va va' ->
  rv64_pte_loop 1 vm p va priv acc a b = WalkReturn vm' (Some pa) ->
  let pte := read_uint64_le vm.(host) p in
  nz (pte .& RISCV_PTE_LEAF) = true /\
  (vm' = vm \/ vm' = set_host (write_uint64_le vm.(host) p (pte .| ad_bits acc)) vm) /\
  rv64_pte_loop 1 vm' p va' priv acc a b = WalkReturn vm' (Some (pa - va mod 4096 + va' mod 4096)).
Proof.
  intros Hm Ha Hb Hp. pose proof (read_uint64_le_range _ p Hm) as Hr. cbn zeta.
  cbn [rv64_pte_loop]. cbn zeta. set (pte := read_uint64_le (host vm) p) in *.
  destruct (nz (pte .& RISCV_PTE_VALID)) eqn:Ev; [|done].
  destruct (nz (pte .& RISCV_PTE_LEAF)) eqn:El; [|by destruct (negb _)].
  destruct (_ && _) eqn:Eu; [done|]. destruct (nz (pte .& acc)) eqn:Ea; [|done].
  destruct (nz (_ .& RISCV_PAGE_PNMASK)) eqn:Es; [done|]. rewrite !pte_ad_eq.
  unfold atomic_cas_uint64_le. fold pte. rewrite Z.eqb_refl. cbn [negb].
  destruct (Z.eqb_spec pte (pte .| ad_bits acc)) as [E|E]; cbn [negb]; intros [= <- <-].
  - split; [done|]. split; [by left|]. fold pte. rewrite Ev, El, Eu, Ea, Es, <- E, Z.eqb_refl.
    cbn [negb]. by rewrite (leaf_same_page _ va va').
  - split; [done|]. split; [by right|]. cbn [host set_host]. unfold riscv_mmu_check_priv in *. cbn [status csr set_host].
    change (status (set_host (write_uint64_le (host vm) p (pte .| ad_bits acc)) vm)) with (status vm).
    rewrite read_write_64, wrap_small by (by apply pte_ad_range).
    rewrite !land_ad, Ev, El, Eu.
    2-6: intros j Hj; apply (testbit_above 6); done || lia.
    rewrite Ea, pte_ad_idem, Z.eqb_refl.
    rewrite <- Z.land_assoc, shift_land_ad, Z.land_assoc, Es.
    2: { intros j Hj. rewrite Z.land_spec. destruct (Z_lt_dec j 0); [by rewrite !(Z.testbit_neg_r _ j) by lia|].
         rewrite testbit_pnmask by lia. destruct (Z.leb_spec 12 j); [lia|by rewrite andb_false_r]. }
    cbn [negb]. rewrite shift_land_ad, (leaf_same_page _ va va'); [done|done|done|].
    intros j Hj. destruct (Z_lt_dec j 0); [by rewrite !(Z.testbit_neg_r _ j) by lia|].
    rewrite testbit_pmask by lia. destruct (Z.leb_spec b j); [lia|done].
Qed.

Lemma rv64_break vm p va priv acc a b a2 b2 :
  rv64_pte_loop 1 vm p va priv acc a b = WalkBreak a2 b2 ->
  (a2 = a /\ b2 = b) \/
  (nz (read_uint64_le vm.(host) p .& RISCV_PTE_LEAF) = false /\ a2 mod 8 = 0 /\
   b2 = b - SV64_VPN_BITS /\
   forall vm' va', read_uint64_le vm'.(host) p = read_uint64_le vm.(host) p ->
     rv64_pte_loop 1 vm' p va' priv acc a b = WalkBreak a2 b2).
Proof.
  cbn [rv64_pte_loop]. cbn zeta. set (pte := read_uint64_le (host vm) p).
  destruct (nz (pte .& RISCV_PTE_VALID)) eqn:Ev; [|intros [= <- <-]; by left].
  destruct (nz (pte .& RISCV_PTE_LEAF)) eqn:El.
  - destruct (_ && _); [done|]. destruct (nz (pte .& acc)); [|intros [= <- <-]; by left].
    unfold atomic_cas_uint64_le. fold pte. rewrite Z.eqb_refl. cbn [negb].
    by repeat match goal with |- context [if ?c then _ else _] => destruct c end.
  - destruct (negb (nz (pte .& RISCV_MMU_WRITE))) eqn:Ew; [|intros [= <- <-]; by left].
    intros [= <- <-]. right. split; [done|]. split.
    { rewrite rv64_next_table. change (2 ^ 12) with (512 * 8). rewrite Z.mul_assoc. apply Z_mod_mult. }
    split; [done|]. intros vm' va' E. by rewrite E, Ev, El, Ew.
Qed.

Lemma read_write_64_other m p q v : p <> q -> (p - q) mod 8 = 0 ->
  read_uint64_le (write_uint64_le m q v) p = read_uint64_le m p.
Proof.
  intros Hn Hm. unfold read_uint64_le, write_uint64_le. rewrite get_put_disjoint; [done|].
  rewrite length_le_split. dlia.
Qed.

Lemma phys_access_offset vm pa p : riscv_phys_access vm pa = Some p ->
  p = vm.(mem).(ram_data) - vm.(mem).(ram_addr) + pa.
Proof. unfold riscv_phys_access. case_match; [|done]. intros [= <-]. lia. Qed.

(** After a successful walk, all addresses of the page translate by the same leaf, and the
    walk writes nothing more. *)
Lemma rv64_walk_settled n vm va va' priv acc a vm' pa :
  valid_memory vm.(host) -> urange 6 acc -> (n <= 5)%nat -> same_page va va' -> a mod 8 = 0 ->
  rv64_walk n vm va priv acc a (12 + 9 * (Z.of_nat n - 1)) = (vm', Some pa) ->
  (vm' = vm \/ exists q, nz (read_uint64_le vm.(host) q .& RISCV_PTE_LEAF) = true /\
     (q - (vm.(mem).(ram_data) - vm.(mem).(ram_addr))) mod 8 = 0 /\
     vm' = set_host (write_uint64_le vm.(host) q (read_uint64_le vm.(host) q .| ad_bits acc)) vm) /\
  rv64_walk n vm' va' priv acc a (12 + 9 * (Z.of_nat n - 1)) =
    (vm', Some (pa - va mod 4096 + va' mod 4096)).
Proof.
  intros Hm Ha Hn Hp. revert a. induction n as [|n IH]; intros a Hal; [done|].
  set (b := 12 + 9 * (Z.of_nat (S n) - 1)). assert (12 <= b <= 56) as Hb by lia.
  cbn [rv64_walk]. cbn zeta. rewrite <- (same_page_div va va' b) by (done || lia).
  set (pta := u64 (a + _)). assert (pta mod 8 = 0) as Hpta.
  { subst pta. rewrite rv64_vpn by lia. unfold wrap. generalize (va / 2 ^ b mod 512). intros.
    change (2 ^ 64) with 18446744073709551616. dlia. }
  destruct (riscv_phys_access vm pta) as [p|] eqn:Ep; [|done].
  pose proof (phys_access_offset _ _ _ Ep) as Eo.
  destruct (rv64_pte_loop 1 vm p va priv acc a b) as [v r|a2 b2] eqn:El.
  - intros [= -> ->]. destruct (rv64_leaf_settled vm p va va' priv acc a b vm' pa Hm Ha Hb Hp El)
      as (Hl & Hv & Hs).
    assert (riscv_phys_access vm' pta = Some p) as Ep' by (destruct Hv as [-> | ->]; done).
    split; [destruct Hv as [-> | ->]; [by left|right]|by rewrite Ep', Hs].
    exists p. split; [done|]. split; [|done]. rewrite Eo. dlia.
  - intros Hw. destruct (rv64_break _ _ _ _ _ _ _ _ _ El) as [[-> ->]|(Hl & Ha2 & -> & Hb2)].
    { rewrite (rv64_walk_stuck n vm va priv acc a b p) in Hw by done. done. }
    replace (b - SV64_VPN_BITS) with (12 + 9 * (Z.of_nat n - 1)) in * by (unfold b, SV64_VPN_BITS; lia).
    destruct (IH ltac:(lia) a2 Ha2 Hw) as [Hv Hs]. split; [done|].
    assert (riscv_phys_access vm' pta = Some p) as -> by (destruct Hv as [-> |(q & _ & _ & ->)]; done).
    rewrite (Hb2 vm' va'); [by rewrite Hs|].
    destruct Hv as [-> |(q & Hq & Hqm & ->)]; [done|]. apply read_write_64_other.
    + intros ->. congruence.
    + rewrite Eo. dlia.
Qed.

Lemma walk_access_range vm k : urange 6 (walk_access vm k).
Proof. unfold walk_access. by destruct k, (status_mxr vm). Qed.

Lemma sign_extend_same_page va va' n : n = 39 \/ n = 48 \/ n = 57 -> urange 64 va -> urange 64 va' ->
  same_page va va' -> (va =? u64 (sign_extend va n)) = (va' =? u64 (sign_extend va' n)).
Proof.
  intros Hn Hv Hv' Hp. rewrite !canonical_sign_extend by done. unfold canonical.
  pose proof (same_page_div va va' (n - 1) ltac:(lia) Hp) as E.
  rewrite !Z.shiftr_div_pow2 in E by lia. by rewrite E.
Qed.

Lemma translate_rv64_settled vm va va' priv acc n vm' pa : hart_wf vm ->
  urange 64 va -> urange 64 va' -> same_page va va' -> urange 6 acc -> (3 <= n <= 5)%nat ->
  riscv_mmu_translate_rv64 vm va priv acc n = (vm', Some pa) ->
  (exists h, vm' = set_host h vm) /\
  riscv_mmu_translate_rv64 vm' va' priv acc n = (vm', Some (pa - va mod 4096 + va' mod 4096)).
Proof.
  intros H Hv Hv' Hp Ha Hn. unfold riscv_mmu_translate_rv64. cbn zeta.
  rewrite <- (sign_extend_same_page va va') by (done || unfold SV64_VPN_BITS, RISCV_PAGE_SHIFT; lia).
  destruct (negb _) eqn:Ec; [done|].
  replace (_ - SV64_VPN_BITS) with (12 + 9 * (Z.of_nat n - 1))
    by (unfold SV64_VPN_BITS, RISCV_PAGE_SHIFT; lia).
  assert (root_page_table vm mod 8 = 0) as Hr by (pose proof (wf_root_aligned _ H); dlia).
  intros Hw. destruct (rv64_walk_settled n vm va va' priv acc _ vm' pa (wf_host _ H) Ha
    ltac:(lia) Hp Hr Hw) as [Hs Hw'].
  assert (exists h, vm' = set_host h vm) as [h ->].
  { destruct Hs as [-> |(q & _ & _ & ->)]; [exists (host vm); by destruct vm|eauto]. }
  split; [eauto|]. done.
Qed.

(** Settled translations: every address of a page whose translation succeeded translates,
    without any further memory write, at the same distance. *)
Lemma translate_settled vm va va' k vm' pa : hart_wf vm -> vm.(mmu_mode) <> CSR_SATP_MODE_SV32 ->
  urange 64 va -> urange 64 va' -> same_page va va' ->
  riscv_mmu_translate vm va (access_code k) = (vm', Some pa) ->
  (exists h, vm' = set_host h vm) /\
  riscv_mmu_translate vm' va' (access_code k) = (vm', Some (pa - va mod 4096 + va' mod 4096)).
Proof.
  intros H Hm Hv Hv' Hp.
  assert (forall h v, riscv_mmu_translate (set_host h vm) v (access_code k) =
    let walk := riscv_mmu_translate_rv64 (set_host h vm) v (effective_priv vm k) (walk_access vm k) in
    let vm' := set_host h vm in
    if effective_priv vm k <? RISCV_PRIV_MACHINE then
      if vm.(mmu_mode) =? CSR_SATP_MODE_BARE then (vm', Some v)
      else if vm.(mmu_mode) =? CSR_SATP_MODE_SV39 then walk SV39_LEVELS
      else if vm.(mmu_mode) =? CSR_SATP_MODE_SV48 then walk SV48_LEVELS
      else if vm.(mmu_mode) =? CSR_SATP_MODE_SV57 then walk SV57_LEVELS
      else (vm', None)
    else (vm', Some v)) as Ht.
  { intros h v. unfold riscv_mmu_translate. rewrite effective_priv_eq, walk_access_eq. cbn zeta.
    cbn [mmu_mode set_host]. apply Z.eqb_neq in Hm. by rewrite Hm. }
  assert (same_offset : va' = va - va mod 4096 + va' mod 4096).
  { unfold same_page, RISCV_PAGE_SHIFT in Hp. rewrite !Z.shiftr_div_pow2 in Hp by lia. dlia. }
  assert (vm = set_host (host vm) vm) as Evm by (by destruct vm).
  rewrite Evm at 1. rewrite Ht. cbn zeta. rewrite <- Evm.
  assert (forall n, (3 <= n <= 5)%nat ->
    riscv_mmu_translate_rv64 vm va (effective_priv vm k) (walk_access vm k) n = (vm', Some pa) ->
    (exists h, vm' = set_host h vm) /\
    riscv_mmu_translate_rv64 vm' va' (effective_priv vm k) (walk_access vm k) n =
      (vm', Some (pa - va mod 4096 + va' mod 4096))) as Hw.
  { intros n Hn. apply translate_rv64_settled; try done. apply walk_access_range. }
  assert (forall v, (vm, Some va) = (v, Some pa) -> (exists h, v = set_host h vm) /\
    (v, Some va') = (v, Some (pa - va mod 4096 + va' mod 4096))) as Hid.
  { intros v [= <- <-]. split; [eauto|]. by rewrite <- same_offset. }
  assert (forall r, r = (vm', Some pa) -> (exists h, vm' = set_host h vm) /\
      (forall h, vm' = set_host h vm -> riscv_mmu_translate vm' va' (access_code k) =
        (vm', Some (pa - va mod 4096 + va' mod 4096))) ->
    (exists h, vm' = set_host h vm) /\ riscv_mmu_translate vm' va' (access_code k) =
      (vm', Some (pa - va mod 4096 + va' mod 4096))) as Hfin by (intros r _ [[h Eh] Hh]; eauto).
  destruct (effective_priv vm k <? RISCV_PRIV_MACHINE) eqn:E1;
    [destruct (mmu_mode vm =? CSR_SATP_MODE_BARE) eqn:E2;
     [|destruct (mmu_mode vm =? CSR_SATP_MODE_SV39) eqn:E3;
       [|destruct (mmu_mode vm =? CSR_SATP_MODE_SV48) eqn:E4;
         [|destruct (mmu_mode vm =? CSR_SATP_MODE_SV57) eqn:E5; [|done]]]]|];
    intros E; apply (Hfin _ E); apply Hid in E || (apply Hw in E; [|unfold SV39_LEVELS, SV48_LEVELS, SV57_LEVELS; lia]);
    destruct E as [Eh Er]; (split; [done|]); intros h ->; rewrite Ht; cbn zeta; by rewrite ?E1, ?E2, ?E3, ?E4, ?E5.
Qed.

(** RAM as [riscv_init_ram] sets it up: whole pages, inside the host address space. *)
Record ram_ok (m : ram) : Prop := mk_ram_ok {
  ram_addr_aligned : m.(ram_addr) mod 4096 = 0;
  ram_size_aligned : m.(ram_size) mod 4096 = 0;
  ram_data_range : 0 <= m.(ram_data) /\ m.(ram_data) + m.(ram_size) <= 2 ^ 64
}.

(** The cached translations of kind [k] for the page of [va] are those of the page tables. *)
Definition tlb_coherent_at (vm : hart) (k : access_kind) (va : Z) : Prop :=
  forall va', urange 64 va' -> same_page va va' ->
  exists pa ptr, riscv_mmu_translate vm va' (access_code k) = (vm, Some pa) /\
    riscv_phys_access vm pa = Some ptr /\
    tlb_lookup vm k (vpn_of va') = Some (u64 (ptr - va')).

(** The fields a TLB operation changes. *)
Definition set_cached (b : bool) (t : Z -> tlb_entry) (vm : hart) : hart := set_running b (set_tlb t vm).

(** The translation does not look at the TLB. *)
Lemma rv64_walk_cached b t n vm va priv acc a o :
  rv64_walk n (set_cached b t vm) va priv acc a o =
  let '(v, r) := rv64_walk n vm va priv acc a o in (set_cached b t v, r).
Proof.
  revert a o. induction n as [|n IH]; intros a o; [done|]. cbn [rv64_walk]. cbn zeta.
  change (riscv_phys_access (set_cached b t vm)) with (riscv_phys_access vm).
  destruct (riscv_phys_access vm _) as [p|]; [|done].
  assert (rv64_pte_loop 1 (set_cached b t vm) p va priv acc a o =
    match rv64_pte_loop 1 vm p va priv acc a o with
    | WalkReturn v r => WalkReturn (set_cached b t v) r
    | WalkBreak a o => WalkBreak a o
    end) as ->.
  { cbn [rv64_pte_loop]. cbn zeta. cbn [host set_cached set_running set_tlb].
    change (riscv_mmu_check_priv (set_cached b t vm)) with (riscv_mmu_check_priv vm).
    unfold atomic_cas_uint64_le. rewrite Z.eqb_refl. cbn [negb].
    by repeat match goal with |- context [if ?c then _ else _] => destruct c end. }
  destruct (rv64_pte_loop _ _ _ _ _ _ _ _); [done|]. apply IH.
Qed.

Lemma sv32_walk_cached b t n vm va priv acc a o :
  sv32_walk n (set_cached b t vm) va priv acc a o =
  let '(v, r) := sv32_walk n vm va priv acc a o in (set_cached b t v, r).
Proof.
  revert a o. induction n as [|n IH]; intros a o; [done|]. cbn [sv32_walk]. cbn zeta.
  change (riscv_phys_access (set_cached b t vm)) with (riscv_phys_access vm).
  destruct (riscv_phys_access vm _) as [p|]; [|done].
  assert (sv32_pte_loop 1 (set_cached b t vm) p va priv acc a o =
    match sv32_pte_loop 1 vm p va priv acc a o with
    | WalkReturn v r => WalkReturn (set_cached b t v) r
    | WalkBreak a o => WalkBreak a o
    end) as ->.
  { cbn [sv32_pte_loop]. cbn zeta. cbn [host set_cached set_running set_tlb].
    change (riscv_mmu_check_priv (set_cached b t vm)) with (riscv_mmu_check_priv vm).
    unfold atomic_cas_uint32_le. rewrite Z.eqb_refl. cbn [negb].
    by repeat match goal with |- context [if ?c then _ else _] => destruct c end. }
  destruct (sv32_pte_loop _ _ _ _ _ _ _ _); [done|]. apply IH.
Qed.

Lemma translate_cached b t vm va acc :
  riscv_mmu_translate (set_cached b t vm) va acc =
  let '(v, r) := riscv_mmu_translate vm va acc in (set_cached b t v, r).
Proof.
  unfold riscv_mmu_translate, riscv_mmu_translate_rv64, riscv_mmu_translate_sv32. cbn zeta.
  change (status (set_cached b t vm)) with (status vm). cbn [priv_mode mmu_mode root_page_table set_cached set_running set_tlb].
  set (pr := if nz (status vm .& CSR_STATUS_MPRV) && _ then _ else _).
  set (ac := if nz (status vm .& CSR_STATUS_MXR) && _ then _ else _).
  repeat match goal with |- context [if ?c then _ else _] => destruct c end;
    rewrite ?rv64_walk_cached, ?sv32_walk_cached; done.
Qed.

Lemma tlb_put_cached vm va p k :
  let vm' := riscv_tlb_put vm va p (access_code k) in vm' = set_cached vm'.(running) vm'.(tlb) vm.
Proof.
  cbn zeta. unfold riscv_tlb_put. cbn zeta. destruct k; cbn [access_code]; eval_cmp; unfold put_tlb_at;
    by destruct vm.
Qed.

Lemma tlb_flush_cached vm : riscv_tlb_flush vm = set_cached false (riscv_tlb_flush vm).(tlb) vm.
Proof. by destruct vm. Qed.

(** The page of RAM that a translation lands in is cached whole. *)
Lemma phys_access_page vm pa ptr va va' : ram_ok vm.(mem) -> pa mod 4096 = va mod 4096 ->
  riscv_phys_access vm pa = Some ptr ->
  riscv_phys_access vm (pa - va mod 4096 + va' mod 4096) = Some (ptr - va mod 4096 + va' mod 4096) /\
  urange 64 (ptr - va mod 4096 + va' mod 4096).
Proof.
  intros [Ha Hs Hd] Hpa. unfold riscv_phys_access. destruct (_ && _) eqn:E; [|done]. intros [= <-].
  apply andb_true_iff in E as [E1%Z.leb_le E2%Z.ltb_lt].
  pose proof (Z.mod_pos_bound va' 4096 ltac:(lia)). pose proof (Z.mod_pos_bound va 4096 ltac:(lia)).
  assert (ram_addr (mem vm) <= pa - va mod 4096) by dlia.
  assert (pa - va mod 4096 + 4096 <= ram_addr (mem vm) + ram_size (mem vm)) by dlia.
  assert ((ram_addr (mem vm) <=? pa - va mod 4096 + va' mod 4096) &&
    (pa - va mod 4096 + va' mod 4096 - ram_addr (mem vm) <? ram_size (mem vm)) = true) as ->
    by (apply andb_true_iff; split; [apply Z.leb_le|apply Z.ltb_lt]; lia).
  split; [f_equal; lia|]. unfold urange. lia.
Qed.

Lemma leaf_offset s va b : 12 <= b <= 56 ->
  ((s .& u64 (bit_mask (SV64_PHYS_BITS - b) .<< b)) .| (va .& bit_mask b)) mod 4096 = va mod 4096.
Proof.
  intros Hb. change 4096 with (2 ^ 12). rewrite <- !Z.land_ones by lia.
  apply Z.bits_inj'. intros j Hj.
  rewrite !Z.land_spec, Z.lor_spec, !Z.land_spec, testbit_pmask, testbit_bit_mask, testbit_ones by lia.
  repeat case_bool; rewrite ?andb_false_r, ?andb_true_r; done || lia.
Qed.

Lemma rv64_walk_offset n vm va priv acc a vm' pa : (n <= 5)%nat ->
  rv64_walk n vm va priv acc a (12 + 9 * (Z.of_nat n - 1)) = (vm', Some pa) ->
  pa mod 4096 = va mod 4096.
Proof.
  intros Hn. revert a. induction n as [|n IH]; intros a; [done|].
  set (b := 12 + 9 * (Z.of_nat (S n) - 1)). assert (12 <= b <= 56) as Hb by lia.
  cbn [rv64_walk]. cbn zeta. destruct (riscv_phys_access vm _) as [p|] eqn:Ep; [|done].
  destruct (rv64_pte_loop 1 vm p va priv acc a b) as [v r|a2 b2] eqn:El.
  - intros [= -> ->]. revert El. cbn [rv64_pte_loop]. cbn zeta. unfold atomic_cas_uint64_le.
    rewrite Z.eqb_refl. cbn [negb].
    repeat match goal with |- context [if ?c then _ else _] => (destruct c; [|done]) || destruct c end;
      intros [= _ <-]; by apply leaf_offset.
  - intros Hw. destruct (rv64_break _ _ _ _ _ _ _ _ _ El) as [[-> ->]|(_ & _ & -> & _)].
    { by rewrite (rv64_walk_stuck n vm va priv acc a b p) in Hw. }
    apply (IH ltac:(lia) a2). rewrite <- Hw. f_equal. unfold b, SV64_VPN_BITS. lia.
Qed.

Lemma translate_offset vm va acc vm' pa : vm.(mmu_mode) <> CSR_SATP_MODE_SV32 ->
  riscv_mmu_translate vm va acc = (vm', Some pa) -> pa mod 4096 = va mod 4096.
Proof.
  intros Hm%Z.eqb_neq. unfold riscv_mmu_translate. cbn zeta. rewrite Hm.
  assert (forall n priv acc, (n <= 5)%nat ->
    riscv_mmu_translate_rv64 vm va priv acc n = (vm', Some pa) -> pa mod 4096 = va mod 4096) as Hw.
  { intros n priv acc' Hn. unfold riscv_mmu_translate_rv64. cbn zeta. case_match; [done|].
    replace (_ - SV64_VPN_BITS) with (12 + 9 * (Z.of_nat n - 1))
      by (unfold SV64_VPN_BITS, RISCV_PAGE_SHIFT; lia).
    by apply rv64_walk_offset. }
  repeat match goal with
  | |- (if ?c then _ else _) = _ -> _ => destruct c
  | |- (vm, _) = _ -> _ => intros [= _ <-] || intros [=]; done
  end; apply Hw; unfold SV39_LEVELS, SV48_LEVELS, SV57_LEVELS; lia.
Qed.

Lemma translate_mem vm va k vm' pa : hart_wf vm -> vm.(mmu_mode) <> CSR_SATP_MODE_SV32 ->
  urange 64 va -> riscv_mmu_translate vm va (access_code k) = (vm', Some pa) ->
  exists h, vm' = set_host h vm.
Proof. intros H Hm Hv Ht. by destruct (translate_settled vm va va k vm' pa H Hm Hv Hv eq_refl Ht). Qed.

(** Translating and caching makes the TLB coherent for the page. *)
Lemma tlb_put_coherent vm va k vm1 pa ptr : hart_wf vm -> vm.(mmu_mode) <> CSR_SATP_MODE_SV32 ->
  ram_ok vm.(mem) -> urange 64 va ->
  riscv_mmu_translate vm va (access_code k) = (vm1, Some pa) -> riscv_phys_access vm1 pa = Some ptr ->
  tlb_coherent_at (riscv_tlb_put vm1 va ptr (access_code k)) k va.
Proof.
  intros H Hm Hr Hv Ht Hp va' Hv' Hs.
  destruct (translate_settled vm va va' k vm1 pa H Hm Hv Hv' Hs Ht) as [[h ->] Ht'].
  pose proof (translate_offset _ _ _ _ _ Hm Ht) as Ho.
  destruct (phys_access_page (set_host h vm) pa ptr va va' Hr Ho Hp) as [Hp' Hu].
  exists (pa - va mod 4096 + va' mod 4096), (ptr - va mod 4096 + va' mod 4096).
  split; [|split].
  - rewrite tlb_put_cached, translate_cached, Ht'. done.
  - rewrite tlb_put_cached. done.
  - unfold vpn_of. rewrite tlb_put_lookup by auto with rv. cbn zeta. rewrite Hs, Z.eqb_refl.
    assert (put_keeps k k (tlb_sel k (tlb_at (set_host h vm) (va' .>> RISCV_PAGE_SHIFT)) =?
      va' .>> RISCV_PAGE_SHIFT) = true) as -> by (by destruct k).
    do 2 f_equal. unfold same_page, RISCV_PAGE_SHIFT in Hs. rewrite !Z.shiftr_div_pow2 in Hs by lia. dlia.
Qed.

(** ** The slow path on RAM *)

(** The translation of [va] for [k] succeeds and lands in RAM. *)
Definition ram_access (vm : hart) (va : Z) (k : access_kind) (vm1 : hart) (ptr : Z) : Prop :=
  exists pa, riscv_mmu_translate vm va (access_code k) = (vm1, Some pa) /\
    riscv_phys_access vm1 pa = Some ptr.

Lemma access_code_range k : urange 8 (access_code k).
Proof. by destruct k. Qed.

Lemma mmu_op_ram `{Env} vm va data n k vm1 ptr : (n <= 255)%nat ->
  riscv_block_in_page va (Z.of_nat n) = true -> ram_access vm va k vm1 ptr ->
  riscv_mmu_op vm va data (Z.of_nat n) (access_code k) =
  let vm2 := riscv_tlb_put vm1 va ptr (access_code k) in
  if bool_decide (k = AccW) then (set_host (put_bytes vm2.(host) ptr (take n data)) vm2, data, true)
  else (vm2, splice data 0 (get_bytes n vm2.(host) ptr), true).
Proof.
  intros Hn Hb (pa & Ht & Hp). unfold riscv_mmu_op, riscv_mmu_op_helper, riscv_mmu_op_internal.
  pose proof (access_code_range k) as Hk.
  assert (mmu_attr (Z.of_nat n) 0 (access_code k) .>> 16 = Z.of_nat n) as Es
    by (rewrite mmu_attr_size by done; apply wrap_small; unfold urange; lia).
  rewrite mmu_op_fuel_in_page by (by rewrite Es). unfold mmu_op_in_page.
  rewrite Es, mmu_attr_access by done.
  rewrite (mmu_attr_flag _ _ _ 9 Hk ltac:(lia) : nz (_ .& RISCV_MMU_ATTR_NO_PROT) = _).
  rewrite (mmu_attr_flag _ _ _ 10 Hk ltac:(lia) : nz (_ .& RISCV_MMU_ATTR_PHYS) = _).
  rewrite (mmu_attr_flag _ _ _ 11 Hk ltac:(lia) : nz (_ .& RISCV_MMU_ATTR_PTR) = _).
  rewrite !Z.testbit_0_l, Ht, Hp, Nat2Z.id. cbn zeta. cbn [negb].
  unfold atomic_memcpy_store, atomic_memcpy_load.
  destruct k; cbn [access_code bool_decide]; done.
Qed.

Lemma block_aligned va n : n = 1 \/ n = 2 \/ n = 4 \/ n = 8 -> va mod n = 0 ->
  riscv_block_in_page va n = true.
Proof.
  intros Hn Ha. unfold riscv_block_in_page, RISCV_PAGE_SIZE. rewrite land_page_mask.
  apply Z.leb_le. destruct Hn as [->|[->|[->| ->]]]; dlia.
Qed.

Lemma nz_align va m : 0 <= m -> nz (va .& (2 ^ m - 1)) = nz (va mod 2 ^ m).
Proof.
  intros. replace (2 ^ m - 1) with (Z.ones m) by (rewrite Z.ones_equiv; lia). by rewrite Z.land_ones.
Qed.

(** ** Memory accesses of [n] bytes

    What the load and store functions share: the cached access of an aligned operand, or
    the slow path. *)

Definition mem_load `{Env} (n : nat) (vm : hart) (va : Z) : hart * option Z :=
  if bool_decide (is_Some (tlb_lookup vm AccR (vpn_of va))) && (va mod Z.of_nat n =? 0)
  then (vm, Some (le_combine (get_bytes n vm.(host) (tlb_ptr_of vm (vpn_of va) va))))
  else
    let '(vm, tmp, ok) := riscv_mmu_op vm va (replicate n 0) (Z.of_nat n) RISCV_MMU_READ in
    (vm, if ok then Some (le_combine (take n tmp)) else None).

Definition mem_store `{Env} (n : nat) (vm : hart) (va v : Z) : hart :=
  if bool_decide (is_Some (tlb_lookup vm AccW (vpn_of va))) && (va mod Z.of_nat n =? 0)
  then set_host (put_bytes vm.(host) (tlb_ptr_of vm (vpn_of va) va) (le_split n v)) vm
  else (riscv_mmu_op vm va (le_split n v) (Z.of_nat n) RISCV_MMU_WRITE).1.1.

(** A load into register [r] through the extension [ext]. *)
Definition load_to `{Env} (n : nat) (put : Z -> hart -> hart) (vm : hart) (va : Z) : hart :=
  match mem_load n vm va with
  | (vm, Some v) => put v vm
  | (vm, None) => vm
  end.

Lemma tlb_hit vm k vpn : bool_decide (is_Some (tlb_lookup vm k vpn)) = (tlb_sel k (tlb_at vm vpn) =? vpn).
Proof. unfold tlb_lookup. by destruct (_ =? _). Qed.

Lemma aligned_8 va : negb (nz (va .& 7)) = (va mod Z.of_nat 8 =? 0).
Proof. change 7 with (2 ^ 3 - 1). rewrite nz_align by lia. apply negb_involutive. Qed.
Lemma aligned_4 va : negb (nz (va .& 3)) = (va mod Z.of_nat 4 =? 0).
Proof. change 3 with (2 ^ 2 - 1). rewrite nz_align by lia. apply negb_involutive. Qed.
Lemma aligned_2 va : negb (nz (va .& 1)) = (va mod Z.of_nat 2 =? 0).
Proof. change 1 with (2 ^ 1 - 1). rewrite nz_align by lia. apply negb_involutive. Qed.
Lemma aligned_1 va : (va mod Z.of_nat 1 =? 0) = true.
Proof. by rewrite Z.mod_1_r. Qed.

Lemma read_uint8_get m a : read_uint8 m a = le_combine (get_bytes 1 m a).
Proof. unfold read_uint8. cbn. lia. Qed.
Lemma write_uint8_put m a v : write_uint8 m a v = put_bytes m a (le_split 1 v).
Proof. done. Qed.

Ltac access_shape :=
  unfold load_to, mem_load, mem_store; cbn zeta; rewrite ?read_uint8_get, ?write_uint8_put, tlb_hit, ?aligned_8, ?aligned_4, ?aligned_2;
  rewrite ?aligned_1, ?andb_true_r; cbn [tlb_sel];
  match goal with |- context [if ?c then _ else _] => destruct c end; [done|];
  change (Z.of_nat 8) with 8; change (Z.of_nat 4) with 4; change (Z.of_nat 2) with 2;
  change (Z.of_nat 1) with 1;
  match goal with |- context [riscv_mmu_op ?a ?b ?c ?d ?e] =>
    destruct (riscv_mmu_op a b c d e) as [[? ?] []] end; done.

Lemma load_u64_width `{Env} vm va r : riscv_load_u64 vm va r = load_to 8 (set_reg r) vm va.
Proof. unfold riscv_load_u64, read_uint64_le. access_shape. Qed.
Lemma load_u32_width `{Env} vm va r : riscv_load_u32 vm va r = load_to 4 (set_reg r) vm va.
Proof. unfold riscv_load_u32, read_uint32_le. access_shape. Qed.
Lemma load_s32_width `{Env} vm va r : riscv_load_s32 vm va r = load_to 4 (fun v => set_reg r (u64 (s32 v))) vm va.
Proof. unfold riscv_load_s32, read_uint32_le. access_shape. Qed.
Lemma load_u16_width `{Env} vm va r : riscv_load_u16 vm va r = load_to 2 (set_reg r) vm va.
Proof. unfold riscv_load_u16, read_uint16_le. access_shape. Qed.
Lemma load_s16_width `{Env} vm va r : riscv_load_s16 vm va r = load_to 2 (fun v => set_reg r (u64 (s16 v))) vm va.
Proof. unfold riscv_load_s16, read_uint16_le. access_shape. Qed.
Lemma load_u8_width `{Env} vm va r : riscv_load_u8 vm va r = load_to 1 (set_reg r) vm va.
Proof. unfold riscv_load_u8. access_shape. Qed.
Lemma load_s8_width `{Env} vm va r : riscv_load_s8 vm va r = load_to 1 (fun v => set_reg r (u64 (s8 v))) vm va.
Proof. unfold riscv_load_s8. access_shape. Qed.
Lemma load_double_width `{Env} vm va r : riscv_load_double vm va r = load_to 8 (fun v vm => riscv_fpu_set_dirty (set_fpu_reg r v vm)) vm va.
Proof. unfold riscv_load_double, read_uint64_le. access_shape. Qed.
Lemma load_float_width `{Env} vm va r : riscv_load_float vm va r =
  load_to 4 (fun v vm => riscv_fpu_set_dirty (set_fpu_reg r (fpu_nanbox_f32 v) vm)) vm va.
Proof. unfold riscv_load_float, read_uint32_le. access_shape. Qed.
Lemma store_u64_width `{Env} vm va r : riscv_store_u64 vm va r = mem_store 8 vm va (reg vm r).
Proof. unfold riscv_store_u64, write_uint64_le. access_shape. Qed.
Lemma store_u32_width `{Env} vm va r : riscv_store_u32 vm va r = mem_store 4 vm va (reg vm r).
Proof. unfold riscv_store_u32, write_uint32_le. access_shape. Qed.
Lemma store_u16_width `{Env} vm va r : riscv_store_u16 vm va r = mem_store 2 vm va (reg vm r).
Proof. unfold riscv_store_u16, write_uint16_le. access_shape. Qed.
Lemma store_u8_width `{Env} vm va r : riscv_store_u8 vm va r = mem_store 1 vm va (reg vm r).
Proof. unfold riscv_store_u8. access_shape. Qed.
Lemma store_double_width `{Env} vm va r : riscv_store_double vm va r = mem_store 8 vm va (vm.(fpu_registers) r).
Proof. unfold riscv_store_double, write_uint64_le. access_shape. Qed.
Lemma store_float_width `{Env} vm va r : riscv_store_float vm va r = mem_store 4 vm va (fpu_unpack_f32_from_f64 (vm.(fpu_registers) r)).
Proof. unfold riscv_store_float, write_uint32_le. access_shape. Qed.

(** Every load is the access of its width followed by its extension into the
    destination register, and every store the access of its width with the low bytes of
    its source: u64, u32, s32, u16, s16, u8, s8, double and (NaN-boxed) float. *)
Theorem loads_stores_by_width `{Env} vm va r :
  riscv_load_u64 vm va r = load_to 8 (set_reg r) vm va /\
  riscv_load_u32 vm va r = load_to 4 (set_reg r) vm va /\
  riscv_load_s32 vm va r = load_to 4 (fun v => set_reg r (u64 (s32 v))) vm va /\
  riscv_load_u16 vm va r = load_to 2 (set_reg r) vm va /\
  riscv_load_s16 vm va r = load_to 2 (fun v => set_reg r (u64 (s16 v))) vm va /\
  riscv_load_u8 vm va r = load_to 1 (set_reg r) vm va /\
  riscv_load_s8 vm va r = load_to 1 (fun v => set_reg r (u64 (s8 v))) vm va /\
  riscv_load_double vm va r = load_to 8 (fun v vm => riscv_fpu_set_dirty (set_fpu_reg r v vm)) vm va /\
  riscv_load_float vm va r =
    load_to 4 (fun v vm => riscv_fpu_set_dirty (set_fpu_reg r (fpu_nanbox_f32 v) vm)) vm va /\
  riscv_store_u64 vm va r = mem_store 8 vm va (reg vm r) /\
  riscv_store_u32 vm va r = mem_store 4 vm va (reg vm r) /\
  riscv_store_u16 vm va r = mem_store 2 vm va (reg vm r) /\
  riscv_store_u8 vm va r = mem_store 1 vm va (reg vm r) /\
  riscv_store_double vm va r = mem_store 8 vm va (vm.(fpu_registers) r) /\
  riscv_store_float vm va r = mem_store 4 vm va (fpu_unpack_f32_from_f64 (vm.(fpu_registers) r)).
Proof.
  split_and!; [apply load_u64_width|apply load_u32_width|apply load_s32_width|apply load_u16_width
    |apply load_s16_width|apply load_u8_width|apply load_s8_width|apply load_double_width
    |apply load_float_width|apply store_u64_width|apply store_u32_width|apply store_u16_width
    |apply store_u8_width|apply store_double_width|apply store_float_width].
Qed.

(** ** Properties of memory accesses *)

(** The access widths of the instruction set. *)
Definition width_ok (n : nat) : Prop := n = 1%nat \/ n = 2%nat \/ n = 4%nat \/ n = 8%nat.

Lemma width_block va n : width_ok n -> va mod Z.of_nat n = 0 ->
  riscv_block_in_page va (Z.of_nat n) = true /\ (n <= 255)%nat.
Proof.
  intros [->|[->|[->| ->]]] Ha; (split; [apply (block_aligned va); [lia|done]|lia]).
Qed.

Lemma splice_zeros n l : length l = n -> take n (splice (replicate n 0) 0 l) = l.
Proof.
  intros <-. unfold splice. cbn [take app Nat.add].
  rewrite drop_ge by (by rewrite length_replicate). rewrite app_nil_r. by apply firstn_all.
Qed.

Lemma tlb_hit_ptr vm k va ptr : urange 64 ptr ->
  tlb_lookup vm k (vpn_of va) = Some (u64 (ptr - va)) -> tlb_ptr_of vm (vpn_of va) va = ptr.
Proof.
  intros Hp. unfold tlb_lookup, tlb_ptr_of. case_bool; [|done]. intros [= E]. rewrite E.
  unfold wrap. rewrite Zplus_mod_idemp_l. replace (ptr - va + va) with ptr by lia. by apply wrap_small.
Qed.

Lemma phys_access_range vm pa ptr : ram_ok vm.(mem) -> riscv_phys_access vm pa = Some ptr -> urange 64 ptr.
Proof.
  intros [_ _ Hd]. unfold riscv_phys_access. destruct (_ && _) eqn:E; [|done]. intros [= <-].
  apply andb_true_iff in E as [E1%Z.leb_le E2%Z.ltb_lt]. unfold urange. lia.
Qed.

(** a slow-path access to RAM leaves the TLB coherent with the page tables for the
    whole page: every address of the page is cached for that kind of access, at the host
    address the translation gives, and translating it again changes nothing (A and D are
    already set).  Reads and fetches, and pointer requests of any kind. *)
Theorem tlb_fill_coherent `{Env} vm va k n data vm1 ptr : hart_wf vm ->
  vm.(mmu_mode) <> CSR_SATP_MODE_SV32 -> ram_ok vm.(mem) -> urange 64 va ->
  width_ok n -> va mod Z.of_nat n = 0 -> ram_access vm va k vm1 ptr -> k <> AccW ->
  let vm' := (riscv_mmu_op vm va data (Z.of_nat n) (access_code k)).1.1 in
  tlb_coherent_at vm' k va.
Proof.
  intros Hw Hm Hr Hv Hn Ha Hacc Hk. cbn zeta. destruct (width_block va n Hn Ha) as [Hb Hs].
  rewrite (mmu_op_ram _ _ _ _ _ vm1 ptr) by done. cbn zeta. rewrite bool_decide_eq_false_2 by done.
  destruct Hacc as (pa & Ht & Hp). by apply (tlb_put_coherent vm va k vm1 pa ptr).
Qed.

Lemma demo_paged_read : ram_access demo_paged_hart 0x80000008 AccR
  (fst (riscv_mmu_translate demo_paged_hart 0x80000008 RISCV_MMU_READ)) 0x10008.
Proof.
  exists 0x80000008. split; [|vm_compute; reflexivity].
  assert (snd (riscv_mmu_translate demo_paged_hart 0x80000008 RISCV_MMU_READ) = Some 0x80000008)
    as <- by (vm_compute; reflexivity). apply surjective_pairing.
Qed.

Lemma demo_paged_ram : ram_ok demo_paged_hart.(mem).
Proof. constructor; vm_compute; [done|done|split; congruence]. Qed.

Lemma tlb_fill_coherent_witness :
  tlb_coherent_at (riscv_mmu_op (H := demo_env) demo_paged_hart 0x80000008 (replicate 8 0) (Z.of_nat 8)
    (access_code AccR)).1.1 AccR 0x80000008.
Proof.
  refine (tlb_fill_coherent (H := demo_env) demo_paged_hart 0x80000008 AccR 8 (replicate 8 0) _ _
    demo_paged_hart_wf _ demo_paged_ram _ _ _ demo_paged_read _);
    [vm_compute; congruence|done|right; right; right; done|done|congruence].
Defined.

(** the cached fast path agrees with the slow path.  With the TLB coherent for the
    page, a load of any width reads the same value as after a TLB flush, and neither
    changes memory. *)
Theorem load_cached_uncached `{Env} n vm va : width_ok n -> va mod Z.of_nat n = 0 ->
  urange 64 va -> ram_ok vm.(mem) -> tlb_coherent_at vm AccR va ->
  exists v vm', mem_load n vm va = (vm, Some v) /\
    mem_load n (riscv_tlb_flush vm) va = (vm', Some v) /\ vm'.(host) = vm.(host).
Proof.
  intros Hn Ha Hv Hr Hc. destruct (Hc va Hv eq_refl) as (pa & ptr & Ht & Hp & Hl).
  pose proof (phys_access_range _ _ _ Hr Hp) as Hptr. destruct (width_block va n Hn Ha) as [Hb Hs].
  exists (le_combine (get_bytes n vm.(host) ptr)).
  unfold mem_load at 1. rewrite Hl, Ha, bool_decide_eq_true_2 by done. cbn [andb Z.eqb].
  rewrite (tlb_hit_ptr vm AccR va ptr Hptr Hl). eexists. split; [done|].
  unfold mem_load. rewrite tlb_flush_lookup by (by apply vpn_range).
  rewrite bool_decide_eq_false_2 by (by intros []). cbn [andb].
  assert (ram_access (riscv_tlb_flush vm) va AccR (riscv_tlb_flush vm) ptr) as Hacc.
  { exists pa. split; [|by rewrite tlb_flush_cached].
    by rewrite tlb_flush_cached, translate_cached, Ht. }
  rewrite (mmu_op_ram _ va _ n AccR _ ptr) by done. cbn zeta.
  rewrite bool_decide_eq_false_2 by done. rewrite splice_zeros by apply length_get_bytes.
  split; [f_equal; f_equal; f_equal; by rewrite tlb_put_cached|]. by rewrite tlb_put_cached.
Qed.

(** The paged hart after its first read. *)
Definition demo_cached_hart : hart :=
  riscv_tlb_put (fst (riscv_mmu_translate demo_paged_hart 0x80000008 RISCV_MMU_READ)) 0x80000008
    0x10008 RISCV_MMU_READ.

Lemma demo_cached_coherent : tlb_coherent_at demo_cached_hart AccR 0x80000008.
Proof.
  destruct demo_paged_read as (pa & Ht & Hp).
  apply (tlb_put_coherent demo_paged_hart _ AccR _ pa _ demo_paged_hart_wf);
    [vm_compute; congruence|exact demo_paged_ram|vm_compute; split; congruence|exact Ht|exact Hp].
Qed.

Lemma demo_cached_ram : ram_ok demo_cached_hart.(mem).
Proof. constructor; vm_compute; [done|done|split; congruence]. Qed.

Lemma load_cached_uncached_witness :
  exists v vm', mem_load (H := demo_env) 8 demo_cached_hart 0x80000010 = (demo_cached_hart, Some v) /\
    mem_load (H := demo_env) 8 (riscv_tlb_flush demo_cached_hart) 0x80000010 = (vm', Some v) /\
    vm'.(host) = demo_cached_hart.(host).
Proof.
  assert (tlb_coherent_at demo_cached_hart AccR 0x80000010) as Hc.
  { intros va' Hv Hp. apply (demo_cached_coherent va' Hv). exact Hp. }
  refine (load_cached_uncached (H := demo_env) 8 demo_cached_hart 0x80000010 _ _ _ demo_cached_ram Hc);
    [right; right; right; done|done|done].
Defined.

(** Pages cached for writing are cached for reading; the TLB operations keep this. *)
Definition tlb_writes_read (vm : hart) : Prop :=
  forall vpn, urange 52 vpn -> is_Some (tlb_lookup vm AccW vpn) -> is_Some (tlb_lookup vm AccR vpn).

Lemma tlb_writes_read_put vm va ptr acc : urange 64 va -> tlb_writes_read vm ->
  tlb_writes_read (riscv_tlb_put vm va ptr (access_code acc)).
Proof.
  intros Hv H vpn Hp. rewrite !tlb_put_lookup by done. cbn zeta.
  destruct (Z.eqb_spec vpn (va .>> RISCV_PAGE_SHIFT)) as [->|]; [|destruct (_ =? _); [by intros []|by apply H]].
  destruct acc; cbn [put_keeps]; done || by intros [].
Qed.

Lemma tlb_writes_read_flush vm addr : urange 64 addr -> tlb_writes_read vm ->
  tlb_writes_read (riscv_tlb_flush vm) /\ tlb_writes_read (riscv_tlb_flush_page vm addr).
Proof.
  intros Ha H. split; intros vpn Hp.
  - rewrite tlb_flush_lookup by done. by intros [].
  - rewrite !tlb_flush_page_lookup by done. destruct (_ =? _); [by intros []|by apply H].
Qed.

(** C22: load after store.  A store of width [n] to an aligned address that translates to a
    writable page of RAM, cached or not, on a hart whose cached writable pages are cached for
    reading too, followed by a load of that width from it, yields the low [n] bytes of the
    stored value, and the load takes the cached path. *)
Theorem store_load_roundtrip `{Env} n vm va v vm1 ptr : width_ok n -> va mod Z.of_nat n = 0 ->
  urange 64 va -> ram_ok vm.(mem) -> ram_access vm va AccW vm1 ptr -> vm1.(mem) = vm.(mem) ->
  tlb_writes_read vm ->
  let vm' := mem_store n vm va v in
  mem_load n vm' va = (vm', Some (wrap (8 * Z.of_nat n) v)).
Proof.
  intros Hn Ha Hv Hr Hacc Hm1 Hwr. cbn zeta. destruct (width_block va n Hn Ha) as [Hb Hs].
  assert (forall vm2 p, is_Some (tlb_lookup vm2 AccR (vpn_of va)) -> tlb_ptr_of vm2 (vpn_of va) va = p ->
    let vm' := set_host (put_bytes vm2.(host) p (le_split n v)) vm2 in
    mem_load n vm' va = (vm', Some (wrap (8 * Z.of_nat n) v))) as Hload.
  { intros vm2 p Hl Hp. cbn zeta. unfold mem_load.
    change (tlb_lookup (set_host (put_bytes (host vm2) p (le_split n v)) vm2)) with (tlb_lookup vm2).
    rewrite bool_decide_eq_true_2, Ha by done. cbn [andb Z.eqb].
    change (tlb_ptr_of (set_host (put_bytes (host vm2) p (le_split n v)) vm2) (vpn_of va) va)
      with (tlb_ptr_of vm2 (vpn_of va) va). rewrite Hp. cbn [host set_host].
    do 2 f_equal. rewrite <- (length_le_split n v) at 1. by rewrite get_put_same, le_combine_split. }
  unfold mem_store. rewrite Ha. cbn [Z.eqb]. rewrite andb_true_r. case_bool_decide as Hw.
  - apply Hload; [|done]. apply Hwr; [by apply vpn_range|done].
  - rewrite (mmu_op_ram vm va _ n AccW vm1 ptr) by done. cbn zeta.
    rewrite bool_decide_eq_true_2 by done. cbn [fst].
    rewrite firstn_all2 by (by rewrite length_le_split).
    assert (tlb_lookup (riscv_tlb_put vm1 va ptr (access_code AccW)) AccR (vpn_of va) =
      Some (u64 (ptr - va))) as Hl.
    { unfold vpn_of. rewrite tlb_put_lookup by auto with rv. cbn zeta. by rewrite Z.eqb_refl. }
    destruct Hacc as (pa & _ & Hp).
    apply Hload; [by rewrite Hl|]. apply (tlb_hit_ptr _ AccR); [|done].
    apply (phys_access_range vm1 pa); [by rewrite Hm1|done].
Qed.

Lemma demo_write_access : ram_access demo_hart 0x80000008 AccW demo_hart 0x10008.
Proof. exists 0x80000008. vm_compute. done. Qed.

Lemma demo_ram_ok : ram_ok demo_hart.(mem).
Proof. constructor; vm_compute; [done|done|split; congruence]. Qed.

Lemma demo_writes_read : tlb_writes_read demo_hart.
Proof.
  intros vpn Hp. unfold demo_hart, riscv_hart_init. cbn zeta. rewrite tlb_flush_lookup by done. by intros [].
Qed.

Lemma store_load_roundtrip_witness :
  let vm' := mem_store (H := demo_env) 4 demo_hart 0x80000008 0x1122334455667788 in
  mem_load (H := demo_env) 4 vm' 0x80000008 = (vm', Some 0x55667788).
Proof.
  refine (store_load_roundtrip (H := demo_env) 4 demo_hart 0x80000008 0x1122334455667788 demo_hart
    0x10008 _ _ _ demo_ram_ok demo_write_access eq_refl demo_writes_read);
    [right; right; left; done|done|done].
Defined.

(** ** Memory accesses preserve the invariant *)

Lemma load_to_wf `{env : Env} {Henv : EnvOk env} n put vm va : hart_wf vm -> urange 64 va ->
  (forall v vm, urange (8 * Z.of_nat n) v -> hart_wf vm -> hart_wf (put v vm)) ->
  hart_wf (load_to n put vm va).
Proof.
  intros H Hv Hput. unfold load_to, mem_load. destruct (_ && _).
  - apply Hput; [|done]. pose proof (le_combine_range _ (get_bytes_bytes n _
      (tlb_ptr_of vm (vpn_of va) va) (wf_host _ H))) as Hr. by rewrite length_get_bytes in Hr.
  - pose proof (mmu_op_wf vm va (replicate n 0) (Z.of_nat n) RISCV_MMU_READ H Hv (bytes_zeros n)) as Hw.
    destruct (riscv_mmu_op _ _ _ _ _) as [[vm' d] []]; destruct Hw; [|done].
    apply Hput; [|done]. by apply le_combine_bytes.
Qed.

Lemma mem_store_wf `{env : Env} {Henv : EnvOk env} n vm va v : hart_wf vm -> urange 64 va ->
  hart_wf (mem_store n vm va v).
Proof.
  intros H Hv. unfold mem_store. destruct (_ && _).
  - pose proof (wf_host _ H). auto with rv.
  - pose proof (mmu_op_wf vm va (le_split n v) (Z.of_nat n) RISCV_MMU_WRITE H Hv
      (le_split_bytes n v)) as Hw.
    destruct (riscv_mmu_op _ _ _ _ _) as [[vm' d] ok]. apply Hw.
Qed.

Lemma set_fpu_reg_wf r v vm : urange 64 v -> hart_wf vm -> hart_wf (set_fpu_reg r v vm).
Proof. intros. unfold set_fpu_reg. wf_fields. by apply u64_array_insert. Qed.

Lemma nanbox_range v : urange 32 v -> urange 64 (fpu_nanbox_f32 v).
Proof. intros. apply urange_lor; [lia| |done]. by apply (urange_mono 32). Qed.

Lemma fpu_set_dirty_wf vm : hart_wf vm -> hart_wf (riscv_fpu_set_dirty vm).
Proof.
  intros H. pose proof (wf_csr _ H) as Hc. unfold riscv_fpu_set_dirty. case_match; [|done].
  apply set_status_wf; [|  |done].
  - apply urange_lor; [lia|apply Hc|done].
  - pose proof (wf_mpp _ Hc) as Hm. unfold status.
    assert (bit_cut (csr_status (csr vm) .| (FS_DIRTY .<< 13)) 11 2 = bit_cut (csr_status (csr vm)) 11 2)
      as ->; [|done].
    apply Z.bits_inj'. intros i Hi. rewrite !testbit_bit_cut, Z.lor_spec by lia.
    destruct (Z.ltb_spec i 2); [|done]. cbn. assert (i = 0 \/ i = 1) as [-> | ->] by lia;
      cbn [Z.add]; by rewrite orb_false_r.
Qed.

#[export] Hint Resolve mem_store_wf set_fpu_reg_wf nanbox_range fpu_set_dirty_wf : rv.

Section AccessWf.
Context `{env : Env} {Henv : EnvOk env}.
Variables (vm : hart) (va r : Z).
Hypotheses (Hw : hart_wf vm) (Hva : urange 64 va).

Ltac load_wf lem :=
  rewrite lem; apply load_to_wf; [done|done|]; intros;
  apply set_reg_wf; [|done]; first [apply wrap_range; lia | eapply urange_mono; [|eassumption]; lia].

Lemma load_u64_wf : hart_wf (riscv_load_u64 vm va r).
Proof. load_wf @load_u64_width. Qed.
Lemma load_u32_wf : hart_wf (riscv_load_u32 vm va r).
Proof. load_wf @load_u32_width. Qed.
Lemma load_s32_wf : hart_wf (riscv_load_s32 vm va r).
Proof. load_wf @load_s32_width. Qed.
Lemma load_u16_wf : hart_wf (riscv_load_u16 vm va r).
Proof. load_wf @load_u16_width. Qed.
Lemma load_s16_wf : hart_wf (riscv_load_s16 vm va r).
Proof. load_wf @load_s16_width. Qed.
Lemma load_u8_wf : hart_wf (riscv_load_u8 vm va r).
Proof. load_wf @load_u8_width. Qed.
Lemma load_s8_wf : hart_wf (riscv_load_s8 vm va r).
Proof. load_wf @load_s8_width. Qed.
Lemma load_double_wf : hart_wf (riscv_load_double vm va r).
Proof. rewrite load_double_width. apply load_to_wf; [done|done|]. intros. auto with rv. Qed.
Lemma load_float_wf : hart_wf (riscv_load_float vm va r).
Proof. rewrite load_float_width. apply load_to_wf; [done|done|]. intros. auto with rv. Qed.
Lemma store_u64_wf : hart_wf (riscv_store_u64 vm va r).
Proof. rewrite store_u64_width. auto with rv. Qed.
Lemma store_u32_wf : hart_wf (riscv_store_u32 vm va r).
Proof. rewrite store_u32_width. auto with rv. Qed.
Lemma store_u16_wf : hart_wf (riscv_store_u16 vm va r).
Proof. rewrite store_u16_width. auto with rv. Qed.
Lemma store_u8_wf : hart_wf (riscv_store_u8 vm va r).
Proof. rewrite store_u8_width. auto with rv. Qed.
Lemma store_double_wf : hart_wf (riscv_store_double vm va r).
Proof. rewrite store_double_width. auto with rv. Qed.
Lemma store_float_wf : hart_wf (riscv_store_float vm va r).
Proof. rewrite store_float_width. auto with rv. Qed.

End AccessWf.

#[export] Hint Resolve load_u64_wf load_u32_wf load_s32_wf load_u16_wf load_s16_wf load_u8_wf
  load_s8_wf load_double_wf load_float_wf store_u64_wf store_u32_wf store_u16_wf store_u8_wf
  store_double_wf store_float_wf : rv.

Lemma fetch_insn_wf `{env : Env} {Henv : EnvOk env} vm va : hart_wf vm -> urange 64 va ->
  let '(vm', insn) := riscv_fetch_insn vm va in
  hart_wf vm' /\ match insn with Some i => urange 32 i | None => True end.
Proof.
  intros H Hv.
  assert (let '(vm', insn) := fetch_insn_slow vm va in
    hart_wf vm' /\ match insn with Some i => urange 32 i | None => True end) as Hslow.
  { unfold fetch_insn_slow. cbn zeta.
    pose proof (mmu_op_wf vm va (take 2 (replicate 4 0)) 2 RISCV_MMU_EXEC H Hv ltac:(auto with rv)) as H1.
    destruct (riscv_mmu_op vm va _ _ _) as [[v1 lo] ok1]. destruct H1 as [H1 Hb1].
    destruct (negb ok1); [done|]. destruct (_ =? 0x3).
    - pose proof (mmu_op_wf v1 (u64 (va + 2)) (drop 2 (replicate 4 0)) 2 RISCV_MMU_EXEC H1
        ltac:(apply wrap_range; lia) ltac:(auto with rv)) as H2.
      destruct (riscv_mmu_op v1 _ _ _ _) as [[v2 hi] ok2]. destruct H2 as [H2 Hb2].
      destruct (negb ok2); [done|]. split; [done|]. apply (le_combine_bytes 4). auto with rv.
    - split; [done|]. apply (le_combine_bytes 4). auto with rv. }
  unfold riscv_fetch_insn. cbn zeta. destruct (_ =? vpn_of va); [|done].
  pose proof (fun a => read_uint16_le_range _ a (wf_host _ H) : urange 16 (read_uint16_le_m _ a)) as Hr.
  destruct (_ =? 0x3).
  - destruct (_ =? vpn_of _); [|done]. split; [done|]. apply urange_lor; [lia|by eapply (urange_mono 16)|].
    pose proof (Hr (u64 (tlb_ptr_of vm (vpn_of (u64 (va + 2))) va + 2))) as Hh. unfold urange in *.
    rewrite Z.shiftl_mul_pow2 by lia. lia.
  - split; [done|]. by eapply (urange_mono 16).
Qed.
