(* ===== verification/Base.v ===== *)
(** * Base integer instructions (src/cpu/riscv_base.h, riscv_common.h, riscv_cpu.c)

    The interpreter template for RV32I and RV64I with M, Zba, Zbb, Zbc, Zbs, Zbkb, Zbkx and
    Zicond: one definition per opcode handler, for either XLEN.  A C [switch] is a chain of
    comparisons in the order of the source, and a [break] out of it ends in
    [riscv_illegal_insn].  The reference semantics is in [IsaSpec], the theorems in
    [BaseProps]. *)

From S2P Require Import Prelude BitOps MemOps State Hart Mmu.

(** ** Interpreter helpers *)

Definition SHAMT_BITS (x : xlen) : Z := match x with RV32 => 5 | RV64 => 6 end.
Definition DIV_OVERFLOW_RS1 (x : xlen) : Z :=
  match x with RV32 => s32 0x80000000 | RV64 => s64 0x8000000000000000 end.

Definition riscv_read_reg (x : xlen) (vm : hart) (r : Z) : Z := wrap (XLEN x) (reg vm r).
Definition riscv_read_reg_s (x : xlen) (vm : hart) (r : Z) : Z := signed (XLEN x) (reg vm r).
Definition riscv_write_reg (x : xlen) (vm : hart) (r data : Z) : hart :=
  set_reg r (u64 (signed (XLEN x) data)) vm.

Definition riscv_illegal_insn (vm : hart) (insn : Z) : hart := riscv_trap vm RISCV_TRAP_ILL_INSN insn.

(** ** Instruction fields *)

Definition decode_i_shamt (x : xlen) (insn : Z) : Z :=
  match x with RV64 => bit_ext_u32 insn 20 6 | RV32 => bit_ext_u32 insn 20 5 end.

Definition decode_i_shift_funct7 (x : xlen) (insn : Z) : Z :=
  match x with RV64 => u32 ((insn .>> 26) .<< 1) | RV32 => insn .>> 25 end.

Definition decode_i_branch_off (insn : Z) : Z :=
  s32 (u32 (u32 (s32 insn .>> 31) .<< 12)
       .| ((insn .>> 7) .& 0x0000001E)
       .| u32 ((insn .& 0x00000080) .<< 4)
       .| ((insn .>> 20) .& 0x000007E0)).

Definition decode_i_jal_off (insn : Z) : Z :=
  s32 (u32 (u32 (s32 insn .>> 31) .<< 20)
       .| (insn .& 0x000FF000)
       .| ((insn .>> 9) .& 0x00000800)
       .| ((insn .>> 20) .& 0x000007FE)).

(** The [for] loops of the crossbar permutations: [fuel] is the number of iterations left,
    [i] the loop variable. *)
Fixpoint xperm4_loop (fuel : nat) (val lut i ret : Z) : Z :=
  match fuel with
  | O => ret
  | S fuel =>
      xperm4_loop fuel val lut (i + 4)
        (ret .| u64 (bit_ext_u64 val (((lut .>> i) .& 0x0F) .<< 2) 4 .<< i))
  end.

Definition riscv_bit_xperm4 (val lut : Z) : Z := xperm4_loop 16 val lut 0 0.

Fixpoint xperm8_loop (fuel : nat) (val lut i ret : Z) : Z :=
  match fuel with
  | O => ret
  | S fuel =>
      let idx := u32 (lut .>> i) in
      let ret :=
        if negb (nz (idx .& 0xF8))
        then ret .| u64 (bit_ext_u64 val ((idx .& 0x07) .<< 3) 8 .<< i) else ret in
      xperm8_loop fuel val lut (i + 4) ret
  end.

Definition riscv_bit_xperm8 (val lut : Z) : Z := xperm8_loop 16 val lut 0 0.

(** The [bit_*] macros of the template. *)
Definition bit_clz (x : xlen) (val : Z) : Z := match x with RV64 => bit_clz64 val | RV32 => bit_clz32 val end.
Definition bit_ctz (x : xlen) (val : Z) : Z := match x with RV64 => bit_ctz64 val | RV32 => bit_ctz32 val end.
Definition bit_popcnt (x : xlen) (val : Z) : Z :=
  match x with RV64 => bit_popcnt64 val | RV32 => bit_popcnt32 val end.
Definition bit_rotl (x : xlen) (val bits : Z) : Z :=
  match x with RV64 => bit_rotl64 val bits | RV32 => bit_rotl32 val bits end.
Definition bit_rotr (x : xlen) (val bits : Z) : Z :=
  match x with RV64 => bit_rotr64 val bits | RV32 => bit_rotr32 val bits end.
Definition bit_clmul (x : xlen) (a b : Z) : Z :=
  match x with RV64 => bit_clmul64 a b | RV32 => bit_clmul32 a b end.
Definition bit_clmulh (x : xlen) (a b : Z) : Z :=
  match x with RV64 => bit_clmulh64 a b | RV32 => bit_clmulh32 a b end.
Definition bit_clmulr (x : xlen) (a b : Z) : Z :=
  match x with RV64 => bit_clmulr64 a b | RV32 => bit_clmulr32 a b end.

(** ** Opcode handlers *)

Section Handlers.
Context `{Env} (x : xlen).

Local Abbreviation xl := (wrap (XLEN x)).
Local Abbreviation sxl := (signed (XLEN x)).

Definition riscv_emulate_i_opc_load (vm : hart) (insn : Z) : hart :=
  let rds := bit_ext_u32 insn 7 5 in
  let rs1 := bit_ext_u32 insn 15 5 in
  let off := bit_ext_i32 insn 20 12 in
  let addr := xl (riscv_read_reg x vm rs1 + off) in
  let funct3 := bit_ext_u32 insn 12 3 in
  if funct3 =? 0x00 then riscv_load_s8 vm addr rds
  else if funct3 =? 0x01 then riscv_load_s16 vm addr rds
  else if funct3 =? 0x02 then riscv_load_s32 vm addr rds
  else if (funct3 =? 0x03) && bool_decide (x = RV64) then riscv_load_u64 vm addr rds
  else if funct3 =? 0x04 then riscv_load_u8 vm addr rds
  else if funct3 =? 0x05 then riscv_load_u16 vm addr rds
  else if (funct3 =? 0x06) && bool_decide (x = RV64) then riscv_load_u32 vm addr rds
  else riscv_illegal_insn vm insn.

(** [slli] and the other operations of [funct3] 1. *)
Definition opc_imm_funct3_1 (vm : hart) (insn rds src : Z) : hart :=
  let shamt := decode_i_shamt x insn in
  let funct7 := decode_i_shift_funct7 x insn in
  if funct7 =? 0x00 then riscv_write_reg x vm rds (xl (src .<< shamt))
  else if (funct7 =? 0x04) && bool_decide (x = RV32) then
    if shamt =? 0x0F then riscv_write_reg x vm rds (bit_zip32 src)
    else riscv_illegal_insn vm insn
  else if funct7 =? 0x14 then riscv_write_reg x vm rds (src .| xl (1 .<< shamt))
  else if funct7 =? 0x24 then riscv_write_reg x vm rds (src .& xl (Z.lnot (xl (1 .<< shamt))))
  else if funct7 =? 0x34 then riscv_write_reg x vm rds (src .^ xl (1 .<< shamt))
  else if funct7 =? 0x30 then
    if shamt =? 0x00 then riscv_write_reg x vm rds (bit_clz x src)
    else if shamt =? 0x01 then riscv_write_reg x vm rds (bit_ctz x src)
    else if shamt =? 0x02 then riscv_write_reg x vm rds (bit_popcnt x src)
    else if shamt =? 0x04 then riscv_write_reg x vm rds (s8 src)
    else if shamt =? 0x05 then riscv_write_reg x vm rds (s16 src)
    else riscv_illegal_insn vm insn
  else riscv_illegal_insn vm insn.

(** [srli], [srai] and the other operations of [funct3] 5. *)
Definition opc_imm_funct3_5 (vm : hart) (insn rds src : Z) : hart :=
  let shamt := decode_i_shamt x insn in
  let funct7 := decode_i_shift_funct7 x insn in
  if funct7 =? 0x00 then riscv_write_reg x vm rds (src .>> shamt)
  else if funct7 =? 0x20 then riscv_write_reg x vm rds (sxl src .>> shamt)
  else if (funct7 =? 0x04) && bool_decide (x = RV32) then
    if shamt =? 0x0F then riscv_write_reg x vm rds (bit_unzip32 src)
    else riscv_illegal_insn vm insn
  else if funct7 =? 0x14 then
    if shamt =? 0x07 then riscv_write_reg x vm rds (bit_orc_b src)
    else riscv_illegal_insn vm insn
  else if funct7 =? 0x24 then riscv_write_reg x vm rds ((src .>> shamt) .& 1)
  else if funct7 =? 0x34 then
    if shamt =? 0x07 then riscv_write_reg x vm rds (bit_brev8 src)
    else if (shamt =? 0x38) && bool_decide (x = RV64) then riscv_write_reg x vm rds (byteswap_uint64 src)
    else if (shamt =? 0x18) && bool_decide (x = RV32) then riscv_write_reg x vm rds (byteswap_uint32 src)
    else riscv_illegal_insn vm insn
  else if funct7 =? 0x30 then riscv_write_reg x vm rds (bit_rotr x src shamt)
  else riscv_illegal_insn vm insn.

Definition riscv_emulate_i_opc_imm (vm : hart) (insn : Z) : hart :=
  let rds := bit_ext_u32 insn 7 5 in
  let rs1 := bit_ext_u32 insn 15 5 in
  let imm := xl (bit_ext_i32 insn 20 12) in
  let src := riscv_read_reg x vm rs1 in
  let funct3 := bit_ext_u32 insn 12 3 in
  if funct3 =? 0x00 then riscv_write_reg x vm rds (xl (src + imm))
  else if funct3 =? 0x01 then opc_imm_funct3_1 vm insn rds src
  else if funct3 =? 0x02 then riscv_write_reg x vm rds (if sxl src <? sxl imm then 1 else 0)
  else if funct3 =? 0x03 then riscv_write_reg x vm rds (if src <? imm then 1 else 0)
  else if funct3 =? 0x04 then riscv_write_reg x vm rds (src .^ imm)
  else if funct3 =? 0x05 then opc_imm_funct3_5 vm insn rds src
  else if funct3 =? 0x06 then riscv_write_reg x vm rds (src .| imm)
  else if funct3 =? 0x07 then riscv_write_reg x vm rds (src .& imm)
  else riscv_illegal_insn vm insn.

Definition riscv_emulate_i_auipc (vm : hart) (insn : Z) : hart :=
  let rds := bit_ext_u32 insn 7 5 in
  let imm := xl (s32 (insn .& 0xFFFFF000)) in
  let pc := riscv_read_reg x vm RISCV_REG_PC in
  riscv_write_reg x vm rds (xl (pc + imm)).

(** RV64 only. *)
Definition riscv_emulate_i_opc_imm32 (vm : hart) (insn : Z) : hart :=
  let rds := bit_ext_u32 insn 7 5 in
  let rs1 := bit_ext_u32 insn 15 5 in
  let src := u32 (riscv_read_reg x vm rs1) in
  if bit_ext_u32 insn 12 3 =? 0 then
    let imm := u32 (bit_ext_i32 insn 20 12) in
    riscv_write_reg x vm rds (s32 (u32 (src + imm)))
  else
    let shamt := bit_ext_u32 insn 20 5 in
    let op := insn .& 0xFE007000 in
    if op =? 0x00001000 then riscv_write_reg x vm rds (s32 (u32 (src .<< shamt)))
    else if (op =? 0x08001000) || (op =? 0x0A001000) then
      let shamt := bit_ext_u32 insn 20 6 in
      riscv_write_reg x vm rds (xl (src .<< shamt))
    else if op =? 0x60001000 then
      if shamt =? 0x00 then riscv_write_reg x vm rds (bit_clz32 src)
      else if shamt =? 0x01 then riscv_write_reg x vm rds (bit_ctz32 src)
      else if shamt =? 0x02 then riscv_write_reg x vm rds (bit_popcnt32 src)
      else riscv_illegal_insn vm insn
    else if op =? 0x00005000 then riscv_write_reg x vm rds (s32 (src .>> shamt))
    else if op =? 0x40005000 then riscv_write_reg x vm rds (s32 src .>> shamt)
    else if op =? 0x60005000 then riscv_write_reg x vm rds (s32 (bit_rotr32 src shamt))
    else riscv_illegal_insn vm insn.

Definition riscv_emulate_i_opc_store (vm : hart) (insn : Z) : hart :=
  let rs1 := bit_ext_u32 insn 15 5 in
  let rs2 := bit_ext_u32 insn 20 5 in
  let off := s32 (u32 (u32 (s32 insn .>> 25) .<< 5) .| bit_ext_u32 insn 7 5) in
  let addr := xl (riscv_read_reg x vm rs1 + off) in
  let funct3 := bit_ext_u32 insn 12 3 in
  if funct3 =? 0x00 then riscv_store_u8 vm addr rs2
  else if funct3 =? 0x01 then riscv_store_u16 vm addr rs2
  else if funct3 =? 0x02 then riscv_store_u32 vm addr rs2
  else if (funct3 =? 0x03) && bool_decide (x = RV64) then riscv_store_u64 vm addr rs2
  else riscv_illegal_insn vm insn.

(** [reg2 & bit_mask(SHAMT_BITS)]. *)
Local Abbreviation shamt_of reg2 := (reg2 .& bit_mask (SHAMT_BITS x)).

Definition riscv_emulate_i_opc_op (vm : hart) (insn : Z) : hart :=
  let rds := bit_ext_u32 insn 7 5 in
  let rs1 := bit_ext_u32 insn 15 5 in
  let rs2 := bit_ext_u32 insn 20 5 in
  let reg1 := riscv_read_reg x vm rs1 in
  let reg2 := riscv_read_reg x vm rs2 in
  let write := riscv_write_reg x vm rds in
  let op := insn .& 0xFE007000 in
  if op =? 0x00000000 then write (xl (reg1 + reg2))
  else if op =? 0x40000000 then write (xl (reg1 - reg2))
  else if op =? 0x00001000 then write (xl (reg1 .<< shamt_of reg2))
  else if op =? 0x00002000 then write (if sxl reg1 <? sxl reg2 then 1 else 0)
  else if op =? 0x00003000 then write (if reg1 <? reg2 then 1 else 0)
  else if op =? 0x00004000 then write (reg1 .^ reg2)
  else if op =? 0x00005000 then write (reg1 .>> shamt_of reg2)
  else if op =? 0x40005000 then write (sxl reg1 .>> shamt_of reg2)
  else if op =? 0x00006000 then write (reg1 .| reg2)
  else if op =? 0x00007000 then write (reg1 .& reg2)
  else if op =? 0x02000000 then write (xl (reg1 * reg2))
  else if op =? 0x02001000 then
    write (match x with
           | RV64 => mulh_uint64 (s64 reg1) (s64 reg2)
           | RV32 => (sxl reg1 * sxl reg2) .>> 32
           end)
  else if op =? 0x02002000 then
    write (match x with
           | RV64 => mulhsu_uint64 (s64 reg1) reg2
           | RV32 => u64 (sxl reg1 * reg2) .>> 32
           end)
  else if op =? 0x02003000 then
    write (match x with
           | RV64 => mulhu_uint64 reg1 reg2
           | RV32 => u64 (reg1 * reg2) .>> 32
           end)
  else if op =? 0x02004000 then
    write (if (sxl reg1 =? DIV_OVERFLOW_RS1 x) && (sxl reg2 =? -1) then DIV_OVERFLOW_RS1 x
           else if nz reg2 then Z.quot (sxl reg1) (sxl reg2) else -1)
  else if op =? 0x02005000 then write (if nz reg2 then Z.quot reg1 reg2 else xl (-1))
  else if op =? 0x02006000 then
    write (if (sxl reg1 =? DIV_OVERFLOW_RS1 x) && (sxl reg2 =? -1) then 0
           else if nz reg2 then Z.rem (sxl reg1) (sxl reg2) else sxl reg1)
  else if op =? 0x02007000 then write (if nz reg2 then Z.rem reg1 reg2 else reg1)
  else if op =? 0x08004000 then
    write (match x with
           | RV64 => u32 reg1 .| u64 (reg2 .<< 32)
           | RV32 => u16 reg1 .| xl (reg2 .<< 16)
           end)
  else if op =? 0x08007000 then write (u8 reg1 .| u32 (u8 reg2 .<< 8))
  else if op =? 0x0A001000 then write (bit_clmul x reg1 reg2)
  else if op =? 0x0A002000 then write (bit_clmulr x reg1 reg2)
  else if op =? 0x0A003000 then write (bit_clmulh x reg1 reg2)
  else if op =? 0x0A004000 then write (EVAL_MIN (sxl reg1) (sxl reg2))
  else if op =? 0x0A005000 then write (EVAL_MIN reg1 reg2)
  else if op =? 0x0A006000 then write (EVAL_MAX (sxl reg1) (sxl reg2))
  else if op =? 0x0A007000 then write (EVAL_MAX reg1 reg2)
  else if op =? 0x40004000 then write (reg1 .^ xl (Z.lnot reg2))
  else if op =? 0x40006000 then write (reg1 .| xl (Z.lnot reg2))
  else if op =? 0x40007000 then write (reg1 .& xl (Z.lnot reg2))
  else if op =? 0x60001000 then write (bit_rotl x reg1 (shamt_of reg2))
  else if op =? 0x60005000 then write (bit_rotr x reg1 (shamt_of reg2))
  else if op =? 0x0E005000 then write (if nz reg2 then reg1 else 0)
  else if op =? 0x0E007000 then write (if nz reg2 then 0 else reg1)
  else if op =? 0x20002000 then write (xl (reg2 + xl (reg1 .<< 1)))
  else if op =? 0x20004000 then write (xl (reg2 + xl (reg1 .<< 2)))
  else if op =? 0x20006000 then write (xl (reg2 + xl (reg1 .<< 3)))
  else if op =? 0x28002000 then write (riscv_bit_xperm4 reg1 reg2)
  else if op =? 0x28004000 then write (riscv_bit_xperm8 reg1 reg2)
  else if op =? 0x28001000 then write (reg1 .| xl (1 .<< shamt_of reg2))
  else if op =? 0x48001000 then write (reg1 .& xl (Z.lnot (xl (1 .<< shamt_of reg2))))
  else if op =? 0x48005000 then write ((reg1 .>> shamt_of reg2) .& 1)
  else if op =? 0x68001000 then write (reg1 .^ xl (1 .<< shamt_of reg2))
  else riscv_illegal_insn vm insn.

Definition riscv_emulate_i_lui (vm : hart) (insn : Z) : hart :=
  let rds := bit_ext_u32 insn 7 5 in
  let imm := xl (s32 (insn .& 0xFFFFF000)) in
  riscv_write_reg x vm rds imm.

(** RV64 only. *)
Definition riscv_emulate_i_opc_op32 (vm : hart) (insn : Z) : hart :=
  let rds := bit_ext_u32 insn 7 5 in
  let rs1 := bit_ext_u32 insn 15 5 in
  let rs2 := bit_ext_u32 insn 20 5 in
  let reg1 := u32 (riscv_read_reg x vm rs1) in
  let reg2 := u32 (riscv_read_reg x vm rs2) in
  let write := riscv_write_reg x vm rds in
  let op := insn .& 0xFE007000 in
  if op =? 0x00000000 then write (s32 (u32 (reg1 + reg2)))
  else if op =? 0x40000000 then write (s32 (u32 (reg1 - reg2)))
  else if op =? 0x00001000 then write (s32 (u32 (reg1 .<< (reg2 .& 0x1F))))
  else if op =? 0x00005000 then write (s32 (reg1 .>> (reg2 .& 0x1F)))
  else if op =? 0x40005000 then write (s32 reg1 .>> (reg2 .& 0x1F))
  else if op =? 0x02000000 then write (s32 (u32 (reg1 * reg2)))
  else if op =? 0x02004000 then
    write (if (s32 reg1 =? s32 0x80000000) && (s32 reg2 =? -1) then s32 0x80000000
           else if nz reg2 then Z.quot (s32 reg1) (s32 reg2) else -1)
  else if op =? 0x02005000 then write (s32 (if nz reg2 then Z.quot reg1 reg2 else u32 (-1)))
  else if op =? 0x02006000 then
    write (if (s32 reg1 =? s32 0x80000000) && (s32 reg2 =? -1) then 0
           else if nz reg2 then Z.rem (s32 reg1) (s32 reg2) else s32 reg1)
  else if op =? 0x02007000 then write (s32 (if nz reg2 then Z.rem reg1 reg2 else reg1))
  else if op =? 0x08004000 then write (s32 (u16 reg1 .| u32 (reg2 .<< 16)))
  else if op =? 0x60001000 then write (s32 (bit_rotl32 reg1 (shamt_of reg2)))
  else if op =? 0x60005000 then write (s32 (bit_rotr32 reg1 (shamt_of reg2)))
  else if op =? 0x08000000 then write (xl (riscv_read_reg x vm rs2 + reg1))
  else if op =? 0x20002000 then write (xl (riscv_read_reg x vm rs2 + xl (reg1 .<< 1)))
  else if op =? 0x20004000 then write (xl (riscv_read_reg x vm rs2 + xl (reg1 .<< 2)))
  else if op =? 0x20006000 then write (xl (riscv_read_reg x vm rs2 + xl (reg1 .<< 3)))
  else riscv_illegal_insn vm insn.

(** The taken side of a branch; the interpreter adds 4 after the instruction. *)
Definition branch_taken (vm : hart) (off : Z) : hart :=
  let pc := riscv_read_reg x vm RISCV_REG_PC in
  riscv_write_reg x vm RISCV_REG_PC (xl (pc + off - 4)).

Definition riscv_emulate_i_opc_branch (vm : hart) (insn : Z) : hart :=
  let rs1 := bit_ext_u32 insn 15 5 in
  let rs2 := bit_ext_u32 insn 20 5 in
  let off := decode_i_branch_off insn in
  let funct3 := bit_ext_u32 insn 12 3 in
  if funct3 =? 0x00 then
    if riscv_read_reg x vm rs1 =? riscv_read_reg x vm rs2 then branch_taken vm off else vm
  else if funct3 =? 0x01 then
    if negb (riscv_read_reg x vm rs1 =? riscv_read_reg x vm rs2) then branch_taken vm off else vm
  else if funct3 =? 0x04 then
    if riscv_read_reg_s x vm rs1 <? riscv_read_reg_s x vm rs2 then branch_taken vm off else vm
  else if funct3 =? 0x05 then
    if riscv_read_reg_s x vm rs2 <=? riscv_read_reg_s x vm rs1 then branch_taken vm off else vm
  else if funct3 =? 0x06 then
    if riscv_read_reg x vm rs1 <? riscv_read_reg x vm rs2 then branch_taken vm off else vm
  else if funct3 =? 0x07 then
    if riscv_read_reg x vm rs2 <=? riscv_read_reg x vm rs1 then branch_taken vm off else vm
  else riscv_illegal_insn vm insn.

Definition riscv_emulate_i_jalr (vm : hart) (insn : Z) : hart :=
  if bit_ext_u32 insn 12 3 =? 0 then
    let rds := bit_ext_u32 insn 7 5 in
    let rs1 := bit_ext_u32 insn 15 5 in
    let off := bit_ext_i32 insn 20 12 in
    let pc := riscv_read_reg x vm RISCV_REG_PC in
    let jmp_addr := riscv_read_reg x vm rs1 in
    let vm := riscv_write_reg x vm rds (xl (pc + 4)) in
    riscv_write_reg x vm RISCV_REG_PC (xl ((xl (jmp_addr + off) .& xl (Z.lnot 1)) - 4))
  else riscv_illegal_insn vm insn.

Definition riscv_emulate_i_jal (vm : hart) (insn : Z) : hart :=
  let rds := bit_ext_u32 insn 7 5 in
  let off := decode_i_jal_off insn in
  let pc := riscv_read_reg x vm RISCV_REG_PC in
  let vm := riscv_write_reg x vm rds (xl (pc + 4)) in
  riscv_write_reg x vm RISCV_REG_PC (xl (pc + off - 4)).

End Handlers.
