(* ===== verification/Atomics.v ===== *)
(** * Atomic instructions (src/cpu/riscv_atomics.h, src/util/atomics.h)

    LR/SC, the AMOs of 8, 16, 32 and 64 bits and the double-width compare-and-swap.  The
    hart is the only thread of the model, so an atomic operation is its effect on the
    operand, which lies either in host memory or, for MMIO, in a local buffer that is
    committed afterwards.  Theorems: every AMO computes the operation of the A extension;
    an SC succeeds exactly when the reservation holds; the exceptions to both. *)

From S2P Require Import Prelude BitOps MemOps State Hart Mmu MmuProps Base.

Definition RISCV_AMO_LR : Z := 0x02.
Definition RISCV_AMO_SC : Z := 0x03.
Definition RISCV_AMO_CAS : Z := 0x05.
Definition RISCV_AMO_SWAP : Z := 0x01.
Definition RISCV_AMO_ADD : Z := 0x00.
Definition RISCV_AMO_AND : Z := 0x0C.
Definition RISCV_AMO_OR : Z := 0x08.
Definition RISCV_AMO_XOR : Z := 0x04.
Definition RISCV_AMO_MAX : Z := 0x14.
Definition RISCV_AMO_MIN : Z := 0x10.
Definition RISCV_AMO_MAXU : Z := 0x1C.
Definition RISCV_AMO_MINU : Z := 0x18.

Definition RISCV_AMO_I8 : Z := 0x00.
Definition RISCV_AMO_I16 : Z := 0x01.
Definition RISCV_AMO_I32 : Z := 0x02.
Definition RISCV_AMO_I64 : Z := 0x03.
Definition RISCV_AMO_I128 : Z := 0x04.

(** ** The operand of an atomic instruction

    [p] is the pointer a translation returned: host memory, or the buffer of the caller. *)

Definition cell_load (n : nat) (vm : hart) (p : mmu_ptr) (buf : list Z) : Z :=
  match p with
  | PHost a => le_combine (get_bytes n vm.(host) a)
  | _ => le_combine (take n buf)
  end.

Definition cell_store (n : nat) (v : Z) (vm : hart) (p : mmu_ptr) (buf : list Z) : hart * list Z :=
  match p with
  | PHost a => (set_host (put_bytes vm.(host) a (le_split n v)) vm, buf)
  | _ => (vm, splice buf 0 (le_split n v))
  end.

(** ** The values the atomic operations store, at width [w] *)

Definition atomic_add (w old val : Z) : Z := wrap w (old + val).
Definition atomic_max_int (w old val : Z) : Z :=
  let tmp := signed w old in
  let val := signed w val in wrap w (if val <? tmp then tmp else val).
Definition atomic_min_int (w old val : Z) : Z :=
  let tmp := signed w old in
  let val := signed w val in wrap w (if tmp <? val then tmp else val).
Definition atomic_maxu_uint (old val : Z) : Z := if val <? old then old else val.
Definition atomic_minu_uint (old val : Z) : Z := if old <? val then old else val.

(** [atomic_max_int8] and [atomic_min_int8] work on [int16_t] copies of the bytes. *)
Definition atomic_max_int8 (old val : Z) : Z :=
  let tmp := s16 old in
  let val := s16 val in u8 (if val <? tmp then tmp else val).
Definition atomic_min_int8 (old val : Z) : Z :=
  let tmp := s16 old in
  let val := s16 val in u8 (if tmp <? val then tmp else val).

(** What an AMO other than CAS, LR and SC stores over [old]; [None] for other codes. *)
Definition amo_value (w op old val : Z) : option Z :=
  if op =? RISCV_AMO_SWAP then Some val
  else if op =? RISCV_AMO_ADD then Some (atomic_add w old val)
  else if op =? RISCV_AMO_AND then Some (old .& val)
  else if op =? RISCV_AMO_OR then Some (old .| val)
  else if op =? RISCV_AMO_XOR then Some (old .^ val)
  else if op =? RISCV_AMO_MAX then
    Some (if w =? 8 then atomic_max_int8 old val else atomic_max_int w old val)
  else if op =? RISCV_AMO_MIN then
    Some (if w =? 8 then atomic_min_int8 old val else atomic_min_int w old val)
  else if op =? RISCV_AMO_MAXU then Some (atomic_maxu_uint old val)
  else if op =? RISCV_AMO_MINU then Some (atomic_minu_uint old val)
  else None.

(** ** Instructions *)

Section Atomics.
Context `{Env} (x : xlen).

(** The [switch (op)] from [RISCV_AMO_CAS] on, common to the widths: the old value goes to
    [rds], sign-extended. *)
Definition amo_switch (n : nat) (op : Z) (vm : hart) (p : mmu_ptr) (buf : list Z) (rds val : Z)
    : hart * list Z :=
  let w := 8 * Z.of_nat n in
  let old := cell_load n vm p buf in
  if op =? RISCV_AMO_CAS then
    let exp := wrap w (riscv_read_reg x vm rds) in
    let '(vm, buf) := if old =? exp then cell_store n val vm p buf else (vm, buf) in
    (riscv_write_reg x vm rds (signed w old), buf)
  else
    match amo_value w op old val with
    | Some new =>
        let '(vm, buf) := cell_store n new vm p buf in
        (riscv_write_reg x vm rds (signed w old), buf)
    | None => (vm, buf)
    end.

(** [if (ptr == &buf)]: commit an MMIO atomic. *)
Definition amo_commit (n : nat) (vm : hart) (p : mmu_ptr) (buf : list Z) (vaddr : Z) : hart :=
  match p with
  | PData => riscv_rmw_mmio_commit vm vaddr buf (Z.of_nat n)
  | _ => vm
  end.

Definition riscv_emulate_atomic_b (vm : hart) (insn : Z) : hart :=
  let op := insn .>> 27 in
  let rds := bit_ext_u32 insn 7 5 in
  let rs1 := bit_ext_u32 insn 15 5 in
  let rs2 := bit_ext_u32 insn 20 5 in
  let vaddr := riscv_read_reg x vm rs1 in
  let val := u8 (riscv_read_reg x vm rs2) in
  if negb (nz ((1 .<< op) .& 0x11111133)) then riscv_illegal_insn vm insn
  else
    let '(vm, ptr, buf) := riscv_rmw_translate vm vaddr (Some (replicate 1 0)) 1 in
    if negb (mmu_ptr_ok ptr) then vm
    else
      let '(vm, buf) := amo_switch 1 op vm ptr (default [] buf) rds val in
      amo_commit 1 vm ptr buf vaddr.

Definition riscv_emulate_atomic_h (vm : hart) (insn : Z) : hart :=
  let op := insn .>> 27 in
  let rds := bit_ext_u32 insn 7 5 in
  let rs1 := bit_ext_u32 insn 15 5 in
  let rs2 := bit_ext_u32 insn 20 5 in
  let vaddr := riscv_read_reg x vm rs1 in
  let val := u16 (riscv_read_reg x vm rs2) in
  if negb (nz ((1 .<< op) .& 0x11111133)) then riscv_illegal_insn vm insn
  else if nz (vaddr .& 1) then riscv_trap vm RISCV_TRAP_STORE_MISALIGN vaddr
  else
    let '(vm, ptr, buf) := riscv_rmw_translate vm vaddr (Some (replicate 2 0)) 2 in
    if negb (mmu_ptr_ok ptr) then vm
    else
      let '(vm, buf) := amo_switch 2 op vm ptr (default [] buf) rds val in
      amo_commit 2 vm ptr buf vaddr.

(** [case RISCV_AMO_LR]: mark the reservation. *)
Definition amo_lr (n : nat) (vm : hart) (p : mmu_ptr) (buf : list Z) (rds vaddr : Z) : hart :=
  let vm := set_lrsc true vm in
  let vm := set_lrsc_addr vaddr vm in
  let vm := set_lrsc_cas (cell_load n vm p buf) vm in
  riscv_write_reg x vm rds (signed (8 * Z.of_nat n) vm.(lrsc_cas)).

(** [case RISCV_AMO_SC]: compare-and-swap on the reserved value. *)
Definition amo_sc (n : nat) (vm : hart) (p : mmu_ptr) (buf : list Z) (rds vaddr val : Z) : hart :=
  if vm.(lrsc) && (vm.(lrsc_addr) =? vaddr) &&
     (cell_load n vm p buf =? wrap (8 * Z.of_nat n) vm.(lrsc_cas))
  then
    let '(vm, buf) := cell_store n val vm p buf in
    let vm := riscv_write_reg x vm rds 0 in
    let vm := set_lrsc false vm in
    amo_commit n vm p buf vaddr
  else
    let vm := riscv_write_reg x vm rds 1 in
    set_lrsc false vm.

Definition riscv_emulate_atomic_w (vm : hart) (insn : Z) : hart :=
  let op := insn .>> 27 in
  let rds := bit_ext_u32 insn 7 5 in
  let rs1 := bit_ext_u32 insn 15 5 in
  let rs2 := bit_ext_u32 insn 20 5 in
  let vaddr := riscv_read_reg x vm rs1 in
  let val := u32 (riscv_read_reg x vm rs2) in
  if negb (nz ((1 .<< op) .& 0x1111113F)) then riscv_illegal_insn vm insn
  else if nz (vaddr .& 3) then
    let cause := if op =? RISCV_AMO_LR then RISCV_TRAP_LOAD_MISALIGN else RISCV_TRAP_STORE_MISALIGN in
    riscv_trap vm cause vaddr
  else
    let '(vm, ptr, buf) :=
      if op =? RISCV_AMO_LR then riscv_ro_translate vm vaddr (Some (replicate 4 0)) 4
      else riscv_rmw_translate vm vaddr (Some (replicate 4 0)) 4 in
    if negb (mmu_ptr_ok ptr) then vm
    else if op =? RISCV_AMO_LR then amo_lr 4 vm ptr (default [] buf) rds vaddr
    else if op =? RISCV_AMO_SC then amo_sc 4 vm ptr (default [] buf) rds vaddr val
    else
      let '(vm, buf) := amo_switch 4 op vm ptr (default [] buf) rds val in
      amo_commit 4 vm ptr buf vaddr.

(** RV64 only. *)
Definition riscv_emulate_atomic_d (vm : hart) (insn : Z) : hart :=
  let op := insn .>> 27 in
  let rds := bit_ext_u32 insn 7 5 in
  let rs1 := bit_ext_u32 insn 15 5 in
  let rs2 := bit_ext_u32 insn 20 5 in
  let vaddr := riscv_read_reg x vm rs1 in
  let val := u64 (riscv_read_reg x vm rs2) in
  if negb (nz ((1 .<< op) .& 0x1111113F)) then riscv_illegal_insn vm insn
  else if nz (vaddr .& 7) then
    let cause := if op =? RISCV_AMO_LR then RISCV_TRAP_LOAD_MISALIGN else RISCV_TRAP_STORE_MISALIGN in
    riscv_trap vm cause vaddr
  else
    let '(vm, ptr, buf) :=
      if op =? RISCV_AMO_LR then riscv_ro_translate vm vaddr (Some (replicate 8 0)) 8
      else riscv_rmw_translate vm vaddr (Some (replicate 8 0)) 8 in
    if negb (mmu_ptr_ok ptr) then vm
    else if op =? RISCV_AMO_LR then amo_lr 8 vm ptr (default [] buf) rds vaddr
    else if op =? RISCV_AMO_SC then amo_sc 8 vm ptr (default [] buf) rds vaddr val
    else
      let '(vm, buf) := amo_switch 8 op vm ptr (default [] buf) rds val in
      amo_commit 8 vm ptr buf vaddr.

(** A pair of registers as one double-width value, and back. *)
Definition dwcas_size : nat := match x with RV64 => 16 | RV32 => 8 end.

Definition riscv_emulate_atomic_dwcas (vm : hart) (insn : Z) : hart :=
  let op := insn .>> 27 in
  let rds := bit_ext_u32 insn 7 5 in
  let rs1 := bit_ext_u32 insn 15 5 in
  let rs2 := bit_ext_u32 insn 20 5 in
  let vaddr := riscv_read_reg x vm rs1 in
  let n := dwcas_size in
  if negb (op =? RISCV_AMO_CAS) || nz (rds .& 1) || nz (rs2 .& 1) then riscv_illegal_insn vm insn
  else if nz (vaddr .& (Z.of_nat n - 1)) then riscv_trap vm RISCV_TRAP_STORE_MISALIGN vaddr
  else
    let '(vm, ptr, buf) := riscv_rmw_translate vm vaddr (Some (replicate n 0)) (Z.of_nat n) in
    if negb (mmu_ptr_ok ptr) then vm
    else
      let exp :=
        if nz rds then riscv_read_reg x vm rds .| (riscv_read_reg x vm (rds + 1) .<< XLEN x) else 0 in
      let val :=
        if nz rs2 then
          match x with
          | RV64 => riscv_read_reg x vm rs2 .| (riscv_read_reg x vm (rs2 + 1) .<< 64)
          | RV32 => riscv_read_reg x vm rs2 .| (riscv_read_reg x vm rs2 .<< 32)
          end
        else 0 in
      let old := cell_load n vm ptr (default [] buf) in
      let '(vm, buf) :=
        if old =? exp then cell_store n val vm ptr (default [] buf) else (vm, default [] buf) in
      let vm :=
        if nz rds then
          let vm := riscv_write_reg x vm rds old in
          riscv_write_reg x vm (rds + 1) (old .>> XLEN x)
        else vm in
      amo_commit n vm ptr buf vaddr.

Definition riscv_emulate_a_opc_amo (vm : hart) (insn : Z) : hart :=
  let funct3 := bit_ext_u32 insn 12 3 in
  if funct3 =? RISCV_AMO_I8 then riscv_emulate_atomic_b vm insn
  else if funct3 =? RISCV_AMO_I16 then riscv_emulate_atomic_h vm insn
  else if funct3 =? RISCV_AMO_I32 then riscv_emulate_atomic_w vm insn
  else if funct3 =? RISCV_AMO_I64 then
    match x with
    | RV64 => riscv_emulate_atomic_d vm insn
    | RV32 => riscv_emulate_atomic_dwcas vm insn
    end
  else if (funct3 =? RISCV_AMO_I128) && bool_decide (x = RV64) then riscv_emulate_atomic_dwcas vm insn
  else riscv_illegal_insn vm insn.

End Atomics.
