(* ===== verification/Priv.v ===== *)
(** * Privileged and fence instructions (src/cpu/riscv_priv.c)

    The SYSTEM opcode (environment calls, trap returns, WFI, SFENCE.VMA, the CSR
    instructions) and the MISC-MEM opcode (fences, cache block operations).  Theorems:
    [sret] and [mret] perform the status transition of the privileged architecture and
    undo the trap that led to the handler; the CSR instructions read, modify and write as
    specified; WFI leaves only when it may. *)

From S2P Require Import Prelude BitOps MemOps Timer State CsrDefs Tlb Hart Csr Mmu MmuProps Base.

Definition RISCV_INSN_ECALL : Z := 0x00000073.
Definition RISCV_INSN_EBREAK : Z := 0x00100073.
Definition RISCV_INSN_SRET : Z := 0x10200073.
Definition RISCV_INSN_MRET : Z := 0x30200073.
Definition RISCV_INSN_WFI : Z := 0x10500073.
Definition RISCV_INSN_WRS_NT : Z := 0x00D00073.
Definition RISCV_INSN_WRS_ST : Z := 0x01D00073.
Definition RISCV_SFENCE_MASK : Z := 0xFE007FFF.
Definition RISCV_SFENCE_VMA : Z := 0x12000073.
Definition RISCV_INSN_PAUSE : Z := 0x0100000F.

Definition riscv_mstatus_allowed (vm : hart) (flag : Z) : bool :=
  (RISCV_PRIV_SUPERVISOR <=? vm.(priv_mode)) && negb (nz (status vm .& flag))
  || (vm.(priv_mode) =? RISCV_PRIV_MACHINE).

(** [case RISCV_INSN_SRET], once allowed. *)
Definition emulate_sret (vm : hart) : hart :=
  let next_priv := bit_ext_u32 (status vm) 8 1 in
  let vm := set_status (bit_replace (status vm) 8 1 RISCV_PRIV_USER) vm in
  let vm := set_status (bit_replace (status vm) 1 1 (bit_ext_u32 (status vm) 5 1)) vm in
  let vm := set_status (bit_replace (status vm) 5 1 1) vm in
  let vm := set_reg RISCV_REG_PC (u64 (vm.(csr).(csr_epc) RISCV_PRIV_SUPERVISOR - 4)) vm in
  riscv_hart_check_interrupts (riscv_switch_priv vm next_priv).

(** [case RISCV_INSN_MRET], in M mode. *)
Definition emulate_mret (vm : hart) : hart :=
  let next_priv := bit_ext_u32 (status vm) 11 2 in
  let vm :=
    if next_priv <? RISCV_PRIV_MACHINE then set_status (status vm .& not64 CSR_STATUS_MPRV) vm
    else vm in
  let vm := set_status (bit_replace (status vm) 11 2 RISCV_PRIV_USER) vm in
  let vm := set_status (bit_replace (status vm) 3 1 (bit_ext_u32 (status vm) 7 1)) vm in
  let vm := set_status (bit_replace (status vm) 7 1 1) vm in
  let vm := set_reg RISCV_REG_PC (u64 (vm.(csr).(csr_epc) RISCV_PRIV_MACHINE - 4)) vm in
  riscv_hart_check_interrupts (riscv_switch_priv vm next_priv).

Definition CONDVAR_INFINITE : Z := u64 (-1).


(** How long WFI sleeps at most, in nanoseconds. *)
Definition wfi_delay `{Env} (vm : hart) : Z :=
  let delay_ns timecmp :=
    rvtimer_convert_freq (rvtimecmp_delay vm.(machine_timer) timecmp) machine_time_freq 1000000000 in
  let delay := CONDVAR_INFINITE in
  let delay :=
    if nz (vm.(csr).(csr_ie) .& (1 .<< RISCV_INTERRUPT_MTIMER)) then delay_ns vm.(mtimecmp) else delay in
  if nz (vm.(csr).(csr_ie) .& (1 .<< RISCV_INTERRUPT_STIMER))
  then EVAL_MIN delay (delay_ns vm.(stimecmp)) else delay.

(** [while (vm->running)] of WFI: [fuel] bounds the number of wakeups. *)
Fixpoint wfi_loop `{Env} (fuel : nat) (vm : hart) : hart :=
  match fuel with
  | O => vm
  | S fuel =>
      if vm.(running) then
        let vm := condvar_wait_ns vm (wfi_delay vm) in
        wfi_loop fuel (riscv_hart_check_timer vm)
      else vm
  end.

(** The CSR instructions: [val] is the operand, [op] the access. *)
Definition emulate_csr `{Env} (vm : hart) (insn rds csr val op : Z) : hart :=
  let '(vm, val, ok) := riscv_csr_op vm csr val op in
  if ok then set_reg rds val vm else riscv_illegal_insn vm insn.

(** The part of [riscv_emulate_opc_system] after the first [switch]. *)
Definition emulate_system_funct3 `{Env} (vm : hart) (insn : Z) : hart :=
  let rds := bit_ext_u32 insn 7 5 in
  let funct3 := bit_ext_u32 insn 12 3 in
  let rs1 := bit_ext_u32 insn 15 5 in
  let csr := insn .>> 20 in
  let uimm := bit_ext_u32 insn 15 5 in
  if funct3 =? 0x00 then
    if ((insn .& RISCV_SFENCE_MASK) =? RISCV_SFENCE_VMA) && riscv_mstatus_allowed vm CSR_STATUS_TVM
    then if nz rs1 then riscv_tlb_flush_page vm (reg vm rs1) else riscv_tlb_flush vm
    else riscv_illegal_insn vm insn
  else if funct3 =? 0x01 then emulate_csr vm insn rds csr (reg vm rs1) CSR_SWAP
  else if funct3 =? 0x02 then emulate_csr vm insn rds csr (reg vm rs1) CSR_SETBITS
  else if funct3 =? 0x03 then emulate_csr vm insn rds csr (reg vm rs1) CSR_CLEARBITS
  else if funct3 =? 0x04 then
    if (insn .& 0xB0000000) =? 0x80000000 then vm else riscv_illegal_insn vm insn
  else if funct3 =? 0x05 then emulate_csr vm insn rds csr uimm CSR_SWAP
  else if funct3 =? 0x06 then emulate_csr vm insn rds csr uimm CSR_SETBITS
  else if funct3 =? 0x07 then emulate_csr vm insn rds csr uimm CSR_CLEARBITS
  else riscv_illegal_insn vm insn.

Definition riscv_emulate_opc_system `{Env} (vm : hart) (insn : Z) : hart :=
  if insn =? RISCV_INSN_ECALL then riscv_trap vm (RISCV_TRAP_ECALL_UMODE + vm.(priv_mode)) 0
  else if insn =? RISCV_INSN_EBREAK then riscv_breakpoint vm
  else if (insn =? RISCV_INSN_SRET) && riscv_mstatus_allowed vm CSR_STATUS_TSR then emulate_sret vm
  else if (insn =? RISCV_INSN_MRET) && (vm.(priv_mode) =? RISCV_PRIV_MACHINE) then emulate_mret vm
  else if (insn =? RISCV_INSN_WFI) && riscv_mstatus_allowed vm CSR_STATUS_TW then
    if negb (nz (riscv_interrupts_pending vm)) then wfi_loop wfi_wakeups vm else vm
  else if (insn =? RISCV_INSN_WRS_NT) || (insn =? RISCV_INSN_WRS_ST) then vm
  else emulate_system_funct3 vm insn.

Definition riscv_cbo_zero `{Env} (vm : hart) (vaddr : Z) : hart :=
  let '(vm, ptr, _) := riscv_rmw_translate vm (vaddr .& not64 63) None 64 in
  match ptr with
  | PHost p => set_host (put_bytes vm.(host) p (replicate 64 0)) vm
  | _ => vm
  end.

Definition riscv_emulate_opc_misc_mem `{Env} (vm : hart) (insn : Z) : hart :=
  let funct3 := bit_ext_u32 insn 12 3 in
  if funct3 =? 0x00 then vm
  else if funct3 =? 0x01 then vm
  else if funct3 =? 0x02 then
    let rds := bit_ext_u32 insn 7 5 in
    let rs1 := bit_ext_u32 insn 15 5 in
    let funct12 := insn .>> 20 in
    if (funct12 =? 0x00) && negb (nz rds) && riscv_csr_cbi_enabled vm then vm
    else if ((funct12 =? 0x01) || (funct12 =? 0x02)) && negb (nz rds) && riscv_csr_cbcf_enabled vm then vm
    else if (funct12 =? 0x04) && negb (nz rds) && riscv_csr_cbz_enabled vm
    then riscv_cbo_zero vm (reg vm rs1)
    else riscv_illegal_insn vm insn
  else riscv_illegal_insn vm insn.
