(* ===== verification/Compressed.v ===== *)
(** * Compressed instructions and instruction dispatch
    (src/cpu/riscv_compressed.h, the dispatcher of riscv_base.h, riscv_fpu.h loads and stores)

    The three quadrants of the C extension with Zcb and Zcmop, the dispatcher of the 32-bit
    opcodes and [riscv_emulate_insn].  A compressed handler receives the 32 bits at the
    program counter; only the low 16 belong to the instruction. *)

From S2P Require Import Prelude BitOps MemOps State CsrDefs Tlb Hart Csr Mmu MmuProps Base Atomics Priv.

(** ** Immediate decoders *)

Definition decode_c_addi4spn_imm (insn : Z) : Z :=
  ((insn .>> 1) .& 0x03C0) .| ((insn .>> 2) .& 0x0008) .| ((insn .>> 4) .& 0x0004)
  .| ((insn .>> 7) .& 0x0030).

Definition decode_c_jal_imm (insn : Z) : Z :=
  let imm := ((insn .>> 1) .& 0x0B40) .| ((insn .>> 2) .& 0x000E) .| ((insn .>> 7) .& 0x0010)
             .| (u32 (insn .<< 1) .& 0x0080) .| (u32 (insn .<< 2) .& 0x0400)
             .| (u32 (insn .<< 3) .& 0x0020) in
  sign_extend imm 12.

Definition decode_c_ld_off (insn : Z) : Z := (u32 (insn .<< 1) .& 0xC0) .| ((insn .>> 7) .& 0x38).

Definition decode_c_lw_off (insn : Z) : Z :=
  (u32 (insn .<< 1) .& 0x40) .| ((insn .>> 4) .& 0x04) .| ((insn .>> 7) .& 0x38).

Definition decode_c_ldsp_off (insn : Z) : Z :=
  ((insn .>> 2) .& 0x0018) .| ((insn .>> 7) .& 0x0020) .| (u32 (insn .<< 4) .& 0x01C0).

Definition decode_c_lwsp_off (insn : Z) : Z :=
  ((insn .>> 2) .& 0x1C) .| ((insn .>> 7) .& 0x20) .| (u32 (insn .<< 4) .& 0xC0).

Definition decode_c_sdsp_off (insn : Z) : Z := ((insn .>> 1) .& 0x01C0) .| ((insn .>> 7) .& 0x0038).

Definition decode_c_swsp_off (insn : Z) : Z := ((insn .>> 1) .& 0xC0) .| ((insn .>> 7) .& 0x3C).

Definition decode_c_alu_imm (insn : Z) : Z :=
  let imm := s32 ((u32 (insn .<< 25) .>> 1) .| u32 ((insn .>> 12) .<< 31)) in
  imm .>> 26.

Definition decode_c_addi16sp_off (insn : Z) : Z :=
  let imm := ((insn .>> 2) .& 0x0010) .| (u32 (insn .<< 3) .& 0x0020) .| (u32 (insn .<< 1) .& 0x0040)
             .| (u32 (insn .<< 4) .& 0x0180) .| ((insn .>> 3) .& 0x0200) in
  sign_extend imm 10.

Definition decode_c_lui_imm (insn : Z) : Z :=
  let imm := s32 (u32 ((insn .& 0x7C) .<< 24) .| u32 ((insn .>> 12) .<< 31)) in
  imm .>> 14.

Definition decode_c_branch_imm (insn : Z) : Z :=
  let imm := ((insn .>> 2) .& 0x0006) .| ((insn .>> 7) .& 0x0018) .| (u32 (insn .<< 3) .& 0x0020)
             .| (u32 (insn .<< 1) .& 0x00C0) .| ((insn .>> 4) .& 0x0100) in
  sign_extend imm 9.

Definition decode_c_shamt (x : xlen) (insn : Z) : Z :=
  match x with
  | RV64 => bit_ext_u32 insn 2 5 .| (bit_ext_u32 insn 12 1 .<< 5)
  | RV32 => bit_ext_u32 insn 2 5
  end.

(** ** Quadrants *)

Section Compressed.
Context `{Env} (x : xlen).

Local Abbreviation xl := (wrap (XLEN x)).
Local Abbreviation sxl := (signed (XLEN x)).

Definition riscv_emulate_c_c0 (vm : hart) (insn : Z) : hart :=
  let rds := bit_ext_u32 insn 2 3 + 8 in
  let rs1 := bit_ext_u32 insn 7 3 + 8 in
  let addr off := xl (riscv_read_reg x vm rs1 + off) in
  let funct3 := bit_ext_u32 insn 13 3 in
  if funct3 =? 0x00 then
    let imm := decode_c_addi4spn_imm insn in
    if nz imm then riscv_write_reg x vm rds (xl (riscv_read_reg x vm RISCV_REG_X2 + imm))
    else riscv_illegal_insn vm insn
  else if funct3 =? 0x01 then
    if riscv_fpu_is_enabled vm then riscv_load_double vm (addr (decode_c_ld_off insn)) rds
    else riscv_illegal_insn vm insn
  else if funct3 =? 0x02 then riscv_load_s32 vm (addr (decode_c_lw_off insn)) rds
  else if funct3 =? 0x03 then
    match x with
    | RV32 =>
        if riscv_fpu_is_enabled vm then riscv_load_float vm (addr (decode_c_lw_off insn)) rds
        else riscv_illegal_insn vm insn
    | RV64 => riscv_load_u64 vm (addr (decode_c_ld_off insn)) rds
    end
  else if funct3 =? 0x04 then
    let op := bit_ext_u32 insn 10 3 in
    if op =? 0x00 then
      riscv_load_u8 vm (addr (((insn .& 0x20) .>> 4) .| ((insn .& 0x40) .>> 6))) rds
    else if op =? 0x01 then
      let off := (insn .& 0x20) .>> 4 in
      if nz (insn .& 0x40) then riscv_load_s16 vm (addr off) rds
      else riscv_load_u16 vm (addr off) rds
    else if op =? 0x02 then
      riscv_store_u8 vm (addr (((insn .& 0x20) .>> 4) .| ((insn .& 0x40) .>> 6))) rds
    else if op =? 0x03 then
      if negb (nz (insn .& 0x40)) then riscv_store_u16 vm (addr ((insn .& 0x20) .>> 4)) rds
      else riscv_illegal_insn vm insn
    else riscv_illegal_insn vm insn
  else if funct3 =? 0x05 then
    if riscv_fpu_is_enabled vm then riscv_store_double vm (addr (decode_c_ld_off insn)) rds
    else riscv_illegal_insn vm insn
  else if funct3 =? 0x06 then riscv_store_u32 vm (addr (decode_c_lw_off insn)) rds
  else if funct3 =? 0x07 then
    match x with
    | RV32 =>
        if riscv_fpu_is_enabled vm then riscv_store_float vm (addr (decode_c_lw_off insn)) rds
        else riscv_illegal_insn vm insn
    | RV64 => riscv_store_u64 vm (addr (decode_c_ld_off insn)) rds
    end
  else riscv_illegal_insn vm insn.

(** The register operations of quadrant 1, after the first [switch]. *)
Definition emulate_c_c1_alu (vm : hart) (insn : Z) : hart :=
  let rds := bit_ext_u32 insn 7 3 + 8 in
  let reg1 := riscv_read_reg x vm rds in
  let write := riscv_write_reg x vm rds in
  let funct2 := bit_ext_u32 insn 10 2 in
  if funct2 =? 0x00 then write (reg1 .>> decode_c_shamt x insn)
  else if funct2 =? 0x01 then write (sxl reg1 .>> decode_c_shamt x insn)
  else if funct2 =? 0x02 then write (reg1 .& xl (decode_c_alu_imm insn))
  else
    let rs2 := bit_ext_u32 insn 2 3 + 8 in
    let reg2 := riscv_read_reg x vm rs2 in
    let op := insn .& 0x1C60 in
    if op =? 0x0C00 then write (xl (reg1 - reg2))
    else if op =? 0x0C20 then write (reg1 .^ reg2)
    else if op =? 0x0C40 then write (reg1 .| reg2)
    else if op =? 0x0C60 then write (reg1 .& reg2)
    else if (op =? 0x1C00) && bool_decide (x = RV64) then write (s32 (xl (reg1 - reg2)))
    else if (op =? 0x1C20) && bool_decide (x = RV64) then write (s32 (xl (reg1 + reg2)))
    else if op =? 0x1C40 then write (xl (reg1 * reg2))
    else if op =? 0x1C60 then
      let funct := bit_ext_u32 insn 2 3 in
      if funct =? 0x00 then write (u8 reg1)
      else if funct =? 0x01 then write (s8 reg1)
      else if funct =? 0x02 then write (u16 reg1)
      else if funct =? 0x03 then write (s16 reg1)
      else if (funct =? 0x04) && bool_decide (x = RV64) then write (u32 reg1)
      else if funct =? 0x05 then write (xl (Z.lnot reg1))
      else riscv_illegal_insn vm insn
    else riscv_illegal_insn vm insn.

Definition riscv_emulate_c_c1 (vm : hart) (insn : Z) : hart :=
  let pc := riscv_read_reg x vm RISCV_REG_PC in
  let funct3 := bit_ext_u32 insn 13 3 in
  if funct3 =? 0x00 then
    let rds := bit_ext_u32 insn 7 5 in
    riscv_write_reg x vm rds (xl (riscv_read_reg x vm rds + decode_c_alu_imm insn))
  else if funct3 =? 0x01 then
    match x with
    | RV64 =>
        let rds := bit_ext_u32 insn 7 5 in
        if nz rds then
          riscv_write_reg x vm rds (s32 (xl (riscv_read_reg x vm rds + decode_c_alu_imm insn)))
        else emulate_c_c1_alu vm insn
    | RV32 =>
        let vm := riscv_write_reg x vm RISCV_REG_X1 (xl (pc + 2)) in
        riscv_write_reg x vm RISCV_REG_PC (xl (pc + decode_c_jal_imm insn - 2))
    end
  else if funct3 =? 0x02 then riscv_write_reg x vm (bit_ext_u32 insn 7 5) (decode_c_alu_imm insn)
  else if funct3 =? 0x03 then
    let rds := bit_ext_u32 insn 7 5 in
    if nz (insn .& 0x107C) then
      if rds =? RISCV_REG_X2 then
        riscv_write_reg x vm RISCV_REG_X2
          (xl (riscv_read_reg x vm RISCV_REG_X2 + decode_c_addi16sp_off insn))
      else riscv_write_reg x vm rds (decode_c_lui_imm insn)
    else if nz (rds .& 0x01) && negb (nz (rds .& 0x10)) then vm
    else emulate_c_c1_alu vm insn
  else if funct3 =? 0x05 then
    riscv_write_reg x vm RISCV_REG_PC (xl (pc + decode_c_jal_imm insn - 2))
  else if funct3 =? 0x06 then
    let rs1 := bit_ext_u32 insn 7 3 + 8 in
    if nz (riscv_read_reg x vm rs1) then vm
    else riscv_write_reg x vm RISCV_REG_PC (xl (pc + decode_c_branch_imm insn - 2))
  else if funct3 =? 0x07 then
    let rs1 := bit_ext_u32 insn 7 3 + 8 in
    if negb (nz (riscv_read_reg x vm rs1)) then vm
    else riscv_write_reg x vm RISCV_REG_PC (xl (pc + decode_c_branch_imm insn - 2))
  else emulate_c_c1_alu vm insn.

Definition riscv_emulate_c_c2 (vm : hart) (insn : Z) : hart :=
  let rds := bit_ext_u32 insn 7 5 in
  let rs2 := bit_ext_u32 insn 2 5 in
  let addr off := xl (riscv_read_reg x vm RISCV_REG_X2 + off) in
  let funct4 := bit_ext_u32 insn 12 4 in
  if (funct4 =? 0x00) || (funct4 =? 0x01) then
    riscv_write_reg x vm rds (xl (riscv_read_reg x vm rds .<< decode_c_shamt x insn))
  else if (funct4 =? 0x02) || (funct4 =? 0x03) then
    if riscv_fpu_is_enabled vm then riscv_load_double vm (addr (decode_c_ldsp_off insn)) rds
    else riscv_illegal_insn vm insn
  else if (funct4 =? 0x04) || (funct4 =? 0x05) then
    if nz rds then riscv_load_s32 vm (addr (decode_c_lwsp_off insn)) rds
    else riscv_illegal_insn vm insn
  else if (funct4 =? 0x06) || (funct4 =? 0x07) then
    match x with
    | RV32 =>
        if riscv_fpu_is_enabled vm then riscv_load_float vm (addr (decode_c_lwsp_off insn)) rds
        else riscv_illegal_insn vm insn
    | RV64 =>
        if nz rds then riscv_load_u64 vm (addr (decode_c_ldsp_off insn)) rds
        else riscv_illegal_insn vm insn
    end
  else if funct4 =? 0x08 then
    if nz rs2 then riscv_write_reg x vm rds (riscv_read_reg x vm rs2)
    else if nz rds then riscv_write_reg x vm RISCV_REG_PC (xl (riscv_read_reg x vm rds - 2))
    else riscv_illegal_insn vm insn
  else if funct4 =? 0x09 then
    if nz rs2 then riscv_write_reg x vm rds (xl (riscv_read_reg x vm rds + riscv_read_reg x vm rs2))
    else if nz rds then
      let vm := riscv_write_reg x vm RISCV_REG_X1 (xl (riscv_read_reg x vm RISCV_REG_PC + 2)) in
      riscv_write_reg x vm RISCV_REG_PC (xl (riscv_read_reg x vm rds - 2))
    else riscv_breakpoint vm
  else if (funct4 =? 0x0A) || (funct4 =? 0x0B) then
    if riscv_fpu_is_enabled vm then riscv_store_double vm (addr (decode_c_sdsp_off insn)) rs2
    else riscv_illegal_insn vm insn
  else if (funct4 =? 0x0C) || (funct4 =? 0x0D) then
    riscv_store_u32 vm (addr (decode_c_swsp_off insn)) rs2
  else if (funct4 =? 0x0E) || (funct4 =? 0x0F) then
    match x with
    | RV32 =>
        if riscv_fpu_is_enabled vm then riscv_store_float vm (addr (decode_c_lwsp_off insn)) rs2
        else riscv_illegal_insn vm insn
    | RV64 => riscv_store_u64 vm (addr (decode_c_sdsp_off insn)) rs2
    end
  else riscv_illegal_insn vm insn.

End Compressed.

(** ** Floating point

    The loads and stores are integer code; the arithmetic handlers (src/cpu/riscv_fpu.h and
    riscv_fpu.c over the host floating-point unit) are an interface. *)

Class Fpu := {
  riscv_emulate_f_fmadd : xlen -> hart -> Z -> hart;
  riscv_emulate_f_fmsub : xlen -> hart -> Z -> hart;
  riscv_emulate_f_fnmsub : xlen -> hart -> Z -> hart;
  riscv_emulate_f_fnmadd : xlen -> hart -> Z -> hart;
  riscv_emulate_f_opc_op : hart -> Z -> hart
}.

(** The handlers keep the hart well formed. *)
Class FpuOk (fpu : Fpu) : Prop := {
  f_fmadd_wf : forall x vm insn, urange 32 insn -> hart_wf vm -> hart_wf (riscv_emulate_f_fmadd x vm insn);
  f_fmsub_wf : forall x vm insn, urange 32 insn -> hart_wf vm -> hart_wf (riscv_emulate_f_fmsub x vm insn);
  f_fnmsub_wf : forall x vm insn, urange 32 insn -> hart_wf vm -> hart_wf (riscv_emulate_f_fnmsub x vm insn);
  f_fnmadd_wf : forall x vm insn, urange 32 insn -> hart_wf vm -> hart_wf (riscv_emulate_f_fnmadd x vm insn);
  f_opc_op_wf : forall vm insn, urange 32 insn -> hart_wf vm -> hart_wf (riscv_emulate_f_opc_op vm insn)
}.

Section Dispatch.
Context `{Env} `{Fpu} (x : xlen).

Local Abbreviation xl := (wrap (XLEN x)).

Definition riscv_emulate_f_opc_load (vm : hart) (insn : Z) : hart :=
  let rds := bit_ext_u32 insn 7 5 in
  let rs1 := bit_ext_u32 insn 15 5 in
  let off := bit_ext_i32 insn 20 12 in
  let addr := xl (riscv_read_reg x vm rs1 + off) in
  let funct3 := bit_ext_u32 insn 12 3 in
  if riscv_fpu_is_enabled vm && (funct3 =? 0x02) then riscv_load_float vm addr rds
  else if riscv_fpu_is_enabled vm && (funct3 =? 0x03) then riscv_load_double vm addr rds
  else riscv_illegal_insn vm insn.

Definition riscv_emulate_f_opc_store (vm : hart) (insn : Z) : hart :=
  let rs1 := bit_ext_u32 insn 15 5 in
  let rs2 := bit_ext_u32 insn 20 5 in
  let off := s32 (u32 (u32 (s32 insn .>> 25) .<< 5) .| bit_ext_u32 insn 7 5) in
  let addr := xl (riscv_read_reg x vm rs1 + off) in
  let funct3 := bit_ext_u32 insn 12 3 in
  if riscv_fpu_is_enabled vm && (funct3 =? 0x02) then riscv_store_float vm addr rs2
  else if riscv_fpu_is_enabled vm && (funct3 =? 0x03) then riscv_store_double vm addr rs2
  else riscv_illegal_insn vm insn.

(** ** Dispatch *)

Definition RISCV_OPC_LOAD : Z := 0x00.
Definition RISCV_OPC_LOAD_FP : Z := 0x04.
Definition RISCV_OPC_MISC_MEM : Z := 0x0C.
Definition RISCV_OPC_OP_IMM : Z := 0x10.
Definition RISCV_OPC_AUIPC : Z := 0x14.
Definition RISCV_OPC_OP_IMM32 : Z := 0x18.
Definition RISCV_OPC_STORE : Z := 0x20.
Definition RISCV_OPC_STORE_FP : Z := 0x24.
Definition RISCV_OPC_AMO : Z := 0x2C.
Definition RISCV_OPC_OP : Z := 0x30.
Definition RISCV_OPC_LUI : Z := 0x34.
Definition RISCV_OPC_OP32 : Z := 0x38.
Definition RISCV_OPC_FMADD : Z := 0x40.
Definition RISCV_OPC_FMSUB : Z := 0x44.
Definition RISCV_OPC_FNMSUB : Z := 0x48.
Definition RISCV_OPC_FNMADD : Z := 0x4C.
Definition RISCV_OPC_OP_FP : Z := 0x50.
Definition RISCV_OPC_BRANCH : Z := 0x60.
Definition RISCV_OPC_JALR : Z := 0x64.
Definition RISCV_OPC_JAL : Z := 0x6C.
Definition RISCV_OPC_SYSTEM : Z := 0x70.

Definition riscv_emulate_i (vm : hart) (insn : Z) : hart :=
  let op := insn .& 0x7C in
  if op =? RISCV_OPC_LOAD then riscv_emulate_i_opc_load x vm insn
  else if op =? RISCV_OPC_LOAD_FP then riscv_emulate_f_opc_load vm insn
  else if op =? RISCV_OPC_MISC_MEM then riscv_emulate_opc_misc_mem vm insn
  else if op =? RISCV_OPC_OP_IMM then riscv_emulate_i_opc_imm x vm insn
  else if op =? RISCV_OPC_AUIPC then riscv_emulate_i_auipc x vm insn
  else if (op =? RISCV_OPC_OP_IMM32) && bool_decide (x = RV64) then riscv_emulate_i_opc_imm32 x vm insn
  else if op =? RISCV_OPC_STORE then riscv_emulate_i_opc_store x vm insn
  else if op =? RISCV_OPC_STORE_FP then riscv_emulate_f_opc_store vm insn
  else if op =? RISCV_OPC_AMO then riscv_emulate_a_opc_amo x vm insn
  else if op =? RISCV_OPC_OP then riscv_emulate_i_opc_op x vm insn
  else if op =? RISCV_OPC_LUI then riscv_emulate_i_lui x vm insn
  else if (op =? RISCV_OPC_OP32) && bool_decide (x = RV64) then riscv_emulate_i_opc_op32 x vm insn
  else if op =? RISCV_OPC_FMADD then riscv_emulate_f_fmadd x vm insn
  else if op =? RISCV_OPC_FMSUB then riscv_emulate_f_fmsub x vm insn
  else if op =? RISCV_OPC_FNMSUB then riscv_emulate_f_fnmsub x vm insn
  else if op =? RISCV_OPC_FNMADD then riscv_emulate_f_fnmadd x vm insn
  else if op =? RISCV_OPC_OP_FP then riscv_emulate_f_opc_op vm insn
  else if op =? RISCV_OPC_BRANCH then riscv_emulate_i_opc_branch x vm insn
  else if op =? RISCV_OPC_JALR then riscv_emulate_i_jalr x vm insn
  else if op =? RISCV_OPC_JAL then riscv_emulate_i_jal x vm insn
  else if op =? RISCV_OPC_SYSTEM then riscv_emulate_opc_system vm insn
  else riscv_illegal_insn vm insn.

(** [vm->registers\[RISCV_REG_PC\] += n]. *)
Definition advance_pc (n : Z) (vm : hart) : hart := set_reg RISCV_REG_PC (u64 (pc vm + n)) vm.

Definition riscv_emulate_insn (vm : hart) (insn : Z) : hart :=
  let op := insn .& 0x03 in
  if op =? 0x00 then advance_pc 2 (riscv_emulate_c_c0 x vm insn)
  else if op =? 0x01 then advance_pc 2 (riscv_emulate_c_c1 x vm insn)
  else if op =? 0x02 then advance_pc 2 (riscv_emulate_c_c2 x vm insn)
  else advance_pc 4 (riscv_emulate_i vm insn).

End Dispatch.

(** ** A build without floating point

    Without [USE_FPU] the floating-point opcodes are not in the dispatch switch. *)

Definition no_fpu : Fpu := {|
  riscv_emulate_f_fmadd := fun _ => riscv_illegal_insn;
  riscv_emulate_f_fmsub := fun _ => riscv_illegal_insn;
  riscv_emulate_f_fnmsub := fun _ => riscv_illegal_insn;
  riscv_emulate_f_fnmadd := fun _ => riscv_illegal_insn;
  riscv_emulate_f_opc_op := riscv_illegal_insn
|}.
