(* ===== verification/RiscvFpu.v ===== *)
(** * Floating-point instructions (src/cpu/riscv_fpu.h, riscv_fpu.c)

    The OP-FP instructions and the fused multiply-adds of the F, D and Zfa extensions over the
    library of [FpuLib].  The environment of the host is part of the hart.  They implement the
    interface [Fpu] of the dispatcher. *)
From S2P Require Import Prelude BitOps MemOps State CsrDefs Tlb Hart Csr Mmu Base Compressed Ieee FpuLib.
Local Open Scope fpu_scope.

(** A call of the library on the environment of the hart. *)
Definition run_fpu {A} (c : fpu A) (vm : hart) : A * hart :=
  let '(r, fe) := c (mk_fenv vm.(fenv_exceptions) vm.(fenv_rounding)) in
  (r, set_fenv_rounding fe.(fe_rm) (set_fenv_exceptions fe.(fe_exc) vm)).

(** ** Register access *)

Definition riscv_fpu_rm_is_valid (rm : Z) : bool := 1 <? u32 (6 - rm).

Definition riscv_view_s (vm : hart) (r : Z) : Z := fpu_unpack_f32_from_f64 (vm.(fpu_registers) r).
Definition riscv_read_s (vm : hart) (r : Z) : Z := fpu_nan_unbox_f32 (vm.(fpu_registers) r).
Definition riscv_emit_s (vm : hart) (r v : Z) : hart := riscv_fpu_set_dirty (set_fpu_reg r (fpu_nanbox_f32 v) vm).
Definition riscv_write_s (vm : hart) (r v : Z) : hart :=
  let '(nan, vm) := run_fpu (fpu_is_nan32 v) vm in
  riscv_emit_s vm r (if nan : bool then FPU_LIB_FP32_CANONICAL_NAN else v).

Definition riscv_view_d (vm : hart) (r : Z) : Z := vm.(fpu_registers) r.
Definition riscv_read_d (vm : hart) (r : Z) : Z := vm.(fpu_registers) r.
Definition riscv_emit_d (vm : hart) (r v : Z) : hart := riscv_fpu_set_dirty (set_fpu_reg r v vm).
Definition riscv_write_d (vm : hart) (r v : Z) : hart :=
  let '(nan, vm) := run_fpu (fpu_is_nan64 v) vm in
  riscv_emit_d vm r (if nan : bool then FPU_LIB_FP64_CANONICAL_NAN else v).

(** ** Rounding to nearest, ties away from zero *)

Section Rmm.
Context (F : fmt).

Local Abbreviation w := (1 + F.(eb) + F.(mb)).

(** [err] is the error of the result [n]. *)
Definition riscv_rmm_apply (n err : Z) : fpu Z :=
  if (wrap w (err .<< 1) =? 0) || negb ((n .>> (w - 1)) =? (err .>> (w - 1))) then fret n
  else
    let away := wrap w (n + 1) in
    do spacing := fpu_sub F away n in
    do twice := fpu_add F err err in
    fret (if twice =? spacing then away else n).

(** The fixup of a finite result, which leaves the flags as they were. *)
Definition rmm_isolated (n : Z) (c : fpu Z) : fpu Z :=
  if negb (fpu_is_finite F n) then fret n
  else do exc := get_exceptions in do r := c in set_exceptions exc ;; fret r.

Definition riscv_rmm_add (n a b : Z) : fpu Z := rmm_isolated n (do err := fpu_add_error F n a b in riscv_rmm_apply n err).

End Rmm.

Definition riscv_rmm_apply_f32 := riscv_rmm_apply F32.
Definition riscv_rmm_apply_f64 := riscv_rmm_apply F64.
Definition riscv_rmm_add_f32 := riscv_rmm_add F32.
Definition riscv_rmm_add_f64 := riscv_rmm_add F64.

Definition riscv_rmm_mul_exact_f32 (n a b : Z) : fpu Z :=
  let away := u32 (n + 1) in
  let half := 0x3FE0000000000000 in
  do dn := fpu_fcvt_f32_to_f64 n in
  do da := fpu_fcvt_f32_to_f64 a in
  do db := fpu_fcvt_f32_to_f64 b in
  do dab := fpu_mul64 da db in
  do daway := fpu_fcvt_f32_to_f64 away in
  do gap := fpu_sub64 daway dn in
  do hgap := fpu_mul64 gap half in
  do m := fpu_add64 dn hgap in
  do d := fpu_sub64 dab m in
  fret (if u64 (d .<< 1) =? 0 then away else n).

Definition riscv_rmm_mul_small_f64 (n a b : Z) : fpu Z :=
  let S := 0x5FF0000000000000 in
  do as_ := fpu_mul64 a S in
  do bs := fpu_mul64 b S in
  do ps := fpu_mul64 as_ bs in
  do pe := fpu_fma64 as_ bs (fpu_neg64 ps) in
  let away := u64 (n + 1) in
  do ns := fpu_mul64 n S in do ns := fpu_mul64 ns S in
  do gaps := fpu_sub64 away n in do gaps := fpu_mul64 gaps S in do gaps := fpu_mul64 gaps S in
  do dr := fpu_sub64 ps ns in
  do td := fpu_add64 dr dr in
  do tp := fpu_add64 pe pe in
  let ng := fpu_neg64 gaps in
  do vh := fpu_add64 td ng in
  do vl := fpu_add_error64 vh td ng in
  if negb (u64 (vl .<< 1) =? 0) then fret n
  else do v := fpu_add64 vh tp in fret (if u64 (v .<< 1) =? 0 then away else n).

Definition riscv_rmm_mul_f32 (n a b : Z) : fpu Z := rmm_isolated F32 n (riscv_rmm_mul_exact_f32 n a b).

Definition riscv_rmm_mul_f64 (n a b : Z) : fpu Z :=
  rmm_isolated F64 n
    (if 64 <=? ((n .>> 52) .& 0x7FF) then do err := fpu_mul_error64 n a b in riscv_rmm_apply_f64 n err
     else riscv_rmm_mul_small_f64 n a b).

Definition riscv_rmm_div_apply_f32 (n a b : Z) : fpu Z :=
  if nz (n .& 0x7F800000) then fret n
  else
    do exc := get_exceptions in
    do rho := fpu_fma32 (fpu_neg32 n) b a in
    let away := u32 (n + 1) in
    do gap := fpu_sub32 away n in
    do r1 := fpu_fcvt_f32_to_f64 rho in
    do r2 := fpu_fcvt_f32_to_f64 rho in
    do two_rho := fpu_add64 r1 r2 in
    do g := fpu_fcvt_f32_to_f64 gap in
    do b' := fpu_fcvt_f32_to_f64 b in
    do gap_b := fpu_mul64 g b' in
    set_exceptions exc ;;
    fret (if two_rho =? gap_b then away else n).

Definition riscv_rmm_div_apply_f64 (n a b : Z) : fpu Z :=
  if nz (n .& 0x7FF0000000000000) then fret n
  else
    do exc := get_exceptions in
    do rho := fpu_fma64 (fpu_neg64 n) b a in
    let away := u64 (n + 1) in
    do gap := fpu_sub64 away n in
    do scaled := fpu_mul64 rho 0x7FE0000000000000 in
    do scaled := fpu_mul64 scaled 0x4330000000000000 in
    let target := if nz (gap .>> 63) then fpu_neg64 b else b in
    set_exceptions exc ;;
    fret (if scaled =? target then away else n).

(** ** Fused multiply-add *)

Definition riscv_fma_fixup_uf32 (r a b c eff : Z) : fpu () :=
  if negb ((r .& 0x7FFFFFFF) =? 0x00800000) then fret ()
  else
    do exc := get_exceptions in
    if negb (nz (exc .& FPU_LIB_FLAG_NX)) then fret ()
    else
      do a' := fpu_fcvt_f32_to_f64 a in
      do b' := fpu_fcvt_f32_to_f64 b in
      do ab := fpu_mul64 a' b' in
      do c' := fpu_fcvt_f32_to_f64 c in
      do e := fpu_add64 ab c' in
      do scaled := fpu_mul64 e 0x47D0000000000000 in
      do host := get_rounding_mode in
      set_rounding_mode (if eff =? 0x04 then FPU_LIB_ROUND_NE else eff) ;;
      do rn := fpu_fcvt_f64_to_f32 scaled in
      set_rounding_mode host ;;
      let tiny := (rn .& 0x7FFFFFFF) <? 0x3F800000 in
      set_exceptions (if tiny then exc .| FPU_LIB_FLAG_UF else exc .& u32 (Z.lnot FPU_LIB_FLAG_UF)).

Definition riscv_fma_fixup_uf64 (r a b c eff : Z) : fpu () :=
  if negb ((r .& 0x7FFFFFFFFFFFFFFF) =? 0x0010000000000000) then fret ()
  else
    do exc := get_exceptions in
    if negb (nz (exc .& FPU_LIB_FLAG_NX)) then fret ()
    else
      let S := 0x4C70000000000000 in
      do host := get_rounding_mode in
      set_rounding_mode (if eff =? 0x04 then FPU_LIB_ROUND_NE else eff) ;;
      do as_ := fpu_mul64 a S in
      do cs := fpu_mul64 c S in
      do rs := fpu_fma64 as_ b cs in
      set_rounding_mode host ;;
      let tiny := (rs .& 0x7FFFFFFFFFFFFFFF) <? 0x0C90000000000000 in
      set_exceptions (if tiny then exc .| FPU_LIB_FLAG_UF else exc .& u32 (Z.lnot FPU_LIB_FLAG_UF)).

Definition riscv_rmm_fma_apply_f32 (n a b c : Z) : fpu Z :=
  rmm_isolated F32 n (
    let away := u32 (n + 1) in
    do a' := fpu_fcvt_f32_to_f64 a in
    do b' := fpu_fcvt_f32_to_f64 b in
    do dab := fpu_mul64 a' b' in
    do dc := fpu_fcvt_f32_to_f64 c in
    do s1 := fpu_add64 dab dc in
    do s1e := fpu_add_error64 s1 dab dc in
    do dn := fpu_fcvt_f32_to_f64 n in
    let half := 0x3FE0000000000000 in
    do daway := fpu_fcvt_f32_to_f64 away in
    do gap := fpu_sub64 daway dn in
    do hgap := fpu_mul64 gap half in
    do m := fpu_add64 dn hgap in
    do d := fpu_sub64 s1 m in
    do resid := fpu_add64 d s1e in
    fret (if u64 (resid .<< 1) =? 0 then away else n)).

Definition riscv_rmm_fma_apply_f64 (n a b c : Z) : fpu Z :=
  rmm_isolated F64 n (
    do p := fpu_mul64 a b in
    do pe := fpu_fma64 a b (fpu_neg64 p) in
    do a1 := fpu_add64 c pe in
    do a2 := fpu_add_error64 a1 c pe in
    do b1 := fpu_add64 p a1 in
    do b2 := fpu_add_error64 b1 p a1 in
    do d := fpu_sub64 b1 n in
    do g := fpu_add64 d b2 in
    do r2 := fpu_add64 g a2 in
    do e := fpu_sub64 r2 g in
    do r3 := fpu_sub64 a2 e in
    if u64 (r3 .<< 1) =? 0 then riscv_rmm_apply_f64 n r2 else fret n).

(** A computation in another rounding mode of the host. *)
Definition in_mode {A} (mode : Z) (c : fpu A) : fpu A :=
  do host := get_rounding_mode in set_rounding_mode mode ;; do r := c in set_rounding_mode host ;; fret r.

(** [frm] is the field of [fcsr]. *)
Definition riscv_fma_round_f32 (frm rm a b c : Z) : fpu Z :=
  let eff := if rm =? 0x07 then frm else rm in
  do r := (if eff =? 0x04 then in_mode FPU_LIB_ROUND_NE (do n := fpu_fma32 a b c in riscv_rmm_fma_apply_f32 n a b c)
           else if negb (rm =? 0x07) && negb (eff =? frm) then in_mode eff (fpu_fma32 a b c)
           else fpu_fma32 a b c) in
  riscv_fma_fixup_uf32 r a b c eff ;; fret r.

Definition riscv_fma_round_f64 (frm rm a b c : Z) : fpu Z :=
  let eff := if rm =? 0x07 then frm else rm in
  do r := (if eff =? 0x04 then in_mode FPU_LIB_ROUND_NE (do n := fpu_fma64 a b c in riscv_rmm_fma_apply_f64 n a b c)
           else if negb (rm =? 0x07) && negb (eff =? frm) then in_mode eff (fpu_fma64 a b c)
           else fpu_fma64 a b c) in
  riscv_fma_fixup_uf64 r a b c eff ;; fret r.

Definition fcsr_frm (vm : hart) : Z := vm.(csr).(csr_fcsr) .>> 5.

(** The four instructions negate the product or the addend. *)
Definition emulate_fma (np nc : bool) (vm : hart) (insn : Z) : hart :=
  let rds := bit_ext_u32 insn 7 5 in
  let rm := bit_ext_u32 insn 12 3 in
  let rs1 := bit_ext_u32 insn 15 5 in
  let rs2 := bit_ext_u32 insn 20 5 in
  let rs3 := insn .>> 27 in
  if riscv_fpu_is_enabled vm && riscv_fpu_rm_is_valid rm then
    let op := bit_ext_u32 insn 25 2 in
    if op =? 0x0 then
      let a := riscv_read_s vm rs1 in
      let c := riscv_read_s vm rs3 in
      let '(r, vm) := run_fpu (riscv_fma_round_f32 (fcsr_frm vm) rm (if np then fpu_neg32 a else a) (riscv_read_s vm rs2) (if nc then fpu_neg32 c else c)) vm in
      riscv_write_s vm rds r
    else if op =? 0x1 then
      let a := riscv_view_d vm rs1 in
      let c := riscv_view_d vm rs3 in
      let '(r, vm) := run_fpu (riscv_fma_round_f64 (fcsr_frm vm) rm (if np then fpu_neg64 a else a) (riscv_view_d vm rs2) (if nc then fpu_neg64 c else c)) vm in
      riscv_write_d vm rds r
    else riscv_illegal_insn vm insn
  else riscv_illegal_insn vm insn.

Definition emulate_fmadd := emulate_fma false false.
Definition emulate_fmsub := emulate_fma false true.
Definition emulate_fnmsub := emulate_fma true false.
Definition emulate_fnmadd := emulate_fma true true.

(** ** OP-FP *)

Definition riscv_fli_table : list Z :=
  [0xBF800000; 0x00800000; 0x37800000; 0x38000000; 0x3B800000; 0x3C000000; 0x3D800000; 0x3E000000;
   0x3E800000; 0x3EA00000; 0x3EC00000; 0x3EE00000; 0x3F000000; 0x3F200000; 0x3F400000; 0x3F600000;
   0x3F800000; 0x3FA00000; 0x3FC00000; 0x3FE00000; 0x40000000; 0x40200000; 0x40400000; 0x40800000;
   0x41000000; 0x41800000; 0x43000000; 0x43800000; 0x47000000; 0x47800000; 0x7F800000; 0x7FC00000].

(** The cases of an instruction with a rounding mode: the invalid modes have none. *)
Definition RISCV_FPU_GEN_RM_CASES (sel insn : Z) : bool :=
  existsb (fun rm => sel =? insn .| rm) [0; 0x1000; 0x2000; 0x3000; 0x4000; 0x7000].

(** A result of the library in a register. *)
Definition fwrite_s (vm : hart) (rd : Z) (c : fpu Z) : hart := let '(v, vm) := run_fpu c vm in riscv_write_s vm rd v.
Definition fwrite_d (vm : hart) (rd : Z) (c : fpu Z) : hart := let '(v, vm) := run_fpu c vm in riscv_write_d vm rd v.
Definition femit_s (vm : hart) (rd : Z) (c : fpu Z) : hart := let '(v, vm) := run_fpu c vm in riscv_emit_s vm rd v.
Definition femit_d (vm : hart) (rd : Z) (c : fpu Z) : hart := let '(v, vm) := run_fpu c vm in riscv_emit_d vm rd v.
Definition fwrite_x (vm : hart) (rd : Z) (ty : Z -> Z) (c : fpu Z) : hart :=
  let '(v, vm) := run_fpu c vm in riscv_write_reg RV64 vm rd (ty v).
Definition fwrite_bool (vm : hart) (rd : Z) (c : fpu bool) : hart :=
  let '(v, vm) := run_fpu c vm in riscv_write_reg RV64 vm rd (if v : bool then 1 else 0).

Section Op.
Context (vm : hart) (insn : Z).

Local Abbreviation rds := (bit_ext_u32 insn 7 5).
Local Abbreviation rm := (bit_ext_u32 insn 12 3).
Local Abbreviation rs1 := (bit_ext_u32 insn 15 5).
Local Abbreviation rs2 := (bit_ext_u32 insn 20 5).
Local Abbreviation sel := (insn .& 0xFE007000).

(** The groups of the switch; [None] where the switch has no case or leaves it by [break]. *)
Definition f_opc_compute (rmm : bool) : option hart :=
  let arith_s (op : Z -> Z -> fpu Z) (fix_ : Z -> Z -> Z -> fpu Z) :=
    let a := riscv_read_s vm rs1 in let b := riscv_read_s vm rs2 in
    Some (fwrite_s vm rds (do n := op a b in if rmm then fix_ n a b else fret n)) in
  let arith_d (op : Z -> Z -> fpu Z) (fix_ : Z -> Z -> Z -> fpu Z) :=
    let a := riscv_view_d vm rs1 in let b := riscv_view_d vm rs2 in
    Some (fwrite_d vm rds (do n := op a b in if rmm then fix_ n a b else fret n)) in
  if RISCV_FPU_GEN_RM_CASES sel 0x00000000 then arith_s fpu_add32 riscv_rmm_add_f32
  else if RISCV_FPU_GEN_RM_CASES sel 0x02000000 then arith_d fpu_add64 riscv_rmm_add_f64
  else if RISCV_FPU_GEN_RM_CASES sel 0x08000000 then arith_s fpu_sub32 (fun n a b => riscv_rmm_add_f32 n a (fpu_neg32 b))
  else if RISCV_FPU_GEN_RM_CASES sel 0x0A000000 then arith_d fpu_sub64 (fun n a b => riscv_rmm_add_f64 n a (fpu_neg64 b))
  else if RISCV_FPU_GEN_RM_CASES sel 0x10000000 then arith_s fpu_mul32 riscv_rmm_mul_f32
  else if RISCV_FPU_GEN_RM_CASES sel 0x12000000 then arith_d fpu_mul64 riscv_rmm_mul_f64
  else if RISCV_FPU_GEN_RM_CASES sel 0x18000000 then arith_s fpu_div32 riscv_rmm_div_apply_f32
  else if RISCV_FPU_GEN_RM_CASES sel 0x1A000000 then arith_d fpu_div64 riscv_rmm_div_apply_f64
  else if RISCV_FPU_GEN_RM_CASES sel 0x58000000 then if rs2 =? 0 then Some (fwrite_s vm rds (fpu_sqrt32 (riscv_read_s vm rs1))) else None
  else if RISCV_FPU_GEN_RM_CASES sel 0x5A000000 then if rs2 =? 0 then Some (fwrite_d vm rds (fpu_sqrt64 (riscv_view_d vm rs1))) else None
  else None.

Definition f_opc_convert : option hart :=
  let s := riscv_read_s vm rs1 in
  let d := riscv_view_d vm rs1 in
  let x := riscv_read_reg RV64 vm rs1 in
  if RISCV_FPU_GEN_RM_CASES sel 0x40000000 then
    if rs2 =? 0x01 then Some (fwrite_s vm rds (fpu_fcvt_f64_to_f32 d))
    else if (rs2 =? 0x04) || (rs2 =? 0x05) then Some (femit_s vm rds (do i := fpu_round_f32_to_i64 s rm in fpu_fcvt_i64_to_f32 i))
    else None
  else if RISCV_FPU_GEN_RM_CASES sel 0x42000000 then
    if rs2 =? 0x00 then Some (fwrite_d vm rds (fpu_fcvt_f32_to_f64 s))
    else if (rs2 =? 0x04) || (rs2 =? 0x05) then Some (femit_d vm rds (do i := fpu_round_f64_to_i64 d rm in fpu_fcvt_i64_to_f64 i))
    else None
  else if RISCV_FPU_GEN_RM_CASES sel 0xC0000000 then
    if rs2 =? 0x00 then Some (fwrite_x vm rds s32 (fpu_round_f32_to_i32 s rm))
    else if rs2 =? 0x01 then Some (fwrite_x vm rds s32 (fpu_round_f32_to_u32 s rm))
    else if (rs2 =? 0x02) && vm.(rv64) then Some (fwrite_x vm rds s64 (fpu_round_f32_to_i64 s rm))
    else if (rs2 =? 0x03) && vm.(rv64) then Some (fwrite_x vm rds s64 (fpu_round_f32_to_u64 s rm))
    else None
  else if RISCV_FPU_GEN_RM_CASES sel 0xC2000000 then
    if rs2 =? 0x00 then Some (fwrite_x vm rds s32 (fpu_round_f64_to_i32 d rm))
    else if rs2 =? 0x01 then Some (fwrite_x vm rds s32 (fpu_round_f64_to_u32 d rm))
    else if (rs2 =? 0x02) && vm.(rv64) then Some (fwrite_x vm rds s64 (fpu_round_f64_to_i64 d rm))
    else if (rs2 =? 0x03) && vm.(rv64) then Some (fwrite_x vm rds s64 (fpu_round_f64_to_u64 d rm))
    else if (rs2 =? 0x08) && (rm =? 0x01) then Some (riscv_illegal_insn (fwrite_x vm rds s32 (fpu_fcvt_f64_to_i32 d)) insn)
    else None
  else if RISCV_FPU_GEN_RM_CASES sel 0xD0000000 then
    if rs2 =? 0x00 then Some (femit_s vm rds (fpu_fcvt_i32_to_f32 (s32 x)))
    else if rs2 =? 0x01 then Some (femit_s vm rds (fpu_fcvt_u32_to_f32 (u32 x)))
    else if (rs2 =? 0x02) && vm.(rv64) then Some (femit_s vm rds (fpu_fcvt_i64_to_f32 (s64 x)))
    else if (rs2 =? 0x03) && vm.(rv64) then Some (femit_s vm rds (fpu_fcvt_u64_to_f32 x))
    else None
  else if RISCV_FPU_GEN_RM_CASES sel 0xD2000000 then
    if rs2 =? 0x00 then Some (femit_d vm rds (fpu_fcvt_i32_to_f64 (s32 x)))
    else if rs2 =? 0x01 then Some (femit_d vm rds (fpu_fcvt_u32_to_f64 (u32 x)))
    else if (rs2 =? 0x02) && vm.(rv64) then Some (femit_d vm rds (fpu_round_i64_to_f64 (s64 x) rm))
    else if (rs2 =? 0x03) && vm.(rv64) then Some (femit_d vm rds (fpu_fcvt_u64_to_f64 x))
    else None
  else None.

Definition f_opc_sign_compare : option hart :=
  let s1 := riscv_read_s vm rs1 in let s2 := riscv_read_s vm rs2 in
  let d1 := riscv_view_d vm rs1 in let d2 := riscv_view_d vm rs2 in
  if sel =? 0x20000000 then Some (riscv_emit_s vm rds (fpu_fsgnj32 s1 s2))
  else if sel =? 0x20001000 then Some (riscv_emit_s vm rds (fpu_fsgnjn32 s1 s2))
  else if sel =? 0x20002000 then Some (riscv_emit_s vm rds (fpu_fsgnjx32 s1 s2))
  else if sel =? 0x22000000 then Some (riscv_emit_d vm rds (fpu_fsgnj64 d1 d2))
  else if sel =? 0x22001000 then Some (riscv_emit_d vm rds (fpu_fsgnjn64 d1 d2))
  else if sel =? 0x22002000 then Some (riscv_emit_d vm rds (fpu_fsgnjx64 d1 d2))
  else if sel =? 0x28000000 then Some (femit_s vm rds (fpu_min32 s1 s2))
  else if sel =? 0x28001000 then Some (femit_s vm rds (fpu_max32 s1 s2))
  else if sel =? 0x28002000 then Some (fwrite_s vm rds (fpu_min32 s1 s2))
  else if sel =? 0x28003000 then Some (fwrite_s vm rds (fpu_max32 s1 s2))
  else if sel =? 0x2A000000 then Some (femit_d vm rds (fpu_min64 d1 d2))
  else if sel =? 0x2A001000 then Some (femit_d vm rds (fpu_max64 d1 d2))
  else if sel =? 0x2A002000 then Some (fwrite_d vm rds (fpu_min64 d1 d2))
  else if sel =? 0x2A003000 then Some (fwrite_d vm rds (fpu_max64 d1 d2))
  else if sel =? 0xA0000000 then Some (fwrite_bool vm rds (fpu_is_fle32_sig s1 s2))
  else if sel =? 0xA0001000 then Some (fwrite_bool vm rds (fpu_is_flt32_sig s1 s2))
  else if sel =? 0xA0002000 then Some (fwrite_bool vm rds (fpu_is_equal32_quiet s1 s2))
  else if sel =? 0xA0004000 then Some (fwrite_bool vm rds (fpu_is_fle32_quiet s1 s2))
  else if sel =? 0xA0005000 then Some (fwrite_bool vm rds (fpu_is_flt32_quiet s1 s2))
  else if sel =? 0xA2000000 then Some (fwrite_bool vm rds (fpu_is_fle64_sig d1 d2))
  else if sel =? 0xA2001000 then Some (fwrite_bool vm rds (fpu_is_flt64_sig d1 d2))
  else if sel =? 0xA2002000 then Some (fwrite_bool vm rds (fpu_is_equal64_quiet d1 d2))
  else if sel =? 0xA2004000 then Some (fwrite_bool vm rds (fpu_is_fle64_quiet d1 d2))
  else if sel =? 0xA2005000 then Some (fwrite_bool vm rds (fpu_is_flt64_quiet d1 d2))
  else None.

Definition f_opc_bitcast : option hart :=
  let d := riscv_view_d vm rs1 in
  let x := riscv_read_reg RV64 vm rs1 in
  let fli := nth (Z.to_nat rs1) riscv_fli_table 0 in
  if sel =? 0xE0000000 then if rs2 =? 0 then Some (riscv_write_reg RV64 vm rds (s32 (riscv_view_s vm rs1))) else None
  else if sel =? 0xE0001000 then if rs2 =? 0 then Some (riscv_write_reg RV64 vm rds (1 .<< fpu_fclass32 (riscv_read_s vm rs1))) else None
  else if sel =? 0xE2000000 then
    if vm.(rv64) && (rs2 =? 0) then Some (riscv_write_reg RV64 vm rds (s64 d))
    else if rs2 =? 1 then Some (riscv_write_reg RV64 vm rds (s32 (d .>> 32)))
    else None
  else if sel =? 0xE2001000 then if rs2 =? 0 then Some (riscv_write_reg RV64 vm rds (1 .<< fpu_fclass64 d)) else None
  else if sel =? 0xF0000000 then
    if rs2 =? 0x00 then Some (riscv_emit_s vm rds (u32 x)) else if rs2 =? 0x01 then Some (riscv_emit_s vm rds fli) else None
  else if sel =? 0xF2000000 then
    if vm.(rv64) then
      if rs2 =? 0x00 then Some (riscv_emit_d vm rds x)
      else if rs2 =? 0x01 then
        if rs1 =? 1 then Some (riscv_emit_d vm rds 0x0010000000000000) else Some (femit_d vm rds (fpu_fcvt_f32_to_f64 fli))
      else None
    else None
  else None.

Definition riscv_emulate_f_opc_op_impl (rmm : bool) : hart :=
  if riscv_fpu_is_enabled vm
  then default (riscv_illegal_insn vm insn) (f_opc_compute rmm ∪ f_opc_convert ∪ f_opc_sign_compare ∪ f_opc_bitcast)
  else riscv_illegal_insn vm insn.

End Op.

Definition emulate_f_opc_op (vm : hart) (insn : Z) : hart :=
  let rm := bit_ext_u32 insn 12 3 in
  let frm := fcsr_frm vm in
  let eff := if rm =? 0x07 then frm else rm in
  let rmm := eff =? 0x04 in
  if rmm || (negb (rm =? 0x07) && negb (eff =? frm)) then
    let host := vm.(fenv_rounding) in
    let '(_, vm) := run_fpu (set_rounding_mode (if rmm then FPU_LIB_ROUND_NE else eff)) vm in
    let vm := riscv_emulate_f_opc_op_impl vm insn rmm in
    snd (run_fpu (set_rounding_mode host) vm)
  else riscv_emulate_f_opc_op_impl vm insn false.

(** The handlers of a build with floating point. *)
Definition rvvm_fpu : Fpu := {|
  riscv_emulate_f_fmadd := fun _ => emulate_fmadd;
  riscv_emulate_f_fmsub := fun _ => emulate_fmsub;
  riscv_emulate_f_fnmsub := fun _ => emulate_fnmsub;
  riscv_emulate_f_fnmadd := fun _ => emulate_fnmadd;
  riscv_emulate_f_opc_op := emulate_f_opc_op
|}.
