(* ===== verification/IsaSpec.v ===== *)
(** * Reference semantics of the integer instruction set

    What the unprivileged architecture says of RV32I and RV64I with M, Zba, Zbb, Zbc, Zbs,
    Zbkb, Zbkx and Zicond, written from the encoding tables and with arithmetic on integers:
    operations are given by [funct7] and [funct3], results are taken modulo 2^XLEN, shifts
    are multiplications and divisions, permutations are given bit by bit.  The emulator is
    compared with it in [BaseProps]. *)

From S2P Require Import Prelude BitOps MemOps State Tlb Hart Mmu MmuProps Base.

(** ** Operations on two operands *)

Inductive rop :=
| ADD | SUB | SLL | SLT | SLTU | XOR | SRL | SRA | OR | AND
| MUL | MULH | MULHSU | MULHU | DIV | DIVU | REM | REMU
| PACK | PACKH | CLMUL | CLMULR | CLMULH | MIN | MINU | MAX | MAXU
| XNOR | ORN | ANDN | ROL | ROR | CZERO_EQZ | CZERO_NEZ | SH1ADD | SH2ADD | SH3ADD
| XPERM4 | XPERM8 | BSET | BCLR | BEXT | BINV.

#[export] Instance rop_eq_dec : EqDecision rop.
Proof. solve_decision. Defined.

(** The value of an operation on unsigned XLEN-bit operands, as an integer. *)
Definition rop_eval (x : xlen) (o : rop) (a b : Z) : Z :=
  let X := XLEN x in
  let s := signed X in
  let n := b mod X in
  match o with
  | ADD => a + b
  | SUB => a - b
  | SLL => a * 2 ^ n
  | SLT => Z.b2z (s a <? s b)
  | SLTU => Z.b2z (a <? b)
  | XOR => Z.lxor a b
  | SRL => a / 2 ^ n
  | SRA => s a / 2 ^ n
  | OR => Z.lor a b
  | AND => Z.land a b
  | MUL => a * b
  | MULH => (s a * s b) / 2 ^ X
  | MULHSU => (s a * b) / 2 ^ X
  | MULHU => (a * b) / 2 ^ X
  | DIV => if b =? 0 then -1 else Z.quot (s a) (s b)
  | DIVU => if b =? 0 then -1 else a / b
  | REM => if b =? 0 then s a else Z.rem (s a) (s b)
  | REMU => if b =? 0 then a else a mod b
  | PACK => a mod 2 ^ (X / 2) + 2 ^ (X / 2) * (b mod 2 ^ (X / 2))
  | PACKH => a mod 256 + 256 * (b mod 256)
  | CLMUL => clmul_ref (Z.to_nat X) a b
  | CLMULR => clmul_ref (Z.to_nat X) a b / 2 ^ (X - 1)
  | CLMULH => clmul_ref (Z.to_nat X) a b / 2 ^ X
  | MIN => Z.min (s a) (s b)
  | MINU => Z.min a b
  | MAX => Z.max (s a) (s b)
  | MAXU => Z.max a b
  | XNOR => Z.lnot (Z.lxor a b)
  | ORN => Z.lor a (Z.lnot b)
  | ANDN => Z.ldiff a b
  | ROL => bit_perm X (fun i => (i - n) mod X) a
  | ROR => bit_perm X (fun i => (i + n) mod X) a
  | CZERO_EQZ => if b =? 0 then 0 else a
  | CZERO_NEZ => if b =? 0 then a else 0
  | SH1ADD => b + 2 * a
  | SH2ADD => b + 4 * a
  | SH3ADD => b + 8 * a
  | XPERM4 => bit_perm X (fun i => 4 * (b / 2 ^ (4 * (i / 4)) mod 16) + i mod 4) a
  | XPERM8 => bit_perm X (fun i => 8 * (b / 2 ^ (8 * (i / 8)) mod 256) + i mod 8) a
  | BSET => Z.lor a (2 ^ n)
  | BCLR => Z.ldiff a (2 ^ n)
  | BEXT => a / 2 ^ n mod 2
  | BINV => Z.lxor a (2 ^ n)
  end.

(** [funct7] and [funct3] of the OP opcode. *)
Definition rop_table : list (rop * Z * Z) :=
  [(ADD, 0x00, 0); (SUB, 0x20, 0); (SLL, 0x00, 1); (SLT, 0x00, 2); (SLTU, 0x00, 3);
   (XOR, 0x00, 4); (SRL, 0x00, 5); (SRA, 0x20, 5); (OR, 0x00, 6); (AND, 0x00, 7);
   (MUL, 0x01, 0); (MULH, 0x01, 1); (MULHSU, 0x01, 2); (MULHU, 0x01, 3);
   (DIV, 0x01, 4); (DIVU, 0x01, 5); (REM, 0x01, 6); (REMU, 0x01, 7);
   (PACK, 0x04, 4); (PACKH, 0x04, 7); (CLMUL, 0x05, 1); (CLMULR, 0x05, 2); (CLMULH, 0x05, 3);
   (MIN, 0x05, 4); (MINU, 0x05, 5); (MAX, 0x05, 6); (MAXU, 0x05, 7);
   (XNOR, 0x20, 4); (ORN, 0x20, 6); (ANDN, 0x20, 7); (ROL, 0x30, 1); (ROR, 0x30, 5);
   (CZERO_EQZ, 0x07, 5); (CZERO_NEZ, 0x07, 7);
   (SH1ADD, 0x10, 2); (SH2ADD, 0x10, 4); (SH3ADD, 0x10, 6);
   (XPERM4, 0x14, 2); (XPERM8, 0x14, 4);
   (BSET, 0x14, 1); (BCLR, 0x24, 1); (BEXT, 0x24, 5); (BINV, 0x34, 1)].

(** ** Operations on one operand *)

Inductive unop := CLZ | CTZ | CPOP | SEXT_B | SEXT_H | ORC_B | REV8 | BREV8 | ZIP | UNZIP.

Definition unop_eval (x : xlen) (o : unop) (a : Z) : Z :=
  let X := XLEN x in
  let n := Z.to_nat (X / 8) in
  match o with
  | CLZ => if a =? 0 then X else X - 1 - Z.log2 a
  | CTZ => if a =? 0 then X else Z.log2 (Z.land a (- a))
  | CPOP => foldr (fun i acc => Z.b2z (Z.testbit a i) + acc) 0 (seqZ 0 X)
  | SEXT_B => signed 8 a
  | SEXT_H => signed 16 a
  | ORC_B => le_combine (map (fun b => if b =? 0 then 0 else 255) (le_split n a))
  | REV8 => le_combine (rev (le_split n a))
  | BREV8 => bit_perm X (fun i => 8 * (i / 8) + (7 - i mod 8)) a
  | ZIP => bit_perm X zip_perm a
  | UNZIP => bit_perm X unzip_perm a
  end.

(** [funct3] and the 12-bit immediate of the OP-IMM opcode. *)
Definition unop_table (x : xlen) : list (unop * Z * Z) :=
  [(CLZ, 1, 0x600); (CTZ, 1, 0x601); (CPOP, 1, 0x602); (SEXT_B, 1, 0x604); (SEXT_H, 1, 0x605);
   (ORC_B, 5, 0x287); (BREV8, 5, 0x687); (REV8, 5, match x with RV64 => 0x6B8 | RV32 => 0x698 end)]
  ++ match x with RV32 => [(ZIP, 1, 0x08F); (UNZIP, 5, 0x08F)] | RV64 => [] end.

(** ** Word operations of RV64 *)

Inductive wop :=
| W (o : rop)       (* the RV32 operation on the low words, sign-extended *)
| ADD_UW (n : Z)    (* rs2 + zext(rs1) * 2^n *).

Definition wop_eval (o : wop) (a b : Z) : Z :=
  match o with
  | W o => signed 32 (rop_eval RV32 o (a mod 2 ^ 32) (b mod 2 ^ 32))
  | ADD_UW n => b + a mod 2 ^ 32 * 2 ^ n
  end.

Definition wop_table : list (wop * Z * Z) :=
  [(W ADD, 0x00, 0); (W SUB, 0x20, 0); (W SLL, 0x00, 1); (W SRL, 0x00, 5); (W SRA, 0x20, 5);
   (W MUL, 0x01, 0); (W DIV, 0x01, 4); (W DIVU, 0x01, 5); (W REM, 0x01, 6); (W REMU, 0x01, 7);
   (W PACK, 0x04, 4); (W ROL, 0x30, 1); (W ROR, 0x30, 5);
   (ADD_UW 0, 0x04, 0); (ADD_UW 1, 0x10, 2); (ADD_UW 2, 0x10, 4); (ADD_UW 3, 0x10, 6)].

(** ** Instructions *)

Inductive bop := BEQ | BNE | BLT | BGE | BLTU | BGEU.
Inductive lop := LB | LH | LW | LD | LBU | LHU | LWU.
Inductive sop := SB | SH | SW | SD.

Inductive instr :=
| Lui (rd imm : Z)
| Auipc (rd imm : Z)
| Jal (rd off : Z)
| Jalr (rd rs1 off : Z)
| Branch (o : bop) (rs1 rs2 off : Z)
| Load (o : lop) (rd rs1 off : Z)
| Store (o : sop) (rs1 rs2 off : Z)
| OpImm (o : rop) (rd rs1 imm : Z)
| Un (o : unop) (rd rs1 : Z)
| Op (o : rop) (rd rs1 rs2 : Z)
| OpImmW (o : rop) (rd rs1 imm : Z)
| UnW (o : unop) (rd rs1 : Z)
| SlliUw (rd rs1 shamt : Z)
| OpW (o : wop) (rd rs1 rs2 : Z).

(** ** Encodings *)

Definition f_opcode (insn : Z) : Z := insn mod 2 ^ 7.
Definition f_rd (insn : Z) : Z := insn / 2 ^ 7 mod 32.
Definition f_funct3 (insn : Z) : Z := insn / 2 ^ 12 mod 8.
Definition f_rs1 (insn : Z) : Z := insn / 2 ^ 15 mod 32.
Definition f_rs2 (insn : Z) : Z := insn / 2 ^ 20 mod 32.
Definition f_funct7 (insn : Z) : Z := insn / 2 ^ 25.
Definition f_imm12 (insn : Z) : Z := insn / 2 ^ 20.

(** The immediates of the I, S, B, U and J formats: where bit [i] of the immediate is in the
    instruction ([-1]: it is zero). *)
Definition imm_i (insn : Z) : Z := signed 12 (f_imm12 insn).
Definition imm_s (insn : Z) : Z := signed 12 (bit_perm 12 (fun i => if i <? 5 then i + 7 else i + 20) insn).
Definition imm_b (insn : Z) : Z :=
  signed 13 (bit_perm 13
    (fun i => if i <? 1 then -1 else if i <? 5 then i + 7 else if i <? 11 then i + 20
              else if i <? 12 then 7 else 31) insn).
Definition imm_u (insn : Z) : Z := signed 32 (bit_perm 32 (fun i => if i <? 12 then -1 else i) insn).
Definition imm_j (insn : Z) : Z :=
  signed 21 (bit_perm 21
    (fun i => if i <? 1 then -1 else if i <? 11 then i + 20 else if i <? 12 then 20
              else if i <? 20 then i else 31) insn).

(** First entry of a table with the given pair of keys. *)
Fixpoint lookup2 {A} (l : list (A * Z * Z)) (k1 k2 : Z) : option A :=
  match l with
  | [] => None
  | (a, j1, j2) :: l => if (k1 =? j1) && (k2 =? j2) then Some a else lookup2 l k1 k2
  end.

Fixpoint lookup1 {A} (l : list (A * Z)) (k : Z) : option A :=
  match l with
  | [] => None
  | (a, j) :: l => if k =? j then Some a else lookup1 l k
  end.

Definition load_table (x : xlen) : list (lop * Z) :=
  [(LB, 0); (LH, 1); (LW, 2); (LBU, 4); (LHU, 5)]
  ++ match x with RV64 => [(LD, 3); (LWU, 6)] | RV32 => [] end.
Definition store_table (x : xlen) : list (sop * Z) :=
  [(SB, 0); (SH, 1); (SW, 2)] ++ match x with RV64 => [(SD, 3)] | RV32 => [] end.
Definition branch_table : list (bop * Z) :=
  [(BEQ, 0); (BNE, 1); (BLT, 4); (BGE, 5); (BLTU, 6); (BGEU, 7)].

(** OP-IMM with a 12-bit immediate, by [funct3]. *)
Definition opimm_table : list (rop * Z) := [(ADD, 0); (SLT, 2); (SLTU, 3); (XOR, 4); (OR, 6); (AND, 7)].

(** OP-IMM with a shift amount, by [funct3] and the bits above the shift amount. *)
Definition shift_table : list (rop * Z * Z) :=
  [(SLL, 1, 0x00); (SRL, 5, 0x00); (SRA, 5, 0x20); (BSET, 1, 0x14); (BCLR, 1, 0x24);
   (BINV, 1, 0x34); (BEXT, 5, 0x24); (ROR, 5, 0x30)].

(** [imm\[11:6\]] (RV64) or [imm\[11:5\]] (RV32) as a [funct7]. *)
Definition shift_funct7 (x : xlen) (insn : Z) : Z :=
  match x with RV64 => insn / 2 ^ 26 * 2 | RV32 => insn / 2 ^ 25 end.

Definition decode_opimm (x : xlen) (insn : Z) : option instr :=
  let rd := f_rd insn in
  let rs1 := f_rs1 insn in
  match lookup1 opimm_table (f_funct3 insn) with
  | Some o => Some (OpImm o rd rs1 (imm_i insn mod 2 ^ XLEN x))
  | None =>
      match lookup2 shift_table (f_funct3 insn) (shift_funct7 x insn) with
      | Some o => Some (OpImm o rd rs1 (f_imm12 insn mod XLEN x))
      | None =>
          match lookup2 (unop_table x) (f_funct3 insn) (f_imm12 insn) with
          | Some o => Some (Un o rd rs1)
          | None => None
          end
      end
  end.

Definition shiftw_table : list (rop * Z * Z) :=
  [(SLL, 1, 0x00); (SRL, 5, 0x00); (SRA, 5, 0x20); (ROR, 5, 0x30)].
Definition unopw_table : list (unop * Z * Z) := [(CLZ, 1, 0x600); (CTZ, 1, 0x601); (CPOP, 1, 0x602)].

Definition decode_opimmw (insn : Z) : option instr :=
  let rd := f_rd insn in
  let rs1 := f_rs1 insn in
  if f_funct3 insn =? 0 then Some (OpImmW ADD rd rs1 (imm_i insn mod 2 ^ 64))
  else if (f_funct3 insn =? 1) && (insn / 2 ^ 26 =? 0x02) then Some (SlliUw rd rs1 (f_imm12 insn mod 64))
  else
    match lookup2 shiftw_table (f_funct3 insn) (f_funct7 insn) with
    | Some o => Some (OpImmW o rd rs1 (f_rs2 insn))
    | None =>
        match lookup2 unopw_table (f_funct3 insn) (f_imm12 insn) with
        | Some o => Some (UnW o rd rs1)
        | None => None
        end
    end.

Definition decode (x : xlen) (insn : Z) : option instr :=
  let rd := f_rd insn in
  let rs1 := f_rs1 insn in
  let rs2 := f_rs2 insn in
  let opcode := f_opcode insn in
  if opcode =? 0x03 then (fun o => Load o rd rs1 (imm_i insn)) <$> lookup1 (load_table x) (f_funct3 insn)
  else if opcode =? 0x13 then decode_opimm x insn
  else if opcode =? 0x17 then Some (Auipc rd (imm_u insn))
  else if (opcode =? 0x1B) && bool_decide (x = RV64) then decode_opimmw insn
  else if opcode =? 0x23 then (fun o => Store o rs1 rs2 (imm_s insn)) <$> lookup1 (store_table x) (f_funct3 insn)
  else if opcode =? 0x33 then
    (fun o => Op o rd rs1 rs2) <$> lookup2 rop_table (f_funct7 insn) (f_funct3 insn)
  else if opcode =? 0x37 then Some (Lui rd (imm_u insn))
  else if (opcode =? 0x3B) && bool_decide (x = RV64) then
    (fun o => OpW o rd rs1 rs2) <$> lookup2 wop_table (f_funct7 insn) (f_funct3 insn)
  else if opcode =? 0x63 then
    (fun o => Branch o rs1 rs2 (imm_b insn)) <$> lookup1 branch_table (f_funct3 insn)
  else if (opcode =? 0x67) && (f_funct3 insn =? 0) then Some (Jalr rd rs1 (imm_i insn))
  else if opcode =? 0x6F then Some (Jal rd (imm_j insn))
  else None.

(** The major opcodes this file describes. *)
Definition integer_opcode (x : xlen) (insn : Z) : bool :=
  let opcode := f_opcode insn in
  (opcode =? 0x03) || (opcode =? 0x13) || (opcode =? 0x17) || (opcode =? 0x23) || (opcode =? 0x33)
  || (opcode =? 0x37) || (opcode =? 0x63) || (opcode =? 0x67) || (opcode =? 0x6F)
  || ((opcode =? 0x1B) || (opcode =? 0x3B)) && bool_decide (x = RV64).

(** ** Execution

    The architectural state is the hart with [x0] read as zero and the program counter
    taken modulo 2^XLEN.  Registers hold XLEN-bit values sign-extended to 64 bits. *)

Section Exec.
Context `{Env} (x : xlen).

(** The unsigned XLEN-bit value of a register. *)
Definition get_x (vm : hart) (r : Z) : Z := if r =? 0 then 0 else reg vm r mod 2 ^ XLEN x.
Definition put_x (r v : Z) (vm : hart) : hart :=
  if r =? 0 then vm else set_reg r (signed (XLEN x) v mod 2 ^ 64) vm.

Definition get_pc (vm : hart) : Z := pc vm mod 2 ^ XLEN x.
Definition goto (t : Z) (vm : hart) : hart := set_reg RISCV_REG_PC (t mod 2 ^ XLEN x) vm.
Definition next_by (len : Z) (vm : hart) : hart := goto (get_pc vm + len) vm.
Definition next : hart -> hart := next_by 4.

Definition bop_eval (o : bop) (a b : Z) : bool :=
  match o with
  | BEQ => a =? b
  | BNE => negb (a =? b)
  | BLT => signed (XLEN x) a <? signed (XLEN x) b
  | BGE => signed (XLEN x) b <=? signed (XLEN x) a
  | BLTU => a <? b
  | BGEU => b <=? a
  end.

(** Width in bytes of a load, and its extension to a 64-bit register. *)
Definition lop_size (o : lop) : nat :=
  match o with LB | LBU => 1 | LH | LHU => 2 | LW | LWU => 4 | LD => 8 end.
Definition lop_extend (o : lop) (v : Z) : Z :=
  match o with
  | LB => signed 8 v mod 2 ^ 64 | LH => signed 16 v mod 2 ^ 64 | LW => signed 32 v mod 2 ^ 64
  | LD | LBU | LHU | LWU => v
  end.
Definition sop_size (o : sop) : nat := match o with SB => 1 | SH => 2 | SW => 4 | SD => 8 end.

(** A memory access may trap; the trap is recorded in the hart and the program counter
    moves on, to be replaced when the trap is taken. *)
Definition exec_load (o : lop) (rd addr : Z) (vm : hart) : hart :=
  load_to (lop_size o) (fun v => set_reg rd (lop_extend o v)) vm addr.

(** An instruction of [len] bytes. *)
Definition exec_len (len : Z) (i : instr) (vm : hart) : hart :=
  let next := next_by len in
  let g := get_x vm in
  match i with
  | Lui rd imm => next (put_x rd imm vm)
  | Auipc rd imm => next (put_x rd (get_pc vm + imm) vm)
  | Jal rd off => goto (get_pc vm + off) (put_x rd (get_pc vm + len) vm)
  | Jalr rd rs1 off => goto ((g rs1 + off) / 2 * 2) (put_x rd (get_pc vm + len) vm)
  | Branch o rs1 rs2 off => if bop_eval o (g rs1) (g rs2) then goto (get_pc vm + off) vm else next vm
  | Load o rd rs1 off => next (exec_load o rd ((g rs1 + off) mod 2 ^ XLEN x) vm)
  | Store o rs1 rs2 off => next (mem_store (sop_size o) vm ((g rs1 + off) mod 2 ^ XLEN x) (reg vm rs2))
  | OpImm o rd rs1 imm => next (put_x rd (rop_eval x o (g rs1) imm) vm)
  | Un o rd rs1 => next (put_x rd (unop_eval x o (g rs1)) vm)
  | Op o rd rs1 rs2 => next (put_x rd (rop_eval x o (g rs1) (g rs2)) vm)
  | OpImmW o rd rs1 imm => next (put_x rd (wop_eval (W o) (g rs1) imm) vm)
  | UnW o rd rs1 => next (put_x rd (unop_eval RV32 o (g rs1 mod 2 ^ 32)) vm)
  | SlliUw rd rs1 shamt => next (put_x rd (g rs1 mod 2 ^ 32 * 2 ^ shamt) vm)
  | OpW o rd rs1 rs2 => next (put_x rd (wop_eval o (g rs1) (g rs2)) vm)
  end.

Definition exec : instr -> hart -> hart := exec_len 4.

(** One instruction; a word that encodes none is an illegal-instruction trap. *)
Definition isa_step (insn : Z) (vm : hart) : hart :=
  match decode x insn with
  | Some i => exec i vm
  | None => next (riscv_trap vm RISCV_TRAP_ILL_INSN insn)
  end.

(** Two harts with the same architectural state. *)
Definition isa_eq (vm vm' : hart) : Prop :=
  (forall r, 0 < r < 32 -> reg vm r = reg vm' r) /\ get_pc vm = get_pc vm' /\
  set_registers (fun _ => 0) vm = set_registers (fun _ => 0) vm'.

End Exec.
