(* ===== verification/BaseProps.v ===== *)
(** * The base handlers implement the instruction set

    Every 32-bit instruction of the integer opcodes, executed by the emulator, has the
    effect of the reference semantics, for both XLENs: its result register, its program
    counter and everything else; words that encode no instruction trap. *)

From S2P Require Import Prelude BitOps MemOps State Tlb Hart Mmu MmuProps Base IsaSpec.
From S2P Require Import CsrDefs Csr Atomics Priv Compressed.

(** ** Instruction fields *)

#[export] Instance orhom_signed n f : OrHom f -> OrHom (fun y => signed (Zpos n) (f y)).
Proof.
  intros [H H0]. split.
  2: { rewrite H0. apply Z.bits_inj'. intros i Hi. rewrite testbit_signed, !Z.testbit_0_l by lia. done. }
  intros x y. rewrite H. apply Z.bits_inj'. intros i Hi.
  rewrite Z.lor_spec, !testbit_signed, Z.lor_spec by lia. done.
Qed.

Lemma orhom_check f g `{!OrHom f} `{!OrHom g} n : 0 <= n ->
  forallb (fun i => f (2 ^ i) =? g (2 ^ i)) (seqZ 0 n) = true -> forall x, urange n x -> f x = g x.
Proof.
  intros Hn Hc. apply orhom_ext; [done..|]. intros i Hi. apply Z.eqb_eq. by apply (forallb_below _ _ Hc).
Qed.

Lemma f_rd_eq insn : bit_ext_u32 insn 7 5 = f_rd insn.
Proof. by rewrite bit_ext_u32_div by lia. Qed.
Lemma f_rs1_eq insn : bit_ext_u32 insn 15 5 = f_rs1 insn.
Proof. by rewrite bit_ext_u32_div by lia. Qed.
Lemma f_rs2_eq insn : bit_ext_u32 insn 20 5 = f_rs2 insn.
Proof. by rewrite bit_ext_u32_div by lia. Qed.
Lemma f_funct3_eq insn : bit_ext_u32 insn 12 3 = f_funct3 insn.
Proof. by rewrite bit_ext_u32_div by lia. Qed.

Lemma imm_i_eq insn : bit_ext_i32 insn 20 12 = imm_i insn.
Proof. unfold imm_i, f_imm12. by rewrite bit_ext_i32_eq, Z.shiftr_div_pow2 by lia. Qed.

#[export] Instance orhom_branch_off : OrHom decode_i_branch_off.
Proof. unfold decode_i_branch_off. apply _. Qed.
#[export] Instance orhom_jal_off : OrHom decode_i_jal_off.
Proof. unfold decode_i_jal_off. apply _. Qed.

Lemma imm_b_eq insn : urange 32 insn -> decode_i_branch_off insn = imm_b insn.
Proof. apply (orhom_check decode_i_branch_off imm_b); [lia|vm_compute; reflexivity]. Qed.

Lemma imm_j_eq insn : urange 32 insn -> decode_i_jal_off insn = imm_j insn.
Proof. apply (orhom_check decode_i_jal_off imm_j); [lia|vm_compute; reflexivity]. Qed.

Lemma imm_s_eq insn : urange 32 insn ->
  s32 (u32 (u32 (s32 insn .>> 25) .<< 5) .| bit_ext_u32 insn 7 5) = imm_s insn.
Proof.
  apply (orhom_check (fun insn => s32 (u32 (u32 (s32 insn .>> 25) .<< 5) .| bit_ext_u32 insn 7 5)) imm_s);
    [lia|vm_compute; reflexivity].
Qed.

Lemma imm_u_eq insn : urange 32 insn -> s32 (insn .& 0xFFFFF000) = imm_u insn.
Proof. apply (orhom_check (fun insn => s32 (insn .& 0xFFFFF000)) imm_u); [lia|vm_compute; reflexivity]. Qed.

(** ** Architectural equality *)

#[export] Instance isa_eq_equiv x : Equivalence (isa_eq x).
Proof.
  split.
  - done.
  - intros a b (H1 & H2 & H3). by repeat split; intros; rewrite ?H1.
  - intros a b c (H1 & H2 & H3) (G1 & G2 & G3).
    split; [|split]; [intros r Hr; by rewrite H1, G1|congruence|congruence].
Qed.

Lemma xlen_cases x : XLEN x = 32 \/ XLEN x = 64.
Proof. destruct x; auto. Qed.

Lemma xlen_le x : 0 < XLEN x <= 64.
Proof. destruct x; cbn; lia. Qed.

Lemma reg_set r r' v vm : reg (set_reg r v vm) r' = if r =? r' then v else reg vm r'.
Proof. apply fupd_dec. Qed.

Lemma reg_put_x x r r' v vm : 0 < r' ->
  reg (put_x x r v vm) r' = if r =? r' then u64 (signed (XLEN x) v) else reg vm r'.
Proof.
  intros Hr. unfold put_x. destruct (Z.eqb_spec r 0) as [->|]; [|apply reg_set].
  by destruct (Z.eqb_spec 0 r'); [lia|].
Qed.

Lemma wrap_xlen_64 x v : wrap (XLEN x) (u64 v) = wrap (XLEN x) v.
Proof. apply wrap_wrap_le. pose proof (xlen_le x). lia. Qed.

Lemma wrap_signed_xlen x v : wrap (XLEN x) (signed (XLEN x) v) = wrap (XLEN x) v.
Proof. apply wrap_signed. apply xlen_le. Qed.

Lemma signed_congr w v v' : wrap w v = wrap w v' -> signed w v = signed w v'.
Proof. intros E. by rewrite <- (signed_wrap w v), E, signed_wrap. Qed.

Lemma get_pc_set x v vm : get_pc x (set_reg RISCV_REG_PC v vm) = wrap (XLEN x) v.
Proof. unfold get_pc, pc. cbn. by rewrite fupd_eq. Qed.

Lemma get_pc_other x r v vm : r <> RISCV_REG_PC -> get_pc x (set_reg r v vm) = get_pc x vm.
Proof. intros. unfold get_pc, pc. cbn. by rewrite fupd_ne. Qed.

Lemma pc_put_x x r v vm : r <> RISCV_REG_PC -> pc (put_x x r v vm) = pc vm.
Proof. intros. unfold put_x. case_bool; [done|]. unfold pc. cbn. by rewrite fupd_ne. Qed.

Lemma pc_ne r : 0 < r < 32 -> (RISCV_REG_PC =? r) = false.
Proof. intros. apply Z.eqb_neq. unfold RISCV_REG_PC. lia. Qed.

Lemma isa_next x len vm : isa_eq x (advance_pc len vm) (next_by x len vm).
Proof.
  split; [|split; [|done]].
  - intros r Hr. unfold advance_pc, next_by, goto. by rewrite !reg_set, pc_ne by lia.
  - unfold advance_pc, next_by, goto. rewrite !get_pc_set. unfold get_pc. fold (wrap (XLEN x) (pc vm)).
    rewrite wrap_xlen_64. unfold wrap. by rewrite Z.mod_mod, Zplus_mod_idemp_l by (pose proof (xlen_le x); lia).
Qed.

Lemma isa_goto x len t t' vm vm' : isa_eq x vm vm' -> wrap (XLEN x) t = wrap (XLEN x) (t' - len) ->
  isa_eq x (advance_pc len (riscv_write_reg x vm RISCV_REG_PC t)) (goto x t' vm').
Proof.
  intros (H1 & H2 & H3) Ht. unfold advance_pc, goto, riscv_write_reg. split; [|split; [|done]].
  - intros r Hr. rewrite !reg_set, pc_ne by lia. by apply H1.
  - rewrite !get_pc_set. rewrite wrap_xlen_64. unfold pc. cbn. rewrite fupd_eq.
    pose proof (xlen_le x) as Hx.
    transitivity (wrap (XLEN x) (wrap (XLEN x) (u64 (signed (XLEN x) t)) + len)).
    { unfold wrap. by rewrite Zplus_mod_idemp_l. }
    rewrite wrap_xlen_64, wrap_signed_xlen, Ht. unfold wrap.
    rewrite Zplus_mod_idemp_l, Z.mod_mod by lia. f_equal. lia.
Qed.

Lemma isa_put x r v v' vm : 0 <= r < 32 -> wrap (XLEN x) v = wrap (XLEN x) v' ->
  isa_eq x (riscv_write_reg x vm r v) (put_x x r v' vm).
Proof.
  intros Hr Hv. unfold riscv_write_reg. split; [|split].
  - intros r' Hr'. rewrite reg_put_x, reg_set by lia. case_bool; [|done]. by rewrite (signed_congr _ v v').
  - rewrite get_pc_other by (unfold RISCV_REG_PC; lia). unfold get_pc.
    by rewrite pc_put_x by (unfold RISCV_REG_PC; lia).
  - unfold put_x. by case_bool.
Qed.

#[export] Instance advance_pc_proper x len : Proper (isa_eq x ==> isa_eq x) (advance_pc len).
Proof.
  intros a b (H1 & H2 & H3). unfold advance_pc. split; [|split; [|done]].
  - intros r Hr. rewrite !reg_set, pc_ne by lia. by apply H1.
  - rewrite !get_pc_set, !wrap_xlen_64. unfold get_pc in H2. unfold wrap.
    by rewrite <- Zplus_mod_idemp_l, H2, Zplus_mod_idemp_l.
Qed.

Lemma isa_write x len r v v' vm : 0 <= r < 32 -> wrap (XLEN x) v = wrap (XLEN x) v' ->
  isa_eq x (advance_pc len (riscv_write_reg x vm r v)) (next_by x len (put_x x r v' vm)).
Proof. intros Hr Hv. rewrite (isa_put x r v v') by done. apply isa_next. Qed.

Lemma f_rd_range insn : 0 <= f_rd insn < 32.
Proof. apply Z.mod_pos_bound. lia. Qed.
Lemma f_rs1_range insn : 0 <= f_rs1 insn < 32.
Proof. apply Z.mod_pos_bound. lia. Qed.
Lemma f_rs2_range insn : 0 <= f_rs2 insn < 32.
Proof. apply Z.mod_pos_bound. lia. Qed.

Lemma read_get x vm r : reg vm 0 = 0 -> riscv_read_reg x vm r = get_x x vm r.
Proof.
  intros H0. unfold riscv_read_reg, get_x. case_bool; [|done]. subst. rewrite H0.
  apply wrap_small. destruct x; done.
Qed.

Lemma get_x_range x vm r : urange (XLEN x) (get_x x vm r).
Proof. unfold get_x. case_bool; [destruct x; done|]. apply wrap_range. destruct x; cbn; lia. Qed.

#[export] Hint Resolve f_rd_range f_rs1_range f_rs2_range get_x_range : rv.

(** ** Register operations *)

Lemma shamt_eq x v : v .& bit_mask (SHAMT_BITS x) = v mod XLEN x.
Proof. rewrite bit_mask_ones by (destruct x; cbn; lia). destruct x; apply Z.land_ones; cbn; lia. Qed.

Lemma shamt_range x v : 0 <= v mod XLEN x < XLEN x.
Proof. apply Z.mod_pos_bound. apply xlen_le. Qed.

Lemma xl_xl x v : wrap (XLEN x) (wrap (XLEN x) v) = wrap (XLEN x) v.
Proof. apply wrap_wrap. pose proof (xlen_le x). lia. Qed.

Lemma testbit_rotr x v n i : urange (XLEN x) v -> 0 <= i < XLEN x ->
  Z.testbit (bit_rotr x v n) i = Z.testbit v ((i + n) mod XLEN x).
Proof.
  intros Hv Hi. unfold bit_rotr. destruct x; [by apply testbit_bit_rotr32|by apply testbit_bit_rotr64].
Qed.

Lemma testbit_rotl x v n i : urange (XLEN x) v -> 0 <= i < XLEN x ->
  Z.testbit (bit_rotl x v n) i = Z.testbit v ((i - n) mod XLEN x).
Proof.
  intros Hv Hi. rewrite <- Z.add_opp_r, <- testbit_rotr by done. unfold bit_rotl, bit_rotr.
  destruct x; [by rewrite bit_rotl32_rotr32|by rewrite bit_rotl64_rotr64].
Qed.

Section Ops.
Variables (x : xlen) (a b : Z).
Hypotheses (Ha : urange (XLEN x) a) (Hb : urange (XLEN x) b).

Local Abbreviation xl := (wrap (XLEN x)).
Local Abbreviation sxl := (signed (XLEN x)).
Local Abbreviation shamt := (b .& bit_mask (SHAMT_BITS x)).

Lemma op_sll : xl (xl (a .<< shamt)) = xl (rop_eval x SLL a b).
Proof. rewrite xl_xl, shamt_eq, Z.shiftl_mul_pow2 by apply shamt_range. done. Qed.

Lemma op_slt : xl (if sxl a <? sxl b then 1 else 0) = xl (rop_eval x SLT a b).
Proof. cbn. by case_bool. Qed.

Lemma op_sltu : xl (if a <? b then 1 else 0) = xl (rop_eval x SLTU a b).
Proof. cbn. by case_bool. Qed.

Lemma op_srl : xl (a .>> shamt) = xl (rop_eval x SRL a b).
Proof. rewrite shamt_eq, Z.shiftr_div_pow2 by apply shamt_range. done. Qed.

Lemma op_sra : xl (sxl a .>> shamt) = xl (rop_eval x SRA a b).
Proof. rewrite shamt_eq, Z.shiftr_div_pow2 by apply shamt_range. done. Qed.

Lemma op_mulh : xl (match x with RV64 => mulh_uint64 (s64 a) (s64 b) | RV32 => (sxl a * sxl b) .>> 32 end)
  = xl (rop_eval x MULH a b).
Proof.
  destruct x.
  - by rewrite Z.shiftr_div_pow2.
  - rewrite mulh_uint64_eq by (apply signed_range; lia). by rewrite wrap_wrap.
Qed.

Lemma wrap64_div32 v : u32 (u64 v / 2 ^ 32) = u32 (v / 2 ^ 32).
Proof.
  rewrite <- !Z.shiftr_div_pow2 by lia. apply Z.bits_inj'. intros i Hi.
  rewrite !testbit_wrap, !testbit_shiftr, testbit_wrap by lia.
  destruct (Z.ltb_spec i 32); [|done]. destruct (Z.ltb_spec (i + 32) 64); [done|lia].
Qed.

Lemma op_mulhsu : xl (match x with RV64 => mulhsu_uint64 (s64 a) b | RV32 => u64 (sxl a * b) .>> 32 end)
  = xl (rop_eval x MULHSU a b).
Proof.
  destruct x.
  - rewrite Z.shiftr_div_pow2 by lia. apply wrap64_div32.
  - rewrite mulhsu_uint64_eq by (done || (apply signed_range; lia)). by rewrite wrap_wrap.
Qed.

Lemma op_mulhu : xl (match x with RV64 => mulhu_uint64 a b | RV32 => u64 (a * b) .>> 32 end)
  = xl (rop_eval x MULHU a b).
Proof.
  destruct x.
  - rewrite Z.shiftr_div_pow2 by lia. apply wrap64_div32.
  - by rewrite mulhu_uint64_eq.
Qed.

Lemma div_overflow_eq : DIV_OVERFLOW_RS1 x = - 2 ^ (XLEN x - 1).
Proof. destruct x; done. Qed.

(** The overflow case is the quotient 2^(XLEN-1), reduced modulo 2^XLEN. *)
Lemma op_div :
  xl (if (sxl a =? DIV_OVERFLOW_RS1 x) && (sxl b =? -1) then DIV_OVERFLOW_RS1 x
      else if nz b then Z.quot (sxl a) (sxl b) else -1) = xl (rop_eval x DIV a b).
Proof.
  cbn [rop_eval]. unfold nz. rewrite div_overflow_eq. destruct (Z.eqb_spec b 0) as [->|Hn]; cbn [negb].
  - replace (sxl 0) with 0 by (destruct x; done). by rewrite andb_false_r.
  - destruct (Z.eqb_spec (sxl a) (- 2 ^ (XLEN x - 1))) as [->|]; [|done].
    destruct (Z.eqb_spec (sxl b) (-1)) as [->|]; [|done]. cbn [andb]. destruct x; done.
Qed.

Lemma op_divu : xl (if nz b then Z.quot a b else xl (-1)) = xl (rop_eval x DIVU a b).
Proof.
  cbn [rop_eval]. unfold nz. destruct (Z.eqb_spec b 0) as [->|Hn]; cbn [negb]; [apply xl_xl|].
  f_equal. apply Z.quot_div_nonneg; unfold urange in *; lia.
Qed.

Lemma op_rem :
  xl (if (sxl a =? DIV_OVERFLOW_RS1 x) && (sxl b =? -1) then 0
      else if nz b then Z.rem (sxl a) (sxl b) else sxl a) = xl (rop_eval x REM a b).
Proof.
  cbn [rop_eval]. unfold nz. rewrite div_overflow_eq. destruct (Z.eqb_spec b 0) as [->|Hn]; cbn [negb].
  - replace (sxl 0) with 0 by (destruct x; done). by rewrite andb_false_r.
  - destruct (Z.eqb_spec (sxl a) (- 2 ^ (XLEN x - 1))) as [->|]; [|done].
    destruct (Z.eqb_spec (sxl b) (-1)) as [->|]; [|done]. cbn [andb]. destruct x; done.
Qed.

Lemma op_remu : xl (if nz b then Z.rem a b else a) = xl (rop_eval x REMU a b).
Proof.
  cbn [rop_eval]. unfold nz. destruct (Z.eqb_spec b 0) as [->|Hn]; cbn [negb]; [done|].
  f_equal. apply Z.rem_mod_nonneg; unfold urange in *; lia.
Qed.

Lemma lor_shiftl_mod n k u v : 0 <= n -> 0 <= k -> wrap (n + k) (wrap n u .| (v .<< n)) =
  wrap (n + k) (u mod 2 ^ n + 2 ^ n * (v mod 2 ^ k)).
Proof.
  intros Hn Hk. rewrite lor_shiftl_add by (done || by apply wrap_range).
  rewrite (Z.div_mod v (2 ^ k)) at 1 by (pose proof (pow2_pos k Hk); lia).
  rewrite <- (wrap_add_mul _ (u mod _ + _) (v / 2 ^ k)). f_equal. unfold wrap. rewrite Z.pow_add_r by lia. ring.
Qed.

Lemma op_pack : xl (match x with RV64 => u32 a .| u64 (b .<< 32) | RV32 => u16 a .| xl (b .<< 16) end)
  = xl (rop_eval x PACK a b).
Proof.
  assert (forall n k u v, 0 <= n -> 0 <= k -> wrap (n + k) (wrap n u .| wrap (n + k) (v .<< n)) =
    wrap (n + k) (wrap n u .| (v .<< n))) as Hw.
  { intros n k u v Hn Hk. apply Z.bits_inj'. intros i Hi. rewrite !testbit_wrap, !Z.lor_spec by lia.
    rewrite (testbit_wrap (n + k)) by lia. by destruct (i <? n + k). }
  destruct x; cbn [XLEN].
  - rewrite (Hw 16 16) by lia. by rewrite (lor_shiftl_mod 16 16) by lia.
  - rewrite (Hw 32 32) by lia. by rewrite (lor_shiftl_mod 32 32) by lia.
Qed.

Lemma op_packh : xl (u8 a .| u32 (u8 b .<< 8)) = xl (rop_eval x PACKH a b).
Proof.
  f_equal. cbn [rop_eval]. rewrite (wrap_small 32).
  - rewrite lor_shiftl_add by (lia || (apply wrap_range; lia)). unfold wrap. change (2 ^ 8) with 256. lia.
  - pose proof (wrap_range 8 b ltac:(lia)) as Hr. unfold urange in *. rewrite Z.shiftl_mul_pow2 by lia. lia.
Qed.

(** The three parts of the carry-less product of [bit_ops.h]. *)
Lemma clmul_parts :
  bit_clmul x a b = xl (clmul_ref (Z.to_nat (XLEN x)) a b) /\
  bit_clmulr x a b = clmul_ref (Z.to_nat (XLEN x)) a b / 2 ^ (XLEN x - 1) /\
  bit_clmulh x a b = clmul_ref (Z.to_nat (XLEN x)) a b / 2 ^ XLEN x.
Proof.
  rewrite <- !Z.shiftr_div_pow2 by (destruct x; cbn; lia).
  destruct x; cbn [bit_clmul bit_clmulr bit_clmulh XLEN];
    [change (Z.to_nat 32) with 32%nat|change (Z.to_nat 64) with 64%nat].
  - rewrite bit_clmul32_eq, bit_clmulr32_eq, bit_clmulh32_eq by assumption. auto.
  - rewrite bit_clmul64_eq, bit_clmulr64_eq, bit_clmulh64_eq by assumption. auto.
Qed.

Lemma op_clmul : xl (bit_clmul x a b) = xl (rop_eval x CLMUL a b).
Proof. rewrite (proj1 clmul_parts). apply xl_xl. Qed.

Lemma op_clmulr : xl (bit_clmulr x a b) = xl (rop_eval x CLMULR a b).
Proof. by rewrite (proj1 (proj2 clmul_parts)). Qed.

Lemma op_clmulh : xl (bit_clmulh x a b) = xl (rop_eval x CLMULH a b).
Proof. by rewrite (proj2 (proj2 clmul_parts)). Qed.

Lemma testbit_xl v i : 0 <= i -> Z.testbit (xl v) i = (i <? XLEN x) && Z.testbit v i.
Proof. intros. apply testbit_wrap. pose proof (xlen_le x). lia. Qed.

(** Equality of the low XLEN bits, bit by bit. *)
Lemma xl_bits u v : (forall i, 0 <= i < XLEN x -> Z.testbit u i = Z.testbit v i) -> xl u = xl v.
Proof.
  intros Hi. apply Z.bits_inj'. intros i H0. rewrite !testbit_xl by lia.
  destruct (Z.ltb_spec i (XLEN x)); [|done]. by rewrite Hi by lia.
Qed.

Lemma testbit_in v i : 0 <= i < XLEN x -> Z.testbit (xl v) i = Z.testbit v i.
Proof. intros. rewrite testbit_xl by lia. by destruct (Z.ltb_spec i (XLEN x)); [|lia]. Qed.

Lemma op_xnor : xl (a .^ xl (Z.lnot b)) = xl (rop_eval x XNOR a b).
Proof.
  apply xl_bits. intros i Hi. cbn [rop_eval].
  rewrite Z.lnot_spec, !Z.lxor_spec, testbit_in, Z.lnot_spec by lia.
  by destruct (Z.testbit a i), (Z.testbit b i).
Qed.

Lemma op_orn : xl (a .| xl (Z.lnot b)) = xl (rop_eval x ORN a b).
Proof. apply xl_bits. intros i Hi. cbn [rop_eval]. by rewrite !Z.lor_spec, testbit_in by lia. Qed.

Lemma op_andn : xl (a .& xl (Z.lnot b)) = xl (rop_eval x ANDN a b).
Proof.
  apply xl_bits. intros i Hi. cbn [rop_eval]. by rewrite Z.land_spec, testbit_in, Z.lnot_spec, Z.ldiff_spec by lia.
Qed.

Lemma op_rol : xl (bit_rotl x a shamt) = xl (rop_eval x ROL a b).
Proof using Ha.
  apply xl_bits. intros i Hi. rewrite shamt_eq. cbn [rop_eval].
  by rewrite testbit_rotl, testbit_bit_perm by assumption.
Qed.

Lemma op_ror : xl (bit_rotr x a shamt) = xl (rop_eval x ROR a b).
Proof using Ha.
  apply xl_bits. intros i Hi. rewrite shamt_eq. cbn [rop_eval].
  by rewrite testbit_rotr, testbit_bit_perm by assumption.
Qed.

Lemma op_czero_eqz : xl (if nz b then a else 0) = xl (rop_eval x CZERO_EQZ a b).
Proof. cbn [rop_eval]. unfold nz. by destruct (b =? 0). Qed.

Lemma op_czero_nez : xl (if nz b then 0 else a) = xl (rop_eval x CZERO_NEZ a b).
Proof. cbn [rop_eval]. unfold nz. by destruct (b =? 0). Qed.

Lemma op_shadd n u v : 0 <= n -> xl (xl (u + xl (v .<< n))) = xl (u + 2 ^ n * v).
Proof.
  intros Hn. rewrite xl_xl. unfold wrap. rewrite Zplus_mod_idemp_r, Z.shiftl_mul_pow2 by lia. f_equal. lia.
Qed.

Lemma testbit_pow_xl n i : 0 <= n < XLEN x -> 0 <= i < XLEN x -> Z.testbit (xl (1 .<< n)) i = (i =? n).
Proof.
  intros Hn Hi. rewrite testbit_in by done. rewrite Z.shiftl_mul_pow2, Z.mul_1_l by lia. apply testbit_pow2. lia.
Qed.

Lemma op_bset : xl (a .| xl (1 .<< shamt)) = xl (rop_eval x BSET a b).
Proof.
  pose proof (shamt_range x b). apply xl_bits. intros i Hi. cbn [rop_eval].
  by rewrite !Z.lor_spec, shamt_eq, testbit_pow_xl, testbit_pow2 by lia.
Qed.

Lemma op_bclr : xl (a .& xl (Z.lnot (xl (1 .<< shamt)))) = xl (rop_eval x BCLR a b).
Proof.
  pose proof (shamt_range x b). apply xl_bits. intros i Hi. cbn [rop_eval].
  by rewrite Z.land_spec, testbit_in, Z.lnot_spec, shamt_eq, testbit_pow_xl, Z.ldiff_spec, testbit_pow2 by lia.
Qed.

Lemma op_bext : xl ((a .>> shamt) .& 1) = xl (rop_eval x BEXT a b).
Proof.
  pose proof (shamt_range x b). f_equal. cbn [rop_eval].
  rewrite shamt_eq, Z.shiftr_div_pow2 by lia. by apply (Z.land_ones _ 1).
Qed.

Lemma op_binv : xl (a .^ xl (1 .<< shamt)) = xl (rop_eval x BINV a b).
Proof.
  pose proof (shamt_range x b). apply xl_bits. intros i Hi. cbn [rop_eval].
  by rewrite !Z.lxor_spec, shamt_eq, testbit_pow_xl, testbit_pow2 by lia.
Qed.

Lemma op_add : xl (xl (a + b)) = xl (rop_eval x ADD a b).
Proof. apply xl_xl. Qed.
Lemma op_sub : xl (xl (a - b)) = xl (rop_eval x SUB a b).
Proof. apply xl_xl. Qed.
Lemma op_mul : xl (xl (a * b)) = xl (rop_eval x MUL a b).
Proof. apply xl_xl. Qed.
Lemma op_xor : xl (a .^ b) = xl (rop_eval x XOR a b).
Proof. done. Qed.
Lemma op_or : xl (a .| b) = xl (rop_eval x OR a b).
Proof. done. Qed.
Lemma op_and : xl (a .& b) = xl (rop_eval x AND a b).
Proof. done. Qed.
Lemma op_min : xl (EVAL_MIN (sxl a) (sxl b)) = xl (rop_eval x MIN a b).
Proof. by rewrite eval_min. Qed.
Lemma op_minu : xl (EVAL_MIN a b) = xl (rop_eval x MINU a b).
Proof. by rewrite eval_min. Qed.
Lemma op_max : xl (EVAL_MAX (sxl a) (sxl b)) = xl (rop_eval x MAX a b).
Proof. by rewrite eval_max. Qed.
Lemma op_maxu : xl (EVAL_MAX a b) = xl (rop_eval x MAXU a b).
Proof. by rewrite eval_max. Qed.
Lemma op_sh1add : xl (xl (b + xl (a .<< 1))) = xl (rop_eval x SH1ADD a b).
Proof. by rewrite op_shadd. Qed.
Lemma op_sh2add : xl (xl (b + xl (a .<< 2))) = xl (rop_eval x SH2ADD a b).
Proof. by rewrite op_shadd. Qed.
Lemma op_sh3add : xl (xl (b + xl (a .<< 3))) = xl (rop_eval x SH3ADD a b).
Proof. by rewrite op_shadd. Qed.

(** The nibble of [val] that lane [i] of [lut] selects, at its place. *)
Lemma xperm4_lane val lut i j : 0 <= i <= 60 -> 0 <= j < 64 ->
  Z.testbit (u64 (bit_ext_u64 val (((lut .>> i) .& 0x0F) .<< 2) 4 .<< i)) j =
  (i <=? j) && (j <? i + 4) && Z.testbit val (4 * (lut / 2 ^ i mod 16) + (j - i)).
Proof.
  intros Hi Hj. change 0x0F with (Z.ones 4). rewrite Z.land_ones, (Z.shiftl_mul_pow2 _ 2) by lia.
  rewrite (Z.shiftr_div_pow2 lut) by lia. change (2 ^ 4) with 16. change (2 ^ 2) with 4.
  pose proof (Z.mod_pos_bound (lut / 2 ^ i) 16 ltac:(lia)) as Hm.
  set (k := lut / 2 ^ i mod 16) in *. rewrite bit_ext_u64_eq by lia.
  rewrite testbit_wrap, testbit_shiftl by lia. destruct (Z.ltb_spec j 64); [cbn [andb]|lia].
  destruct (Z.leb_spec i j); cbn [andb]; [|apply Z.testbit_neg_r; lia].
  rewrite testbit_wrap, testbit_shiftr by lia.
  replace (j - i <? 4) with (j <? i + 4) by (destruct (Z.ltb_spec j (i + 4)); symmetry; [apply Z.ltb_lt|apply Z.ltb_ge]; lia).
  f_equal. f_equal. lia.
Qed.

Lemma testbit_xperm4_loop fuel val lut k ret j :
  0 <= k -> 4 * (k + Z.of_nat fuel) <= 64 -> 0 <= j < 64 ->
  Z.testbit (xperm4_loop fuel val lut (4 * k) ret) j =
  Z.testbit ret j || (4 * k <=? j) && (j <? 4 * (k + Z.of_nat fuel))
                     && Z.testbit val (4 * (lut / 2 ^ (4 * (j / 4)) mod 16) + j mod 4).
Proof.
  intros Hk Hf Hj. revert k ret Hk Hf. induction fuel as [|fuel IH]; intros k ret Hk Hf; cbn [xperm4_loop].
  - destruct (Z.leb_spec (4 * k) j), (Z.ltb_spec j (4 * (k + Z.of_nat 0))); try lia; by rewrite orb_false_r.
  - replace (4 * k + 4) with (4 * (k + 1)) by lia. rewrite IH, Z.lor_spec, xperm4_lane by lia.
    rewrite <- orb_assoc. f_equal. replace (k + 1 + Z.of_nat fuel) with (k + Z.of_nat (S fuel)) by lia.
    destruct (Z.leb_spec (4 * k) j), (Z.ltb_spec j (4 * k + 4)), (Z.leb_spec (4 * (k + 1)) j),
      (Z.ltb_spec j (4 * (k + Z.of_nat (S fuel)))); try lia; cbn [andb orb]; rewrite ?orb_false_r; try done.
    assert (j / 4 = k) as -> by (Z.to_euclidean_division_equations; lia).
    f_equal. Z.to_euclidean_division_equations. lia.
Qed.

Lemma op_xperm4 : xl (riscv_bit_xperm4 a b) = xl (rop_eval x XPERM4 a b).
Proof.
  apply xl_bits. intros i Hi. pose proof (xlen_le x). cbn [rop_eval]. rewrite testbit_bit_perm by lia.
  unfold riscv_bit_xperm4. rewrite (testbit_xperm4_loop 16 a b 0) by lia. rewrite Z.testbit_0_l.
  destruct (Z.leb_spec (4 * 0) i), (Z.ltb_spec i (4 * (0 + Z.of_nat 16))); lia || done.
Qed.

End Ops.

Lemma popcount_bits (n : nat) p : Zpos p < 2 ^ Z.of_nat n ->
  pos_popcount p = foldr (fun i acc => Z.b2z (Z.testbit (Zpos p) i) + acc) 0 (seqZ 0 (Z.of_nat n)).
Proof.
  revert n. assert (forall q b m, 0 <= m ->
    foldr (fun i acc => Z.b2z (Z.testbit (2 * q + Z.b2z b) i) + acc) 0 (seqZ 1 m) =
    foldr (fun i acc => Z.b2z (Z.testbit q i) + acc) 0 (seqZ 0 m)) as Hshift.
  { intros q b m Hm. rewrite (eq_refl : 1 = 1 + 0), <- (fmap_add_seqZ 1 0), foldr_fmap.
    assert (Forall (fun i => 0 <= i) (seqZ 0 m)) as Hl by (apply Forall_seqZ; lia).
    induction Hl as [|i l Hi Hl IH]; [done|]. cbn [foldr]. rewrite IH. f_equal. f_equal.
    rewrite Z.add_1_l. destruct b; cbn [Z.b2z]; rewrite ?Z.add_0_r;
      [by apply Z.testbit_odd_succ|by apply Z.testbit_even_succ]. }
  induction p as [p IH|p IH|]; intros [|n] Hn; try (change (2 ^ Z.of_nat 0) with 1 in Hn; lia);
    rewrite Nat2Z.inj_succ, Z.pow_succ_r in Hn by lia;
    rewrite Nat2Z.inj_succ, seqZ_cons by lia; cbn [foldr pos_popcount]; rewrite Z.pred_succ;
    change (Z.succ 0) with 1.
  - rewrite (IH n) by lia. rewrite <- (Hshift (Zpos p) true) by lia. done.
  - rewrite (IH n) by lia. rewrite <- (Hshift (Zpos p) false) by lia. by rewrite Z.add_0_r.
  - change (Zpos xH) with (2 * 0 + Z.b2z true). rewrite Hshift by lia.
    assert (forall l, foldr (fun i acc => Z.b2z (Z.testbit 0 i) + acc) 0 l = 0) as ->; [|done].
    intros l. induction l as [|i l IH]; [done|]. cbn [foldr]. by rewrite IH, Z.testbit_0_l.
Qed.

(** Operations on one operand. *)
Section Unops.
Variables (x : xlen) (a : Z).
Hypothesis Ha : urange (XLEN x) a.

Local Abbreviation xl := (wrap (XLEN x)).

Lemma urange_xlen_64 : urange 64 a.
Proof. apply (urange_mono (XLEN x)); [apply xlen_le|done]. Qed.

Lemma clz_eq : bit_clz x a = unop_eval x CLZ a.
Proof.
  unfold bit_clz, bit_clz32, bit_clz64, builtin_clz, nz, unop_eval.
  destruct x, (a =? 0); done.
Qed.

Lemma ctz_eq : bit_ctz x a = unop_eval x CTZ a.
Proof.
  cbn [unop_eval]. transitivity (if a =? 0 then XLEN x else builtin_ctz a).
  { unfold bit_ctz, bit_ctz32, bit_ctz64, nz. by destruct x, (a =? 0). }
  unfold urange in Ha. destruct a as [|p|p]; [done| |lia].
  rewrite land_opp_pos, Z.log2_pow2 by apply pos_ctz_nonneg. done.
Qed.

Lemma cpop_eq : bit_popcnt x a = unop_eval x CPOP a.
Proof.
  transitivity (builtin_popcount a); [by destruct x|]. cbn [unop_eval].
  unfold urange in Ha. destruct a as [|p|p]; [by destruct x| |lia].
  pose proof (xlen_le x). cbn [builtin_popcount].
  rewrite (popcount_bits (Z.to_nat (XLEN x))) by (rewrite Z2Nat.id; lia). by rewrite Z2Nat.id by lia.
Qed.

Lemma un_clz : xl (bit_clz x a) = xl (unop_eval x CLZ a).
Proof. by rewrite clz_eq. Qed.
Lemma un_ctz : xl (bit_ctz x a) = xl (unop_eval x CTZ a).
Proof. by rewrite ctz_eq. Qed.
Lemma un_cpop : xl (bit_popcnt x a) = xl (unop_eval x CPOP a).
Proof. by rewrite cpop_eq. Qed.

Lemma un_brev8 : xl (bit_brev8 a) = xl (unop_eval x BREV8 a).
Proof.
  pose proof (xlen_le x). pose proof urange_xlen_64. apply xl_bits. intros i Hi. cbn [unop_eval].
  by rewrite testbit_bit_brev8, testbit_bit_perm by (done || lia).
Qed.

Lemma le_split_8 : le_split 8 a =
  le_split (Z.to_nat (XLEN x / 8)) a ++ replicate (Z.to_nat ((64 - XLEN x) / 8)) 0.
Proof.
  destruct x; cbn [XLEN] in *; [|done].
  change (Z.to_nat (32 / 8)) with 4%nat. change (Z.to_nat ((64 - 32) / 8)) with 4%nat.
  cbn [le_split replicate app]. rewrite !Z.div_div by lia. unfold urange in Ha. change (2 ^ 32) with 4294967296 in Ha.
  change (256 * 256) with 65536. change (65536 * 256) with 16777216. change (16777216 * 256) with 4294967296.
  do 4 f_equal. rewrite !(Z.div_small a) by lia. done.
Qed.

Lemma le_combine_app l m : le_combine (l ++ m) = le_combine l + 2 ^ (8 * Z.of_nat (length l)) * le_combine m.
Proof.
  induction l as [|b l IH]; cbn [app le_combine length]; [change (2 ^ (8 * Z.of_nat 0)) with 1; lia|].
  rewrite IH, pow2_byte_succ. lia.
Qed.

Lemma xlen_bytes : 8 * Z.of_nat (Z.to_nat (XLEN x / 8)) = XLEN x.
Proof. by destruct x. Qed.

Lemma un_orc_b : xl (bit_orc_b a) = xl (unop_eval x ORC_B a).
Proof.
  pose proof urange_xlen_64 as Hr. rewrite <- (wrap_small 64 a Hr) at 1.
  rewrite <- (le_combine_split 8), bit_orc_b_bytes by (apply le_split_bytes || apply length_le_split).
  cbn [unop_eval]. rewrite le_split_8, map_app, le_combine_app, length_map, length_le_split, xlen_bytes.
  rewrite Z.mul_comm, wrap_add_mul. f_equal. f_equal. apply map_ext. intros b. unfold orc_byte, nz.
  by destruct (b =? 0).
Qed.

End Unops.

Lemma un_rev8_32 a : wrap (XLEN RV32) (byteswap_uint32 a) = wrap (XLEN RV32) (unop_eval RV32 REV8 a).
Proof. done. Qed.
Lemma un_rev8_64 a : wrap (XLEN RV64) (byteswap_uint64 a) = wrap (XLEN RV64) (unop_eval RV64 REV8 a).
Proof. done. Qed.

Lemma un_zip a : urange (XLEN RV32) a -> wrap (XLEN RV32) (bit_zip32 a) = wrap (XLEN RV32) (unop_eval RV32 ZIP a).
Proof.
  intros. apply (xl_bits RV32). cbn [XLEN unop_eval]. intros i Hi.
  by rewrite testbit_bit_zip32, testbit_bit_perm by done.
Qed.

Lemma un_unzip a : urange (XLEN RV32) a -> wrap (XLEN RV32) (bit_unzip32 a) = wrap (XLEN RV32) (unop_eval RV32 UNZIP a).
Proof.
  intros. apply (xl_bits RV32). cbn [XLEN unop_eval]. intros i Hi.
  by rewrite testbit_bit_unzip32, testbit_bit_perm by done.
Qed.

(** ** The handlers *)

Create HintDb isa_ops discriminated.
#[export] Hint Constants Opaque : isa_ops.
#[export] Hint Resolve op_add op_sub op_sll op_slt op_sltu op_xor op_srl op_sra op_or op_and op_mul
  op_mulh op_mulhsu op_mulhu op_div op_divu op_rem op_remu op_pack op_packh op_clmul op_clmulr
  op_clmulh op_min op_minu op_max op_maxu op_xnor op_orn op_andn op_rol op_ror op_czero_eqz
  op_czero_nez op_sh1add op_sh2add op_sh3add op_xperm4 op_bset op_bclr op_bext op_binv
  get_x_range : isa_ops.

(** [insn & 0xfe007000] pairs [funct7] and [funct3]. *)
Definition op_key (f7 f3 : Z) : Z := f7 * 2 ^ 25 + f3 * 2 ^ 12.

Lemma funct7_range insn : urange 32 insn -> 0 <= f_funct7 insn < 128.
Proof. unfold urange, f_funct7. intros. change (2 ^ 32) with (128 * 2 ^ 25) in *. dlia. Qed.
Lemma funct3_range insn : 0 <= f_funct3 insn < 8.
Proof. apply Z.mod_pos_bound. lia. Qed.

Lemma op_key_insn insn : urange 32 insn -> insn .& 0xFE007000 = op_key (f_funct7 insn) (f_funct3 insn).
Proof.
  intros Hi. change 0xFE007000 with ((Z.ones 7 .<< 25) .| (Z.ones 3 .<< 12)).
  rewrite Z.land_lor_distr_r, !land_field, (Z.lor_comm (Z.shiftl _ 25)) by lia.
  pose proof (funct7_range insn Hi) as H7. unfold op_key, f_funct7, f_funct3 in *.
  rewrite !(Z.shiftr_div_pow2 insn) by lia. rewrite (wrap_small 7) by (unfold urange; lia).
  rewrite lor_shiftl_add, Z.shiftl_mul_pow2 by (lia || (
    pose proof (Z.mod_pos_bound (insn / 2 ^ 12) 8 ltac:(lia)); unfold urange, wrap;
    rewrite Z.shiftl_mul_pow2 by lia; change (2 ^ 3) with 8; lia)).
  unfold wrap. change (2 ^ 3) with 8. lia.
Qed.

Lemma op_key_eqb f7 f3 c7 c3 : 0 <= f3 < 8 -> 0 <= c3 < 8 ->
  (op_key f7 f3 =? op_key c7 c3) = (f7 =? c7) && (f3 =? c3).
Proof.
  intros. unfold op_key. destruct (Z.eqb_spec f7 c7), (Z.eqb_spec f3 c3); cbn [andb];
    [apply Z.eqb_eq|apply Z.eqb_neq..]; lia.
Qed.

(** Rewrites the comparisons of [insn & 0xfe007000] of a handler into comparisons of fields. *)
Ltac split_keys :=
  repeat match goal with
  | |- context [op_key ?f7 ?f3 =? Zpos ?c] =>
      let c7 := eval vm_compute in (Zpos c / 2 ^ 25) in
      let c3 := eval vm_compute in (Zpos c / 2 ^ 12 mod 8) in
      change (op_key f7 f3 =? Zpos c) with (op_key f7 f3 =? op_key c7 c3); rewrite (op_key_eqb f7 f3 c7 c3) by lia
  | |- context [op_key ?f7 ?f3 =? 0] =>
      change (op_key f7 f3 =? 0) with (op_key f7 f3 =? op_key 0 0); rewrite (op_key_eqb f7 f3 0 0) by lia
  end.

(** Decides the conditions of both sides, closing the impossible combinations. *)
Ltac split_conds :=
  repeat match goal with
  | |- context [bool_decide (?a = ?b)] =>
      first [rewrite (bool_decide_eq_true_2 (a = b)) by done | rewrite (bool_decide_eq_false_2 (a = b)) by done]
  end; rewrite ?andb_true_r, ?andb_false_r;
  repeat match goal with |- context [?p =? ?q] => destruct (Z.eqb_spec p q); [try lia|try lia] end.

(** The shift operations with an immediate amount. *)
Section ShiftImm.
Variables (x : xlen) (a n : Z).
Hypotheses (Ha : urange (XLEN x) a) (Hn : 0 <= n < XLEN x).

Local Abbreviation xl := (wrap (XLEN x)).

Lemma shamt_small : n .& bit_mask (SHAMT_BITS x) = n.
Proof. rewrite shamt_eq. by apply Z.mod_small. Qed.

Ltac shift_imm op := pose proof op as E; rewrite shamt_small in E; exact E.

Lemma imm_sll : xl (xl (a .<< n)) = xl (rop_eval x SLL a n).
Proof. shift_imm (op_sll x a n). Qed.
Lemma imm_srl : xl (a .>> n) = xl (rop_eval x SRL a n).
Proof. shift_imm (op_srl x a n). Qed.
Lemma imm_sra : xl (signed (XLEN x) a .>> n) = xl (rop_eval x SRA a n).
Proof. shift_imm (op_sra x a n). Qed.
Lemma imm_bset : xl (a .| xl (1 .<< n)) = xl (rop_eval x BSET a n).
Proof. shift_imm (op_bset x a n). Qed.
Lemma imm_bclr : xl (a .& xl (Z.lnot (xl (1 .<< n)))) = xl (rop_eval x BCLR a n).
Proof. shift_imm (op_bclr x a n). Qed.
Lemma imm_bext : xl ((a .>> n) .& 1) = xl (rop_eval x BEXT a n).
Proof. shift_imm (op_bext x a n). Qed.
Lemma imm_binv : xl (a .^ xl (1 .<< n)) = xl (rop_eval x BINV a n).
Proof. shift_imm (op_binv x a n). Qed.
Lemma imm_ror : xl (bit_rotr x a n) = xl (rop_eval x ROR a n).
Proof. shift_imm (op_ror x a n Ha). Qed.

End ShiftImm.

Lemma un_sext_b x a : wrap (XLEN x) (s8 a) = wrap (XLEN x) (unop_eval x SEXT_B a).
Proof. done. Qed.
Lemma un_sext_h x a : wrap (XLEN x) (s16 a) = wrap (XLEN x) (unop_eval x SEXT_H a).
Proof. done. Qed.

#[export] Hint Resolve imm_sll imm_srl imm_sra imm_bset imm_bclr imm_bext imm_binv imm_ror
  un_clz un_ctz un_cpop un_brev8 un_orc_b un_sext_b un_sext_h un_rev8_32 un_rev8_64 un_zip un_unzip : isa_ops.

(** The shift amount [n] and the bits [f7] above it, of an immediate. *)
Definition shift_split (x : xlen) (f7 n : Z) : Prop :=
  0 <= n < XLEN x /\
  exists k, f7 = match x with RV64 => 2 * k | RV32 => k end.

(** [funct7] and the shift amount of an OP-IMM shift. *)
Lemma shift_imm12 x insn : urange 32 insn ->
  decode_i_shamt x insn = f_imm12 insn mod XLEN x /\
  decode_i_shift_funct7 x insn = shift_funct7 x insn /\
  f_imm12 insn = shift_funct7 x insn * 32 + f_imm12 insn mod XLEN x /\
  shift_split x (shift_funct7 x insn) (f_imm12 insn mod XLEN x).
Proof.
  unfold urange. intros Hi. unfold decode_i_shamt, decode_i_shift_funct7, shift_funct7, f_imm12.
  destruct x; cbn [XLEN].
  - rewrite bit_ext_u32_div, Z.shiftr_div_pow2 by lia. split_and!; [done|done|dlia|].
    split; [cbn; dlia|by eexists].
  - rewrite bit_ext_u32_div, Z.shiftr_div_pow2, Z.shiftl_mul_pow2, wrap_small by (unfold urange; dlia).
    split_and!; [done|done|dlia|]. split; [cbn; dlia|]. exists (insn / 2 ^ 26). lia.
Qed.

(** Case analysis on the eight values of [funct3]. *)
Lemma below_8 (P : Z -> Prop) n : 0 <= n < 8 ->
  P 0 -> P 1 -> P 2 -> P 3 -> P 4 -> P 5 -> P 6 -> P 7 -> P n.
Proof.
  intros ? ? ? ? ? ? ? ? ?. assert (n = 0 \/ n = 1 \/ n = 2 \/ n = 3 \/ n = 4 \/ n = 5 \/ n = 6 \/ n = 7)
    as Hn by lia. by destruct_or! Hn; subst.
Qed.

Lemma below_4 (P : Z -> Prop) n : 0 <= n < 4 -> P 0 -> P 1 -> P 2 -> P 3 -> P n.
Proof. intros ? ? ? ? ?. assert (n = 0 \/ n = 1 \/ n = 2 \/ n = 3) as Hn by lia. by destruct_or! Hn; subst. Qed.

Section Handlers.
Context `{Env} (x : xlen) (vm : hart) (insn : Z).
Hypotheses (Hi : urange 32 insn) (H0 : reg vm 0 = 0).

Local Abbreviation step := (isa_eq x).
Local Abbreviation f3 := (f_funct3 insn).

(** A decoded instruction, or an illegal one. *)
Local Abbreviation run o := (match o with
  | Some i => exec x i vm
  | None => next x (riscv_trap vm RISCV_TRAP_ILL_INSN insn) end).

Ltac fields := rewrite ?f_rd_eq, ?f_rs1_eq, ?f_rs2_eq, ?f_funct3_eq, ?imm_i_eq; rewrite ?(read_get x vm) by done.

Lemma opc_op_refines : lookup2 rop_table (f_funct7 insn) f3 <> Some XPERM8 ->
  isa_eq x (advance_pc 4 (riscv_emulate_i_opc_op x vm insn))
    (run ((fun o => Op o (f_rd insn) (f_rs1 insn) (f_rs2 insn)) <$> lookup2 rop_table (f_funct7 insn) f3)).
Proof.
  unfold riscv_emulate_i_opc_op. fields. cbv zeta. rewrite op_key_insn by done.
  pose proof (funct3_range insn) as H3. generalize (f_funct7 insn) as f7. intros f7.
  generalize dependent (f_funct3 insn). intros f H3. split_keys. cbn [lookup2 rop_table].
  repeat match goal with |- context [if ?c && ?d then _ else _] => destruct (c && d); cbn [fmap option_fmap option_map];
    [intros Hx; try done; apply isa_write; auto with rv isa_ops; fail|] end.
  intros _. apply isa_next.
Qed.

Ltac isa_leaf := first [apply isa_next | apply isa_write; auto with rv isa_ops; fail].

Ltac shift_cases :=
  intros [Hn [k Hk]]; pose proof Hn as Hn'; destruct x; cbn [XLEN] in Hn';
  cbn [unop_table app lookup2 shift_table andb Z.eqb Pos.eqb] in *; split_conds; subst; isa_leaf.

Local Abbreviation decode_shift f3 f7 n :=
  (match lookup2 shift_table f3 f7 with
   | Some o => Some (OpImm o (f_rd insn) (f_rs1 insn) n)
   | None =>
       match lookup2 (unop_table x) f3 (f7 * 32 + n) with
       | Some o => Some (Un o (f_rd insn) (f_rs1 insn))
       | None => None
       end
   end).

Lemma funct3_1_refines : 
  isa_eq x (advance_pc 4 (opc_imm_funct3_1 x vm insn (f_rd insn) (get_x x vm (f_rs1 insn))))
    (run (decode_shift 1 (shift_funct7 x insn) (f_imm12 insn mod XLEN x))).
Proof.
  unfold opc_imm_funct3_1. destruct (shift_imm12 x insn Hi) as (-> & -> & _ & Hs).
  revert Hs. generalize (f_imm12 insn mod XLEN x) as n, (shift_funct7 x insn) as f7. intros n f7. shift_cases.
Qed.

Lemma funct3_5_refines :
  isa_eq x (advance_pc 4 (opc_imm_funct3_5 x vm insn (f_rd insn) (get_x x vm (f_rs1 insn))))
    (run (decode_shift 5 (shift_funct7 x insn) (f_imm12 insn mod XLEN x))).
Proof.
  unfold opc_imm_funct3_5. destruct (shift_imm12 x insn Hi) as (-> & -> & _ & Hs).
  revert Hs. generalize (f_imm12 insn mod XLEN x) as n, (shift_funct7 x insn) as f7. intros n f7. shift_cases.
Qed.

Lemma opc_imm_refines : isa_eq x (advance_pc 4 (riscv_emulate_i_opc_imm x vm insn)) (run (decode_opimm x insn)).
Proof.
  pose proof funct3_1_refines as F1. pose proof funct3_5_refines as F5. revert F1 F5.
  unfold riscv_emulate_i_opc_imm, decode_opimm. fields. cbv zeta.
  rewrite <- (proj1 (proj2 (proj2 (shift_imm12 x insn Hi)))). fold (wrap (XLEN x) (imm_i insn)).
  pattern (f_funct3 insn). apply below_8; [apply funct3_range|..];
    cbn [lookup1 opimm_table Z.eqb Pos.eqb]; intros F1 F5;
    (exact F1 || exact F5 || (apply isa_write; auto with rv isa_ops)).
Qed.

(** Control transfer and upper immediates. *)

Lemma xl_pc_off off : wrap (XLEN x) (wrap (XLEN x) (riscv_read_reg x vm RISCV_REG_PC + off - 4)) =
  wrap (XLEN x) (get_pc x vm + off - 4).
Proof. apply xl_xl. Qed.

Lemma lui_refines : isa_eq x (advance_pc 4 (riscv_emulate_i_lui x vm insn)) (exec x (Lui (f_rd insn) (imm_u insn)) vm).
Proof.
  unfold riscv_emulate_i_lui. rewrite imm_u_eq by done. fields. apply isa_write; [auto with rv|apply xl_xl].
Qed.

Lemma auipc_refines :
  isa_eq x (advance_pc 4 (riscv_emulate_i_auipc x vm insn)) (exec x (Auipc (f_rd insn) (imm_u insn)) vm).
Proof.
  unfold riscv_emulate_i_auipc. rewrite imm_u_eq by done. rewrite f_rd_eq. apply isa_write; [auto with rv|].
  by rewrite xl_xl, wrap_add_r.
Qed.

Lemma jal_refines : isa_eq x (advance_pc 4 (riscv_emulate_i_jal x vm insn)) (exec x (Jal (f_rd insn) (imm_j insn)) vm).
Proof.
  unfold riscv_emulate_i_jal. rewrite imm_j_eq by done. rewrite f_rd_eq. apply isa_goto; [|apply xl_pc_off].
  apply isa_put; [auto with rv|apply xl_xl].
Qed.

Lemma jalr_target v : wrap (XLEN x) (wrap (XLEN x) ((wrap (XLEN x) v .& wrap (XLEN x) (Z.lnot 1)) - 4)) =
  wrap (XLEN x) (v / 2 * 2 - 4).
Proof.
  rewrite xl_xl. rewrite <- wrap_sub_l, <- (wrap_sub_l _ (v / 2 * 2)). f_equal. f_equal.
  apply xl_bits. intros i Hx. rewrite Z.land_spec, !testbit_in, Z.lnot_spec by lia.
  change (v / 2) with (v / 2 ^ 1). change (v / 2 ^ 1 * 2) with (v / 2 ^ 1 * 2 ^ 1).
  rewrite <- Z.shiftr_div_pow2, <- Z.shiftl_mul_pow2, testbit_shiftl by lia.
  destruct (Z.eq_dec i 0) as [->|]; [by rewrite andb_false_r|].
  rewrite testbit_shiftr by lia. change 1 with (2 ^ 0) at 1. rewrite testbit_pow2 by lia.
  destruct (Z.eqb_spec i 0); [lia|]. rewrite andb_true_r. f_equal. lia.
Qed.

Lemma jalr_refines : isa_eq x (advance_pc 4 (riscv_emulate_i_jalr x vm insn))
  (run (if f3 =? 0 then Some (Jalr (f_rd insn) (f_rs1 insn) (imm_i insn)) else None)).
Proof.
  unfold riscv_emulate_i_jalr. rewrite f_funct3_eq. destruct (f3 =? 0); [|apply isa_next].
  fields. cbv zeta. apply isa_goto; [|apply jalr_target]. apply isa_put; [auto with rv|apply xl_xl].
Qed.

Lemma read_s_get r : riscv_read_reg_s x vm r = signed (XLEN x) (get_x x vm r).
Proof. rewrite <- read_get by done. unfold riscv_read_reg_s, riscv_read_reg. by rewrite signed_wrap. Qed.

Lemma branch_refines : isa_eq x (advance_pc 4 (riscv_emulate_i_opc_branch x vm insn))
  (run ((fun o => Branch o (f_rs1 insn) (f_rs2 insn) (imm_b insn)) <$> lookup1 branch_table f3)).
Proof.
  assert (forall c : bool, isa_eq x (advance_pc 4 (if c then branch_taken x vm (imm_b insn) else vm))
    (if c then goto x (get_pc x vm + imm_b insn) vm else next x vm)) as Hb.
  { intros []; [|apply isa_next]. apply isa_goto; [done|apply xl_pc_off]. }
  unfold riscv_emulate_i_opc_branch. rewrite imm_b_eq by done. fields. rewrite !read_s_get. cbv zeta.
  pattern (f_funct3 insn). apply below_8; [apply funct3_range|..];
    cbn [lookup1 branch_table Z.eqb Pos.eqb fmap option_fmap option_map exec exec_len bop_eval];
    first [apply Hb | apply isa_next].
Qed.

(** Memory accesses. *)

Lemma addr_get off : wrap (XLEN x) (riscv_read_reg x vm (f_rs1 insn) + off) =
  (get_x x vm (f_rs1 insn) + off) mod 2 ^ XLEN x.
Proof. by rewrite read_get by done. Qed.

Lemma load_refines : isa_eq x (advance_pc 4 (riscv_emulate_i_opc_load x vm insn))
  (run ((fun o => Load o (f_rd insn) (f_rs1 insn) (imm_i insn)) <$> lookup1 (load_table x) f3)).
Proof.
  unfold riscv_emulate_i_opc_load. rewrite f_rd_eq, f_rs1_eq, f_funct3_eq, imm_i_eq, addr_get. cbv zeta.
  rewrite load_s8_width, load_s16_width, load_s32_width, load_u64_width, load_u8_width, load_u16_width, load_u32_width.
  pattern (f_funct3 insn). apply below_8; [apply funct3_range|..]; destruct x;
    cbn [load_table lookup1 app Z.eqb Pos.eqb]; split_conds; apply isa_next.
Qed.

Lemma store_refines : isa_eq x (advance_pc 4 (riscv_emulate_i_opc_store x vm insn))
  (run ((fun o => Store o (f_rs1 insn) (f_rs2 insn) (imm_s insn)) <$> lookup1 (store_table x) f3)).
Proof.
  unfold riscv_emulate_i_opc_store. rewrite imm_s_eq by done. rewrite f_rs1_eq, f_rs2_eq, f_funct3_eq, addr_get. cbv zeta.
  rewrite store_u8_width, store_u16_width, store_u32_width, store_u64_width.
  pattern (f_funct3 insn). apply below_8; [apply funct3_range|..]; destruct x;
    cbn [store_table lookup1 app Z.eqb Pos.eqb]; split_conds; apply isa_next.
Qed.

End Handlers.

(** ** Word operations of RV64 *)

Section WordOps.
Variables a b : Z.

Local Abbreviation a' := (u32 a).
Local Abbreviation b' := (u32 b).

Lemma u32_range v : urange (XLEN RV32) (u32 v).
Proof. apply wrap_range. cbn. lia. Qed.

(** A 32-bit result, sign-extended. *)
Lemma w_of_op o e : wrap (XLEN RV32) e = wrap (XLEN RV32) (rop_eval RV32 o a' b') ->
  wrap (XLEN RV64) (s32 e) = wrap (XLEN RV64) (wop_eval (W o) a b).
Proof. intros E. f_equal. by apply signed_congr. Qed.

Lemma w_of_op_s o e : wrap (XLEN RV32) e = wrap (XLEN RV32) (rop_eval RV32 o a' b') -> srange 32 e ->
  wrap (XLEN RV64) e = wrap (XLEN RV64) (wop_eval (W o) a b).
Proof. intros E Hs. rewrite <- (signed_small 32 e) by (done || lia). by apply w_of_op. Qed.

Lemma shamt_32 v : v .& 0x1F = v .& bit_mask (SHAMT_BITS RV32).
Proof. done. Qed.

Lemma srange_shiftr v n : srange 32 v -> 0 <= n -> srange 32 (v .>> n).
Proof.
  unfold srange. intros Hv Hn. rewrite Z.shiftr_div_pow2 by lia. pose proof (pow2_pos n Hn).
  split; [apply Z.div_le_lower_bound|apply Z.div_lt_upper_bound]; nia.
Qed.

Lemma srange_quot v w : srange 32 v -> srange 32 w -> w <> 0 -> ~ (v = - 2 ^ 31 /\ w = -1) ->
  srange 32 (Z.quot v w).
Proof.
  unfold srange. change (2 ^ (32 - 1)) with 2147483648. change (2 ^ 31) with 2147483648. intros Hv Hw H0 Hx.
  pose proof (Z.quot_rem' v w). pose proof (Z.rem_bound_abs v w H0).
  destruct (Z.eq_dec w 1) as [->|]; [rewrite Z.quot_1_r; lia|].
  destruct (Z.eq_dec w (-1)) as [->|]; [change (-1) with (- (1)); rewrite Z.quot_opp_r, Z.quot_1_r by lia; lia|].
  assert (Z.abs (Z.quot v w) * 2 <= Z.abs v) by (
    rewrite <- Z.quot_abs by lia; pose proof (Z.mul_quot_le (Z.abs v) (Z.abs w) ltac:(lia) ltac:(lia));
    pose proof (Z.quot_pos (Z.abs v) (Z.abs w) ltac:(lia) ltac:(lia)); nia).
  lia.
Qed.

Lemma srange_rem v w : srange 32 v -> w <> 0 -> srange 32 (Z.rem v w).
Proof.
  unfold srange. change (2 ^ (32 - 1)) with 2147483648. intros Hv H0.
  pose proof (Z.rem_sign_mul v w H0).
  assert (Z.abs (Z.rem v w) <= Z.abs v); [|nia].
  rewrite <- Z.rem_abs by lia. rewrite Z.rem_mod_nonneg by lia. apply Z.mod_le; lia.
Qed.

Local Abbreviation W64 := (wrap (XLEN RV64)).

Ltac word op := apply w_of_op; exact op.

Lemma w_add : W64 (s32 (u32 (a' + b'))) = W64 (wop_eval (W ADD) a b).
Proof. word (op_add RV32 a' b'). Qed.
Lemma w_sub : W64 (s32 (u32 (a' - b'))) = W64 (wop_eval (W SUB) a b).
Proof. word (op_sub RV32 a' b'). Qed.
Lemma w_sll : W64 (s32 (u32 (a' .<< (b' .& 0x1F)))) = W64 (wop_eval (W SLL) a b).
Proof. word (op_sll RV32 a' b'). Qed.
Lemma w_srl : W64 (s32 (a' .>> (b' .& 0x1F))) = W64 (wop_eval (W SRL) a b).
Proof. word (op_srl RV32 a' b'). Qed.
Lemma w_mul : W64 (s32 (u32 (a' * b'))) = W64 (wop_eval (W MUL) a b).
Proof. word (op_mul RV32 a' b'). Qed.
Lemma w_divu : W64 (s32 (if nz b' then Z.quot a' b' else u32 (-1))) = W64 (wop_eval (W DIVU) a b).
Proof. word (op_divu RV32 a' b' (u32_range a) (u32_range b)). Qed.
Lemma w_remu : W64 (s32 (if nz b' then Z.rem a' b' else a')) = W64 (wop_eval (W REMU) a b).
Proof. word (op_remu RV32 a' b' (u32_range a) (u32_range b)). Qed.
Lemma w_pack : W64 (s32 (u16 a' .| u32 (b' .<< 16))) = W64 (wop_eval (W PACK) a b).
Proof. word (op_pack RV32 a' b' (u32_range a) (u32_range b)). Qed.

Lemma w_sra : W64 (s32 a' .>> (b' .& 0x1F)) = W64 (wop_eval (W SRA) a b).
Proof.
  apply w_of_op_s; [exact (op_sra RV32 a' b')|]. rewrite shamt_32, shamt_eq.
  apply srange_shiftr; [apply signed_range; lia|apply shamt_range].
Qed.

Lemma nz_signed_32 v : nz (u32 v) = true -> s32 (u32 v) <> 0.
Proof.
  rewrite nz_spec, signed_wrap. intros Hn Hs. apply Hn.
  rewrite <- (wrap_signed 32) by lia. by rewrite Hs.
Qed.

Lemma w_div : W64 (if (s32 a' =? s32 0x80000000) && (s32 b' =? -1) then s32 0x80000000
                   else if nz b' then Z.quot (s32 a') (s32 b') else -1) = W64 (wop_eval (W DIV) a b).
Proof.
  apply w_of_op_s; [refine (op_div RV32 a' b' _ _); apply u32_range|]. change (s32 0x80000000) with (- 2 ^ 31).
  destruct (Z.eqb_spec (s32 a') (- 2 ^ 31)), (Z.eqb_spec (s32 b') (-1)); cbn [andb]; try done;
    (destruct (nz b') eqn:Hb; [|done]; apply srange_quot; try (apply signed_range; lia);
     [by apply nz_signed_32|tauto]).
Qed.

Lemma w_rem : W64 (if (s32 a' =? s32 0x80000000) && (s32 b' =? -1) then 0
                   else if nz b' then Z.rem (s32 a') (s32 b') else s32 a') = W64 (wop_eval (W REM) a b).
Proof.
  apply w_of_op_s; [refine (op_rem RV32 a' b' _ _); apply u32_range|]. destruct (_ && _); [done|].
  destruct (nz b') eqn:Hb; [|apply signed_range; lia].
  apply srange_rem; [apply signed_range; lia|by apply nz_signed_32].
Qed.

(** The masks of the word rotations keep a sixth bit, which the rotation drops. *)
Lemma w_ror : W64 (s32 (bit_rotr32 a' (b' .& bit_mask (SHAMT_BITS RV64)))) = W64 (wop_eval (W ROR) a b).
Proof.
  apply w_of_op. rewrite <- (op_ror RV32 a' b') by apply u32_range. apply (xl_bits RV32). cbn [XLEN]. intros i Hi.
  rewrite (shamt_eq RV64). cbn [bit_rotr]. rewrite !testbit_bit_rotr32 by (done || apply u32_range).
  f_equal. rewrite (shamt_eq RV32). cbn [XLEN]. dlia.
Qed.

Lemma w_rol : W64 (s32 (bit_rotl32 a' (b' .& bit_mask (SHAMT_BITS RV64)))) = W64 (wop_eval (W ROL) a b).
Proof.
  apply w_of_op. rewrite <- (op_rol RV32 a' b') by apply u32_range. apply (xl_bits RV32). cbn [XLEN]. intros i Hi.
  rewrite (shamt_eq RV64). cbn [bit_rotl]. rewrite !bit_rotl32_rotr32, !testbit_bit_rotr32 by (done || apply u32_range).
  f_equal. rewrite (shamt_eq RV32). cbn [XLEN]. dlia.
Qed.

Lemma w_add_uw : W64 (W64 (b + a')) = W64 (wop_eval (ADD_UW 0) a b).
Proof. rewrite xl_xl. f_equal. cbn [wop_eval]. unfold wrap. lia. Qed.
Lemma w_sh_uw n : 0 <= n -> W64 (W64 (b + W64 (a' .<< n))) = W64 (wop_eval (ADD_UW n) a b).
Proof. intros. rewrite (op_shadd RV64) by done. f_equal. cbn [wop_eval]. unfold wrap. lia. Qed.

End WordOps.

Section WordHandlers.
Context `{Env} (vm : hart) (insn : Z).
Hypotheses (Hi : urange 32 insn) (H0 : reg vm 0 = 0).

Local Abbreviation run o := (match o with
  | Some i => exec RV64 i vm
  | None => next RV64 (riscv_trap vm RISCV_TRAP_ILL_INSN insn) end).

Lemma opc_op32_refines : isa_eq RV64 (advance_pc 4 (riscv_emulate_i_opc_op32 RV64 vm insn))
  (run ((fun o => OpW o (f_rd insn) (f_rs1 insn) (f_rs2 insn)) <$> lookup2 wop_table (f_funct7 insn) (f_funct3 insn))).
Proof.
  unfold riscv_emulate_i_opc_op32. rewrite f_rd_eq, f_rs1_eq, f_rs2_eq. rewrite !(read_get RV64 vm) by done.
  cbv zeta. rewrite op_key_insn by done.
  pose proof (funct3_range insn) as H3. generalize (f_funct7 insn) as f7. intros f7.
  generalize dependent (f_funct3 insn). intros f H3. split_keys. cbn [lookup2 wop_table].
  repeat match goal with |- context [if ?c && ?d then _ else _] => destruct (c && d); cbn [fmap option_fmap option_map];
    [apply isa_write; [auto with rv|];
     first [apply w_add|apply w_sub|apply w_sll|apply w_srl|apply w_sra|apply w_mul|apply w_div|apply w_divu
       |apply w_rem|apply w_remu|apply w_pack|apply w_rol|apply w_ror|apply w_add_uw|apply w_sh_uw; done]; fail|] end.
  apply isa_next.
Qed.

Lemma word_fields : insn / 2 ^ 26 = f_funct7 insn / 2 /\ f_imm12 insn = f_funct7 insn * 32 + f_rs2 insn /\
  bit_ext_u32 insn 20 6 = f_imm12 insn mod 64.
Proof.
  unfold f_funct7, f_rs2, f_imm12. rewrite bit_ext_u32_div by lia. split_and!; [|dlia|done].
  by rewrite Z.div_div by lia.
Qed.

Lemma slli_uw_imm a n : 0 <= n ->
  wrap (XLEN RV64) (wrap (XLEN RV64) (u32 a .<< n)) = wrap (XLEN RV64) (a mod 2 ^ 32 * 2 ^ n).
Proof. intros. by rewrite xl_xl, Z.shiftl_mul_pow2. Qed.

(** The word shifts with an immediate amount. *)
Lemma w_imm o e n a : 0 <= n < 32 -> wrap (XLEN RV32) e = wrap (XLEN RV32) (rop_eval RV32 o (u32 a) n) ->
  wrap (XLEN RV64) (s32 e) = wrap (XLEN RV64) (wop_eval (W o) a n).
Proof. intros Hn E. apply w_of_op. by rewrite E, (wrap_small 32 n) by (unfold urange; lia). Qed.

Lemma w_sra_imm n a : 0 <= n < 32 -> wrap (XLEN RV64) (s32 (u32 a) .>> n) = wrap (XLEN RV64) (wop_eval (W SRA) a n).
Proof.
  intros Hn. rewrite <- w_sra. f_equal. f_equal. rewrite shamt_32, shamt_eq, (wrap_small 32 n) by (unfold urange; lia).
  cbn [XLEN]. by rewrite Z.mod_small by lia.
Qed.

Lemma w_add_imm a v : wrap (XLEN RV64) (s32 (u32 (u32 a + u32 v))) =
  wrap (XLEN RV64) (wop_eval (W ADD) a (v mod 2 ^ 64)).
Proof. rewrite <- w_add. fold (u64 v). by rewrite (wrap_wrap_le 32 64) by lia. Qed.

Ltac word_imm :=
  apply isa_write; [auto with rv|];
  first [apply (w_imm SLL); [done|apply (imm_sll RV32); done]
    |apply (w_imm SRL); [done|apply (imm_srl RV32); done]
    |apply (w_imm ROR); [done|apply (imm_ror RV32); [apply u32_range|done]]
    |apply w_sra_imm; done
    |apply slli_uw_imm; done
    |apply f_equal, (clz_eq RV32), u32_range
    |apply f_equal, (ctz_eq RV32), u32_range
    |apply f_equal, (cpop_eq RV32), u32_range].

Lemma opc_imm32_refines : isa_eq RV64 (advance_pc 4 (riscv_emulate_i_opc_imm32 RV64 vm insn)) (run (decode_opimmw insn)).
Proof.
  unfold riscv_emulate_i_opc_imm32, decode_opimmw.
  destruct word_fields as (-> & E & ->). rewrite f_rd_eq, f_rs1_eq, f_rs2_eq, f_funct3_eq, imm_i_eq.
  rewrite !(read_get RV64 vm) by done. cbv zeta.
  rewrite op_key_insn by done. pose proof (f_rs2_range insn) as Hn.
  pose proof (funct7_range insn Hi) as H7. set (n := f_rs2 insn) in *.
  pose proof (Z.mod_pos_bound (f_imm12 insn) 64 ltac:(lia)) as [Hm _].
  set (m := f_imm12 insn mod 64) in *. clearbody m. rewrite E. clear E.
  generalize dependent (f_funct7 insn). intros f7 H7.
  pattern (f_funct3 insn). apply below_8; [apply funct3_range|..].
  1: { apply isa_write; [auto with rv|apply w_add_imm]. }
  all: cbn [Z.eqb Pos.eqb]; split_keys; cbn [lookup2 shiftw_table unopw_table Z.eqb Pos.eqb andb];
    rewrite ?andb_false_r, ?andb_true_r; cbn [orb].
  2,3,4,6,7: apply isa_next.
  - destruct (Z.eqb_spec f7 4), (Z.eqb_spec f7 5), (Z.eqb_spec (f7 / 2) 2); try dlia; cbn [orb];
      try (subst; word_imm); split_conds; first [apply isa_next|word_imm].
  - split_conds; first [apply isa_next|word_imm].
Qed.

End WordHandlers.

(** ** The instruction step *)

Lemma opcode_bits insn : insn mod 4 = 3 -> insn .& 0x03 = 3 /\ insn .& 0x7C = f_opcode insn - 3.
Proof.
  intros H3. change (insn .& 0x03) with (insn .& Z.ones 2). change 0x7C with (Z.ones 5 .<< 2).
  rewrite Z.land_ones, land_field, Z.shiftr_div_pow2, Z.shiftl_mul_pow2 by lia. split; [done|].
  unfold f_opcode, wrap. change (2 ^ 2) with 4. change (2 ^ 5) with 32. change (2 ^ 7) with 128. dlia.
Qed.

(** C1: the emulator implements the base instruction set.  For both XLENs, executing a
    32-bit instruction word of the integer opcodes (loads, stores, OP, OP-IMM, their word
    forms, branches, jumps, LUI and AUIPC) changes the hart as the reference semantics says
    for the decoded instruction: result register, program counter, memory, traps; a word
    that encodes no instruction raises the illegal-instruction trap.  The one exception is
    [xperm8]. *)
Theorem insn_refines_isa `{Env} `{Fpu} x vm insn :
  urange 32 insn -> insn mod 4 = 3 -> integer_opcode x insn = true -> reg vm 0 = 0 ->
  (forall rd rs1 rs2, decode x insn <> Some (Op XPERM8 rd rs1 rs2)) ->
  isa_eq x (riscv_emulate_insn x vm insn) (isa_step x insn vm).
Proof.
  intros Hi H3 Hop Hz Hx. destruct (opcode_bits insn H3) as [E2 E7].
  unfold riscv_emulate_insn, isa_step. rewrite E2. cbn [Z.eqb Pos.eqb]. unfold riscv_emulate_i. rewrite E7. clear E2 E7.
  unfold integer_opcode in Hop. unfold decode in *. revert Hop Hx.
  generalize (f_opcode insn) as op. intros op.
  repeat match goal with |- context [op =? ?c] => destruct (Z.eqb_spec op c) as [->|]; [|cbn [orb andb]] end;
    eval_cmp; cbn [orb andb].
  all: intros Hop Hx.
  - by apply load_refines.
  - by apply opc_imm_refines.
  - by apply auipc_refines.
  - by apply store_refines.
  - apply opc_op_refines; [done|done|]. intros E. rewrite E in Hx. by eapply Hx.
  - by apply lui_refines.
  - by apply branch_refines.
  - by apply jalr_refines.
  - by apply jal_refines.
  - destruct x; [done|]. by apply opc_imm32_refines.
  - destruct x; [done|]. by apply opc_op32_refines.
  - done.
Qed.

(** [sub x3, x1, x2]. *)
Lemma insn_refines_isa_witness :
  decode RV64 0x402081B3 = Some (Op SUB 3 1 2) /\
  isa_eq RV64 (@riscv_emulate_insn demo_env no_fpu RV64 demo_hart 0x402081B3) (@isa_step demo_env RV64 0x402081B3 demo_hart).
Proof.
  split; [reflexivity|].
  refine (@insn_refines_isa demo_env no_fpu RV64 demo_hart 0x402081B3 _ _ _ _ _).
  - split; [discriminate|reflexivity].
  - reflexivity.
  - reflexivity.
  - reflexivity.
  - discriminate.
Defined.

(** [xperm8] is not the byte permutation: its loop advances by four bits where it should
    advance by eight, so even the identity permutation corrupts the value.  The nibble
    permutation, which shares the code, is right ([op_xperm4]). *)
Theorem xperm8_deviates :
  rop_eval RV64 XPERM8 0x8877665544332211 0x0706050403020100 = 0x8877665544332211 /\
  riscv_bit_xperm8 0x8877665544332211 0x0706050403020100 <> 0x8877665544332211.
Proof. split; [vm_compute; reflexivity|vm_compute; discriminate]. Qed.
