(* ===== verification/CompressedProps.v ===== *)
(** * Compressed instructions are their expansions

    The C extension with Zcb and Zcmop maps every 16-bit encoding to a 32-bit instruction.
    [c_expand] is that table, from the encoding diagrams of the manual; the theorems show
    that the emulator executes a compressed instruction as its expansion with a length of two
    bytes, ignores the upper half of the fetched word, and list the exceptions. *)

From S2P Require Import Prelude BitOps MemOps State Tlb Hart Mmu MmuProps Base IsaSpec.
From S2P Require Import CsrDefs Csr Atomics Priv Compressed BaseProps.

(** ** Reference expansion *)

(** The immediate whose bit [i] is bit [nth i l] of the instruction ([-1]: zero). *)
Definition imm_bits (l : list Z) (insn : Z) : Z :=
  bit_perm (Z.of_nat (length l)) (fun i => nth (Z.to_nat i) l (-1)) insn.

Definition c_imm_addi4spn : Z -> Z := imm_bits [-1; -1; 6; 5; 11; 12; 7; 8; 9; 10].
Definition c_imm_lw : Z -> Z := imm_bits [-1; -1; 6; 10; 11; 12; 5].
Definition c_imm_ld : Z -> Z := imm_bits [-1; -1; -1; 10; 11; 12; 5; 6].
Definition c_imm_lb : Z -> Z := imm_bits [6; 5].
Definition c_imm_lh : Z -> Z := imm_bits [-1; 5].
Definition c_imm_addi (insn : Z) : Z := signed 6 (imm_bits [2; 3; 4; 5; 6; 12] insn).
Definition c_imm_lui (insn : Z) : Z :=
  signed 18 (imm_bits [-1; -1; -1; -1; -1; -1; -1; -1; -1; -1; -1; -1; 2; 3; 4; 5; 6; 12] insn).
Definition c_imm_addi16sp (insn : Z) : Z := signed 10 (imm_bits [-1; -1; -1; -1; 6; 2; 5; 3; 4; 12] insn).
Definition c_imm_j (insn : Z) : Z := signed 12 (imm_bits [-1; 3; 4; 5; 11; 2; 7; 6; 9; 10; 8; 12] insn).
Definition c_imm_b (insn : Z) : Z := signed 9 (imm_bits [-1; 3; 4; 10; 11; 2; 5; 6; 12] insn).
Definition c_imm_lwsp : Z -> Z := imm_bits [-1; -1; 4; 5; 6; 12; 2; 3].
Definition c_imm_ldsp : Z -> Z := imm_bits [-1; -1; -1; 5; 6; 12; 2; 3; 4].
Definition c_imm_swsp : Z -> Z := imm_bits [-1; -1; 9; 10; 11; 12; 7; 8].
Definition c_imm_sdsp : Z -> Z := imm_bits [-1; -1; -1; 10; 11; 12; 7; 8; 9].
Definition c_shamt : Z -> Z := imm_bits [2; 3; 4; 5; 6; 12].

Definition c_funct3 (insn : Z) : Z := insn / 2 ^ 13 mod 8.
Definition c_rd (insn : Z) : Z := insn / 2 ^ 7 mod 32.
Definition c_rs2 (insn : Z) : Z := insn / 2 ^ 2 mod 32.
(** The three-bit register fields. *)
Definition c_rs1' (insn : Z) : Z := 8 + insn / 2 ^ 7 mod 8.
Definition c_rs2' (insn : Z) : Z := 8 + insn / 2 ^ 2 mod 8.

(** Quadrant 0: loads, stores and [c.addi4spn]. *)
Definition c0_expand (x : xlen) (insn : Z) : option instr :=
  let rd := c_rs2' insn in
  let rs1 := c_rs1' insn in
  match c_funct3 insn, x with
  | 0, _ => if c_imm_addi4spn insn =? 0 then None else Some (OpImm ADD rd 2 (c_imm_addi4spn insn))
  | 2, _ => Some (Load LW rd rs1 (c_imm_lw insn))
  | 3, RV64 => Some (Load LD rd rs1 (c_imm_ld insn))
  | 4, _ =>
      match insn / 2 ^ 10 mod 8, Z.testbit insn 6 with
      | 0, _ => Some (Load LBU rd rs1 (c_imm_lb insn))
      | 1, false => Some (Load LHU rd rs1 (c_imm_lh insn))
      | 1, true => Some (Load LH rd rs1 (c_imm_lh insn))
      | 2, _ => Some (Store SB rs1 rd (c_imm_lb insn))
      | 3, false => Some (Store SH rs1 rd (c_imm_lh insn))
      | _, _ => None
      end
  | 6, _ => Some (Store SW rs1 rd (c_imm_lw insn))
  | 7, RV64 => Some (Store SD rs1 rd (c_imm_ld insn))
  | _, _ => None
  end.

(** The arithmetic of quadrant 1, by bits 12, 6 and 5, and the unary forms of Zcb. *)
Definition c1_alu_expand (x : xlen) (insn : Z) : option instr :=
  let rd := c_rs1' insn in
  let rs2 := c_rs2' insn in
  match Z.testbit insn 12, insn / 2 ^ 5 mod 4, x with
  | false, 0, _ => Some (Op SUB rd rd rs2)
  | false, 1, _ => Some (Op XOR rd rd rs2)
  | false, 2, _ => Some (Op OR rd rd rs2)
  | false, 3, _ => Some (Op AND rd rd rs2)
  | true, 0, RV64 => Some (OpW (W SUB) rd rd rs2)
  | true, 1, RV64 => Some (OpW (W ADD) rd rd rs2)
  | true, 2, _ => Some (Op MUL rd rd rs2)
  | true, 3, _ =>
      match insn / 2 ^ 2 mod 8, x with
      | 0, _ => Some (OpImm AND rd rd 0xFF)
      | 1, _ => Some (Un SEXT_B rd rd)
      | 2, _ => Some (OpImm AND rd rd 0xFFFF)
      | 3, _ => Some (Un SEXT_H rd rd)
      | 4, RV64 => Some (OpW (ADD_UW 0) rd rd 0)
      | 5, _ => Some (OpImm XOR rd rd (2 ^ XLEN x - 1))
      | _, _ => None
      end
  | _, _, _ => None
  end.

(** Shift amounts beyond XLEN are reserved. *)
Definition c_shamt_ok (x : xlen) (insn : Z) : bool := c_shamt insn <? XLEN x.

Definition c1_expand (x : xlen) (insn : Z) : option instr :=
  let rd := c_rd insn in
  let rd' := c_rs1' insn in
  let imm := c_imm_addi insn mod 2 ^ XLEN x in
  match c_funct3 insn, x with
  | 0, _ => Some (OpImm ADD rd rd imm)
  | 1, RV32 => Some (Jal 1 (c_imm_j insn))
  | 1, RV64 => if rd =? 0 then None else Some (OpImmW ADD rd rd imm)
  | 2, _ => Some (OpImm ADD rd 0 imm)
  | 3, _ =>
      if c_imm_addi insn =? 0 then
        if (rd mod 2 =? 1) && (rd <? 16) then Some (OpImm ADD 0 0 0) else None
      else if rd =? 2 then Some (OpImm ADD 2 2 (c_imm_addi16sp insn mod 2 ^ XLEN x))
      else Some (Lui rd (c_imm_lui insn))
  | 4, _ =>
      match insn / 2 ^ 10 mod 4 with
      | 0 => if c_shamt_ok x insn then Some (OpImm SRL rd' rd' (c_shamt insn)) else None
      | 1 => if c_shamt_ok x insn then Some (OpImm SRA rd' rd' (c_shamt insn)) else None
      | 2 => Some (OpImm AND rd' rd' imm)
      | _ => c1_alu_expand x insn
      end
  | 5, _ => Some (Jal 0 (c_imm_j insn))
  | 6, _ => Some (Branch BEQ rd' 0 (c_imm_b insn))
  | 7, _ => Some (Branch BNE rd' 0 (c_imm_b insn))
  | _, _ => None
  end.

Definition c2_expand (x : xlen) (insn : Z) : option instr :=
  let rd := c_rd insn in
  let rs2 := c_rs2 insn in
  match c_funct3 insn, x with
  | 0, _ => if c_shamt_ok x insn then Some (OpImm SLL rd rd (c_shamt insn)) else None
  | 2, _ => if rd =? 0 then None else Some (Load LW rd 2 (c_imm_lwsp insn))
  | 3, RV64 => if rd =? 0 then None else Some (Load LD rd 2 (c_imm_ldsp insn))
  | 4, _ =>
      match Z.testbit insn 12, rs2 =? 0 with
      | false, true => if rd =? 0 then None else Some (Jalr 0 rd 0)
      | false, false => Some (Op ADD rd 0 rs2)
      | true, true => if rd =? 0 then None else Some (Jalr 1 rd 0)
      | true, false => Some (Op ADD rd rd rs2)
      end
  | 6, _ => Some (Store SW 2 rs2 (c_imm_swsp insn))
  | 7, RV64 => Some (Store SD 2 rs2 (c_imm_sdsp insn))
  | _, _ => None
  end.

(** The expansion of a compressed instruction; [None] for reserved encodings, [c.ebreak] and
    the floating-point loads and stores. *)
Definition c_expand (x : xlen) (insn : Z) : option instr :=
  match insn mod 4 with
  | 0 => c0_expand x insn
  | 1 => c1_expand x insn
  | 2 => c2_expand x insn
  | _ => None
  end.

(** The reserved words, apart from [c.addiw x0], [c.lui] and [c.addi16sp] of zero, and shifts
    by 32 and more on RV32. *)
Definition c_reserved (x : xlen) (insn : Z) : bool :=
  match insn mod 4, c_funct3 insn with
  | 0, 0 => c_imm_addi4spn insn =? 0
  | 0, 4 => (insn / 2 ^ 10 mod 8 =? 3) && Z.testbit insn 6 || (4 <=? insn / 2 ^ 10 mod 8)
  | 1, 4 => (insn / 2 ^ 10 mod 4 =? 3) && bool_decide (c1_alu_expand x insn = None)
  | 2, 2 => c_rd insn =? 0
  | 2, 3 => bool_decide (x = RV64) && (c_rd insn =? 0)
  | 2, 4 => negb (Z.testbit insn 12) && (c_rs2 insn =? 0) && (c_rd insn =? 0)
  | _, _ => false
  end.

(** Where the emulator agrees with the expansion: a register jump to an odd address, and a
    [c.jalr] through [x1], are different. *)
Definition jump_ok (x : xlen) (i : instr) (vm : hart) : Prop :=
  match i with
  | Jalr rd rs1 _ => get_x x vm rs1 mod 2 = 0 /\ (rd = 0 \/ rs1 <> 1)
  | _ => True
  end.

(** ** Decoders *)

Lemma c_funct3_eq insn : bit_ext_u32 insn 13 3 = c_funct3 insn.
Proof. by rewrite bit_ext_u32_div by lia. Qed.
Lemma c_rd_eq insn : bit_ext_u32 insn 7 5 = c_rd insn.
Proof. by rewrite bit_ext_u32_div by lia. Qed.
Lemma c_rs2_eq insn : bit_ext_u32 insn 2 5 = c_rs2 insn.
Proof. by rewrite bit_ext_u32_div by lia. Qed.
Lemma c_rs1'_eq insn : bit_ext_u32 insn 7 3 + 8 = c_rs1' insn.
Proof. rewrite bit_ext_u32_div by lia. apply Z.add_comm. Qed.
Lemma c_rs2'_eq insn : bit_ext_u32 insn 2 3 + 8 = c_rs2' insn.
Proof. rewrite bit_ext_u32_div by lia. apply Z.add_comm. Qed.

#[export] Instance orhom_imm_bits l : OrHom (imm_bits l).
Proof. apply orhom_bit_perm. Qed.

(** Proves that a decoder is the immediate of a table, on all instruction words. *)
Ltac decoder f g :=
  let Hf := fresh in let Hg := fresh in
  assert (OrHom f) as Hf by (cbv delta [f sign_extend bit_ext_i64] beta zeta; apply _);
  assert (OrHom g) as Hg by (cbv delta [g]; apply _);
  apply (orhom_check f g 32); [lia|vm_compute; reflexivity].

Lemma c_imm_addi4spn_eq insn : urange 32 insn -> decode_c_addi4spn_imm insn = c_imm_addi4spn insn.
Proof. decoder decode_c_addi4spn_imm c_imm_addi4spn. Qed.
Lemma c_imm_lw_eq insn : urange 32 insn -> decode_c_lw_off insn = c_imm_lw insn.
Proof. decoder decode_c_lw_off c_imm_lw. Qed.
Lemma c_imm_ld_eq insn : urange 32 insn -> decode_c_ld_off insn = c_imm_ld insn.
Proof. decoder decode_c_ld_off c_imm_ld. Qed.
Lemma c_imm_addi_eq insn : urange 32 insn -> decode_c_alu_imm insn = c_imm_addi insn.
Proof. decoder decode_c_alu_imm c_imm_addi. Qed.
Lemma c_imm_lui_eq insn : urange 32 insn -> decode_c_lui_imm insn = c_imm_lui insn.
Proof. decoder decode_c_lui_imm c_imm_lui. Qed.
Lemma c_imm_addi16sp_eq insn : urange 32 insn -> decode_c_addi16sp_off insn = c_imm_addi16sp insn.
Proof. decoder decode_c_addi16sp_off c_imm_addi16sp. Qed.
Lemma c_imm_j_eq insn : urange 32 insn -> decode_c_jal_imm insn = c_imm_j insn.
Proof. decoder decode_c_jal_imm c_imm_j. Qed.
Lemma c_imm_b_eq insn : urange 32 insn -> decode_c_branch_imm insn = c_imm_b insn.
Proof. decoder decode_c_branch_imm c_imm_b. Qed.
Lemma c_imm_lwsp_eq insn : urange 32 insn -> decode_c_lwsp_off insn = c_imm_lwsp insn.
Proof. decoder decode_c_lwsp_off c_imm_lwsp. Qed.
Lemma c_imm_ldsp_eq insn : urange 32 insn -> decode_c_ldsp_off insn = c_imm_ldsp insn.
Proof. decoder decode_c_ldsp_off c_imm_ldsp. Qed.
Lemma c_imm_swsp_eq insn : urange 32 insn -> decode_c_swsp_off insn = c_imm_swsp insn.
Proof. decoder decode_c_swsp_off c_imm_swsp. Qed.
Lemma c_imm_sdsp_eq insn : urange 32 insn -> decode_c_sdsp_off insn = c_imm_sdsp insn.
Proof. decoder decode_c_sdsp_off c_imm_sdsp. Qed.

Lemma c_imm_lb_eq insn : urange 32 insn -> ((insn .& 0x20) .>> 4) .| ((insn .& 0x40) .>> 6) = c_imm_lb insn.
Proof. apply (orhom_check (fun insn => ((insn .& 0x20) .>> 4) .| ((insn .& 0x40) .>> 6)) c_imm_lb 32); [lia|vm_compute; reflexivity]. Qed.
Lemma c_imm_lh_eq insn : urange 32 insn -> (insn .& 0x20) .>> 4 = c_imm_lh insn.
Proof. apply (orhom_check (fun insn => (insn .& 0x20) .>> 4) c_imm_lh 32); [lia|vm_compute; reflexivity]. Qed.

Lemma c_shamt_split insn : urange 32 insn ->
  c_shamt insn = bit_ext_u32 insn 2 5 + bit_ext_u32 insn 12 1 * 32.
Proof.
  intros Hi. rewrite <- (lor_shiftl_add 5) by (lia || (apply bit_ext_u32_range; lia)). symmetry. revert insn Hi.
  apply (orhom_check (fun insn => bit_ext_u32 insn 2 5 .| (bit_ext_u32 insn 12 1 .<< 5)) c_shamt 32);
    [lia|vm_compute; reflexivity].
Qed.

Lemma c_shamt_eq x insn : urange 32 insn -> c_shamt_ok x insn = true ->
  decode_c_shamt x insn = c_shamt insn /\ 0 <= c_shamt insn < XLEN x.
Proof.
  intros Hi Hok. unfold c_shamt_ok in Hok. apply Z.ltb_lt in Hok.
  pose proof (bit_ext_u32_range insn 2 5 ltac:(lia) ltac:(lia) ltac:(lia)) as H5.
  pose proof (bit_ext_u32_range insn 12 1 ltac:(lia) ltac:(lia) ltac:(lia)) as H1.
  pose proof (c_shamt_split insn Hi) as E. unfold urange in H5, H1. unfold decode_c_shamt.
  destruct x; cbn [XLEN] in *; [lia|]. rewrite lor_shiftl_add by (unfold urange; lia). lia.
Qed.

Lemma c_reg_ranges insn : 0 <= c_rd insn < 32 /\ 0 <= c_rs2 insn < 32 /\ 0 <= c_rs1' insn < 32 /\ 0 <= c_rs2' insn < 32.
Proof.
  unfold c_rd, c_rs2, c_rs1', c_rs2'.
  pose proof (Z.mod_pos_bound (insn / 2 ^ 7) 8). pose proof (Z.mod_pos_bound (insn / 2 ^ 2) 8).
  split_and!; try (apply Z.mod_pos_bound; lia); lia.
Qed.

Lemma nz_bit insn k : 0 <= k < 32 -> nz (insn .& 2 ^ k) = Z.testbit insn k.
Proof. intros. rewrite <- (Z.mul_1_l (2 ^ k)), <- Z.shiftl_mul_pow2 by lia. by apply nz_land_pow. Qed.

(** ** The quadrants *)

Lemma c_load `{Env} x vm (o : lop) rd rs1 off (f : hart -> Z -> Z -> hart) :
  (forall va, f vm va rd = exec_load o rd va vm) ->
  isa_eq x (advance_pc 2 (f vm (wrap (XLEN x) (get_x x vm rs1 + off)) rd)) (exec_len x 2 (Load o rd rs1 off) vm).
Proof. intros E. rewrite E. apply isa_next. Qed.

Lemma c_store `{Env} x vm (o : sop) rs1 rs2 off (f : hart -> Z -> Z -> hart) :
  (forall va, f vm va rs2 = mem_store (sop_size o) vm va (reg vm rs2)) ->
  isa_eq x (advance_pc 2 (f vm (wrap (XLEN x) (get_x x vm rs1 + off)) rs2)) (exec_len x 2 (Store o rs1 rs2 off) vm).
Proof. intros E. rewrite E. apply isa_next. Qed.

Section Quadrants.
Context `{Env} (x : xlen) (vm : hart) (insn : Z).
Hypotheses (Hi : urange 32 insn) (Hz : reg vm 0 = 0).

Local Abbreviation go i := (exec_len x 2 i vm).

Ltac cfields := rewrite ?c_funct3_eq, ?c_rs1'_eq, ?c_rs2'_eq, ?c_rd_eq, ?c_rs2_eq;
  rewrite ?(read_get x vm) by done; cbv zeta.

Ltac access :=
  lazymatch goal with
  | |- isa_eq _ _ (exec_len _ _ (Load ?o _ _ _) _) =>
      apply (c_load _ _ o); intros;
      lazymatch o with
      | LW => apply load_s32_width | LD => apply load_u64_width | LBU => apply load_u8_width
      | LHU => apply load_u16_width | LH => apply load_s16_width
      end
  | |- isa_eq _ _ (exec_len _ _ (Store ?o _ _ _) _) =>
      apply (c_store _ _ o); intros;
      lazymatch o with
      | SW => apply store_u32_width | SD => apply store_u64_width
      | SB => apply store_u8_width | SH => apply store_u16_width
      end
  end.

(** Reads off the expansion. *)
Ltac expanded := lazymatch goal with |- None = Some _ -> _ => discriminate | |- Some _ = Some _ -> _ => intros [= <-] end.

Lemma c0_refines i : c0_expand x insn = Some i ->
  isa_eq x (advance_pc 2 (riscv_emulate_c_c0 x vm insn)) (go i).
Proof.
  destruct (c_reg_ranges insn) as (R1 & R2 & R3 & R4).
  unfold riscv_emulate_c_c0, c0_expand. cfields.
  rewrite c_imm_addi4spn_eq, c_imm_lw_eq, c_imm_ld_eq, c_imm_lb_eq, c_imm_lh_eq by done.
  change (insn .& 0x40) with (insn .& 2 ^ 6). rewrite nz_bit by lia.
  rewrite bit_ext_u32_div by lia. change (2 ^ 3) with 8.
  pose proof (Z.mod_pos_bound (insn / 2 ^ 10) 8 ltac:(lia)) as Hop. 
  pattern (c_funct3 insn). apply below_8; [apply Z.mod_pos_bound; lia|..]; eval_cmp.
  - unfold nz. case_bool; expanded. cbn [negb]. apply isa_write; [done|apply xl_xl].
  - expanded.
  - expanded. access.
  - destruct x; expanded. access.
  - pattern (insn / 2 ^ 10 mod 8). apply below_8; [done|..]; eval_cmp; try (destruct (Z.testbit insn 6); cbn [negb]);
      expanded; access.
  - expanded.
  - expanded. access.
  - destruct x; expanded. access.
Qed.

(** Quadrant 1, arithmetic. *)

Lemma c_alu_key : insn .& 0x1C60 = insn / 2 ^ 5 mod 4 * 32 + insn / 2 ^ 10 mod 8 * 1024.
Proof.
  change 0x1C60 with ((Z.ones 2 .<< 5) .| (Z.ones 3 .<< 10)).
  rewrite Z.land_lor_distr_r, !land_field by lia.
  pose proof (wrap_range 2 (insn .>> 5) ltac:(lia)) as Hr. unfold urange in Hr.
  rewrite lor_shiftl_add by (unfold urange; rewrite ?Z.shiftl_mul_pow2 by lia; lia).
  rewrite Z.shiftl_mul_pow2, !Z.shiftr_div_pow2 by lia. done.
Qed.

Lemma c_funct2_split : insn / 2 ^ 10 mod 4 = insn / 2 ^ 10 mod 8 mod 4 /\
  Z.testbit insn 12 = Z.testbit (insn / 2 ^ 10 mod 8) 2.
Proof.
  split; [change (2 ^ 10) with 1024; dlia|].
  change 8 with (2 ^ 3). fold (wrap 3 (insn / 2 ^ 10)). rewrite testbit_wrap, <- Z.shiftr_div_pow2, testbit_shiftr by lia.
  done.
Qed.

Lemma word_sub a b : wrap (XLEN RV64) (s32 (wrap (XLEN RV64) (a - b))) = wrap (XLEN RV64) (wop_eval (W SUB) a b).
Proof.
  apply w_of_op. cbn [XLEN rop_eval]. rewrite wrap_wrap_le by lia. by rewrite wrap_sub_l, wrap_sub_r.
Qed.

Lemma word_add a b : wrap (XLEN RV64) (s32 (wrap (XLEN RV64) (a + b))) = wrap (XLEN RV64) (wop_eval (W ADD) a b).
Proof.
  apply w_of_op. cbn [XLEN rop_eval]. rewrite wrap_wrap_le by lia. by rewrite wrap_add_l, wrap_add_r.
Qed.

Lemma c_not_eq y a : wrap (XLEN y) (wrap (XLEN y) (Z.lnot a)) = wrap (XLEN y) (rop_eval y XOR a (2 ^ XLEN y - 1)).
Proof.
  apply xl_bits. intros i Hb. rewrite testbit_in by done. cbn [rop_eval].
  change (2 ^ XLEN y - 1) with (Z.pred (2 ^ XLEN y)). rewrite <- Z.ones_equiv, Z.lxor_spec, testbit_ones, Z.lnot_spec by lia.
  destruct (Z.ltb_spec i (XLEN y)); [|lia]. by rewrite xorb_true_r.
Qed.

Lemma c_zext_b_eq y a : wrap (XLEN y) (u8 a) = wrap (XLEN y) (rop_eval y AND a 0xFF).
Proof. by rewrite (wrap_land 8) by lia. Qed.
Lemma c_zext_h_eq y a : wrap (XLEN y) (u16 a) = wrap (XLEN y) (rop_eval y AND a 0xFFFF).
Proof. by rewrite (wrap_land 16) by lia. Qed.

Lemma c_zext_w_eq a : wrap (XLEN RV64) (u32 a) = wrap (XLEN RV64) (wop_eval (ADD_UW 0) a 0).
Proof. f_equal. cbn [wop_eval]. unfold wrap. lia. Qed.

Lemma get_x_0 y : get_x y vm 0 = 0.
Proof. done. Qed.

Hint Resolve word_sub word_add c_not_eq c_zext_b_eq c_zext_h_eq : isa_ops.

Ltac c_leaf := apply isa_write; [done|first [solve [auto with isa_ops]|apply c_zext_w_eq]].

Lemma c1_binary_refines i : insn / 2 ^ 10 mod 4 = 3 -> c1_alu_expand x insn = Some i ->
  isa_eq x (advance_pc 2 (emulate_c_c1_alu x vm insn)) (go i).
Proof.
  intros E2. destruct (c_reg_ranges insn) as (_ & _ & R3 & R4).
  unfold emulate_c_c1_alu, c1_alu_expand. cfields. rewrite c_alu_key.
  rewrite (bit_ext_u32_div insn 10 2), (bit_ext_u32_div insn 2 3) by lia. change (2 ^ 2) with 4. change (2 ^ 3) with 8.
  destruct c_funct2_split as [E2' ->]. rewrite E2. rewrite E2 in E2'.
  pose proof (Z.mod_pos_bound (insn / 4) 8 ltac:(lia)) as H3.
  pose proof (Z.mod_pos_bound (insn / 2 ^ 10) 8 ltac:(lia)) as Hf.
  assert (insn / 2 ^ 10 mod 8 = 3 \/ insn / 2 ^ 10 mod 8 = 7) as [-> | ->] by dlia;
    (pattern (insn / 2 ^ 5 mod 4); apply below_4; [apply Z.mod_pos_bound; lia|..]);
    eval_cmp; cbn [Z.testbit Pos.testbit Pos.pred_N Pos.pred_double andb].
  1-4: expanded; c_leaf.
  - destruct x; expanded. c_leaf.
  - destruct x; expanded. c_leaf.
  - expanded. c_leaf.
  - pattern (insn / 4 mod 8). apply below_8; [done|..]; eval_cmp; cbn [andb]; try expanded; try c_leaf.
    destruct x; expanded. c_leaf.
Qed.

(** Quadrant 1. *)

Lemma xl_pc_off2 y off : wrap (XLEN y) (wrap (XLEN y) (riscv_read_reg y vm RISCV_REG_PC + off - 2)) =
  wrap (XLEN y) (get_pc y vm + off - 2).
Proof. apply xl_xl. Qed.

Lemma c_imm_zero : nz (insn .& 0x107C) = negb (c_imm_addi insn =? 0).
Proof.
  unfold nz. f_equal. change 0x107C with ((Z.ones 5 .<< 2) .| (Z.ones 1 .<< 12)).
  rewrite Z.land_lor_distr_r, !land_field by lia.
  assert (c_imm_addi insn = signed 6 (c_shamt insn)) as -> by done. rewrite c_shamt_split by done.
  rewrite !bit_ext_u32_div, <- !Z.shiftr_div_pow2 by lia. fold (wrap 5 (insn .>> 2)) (wrap 1 (insn .>> 12)).
  pose proof (wrap_range 5 (insn .>> 2) ltac:(lia)) as H5. pose proof (wrap_range 1 (insn .>> 12) ltac:(lia)) as H1.
  unfold urange in *. rewrite lor_shiftl_add by (unfold urange; rewrite ?Z.shiftl_mul_pow2 by lia; lia).
  rewrite Z.shiftl_mul_pow2 by lia. rewrite signed_cases by (unfold urange; lia). change (2 ^ (6 - 1)) with 32.
  destruct (Z.ltb_spec (wrap 5 (insn .>> 2) + wrap 1 (insn .>> 12) * 32) 32);
    match goal with |- (?p =? 0) = (?q =? 0) => destruct (Z.eqb_spec p 0), (Z.eqb_spec q 0) end; done || lia.
Qed.

Lemma c_mop_cond r : 0 <= r < 32 -> nz (r .& 0x01) && negb (nz (r .& 0x10)) = (r mod 2 =? 1) && (r <? 16).
Proof.
  intros Hr. apply eqb_prop. revert r Hr. apply (forallb_below (fun r => eqb (nz (r .& 0x01) && negb (nz (r .& 0x10))) ((r mod 2 =? 1) && (r <? 16)))).
  vm_compute. reflexivity.
Qed.

Lemma c1_alu_refines i : c_funct3 insn = 4 -> c1_expand x insn = Some i ->
  isa_eq x (advance_pc 2 (emulate_c_c1_alu x vm insn)) (go i).
Proof.
  intros E3. unfold c1_expand. rewrite E3. destruct (c_reg_ranges insn) as (_ & _ & R3 & _).
  destruct (Z.eq_dec (insn / 2 ^ 10 mod 4) 3) as [E2|N3].
  { rewrite E2. by apply c1_binary_refines. }
  unfold emulate_c_c1_alu. cfields. rewrite (bit_ext_u32_div insn 10 2), c_imm_addi_eq by (done || lia).
  change (2 ^ 2) with 4. pose proof (c_shamt_eq x insn Hi) as Hsh. revert N3.
  pattern (insn / 2 ^ 10 mod 4). apply below_4; [apply Z.mod_pos_bound; lia|..]; intros N3; eval_cmp.
  - destruct (c_shamt_ok x insn); expanded. destruct Hsh as [-> Hs]; [done|].
    apply isa_write; [done|]. by apply imm_srl.
  - destruct (c_shamt_ok x insn); expanded. destruct Hsh as [-> Hs]; [done|].
    apply isa_write; [done|]. by apply imm_sra.
  - expanded. by apply isa_write.
  - by destruct N3.
Qed.

Lemma c_branch (c : bool) off :
  isa_eq x (advance_pc 2 (if c then riscv_write_reg x vm RISCV_REG_PC
    (wrap (XLEN x) (riscv_read_reg x vm RISCV_REG_PC + off - 2)) else vm))
    (if c then goto x (get_pc x vm + off) vm else next_by x 2 vm).
Proof. destruct c; [|apply isa_next]. apply isa_goto; [done|apply xl_pc_off2]. Qed.

Lemma c1_refines i : c1_expand x insn = Some i ->
  isa_eq x (advance_pc 2 (riscv_emulate_c_c1 x vm insn)) (go i).
Proof.
  pose proof (c1_alu_refines i) as Halu. pose proof c_branch as Hbr.
  destruct (c_reg_ranges insn) as (R1 & R2 & R3 & R4). revert Halu Hbr.
  unfold riscv_emulate_c_c1, c1_expand. cfields. rewrite c_imm_zero, c_mop_cond by done.
  rewrite c_imm_addi_eq, c_imm_addi16sp_eq, c_imm_lui_eq, c_imm_j_eq, c_imm_b_eq by done.
  pattern (c_funct3 insn). apply below_8; [apply Z.mod_pos_bound; lia|..]; intros Halu Hbr; eval_cmp.
  - expanded. apply isa_write; [done|]. rewrite xl_xl. symmetry. apply wrap_add_r.
  - destruct x; [expanded|unfold nz; case_bool; expanded].
    + apply isa_goto; [|apply xl_pc_off2]. apply isa_put; [lia|apply xl_xl].
    + apply isa_write; [done|]. rewrite <- wrap_add_r. apply word_add.
  - expanded. apply isa_write; [done|]. symmetry. apply xl_xl.
  - destruct (c_imm_addi insn =? 0); cbn [negb].
    + destruct ((c_rd insn mod 2 =? 1) && (c_rd insn <? 16)); expanded. apply isa_next.
    + change RISCV_REG_X2 with 2. destruct (c_rd insn =? 2); expanded; [|by apply isa_write]. apply isa_write; [lia|]. rewrite xl_xl. symmetry. apply wrap_add_r.
  - by apply Halu.
  - expanded. apply (Hbr true).
  - expanded. cbn [exec_len bop_eval]. rewrite get_x_0. unfold nz.
    destruct (get_x x vm (c_rs1' insn) =? 0); [apply (Hbr true)|apply (Hbr false 0)].
  - expanded. cbn [exec_len bop_eval]. rewrite get_x_0. unfold nz.
    destruct (get_x x vm (c_rs1' insn) =? 0); [apply (Hbr false 0)|apply (Hbr true)].
Qed.

(** Quadrant 2. *)

Lemma c_funct4_split : bit_ext_u32 insn 12 4 = 2 * c_funct3 insn + Z.b2z (Z.testbit insn 12).
Proof.
  rewrite bit_ext_u32_div by lia. unfold c_funct3. rewrite Z.testbit_spec' by lia.
  change (2 ^ 13) with (2 * 2 ^ 12). change (2 ^ 4) with 16. change (2 ^ 12) with 4096. dlia.
Qed.

Lemma c_jump_target r : get_x x vm r mod 2 = 0 -> wrap (XLEN x) (wrap (XLEN x) (get_x x vm r - 2)) =
  wrap (XLEN x) ((get_x x vm r + 0) / 2 * 2 - 2).
Proof. intros Hr. rewrite xl_xl. do 2 f_equal. dlia. Qed.

Lemma c_read_link r v : 1 < r -> riscv_read_reg x (riscv_write_reg x vm RISCV_REG_X1 v) r = get_x x vm r.
Proof.
  intros Hr. rewrite <- read_get by done. unfold riscv_read_reg, riscv_write_reg. rewrite reg_set.
  change RISCV_REG_X1 with 1. by destruct (Z.eqb_spec 1 r); [lia|].
Qed.

Lemma c2_refines i : c2_expand x insn = Some i -> jump_ok x i vm ->
  isa_eq x (advance_pc 2 (riscv_emulate_c_c2 x vm insn)) (go i).
Proof.
  destruct (c_reg_ranges insn) as (R1 & R2 & R3 & R4). pose proof (c_shamt_eq x insn Hi) as Hsh.
  unfold riscv_emulate_c_c2, c2_expand. cfields. rewrite c_funct4_split.
  rewrite c_imm_lwsp_eq, c_imm_ldsp_eq, c_imm_swsp_eq, c_imm_sdsp_eq by done.
  pattern (c_funct3 insn). apply below_8; [apply Z.mod_pos_bound; lia|..]; destruct (Z.testbit insn 12);
    cbn [Z.b2z]; eval_cmp; cbn [orb]; unfold nz.
  1, 2: destruct (c_shamt_ok x insn); expanded; destruct Hsh as [-> Hs]; [done|]; intros _;
    apply isa_write; [done|by apply imm_sll].
  1, 2: expanded.
  1, 2: destruct (c_rd insn =? 0); expanded; intros _; access.
  1, 2: destruct x; [expanded|]; destruct (c_rd insn =? 0); expanded; intros _; access.
  - destruct (c_rs2 insn =? 0); [destruct (Z.eqb_spec (c_rd insn) 0)|]; expanded; cbn [negb].
    + intros [Hev [?|Hne]]; [done|]. rewrite c_read_link by lia. apply isa_goto; [|by apply c_jump_target].
      apply isa_put; [lia|apply xl_xl].
    + intros _. apply isa_write; [done|apply xl_xl].
  - destruct (c_rs2 insn =? 0); [destruct (Z.eqb_spec (c_rd insn) 0)|]; expanded; cbn [negb].
    + intros [Hev _]. apply isa_goto; [done|by apply c_jump_target].
    + intros _. by apply isa_write.
  - expanded.
  - expanded.
  - expanded. intros _. access.
  - expanded. intros _. access.
  - destruct x; expanded. intros _. access.
  - destruct x; expanded. intros _. access.
Qed.

(** Reserved words. *)

Lemma c0_reserved : insn mod 4 = 0 -> c_reserved x insn = true -> riscv_emulate_c_c0 x vm insn = riscv_illegal_insn vm insn.
Proof.
  intros E. unfold c_reserved. rewrite E. unfold riscv_emulate_c_c0. cfields. rewrite c_imm_addi4spn_eq by done.
  change (insn .& 0x40) with (insn .& 2 ^ 6). rewrite nz_bit by lia. rewrite bit_ext_u32_div by lia. change (2 ^ 3) with 8.
  pattern (c_funct3 insn). apply below_8; [apply Z.mod_pos_bound; lia|..]; eval_cmp; try done.
  - unfold nz. by intros ->.
  - pattern (insn / 2 ^ 10 mod 8). apply below_8; [apply Z.mod_pos_bound; lia|..]; eval_cmp; cbn [andb orb]; try done. rewrite orb_false_r. by intros ->.
Qed.

Lemma c1_reserved : insn mod 4 = 1 -> c_reserved x insn = true -> riscv_emulate_c_c1 x vm insn = riscv_illegal_insn vm insn.
Proof.
  intros E. unfold c_reserved. rewrite E. unfold riscv_emulate_c_c1. rewrite c_funct3_eq. cbv zeta.
  pattern (c_funct3 insn). apply below_8; [apply Z.mod_pos_bound; lia|..]; eval_cmp; try done.
  intros [E2%Z.eqb_eq Hn%bool_decide_eq_true]%andb_true_iff. revert Hn. unfold emulate_c_c1_alu, c1_alu_expand. cfields. rewrite c_alu_key.
  rewrite (bit_ext_u32_div insn 10 2), (bit_ext_u32_div insn 2 3) by lia. change (2 ^ 2) with 4. change (2 ^ 3) with 8.
  destruct c_funct2_split as [E2' ->]. rewrite E2. rewrite E2 in E2'. pose proof (Z.mod_pos_bound (insn / 4) 8 ltac:(lia)) as H3.
  pose proof (Z.mod_pos_bound (insn / 2 ^ 10) 8 ltac:(lia)) as Hf.
  assert (insn / 2 ^ 10 mod 8 = 3 \/ insn / 2 ^ 10 mod 8 = 7) as [-> | ->] by dlia;
    (pattern (insn / 2 ^ 5 mod 4); apply below_4; [apply Z.mod_pos_bound; lia|..]);
    eval_cmp; cbn [Z.testbit Pos.testbit Pos.pred_N Pos.pred_double andb]; try done; try (by destruct x).
  pattern (insn / 4 mod 8). apply below_8; [done|..]; eval_cmp; cbn [andb]; try done. by destruct x.
Qed.

Lemma c2_reserved : insn mod 4 = 2 -> c_reserved x insn = true -> riscv_emulate_c_c2 x vm insn = riscv_illegal_insn vm insn.
Proof.
  intros E. unfold c_reserved. rewrite E. unfold riscv_emulate_c_c2. cfields. rewrite c_funct4_split.
  pattern (c_funct3 insn). apply below_8; [apply Z.mod_pos_bound; lia|..]; destruct (Z.testbit insn 12); cbn [Z.b2z]; eval_cmp; cbn [orb]; unfold nz; try done.
  1, 2: by intros ->.
  1, 2: destruct x; [done|]; by intros [_ ->]%andb_true_iff.
  by intros [[_ ->]%andb_true_iff ->]%andb_true_iff.
Qed.

End Quadrants.

(** ** The whole extension *)

Lemma imm_bits_low l insn : Forall (fun i => i < 16) l -> imm_bits l (insn mod 2 ^ 16) = imm_bits l insn.
Proof.
  intros Hl. unfold imm_bits, bit_perm. fold (wrap 16 insn).
  assert (forall i, nth (Z.to_nat i) l (-1) < 16) as Hn.
  { intros i. destruct (nth_in_or_default (Z.to_nat i) l (-1)) as [Hin| ->]; [|lia].
    exact (proj1 (Forall_forall _ _) Hl _ Hin). }
  induction (seqZ 0 (Z.of_nat (length l))) as [|i m IH]; [done|]. cbn [foldr]. rewrite IH. f_equal.
  specialize (Hn i). destruct (Z.lt_ge_cases (nth (Z.to_nat i) l (-1)) 0); [by rewrite !Z.testbit_neg_r by done|].
  rewrite testbit_wrap by lia. by destruct (Z.ltb_spec (nth (Z.to_nat i) l (-1)) 16); [|lia].
Qed.

(** Only the low parcel of the fetched word matters. *)
Lemma c_expand_low x insn : c_expand x (insn mod 2 ^ 16) = c_expand x insn.
Proof.
  assert (forall p n m, m = 2 ^ n -> 0 <= p -> 0 <= n -> p + n <= 16 ->
    insn mod 2 ^ 16 / 2 ^ p mod m = insn / 2 ^ p mod m) as Hf.
  { intros p n m -> Hp Hn Hpn. fold (wrap 16 insn). rewrite <- !Z.shiftr_div_pow2 by done.
    change (wrap n (wrap 16 insn .>> p) = wrap n (insn .>> p)). apply Z.bits_inj'. intros i Hi.
    rewrite !testbit_wrap, !testbit_shiftr, testbit_wrap by lia.
    destruct (Z.ltb_spec i n); [|done]. by destruct (Z.ltb_spec (i + p) 16); [|lia]. }
  assert (forall i, 0 <= i < 16 -> Z.testbit (insn mod 2 ^ 16) i = Z.testbit insn i) as Hb.
  { intros i Hi. fold (wrap 16 insn). rewrite testbit_wrap by lia. by destruct (Z.ltb_spec i 16); [|lia]. }
  assert (insn mod 2 ^ 16 mod 4 = insn mod 4) as E0 by (change (2 ^ 16) with 65536; dlia).
  unfold c_expand, c0_expand, c1_expand, c2_expand, c1_alu_expand, c_shamt_ok, c_shamt, c_imm_addi, c_imm_lui,
    c_imm_addi16sp, c_imm_j, c_imm_b, c_imm_addi4spn, c_imm_lw, c_imm_ld, c_imm_lb, c_imm_lh, c_imm_lwsp,
    c_imm_ldsp, c_imm_swsp, c_imm_sdsp, c_funct3, c_rd, c_rs2, c_rs1', c_rs2'.
  rewrite E0, !imm_bits_low by (repeat constructor). rewrite !Hb by lia.
  rewrite (Hf 13 3 8), (Hf 10 3 8), (Hf 10 2 4), (Hf 7 5 32), (Hf 7 3 8), (Hf 5 2 4), (Hf 2 5 32), (Hf 2 3 8) by done.
  done.
Qed.



(** where compressed instructions are not their expansions.  [c.jalr x1] reads its target
    after writing the link, so it continues at the next instruction; the reserved
    [c.addiw x0, 1] is executed as [c.srli x8, 1]; [c.fswsp f2, 4(sp)] of RV32 takes its
    offset from the fields of [c.lwsp] and stores at [sp + 128]. *)
Theorem compressed_deviations `{Env} x vm :
  get_pc x (advance_pc 2 (riscv_emulate_c_c2 x vm 0x9082)) = wrap (XLEN x) (pc vm + 2) /\
  c_expand RV64 0x2005 = None /\
  riscv_emulate_c_c1 RV64 vm 0x2005 = riscv_write_reg RV64 vm 8 (riscv_read_reg RV64 vm 8 .>> 1) /\
  c_imm_swsp 0xE20A = 4 /\
  riscv_emulate_c_c2 RV32 vm 0xE20A =
    (if riscv_fpu_is_enabled vm then riscv_store_float vm (u32 (riscv_read_reg RV32 vm 2 + 128)) 2
     else riscv_illegal_insn vm 0xE20A).
Proof.
  split; [|split_and!; reflexivity].
  change (riscv_emulate_c_c2 x vm 0x9082) with
    (let vm' := riscv_write_reg x vm RISCV_REG_X1 (wrap (XLEN x) (riscv_read_reg x vm RISCV_REG_PC + 2)) in
     riscv_write_reg x vm' RISCV_REG_PC (wrap (XLEN x) (riscv_read_reg x vm' 1 - 2))).
  cbv zeta. unfold advance_pc. rewrite get_pc_set, wrap_xlen_64. unfold riscv_write_reg, riscv_read_reg, pc.
  rewrite !reg_set. eval_cmp. rewrite !wrap_xlen_64, wrap_signed_xlen, xl_xl.
  rewrite <- wrap_add_l, wrap_xlen_64, wrap_signed_xlen, xl_xl, wrap_add_l.
  change (reg vm RISCV_REG_PC) with (registers vm RISCV_REG_PC). unfold wrap.
  rewrite <- Z.add_opp_r, <- Z.add_assoc, Zplus_mod_idemp_l, <- !Z.add_assoc, Zplus_mod_idemp_l. done.
Qed.
