(* ===== verification/AtomicsProps.v ===== *)
(** * Properties of the atomic instructions

    Reference semantics of the A, Zabha and Zacas extensions for operands in RAM, and the
    theorems that the emulator implements it: an AMO replaces the operand by the operation
    of the old value and [rs2] and returns the old value; LR records a reservation; SC
    stores exactly when the reservation holds and always ends it; a compare-and-swap stores
    exactly when the comparison holds.  The byte minimum and maximum, and the double-word
    compare-and-swap of RV32, are the exceptions. *)

From S2P Require Import Prelude BitOps MemOps State Tlb Hart Mmu MmuProps Base IsaSpec.
From S2P Require Import CsrDefs Csr Atomics Priv Compressed BaseProps.

(** ** Reference semantics *)

Inductive amo := AmoSwap | AmoAdd | AmoXor | AmoAnd | AmoOr | AmoMin | AmoMax | AmoMinu | AmoMaxu.

#[export] Instance amo_eq_dec : EqDecision amo.
Proof. solve_decision. Defined.

(** [funct5]. *)
Definition amo_code (o : amo) : Z :=
  match o with
  | AmoSwap => 0x01 | AmoAdd => 0x00 | AmoXor => 0x04 | AmoAnd => 0x0C | AmoOr => 0x08
  | AmoMin => 0x10 | AmoMax => 0x14 | AmoMinu => 0x18 | AmoMaxu => 0x1C
  end.

(** The new value of a [w]-bit operand, from its old value and [rs2]. *)
Definition amo_eval (w : Z) (o : amo) (old val : Z) : Z :=
  match o with
  | AmoSwap => val
  | AmoAdd => old + val
  | AmoXor => Z.lxor old val
  | AmoAnd => Z.land old val
  | AmoOr => Z.lor old val
  | AmoMin => Z.min (signed w old) (signed w val)
  | AmoMax => Z.max (signed w old) (signed w val)
  | AmoMinu => Z.min old val
  | AmoMaxu => Z.max old val
  end.

(** The operand widths: [funct3] is the logarithm of the size in bytes. *)
Definition amo_width (x : xlen) (insn : Z) (n : nat) : Prop :=
  (f_funct3 insn = 0 /\ n = 1%nat) \/ (f_funct3 insn = 1 /\ n = 2%nat) \/
  (f_funct3 insn = 2 /\ n = 4%nat) \/ (f_funct3 insn = 3 /\ n = 8%nat /\ x = RV64).

(** The signed byte operations, which the emulator gets wrong. *)
Definition byte_minmax (n : nat) (o : amo) : bool :=
  (n =? 1)%nat && bool_decide (o = AmoMin \/ o = AmoMax).

Definition AMO_OPCODE : Z := 0x2F.

(** The operand of an atomic instruction is in RAM, at host address [a]. *)
Definition rmw_ram `{Env} (vm : hart) (va : Z) (n : nat) (vm' : hart) (a : Z) : Prop :=
  exists buf, riscv_rmw_translate vm va (Some (replicate n 0)) (Z.of_nat n) = (vm', PHost a, buf).
Definition ro_ram `{Env} (vm : hart) (va : Z) (n : nat) (vm' : hart) (a : Z) : Prop :=
  exists buf, riscv_ro_translate vm va (Some (replicate n 0)) (Z.of_nat n) = (vm', PHost a, buf).

(** The operand, and storing it. *)
Definition mem_get (n : nat) (vm : hart) (a : Z) : Z := le_combine (get_bytes n vm.(host) a).
Definition mem_put (n : nat) (v : Z) (a : Z) (vm : hart) : hart :=
  set_host (put_bytes vm.(host) a (le_split n v)) vm.

(** ** The stored value *)

Lemma amo_value_eq n o old val : width_ok n -> byte_minmax n o = false ->
  let w := 8 * Z.of_nat n in urange w old -> urange w val ->
  exists new, amo_value w (amo_code o) old val = Some new /\ wrap w new = wrap w (amo_eval w o old val).
Proof.
  intros Hn Hb w Ho Hv. assert (0 < w) as Hw by (subst w; destruct Hn as [->|[->|[->| ->]]]; lia).
  destruct o; cbv [amo_value amo_code amo_eval]; eval_cmp; eexists; (split; [reflexivity|]); try done.
  - unfold atomic_add. apply wrap_wrap. lia.
  - destruct (Z.eqb_spec w 8).
    { exfalso. assert (n = 1%nat) as -> by lia. done. }
    unfold atomic_min_int. rewrite wrap_wrap by lia. f_equal. case_bool; lia.
  - destruct (Z.eqb_spec w 8).
    { exfalso. assert (n = 1%nat) as -> by lia. done. }
    unfold atomic_max_int. rewrite wrap_wrap by lia. f_equal. case_bool; lia.
  - unfold atomic_minu_uint. f_equal. case_bool; lia.
  - unfold atomic_maxu_uint. f_equal. case_bool; lia.
Qed.

Lemma le_split_congr n v v' : wrap (8 * Z.of_nat n) v = wrap (8 * Z.of_nat n) v' -> le_split n v = le_split n v'.
Proof. intros E. by rewrite <- (le_split_wrap n v), E, le_split_wrap. Qed.

Lemma mem_get_range n vm a : hart_wf vm -> urange (8 * Z.of_nat n) (mem_get n vm a).
Proof.
  intros H. pose proof (le_combine_range _ (get_bytes_bytes n _ a (wf_host _ H))) as Hr.
  by rewrite length_get_bytes in Hr.
Qed.

(** The fields of an atomic instruction, once the handler is unfolded. *)
Ltac amo_fields E Hz := rewrite !f_rd_eq, !f_rs1_eq, !f_rs2_eq, Z.shiftr_div_pow2 by lia;
  rewrite ?E, ?(read_get _ _ _ Hz); cbv zeta.

(** Evaluates a concrete operand size. *)
Ltac norm_width :=
  change (8 * Z.of_nat 1) with 8 in *; change (8 * Z.of_nat 2) with 16 in *;
  change (8 * Z.of_nat 4) with 32 in *; change (8 * Z.of_nat 8) with 64 in *;
  change (Z.of_nat 1) with 1 in *; change (Z.of_nat 2) with 2 in *;
  change (Z.of_nat 4) with 4 in *; change (Z.of_nat 8) with 8 in *.

Section Amo.
Context `{Env} (x : xlen).

Lemma amo_switch_ram n o vm a buf rds val : width_ok n -> byte_minmax n o = false -> hart_wf vm ->
  let w := 8 * Z.of_nat n in
  amo_switch x n (amo_code o) vm (PHost a) buf rds (wrap w val) =
  (riscv_write_reg x (mem_put n (amo_eval w o (mem_get n vm a) (val mod 2 ^ w)) a vm) rds (signed w (mem_get n vm a)), buf).
Proof.
  intros Hn Hb Hwf w. unfold amo_switch. replace (amo_code o =? RISCV_AMO_CAS) with false by (by destruct o).
  fold w. cbn [cell_load]. fold (mem_get n vm a).
  destruct (amo_value_eq n o (mem_get n vm a) (wrap w val) Hn Hb) as (new & E & Hnew).
  - by apply mem_get_range.
  - apply wrap_range. lia.
  - fold w in E, Hnew. rewrite E. cbn [cell_store]. rewrite (le_split_congr n new _ Hnew). done.
Qed.

Lemma amo_dispatch `{Fpu} vm insn : f_opcode insn = AMO_OPCODE ->
  riscv_emulate_insn x vm insn = advance_pc 4 (riscv_emulate_a_opc_amo x vm insn).
Proof.
  intros E. assert (insn mod 4 = 3) as H3.
  { unfold f_opcode, AMO_OPCODE in E. change (2 ^ 7) with 128 in E. dlia. }
  destruct (opcode_bits insn H3) as [E2 E7]. unfold riscv_emulate_insn, riscv_emulate_i.
  rewrite E2, E7, E. reflexivity.
Qed.

Lemma aligned_ok (b : bool) : negb b = true -> b = false.
Proof. by destruct b. Qed.

Lemma amo_ram o n vm insn vm' a : urange 32 insn -> reg vm 0 = 0 ->
  amo_width x insn n -> insn / 2 ^ 27 = amo_code o -> byte_minmax n o = false ->
  get_x x vm (f_rs1 insn) mod Z.of_nat n = 0 ->
  rmw_ram vm (get_x x vm (f_rs1 insn)) n vm' a -> hart_wf vm' ->
  let w := 8 * Z.of_nat n in
  riscv_emulate_a_opc_amo x vm insn =
  riscv_write_reg x (mem_put n (amo_eval w o (mem_get n vm' a) (get_x x vm (f_rs2 insn) mod 2 ^ w)) a vm')
    (f_rd insn) (signed w (mem_get n vm' a)).
Proof.
  intros Hi Hz Hn E Hb Ha [buf Ht] Hwf w. unfold riscv_emulate_a_opc_amo. rewrite f_funct3_eq.
  assert (forall m, m = 0x11111133 \/ m = 0x1111113F -> nz ((1 .<< amo_code o) .& m) = true) as Hop.
  { intros m [->| ->]; destruct o; reflexivity. }
  assert ((amo_code o =? RISCV_AMO_LR) = false) as Hlr by by destruct o.
  assert ((amo_code o =? RISCV_AMO_SC) = false) as Hsc by by destruct o.
  assert (width_ok n) as Hw by (destruct Hn as [[_ ->]|[[_ ->]|[[_ ->]|(_ & -> & _)]]]; unfold width_ok; tauto).
  pose proof (amo_switch_ram n o vm' a (default [] buf) (f_rd insn) (get_x x vm (f_rs2 insn)) Hw Hb Hwf) as Hsw.
  cbv zeta in Hsw. subst w.
  destruct Hn as [[-> ->]|[[-> ->]|[[-> ->]|(-> & -> & Hx)]]]; eval_cmp; norm_width.
  - unfold riscv_emulate_atomic_b. amo_fields E Hz. rewrite Hop by tauto. cbn [negb].
    rewrite Ht. cbn [mmu_ptr_ok negb]. by rewrite Hsw.
  - unfold riscv_emulate_atomic_h. amo_fields E Hz. rewrite Hop by tauto. cbn [negb].
    rewrite (aligned_ok _ (eq_trans (aligned_2 _) (proj2 (Z.eqb_eq _ _) Ha))).
    rewrite Ht. cbn [mmu_ptr_ok negb]. by rewrite Hsw.
  - unfold riscv_emulate_atomic_w. amo_fields E Hz. rewrite Hop, Hlr, Hsc by tauto. cbn [negb].
    rewrite (aligned_ok _ (eq_trans (aligned_4 _) (proj2 (Z.eqb_eq _ _) Ha))).
    rewrite Ht. cbn [mmu_ptr_ok negb]. by rewrite Hsw.
  - transitivity (riscv_emulate_atomic_d x vm insn); [by rewrite Hx|].
    unfold riscv_emulate_atomic_d. amo_fields E Hz. rewrite Hop, Hlr, Hsc by tauto. cbn [negb].
    rewrite (aligned_ok _ (eq_trans (aligned_8 _) (proj2 (Z.eqb_eq _ _) Ha))).
    rewrite Ht. cbn [mmu_ptr_ok negb]. by rewrite Hsw.
Qed.

End Amo.

(** ** The invariant *)

Section AtomicsWf.
Context `{env : Env} {Henv : EnvOk env} (x : xlen).

Lemma ro_translate_wf vm va data size : hart_wf vm -> urange 64 va -> buffer_ok data ->
  let '(vm', _, data') := riscv_ro_translate vm va data size in hart_wf vm' /\ buffer_ok data'.
Proof. intros. unfold riscv_ro_translate. cbv zeta. case_bool; [done|]. by apply mmu_op_helper_wf. Qed.

Lemma rmw_translate_wf vm va data size : hart_wf vm -> urange 64 va -> buffer_ok data ->
  let '(vm', _, data') := riscv_rmw_translate vm va data size in hart_wf vm' /\ buffer_ok data'.
Proof. intros. unfold riscv_rmw_translate. cbv zeta. case_bool; [done|]. by apply mmu_op_helper_wf. Qed.

Lemma write_reg_wf vm r v : hart_wf vm -> hart_wf (riscv_write_reg x vm r v).
Proof. intros. apply set_reg_wf; [apply wrap_range; lia|done]. Qed.

Lemma read_reg_range vm r : urange 64 (riscv_read_reg x vm r).
Proof. apply (urange_mono (XLEN x)); [apply xlen_le|]. apply wrap_range. pose proof (xlen_le x). lia. Qed.

Lemma illegal_insn_wf vm insn : urange 32 insn -> hart_wf vm -> hart_wf (riscv_illegal_insn vm insn).
Proof. intros. apply riscv_trap_wf; [by vm_compute|by apply (urange_mono 32)|done]. Qed.

Lemma set_lrsc_wf b vm : hart_wf vm -> hart_wf (set_lrsc b vm).
Proof. intros. wf_fields. Qed.
Lemma set_lrsc_addr_wf v vm : hart_wf vm -> hart_wf (set_lrsc_addr v vm).
Proof. intros. wf_fields. Qed.
Lemma set_lrsc_cas_wf v vm : hart_wf vm -> hart_wf (set_lrsc_cas v vm).
Proof. intros. wf_fields. Qed.

Hint Resolve write_reg_wf read_reg_range illegal_insn_wf set_lrsc_wf set_lrsc_addr_wf set_lrsc_cas_wf : rv.

Lemma cell_store_wf n v vm p buf : hart_wf vm -> bytes buf ->
  let '(vm', buf') := cell_store n v vm p buf in hart_wf vm' /\ bytes buf'.
Proof. intros H Hb. pose proof (wf_host _ H). destruct p; cbn [cell_store]; split; auto using le_split_bytes with rv. Qed.

Lemma amo_commit_wf n vm p buf va : hart_wf vm -> bytes buf -> urange 64 va -> hart_wf (amo_commit n vm p buf va).
Proof.
  intros H Hb Hv. destruct p; cbn [amo_commit]; try done. unfold riscv_rmw_mmio_commit.
  pose proof (mmu_op_helper_wf vm va (Some buf) RISCV_MMU_ATTR_NO_TRAP (Z.of_nat n) RISCV_MMU_WRITE H Hv Hb) as Hw.
  destruct (riscv_mmu_op_helper _ _ _ _ _ _) as [[v q] d]. apply Hw.
Qed.

Lemma amo_switch_wf n op vm p buf rds val : hart_wf vm -> bytes buf ->
  let '(vm', buf') := amo_switch x n op vm p buf rds val in hart_wf vm' /\ bytes buf'.
Proof.
  intros H Hb. unfold amo_switch. cbv zeta.
  assert (forall v, let '(vm', buf') := cell_store n v vm p buf in hart_wf vm' /\ bytes buf') as Hc
    by (intros; by apply cell_store_wf).
  destruct (op =? RISCV_AMO_CAS).
  - destruct (_ =? _); [specialize (Hc val); destruct (cell_store _ _ _ _ _), Hc|]; auto with rv.
  - destruct (amo_value _ _ _ _) as [new|]; [|done].
    specialize (Hc new). destruct (cell_store _ _ _ _ _), Hc. auto with rv.
Qed.

Lemma amo_sc_wf n vm p buf rds va val : hart_wf vm -> bytes buf -> urange 64 va ->
  hart_wf (amo_sc x n vm p buf rds va val).
Proof.
  intros H Hb Hv. unfold amo_sc. destruct (_ && _); [|auto with rv].
  pose proof (cell_store_wf n val vm p buf H Hb) as Hc. destruct (cell_store _ _ _ _ _) as [v b], Hc.
  apply amo_commit_wf; auto with rv.
Qed.

Lemma amo_lr_wf n vm p buf rds va : hart_wf vm -> hart_wf (amo_lr x n vm p buf rds va).
Proof. intros. unfold amo_lr. cbv zeta. auto with rv. Qed.

(** The tail the handlers share: an operation on a translated operand. *)
Lemma amo_tail_wf (t : hart * mmu_ptr * buffer) (k : hart -> mmu_ptr -> list Z -> hart) :
  (let '(vm, _, d) := t in hart_wf vm /\ buffer_ok d) ->
  (forall vm p buf, hart_wf vm -> bytes buf -> hart_wf (k vm p buf)) ->
  hart_wf (let '(vm, p, d) := t in if negb (mmu_ptr_ok p) then vm else k vm p (default [] d)).
Proof.
  intros Ht Hk. destruct t as [[v p] d], Ht as [Hv Hd]. destruct (negb _); [done|]. apply Hk; [done|].
  destruct d; [done|constructor].
Qed.

Lemma amo_rmw_wf n op rds val va vm p buf : hart_wf vm -> bytes buf -> urange 64 va ->
  hart_wf (let '(vm', buf') := amo_switch x n op vm p buf rds val in amo_commit n vm' p buf' va).
Proof.
  intros H Hb Hv. pose proof (amo_switch_wf n op vm p buf rds val H Hb) as Hs.
  destruct (amo_switch _ _ _ _ _ _ _ _), Hs. by apply amo_commit_wf.
Qed.

End AtomicsWf.

#[export] Hint Resolve write_reg_wf read_reg_range illegal_insn_wf set_lrsc_wf set_lrsc_addr_wf
  set_lrsc_cas_wf amo_sc_wf amo_lr_wf amo_rmw_wf bytes_zeros : rv.

Section HandlersWf.
Context `{env : Env} {Henv : EnvOk env} (x : xlen) (vm : hart) (insn : Z).
Hypotheses (Hi : urange 32 insn) (Hw : hart_wf vm).

Lemma misalign_trap_wf (c : bool) va : urange 64 va ->
  hart_wf (riscv_trap vm (if c then RISCV_TRAP_LOAD_MISALIGN else RISCV_TRAP_STORE_MISALIGN) va).
Proof. intros. apply riscv_trap_wf; [destruct c; by vm_compute|done|done]. Qed.

Lemma atomic_b_wf : hart_wf (riscv_emulate_atomic_b x vm insn).
Proof.
  unfold riscv_emulate_atomic_b. cbv zeta. destruct (negb _); [auto with rv|].
  refine (amo_tail_wf _ (fun vm p buf => let '(vm', buf') := amo_switch x 1 _ vm p buf _ _ in amo_commit 1 vm' p buf' _) _ _).
  - apply rmw_translate_wf; auto with rv. apply (bytes_zeros 1).
  - intros. auto with rv.
Qed.

Lemma atomic_h_wf : hart_wf (riscv_emulate_atomic_h x vm insn).
Proof.
  unfold riscv_emulate_atomic_h. cbv zeta. destruct (negb _); [auto with rv|].
  destruct (nz _); [apply (misalign_trap_wf false); auto with rv|].
  refine (amo_tail_wf _ (fun vm p buf => let '(vm', buf') := amo_switch x 2 _ vm p buf _ _ in amo_commit 2 vm' p buf' _) _ _).
  - apply rmw_translate_wf; auto with rv. apply (bytes_zeros 2).
  - intros. auto with rv.
Qed.

(** The body of the word and double-word handlers. *)
Lemma atomic_lrsc_wf n op rds va val : urange 64 va ->
  hart_wf (let '(vm, ptr, buf) :=
      if op =? RISCV_AMO_LR then riscv_ro_translate vm va (Some (replicate n 0)) (Z.of_nat n)
      else riscv_rmw_translate vm va (Some (replicate n 0)) (Z.of_nat n) in
    if negb (mmu_ptr_ok ptr) then vm
    else if op =? RISCV_AMO_LR then amo_lr x n vm ptr (default [] buf) rds va
    else if op =? RISCV_AMO_SC then amo_sc x n vm ptr (default [] buf) rds va val
    else
      let '(vm, buf) := amo_switch x n op vm ptr (default [] buf) rds val in
      amo_commit n vm ptr buf va).
Proof.
  intros Hv. refine (amo_tail_wf _ (fun vm p buf => if op =? RISCV_AMO_LR then amo_lr x n vm p buf rds va
    else if op =? RISCV_AMO_SC then amo_sc x n vm p buf rds va val
    else let '(vm', buf') := amo_switch x n op vm p buf rds val in amo_commit n vm' p buf' va) _ _).
  - destruct (_ =? _); [apply ro_translate_wf|apply rmw_translate_wf]; auto with rv; apply (bytes_zeros n).
  - intros. repeat case_bool; auto with rv.
Qed.

Lemma atomic_w_wf : hart_wf (riscv_emulate_atomic_w x vm insn).
Proof.
  unfold riscv_emulate_atomic_w. cbv zeta. destruct (negb _); [auto with rv|].
  destruct (nz _); [apply misalign_trap_wf; auto with rv|]. apply (atomic_lrsc_wf 4). auto with rv.
Qed.

Lemma atomic_d_wf : hart_wf (riscv_emulate_atomic_d x vm insn).
Proof.
  unfold riscv_emulate_atomic_d. cbv zeta. destruct (negb _); [auto with rv|].
  destruct (nz _); [apply misalign_trap_wf; auto with rv|]. apply (atomic_lrsc_wf 8). auto with rv.
Qed.

Lemma dwcas_wf : hart_wf (riscv_emulate_atomic_dwcas x vm insn).
Proof.
  unfold riscv_emulate_atomic_dwcas. cbv zeta. destruct (_ || _); [auto with rv|].
  destruct (nz (_ .& (Z.of_nat _ - 1))); [apply (misalign_trap_wf false); auto with rv|].
  pose proof (rmw_translate_wf vm (riscv_read_reg x vm (bit_ext_u32 insn 15 5)) (Some (replicate (dwcas_size x) 0))
    (Z.of_nat (dwcas_size x)) Hw ltac:(auto with rv) (bytes_zeros (dwcas_size x))) as Ht.
  destruct (riscv_rmw_translate _ _ _ _) as [[v p] d], Ht as [Hv Hd]. destruct (negb _); [done|].
  assert (bytes (default [] d)) as Hb by (destruct d; [done|constructor]).
  match goal with |- context [if ?c then cell_store ?n ?val v p ?b else _] =>
    pose proof (cell_store_wf n val v p b Hv Hb) as Hc; destruct c;
    [destruct (cell_store n val v p b), Hc|] end;
    destruct (nz (bit_ext_u32 insn 7 5)); apply amo_commit_wf; auto with rv.
Qed.

Lemma opc_amo_wf : hart_wf (riscv_emulate_a_opc_amo x vm insn).
Proof.
  pose proof atomic_b_wf. pose proof atomic_h_wf. pose proof atomic_w_wf. pose proof atomic_d_wf. pose proof dwcas_wf.
  unfold riscv_emulate_a_opc_amo. cbv zeta.
  repeat match goal with |- hart_wf (if ?c then _ else _) => destruct c end; try done; try (by destruct x); auto with rv.
Qed.

End HandlersWf.

(** ** Theorems *)

#[export] Instance set_lrsc_proper x b : Proper (isa_eq x ==> isa_eq x) (set_lrsc b).
Proof.
  intros v v' (H1 & H2 & H3). split; [done|split; [done|]].
  change (set_lrsc b (set_registers (fun _ => 0) v) = set_lrsc b (set_registers (fun _ => 0) v')). by rewrite H3.
Qed.

Section LrSc.
Context `{Env} `{Fpu} (x : xlen) (n : nat) (vm : hart) (insn : Z).
Hypotheses (Hi : urange 32 insn) (Hz : reg vm 0 = 0).
Hypothesis Hn : (f_funct3 insn = 2 /\ n = 4%nat) \/ (f_funct3 insn = 3 /\ n = 8%nat /\ x = RV64).
Hypothesis Ha : get_x x vm (f_rs1 insn) mod Z.of_nat n = 0.

Local Abbreviation va := (get_x x vm (f_rs1 insn)).
Local Abbreviation w := (8 * Z.of_nat n).

Lemma wd_handler op : insn / 2 ^ 27 = op -> 0 <= op < 6 ->
  riscv_emulate_a_opc_amo x vm insn =
  (let '(vm', ptr, buf) :=
     if op =? RISCV_AMO_LR then riscv_ro_translate vm va (Some (replicate n 0)) (Z.of_nat n)
     else riscv_rmw_translate vm va (Some (replicate n 0)) (Z.of_nat n) in
   if negb (mmu_ptr_ok ptr) then vm'
   else if op =? RISCV_AMO_LR then amo_lr x n vm' ptr (default [] buf) (f_rd insn) va
   else if op =? RISCV_AMO_SC then amo_sc x n vm' ptr (default [] buf) (f_rd insn) va (wrap w (get_x x vm (f_rs2 insn)))
   else
     let '(vm', buf) := amo_switch x n op vm' ptr (default [] buf) (f_rd insn) (wrap w (get_x x vm (f_rs2 insn))) in
     amo_commit n vm' ptr buf va).
Proof.
  intros E Hop. unfold riscv_emulate_a_opc_amo. rewrite f_funct3_eq.
  assert (nz ((1 .<< op) .& 0x1111113F) = true) as Hl.
  { assert (op = 0 \/ op = 1 \/ op = 2 \/ op = 3 \/ op = 4 \/ op = 5) as Hc by lia.
    clear E. by destruct_or! Hc; subst. }
  destruct Hn as [[-> ->]|(-> & -> & Hx)]; eval_cmp; norm_width.
  - unfold riscv_emulate_atomic_w. amo_fields E Hz. rewrite Hl. cbn [negb].
    by rewrite (aligned_ok _ (eq_trans (aligned_4 _) (proj2 (Z.eqb_eq _ _) Ha))).
  - transitivity (riscv_emulate_atomic_d x vm insn); [by rewrite Hx|].
    unfold riscv_emulate_atomic_d. amo_fields E Hz. rewrite Hl. cbn [negb].
    by rewrite (aligned_ok _ (eq_trans (aligned_8 _) (proj2 (Z.eqb_eq _ _) Ha))).
Qed.

Lemma lr_ram vm' a : insn / 2 ^ 27 = RISCV_AMO_LR -> ro_ram vm va n vm' a ->
  riscv_emulate_a_opc_amo x vm insn =
  riscv_write_reg x (set_lrsc_cas (mem_get n vm' a) (set_lrsc_addr va (set_lrsc true vm')))
    (f_rd insn) (signed w (mem_get n vm' a)).
Proof. intros E [buf Ht]. rewrite (wd_handler RISCV_AMO_LR) by (done || lia). eval_cmp. by rewrite Ht. Qed.

(** The reservation holds: it is for this address and the operand still has its value. *)
Definition reservation (vm' : hart) (a : Z) : bool :=
  vm'.(lrsc) && (vm'.(lrsc_addr) =? va) && (mem_get n vm' a =? vm'.(lrsc_cas) mod 2 ^ w).

Lemma sc_ram vm' a : insn / 2 ^ 27 = RISCV_AMO_SC -> rmw_ram vm va n vm' a ->
  riscv_emulate_a_opc_amo x vm insn =
  set_lrsc false (
    if reservation vm' a
    then riscv_write_reg x (mem_put n (wrap w (get_x x vm (f_rs2 insn))) a vm') (f_rd insn) 0
    else riscv_write_reg x vm' (f_rd insn) 1).
Proof.
  intros E [buf Ht]. rewrite (wd_handler RISCV_AMO_SC) by (done || lia). eval_cmp. rewrite Ht.
  cbn [mmu_ptr_ok negb]. unfold amo_sc, reservation, mem_get. cbn [cell_load]. fold (wrap w (lrsc_cas vm')).
  by destruct (_ && _).
Qed.

End LrSc.

(** C23: an AMO on memory replaces the operand by the operation of its old value and [rs2],
    puts the old value, sign-extended, in [rd] and steps to the next instruction, for every
    operation and width of the A and Zabha extensions except the signed byte minimum and
    maximum. *)
Theorem amo_refines `{Env} `{Fpu} x o n vm insn vm' a :
  urange 32 insn -> f_opcode insn = AMO_OPCODE -> insn / 2 ^ 27 = amo_code o -> amo_width x insn n ->
  byte_minmax n o = false -> reg vm 0 = 0 -> get_x x vm (f_rs1 insn) mod Z.of_nat n = 0 ->
  rmw_ram vm (get_x x vm (f_rs1 insn)) n vm' a -> hart_wf vm' ->
  let w := 8 * Z.of_nat n in
  let old := mem_get n vm' a in
  isa_eq x (riscv_emulate_insn x vm insn)
    (next x (put_x x (f_rd insn) (signed w old)
      (mem_put n (amo_eval w o old (get_x x vm (f_rs2 insn) mod 2 ^ w)) a vm'))).
Proof.
  intros Hi Ho E Hn Hb Hz Ha Ht Hwf w old. rewrite amo_dispatch by done.
  rewrite (amo_ram x o n vm insn vm' a) by done. apply isa_write; auto with rv.
Qed.

(** LR returns the operand and reserves its address and value. *)
Theorem lr_reserves `{Env} `{Fpu} x n vm insn vm' a :
  urange 32 insn -> f_opcode insn = AMO_OPCODE -> insn / 2 ^ 27 = RISCV_AMO_LR ->
  (f_funct3 insn = 2 /\ n = 4%nat) \/ (f_funct3 insn = 3 /\ n = 8%nat /\ x = RV64) ->
  reg vm 0 = 0 -> get_x x vm (f_rs1 insn) mod Z.of_nat n = 0 ->
  ro_ram vm (get_x x vm (f_rs1 insn)) n vm' a ->
  isa_eq x (riscv_emulate_insn x vm insn)
    (next x (put_x x (f_rd insn) (signed (8 * Z.of_nat n) (mem_get n vm' a))
      (set_lrsc_cas (mem_get n vm' a) (set_lrsc_addr (get_x x vm (f_rs1 insn)) (set_lrsc true vm'))))).
Proof.
  intros Hi Ho E Hn Hz Ha Ht. rewrite amo_dispatch by done.
  rewrite (lr_ram x n vm insn) with (vm' := vm') (a := a) by done. apply isa_write; auto with rv.
Qed.

(** C24: at an aligned address in RAM, SC stores [rs2] and returns 0 exactly when the hart holds a reservation for the
    address and the operand has the reserved value; otherwise it stores nothing and returns
    1; in both cases the reservation ends. *)
Theorem sc_outcome `{Env} `{Fpu} x n vm insn vm' a :
  urange 32 insn -> f_opcode insn = AMO_OPCODE -> insn / 2 ^ 27 = RISCV_AMO_SC ->
  (f_funct3 insn = 2 /\ n = 4%nat) \/ (f_funct3 insn = 3 /\ n = 8%nat /\ x = RV64) ->
  reg vm 0 = 0 -> get_x x vm (f_rs1 insn) mod Z.of_nat n = 0 ->
  rmw_ram vm (get_x x vm (f_rs1 insn)) n vm' a ->
  isa_eq x (riscv_emulate_insn x vm insn)
    (next x (set_lrsc false (
      if reservation x n vm insn vm' a
      then put_x x (f_rd insn) 0 (mem_put n (get_x x vm (f_rs2 insn)) a vm')
      else put_x x (f_rd insn) 1 vm'))).
Proof.
  intros Hi Ho E Hn Hz Ha Ht. rewrite amo_dispatch by done.
  rewrite (sc_ram x n vm insn) with (vm' := vm') (a := a) by done. unfold next. rewrite <- isa_next. f_equiv. f_equiv.
  destruct (reservation _ _ _ _ _ _); [|apply isa_put; auto with rv].
  unfold mem_put. rewrite le_split_wrap. apply isa_put; auto with rv.
Qed.

(** a compare-and-swap (Zacas, Zabha) stores [rs2] exactly when the operand equals
    [rd], and returns the old operand, sign-extended, in [rd]. *)
Theorem amocas_refines `{Env} `{Fpu} x n vm insn vm' a :
  urange 32 insn -> f_opcode insn = AMO_OPCODE -> insn / 2 ^ 27 = RISCV_AMO_CAS -> amo_width x insn n ->
  reg vm 0 = 0 -> get_x x vm (f_rs1 insn) mod Z.of_nat n = 0 ->
  rmw_ram vm (get_x x vm (f_rs1 insn)) n vm' a ->
  let w := 8 * Z.of_nat n in
  let old := mem_get n vm' a in
  isa_eq x (riscv_emulate_insn x vm insn)
    (next x (put_x x (f_rd insn) (signed w old)
      (if old =? reg vm' (f_rd insn) mod 2 ^ w then mem_put n (get_x x vm (f_rs2 insn)) a vm' else vm'))).
Proof.
  intros Hi Ho E Hn Hz Ha [buf Ht] w old. rewrite amo_dispatch by done.
  assert (width_ok n /\ w <= XLEN x) as [Hw Hx].
  { subst w. destruct Hn as [[_ ->]|[[_ ->]|[[_ ->]|(_ & -> & ->)]]]; unfold width_ok;
      (split; [tauto|try destruct x; cbn; lia]). }
  set (val := wrap w (get_x x vm (f_rs2 insn))).
  assert (riscv_emulate_a_opc_amo x vm insn =
    let '(vm1, b) := amo_switch x n RISCV_AMO_CAS vm' (PHost a) (default [] buf) (f_rd insn) val in
    amo_commit n vm1 (PHost a) b (get_x x vm (f_rs1 insn))) as ->.
  { destruct Hn as [[E3 ->]|[[E3 ->]|Hn]].
    - unfold riscv_emulate_a_opc_amo. rewrite f_funct3_eq, E3. eval_cmp. unfold riscv_emulate_atomic_b.
      amo_fields E Hz. norm_width. by rewrite Ht.
    - unfold riscv_emulate_a_opc_amo. rewrite f_funct3_eq, E3. eval_cmp. unfold riscv_emulate_atomic_h.
      amo_fields E Hz. norm_width. rewrite (aligned_ok _ (eq_trans (aligned_2 _) (proj2 (Z.eqb_eq _ _) Ha))).
      cbn [negb nz Z.shiftl Z.land]. by rewrite Ht.
    - rewrite (wd_handler x n vm insn Hz Hn Ha RISCV_AMO_CAS) by (done || lia). eval_cmp. by rewrite Ht. }
  unfold amo_switch. eval_cmp. fold w. cbn [cell_load]. fold (mem_get n vm' a) old.
  assert (wrap w (riscv_read_reg x vm' (f_rd insn)) = reg vm' (f_rd insn) mod 2 ^ w) as ->.
  { apply wrap_wrap_le. lia. }
  subst val. case_bool; cbn [cell_store amo_commit]; [|apply isa_write; auto with rv].
  unfold mem_put. unfold w at 1. rewrite le_split_wrap. apply isa_write; auto with rv.
Qed.

(** ** Witnesses *)

(** A hart about to operate on the word at 0x80000008, with 5 in [x2]; the second one has
    reserved it. *)
Definition demo_amo_hart : hart := set_reg 2 5 (set_reg 1 0x80000008 demo_hart).
Definition demo_lrsc_hart : hart := set_lrsc_addr 0x80000008 (set_lrsc true demo_amo_hart).

Local Abbreviation demo_rmw vm := (riscv_rmw_translate (H := demo_env) vm 0x80000008 (Some (replicate 4 0)) 4).
Local Abbreviation demo_ro vm := (riscv_ro_translate (H := demo_env) vm 0x80000008 (Some (replicate 4 0)) 4).

Lemma demo_rmw_ram : rmw_ram (H := demo_env) demo_amo_hart 0x80000008 4 (fst (fst (demo_rmw demo_amo_hart))) 0x10008.
Proof.
  exists (snd (demo_rmw demo_amo_hart)).
  assert (snd (fst (demo_rmw demo_amo_hart)) = PHost 0x10008) as <- by (vm_compute; reflexivity).
  change (Z.of_nat 4) with 4. destruct (demo_rmw demo_amo_hart) as [[? ?] ?]. reflexivity.
Qed.

Lemma demo_rmw_ram_sc : rmw_ram (H := demo_env) demo_lrsc_hart 0x80000008 4 (fst (fst (demo_rmw demo_lrsc_hart))) 0x10008.
Proof.
  exists (snd (demo_rmw demo_lrsc_hart)).
  assert (snd (fst (demo_rmw demo_lrsc_hart)) = PHost 0x10008) as <- by (vm_compute; reflexivity).
  change (Z.of_nat 4) with 4. destruct (demo_rmw demo_lrsc_hart) as [[? ?] ?]. reflexivity.
Qed.

Lemma demo_ro_ram : ro_ram (H := demo_env) demo_amo_hart 0x80000008 4 (fst (fst (demo_ro demo_amo_hart))) 0x10008.
Proof.
  exists (snd (demo_ro demo_amo_hart)).
  assert (snd (fst (demo_ro demo_amo_hart)) = PHost 0x10008) as <- by (vm_compute; reflexivity).
  change (Z.of_nat 4) with 4. destruct (demo_ro demo_amo_hart) as [[? ?] ?]. reflexivity.
Qed.

Lemma demo_rmw_wf : hart_wf (fst (fst (demo_rmw demo_amo_hart))).
Proof.
  assert (hart_wf demo_amo_hart) as Hw.
  { apply set_reg_wf; [done|]. apply set_reg_wf; [done|]. exact demo_hart_wf. }
  pose proof (rmw_translate_wf (env := demo_env) demo_amo_hart 0x80000008 (Some (replicate 4 0)) 4 Hw
    ltac:(done) (bytes_zeros 4)) as H.
  destruct (demo_rmw demo_amo_hart) as [[? ?] ?]. exact (proj1 H).
Qed.

(** [amoadd.w x3, x2, (x1)]. *)
Lemma amo_refines_witness :
  let vm' := fst (fst (demo_rmw demo_amo_hart)) in
  let old := mem_get 4 vm' 0x10008 in
  isa_eq RV64 (@riscv_emulate_insn demo_env no_fpu RV64 demo_amo_hart 0x0020A1AF)
    (next RV64 (put_x RV64 3 (signed 32 old)
      (mem_put 4 (old + get_x RV64 demo_amo_hart 2 mod 2 ^ 32) 0x10008 vm'))).
Proof.
  refine (@amo_refines demo_env no_fpu RV64 AmoAdd 4 demo_amo_hart 0x0020A1AF _ 0x10008 _ _ _ _ _ _ _
    demo_rmw_ram demo_rmw_wf).
  - split; [discriminate|reflexivity].
  - reflexivity.
  - reflexivity.
  - right; right; left. split; reflexivity.
  - reflexivity.
  - reflexivity.
  - reflexivity.
Defined.

(** [lr.w x3, (x1)]. *)
Lemma lr_reserves_witness :
  let vm' := fst (fst (demo_ro demo_amo_hart)) in
  isa_eq RV64 (@riscv_emulate_insn demo_env no_fpu RV64 demo_amo_hart 0x1000A1AF)
    (next RV64 (put_x RV64 3 (signed 32 (mem_get 4 vm' 0x10008))
      (set_lrsc_cas (mem_get 4 vm' 0x10008) (set_lrsc_addr 0x80000008 (set_lrsc true vm'))))).
Proof.
  refine (@lr_reserves demo_env no_fpu RV64 4 demo_amo_hart 0x1000A1AF _ 0x10008 _ _ _ _ _ _ demo_ro_ram).
  - split; [discriminate|reflexivity].
  - reflexivity.
  - reflexivity.
  - left. split; reflexivity.
  - reflexivity.
  - reflexivity.
Defined.

(** [sc.w x3, x2, (x1)] with the reservation. *)
Lemma sc_outcome_witness :
  let vm' := fst (fst (demo_rmw demo_lrsc_hart)) in
  reservation RV64 4 demo_lrsc_hart 0x1820A1AF vm' 0x10008 = true /\
  isa_eq RV64 (@riscv_emulate_insn demo_env no_fpu RV64 demo_lrsc_hart 0x1820A1AF)
    (next RV64 (set_lrsc false (
      if reservation RV64 4 demo_lrsc_hart 0x1820A1AF vm' 0x10008
      then put_x RV64 3 0 (mem_put 4 (get_x RV64 demo_lrsc_hart 2) 0x10008 vm') else put_x RV64 3 1 vm'))).
Proof.
  split; [vm_compute; reflexivity|].
  refine (@sc_outcome demo_env no_fpu RV64 4 demo_lrsc_hart 0x1820A1AF _ 0x10008 _ _ _ _ _ _ demo_rmw_ram_sc).
  - split; [discriminate|reflexivity].
  - reflexivity.
  - reflexivity.
  - left. split; reflexivity.
  - reflexivity.
  - reflexivity.
Defined.

(** [amocas.w x3, x2, (x1)]: the memory holds 0, as [x3] does. *)
Lemma amocas_refines_witness :
  let vm' := fst (fst (demo_rmw demo_amo_hart)) in
  let old := mem_get 4 vm' 0x10008 in
  isa_eq RV64 (@riscv_emulate_insn demo_env no_fpu RV64 demo_amo_hart 0x2820A1AF)
    (next RV64 (put_x RV64 3 (signed 32 old)
      (if old =? reg vm' 3 mod 2 ^ 32 then mem_put 4 (get_x RV64 demo_amo_hart 2) 0x10008 vm' else vm'))).
Proof.
  refine (@amocas_refines demo_env no_fpu RV64 4 demo_amo_hart 0x2820A1AF _ 0x10008 _ _ _ _ _ _ demo_rmw_ram).
  - split; [discriminate|reflexivity].
  - reflexivity.
  - reflexivity.
  - right; right; left. split; reflexivity.
  - reflexivity.
  - reflexivity.
Defined.

(** ** Deviations *)

(** [amomax.b] and [amomin.b] compare the bytes as unsigned numbers, because the 8-bit
    helpers widen them to [int16_t] without sign: the larger of -128 and 1 is -128. *)
Theorem byte_minmax_unsigned old val : urange 8 old -> urange 8 val ->
  amo_value 8 RISCV_AMO_MAX old val = amo_value 8 RISCV_AMO_MAXU old val /\
  amo_value 8 RISCV_AMO_MIN old val = amo_value 8 RISCV_AMO_MINU old val /\
  amo_value 8 RISCV_AMO_MAX 0x80 1 = Some 0x80 /\ amo_eval 8 AmoMax 0x80 1 = 1.
Proof.
  unfold urange. intros Ho Hv.
  assert (s16 old = old /\ s16 val = val) as [Eo Ev] by (split; apply signed_small; unfold srange; lia).
  split_and!; [| |reflexivity|reflexivity]; cbv [amo_value atomic_max_int8 atomic_min_int8 atomic_maxu_uint
    atomic_minu_uint]; eval_cmp; rewrite Eo, Ev; case_bool; by rewrite wrap_small.
Qed.

Lemma byte_minmax_unsigned_witness :
  amo_value 8 RISCV_AMO_MAX 0xFF 0x7F = amo_value 8 RISCV_AMO_MAXU 0xFF 0x7F.
Proof. refine (proj1 (byte_minmax_unsigned 0xFF 0x7F _ _)); split; (discriminate || reflexivity). Defined.

(** A hart whose [x2] and [x3] are 1 and 2. *)
Definition demo_dwcas_hart : hart := set_reg 3 2 (set_reg 2 1 (set_reg 1 0x80000008 demo_hart)).

(** The double-word compare-and-swap of RV32 ([amocas.d x4, x2, (x1)]) stores its low
    register in both halves: with 1 in [x2] and 2 in [x3], the matching memory becomes
    0x1_00000001 and not 0x2_00000001. *)
Theorem dwcas_rv32_high_word :
  let vm' := @riscv_emulate_a_opc_amo demo_env RV32 demo_dwcas_hart 0x2820B22F in
  mem_get 8 demo_dwcas_hart 0x10008 = 0 /\ get_x RV32 demo_dwcas_hart 4 = 0 /\ get_x RV32 demo_dwcas_hart 5 = 0 /\
  mem_get 8 vm' 0x10008 = 0x100000001.
Proof. vm_compute. auto. Qed.
