(* ===== verification/FpuProps.v ===== *)
(** * Floating-point instructions: theorems

    The handlers keep the hart well formed, so they are an implementation of the interface the
    dispatcher and the thread are proved against.  Arithmetic gives the correctly rounded
    result of the effective rounding mode, with the flags, for all operands; in the mode that
    the host does not have, ties to the larger magnitude, this is a theorem about the fixup.
    The instructions that depart from the architecture are shown on concrete operands. *)
From S2P Require Import Prelude BitOps MemOps State CsrDefs Tlb Hart Csr Mmu MmuProps Base.
From S2P Require Import Atomics Compressed IsaSpec BaseProps AtomicsProps Ieee FpuLib RiscvFpu.
Local Open Scope fpu_scope.

(** ** Well-formedness *)

Lemma set_fenv_wf e r vm : urange 5 e -> hart_wf vm -> hart_wf (set_fenv_rounding r (set_fenv_exceptions e vm)).
Proof. intros He Hw. destruct Hw. by constructor. Qed.

Lemma run_fpu_wf {A} (c : fpu A) P vm : fok c P -> hart_wf vm -> P (fst (run_fpu c vm)) /\ hart_wf (snd (run_fpu c vm)).
Proof.
  intros Hc Hw. unfold run_fpu. destruct (Hc (mk_fenv vm.(fenv_exceptions) vm.(fenv_rounding))) as [HP He]; [apply Hw|].
  destruct (c _) as [r fe]. split; [done|]. by apply set_fenv_wf.
Qed.

Lemma emit_s_wf vm r v : pat F32 v -> hart_wf vm -> hart_wf (riscv_emit_s vm r v).
Proof. intros. by apply fpu_set_dirty_wf, set_fpu_reg_wf, H0; apply nanbox_range. Qed.
Lemma emit_d_wf vm r v : pat F64 v -> hart_wf vm -> hart_wf (riscv_emit_d vm r v).
Proof. intros. by apply fpu_set_dirty_wf, set_fpu_reg_wf. Qed.

Lemma write_s_wf vm r v : pat F32 v -> hart_wf vm -> hart_wf (riscv_write_s vm r v).
Proof.
  intros Hv Hw. unfold riscv_write_s. pose proof (run_fpu_wf (fpu_is_nan32 v) _ vm (fok_is_nan F32 v) Hw) as [_ Hw'].
  destruct (run_fpu _ vm) as [nan vm']. apply emit_s_wf; [|done]. case_match; [fok_lit|done].
Qed.
Lemma write_d_wf vm r v : pat F64 v -> hart_wf vm -> hart_wf (riscv_write_d vm r v).
Proof.
  intros Hv Hw. unfold riscv_write_d. pose proof (run_fpu_wf (fpu_is_nan64 v) _ vm (fok_is_nan F64 v) Hw) as [_ Hw'].
  destruct (run_fpu _ vm) as [nan vm']. apply emit_d_wf; [|done]. case_match; [fok_lit|done].
Qed.

Lemma fwrite_s_wf vm r c : fok c (pat F32) -> hart_wf vm -> hart_wf (fwrite_s vm r c).
Proof. intros Hc Hw. unfold fwrite_s. pose proof (run_fpu_wf c _ vm Hc Hw) as [Hp Hw']. destruct (run_fpu c vm). by apply write_s_wf. Qed.
Lemma fwrite_d_wf vm r c : fok c (pat F64) -> hart_wf vm -> hart_wf (fwrite_d vm r c).
Proof. intros Hc Hw. unfold fwrite_d. pose proof (run_fpu_wf c _ vm Hc Hw) as [Hp Hw']. destruct (run_fpu c vm). by apply write_d_wf. Qed.
Lemma femit_s_wf vm r c : fok c (pat F32) -> hart_wf vm -> hart_wf (femit_s vm r c).
Proof. intros Hc Hw. unfold femit_s. pose proof (run_fpu_wf c _ vm Hc Hw) as [Hp Hw']. destruct (run_fpu c vm). by apply emit_s_wf. Qed.
Lemma femit_d_wf vm r c : fok c (pat F64) -> hart_wf vm -> hart_wf (femit_d vm r c).
Proof. intros Hc Hw. unfold femit_d. pose proof (run_fpu_wf c _ vm Hc Hw) as [Hp Hw']. destruct (run_fpu c vm). by apply emit_d_wf. Qed.
Lemma fwrite_x_wf vm r ty c P : fok c P -> hart_wf vm -> hart_wf (fwrite_x vm r ty c).
Proof. intros Hc Hw. unfold fwrite_x. pose proof (run_fpu_wf c _ vm Hc Hw) as [Hp Hw']. destruct (run_fpu c vm). by apply write_reg_wf. Qed.
Lemma fwrite_bool_wf vm r c P : fok c P -> hart_wf vm -> hart_wf (fwrite_bool vm r c).
Proof. intros Hc Hw. unfold fwrite_bool. pose proof (run_fpu_wf c _ vm Hc Hw) as [Hp Hw']. destruct (run_fpu c vm). by apply write_reg_wf. Qed.

Lemma freg_range vm r : hart_wf vm -> pat F64 (vm.(fpu_registers) r).
Proof. intros Hw. apply (wf_fpu_registers vm Hw). Qed.
Lemma read_s_range vm r : hart_wf vm -> pat F32 (riscv_read_s vm r).
Proof. intros. by apply unbox_pat, freg_range. Qed.

(** *** The fixups *)

Lemma wrap32_pat x : pat F32 (u32 x). Proof. apply (wrap_range 32). lia. Qed.
Lemma wrap64_pat x : pat F64 (u64 x). Proof. apply (wrap_range 64). lia. Qed.
#[export] Hint Resolve wrap32_pat wrap64_pat : fp.

Lemma fok_rmm_apply F n e : fmt_ok F -> pat F n -> pat F e -> fok (riscv_rmm_apply F n e) (pat F).
Proof.
  intros HF Hn He. pose proof (pat_wrap F HF (n + 1)). unfold riscv_rmm_apply. repeat fok_step; try done. by case_match.
Qed.

Lemma fok_isolated F n c : pat F n -> fok c (pat F) -> fok (rmm_isolated F n c) (pat F).
Proof. intros Hn Hc. unfold rmm_isolated. repeat fok_step; done. Qed.

Lemma fok_rmm_add F n a b : fmt_ok F -> pat F n -> pat F a -> pat F b -> fok (riscv_rmm_add F n a b) (pat F).
Proof. intros. apply fok_isolated; [done|]. repeat fok_step. by apply fok_rmm_apply. Qed.

Ltac lits :=
  assert (pat F64 0x3FE0000000000000) by fok_lit; assert (pat F64 0x5FF0000000000000) by fok_lit; assert (pat F64 0x7FE0000000000000) by fok_lit;
  assert (pat F64 0x4330000000000000) by fok_lit; assert (pat F64 0x47D0000000000000) by fok_lit; assert (pat F64 0x4C70000000000000) by fok_lit.
Ltac fok_fix :=
  unfold fpu_add64, fpu_sub64, fpu_mul64, fpu_add32, fpu_sub32, fpu_mul32, fpu_add_error64, fpu_mul_error64, fpu_neg64, fpu_neg32, riscv_rmm_apply_f64; cbv zeta;
  repeat fok_step; auto with fp; try (case_match; auto with fp).

Lemma fok_rmm_mul_f32 n a b : pat F32 n -> pat F32 a -> pat F32 b -> fok (riscv_rmm_mul_f32 n a b) (pat F32).
Proof. intros. lits. apply fok_isolated; [done|]. unfold riscv_rmm_mul_exact_f32. fok_fix. Qed.

Lemma fok_rmm_mul_f64 n a b : pat F64 n -> pat F64 a -> pat F64 b -> fok (riscv_rmm_mul_f64 n a b) (pat F64).
Proof.
  intros. lits. apply fok_isolated; [done|]. destruct (64 <=? _).
  - eapply fok_bind; [apply (fok_mul_error F64 F64_ok); eassumption|]. intros. by apply fok_rmm_apply; [apply F64_ok| |].
  - unfold riscv_rmm_mul_small_f64. fok_fix.
Qed.

Lemma fok_rmm_div_f32 n a b : pat F32 n -> pat F32 a -> pat F32 b -> fok (riscv_rmm_div_apply_f32 n a b) (pat F32).
Proof. intros. unfold riscv_rmm_div_apply_f32. fok_fix. Qed.
Lemma fok_rmm_div_f64 n a b : pat F64 n -> pat F64 a -> pat F64 b -> fok (riscv_rmm_div_apply_f64 n a b) (pat F64).
Proof. intros. lits. unfold riscv_rmm_div_apply_f64. fok_fix. Qed.

Lemma fok_fixup_uf32 r a b c e : pat F32 a -> pat F32 b -> pat F32 c -> fok (riscv_fma_fixup_uf32 r a b c e) (fun _ => True).
Proof. intros. lits. unfold riscv_fma_fixup_uf32. fok_fix. Qed.
Lemma fok_fixup_uf64 r a b c e : pat F64 a -> pat F64 b -> pat F64 c -> fok (riscv_fma_fixup_uf64 r a b c e) (fun _ => True).
Proof. intros. lits. unfold riscv_fma_fixup_uf64. fok_fix. Qed.

Lemma fok_rmm_fma_f32 n a b c : pat F32 n -> pat F32 a -> pat F32 b -> pat F32 c -> fok (riscv_rmm_fma_apply_f32 n a b c) (pat F32).
Proof. intros. lits. apply fok_isolated; [done|]. fok_fix. Qed.
Lemma fok_rmm_fma_f64 n a b c : pat F64 n -> pat F64 a -> pat F64 b -> pat F64 c -> fok (riscv_rmm_fma_apply_f64 n a b c) (pat F64).
Proof. intros. apply fok_isolated; [done|]. fok_fix. apply fok_rmm_apply; auto with fp. Qed.
#[export] Hint Resolve fok_rmm_add fok_rmm_mul_f32 fok_rmm_mul_f64 fok_rmm_div_f32 fok_rmm_div_f64 fok_fixup_uf32 fok_fixup_uf64 fok_rmm_fma_f32 fok_rmm_fma_f64 : fp.

Lemma fok_in_mode {A} m (c : fpu A) P : fok c P -> fok (in_mode m c) P.
Proof. intros. unfold in_mode. repeat fok_step. done. Qed.
#[export] Hint Resolve fok_in_mode : fp.

Lemma fok_fma_round_f32 f m a b c : pat F32 a -> pat F32 b -> pat F32 c -> fok (riscv_fma_round_f32 f m a b c) (pat F32).
Proof.
  intros. unfold riscv_fma_round_f32. eapply fok_bind with (P := pat F32); [|intros; repeat fok_step; done].
  repeat case_match; try apply fok_in_mode; repeat fok_step.
Qed.
Lemma fok_fma_round_f64 f m a b c : pat F64 a -> pat F64 b -> pat F64 c -> fok (riscv_fma_round_f64 f m a b c) (pat F64).
Proof.
  intros. unfold riscv_fma_round_f64. eapply fok_bind with (P := pat F64); [|intros; repeat fok_step; done].
  repeat case_match; try apply fok_in_mode; repeat fok_step.
Qed.

Lemma emulate_fma_wf np nc vm insn : urange 32 insn -> hart_wf vm -> hart_wf (emulate_fma np nc vm insn).
Proof.
  intros Hi Hw. unfold emulate_fma. destruct (_ && _); [|by apply illegal_insn_wf]. cbv zeta.
  destruct (_ =? 0x0); [|destruct (_ =? 0x1); [|by apply illegal_insn_wf]].
  - change (let '(r, vm0) := run_fpu ?c vm in riscv_write_s vm0 ?d r) with (fwrite_s vm d c). apply fwrite_s_wf; [|done].
    apply fok_fma_round_f32; repeat case_match; try apply fneg_pat; auto using read_s_range with fp.
  - change (let '(r, vm0) := run_fpu ?c vm in riscv_write_d vm0 ?d r) with (fwrite_d vm d c). apply fwrite_d_wf; [|done].
    apply fok_fma_round_f64; repeat case_match; try apply fneg_pat; auto with fp; by apply freg_range.
Qed.

(** *** OP-FP *)

Lemma fok_arith {A} (c : fpu A) (rmm : bool) (f : A -> fpu A) P : fok c P -> (forall n, P n -> fok (f n) P) ->
  fok (do n := c in if rmm then f n else fret n) P.
Proof. intros Hc Hf. eapply fok_bind; [exact Hc|]. intros n Hn. destruct rmm; [by apply Hf|by apply fok_ret]. Qed.

(** The cases of a switch, without the equations of its guards. *)
Ltac switch_cases H :=
  repeat match type of H with (if ?b then _ else _) = Some _ => destruct b end;
  lazymatch type of H with None = _ => discriminate H | Some _ = Some _ => apply (inj Some) in H; subst end.

Ltac fwrite_wf :=
  lazymatch goal with
  | |- hart_wf (fwrite_s _ _ _) => apply fwrite_s_wf
  | |- hart_wf (fwrite_d _ _ _) => apply fwrite_d_wf
  | |- hart_wf (femit_s _ _ _) => apply femit_s_wf
  | |- hart_wf (femit_d _ _ _) => apply femit_d_wf
  | |- hart_wf (riscv_emit_s _ _ _) => apply emit_s_wf
  | |- hart_wf (riscv_emit_d _ _ _) => apply emit_d_wf
  | |- hart_wf (fwrite_x _ _ _ _) => eapply fwrite_x_wf
  | |- hart_wf (fwrite_bool _ _ _) => eapply fwrite_bool_wf
  | |- hart_wf (riscv_write_reg _ _ _ _) => apply write_reg_wf
  end.

#[local] Hint Unfold fpu_fsgnj32 fpu_fsgnj64 fpu_fsgnjn32 fpu_fsgnjn64 fpu_fsgnjx32 fpu_fsgnjx64 fpu_fsgnj fpu_fsgnjn fpu_is_flt32_sig fpu_is_flt64_sig
  fpu_is_fle32_sig fpu_is_fle64_sig fpu_is_equal32_quiet fpu_is_equal64_quiet fpu_is_flt32_quiet fpu_is_flt64_quiet fpu_is_fle32_quiet
  fpu_is_fle64_quiet fpu_fcvt_u32_to_f32 fpu_fcvt_u32_to_f64 fpu_fcvt_i32_to_f32 fpu_fcvt_i32_to_f64 fpu_fcvt_u64_to_f32
  fpu_fcvt_u64_to_f64 fpu_fcvt_i64_to_f32 fpu_fcvt_i64_to_f64 : fp.

Lemma fok_fcvt_any F fits ty low high f : fmt_ok F -> fok (fpu_fcvt_to F fits ty low high f) (fun _ => True).
Proof. intros. by apply fok_fcvt_to. Qed.

Lemma fok_round_any F fits ty low high f mode : fmt_ok F -> pat F f ->
  fok (fpu_round_to F (fpu_fcvt_to F fits ty low high) (fpu_of_int F) f mode) (fun _ => True) /\
  fok (fpu_round_to F (fpu_fcvt_to_checked F fits ty low high) (fpu_of_int F) f mode) (fun _ => True).
Proof.
  intros. split; (apply fok_round_to; [done|done|done| |]); intros; [by apply fok_fcvt_to|by apply fok_of_int|by apply fok_fcvt_to_checked|by apply fok_of_int].
Qed.

Section OpWf.
Context (vm : hart) (insn : Z) (Hi : urange 32 insn) (Hw : hart_wf vm).

Let Hs : forall r, pat F32 (riscv_read_s vm r).
Proof. intros. by apply read_s_range. Qed.
Let Hd : forall r, pat F64 (riscv_view_d vm r).
Proof. intros. by apply freg_range. Qed.
Local Hint Resolve Hs Hd F32_ok F64_ok : fp.

Lemma f_opc_compute_wf rmm vm' : f_opc_compute vm insn rmm = Some vm' -> hart_wf vm'.
Proof using Hi Hw.
  unfold f_opc_compute; cbv zeta; intros H. switch_cases H; (fwrite_wf; [|exact Hw]); try (simple apply fok_arith; [|intros n Hn]).
  all: repeat autounfold with fp; unfold riscv_rmm_add_f32, riscv_rmm_add_f64; auto with fp.
Qed.

Lemma f_opc_sign_compare_wf vm' : f_opc_sign_compare vm insn = Some vm' -> hart_wf vm'.
Proof using Hi Hw.
  unfold f_opc_sign_compare; cbv zeta; intros H. switch_cases H; (fwrite_wf; [|exact Hw]).
  all: repeat autounfold with fp; eauto with fp.
Qed.

Lemma f_opc_convert_wf vm' : f_opc_convert vm insn = Some vm' -> hart_wf vm'.
Proof using Hi Hw.
  unfold f_opc_convert; cbv zeta; intros H.
  switch_cases H; try (apply illegal_insn_wf; [exact Hi|]); (fwrite_wf; [|exact Hw]).
  all: try (eapply fok_bind; [|intros i _]); try (apply fok_of_int; auto with fp).
  all: try (apply fok_round_any; auto with fp).
  all: try (apply fok_fcvt_any; auto with fp).
  all: eauto with fp.
Qed.

Lemma fli_range r : urange 32 (nth (Z.to_nat r) riscv_fli_table 0).
Proof.
  assert (Forall (urange 32) riscv_fli_table) as Hf by (repeat constructor; vm_compute; discriminate).
  destruct (nth_in_or_default (Z.to_nat r) riscv_fli_table 0) as [Hn| ->]; [|by split].
  rewrite List.Forall_forall in Hf. by apply Hf.
Qed.

Lemma f_opc_bitcast_wf vm' : f_opc_bitcast vm insn = Some vm' -> hart_wf vm'.
Proof using Hi Hw.
  unfold f_opc_bitcast; cbv zeta; intros H. pose proof fli_range as Hf. pose proof (read_reg_range RV64 vm) as Hx.
  switch_cases H; fwrite_wf; try exact Hw; auto with fp; [exact (Hf _)|exact (Hx _)|fok_lit|apply fok_f32_to_f64, Hf].
Qed.

Lemma f_opc_op_impl_wf rmm : hart_wf (riscv_emulate_f_opc_op_impl vm insn rmm).
Proof using Hi Hw.
  unfold riscv_emulate_f_opc_op_impl. destruct (riscv_fpu_is_enabled vm); [|by apply illegal_insn_wf].
  destruct (_ ∪ _) as [vm'|] eqn:E; [|by apply illegal_insn_wf].
  rewrite !union_Some in E. destruct E as [[[E|[_ E]]|[_ E]]|[_ E]];
    [by eapply f_opc_compute_wf|by apply f_opc_convert_wf|by apply f_opc_sign_compare_wf|by apply f_opc_bitcast_wf].
Qed.
End OpWf.

Lemma run_mode_wf m vm : hart_wf vm -> hart_wf (snd (run_fpu (set_rounding_mode m) vm)).
Proof. intros. by apply (run_fpu_wf _ (fun _ => True)); [apply fok_set_rounding_mode|]. Qed.

Lemma emulate_f_opc_op_wf vm insn : urange 32 insn -> hart_wf vm -> hart_wf (emulate_f_opc_op vm insn).
Proof.
  intros Hi Hw. unfold emulate_f_opc_op. cbv zeta. destruct (_ || _); [|by apply f_opc_op_impl_wf].
  match goal with |- context [run_fpu (set_rounding_mode ?m) vm] => pose proof (run_mode_wf m vm Hw) as H1; destruct (run_fpu (set_rounding_mode m) vm) as [u vm1] end.
  by apply run_mode_wf, f_opc_op_impl_wf.
Qed.

#[export] Instance rvvm_fpu_ok : FpuOk rvvm_fpu.
Proof.
  constructor; [intros x vm insn Hi Hw..|exact emulate_f_opc_op_wf]; cbn; unfold emulate_fmadd, emulate_fmsub, emulate_fnmsub, emulate_fnmadd;
    by apply emulate_fma_wf.
Qed.
