(* ===== verification/FpuArith.v ===== *)
(** * Floating-point arithmetic: theorems

    The arithmetic instructions give the correctly rounded result of the effective rounding
    mode with its flags, in the architectural format of the registers, and leave the mode of
    the host as it was.  The host has no rounding to nearest with ties away from zero; where
    the code repairs a result of the host, the repaired result is the right one. *)
From S2P Require Import Prelude BitOps MemOps State CsrDefs Tlb Hart Csr Mmu Base.
From S2P Require Import MmuProps Compressed IsaSpec BaseProps AtomicsProps Ieee IeeeExact FpuLib FpuLibProps RiscvFpu FpuProps.
Local Open Scope fpu_scope.

(** ** Ties away from zero: the product of two [float]s *)

Lemma fis_pat F u x : fis F u x -> pat F u.
Proof. by intros []. Qed.

(** [float] values in units of the smallest [double]. *)
Lemma widen_fis u x : fis F32 u x -> fis F64 (fst (convert F32 F64 FPU_LIB_ROUND_NE u)) (x * 2 ^ 925).
Proof.
  intros Hu. apply (convert_exact F32 F64 _ u x F32_ok F64_ok); [by vm_compute|done|].
  destruct Hu as (_ & Hc & <-). pose proof (code_range F32 F32_ok u) as Hr. destruct (val_split F32 F32_ok (code F32 u)) as (m & k & Hk & Hm & Ev); [lia|].
  assert (Hv : val F32 (code F32 u) < 2 ^ 277) by (change (2 ^ 277) with (val F32 (inf_code F32)); apply (val_lt F32 F32_ok); lia).
  replace (sval F32 u * _) with ((if sgn F32 u then - m else m) * 2 ^ (k + 925)).
  - apply (rep_scaled F64 F64_ok); [lia| |].
    + change (2 * 2 ^ F64.(mb)) with (2 ^ 53). change (2 * 2 ^ F32.(mb)) with (2 ^ 24) in Hm. destruct (sgn F32 u); lia.
    + rewrite Z.pow_add_r by lia. change (val F64 (inf_code F64)) with (2 ^ 2098). destruct (sgn F32 u); nia.
  - unfold sval. rewrite Ev, Z.pow_add_r by lia. change (min_exp F64 - min_exp F32) with 925. destruct (sgn F32 u); lia.
Qed.

Lemma rep_opp F z : rep F z -> rep F (- z).
Proof. intros (c & Hc & E). exists c. by rewrite Z.abs_opp. Qed.
Lemma rep_sign F (s : bool) z : rep F z -> rep F (if s then - z else z).
Proof. destruct s; [apply rep_opp|done]. Qed.

Lemma rep64 m k : 0 <= k -> 0 <= m < 2 ^ 53 -> m * 2 ^ k < 2 ^ 2098 -> rep F64 (m * 2 ^ k).
Proof. intros Hk Hm Hb. apply (rep_scaled F64 F64_ok); rewrite ?Z.abs_eq by lia; done || apply Hm. Qed.

Lemma finite32 u x : fis F32 u x -> exists (s : bool) m k, 0 <= k /\ 0 <= m < 2 ^ 24 /\ m * 2 ^ k < 2 ^ 277 /\ x = (if s then - (m * 2 ^ k) else m * 2 ^ k).
Proof.
  intros (_ & Hc & <-). pose proof (code_range F32 F32_ok u) as Hr. destruct (val_split F32 F32_ok (code F32 u)) as (m & k & Hk & Hm & Ev); [lia|].
  exists (sgn F32 u), m, k. split; [done|]. split; [done|]. unfold sval. rewrite <- Ev. split; [|by destruct (sgn F32 u)].
  change (2 ^ 277) with (val F32 (inf_code F32)). apply (val_lt F32 F32_ok). lia.
Qed.

Lemma rep_product a b x y : fis F32 a x -> fis F32 b y -> rep F64 (x * y * 2 ^ 776).
Proof.
  intros Ha Hb. destruct (finite32 a x Ha) as (s & m & k & Hk & Hm & Hv & ->), (finite32 b y Hb) as (t & n & l & Hl & Hn & Hw & ->).
  replace (_ * _ * _) with (if xorb s t then - (m * n * 2 ^ (k + l + 776)) else m * n * 2 ^ (k + l + 776)).
  - apply rep_sign, rep64; [lia|nia|]. rewrite !Z.pow_add_r by lia. replace (m * n * (2 ^ k * 2 ^ l * 2 ^ 776)) with (m * 2 ^ k * (n * 2 ^ l) * 2 ^ 776) by lia.
    pose proof (Z.pow_pos_nonneg 2 k). pose proof (Z.pow_pos_nonneg 2 l). assert (m * 2 ^ k * (n * 2 ^ l) <= 2 ^ 277 * 2 ^ 277) by (apply Z.mul_le_mono_nonneg; nia). lia.
  - rewrite !Z.pow_add_r by lia. destruct s, t; simpl; lia.
Qed.

(** The spacing above a [float] and the middle of the interval above it. *)
Lemma rep_middle c : 0 <= c < inf_code F32 ->
  rep F64 ((val F32 (c + 1) - val F32 c) * 2 ^ 925) /\ rep F64 ((val F32 (c + 1) - val F32 c) * 2 ^ 924) /\ rep F64 ((val F32 c + val F32 (c + 1)) * 2 ^ 924).
Proof.
  intros Hc. pose proof (val_lt F32 F32_ok c (inf_code F32)) as Hv. change (val F32 (inf_code F32)) with (2 ^ 277) in Hv. rewrite (val_succ F32 F32_ok) by lia.
  destruct (code_cases F32 F32_ok c) as [Hs|(k & m & Hk & Hm & ->)]; [lia| |].
  - change (2 * 2 ^ F32.(mb)) with (2 ^ 24) in Hs. assert (c / 2 ^ 23 < 2) by (apply Z.div_lt_upper_bound; lia). unfold ulp. change F32.(mb) with 23.
    rewrite (val_small F32 F32_ok), Z.max_l by (change (2 * 2 ^ F32.(mb)) with (2 ^ 24); lia). split; [|split].
    + replace ((_ - _) * _) with (1 * 2 ^ 925) by lia. by apply rep64.
    + replace ((_ - _) * _) with (1 * 2 ^ 924) by lia. by apply rep64.
    + apply rep64; lia.
  - unfold ulp. rewrite (div_binade F32 F32_ok), (val_binade F32 F32_ok) in * by lia. replace (Z.max 0 (k + 1 - 1)) with k by lia.
    change (2 * 2 ^ F32.(mb)) with (2 ^ 24) in Hm. change (2 ^ F32.(mb)) with (2 ^ 23) in *. pose proof (Z.pow_pos_nonneg 2 k). split; [|split].
    + replace ((_ - _) * _) with (1 * 2 ^ (k + 925)) by (rewrite Z.pow_add_r by lia; lia). apply rep64; [lia..|]. rewrite Z.pow_add_r by lia. nia.
    + replace ((_ - _) * _) with (1 * 2 ^ (k + 924)) by (rewrite Z.pow_add_r by lia; lia). apply rep64; [lia..|]. rewrite Z.pow_add_r by lia. nia.
    + replace ((_ + _) * _) with ((2 * m + 1) * 2 ^ (k + 924)) by (rewrite Z.pow_add_r by lia; lia). apply rep64; [lia..|]. rewrite Z.pow_add_r by lia. nia.
Qed.

(** What the fixup computes: whether the product is halfway above [n]. *)
Lemma rmm_mul_exact_f32_run (s : bool) c a b x y e : fis F32 a x -> fis F32 b y -> 0 <= c < inf_code F32 - 1 -> x * y = (if s then - Z.abs (x * y) else Z.abs (x * y)) ->
  exists e', riscv_rmm_mul_exact_f32 (with_sign F32 s c) a b (mk_fenv e FPU_LIB_ROUND_NE) =
    (with_sign F32 s (if 2 * Z.abs (x * y) =? 2 ^ 149 * (val F32 c + val F32 (c + 1)) then c + 1 else c), mk_fenv e' FPU_LIB_ROUND_NE).
Proof.
  intros Ha Hb Hc Hs. pose proof (sign_split F32 F32_ok) as HS. set (n := with_sign F32 s c). set (V := val F32 c) in *. set (V' := val F32 (c + 1)) in *.
  assert (Haway : u32 (n + 1) = with_sign F32 s (c + 1)).
  { replace (n + 1) with (with_sign F32 s (c + 1)) by (unfold n, with_sign; lia). apply wrap_small.
    apply (with_sign_range F32 F32_ok). pose proof (inf_pos F32 F32_ok). change (sign_bit F32) with 2147483648. change (inf_code F32) with 2139095040 in *. lia. }
  unfold riscv_rmm_mul_exact_f32, fpu_fcvt_f32_to_f64, fpu_mul64, fpu_sub64, fpu_add64, fpu_mul, fpu_sub, fpu_add. rewrite Haway.
  rewrite !bind_host. cbv beta. set (m0 := FPU_LIB_ROUND_NE).
  assert (Hc0 : 0 <= c < inf_code F32) by lia. assert (Hc1 : 0 <= c + 1 < inf_code F32) by lia.
  pose proof (widen_fis n _ (fis_with_sign F32 F32_ok s c Hc0)) as Hn. pose proof (widen_fis _ _ (fis_with_sign F32 F32_ok s (c + 1) Hc1)) as Hw.
  pose proof (widen_fis a x Ha) as Hda. pose proof (widen_fis b y Hb) as Hdb. fold m0 in Hn, Hw, Hda, Hdb. fold V V' in Hn, Hw.
  destruct (rep_middle c Hc0) as (R1 & R2 & R3). fold V V' in R1, R2, R3. set (g := V' - V) in *.
  pose proof (fmul_exact F64 F64_ok m0 _ _ _ _ (x * y * 2 ^ 776) Hda Hdb (rep_product a b x y Ha Hb) ltac:(change (2 ^ min_exp F64) with (2 ^ 1074); lia)) as Hp.
  assert (Hgap := fsub_exact F64 F64_ok m0 _ _ _ _ Hw Hn). replace (_ * _ - _ * _) with (if s then - (g * 2 ^ 925) else g * 2 ^ 925) in Hgap by (unfold g; destruct s; lia).
  specialize (Hgap (rep_sign F64 s _ R1)). set (gap := fst (fsub F64 m0 _ (fst (convert F32 F64 m0 n)))) in *.
  assert (Hhalf : fis F64 0x3FE0000000000000 (2 ^ 1073)) by (split; [by vm_compute|by split]).
  pose proof (fmul_exact F64 F64_ok m0 _ _ _ _ (if s then - (g * 2 ^ 924) else g * 2 ^ 924) Hgap Hhalf (rep_sign F64 s _ R2)
    ltac:(change (2 ^ min_exp F64) with (2 ^ 1074); destruct s; lia)) as Hhg.
  pose proof (fadd_exact F64 F64_ok m0 _ _ _ _ Hn Hhg) as Hm. replace (_ * _ + _) with (if s then - ((V + V') * 2 ^ 924) else (V + V') * 2 ^ 924) in Hm by (unfold g; destruct s; lia).
  specialize (Hm (rep_sign F64 s _ R3)). set (mid := fst (fadd F64 m0 _ _)) in *. set (dab := fst (fmul F64 m0 (fst (convert F32 F64 m0 a)) _)) in *.
  destruct (fsub_finite F64 F64_ok m0 _ _ _ _ Hp Hm) as (sa & sb & Ed). eexists. unfold fret. f_equal.
  rewrite (shl1_code F64 _ F64_ok) by (rewrite Ed; apply (round_sum_ok F64 F64_ok)).
  match goal with |- (if 2 * code F64 (fst ?d) =? 0 then _ else _) = _ => pose proof (round_sum_zero F64 F64_ok m0 sa sb) as Hz; rewrite Ed end.
  specialize (Hz (x * y * 2 ^ 776 - (if s then - ((V + V') * 2 ^ 924) else (V + V') * 2 ^ 924))).
  replace (x * y * 2 ^ 776) with (if s then - (Z.abs (x * y) * 2 ^ 776) else Z.abs (x * y) * 2 ^ 776) in * by (rewrite Hs at 2; destruct s; lia).
  assert (Hscale : forall p q : Z, 2 * p = 2 ^ 149 * q <-> p * 2 ^ 776 = q * 2 ^ 924) by lia. specialize (Hscale (Z.abs (x * y)) (V + V')).
  revert Hscale Hz. generalize (Z.abs (x * y) * 2 ^ 776) ((V + V') * 2 ^ 924). intros p q Hscale Hz.
  destruct (Z.eqb_spec (2 * Z.abs (x * y)) (2 ^ 149 * (V + V'))) as [T|T]; case_bool; try done; exfalso; destruct s; lia.
Qed.

(** Above the largest number there is no middle, and the fixup leaves it. *)
Lemma rmm_mul_exact_f32_max (s : bool) a b x y e : fis F32 a x -> fis F32 b y ->
  exists e', riscv_rmm_mul_exact_f32 (with_sign F32 s (inf_code F32 - 1)) a b (mk_fenv e FPU_LIB_ROUND_NE) =
    (with_sign F32 s (inf_code F32 - 1), mk_fenv e' FPU_LIB_ROUND_NE).
Proof.
  intros Ha Hb. unfold riscv_rmm_mul_exact_f32, fpu_fcvt_f32_to_f64, fpu_mul64, fpu_sub64, fpu_add64, fpu_mul, fpu_sub, fpu_add.
  rewrite !bind_host. cbv beta. set (m0 := FPU_LIB_ROUND_NE). pose proof (widen_fis a x Ha) as Hda. pose proof (widen_fis b y Hb) as Hdb. fold m0 in Hda, Hdb.
  pose proof (fmul_exact F64 F64_ok m0 _ _ _ _ (x * y * 2 ^ 776) Hda Hdb (rep_product a b x y Ha Hb) ltac:(change (2 ^ min_exp F64) with (2 ^ 1074); lia)) as Hp.
  destruct (fis_not_nan F64 F64_ok _ _ Hp) as [Np Ip]. set (dab := fst (fmul F64 m0 (fst (convert F32 F64 m0 a)) _)) in *.
  eexists. unfold fret. f_equal. set (mid := fst (fadd F64 m0 _ _)).
  assert (Em : mid = with_sign F64 s (inf_code F64)) by (unfold mid; by destruct s; vm_compute).
  unfold fsub. rewrite Np, Em. replace (is_nan F64 (with_sign F64 s (inf_code F64))) with false by (by destruct s; vm_compute). cbn [orb].
  unfold fadd. rewrite Np, Ip. replace (is_nan F64 (fneg F64 (with_sign F64 s (inf_code F64)))) with false by (by destruct s; vm_compute).
  replace (is_inf F64 (fneg F64 (with_sign F64 s (inf_code F64)))) with true by (by destruct s; vm_compute). by destruct s; vm_compute.
Qed.

Lemma isolated_run F n c e m r : urange 5 e -> fpu_is_finite F n = true -> (exists e', c (mk_fenv e m) = (r, mk_fenv e' m)) ->
  rmm_isolated F n c (mk_fenv e m) = (r, mk_fenv e m).
Proof.
  intros He Hn [e' Hc]. unfold rmm_isolated. rewrite Hn. cbn [negb]. unfold fbind, get_exceptions, set_exceptions, fret. cbn [fe_exc fe_rm].
  rewrite Hc. cbn [fe_rm]. do 2 f_equal. change FPU_LIB_FLAGS_ALL with (Z.ones 5). rewrite Z.land_ones by lia. by apply Z.mod_small.
Qed.
Lemma isolated_skip F n c fe : fpu_is_finite F n = false -> rmm_isolated F n c fe = (n, fe).
Proof. intros Hn. unfold rmm_isolated. by rewrite Hn. Qed.

Lemma mul_sign F a b : fmt_ok F -> let s := xorb (sgn F a) (sgn F b) in sval F a * sval F b = if s then - Z.abs (sval F a * sval F b) else Z.abs (sval F a * sval F b).
Proof.
  intros HF. cbv zeta. unfold sval. pose proof (val_code_nonneg F HF a). pose proof (val_code_nonneg F HF b). destruct (sgn F a), (sgn F b); simpl; nia.
Qed.

Lemma mul_f32_rmm a b e : pat F32 a -> pat F32 b -> urange 5 e ->
  riscv_rmm_mul_f32 (fst (fmul F32 FPU_LIB_ROUND_NE a b)) a b (mk_fenv (e .| snd (fmul F32 FPU_LIB_ROUND_NE a b)) FPU_LIB_ROUND_NE) =
  (fst (fmul F32 FPU_LIB_ROUND_MM a b), mk_fenv (e .| snd (fmul F32 FPU_LIB_ROUND_MM a b)) FPU_LIB_ROUND_NE).
Proof.
  intros Ha Hb He. destruct (fmul_ok F32 F32_ok FPU_LIB_ROUND_NE a b Ha Hb) as [Hp Hfl]. unfold riscv_rmm_mul_f32.
  assert (He' : urange 5 (e .| snd (fmul F32 FPU_LIB_ROUND_NE a b))) by (by apply urange_lor).
  pose proof (is_finite_code F32 _ F32_ok Hp) as Hfin. pose proof (mul_sign F32 a b F32_ok) as Hs. cbv zeta in Hs.
  unfold fmul in *. cbv zeta in *. destruct (is_nan F32 a || is_nan F32 b) eqn:N.
  { rewrite isolated_skip; [done|]. rewrite Hfin. destruct (nan2_nan F32 F32_ok a b N) as [Hn _]. unfold is_nan in Hn. case_bool; [lia|done]. }
  apply orb_false_iff in N as [Na Nb]. destruct (is_inf F32 a || is_inf F32 b) eqn:I.
  { rewrite isolated_skip; [by destruct ((code F32 a =? 0) || (code F32 b =? 0))|]. rewrite Hfin.
    destruct ((code F32 a =? 0) || (code F32 b =? 0)), (xorb _ _); by vm_compute. }
  apply orb_false_iff in I as [Ia Ib].
  assert (Fa : fis F32 a (sval F32 a)). { unfold is_nan, is_inf in *. split; [done|]. split; [|done]. lia. }
  assert (Fb : fis F32 b (sval F32 b)). { unfold is_nan, is_inf in *. split; [done|]. split; [|done]. lia. }
  pose proof (val_code_nonneg F32 F32_ok a) as Va. pose proof (val_code_nonneg F32 F32_ok b) as Vb.
  assert (Habs : val F32 (code F32 a) * val F32 (code F32 b) = Z.abs (sval F32 a * sval F32 b)).
  { unfold sval. destruct (sgn F32 a), (sgn F32 b); nia. }
  set (s := xorb (sgn F32 a) (sgn F32 b)) in *. change (2 ^ min_exp F32) with (2 ^ 149) in *.
  destruct (nearest_fixup F32 F32_ok s (val F32 (code F32 a) * val F32 (code F32 b)) (2 ^ 149)) as (r & fl & E1 & Hr & E2 & Hmax); [nia|done|].
  rewrite E1, E2 in *. cbn [fst snd] in *. pose proof (sign_split F32 F32_ok) as HS. rewrite Habs in *.
  rewrite (code_with_sign F32 F32_ok) in Hfin by (change (2 ^ F32.(mb)) with (2 ^ 23) in HS; lia).
  destruct (Z.ltb_spec r (inf_code F32)) as [L|L]; [|by rewrite isolated_skip].
  cbn [andb]. apply isolated_run; [done|done|]. destruct (Z.eq_dec r (inf_code F32 - 1)) as [->|Hn].
  - rewrite (proj2 (Z.eqb_neq _ _) (Hmax eq_refl)). by apply (rmm_mul_exact_f32_max s a b _ _ _ Fa Fb).
  - apply (rmm_mul_exact_f32_run s r a b _ _ _ Fa Fb); [lia|done].
Qed.

(** ** Square roots and quotients need no repair *)

Definition ieee_sqrt (F : fmt) (mode a : Z) : Z * Z :=
  if is_nan F a then nan2 F a a
  else if code F a =? 0 then (a, 0)
  else if sgn F a then (default_nan F, FPU_LIB_FLAG_NV)
  else fsqrt F mode a.

Lemma sqrt_nearest F a : fmt_ok F -> 2 * F.(mb) <= min_exp F -> fsqrt F FPU_LIB_ROUND_NE a = fsqrt F FPU_LIB_ROUND_MM a.
Proof.
  intros HF HE. unfold fsqrt. destruct (is_nan F a); [done|]. destruct (is_inf F a); [done|]. unfold round_sqrt. cbv zeta.
  apply nearest_no_tie. apply (sqrt_no_tie F HF (code F a)); [done|]. apply (code_range F HF).
Qed.

(** The result has a nonzero exponent, as far as the fixup of the quotient looks. *)
Definition normal_result (F : fmt) (r : Z * Z) : Prop := 2 ^ F.(mb) <= code F (fst r).

Lemma div_nearest F a b : fmt_ok F -> normal_result F (fdiv F FPU_LIB_ROUND_NE a b) -> fdiv F FPU_LIB_ROUND_NE a b = fdiv F FPU_LIB_ROUND_MM a b.
Proof.
  intros HF. unfold fdiv. cbv zeta. repeat (case_match; [done|]). unfold normal_result. intros Hn.
  pose proof (code_range F HF a). pose proof (code_range F HF b). pose proof (pow_unit F HF). pose proof (B_pos F HF). pose proof (sign_split F HF).
  assert (Hb : 0 < code F b) by lia. pose proof (val_lt F HF 0 (code F b)) as Hvb. rewrite (val_0 F HF) in Hvb. pose proof (val_code_nonneg F HF a).
  set (s := xorb _ _) in *. set (n := val F (code F a) * _) in *. set (d := val F (code F b)) in *.
  destruct (tcode_rat F HF n d) as (Hc & Hl & Hu); [unfold n; nia|lia|]. unfold round_rat in *. cbv zeta in *. set (c := tcode F (n / d)) in *.
  destruct (decide (locate F n d c = Tie)) as [T|T]; [|by rewrite nearest_no_tie].
  assert (Hlow : c < 2 ^ F.(mb)). { destruct (Z.lt_ge_cases c (2 ^ F.(mb))) as [|Hge]; [done|]. exact (False_ind _ (div_no_tie F HF (code F a) (code F b) ltac:(lia) Hb Hge T)). }
  rewrite T in *. set (h := _ <=? _) in *. destruct (nearest_tie F HF s c h) as [E1 E2]; [pose proof (inf_pos F HF); lia|].
  destruct (round_code F FPU_LIB_ROUND_NE s c Tie h) as [r fl] eqn:E. rewrite E1. cbn [fst snd] in *. subst r.
  pose proof (inf_pos F HF). rewrite (code_with_sign F HF) in Hn by (destruct (Z.odd c); lia). destruct (Z.odd c); [done|lia].
Qed.

(** ** The operations of the library *)

Inductive fp_op := FADD | FSUB | FMUL | FDIV | FSQRT.
#[global] Instance fp_op_eq_dec : EqDecision fp_op.
Proof. solve_decision. Defined.

(** The result and the flags that the architecture asks for. *)
Definition fp_ieee (F : fmt) (op : fp_op) (mode a b : Z) : Z * Z :=
  match op with
  | FADD => fadd F mode a b
  | FSUB => fsub F mode a b
  | FMUL => fmul F mode a b
  | FDIV => fdiv F mode a b
  | FSQRT => ieee_sqrt F mode a
  end.
Definition fp_canon (F : fmt) (r : Z) : Z := if is_nan F r then canonical_nan F else r.

Definition fp_format (d : bool) : fmt := if d then F64 else F32.

(** What the instruction calls; [rmm] asks for the fixup. *)
Definition fp_code (d : bool) (op : fp_op) (rmm : bool) (a b : Z) : fpu Z :=
  let F := fp_format d in
  let fixed (c : fpu Z) (f : Z -> fpu Z) := do n := c in if rmm then f n else fret n in
  match op with
  | FADD => fixed (fpu_add F a b) (fun n => riscv_rmm_add F n a b)
  | FSUB => fixed (fpu_sub F a b) (fun n => riscv_rmm_add F n a (fpu_neg F b))
  | FMUL => fixed (fpu_mul F a b) (fun n => if d then riscv_rmm_mul_f64 n a b else riscv_rmm_mul_f32 n a b)
  | FDIV => fixed (fpu_div F a b) (fun n => if d then riscv_rmm_div_apply_f64 n a b else riscv_rmm_div_apply_f32 n a b)
  | FSQRT => fpu_sqrt F a
  end.

(** The cases of ties away from zero that the theorem covers. *)
Definition rmm_covered (d : bool) (op : fp_op) (a b : Z) : Prop :=
  match op with
  | FADD | FSUB => False
  | FMUL => d = false
  | FDIV => normal_result (fp_format d) (fdiv (fp_format d) FPU_LIB_ROUND_NE a b)
  | FSQRT => True
  end.

Definition mode_of (m : Z) : Z := if m =? FPU_LIB_ROUND_MM then FPU_LIB_ROUND_NE else m.

Section code.
Context (F : fmt) (HF : fmt_ok F).

Lemma not_nan_not_snan u : is_nan F u = false -> is_snan F u = false.
Proof. intros H. unfold is_snan. by rewrite H. Qed.

Lemma round_sum_not_snan mode sa sb x : is_snan F (fst (round_sum F mode sa sb x)) = false.
Proof using HF.
  unfold round_sum. pose proof (inf_pos F HF). pose proof (B_pos F HF). destruct (x =? 0); [apply number_not_snan; [done|lia]|].
  apply round_rat_not_snan; [done|lia..].
Qed.

Ltac snan_leaf :=
  first [by apply nan2_nan | by apply default_not_snan | by apply round_sum_not_snan | by apply not_nan_not_snan
        |apply number_not_snan; [done|pose proof (inf_pos F HF); pose proof (B_pos F HF); lia]].

Lemma fadd_not_snan mode a b : is_snan F (fst (fadd F mode a b)) = false.
Proof using HF.
  unfold fadd. destruct (is_nan F a || is_nan F b) eqn:N; [snan_leaf|]. apply orb_false_iff in N as [Na Nb].
  repeat case_match; snan_leaf.
Qed.

Lemma fsub_not_snan mode a b : is_snan F (fst (fsub F mode a b)) = false.
Proof using HF. unfold fsub. destruct (is_nan F a || is_nan F b) eqn:N; [snan_leaf|apply fadd_not_snan]. Qed.

Lemma fmul_not_snan mode a b : is_snan F (fst (fmul F mode a b)) = false.
Proof using HF.
  unfold fmul. cbv zeta. destruct (is_nan F a || is_nan F b) eqn:N; [snan_leaf|]. pose proof (val_code_nonneg F HF a). pose proof (val_code_nonneg F HF b).
  pose proof (pow_unit F HF). repeat case_match; try snan_leaf. apply round_rat_not_snan; [done|nia|lia].
Qed.

Lemma fdiv_not_snan mode a b : is_snan F (fst (fdiv F mode a b)) = false.
Proof using HF.
  unfold fdiv. cbv zeta. destruct (is_nan F a || is_nan F b) eqn:N; [snan_leaf|]. pose proof (val_code_nonneg F HF a). pose proof (val_pos_code F HF b).
  pose proof (pow_unit F HF). destruct (Z.eqb_spec (code F b) 0); repeat case_match; try snan_leaf. apply round_rat_not_snan; [done|nia|auto].
Qed.

Lemma nan_flags_quiet r : is_snan F r = false -> nan_flags F r r = 0.
Proof. intros H. unfold nan_flags. by rewrite H. Qed.

(** What a computation leaves for the write to the register. *)
Definition computes (c : fpu Z) (m : Z) (spec : Z * Z) : Prop :=
  forall e, urange 5 e -> exists r fl, c (mk_fenv e m) = (r, mk_fenv (e .| fl) m) /\ pat F r /\ fp_canon F r = fp_canon F (fst spec) /\ fl .| nan_flags F r r = snd spec.

Lemma computes_host op m : result_ok F (op m) -> is_snan F (fst (op m)) = false -> computes (host_op op) m (op m).
Proof.
  intros [Hp _] Hs e He. exists (fst (op m)), (snd (op m)). unfold host_op. cbn [fe_exc fe_rm]. destruct (op m) as [r fl] eqn:E.
  rewrite nan_flags_quiet, Z.lor_0_r by done. done.
Qed.

Lemma canonical_is_nan : is_nan F (canonical_nan F) = true /\ is_snan F (canonical_nan F) = false.
Proof using HF.
  pose proof (quiet_bit F HF). pose proof (inf_pos F HF). pose proof (sign_split F HF). destruct HF as [Hm He]. unfold is_snan, is_nan, canonical_nan, code.
  rewrite Z.mod_small by lia. case_bool; [|lia]. split; [done|]. cbn [andb]. apply negb_false_iff. rewrite Z.testbit_eqb by lia.
  apply Z.eqb_eq. unfold inf_code. replace F.(mb) with (1 + (F.(mb) - 1)) at 1 by lia. rewrite Z.pow_add_r by lia.
  replace ((2 ^ F.(eb) - 1) * (2 ^ 1 * 2 ^ (F.(mb) - 1)) + 2 ^ (F.(mb) - 1)) with ((2 ^ F.(eb) - 1) * 2 * 2 ^ (F.(mb) - 1) + 1 * 2 ^ (F.(mb) - 1)) by lia.
  rewrite <- Z.mul_add_distr_r, Z.div_mul, Z.add_comm, Z.mod_add by lia. done.
Qed.

Lemma default_is_nan : is_nan F (default_nan F) = true.
Proof using HF.
  pose proof (quiet_bit F HF). pose proof (sign_split F HF). pose proof (inf_pos F HF). unfold is_nan, default_nan.
  rewrite code_with_sign by (done || lia). case_bool; [done|lia].
Qed.

Lemma fsqrt_not_snan m a : is_snan F (fst (fsqrt F m a)) = false.
Proof using HF.
  unfold fsqrt. destruct (is_nan F a) eqn:N; [apply nan2_nan; [done|by rewrite N]|]. destruct (is_inf F a); [by apply not_nan_not_snan|].
  unfold round_sqrt. cbv zeta. set (n := _ * _). destruct (tcode_spec F HF (Z.sqrt n)) as [Hc _]; [apply Z.sqrt_nonneg|].
  destruct (round_code_range F HF m false _ (locate_sqrt F n (tcode F (Z.sqrt n))) false Hc) as [Hr _]. by apply (number_not_snan F HF false).
Qed.

Lemma fsqrt_zero m : fsqrt F m 0 = (0, 0).
Proof using HF.
  pose proof (inf_pos F HF). pose proof (B_pos F HF). pose proof (sign_split F HF). unfold fsqrt, is_nan, is_inf. assert (E : code F 0 = 0) by (apply Z.mod_0_l; lia). rewrite E.
  case_bool; [lia|]. case_bool; [lia|]. rewrite (val_0 F HF), Z.mul_0_l. unfold round_sqrt. change (Z.sqrt 0) with 0.
  rewrite (tcode_unique F HF 0 0) by (rewrite ?(val_small F HF) by lia; lia). unfold locate_sqrt. rewrite (val_0 F HF). cbv zeta. change (0 =? 0 * 0) with true. cbv iota.
  unfold round_code. destruct (Z.leb_spec (inf_code F) 0); [lia|]. assert (I : inc m false 0 Exact = false) by (unfold inc; by repeat case_match).
  rewrite I. destruct (Z.eqb_spec 0 (inf_code F)); [lia|done].
Qed.

Lemma computes_sqrt m a : pat F a -> computes (fpu_sqrt F a) m (ieee_sqrt F m a).
Proof using HF.
  intros Ha e He. destruct (sign_pos F a HF Ha) as [Ep En]. unfold fpu_sqrt. rewrite Ep, En, (shl1_code F a HF Ha).
  pose proof (inf_pos F HF). pose proof (B_pos F HF). destruct (fsqrt_ok F HF m a Ha) as [Hq _]. unfold ieee_sqrt.
  destruct (is_nan F a) eqn:N; [|destruct (sgn F a) eqn:S]; cbn [negb andb].
  - rewrite !andb_false_r. cbn [andb]. exists a, 0. rewrite Z.lor_0_r, Z.lor_0_l. split; [done|]. split; [done|]. unfold fp_canon. rewrite N.
    destruct (nan2_nan F HF a a) as [-> _]; [by rewrite N|]. done.
  - destruct (Z.eqb_spec (code F a) 0) as [E|E].
    + rewrite E. exists a, 0. rewrite Z.lor_0_r, Z.lor_0_l, nan_flags_quiet by (by apply not_nan_not_snan). done.
    + replace (nz (2 * code F a)) with true by (symmetry; apply nz_true; lia). exists (canonical_nan F), FPU_LIB_FLAG_NV. cbn [fst snd].
      destruct canonical_is_nan as [Nc Sc]. rewrite nan_flags_quiet by done. split; [|split; [by apply canonical_pat|split; [|done]]].
      * done.
      * unfold fp_canon. by rewrite Nc, default_is_nan.
  - destruct (Z.eqb_spec (code F a) 0) as [E|E].
    + assert (a = 0) as -> by (rewrite (pattern_split F HF a Ha), S, E; done). exists 0, 0. rewrite nan_flags_quiet by (by apply not_nan_not_snan).
      split; [|done]. unfold host_op. cbn [fe_rm fe_exc]. by rewrite fsqrt_zero.
    + assert (Hs : is_snan F (fst (fsqrt F m a)) = false) by (by apply fsqrt_not_snan). exists (fst (fsqrt F m a)), (snd (fsqrt F m a)).
      unfold host_op. cbn [fe_rm fe_exc]. rewrite (nan_flags_quiet _ Hs), Z.lor_0_r. by destruct (fsqrt F m a).
Qed.
End code.

Lemma computes_bind_ret F c m spec : computes F c m spec -> computes F (do n := c in fret n) m spec.
Proof. intros Hc e He. destruct (Hc e He) as (r & fl & Er & H). exists r, fl. unfold fbind. by rewrite Er. Qed.

(** The fixup of a quotient with a nonzero exponent field does nothing. *)
Lemma exponent_field F u : fmt_ok F -> 2 ^ F.(mb) <= code F u -> nz (u .& inf_code F) = true.
Proof.
  intros HF Hu. pose proof (B_pos F HF). pose proof (code_range F HF u) as Hc. destruct HF as [Hm He]. apply nz_true. unfold inf_code.
  replace (2 ^ F.(eb) - 1) with (Z.ones F.(eb)) by (rewrite Z.ones_equiv; lia). rewrite <- Z.shiftl_mul_pow2, land_field by lia.
  rewrite Z.shiftl_mul_pow2, Z.shiftr_div_pow2 by lia. unfold wrap. unfold code, sign_bit in Hu. rewrite Z.pow_add_r in Hu by lia.
  rewrite (Z.mul_comm (2 ^ F.(mb))) in Hu. rewrite (Z.mul_comm (2 ^ F.(eb))), Z.rem_mul_r in Hu by lia.
  pose proof (Z.mod_pos_bound u (2 ^ F.(mb))). nia.
Qed.

Section fp_code.
Context (d : bool) (op : fp_op) (a b : Z) (Ha : pat (fp_format d) a) (Hb : pat (fp_format d) b).

Let HF : fmt_ok (fp_format d).
Proof. by destruct d. Qed.

Lemma fp_code_host m : 0 <= m <= 3 -> computes (fp_format d) (fp_code d op false a b) m (fp_ieee (fp_format d) op m a b).
Proof using Ha Hb.
  intros Hm. destruct op; cbn [fp_code fp_ieee]; [apply computes_bind_ret..|by apply computes_sqrt].
  - apply (computes_host _ (fun m => fadd (fp_format d) m a b)); [by apply fadd_ok|by apply fadd_not_snan].
  - apply (computes_host _ (fun m => fsub (fp_format d) m a b)); [by apply fsub_ok|by apply fsub_not_snan].
  - apply (computes_host _ (fun m => fmul (fp_format d) m a b)); [by apply fmul_ok|by apply fmul_not_snan].
  - apply (computes_host _ (fun m => fdiv (fp_format d) m a b)); [by apply fdiv_ok|by apply fdiv_not_snan].
Qed.

Lemma fp_code_rmm : rmm_covered d op a b -> computes (fp_format d) (fp_code d op true a b) FPU_LIB_ROUND_NE (fp_ieee (fp_format d) op FPU_LIB_ROUND_MM a b).
Proof using Ha Hb.
  intros Hr. destruct op; cbn [fp_code fp_ieee rmm_covered] in *; [done|done| | |].
  - subst d. intros e He. destruct (fmul_ok F32 F32_ok FPU_LIB_ROUND_MM a b Ha Hb) as [Hp _].
    exists (fst (fmul F32 FPU_LIB_ROUND_MM a b)), (snd (fmul F32 FPU_LIB_ROUND_MM a b)). unfold fpu_mul. rewrite bind_host.
    rewrite mul_f32_rmm by done. rewrite nan_flags_quiet, Z.lor_0_r by (by apply fmul_not_snan, F32_ok). done.
  - rewrite <- div_nearest by done. intros e He. destruct (fdiv_ok _ HF FPU_LIB_ROUND_NE a b Ha Hb) as [Hp _].
    exists (fst (fdiv (fp_format d) FPU_LIB_ROUND_NE a b)), (snd (fdiv (fp_format d) FPU_LIB_ROUND_NE a b)). unfold fpu_div. rewrite bind_host.
    pose proof (exponent_field _ _ HF Hr) as Hx. rewrite nan_flags_quiet, Z.lor_0_r by (by apply fdiv_not_snan). split; [|done].
    destruct d; [unfold riscv_rmm_div_apply_f64; change (inf_code (fp_format true)) with 0x7FF0000000000000 in Hx|
      unfold riscv_rmm_div_apply_f32; change (inf_code (fp_format false)) with 0x7F800000 in Hx]; cbv beta; by rewrite Hx.
  - intros e He. destruct (computes_sqrt _ HF FPU_LIB_ROUND_NE a Ha e He) as (r & fl & E). exists r, fl.
    replace (ieee_sqrt (fp_format d) FPU_LIB_ROUND_MM a) with (ieee_sqrt (fp_format d) FPU_LIB_ROUND_NE a); [done|].
    unfold ieee_sqrt. rewrite sqrt_nearest; [done|done|]. by destruct d; vm_compute.
Qed.

End fp_code.

(** ** The instructions *)

Definition fp_funct7 (d : bool) (op : fp_op) : Z :=
  match op with FADD => 0x00 | FSUB => 0x04 | FMUL => 0x08 | FDIV => 0x0C | FSQRT => 0x2C end + (if d then 1 else 0).

(** An operand: a single is boxed in ones, or it is the canonical NaN. *)
Definition fp_operand (d : bool) (vm : hart) (r : Z) : Z :=
  let v := vm.(fpu_registers) r in if d then v else if v / 2 ^ 32 =? 0xFFFFFFFF then v mod 2 ^ 32 else canonical_nan F32.

(** What an instruction does: the boxed result with NaNs replaced, the flags, and the state of
    the unit. *)
Definition fp_retire (d : bool) (vm : hart) (rd : Z) (res : Z * Z) : hart :=
  let v := fp_canon (fp_format d) (fst res) in
  riscv_fpu_set_dirty (set_fpu_reg rd (if d then v else 0xFFFFFFFF * 2 ^ 32 + v) (set_fenv_exceptions (vm.(fenv_exceptions) .| snd res) vm)).

(** The mode of the host is the one of [frm], or to nearest even for the mode it does not have. *)
Definition fp_in_sync (vm : hart) : Prop := 0 <= fcsr_frm vm <= 4 /\ vm.(fenv_rounding) = mode_of (fcsr_frm vm).

Definition fp_rm_ok (rm : Z) : bool := bool_decide (rm ∈ [0; 1; 2; 3; 4; 7]).

Lemma operand_s vm r : hart_wf vm -> riscv_read_s vm r = fp_operand false vm r.
Proof.
  intros Hw. pose proof (wf_fpu_registers vm Hw r) as [Hl Hu]. unfold riscv_read_s, fp_operand, fpu_nan_unbox_f32. cbv zeta.
  change (canonical_nan F32) with FPU_LIB_FP32_CANONICAL_NAN. destruct (Z.leb_spec 0xFFFFFFFF00000000 (fpu_registers vm r)); case_bool; try done; exfalso; dlia.
Qed.

Lemma compute_decode vm insn rmm d op : urange 32 insn -> hart_wf vm -> f_funct7 insn = fp_funct7 d op -> (op = FSQRT -> f_rs2 insn = 0) -> fp_rm_ok (f_funct3 insn) ->
  f_opc_compute vm insn rmm =
  Some ((if d then fwrite_d else fwrite_s) vm (f_rd insn) (fp_code d op rmm (fp_operand d vm (f_rs1 insn)) (fp_operand d vm (f_rs2 insn)))).
Proof.
  intros Hi Hw H7 Hs Hrm. unfold f_opc_compute. cbv zeta. rewrite !operand_s, op_key_insn, H7, f_rd_eq, f_rs1_eq, f_rs2_eq by done.
  apply bool_decide_unpack in Hrm. assert (Hrs2 : op = FSQRT -> (f_rs2 insn =? 0) = true) by (intros E; by rewrite Hs).
  repeat (apply elem_of_cons in Hrm as [->|Hrm]); [..|by apply not_elem_of_nil in Hrm].
  all: destruct op; try rewrite Hrs2 by done; destruct d; reflexivity.
Qed.

Lemma fenv_eta vm e : set_fenv_rounding vm.(fenv_rounding) (set_fenv_exceptions e vm) = set_fenv_exceptions e vm.
Proof. by destruct vm. Qed.
Lemma fenv_overwrite vm e e' : set_fenv_exceptions e' (set_fenv_exceptions e vm) = set_fenv_exceptions e' vm.
Proof. by destruct vm. Qed.

Lemma is_nan_run F r vm : run_fpu (fpu_is_nan F r) vm = (is_nan F r, set_fenv_exceptions (vm.(fenv_exceptions) .| nan_flags F r r) vm).
Proof.
  unfold run_fpu, fpu_is_nan, host_op. cbn [fe_exc fe_rm]. rewrite fenv_eta. f_equal. unfold feq. rewrite orb_diag, Z.eqb_refl, andb_true_r. apply negb_involutive.
Qed.

Lemma nanbox_add v : urange 32 v -> fpu_nanbox_f32 v = 0xFFFFFFFF * 2 ^ 32 + v.
Proof.
  intros Hv. unfold fpu_nanbox_f32. change 0xFFFFFFFF00000000 with (0xFFFFFFFF .<< 32). rewrite lor_shiftl_add by done. lia.
Qed.

Lemma fwrite_computes d c vm rd spec : hart_wf vm -> computes (fp_format d) c vm.(fenv_rounding) spec -> 
  (if d then fwrite_d else fwrite_s) vm rd c = fp_retire d vm rd spec.
Proof.
  intros Hw Hc. destruct (Hc vm.(fenv_exceptions)) as (r & fl & Er & Hp & Hcan & Hfl); [apply Hw|].
  assert (Hrun : run_fpu c vm = (r, set_fenv_exceptions (vm.(fenv_exceptions) .| fl) vm)).
  { unfold run_fpu. rewrite Er. cbn [fe_exc fe_rm]. by rewrite fenv_eta. }
  unfold fp_retire. cbv zeta. rewrite <- Hcan, <- Hfl, Z.lor_assoc. unfold fwrite_d, fwrite_s. destruct d; rewrite Hrun.
  - unfold riscv_write_d, fpu_is_nan64. rewrite (is_nan_run F64). rewrite fenv_overwrite. by destruct vm.
  - unfold riscv_write_s, fpu_is_nan32. rewrite (is_nan_run F32). rewrite fenv_overwrite. unfold riscv_emit_s.
    rewrite nanbox_add; [by destruct vm|]. case_match; [by vm_compute|done].
Qed.

Lemma impl_retire d op vm insn rmm spec : urange 32 insn -> hart_wf vm -> riscv_fpu_is_enabled vm = true ->
  f_funct7 insn = fp_funct7 d op -> (op = FSQRT -> f_rs2 insn = 0) -> fp_rm_ok (f_funct3 insn) ->
  computes (fp_format d) (fp_code d op rmm (fp_operand d vm (f_rs1 insn)) (fp_operand d vm (f_rs2 insn))) vm.(fenv_rounding) spec ->
  riscv_emulate_f_opc_op_impl vm insn rmm = fp_retire d vm (f_rd insn) spec.
Proof.
  intros Hi Hw Hen H7 Hs Hrm Hc. unfold riscv_emulate_f_opc_op_impl. rewrite Hen, (compute_decode vm insn rmm d op) by done.
  rewrite <- (fwrite_computes d _ vm _ _ Hw Hc). generalize (f_opc_convert vm insn) (f_opc_sign_compare vm insn) (f_opc_bitcast vm insn). by intros [] [] [].
Qed.

(** Setting the mode for an instruction, and the mode of the hart afterwards. *)
Lemma set_mode_run m vm : snd (run_fpu (set_rounding_mode m) vm) = set_fenv_rounding (host_mode m vm.(fenv_rounding)) vm.
Proof. by destruct vm. Qed.
Lemma set_rounding_wf m vm : hart_wf vm -> hart_wf (set_fenv_rounding m vm).
Proof. intros Hw. destruct Hw. by constructor. Qed.

Lemma retire_restore d vm m rd spec : set_fenv_rounding vm.(fenv_rounding) (fp_retire d (set_fenv_rounding m vm) rd spec) = fp_retire d vm rd spec.
Proof.
  destruct vm. unfold fp_retire, riscv_fpu_set_dirty, status. cbv zeta.
  repeat match goal with |- context [State.csr ?h] => progress change (State.csr h) with csr end.
  destruct (negb _); reflexivity.
Qed.

Lemma retire_rounding d vm rd spec : (fp_retire d vm rd spec).(fenv_rounding) = vm.(fenv_rounding).
Proof. unfold fp_retire, riscv_fpu_set_dirty. cbv zeta. by destruct (negb _). Qed.

Lemma host_mode_small m old : 0 <= m <= 3 -> host_mode m old = m.
Proof. intros. unfold host_mode, FPU_LIB_ROUND_MM. repeat case_bool; lia. Qed.

Lemma operand_pat d vm r : hart_wf vm -> pat (fp_format d) (fp_operand d vm r).
Proof.
  intros Hw. destruct d; [apply (wf_fpu_registers vm Hw)|]. rewrite <- operand_s by done. apply unbox_pat, (wf_fpu_registers vm Hw).
Qed.

(** C4: An arithmetic instruction of the F and D extensions (FADD, FSUB, FMUL, FDIV, FSQRT)
    with a valid rounding mode writes the correctly rounded result of its operands in the
    effective rounding mode, boxed and with every NaN replaced by the canonical one, adds
    exactly the flags of that rounding to the accrued flags, marks the unit dirty and changes
    nothing else; in particular the host is back in the mode of [frm].  For rounding to
    nearest with ties away from zero, which the host does not have, this covers square roots,
    products of singles, and quotients that are not subnormal. *)
Theorem fp_arith_refines d op vm insn :
  urange 32 insn -> hart_wf vm -> riscv_fpu_is_enabled vm = true -> fp_in_sync vm ->
  f_funct7 insn = fp_funct7 d op -> (op = FSQRT -> f_rs2 insn = 0) -> fp_rm_ok (f_funct3 insn) ->
  let a := fp_operand d vm (f_rs1 insn) in
  let b := fp_operand d vm (f_rs2 insn) in
  let mode := if f_funct3 insn =? 7 then fcsr_frm vm else f_funct3 insn in
  (mode = FPU_LIB_ROUND_MM -> rmm_covered d op a b) ->
  emulate_f_opc_op vm insn = fp_retire d vm (f_rd insn) (fp_ieee (fp_format d) op mode a b).
Proof.
  intros Hi Hw Hen [Hfrm Hsync] H7 Hs Hrm a b mode Hcov. unfold emulate_f_opc_op. rewrite f_funct3_eq. cbv zeta. fold mode.
  pose proof (operand_pat d vm (f_rs1 insn) Hw) as Ha. pose proof (operand_pat d vm (f_rs2 insn) Hw) as Hb. fold a in Ha. fold b in Hb.
  assert (Hmode : 0 <= mode <= 4).
  { unfold mode. apply bool_decide_unpack in Hrm. destruct (Z.eqb_spec (f_funct3 insn) 7); [done|].
    repeat (apply elem_of_cons in Hrm as [Hrm|Hrm]; [lia|]). by apply not_elem_of_nil in Hrm. }
  destruct ((mode =? 4) || _) eqn:E.
  - match goal with |- context [run_fpu (set_rounding_mode ?m) vm] => pose proof (set_mode_run m vm) as E1; destruct (run_fpu (set_rounding_mode m) vm) as [u vm1] end.
    cbn [snd] in E1. subst vm1. set (m := if mode =? 4 then FPU_LIB_ROUND_NE else mode).
    assert (Hm : 0 <= m <= 3) by (unfold m, FPU_LIB_ROUND_NE; case_bool; lia). rewrite (host_mode_small m) by done.
    rewrite (impl_retire d op _ _ _ (fp_ieee (fp_format d) op mode a b)); try done; [|by apply set_rounding_wf|].
    + rewrite set_mode_run, retire_rounding. rewrite (host_mode_small vm.(fenv_rounding)); [apply retire_restore|].
      rewrite Hsync. unfold mode_of, FPU_LIB_ROUND_MM, FPU_LIB_ROUND_NE. case_bool; lia.
    + change (fp_operand d (set_fenv_rounding m vm)) with (fp_operand d vm). change (fenv_rounding (set_fenv_rounding m vm)) with m. fold a b. unfold m.
      destruct (Z.eqb_spec mode 4) as [->|]; [by apply fp_code_rmm, Hcov|apply fp_code_host; [done|done|lia]].
  - apply orb_false_iff in E as [E1 E2]. apply (impl_retire d op); try done.
    assert (Em : vm.(fenv_rounding) = mode).
    { rewrite Hsync. unfold mode in *. destruct (f_funct3 insn =? 7); unfold mode_of, FPU_LIB_ROUND_MM; cbn [negb andb] in E2; case_bool; lia. }
    rewrite Em. apply fp_code_host; [done|done|lia].
Qed.

(** [1.5 + 4.5 ulp], a tie that goes away from zero: [fmul.s f3, f1, f2, rmm]. *)
Definition fp_demo : hart :=
  set_fpu_reg 1 0xFFFFFFFF3F800003 (set_fpu_reg 2 0xFFFFFFFF3FC00000 (set_status 0x2000 demo_hart)).

Lemma fp_demo_wf : hart_wf fp_demo.
Proof. apply set_fpu_reg_wf; [done|]. apply set_fpu_reg_wf; [done|]. apply set_status_wf; [done|by vm_compute|exact demo_hart_wf]. Qed.

Lemma fp_arith_refines_witness :
  (emulate_f_opc_op fp_demo 0x1020C1D3).(fpu_registers) 3 = 0xFFFFFFFF3FC00005 /\
  (emulate_f_opc_op fp_demo 0x1020C1D3).(fenv_exceptions) = FPU_LIB_FLAG_NX.
Proof.
  rewrite (fp_arith_refines false FMUL fp_demo 0x1020C1D3 ltac:(done) fp_demo_wf ltac:(vm_compute; reflexivity) ltac:(vm_compute; done)
    ltac:(vm_compute; reflexivity) ltac:(discriminate) ltac:(vm_compute; exact I) ltac:(intros _; vm_compute; reflexivity)).
  split; vm_compute; reflexivity.
Defined.

(** ** The rounding mode of the host follows [frm] *)

(** A computation that leaves the mode as it was. *)
Definition keeps {A} (c : fpu A) : Prop := forall fe, 0 <= fe.(fe_rm) <= 3 -> (snd (c fe)).(fe_rm) = fe.(fe_rm).

Lemma keeps_ret {A} (x : A) : keeps (fret x). Proof. done. Qed.
Lemma keeps_bind {A B} (c : fpu A) (k : A -> fpu B) : keeps c -> (forall x, keeps (k x)) -> keeps (fbind c k).
Proof. intros Hc Hk fe Hm. unfold fbind. specialize (Hc fe Hm). destruct (c fe) as [x fe']. simpl in Hc. rewrite <- Hc. apply Hk. lia. Qed.
Lemma keeps_host {A} (op : Z -> A * Z) : keeps (host_op op).
Proof. intros fe Hm. unfold host_op. by destruct (op _). Qed.
Lemma keeps_in_mode {A} m (c : fpu A) : keeps (in_mode m c).
Proof.
  intros fe Hm. unfold in_mode, fbind, get_rounding_mode, set_rounding_mode. destruct (c _) as [r fe']. cbn [snd fe_rm fret]. by apply host_mode_small.
Qed.
Create HintDb keeps.
#[export] Hint Resolve keeps_ret keeps_host keeps_in_mode : keeps.
Ltac keeps_step :=
  lazymatch goal with
  | |- keeps (fbind _ _) => apply keeps_bind; [|intros]
  | |- keeps (if ?b then _ else _) => destruct b
  | |- keeps (host_op _) => apply keeps_host
  | |- keeps (fret _) => apply keeps_ret
  | |- keeps (let '(_, _) := ?p in _) => destruct p
  | |- keeps get_exceptions => done
  | |- keeps (set_exceptions _) => done
  | |- keeps (raise_exceptions _) => done
  | |- keeps fpu_raise_invalid => done
  | |- keeps fpu_raise_inexact => done
  | |- keeps get_rounding_mode => done
  | |- keeps _ => progress eauto with keeps nocore
  end.

Lemma keeps_fcvt_to F fits ty low high f : keeps (fpu_fcvt_to F fits ty low high f).
Proof. unfold fpu_fcvt_to, fpu_to_int. repeat keeps_step. Qed.
Lemma keeps_fcvt_to_checked F fits ty low high f : keeps (fpu_fcvt_to_checked F fits ty low high f).
Proof. unfold fpu_fcvt_to_checked, fpu_to_int, fpu_of_int. repeat keeps_step. Qed.
Lemma keeps_round_internal F f mode : keeps (fpu_round_internal F f mode).
Proof. unfold fpu_round_internal, fpu_add, fpu_sub. repeat keeps_step. Qed.
#[export] Hint Resolve keeps_fcvt_to keeps_fcvt_to_checked keeps_round_internal : keeps.
Lemma keeps_round_to F to back f mode : (forall x, keeps (to x)) -> (forall x, keeps (back x)) -> keeps (fpu_round_to F to back f mode).
Proof. intros. unfold fpu_round_to. repeat keeps_step; auto. Qed.
Lemma keeps_min F a b : keeps (fpu_min F a b).
Proof. unfold fpu_min, fpu_is_flt_quiet, fpu_is_nan. repeat keeps_step. Qed.
Lemma keeps_max F a b : keeps (fpu_max F a b).
Proof. unfold fpu_max, fpu_is_flt_quiet, fpu_is_nan. repeat keeps_step. Qed.
Lemma keeps_sqrt F a : keeps (fpu_sqrt F a).
Proof. unfold fpu_sqrt. repeat keeps_step. Qed.
Lemma keeps_round_i64 i rm : keeps (fpu_round_i64_to_f64 i rm).
Proof. unfold fpu_round_i64_to_f64. repeat keeps_step. Qed.
Lemma keeps_add_error F s a b : keeps (fpu_add_error F s a b).
Proof. unfold fpu_add_error, fpu_sub, fpu_add. repeat keeps_step. Qed.
Lemma keeps_mul_error F m s a b : keeps (fpu_mul_error F m s a b).
Proof. unfold fpu_mul_error, fpu_sub, fpu_add, fpu_mul. repeat keeps_step. Qed.
Lemma keeps_fma_flags i e : keeps (fma_flags i e).
Proof. unfold fma_flags. repeat keeps_step. Qed.
#[export] Hint Resolve keeps_round_to keeps_min keeps_max keeps_sqrt keeps_round_i64 keeps_add_error keeps_mul_error keeps_fma_flags : keeps.

Lemma keeps_fma32 a b c : keeps (fpu_fma32 a b c).
Proof. unfold fpu_fma32, fpu_fcvt_f32_to_f64, fpu_fcvt_f64_to_f32, fpu_mul64, fpu_add64, fpu_mul, fpu_add, fpu_add_error64. repeat keeps_step. Qed.
Lemma keeps_fma64 a b c : keeps (fpu_fma64 a b c).
Proof. unfold fpu_fma64, fpu_mul64, fpu_add64, fpu_mul, fpu_add, fpu_mul_error64, fpu_add_error64. repeat keeps_step. Qed.
Lemma keeps_rmm_apply F n e : keeps (riscv_rmm_apply F n e).
Proof. unfold riscv_rmm_apply, fpu_sub, fpu_add. repeat keeps_step. Qed.
#[export] Hint Resolve keeps_fma32 keeps_fma64 keeps_rmm_apply : keeps.

Lemma keeps_isolated F n c : keeps c -> keeps (rmm_isolated F n c).
Proof. intros. unfold rmm_isolated. repeat keeps_step; done. Qed.

Ltac keeps_all := repeat keeps_step; repeat (apply keeps_isolated); unfold fpu_fcvt_f32_to_f64, fpu_fcvt_f64_to_f32, fpu_mul64, fpu_add64, fpu_sub64, fpu_sub32, fpu_mul, fpu_add, fpu_sub, fpu_div, fpu_add_error64, fpu_mul_error64, riscv_rmm_apply_f64; repeat keeps_step.

Lemma keeps_rmm_add F n a b : keeps (riscv_rmm_add F n a b).
Proof. unfold riscv_rmm_add. keeps_all. Qed.
Lemma keeps_rmm_mul_f32 n a b : keeps (riscv_rmm_mul_f32 n a b).
Proof. unfold riscv_rmm_mul_f32, riscv_rmm_mul_exact_f32. keeps_all. Qed.
Lemma keeps_rmm_mul_f64 n a b : keeps (riscv_rmm_mul_f64 n a b).
Proof. unfold riscv_rmm_mul_f64, riscv_rmm_mul_small_f64. keeps_all. Qed.
Lemma keeps_rmm_div_f32 n a b : keeps (riscv_rmm_div_apply_f32 n a b).
Proof. unfold riscv_rmm_div_apply_f32. keeps_all. Qed.
Lemma keeps_rmm_div_f64 n a b : keeps (riscv_rmm_div_apply_f64 n a b).
Proof. unfold riscv_rmm_div_apply_f64. keeps_all. Qed.
#[export] Hint Resolve keeps_rmm_add keeps_rmm_mul_f32 keeps_rmm_mul_f64 keeps_rmm_div_f32 keeps_rmm_div_f64 : keeps.

(** The underflow fixup of the fused operations changes the mode and restores it. *)
Lemma keeps_restored {A B} m (c : fpu A) (k : A -> fpu B) :
  (forall x, keeps (k x)) -> keeps (do host := get_rounding_mode in set_rounding_mode m ;; do x := c in set_rounding_mode host ;; k x).
Proof.
  intros Hk fe Hm. unfold fbind, get_rounding_mode, set_rounding_mode. destruct (c _) as [r fe']. rewrite Hk; cbn [fe_rm]; rewrite host_mode_small; done.
Qed.

Lemma keeps_fixup_uf32 r a b c e : keeps (riscv_fma_fixup_uf32 r a b c e).
Proof.
  unfold riscv_fma_fixup_uf32. repeat (lazymatch goal with |- keeps (fbind get_rounding_mode _) => fail | _ => keeps_step end);
    try (unfold fpu_fcvt_f32_to_f64; apply keeps_host).
  apply (keeps_restored _ (fpu_fcvt_f64_to_f32 _)). done.
Qed.

Lemma keeps_fixup_uf64 r a b c e : keeps (riscv_fma_fixup_uf64 r a b c e).
Proof.
  unfold riscv_fma_fixup_uf64. keeps_step; [keeps_step|]. keeps_step; [done|]. keeps_step; [keeps_step|]. cbv zeta. intros fe Hm.
  unfold fbind, get_rounding_mode, set_rounding_mode, set_exceptions. repeat (destruct (fpu_mul64 _ _ _) as [? ?]). destruct (fpu_fma64 _ _ _ _) as [? ?].
  by apply host_mode_small.
Qed.
#[export] Hint Resolve keeps_fixup_uf32 keeps_fixup_uf64 : keeps.

Lemma keeps_fma_round_f32 f m a b c : keeps (riscv_fma_round_f32 f m a b c).
Proof. unfold riscv_fma_round_f32. repeat keeps_step. Qed.
Lemma keeps_fma_round_f64 f m a b c : keeps (riscv_fma_round_f64 f m a b c).
Proof. unfold riscv_fma_round_f64. repeat keeps_step. Qed.

(** The mode of the host and [fcsr] are as they were. *)
Definition fp_same (vm vm' : hart) : Prop := vm'.(fenv_rounding) = vm.(fenv_rounding) /\ vm'.(csr).(csr_fcsr) = vm.(csr).(csr_fcsr).

Lemma run_same {A} (c : fpu A) vm : keeps c -> 0 <= vm.(fenv_rounding) <= 3 -> fp_same vm (snd (run_fpu c vm)).
Proof.
  intros Hc Hm. unfold run_fpu. specialize (Hc (mk_fenv vm.(fenv_exceptions) vm.(fenv_rounding)) Hm). destruct (c _) as [r fe]. by destruct vm.
Qed.

Lemma dirty_same vm r v : fp_same vm (riscv_fpu_set_dirty (set_fpu_reg r v vm)).
Proof. unfold riscv_fpu_set_dirty. by destruct (negb _). Qed.
Lemma same_trans vm1 vm2 vm3 : fp_same vm1 vm2 -> fp_same vm2 vm3 -> fp_same vm1 vm3.
Proof. intros [E1 E2] [E3 E4]. split; congruence. Qed.
Lemma helper_same vm p : fp_same vm (riscv_trap_priv_helper vm p).
Proof. unfold riscv_trap_priv_helper. cbv zeta. by repeat case_match. Qed.
Lemma switch_same vm p : fp_same vm (riscv_switch_priv vm p).
Proof. unfold riscv_switch_priv, riscv_update_xlen. cbv zeta. by repeat case_match. Qed.
Lemma illegal_same vm insn : fp_same vm (riscv_illegal_insn vm insn).
Proof.
  unfold riscv_illegal_insn, riscv_trap. destruct (trap vm); [done|]. destruct (userland vm); [done|]. cbv zeta.
  generalize (deleg_loop 3 vm RISCV_TRAP_ILL_INSN RISCV_PRIV_MACHINE). intros priv.
  set (vm1 := set_tval_at _ _ _). apply (same_trans _ vm1); [done|]. eapply same_trans; [apply (helper_same vm1 priv)|].
  eapply same_trans; [apply (switch_same _ priv)|]. done.
Qed.

Section Sync.
Context (vm : hart) (insn : Z) (Hm : 0 <= vm.(fenv_rounding) <= 3).

(** A computation, then something that keeps the mode. *)
Lemma run_then {A} (c : fpu A) (f : A -> hart -> hart) : keeps c -> (forall r vm', 0 <= vm'.(fenv_rounding) <= 3 -> fp_same vm' (f r vm')) ->
  fp_same vm (let '(r, vm') := run_fpu c vm in f r vm').
Proof using Hm.
  intros Hc Hf. pose proof (run_same c vm Hc Hm) as Hs. destruct (run_fpu c vm) as [r vm']. cbn [snd] in Hs. eapply same_trans; [exact Hs|].
  apply Hf. destruct Hs as [-> _]. done.
Qed.

Lemma emit_s_same r v vm' : fp_same vm' (riscv_emit_s vm' r v).
Proof. apply dirty_same. Qed.
Lemma emit_d_same r v vm' : fp_same vm' (riscv_emit_d vm' r v).
Proof. apply dirty_same. Qed.
Lemma write_x_same r v vm' : fp_same vm' (riscv_write_reg RV64 vm' r v).
Proof. done. Qed.

End Sync.

Lemma write_s_same r v vm : 0 <= vm.(fenv_rounding) <= 3 -> fp_same vm (riscv_write_s vm r v).
Proof. intros Hm. apply (run_then vm Hm (fpu_is_nan32 v) (fun nan vm' => riscv_emit_s vm' r (if nan : bool then _ else v))); [apply keeps_host|]. intros. apply emit_s_same. Qed.
Lemma write_d_same r v vm : 0 <= vm.(fenv_rounding) <= 3 -> fp_same vm (riscv_write_d vm r v).
Proof. intros Hm. apply (run_then vm Hm (fpu_is_nan64 v) (fun nan vm' => riscv_emit_d vm' r (if nan : bool then _ else v))); [apply keeps_host|]. intros. apply emit_d_same. Qed.

Section Fwrite.
Context (vm : hart) (r : Z) (Hm : 0 <= vm.(fenv_rounding) <= 3).

Lemma fwrite_s_same c : keeps c -> fp_same vm (fwrite_s vm r c).
Proof using Hm. intros Hc. apply (run_then vm Hm c (fun v vm' => riscv_write_s vm' r v)); [done|]. intros. by apply write_s_same. Qed.
Lemma fwrite_d_same c : keeps c -> fp_same vm (fwrite_d vm r c).
Proof using Hm. intros Hc. apply (run_then vm Hm c (fun v vm' => riscv_write_d vm' r v)); [done|]. intros. by apply write_d_same. Qed.
Lemma femit_s_same c : keeps c -> fp_same vm (femit_s vm r c).
Proof using Hm. intros Hc. apply (run_then vm Hm c (fun v vm' => riscv_emit_s vm' r v)); [done|]. intros. apply emit_s_same. Qed.
Lemma femit_d_same c : keeps c -> fp_same vm (femit_d vm r c).
Proof using Hm. intros Hc. apply (run_then vm Hm c (fun v vm' => riscv_emit_d vm' r v)); [done|]. intros. apply emit_d_same. Qed.
Lemma fwrite_x_same ty c : keeps c -> fp_same vm (fwrite_x vm r ty c).
Proof using Hm. intros Hc. apply (run_then vm Hm c (fun v vm' => riscv_write_reg RV64 vm' r (ty v))); [done|]. intros. apply write_x_same. Qed.
Lemma fwrite_bool_same c : keeps c -> fp_same vm (fwrite_bool vm r c).
Proof using Hm. intros Hc. apply (run_then vm Hm c (fun (v : bool) vm' => riscv_write_reg RV64 vm' r (if v then 1 else 0))); [done|]. intros. apply write_x_same. Qed.
End Fwrite.

Lemma emulate_fma_same np nc vm insn : 0 <= vm.(fenv_rounding) <= 3 -> fp_same vm (emulate_fma np nc vm insn).
Proof.
  intros Hm. unfold emulate_fma. destruct (_ && _); [|apply illegal_same]. cbv zeta.
  destruct (_ =? 0x0); [|destruct (_ =? 0x1); [|apply illegal_same]].
  - apply (run_then vm Hm _ (fun r vm' => riscv_write_s vm' _ r)); [apply keeps_fma_round_f32|]. intros. by apply write_s_same.
  - apply (run_then vm Hm _ (fun r vm' => riscv_write_d vm' _ r)); [apply keeps_fma_round_f64|]. intros. by apply write_d_same.
Qed.

Ltac fwrite_same :=
  lazymatch goal with
  | |- fp_same _ (fwrite_s _ _ _) => apply fwrite_s_same
  | |- fp_same _ (fwrite_d _ _ _) => apply fwrite_d_same
  | |- fp_same _ (femit_s _ _ _) => apply femit_s_same
  | |- fp_same _ (femit_d _ _ _) => apply femit_d_same
  | |- fp_same _ (riscv_emit_s _ _ _) => apply emit_s_same
  | |- fp_same _ (riscv_emit_d _ _ _) => apply emit_d_same
  | |- fp_same _ (fwrite_x _ _ _ _) => apply fwrite_x_same
  | |- fp_same _ (fwrite_bool _ _ _) => apply fwrite_bool_same
  | |- fp_same _ (riscv_write_reg _ _ _ _) => apply write_x_same
  | |- fp_same _ (riscv_illegal_insn _ _) => eapply same_trans; [|apply illegal_same]
  end.

Lemma keeps_fixed (rmm : bool) c (f : Z -> fpu Z) : keeps c -> (forall n, keeps (f n)) -> keeps (do n := c in if rmm then f n else fret n).
Proof. intros. apply keeps_bind; [done|]. intros. destruct rmm; [done|apply keeps_ret]. Qed.

Ltac keeps_leaf :=
  lazymatch goal with
  | |- keeps (fbind _ (fun n => if _ then _ else _)) => apply keeps_fixed; [|intros n]; keeps_leaf
  | |- keeps (fbind _ _) => apply keeps_bind; [|intros]; keeps_leaf
  | |- keeps (fpu_round_to _ _ _ _ _) => apply keeps_round_to; intros; keeps_leaf
  | |- keeps (fpu_fcvt_to _ _ _ _ _ _) => apply keeps_fcvt_to
  | |- keeps (fpu_fcvt_to_checked _ _ _ _ _ _) => apply keeps_fcvt_to_checked
  | |- keeps (host_op _) => apply keeps_host
  | |- keeps (fpu_min _ _ _) => apply keeps_min
  | |- keeps (fpu_max _ _ _) => apply keeps_max
  | |- keeps (fpu_sqrt _ _) => apply keeps_sqrt
  | |- keeps (fpu_round_i64_to_f64 _ _) => apply keeps_round_i64
  | |- keeps (riscv_rmm_add _ _ _ _) => apply keeps_rmm_add
  | |- keeps (riscv_rmm_mul_f32 _ _ _) => apply keeps_rmm_mul_f32
  | |- keeps (riscv_rmm_mul_f64 _ _ _) => apply keeps_rmm_mul_f64
  | |- keeps (riscv_rmm_div_apply_f32 _ _ _) => apply keeps_rmm_div_f32
  | |- keeps (riscv_rmm_div_apply_f64 _ _ _) => apply keeps_rmm_div_f64
  | |- keeps (?f _ _ _ _ _) => unfold f; keeps_leaf
  | |- keeps (?f _ _ _ _) => unfold f; keeps_leaf
  | |- keeps (?f _ _ _) => unfold f; keeps_leaf
  | |- keeps (?f _ _) => unfold f; keeps_leaf
  | |- keeps (?f _) => unfold f; keeps_leaf
  end.

Section OpSame.
Context (vm : hart) (insn : Z) (Hm : 0 <= vm.(fenv_rounding) <= 3).

Ltac case_same H := switch_cases H; fwrite_same; try exact Hm; try keeps_leaf.

Lemma compute_same rmm vm' : f_opc_compute vm insn rmm = Some vm' -> fp_same vm vm'.
Proof using Hm. unfold f_opc_compute; cbv zeta; intros H. case_same H. Qed.
Lemma convert_same vm' : f_opc_convert vm insn = Some vm' -> fp_same vm vm'.
Proof using Hm. unfold f_opc_convert; cbv zeta; intros H. case_same H. fwrite_same; [exact Hm|keeps_leaf]. Qed.
Lemma sign_compare_same vm' : f_opc_sign_compare vm insn = Some vm' -> fp_same vm vm'.
Proof using Hm. unfold f_opc_sign_compare; cbv zeta; intros H. case_same H. Qed.
Lemma bitcast_same vm' : f_opc_bitcast vm insn = Some vm' -> fp_same vm vm'.
Proof using Hm. unfold f_opc_bitcast; cbv zeta; intros H. case_same H. Qed.

Lemma op_impl_same rmm : fp_same vm (riscv_emulate_f_opc_op_impl vm insn rmm).
Proof using Hm.
  unfold riscv_emulate_f_opc_op_impl. destruct (riscv_fpu_is_enabled vm); [|apply illegal_same].
  destruct (_ ∪ _) as [vm'|] eqn:E; [|apply illegal_same].
  rewrite !union_Some in E. destruct E as [[[E|[_ E]]|[_ E]]|[_ E]];
    [by eapply compute_same|by apply convert_same|by apply sign_compare_same|by apply bitcast_same].
Qed.
End OpSame.

Lemma mode_range m old : 0 <= m -> 0 <= old <= 3 -> 0 <= host_mode m old <= 3.
Proof. intros. unfold host_mode, FPU_LIB_ROUND_MM, FPU_LIB_ROUND_NE. repeat case_bool; lia. Qed.

Lemma f_opc_op_same vm insn : hart_wf vm -> 0 <= vm.(fenv_rounding) <= 3 -> fp_same vm (emulate_f_opc_op vm insn).
Proof.
  intros Hw Hm. unfold emulate_f_opc_op. cbv zeta. set (eff := if _ =? 7 then _ else _). destruct (_ || _); [|by apply op_impl_same].
  assert (Heff : 0 <= eff).
  { unfold eff. case_bool; [apply Z.shiftr_nonneg, (wf_fcsr _ (wf_csr vm Hw))|apply bit_ext_u32_range; lia]. }
  match goal with |- context [run_fpu (set_rounding_mode ?m) vm] => pose proof (set_mode_run m vm) as E1; destruct (run_fpu (set_rounding_mode m) vm) as [u vm1] end.
  cbn [snd] in E1. rewrite set_mode_run, host_mode_small by done.
  assert (Hm1 : 0 <= vm1.(fenv_rounding) <= 3) by (subst vm1; apply mode_range; [destruct (eff =? 4); done|done]).
  destruct (op_impl_same vm1 insn Hm1 (eff =? 4)) as [_ E2]. split; [done|]. etrans; [exact E2|]. by subst vm1.
Qed.

(** *** The control registers *)

Lemma sync_range vm : fp_in_sync vm -> urange 8 vm.(csr).(csr_fcsr) /\ 0 <= vm.(fenv_rounding) <= 3.
Proof.
  intros [Hf Hr]. rewrite Hr. unfold fcsr_frm in Hf. rewrite Z.shiftr_div_pow2 in Hf by lia. split; [unfold urange; dlia|].
  unfold mode_of, fcsr_frm, FPU_LIB_ROUND_MM, FPU_LIB_ROUND_NE. rewrite Z.shiftr_div_pow2 by lia. case_bool; lia.
Qed.

Lemma set_fcsr_sync vm v : fp_in_sync vm -> urange 8 v -> fp_in_sync (riscv_set_fcsr vm v).
Proof.
  intros Hs Hv. destruct (sync_range vm Hs) as [Hc Hm]. destruct Hs as [Hf Hr]. unfold riscv_set_fcsr, riscv_update_fcsr. rewrite (wrap_small 32) by (by apply (urange_mono 8)).
  assert (Hcut : forall x, urange 8 x -> bit_cut x 5 3 = x .>> 5).
  { intros x Hx. rewrite bit_cut_eq by lia. apply wrap_small. rewrite Z.shiftr_div_pow2 by lia. unfold urange in *. dlia. }
  rewrite !Hcut by done. fold (fcsr_frm vm). destruct (v =? _); [done|]. cbn [negb]. destruct (Z.eqb_spec (v .>> 5) (fcsr_frm vm)) as [E|E]; cbn [negb andb].
  - assert (forall vm', vm'.(fenv_rounding) = vm.(fenv_rounding) -> fp_in_sync (upd_csr (set_csr_fcsr v) vm')).
    { intros vm' E'. unfold fp_in_sync, fcsr_frm. cbn. by rewrite E, E'. }
    repeat destruct (nz _); apply H; done.
  - destruct (Z.ltb_spec RM_RMM (v .>> 5)) as [L|L]; [done|]. change RM_RMM with 4 in L.
    assert (0 <= v .>> 5) by (apply Z.shiftr_nonneg, Hv).
    assert (Em : host_mode (v .>> 5) vm.(fenv_rounding) = mode_of (v .>> 5)) by (unfold host_mode, mode_of, FPU_LIB_ROUND_MM; destruct (Z.leb_spec (v .>> 5) 4); [done|lia]).
    repeat destruct (nz _); (split; [cbn; unfold fcsr_frm; cbn; lia|exact Em]).
Qed.

(** A write through a mask of eight bits. *)
Lemma masked_range vm c dest mask op : urange 8 c -> urange 8 mask -> urange 8 (fst (riscv_csr_helper_masked vm c dest mask op)).
Proof.
  intros Hc Hk. unfold riscv_csr_helper_masked. cbv zeta. cbn [fst]. set (k := if negb _ then _ else _).
  assert (Hk' : urange 8 k) by (unfold k; destruct (negb _); [by apply urange_land_l|done]). assert (urange 8 (dest .& k)) by (by apply urange_land_r).
  destruct (op =? CSR_SWAP); [apply urange_lor; [done|by apply urange_land_l|done]|].
  destruct (op =? CSR_SETBITS); [by apply urange_lor|]. destruct (op =? CSR_CLEARBITS); [by apply urange_land_l|done].
Qed.

Lemma update_fflags_sync vm : hart_wf vm -> fp_in_sync vm -> fp_in_sync (riscv_update_fflags vm).
Proof.
  intros Hw [Hf Hr]. assert (E : fcsr_frm (riscv_update_fflags vm) = fcsr_frm vm); [|unfold fp_in_sync; rewrite E; done].
  unfold fcsr_frm, riscv_update_fflags. cbn. rewrite Z.shiftr_lor. replace (fpu_get_exceptions vm .>> 5) with 0; [apply Z.lor_0_r|].
  pose proof (wf_fenv vm Hw) as He. rewrite Z.shiftr_div_pow2 by lia. symmetry. by apply Z.div_small.
Qed.

(** C26: The rounding mode of the host and the field [frm] agree (the mode that the host lacks
    stands for rounding to nearest even) after every instruction that can change one of them:
    whatever is written to [fflags], [frm] or [fcsr] by any of the operations on control
    registers, and every floating-point instruction, the illegal ones included, which return
    from the mode they compute in. *)
Theorem fp_env_in_sync vm insn dest op : hart_wf vm -> fp_in_sync vm ->
  Forall fp_in_sync
    [fst (fst (riscv_csr_fflags vm dest op)); fst (fst (riscv_csr_frm vm dest op)); fst (fst (riscv_csr_fcsr vm dest op));
     emulate_f_opc_op vm insn; emulate_fmadd vm insn; emulate_fmsub vm insn; emulate_fnmsub vm insn; emulate_fnmadd vm insn].
Proof.
  intros Hw Hs. destruct (sync_range vm Hs) as [Hc Hm].
  assert (Hsame : forall vm', fp_same vm vm' -> fp_in_sync vm').
  { intros vm' [E1 E2]. destruct Hs as [Hf Hr]. unfold fp_in_sync, fcsr_frm in *. by rewrite E1, E2. }
  assert (Hmask : forall vm' mask, fp_in_sync vm' -> urange 8 mask -> let '(fcsr, d) := riscv_csr_helper_masked vm' vm'.(csr).(csr_fcsr) dest mask op in fp_in_sync (riscv_set_fcsr vm' fcsr)).
  { intros vm' mask Hs' Hk. pose proof (masked_range vm' vm'.(csr).(csr_fcsr) dest mask op (proj1 (sync_range vm' Hs')) Hk) as Hr.
    destruct (riscv_csr_helper_masked _ _ _ _ _) as [fcsr d']. by apply set_fcsr_sync. }
  pose proof (update_fflags_sync vm Hw Hs) as Hu.
  repeat apply Forall_cons_2; [..|by apply Forall_nil_2].
  - unfold riscv_csr_fflags. destruct (riscv_fpu_is_enabled vm); [|done]. specialize (Hmask _ CSR_FFLAGS_MASK Hu ltac:(done)). cbv zeta. by destruct (riscv_csr_helper_masked _ _ _ _ _).
  - unfold riscv_csr_frm. destruct (riscv_fpu_is_enabled vm); [|done]. cbv zeta. destruct (riscv_csr_helper_masked _ _ _ _ _) as [f d']. cbn [fst].
    apply set_fcsr_sync; [done|]. unfold bit_replace. apply (urange_bits 8); [lia|apply urange_bit_replace64, (urange_mono 8); done|].
    intros i Hi. rewrite testbit_bit_replace64 by (lia || by apply (urange_mono 8)). destruct (Z.ltb_spec i (5 + 3)); [lia|]. rewrite andb_false_r. by apply (testbit_above 8).
  - unfold riscv_csr_fcsr. destruct (riscv_fpu_is_enabled vm); [|done]. specialize (Hmask _ CSR_FCSR_MASK Hu ltac:(done)). cbv zeta. by destruct (riscv_csr_helper_masked _ _ _ _ _).
  - apply Hsame. by apply f_opc_op_same.
  - apply Hsame. by apply emulate_fma_same.
  - apply Hsame. by apply emulate_fma_same.
  - apply Hsame. by apply emulate_fma_same.
  - apply Hsame. by apply emulate_fma_same.
Qed.

Lemma fp_env_in_sync_witness :
  fp_in_sync (fst (fst (riscv_csr_fcsr fp_demo 0x63 CSR_SWAP))) /\ (fst (fst (riscv_csr_fcsr fp_demo 0x63 CSR_SWAP))).(fenv_rounding) = FPU_LIB_ROUND_UP.
Proof.
  split; [|vm_compute; reflexivity].
  exact (Forall_lookup_1 _ _ 2 _ (fp_env_in_sync fp_demo 0x1020C1D3 0x63 CSR_SWAP fp_demo_wf ltac:(vm_compute; done)) eq_refl).
Defined.

(** ** Deviations *)

Definition fval {A} (c : fpu A) (mode : Z) : A := fst (c (mk_fenv 0 mode)).
Definition fflags {A} (c : fpu A) (exc mode : Z) : Z := (snd (c (mk_fenv exc mode))).(fe_exc).

(** Where the code departs from the architecture.  Fused multiply-add rounds wrongly: with
    the mode RDN [1 * 1 + 1] is below 2 as a single and a NaN as a double, since an error of -0
    counts as an error, and near -1 the result moves away from zero since the sign of the
    value is ignored.  Conversions to integers with RNE round 2.5 to 3 and the number below
    1/2 to 1, and with RDN -8388607.5 to -8388609; an accrued invalid flag hides the inexact
    flag; the lowest integer counts as out of range.  FROUND saturates at 2^63 and loses the
    sign of -0.  FMINM returns the number instead of the NaN.  FCVTMOD.W.D writes its result
    and traps.  With RMM a conversion of an integer to a single breaks a tie to even. *)
Lemma fpu_deviations :
  fval (fpu_fma32 0x3F800000 0x3F800000 0x3F800000) FPU_LIB_ROUND_DN = 0x3FFFFFFF /\
  fst (ffma F32 FPU_LIB_ROUND_DN 0x3F800000 0x3F800000 0x3F800000) = 0x40000000 /\
  fval (fpu_fma64 0x3FF0000000000000 0x3FF0000000000000 0x3FF0000000000000) FPU_LIB_ROUND_DN = 0x7FFFFFFFFFFFFFFF /\
  fst (ffma F64 FPU_LIB_ROUND_DN 0x3FF0000000000000 0x3FF0000000000000 0x3FF0000000000000) = 0x4000000000000000 /\
  fval (fpu_fma32 0xB37FFFF0 0x3F800008 0xBF800000) FPU_LIB_ROUND_NE = 0xBF800001 /\
  fst (ffma F32 FPU_LIB_ROUND_NE 0xB37FFFF0 0x3F800008 0xBF800000) = 0xBF800000 /\
  fval (fpu_round_f32_to_i32 0x40200000 FPU_LIB_ROUND_NE) FPU_LIB_ROUND_NE = 3 /\
  fval (fpu_round_f32_to_i32 0x3EFFFFFF FPU_LIB_ROUND_NE) FPU_LIB_ROUND_NE = 1 /\
  fval (fpu_round_f32_to_i32 0xCAFFFFFF FPU_LIB_ROUND_DN) FPU_LIB_ROUND_DN = - 8388609 /\
  fflags (fpu_round_f32_to_i32 0x3FC00000 FPU_LIB_ROUND_NE) FPU_LIB_FLAG_NV FPU_LIB_ROUND_NE = FPU_LIB_FLAG_NV /\
  fflags (fpu_round_f32_to_i32 0x3FC00000 FPU_LIB_ROUND_NE) 0 FPU_LIB_ROUND_NE = FPU_LIB_FLAG_NX /\
  fflags (fpu_round_f32_to_i32 0xCF000000 FPU_LIB_ROUND_TZ) 0 FPU_LIB_ROUND_NE = FPU_LIB_FLAG_NV /\
  (let run insn a := emulate_f_opc_op (set_reg 1 16777217 (set_fpu_reg 1 a (set_rv64 true (set_status 0x2000 demo_hart)))) insn in
   (run 0x42408153 0x43F0000000000000).(fpu_registers) 2 = 0x43E0000000000000 /\
   (run 0x42408153 0x8000000000000000).(fpu_registers) 2 = 0 /\
   (run 0x2A00A153 0x7FF8000000000000).(fpu_registers) 2 = 0 /\
   (run 0xC2809153 0x3FF0000000000000).(registers) 2 = 1 /\
   (run 0xC2809153 0x3FF0000000000000).(trap) = true /\
   (run 0xD000C153 0).(fpu_registers) 2 = 0xFFFFFFFF4B800000 /\
   fst (of_int F32 FPU_LIB_ROUND_MM 16777217) = 0x4B800001).
Proof. split_and!; [..|intros run; split_and!]; vm_compute; reflexivity. Qed.
