(* ===== verification/PrivProps.v ===== *)
(** * Properties of the privileged instructions

    Trap returns perform the status transition of the privileged architecture and undo the
    trap that led to the handler; SFENCE.VMA removes the translations it names; below the
    level it is reserved for, a SYSTEM instruction only traps; [cbo.zero] clears its block
    and nothing else; every instruction keeps the hart well formed. *)

From S2P Require Import Prelude BitOps MemOps State CsrDefs Tlb Hart Csr Mmu MmuProps Base IsaSpec.
From S2P Require Import Atomics Priv Compressed Interp BaseProps AtomicsProps.

(** ** Reference behaviour of trap returns *)

(** Bit [i] of [mstatus] after a return from level [level]: xIE := xPIE, xPIE := 1,
    xPP := U, nothing else; leaving M mode also clears MPRV. *)
Definition ret_status_bit (level st i : Z) : bool :=
  if level =? RISCV_PRIV_MACHINE then
    if i =? 3 then Z.testbit st 7
    else if i =? 7 then true
    else if (i =? 11) || (i =? 12) then false
    else if i =? 17 then Z.testbit st 17 && Z.testbit st 11 && Z.testbit st 12
    else Z.testbit st i
  else
    if i =? 1 then Z.testbit st 5
    else if i =? 5 then true
    else if i =? 8 then false
    else Z.testbit st i.

(** What a return from [level] to [priv] leaves. *)
Definition returned (level priv : Z) (vm vm' : hart) : Prop :=
  vm'.(priv_mode) = priv /\
  (forall r, reg vm' r = if r =? RISCV_REG_PC then vm.(csr).(csr_epc) level else reg vm r) /\
  (forall i, 0 <= i -> Z.testbit (status vm') i = ret_status_bit level (status vm) i) /\
  vm'.(csr) = set_csr_status (status vm') vm.(csr) /\ vm'.(host) = vm.(host) /\
  (forall k vpn, vm.(priv_mode) <> priv -> urange 52 vpn -> tlb_lookup vm' k vpn = None).

(** ** Trap returns *)

#[local] Arguments Z.testbit : simpl never.

Lemma testbit_bit_ext v p n i : 0 <= p -> 0 < n -> p + n <= 32 -> 0 <= i ->
  Z.testbit (bit_ext_u32 v p n) i = (i <? n) && Z.testbit v (i + p).
Proof. intros. rewrite bit_ext_u32_eq by lia. by autorewrite with zbits. Qed.

(** The status the code computes. *)
Definition sret_status (st : Z) : Z :=
  let st1 := bit_replace st 8 1 RISCV_PRIV_USER in
  let st2 := bit_replace st1 1 1 (bit_ext_u32 st1 5 1) in
  bit_replace st2 5 1 1.

Definition mret_status (st : Z) : Z :=
  let st0 := if bit_ext_u32 st 11 2 <? RISCV_PRIV_MACHINE then st .& not64 CSR_STATUS_MPRV else st in
  let st1 := bit_replace st0 11 2 RISCV_PRIV_USER in
  let st2 := bit_replace st1 3 1 (bit_ext_u32 st1 7 1) in
  bit_replace st2 7 1 1.

Ltac status_bits :=
  repeat first
    [ rewrite testbit_bit_replace by (auto with rv; lia)
    | rewrite testbit_bit_ext by lia ].

Lemma sret_status_bits st i : urange 64 st -> 0 <= i ->
  Z.testbit (sret_status st) i = ret_status_bit RISCV_PRIV_SUPERVISOR st i.
Proof.
  intros Hs Hi. unfold sret_status, ret_status_bit. eval_cmp. cbv zeta.
  split_index; status_bits; split_index; status_bits; split_index; rewrite ?Z.testbit_0_l; try done; f_equal; lia.
Qed.

Lemma mpp_machine st : (bit_ext_u32 st 11 2 <? RISCV_PRIV_MACHINE) = negb (Z.testbit st 11 && Z.testbit st 12).
Proof.
  pose proof (bit_ext_u32_range st 11 2 ltac:(lia) ltac:(lia) ltac:(lia)) as Hr.
  pose proof (testbit_bit_ext st 11 2 0 ltac:(lia) ltac:(lia) ltac:(lia) ltac:(lia)) as E0.
  pose proof (testbit_bit_ext st 11 2 1 ltac:(lia) ltac:(lia) ltac:(lia) ltac:(lia)) as E1.
  change (Z.testbit st 11) with (Z.testbit st (0 + 11)). change (Z.testbit st 12) with (Z.testbit st (1 + 11)).
  change (0 <? 2) with true in E0. change (1 <? 2) with true in E1. cbn [andb] in E0, E1. rewrite <- E0, <- E1.
  unfold urange in Hr. set (m := bit_ext_u32 st 11 2) in *.
  assert (m = 0 \/ m = 1 \/ m = 2 \/ m = 3) as [->|[->|[->| ->]]] by lia; done.
Qed.

Lemma mret_status_bits st i : urange 64 st -> 0 <= i ->
  Z.testbit (mret_status st) i = ret_status_bit RISCV_PRIV_MACHINE st i.
Proof.
  intros Hs Hi. unfold mret_status, ret_status_bit. eval_cmp. cbv zeta. rewrite mpp_machine.
  set (st0 := if negb _ then _ else st).
  assert (Hs0 : urange 64 st0) by (subst st0; case_match; [apply urange_land_l; [lia|done]|done]).
  assert (forall j, 0 <= j -> Z.testbit st0 j =
    Z.testbit st j && negb ((j =? 17) && negb (Z.testbit st 11 && Z.testbit st 12))) as E0.
  { intros j Hj. subst st0. destruct (negb (_ && _)); [|by rewrite andb_false_r, andb_true_r].
    rewrite Z.land_spec. unfold not64. rewrite testbit_wrap, Z.lnot_spec by lia.
    change CSR_STATUS_MPRV with (2 ^ 17). rewrite testbit_pow2 by lia. rewrite andb_true_r.
    destruct (Z.ltb_spec j 64); [done|]. rewrite (testbit_above 64 st j) by done. done. }
  clearbody st0.
  split_index; status_bits; split_index; status_bits; split_index; rewrite ?E0 by lia; split_index;
    rewrite ?Z.testbit_0_l, ?andb_true_r; try done;
    try (f_equal; lia). by rewrite negb_involutive, andb_assoc.
Qed.

Lemma emulate_sret_eq vm : emulate_sret vm =
  riscv_hart_check_interrupts (riscv_switch_priv (set_reg RISCV_REG_PC
    (u64 (vm.(csr).(csr_epc) RISCV_PRIV_SUPERVISOR - 4)) (set_status (sret_status (status vm)) vm))
    (bit_ext_u32 (status vm) 8 1)).
Proof. reflexivity. Qed.

Lemma emulate_mret_eq vm : emulate_mret vm =
  riscv_hart_check_interrupts (riscv_switch_priv (set_reg RISCV_REG_PC
    (u64 (vm.(csr).(csr_epc) RISCV_PRIV_MACHINE - 4)) (set_status (mret_status (status vm)) vm))
    (bit_ext_u32 (status vm) 11 2)).
Proof. unfold emulate_mret, mret_status. cbv zeta. by destruct (_ <? _). Qed.

Lemma check_interrupts_fields vm :
  let vm' := riscv_hart_check_interrupts vm in
  vm'.(priv_mode) = vm.(priv_mode) /\ vm'.(csr) = vm.(csr) /\ vm'.(registers) = vm.(registers) /\
  vm'.(host) = vm.(host) /\ vm'.(tlb) = vm.(tlb).
Proof. unfold riscv_hart_check_interrupts. by destruct (nz _). Qed.

Lemma pc_restored v : urange 64 v -> u64 (u64 (v - 4) + 4) = v.
Proof. intros Hv. rewrite wrap_add_l. replace (v - 4 + 4) with v by lia. by apply wrap_small. Qed.

(** The common part of the two returns, with the increment of the dispatch loop. *)
Lemma return_common vm level priv st : hart_wf vm ->
  (forall i, 0 <= i -> Z.testbit st i = ret_status_bit level (status vm) i) ->
  returned level priv vm (advance_pc 4 (riscv_hart_check_interrupts (riscv_switch_priv
    (set_reg RISCV_REG_PC (u64 (vm.(csr).(csr_epc) level - 4)) (set_status st vm)) priv))).
Proof.
  intros Hw Hst. set (v1 := set_reg _ _ (set_status st vm)).
  destruct (switch_priv_fields v1 priv) as (E1 & E2 & E3 & _ & _ & E4 & _).
  destruct (check_interrupts_fields (riscv_switch_priv v1 priv)) as (F1 & F2 & F3 & F4 & F5).
  unfold returned, advance_pc, status, pc, reg. cbn. rewrite F1, F2, F3, F4, E1, E2, E3, E4. cbn.
  split_and!; try done.
  - intros r. rewrite fupd_dec, Z.eqb_sym. case_bool; [|by rewrite fupd_ne].
    rewrite fupd_eq. apply pc_restored. apply (wf_epc _ (wf_csr _ Hw)).
  - intros k vpn Hp Hv. rewrite <- (switch_priv_flushes v1 priv k vpn Hv Hp).
    unfold tlb_lookup, tlb_at. cbn. by rewrite F5.
Qed.

Lemma system_dispatch `{Env} `{Fpu} x vm insn : f_opcode insn = 0x73 ->
  riscv_emulate_insn x vm insn = advance_pc 4 (riscv_emulate_opc_system vm insn).
Proof.
  intros E. assert (insn mod 4 = 3) as H3.
  { unfold f_opcode in E. change (2 ^ 7) with 128 in E. dlia. }
  destruct (opcode_bits insn H3) as [E2 E7]. unfold riscv_emulate_insn, riscv_emulate_i.
  rewrite E2, E7, E. reflexivity.
Qed.

Lemma mret_ret `{Env} `{Fpu} x vm : hart_wf vm -> vm.(priv_mode) = RISCV_PRIV_MACHINE ->
  returned RISCV_PRIV_MACHINE (bit_cut (status vm) 11 2) vm (riscv_emulate_insn x vm RISCV_INSN_MRET).
Proof.
  intros Hw Hp. rewrite system_dispatch by done. unfold riscv_emulate_opc_system. eval_cmp. cbn [andb].
  rewrite Hp. eval_cmp. rewrite emulate_mret_eq, bit_ext_u32_eq, <- bit_cut_eq by lia.
  apply return_common; [done|]. intros. apply mret_status_bits; [apply Hw|done].
Qed.

Lemma sret_ret `{Env} `{Fpu} x vm : hart_wf vm -> riscv_mstatus_allowed vm CSR_STATUS_TSR = true ->
  returned RISCV_PRIV_SUPERVISOR (bit_cut (status vm) 8 1) vm (riscv_emulate_insn x vm RISCV_INSN_SRET).
Proof.
  intros Hw Hp. rewrite system_dispatch by done. unfold riscv_emulate_opc_system. eval_cmp. cbn [andb].
  rewrite Hp, emulate_sret_eq, bit_ext_u32_eq, <- bit_cut_eq by lia.
  apply return_common; [done|]. intros. apply sret_status_bits; [apply Hw|done].
Qed.

(** ** A trap and its return *)

Definition ret_insn (level : Z) : Z := if level =? RISCV_PRIV_MACHINE then RISCV_INSN_MRET else RISCV_INSN_SRET.

(** The bits of the privilege stack that do not survive a trap and its return: xPIE and xPP,
    and MPRV for a return from M mode. *)
Definition stack_bit (level i : Z) : bool :=
  if level =? RISCV_PRIV_MACHINE then (i =? 7) || (i =? 11) || (i =? 12) || (i =? 17) else (i =? 5) || (i =? 8).

Lemma trap_ret_bits level cur st i : stack_bit level i = false ->
  level = RISCV_PRIV_MACHINE \/ level = RISCV_PRIV_SUPERVISOR ->
  forall st', (forall j, 0 <= j -> Z.testbit st' j = trap_status_bit level cur st j) -> 0 <= i ->
  ret_status_bit level st' i = Z.testbit st i.
Proof.
  intros Hb Hl st' E Hi. unfold stack_bit, ret_status_bit, trap_status_bit in *.
  destruct Hl as [->| ->]; revert Hb E; eval_cmp; intros Hb E; rewrite !E by lia; revert Hb; split_index; done.
Qed.

Lemma commit_trap_wf vm : hart_wf vm -> hart_wf (commit_trap vm).
Proof.
  intros H. unfold commit_trap. destruct (trap vm); [|done].
  assert (hart_wf (set_reg RISCV_REG_PC (trap_pc vm) vm)) as H' by (apply set_reg_wf; [apply H|done]). wf_fields.
Qed.

(** [mret] in M mode returns to the level in MPP and to [mepc], pops the machine part of
    the privilege stack in [mstatus] (and clears MPRV when it leaves M mode), and changes
    nothing else of the registers, of the CSRs and of memory; a change of level leaves no
    cached translation. *)
Theorem mret_returns `{Env} `{Fpu} x vm : hart_wf vm -> vm.(priv_mode) = RISCV_PRIV_MACHINE ->
  returned RISCV_PRIV_MACHINE (bit_cut (status vm) 11 2) vm (riscv_emulate_insn x vm RISCV_INSN_MRET).
Proof. apply mret_ret. Qed.

(** [sret], where it is allowed, returns to the level in SPP and to [sepc] and pops the
    supervisor part of the privilege stack. *)
Theorem sret_returns `{Env} `{Fpu} x vm : hart_wf vm -> riscv_mstatus_allowed vm CSR_STATUS_TSR = true ->
  returned RISCV_PRIV_SUPERVISOR (bit_cut (status vm) 8 1) vm (riscv_emulate_insn x vm RISCV_INSN_SRET).
Proof. apply sret_ret. Qed.

(** The level a trap came from is read back from the privilege stack. *)
Lemma stacked_priv vm st cause : hart_wf vm ->
  (forall j, 0 <= j -> Z.testbit st j = trap_status_bit (trap_target vm cause) vm.(priv_mode) (status vm) j) ->
  vm.(priv_mode) = if trap_target vm cause =? RISCV_PRIV_MACHINE then bit_cut st 11 2 else bit_cut st 8 1.
Proof.
  intros Hw E. pose proof (valid_priv_bits _ (wf_priv _ Hw)) as Hp.
  apply (bits_inj_lt 2); [done|case_match; apply bit_cut_range; lia|]. intros i Hi.
  destruct (trap_target_cases vm cause) as [Ht|Ht]; rewrite Ht in *; eval_cmp;
    rewrite testbit_bit_cut, E by lia; unfold trap_status_bit; eval_cmp; split_index; try done; f_equal; try lia.
  assert (i = 1) as -> by lia. unfold trap_target in Ht. revert Ht. case_match eqn:Hc; [|done]. intros _.
  apply andb_true_iff in Hc as [Hc%Z.leb_le _]. apply (testbit_above 1); [|done].
  unfold urange in *. unfold RISCV_PRIV_SUPERVISOR in Hc. lia.
Qed.

Section RoundTrip.
Context `{Env} `{Fpu} (x : xlen) (vm : hart) (cause tval : Z).
Hypotheses (Hw : hart_wf vm) (Ht : vm.(trap) = false) (Hu : vm.(userland) = false) (Hc : 0 <= cause < 32)
  (Hv : urange 64 tval) (Htsr : Z.testbit (status vm) 22 = false).

Let target := trap_target vm cause.
Let handler := commit_trap (riscv_trap vm cause tval).

Lemma handler_entry : hart_wf handler /\ handler.(priv_mode) = target /\
  handler.(csr).(csr_epc) target = pc vm /\
  (forall i, 0 <= i -> Z.testbit (status handler) i = trap_status_bit target vm.(priv_mode) (status vm) i) /\
  (forall r, r <> RISCV_REG_PC -> reg handler r = reg vm r) /\ handler.(host) = vm.(host).
Proof using Hw Ht Hu Hc Hv.
  destruct (riscv_trap_entry vm cause tval Hw Ht Hu Hc) as (E1 & E2 & _ & E4 & E5 & _ & _ & E8 & E9 & E10 & _).
  pose proof (riscv_trap_wf vm cause tval Hc Hv Hw) as Hw'. pose proof (commit_trap_wf _ Hw') as Hh.
  split; [exact Hh|]. unfold handler, commit_trap, status, reg in *. rewrite E2. cbn.
  rewrite E1, E5, E9, E10. split_and!; try done; [by rewrite fupd_eq|]. intros r Hr. by rewrite fupd_ne.
Qed.

Lemma handler_allowed : target = RISCV_PRIV_SUPERVISOR -> riscv_mstatus_allowed handler CSR_STATUS_TSR = true.
Proof using Hw Ht Hu Hc Hv Htsr.
  intros Hs. destruct handler_entry as (_ & Hp & _ & Hst & _). unfold riscv_mstatus_allowed. rewrite Hp.
  change CSR_STATUS_TSR with (1 .<< 22). rewrite nz_land_pow, Hst by lia. unfold trap_status_bit.
  rewrite Hs. eval_cmp. by rewrite Htsr.
Qed.

Lemma trap_return_lemma : let vm' := riscv_emulate_insn x handler (ret_insn target) in
  vm'.(priv_mode) = vm.(priv_mode) /\ (forall r, reg vm' r = reg vm r) /\ vm'.(host) = vm.(host) /\
  (forall i, 0 <= i -> stack_bit target i = false -> Z.testbit (status vm') i = Z.testbit (status vm) i).
Proof using Hw Ht Hu Hc Hv Htsr.
  cbv zeta. destruct handler_entry as (Hh & Hp & He & Hst & Hr & Hhost).
  pose proof (stacked_priv vm (status handler) cause Hw Hst) as Hpp. fold target in Hpp.
  pose proof (trap_target_cases vm cause) as Hcases. fold target in Hcases.
  set (vm' := riscv_emulate_insn x handler (ret_insn target)).
  assert (returned target vm.(priv_mode) handler vm') as (R1 & R2 & R3 & _ & R5 & _).
  { unfold vm', ret_insn. rewrite Hpp. destruct Hcases as [E|E]; rewrite E; eval_cmp.
    - apply mret_ret; [done|congruence].
    - apply sret_ret; [done|by apply handler_allowed]. }
  split; [done|]. split; [|split; [congruence|]].
  - intros r. rewrite R2, He. case_bool; [by subst|by apply Hr].
  - intros i Hi Hb. rewrite R3 by done. by apply (trap_ret_bits target vm.(priv_mode)).
Qed.

End RoundTrip.

(** C7: a trap and the return instruction of the level that took it are transparent: the
    interrupted context is back, with its level, program counter, registers, memory and
    status, except for the xPIE and xPP bits of the level that handled the trap (and MPRV). *)
Theorem trap_return_roundtrip `{Env} `{Fpu} x vm cause tval :
  hart_wf vm -> vm.(trap) = false -> vm.(userland) = false -> 0 <= cause < 32 -> urange 64 tval ->
  Z.testbit (status vm) 22 = false ->
  let target := trap_target vm cause in
  let vm' := riscv_emulate_insn x (commit_trap (riscv_trap vm cause tval)) (ret_insn target) in
  vm'.(priv_mode) = vm.(priv_mode) /\ (forall r, reg vm' r = reg vm r) /\ vm'.(host) = vm.(host) /\
  (forall i, 0 <= i -> stack_bit target i = false -> Z.testbit (status vm') i = Z.testbit (status vm) i).
Proof. apply trap_return_lemma. Qed.

(** ** Confinement *)

Lemma riscv_trap_traps vm cause tval : (riscv_trap vm cause tval).(trap) = true.
Proof. unfold riscv_trap. destruct (trap vm) eqn:E; [done|]. by destruct (userland vm). Qed.

(** What belongs to M mode, apart from the current level. *)
Definition machine_state (vm : hart) := machine_view (set_priv_mode 0 vm).

(** The outcome of an instruction that is confined below M mode: a trap entry with M-level
    state as before the instruction, or no change of that state and no rise of the level. *)
Definition confined (vm vm' : hart) : Prop :=
  (exists vm0 cause tval, machine_view vm0 = machine_view vm /\ vm' = riscv_trap vm0 cause tval) \/
  (vm'.(priv_mode) <= vm.(priv_mode) /\ machine_state vm' = machine_state vm).

Lemma view_confined vm vm' : machine_view vm' = machine_view vm -> confined vm vm'.
Proof.
  intros E. right. pose proof E as E'. unfold machine_state, machine_view in *. cbn. simplify_eq.
  split; [lia|]. congruence.
Qed.

Lemma trap_confined vm vm0 cause tval : machine_view vm0 = machine_view vm -> confined vm (riscv_trap vm0 cause tval).
Proof. intros E. left. by exists vm0, cause, tval. Qed.

Lemma sret_confined vm : hart_wf vm -> vm.(priv_mode) = RISCV_PRIV_SUPERVISOR -> confined vm (emulate_sret vm).
Proof.
  intros Hw Hp. right. rewrite emulate_sret_eq. set (v1 := set_reg _ _ _).
  destruct (check_interrupts_fields (riscv_switch_priv v1 (bit_ext_u32 (status vm) 8 1))) as (F1 & F2 & _).
  destruct (switch_priv_fields v1 (bit_ext_u32 (status vm) 8 1)) as (E1 & E2 & _).
  pose proof (bit_ext_u32_range (status vm) 8 1 ltac:(lia) ltac:(lia) ltac:(lia)) as Hr. unfold urange in Hr.
  split; [rewrite F1, E1, Hp; unfold RISCV_PRIV_SUPERVISOR; lia|].
  assert (forall v, (riscv_hart_check_interrupts v).(aia) = v.(aia)) as Ha1
    by (intros; unfold riscv_hart_check_interrupts; by destruct (nz _)).
  assert (forall v p, (riscv_switch_priv v p).(aia) = v.(aia)) as Ha2.
  { intros v p. unfold riscv_switch_priv, riscv_update_xlen. destruct (negb _); [|done]. cbv zeta.
    by destruct (negb (eqb _ _)). }
  unfold machine_state, machine_view. cbn. rewrite F2, E2, Ha1, Ha2. cbn. f_equal. f_equal. f_equal.
  apply Z.bits_inj'. intros i Hi. rewrite !Z.ldiff_spec, sret_status_bits by (apply Hw || done).
  unfold ret_status_bit. eval_cmp. split_index; rewrite ?andb_false_r; done.
Qed.

Section Confinement.
Context `{Env} (vm : hart) (insn : Z).
Hypotheses (Hw : hart_wf vm) (Hx : sxl_ok vm) (Hp : vm.(priv_mode) <> RISCV_PRIV_MACHINE).

Lemma emulate_csr_confined rds id val op : confined vm (emulate_csr vm insn rds id val op).
Proof using Hw Hx Hp.
  unfold emulate_csr, riscv_csr_op. destruct (_ && _); [by apply trap_confined|].
  destruct (Z.ltb_spec (priv_mode vm) (riscv_csr_privilege id)) as [Hl|Hl]; [by apply trap_confined|].
  assert (riscv_csr_privilege id <= RISCV_PRIV_SUPERVISOR) as Hs.
  { pose proof (wf_priv _ Hw) as Hv. unfold valid_priv, RISCV_PRIV_SUPERVISOR, RISCV_PRIV_USER in *. lia. }
  pose proof (csr_internal_isolated vm id val op Hw Hx Hs) as Hv.
  destruct (riscv_csr_op_internal vm id val op) as [[v d] ok]. cbn in Hv.
  destruct ok; [|by apply trap_confined]. apply view_confined. by rewrite <- Hv.
Qed.

Lemma flush_confined : confined vm (riscv_tlb_flush vm).
Proof using. by apply view_confined. Qed.

Lemma flush_page_confined a : confined vm (riscv_tlb_flush_page vm a).
Proof using.
  apply view_confined. unfold riscv_tlb_flush_page. cbv zeta.
  by match goal with |- context [if ?c then riscv_restart_dispatch _ else _] => destruct c end.
Qed.

Lemma system_funct3_confined : confined vm (emulate_system_funct3 vm insn).
Proof using Hw Hx Hp.
  pose proof emulate_csr_confined as Hc. pose proof flush_confined. pose proof flush_page_confined.
  assert (confined vm (riscv_illegal_insn vm insn)) by by apply trap_confined.
  assert (confined vm vm) by by apply view_confined.
  unfold emulate_system_funct3. cbv zeta. repeat match goal with |- confined _ (if ?c then _ else _) => destruct c end; auto.
Qed.

Lemma opc_system_confined : vm.(machine_gdbstub) = false -> insn <> RISCV_INSN_WFI ->
  confined vm (riscv_emulate_opc_system vm insn).
Proof using Hw Hx Hp.
  intros Hg Hwfi. unfold riscv_emulate_opc_system.
  destruct (_ =? RISCV_INSN_ECALL); [by apply trap_confined|].
  destruct (_ =? RISCV_INSN_EBREAK).
  { unfold riscv_breakpoint. rewrite Hg. by apply trap_confined. }
  destruct (_ && riscv_mstatus_allowed vm CSR_STATUS_TSR) eqn:Hs.
  { apply andb_true_iff in Hs as [_ Ha]. apply sret_confined; [done|]. unfold riscv_mstatus_allowed in Ha.
    apply Z.eqb_neq in Hp. rewrite Hp, orb_false_r in Ha. apply andb_true_iff in Ha as [Ha%Z.leb_le _].
    pose proof (wf_priv _ Hw) as Hv. unfold valid_priv in Hv. apply Z.eqb_neq in Hp.
    unfold RISCV_PRIV_SUPERVISOR, RISCV_PRIV_USER in *. lia. }
  apply Z.eqb_neq in Hp as Hm. rewrite Hm, andb_false_r. apply Z.eqb_neq in Hwfi. rewrite Hwfi. cbn [andb].
  destruct (_ || _); [by apply view_confined|apply system_funct3_confined].
Qed.

End Confinement.

(** C18: confinement.  Below M mode, on a hart whose SXL is legal and that has no debugger
    attached, a SYSTEM instruction (other than WFI, which waits for the host) either enters a
    trap from a state in which everything that belongs to M mode is as it was, or leaves that
    state unchanged and does not raise the privilege level (SRET may lower it): only a trap
    leaves user mode upwards. *)
Theorem system_confined `{Env} vm insn :
  hart_wf vm -> sxl_ok vm -> vm.(priv_mode) <> RISCV_PRIV_MACHINE -> vm.(machine_gdbstub) = false ->
  insn <> RISCV_INSN_WFI -> confined vm (riscv_emulate_opc_system vm insn).
Proof. intros. by apply opc_system_confined. Qed.

(** ** Translation fences *)

(** The bits a mask keeps determine the fields inside it. *)
Lemma masked_field insn mask v p n : urange 32 insn -> 0 <= p -> 0 < n -> p + n <= 32 ->
  insn .& mask = v -> mask .& (Z.ones n .<< p) = Z.ones n .<< p ->
  bit_ext_u32 insn p n = wrap n (v .>> p).
Proof.
  intros Hi Hp Hn Hs E Hm. rewrite bit_ext_u32_eq by lia. subst v.
  apply Z.bits_inj'. intros i H0. rewrite !testbit_wrap, !testbit_shiftr, Z.land_spec by lia.
  destruct (Z.ltb_spec i n); [|done]. cbn [andb].
  assert (Z.testbit (Z.ones n .<< p) (i + p) = true) as Hb.
  { rewrite testbit_shiftl by lia. replace (i + p - p) with i by lia. rewrite testbit_ones by lia. by apply Z.ltb_lt. }
  pose proof (f_equal (fun z => Z.testbit z (i + p)) Hm) as Hq. cbn beta in Hq.
  rewrite Z.land_spec, Hb, andb_true_r in Hq. by rewrite Hq, andb_true_r.
Qed.

Lemma sfence_dispatch `{Env} vm insn : urange 32 insn -> insn .& RISCV_SFENCE_MASK = RISCV_SFENCE_VMA ->
  riscv_mstatus_allowed vm CSR_STATUS_TVM = true ->
  riscv_emulate_opc_system vm insn =
  if f_rs1 insn =? 0 then riscv_tlb_flush vm else riscv_tlb_flush_page vm (reg vm (f_rs1 insn)).
Proof.
  intros Hi E Ha. unfold riscv_emulate_opc_system.
  assert (forall k, k .& RISCV_SFENCE_MASK <> RISCV_SFENCE_VMA -> (insn =? k) = false) as Hk.
  { intros k Hk. apply Z.eqb_neq. congruence. }
  rewrite !Hk by (vm_compute; discriminate). cbn [andb orb]. unfold emulate_system_funct3.
  rewrite (masked_field insn RISCV_SFENCE_MASK RISCV_SFENCE_VMA 12 3) by (done || lia).
  change (wrap 3 (RISCV_SFENCE_VMA .>> 12)) with 0. cbv zeta. eval_cmp. rewrite E, Ha, f_rs1_eq. eval_cmp.
  unfold nz. by destruct (f_rs1 insn =? 0).
Qed.

(** [sfence.vma], where it is allowed, removes from the TLB every translation, or every
    translation of the page of [rs1] and no other. *)
Theorem sfence_vma_flushes `{Env} vm insn k vpn :
  hart_wf vm -> urange 32 insn -> insn .& RISCV_SFENCE_MASK = RISCV_SFENCE_VMA ->
  riscv_mstatus_allowed vm CSR_STATUS_TVM = true -> urange 52 vpn ->
  tlb_lookup (riscv_emulate_opc_system vm insn) k vpn =
  if (f_rs1 insn =? 0) || (vpn =? vpn_of (reg vm (f_rs1 insn))) then None else tlb_lookup vm k vpn.
Proof.
  intros Hw Hi E Ha Hv. rewrite sfence_dispatch by done. destruct (f_rs1 insn =? 0).
  - by apply tlb_flush_lookup.
  - apply tlb_flush_page_lookup; [apply Hw|done].
Qed.

(** ** The invariant *)

Section SystemWf.
Context `{env : Env} {Henv : EnvOk env}.

Lemma sret_status_range st : urange 64 st -> urange 64 (sret_status st).
Proof. intros. unfold sret_status. cbv zeta. auto with rv. Qed.

Lemma mret_status_range st : urange 64 st -> urange 64 (mret_status st).
Proof. intros. unfold mret_status. cbv zeta. do 3 apply bit_replace_range. by case_match; [apply urange_land_l|]. Qed.

Lemma mpp_cut st level st' : (forall i, 0 <= i -> Z.testbit st' i = ret_status_bit level st i) ->
  bit_cut st 11 2 <> RISCV_PRIV_HYPERVISOR -> bit_cut st' 11 2 <> RISCV_PRIV_HYPERVISOR.
Proof.
  intros E Hm. destruct (Z.eqb_spec level RISCV_PRIV_MACHINE) as [->|Hl].
  - assert (bit_cut st' 11 2 = 0) as ->; [|done]. apply Z.bits_inj'. intros i Hi.
    rewrite testbit_bit_cut, E, Z.testbit_0_l by lia. unfold ret_status_bit. eval_cmp. split_index; done.
  - assert (bit_cut st' 11 2 = bit_cut st 11 2) as ->; [|done]. apply Z.bits_inj'. intros i Hi.
    rewrite !testbit_bit_cut, E by lia. unfold ret_status_bit. apply Z.eqb_neq in Hl. rewrite Hl. by split_index.
Qed.

Lemma return_wf vm level st priv : hart_wf vm -> urange 64 st -> valid_priv priv ->
  (forall i, 0 <= i -> Z.testbit st i = ret_status_bit level (status vm) i) ->
  hart_wf (riscv_hart_check_interrupts (riscv_switch_priv
    (set_reg RISCV_REG_PC (u64 (vm.(csr).(csr_epc) level - 4)) (set_status st vm)) priv)).
Proof.
  intros Hw Hs Hp E. apply check_interrupts_wf, switch_priv_wf; [done|]. apply set_reg_wf; [apply wrap_range; lia|].
  apply set_status_wf; [done|by eapply mpp_cut, wf_mpp, wf_csr|done].
Qed.

Lemma emulate_sret_wf vm : hart_wf vm -> hart_wf (emulate_sret vm).
Proof.
  intros Hw. rewrite emulate_sret_eq. apply return_wf; [done|apply sret_status_range, Hw| |].
  - pose proof (bit_ext_u32_range (status vm) 8 1 ltac:(lia) ltac:(lia) ltac:(lia)) as Hr. unfold urange in Hr.
    unfold valid_priv, RISCV_PRIV_USER, RISCV_PRIV_SUPERVISOR. lia.
  - intros. apply sret_status_bits; [apply Hw|done].
Qed.

Lemma emulate_mret_wf vm : hart_wf vm -> hart_wf (emulate_mret vm).
Proof.
  intros Hw. rewrite emulate_mret_eq. apply return_wf; [done|apply mret_status_range, Hw| |].
  - pose proof (wf_mpp _ (wf_csr _ Hw)) as Hm. rewrite bit_ext_u32_eq, <- bit_cut_eq by lia. fold (status vm) in Hm.
    pose proof (bit_cut_range (status vm) 11 2 2 ltac:(lia) ltac:(lia) ltac:(lia)) as Hr. unfold urange in Hr.
    unfold valid_priv, RISCV_PRIV_USER, RISCV_PRIV_SUPERVISOR, RISCV_PRIV_MACHINE, RISCV_PRIV_HYPERVISOR in *. lia.
  - intros. apply mret_status_bits; [apply Hw|done].
Qed.

Lemma wfi_loop_wf fuel vm : hart_wf vm -> hart_wf (wfi_loop fuel vm).
Proof.
  revert vm. induction fuel as [|fuel IH]; intros vm Hw; cbn [wfi_loop]; [done|].
  destruct (running vm); [|done]. by apply IH, check_timer_wf, env_wait.
Qed.

Lemma emulate_csr_wf vm insn rds id val op : hart_wf vm -> urange 32 insn -> urange 64 val ->
  hart_wf (emulate_csr vm insn rds id val op).
Proof.
  intros Hw Hi Hv. unfold emulate_csr. destruct (csr_op_ok vm id val op env_mimpid Hw Hv) as (H1 & H2 & _).
  destruct (riscv_csr_op vm id val op) as [[v d] ok]. cbn in H1, H2.
  destruct ok; [by apply set_reg_wf|by apply illegal_insn_wf].
Qed.

Lemma system_funct3_wf vm insn : hart_wf vm -> urange 32 insn -> hart_wf (emulate_system_funct3 vm insn).
Proof.
  intros Hw Hi. pose proof (fun r => wf_registers _ Hw r : urange 64 (reg vm r)) as Hr.
  assert (urange 64 (bit_ext_u32 insn 15 5)) as Hu.
  { eapply (urange_mono 5); [|apply bit_ext_u32_range]; lia. }
  assert (forall rds id val op, urange 64 val -> hart_wf (emulate_csr vm insn rds id val op)) as Hc
    by (intros; by apply emulate_csr_wf).
  pose proof (illegal_insn_wf vm insn Hi Hw).
  unfold emulate_system_funct3. cbv zeta.
  repeat match goal with |- hart_wf (if ?c then _ else _) => destruct c end; auto with rv.
Qed.

Lemma breakpoint_wf vm : hart_wf vm -> hart_wf (riscv_breakpoint vm).
Proof.
  intros Hw. unfold riscv_breakpoint. pose proof (env_gdbstub vm Hw) as Hg.
  destruct (machine_gdbstub vm); [|apply riscv_trap_wf; done].
  destruct (gdbstub_halt vm) as [v []]; cbn in Hg; [apply restart_at_pc_wf; [apply Hg|done]|apply riscv_trap_wf; done].
Qed.

Lemma opc_system_wf vm insn : hart_wf vm -> urange 32 insn -> hart_wf (riscv_emulate_opc_system vm insn).
Proof.
  intros Hw Hi. unfold riscv_emulate_opc_system.
  repeat match goal with
  | |- hart_wf (if ?c then _ else _) => destruct c
  | |- hart_wf vm => exact Hw
  | |- hart_wf (emulate_sret _) => exact (emulate_sret_wf vm Hw)
  | |- hart_wf (emulate_mret _) => exact (emulate_mret_wf vm Hw)
  | |- hart_wf (riscv_breakpoint _) => exact (breakpoint_wf vm Hw)
  | |- hart_wf (wfi_loop _ _) => exact (wfi_loop_wf _ vm Hw)
  | |- hart_wf (emulate_system_funct3 _ _) => exact (system_funct3_wf vm insn Hw Hi)
  end.
  apply riscv_trap_wf; [|done|exact Hw]. pose proof (wf_priv _ Hw) as [->|[->| ->]]; by vm_compute.
Qed.

Lemma cbo_zero_wf vm va : hart_wf vm -> urange 64 va -> hart_wf (riscv_cbo_zero vm va).
Proof.
  intros Hw Hv. unfold riscv_cbo_zero.
  pose proof (rmw_translate_wf vm (va .& not64 63) None 64 Hw ltac:(by apply urange_land_l) I) as Ht.
  destruct (riscv_rmw_translate _ _ _ _) as [[v p] d]. destruct Ht as [Ht _].
  destruct p; try done. apply set_host_wf; [|done]. apply put_bytes_valid; [apply Ht|apply (bytes_zeros 64)].
Qed.

Lemma opc_misc_mem_wf vm insn : hart_wf vm -> urange 32 insn -> hart_wf (riscv_emulate_opc_misc_mem vm insn).
Proof.
  intros Hw Hi. unfold riscv_emulate_opc_misc_mem. cbv zeta.
  repeat match goal with
  | |- hart_wf (if ?c then _ else _) => destruct c
  | |- hart_wf vm => exact Hw
  | |- hart_wf (riscv_illegal_insn _ _) => exact (illegal_insn_wf vm insn Hi Hw)
  | |- hart_wf (riscv_cbo_zero _ _) => exact (cbo_zero_wf vm _ Hw (wf_registers _ Hw _))
  end.
Qed.

End SystemWf.

#[export] Hint Resolve breakpoint_wf opc_system_wf opc_misc_mem_wf opc_amo_wf : rv.

(** ** Witnesses *)

(** M mode after a trap from U mode, and S mode. *)
Lemma mret_returns_witness :
  (@riscv_emulate_insn demo_env no_fpu RV64 demo_hart RISCV_INSN_MRET).(priv_mode) = RISCV_PRIV_USER.
Proof. exact (proj1 (@mret_returns demo_env no_fpu RV64 demo_hart demo_hart_wf eq_refl)). Defined.

Lemma sret_returns_witness :
  (@riscv_emulate_insn demo_env no_fpu RV64 demo_paged_hart RISCV_INSN_SRET).(priv_mode) = RISCV_PRIV_USER.
Proof. exact (proj1 (@sret_returns demo_env no_fpu RV64 demo_paged_hart demo_paged_hart_wf eq_refl)). Defined.

Lemma trap_return_roundtrip_witness :
  (@riscv_emulate_insn demo_env no_fpu RV64
    (commit_trap (riscv_trap demo_paged_hart RISCV_TRAP_ILL_INSN 7)) RISCV_INSN_MRET).(priv_mode) = RISCV_PRIV_SUPERVISOR.
Proof.
  refine (proj1 (@trap_return_roundtrip demo_env no_fpu RV64 demo_paged_hart RISCV_TRAP_ILL_INSN 7
    demo_paged_hart_wf eq_refl eq_refl _ _ eq_refl)); by vm_compute.
Defined.

(** [csrrw x0, mstatus, x1] in S mode. *)
Lemma system_confined_witness : confined demo_paged_hart (@riscv_emulate_opc_system demo_env demo_paged_hart 0x30009073).
Proof.
  refine (@system_confined demo_env demo_paged_hart 0x30009073 demo_paged_hart_wf _ _ eq_refl _);
    [intros _; reflexivity|discriminate|discriminate].
Defined.

(** [sfence.vma x0, x0]. *)
Lemma sfence_vma_flushes_witness :
  tlb_lookup (@riscv_emulate_opc_system demo_env demo_hart 0x12000073) AccR 0x80000 = None.
Proof.
  refine (@sfence_vma_flushes demo_env demo_hart 0x12000073 AccR 0x80000 demo_hart_wf _ eq_refl eq_refl _);
    by vm_compute.
Defined.
