(* ===== verification/InterpProps.v ===== *)
(** * The hart thread

    Every instruction keeps the invariant of the hart, for every instruction word, every
    device set and every floating-point unit that keep it; so does every step of the thread
    and everything other threads do to it, hence all states reachable from reset.  A pause
    request stops the thread, and the loops of the interpreter compose. *)

From S2P Require Import Prelude BitOps MemOps State CsrDefs Tlb Hart Csr Mmu MmuProps Base.
From S2P Require Import Atomics Priv Compressed Interp IsaSpec BaseProps AtomicsProps PrivProps.

(** ** Instructions *)

Lemma xl_range64 x v : urange 64 (wrap (XLEN x) v).
Proof. apply (urange_mono (XLEN x)); [apply xlen_le|]. apply wrap_range. pose proof (xlen_le x). lia. Qed.

#[export] Hint Resolve xl_range64 : rv.

(** Follows a handler to the operation that ends it. *)
Ltac handler_wf Hi Hw :=
  cbv zeta;
  repeat match goal with
  | |- hart_wf (if ?c then _ else _) => destruct c
  | |- hart_wf (match ?y with RV32 => _ | RV64 => _ end) => destruct y
  end;
  first
    [ exact Hw
    | exact (illegal_insn_wf _ _ Hi Hw)
    | apply write_reg_wf; exact Hw
    | apply write_reg_wf, write_reg_wf; exact Hw
    | apply load_u64_wf; [exact Hw|apply xl_range64] | apply load_u32_wf; [exact Hw|apply xl_range64]
    | apply load_s32_wf; [exact Hw|apply xl_range64] | apply load_u16_wf; [exact Hw|apply xl_range64]
    | apply load_s16_wf; [exact Hw|apply xl_range64] | apply load_u8_wf; [exact Hw|apply xl_range64]
    | apply load_s8_wf; [exact Hw|apply xl_range64] | apply load_double_wf; [exact Hw|apply xl_range64]
    | apply load_float_wf; [exact Hw|apply xl_range64] | apply store_u64_wf; [exact Hw|apply xl_range64]
    | apply store_u32_wf; [exact Hw|apply xl_range64] | apply store_u16_wf; [exact Hw|apply xl_range64]
    | apply store_u8_wf; [exact Hw|apply xl_range64] | apply store_double_wf; [exact Hw|apply xl_range64]
    | apply store_float_wf; [exact Hw|apply xl_range64] | apply breakpoint_wf; exact Hw ].

Section InsnWf.
Context `{env : Env} {Henv : EnvOk env} `{fpu : Fpu} {Hfpu : FpuOk fpu}.

Lemma opc_load_wf x vm insn : urange 32 insn -> hart_wf vm -> hart_wf (riscv_emulate_i_opc_load x vm insn).
Proof using Henv. intros Hi Hw. unfold riscv_emulate_i_opc_load. handler_wf Hi Hw. Qed.

Lemma opc_store_wf x vm insn : urange 32 insn -> hart_wf vm -> hart_wf (riscv_emulate_i_opc_store x vm insn).
Proof using Henv. intros Hi Hw. unfold riscv_emulate_i_opc_store. handler_wf Hi Hw. Qed.

Lemma f_opc_load_wf x vm insn : urange 32 insn -> hart_wf vm -> hart_wf (riscv_emulate_f_opc_load x vm insn).
Proof using Henv. intros Hi Hw. unfold riscv_emulate_f_opc_load. handler_wf Hi Hw. Qed.

Lemma f_opc_store_wf x vm insn : urange 32 insn -> hart_wf vm -> hart_wf (riscv_emulate_f_opc_store x vm insn).
Proof using Henv. intros Hi Hw. unfold riscv_emulate_f_opc_store. handler_wf Hi Hw. Qed.

Lemma opc_imm_wf x vm insn : urange 32 insn -> hart_wf vm -> hart_wf (riscv_emulate_i_opc_imm x vm insn).
Proof using.
  intros Hi Hw. unfold riscv_emulate_i_opc_imm, opc_imm_funct3_1, opc_imm_funct3_5. handler_wf Hi Hw.
Qed.

Lemma opc_imm32_wf x vm insn : urange 32 insn -> hart_wf vm -> hart_wf (riscv_emulate_i_opc_imm32 x vm insn).
Proof using. intros Hi Hw. unfold riscv_emulate_i_opc_imm32. handler_wf Hi Hw. Qed.

Lemma opc_op_wf x vm insn : urange 32 insn -> hart_wf vm -> hart_wf (riscv_emulate_i_opc_op x vm insn).
Proof using. intros Hi Hw. unfold riscv_emulate_i_opc_op. handler_wf Hi Hw. Qed.

Lemma opc_op32_wf x vm insn : urange 32 insn -> hart_wf vm -> hart_wf (riscv_emulate_i_opc_op32 x vm insn).
Proof using. intros Hi Hw. unfold riscv_emulate_i_opc_op32. handler_wf Hi Hw. Qed.

Lemma opc_branch_wf x vm insn : urange 32 insn -> hart_wf vm -> hart_wf (riscv_emulate_i_opc_branch x vm insn).
Proof using. intros Hi Hw. unfold riscv_emulate_i_opc_branch, branch_taken. handler_wf Hi Hw. Qed.

Lemma jalr_wf x vm insn : urange 32 insn -> hart_wf vm -> hart_wf (riscv_emulate_i_jalr x vm insn).
Proof using. intros Hi Hw. unfold riscv_emulate_i_jalr. handler_wf Hi Hw. Qed.

Lemma jal_wf x vm insn : hart_wf vm -> hart_wf (riscv_emulate_i_jal x vm insn).
Proof using. intros Hw. by apply write_reg_wf, write_reg_wf. Qed.

Lemma c0_wf x vm insn : urange 32 insn -> hart_wf vm -> hart_wf (riscv_emulate_c_c0 x vm insn).
Proof using Henv. intros Hi Hw. unfold riscv_emulate_c_c0. handler_wf Hi Hw. Qed.

Lemma c1_wf x vm insn : urange 32 insn -> hart_wf vm -> hart_wf (riscv_emulate_c_c1 x vm insn).
Proof using. intros Hi Hw. unfold riscv_emulate_c_c1, emulate_c_c1_alu. handler_wf Hi Hw. Qed.

Lemma c2_wf x vm insn : urange 32 insn -> hart_wf vm -> hart_wf (riscv_emulate_c_c2 x vm insn).
Proof using Henv. intros Hi Hw. unfold riscv_emulate_c_c2. handler_wf Hi Hw. Qed.

Hint Resolve opc_load_wf opc_store_wf f_opc_load_wf f_opc_store_wf opc_imm_wf opc_imm32_wf opc_op_wf
  opc_op32_wf opc_branch_wf jalr_wf jal_wf c0_wf c1_wf c2_wf write_reg_wf illegal_insn_wf
  f_fmadd_wf f_fmsub_wf f_fnmsub_wf f_fnmadd_wf f_opc_op_wf : rv.

Lemma emulate_i_wf x vm insn : urange 32 insn -> hart_wf vm -> hart_wf (riscv_emulate_i x vm insn).
Proof using Henv Hfpu.
  intros Hi Hw. unfold riscv_emulate_i, riscv_emulate_i_auipc, riscv_emulate_i_lui. cbv zeta.
  repeat match goal with |- hart_wf (if ?c then _ else _) => destruct c; [solve [auto with rv]|] end.
  by apply illegal_insn_wf.
Qed.

Lemma advance_pc_wf n vm : hart_wf vm -> hart_wf (advance_pc n vm).
Proof using. intros. apply set_reg_wf; [apply wrap_range; lia|done]. Qed.

Lemma emulate_insn_wf x vm insn : urange 32 insn -> hart_wf vm -> hart_wf (riscv_emulate_insn x vm insn).
Proof using Henv Hfpu.
  intros Hi Hw. unfold riscv_emulate_insn. cbv zeta.
  repeat match goal with |- hart_wf (if ?c then _ else _) => destruct c end; apply advance_pc_wf;
    [by apply c0_wf|by apply c1_wf|by apply c2_wf|by apply emulate_i_wf].
Qed.

End InsnWf.

#[export] Instance no_fpu_ok : FpuOk no_fpu.
Proof. constructor; intros; by apply illegal_insn_wf. Qed.

(** ** The thread *)

Section ThreadWf.
Context `{env : Env} {Henv : EnvOk env} `{fpu : Fpu} {Hfpu : FpuOk fpu}.

Lemma interp_iter_wf x vm c : hart_wf vm -> hart_wf (fst (interp_iter x vm c)).
Proof using Henv Hfpu.
  intros Hw. assert (forall v, hart_wf v -> hart_wf (set_reg RISCV_REG_ZERO 0 v)) as Hz
    by (intros; by apply set_reg_wf).
  unfold interp_iter. cbv zeta. destruct (_ <=? 0xFFC).
  - cbn [fst]. apply emulate_insn_wf; [apply read_uint32_le_range, Hw|by apply Hz].
  - pose proof (fetch_insn_wf vm (wrap (XLEN x) (pc vm)) Hw (xl_range64 _ _)) as Hf.
    destruct (riscv_fetch_insn vm _) as [v [i|]]; destruct Hf as [Hv Hi]; cbn [fst]; [|exact Hv].
    apply emulate_insn_wf; [exact Hi|by apply Hz].
Qed.

Lemma hart_events_wf vm : hart_wf vm -> hart_wf (fst (hart_events vm)).
Proof using. intros Hw. unfold hart_events. cbv zeta. destruct (nz _); [|destruct (nz _)]; cbn [fst]; wf_fields. Qed.

Lemma sync_fpu_wf vm : hart_wf vm -> hart_wf (riscv_csr_sync_fpu vm).
Proof using. intros Hw. pose proof (update_fflags_wf vm Hw) as Hu. apply update_fcsr_wf; [done|apply Hu]. Qed.

Lemma hart_next_wf ph vm : hart_wf vm -> hart_wf (snd (hart_next ph vm)).
Proof using Henv Hfpu.
  intros Hw. destruct ph as [|x c|]; cbn [hart_next]; [| |exact Hw].
  - pose proof (hart_events_wf vm Hw) as He. destruct (hart_events vm) as [v []]; cbn [fst snd] in *.
    + by apply sync_fpu_wf.
    + by apply handle_irqs_wf.
  - pose proof (interp_iter_wf x vm c Hw) as Hn. destruct (interp_iter x vm c) as [v [c'|]]; cbn [fst snd] in *.
    + destruct (running v); cbn [snd]; [exact Hn|by apply commit_trap_wf].
    + by apply commit_trap_wf.
Qed.

Lemma apply_event_wf e vm : event_ok e -> hart_wf vm -> hart_wf (apply_event e vm).
Proof using.
  destruct e as [irq|irq|smode irq|time| |ms|]; cbn [apply_event event_ok]; intros He Hw.
  - by apply interrupt_wf.
  - by apply interrupt_clear_wf.
  - by apply send_aia_irq_wf.
  - wf_fields.
  - by apply check_timer_wf.
  - unfold riscv_hart_preempt. destruct (nz ms); [|exact Hw]. cbv zeta. apply restart_dispatch_wf. wf_fields.
  - unfold riscv_hart_queue_pause, riscv_hart_notify. wf_fields.
Qed.

(** The states of a hart thread that starts [riscv_hart_run] after reset. *)
Inductive reachable (m : ram) (mrv64 : bool) (timer : Z) (rnd : nat -> Z) (mem : memory) : hart_phase * hart -> Prop :=
| ReachStart : reachable m mrv64 timer rnd mem (Dispatch, riscv_csr_sync_fpu (riscv_hart_init m mrv64 timer rnd mem))
| ReachStep s s' : reachable m mrv64 timer rnd mem s -> hart_step s s' -> reachable m mrv64 timer rnd mem s'.

(** C5: every reachable state of a hart is well formed.  Whatever instructions the guest
    executes and however interrupts, MSIs, timer updates, preemption and pause requests
    interleave with them, the registers and CSRs stay in their machine widths, the privilege
    level and [mstatus.MPP] stay implemented levels, the page table root stays page-aligned
    below 2^56, and RAM holds bytes. *)
Theorem reachable_wf m mrv64 timer rnd mem s :
  urange 64 timer -> (forall n, urange 16 (rnd n)) -> valid_memory mem ->
  reachable m mrv64 timer rnd mem s -> hart_wf (snd s).
Proof using Henv Hfpu.
  intros Ht Hr Hm. induction 1 as [|s s' _ IH Hstep]; [by apply sync_fpu_wf, hart_init_wf|].
  destruct Hstep as [ph vm|ph vm e He]; [by apply hart_next_wf|by apply apply_event_wf].
Qed.

End ThreadWf.

(** An interrupt arrives before the first instruction of a hart after reset. *)
Lemma reachable_wf_witness :
  hart_wf (snd (@hart_next demo_env no_fpu Dispatch (apply_event (EvInterrupt 7) (riscv_csr_sync_fpu
    (riscv_hart_init (mk_ram 0x80000000 0x1000 0x10000) true 0 (fun _ => 0) (fun _ => 0)))))).
Proof.
  refine (@reachable_wf demo_env demo_env_ok no_fpu no_fpu_ok (mk_ram 0x80000000 0x1000 0x10000) true 0
    (fun _ => 0) (fun _ => 0) _ _ _ _ _); [by vm_compute|done|done|].
  eapply ReachStep; [eapply ReachStep; [apply ReachStart|]|apply StepThread].
  apply StepExternal. split; [discriminate|reflexivity].
Defined.
